(* ===== verification/_CoqProject ===== *)
-Q . S2P
Prelude.v
Text.v
Collections.v
JsDate.v
Encoding.v
Upload.v
Unicode.v
William3.v
Drop.v
Mapping.v
MoneyParser.v
MoneyIdentity.v
MoneyLedger.v
MoneyCheck.v
Reconcile.v
Index.v
Uri.v
Marker.v
IdMap.v
Events.v
Background.v
Engine.v
Storage.v
Json.v
Pagination.v
Pages.v
Resources.v
Client.v
ClientSync.v
ReadModel.v
Read.v
Observations.v
ObservationLog.v
Zones.v
Clockify.v
Timeline.v
Projection.v
Sheet.v
HostStore.v
SheetSync.v
Schema.v
JsonParse.v
Civil.v
CalendarAdapter.v
CalendarRelay.v
CalendarSync.v
CalendarTime.v
CalendarEvents.v
Atomic.v
AtomicIdentity.v
AtomicLens.v
