(* ===== verification/Prelude.v ===== *)
(** * A verification library for atomic-plugins

    This library models the parts of the repository that carry its own logic
    and proves what makes them correct.  A model is a shallow embedding: each
    TypeScript function or method under [src/] is a Rocq function of the same
    name that evaluates, each data type a record or an inductive type.

    ** The program

    The repository is a set of plugins for an Atomic Data host, and the
    libraries they are built from.

    - [devonian] keeps records of several systems equivalent: it decides what a
      change means ([reconcileRecord]), which local ids name one thing
      ([DevonianIndex], [IdentityMap]), and reflects records from one live
      client to another ([reflect/engine]).
    - [syncables] talks to a provider described by an OpenAPI document: it pages
      through lists ([read]), and keeps a local copy that is written first and
      sent later ([client]).
    - [reflector] is the service that runs such copies against many providers.
    - [integrations] are the plugins: Willow Drop, Money, Timesheets, Calendar,
      Notion, the issue tracker.  Each reads what a provider or a file says and
      stores it through the host.

    ** The conventions

    - A throwing function returns [res E A] ([Prelude]).  A function that throws
      after changing something returns the changed state with the error.
    - Text is the list of its UTF-16 code units.  Bytes, 32-bit words and BigInts
      are integers, with every reduction written out.  A number is an integer,
      [NaN] and [undefined] are [None].
    - An object used as a map, and a [Map], is the list of its entries in
      insertion order ([Collections]).  Where an object is shared, the model has
      a heap ([Client]) or indices into one list ([MoneyParser]).
    - Asynchronous code is a step relation over what is in flight where calls
      interleave ([Background], [Storage], [Client]), and a sequential function
      where it runs alone.
    - Code outside [src/] is a parameter, with what is relied on as the laws of a
      class or named hypotheses: Ed25519 ([Drop]), the stable stringifier
      ([Reconcile.StableStringify]), the host's store ([ObservationLog.Host], [HostStore.Drive], [SheetSync.Beside],
      [CalendarSync.Beside]), the merge a plugin imports
      ([CalendarAdapter.ThreeWay], of which [Reconcile]'s is an instance), the zones of [Intl] ([Zones.zone_law]:
      an offset per instant, within fourteen hours), the [URL] class ([Pages.Urls],
      [CalendarRelay.UrlClass], [AtomicIdentity.Urls]), [@tomic/lib]'s datatypes
      ([AtomicIdentity.Tomic]), a connector to a platform
      ([AtomicLens.Projects]), the transports and clocks, and the formats
      [Date.parse] and [Number] accept beyond the standard's own, which include
      a day that its month does not have.  Every theorem that supposes such a
      law has a witness with a concrete instance.  The clients that [Engine]
      reflects between are parameters without laws: what is said of a reflection
      is said of the calls it makes and their answers.

    ** The files

    - [Prelude], [Text], [Collections], [JsDate], [Civil], [Unicode], [Uri],
      [Json], [JsonParse]: results, tactics, JavaScript's text, maps, stable
      sorting, dates and the order of their texts, upper and lower case, URI
      components, JSON values, and [JSON.parse], which reads back what
      [JSON.stringify] wrote.
    - Willow Drop: [Encoding] (willow-drop/encoding.ts), [Upload] (upload.ts),
      [William3] (william3.ts), [Drop] (drop.ts), [Mapping] (mapping.ts).  An
      accepted drop contains only entries that were signed, and what the format
      writes is read back; the digest is the Bab tree's.
    - Money: [MoneyParser] (parser.ts, errors.ts), [MoneyIdentity] (identity.ts),
      [MoneyLedger] (app/amounts.ts, ledger.ts, rows.ts), [MoneyCheck]
      (app/check.ts).  What a statement file says is read exactly or refused with
      an error that says where and why, and the preview says what the import does.
    - Devonian: [Reconcile] (reconcileRecord.ts), [Index] (DevonianIndex.ts),
      [Events] (events.ts), [Marker], [IdMap], [Engine] (reflect/marker.ts,
      id-map.ts, engine.ts), [Storage] (storage/IndexedStorage.ts, InMemory.ts
      and DevonianTable.ensureOnStorage), [Background]
      (background/BackgroundSync.ts).  Reconciliation merges disjoint changes and
      never overwrites a conflict; reflection asks for a copy of each record that
      has none and never for one of a copy; passes of a schedule exclude each
      other.  [Atomic] (atomic/Resource.ts, Store.ts), [AtomicIdentity]
      (IdentityMap.ts) and [AtomicLens] (Lens.ts): external ids and subjects
      stand for each other one to one in a scope, and a lens neither makes a
      second resource or record for what has one nor echoes what it ingested.
    - Syncables: [Pagination] (pagination/), [Pages] (read/pages.ts,
      transport.ts), [ReadModel] (read/model.ts, ontology.ts), [Read]
      (read/read.ts), [Resources] (resources/discover.ts, routing/router.ts,
      client/storage.ts, mock-server/store.ts), [Client] and [ClientSync]
      (client/client.ts).  A read ends, stays on the provider's origin and within
      its budget, reads a list whole when the provider counts it, and tells its
      records apart; the client's writes are a queue per record, of which none is
      lost, repeated or overtaken as long as no write is queued under an id that
      a create is about to receive (the index of [Client.reachable] says whether
      that has happened); a synchronisation takes over what each collection
      answered, and keeps what was not fetched or not modified.
    - Timesheets: [Observations] (timesheets/app/observations.ts) and
      [ObservationLog] (observationLog.ts).  Folding stored observations does not
      depend on the order they arrived in, and the log of a host that fails at any
      point still opens on what was confirmed, unless it was its very first write
      that failed (the index of [ObservationLog.session]).  [Zones] (app/timeZone.ts,
      model/time.ts), [Clockify] (app/transport.ts, clockifyObserve.ts),
      [Timeline] (lens/claims.ts, app/timeline/sweep.ts): a wall clock is read as
      exactly the instants that show it; a read of a range has every entry of the
      scope it records that the provider had when it was made, if none was deleted
      meanwhile, and an instant is unknown exactly when no read vouches for
      it; the timeline shows each instant of its days as what the claims on it
      make of it, whatever the order of the records.  [Projection] (clockifyApi.ts,
      lens/projection.ts, app/project.ts), [Sheet] (model/types.ts, views.ts,
      source.ts): the lens shows each entry as read off its own properties; the
      week's grid counts each entry once, and shares add up.  [HostStore]
      (app/store.ts) is the store a view receives, with a program logic for code
      that uses it; [SheetSync] (sync.ts) and [Schema] (schema.ts, ontology.ts)
      run on it: a pass touches the rows only when it read the entries of the whole
      range, and then there is a row for each of them with the values it has; the app's properties are made once.
    - Calendar: [CalendarAdapter] (calendar/adapter.ts), [CalendarRelay]
      (app/relay.ts), [CalendarSync] (app/sync.ts, on [HostStore] and the relay).
      A preview reads a calendar whole or fails, and merges each event with its
      row field by field; an edit is the least patch that makes Google's event
      say what the row says.  A request that leaves the app is a read, or a write
      that names the version it replaces, inside Google's API; a write that was
      not answered is told apart from one that was refused.  A refresh loses
      nothing on either side, a batch of edits tells the sent, the stale, the
      refused and the unknown apart by what Google answered, and stops when it is
      unknown, and a resolved conflict keeps what
      was chosen.  [CalendarTime] (app/time.ts, on [Zones]): the text an edit
      stores names the instant chosen.  [CalendarEvents] (app/events.ts): the
      pieces of an event are the minutes it takes of each day, and the week shows
      each of them once, side by side where they overlap.

    ** Bounds and fuel

    Loops that are not structural run on fuel, and a theorem or lemma says that
    the fuel given is enough: [Pages.walk_fuel] is one more than the requests the
    budget allows ([walk_terminates]), [Read.rounds] gets one round per
    collection ([readPlatform_terminates]), the decoder of [Drop] the length of
    its input, [ObservationLog.readChain] the length of the chain, and
    [Timeline.daysOf] a round per day and five more ([timeline_exact]).
    [JsonParse.JSON_parse] gets the length of its text ([JSON_parse_text]), and
    [CalendarEvents.dates] needs more rounds than the event has days
    ([segments_exact]).  The page caps of [CalendarAdapter.scan_pages] and
    [CalendarRelay.listCalendars] are the code's own.

    ** Not modelled

    - Rendering and event wiring of the plugins' user interfaces, their fake
      stores, harnesses and end-to-end tests.
    - Services in other languages ([integration-proxy]) and data files (overlays,
      ontologies).
    - HTTP, OAuth, files, service workers and timers: what they do is a parameter
      where modelled code depends on it.
    - Locale formatting ([Intl]), fractional JSON numbers, and names that clash
      with members of [Object.prototype].
    - The repository's own code that these models leave out: the camt.053 reader,
      the overlays and references of an OpenAPI document (the models start from
      the document they leave), the row API of [DevonianTable] and
      [DevonianLens], the reflector's sync engine, and the Notion and issue
      tracker plugins. *)

From Stdlib Require Export ZArith Lia.
From stdpp Require Export base list list_numbers strings gmap fin_maps numbers.
Export list_basics.list list_relations.list list_misc.list list_monad.list.

#[global] Set Default Goal Selector "!".

(** ** Results

    A throwing function returns a [res E A]: [Ok] with its value, or [Err]
    with the exception.  The stdpp monad notations apply to it. *)
Inductive res (E A : Type) : Type :=
| Ok (a : A)
| Err (e : E).
Arguments Ok {E A} _.
Arguments Err {E A} _.

#[global] Instance res_ret E : MRet (res E) := fun A a => Ok a.
#[global] Instance res_bind E : MBind (res E) :=
  fun A B f m => match m with Ok a => f a | Err e => Err e end.
#[global] Instance res_fmap E : FMap (res E) :=
  fun A B f m => match m with Ok a => Ok (f a) | Err e => Err e end.

(** [throw_if b e] is [if (b) throw e]. *)
Definition throw_if {E} (b : bool) (e : E) : res E unit :=
  if b then Err e else Ok tt.

(** The loop [for (const x of l) acc = f(acc, x)] whose body may throw. *)
Fixpoint foldM {E A B} (f : B -> A -> res E B) (acc : B) (l : list A) : res E B :=
  match l with
  | [] => Ok acc
  | x :: l' => acc' ← f acc x; foldM f acc' l'
  end.

Fixpoint mapR {E A B} (f : A -> res E B) (l : list A) : res E (list B) :=
  match l with
  | [] => Ok []
  | x :: l' => y ← f x; ys ← mapR f l'; Ok (y :: ys)
  end.

Lemma bind_Ok {E A B} (m : res E A) (f : A -> res E B) b :
  (m ≫= f) = Ok b <-> exists a, m = Ok a /\ f a = Ok b.
Proof.
  destruct m as [a|e]; cbn; split; [eauto| |done|].
  - intros (a' & [= ->] & H); exact H.
  - intros (a' & ? & _); done.
Qed.

Lemma mapR_app {E A B} (f : A -> res E B) l k : mapR f (l ++ k) = (xs ← mapR f l; ys ← mapR f k; Ok (xs ++ ys)).
Proof.
  induction l as [|x l IH]; cbn.
  - by destruct (mapR f k).
  - rewrite IH. destruct (f x); cbn; [|done]. destruct (mapR f l); cbn; [|done]. by destruct (mapR f k).
Qed.

Lemma mapR_ok {E A B} (f : A -> res E B) (g : A -> B) l : (forall x, x ∈ l -> f x = Ok (g x)) -> mapR f l = Ok (map g l).
Proof.
  induction l as [|x l IH]; intros H; [done|]. cbn. rewrite H by by left. cbn. rewrite IH; [done|]. intros y Hy. apply H. by right.
Qed.

Lemma mapR_map {E A B C} (f : B -> res E C) (g : A -> B) l : mapR (fun x => f (g x)) l = mapR f (map g l).
Proof. induction l as [|x l IH]; [done|]. cbn. destruct (f (g x)); [|done]. cbn. by rewrite IH. Qed.

Lemma foldM_app {E A B} (f : B -> A -> res E B) l1 l2 acc :
  foldM f acc (l1 ++ l2) = (foldM f acc l1 ≫= fun b => foldM f b l2).
Proof.
  revert acc; induction l1 as [|x l1 IH]; intros acc; [done|].
  cbn. destruct (f acc x) as [b|e]; cbn; [apply IH|done].
Qed.

Lemma foldM_inv {E A B} (P : B -> Prop) (f : B -> A -> res E B) l acc b :
  P acc ->
  (forall b x b', P b -> x ∈ l -> f b x = Ok b' -> P b') ->
  foldM f acc l = Ok b -> P b.
Proof.
  revert acc; induction l as [|x l IH]; intros acc Hacc Hstep; cbn.
  - naive_solver.
  - intros (b' & Hb' & Hrest)%bind_Ok.
    eapply (IH b'); [|intros; eapply Hstep; eauto; by right|done].
    eapply Hstep; [exact Hacc|by left|done].
Qed.

(** A loop throws what its body throws at the first element where it does. *)
Lemma foldM_err {E A B} (f : B -> A -> res E B) l acc e :
  foldM f acc l = Err e <->
  exists k x b, l !! k = Some x /\ foldM f acc (take k l) = Ok b /\ f b x = Err e.
Proof.
  revert acc; induction l as [|x l IH]; intros acc; cbn [foldM].
  - split; [done|]. by intros (k & x & b & [=] & _).
  - destruct (f acc x) as [b|e'] eqn:Hx; cbn [mbind res_bind].
    + rewrite IH. split.
      * intros (k & y & b' & Hk & Hb' & Hy). exists (S k), y, b'. cbn [take foldM]. by rewrite Hx.
      * intros ([|k] & y & b' & Hk & Hb' & Hy).
        -- cbn in Hk, Hb'. congruence.
        -- exists k, y, b'. cbn [take foldM] in Hb'. by rewrite Hx in Hb'.
    + split.
      * intros [= <-]. by exists 0%nat, x, acc.
      * intros ([|k] & y & b' & Hk & Hb' & Hy).
        -- cbn in Hk, Hb'. congruence.
        -- cbn [take foldM] in Hb'. by rewrite Hx in Hb'.
Qed.

(** ** Tactics *)

(** Case analysis on the scrutinee of a match, conditional or [bind] in a
    hypothesis or the goal, keeping its equation. *)
Ltac case_in H :=
  match type of H with
  | context [match ?x with _ => _ end] =>
      let E := fresh "E" in destruct x eqn:E; cbn in H; try discriminate H
  end.

Ltac case_goal :=
  match goal with
  | |- context [match ?x with _ => _ end] =>
      let E := fresh "E" in destruct x eqn:E; cbn
  end.

(** Turn boolean facts in the context into propositions. *)
Ltac breflect :=
  repeat match goal with
  | H : (_ && _)%bool = true |- _ => apply andb_true_iff in H; destruct H
  | H : (_ || _)%bool = false |- _ => apply orb_false_iff in H; destruct H
  | H : (_ && _)%bool = false |- _ => apply andb_false_iff in H
  | H : (_ || _)%bool = true |- _ => apply orb_true_iff in H
  | H : negb _ = true |- _ => apply negb_true_iff in H
  | H : negb _ = false |- _ => apply negb_false_iff in H
  | H : (_ <? _)%Z = true |- _ => apply Z.ltb_lt in H
  | H : (_ <? _)%Z = false |- _ => apply Z.ltb_ge in H
  | H : (_ <=? _)%Z = true |- _ => apply Z.leb_le in H
  | H : (_ <=? _)%Z = false |- _ => apply Z.leb_gt in H
  | H : (_ =? _)%Z = true |- _ => apply Z.eqb_eq in H
  | H : (_ =? _)%Z = false |- _ => apply Z.eqb_neq in H
  | H : bool_decide _ = true |- _ => apply bool_decide_eq_true in H
  | H : bool_decide _ = false |- _ => apply bool_decide_eq_false in H
  end.

(** Linear arithmetic with division and remainder by constants. *)
Ltac dlia := Z.div_mod_to_equations; lia.

(** Split the [Forall] hypotheses over explicit lists. *)
Ltac forall_split :=
  repeat match goal with
  | H : Forall _ (_ :: _) |- _ => apply Forall_cons in H as [? ?]
  end.

(** A decidable closed fact, by evaluation. *)
Ltac by_decide := apply (bool_decide_unpack _); vm_compute; exact I.

(** Equality of lists of integer expressions, element by element. *)
Ltac list_arith := repeat first [reflexivity | dlia | f_equal].

(** ** Text

    A JavaScript string is the list of its UTF-16 code units.  [js] writes an
    ASCII literal. *)
Abbreviation jstr := (list Z) (only parsing).

Definition js (s : string) : jstr :=
  map (fun c => Z.of_N (Ascii.N_of_ascii c)) (String.list_ascii_of_string s).
Arguments js !s /.

(** ** Bytes and machine words *)
Local Open Scope Z_scope.

Definition is_byte (b : Z) : Prop := 0 <= b < 256.
#[global] Instance is_byte_dec b : Decision (is_byte b).
Proof. unfold is_byte. apply _. Defined.

(** [x >>> 0]: reading a number as an unsigned 32-bit integer. *)
Definition u32 (x : Z) : Z := x mod 2 ^ 32.

(** The signed 32-bit integer JavaScript's bit operators work on. *)
Definition i32 (x : Z) : Z := (x + 2 ^ 31) mod 2 ^ 32 - 2 ^ 31.

Definition js_shl (x n : Z) : Z := i32 (Z.shiftl (i32 x) (n mod 32)).
Definition js_shr (x n : Z) : Z := Z.shiftr (i32 x) (n mod 32).
Definition js_or (x y : Z) : Z := Z.lor (i32 x) (i32 y).
Definition js_and (x y : Z) : Z := Z.land (i32 x) (i32 y).
Definition js_xor (x y : Z) : Z := Z.lxor (i32 x) (i32 y).
Definition js_ushr (x n : Z) : Z := Z.shiftr (u32 x) (n mod 32).

Lemma i32_small x : - 2 ^ 31 <= x < 2 ^ 31 -> i32 x = x.
Proof. intros. unfold i32. rewrite Z.mod_small; lia. Qed.

Lemma i32_range x : - 2 ^ 31 <= i32 x < 2 ^ 31.
Proof. unfold i32. pose proof (Z.mod_pos_bound (x + 2 ^ 31) (2 ^ 32)). lia. Qed.

Lemma i32_mod x : i32 x mod 2 ^ 32 = x mod 2 ^ 32.
Proof.
  unfold i32. rewrite Zminus_mod_idemp_l. f_equal. lia.
Qed.

Lemma u32_range x : 0 <= u32 x < 2 ^ 32.
Proof. apply Z.mod_pos_bound. lia. Qed.

Lemma u32_small x : 0 <= x < 2 ^ 32 -> u32 x = x.
Proof. intros. apply Z.mod_small; lia. Qed.

(** Disjoint bits: a multiple of a power of two and a value below it. *)
Lemma land_mul_low a b k : 0 <= k -> 0 <= b < 2 ^ k -> Z.land (a * 2 ^ k) b = 0.
Proof.
  intros Hk Hb. apply Z.bits_inj_0; intros i. rewrite Z.land_spec.
  destruct (decide (i < 0)); [by rewrite Z.testbit_neg_r by lia|].
  destruct (decide (i < k)); [by rewrite Z.mul_pow2_bits_low by lia|].
  rewrite <-(Z.mod_small b (2 ^ k)) by done.
  rewrite Z.mod_pow2_bits_high by lia. apply andb_false_r.
Qed.

Lemma lor_mul_add a b k : 0 <= k -> 0 <= b < 2 ^ k -> Z.lor (a * 2 ^ k) b = a * 2 ^ k + b.
Proof. intros. rewrite <-(Z.add_lor_land (a * 2 ^ k) b), land_mul_low by done. lia. Qed.

Lemma lor_shiftl_add a b k : 0 <= k -> 0 <= b < 2 ^ k -> Z.lor (Z.shiftl a k) b = a * 2 ^ k + b.
Proof. intros. rewrite Z.shiftl_mul_pow2 by done. by apply lor_mul_add. Qed.

Lemma land_ones_low x k : 0 <= k -> Z.land x (Z.shiftl 1 k - 1) = x mod 2 ^ k.
Proof.
  intros Hk. rewrite Z.shiftl_1_l, <-Z.land_ones by done. f_equal.
  rewrite Z.ones_equiv. lia.
Qed.

Lemma shiftr_add_low a b k : 0 <= k -> 0 <= b < 2 ^ k -> Z.shiftr (a * 2 ^ k + b) k = a.
Proof.
  intros. rewrite Z.shiftr_div_pow2, Z.div_add_l, Z.div_small by lia. lia.
Qed.

(** A boolean property of bytes is checked on all 256 of them. *)
Lemma forall_byte (P : Z -> bool) :
  forallb P (map Z.of_nat (seq 0 256)) = true -> forall b, is_byte b -> P b = true.
Proof.
  intros HP b Hb. rewrite forallb_forall in HP. apply HP.
  apply in_map_iff. exists (Z.to_nat b). unfold is_byte in Hb.
  split; [lia|]. apply in_seq. lia.
Qed.

(** White space: what [\s] matches and [trim] removes. *)
Definition is_ws (c : Z) : bool :=
  ((9 <=? c) && (c <=? 13)) || (c =? 32) || (c =? 160) || (c =? 5760)
  || ((8192 <=? c) && (c <=? 8202)) || (c =? 8232) || (c =? 8233)
  || (c =? 8239) || (c =? 8287) || (c =? 12288) || (c =? 65279).

(** [s.trim()]. *)
Fixpoint drop_ws (s : jstr) : jstr :=
  match s with c :: s' => if is_ws c then drop_ws s' else s | [] => [] end.
Definition trim (s : jstr) : jstr := reverse (drop_ws (reverse (drop_ws s))).

(** ** Lists *)

Definition len {A} (l : list A) : Z := Z.of_nat (length l).

Lemma len_nonneg {A} (l : list A) : 0 <= len l.
Proof. unfold len. lia. Qed.

Lemma len_app {A} (l k : list A) : len (l ++ k) = len l + len k.
Proof. unfold len. rewrite length_app. lia. Qed.

(** [l.slice(from, to)] for indices in range. *)
Definition slice {A} (from to : nat) (l : list A) : list A := take (to - from) (drop from l).

Lemma imap_pair_map {A B} (f : nat -> A -> B) l :
  imap f l = map (fun p => f p.1 p.2) (imap pair l).
Proof.
  revert B f; induction l as [|x l IH]; intros B f; [done|].
  change (imap f (x :: l)) with (f 0%nat x :: imap (f ∘ S) l).
  change (imap pair (x :: l)) with ((0%nat, x) :: imap (pair ∘ S) l).
  cbn [map fst snd]. f_equal. rewrite (IH _ (f ∘ S)), (IH _ (pair ∘ S)), map_map. done.
Qed.

Lemma foldM_map {E A B C} (f : C -> B -> res E C) (g : A -> B) l acc :
  foldM f acc (map g l) = foldM (fun acc x => f acc (g x)) acc l.
Proof.
  revert acc; induction l as [|x l IH]; intros acc; [done|]. cbn.
  destruct (f acc (g x)); cbn; [apply IH|done].
Qed.

Lemma foldM_ext {E A B} (f g : B -> A -> res E B) l acc :
  (forall acc x, f acc x = g acc x) -> foldM f acc l = foldM g acc l.
Proof.
  intros Hfg; revert acc; induction l as [|x l IH]; intros acc; [done|]. cbn. rewrite Hfg.
  destruct (g acc x); cbn; [apply IH|done].
Qed.

Lemma elem_of_imap_pair {A} (l : list A) i x : (i, x) ∈ imap pair l <-> l !! i = Some x.
Proof.
  rewrite list_elem_of_lookup. setoid_rewrite list_lookup_imap_Some. split.
  - intros (j & y & Hy & [= <- <-]). done.
  - intros H. by exists i, x.
Qed.

Lemma filter_Permutation {A} (f : A -> bool) l k : l ≡ₚ k -> List.filter f l ≡ₚ List.filter f k.
Proof.
  induction 1 as [|x l k _ IH|x y l|l k m _ IH1 _ IH2]; cbn; [done| | |by etrans].
  - destruct (f x); [by rewrite IH|done].
  - destruct (f x), (f y); try done. constructor.
Qed.

Lemma filter_length_id {A} (f : A -> bool) l : (forall x, x ∈ l -> f x = true) -> List.filter f l = l.
Proof.
  induction l as [|x l IH]; intros H; [done|]. cbn. rewrite H by (by left).
  f_equal. apply IH. intros y Hy. apply H. by right.
Qed.

Definition sum_Z (l : list Z) : Z := foldr Z.add 0 l.

Lemma sum_Z_app l1 l2 : sum_Z (l1 ++ l2) = sum_Z l1 + sum_Z l2.
Proof. induction l1; cbn; unfold sum_Z in *; lia. Qed.

Lemma fold_left_sum {A} (f : A -> Z) l acc :
  fold_left (fun s x => s + f x) l acc = acc + sum_Z (map f l).
Proof. revert acc; induction l; intros acc; cbn; [lia|]. rewrite IHl. unfold sum_Z. lia. Qed.

Lemma sum_Z_nonneg l : Forall (fun x => 0 <= x) l -> 0 <= sum_Z l.
Proof. induction 1; cbn; unfold sum_Z in *; lia. Qed.

(** Stable sort by a comparator returning a number, as [Array.sort] is
    specified: [x] goes after every [y] that does not compare above it. *)
Fixpoint insert_by {A} (cmp : A -> A -> Z) (x : A) (l : list A) : list A :=
  match l with
  | [] => [x]
  | y :: l' => if cmp y x <=? 0 then y :: insert_by cmp x l' else x :: y :: l'
  end.

Definition sort_by {A} (cmp : A -> A -> Z) (l : list A) : list A :=
  foldl (fun acc x => insert_by cmp x acc) [] l.

Lemma insert_by_perm {A} (cmp : A -> A -> Z) x l : insert_by cmp x l ≡ₚ x :: l.
Proof.
  induction l as [|y l IH]; cbn; [done|]. case_match; [|done].
  rewrite IH. apply Permutation_swap.
Qed.

Lemma sort_by_perm {A} (cmp : A -> A -> Z) l : sort_by cmp l ≡ₚ l.
Proof.
  unfold sort_by.
  enough (H : forall acc, foldl (fun acc x => insert_by cmp x acc) acc l ≡ₚ l ++ acc).
  { rewrite (H []). by rewrite app_nil_r. }
  induction l as [|x l IH]; intros acc; cbn; [done|].
  rewrite IH, insert_by_perm. symmetry. apply Permutation_middle.
Qed.

(** Code-unit order of strings, JavaScript's [<]. *)
Fixpoint jcompare (a b : jstr) : comparison :=
  match a, b with
  | [], [] => Eq
  | [], _ => Lt
  | _, [] => Gt
  | x :: a', y :: b' => match x ?= y with Eq => jcompare a' b' | c => c end
  end.
Definition jltb (a b : jstr) : bool := match jcompare a b with Lt => true | _ => false end.

Lemma jcompare_eq a b : jcompare a b = Eq <-> a = b.
Proof.
  revert b; induction a as [|x a IH]; intros [|y b]; cbn; try done.
  destruct (Z.compare_spec x y) as [->|H|H].
  - rewrite IH. split; [by intros ->|congruence].
  - split; [done|]. intros [= -> ->]. lia.
  - split; [done|]. intros [= -> ->]. lia.
Qed.

Lemma jcompare_antisym a b : jcompare b a = CompOpp (jcompare a b).
Proof.
  revert b; induction a as [|x a IH]; intros [|y b]; cbn; try done.
  rewrite (Z.compare_antisym x y). destruct (x ?= y); cbn; auto.
Qed.

Lemma jltb_irrefl a : jltb a a = false.
Proof. unfold jltb. by rewrite (proj2 (jcompare_eq a a)). Qed.

Lemma jltb_trans a b c : jltb a b = true -> jltb b c = true -> jltb a c = true.
Proof.
  unfold jltb. revert b c; induction a as [|x a IH]; intros [|y b] [|z c]; cbn; try done.
  destruct (Z.compare_spec x y) as [->|H|H], (Z.compare_spec y z) as [->|H'|H']; try done.
  - apply IH.
  - intros _ _. rewrite (proj2 (Z.compare_lt_iff _ _)); [done|lia].
  - intros _ _. rewrite (proj2 (Z.compare_lt_iff _ _)); [done|lia].
Qed.

Lemma jltb_total a b : jltb a b = false -> jltb b a = false -> a = b.
Proof.
  unfold jltb. rewrite (jcompare_antisym a b). intros H1 H2. apply jcompare_eq.
  destruct (jcompare a b); done.
Qed.

(** [a < b ? -1 : a > b ? 1 : 0], the comparator sorts use on strings. *)
Definition jcmp (a b : jstr) : Z :=
  if jltb a b then -1 else if jltb b a then 1 else 0.
