(* ===== verification/Text.v ===== *)
(** * JavaScript text: digits, splitting, JSON

    The part of JavaScript's standard library on strings that several
    components use: decimal digits ([Number.prototype.toString],
    [BigInt(text)], [padStart], [padEnd]), [split] and [join], the character
    classes of their regular expressions, and [JSON.stringify].  The lemmas
    are the round trips the components' theorems are built on. *)
From S2P Require Import Prelude.
Local Open Scope Z_scope.

(** ** Characters *)

Definition is_digit (c : Z) : bool := (48 <=? c) && (c <=? 57).
Definition is_upper (c : Z) : bool := (65 <=? c) && (c <=? 90).
(** What [.] does not match. *)
Definition is_line_terminator (c : Z) : bool :=
  (c =? 10) || (c =? 13) || (c =? 0x2028) || (c =? 0x2029).
Definition all_dots (s : jstr) : bool := forallb (fun c => negb (is_line_terminator c)) s.

Fixpoint starts_with (prefix s : jstr) : bool :=
  match prefix, s with
  | [], _ => true
  | p :: prefix', c :: s' => (p =? c) && starts_with prefix' s'
  | _ :: _, [] => false
  end.

Definition ends_with (suffix s : jstr) : bool := starts_with (reverse suffix) (reverse s).

(** [a === b] on strings. *)
Definition jeqb (a b : jstr) : bool := bool_decide (a = b).

Definition padStart (n : nat) (c : Z) (s : jstr) : jstr := replicate (n - length s) c ++ s.
Definition padEnd (n : nat) (c : Z) (s : jstr) : jstr := s ++ replicate (n - length s) c.

(** The longest prefix whose characters satisfy [f], and what follows. *)
Fixpoint span (f : Z -> bool) (s : jstr) : jstr * jstr :=
  match s with
  | [] => ([], [])
  | c :: s' => if f c then let '(a, b) := span f s' in (c :: a, b) else ([], s)
  end.

Lemma span_app f s : (span f s).1 ++ (span f s).2 = s.
Proof.
  induction s as [|c s IH]; [done|]. cbn. destruct (f c); [|done].
  destruct (span f s). cbn in *. by rewrite IH.
Qed.

Lemma span_all f s : Forall (fun c => f c = true) (span f s).1.
Proof.
  induction s as [|c s IH]; cbn; [constructor|].
  destruct (f c) eqn:Hc; [|constructor]. destruct (span f s). cbn in *. by constructor.
Qed.

Lemma span_stop f a c b :
  Forall (fun x => f x = true) a -> f c = false -> span f (a ++ c :: b) = (a, c :: b).
Proof. intros Ha Hc. induction Ha as [|x a Hx Ha IH]; cbn; [by rewrite Hc|by rewrite Hx, IH]. Qed.

Lemma span_end f a : Forall (fun x => f x = true) a -> span f a = (a, []).
Proof. induction 1 as [|x a Hx Ha IH]; cbn; [done|by rewrite Hx, IH]. Qed.

(** ** Decimal digits *)

Fixpoint dec_fuel (fuel : nat) (n : Z) : jstr :=
  match fuel with
  | O => []
  | S f => if n <? 10 then [48 + n] else dec_fuel f (n / 10) ++ [48 + n mod 10]
  end.

(** [n.toString()] for [n >= 0]. *)
Definition dec (n : Z) : jstr := dec_fuel (S (Z.to_nat (Z.log2 n))) n.

(** [n.toString()]. *)
Definition dec_signed (n : Z) : jstr := if n <? 0 then 45 :: dec (- n) else dec n.

(** [BigInt(s)] (or [Number(s)], below 2^53) of a string of digits. *)
Definition parse_dec (s : jstr) : Z := fold_left (fun v c => v * 10 + (c - 48)) s 0.

Lemma parse_dec_acc s v :
  fold_left (fun v c => v * 10 + (c - 48)) s v = v * 10 ^ len s + parse_dec s.
Proof.
  unfold parse_dec. revert v; induction s as [|c s IH]; intros v; cbn [fold_left].
  { change (len []) with 0. cbn. lia. }
  rewrite IH, (IH (0 * 10 + _)). change (len (c :: s)) with (Z.of_nat (S (length s))).
  unfold len. rewrite Nat2Z.inj_succ, Z.pow_succ_r by lia. ring.
Qed.

Lemma parse_dec_app s t : parse_dec (s ++ t) = parse_dec s * 10 ^ len t + parse_dec t.
Proof. unfold parse_dec at 1. rewrite fold_left_app. apply parse_dec_acc. Qed.

Lemma parse_dec_cons c s : parse_dec (c :: s) = (c - 48) * 10 ^ len s + parse_dec s.
Proof. change (c :: s) with ([c] ++ s). rewrite parse_dec_app. unfold parse_dec at 1. cbn [fold_left]. ring. Qed.

Lemma parse_dec_range s : Forall (fun c => is_digit c = true) s -> 0 <= parse_dec s < 10 ^ len s.
Proof.
  induction 1 as [|c s Hc Hs IH]; [done|]. rewrite parse_dec_cons. unfold is_digit in Hc. breflect.
  change (len (c :: s)) with (Z.of_nat (S (length s))). unfold len in *.
  rewrite Nat2Z.inj_succ, Z.pow_succ_r by lia. nia.
Qed.

Lemma parse_dec_zeros k s : parse_dec (replicate k 48 ++ s) = parse_dec s.
Proof.
  induction k as [|k IH]; [done|]. cbn [replicate app]. rewrite parse_dec_cons, IH. lia.
Qed.

Lemma parse_dec_padStart k s : parse_dec (padStart k 48 s) = parse_dec s.
Proof. apply parse_dec_zeros. Qed.

Lemma dec_fuel_spec fuel n :
  0 <= n < 10 ^ Z.of_nat fuel -> (0 < fuel)%nat ->
  parse_dec (dec_fuel fuel n) = n /\ Forall (fun c => is_digit c = true) (dec_fuel fuel n) /\
  dec_fuel fuel n <> [].
Proof.
  revert n; induction fuel as [|fuel IH]; intros n Hn Hf; [lia|]. cbn [dec_fuel].
  rewrite Nat2Z.inj_succ, Z.pow_succ_r in Hn by lia.
  assert (Hdig : forall d, 0 <= d < 10 -> is_digit (48 + d) = true) by (unfold is_digit; lia).
  case_match eqn:Hlt; breflect.
  - split_and!; [unfold parse_dec; cbn [fold_left]; lia| |done].
    constructor; [apply Hdig; lia|constructor].
  - destruct fuel as [|fuel]; [cbn in *; lia|].
    destruct (IH (n / 10)) as (Hp & Hd & _); [dlia|lia|].
    rewrite parse_dec_app, Hp. change (len [48 + n mod 10]) with 1.
    split_and!; [unfold parse_dec; cbn [fold_left]; change (10 ^ 1) with 10; dlia| |by destruct (dec_fuel _ _)].
    apply Forall_app; split; [done|]. constructor; [apply Hdig; dlia|constructor].
Qed.

Lemma dec_spec n :
  0 <= n -> parse_dec (dec n) = n /\ Forall (fun c => is_digit c = true) (dec n) /\ dec n <> [].
Proof.
  intros Hn. apply dec_fuel_spec; [|lia]. split; [done|].
  rewrite Nat2Z.inj_succ, Z2Nat.id by apply Z.log2_nonneg.
  destruct (Z.eq_dec n 0) as [->|]; [done|].
  pose proof (Z.log2_spec n ltac:(lia)) as [_ Hlt].
  eapply Z.lt_le_trans; [exact Hlt|]. apply Z.pow_le_mono_l. lia.
Qed.

Lemma dec_inj n m : 0 <= n -> 0 <= m -> dec n = dec m -> n = m.
Proof.
  intros Hn Hm H. destruct (dec_spec n Hn) as [H1 _]. destruct (dec_spec m Hm) as [H2 _]. congruence.
Qed.

Lemma dec_fuel_length fuel n k :
  0 <= n < 10 ^ Z.of_nat k -> (0 < k)%nat -> (length (dec_fuel fuel n) <= k)%nat.
Proof.
  revert n k; induction fuel as [|fuel IH]; intros n k Hn Hk; cbn [dec_fuel]; [cbn; lia|].
  destruct k as [|k]; [lia|]. rewrite Nat2Z.inj_succ, Z.pow_succ_r in Hn by lia.
  case_match eqn:Hlt; breflect; [cbn; lia|]. rewrite length_app. cbn [length].
  destruct k as [|k]; [cbn in Hn; lia|]. specialize (IH (n / 10) (S k)).
  assert (0 <= n / 10 < 10 ^ Z.of_nat (S k)) by dlia. lia.
Qed.

(** [String(n).padStart(k, '0')] has exactly [k] digits when they suffice. *)
Definition pad_dec (k : nat) (n : Z) : jstr := padStart k 48 (dec n).

Lemma pad_dec_length k n : 0 <= n < 10 ^ Z.of_nat k -> (0 < k)%nat -> length (pad_dec k n) = k.
Proof.
  intros Hn Hk. unfold pad_dec, padStart. rewrite length_app, length_replicate.
  pose proof (dec_fuel_length (S (Z.to_nat (Z.log2 n))) n k Hn Hk). unfold dec. lia.
Qed.

Lemma pad_dec_spec k n :
  0 <= n -> parse_dec (pad_dec k n) = n /\ Forall (fun c => is_digit c = true) (pad_dec k n).
Proof.
  intros Hn. unfold pad_dec. rewrite parse_dec_padStart. destruct (dec_spec n Hn) as (H1 & H2 & _).
  split; [done|]. unfold padStart. apply Forall_app; split; [|done].
  by apply Forall_replicate.
Qed.

Lemma digits_eq a b :
  Forall (fun c => is_digit c = true) a -> Forall (fun c => is_digit c = true) b ->
  length a = length b -> parse_dec a = parse_dec b -> a = b.
Proof.
  intros Ha; revert b; induction Ha as [|x a Hx Ha IH]; intros b Hb Hlen Heq.
  - by destruct b.
  - destruct Hb as [|y b Hy Hb]; [done|]. cbn in Hlen. rewrite !parse_dec_cons in Heq.
    injection Hlen as Hlen. assert (len a = len b) as Hl by (unfold len; lia). rewrite Hl in Heq.
    pose proof (parse_dec_range a Ha). pose proof (parse_dec_range b Hb). rewrite Hl in *.
    assert (x = y) as -> by nia. f_equal. apply IH; [done|done|lia].
Qed.

(** Digits of the same length are ordered as the numbers they write. *)
Lemma digits_compare a b :
  Forall (fun c => is_digit c = true) a -> Forall (fun c => is_digit c = true) b ->
  length a = length b -> jcompare a b = (parse_dec a ?= parse_dec b).
Proof.
  intros Ha; revert b; induction Ha as [|x a Hx Ha IH]; intros b Hb Hlen.
  - by destruct b.
  - destruct Hb as [|y b Hy Hb]; [done|]. cbn in Hlen. injection Hlen as Hlen.
    rewrite !parse_dec_cons. cbn [jcompare].
    assert (len a = len b) as Hl by (unfold len; lia). rewrite Hl.
    pose proof (parse_dec_range a Ha) as Hra. rewrite Hl in Hra.
    pose proof (parse_dec_range b Hb) as Hrb.
    destruct (Z.compare_spec x y) as [->|Hlt|Hgt].
    + rewrite IH by done. symmetry. apply Zcompare_plus_compat.
    + symmetry. apply Z.compare_lt_iff. nia.
    + symmetry. apply Z.compare_gt_iff. nia.
Qed.

(** [s.includes(needle)]. *)
Fixpoint jincludes (needle s : jstr) : bool :=
  starts_with needle s || match s with [] => false | _ :: s' => jincludes needle s' end.

(** ** [split] and [join] *)

(** [s.split(sep)] for a separator that is not empty: [skip] characters of the
    last separator are still to be passed over, [piece] is the part read. *)
Fixpoint split_go (sep : jstr) (skip : nat) (piece s : jstr) : list jstr :=
  match s with
  | [] => [piece]
  | c :: s' =>
      match skip with
      | S k => split_go sep k piece s'
      | O =>
          if starts_with sep s then piece :: split_go sep (length sep - 1) [] s'
          else split_go sep 0 (piece ++ [c]) s'
      end
  end.
Definition split_str (sep s : jstr) : list jstr := split_go sep 0 [] s.

(** [pieces.join(sep)]. *)
Fixpoint join_str (sep : jstr) (pieces : list jstr) : jstr :=
  match pieces with
  | [] => []
  | [p] => p
  | p :: pieces' => p ++ sep ++ join_str sep pieces'
  end.

Lemma split_go_char c piece s :
  exists first rest, split_go [c] 0 piece s = (piece ++ first) :: rest.
Proof.
  revert piece; induction s as [|x s IH]; intros piece; cbn.
  { exists [], []. by rewrite app_nil_r. }
  rewrite andb_true_r. destruct (c =? x).
  - exists [], (split_go [c] 0 [] s). by rewrite app_nil_r.
  - destruct (IH (piece ++ [x])) as (first & rest & ->).
    exists (x :: first), rest. by rewrite <-app_assoc.
Qed.

(** Joining what a one-character split made gives the text back. *)
Lemma join_split_char c piece s : join_str [c] (split_go [c] 0 piece s) = piece ++ s.
Proof.
  revert piece; induction s as [|x s IH]; intros piece; cbn; [by rewrite app_nil_r|].
  rewrite andb_true_r. destruct (c =? x) eqn:Hc.
  - apply Z.eqb_eq in Hc as <-. specialize (IH []).
    destruct (split_go_char c [] s) as (first & rest & Heq). rewrite Heq in *.
    change (join_str [c] (piece :: ([] ++ first) :: rest))
      with (piece ++ [c] ++ join_str [c] (([] ++ first) :: rest)). by rewrite IH.
  - rewrite IH. by rewrite <-app_assoc.
Qed.

Lemma split_go_nosep c piece s :
  Forall (fun x => x <> c) s -> split_go [c] 0 piece s = [piece ++ s].
Proof.
  intros Hs; revert piece; induction Hs as [|x s Hx Hs IH]; intros piece; cbn.
  { by rewrite app_nil_r. }
  rewrite andb_true_r, (proj2 (Z.eqb_neq c x)) by done. rewrite IH. by rewrite <-app_assoc.
Qed.

Lemma split_go_sep c piece a s :
  Forall (fun x => x <> c) a -> split_go [c] 0 piece (a ++ c :: s) = (piece ++ a) :: split_go [c] 0 [] s.
Proof.
  intros Ha; revert piece; induction Ha as [|x a Hx Ha IH]; intros piece; cbn; rewrite andb_true_r.
  { by rewrite Z.eqb_refl, app_nil_r. }
  rewrite (proj2 (Z.eqb_neq c x)) by done. rewrite IH. by rewrite <-app_assoc.
Qed.

(** Splitting undoes joining pieces without the separator. *)
Lemma split_join_char c pieces :
  pieces <> [] -> Forall (Forall (fun x => x <> c)) pieces ->
  split_str [c] (join_str [c] pieces) = pieces.
Proof.
  intros Hne Hall. unfold split_str. induction Hall as [|p pieces Hp Hall IH]; [done|].
  destruct pieces as [|q pieces]; [by apply split_go_nosep|].
  change (join_str [c] (p :: q :: pieces)) with (p ++ c :: join_str [c] (q :: pieces)).
  rewrite split_go_sep by done. by rewrite IH.
Qed.

(** ** [JSON.stringify] *)

#[warnings="-register-all"]
Inductive json :=
| JNull
| JBool (b : bool)
| JNum (n : Z)
| JStr (s : jstr)
| JArr (l : list json).

Definition hex_digit (n : Z) : Z := if n <? 10 then 48 + n else 87 + n.

(** [n.toString(16).padStart(4, '0')] of a code unit. *)
Definition hex4 (n : Z) : jstr :=
  [hex_digit (n / 4096 mod 16); hex_digit (n / 256 mod 16); hex_digit (n / 16 mod 16);
   hex_digit (n mod 16)].

Definition is_surrogate (c : Z) : bool := (0xd800 <=? c) && (c <=? 0xdfff).

(** One code unit of a string literal; [lone]: it is half of no pair. *)
Definition quote_unit (lone : bool) (c : Z) : jstr :=
  if c =? 34 then [92; 34]
  else if c =? 92 then [92; 92]
  else if c =? 8 then js "\b"
  else if c =? 12 then js "\f"
  else if c =? 10 then js "\n"
  else if c =? 13 then js "\r"
  else if c =? 9 then js "\t"
  else if (c <? 32) || lone then js "\u" ++ hex4 c
  else [c].

(** The units of a string: a high surrogate followed by a low one is a pair. *)
Fixpoint quote_units (s : jstr) : jstr :=
  match s with
  | [] => []
  | c :: s' =>
      match s' with
      | d :: s'' =>
          if (0xd800 <=? c) && (c <=? 0xdbff) && (0xdc00 <=? d) && (d <=? 0xdfff)
          then quote_unit false c ++ quote_unit false d ++ quote_units s''
          else quote_unit (is_surrogate c) c ++ quote_units s'
      | [] => quote_unit (is_surrogate c) c
      end
  end.

Definition quote (s : jstr) : jstr := 34 :: quote_units s ++ [34].

(** [JSON.stringify(v)]. *)
Fixpoint stringify (v : json) : jstr :=
  match v with
  | JNull => js "null"
  | JBool b => if b then js "true" else js "false"
  | JNum n => dec_signed n
  | JStr s => quote s
  | JArr l => 91 :: join_str [44] (map stringify l) ++ [93]
  end.

(** A code unit's literal is a prefix code: none is the start of another. *)
Definition escapes (l : jstr) (c : Z) : Prop := exists lone,
  (lone = true -> is_surrogate c = true) /\ l = quote_unit lone c.

Definition unhex (c : Z) : Z := if c <? 58 then c - 48 else c - 87.

Lemma unhex_digit n : 0 <= n < 16 -> unhex (hex_digit n) = n.
Proof. intros. unfold unhex, hex_digit. repeat case_match; breflect; lia. Qed.

Lemma hex4_inj a b r s :
  0 <= a < 65536 -> 0 <= b < 65536 -> hex4 a ++ r = hex4 b ++ s -> a = b /\ r = s.
Proof.
  intros Ha Hb [= H1 H2 H3 H4 ->]. split; [|done].
  apply (f_equal unhex) in H1, H2, H3, H4. rewrite !unhex_digit in * by dlia. dlia.
Qed.

(** The first character tells the literals apart. *)
Lemma quote_unit_cases lone c : 0 <= c ->
  (lone = true -> is_surrogate c = true) ->
  (quote_unit lone c = [c] /\ c <> 34 /\ c <> 92) \/
  (exists x, quote_unit lone c = [92; x] /\
     (x, c) ∈ [(34, 34); (92, 92); (98, 8); (102, 12); (110, 10); (114, 13); (116, 9)]) \/
  (quote_unit lone c = 92 :: 117 :: hex4 c /\ 0 <= c < 65536).
Proof.
  intros H0 Hlone. unfold quote_unit.
  repeat match goal with |- context [if ?x =? ?n then _ else _] =>
    destruct (Z.eqb_spec x n) as [->|]; [right; left; eexists; split; [reflexivity|set_solver]|] end.
  case_match eqn:Hesc; [right; right|by left]. split; [done|].
  apply orb_true_iff in Hesc as [Hc| ->]; breflect; [lia|].
  specialize (Hlone eq_refl). unfold is_surrogate in Hlone. breflect. lia.
Qed.

Lemma escapes_prefix l1 c1 l2 c2 r1 r2 :
  0 <= c1 -> 0 <= c2 -> escapes l1 c1 -> escapes l2 c2 -> l1 ++ r1 = l2 ++ r2 ->
  c1 = c2 /\ r1 = r2.
Proof.
  intros H1 H2 (lone1 & Hl1 & ->) (lone2 & Hl2 & ->).
  destruct (quote_unit_cases lone1 c1 H1 Hl1) as [(->&?&?)|[(x & -> & Hx)|[-> ?]]],
    (quote_unit_cases lone2 c2 H2 Hl2) as [(->&?&?)|[(y & -> & Hy)|[-> ?]]];
    cbn [app]; intros Heq; try (exfalso; injection Heq as Hc _; congruence).
  - injection Heq as -> ->. done.
  - injection Heq as -> ->. split; [|done].
    rewrite !elem_of_cons, elem_of_nil in Hx, Hy. destruct_or!; simplify_eq; done.
  - exfalso. injection Heq as -> _. rewrite !elem_of_cons, elem_of_nil in Hx. destruct_or!; simplify_eq.
  - exfalso. injection Heq as <- _. rewrite !elem_of_cons, elem_of_nil in Hy. destruct_or!; simplify_eq.
  - apply (f_equal (drop 2)) in Heq. by apply (hex4_inj c1 c2 r1 r2).
Qed.

Lemma quote_units_cons2 c d s :
  quote_units (c :: d :: s) =
    if (0xd800 <=? c) && (c <=? 0xdbff) && (0xdc00 <=? d) && (d <=? 0xdfff)
    then quote_unit false c ++ quote_unit false d ++ quote_units s
    else quote_unit (is_surrogate c) c ++ quote_units (d :: s).
Proof. reflexivity. Qed.

Lemma quote_units_escapes s :
  exists ts, quote_units s = concat ts /\ Forall2 escapes ts s.
Proof.
  induction s as [s IH] using (induction_ltof1 _ length). unfold ltof in IH.
  destruct s as [|c s]; [by exists []|].
  destruct s as [|d s].
  { exists [quote_unit (is_surrogate c) c]. cbn. rewrite app_nil_r.
    split; [done|]. repeat constructor. by exists (is_surrogate c). }
  rewrite quote_units_cons2. case_match eqn:Hpair.
  - destruct (IH s) as (ts & -> & Hts); [cbn; lia|].
    exists (quote_unit false c :: quote_unit false d :: ts). split; [done|].
    constructor; [by exists false|]. constructor; [by exists false|done].
  - destruct (IH (d :: s)) as (ts & -> & Hts); [cbn; lia|].
    exists (quote_unit (is_surrogate c) c :: ts). split; [done|].
    constructor; [by exists (is_surrogate c)|done].
Qed.

Lemma escapes_head l c r : 0 <= c -> escapes l c -> exists x l', l ++ r = x :: l' /\ x <> 34.
Proof.
  intros Hc (lone & Hlone & ->).
  destruct (quote_unit_cases lone c Hc Hlone) as [(->&?&?)|[(x & -> & Hx)|[-> ?]]];
    cbn [app]; eauto.
Qed.

Lemma quote_inj s1 s2 r1 r2 :
  Forall (fun c => 0 <= c) s1 -> Forall (fun c => 0 <= c) s2 ->
  quote s1 ++ r1 = quote s2 ++ r2 -> s1 = s2 /\ r1 = r2.
Proof.
  unfold quote. intros H1 H2 [= Heq]. rewrite <-!app_assoc in Heq. cbn [app] in Heq.
  destruct (quote_units_escapes s1) as (t1 & Ht1 & Hs1).
  destruct (quote_units_escapes s2) as (t2 & Ht2 & Hs2). rewrite Ht1, Ht2 in Heq. clear Ht1 Ht2.
  revert s2 t2 H2 Hs2 Heq; induction Hs1 as [|l1 c1 t1 s1 Hl1 Hs1 IH];
    intros s2 t2 H2 Hs2 Heq; destruct Hs2 as [|l2 c2 t2 s2 Hl2 Hs2]; cbn [concat] in Heq.
  - by injection Heq as ->.
  - forall_split. rewrite <-app_assoc in Heq.
    destruct (escapes_head l2 c2 (concat t2 ++ 34 :: r2)) as (x & l' & Hx & ?); [done..|].
    cbn [app] in Heq. congruence.
  - forall_split. rewrite <-app_assoc in Heq.
    destruct (escapes_head l1 c1 (concat t1 ++ 34 :: r1)) as (x & l' & Hx & ?); [done..|].
    cbn [app] in Heq. congruence.
  - forall_split. rewrite <-!app_assoc in Heq.
    apply escapes_prefix with (c1 := c1) (c2 := c2) in Heq as [-> Heq]; [|done..].
    destruct (IH ltac:(done) s2 t2) as [-> ->]; done.
Qed.

(** What may follow a number. *)
Definition no_digit (r : jstr) : Prop := match r with c :: _ => is_digit c = false | [] => True end.

Lemma digits_prefix a b r1 r2 :
  Forall (fun c => is_digit c = true) a -> Forall (fun c => is_digit c = true) b ->
  no_digit r1 -> no_digit r2 -> a ++ r1 = b ++ r2 -> a = b /\ r1 = r2.
Proof.
  intros Ha Hb H1 H2 Heq. apply (f_equal (span is_digit)) in Heq.
  assert (Hspan : forall a r, Forall (fun c => is_digit c = true) a -> no_digit r ->
    span is_digit (a ++ r) = (a, r)).
  { intros x [|c r] Hx Hr; [rewrite app_nil_r; by apply span_end|by apply span_stop]. }
  rewrite !Hspan in Heq by done. by injection Heq.
Qed.

Lemma dec_signed_prefix n m r1 r2 :
  no_digit r1 -> no_digit r2 -> dec_signed n ++ r1 = dec_signed m ++ r2 -> n = m /\ r1 = r2.
Proof.
  intros H1 H2. unfold dec_signed.
  assert (Hhead : forall k r, 0 <= k -> dec k ++ r <> 45 :: tail (dec k ++ r)).
  { intros k r Hk. destruct (dec_spec k Hk) as (_ & Hd & Hne). destruct (dec k) as [|c l]; [done|].
    forall_split. cbn. intros [= ->]. done. }
  case_match eqn:Hn; case_match eqn:Hm; breflect; cbn [app].
  - intros [= Heq]. destruct (dec_spec (- n)) as (Hpn & Hdn & _); [lia|].
    destruct (dec_spec (- m)) as (Hpm & Hdm & _); [lia|].
    apply digits_prefix in Heq as [Heq ->]; [|done..]. split; [|done].
    rewrite Heq in Hpn. lia.
  - intros Heq. exfalso. apply (Hhead m r2); [lia|]. by rewrite <-Heq.
  - intros Heq. exfalso. apply (Hhead n r1); [lia|]. by rewrite Heq.
  - intros Heq. destruct (dec_spec n) as (Hpn & Hdn & _); [lia|].
    destruct (dec_spec m) as (Hpm & Hdm & _); [lia|].
    apply digits_prefix in Heq as [Heq ->]; [|done..]. split; [|done].
    rewrite Heq in Hpn. lia.
Qed.

(** Values whose strings are code units. *)
Fixpoint json_ok (v : json) : Prop :=
  match v with
  | JStr s => Forall (fun c => 0 <= c) s
  | JArr l => fold_right (fun v P => json_ok v /\ P) True l
  | _ => True
  end.

Lemma json_ok_arr l : json_ok (JArr l) <-> Forall json_ok l.
Proof. cbn. induction l as [|v l IH]; cbn; [done|]. by rewrite Forall_cons, IH. Qed.

Lemma json_nested_ind (P : json -> Prop) :
  P JNull -> (forall b, P (JBool b)) -> (forall n, P (JNum n)) -> (forall s, P (JStr s)) ->
  (forall l, Forall P l -> P (JArr l)) -> forall v, P v.
Proof.
  intros H1 H2 H3 H4 H5. fix IH 1. intros [| | | |l]; [done|done|done|done|].
  apply H5. induction l as [|v l IHl]; constructor; [apply IH|exact IHl].
Qed.

(** The first character of a value's text tells its kind. *)
Definition json_head (v : json) (c : Z) : Prop :=
  match v with
  | JNull => c = 110
  | JBool b => c = if b then 116 else 102
  | JNum _ => c = 45 \/ is_digit c = true
  | JStr _ => c = 34
  | JArr _ => c = 91
  end.

Lemma stringify_head v r : exists c t, stringify v ++ r = c :: t /\ json_head v c.
Proof.
  destruct v as [|[]|n|s|l]; try (cbn; by eauto).
  cbn [stringify json_head]. unfold dec_signed. case_match eqn:Hn; breflect; cbn [app]; [eauto|].
  destruct (dec_spec n Hn) as (_ & Hd & Hne). destruct (dec n) as [|c t]; [done|].
  forall_split. exists c, (t ++ r). split; [done|by right].
Qed.

Lemma stringify_head_not v r c t :
  stringify v ++ r = c :: t -> c <> 93 /\ c <> 44.
Proof.
  intros H. destruct (stringify_head v r) as (c' & t' & H' & Hc). rewrite H in H'.
  injection H' as <- _. destruct v as [|[]| | |]; cbn in Hc; try (split; congruence).
  unfold is_digit in Hc. destruct Hc as [->|Hc]; [done|]. breflect. lia.
Qed.

(** The text of a value, followed by no digit, determines it and what follows. *)
Definition determines {A} (text : A -> jstr) (ok : A -> Prop) (x : A) : Prop := forall y r1 r2,
  ok x -> ok y -> no_digit r1 -> no_digit r2 -> text x ++ r1 = text y ++ r2 -> x = y /\ r1 = r2.

Lemma join_str_cons sep p ps : join_str sep (p :: ps) = p ++ concat (map (app sep) ps).
Proof.
  revert p; induction ps as [|q ps IH]; intros p; [cbn; by rewrite app_nil_r|].
  change (join_str sep (p :: q :: ps)) with (p ++ sep ++ join_str sep (q :: ps)).
  rewrite IH. cbn. by rewrite <-app_assoc.
Qed.

(** Elements joined by commas, up to a closing character that none starts with. *)
Section Joined.
Context {A : Type} (text : A -> jstr) (ok : A -> Prop) (close : Z).
Context (Hclose : close <> 44 /\ is_digit close = false).
Context (Hhead : forall x r t, text x ++ r <> close :: t).

Lemma joined_tail l (Hl : Forall (determines text ok) l) l' r1 r2 : Forall ok l -> Forall ok l' ->
  concat (map (app [44]) (map text l)) ++ close :: r1 = concat (map (app [44]) (map text l')) ++ close :: r2 ->
  l = l' /\ r1 = r2.
Proof.
  destruct Hclose as [Hcomma Hdigit].
  assert (Hsep : forall l r, no_digit (concat (map (app [44]) (map text l)) ++ close :: r)) by (by intros [|? ?] ?).
  intros Hok; revert l'; induction Hl as [|v l Hv Hl IH]; intros [|v' l'] Hok' Heq;
    [by injection Heq as ->|cbn in Heq; congruence|cbn in Heq; congruence|]. forall_split.
  cbn [map concat app] in Heq. injection Heq as Heq. rewrite <-!app_assoc in Heq.
  apply Hv in Heq as [-> Heq]; [|done|done|apply Hsep|apply Hsep].
  apply IH in Heq as [-> ->]; done.
Qed.

Lemma joined_elements l (Hl : Forall (determines text ok) l) l' r1 r2 : Forall ok l -> Forall ok l' ->
  join_str [44] (map text l) ++ close :: r1 = join_str [44] (map text l') ++ close :: r2 -> l = l' /\ r1 = r2.
Proof.
  destruct Hclose as [Hcomma Hdigit]. intros Hok Hok' Heq.
  destruct Hl as [|v l Hv Hl], l' as [|v' l']; cbn [map] in Heq; rewrite ?join_str_cons in Heq.
  - by injection Heq as ->.
  - exfalso. rewrite <-app_assoc in Heq. symmetry in Heq. cbn [join_str app] in Heq. by apply Hhead in Heq.
  - exfalso. rewrite <-app_assoc in Heq. cbn [join_str app] in Heq. by apply Hhead in Heq.
  - rewrite <-!app_assoc in Heq. inv Hok; inv Hok'.
    apply Hv in Heq as [-> Heq]; [|done|done|by destruct l|by destruct l'].
    apply joined_tail in Heq as [-> ->]; done.
Qed.
End Joined.

(** The text of a value followed by anything that is not a digit determines
    the value and what follows. *)
Lemma stringify_prefix v1 : determines stringify json_ok v1.
Proof.
  induction v1 as [|b|n|s|l IH] using json_nested_ind;
    intros v2 r1 r2 Hok1 Hok2 Hr1 Hr2 Heq;
    match type of Heq with stringify ?v ++ _ = _ =>
      destruct (stringify_head v r1) as (c & t & Hc & Hk) end;
    destruct (stringify_head v2 r2) as (c' & t' & Hc' & Hk');
    pose proof (eq_trans (eq_sym Hc) (eq_trans Heq Hc')) as Ht; injection Ht as <- _;
    clear Hc Hc'; destruct v2 as [|b'|n'|s'|l']; cbn in Hk, Hk';
    try (exfalso; repeat case_match; destruct_or?; subst; done).
  - by injection Heq as ->.
  - destruct b, b'; try (exfalso; subst; done); by injection Heq as ->.
  - apply dec_signed_prefix in Heq as [-> ->]; done.
  - apply quote_inj in Heq as [-> ->]; done.
  - rewrite json_ok_arr in Hok1, Hok2. cbn [stringify app] in Heq. injection Heq as Heq.
    rewrite <-!app_assoc in Heq. cbn [app] in Heq. clear Hk Hk' c t t'.
    enough (l = l' /\ r1 = r2) as [-> ->] by done.
    apply (joined_elements stringify json_ok 93); [done|by intros x r t [? _]%stringify_head_not|done..].
Qed.

Lemma stringify_inj v1 v2 : json_ok v1 -> json_ok v2 -> stringify v1 = stringify v2 -> v1 = v2.
Proof.
  intros H1 H2 Heq. apply (stringify_prefix v1 v2 [] [] H1 H2 I I). by rewrite Heq.
Qed.

(** The text of a value is made of code units. *)
Lemma hex_digit_units n : 0 <= n -> 0 <= hex_digit n.
Proof. intros. unfold hex_digit. case_match; lia. Qed.

Lemma hex4_units c : Forall (fun x => 0 <= x) (hex4 c).
Proof. unfold hex4. repeat (constructor; [apply hex_digit_units, Z.mod_pos_bound; lia|]). constructor. Qed.

Lemma quote_unit_units lone c : 0 <= c -> Forall (fun x => 0 <= x) (quote_unit lone c).
Proof.
  intros Hc. unfold quote_unit.
  do 7 (match goal with |- Forall _ (if ?b then _ else _) => destruct b; [by_decide|] end).
  destruct (_ || _); [|by constructor]. apply Forall_app. split; [by_decide|apply hex4_units].
Qed.

Lemma stringify_units v : json_ok v -> Forall (fun c => 0 <= c) (stringify v).
Proof.
  induction v as [|b|n|s|l IH] using json_nested_ind; intros Hok.
  - by_decide.
  - destruct b; by_decide.
  - cbn [stringify]. unfold dec_signed.
    assert (Hd : forall k, 0 <= k -> Forall (fun c => 0 <= c) (dec k)).
    { intros k Hk. destruct (dec_spec k Hk) as (_ & Hd & _). eapply Forall_impl; [exact Hd|].
      unfold is_digit. cbn. intros x Hx. breflect. lia. }
    case_match; breflect; [constructor; [lia|]|]; apply Hd; lia.
  - cbn [stringify json_ok] in *. unfold quote. constructor; [lia|].
    apply Forall_app; split; [|by constructor].
    destruct (quote_units_escapes s) as (ts & -> & Hts).
    induction Hts as [|t c ts s (lone & _ & ->) Hts IH]; cbn; [constructor|]. forall_split.
    apply Forall_app; split; [by apply quote_unit_units|by apply IH].
  - apply json_ok_arr in Hok. cbn [stringify]. constructor; [lia|].
    apply Forall_app; split; [|by constructor].
    destruct l as [|v l]; [constructor|]. cbn [map]. rewrite join_str_cons.
    inv IH. inv Hok. apply Forall_app; split; [by auto|].
    clear -H2 H4. induction H2 as [|w l Hw Hl IH]; cbn; [constructor|]. inv H4.
    constructor; [lia|]. apply Forall_app; split; [by auto|by auto].
Qed.
