(* ===== verification/Collections.v ===== *)
(** * Maps in insertion order, and stable sorting

    A JavaScript [Map] (or an object used as one) keeps its keys in the order
    they were first set: an association list whose keys do not repeat.
    [Array.sort] is stable: [Prelude.sort_by], with its specification here
    for comparators that are total preorders. *)
From Stdlib Require Export Sorted.
From stdpp Require Import sorting.
From S2P Require Import Prelude.
Local Open Scope Z_scope.

(** ** [Map] *)

Section JMap.
Context {K V : Type} `{EqDecision K}.
Implicit Types (m : list (K * V)) (k : K) (v : V).

(** [m.get(k)]. *)
Fixpoint jget k m : option V :=
  match m with
  | [] => None
  | (k', v) :: m' => if decide (k = k') then Some v else jget k m'
  end.

(** [m.set(k, v)]: in place when the key is there, at the end otherwise. *)
Fixpoint jset k v m : list (K * V) :=
  match m with
  | [] => [(k, v)]
  | (k', v') :: m' => if decide (k = k') then (k, v) :: m' else (k', v') :: jset k v m'
  end.

(** [m.delete(k)]. *)
Fixpoint jdelete k m : list (K * V) :=
  match m with
  | [] => []
  | (k', v') :: m' => if decide (k = k') then m' else (k', v') :: jdelete k m'
  end.

Definition jkeys m : list K := map fst m.
Definition jvalues m : list V := map snd m.

(** [new Map(pairs)]: later pairs win. *)
Definition jmap_of (pairs : list (K * V)) : list (K * V) :=
  fold_left (fun m p => jset p.1 p.2 m) pairs [].

Lemma jget_jset k k' v m : jget k (jset k' v m) = if decide (k = k') then Some v else jget k m.
Proof.
  induction m as [|[x w] m IH]; cbn; [done|].
  destruct (decide (k' = x)) as [->|]; cbn.
  - by destruct (decide (k = x)).
  - destruct (decide (k = x)) as [->|]; [by destruct (decide (x = k'))|done].
Qed.

Lemma jkeys_jset k v m :
  jkeys (jset k v m) = if decide (k ∈ jkeys m) then jkeys m else jkeys m ++ [k].
Proof.
  unfold jkeys. induction m as [|[x w] m IH]; cbn [jset map fst]; [done|].
  destruct (decide (k = x)) as [->|Hne]; cbn [map fst].
  - rewrite decide_True by (by left). done.
  - rewrite IH. destruct (decide (k ∈ map fst m)) as [Hin|Hnot].
    + by rewrite decide_True by (by right).
    + rewrite decide_False; [done|]. by intros [?|?]%elem_of_cons.
Qed.

Lemma jset_nodup k v m : NoDup (jkeys m) -> NoDup (jkeys (jset k v m)).
Proof.
  intros Hm. rewrite jkeys_jset. destruct (decide _) as [|Hnot]; [done|].
  apply NoDup_app. split; [done|]. split; [|apply NoDup_singleton].
  intros x Hx ->%list_elem_of_singleton. done.
Qed.

Lemma jget_None k m : jget k m = None <-> k ∉ jkeys m.
Proof.
  unfold jkeys. induction m as [|[x w] m IH]; cbn; [by split; [intros _ ?%elem_of_nil|]|].
  rewrite elem_of_cons. destruct (decide (k = x)) as [->|]; [naive_solver|].
  rewrite IH. naive_solver.
Qed.

Lemma jget_elem k v m : NoDup (jkeys m) -> jget k m = Some v <-> (k, v) ∈ m.
Proof.
  unfold jkeys. induction m as [|[x w] m IH]; cbn; intros Hm; [by rewrite elem_of_nil|].
  apply NoDup_cons in Hm as [Hx Hm]. rewrite elem_of_cons.
  destruct (decide (k = x)) as [->|].
  - split; [intros [= ->]; by left|]. intros [[= ->]|Hin]; [done|]. exfalso. apply Hx.
    change x with (fst (x, v)). by apply list_elem_of_fmap_2.
  - rewrite (IH Hm). naive_solver.
Qed.

Lemma jget_jdelete k k' m :
  NoDup (jkeys m) -> jget k (jdelete k' m) = if decide (k = k') then None else jget k m.
Proof.
  unfold jkeys. induction m as [|[x w] m IH]; cbn; intros Hm; [by destruct (decide _)|].
  apply NoDup_cons in Hm as [Hx Hm]. destruct (decide (k' = x)) as [->|]; cbn.
  - destruct (decide (k = x)) as [->|]; [|done]. by apply jget_None.
  - rewrite (IH Hm). destruct (decide (k = x)) as [->|]; [|done].
    by destruct (decide (x = k')).
Qed.

Lemma jdelete_keys k m x : x ∈ jkeys (jdelete k m) -> x ∈ jkeys m.
Proof.
  unfold jkeys. induction m as [|[y w] m IH]; cbn; [done|].
  destruct (decide (k = y)); cbn; rewrite !elem_of_cons; naive_solver.
Qed.

Lemma jdelete_nodup k m : NoDup (jkeys m) -> NoDup (jkeys (jdelete k m)).
Proof.
  unfold jkeys. induction m as [|[y w] m IH]; cbn; [done|]. intros [Hy Hm]%NoDup_cons.
  destruct (decide (k = y)); [done|]. cbn. apply NoDup_cons. split; [|by apply IH].
  intros Hin. apply Hy. by apply (jdelete_keys k m y).
Qed.

(** A later pair of the list wins. *)
Lemma jget_jmap_of pairs k :
  jget k (jmap_of pairs) = snd <$> last (List.filter (fun p => bool_decide (p.1 = k)) pairs).
Proof.
  unfold jmap_of. induction pairs as [|[x w] pairs IH] using rev_ind; [done|].
  rewrite fold_left_app, List.filter_app. cbn. rewrite jget_jset.
  destruct (decide (k = x)) as [->|].
  - rewrite bool_decide_true by done. by rewrite last_snoc.
  - rewrite bool_decide_false by congruence. by rewrite app_nil_r.
Qed.

Lemma jset_fresh k v m : k ∉ jkeys m -> jset k v m = m ++ [(k, v)].
Proof.
  unfold jkeys. induction m as [|[x w] m IH]; cbn [jset map fst]; [done|]. intros [Hx Hm]%not_elem_of_cons.
  rewrite decide_False by done. cbn [app]. by rewrite IH.
Qed.

Lemma jmap_of_nodup pairs : NoDup (jkeys pairs) -> jmap_of pairs = pairs.
Proof.
  unfold jmap_of. induction pairs as [|[k v] pairs IH] using rev_ind; intros Hnd; [done|].
  unfold jkeys in Hnd. rewrite map_app in Hnd. apply NoDup_app in Hnd as (Hnd & Hk & _).
  rewrite fold_left_app, IH by done. cbn [fold_left fst snd]. apply jset_fresh. intros Hin.
  apply (Hk k Hin). by left.
Qed.
End JMap.

(** ** Stable sorting *)

Section StableSort.
Context {A : Type} (cmp : A -> A -> Z).
Context (cmp_total : forall x y, cmp x y <= 0 \/ cmp y x <= 0).
Context (cmp_trans : forall x y z, cmp x y <= 0 -> cmp y z <= 0 -> cmp x z <= 0).

Definition le_by (x y : A) : Prop := cmp x y <= 0.

Lemma insert_by_sorted x l : StronglySorted le_by l -> StronglySorted le_by (insert_by cmp x l).
Proof.
  induction 1 as [|y l Hl IH Hy]; cbn; [repeat constructor|].
  destruct (Z.leb_spec (cmp y x) 0) as [Hle|Hgt].
  - constructor; [done|]. rewrite Forall_forall in *. intros z Hz.
    rewrite insert_by_perm in Hz. apply elem_of_cons in Hz as [->|Hz]; [done|by apply Hy].
  - assert (Hxy : cmp x y <= 0) by (destruct (cmp_total x y); lia).
    constructor; [by constructor|]. constructor; [done|]. eapply Forall_impl; [exact Hy|].
    intros z Hz. by eapply cmp_trans.
Qed.

Lemma sort_by_sorted l : StronglySorted le_by (sort_by cmp l).
Proof.
  unfold sort_by.
  enough (H : forall acc, StronglySorted le_by acc ->
    StronglySorted le_by (foldl (fun acc x => insert_by cmp x acc) acc l)).
  { apply H. constructor. }
  induction l as [|x l IH]; intros acc Hacc; cbn; [done|]. by apply IH, insert_by_sorted.
Qed.

(** Elements that compare equal stay in their order: for any [P] whose
    elements do, sorting does not reorder them. *)
Lemma insert_by_stable (P : A -> bool) x l :
  (forall y z, P y = true -> P z = true -> cmp y z <= 0) ->
  StronglySorted le_by l ->
  List.filter P (insert_by cmp x l) = List.filter P (l ++ [x]).
Proof.
  intros HP. induction 1 as [|y l Hl IH Hy]; [done|]. cbn [insert_by].
  destruct (Z.leb_spec (cmp y x) 0) as [Hle|Hgt].
  - cbn. by rewrite IH.
  - destruct (P x) eqn:Hx.
    + assert (Hnone : forall z, z ∈ y :: l -> P z = false).
      { intros z Hz. apply not_true_iff_false. intros Hpz.
        assert (cmp y z <= 0) as Hyz.
        { apply elem_of_cons in Hz as [->|Hz].
          - destruct (cmp_total y y); done.
          - by apply (proj1 (Forall_forall _ _) Hy). }
        specialize (HP z x Hpz Hx). pose proof (cmp_trans y z x Hyz HP). lia. }
      assert (Hnil : List.filter P (y :: l) = []).
      { clear -Hnone. induction (y :: l) as [|z k IH]; [done|]. cbn.
        rewrite Hnone by (by left). apply IH. intros w Hw. apply Hnone. by right. }
      rewrite List.filter_app, Hnil. cbn [List.filter app]. by rewrite Hx; rewrite <-Hnil.
    + rewrite List.filter_app. cbn. rewrite Hx. by rewrite app_nil_r.
Qed.

Lemma sort_by_stable (P : A -> bool) l :
  (forall y z, P y = true -> P z = true -> cmp y z <= 0) ->
  List.filter P (sort_by cmp l) = List.filter P l.
Proof.
  intros HP. unfold sort_by.
  enough (H : forall acc, StronglySorted le_by acc ->
    List.filter P (foldl (fun acc x => insert_by cmp x acc) acc l) = List.filter P (acc ++ l)).
  { apply H. constructor. }
  induction l as [|x l IH]; intros acc Hacc; cbn [foldl]; [by rewrite app_nil_r|].
  rewrite IH by (by apply insert_by_sorted).
  rewrite !List.filter_app, insert_by_stable by done. rewrite List.filter_app, <-app_assoc.
  f_equal. cbn. by destruct (P x).
Qed.
End StableSort.

(** String comparators. *)
Lemma jcmp_le a b : jcmp a b <= 0 <-> jltb b a = false.
Proof.
  unfold jcmp. destruct (jltb a b) eqn:Hab.
  - split; [|lia]. intros _. apply not_true_iff_false. intros Hba.
    pose proof (jltb_trans _ _ _ Hab Hba) as H. by rewrite jltb_irrefl in H.
  - destruct (jltb b a); split; try done; lia.
Qed.

Lemma jcmp_total a b : jcmp a b <= 0 \/ jcmp b a <= 0.
Proof.
  rewrite !jcmp_le. destruct (jltb b a) eqn:Hba; [|by left]. right.
  apply not_true_iff_false. intros Hab.
  pose proof (jltb_trans _ _ _ Hab Hba) as H. by rewrite jltb_irrefl in H.
Qed.

Lemma jcmp_trans a b c : jcmp a b <= 0 -> jcmp b c <= 0 -> jcmp a c <= 0.
Proof.
  rewrite !jcmp_le. intros H1 H2. apply not_true_iff_false. intros Hca.
  destruct (jltb a b) eqn:Hab.
  - pose proof (jltb_trans _ _ _ Hca Hab). congruence.
  - apply jltb_total in Hab; [|done]. subst. congruence.
Qed.

Lemma filter_none {A} (P : A -> bool) (l : list A) : (forall x, x ∈ l -> P x = false) -> List.filter P l = [].
Proof.
  induction l as [|x l IH]; intros H; [done|]. cbn [List.filter]. rewrite H by (by left).
  apply IH. intros y Hy. apply H. by right.
Qed.

Lemma nodup_map_inj {A B} (f : A -> B) (l : list A) x y :
  NoDup (map f l) -> x ∈ l -> y ∈ l -> f x = f y -> x = y.
Proof.
  induction l as [|z l IH]; cbn [map]; [by intros _ ?%elem_of_nil|]. intros [Hz Hnd]%NoDup_cons.
  intros [->|Hx]%elem_of_cons [->|Hy]%elem_of_cons E; [done| | |by apply IH].
  - destruct Hz. rewrite E. by apply list_elem_of_fmap_2.
  - destruct Hz. rewrite <-E. by apply list_elem_of_fmap_2.
Qed.

Lemma filter_perm {A} (P : A -> bool) (l k : list A) : l ≡ₚ k -> List.filter P l ≡ₚ List.filter P k.
Proof.
  induction 1 as [|x l k Hp IH|x y l|l k m H1 IH1 H2 IH2]; cbn [List.filter]; [done| | |by etransitivity].
  - destruct (P x); [by constructor|done].
  - destruct (P x), (P y); try done. constructor.
Qed.

(** ** Comparators

    A comparator that orders its elements: what [Array.sort] needs of it. *)
Class Comparator {A} (f : A -> A -> Z) : Prop := {
  comparator_opp : forall x y, 0 < f x y <-> f y x < 0;
  comparator_trans : forall x y z, f x y <= 0 -> f y z <= 0 -> f x z <= 0;
}.

#[export] Instance sub_comparator : Comparator Z.sub.
Proof. split; lia. Qed.

#[export] Instance jcmp_comparator : Comparator jcmp.
Proof.
  split; [|intros x y z; apply jcmp_trans]. intros x y. unfold jcmp.
  destruct (jltb x y) eqn:Hxy, (jltb y x) eqn:Hyx; try lia.
  pose proof (jltb_trans _ _ _ Hxy Hyx) as H. by rewrite jltb_irrefl in H.
Qed.

(** Elements compared by what [g] says of them. *)
#[export] Instance on_comparator {A B} (g : A -> B) f `{!Comparator f} : Comparator (fun x y => f (g x) (g y)).
Proof. split; [intros; apply comparator_opp|intros x y z; apply comparator_trans]. Qed.

(** [f(x, y) || g(x, y)]. *)
Definition lex {A} (f g : A -> A -> Z) (x y : A) : Z := if f x y =? 0 then g x y else f x y.

Section Comparators.
Context {A : Type} (f g : A -> A -> Z) `{!Comparator f, !Comparator g}.
Implicit Types (l k : list A).

Lemma comparator_total x y : f x y <= 0 \/ f y x <= 0.
Proof. pose proof (comparator_opp (f := f) x y). lia. Qed.

Lemma comparator_zero x y : f x y <= 0 -> f y x <= 0 -> f x y = 0.
Proof. pose proof (comparator_opp (f := f) y x). lia. Qed.

#[export] Instance lex_comparator : Comparator (lex f g).
Proof.
  split.
  - intros x y. unfold lex. pose proof (comparator_opp (f := f) x y). pose proof (comparator_opp (f := f) y x).
    pose proof (comparator_opp (f := g) x y). destruct (Z.eqb_spec (f x y) 0), (Z.eqb_spec (f y x) 0); lia.
  - intros x y z. unfold lex.
    pose proof (comparator_trans (f := f) x y z). pose proof (comparator_trans (f := f) y z x).
    pose proof (comparator_trans (f := f) z x y). pose proof (comparator_trans (f := g) x y z).
    pose proof (comparator_opp (f := f) x y). pose proof (comparator_opp (f := f) y z).
    pose proof (comparator_opp (f := f) z x). pose proof (comparator_opp (f := f) y x).
    pose proof (comparator_opp (f := f) z y). pose proof (comparator_opp (f := f) x z).
    destruct (Z.eqb_spec (f x y) 0), (Z.eqb_spec (f y z) 0), (Z.eqb_spec (f x z) 0); lia.
Qed.

Lemma sort_by_comparator l : StronglySorted (le_by f) (sort_by f l).
Proof. apply sort_by_sorted; [apply comparator_total|apply comparator_trans]. Qed.

Lemma insert_by_ext (h : A -> A -> Z) x l : (forall y, y ∈ l -> h y x = f y x) -> insert_by h x l = insert_by f x l.
Proof.
  induction l as [|y l IH]; intros H; [done|]. cbn [insert_by]. rewrite H by (by left).
  rewrite IH; [done|]. intros z Hz. apply H. by right.
Qed.

Lemma sort_by_ext (h : A -> A -> Z) l : (forall x y, x ∈ l -> y ∈ l -> h x y = f x y) -> sort_by h l = sort_by f l.
Proof.
  intros H. unfold sort_by.
  enough (He : forall k acc, acc ⊆ l -> k ⊆ l -> foldl (fun acc x => insert_by h x acc) acc k =
    foldl (fun acc x => insert_by f x acc) acc k) by (apply He; [apply list_subseteq_nil|done]).
  induction k as [|x k IH]; intros acc Hacc Hk; [done|]. cbn [foldl].
  assert (x ∈ l) by (apply Hk; by left).
  rewrite insert_by_ext by (intros; apply H; [by apply Hacc|done]). apply IH.
  - intros y. rewrite insert_by_perm. intros [->|Hy]%elem_of_cons; [done|by apply Hacc].
  - intros y Hy. apply Hk. by right.
Qed.

(** A list whose elements compare equal only to themselves has one sorted permutation. *)
Lemma sort_by_unique l k : (forall x y, x ∈ l -> y ∈ l -> f x y = 0 -> x = y) ->
  StronglySorted (le_by f) k -> k ≡ₚ l -> sort_by f l = k.
Proof.
  intros Hanti Hk Hp. apply (StronglySorted_unique_strong (le_by f)); [| |done|by rewrite sort_by_perm, Hp].
  - intros x y Hx Hy Hxy Hyx. rewrite sort_by_perm in Hx. rewrite Hp in Hy.
    apply Hanti; [done|done|by apply comparator_zero].
  - apply sort_by_comparator.
Qed.

Lemma sort_by_permutation l k : (forall x y, x ∈ l -> y ∈ l -> f x y = 0 -> x = y) -> l ≡ₚ k ->
  sort_by f l = sort_by f k.
Proof.
  intros Hanti Hp. apply sort_by_unique; [done| |by rewrite sort_by_perm].
  apply sort_by_comparator.
Qed.

Lemma sorted_app (R : A -> A -> Prop) l k : StronglySorted R l -> StronglySorted R k ->
  (forall x y, x ∈ l -> y ∈ k -> R x y) -> StronglySorted R (l ++ k).
Proof.
  induction 1 as [|x l Hl IH Hx]; intros Hk H; [done|]. cbn [app]. constructor.
  - apply IH; [done|]. intros y z Hy. apply H. by right.
  - apply Forall_app. split; [done|]. apply Forall_forall. intros y. apply H. by left.
Qed.

(** A list in two parts, the first before the second. *)
Lemma sort_by_app l k : (forall x y, x ∈ l ++ k -> y ∈ l ++ k -> f x y = 0 -> x = y) ->
  (forall x y, x ∈ l -> y ∈ k -> f x y <= 0) -> sort_by f (l ++ k) = sort_by f l ++ sort_by f k.
Proof.
  intros Hanti H. apply sort_by_unique; [done| |by rewrite !sort_by_perm].
  apply sorted_app; try apply sort_by_comparator; try done.
  intros x y. rewrite !sort_by_perm. apply H.
Qed.
End Comparators.

(** Distinct numbers in order. *)
Lemma sort_distinct (l : list Z) : NoDup l -> StronglySorted Z.lt (sort_by Z.sub l).
Proof.
  intros Hnd. rewrite <-(sort_by_perm Z.sub l) in Hnd. pose proof (sort_by_comparator Z.sub l) as Hs.
  revert Hnd Hs. generalize (sort_by Z.sub l). clear. induction l as [|x l IH]; intros Hnd Hs; [constructor|].
  apply NoDup_cons in Hnd as [Hx Hnd]. inversion Hs as [|? ? Hs' Hle]; subst. constructor; [by apply IH|].
  apply Forall_forall. intros y Hy. rewrite Forall_forall in Hle. specialize (Hle y Hy). unfold le_by in Hle.
  destruct (decide (x = y)) as [->|]; [done|lia].
Qed.

(** ** Grouping

    The loop [for (const x of l) m.set(key(x), step(m.get(key(x)), x))] that
    the components' summaries are written with. *)

(** The distinct keys of a list, in first-seen order. *)
Definition first_seen {K} `{EqDecision K} (ks : list K) : list K :=
  fold_left (fun acc k => if decide (k ∈ acc) then acc else acc ++ [k]) ks [].

Lemma first_seen_snoc {K} `{EqDecision K} (ks : list K) k :
  first_seen (ks ++ [k]) =
    if decide (k ∈ first_seen ks) then first_seen ks else first_seen ks ++ [k].
Proof. unfold first_seen. by rewrite fold_left_app. Qed.

Lemma elem_of_first_seen {K} `{EqDecision K} (ks : list K) k : k ∈ first_seen ks <-> k ∈ ks.
Proof.
  induction ks as [|x ks IH] using rev_ind; [done|].
  rewrite first_seen_snoc, elem_of_app, list_elem_of_singleton.
  destruct (decide (x ∈ first_seen ks)) as [Hin|].
  - rewrite IH. split; [by left|]. intros [?| ->]; [done|]. by apply IH.
  - by rewrite elem_of_app, list_elem_of_singleton, IH.
Qed.

Lemma first_seen_nodup {K} `{EqDecision K} (ks : list K) : NoDup (first_seen ks).
Proof.
  induction ks as [|x ks IH] using rev_ind; [constructor|]. rewrite first_seen_snoc.
  destruct (decide (x ∈ first_seen ks)) as [|Hnot]; [done|].
  apply NoDup_app. split; [done|]. split; [|apply NoDup_singleton].
  intros y Hy ->%list_elem_of_singleton. done.
Qed.

(** A map filled from distinct keys of its values holds each value once. *)
Lemma jmap_of_keyed {A K} `{EqDecision A} `{EqDecision K} (key : A -> K) (l : list A) : Inj (=) (=) key ->
  jmap_of (map (fun x => (key x, x)) l) = map (fun x => (key x, x)) (first_seen l).
Proof.
  intros Hk. induction l as [|x l IH] using rev_ind; [done|].
  rewrite map_app, first_seen_snoc. unfold jmap_of in *. rewrite fold_left_app, IH. cbn [map fold_left fst snd]. clear IH.
  induction (first_seen l) as [|y m IHm]; [done|]. cbn [map jset]. destruct (decide (key x = key y)) as [E|Hne].
  - apply (inj key) in E as <-. rewrite decide_True by by left. reflexivity.
  - rewrite IHm. assert (Hin : x ∈ y :: m <-> x ∈ m).
    { rewrite elem_of_cons. split; [by intros [->|?]|by right]. }
    repeat case_decide; tauto.
Qed.

Section Grouping.
Context {A K V : Type} `{EqDecision K} (key : A -> K) (step : option V -> A -> V).

Definition group_step (m : list (K * V)) (x : A) : list (K * V) :=
  jset (key x) (step (jget (key x) m) x) m.

Definition group (l : list A) : list (K * V) := fold_left group_step l [].

(** The elements of a group, and what the loop makes of them. *)
Definition members (k : K) (l : list A) : list A :=
  List.filter (fun x => bool_decide (key x = k)) l.

Definition group_value (k : K) (l : list A) : option V :=
  fold_left (fun o x => Some (step o x)) (members k l) None.

Lemma group_snoc l x : group (l ++ [x]) = group_step (group l) x.
Proof. unfold group. by rewrite fold_left_app. Qed.

Lemma group_keys l : jkeys (group l) = first_seen (map key l).
Proof.
  induction l as [|x l IH] using rev_ind; [done|].
  rewrite group_snoc, map_app. cbn [map]. rewrite first_seen_snoc, <-IH. apply jkeys_jset.
Qed.

Lemma group_get k l : jget k (group l) = group_value k l.
Proof.
  induction l as [|x l IH] using rev_ind; [done|].
  rewrite group_snoc. unfold group_step, group_value, members.
  rewrite jget_jset, List.filter_app. cbn [List.filter].
  destruct (decide (k = key x)) as [->|Hne].
  - rewrite bool_decide_true by done. rewrite fold_left_app. cbn [fold_left].
    by rewrite IH.
  - rewrite bool_decide_false by congruence. by rewrite app_nil_r, IH.
Qed.

Lemma group_elem k v l : (k, v) ∈ group l <-> group_value k l = Some v.
Proof.
  rewrite <-group_get. symmetry. apply jget_elem. rewrite group_keys. apply first_seen_nodup.
Qed.

Lemma group_members k v l : (k, v) ∈ group l -> members k l <> [].
Proof. intros Hin%group_elem Hnil. unfold group_value in Hin. by rewrite Hnil in Hin. Qed.
End Grouping.

(** Sorting the groups by key: the order is strict, because keys differ. *)
Definition jlt (a b : jstr) : Prop := jltb a b = true.

Lemma jcmp_lt a b : jcmp a b <= 0 -> a <> b -> jlt a b.
Proof.
  unfold jcmp, jlt. destruct (jltb a b) eqn:Hab; [done|].
  destruct (jltb b a) eqn:Hba; [lia|]. intros _ Hne. destruct Hne. by apply jltb_total.
Qed.

Lemma strict_keys {V} (R : jstr -> jstr -> Prop) (le : (jstr * V) -> (jstr * V) -> Prop) l :
  (forall x y, le x y -> x.1 <> y.1 -> R x.1 y.1) ->
  StronglySorted le l -> NoDup (map fst l) -> StronglySorted R (map fst l).
Proof.
  intros HR. induction 1 as [|x l Hl IH Hx]; cbn [map]; intros Hnd; [constructor|].
  apply NoDup_cons in Hnd as [Hnot Hnd]. constructor; [by apply IH|].
  apply Forall_forall. intros k (y & -> & Hy)%list_elem_of_fmap.
  apply HR; [by apply (proj1 (Forall_forall _ _) Hx)|].
  intros Heq. apply Hnot. rewrite Heq. by apply list_elem_of_fmap_2.
Qed.

Lemma sorted_nodup {V} (cmp : (jstr * V) -> (jstr * V) -> Z) (m : list (jstr * V)) :
  NoDup (jkeys m) -> NoDup (map fst (sort_by cmp m)).
Proof. intros Hnd. unfold jkeys in Hnd. by rewrite (sort_by_perm cmp m). Qed.

Lemma sort_keys_ascending {V} (m : list (jstr * V)) :
  NoDup (jkeys m) -> StronglySorted jlt (map fst (sort_by (fun a b => jcmp a.1 b.1) m)).
Proof.
  intros Hnd. apply (strict_keys jlt (le_by (fun a b => jcmp a.1 b.1))).
  - intros x y. apply jcmp_lt.
  - apply sort_by_sorted; [intros; apply jcmp_total|intros x y z; apply jcmp_trans].
  - by apply sorted_nodup.
Qed.

Lemma sort_keys_descending {V} (m : list (jstr * V)) :
  NoDup (jkeys m) ->
  StronglySorted (fun a b => jlt b a) (map fst (sort_by (fun a b => jcmp b.1 a.1) m)).
Proof.
  intros Hnd. apply (strict_keys (fun a b => jlt b a) (le_by (fun a b => jcmp b.1 a.1))).
  - intros x y Hle Hne. apply jcmp_lt; [exact Hle|congruence].
  - apply sort_by_sorted; [intros; apply jcmp_total|intros x y z H1 H2; by eapply jcmp_trans].
  - by apply sorted_nodup.
Qed.
