(* ===== verification/JsDate.v ===== *)
(** * Dates

    JavaScript's [Date] as the components use it: an instant is a number of
    milliseconds since 1970-01-01T00:00Z (proleptic Gregorian calendar, no
    leap seconds), [toISOString] and [Date.parse] of the ECMAScript date-time
    format.  What [Date.parse] makes of other text (local times, an engine's
    own formats) is a parameter [other]; [None] is [NaN]. *)
From S2P Require Import Prelude Text.
Local Open Scope Z_scope.

(** Numbers where [None] is [NaN]: a comparison with it is false. *)
Definition num_ltb (a b : option Z) : bool := match a, b with Some x, Some y => x <? y | _, _ => false end.
Definition num_leb (a b : option Z) : bool := match a, b with Some x, Some y => x <=? y | _, _ => false end.
Definition num_eqb (a b : option Z) : bool := match a, b with Some x, Some y => x =? y | _, _ => false end.
Definition num_op (f : Z -> Z -> Z) (a b : option Z) : option Z :=
  match a, b with Some x, Some y => Some (f x y) | _, _ => None end.
Definition num_sub (a b : option Z) : option Z := match a, b with Some x, Some y => Some (x - y) | _, _ => None end.

(** [(a, b) => a - b], where a sort takes [NaN] for zero. *)
Definition num_cmp (a b : option Z) : Z := default 0 (num_sub a b).

Lemma insert_by_map_some z (zs : list Z) :
  insert_by num_cmp (Some z) (map Some zs) = map Some (insert_by Z.sub z zs).
Proof.
  induction zs as [|y zs IH]; [done|]. cbn [map insert_by].
  change (num_cmp (Some y) (Some z)) with (y - z).
  destruct (y - z <=? 0); [|done]. cbn [map]. by rewrite IH.
Qed.

Lemma sort_by_map_some zs : sort_by num_cmp (map Some zs) = map Some (sort_by Z.sub zs).
Proof.
  unfold sort_by. change (@nil (option Z)) with (map Some (@nil Z)) at 1. generalize (@nil Z).
  induction zs as [|z zs IH]; intros acc; [done|]. cbn [map foldl]. by rewrite insert_by_map_some, IH.
Qed.

(** ** The calendar *)

Definition is_leap (y : Z) : bool :=
  (y mod 4 =? 0) && (negb (y mod 100 =? 0) || (y mod 400 =? 0)).

Definition days_in_month (y m : Z) : Z :=
  if m =? 2 then if is_leap y then 29 else 28
  else if (m =? 4) || (m =? 6) || (m =? 9) || (m =? 11) then 30 else 31.

Definition valid_civil (y m d : Z) : bool :=
  (1 <=? m) && (m <=? 12) && (1 <=? d) && (d <=? days_in_month y m).

(** Days within the 400 years that start on a 1 March, from the year, the
    month counted from March and the day. *)
Definition year_start (yoe : Z) : Z := yoe * 365 + yoe / 4 - yoe / 100.
Definition day_of_year (mp d : Z) : Z := (153 * mp + 2) / 5 + d - 1.
Definition day_of_era (yoe mp d : Z) : Z := year_start yoe + day_of_year mp d.

Definition days_from_civil (y m d : Z) : Z :=
  let y := if m <=? 2 then y - 1 else y in
  (y / 400) * 146097 + day_of_era (y mod 400) ((m + 9) mod 12) d - 719468.

Definition year_of_era (doe : Z) : Z :=
  (doe - doe / 1460 + doe / 36524 - doe / 146096) / 365.
Definition month_of_year (doy : Z) : Z * Z :=
  let mp := (5 * doy + 2) / 153 in (mp, doy - (153 * mp + 2) / 5 + 1).
Definition civil_of_era (doe : Z) : Z * Z * Z :=
  let yoe := year_of_era doe in
  let '(mp, d) := month_of_year (doe - year_start yoe) in
  (yoe, mp, d).

Definition civil_from_days (z : Z) : Z * Z * Z :=
  let z := z + 719468 in
  let '(yoe, mp, d) := civil_of_era (z mod 146097) in
  let m := if mp <? 10 then mp + 3 else mp - 9 in
  (yoe + (z / 146097) * 400 + (if m <=? 2 then 1 else 0), m, d).

Example epoch : days_from_civil 1970 1 1 = 0. Proof. reflexivity. Qed.
Example y2k : civil_from_days 10957 = (2000, 1, 1). Proof. reflexivity. Qed.

(** The years and the months of an era are checked one by one. *)
Definition zseq (n : nat) : list Z := map Z.of_nat (seq 0 n).

Lemma zseq_all n (P : Z -> bool) :
  forallb P (zseq n) = true -> forall k, 0 <= k < Z.of_nat n -> P k = true.
Proof.
  intros HP k Hk. rewrite forallb_forall in HP. apply HP. apply in_map_iff.
  exists (Z.to_nat k). split; [lia|]. apply in_seq. lia.
Qed.

Definition year_length (yoe : Z) : Z := if is_leap (yoe + 1) then 366 else 365.

Lemma year_of_era_mono d1 d2 :
  0 <= d1 <= d2 -> d2 < 146097 -> year_of_era d1 <= year_of_era d2.
Proof. intros H1 H2. unfold year_of_era. apply Z.div_le_mono; [lia|]. dlia. Qed.

Definition year_ok (yoe : Z) : bool :=
  (year_of_era (year_start yoe) =? yoe)
  && (year_of_era (year_start yoe + year_length yoe - 1) =? yoe)
  && (0 <=? year_start yoe) && (year_start yoe + year_length yoe <=? 146097)
  && (year_start yoe + year_length yoe =? if yoe =? 399 then 146097 else year_start (yoe + 1)).

Lemma year_of_era_start yoe doy :
  0 <= yoe < 400 -> 0 <= doy < year_length yoe ->
  year_of_era (year_start yoe + doy) = yoe /\ 0 <= year_start yoe + doy < 146097.
Proof.
  intros Hy Hd. pose proof (zseq_all 400 year_ok eq_refl yoe ltac:(lia)) as H.
  unfold year_ok in H. breflect. split; [|lia].
  pose proof (year_of_era_mono (year_start yoe) (year_start yoe + doy)).
  pose proof (year_of_era_mono (year_start yoe + doy) (year_start yoe + year_length yoe - 1)). lia.
Qed.

(** The length of a month counted from March; [leap] is about its February. *)
Definition march_month_length (leap : bool) (mp : Z) : Z :=
  if mp =? 11 then if leap then 29 else 28
  else if (mp =? 1) || (mp =? 3) || (mp =? 6) || (mp =? 8) then 30 else 31.

Definition month_ok (leap : bool) (mp : Z) : bool :=
  forallb (fun d0 =>
    let d := d0 + 1 in
    let '(mp', d') := month_of_year (day_of_year mp d) in
    (march_month_length leap mp <? d)
    || (mp' =? mp) && (d' =? d) && (0 <=? day_of_year mp d)
       && (day_of_year mp d <? if leap then 366 else 365)) (zseq 31).

Lemma month_of_day_of_year leap mp d :
  0 <= mp < 12 -> 1 <= d <= march_month_length leap mp ->
  month_of_year (day_of_year mp d) = (mp, d) /\
  0 <= day_of_year mp d < (if leap then 366 else 365).
Proof.
  intros Hm Hd.
  assert (Hall : forallb (month_ok leap) (zseq 12) = true) by (destruct leap; vm_compute; reflexivity).
  pose proof (zseq_all 12 _ Hall mp ltac:(lia)) as H1. unfold month_ok in H1.
  assert (march_month_length leap mp <= 31)
    by (unfold march_month_length; repeat case_match; lia).
  pose proof (zseq_all 31 _ H1 (d - 1) ltac:(lia)) as H2. cbn beta zeta in H2.
  replace (d - 1 + 1) with d in H2 by lia.
  destruct (month_of_year (day_of_year mp d)) as [mp' d'].
  rewrite (proj2 (Z.ltb_ge _ d)) in H2 by lia. cbn [orb] in H2. breflect. subst. split; [done|lia].
Qed.

Definition doy_ok (leap : bool) (doy : Z) : bool :=
  let '(mp, d) := month_of_year doy in
  (day_of_year mp d =? doy) && (0 <=? mp) && (mp <? 12) && (1 <=? d)
  && (d <=? march_month_length leap mp).

Lemma day_of_month_of_year (leap : bool) doy :
  0 <= doy < (if leap then 366 else 365) ->
  let '(mp, d) := month_of_year doy in
  day_of_year mp d = doy /\ 0 <= mp < 12 /\ 1 <= d <= march_month_length leap mp.
Proof.
  intros Hd.
  assert (H : doy_ok leap doy = true).
  { destruct leap.
    - by apply (zseq_all 366 (doy_ok true) eq_refl).
    - by apply (zseq_all 365 (doy_ok false) eq_refl). }
  unfold doy_ok in H. destruct (month_of_year doy) as [mp d]. breflect. lia.
Qed.

Lemma is_leap_mod y k : is_leap (y + 400 * k) = is_leap y.
Proof.
  unfold is_leap.
  replace ((y + 400 * k) mod 4) with (y mod 4) by dlia.
  replace ((y + 400 * k) mod 100) with (y mod 100) by dlia.
  replace ((y + 400 * k) mod 400) with (y mod 400) by dlia. done.
Qed.

(** Months from March and months from January. *)
Lemma month_from_march m :
  1 <= m <= 12 ->
  0 <= (m + 9) mod 12 < 12 /\
  (if (m + 9) mod 12 <? 10 then (m + 9) mod 12 + 3 else (m + 9) mod 12 - 9) = m.
Proof.
  intros Hm. pose proof (zseq_all 12 (fun k =>
    (if (k + 1 + 9) mod 12 <? 10 then (k + 1 + 9) mod 12 + 3 else (k + 1 + 9) mod 12 - 9) =? k + 1)
    eq_refl (m - 1) ltac:(lia)) as H. cbn beta in H.
  replace (m - 1 + 1) with m in H by lia. breflect. split; [|done]. apply Z.mod_pos_bound. lia.
Qed.

Lemma march_length y m mp :
  1 <= m <= 12 -> mp = (m + 9) mod 12 ->
  days_in_month y m = march_month_length (is_leap y) mp.
Proof.
  intros Hm ->. unfold days_in_month, march_month_length. generalize (is_leap y) as b. intros b.
  pose proof (zseq_all 12 (fun k => let m := k + 1 in
    (if m =? 2 then if b then 29 else 28
     else if (m =? 4) || (m =? 6) || (m =? 9) || (m =? 11) then 30 else 31) =?
    (if (m + 9) mod 12 =? 11 then if b then 29 else 28
     else if ((m + 9) mod 12 =? 1) || ((m + 9) mod 12 =? 3) || ((m + 9) mod 12 =? 6)
       || ((m + 9) mod 12 =? 8) then 30 else 31)) ltac:(by destruct b) (m - 1) ltac:(lia)) as H.
  cbn beta zeta in H. replace (m - 1 + 1) with m in H by lia. by apply Z.eqb_eq.
Qed.

(** A leap year of the calendar is a leap year of its era. *)
Lemma era_leap y (k : Z) : is_leap (y mod 400 + 1) = is_leap (y + 1).
Proof. rewrite <-(is_leap_mod (y mod 400 + 1) (y / 400)). f_equal. dlia. Qed.

(** A date is the date of its day number. *)
Lemma civil_from_days_from_civil y m d :
  valid_civil y m d = true -> civil_from_days (days_from_civil y m d) = (y, m, d).
Proof.
  intros Hv. unfold valid_civil in Hv. breflect.
  unfold civil_from_days, days_from_civil.
  destruct (month_from_march m) as [Hmp Hm]; [lia|].
  pose proof (march_length y m _ ltac:(lia) eq_refl) as Hlen.
  set (y' := if m <=? 2 then y - 1 else y). set (mp := (m + 9) mod 12) in *.
  assert (Hleap : 1 <= d <= march_month_length (is_leap (y' mod 400 + 1)) mp).
  { rewrite era_leap by exact 0. unfold y'. revert Hlen. unfold march_month_length.
    destruct (Z.eqb_spec mp 11); [|lia].
    rewrite (proj2 (Z.leb_le m 2)) by (unfold mp in *; dlia).
    replace (y - 1 + 1) with y by lia. lia. }
  destruct (month_of_day_of_year _ mp d Hmp Hleap) as [Hmon Hdoy].
  destruct (year_of_era_start (y' mod 400) (day_of_year mp d)) as [Hyear Hr]; [dlia|done|].
  unfold day_of_era.
  replace (y' / 400 * 146097 + (year_start (y' mod 400) + day_of_year mp d) - 719468 + 719468)
    with (year_start (y' mod 400) + day_of_year mp d + y' / 400 * 146097) by lia.
  rewrite Z.mod_add, Z.div_add, Z.mod_small, Z.div_small by lia.
  unfold civil_of_era. rewrite Hyear.
  replace (year_start _ + day_of_year mp d - year_start _) with (day_of_year mp d) by lia.
  rewrite Hmon, Hm. do 2 f_equal. unfold y'. destruct (m <=? 2); dlia.
Qed.

Lemma year_of_era_bounds doe :
  0 <= doe < 146097 ->
  0 <= year_of_era doe < 400 /\
  year_start (year_of_era doe) <= doe < year_start (year_of_era doe) + year_length (year_of_era doe).
Proof.
  intros Hd. pose proof (year_of_era_mono 0 doe ltac:(lia) ltac:(lia)) as H0.
  pose proof (year_of_era_mono doe 146096 ltac:(lia) ltac:(lia)) as H1.
  change (year_of_era 0) with 0 in H0. change (year_of_era 146096) with 399 in H1.
  set (y := year_of_era doe) in *.
  assert (Hok : forall k, 0 <= k < 400 -> year_ok k = true)
    by exact (zseq_all 400 year_ok eq_refl).
  split; [lia|]. pose proof (Hok y ltac:(lia)) as Hy. unfold year_ok in Hy. breflect. split.
  - destruct (Z.le_gt_cases (year_start y) doe) as [|Hlt]; [done|exfalso].
    destruct (Z.eq_dec y 0) as [->|Hnz]; [change (year_start 0) with 0 in Hlt; lia|].
    pose proof (Hok (y - 1) ltac:(lia)) as Hy1. unfold year_ok in Hy1. breflect.
    rewrite (proj2 (Z.eqb_neq (y - 1) 399)) in * by lia. replace (y - 1 + 1) with y in * by lia.
    pose proof (year_of_era_mono doe (year_start (y - 1) + year_length (y - 1) - 1)). lia.
  - destruct (Z.lt_ge_cases doe (year_start y + year_length y)) as [|Hge]; [done|exfalso].
    destruct (Z.eqb_spec y 399) as [Heq|Hne]; [lia|].
    pose proof (Hok (y + 1) ltac:(lia)) as Hy1. unfold year_ok in Hy1. breflect.
    pose proof (year_of_era_mono (year_start (y + 1)) doe). lia.
Qed.

Lemma civil_of_era_ok doe :
  0 <= doe < 146097 ->
  let '(yoe, mp, d) := civil_of_era doe in
  day_of_era yoe mp d = doe /\ 0 <= yoe < 400 /\ 0 <= mp < 12
  /\ 1 <= d <= march_month_length (is_leap (yoe + 1)) mp.
Proof.
  intros Hd. unfold civil_of_era.
  pose proof (year_of_era_bounds doe Hd) as Hy.
  pose proof (day_of_month_of_year (is_leap (year_of_era doe + 1)) (doe - year_start (year_of_era doe))) as H.
  unfold year_length in Hy.
  destruct (month_of_year _) as [mp d]. destruct H as (H1 & H2 & H3).
  { destruct (is_leap _); lia. }
  unfold day_of_era. lia.
Qed.

(** Every day has a date, and is the day of that date. *)
Lemma days_from_civil_from_days z :
  let '(y, m, d) := civil_from_days z in
  valid_civil y m d = true /\ days_from_civil y m d = z.
Proof.
  unfold civil_from_days.
  assert (Hdoe : 0 <= (z + 719468) mod 146097 < 146097) by dlia.
  pose proof (civil_of_era_ok _ Hdoe) as H.
  destruct (civil_of_era _) as [[yoe mp] d]. destruct H as (Hday & Hy & Hmp & Hlen).
  set (m := if mp <? 10 then mp + 3 else mp - 9) in *.
  assert (Hm : 1 <= m <= 12 /\ (m + 9) mod 12 = mp /\ (m <=? 2) = negb (mp <? 10)).
  { unfold m. destruct (mp <? 10) eqn:E; breflect; (split; [lia|split; [dlia|cbn; lia]]). }
  destruct Hm as (Hm & Hmp' & Hle).
  set (era := (z + 719468) / 146097) in *.
  assert (Hy' : (if m <=? 2 then yoe + era * 400 + (if m <=? 2 then 1 else 0) - 1
    else yoe + era * 400 + (if m <=? 2 then 1 else 0)) = yoe + era * 400) by (destruct (m <=? 2); lia).
  split.
  - unfold valid_civil. rewrite (march_length _ m mp) by done.
    rewrite !andb_true_iff, !Z.leb_le. split_and!; try lia.
    revert Hlen. unfold march_month_length. destruct (Z.eqb_spec mp 11); [|lia].
    rewrite Hle, (proj2 (Z.ltb_ge mp 10)) by lia. cbn [negb].
    rewrite <-(is_leap_mod (yoe + 1) era).
    replace (yoe + era * 400 + 1) with (yoe + 1 + 400 * era) by lia. lia.
  - unfold days_from_civil. rewrite Hmp', Hy'.
    rewrite Z.div_add, Z.mod_add, Z.div_small, Z.mod_small, Hday by lia. unfold era. dlia.
Qed.

(** ** [toISOString] and [Date.parse] *)

Definition DAY_MS : Z := 86400000.

(** The largest time value a [Date] can hold. *)
Definition MAX_TIME : Z := 8640000000000000.

Definition time_value (y m d h mi s msec : Z) : Z :=
  days_from_civil y m d * DAY_MS + h * 3600000 + mi * 60000 + s * 1000 + msec.

Definition iso_date (y m d : Z) : jstr :=
  (if (0 <=? y) && (y <=? 9999) then pad_dec 4 y
   else (if y <? 0 then 45 else 43) :: pad_dec 6 (Z.abs y))
    ++ 45 :: pad_dec 2 m ++ 45 :: pad_dec 2 d.

Definition iso_time (msec : Z) : jstr :=
  pad_dec 2 (msec / 3600000) ++ 58 :: pad_dec 2 (msec / 60000 mod 60) ++ 58
    :: pad_dec 2 (msec / 1000 mod 60) ++ 46 :: pad_dec 3 (msec mod 1000) ++ [90].

(** [new Date(t).toISOString()]; [None]: it throws a [RangeError]. *)
Definition toISOString (t : Z) : option jstr :=
  if MAX_TIME <? Z.abs t then None
  else
    let '(y, m, d) := civil_from_days (t / DAY_MS) in
    Some (iso_date y m d ++ 84 :: iso_time (t mod DAY_MS)).

(** Exactly [n] digits at the start of a text. *)
Definition digits (n : nat) (s : jstr) : option (Z * jstr) :=
  if (length (take n s) =? n)%nat && forallb is_digit (take n s)
  then Some (parse_dec (take n s), drop n s) else None.

Definition lit (c : Z) (s : jstr) : option jstr :=
  match s with x :: s' => if x =? c then Some s' else None | [] => None end.

(** [Z], or an offset from UTC in minutes. *)
Definition zone (s : jstr) : option (Z * jstr) :=
  match s with
  | 90 :: s' => Some (0, s')
  | sign :: s' =>
      if (sign =? 43) || (sign =? 45) then
        '(h, s') ← digits 2 s'; s' ← lit 58 s'; '(mi, s') ← digits 2 s';
        Some (if sign =? 43 then h * 60 + mi else - (h * 60 + mi), s')
      else None
  | [] => None
  end.

(** [:ss] and [.sss], which may be left out. *)
Definition seconds (s : jstr) : option (Z * Z * jstr) :=
  match s with
  | 58 :: s' =>
      '(sec, s') ← digits 2 s';
      match s' with
      | 46 :: s'' => '(msec, s'') ← digits 3 s''; Some (sec, msec, s'')
      | _ => Some (sec, 0, s')
      end
  | _ => Some (0, 0, s)
  end.

(** The time value of legal fields, [NaN] ([Some None]) when one is out of its
    bounds; and no value at all for a day from 29 to 31 that the month does not
    have: ECMAScript leaves such a text to the implementation (V8 goes on into
    the next month). *)
Definition fields_value (y m d h mi s msec offset : Z) : option (option Z) :=
  if (mi <? 60) && (s <? 60) && ((h <? 24) || ((h =? 24) && (mi =? 0) && (s =? 0) && (msec =? 0)))
  then if valid_civil y m d then Some (Some (time_value y m d h mi s msec - offset * 60000))
       else if (1 <=? m) && (m <=? 12) && (1 <=? d) && (d <=? 31) then None
       else Some None
  else Some None.

(** The ECMAScript format with four-digit years: a date (in UTC), or a date
    and time with its zone.  [None]: the text is not of that form, or it is
    left to the implementation. *)
Definition parse_iso (s : jstr) : option (option Z) :=
  '(y, s) ← digits 4 s; s ← lit 45 s; '(m, s) ← digits 2 s; s ← lit 45 s;
  '(d, s) ← digits 2 s;
  match s with
  | [] => fields_value y m d 0 0 0 0 0
  | 84 :: s =>
      '(h, s) ← digits 2 s; s ← lit 58 s; '(mi, s) ← digits 2 s;
      '(sec, msec, s) ← seconds s;
      '(offset, s) ← zone s;
      match s with
      | [] => fields_value y m d h mi sec msec offset
      | _ => None
      end
  | _ => None
  end.

(** [Date.parse(s)]. *)
Definition Date_parse (other : jstr -> option Z) (s : jstr) : option Z :=
  match parse_iso s with Some t => t | None => other s end.

Lemma days_in_month_range y m : 28 <= days_in_month y m <= 31.
Proof. unfold days_in_month. repeat case_match; lia. Qed.

Lemma digits_pad n k r :
  0 <= k < 10 ^ Z.of_nat n -> (0 < n)%nat -> digits n (pad_dec n k ++ r) = Some (k, r).
Proof.
  intros Hk Hn. pose proof (pad_dec_length n k Hk Hn) as Hlen.
  destruct (pad_dec_spec n k) as [Hp Hd]; [lia|].
  revert Hlen Hp Hd. generalize (pad_dec n k) as l. intros l <- Hp Hd. unfold digits.
  rewrite take_app_length, drop_app_length, Nat.eqb_refl, Hp.
  assert (forallb is_digit l = true) as ->; [|done].
  apply forallb_forall. intros x Hx. rewrite Forall_forall in Hd.
  apply Hd. by apply list_elem_of_In.
Qed.

Lemma parse_iso_date y m d r :
  0 <= y <= 9999 -> valid_civil y m d = true ->
  parse_iso (iso_date y m d ++ r) =
    match r with
    | [] => fields_value y m d 0 0 0 0 0
    | 84 :: s =>
        '(h, s) ← digits 2 s; s ← lit 58 s; '(mi, s) ← digits 2 s;
        '(sec, msec, s) ← seconds s;
        '(offset, s) ← zone s;
        match s with
        | [] => fields_value y m d h mi sec msec offset
        | _ => None
        end
    | _ => None
    end.
Proof.
  intros Hy Hv. unfold valid_civil in Hv. breflect. pose proof (days_in_month_range y m).
  unfold iso_date, parse_iso. rewrite (proj2 (Z.leb_le 0 y)), (proj2 (Z.leb_le y 9999)) by lia.
  cbn [andb]. rewrite <-app_assoc, digits_pad by lia. cbn [mbind option_bind lit app Z.eqb Pos.eqb].
  rewrite <-app_assoc, digits_pad by lia. cbn [mbind option_bind lit app Z.eqb Pos.eqb].
  rewrite digits_pad by lia. cbn [mbind option_bind]. done.
Qed.

Lemma time_value_split y m d t :
  0 <= t < DAY_MS ->
  time_value y m d (t / 3600000) (t / 60000 mod 60) (t / 1000 mod 60) (t mod 1000)
    = days_from_civil y m d * DAY_MS + t.
Proof. intros. unfold time_value. dlia. Qed.

(** The instant of a year from 0 to 9999 is read back from its ISO text. *)
Lemma Date_parse_toISOString other t y m d s :
  civil_from_days (t / DAY_MS) = (y, m, d) -> 0 <= y <= 9999 ->
  toISOString t = Some s -> Date_parse other s = Some t.
Proof.
  intros Hciv Hy. unfold toISOString. rewrite Hciv. case_match; [done|]. intros [= <-].
  pose proof (days_from_civil_from_days (t / DAY_MS)) as Hdays. rewrite Hciv in Hdays.
  destruct Hdays as [Hv Hday].
  assert (Ht : 0 <= t mod DAY_MS < DAY_MS) by (unfold DAY_MS; apply Z.mod_pos_bound; lia).
  unfold Date_parse. rewrite parse_iso_date by done.
  set (u := t mod DAY_MS) in *. unfold DAY_MS in Ht.
  unfold iso_time. rewrite digits_pad by (change (10 ^ Z.of_nat 2) with 100; dlia || lia).
  cbn [mbind option_bind lit app Z.eqb Pos.eqb].
  rewrite digits_pad by (change (10 ^ Z.of_nat 2) with 100; dlia || lia).
  cbn [mbind option_bind lit app Z.eqb Pos.eqb seconds].
  rewrite digits_pad by (change (10 ^ Z.of_nat 2) with 100; dlia || lia).
  cbn [mbind option_bind lit app Z.eqb Pos.eqb seconds].
  rewrite digits_pad by (change (10 ^ Z.of_nat 3) with 1000; dlia || lia).
  cbn [mbind option_bind lit app Z.eqb Pos.eqb zone].
  unfold fields_value. rewrite Hv.
  rewrite (proj2 (Z.ltb_lt (u / 60000 mod 60) 60)), (proj2 (Z.ltb_lt (u / 1000 mod 60) 60)),
    (proj2 (Z.ltb_lt (u / 3600000) 24)) by dlia.
  cbn [andb orb]. rewrite time_value_split by done. rewrite Hday. f_equal.
  unfold u, DAY_MS. dlia.
Qed.
