(* ===== verification/Encoding.v ===== *)
(** * Willow's byte encodings

    Models [src/integrations/willow-drop/encoding.ts]: the [Reader], compact
    U64s, relative and absolute paths, UTF-8 and base64. Byte arrays are lists
    of integers, each in [0..255] ([is_byte]); a [Uint8Array] view made by
    [subarray] is the list of its bytes. BigInts are [Z]. *)
From S2P Require Import Prelude.
Local Open Scope Z_scope.

(** ** Errors *)

(** Every [new DropError(message)] of [encoding.ts], [drop.ts] and
    [upload.ts], one constructor per message. *)
Inductive DropProblem :=
| EndsInsideEntry
| Exceeds (what : string) (limit : Z)
| PathClaimsMoreBytes
| InvalidFinalComponent
| ReusesTooManyComponents
| PathExceedsLimits
| CarriesDelegations
| ReusesMissingDelegations
| RepeatsCommunalAsOwned
| TooManyEntries
| BytesAfterEnd
| NoEntryHeader
| CommunalCapabilityInOwnedNamespace
| OwnedCapabilityInCommunalNamespace
| CapabilityNotSigned
| SignatureDoesNotVerify
| EndsInsidePayload
| PayloadDigestMismatch
| PartialSlices
| PartialPrefix
| AmbiguousReadings (encodings : list string).

(* src: integrations/willow-drop/encoding.ts 14-22 DropError *)
Record DropError := mkDropError {
  de_message : DropProblem;
  de_entry : option nat;
}.

Definition dropError (p : DropProblem) : DropError := mkDropError p None.

(** ** Reader *)

(* src: integrations/willow-drop/encoding.ts 24-27 Reader ! *)
Record Reader := mkReader { rd_bytes : list Z; rd_offset : nat }.

(** A method of [Reader]: it may throw, and moves the offset. *)
Definition rd (A : Type) : Type := Reader -> res DropError (A * Reader).

#[global] Instance rd_ret : MRet rd := fun A a r => Ok (a, r).
#[global] Instance rd_bind : MBind rd :=
  fun A B f m r => match m r with Ok (a, r') => f a r' | Err e => Err e end.

Definition fail {A} (p : DropProblem) : rd A := fun _ => Err (dropError p).
Definition require (b : bool) (p : DropProblem) : rd unit :=
  if b then mret tt else fail p.

(* src: integrations/willow-drop/encoding.ts 29-31 remaining *)
Definition remaining (r : Reader) : Z :=
  Z.of_nat (length (rd_bytes r)) - Z.of_nat (rd_offset r).

(* src: integrations/willow-drop/encoding.ts 33-38 peek *)
Definition peek : rd Z := fun r =>
  match rd_bytes r !! rd_offset r with
  | None => Err (dropError EndsInsideEntry)
  | Some b => Ok (b, r)
  end.

(* src: integrations/willow-drop/encoding.ts 40-45 byte *)
Definition byte : rd Z := fun r =>
  '(value, r) ← peek r;
  Ok (value, mkReader (rd_bytes r) (rd_offset r + 1)).

(* src: integrations/willow-drop/encoding.ts 47-54 take *)
Definition read_take (count : Z) : rd (list Z) := fun r =>
  if remaining r <? count then Err (dropError EndsInsideEntry)
  else Ok (slice (rd_offset r) (rd_offset r + Z.to_nat count) (rd_bytes r),
           mkReader (rd_bytes r) (rd_offset r + Z.to_nat count)).

(** Big-endian bytes into a BigInt: [value = (value << 8n) | BigInt(b)]. *)
Definition be_combine (bs : list Z) : Z :=
  fold_left (fun value b => Z.lor (Z.shiftl value 8) b) bs 0.

(* src: integrations/willow-drop/encoding.ts 56-67 cu64 *)
Definition cu64 (tagByte width offset : Z) : rd Z :=
  let max := Z.shiftl 1 width - 1 in
  let tag := Z.land (Z.shiftr tagByte (8 - offset - width)) max in
  match [8; 4; 2; 1] !! Z.to_nat (max - tag) with
  | None => mret tag
  | Some bytes => bs ← read_take bytes; mret (be_combine bs)
  end.

(* src: integrations/willow-drop/encoding.ts 69-72 cu64Standalone *)
Definition cu64Standalone : rd Z := tag ← byte; cu64 tag 8 0.

(* src: integrations/willow-drop/encoding.ts 75-80 small *)
Definition small (value limit : Z) (what : string) : rd Z :=
  if limit <? value then fail (Exceeds what limit) else mret value.

(** ** Paths *)

(* src: integrations/willow-drop/encoding.ts 9-12 MCL/MCC/MPL ! *)
Definition MCL : Z := 4096.
Definition MCC : Z := 4096.
Definition MPL : Z := 4096.

Abbreviation Path := (list (list Z)) (only parsing).

(** [path.reduce((sum, c) => sum + c.length, 0)]. *)
Definition path_length (p : Path) : Z := sum_Z (map len p).

(** The loop [for (i = 1; i < count; i++)] over the components that carry
    their own length. *)
Fixpoint read_components (n : nat) (accumulated : Z) (path : Path) : rd (Z * Path) :=
  match n with
  | O => mret (accumulated, path)
  | S n' =>
      value ← cu64Standalone;
      length ← small value MCL "a path component";
      component ← read_take length;
      read_components n' (accumulated + length) (path ++ [component])
  end.

(* src: integrations/willow-drop/encoding.ts 84-112 decodeComponents *)
Definition decodeComponents (prefix : Path) (count totalLength : Z) : rd Path :=
  let accumulated := path_length prefix in
  if count =? 0 then
    _ ← require (negb (accumulated <? totalLength)) PathClaimsMoreBytes;
    mret prefix
  else
    '(accumulated, path) ← read_components (Z.to_nat (count - 1)) accumulated prefix;
    let last := totalLength - accumulated in
    _ ← require (negb ((last <? 0) || (MCL <? last))) InvalidFinalComponent;
    component ← read_take last;
    mret (path ++ [component]).

(* src: integrations/willow-drop/encoding.ts 114-133 decodeRelativePath *)
Definition decodeRelativePath (previous : Path) : rd Path :=
  value ← cu64Standalone;
  prefixCount ← small value MCC "a path prefix";
  header ← byte;
  value ← cu64 header 4 0;
  suffixLength ← small value MPL "a path";
  value ← cu64 header 4 4;
  suffixCount ← small value MCC "a path";
  _ ← require (negb (len previous <? prefixCount)) ReusesTooManyComponents;
  let prefix := take (Z.to_nat prefixCount) previous in
  let prefixLength := path_length prefix in
  _ ← require (negb ((MPL <? prefixLength + suffixLength)
                     || (MCC <? prefixCount + suffixCount))) PathExceedsLimits;
  decodeComponents prefix suffixCount (prefixLength + suffixLength).

(* src: integrations/willow-drop/encoding.ts 135-144 tagFor *)
Definition tagFor (n width : Z) : Z :=
  let maxInline := Z.shiftl 1 width - 4 in
  let max := Z.shiftl 1 width - 1 in
  if n <? maxInline then n
  else if n <? 256 then max - 3
  else if n <? 65536 then max - 2
  else if n <? 4294967296 then max - 1
  else max.

(** The loop [for (i = size - 1; i >= 0; i--)] of [cu64Bytes]. *)
Fixpoint be_split (size : nat) (n : Z) : list Z :=
  match size with
  | O => []
  | S i => Z.land (Z.shiftr n (Z.of_nat i * 8)) 255 :: be_split i n
  end.

(* src: integrations/willow-drop/encoding.ts 146-154 cu64Bytes *)
Definition cu64Bytes (n width : Z) : list Z :=
  match [8%nat; 4%nat; 2%nat; 1%nat] !! Z.to_nat (Z.shiftl 1 width - 1 - tagFor n width) with
  | None => []
  | Some size => be_split size n
  end.

(* src: integrations/willow-drop/encoding.ts 156-159 encodeCu64Standalone *)
Definition encodeCu64Standalone (n : Z) : list Z := tagFor n 8 :: cu64Bytes n 8.

(** The [path.forEach] of [encodePath]. *)
Fixpoint encode_components (path : Path) : list Z :=
  match path with
  | [] => []
  | [component] => component
  | component :: path' =>
      encodeCu64Standalone (len component) ++ component ++ encode_components path'
  end.

(* src: integrations/willow-drop/encoding.ts 161-174 encodePath *)
Definition encodePath (path : Path) : list Z :=
  let length := path_length path in
  let count := len path in
  Z.lor (Z.shiftl (tagFor length 4) 4) (tagFor count 4)
    :: cu64Bytes length 4 ++ cu64Bytes count 4 ++ encode_components path.

(** ** UTF-8 *)

(** The lead byte: how many continuation bytes, the bits it carries and the
    least code point of that length. *)
Definition utf8_lead (b : Z) : option (nat * Z * Z) :=
  if (0xc2 <=? b) && (b <=? 0xdf) then Some (1%nat, Z.land b 0x1f, 0x80)
  else if (0xe0 <=? b) && (b <=? 0xef) then Some (2%nat, Z.land b 0x0f, 0x800)
  else if (0xf0 <=? b) && (b <=? 0xf4) then Some (3%nat, Z.land b 0x07, 0x10000)
  else if 0x80 <=? b then None
  else Some (0%nat, b, 0).

(** The continuation bytes of one code point. *)
Fixpoint utf8_continue (code : Z) (cs : list Z) : option Z :=
  match cs with
  | [] => Some code
  | c :: cs' =>
      if negb (Z.land c 0xc0 =? 0x80) then None
      else utf8_continue (Z.lor (Z.shiftl code 6) (Z.land c 0x3f)) cs'
  end.

(** One turn of the loop at byte [b] with [rest] after it: the code point and
    the bytes left. *)
Definition utf8_step (b : Z) (rest : list Z) : option (Z * list Z) :=
  '(need, lead, min) ← utf8_lead b;
  if decide (length rest < need)%nat then None else
  code ← utf8_continue lead (take need rest);
  if (negb (Nat.eqb need 0) && (code <? min)) || (0x10ffff <? code)
     || ((0xd800 <=? code) && (code <=? 0xdfff))
  then None
  else Some (code, drop need rest).

(** [String.fromCodePoint]. *)
Definition fromCodePoint (code : Z) : jstr :=
  if code <? 0x10000 then [code]
  else [0xd800 + (code - 0x10000) / 1024; 0xdc00 + (code - 0x10000) mod 1024].

(** The loop, with fuel for the bytes left: each turn drops at least one. *)
Fixpoint utf8_loop (fuel : nat) (bytes : list Z) : option jstr :=
  match bytes, fuel with
  | [], _ => Some []
  | _, O => None
  | b :: rest, S fuel' =>
      '(code, rest') ← utf8_step b rest;
      out ← utf8_loop fuel' rest';
      Some (fromCodePoint code ++ out)
  end.

(* src: integrations/willow-drop/encoding.ts 176-208 utf8Text *)
Definition utf8Text (bytes : list Z) : option jstr := utf8_loop (length bytes) bytes.

(** ** Base64 *)

(* src: integrations/willow-drop/encoding.ts 210-211 BASE64 *)
Definition BASE64 : jstr :=
  js "ABCDEFGHIJKLMNOPQRSTUVWXYZabcdefghijklmnopqrstuvwxyz0123456789+/".

Definition b64_char (i : Z) : Z := nth (Z.to_nat i) BASE64 0.
Definition PAD : Z := 61.

(** One turn of the loop of [base64]: three bytes, or the one or two left. *)
Definition base64_group (b0 : Z) (b1 b2 : option Z) : jstr :=
  let n := js_or (js_or (js_shl b0 16) (js_shl (default 0 b1) 8)) (default 0 b2) in
  [ b64_char (js_shr n 18);
    b64_char (js_and (js_shr n 12) 63);
    if b1 is Some _ then b64_char (js_and (js_shr n 6) 63) else PAD;
    if b2 is Some _ then b64_char (js_and n 63) else PAD ].

(* src: integrations/willow-drop/encoding.ts 213-226 base64 *)
Fixpoint base64 (bytes : list Z) : jstr :=
  match bytes with
  | [] => []
  | [b0] => base64_group b0 None None
  | [b0; b1] => base64_group b0 (Some b1) None
  | b0 :: b1 :: b2 :: rest => base64_group b0 (Some b1) (Some b2) ++ base64 rest
  end.

(** ** What a reader method consumes

    [parses m l v]: whenever the bytes ahead of a well-formed reader start
    with [l], [m] returns [v] and leaves the reader just after [l]. *)
Definition rd_wf (r : Reader) : Prop := (rd_offset r <= length (rd_bytes r))%nat.

Definition ahead (r : Reader) : list Z := drop (rd_offset r) (rd_bytes r).

Definition advance (r : Reader) (n : nat) : Reader := mkReader (rd_bytes r) (rd_offset r + n).

Definition parses {A} (m : rd A) (l : list Z) (v : A) : Prop :=
  forall r l2, rd_wf r -> ahead r = l ++ l2 -> m r = Ok (v, advance r (length l)).

Lemma remaining_ahead r : rd_wf r -> remaining r = len (ahead r).
Proof. unfold rd_wf, remaining, ahead, len. rewrite length_drop. lia. Qed.

Lemma ahead_advance r l l2 : ahead r = l ++ l2 -> ahead (advance r (length l)) = l2.
Proof.
  unfold ahead; cbn. intros H. rewrite <-drop_drop, H. by rewrite drop_app_length.
Qed.

Lemma advance_wf r l l2 : rd_wf r -> ahead r = l ++ l2 -> rd_wf (advance r (length l)).
Proof.
  unfold rd_wf, ahead; cbn. intros Hr H. apply (f_equal length) in H.
  rewrite length_drop, length_app in H. lia.
Qed.

Lemma parses_ret {A} (v : A) : parses (mret v) [] v.
Proof. intros [bs o] l2 _ H. unfold advance. cbn. by rewrite Nat.add_0_r. Qed.

Lemma parses_bind {A B} (m : rd A) (f : A -> rd B) l1 l2 v w :
  parses m l1 v -> parses (f v) l2 w -> parses (m ≫= f) (l1 ++ l2) w.
Proof.
  intros Hm Hf r l3 Hr H. rewrite <-app_assoc in H.
  unfold mbind, rd_bind. rewrite (Hm r _ Hr H). cbn.
  rewrite (Hf _ l3); [|by eapply advance_wf|by apply ahead_advance].
  unfold advance; cbn. by rewrite length_app, Nat.add_assoc.
Qed.

Lemma parses_require (b : bool) p : b = true -> parses (require b p) [] tt.
Proof. intros ->. apply parses_ret. Qed.

Lemma parses_byte b : parses byte [b] b.
Proof.
  intros r l2 Hr H. unfold byte, peek.
  assert (rd_bytes r !! rd_offset r = Some b) as ->; [|done].
  unfold ahead in H. rewrite <-(Nat.add_0_r (rd_offset r)), <-lookup_drop, H. done.
Qed.

Lemma parses_take l n : len l = n -> parses (read_take n) l l.
Proof.
  intros <- r l2 Hr H. unfold read_take.
  rewrite (remaining_ahead r Hr), H. unfold len.
  rewrite length_app, (proj2 (Z.ltb_ge _ _)) by lia.
  unfold slice. rewrite Nat2Z.id, Nat.add_comm, Nat.add_sub.
  unfold ahead in H. rewrite H, take_app_length. unfold advance. by rewrite Nat.add_comm.
Qed.

Lemma parses_small v n limit what :
  v = n -> n <= limit -> parses (small v limit what) [] n.
Proof.
  intros -> Hn. unfold small. rewrite (proj2 (Z.ltb_ge _ _)) by done. apply parses_ret.
Qed.

(** ** Compact U64s *)

Lemma be_combine_snoc bs b : is_byte b -> be_combine (bs ++ [b]) = be_combine bs * 256 + b.
Proof.
  intros Hb. unfold be_combine. rewrite fold_left_app. cbn.
  by rewrite (lor_shiftl_add _ _ 8) by (unfold is_byte in Hb; lia).
Qed.

Lemma be_split_length k n : length (be_split k n) = k.
Proof. induction k; cbn; auto. Qed.

Lemma be_split_bytes k n : Forall is_byte (be_split k n).
Proof.
  induction k as [|k IH]; cbn; constructor; [|done].
  change 255 with (Z.ones 8). rewrite Z.land_ones by lia.
  unfold is_byte. apply (Z.mod_pos_bound _ 256). lia.
Qed.

Lemma be_split_snoc k n : be_split (S k) n = be_split k (n / 256) ++ [n mod 256].
Proof.
  induction k as [|k IH].
  - cbn. change 255 with (Z.ones 8). by rewrite Z.land_ones by lia.
  - change (be_split (S (S k)) n)
      with (Z.land (Z.shiftr n (Z.of_nat (S k) * 8)) 255 :: be_split (S k) n).
    rewrite IH. cbn [be_split app]. f_equal. f_equal.
    rewrite !Z.shiftr_div_pow2 by lia. rewrite Zdiv_Zdiv by lia.
    f_equal. change 256 with (2 ^ 8). rewrite <-Z.pow_add_r by lia. f_equal. lia.
Qed.

Lemma be_combine_split k n : 0 <= n < 256 ^ Z.of_nat k -> be_combine (be_split k n) = n.
Proof.
  revert n; induction k as [|k IH]; intros n Hn.
  - cbn in *. unfold be_combine; cbn. lia.
  - rewrite be_split_snoc, be_combine_snoc by (apply Z.mod_pos_bound; lia).
    rewrite IH; [dlia|].
    rewrite Nat2Z.inj_succ, Z.pow_succ_r in Hn by lia.
    split; [apply Z.div_pos; lia|apply Z.div_lt_upper_bound; lia].
Qed.

(** The tag and the bytes of a compact U64, by the five ranges of [tagFor]. *)
Lemma cu64_cases n w :
  2 <= w <= 8 -> 0 <= n < 2 ^ 64 ->
  0 <= tagFor n w < 2 ^ w /\
  ([8%nat; 4%nat; 2%nat; 1%nat] !! Z.to_nat (2 ^ w - 1 - tagFor n w) = None /\ tagFor n w = n \/
   exists k, [8%nat; 4%nat; 2%nat; 1%nat] !! Z.to_nat (2 ^ w - 1 - tagFor n w) = Some k
     /\ n < 256 ^ Z.of_nat k).
Proof.
  intros Hw Hn. unfold tagFor. rewrite Z.shiftl_1_l.
  assert (4 <= 2 ^ w) as Hpow by (change 4 with (2 ^ 2); apply Z.pow_le_mono_r; lia).
  assert (forall d, Z.to_nat (2 ^ w - 1 - (2 ^ w - 1 - d)) = Z.to_nat d) as Hidx
    by (intros; f_equal; lia).
  destruct (Z.ltb_spec n (2 ^ w - 4)).
  { split; [lia|]. left. split; [|done]. apply lookup_ge_None_2. cbn. lia. }
  destruct (Z.ltb_spec n 256).
  { split; [lia|]. right. rewrite Hidx. exists 1%nat.
    change (256 ^ Z.of_nat 1) with (256). split; [done|lia]. }
  destruct (Z.ltb_spec n 65536).
  { split; [lia|]. right. rewrite Hidx. exists 2%nat.
    change (256 ^ Z.of_nat 2) with (65536). split; [done|lia]. }
  destruct (Z.ltb_spec n 4294967296).
  { split; [lia|]. right. rewrite Hidx. exists 4%nat.
    change (256 ^ Z.of_nat 4) with (4294967296). split; [done|lia]. }
  split; [lia|]. right. exists 8%nat.
  change (256 ^ Z.of_nat 8) with (2 ^ 64). split; [|lia].
  replace (2 ^ w - 1 - (2 ^ w - 1)) with 0 by lia. done.
Qed.

Lemma parses_cu64 n w off tagByte :
  2 <= w <= 8 -> 0 <= n < 2 ^ 64 ->
  Z.land (Z.shiftr tagByte (8 - off - w)) (Z.shiftl 1 w - 1) = tagFor n w ->
  parses (cu64 tagByte w off) (cu64Bytes n w) n.
Proof.
  intros Hw Hn Htag. unfold cu64, cu64Bytes. rewrite Htag, Z.shiftl_1_l.
  destruct (cu64_cases n w Hw Hn) as [Hrange [[Hnone Heq]|(k & Hk & Hbound)]].
  - rewrite Hnone. assert ([8; 4; 2; 1] !! Z.to_nat (2 ^ w - 1 - tagFor n w) = None) as ->.
    { apply lookup_ge_None_2. apply lookup_ge_None_1 in Hnone. done. }
    rewrite Heq. apply parses_ret.
  - rewrite Hk.
    assert ([8; 4; 2; 1] !! Z.to_nat (2 ^ w - 1 - tagFor n w) = Some (Z.of_nat k)) as ->.
    { change [8; 4; 2; 1] with (Z.of_nat <$> [8%nat; 4%nat; 2%nat; 1%nat]).
      by rewrite list_lookup_fmap, Hk. }
    rewrite <-(app_nil_r (be_split k n)). eapply parses_bind.
    + apply parses_take. unfold len. by rewrite be_split_length.
    + rewrite be_combine_split by lia. apply parses_ret.
Qed.

Lemma parses_cu64Standalone n :
  0 <= n < 2 ^ 64 -> parses cu64Standalone (encodeCu64Standalone n) n.
Proof.
  intros Hn. unfold encodeCu64Standalone.
  change (?t :: ?l) with ([t] ++ l). eapply parses_bind; [apply parses_byte|].
  apply parses_cu64; [lia|done|].
  destruct (cu64_cases n 8) as [Ht _]; [lia|done|].
  rewrite Z.sub_0_r, Z.sub_diag, Z.shiftr_0_r, land_ones_low by lia.
  by apply Z.mod_small.
Qed.

(** The two 4-bit tags of a path header. *)
Lemma header_tags a b :
  0 <= a < 16 -> 0 <= b < 16 ->
  let header := Z.lor (Z.shiftl a 4) b in
  Z.land (Z.shiftr header (8 - 0 - 4)) (Z.shiftl 1 4 - 1) = a /\
  Z.land (Z.shiftr header (8 - 4 - 4)) (Z.shiftl 1 4 - 1) = b.
Proof.
  intros Ha Hb. cbv zeta. rewrite (lor_shiftl_add a b 4), !land_ones_low by lia.
  change (8 - 0 - 4) with 4. change (8 - 4 - 4) with 0.
  rewrite Z.shiftr_0_r, shiftr_add_low by lia. change (2 ^ 4) with 16. dlia.
Qed.

(** ** Paths *)

(** Willow'25's limits. *)
Definition path_ok (p : Path) : Prop :=
  Forall (fun c => len c <= MCL) p /\ len p <= MCC /\ path_length p <= MPL.

Lemma path_length_app p q : path_length (p ++ q) = path_length p + path_length q.
Proof. unfold path_length. by rewrite map_app, sum_Z_app. Qed.

Lemma path_length_cons c p : path_length (c :: p) = len c + path_length p.
Proof. done. Qed.

Lemma path_length_nonneg p : 0 <= path_length p.
Proof.
  apply sum_Z_nonneg. apply Forall_forall. intros x (c & -> & _)%list_elem_of_fmap.
  unfold len. lia.
Qed.

Lemma path_length_take k p : path_length (take k p) <= path_length p.
Proof.
  rewrite <-(take_drop k p) at 2. rewrite path_length_app.
  pose proof (path_length_nonneg (drop k p)). lia.
Qed.

(** The components after the first [n] of an encoded path. *)
Lemma parses_components init last acc prefix :
  Forall (fun c => len c <= MCL) init ->
  parses (read_components (length init) acc prefix)
    (concat (map (fun c => encodeCu64Standalone (len c) ++ c) init))
    (acc + path_length init, prefix ++ init) /\
  encode_components (init ++ [last]) =
    concat (map (fun c => encodeCu64Standalone (len c) ++ c) init) ++ last.
Proof.
  intros Hinit; revert acc prefix.
  induction Hinit as [|c init Hc Hinit IH]; intros acc prefix; cbn [length map concat].
  - split; [|done]. rewrite app_nil_r, Z.add_0_r. apply parses_ret.
  - split.
    + cbn [read_components]. rewrite <-app_assoc. eapply parses_bind.
      { apply parses_cu64Standalone. unfold len, MCL in *. lia. }
      rewrite <-(app_nil_l (_ ++ _)). eapply parses_bind.
      { by apply parses_small. }
      eapply parses_bind; [by apply parses_take|].
      rewrite path_length_cons, Z.add_assoc.
      change (c :: init) with ([c] ++ init). rewrite app_assoc. apply IH.
    + destruct (IH acc prefix) as [_ IH']. rewrite <-!app_assoc, <-IH'.
      by destruct init.
Qed.

Lemma parses_decodeComponents p :
  path_ok p ->
  parses (decodeComponents [] (len p) (path_length p)) (encode_components p) p.
Proof.
  intros (Hall & Hcount & Htotal).
  destruct p as [|last init _] using rev_ind; [apply parses_ret|].
  apply Forall_app in Hall as [Hinit Hlast]. inv Hlast.
  destruct (parses_components init last 0 [] Hinit) as [Hread Henc].
  unfold decodeComponents, len. rewrite length_app. cbn [length].
  rewrite (proj2 (Z.eqb_neq _ _)), Henc by lia.
  eapply parses_bind.
  { replace (Z.to_nat _) with (length init) by lia. exact Hread. }
  cbn beta iota. rewrite Z.add_0_l, app_nil_l, path_length_app.
  rewrite path_length_cons, (Z.add_comm (path_length init)), Z.add_simpl_r.
  change (path_length []) with 0. rewrite Z.add_0_r.
  rewrite <-(app_nil_l last) at 3. eapply parses_bind.
  { apply parses_require. unfold len in *.
    rewrite (proj2 (Z.ltb_ge _ _)), (proj2 (Z.ltb_ge _ _)) by lia. done. }
  rewrite <-(app_nil_r last) at 2. eapply parses_bind; [by apply parses_take|].
  apply parses_ret.
Qed.

Lemma parses_decodeRelativePath p previous :
  path_ok p ->
  parses (decodeRelativePath previous) (encodeCu64Standalone 0 ++ encodePath p) p.
Proof.
  intros Hp. pose proof Hp as (Hall & Hcount & Htotal). unfold MCC, MPL in *.
  pose proof (path_length_nonneg p). assert (0 <= len p) by (unfold len; lia).
  destruct (cu64_cases (path_length p) 4) as [Ht1 _]; [lia|lia|].
  destruct (cu64_cases (len p) 4) as [Ht2 _]; [lia|lia|].
  destruct (header_tags _ _ Ht1 Ht2) as [Hh1 Hh2].
  unfold decodeRelativePath, encodePath.
  eapply parses_bind; [apply parses_cu64Standalone; lia|].
  change (?h :: ?a ++ ?b ++ ?c) with ([] ++ [h] ++ a ++ [] ++ b ++ [] ++ [] ++ [] ++ c).
  eapply parses_bind; [by apply parses_small|].
  eapply parses_bind; [apply parses_byte|].
  eapply parses_bind; [apply parses_cu64; [lia|lia|exact Hh1]|].
  eapply parses_bind; [by apply parses_small|].
  eapply parses_bind; [apply parses_cu64; [lia|lia|exact Hh2]|].
  eapply parses_bind; [by apply parses_small|].
  eapply parses_bind.
  { apply parses_require. apply negb_true_iff, Z.ltb_ge. unfold len; lia. }
  change (take (Z.to_nat 0) previous) with (@nil (list Z)). change (path_length []) with 0.
  eapply parses_bind; [|by apply parses_decodeComponents].
  apply parses_require. unfold MPL, MCC.
  rewrite (proj2 (Z.ltb_ge _ _)), (proj2 (Z.ltb_ge _ _)) by lia. done.
Qed.

(** A path within Willow'25's limits, encoded absolutely by
    [encodePath] (what signatures cover) and preceded by an empty prefix, is
    what [decodeRelativePath] reads back, whatever the previous entry's path
    was, and the reader ends exactly after it. *)
Theorem encodePath_decode (p previous : Path) (r : Reader) (rest : list Z) :
  path_ok p -> rd_wf r ->
  ahead r = (encodeCu64Standalone 0 ++ encodePath p) ++ rest ->
  decodeRelativePath previous r =
    Ok (p, advance r (length (encodeCu64Standalone 0 ++ encodePath p))).
Proof. intros Hp Hr Hahead. by apply (parses_decodeRelativePath p previous Hp r rest). Qed.

(** ** What a reader method guarantees

    [rd_spec m Q]: from a good reader (in range, over real bytes) a value that
    [m] returns satisfies [Q], the bytes are untouched and the offset does not
    move back. *)
Definition rd_good (r : Reader) : Prop := rd_wf r /\ Forall is_byte (rd_bytes r).

Definition moves (r r' : Reader) : Prop :=
  rd_good r' /\ rd_bytes r' = rd_bytes r /\ (rd_offset r <= rd_offset r')%nat.

Definition rd_spec {A} (m : rd A) (Q : A -> Prop) : Prop :=
  forall r v r', rd_good r -> m r = Ok (v, r') -> moves r r' /\ Q v.

Lemma moves_refl r : rd_good r -> moves r r.
Proof. unfold moves; auto. Qed.

Lemma moves_trans r1 r2 r3 : moves r1 r2 -> moves r2 r3 -> moves r1 r3.
Proof. unfold moves. intros (?&?&?) (?&?&?). split_and!; [done|congruence|lia]. Qed.

Lemma spec_ret {A} (v : A) (Q : A -> Prop) : Q v -> rd_spec (mret v) Q.
Proof. intros HQ r w r' Hr [= <- <-]. split; [by apply moves_refl|done]. Qed.

Lemma spec_fail {A} p (Q : A -> Prop) : rd_spec (fail p) Q.
Proof. by intros r v r' _ [=]. Qed.

Lemma rd_bind_Ok {A B} (m : rd A) (f : A -> rd B) r v r' :
  (m ≫= f) r = Ok (v, r') -> exists a r1, m r = Ok (a, r1) /\ f a r1 = Ok (v, r').
Proof. unfold mbind, rd_bind. destruct (m r) as [[a r1]|e]; [eauto|done]. Qed.

Lemma spec_bind {A B} (m : rd A) (f : A -> rd B) P Q :
  rd_spec m P -> (forall a, P a -> rd_spec (f a) Q) -> rd_spec (m ≫= f) Q.
Proof.
  intros Hm Hf r v r' Hr (a & r1 & H1 & H2)%rd_bind_Ok.
  destruct (Hm _ _ _ Hr H1) as [Hmoves HP].
  destruct (Hf a HP r1 v r' (proj1 Hmoves) H2) as [Hmoves' HQ].
  split; [by eapply moves_trans|done].
Qed.

Lemma spec_require b p : rd_spec (require b p) (fun _ => b = true).
Proof. destruct b; [by apply spec_ret|apply spec_fail]. Qed.

Lemma spec_byte : rd_spec byte is_byte.
Proof.
  intros r v r' [Hwf Hbytes]. unfold byte, peek.
  destruct (rd_bytes r !! rd_offset r) as [b|] eqn:Hb; [|done]. cbn. intros [= <- <-].
  repeat split; cbn; [|done|lia|apply (Forall_lookup_1 _ _ _ _ Hbytes Hb)..].
  unfold rd_wf; cbn. apply lookup_lt_Some in Hb. lia.
Qed.

Lemma spec_take n :
  rd_spec (read_take n) (fun bs => Forall is_byte bs /\ len bs = Z.max 0 n).
Proof.
  intros r v r' [Hwf Hbytes]. unfold read_take, rd_wf in *.
  case_match eqn:Hlt; [done|]. apply Z.ltb_ge in Hlt. unfold remaining in Hlt.
  intros [= <- <-]. unfold slice, len.
  assert (Hlen : (rd_offset r + Z.to_nat n <= length (rd_bytes r))%nat) by lia.
  repeat split; cbn; [done|done|lia|by apply Forall_take, Forall_drop|].
  rewrite length_take, length_drop. lia.
Qed.

Lemma be_combine_range bs : Forall is_byte bs -> 0 <= be_combine bs < 256 ^ len bs.
Proof.
  induction bs as [|b bs IH] using rev_ind; [done|].
  intros [Hbs Hb]%Forall_app. forall_split. rewrite be_combine_snoc by done.
  specialize (IH Hbs). rewrite len_app. change (len [b]) with 1.
  rewrite Z.pow_add_r by (unfold len; lia). change (256 ^ 1) with 256. unfold is_byte in *. lia.
Qed.

Lemma spec_cu64 t w o : 1 <= w <= 8 -> rd_spec (cu64 t w o) (fun n => 0 <= n < 2 ^ 64).
Proof.
  intros Hw. unfold cu64. case_match eqn:Hs.
  - eapply spec_bind; [apply spec_take|]. intros bs [Hbs Hlen]. apply spec_ret.
    pose proof (be_combine_range bs Hbs). apply list_elem_of_lookup_2 in Hs.
    assert (256 ^ len bs <= 256 ^ 8); [|change (2 ^ 64) with (256 ^ 8); lia].
    apply Z.pow_le_mono_r; [lia|].
    rewrite !elem_of_cons, elem_of_nil in Hs. lia.
  - apply spec_ret. rewrite land_ones_low by lia.
    pose proof (Z.mod_pos_bound (Z.shiftr t (8 - o - w)) (2 ^ w)).
    pose proof (Z.pow_le_mono_r 2 w 64). lia.
Qed.

Lemma spec_cu64Standalone : rd_spec cu64Standalone (fun n => 0 <= n < 2 ^ 64).
Proof.
  eapply spec_bind; [apply spec_byte|]. intros tag _. by apply spec_cu64.
Qed.

Lemma spec_small v limit what :
  0 <= v -> rd_spec (small v limit what) (fun n => 0 <= n <= limit).
Proof.
  intros Hv. unfold small. case_match eqn:Hlt; [apply spec_fail|].
  apply spec_ret. apply Z.ltb_ge in Hlt. lia.
Qed.

Create HintDb rd_spec.
#[export] Hint Resolve spec_byte spec_take spec_require spec_cu64Standalone : rd_spec.
#[export] Hint Extern 1 (rd_spec (small _ _ _) _) => apply spec_small; lia : rd_spec.
#[export] Hint Extern 1 (rd_spec (cu64 _ _ _) _) => apply spec_cu64; lia : rd_spec.

(** Bind, with the first method's guarantee found in the hint database. *)
Ltac spec_step := eapply spec_bind; [solve [eauto with rd_spec]|cbn beta].

Lemma spec_components n acc path :
  Forall (fun c => len c <= MCL) path ->
  rd_spec (read_components n acc path) (fun '(acc', path') =>
    exists suffix, path' = path ++ suffix /\ length suffix = n
      /\ Forall (fun c => len c <= MCL) suffix /\ acc' = acc + path_length suffix).
Proof.
  revert acc path; induction n as [|n IH]; intros acc path Hpath; cbn [read_components].
  - apply spec_ret. exists []. rewrite app_nil_r. change (path_length []) with 0.
    repeat split; [constructor|lia].
  - spec_step; intros value Hvalue. spec_step; intros l Hl. spec_step; intros c [_ Hc].
    assert (len c = l) as Hcl by lia.
    intros r v r' Hr Hok.
    destruct (IH (acc + l) (path ++ [c])) with (r := r) (v := v) (r' := r')
      as [Hm Hv]; [|done|done|].
    { apply Forall_app; split; [done|]. repeat constructor. lia. }
    split; [done|]. destruct v as [acc' path'].
    destruct Hv as (suffix & -> & Hlen & Hall & ->).
    exists (c :: suffix). rewrite <-app_assoc, path_length_cons. cbn.
    repeat split; [by f_equal|constructor; [lia|done]|lia].
Qed.

Lemma spec_decodeComponents prefix count total :
  Forall (fun c => len c <= MCL) prefix -> 0 <= count ->
  rd_spec (decodeComponents prefix count total) (fun path =>
    exists suffix, path = prefix ++ suffix /\ len suffix = count
      /\ Forall (fun c => len c <= MCL) suffix
      /\ path_length path = if count =? 0 then path_length prefix else total).
Proof.
  intros Hprefix Hcount. unfold decodeComponents. case_match eqn:H0.
  - spec_step. intros _ _. apply spec_ret. exists []. rewrite app_nil_r.
    apply Z.eqb_eq in H0. by repeat split.
  - apply Z.eqb_neq in H0. eapply spec_bind; [by apply spec_components|].
    intros [acc path] (suffix & -> & Hlen & Hall & ->). spec_step; intros _ Hlast.
    breflect. spec_step. intros c [_ Hc]. apply spec_ret.
    assert (len c = total - (path_length prefix + path_length suffix)) as Hcl by lia.
    exists (suffix ++ [c]). rewrite app_assoc. split; [done|].
    unfold len in *. rewrite length_app, !path_length_app. cbn [length].
    repeat split; [lia| |rewrite path_length_cons; change (path_length []) with 0; unfold len; lia].
    apply Forall_app; split; [done|]. repeat constructor. unfold len; lia.
Qed.

Lemma spec_decodeRelativePath previous :
  path_ok previous ->
  rd_spec (decodeRelativePath previous)
    (fun path => path_ok path /\ exists k suffix, path = take k previous ++ suffix).
Proof.
  intros (Hall & Hcount & Htotal).
  unfold decodeRelativePath.
  spec_step; intros v1 Hv1. spec_step; intros pc Hpc. spec_step; intros header _.
  spec_step; intros v2 Hv2. spec_step; intros sl Hsl. spec_step; intros v3 Hv3.
  spec_step; intros sc Hsc. spec_step; intros _ Hreuse. spec_step; intros _ Hlim.
  breflect. intros r path r' Hr Hok.
  destruct (spec_decodeComponents (take (Z.to_nat pc) previous) sc
    (path_length (take (Z.to_nat pc) previous) + sl)) with (r := r) (v := path) (r' := r')
    as [Hm (suffix & -> & Hlen & Hsuf & Hpl)]; [by apply Forall_take|lia|done|done|].
  split; [done|]. split; [|by eauto].
  pose proof (path_length_take (Z.to_nat pc) previous).
  split; [apply Forall_app; split; [by apply Forall_take|done]|]. split.
  - unfold len in *. rewrite length_app, length_take. lia.
  - rewrite Hpl. case_match; lia.
Qed.

(** A path that [decodeRelativePath] accepts keeps a prefix of
    the previous path and is itself within Willow'25's limits on component
    length, component count and total length, if the previous path was; the
    reader keeps its bytes and never moves back. *)
Theorem decodeRelativePath_limits previous r path r' :
  rd_good r -> path_ok previous ->
  decodeRelativePath previous r = Ok (path, r') ->
  moves r r' /\ path_ok path /\ exists k suffix, path = take k previous ++ suffix.
Proof. intros Hr Hprev. by apply (spec_decodeRelativePath previous Hprev). Qed.

Lemma encodePath_decode_witness :
  let bs := (encodeCu64Standalone 0 ++ encodePath [[98; 108; 111; 103]; []; [7]]) ++ [99] in
  path_ok [[98; 108; 111; 103]; []; [7]] /\ rd_wf (mkReader bs 0) /\
  decodeRelativePath [[1]; [2]] (mkReader bs 0) =
    Ok ([[98; 108; 111; 103]; []; [7]],
        advance (mkReader bs 0) (length (encodeCu64Standalone 0 ++ encodePath [[98; 108; 111; 103]; []; [7]]))).
Proof.
  intros bs.
  assert (H1 : path_ok [[98; 108; 111; 103]; []; [7]]).
  { split; [by_decide|split; vm_compute; discriminate]. }
  assert (H2 : rd_wf (mkReader bs 0)) by (apply Nat.le_0_l).
  split; [exact H1|split; [exact H2|]].
  apply (encodePath_decode _ [[1]; [2]] _ [99] H1 H2). reflexivity.
Defined.

Lemma decodeRelativePath_limits_witness :
  let r := mkReader [1; 0x21; 97; 98] 0 in
  let r' := mkReader [1; 0x21; 97; 98] 4 in
  decodeRelativePath [[9]; [8]] r = Ok ([[9]; [97; 98]], r') /\
  moves r r' /\ path_ok [[9]; [97; 98]].
Proof.
  intros r r'.
  assert (H1 : rd_good r) by (split; [apply Nat.le_0_l|by_decide]).
  assert (H2 : path_ok [[9]; [8]]) by (split; [by_decide|split; vm_compute; discriminate]).
  assert (H3 : decodeRelativePath [[9]; [8]] r = Ok ([[9]; [97; 98]], r'))
    by (vm_compute; reflexivity).
  split; [exact H3|].
  destruct (decodeRelativePath_limits _ _ _ _ H1 H2 H3) as (Hm & Hp & _).
  split; [exact Hm|exact Hp].
Defined.
