(* ===== verification/Upload.v ===== *)
(** * Reading an uploaded drop back into bytes

    Models [src/integrations/willow-drop/upload.ts]. The host hands a file over
    as text: decoded as UTF-8 when it is valid UTF-8, as windows-1252
    otherwise, or the user's own base64. The theorems show that each of the
    three readings undoes its encoding exactly, and that [readUpload] never
    returns other bytes than the file's. *)
From S2P Require Import Prelude Encoding.
Local Open Scope Z_scope.

(* src: integrations/willow-drop/upload.ts 25-31 CP1252_HIGH *)
Definition CP1252_HIGH : list Z :=
  [ 0x20ac; 0x81; 0x201a; 0x192; 0x201e; 0x2026; 0x2020; 0x2021; 0x2c6; 0x2030;
    0x160; 0x2039; 0x152; 0x8d; 0x17d; 0x8f; 0x90; 0x2018; 0x2019; 0x201c; 0x201d;
    0x2022; 0x2013; 0x2014; 0x2dc; 0x2122; 0x161; 0x203a; 0x153; 0x9d; 0x17e;
    0x178 ].

(** The index of the last occurrence: building a [Map] keeps the last entry
    of a key. *)
Fixpoint last_index (x : Z) (l : list Z) (i : Z) : option Z :=
  match l with
  | [] => None
  | y :: l' =>
      match last_index x l' (i + 1) with
      | Some j => Some j
      | None => if y =? x then Some i else None
      end
  end.

(* src: integrations/willow-drop/upload.ts 32-32 FROM_CP1252 *)
Definition FROM_CP1252 (code : Z) : option Z := last_index code CP1252_HIGH 0x80.

(** [for (const char of text) char.codePointAt(0)]: a surrogate pair is one
    code point, a lone surrogate is itself. *)
Definition is_high (u : Z) : bool := (0xd800 <=? u) && (u <=? 0xdbff).
Definition is_low (u : Z) : bool := (0xdc00 <=? u) && (u <=? 0xdfff).

Fixpoint code_points (text : jstr) : list Z :=
  match text with
  | [] => []
  | u :: text' =>
      match text' with
      | v :: text'' =>
          if is_high u && is_low v
          then ((u - 0xd800) * 1024 + (v - 0xdc00) + 0x10000) :: code_points text''
          else u :: code_points text'
      | [] => [u]
      end
  end.

(** The bytes pushed for one code point. *)
Definition utf8_encode (code : Z) : list Z :=
  if code <? 0x80 then [code]
  else if code <? 0x800 then [Z.lor 0xc0 (Z.shiftr code 6); Z.lor 0x80 (Z.land code 63)]
  else if code <? 0x10000 then
    [ Z.lor 0xe0 (Z.shiftr code 12);
      Z.lor 0x80 (Z.land (Z.shiftr code 6) 63);
      Z.lor 0x80 (Z.land code 63) ]
  else
    [ Z.lor 0xf0 (Z.shiftr code 18);
      Z.lor 0x80 (Z.land (Z.shiftr code 12) 63);
      Z.lor 0x80 (Z.land (Z.shiftr code 6) 63);
      Z.lor 0x80 (Z.land code 63) ].

(* src: integrations/willow-drop/upload.ts 34-58 utf8Bytes *)
Definition utf8Bytes (text : jstr) : list Z := flat_map utf8_encode (code_points text).

(* src: integrations/willow-drop/upload.ts 60-75 cp1252Bytes *)
Fixpoint cp1252Bytes (text : jstr) : option (list Z) :=
  match text with
  | [] => Some []
  | code :: text' =>
      b ← (if (code <? 0x80) || ((0xa0 <=? code) && (code <=? 0xff)) then Some code
           else FROM_CP1252 code);
      out ← cp1252Bytes text';
      Some (b :: out)
  end.

(** ** Base64 *)

Definition is_b64 (c : Z) : bool :=
  ((65 <=? c) && (c <=? 90)) || ((97 <=? c) && (c <=? 122))
  || ((48 <=? c) && (c <=? 57)) || (c =? 43) || (c =? 47).

(** [/^[A-Za-z0-9+/]*={0,2}$/.test(clean)]. *)
Fixpoint b64_shape (clean : jstr) : bool :=
  match clean with
  | [] => true
  | c :: clean' =>
      if is_b64 c then b64_shape clean'
      else bool_decide (clean = [PAD] \/ clean = [PAD; PAD])
  end.

(** [BASE64.indexOf(char)]. *)
Fixpoint index_of (c : Z) (l : list Z) (i : Z) : Z :=
  match l with
  | [] => -1
  | x :: l' => if x =? c then i else index_of c l' (i + 1)
  end.

(** [clean.replace(/=+$/, '')]. *)
Fixpoint strip_pad (s : jstr) : jstr :=
  match s with
  | [] => []
  | c :: s' => if forallb (Z.eqb PAD) s then [] else c :: strip_pad s'
  end.

(** One turn of the loop over [body]. *)
Definition b64_step (st : Z * Z * list Z) (char : Z) : Z * Z * list Z :=
  let '(bits, value, out) := st in
  let value := js_or (js_shl value 6) (index_of char BASE64 0) in
  let bits := bits + 6 in
  if 8 <=? bits
  then (bits - 8, value, out ++ [js_and (js_shr value (bits - 8)) 0xff])
  else (bits, value, out).

(* src: integrations/willow-drop/upload.ts 77-98 base64Bytes ! *)
Definition base64Bytes (text : jstr) : option (list Z) :=
  let clean := List.filter (fun c => negb (is_ws c)) text in
  if negb (b64_shape clean) || (len clean mod 4 =? 1) then None
  else
    let body := strip_pad clean in
    let '(_, _, out) := fold_left b64_step body (0, 0, []) in
    Some out.

(** ** Choosing the reading *)

Inductive Encoding := Utf8 | Windows1252 | Base64.
#[export] Instance Encoding_dec : EqDecision Encoding.
Proof. solve_decision. Defined.

Definition encoding_name (e : Encoding) : string :=
  match e with Utf8 => "utf-8" | Windows1252 => "windows-1252" | Base64 => "base64" end.

Section ReadUpload.
(** [parse] and the exceptions it throws. *)
Context {E T : Type} (parse : list Z -> res E T).

(* src: integrations/willow-drop/upload.ts 100-105 Reading *)
Record Reading := mkReading { encoding : Encoding; bytes : list Z; result : T }.

(** [candidates]. *)
Definition candidates (text : jstr) : list (Encoding * list Z) :=
  let cp1252 := cp1252Bytes text in
  let base64 := base64Bytes text in
  [(Utf8, utf8Bytes text)]
  ++ (if cp1252 is Some b then
        if utf8Text b is None then [(Windows1252, b)] else []
      else [])
  ++ (if base64 is Some b then [(Base64, b)] else []).

(** The loop over the candidates: what parses, and the errors by encoding. *)
Definition try_candidate (st : list Reading * list (Encoding * E)) (c : Encoding * list Z)
  : list Reading * list (Encoding * E) :=
  let '(found, errors) := st in
  match parse (snd c) with
  | Ok r => (found ++ [mkReading (fst c) (snd c) r], errors)
  | Err e => (found, errors ++ [(fst c, e)])
  end.

(** [found.filter((reading, i) => !found.slice(0, i).some(same bytes))]. *)
Fixpoint distinct_from (earlier found : list Reading) : list Reading :=
  match found with
  | [] => []
  | r :: found' =>
      let rest := distinct_from (earlier ++ [r]) found' in
      if existsb (fun o => bool_decide (bytes o = bytes r)) earlier then rest else r :: rest
  end.

Fixpoint error_of (enc : Encoding) (errors : list (Encoding * E)) : option E :=
  match errors with
  | [] => None
  | (e, x) :: errors' => if decide (e = enc) then Some x else error_of enc errors'
  end.

(* src: integrations/willow-drop/upload.ts 107-157 readUpload *)
Definition readUpload (text : jstr) : res (DropError + option E) Reading :=
  let '(found, errors) := fold_left try_candidate (candidates text) ([], []) in
  match distinct_from [] found with
  | [r] => Ok r
  | (_ :: _ :: _) as distinct =>
      Err (inl (dropError (AmbiguousReadings (map (fun r => encoding_name (encoding r)) distinct))))
  | [] =>
      Err (inr (error_of
        (if base64Bytes text is Some _ then Base64
         else if error_of Windows1252 errors is Some _ then Windows1252 else Utf8)
        errors))
  end.
End ReadUpload.
Arguments Reading : clear implicits.

(** ** UTF-8 *)

(** What [String.fromCodePoint] and the text iterator agree on: code points
    that are not surrogates. *)
Definition scalar (code : Z) : Prop := 0 <= code <= 0x10ffff /\ ~ (0xd800 <= code <= 0xdfff).

Lemma code_points_cons_scalar code t :
  scalar code -> code_points (fromCodePoint code ++ t) = code :: code_points t.
Proof.
  intros [Hr Hs]. unfold fromCodePoint. case_match eqn:Hlt; breflect.
  - assert (is_high code = false) as Hh.
    { unfold is_high. apply andb_false_iff. rewrite !Z.leb_gt. lia. }
    cbn [app code_points]. destruct t as [|v t]; [done|]. by rewrite Hh.
  - set (h := 0xd800 + (code - 0x10000) / 1024). set (l := 0xdc00 + (code - 0x10000) mod 1024).
    cbn [app code_points].
    assert (is_high h && is_low l = true) as ->.
    { unfold is_high, is_low, h, l. rewrite !andb_true_iff, !Z.leb_le. dlia. }
    f_equal. unfold h, l. dlia.
Qed.

Lemma cont_byte c : is_byte c ->
  (Z.land c 0xc0 =? 0x80) = (128 <=? c) && (c <? 192) /\ Z.land c 0x3f = c mod 64.
Proof.
  intros Hc. split.
  - apply eqb_prop. revert c Hc. apply forall_byte. vm_compute. reflexivity.
  - change 0x3f with (Z.ones 6). by rewrite Z.land_ones by lia.
Qed.

Lemma utf8_continue_cons code c cs :
  is_byte c -> utf8_continue code (c :: cs) =
    if (128 <=? c) && (c <? 192) then utf8_continue (code * 64 + c mod 64) cs else None.
Proof.
  intros Hc. cbn. destruct (cont_byte c Hc) as [-> ->].
  destruct (_ && _); [|done]. cbn.
  rewrite (lor_shiftl_add _ _ 6); [done|lia|]. apply Z.mod_pos_bound; lia.
Qed.

(** The bits of the encoder as arithmetic. *)
Lemma utf8_encode_arith code :
  0 <= code <= 0x10ffff ->
  utf8_encode code =
    if code <? 0x80 then [code]
    else if code <? 0x800 then [192 + code / 64; 128 + code mod 64]
    else if code <? 0x10000 then
      [224 + code / 4096; 128 + (code / 64) mod 64; 128 + code mod 64]
    else [240 + code / 262144; 128 + (code / 4096) mod 64; 128 + (code / 64) mod 64;
          128 + code mod 64].
Proof.
  intros Hc.
  assert (Hm : forall x, Z.land x 63 = x mod 64)
    by (intros; change 63 with (Z.ones 6); by rewrite Z.land_ones by lia).
  assert (Hb : forall x, Z.lor 0x80 (x mod 64) = 128 + x mod 64)
    by (intros; apply (lor_mul_add 2 _ 6); [lia|apply Z.mod_pos_bound; lia]).
  unfold utf8_encode. rewrite !Hm, !Hb, !Z.shiftr_div_pow2 by lia.
  change (2 ^ 6) with 64. change (2 ^ 12) with 4096. change (2 ^ 18) with 262144.
  repeat case_match; breflect; [done|f_equal..].
  - apply (lor_mul_add 6 _ 5); [lia|]. change (2 ^ 5) with 32. dlia.
  - apply (lor_mul_add 14 _ 4); [lia|]. change (2 ^ 4) with 16. dlia.
  - apply (lor_mul_add 30 _ 3); [lia|]. change (2 ^ 3) with 8. dlia.
Qed.

(** The lead byte as arithmetic. *)
Lemma utf8_lead_arith b : is_byte b ->
  utf8_lead b =
    if b <? 128 then Some (0%nat, b, 0)
    else if (194 <=? b) && (b <? 224) then Some (1%nat, b - 192, 128)
    else if (224 <=? b) && (b <? 240) then Some (2%nat, b - 224, 2048)
    else if (240 <=? b) && (b <? 245) then Some (3%nat, b - 240, 65536)
    else None.
Proof.
  intros Hb.
  enough (bool_decide (utf8_lead b =
    if b <? 128 then Some (0%nat, b, 0)
    else if (194 <=? b) && (b <? 224) then Some (1%nat, b - 192, 128)
    else if (224 <=? b) && (b <? 240) then Some (2%nat, b - 224, 2048)
    else if (240 <=? b) && (b <? 245) then Some (3%nat, b - 240, 65536)
    else None) = true) as H by by apply bool_decide_eq_true in H.
  revert b Hb. apply forall_byte. vm_compute. reflexivity.
Qed.

Ltac simplify_ltb :=
  repeat match goal with
  | |- context [?a <? ?b] =>
      first [rewrite (proj2 (Z.ltb_lt a b)) by lia | rewrite (proj2 (Z.ltb_ge a b)) by lia]
  | |- context [?a <=? ?b] =>
      first [rewrite (proj2 (Z.leb_le a b)) by lia | rewrite (proj2 (Z.leb_gt a b)) by lia]
  end.

(** The continuation bytes that a code point reads, in arithmetic. *)
Lemma utf8_continue_Some code cs r :
  Forall is_byte cs -> utf8_continue code cs = Some r ->
  r = fold_left (fun v c => v * 64 + c mod 64) cs code /\ Forall (fun c => 128 <= c < 192) cs.
Proof.
  intros Hcs; revert code; induction Hcs as [|c cs Hc Hcs IH]; intros code; [by intros [= ->]|].
  rewrite utf8_continue_cons by done. case_match; [|done]. breflect.
  intros [-> Hall]%IH. split; [done|]. constructor; [lia|done].
Qed.

Lemma utf8_continue_ok code cs :
  Forall (fun c => 128 <= c < 192) cs ->
  utf8_continue code cs = Some (fold_left (fun v c => v * 64 + c mod 64) cs code).
Proof.
  intros Hcs; revert code; induction Hcs as [|c cs Hc Hcs IH]; intros code; [done|].
  rewrite utf8_continue_cons by (unfold is_byte; lia).
  rewrite (proj2 (Z.leb_le _ _)), (proj2 (Z.ltb_lt _ _)) by lia. apply IH.
Qed.

(** What a successful turn says of the bytes it consumed. *)
Lemma utf8_step_inv b rest code rest' :
  Forall is_byte rest -> utf8_step b rest = Some (code, rest') ->
  exists need lead min cs,
    utf8_lead b = Some (need, lead, min) /\ rest = cs ++ rest' /\ length cs = need /\
    Forall (fun c => 128 <= c < 192) cs /\
    code = fold_left (fun v c => v * 64 + c mod 64) cs lead /\
    (need = 0%nat \/ min <= code) /\ code <= 0x10ffff /\ ~ (0xd800 <= code <= 0xdfff).
Proof.
  intros Hrest. unfold utf8_step.
  destruct (utf8_lead b) as [[[need lead] min]|]; cbn; [|done].
  case_decide; [done|]. destruct (utf8_continue _ _) as [c|] eqn:Hc; cbn; [|done].
  apply utf8_continue_Some in Hc as [-> Hall]; [|by apply Forall_take].
  case_match eqn:Hchk; [done|]. intros [= <- <-]. breflect.
  exists need, lead, min, (take need rest). rewrite take_drop, length_take.
  split_and!; [done|done|lia|done|done| |lia|lia].
  destruct (Nat.eqb_spec need 0); [by left|right]. cbn in *. breflect. lia.
Qed.

(** One turn of the decoder reads exactly the encoding of a scalar value. *)
Lemma utf8_step_Some b rest code rest' :
  is_byte b -> Forall is_byte rest ->
  utf8_step b rest = Some (code, rest') ->
  scalar code /\ b :: rest = utf8_encode code ++ rest' /\ Forall is_byte rest'.
Proof.
  intros Hb Hrest Hstep.
  destruct (utf8_step_inv _ _ _ _ Hrest Hstep)
    as (need & lead & min & cs & Hlead & -> & Hlen & Hall & Hcode & Hmin & Hmax & Hsur).
  apply Forall_app in Hrest as [_ Hrest].
  rewrite (utf8_lead_arith b Hb) in Hlead. unfold is_byte, scalar in *.
  assert (Hneed : length cs = need) by done.
  destruct cs as [|c1 [|c2 [|c3 [|c4 cs]]]]; cbn in Hneed, Hcode; subst need;
    decompose_Forall_hyps; repeat (case_match; breflect); simplify_eq.
  all: try lia.
  all: repeat match goal with
    | H : 128 <= ?c < 192 |- _ => 
        lazymatch goal with |- context [c mod 64] => replace (c mod 64) with (c - 128) in * by dlia end
    end.
  all: split; [lia|split; [|done]].
  all: rewrite utf8_encode_arith by lia; simplify_ltb; cbn [app].
  all: list_arith.
Qed.

(** A turn that starts at a lead byte with its continuation bytes. *)
Lemma utf8_step_ok b lead min tail code rest :
  is_byte b -> utf8_lead b = Some (length tail, lead, min) ->
  Forall (fun c => 128 <= c < 192) tail ->
  fold_left (fun v c => v * 64 + c mod 64) tail lead = code ->
  tail = [] \/ min <= code -> scalar code ->
  exists b' tail', (b :: tail) ++ rest = b' :: tail' ++ rest /\ is_byte b' /\
    Forall is_byte tail' /\ utf8_step b' (tail' ++ rest) = Some (code, rest).
Proof.
  intros Hb Hlead Htail Hcode Hmin [Hr Hs]. exists b, tail. split_and!; [done|done| |].
  { eapply Forall_impl; [exact Htail|]. unfold is_byte; cbn; lia. }
  unfold utf8_step. rewrite Hlead. cbn.
  rewrite decide_False by (rewrite length_app; lia).
  rewrite take_app_length, drop_app_length, utf8_continue_ok, Hcode by done. cbn.
  assert (negb (length tail =? 0)%nat && (code <? min) = false) as ->.
  { destruct tail; [done|]. destruct Hmin; [done|]. apply andb_false_iff. right. lia. }
  rewrite (proj2 (Z.ltb_ge _ _)) by lia. cbn.
  assert ((55296 <=? code) && (code <=? 57343) = false) as ->; [|done].
  apply andb_false_iff. rewrite !Z.leb_gt. lia.
Qed.

(** The decoder reads an encoded scalar value back, wherever it starts. *)
Lemma utf8_step_encode code rest :
  scalar code -> exists b tail,
    utf8_encode code ++ rest = b :: tail ++ rest /\ is_byte b /\ Forall is_byte tail /\
    utf8_step b (tail ++ rest) = Some (code, rest).
Proof.
  intros Hcode. pose proof Hcode as [Hr Hs]. rewrite utf8_encode_arith by done.
  assert (Hmod : forall x, 128 <= 128 + x mod 64 < 192) by (intros; dlia).
  destruct (Z.ltb_spec code 0x80) as [|H1];
    [|destruct (Z.ltb_spec code 0x800) as [|H2];
      [|destruct (Z.ltb_spec code 0x10000) as [|H3]]].
  - apply (utf8_step_ok _ code 0 []); try done; [unfold is_byte; lia| |by left].
    rewrite utf8_lead_arith by (unfold is_byte; lia). by simplify_ltb.
  - apply (utf8_step_ok _ (code / 64) 0x80 [_]); try done;
      [unfold is_byte; dlia| |repeat (apply List.Forall_cons; [apply Hmod|]); constructor|cbn; dlia|right; lia].
    rewrite utf8_lead_arith by (unfold is_byte; dlia).
    rewrite (proj2 (Z.ltb_ge _ _)), (proj2 (Z.leb_le _ _)), (proj2 (Z.ltb_lt _ _)) by dlia.
    cbn. do 3 f_equal. lia.
  - apply (utf8_step_ok _ (code / 4096) 0x800 [_; _]); try done;
      [unfold is_byte; dlia| |repeat (apply List.Forall_cons; [apply Hmod|]); constructor|cbn; dlia|right; lia].
    rewrite utf8_lead_arith by (unfold is_byte; dlia).
    rewrite (proj2 (Z.ltb_ge _ _)), (proj2 (Z.leb_le _ _)), (proj2 (Z.ltb_ge _ _)),
      (proj2 (Z.leb_le _ _)), (proj2 (Z.ltb_lt _ _)) by dlia.
    cbn. do 3 f_equal. lia.
  - apply (utf8_step_ok _ (code / 262144) 0x10000 [_; _; _]); try done;
      [unfold is_byte; dlia| |repeat (apply List.Forall_cons; [apply Hmod|]); constructor|cbn; dlia|right; lia].
    rewrite utf8_lead_arith by (unfold is_byte; dlia).
    rewrite (proj2 (Z.ltb_ge _ _)), !(proj2 (Z.leb_le _ _)), !(proj2 (Z.ltb_ge _ _)),
      (proj2 (Z.ltb_lt _ _)) by dlia.
    cbn. do 3 f_equal. lia.
Qed.

Lemma code_points_flat codes :
  Forall scalar codes -> code_points (flat_map fromCodePoint codes) = codes.
Proof. induction 1; cbn; [done|]. rewrite code_points_cons_scalar by done. by f_equal. Qed.

Definition code_unit (u : Z) : Prop := 0 <= u < 0x10000.
#[export] Instance code_unit_dec u : Decision (code_unit u).
Proof. unfold code_unit. apply _. Defined.

Lemma fromCodePoint_units code : scalar code -> Forall code_unit (fromCodePoint code).
Proof.
  intros [Hr _]. unfold fromCodePoint. case_match; breflect; repeat (apply List.Forall_cons);
    try constructor; unfold code_unit; dlia.
Qed.

Lemma code_points_cons2 u v t :
  code_points (u :: v :: t) =
    if is_high u && is_low v
    then ((u - 0xd800) * 1024 + (v - 0xdc00) + 0x10000) :: code_points t
    else u :: code_points (v :: t).
Proof. reflexivity. Qed.

(** Text whose code points are scalar values is the text of its code points. *)
Lemma flat_code_points text :
  Forall code_unit text -> Forall scalar (code_points text) ->
  flat_map fromCodePoint (code_points text) = text.
Proof.
  remember (length text) as n eqn:Hn. revert text Hn.
  induction (lt_wf n) as [n _ IH]; intros [|u [|v text]] Hn Hu Hs; [done|..].
  - cbn in *. decompose_Forall_hyps. unfold fromCodePoint, code_unit in *.
    rewrite (proj2 (Z.ltb_lt _ _)) by lia. done.
  - rewrite code_points_cons2 in *. unfold code_unit in *. destruct (is_high u && is_low v) eqn:Hpair.
    + unfold is_high, is_low in Hpair. breflect. decompose_Forall_hyps.
      cbn [flat_map]. rewrite (IH (length text)); [|lia|done|done|done].
      unfold fromCodePoint. rewrite (proj2 (Z.ltb_ge _ _)) by lia.
      cbn. list_arith.
    + apply Forall_cons in Hu as [Hu Hu']. apply Forall_cons in Hs as [Hs Hs'].
      cbn [flat_map]. rewrite (IH (length (v :: text))); [|cbn in *; lia|done|done|done].
      unfold fromCodePoint. rewrite (proj2 (Z.ltb_lt _ _)) by lia. done.
Qed.

Lemma utf8_loop_sound fuel bytes text :
  Forall is_byte bytes -> utf8_loop fuel bytes = Some text ->
  exists codes, Forall scalar codes /\ text = flat_map fromCodePoint codes
    /\ bytes = flat_map utf8_encode codes.
Proof.
  revert bytes text; induction fuel as [|fuel IH]; intros [|b rest] text Hbytes; cbn; try done.
  1,2: intros [= <-]; by exists [].
  apply Forall_cons in Hbytes as [Hb Hrest].
  destruct (utf8_step b rest) as [[code rest']|] eqn:Hstep; cbn; [|done].
  destruct (utf8_step_Some b rest code rest' Hb Hrest Hstep) as (Hscalar & Heq & Hrest').
  destruct (utf8_loop fuel rest') as [out|] eqn:Hloop; cbn; [|done]. intros [= <-].
  destruct (IH rest' out Hrest' Hloop) as (codes & Hcodes & -> & ->).
  exists (code :: codes). split_and!; [by constructor|done|done].
Qed.

Lemma utf8_loop_complete fuel codes :
  Forall scalar codes -> (length (flat_map utf8_encode codes) <= fuel)%nat ->
  utf8_loop fuel (flat_map utf8_encode codes) = Some (flat_map fromCodePoint codes).
Proof.
  intros Hcodes; revert fuel; induction Hcodes as [|code codes Hcode Hcodes IH]; intros fuel.
  { by destruct fuel. }
  cbn [flat_map]. destruct (utf8_step_encode code (flat_map utf8_encode codes) Hcode)
    as (b & tail & -> & _ & _ & Hstep).
  cbn [length]. destruct fuel as [|fuel]; [lia|]. intros Hfuel.
  cbn [utf8_loop]. rewrite Hstep. cbn. rewrite IH; [done|].
  rewrite length_app in Hfuel. lia.
Qed.

Lemma utf8Text_iff (bytes : list Z) (text : jstr) (Hbytes : Forall is_byte bytes) :
  utf8Text bytes = Some text <->
  utf8Bytes text = bytes /\ Forall code_unit text /\ Forall scalar (code_points text).
Proof.
  unfold utf8Text, utf8Bytes. split.
  - intros (codes & Hcodes & -> & ->)%utf8_loop_sound; [|done].
    rewrite code_points_flat by done. split_and!; [done| |done].
    clear Hbytes. induction Hcodes; cbn; [constructor|]. apply Forall_app; split; [|done].
    by apply fromCodePoint_units.
  - intros (<- & Hunits & Hscalars). rewrite utf8_loop_complete by done.
    by rewrite flat_code_points.
Qed.

(** On bytes, [utf8Text] and [utf8Bytes] are exactly inverse:
    the decoder accepts just the encodings of well-formed text (no lone
    surrogate, no overlong or out-of-range sequence) and returns that text. *)
Theorem utf8_roundtrip (bytes : list Z) (text : jstr) (Hbytes : Forall is_byte bytes) :
  utf8Text bytes = Some text <->
  utf8Bytes text = bytes /\ Forall code_unit text /\ Forall scalar (code_points text).
Proof. by apply utf8Text_iff. Qed.

Lemma utf8_roundtrip_witness :
  Forall is_byte [0xf0; 0x9f; 0x98; 0x80; 0x41] /\
  (utf8Text [0xf0; 0x9f; 0x98; 0x80; 0x41] = Some [0xd83d; 0xde00; 0x41] <->
   utf8Bytes [0xd83d; 0xde00; 0x41] = [0xf0; 0x9f; 0x98; 0x80; 0x41] /\
   Forall code_unit [0xd83d; 0xde00; 0x41] /\
   Forall scalar (code_points [0xd83d; 0xde00; 0x41])).
Proof.
  assert (H : Forall is_byte [0xf0; 0x9f; 0x98; 0x80; 0x41]) by by_decide.
  split; [exact H|exact (utf8_roundtrip _ _ H)].
Defined.

(** ** windows-1252 *)

(** The WHATWG decoder, by its table: every byte is one character. *)
Definition windows1252 (b : Z) : Z :=
  if (b <? 0x80) || (0xa0 <=? b) then b else nth (Z.to_nat (b - 0x80)) CP1252_HIGH 0.

Lemma cp1252_byte b : is_byte b ->
  (if (windows1252 b <? 0x80) || ((0xa0 <=? windows1252 b) && (windows1252 b <=? 0xff))
   then Some (windows1252 b) else FROM_CP1252 (windows1252 b)) = Some b.
Proof.
  intros Hb. apply (bool_decide_unpack _). apply Is_true_true.
  revert b Hb. apply forall_byte. vm_compute. reflexivity.
Qed.

Lemma last_index_Some x l i j :
  last_index x l i = Some j -> exists k, l !! k = Some x /\ j = i + Z.of_nat k.
Proof.
  revert i; induction l as [|y l IH]; intros i; cbn; [done|].
  destruct (last_index x l (i + 1)) as [j'|] eqn:Hl.
  - intros [= ->]. destruct (IH _ Hl) as (k & Hk & ->). exists (S k). split; [done|lia].
  - case_match eqn:Heq; [|done]. apply Z.eqb_eq in Heq as ->. intros [= <-].
    exists 0%nat. split; [done|lia].
Qed.

Lemma FROM_CP1252_spec code b :
  FROM_CP1252 code = Some b -> is_byte b /\ windows1252 b = code.
Proof.
  intros (k & Hk & ->)%last_index_Some. pose proof (lookup_lt_Some _ _ _ Hk) as Hlt.
  cbn [length CP1252_HIGH] in Hlt. split; [unfold is_byte; lia|]. unfold windows1252.
  rewrite (proj2 (Z.ltb_ge _ _)), (proj2 (Z.leb_gt _ _)) by lia. cbn [orb].
  replace (Z.to_nat _) with k by lia. by apply nth_lookup_Some.
Qed.

(** [cp1252Bytes] inverts the windows-1252 decoding exactly:
    it returns [bytes] precisely for the text those bytes decode to, and
    nothing for text with a character outside the code page. *)
Lemma cp1252Bytes_iff (text : jstr) (bytes : list Z) (Htext : Forall code_unit text) :
  cp1252Bytes text = Some bytes <-> Forall is_byte bytes /\ text = map windows1252 bytes.
Proof.
  split.
  - revert bytes; induction Htext as [|c text Hc Htext IH]; intros bytes; cbn; [by intros [= <-]|].
    destruct (if _ || _ then _ else _) as [b|] eqn:Hb; cbn; [|done].
    destruct (cp1252Bytes text) as [out|]; cbn; [|done]. intros [= <-].
    destruct (IH out eq_refl) as [Hout ->].
    enough (is_byte b /\ windows1252 b = c) as [? <-] by (split; [by constructor|done]).
    case_match eqn:Hrange; [|by apply FROM_CP1252_spec]. simplify_eq.
    unfold is_byte, windows1252, code_unit in *.
    apply orb_true_iff in Hrange as [Hr|Hr]; breflect.
    + rewrite (proj2 (Z.ltb_lt b 128)) by lia. cbn. split; [lia|done].
    + rewrite (proj2 (Z.leb_le 160 b)) by lia. rewrite orb_true_r. split; [lia|done].
  - intros [Hbytes ->]. clear Htext.
    induction Hbytes as [|b bytes Hb Hbytes IH]; [done|]. cbn [map cp1252Bytes].
    rewrite (cp1252_byte b Hb), IH. done.
Qed.

(** ** Base64 *)

Lemma i32_64 x : i32 (x * 64) = 64 * ((x + 2 ^ 25) mod 2 ^ 26 - 2 ^ 25).
Proof.
  unfold i32. replace (x * 64 + 2 ^ 31) with (64 * (x + 2 ^ 25)) by lia.
  change (2 ^ 32) with (64 * 2 ^ 26). rewrite Zmult_mod_distr_l. lia.
Qed.

(** The accumulator: its low twelve bits are the last two digits read, in
    spite of the 32-bit wrap-around of [value << 6]. *)
Lemma b64_value_mod v i :
  0 <= i < 64 -> js_or (js_shl v 6) i mod 4096 = (v mod 64) * 64 + i.
Proof.
  intros Hi. unfold js_or, js_shl. change (6 mod 32) with 6.
  rewrite (i32_small (i32 _)) by apply i32_range. rewrite (i32_small i) by lia.
  rewrite Z.shiftl_mul_pow2 by lia. change (2 ^ 6) with 64. rewrite i32_64, Z.mul_comm.
  rewrite (lor_mul_add _ i 6) by lia. change (2 ^ 6) with 64.
  change 4096 with (2 ^ 12). unfold i32. change (2 ^ 32) with 4294967296.
  change (2 ^ 31) with 2147483648. change (2 ^ 25) with 33554432.
  change (2 ^ 26) with 67108864. change (2 ^ 12) with 4096. dlia.
Qed.

Lemma b64_push w k :
  In k [0; 2; 4] -> js_and (js_shr w k) 0xff = (w mod 4096) / 2 ^ k mod 256.
Proof.
  intros Hk. unfold js_and, js_shr. rewrite (i32_small 255) by lia.
  assert (Hr : forall x, i32 x mod 4096 = x mod 4096).
  { intros x. unfold i32. change (2 ^ 32) with 4294967296. change (2 ^ 31) with 2147483648. dlia. }
  assert (Hl : forall x, Z.land x 255 = x mod 256)
    by (intros; change 255 with (Z.ones 8); by rewrite Z.land_ones by lia).
  rewrite Hl. pose proof (i32_range w).
  assert (forall x, i32 x mod 256 = x mod 256) as ->.
  { intros x. unfold i32. change (2 ^ 32) with 4294967296. change (2 ^ 31) with 2147483648. dlia. }
  rewrite <-(Hr w). rewrite Z.shiftr_div_pow2 by (apply Z.mod_pos_bound; lia).
  destruct Hk as [<-|[<-|[<-|[]]]];
    [change (2 ^ (0 mod 32)) with 1; change (2 ^ 0) with 1
    |change (2 ^ (2 mod 32)) with 4; change (2 ^ 2) with 4
    |change (2 ^ (4 mod 32)) with 16; change (2 ^ 4) with 16]; dlia.
Qed.

(** The digits of a list of bytes, and how much padding follows them. *)
Fixpoint b64_digits (bytes : list Z) : list Z :=
  match bytes with
  | [] => []
  | [a] => [a / 4; (a mod 4) * 16]
  | [a; b] => [a / 4; (a mod 4) * 16 + b / 16; (b mod 16) * 4]
  | a :: b :: c :: rest =>
      [a / 4; (a mod 4) * 16 + b / 16; (b mod 16) * 4 + c / 64; c mod 64] ++ b64_digits rest
  end.

Fixpoint b64_padding (bytes : list Z) : nat :=
  match bytes with
  | [] => 0
  | [_] => 2
  | [_; _] => 1
  | _ :: _ :: _ :: rest => b64_padding rest
  end.

Lemma bytes_ind3 (P : list Z -> Prop) :
  P [] -> (forall a, P [a]) -> (forall a b, P [a; b]) ->
  (forall a b c l, P l -> P (a :: b :: c :: l)) -> forall l, P l.
Proof.
  intros H0 H1 H2 H3 l. remember (length l) as n eqn:Hn. revert l Hn.
  induction (lt_wf n) as [n _ IH]; intros [|a [|b [|c l]]] Hn; auto.
  apply H3, (IH (length l)); [cbn in Hn; lia|done].
Qed.

Lemma b64_group_value a b c :
  is_byte a -> is_byte b -> is_byte c ->
  let n := js_or (js_or (js_shl a 16) (js_shl b 8)) c in
  js_shr n 18 = a / 4 /\ js_and (js_shr n 12) 63 = (a mod 4) * 16 + b / 16 /\
  js_and (js_shr n 6) 63 = (b mod 16) * 4 + c / 64 /\ js_and n 63 = c mod 64.
Proof.
  intros Ha Hb Hc n. unfold is_byte in *.
  assert (Hn : n = a * 65536 + b * 256 + c).
  { unfold n, js_or, js_shl. change (16 mod 32) with 16. change (8 mod 32) with 8.
    rewrite (i32_small a), (i32_small b), (i32_small c) by lia.
    rewrite !Z.shiftl_mul_pow2 by lia.
    rewrite (i32_small (a * _)), (i32_small (b * _)) by lia.
    rewrite (i32_small (a * _)), (i32_small (b * _)) by lia.
    rewrite (lor_mul_add a (b * 2 ^ 8) 16) by lia. rewrite i32_small by lia.
    replace (a * 2 ^ 16 + b * 2 ^ 8) with ((a * 256 + b) * 2 ^ 8) by lia.
    rewrite (lor_mul_add _ c 8) by lia. lia. }
  assert (Hl : forall x, 0 <= x < 2 ^ 31 -> js_and x 63 = x mod 64).
  { intros x Hx. unfold js_and. rewrite !i32_small by lia. change 63 with (Z.ones 6).
    by rewrite Z.land_ones by lia. }
  clearbody n. subst n. unfold js_shr. rewrite i32_small by lia.
  change (18 mod 32) with 18. change (12 mod 32) with 12. change (6 mod 32) with 6.
  rewrite !Z.shiftr_div_pow2 by lia. change (2 ^ 18) with 262144.
  change (2 ^ 12) with 4096. change (2 ^ 6) with 64. rewrite !Hl by dlia. dlia.
Qed.

Lemma base64_digits bytes :
  Forall is_byte bytes ->
  base64 bytes = map b64_char (b64_digits bytes) ++ replicate (b64_padding bytes) PAD.
Proof.
  induction bytes as [|a|a b|a b c l IH] using bytes_ind3; intros Hbytes;
    decompose_Forall_hyps; cbn [base64 b64_digits b64_padding]; [done|..];
    unfold base64_group, from_option, id.
  - destruct (b64_group_value a 0 0) as (-> & -> & _); [done|unfold is_byte; lia..|].
    rewrite Z.div_0_l, Z.add_0_r by lia. done.
  - destruct (b64_group_value a b 0) as (-> & -> & -> & _); [done|done|unfold is_byte; lia|].
    rewrite Z.div_0_l, Z.add_0_r by lia. done.
  - destruct (b64_group_value a b c) as (-> & -> & -> & ->); [done..|].
    rewrite IH by done. done.
Qed.

Lemma b64_digits_range bytes :
  Forall is_byte bytes -> Forall (fun i => 0 <= i < 64) (b64_digits bytes).
Proof.
  induction bytes as [|a|a b|a b c l IH] using bytes_ind3; intros Hbytes;
    forall_split; unfold is_byte in *; cbn [b64_digits app];
    repeat (apply List.Forall_cons; [dlia|]); auto.
Qed.

Lemma b64_char_facts i : 0 <= i < 64 ->
  index_of (b64_char i) BASE64 0 = i /\ is_b64 (b64_char i) = true /\ is_ws (b64_char i) = false.
Proof.
  intros Hi. enough (bool_decide (i < 64 -> index_of (b64_char i) BASE64 0 = i /\
    is_b64 (b64_char i) = true /\ is_ws (b64_char i) = false) = true) as H.
  { apply bool_decide_eq_true in H. apply H. lia. }
  assert (Hb : is_byte i) by (unfold is_byte; lia). clear Hi. revert i Hb.
  apply forall_byte. vm_compute. reflexivity.
Qed.

(** One digit: it replaces the low digit of the accumulator, and pushes a byte
    once eight bits are there. *)
Lemma b64_step_digit bits v out i :
  0 <= i < 64 -> In bits [0; 2; 4; 6] ->
  exists v', v' mod 64 = i /\
    b64_step (bits, v, out) (b64_char i) =
      if bits =? 0 then (6, v', out)
      else (bits - 2, v', out ++ [((v mod 64) * 64 + i) / 2 ^ (bits - 2) mod 256]).
Proof.
  intros Hi Hbits. pose proof (b64_value_mod v i Hi) as Hv.
  exists (js_or (js_shl v 6) i). split.
  { change 4096 with (64 * 64) in Hv. rewrite Z.rem_mul_r in Hv by lia. dlia. }
  unfold b64_step. destruct (b64_char_facts i Hi) as [-> _].
  destruct Hbits as [<-|Hbits]; [done|].
  rewrite (proj2 (Z.leb_le _ _)), (proj2 (Z.eqb_neq _ _)) by (cbn in Hbits; lia).
  replace (bits + 6 - 8) with (bits - 2) by lia.
  rewrite b64_push, Hv; [done|]. cbn in Hbits |- *. lia.
Qed.

(** Two, three and four digits: one, two and three bytes. *)
Lemma b64_two v out i0 i1 :
  0 <= i0 < 64 -> 0 <= i1 < 64 ->
  exists v', v' mod 64 = i1 /\
    fold_left b64_step (map b64_char [i0; i1]) (0, v, out)
      = (4, v', out ++ [(i0 * 64 + i1) / 16 mod 256]).
Proof.
  intros H0 H1. cbn [map fold_left].
  destruct (b64_step_digit 0 v out i0) as (v1 & Hv1 & ->); [done|cbn; tauto|].
  change (0 =? 0) with true. cbv iota.
  destruct (b64_step_digit 6 v1 out i1) as (v2 & Hv2 & ->); [done|cbn; tauto|].
  exists v2. rewrite Hv1. done.
Qed.

Lemma b64_three v out i0 i1 i2 :
  0 <= i0 < 64 -> 0 <= i1 < 64 -> 0 <= i2 < 64 ->
  exists v', v' mod 64 = i2 /\
    fold_left b64_step (map b64_char [i0; i1; i2]) (0, v, out)
      = (2, v', (out ++ [(i0 * 64 + i1) / 16 mod 256]) ++ [(i1 * 64 + i2) / 4 mod 256]).
Proof.
  intros H0 H1 H2. change [i0; i1; i2] with ([i0; i1] ++ [i2]).
  rewrite map_app, fold_left_app.
  destruct (b64_two v out i0 i1) as (v1 & Hv1 & ->); [done..|]. cbn [map fold_left].
  destruct (b64_step_digit 4 v1 (out ++ [(i0 * 64 + i1) / 16 mod 256]) i2)
    as (v2 & Hv2 & ->); [done|cbn; tauto|].
  exists v2. rewrite Hv1. done.
Qed.

Lemma b64_four v out i0 i1 i2 i3 :
  0 <= i0 < 64 -> 0 <= i1 < 64 -> 0 <= i2 < 64 -> 0 <= i3 < 64 ->
  exists v', fold_left b64_step (map b64_char [i0; i1; i2; i3]) (0, v, out)
      = (0, v', out ++ [(i0 * 64 + i1) / 16 mod 256; (i1 * 64 + i2) / 4 mod 256;
                        (i2 * 64 + i3) mod 256]).
Proof.
  intros H0 H1 H2 H3. change [i0; i1; i2; i3] with ([i0; i1; i2] ++ [i3]).
  rewrite map_app, fold_left_app.
  destruct (b64_three v out i0 i1 i2) as (v1 & Hv1 & ->); [done..|]. cbn [map fold_left].
  match goal with |- context [b64_step (2, v1, ?o) _] =>
    destruct (b64_step_digit 2 v1 o i3) as (v2 & Hv2 & ->); [done|cbn; tauto|] end.
  exists v2. change (2 =? 0) with false. cbv iota. rewrite Hv1.
  change (2 ^ (2 - 2)) with 1. rewrite Z.div_1_r, <-!app_assoc. done.
Qed.

Lemma b64_fold_digits bytes v out :
  Forall is_byte bytes ->
  exists bits v', fold_left b64_step (map b64_char (b64_digits bytes)) (0, v, out)
    = (bits, v', out ++ bytes).
Proof.
  revert v out; induction bytes as [|a|a b|a b c l IH] using bytes_ind3;
    intros v out Hbytes; forall_split; unfold is_byte in *;
    cbn [b64_digits].
  - exists 0, v. by rewrite app_nil_r.
  - destruct (b64_two v out (a / 4) (a mod 4 * 16)) as (v' & _ & ->); [dlia..|].
    exists 4, v'. do 3 f_equal. dlia.
  - destruct (b64_three v out (a / 4) (a mod 4 * 16 + b / 16) (b mod 16 * 4))
      as (v' & _ & ->); [dlia..|].
    exists 2, v'. rewrite <-app_assoc. cbn [app]. do 3 f_equal; [dlia|f_equal; dlia].
  - rewrite map_app, fold_left_app.
    destruct (b64_four v out (a / 4) (a mod 4 * 16 + b / 16) (b mod 16 * 4 + c / 64) (c mod 64))
      as (v' & ->); [dlia..|].
    destruct (IH v' (out ++ [a; b; c])) as (bits & v2 & Hgo); [done|].
    exists bits, v2. rewrite <-app_assoc in Hgo. cbn [app] in Hgo. rewrite <-Hgo.
    do 4 f_equal; [dlia|]. f_equal; [dlia|]. f_equal. dlia.
Qed.

Lemma b64_shape_digits ds k :
  Forall (fun i => 0 <= i < 64) ds -> (k <= 2)%nat ->
  let clean := map b64_char ds ++ replicate k PAD in
  b64_shape clean = true /\ strip_pad clean = map b64_char ds /\
  List.filter (fun c => negb (is_ws c)) clean = clean.
Proof.
  intros Hds Hk. induction Hds as [|i ds Hi Hds IH];
    cbn [map app b64_shape strip_pad List.filter].
  - destruct k as [|[|[|k]]]; try lia; done.
  - destruct (b64_char_facts i Hi) as (_ & Hb & Hw). destruct IH as (-> & -> & ->).
    rewrite Hb, Hw. split_and!; [done| |done].
    cbn [forallb]. assert ((PAD =? b64_char i) = false) as ->; [|done].
    apply Z.eqb_neq. intros Heq. by rewrite <-Heq in Hb.
Qed.

Lemma base64_length bytes :
  len (map b64_char (b64_digits bytes) ++ replicate (b64_padding bytes) PAD) mod 4 = 0.
Proof.
  unfold len. induction bytes as [|a|a b|a b c l IH] using bytes_ind3; try done.
  cbn [b64_digits b64_padding app map length].
  rewrite length_app, length_map in *. dlia.
Qed.

Lemma base64Bytes_base64 (bytes : list Z) (Hbytes : Forall is_byte bytes) :
  base64Bytes (base64 bytes) = Some bytes.
Proof.
  unfold base64Bytes. rewrite base64_digits by done.
  assert (Hk : (b64_padding bytes <= 2)%nat).
  { clear Hbytes. induction bytes using bytes_ind3; cbn; lia. }
  destruct (b64_shape_digits _ _ (b64_digits_range bytes Hbytes) Hk) as (Hshape & Hstrip & ->).
  rewrite base64_length, Hshape, Hstrip. cbn [negb orb Z.eqb].
  destruct (b64_fold_digits bytes 0 [] Hbytes) as (bits & v & ->). done.
Qed.

(** Decoding what [base64] produced returns the bytes, for
    byte strings of every length: the 32-bit wrap-around of the accumulator
    in [base64Bytes] never reaches a byte of the output. *)
Theorem base64_roundtrip (bytes : list Z) (Hbytes : Forall is_byte bytes) :
  base64Bytes (base64 bytes) = Some bytes.
Proof. by apply base64Bytes_base64. Qed.

Lemma base64_roundtrip_witness :
  Forall is_byte [0; 255; 16; 131] /\
  base64Bytes (base64 [0; 255; 16; 131]) = Some [0; 255; 16; 131].
Proof.
  assert (H : Forall is_byte [0; 255; 16; 131]) by by_decide.
  split; [exact H|exact (base64_roundtrip _ H)].
Defined.

(** ** Choosing the reading *)

Section ReadUploadFacts.
Context {E T : Type} (parse : list Z -> res E T).
Implicit Types (text : jstr) (r : Reading T).

(** What the loop over the candidates finds. *)
Definition parsed (c : Encoding * list Z) : option (Reading T) :=
  match parse (snd c) with Ok v => Some (mkReading (fst c) (snd c) v) | Err _ => None end.

Lemma try_candidates_found cs found errors :
  fst (fold_left (try_candidate parse) cs (found, errors)) = found ++ omap parsed cs.
Proof.
  revert found errors; induction cs as [|c cs IH]; intros found errors; cbn.
  { by rewrite app_nil_r. }
  unfold parsed. destruct (parse (snd c)); rewrite IH; [by rewrite <-app_assoc|done].
Qed.

Lemma elem_of_found r text :
  r ∈ omap parsed (candidates text) <->
  (encoding r, bytes r) ∈ candidates text /\ parse (bytes r) = Ok (result r).
Proof.
  rewrite list_elem_of_omap. unfold parsed. split.
  - intros ([e b] & Hin & Hp). cbn in *. case_match; simplify_eq. done.
  - intros [Hin Hp]. exists (encoding r, bytes r). cbn. rewrite Hp. by destruct r.
Qed.

Lemma distinct_from_incl earlier found r : r ∈ distinct_from earlier found -> r ∈ found.
Proof.
  revert earlier; induction found as [|x found IH]; intros earlier; cbn; [done|].
  case_match; [intros Hin; right; eauto|].
  intros [->|Hin]%elem_of_cons; [by left|right; eauto].
Qed.

(** Every reading found has its bytes among the distinct or earlier ones. *)
Lemma distinct_from_cover earlier found r :
  r ∈ found -> exists r', r' ∈ earlier ++ distinct_from earlier found /\ bytes r' = bytes r.
Proof.
  revert earlier; induction found as [|x found IH]; intros earlier; [by intros ?%elem_of_nil|].
  cbn. intros Hin.
  destruct (existsb _ earlier) eqn:Hex.
  - apply existsb_exists in Hex as (o & Ho & Heq). breflect. apply list_elem_of_In in Ho.
    apply elem_of_cons in Hin as [->|Hin].
    { exists o. split; [apply elem_of_app; by left|done]. }
    destruct (IH (earlier ++ [x]) Hin) as (r' & Hr' & Hb).
    rewrite !elem_of_app, list_elem_of_singleton in Hr'.
    destruct Hr' as [[Hr'| ->]|Hr'].
    + exists r'. split; [apply elem_of_app; by left|done].
    + exists o. split; [apply elem_of_app; by left|congruence].
    + exists r'. split; [apply elem_of_app; by right|done].
  - apply elem_of_cons in Hin as [->|Hin].
    { exists x. split; [|done]. apply elem_of_app; right; by left. }
    destruct (IH (earlier ++ [x]) Hin) as (r' & Hr' & Hb).
    exists r'. split; [|done]. by rewrite <-app_assoc in Hr'.
Qed.

Lemma readUpload_Ok text r :
  readUpload parse text = Ok r ->
  (encoding r, bytes r) ∈ candidates text /\ parse (bytes r) = Ok (result r) /\
  forall e b v, (e, b) ∈ candidates text -> parse b = Ok v -> b = bytes r.
Proof.
  unfold readUpload. pose proof (try_candidates_found (candidates text) [] []) as Hfound.
  destruct (fold_left _ _ _) as [found errors]. cbn [fst app] in Hfound. subst found.
  destruct (distinct_from [] _) as [|x [|y l]] eqn:Hd; [done| |done]. intros [= ->].
  assert (r ∈ omap parsed (candidates text)) as [Hin Hp]%elem_of_found.
  { apply (distinct_from_incl []). rewrite Hd. by left. }
  split_and!; [done|done|]. intros e b v Hb Hv.
  assert (mkReading e b v ∈ omap parsed (candidates text)) as Hm by by apply elem_of_found.
  destruct (distinct_from_cover [] _ _ Hm) as (r' & Hr' & Hbytes).
  rewrite Hd in Hr'. apply list_elem_of_singleton in Hr' as ->. done.
Qed.

(** A reading that [readUpload] returns is one of the
    candidates and parses, and every other candidate that parses has the
    same bytes: it never picks one of several possible files. *)
Theorem readUpload_unique text r :
  readUpload parse text = Ok r ->
  (encoding r, bytes r) ∈ candidates text /\ parse (bytes r) = Ok (result r) /\
  forall e b v, (e, b) ∈ candidates text -> parse b = Ok v -> b = bytes r.
Proof. apply readUpload_Ok. Qed.

(** The text the host makes of a file's bytes, or the user's base64 of them. *)
Definition host_text (file : list Z) (text : jstr) : Prop :=
  utf8Text file = Some text \/
  (utf8Text file = None /\ text = map windows1252 file) \/
  text = base64 file.

Lemma host_text_candidate file text :
  Forall is_byte file -> host_text file text -> exists e, (e, file) ∈ candidates text.
Proof.
  intros Hfile [Htext|[[Hnone ->]| ->]]; unfold candidates.
  - apply utf8Text_iff in Htext as (-> & _); [|done]. exists Utf8. set_solver.
  - exists Windows1252. assert (cp1252Bytes (map windows1252 file) = Some file) as ->.
    { apply cp1252Bytes_iff; [|done]. clear Hnone. induction Hfile as [|b l Hb _ IH]; [done|].
      constructor; [|done]. apply (bool_decide_unpack _), Is_true_true.
      revert b Hb. apply forall_byte. vm_compute. reflexivity. }
    rewrite Hnone. set_solver.
  - exists Base64. rewrite base64Bytes_base64 by done. set_solver.
Qed.

(** For a file that parses, uploaded as text in any of the
    ways the host or the user can have made it, [readUpload] returns exactly
    the file's bytes, or refuses the upload as ambiguous; it never returns
    other bytes and never fails for another reason. *)
Theorem readUpload_file file text v :
  Forall is_byte file -> host_text file text -> parse file = Ok v ->
  (exists r, readUpload parse text = Ok r /\ bytes r = file /\ result r = v) \/
  (exists names, readUpload parse text = Err (inl (dropError (AmbiguousReadings names)))).
Proof.
  intros Hfile Htext Hv. destruct (host_text_candidate file text Hfile Htext) as [e He].
  destruct (readUpload parse text) as [r|err] eqn:Hr.
  - left. exists r. destruct (readUpload_Ok text r Hr) as (_ & Hp & Hall).
    rewrite <-(Hall _ _ _ He Hv) in Hp |- *. split_and!; [done|done|congruence].
  - right. revert Hr. unfold readUpload.
    pose proof (try_candidates_found (candidates text) [] []) as Hfound.
    destruct (fold_left _ _ _) as [found errors]. cbn [fst app] in Hfound. subst found.
    assert (mkReading e file v ∈ omap parsed (candidates text)) as Hm by by apply elem_of_found.
    destruct (distinct_from_cover [] _ _ Hm) as (r' & Hr' & _).
    destruct (distinct_from [] _) as [|x [|y l]]; [by apply elem_of_nil in Hr'|done|].
    intros [= <-]. eauto.
Qed.
End ReadUploadFacts.

(** A parser that accepts the one file [01 02], or any file of three bytes. *)
Definition demo_parse (bs : list Z) : res unit nat :=
  if decide (bs = [1; 2] \/ length bs = 3%nat) then Ok (length bs) else Err tt.

Lemma readUpload_unique_witness :
  readUpload demo_parse (js "AQI=") = Ok (mkReading Base64 [1; 2] 2%nat) /\
  forall e b v, (e, b) ∈ candidates (js "AQI=") -> demo_parse b = Ok v -> b = [1; 2].
Proof.
  assert (H : readUpload demo_parse (js "AQI=") = Ok (mkReading Base64 [1; 2] 2%nat))
    by (vm_compute; reflexivity).
  split; [exact H|]. exact (proj2 (proj2 (readUpload_unique demo_parse _ _ H))).
Defined.

Lemma readUpload_file_witness :
  Forall is_byte [0x80; 0xff; 0x41] /\ host_text [0x80; 0xff; 0x41] [0x20ac; 0xff; 0x41] /\
  ((exists r, readUpload demo_parse [0x20ac; 0xff; 0x41] = Ok r /\
      bytes r = [0x80; 0xff; 0x41] /\ result r = 3%nat) \/
   (exists names, readUpload demo_parse [0x20ac; 0xff; 0x41]
      = Err (inl (dropError (AmbiguousReadings names))))).
Proof.
  assert (H1 : Forall is_byte [0x80; 0xff; 0x41]) by by_decide.
  assert (H2 : host_text [0x80; 0xff; 0x41] [0x20ac; 0xff; 0x41])
    by (right; left; split; reflexivity).
  split; [exact H1|split; [exact H2|]].
  apply (readUpload_file demo_parse _ _ 3%nat H1 H2). reflexivity.
Defined.
