(* ===== verification/Unicode.v ===== *)
(** * [toLowerCase] and [toUpperCase]

    The default case conversion of Unicode 14 that [String.prototype.toLowerCase]
    and [toUpperCase] apply to the code points of a string: the one-to-one
    mappings as ranges, the mappings to several characters, and the sigma at
    the end of a word, the one mapping that looks at the text around it. *)
From S2P Require Import Prelude Upload.
Local Open Scope Z_scope.

(** ** Tables

    [(first, last, step, delta)]: every [step]-th code point from [first] to
    [last] is mapped [delta] further. *)

Definition CaseRange : Type := Z * Z * Z * Z.

Definition to_lower : list CaseRange :=
  [ (0xc0,0xd6,1,32); (0xd8,0xde,1,32); (0x100,0x12e,2,1); (0x132,0x136,2,1); (0x139,0x147,2,1);
    (0x14a,0x176,2,1); (0x178,0x178,1,(-121)); (0x179,0x17d,2,1); (0x181,0x181,1,210);
    (0x182,0x184,2,1); (0x186,0x186,1,206); (0x187,0x187,1,1); (0x189,0x18a,1,205); (0x18b,0x18b,1,1);
    (0x18e,0x18e,1,79); (0x18f,0x18f,1,202); (0x190,0x190,1,203); (0x191,0x191,1,1);
    (0x193,0x193,1,205); (0x194,0x194,1,207); (0x196,0x196,1,211); (0x197,0x197,1,209);
    (0x198,0x198,1,1); (0x19c,0x19c,1,211); (0x19d,0x19d,1,213); (0x19f,0x19f,1,214);
    (0x1a0,0x1a4,2,1); (0x1a6,0x1a6,1,218); (0x1a7,0x1a7,1,1); (0x1a9,0x1a9,1,218); (0x1ac,0x1ac,1,1);
    (0x1ae,0x1ae,1,218); (0x1af,0x1af,1,1); (0x1b1,0x1b2,1,217); (0x1b3,0x1b5,2,1);
    (0x1b7,0x1b7,1,219); (0x1b8,0x1b8,1,1); (0x1bc,0x1bc,1,1); (0x1c4,0x1c4,1,2); (0x1c5,0x1c5,1,1);
    (0x1c7,0x1c7,1,2); (0x1c8,0x1c8,1,1); (0x1ca,0x1ca,1,2); (0x1cb,0x1db,2,1); (0x1de,0x1ee,2,1);
    (0x1f1,0x1f1,1,2); (0x1f2,0x1f4,2,1); (0x1f6,0x1f6,1,(-97)); (0x1f7,0x1f7,1,(-56));
    (0x1f8,0x21e,2,1); (0x220,0x220,1,(-130)); (0x222,0x232,2,1); (0x23a,0x23a,1,10795);
    (0x23b,0x23b,1,1); (0x23d,0x23d,1,(-163)); (0x23e,0x23e,1,10792); (0x241,0x241,1,1);
    (0x243,0x243,1,(-195)); (0x244,0x244,1,69); (0x245,0x245,1,71); (0x246,0x24e,2,1);
    (0x370,0x372,2,1); (0x376,0x376,1,1); (0x37f,0x37f,1,116); (0x386,0x386,1,38); (0x388,0x38a,1,37);
    (0x38c,0x38c,1,64); (0x38e,0x38f,1,63); (0x391,0x3a1,1,32); (0x3a3,0x3ab,1,32); (0x3cf,0x3cf,1,8);
    (0x3d8,0x3ee,2,1); (0x3f4,0x3f4,1,(-60)); (0x3f7,0x3f7,1,1); (0x3f9,0x3f9,1,(-7));
    (0x3fa,0x3fa,1,1); (0x3fd,0x3ff,1,(-130)); (0x400,0x40f,1,80); (0x410,0x42f,1,32);
    (0x460,0x480,2,1); (0x48a,0x4be,2,1); (0x4c0,0x4c0,1,15); (0x4c1,0x4cd,2,1); (0x4d0,0x52e,2,1);
    (0x531,0x556,1,48); (0x10a0,0x10c5,1,7264); (0x10c7,0x10c7,1,7264); (0x10cd,0x10cd,1,7264);
    (0x13a0,0x13ef,1,38864); (0x13f0,0x13f5,1,8); (0x1c90,0x1cba,1,(-3008)); (0x1cbd,0x1cbf,1,(-3008));
    (0x1e00,0x1e94,2,1); (0x1e9e,0x1e9e,1,(-7615)); (0x1ea0,0x1efe,2,1); (0x1f08,0x1f0f,1,(-8));
    (0x1f18,0x1f1d,1,(-8)); (0x1f28,0x1f2f,1,(-8)); (0x1f38,0x1f3f,1,(-8)); (0x1f48,0x1f4d,1,(-8));
    (0x1f59,0x1f5f,2,(-8)); (0x1f68,0x1f6f,1,(-8)); (0x1f88,0x1f8f,1,(-8)); (0x1f98,0x1f9f,1,(-8));
    (0x1fa8,0x1faf,1,(-8)); (0x1fb8,0x1fb9,1,(-8)); (0x1fba,0x1fbb,1,(-74)); (0x1fbc,0x1fbc,1,(-9));
    (0x1fc8,0x1fcb,1,(-86)); (0x1fcc,0x1fcc,1,(-9)); (0x1fd8,0x1fd9,1,(-8)); (0x1fda,0x1fdb,1,(-100));
    (0x1fe8,0x1fe9,1,(-8)); (0x1fea,0x1feb,1,(-112)); (0x1fec,0x1fec,1,(-7)); (0x1ff8,0x1ff9,1,(-128));
    (0x1ffa,0x1ffb,1,(-126)); (0x1ffc,0x1ffc,1,(-9)); (0x2126,0x2126,1,(-7517));
    (0x212a,0x212a,1,(-8383)); (0x212b,0x212b,1,(-8262)); (0x2132,0x2132,1,28); (0x2160,0x216f,1,16);
    (0x2183,0x2183,1,1); (0x24b6,0x24cf,1,26); (0x2c00,0x2c2f,1,48); (0x2c60,0x2c60,1,1);
    (0x2c62,0x2c62,1,(-10743)); (0x2c63,0x2c63,1,(-3814)); (0x2c64,0x2c64,1,(-10727));
    (0x2c67,0x2c6b,2,1); (0x2c6d,0x2c6d,1,(-10780)); (0x2c6e,0x2c6e,1,(-10749));
    (0x2c6f,0x2c6f,1,(-10783)); (0x2c70,0x2c70,1,(-10782)); (0x2c72,0x2c72,1,1); (0x2c75,0x2c75,1,1);
    (0x2c7e,0x2c7f,1,(-10815)); (0x2c80,0x2ce2,2,1); (0x2ceb,0x2ced,2,1); (0x2cf2,0x2cf2,1,1);
    (0xa640,0xa66c,2,1); (0xa680,0xa69a,2,1); (0xa722,0xa72e,2,1); (0xa732,0xa76e,2,1);
    (0xa779,0xa77b,2,1); (0xa77d,0xa77d,1,(-35332)); (0xa77e,0xa786,2,1); (0xa78b,0xa78b,1,1);
    (0xa78d,0xa78d,1,(-42280)); (0xa790,0xa792,2,1); (0xa796,0xa7a8,2,1); (0xa7aa,0xa7aa,1,(-42308));
    (0xa7ab,0xa7ab,1,(-42319)); (0xa7ac,0xa7ac,1,(-42315)); (0xa7ad,0xa7ad,1,(-42305));
    (0xa7ae,0xa7ae,1,(-42308)); (0xa7b0,0xa7b0,1,(-42258)); (0xa7b1,0xa7b1,1,(-42282));
    (0xa7b2,0xa7b2,1,(-42261)); (0xa7b3,0xa7b3,1,928); (0xa7b4,0xa7c2,2,1); (0xa7c4,0xa7c4,1,(-48));
    (0xa7c5,0xa7c5,1,(-42307)); (0xa7c6,0xa7c6,1,(-35384)); (0xa7c7,0xa7c9,2,1); (0xa7d0,0xa7d0,1,1);
    (0xa7d6,0xa7d8,2,1); (0xa7f5,0xa7f5,1,1); (0xff21,0xff3a,1,32); (0x10400,0x10427,1,40);
    (0x104b0,0x104d3,1,40); (0x10570,0x10594,2,39); (0x10571,0x10579,2,39); (0x1057d,0x10589,2,39);
    (0x1058d,0x10591,2,39); (0x10595,0x10595,1,39); (0x10c80,0x10cb2,1,64); (0x118a0,0x118bf,1,32);
    (0x16e40,0x16e5f,1,32); (0x1e900,0x1e921,1,34) ].

Definition to_upper : list CaseRange :=
  [ (0xb5,0xb5,1,743); (0xe0,0xf6,1,(-32)); (0xf8,0xfe,1,(-32)); (0xff,0xff,1,121);
    (0x101,0x12f,2,(-1)); (0x131,0x131,1,(-232)); (0x133,0x137,2,(-1)); (0x13a,0x148,2,(-1));
    (0x14b,0x177,2,(-1)); (0x17a,0x17e,2,(-1)); (0x17f,0x17f,1,(-300)); (0x180,0x180,1,195);
    (0x183,0x185,2,(-1)); (0x188,0x188,1,(-1)); (0x18c,0x18c,1,(-1)); (0x192,0x192,1,(-1));
    (0x195,0x195,1,97); (0x199,0x199,1,(-1)); (0x19a,0x19a,1,163); (0x19e,0x19e,1,130);
    (0x1a1,0x1a5,2,(-1)); (0x1a8,0x1a8,1,(-1)); (0x1ad,0x1ad,1,(-1)); (0x1b0,0x1b0,1,(-1));
    (0x1b4,0x1b6,2,(-1)); (0x1b9,0x1b9,1,(-1)); (0x1bd,0x1bd,1,(-1)); (0x1bf,0x1bf,1,56);
    (0x1c5,0x1c5,1,(-1)); (0x1c6,0x1c6,1,(-2)); (0x1c8,0x1c8,1,(-1)); (0x1c9,0x1c9,1,(-2));
    (0x1cb,0x1cb,1,(-1)); (0x1cc,0x1cc,1,(-2)); (0x1ce,0x1dc,2,(-1)); (0x1dd,0x1dd,1,(-79));
    (0x1df,0x1ef,2,(-1)); (0x1f2,0x1f2,1,(-1)); (0x1f3,0x1f3,1,(-2)); (0x1f5,0x1f5,1,(-1));
    (0x1f9,0x21f,2,(-1)); (0x223,0x233,2,(-1)); (0x23c,0x23c,1,(-1)); (0x23f,0x240,1,10815);
    (0x242,0x242,1,(-1)); (0x247,0x24f,2,(-1)); (0x250,0x250,1,10783); (0x251,0x251,1,10780);
    (0x252,0x252,1,10782); (0x253,0x253,1,(-210)); (0x254,0x254,1,(-206)); (0x256,0x257,1,(-205));
    (0x259,0x259,1,(-202)); (0x25b,0x25b,1,(-203)); (0x25c,0x25c,1,42319); (0x260,0x260,1,(-205));
    (0x261,0x261,1,42315); (0x263,0x263,1,(-207)); (0x265,0x265,1,42280); (0x266,0x266,1,42308);
    (0x268,0x268,1,(-209)); (0x269,0x269,1,(-211)); (0x26a,0x26a,1,42308); (0x26b,0x26b,1,10743);
    (0x26c,0x26c,1,42305); (0x26f,0x26f,1,(-211)); (0x271,0x271,1,10749); (0x272,0x272,1,(-213));
    (0x275,0x275,1,(-214)); (0x27d,0x27d,1,10727); (0x280,0x280,1,(-218)); (0x282,0x282,1,42307);
    (0x283,0x283,1,(-218)); (0x287,0x287,1,42282); (0x288,0x288,1,(-218)); (0x289,0x289,1,(-69));
    (0x28a,0x28b,1,(-217)); (0x28c,0x28c,1,(-71)); (0x292,0x292,1,(-219)); (0x29d,0x29d,1,42261);
    (0x29e,0x29e,1,42258); (0x345,0x345,1,84); (0x371,0x373,2,(-1)); (0x377,0x377,1,(-1));
    (0x37b,0x37d,1,130); (0x3ac,0x3ac,1,(-38)); (0x3ad,0x3af,1,(-37)); (0x3b1,0x3c1,1,(-32));
    (0x3c2,0x3c2,1,(-31)); (0x3c3,0x3cb,1,(-32)); (0x3cc,0x3cc,1,(-64)); (0x3cd,0x3ce,1,(-63));
    (0x3d0,0x3d0,1,(-62)); (0x3d1,0x3d1,1,(-57)); (0x3d5,0x3d5,1,(-47)); (0x3d6,0x3d6,1,(-54));
    (0x3d7,0x3d7,1,(-8)); (0x3d9,0x3ef,2,(-1)); (0x3f0,0x3f0,1,(-86)); (0x3f1,0x3f1,1,(-80));
    (0x3f2,0x3f2,1,7); (0x3f3,0x3f3,1,(-116)); (0x3f5,0x3f5,1,(-96)); (0x3f8,0x3f8,1,(-1));
    (0x3fb,0x3fb,1,(-1)); (0x430,0x44f,1,(-32)); (0x450,0x45f,1,(-80)); (0x461,0x481,2,(-1));
    (0x48b,0x4bf,2,(-1)); (0x4c2,0x4ce,2,(-1)); (0x4cf,0x4cf,1,(-15)); (0x4d1,0x52f,2,(-1));
    (0x561,0x586,1,(-48)); (0x10d0,0x10fa,1,3008); (0x10fd,0x10ff,1,3008); (0x13f8,0x13fd,1,(-8));
    (0x1c80,0x1c80,1,(-6254)); (0x1c81,0x1c81,1,(-6253)); (0x1c82,0x1c82,1,(-6244));
    (0x1c83,0x1c84,1,(-6242)); (0x1c85,0x1c85,1,(-6243)); (0x1c86,0x1c86,1,(-6236));
    (0x1c87,0x1c87,1,(-6181)); (0x1c88,0x1c88,1,35266); (0x1d79,0x1d79,1,35332);
    (0x1d7d,0x1d7d,1,3814); (0x1d8e,0x1d8e,1,35384); (0x1e01,0x1e95,2,(-1)); (0x1e9b,0x1e9b,1,(-59));
    (0x1ea1,0x1eff,2,(-1)); (0x1f00,0x1f07,1,8); (0x1f10,0x1f15,1,8); (0x1f20,0x1f27,1,8);
    (0x1f30,0x1f37,1,8); (0x1f40,0x1f45,1,8); (0x1f51,0x1f57,2,8); (0x1f60,0x1f67,1,8);
    (0x1f70,0x1f71,1,74); (0x1f72,0x1f75,1,86); (0x1f76,0x1f77,1,100); (0x1f78,0x1f79,1,128);
    (0x1f7a,0x1f7b,1,112); (0x1f7c,0x1f7d,1,126); (0x1fb0,0x1fb1,1,8); (0x1fbe,0x1fbe,1,(-7205));
    (0x1fd0,0x1fd1,1,8); (0x1fe0,0x1fe1,1,8); (0x1fe5,0x1fe5,1,7); (0x214e,0x214e,1,(-28));
    (0x2170,0x217f,1,(-16)); (0x2184,0x2184,1,(-1)); (0x24d0,0x24e9,1,(-26)); (0x2c30,0x2c5f,1,(-48));
    (0x2c61,0x2c61,1,(-1)); (0x2c65,0x2c65,1,(-10795)); (0x2c66,0x2c66,1,(-10792));
    (0x2c68,0x2c6c,2,(-1)); (0x2c73,0x2c73,1,(-1)); (0x2c76,0x2c76,1,(-1)); (0x2c81,0x2ce3,2,(-1));
    (0x2cec,0x2cee,2,(-1)); (0x2cf3,0x2cf3,1,(-1)); (0x2d00,0x2d25,1,(-7264));
    (0x2d27,0x2d27,1,(-7264)); (0x2d2d,0x2d2d,1,(-7264)); (0xa641,0xa66d,2,(-1));
    (0xa681,0xa69b,2,(-1)); (0xa723,0xa72f,2,(-1)); (0xa733,0xa76f,2,(-1)); (0xa77a,0xa77c,2,(-1));
    (0xa77f,0xa787,2,(-1)); (0xa78c,0xa78c,1,(-1)); (0xa791,0xa793,2,(-1)); (0xa794,0xa794,1,48);
    (0xa797,0xa7a9,2,(-1)); (0xa7b5,0xa7c3,2,(-1)); (0xa7c8,0xa7ca,2,(-1)); (0xa7d1,0xa7d1,1,(-1));
    (0xa7d7,0xa7d9,2,(-1)); (0xa7f6,0xa7f6,1,(-1)); (0xab53,0xab53,1,(-928));
    (0xab70,0xabbf,1,(-38864)); (0xff41,0xff5a,1,(-32)); (0x10428,0x1044f,1,(-40));
    (0x104d8,0x104fb,1,(-40)); (0x10597,0x105bb,2,(-39)); (0x10598,0x105a0,2,(-39));
    (0x105a4,0x105b0,2,(-39)); (0x105b4,0x105b8,2,(-39)); (0x105bc,0x105bc,1,(-39));
    (0x10cc0,0x10cf2,1,(-64)); (0x118c0,0x118df,1,(-32)); (0x16e60,0x16e7f,1,(-32));
    (0x1e922,0x1e943,1,(-34)) ].

(** Upper case of more than one character. *)
Definition to_upper_special : list (Z * list Z) :=
  [ (0xdf,[0x53;0x53]); (0x149,[0x2bc;0x4e]); (0x1f0,[0x4a;0x30c]); (0x390,[0x399;0x308;0x301]);
    (0x3b0,[0x3a5;0x308;0x301]); (0x587,[0x535;0x552]); (0x1e96,[0x48;0x331]); (0x1e97,[0x54;0x308]);
    (0x1e98,[0x57;0x30a]); (0x1e99,[0x59;0x30a]); (0x1e9a,[0x41;0x2be]); (0x1f50,[0x3a5;0x313]);
    (0x1f52,[0x3a5;0x313;0x300]); (0x1f54,[0x3a5;0x313;0x301]); (0x1f56,[0x3a5;0x313;0x342]);
    (0x1f80,[0x1f08;0x399]); (0x1f81,[0x1f09;0x399]); (0x1f82,[0x1f0a;0x399]); (0x1f83,[0x1f0b;0x399]);
    (0x1f84,[0x1f0c;0x399]); (0x1f85,[0x1f0d;0x399]); (0x1f86,[0x1f0e;0x399]); (0x1f87,[0x1f0f;0x399]);
    (0x1f88,[0x1f08;0x399]); (0x1f89,[0x1f09;0x399]); (0x1f8a,[0x1f0a;0x399]); (0x1f8b,[0x1f0b;0x399]);
    (0x1f8c,[0x1f0c;0x399]); (0x1f8d,[0x1f0d;0x399]); (0x1f8e,[0x1f0e;0x399]); (0x1f8f,[0x1f0f;0x399]);
    (0x1f90,[0x1f28;0x399]); (0x1f91,[0x1f29;0x399]); (0x1f92,[0x1f2a;0x399]); (0x1f93,[0x1f2b;0x399]);
    (0x1f94,[0x1f2c;0x399]); (0x1f95,[0x1f2d;0x399]); (0x1f96,[0x1f2e;0x399]); (0x1f97,[0x1f2f;0x399]);
    (0x1f98,[0x1f28;0x399]); (0x1f99,[0x1f29;0x399]); (0x1f9a,[0x1f2a;0x399]); (0x1f9b,[0x1f2b;0x399]);
    (0x1f9c,[0x1f2c;0x399]); (0x1f9d,[0x1f2d;0x399]); (0x1f9e,[0x1f2e;0x399]); (0x1f9f,[0x1f2f;0x399]);
    (0x1fa0,[0x1f68;0x399]); (0x1fa1,[0x1f69;0x399]); (0x1fa2,[0x1f6a;0x399]); (0x1fa3,[0x1f6b;0x399]);
    (0x1fa4,[0x1f6c;0x399]); (0x1fa5,[0x1f6d;0x399]); (0x1fa6,[0x1f6e;0x399]); (0x1fa7,[0x1f6f;0x399]);
    (0x1fa8,[0x1f68;0x399]); (0x1fa9,[0x1f69;0x399]); (0x1faa,[0x1f6a;0x399]); (0x1fab,[0x1f6b;0x399]);
    (0x1fac,[0x1f6c;0x399]); (0x1fad,[0x1f6d;0x399]); (0x1fae,[0x1f6e;0x399]); (0x1faf,[0x1f6f;0x399]);
    (0x1fb2,[0x1fba;0x399]); (0x1fb3,[0x391;0x399]); (0x1fb4,[0x386;0x399]); (0x1fb6,[0x391;0x342]);
    (0x1fb7,[0x391;0x342;0x399]); (0x1fbc,[0x391;0x399]); (0x1fc2,[0x1fca;0x399]);
    (0x1fc3,[0x397;0x399]); (0x1fc4,[0x389;0x399]); (0x1fc6,[0x397;0x342]);
    (0x1fc7,[0x397;0x342;0x399]); (0x1fcc,[0x397;0x399]); (0x1fd2,[0x399;0x308;0x300]);
    (0x1fd3,[0x399;0x308;0x301]); (0x1fd6,[0x399;0x342]); (0x1fd7,[0x399;0x308;0x342]);
    (0x1fe2,[0x3a5;0x308;0x300]); (0x1fe3,[0x3a5;0x308;0x301]); (0x1fe4,[0x3a1;0x313]);
    (0x1fe6,[0x3a5;0x342]); (0x1fe7,[0x3a5;0x308;0x342]); (0x1ff2,[0x1ffa;0x399]);
    (0x1ff3,[0x3a9;0x399]); (0x1ff4,[0x38f;0x399]); (0x1ff6,[0x3a9;0x342]);
    (0x1ff7,[0x3a9;0x342;0x399]); (0x1ffc,[0x3a9;0x399]); (0xfb00,[0x46;0x46]); (0xfb01,[0x46;0x49]);
    (0xfb02,[0x46;0x4c]); (0xfb03,[0x46;0x46;0x49]); (0xfb04,[0x46;0x46;0x4c]); (0xfb05,[0x53;0x54]);
    (0xfb06,[0x53;0x54]); (0xfb13,[0x544;0x546]); (0xfb14,[0x544;0x535]); (0xfb15,[0x544;0x53b]);
    (0xfb16,[0x54e;0x546]); (0xfb17,[0x544;0x53d]) ].

(** [Case_Ignorable], and [Cased] that is not. *)
Definition case_ignorable : list (Z * Z) :=
  [ (0x27,0x27); (0x2e,0x2e); (0x3a,0x3a); (0x5e,0x5e); (0x60,0x60); (0xa8,0xa8); (0xad,0xad);
    (0xaf,0xaf); (0xb4,0xb4); (0xb7,0xb8); (0x2b0,0x36f); (0x374,0x375); (0x37a,0x37a); (0x384,0x385);
    (0x387,0x387); (0x483,0x489); (0x559,0x559); (0x55f,0x55f); (0x591,0x5bd); (0x5bf,0x5bf);
    (0x5c1,0x5c2); (0x5c4,0x5c5); (0x5c7,0x5c7); (0x5f4,0x5f4); (0x600,0x605); (0x610,0x61a);
    (0x61c,0x61c); (0x640,0x640); (0x64b,0x65f); (0x670,0x670); (0x6d6,0x6dd); (0x6df,0x6e8);
    (0x6ea,0x6ed); (0x70f,0x70f); (0x711,0x711); (0x730,0x74a); (0x7a6,0x7b0); (0x7eb,0x7f5);
    (0x7fa,0x7fa); (0x7fd,0x7fd); (0x816,0x82d); (0x859,0x85b); (0x888,0x888); (0x890,0x891);
    (0x898,0x89f); (0x8c9,0x902); (0x93a,0x93a); (0x93c,0x93c); (0x941,0x948); (0x94d,0x94d);
    (0x951,0x957); (0x962,0x963); (0x971,0x971); (0x981,0x981); (0x9bc,0x9bc); (0x9c1,0x9c4);
    (0x9cd,0x9cd); (0x9e2,0x9e3); (0x9fe,0x9fe); (0xa01,0xa02); (0xa3c,0xa3c); (0xa41,0xa42);
    (0xa47,0xa48); (0xa4b,0xa4d); (0xa51,0xa51); (0xa70,0xa71); (0xa75,0xa75); (0xa81,0xa82);
    (0xabc,0xabc); (0xac1,0xac5); (0xac7,0xac8); (0xacd,0xacd); (0xae2,0xae3); (0xafa,0xaff);
    (0xb01,0xb01); (0xb3c,0xb3c); (0xb3f,0xb3f); (0xb41,0xb44); (0xb4d,0xb4d); (0xb55,0xb56);
    (0xb62,0xb63); (0xb82,0xb82); (0xbc0,0xbc0); (0xbcd,0xbcd); (0xc00,0xc00); (0xc04,0xc04);
    (0xc3c,0xc3c); (0xc3e,0xc40); (0xc46,0xc48); (0xc4a,0xc4d); (0xc55,0xc56); (0xc62,0xc63);
    (0xc81,0xc81); (0xcbc,0xcbc); (0xcbf,0xcbf); (0xcc6,0xcc6); (0xccc,0xccd); (0xce2,0xce3);
    (0xd00,0xd01); (0xd3b,0xd3c); (0xd41,0xd44); (0xd4d,0xd4d); (0xd62,0xd63); (0xd81,0xd81);
    (0xdca,0xdca); (0xdd2,0xdd4); (0xdd6,0xdd6); (0xe31,0xe31); (0xe34,0xe3a); (0xe46,0xe4e);
    (0xeb1,0xeb1); (0xeb4,0xebc); (0xec6,0xec6); (0xec8,0xecd); (0xf18,0xf19); (0xf35,0xf35);
    (0xf37,0xf37); (0xf39,0xf39); (0xf71,0xf7e); (0xf80,0xf84); (0xf86,0xf87); (0xf8d,0xf97);
    (0xf99,0xfbc); (0xfc6,0xfc6); (0x102d,0x1030); (0x1032,0x1037); (0x1039,0x103a); (0x103d,0x103e);
    (0x1058,0x1059); (0x105e,0x1060); (0x1071,0x1074); (0x1082,0x1082); (0x1085,0x1086);
    (0x108d,0x108d); (0x109d,0x109d); (0x10fc,0x10fc); (0x135d,0x135f); (0x1712,0x1714);
    (0x1732,0x1733); (0x1752,0x1753); (0x1772,0x1773); (0x17b4,0x17b5); (0x17b7,0x17bd);
    (0x17c6,0x17c6); (0x17c9,0x17d3); (0x17d7,0x17d7); (0x17dd,0x17dd); (0x180b,0x180f);
    (0x1843,0x1843); (0x1885,0x1886); (0x18a9,0x18a9); (0x1920,0x1922); (0x1927,0x1928);
    (0x1932,0x1932); (0x1939,0x193b); (0x1a17,0x1a18); (0x1a1b,0x1a1b); (0x1a56,0x1a56);
    (0x1a58,0x1a5e); (0x1a60,0x1a60); (0x1a62,0x1a62); (0x1a65,0x1a6c); (0x1a73,0x1a7c);
    (0x1a7f,0x1a7f); (0x1aa7,0x1aa7); (0x1ab0,0x1ace); (0x1b00,0x1b03); (0x1b34,0x1b34);
    (0x1b36,0x1b3a); (0x1b3c,0x1b3c); (0x1b42,0x1b42); (0x1b6b,0x1b73); (0x1b80,0x1b81);
    (0x1ba2,0x1ba5); (0x1ba8,0x1ba9); (0x1bab,0x1bad); (0x1be6,0x1be6); (0x1be8,0x1be9);
    (0x1bed,0x1bed); (0x1bef,0x1bf1); (0x1c2c,0x1c33); (0x1c36,0x1c37); (0x1c78,0x1c7d);
    (0x1cd0,0x1cd2); (0x1cd4,0x1ce0); (0x1ce2,0x1ce8); (0x1ced,0x1ced); (0x1cf4,0x1cf4);
    (0x1cf8,0x1cf9); (0x1d2c,0x1d6a); (0x1d78,0x1d78); (0x1d9b,0x1dff); (0x1fbd,0x1fbd);
    (0x1fbf,0x1fc1); (0x1fcd,0x1fcf); (0x1fdd,0x1fdf); (0x1fed,0x1fef); (0x1ffd,0x1ffe);
    (0x200b,0x200f); (0x2018,0x2019); (0x2024,0x2024); (0x2027,0x2027); (0x202a,0x202e);
    (0x2060,0x2064); (0x2066,0x206f); (0x2071,0x2071); (0x207f,0x207f); (0x2090,0x209c);
    (0x20d0,0x20f0); (0x2c7c,0x2c7d); (0x2cef,0x2cf1); (0x2d6f,0x2d6f); (0x2d7f,0x2d7f);
    (0x2de0,0x2dff); (0x2e2f,0x2e2f); (0x3005,0x3005); (0x302a,0x302d); (0x3031,0x3035);
    (0x303b,0x303b); (0x3099,0x309e); (0x30fc,0x30fe); (0xa015,0xa015); (0xa4f8,0xa4fd);
    (0xa60c,0xa60c); (0xa66f,0xa672); (0xa674,0xa67d); (0xa67f,0xa67f); (0xa69c,0xa69f);
    (0xa6f0,0xa6f1); (0xa700,0xa721); (0xa770,0xa770); (0xa788,0xa78a); (0xa7f2,0xa7f4);
    (0xa7f8,0xa7f9); (0xa802,0xa802); (0xa806,0xa806); (0xa80b,0xa80b); (0xa825,0xa826);
    (0xa82c,0xa82c); (0xa8c4,0xa8c5); (0xa8e0,0xa8f1); (0xa8ff,0xa8ff); (0xa926,0xa92d);
    (0xa947,0xa951); (0xa980,0xa982); (0xa9b3,0xa9b3); (0xa9b6,0xa9b9); (0xa9bc,0xa9bd);
    (0xa9cf,0xa9cf); (0xa9e5,0xa9e6); (0xaa29,0xaa2e); (0xaa31,0xaa32); (0xaa35,0xaa36);
    (0xaa43,0xaa43); (0xaa4c,0xaa4c); (0xaa70,0xaa70); (0xaa7c,0xaa7c); (0xaab0,0xaab0);
    (0xaab2,0xaab4); (0xaab7,0xaab8); (0xaabe,0xaabf); (0xaac1,0xaac1); (0xaadd,0xaadd);
    (0xaaec,0xaaed); (0xaaf3,0xaaf4); (0xaaf6,0xaaf6); (0xab5b,0xab5f); (0xab69,0xab6b);
    (0xabe5,0xabe5); (0xabe8,0xabe8); (0xabed,0xabed); (0xfb1e,0xfb1e); (0xfbb2,0xfbc2);
    (0xfe00,0xfe0f); (0xfe13,0xfe13); (0xfe20,0xfe2f); (0xfe52,0xfe52); (0xfe55,0xfe55);
    (0xfeff,0xfeff); (0xff07,0xff07); (0xff0e,0xff0e); (0xff1a,0xff1a); (0xff3e,0xff3e);
    (0xff40,0xff40); (0xff70,0xff70); (0xff9e,0xff9f); (0xffe3,0xffe3); (0xfff9,0xfffb);
    (0x101fd,0x101fd); (0x102e0,0x102e0); (0x10376,0x1037a); (0x10780,0x10785); (0x10787,0x107b0);
    (0x107b2,0x107ba); (0x10a01,0x10a03); (0x10a05,0x10a06); (0x10a0c,0x10a0f); (0x10a38,0x10a3a);
    (0x10a3f,0x10a3f); (0x10ae5,0x10ae6); (0x10d24,0x10d27); (0x10eab,0x10eac); (0x10f46,0x10f50);
    (0x10f82,0x10f85); (0x11001,0x11001); (0x11038,0x11046); (0x11070,0x11070); (0x11073,0x11074);
    (0x1107f,0x11081); (0x110b3,0x110b6); (0x110b9,0x110ba); (0x110bd,0x110bd); (0x110c2,0x110c2);
    (0x110cd,0x110cd); (0x11100,0x11102); (0x11127,0x1112b); (0x1112d,0x11134); (0x11173,0x11173);
    (0x11180,0x11181); (0x111b6,0x111be); (0x111c9,0x111cc); (0x111cf,0x111cf); (0x1122f,0x11231);
    (0x11234,0x11234); (0x11236,0x11237); (0x1123e,0x1123e); (0x112df,0x112df); (0x112e3,0x112ea);
    (0x11300,0x11301); (0x1133b,0x1133c); (0x11340,0x11340); (0x11366,0x1136c); (0x11370,0x11374);
    (0x11438,0x1143f); (0x11442,0x11444); (0x11446,0x11446); (0x1145e,0x1145e); (0x114b3,0x114b8);
    (0x114ba,0x114ba); (0x114bf,0x114c0); (0x114c2,0x114c3); (0x115b2,0x115b5); (0x115bc,0x115bd);
    (0x115bf,0x115c0); (0x115dc,0x115dd); (0x11633,0x1163a); (0x1163d,0x1163d); (0x1163f,0x11640);
    (0x116ab,0x116ab); (0x116ad,0x116ad); (0x116b0,0x116b5); (0x116b7,0x116b7); (0x1171d,0x1171f);
    (0x11722,0x11725); (0x11727,0x1172b); (0x1182f,0x11837); (0x11839,0x1183a); (0x1193b,0x1193c);
    (0x1193e,0x1193e); (0x11943,0x11943); (0x119d4,0x119d7); (0x119da,0x119db); (0x119e0,0x119e0);
    (0x11a01,0x11a0a); (0x11a33,0x11a38); (0x11a3b,0x11a3e); (0x11a47,0x11a47); (0x11a51,0x11a56);
    (0x11a59,0x11a5b); (0x11a8a,0x11a96); (0x11a98,0x11a99); (0x11c30,0x11c36); (0x11c38,0x11c3d);
    (0x11c3f,0x11c3f); (0x11c92,0x11ca7); (0x11caa,0x11cb0); (0x11cb2,0x11cb3); (0x11cb5,0x11cb6);
    (0x11d31,0x11d36); (0x11d3a,0x11d3a); (0x11d3c,0x11d3d); (0x11d3f,0x11d45); (0x11d47,0x11d47);
    (0x11d90,0x11d91); (0x11d95,0x11d95); (0x11d97,0x11d97); (0x11ef3,0x11ef4); (0x13430,0x13438);
    (0x16af0,0x16af4); (0x16b30,0x16b36); (0x16b40,0x16b43); (0x16f4f,0x16f4f); (0x16f8f,0x16f9f);
    (0x16fe0,0x16fe1); (0x16fe3,0x16fe4); (0x1aff0,0x1aff3); (0x1aff5,0x1affb); (0x1affd,0x1affe);
    (0x1bc9d,0x1bc9e); (0x1bca0,0x1bca3); (0x1cf00,0x1cf2d); (0x1cf30,0x1cf46); (0x1d167,0x1d169);
    (0x1d173,0x1d182); (0x1d185,0x1d18b); (0x1d1aa,0x1d1ad); (0x1d242,0x1d244); (0x1da00,0x1da36);
    (0x1da3b,0x1da6c); (0x1da75,0x1da75); (0x1da84,0x1da84); (0x1da9b,0x1da9f); (0x1daa1,0x1daaf);
    (0x1e000,0x1e006); (0x1e008,0x1e018); (0x1e01b,0x1e021); (0x1e023,0x1e024); (0x1e026,0x1e02a);
    (0x1e130,0x1e13d); (0x1e2ae,0x1e2ae); (0x1e2ec,0x1e2ef); (0x1e8d0,0x1e8d6); (0x1e944,0x1e94b);
    (0x1f3fb,0x1f3ff); (0xe0001,0xe0001); (0xe0020,0xe007f); (0xe0100,0xe01ef) ].

Definition cased : list (Z * Z) :=
  [ (0x41,0x5a); (0x61,0x7a); (0xaa,0xaa); (0xb5,0xb5); (0xba,0xba); (0xc0,0xd6); (0xd8,0xf6);
    (0xf8,0x1ba); (0x1bc,0x1bf); (0x1c4,0x293); (0x295,0x2af); (0x370,0x373); (0x376,0x377);
    (0x37b,0x37d); (0x37f,0x37f); (0x386,0x386); (0x388,0x38a); (0x38c,0x38c); (0x38e,0x3a1);
    (0x3a3,0x3f5); (0x3f7,0x481); (0x48a,0x52f); (0x531,0x556); (0x560,0x588); (0x10a0,0x10c5);
    (0x10c7,0x10c7); (0x10cd,0x10cd); (0x10d0,0x10fa); (0x10fd,0x10ff); (0x13a0,0x13f5);
    (0x13f8,0x13fd); (0x1c80,0x1c88); (0x1c90,0x1cba); (0x1cbd,0x1cbf); (0x1d00,0x1d2b);
    (0x1d6b,0x1d77); (0x1d79,0x1d9a); (0x1e00,0x1f15); (0x1f18,0x1f1d); (0x1f20,0x1f45);
    (0x1f48,0x1f4d); (0x1f50,0x1f57); (0x1f59,0x1f59); (0x1f5b,0x1f5b); (0x1f5d,0x1f5d);
    (0x1f5f,0x1f7d); (0x1f80,0x1fb4); (0x1fb6,0x1fbc); (0x1fbe,0x1fbe); (0x1fc2,0x1fc4);
    (0x1fc6,0x1fcc); (0x1fd0,0x1fd3); (0x1fd6,0x1fdb); (0x1fe0,0x1fec); (0x1ff2,0x1ff4);
    (0x1ff6,0x1ffc); (0x2102,0x2102); (0x2107,0x2107); (0x210a,0x2113); (0x2115,0x2115);
    (0x2119,0x211d); (0x2124,0x2124); (0x2126,0x2126); (0x2128,0x2128); (0x212a,0x212d);
    (0x212f,0x2134); (0x2139,0x2139); (0x213c,0x213f); (0x2145,0x2149); (0x214e,0x214e);
    (0x2160,0x217f); (0x2183,0x2184); (0x24b6,0x24e9); (0x2c00,0x2c7b); (0x2c7e,0x2ce4);
    (0x2ceb,0x2cee); (0x2cf2,0x2cf3); (0x2d00,0x2d25); (0x2d27,0x2d27); (0x2d2d,0x2d2d);
    (0xa640,0xa66d); (0xa680,0xa69b); (0xa722,0xa76f); (0xa771,0xa787); (0xa78b,0xa78e);
    (0xa790,0xa7ca); (0xa7d0,0xa7d1); (0xa7d3,0xa7d3); (0xa7d5,0xa7d9); (0xa7f5,0xa7f6);
    (0xa7fa,0xa7fa); (0xab30,0xab5a); (0xab60,0xab68); (0xab70,0xabbf); (0xfb00,0xfb06);
    (0xfb13,0xfb17); (0xff21,0xff3a); (0xff41,0xff5a); (0x10400,0x1044f); (0x104b0,0x104d3);
    (0x104d8,0x104fb); (0x10570,0x1057a); (0x1057c,0x1058a); (0x1058c,0x10592); (0x10594,0x10595);
    (0x10597,0x105a1); (0x105a3,0x105b1); (0x105b3,0x105b9); (0x105bb,0x105bc); (0x10c80,0x10cb2);
    (0x10cc0,0x10cf2); (0x118a0,0x118df); (0x16e40,0x16e7f); (0x1d400,0x1d454); (0x1d456,0x1d49c);
    (0x1d49e,0x1d49f); (0x1d4a2,0x1d4a2); (0x1d4a5,0x1d4a6); (0x1d4a9,0x1d4ac); (0x1d4ae,0x1d4b9);
    (0x1d4bb,0x1d4bb); (0x1d4bd,0x1d4c3); (0x1d4c5,0x1d505); (0x1d507,0x1d50a); (0x1d50d,0x1d514);
    (0x1d516,0x1d51c); (0x1d51e,0x1d539); (0x1d53b,0x1d53e); (0x1d540,0x1d544); (0x1d546,0x1d546);
    (0x1d54a,0x1d550); (0x1d552,0x1d6a5); (0x1d6a8,0x1d6c0); (0x1d6c2,0x1d6da); (0x1d6dc,0x1d6fa);
    (0x1d6fc,0x1d714); (0x1d716,0x1d734); (0x1d736,0x1d74e); (0x1d750,0x1d76e); (0x1d770,0x1d788);
    (0x1d78a,0x1d7a8); (0x1d7aa,0x1d7c2); (0x1d7c4,0x1d7cb); (0x1df00,0x1df09); (0x1df0b,0x1df1e);
    (0x1e900,0x1e943); (0x1f130,0x1f149); (0x1f150,0x1f169); (0x1f170,0x1f189) ].

(** ** Conversion *)

Definition map_case (table : list CaseRange) (c : Z) : Z :=
  match List.find (fun '(first, last, step, _) =>
          (first <=? c) && (c <=? last) && ((c - first) mod step =? 0)) table with
  | Some (_, _, _, delta) => c + delta
  | None => c
  end.

Definition in_ranges (ranges : list (Z * Z)) (c : Z) : bool :=
  existsb (fun '(first, last) => (first <=? c) && (c <=? last)) ranges.

(** The code units of a code point. *)
Definition utf16_units (c : Z) : jstr :=
  if c <? 0x10000 then [c]
  else [0xd800 + Z.shiftr (c - 0x10000) 10; 0xdc00 + Z.land (c - 0x10000) 1023].

Fixpoint cased_first (l : list Z) : bool :=
  match l with
  | [] => false
  | c :: l' => if in_ranges case_ignorable c then cased_first l' else in_ranges cased c
  end.

Definition lower_ascii (c : Z) : Z := if (65 <=? c) && (c <=? 90) then c + 32 else c.
Definition upper_ascii (c : Z) : Z := if (97 <=? c) && (c <=? 122) then c - 32 else c.

(** [before]: the code points before [c], the nearest first. *)
Definition lower_point (before after : list Z) (c : Z) : list Z :=
  if c <? 0x80 then [lower_ascii c]
  else if c =? 0x130 then [0x69; 0x307]
  else if c =? 0x3a3 then (if cased_first before && negb (cased_first after) then [0x3c2] else [0x3c3])
  else [map_case to_lower c].

Definition upper_point (c : Z) : list Z :=
  if c <? 0x80 then [upper_ascii c]
  else match List.find (fun p => p.1 =? c) to_upper_special with
       | Some p => p.2
       | None => [map_case to_upper c]
       end.

Fixpoint lower_points (before l : list Z) : list Z :=
  match l with
  | [] => []
  | c :: l' => lower_point before l' c ++ lower_points (c :: before) l'
  end.

(** [s.toLowerCase()] and [s.toUpperCase()]. *)
Definition lower (s : jstr) : jstr := concat (map utf16_units (lower_points [] (code_points s))).
Definition upper (s : jstr) : jstr := concat (map utf16_units (concat (map upper_point (code_points s)))).

(** ** Samples *)

Example lower_samples :
  lower (js "ETag") = js "etag" /\ lower [0x212a] = js "k" /\ lower [0x130] = [0x69; 0x307] /\
  lower [0xc9; 0x416; 0x1e9e] = [0xe9; 0x436; 0xdf] /\
  (* ODOS with a final sigma, and the sigma alone *)
  lower [0x39f; 0x394; 0x39f; 0x3a3] = [0x3bf; 0x3b4; 0x3bf; 0x3c2] /\ lower [0x3a3] = [0x3c3] /\
  (* a Deseret letter, outside the first plane *)
  lower [0xd801; 0xdc00] = [0xd801; 0xdc28].
Proof. split_and!; vm_compute; reflexivity. Qed.

Example upper_samples :
  upper (js "patch") = js "PATCH" /\ upper [0xdf] = js "SS" /\ upper [0xe9; 0x131] = [0xc9; 0x49].
Proof. split_and!; vm_compute; reflexivity. Qed.

(** On ASCII text only the letters change. *)
Lemma code_points_ascii s : Forall (fun c => c < 0x80) s -> code_points s = s.
Proof.
  induction 1 as [|c s Hc Hs IH]; [done|]. destruct s as [|d s]; [done|].
  assert (Hh : is_high c = false) by (unfold is_high; apply andb_false_iff; left; apply Z.leb_gt; lia).
  cbn [code_points] in *. by rewrite Hh, <-IH at 1.
Qed.

Lemma lower_points_ascii before s :
  Forall (fun c => c < 0x80) s -> lower_points before s = map lower_ascii s.
Proof.
  intros H. revert before. induction H as [|c s Hc Hs IH]; intros before; [done|].
  cbn [lower_points map]. unfold lower_point. by rewrite (proj2 (Z.ltb_lt _ _) Hc), IH.
Qed.

Lemma lower_ascii_text s : Forall (fun c => c < 0x80) s -> lower s = map lower_ascii s.
Proof.
  intros H. unfold lower. rewrite code_points_ascii, lower_points_ascii by done.
  induction H as [|c s Hc Hs IH]; [done|]. cbn [map concat]. rewrite IH. unfold utf16_units, lower_ascii.
  destruct (_ && _) eqn:E; rewrite (proj2 (Z.ltb_lt _ _)); [done| |done|lia].
  apply andb_true_iff in E as [_ ?%Z.leb_le]. lia.
Qed.
