(* ===== verification/William3.v ===== *)
(** * The WILLIAM3 digest

    Models [src/integrations/willow-drop/william3.ts]: the compression
    function on 32-bit words, the absorption of blocks, and the Bab tree over
    1024-byte chunks.  A [Uint32Array] is a list of integers whose writes are
    reduced modulo 2^32; a [Uint8Array] is a list of bytes.

    The theorems relate the recursive digest to the Bab tree of the payload
    (an abstract specification given here as an inductive predicate), and
    bound what comes out of it. *)
From S2P Require Import Prelude Encoding.
Local Open Scope Z_scope.

(* src: integrations/willow-drop/william3.ts 17-17 CHUNK_SIZE *)
Definition CHUNK_SIZE : Z := 1024.
(* src: integrations/willow-drop/william3.ts 18-18 BLOCK_LEN *)
Definition BLOCK_LEN : Z := 64.

(* src: integrations/willow-drop/william3.ts 20-23 IV *)
Definition IV : list Z :=
  [0xc88f633b; 0x4168fbf2; 0x6ba32583; 0xb0ff1847; 0xac57e47d; 0xa8931330;
   0x796a4645; 0x6b28a3ee].

(* src: integrations/willow-drop/william3.ts 25-33 MSG_SCHEDULE *)
Definition MSG_SCHEDULE : list (list nat) :=
  [[0; 1; 2; 3; 4; 5; 6; 7; 8; 9; 10; 11; 12; 13; 14; 15];
   [2; 6; 3; 10; 7; 0; 4; 13; 1; 11; 12; 5; 9; 14; 15; 8];
   [3; 4; 10; 12; 13; 2; 7; 14; 6; 5; 9; 0; 11; 15; 8; 1];
   [10; 7; 12; 9; 14; 3; 13; 15; 4; 0; 11; 2; 5; 8; 1; 6];
   [12; 13; 9; 11; 15; 10; 14; 8; 7; 2; 5; 3; 0; 1; 6; 4];
   [9; 14; 11; 5; 8; 12; 15; 1; 13; 3; 0; 10; 2; 6; 4; 7];
   [11; 15; 5; 0; 1; 9; 8; 6; 14; 10; 2; 12; 3; 4; 7; 13]]%nat.

(* src: integrations/willow-drop/william3.ts 35-35 CHUNK_START *)
Definition CHUNK_START : Z := 1.
(* src: integrations/willow-drop/william3.ts 36-36 CHUNK_END *)
Definition CHUNK_END : Z := 2.
(* src: integrations/willow-drop/william3.ts 37-37 PARENT *)
Definition PARENT : Z := 4.
(* src: integrations/willow-drop/william3.ts 38-38 ROOT *)
Definition ROOT : Z := 8.

(* src: integrations/willow-drop/william3.ts 40-40 rotr *)
Definition rotr (x n : Z) : Z := u32 (js_or (js_ushr x n) (js_shl x (32 - n))).

(** [s[i] = v] on a [Uint32Array] of the sixteen state words. *)
Definition set_word (i : nat) (v : Z) (s : list Z) : list Z := <[i := u32 v]> s.

(* src: integrations/willow-drop/william3.ts 42-59 g *)
Definition g (s : list Z) (a b c d : nat) (x y : Z) : list Z :=
  let s := set_word a (s !!! a + s !!! b + x) s in
  let s := set_word d (rotr (js_xor (s !!! d) (s !!! a)) 16) s in
  let s := set_word c (s !!! c + s !!! d) s in
  let s := set_word b (rotr (js_xor (s !!! b) (s !!! c)) 12) s in
  let s := set_word a (s !!! a + s !!! b + y) s in
  let s := set_word d (rotr (js_xor (s !!! d) (s !!! a)) 8) s in
  let s := set_word c (s !!! c + s !!! d) s in
  set_word b (rotr (js_xor (s !!! b) (s !!! c)) 7) s.

(** The little-endian word [i] of a block. *)
Definition block_word (block : list Z) (i : nat) : Z :=
  u32 (js_or (js_or (js_or (block !!! (i * 4)%nat)
                           (js_shl (block !!! (i * 4 + 1)%nat) 8))
                    (js_shl (block !!! (i * 4 + 2)%nat) 16))
             (js_shl (block !!! (i * 4 + 3)%nat) 24)).

(** One iteration of the rounds' loop. *)
Definition round (m s : list Z) (schedule : list nat) : list Z :=
  let w i := m !!! (schedule !!! i) in
  let s := g s 0 4 8 12 (w 0%nat) (w 1%nat) in
  let s := g s 1 5 9 13 (w 2%nat) (w 3%nat) in
  let s := g s 2 6 10 14 (w 4%nat) (w 5%nat) in
  let s := g s 3 7 11 15 (w 6%nat) (w 7%nat) in
  let s := g s 0 5 10 15 (w 8%nat) (w 9%nat) in
  let s := g s 1 6 11 12 (w 10%nat) (w 11%nat) in
  let s := g s 2 7 8 13 (w 12%nat) (w 13%nat) in
  g s 3 4 9 14 (w 14%nat) (w 15%nat).

(* src: integrations/willow-drop/william3.ts 61-103 compress *)
Definition compress (cv block : list Z) (blockLen counter flags : Z) : list Z :=
  let m := map (block_word block) (seq 0 16) in
  let s := cv ++ take 4 IV ++
    map u32 [Z.land counter 0xffffffff; Z.land (Z.shiftr counter 32) 0xffffffff;
             blockLen; flags] in
  let s := fold_left (round m) MSG_SCHEDULE s in
  map (fun i => u32 (js_xor (s !!! i) (s !!! (i + 8)%nat))) (seq 0 8).

(** [new Uint8Array(BLOCK_LEN)] with [l] copied to its start. *)
Definition zero_padded (l : list Z) : list Z :=
  l ++ replicate (Z.to_nat BLOCK_LEN - length l) 0.

(** One iteration of [hash1]'s loop, for the block at [offset]: the chaining
    value and [blockFlags]. *)
Definition absorb (input : list Z) (counter flags flagsEnd : Z)
    (st : list Z * Z) (offset : nat) : list Z * Z :=
  let '(cv, blockFlags) := st in
  let rest := len input - Z.of_nat offset in
  let block := zero_padded (take (Z.to_nat (Z.min rest BLOCK_LEN)) (drop offset input)) in
  let blockFlags := if rest <=? BLOCK_LEN then Z.lor blockFlags flagsEnd else blockFlags in
  (compress cv block (Z.min rest BLOCK_LEN) counter blockFlags, flags).

(** The offsets [0, 64, ...] below [input.length]. *)
Definition block_offsets (input : list Z) : list nat :=
  map (fun i => (i * 64)%nat) (seq 0 (Z.to_nat ((len input + 63) / 64))).

(** The bytes of the words, little-endian. *)
Definition word_bytes (w : Z) : list Z :=
  [js_and w 0xff; js_and (js_ushr w 8) 0xff; js_and (js_ushr w 16) 0xff;
   js_and (js_ushr w 24) 0xff].

(* src: integrations/willow-drop/william3.ts 105-139 hash1 *)
Definition hash1 (input : list Z) (counter flags flagsStart flagsEnd : Z) : list Z :=
  let blockFlags := Z.lor flags flagsStart in
  let cv :=
    if len input =? 0 then
      compress IV (zero_padded []) 0 counter (Z.lor blockFlags flagsEnd)
    else fst (fold_left (absorb input counter flags flagsEnd) (block_offsets input)
                (IV, blockFlags)) in
  concat (map word_bytes cv).

(* src: integrations/willow-drop/william3.ts 141-142 hashChunk *)
Definition hashChunk (chunk : list Z) (isRoot : bool) : list Z :=
  hash1 chunk 0 0 CHUNK_START (Z.lor CHUNK_END (if isRoot then ROOT else 0)).

(* src: integrations/willow-drop/william3.ts 144-155 hashInner *)
Definition hashInner (left right : list Z) (length : Z) (isRoot : bool) : list Z :=
  hash1 (left ++ right) length (Z.lor PARENT (if isRoot then ROOT else 0)) 0 0.

(** [while (left * 2 < chunks) left *= 2]; [None] when the fuel runs out. *)
Fixpoint left_chunks (fuel : nat) (left chunks : Z) : option Z :=
  match fuel with
  | O => None
  | S fuel' => if left * 2 <? chunks then left_chunks fuel' (left * 2) chunks else Some left
  end.

(* src: integrations/willow-drop/william3.ts 157-171 label *)
Fixpoint label (fuel : nat) (bytes : list Z) (chunks : Z) (isRoot : bool) : option (list Z) :=
  match fuel with
  | O => None
  | S fuel' =>
      if chunks <=? 1 then Some (hashChunk bytes isRoot)
      else
        left ← left_chunks fuel 1 chunks;
        let split := Z.to_nat (left * CHUNK_SIZE) in
        l ← label fuel' (take split bytes) left false;
        r ← label fuel' (drop split bytes) (chunks - left) false;
        Some (hashInner l r (len bytes) isRoot)
  end.

(** [Math.max(1, Math.ceil(bytes.length / CHUNK_SIZE))]. *)
Definition chunk_count (bytes : list Z) : Z :=
  Z.max 1 ((len bytes + (CHUNK_SIZE - 1)) / CHUNK_SIZE).

(* src: integrations/willow-drop/william3.ts 173-176 william3 *)
Definition william3 (bytes : list Z) : option (list Z) :=
  label (Z.to_nat (chunk_count bytes)) bytes (chunk_count bytes) true.

(** The digest of no bytes, computed from the definitions above. *)
Example william3_empty :
  william3 [] = Some
    [0x96; 0xd3; 0x4c; 0x54; 0x78; 0x45; 0x82; 0x31; 0xe3; 0x64; 0x76; 0x79; 0x52; 0xaa; 0xea;
     0x02; 0xa3; 0x1d; 0x22; 0x03; 0xc6; 0x6f; 0x43; 0x65; 0x69; 0x2e; 0xf9; 0x1f; 0x35; 0x10;
     0x68; 0xd2].
Proof. vm_compute. reflexivity. Qed.

Example william3_sights :
  william3 (js "See all the sights!") = Some
    [91; 29; 243; 211; 140; 181; 127; 138; 116; 79; 56; 47; 85; 50; 157; 82; 55; 192; 253; 122;
     72; 250; 70; 43; 56; 116; 99; 53; 188; 85; 83; 234].
Proof. vm_compute. reflexivity. Qed.

(** ** Output *)

Lemma word_bytes_ok w : Forall is_byte (word_bytes w).
Proof.
  assert (H : forall x, is_byte (js_and x 0xff)).
  { intros x. unfold js_and, is_byte. rewrite (i32_small 0xff) by lia.
    change 0xff with (Z.ones 8). rewrite Z.land_ones by lia. apply Z.mod_pos_bound. lia. }
  unfold word_bytes. rewrite !List.Forall_cons_iff. split_and!; auto.
Qed.

Lemma length_compress cv block blockLen counter flags :
  length (compress cv block blockLen counter flags) = 8%nat.
Proof. unfold compress. by rewrite length_map, length_seq. Qed.

Lemma absorb_cv input counter flags flagsEnd offsets cv blockFlags :
  length cv = 8%nat ->
  length (fst (fold_left (absorb input counter flags flagsEnd) offsets (cv, blockFlags))) = 8%nat.
Proof.
  revert cv blockFlags; induction offsets as [|o offsets IH]; intros cv bf Hcv; [done|].
  cbn [fold_left]. unfold absorb at 2. apply IH, length_compress.
Qed.

Lemma word_bytes_concat cv :
  length (concat (map word_bytes cv)) = (4 * length cv)%nat /\
  Forall is_byte (concat (map word_bytes cv)).
Proof.
  induction cv as [|w cv [IH1 IH2]]; [by split|].
  cbn [map concat length]. rewrite length_app, IH1. split; [cbn; lia|].
  apply Forall_app. split; [apply word_bytes_ok|done].
Qed.

Lemma hash1_digest input counter flags flagsStart flagsEnd :
  length (hash1 input counter flags flagsStart flagsEnd) = 32%nat /\
  Forall is_byte (hash1 input counter flags flagsStart flagsEnd).
Proof.
  unfold hash1. cbn zeta.
  match goal with |- context [map word_bytes ?cv] =>
    destruct (word_bytes_concat cv) as [H1 H2]; rewrite H1; split; [|done];
    enough (length cv = 8%nat) by lia end.
  case_match; [apply length_compress|by apply absorb_cv].
Qed.

(** ** The Bab tree *)

(** The tree of chunks a payload is hashed as, and its digest. *)
Inductive btree :=
| Chunk (bytes : list Z)
| Inner (left right : btree).

Fixpoint bytes_of (t : btree) : list Z :=
  match t with Chunk b => b | Inner l r => bytes_of l ++ bytes_of r end.

Fixpoint digest (isRoot : bool) (t : btree) : list Z :=
  match t with
  | Chunk b => hashChunk b isRoot
  | Inner l r => hashInner (digest false l) (digest false r) (len (bytes_of t)) isRoot
  end.

(** Bab's shape: a chunk holds at most 1024 bytes; the left subtree of an
    inner node is complete, over a power of two of full chunks, and the right
    one is neither empty nor longer. *)
Inductive bab_shape : btree -> Prop :=
| shape_chunk b : len b <= CHUNK_SIZE -> bab_shape (Chunk b)
| shape_inner l r k :
    0 <= k -> bab_shape l -> bab_shape r ->
    len (bytes_of l) = 2 ^ k * CHUNK_SIZE ->
    0 < len (bytes_of r) <= 2 ^ k * CHUNK_SIZE ->
    bab_shape (Inner l r).

Lemma digest_ok isRoot t : length (digest isRoot t) = 32%nat /\ Forall is_byte (digest isRoot t).
Proof. destruct t; apply hash1_digest. Qed.

(** The loop finds the largest power of two below [chunks]. *)
Lemma left_chunks_spec fuel k chunks :
  0 <= k -> 2 ^ k < chunks -> chunks < 2 ^ k + Z.of_nat fuel ->
  exists j, k <= j /\ left_chunks fuel (2 ^ k) chunks = Some (2 ^ j)
    /\ 2 ^ j < chunks <= 2 * 2 ^ j.
Proof.
  revert k; induction fuel as [|fuel IH]; intros k Hk Hlt Hfuel; [lia|].
  cbn [left_chunks]. replace (2 ^ k * 2) with (2 ^ (k + 1)) by (rewrite Z.pow_add_r; lia).
  case_match eqn:Hc; breflect.
  - destruct (IH (k + 1)) as (j & Hj & -> & Hb); [lia|done| |exists j; split_and!; [lia|done|lia..]].
    pose proof (Z.pow_pos_nonneg 2 k). rewrite Z.pow_add_r in * by lia. lia.
  - exists k. rewrite Z.pow_add_r in Hc by lia. split_and!; [lia|done|lia..].
Qed.

(** [chunks] is the number of chunks that [n] bytes fill. *)
Definition fills (n chunks : Z) : Prop :=
  1 <= chunks /\ n <= chunks * CHUNK_SIZE /\ (1 < chunks -> (chunks - 1) * CHUNK_SIZE < n).

Lemma label_tree fuel bytes chunks isRoot :
  fills (len bytes) chunks -> chunks <= Z.of_nat fuel ->
  exists t, bab_shape t /\ bytes_of t = bytes /\
    label fuel bytes chunks isRoot = Some (digest isRoot t).
Proof.
  unfold fills, CHUNK_SIZE.
  revert bytes chunks isRoot; induction fuel as [|fuel IH];
    intros bytes chunks isRoot (Hpos & Hle & Hgt) Hfuel; [lia|].
  cbn [label]. case_match eqn:Hc; breflect.
  { exists (Chunk bytes). split_and!; [|done..]. constructor. unfold CHUNK_SIZE. lia. }
  destruct (left_chunks_spec (S fuel) 0 chunks) as (j & Hj & Hleft & Hb); [lia..|].
  change (2 ^ 0) with 1 in Hleft. rewrite Hleft. cbn [mbind option_bind].
  pose proof (Z.pow_pos_nonneg 2 j ltac:(lia) Hj).
  unfold len in *. unfold CHUNK_SIZE. set (n := Z.to_nat (2 ^ j * 1024)).
  assert (length (take n bytes) = n) as Hl by (rewrite length_take; lia).
  pose proof (length_drop bytes n) as Hr.
  destruct (IH (take n bytes) (2 ^ j) false) as (l & Hsl & Hbl & ->); [lia..|].
  destruct (IH (drop n bytes) (chunks - 2 ^ j) false) as (r & Hsr & Hbr & ->); [lia..|].
  cbn [mbind option_bind]. exists (Inner l r).
  assert (bytes_of l ++ bytes_of r = bytes) as Hbytes by (rewrite Hbl, Hbr; apply take_drop).
  split_and!; [|done|cbn [digest bytes_of]; by rewrite Hbytes].
  apply shape_inner with j; unfold len, CHUNK_SIZE in *; rewrite ?Hbl, ?Hbr; try done; lia.
Qed.

Lemma chunk_count_fills bytes : fills (len bytes) (chunk_count bytes).
Proof. unfold fills, chunk_count, CHUNK_SIZE. pose proof (len_nonneg bytes). dlia. Qed.

(** At most one power of two is below a number and at least half of it. *)
Lemma pow2_pinned k k' n :
  0 <= k -> 0 <= k' ->
  2 ^ k * 1024 < n <= 2 * (2 ^ k * 1024) -> 2 ^ k' * 1024 < n <= 2 * (2 ^ k' * 1024) -> k = k'.
Proof.
  enough (H : forall i j, 0 <= i -> i < j -> 2 ^ j * 1024 < n -> n <= 2 * (2 ^ i * 1024) -> False).
  { intros Hk Hk' [H1 H2] [H3 H4]. destruct (Z.lt_trichotomy k k') as [Hlt|[?|Hlt]]; [|done|].
    - destruct (H k k'); lia.
    - destruct (H k' k); lia. }
  intros i j Hi Hij H1 H2. assert (2 ^ (i + 1) <= 2 ^ j) by (apply Z.pow_le_mono_r; lia).
  rewrite Z.pow_add_r in * by lia. lia.
Qed.

(** The payload determines its tree. *)
Lemma bab_shape_unique t1 t2 :
  bab_shape t1 -> bab_shape t2 -> bytes_of t1 = bytes_of t2 -> t1 = t2.
Proof.
  intros H1; revert t2; induction H1 as [b Hb|l r k Hk Hl IHl Hr IHr Hll Hlr];
    intros t2 [b' Hb'|l' r' k' Hk' Hl' Hr' Hll' Hlr'] Heq; cbn in Heq; subst.
  - done.
  - exfalso. rewrite len_app in Hb. unfold CHUNK_SIZE in *.
    pose proof (Z.pow_pos_nonneg 2 k'). lia.
  - exfalso. rewrite len_app in Hb'. unfold CHUNK_SIZE in *.
    pose proof (Z.pow_pos_nonneg 2 k). lia.
  - pose proof (f_equal len Heq) as Hlen. rewrite !len_app in Hlen. unfold CHUNK_SIZE in *.
    assert (k = k') as <-.
    { apply (pow2_pinned k k' (len (bytes_of l) + len (bytes_of r))); lia. }
    assert (length (bytes_of l) = length (bytes_of l')) as Hn by (unfold len in *; lia).
    apply app_inj_1 in Heq as [Heql Heqr]; [|done].
    by rewrite (IHl l'), (IHr r').
Qed.

Lemma william3_total bytes :
  exists d, william3 bytes = Some d /\ length d = 32%nat /\ Forall is_byte d.
Proof.
  destruct (label_tree (Z.to_nat (chunk_count bytes)) bytes (chunk_count bytes) true)
    as (t & _ & _ & Hlabel); [apply chunk_count_fills|lia|].
  exists (digest true t). split; [done|apply digest_ok].
Qed.

(** C39 (refinement). [william3] terminates on every payload and returns the
    digest of the payload's Bab tree: exactly one tree has Bab's shape (chunks
    of at most 1024 bytes, complete left subtrees over the largest power of
    two) and the payload's bytes in order, and [william3] hashes that tree,
    its root as the root; the digest is 32 bytes. *)
Theorem william3_tree (bytes : list Z) :
  exists t, bab_shape t /\ bytes_of t = bytes /\
    (forall t', bab_shape t' -> bytes_of t' = bytes -> t' = t) /\
    william3 bytes = Some (digest true t) /\
    length (digest true t) = 32%nat /\ Forall is_byte (digest true t).
Proof.
  destruct (label_tree (Z.to_nat (chunk_count bytes)) bytes (chunk_count bytes) true)
    as (t & Hshape & Hbytes & Hlabel); [apply chunk_count_fills|lia|].
  exists t. split_and!; [done|done| |done|apply digest_ok|apply digest_ok].
  intros t' Ht' Heq. apply bab_shape_unique; [done..|congruence].
Qed.
