(* ===== verification/Drop.v ===== *)
(** * Decoding and verifying a drop

    Models [src/integrations/willow-drop/drop.ts]: the entries of a Willow
    drop, their write capabilities and signatures, and the loop of
    [decodeDrop] with its error handling.  Ed25519 verification is the
    imported [@noble/ed25519]: a parameter [verify] that answers, or throws
    ([None]).  Nothing is assumed of it.

    The theorems: every entry of an accepted drop is authorised and its
    payload matches its digest; every drop written by the format's absolute
    encoding of authorised entries is read back exactly; the loop always ends. *)
From S2P Require Import Prelude Encoding William3.
Local Open Scope Z_scope.

(* src: integrations/willow-drop/drop.ts 33-34 MAX_ENTRIES *)
Definition MAX_ENTRIES : nat := 1000.

(* src: integrations/willow-drop/drop.ts 36-38 Capability *)
Inductive Capability :=
| Communal
| Owned (userKey initialAuthorisation : list Z).

(* src: integrations/willow-drop/drop.ts 40-53 DropEntry *)
Record DropEntry := mkDropEntry {
  namespace : list Z;
  subspace : list Z;
  path : Path;
  timestamp : Z;
  payloadLength : Z;
  payloadDigest : list Z;
  capability : Capability;
  communal : bool;
  payload : option (list Z);
}.

(** The digest as the code uses it; [william3] always returns one. *)
Definition digest_of (bytes : list Z) : list Z := default [] (william3 bytes).

(** [hexBytes] of the literal, evaluated. *)
(* src: integrations/willow-drop/drop.ts 58-60 DEFAULT_ID *)
Definition DEFAULT_ID : list Z :=
  [0x93; 0x4e; 0x60; 0x21; 0x33; 0x9e; 0x1f; 0x01; 0x3b; 0xa9; 0x49; 0x00; 0xed; 0xc2; 0x5d;
   0x8d; 0x74; 0xc0; 0xb4; 0xe5; 0x73; 0x76; 0x89; 0x10; 0xae; 0x0f; 0x50; 0x7d; 0x8c; 0x81;
   0x73; 0x18].

(* src: integrations/willow-drop/drop.ts 61-70 DEFAULT_ENTRY *)
Definition DEFAULT_ENTRY : DropEntry :=
  mkDropEntry DEFAULT_ID DEFAULT_ID [] 0 0 (digest_of []) Communal true None.

(* src: integrations/willow-drop/drop.ts 72-73 equal *)
Definition equal (a b : list Z) : bool :=
  (len a =? len b) && forallb (fun '(x, y) => x =? y) (zip a b).

(* src: integrations/willow-drop/drop.ts 75-75 isCommunal *)
Definition isCommunal (namespace : list Z) : bool := (namespace !!! 31%nat) mod 2 =? 0.

(* src: integrations/willow-drop/drop.ts 86-96 encodeEntry *)
Definition encodeEntry (namespace subspace : list Z) (path : Path)
    (timestamp payloadLength : Z) (payloadDigest : list Z) : list Z :=
  namespace ++ subspace ++ encodePath path ++ encodeCu64Standalone timestamp
    ++ encodeCu64Standalone payloadLength ++ payloadDigest.

(* src: integrations/willow-drop/drop.ts 98-133 decodeToken *)
Definition decodeToken (previous : Capability) : rd (Capability * list Z) :=
  header ← byte;
  shared ← cu64 header 3 1;
  delegations ← cu64 header 4 4;
  _ ← require (negb (0 <? delegations)) CarriesDelegations;
  _ ← require (negb (1 <? shared)) ReusesMissingDelegations;
  capability ←
    (if negb (Z.land header 0x80 =? 0) then
       if shared =? 0 then
         userKey ← read_take 32;
         initialAuthorisation ← read_take 64;
         mret (Owned userKey initialAuthorisation)
       else
         match previous with
         | Owned _ _ => mret previous
         | Communal => fail RepeatsCommunalAsOwned
         end
     else mret Communal);
  signature ← read_take 64;
  mret (capability, signature).

Section Verification.

(** [verify(signature, message, key, { zip215: false })]; [None]: it throws. *)
Context (verify : list Z -> list Z -> list Z -> option bool).

(* src: integrations/willow-drop/drop.ts 77-84 signed *)
Definition signed (key message signature : list Z) : bool :=
  match verify signature message key with Some b => b | None => false end.

(** The capability check of [decodeEntry]: the receiver the signature must be by. *)
Definition receiver_of (namespace subspace : list Z) (capability : Capability) : rd (list Z) :=
  match capability with
  | Communal =>
      _ ← require (isCommunal namespace) CommunalCapabilityInOwnedNamespace;
      mret subspace
  | Owned userKey initialAuthorisation =>
      _ ← require (negb (isCommunal namespace)) OwnedCapabilityInCommunalNamespace;
      _ ← require (signed namespace (3 :: userKey) initialAuthorisation) CapabilityNotSigned;
      mret userKey
  end.

(** The payload that follows the entry, by the header's mode. *)
Definition decode_payload (mode payloadLength : Z) (payloadDigest : list Z) :
    rd (option (list Z)) :=
  if mode =? 1 then fun r =>
    (_ ← require (negb (remaining r <? payloadLength)) EndsInsidePayload;
     payload ← read_take payloadLength;
     _ ← require (equal (digest_of payload) payloadDigest) PayloadDigestMismatch;
     mret (Some payload)) r
  else if mode =? 3 then fun r =>
    (if 0 <? remaining r then
       b ← peek;
       _ ← require (Z.land b 0x80 =? 0) PartialSlices;
       mret None
     else mret None) r
  else if mode =? 2 then fail PartialPrefix
  else mret None.

(* src: integrations/willow-drop/drop.ts 166-242 decodeEntry *)
Definition decodeEntry (header : Z) (previous : DropEntry) : rd DropEntry :=
  _ ← require (Z.land header 0xc0 =? 0x40) NoEntryHeader;
  namespace ← (if negb (Z.land header 0x20 =? 0) then read_take 32
               else mret (namespace previous));
  subspace ← (if negb (Z.land header 0x10 =? 0) then read_take 32
              else mret (subspace previous));
  path ← decodeRelativePath (path previous);
  timestamp ← cu64 header 2 4;
  payloadLength ← cu64Standalone;
  payloadDigest ← read_take 32;
  '(capability, signature) ← decodeToken (capability previous);
  receiver ← receiver_of namespace subspace capability;
  _ ← require (signed receiver
                 (encodeEntry namespace subspace path timestamp payloadLength payloadDigest)
                 signature) SignatureDoesNotVerify;
  payload ← decode_payload (Z.land header 3) payloadLength payloadDigest;
  mret (mkDropEntry namespace subspace path timestamp payloadLength payloadDigest
          capability (isCommunal namespace) payload).

(** The [catch] around an entry: name the entry the problem is about. *)
Definition name_entry (index : nat) (error : DropError) : DropError :=
  match de_entry error with
  | None => mkDropError (de_message error) (Some index)
  | Some _ => error
  end.

Definition decode_entry_at (index : nat) (header : Z) (previous : DropEntry) : rd DropEntry :=
  fun r =>
    match (_ ← require (negb (MAX_ENTRIES <=? index)%nat) TooManyEntries;
           decodeEntry header previous) r with
    | Ok v => Ok v
    | Err error => Err (name_entry index error)
    end.

(** The [for (;;)] loop; [None] when the fuel runs out. *)
Fixpoint decode_loop (fuel : nat) (previous : DropEntry) (entries : list DropEntry)
    (r : Reader) : option (res DropError (list DropEntry * Reader)) :=
  match fuel with
  | O => None
  | S fuel' =>
      match byte r with
      | Err error => Some (Err error)
      | Ok (header, r) =>
          if header =? 0 then Some (Ok (entries, r))
          else
            match decode_entry_at (length entries) header previous r with
            | Err error => Some (Err error)
            | Ok (entry, r) => decode_loop fuel' entry (entries ++ [entry]) r
            end
      end
  end.

(* src: integrations/willow-drop/drop.ts 135-164 decodeDrop *)
Definition decodeDrop (bytes : list Z) : option (res DropError (list DropEntry)) :=
  match decode_loop (MAX_ENTRIES + 2) DEFAULT_ENTRY [] (mkReader bytes 0) with
  | None => None
  | Some (Err error) => Some (Err error)
  | Some (Ok (entries, r)) =>
      Some (if 0 <? remaining r then Err (dropError BytesAfterEnd) else Ok entries)
  end.

(** ** What the decoder guarantees *)

Definition sized (n : Z) (bs : list Z) : Prop := Forall is_byte bs /\ len bs = n.

Definition capability_ok (c : Capability) : Prop :=
  match c with
  | Communal => True
  | Owned userKey initialAuthorisation => sized 32 userKey /\ sized 64 initialAuthorisation
  end.

(** Meadowcap: the capability is for the entry's namespace, and [signature] is
    its receiver's over the encoded entry. *)
Definition authorised (e : DropEntry) (signature : list Z) : Prop :=
  sized 64 signature /\
  exists receiver,
    match capability e with
    | Communal => isCommunal (namespace e) = true /\ receiver = subspace e
    | Owned userKey initialAuthorisation =>
        isCommunal (namespace e) = false /\
        signed (namespace e) (3 :: userKey) initialAuthorisation = true /\
        receiver = userKey
    end /\
    signed receiver
      (encodeEntry (namespace e) (subspace e) (path e) (timestamp e) (payloadLength e)
         (payloadDigest e)) signature = true.

Definition payload_ok (e : DropEntry) : Prop :=
  match payload e with
  | None => True
  | Some p => sized (payloadLength e) p /\ william3 p = Some (payloadDigest e)
  end.

(** The fields of an entry are what the format allows. *)
Definition fields_ok (e : DropEntry) : Prop :=
  sized 32 (namespace e) /\ sized 32 (subspace e) /\ path_ok (path e) /\
  0 <= timestamp e < 2 ^ 64 /\ 0 <= payloadLength e < 2 ^ 64 /\
  sized 32 (payloadDigest e) /\ capability_ok (capability e).

Definition entry_ok (e : DropEntry) : Prop :=
  fields_ok e /\ communal e = isCommunal (namespace e) /\ payload_ok e /\
  exists signature, authorised e signature.

Lemma equal_true a b : equal a b = true <-> a = b.
Proof.
  unfold equal, len. revert b; induction a as [|x a IH]; intros [|y b]; cbn; try done.
  specialize (IH b). rewrite andb_true_iff, Z.eqb_eq in *. rewrite andb_true_iff, Z.eqb_eq.
  split.
  - intros (Hlen & -> & Hall). f_equal. apply IH. split; [lia|done].
  - intros [= -> ->]. destruct (proj2 IH eq_refl). split_and!; [lia|done|done].
Qed.

Lemma william3_digest_of bytes : william3 bytes = Some (digest_of bytes).
Proof. unfold digest_of. destruct (william3_total bytes) as (d & -> & _). done. Qed.

Lemma spec_weaken {A} (m : rd A) (P Q : A -> Prop) :
  (forall a, P a -> Q a) -> rd_spec m P -> rd_spec m Q.
Proof. intros HPQ Hm r v r' Hr Hok. destruct (Hm _ _ _ Hr Hok). auto. Qed.

Lemma spec_sized n : 0 <= n -> rd_spec (read_take n) (sized n).
Proof.
  intros Hn. eapply spec_weaken; [|apply spec_take]. intros bs [Hbs Hlen]. split; [done|lia].
Qed.

Lemma spec_peek : rd_spec peek is_byte.
Proof.
  intros r v r' Hr. unfold peek. destruct (rd_bytes r !! rd_offset r) as [b|] eqn:Hb; [|done].
  intros [= <- <-]. split; [by apply moves_refl|]. destruct Hr as [_ Hr].
  apply (Forall_lookup_1 _ _ _ _ Hr Hb).
Qed.

Lemma spec_if {A} (b : bool) (m1 m2 : rd A) Q :
  (b = true -> rd_spec m1 Q) -> (b = false -> rd_spec m2 Q) -> rd_spec (if b then m1 else m2) Q.
Proof. destruct b; auto. Qed.

#[local] Hint Resolve spec_peek : rd_spec.
#[local] Hint Extern 1 (rd_spec (read_take _) _) => apply spec_sized; lia : rd_spec.

Lemma spec_decodeToken previous :
  capability_ok previous ->
  rd_spec (decodeToken previous) (fun '(c, signature) => capability_ok c /\ sized 64 signature).
Proof.
  intros Hprev. unfold decodeToken.
  spec_step; intros header _. spec_step; intros shared _. spec_step; intros delegations _.
  spec_step; intros _ _. spec_step; intros _ _.
  eapply (spec_bind _ _ capability_ok).
  - apply spec_if; intros _; [apply spec_if; intros _|by apply spec_ret].
    + spec_step; intros k Hk. spec_step; intros a Ha. by apply spec_ret.
    + destruct previous; [apply spec_fail|by apply spec_ret].
  - intros c Hc. eapply spec_bind; [by apply spec_sized|]. intros s Hs. by apply spec_ret.
Qed.

Lemma spec_receiver_of ns ss c :
  rd_spec (receiver_of ns ss c) (fun receiver =>
    match c with
    | Communal => isCommunal ns = true /\ receiver = ss
    | Owned userKey ia =>
        isCommunal ns = false /\ signed ns (3 :: userKey) ia = true /\ receiver = userKey
    end).
Proof.
  destruct c; cbn; spec_step; intros _ H1; [by apply spec_ret|].
  spec_step; intros _ H2. breflect. by apply spec_ret.
Qed.

Lemma spec_decode_payload mode pl pd :
  0 <= pl ->
  rd_spec (decode_payload mode pl pd) (fun p =>
    match p with None => True | Some p => sized pl p /\ william3 p = Some pd end).
Proof.
  intros Hpl. unfold decode_payload. case_match.
  - intros r. pattern r. revert r.
    assert (H' : forall b, rd_spec (_ ← require b EndsInsidePayload; p ← read_take pl;
      _ ← require (equal (digest_of p) pd) PayloadDigestMismatch; mret (Some p))
      (fun p => match p with None => True | Some p => sized pl p /\ william3 p = Some pd end)).
    { intros b. spec_step; intros _ _. eapply spec_bind; [by apply spec_sized|]; intros p Hp.
      spec_step; intros _ Heq. apply spec_ret. split; [done|].
      rewrite william3_digest_of. apply equal_true in Heq. by f_equal. }
    intros r v r' Hr. apply H'. done.
  - case_match; [|case_match; [apply spec_fail|by apply spec_ret]].
    intros r v r' Hr. generalize (0 <? remaining r) as b. intros b. revert r v r' Hr.
    destruct b; [|by apply spec_ret].
    change (rd_spec (b ← peek; _ ← require (Z.land b 0x80 =? 0) PartialSlices; mret None)
      (fun p => match p with None => True | Some p => sized pl p /\ william3 p = Some pd end)).
    spec_step; intros b _. spec_step; intros _ _. by apply spec_ret.
Qed.

Lemma spec_decodeEntry header previous :
  fields_ok previous -> rd_spec (decodeEntry header previous) entry_ok.
Proof.
  intros (Hns & Hss & Hpath & _ & _ & _ & Hcap). unfold decodeEntry.
  spec_step; intros _ _.
  eapply (spec_bind _ _ (sized 32)).
  { apply spec_if; intros _; [by apply spec_sized|by apply spec_ret]. } intros ns Hns'.
  eapply (spec_bind _ _ (sized 32)).
  { apply spec_if; intros _; [by apply spec_sized|by apply spec_ret]. } intros ss Hss'.
  eapply spec_bind; [by apply spec_decodeRelativePath|]; intros p [Hp _].
  eapply spec_bind; [by apply spec_cu64|]; intros ts Hts.
  spec_step; intros pl Hpl.
  eapply spec_bind; [by apply spec_sized|]; intros pd Hpd.
  eapply spec_bind; [by apply spec_decodeToken|]; intros [c sig] [Hc Hsig].
  eapply spec_bind; [apply spec_receiver_of|]; intros receiver Hrec.
  spec_step; intros _ Hsigned.
  eapply spec_bind; [apply spec_decode_payload; lia|]; intros pay Hpay.
  apply spec_ret. split; [|split; [done|split; [exact Hpay|]]].
  - unfold fields_ok; cbn. by repeat (split; [done|]).
  - exists sig. split; [done|]. exists receiver. split; [exact Hrec|done].
Qed.

Lemma default_fields_ok : fields_ok DEFAULT_ENTRY.
Proof.
  assert (sized 32 DEFAULT_ID) by (split; [by_decide|reflexivity]).
  destruct (william3_total []) as (d & Hd & Hlen & Hbytes).
  unfold fields_ok, DEFAULT_ENTRY, digest_of; cbn -[william3]. rewrite Hd. cbn.
  do 2 (split; [done|]). split; [by split; [constructor|]|].
  do 2 (split; [done|]). split; [|done]. split; [done|]. unfold len. by rewrite Hlen.
Qed.

Lemma decode_entry_at_Ok index header previous r v :
  decode_entry_at index header previous r = Ok v ->
  (index < MAX_ENTRIES)%nat /\ decodeEntry header previous r = Ok v.
Proof.
  unfold decode_entry_at. intros H. case_match eqn:E; [|done]. simplify_eq.
  destruct v as [v r']. apply rd_bind_Ok in E as ([] & r1 & H1 & H2).
  unfold require in H1. case_match eqn:Hi; [|done]. injection H1 as <-.
  split; [|done]. breflect. by apply Nat.leb_gt.
Qed.

Lemma decode_loop_ok fuel previous entries r es r' :
  rd_good r -> fields_ok previous -> Forall entry_ok entries ->
  (length entries <= MAX_ENTRIES)%nat ->
  decode_loop fuel previous entries r = Some (Ok (es, r')) ->
  Forall entry_ok es /\ (length es <= MAX_ENTRIES)%nat /\ rd_good r'.
Proof.
  revert previous entries r; induction fuel as [|fuel IH];
    intros previous entries r Hr Hprev Hes Hlen; [done|]. cbn [decode_loop].
  destruct (byte r) as [[header r1]|] eqn:Hbyte; [|done].
  destruct (spec_byte r header r1 Hr Hbyte) as [[Hr1 _] _].
  case_match; [by intros [= <- <-]|].
  destruct (decode_entry_at _ _ _ _) as [[entry r2]|] eqn:Hentry; [|done].
  apply decode_entry_at_Ok in Hentry as [Hindex Hentry].
  destruct (spec_decodeEntry header previous Hprev _ _ _ Hr1 Hentry) as [[Hr2 _] Hok].
  apply IH; [done|apply Hok| |].
  - by apply Forall_app; split; [|constructor].
  - rewrite length_app; cbn. lia.
Qed.

(** C1 (safety). Every entry of a drop that [decodeDrop] accepts is
    authorised: its fields are within the format's sizes and limits, its
    capability is for its namespace (an owned one signed by the namespace's
    key), a 64-byte signature by the capability's receiver covers the encoded
    entry, and a payload that comes with it has the stated length and hashes
    to the stated digest; and a drop has at most [MAX_ENTRIES] entries. *)
Theorem decodeDrop_authorised (bytes : list Z) (entries : list DropEntry) :
  Forall is_byte bytes -> decodeDrop bytes = Some (Ok entries) ->
  Forall entry_ok entries /\ (length entries <= MAX_ENTRIES)%nat.
Proof.
  intros Hbytes. unfold decodeDrop.
  destruct (decode_loop _ _ _ _) as [[[es r']|e]|] eqn:Hloop; [|done|done].
  case_match; [done|]. intros [= <-].
  assert (rd_good (mkReader bytes 0)) as Hr by (split; [apply Nat.le_0_l|done]).
  destruct (decode_loop_ok _ _ _ _ _ _ Hr
    default_fields_ok (Forall_nil_2 _) (Nat.le_0_l _) Hloop) as (? & ? & _). done.
Qed.

Lemma decode_entry_at_named index header previous r e :
  decode_entry_at index header previous r = Err e -> de_entry e <> None.
Proof.
  unfold decode_entry_at, name_entry. intros H. case_match; [done|]. injection H as <-.
  case_match eqn:E; cbn; [by rewrite E|done].
Qed.

Lemma decode_loop_total fuel previous entries r :
  (MAX_ENTRIES + 2 <= length entries + fuel)%nat -> (length entries <= MAX_ENTRIES)%nat ->
  exists result, decode_loop fuel previous entries r = Some result /\
    forall e, result = Err e -> de_entry e = None -> e = dropError EndsInsideEntry.
Proof.
  revert previous entries r; induction fuel as [|fuel IH];
    intros previous entries r Hfuel Hlen; [lia|]. cbn [decode_loop].
  destruct (byte r) as [[header r1]|e] eqn:Hbyte.
  - case_match; [by eexists|].
    destruct (decode_entry_at _ _ _ _) as [[entry r2]|e] eqn:Hentry.
    + apply decode_entry_at_Ok in Hentry as [Hindex _].
      apply IH; rewrite length_app; cbn [length]; lia.
    + eexists. split; [done|]. intros e' [= <-] Hnone.
      by apply decode_entry_at_named in Hentry.
  - eexists. split; [done|]. intros e' [= <-] _. revert Hbyte. unfold byte, peek.
    destruct (_ !! _); cbn; congruence.
Qed.

(** [decodeDrop] returns a result for every byte string:
    1002 rounds of its loop always suffice.  Of its errors, only the end of the
    input where an entry header is due and trailing bytes after the end marker
    name no entry. *)
Theorem decodeDrop_total (bytes : list Z) :
  exists result, decodeDrop bytes = Some result /\
    forall e, result = Err e -> de_entry e = None ->
      de_message e = EndsInsideEntry \/ de_message e = BytesAfterEnd.
Proof.
  unfold decodeDrop.
  destruct (decode_loop_total (MAX_ENTRIES + 2) DEFAULT_ENTRY [] (mkReader bytes 0))
    as ([[es r']|e] & -> & He); [cbn [length]; lia|cbn [length]; lia|..].
  - eexists. split; [done|]. intros e. case_match; intros [= <-] _. by right.
  - eexists. split; [done|]. intros e' [= <-] Hnone. rewrite (He e eq_refl Hnone). by left.
Qed.

(** ** The absolute encoding is read back

    The Willow Drop Format's encoding of an entry that repeats nothing of the
    previous one: the specification [decodeDrop] is checked against. *)
Definition write_header (e : DropEntry) : Z :=
  0x70 + 4 * tagFor (timestamp e) 2 + (if payload e is Some _ then 1 else 0).

Definition write_token (c : Capability) (signature : list Z) : list Z :=
  match c with
  | Communal => 0 :: signature
  | Owned userKey initialAuthorisation => 0x80 :: userKey ++ initialAuthorisation ++ signature
  end.

Definition write_entry (e : DropEntry) (signature : list Z) : list Z :=
  write_header e :: namespace e ++ subspace e
    ++ (encodeCu64Standalone 0 ++ encodePath (path e))
    ++ cu64Bytes (timestamp e) 2
    ++ encodeCu64Standalone (payloadLength e)
    ++ payloadDigest e
    ++ write_token (capability e) signature
    ++ default [] (payload e).

Definition write_drop (es : list (DropEntry * list Z)) : list Z :=
  concat (map (fun '(e, s) => write_entry e s) es) ++ [0].

Lemma write_header_bits e :
  0 <= timestamp e < 2 ^ 64 ->
  let h := write_header e in
  Z.land h 0xc0 = 0x40 /\ Z.land h 0x20 = 0x20 /\ Z.land h 0x10 = 0x10 /\
  Z.land (Z.shiftr h (8 - 4 - 2)) (Z.shiftl 1 2 - 1) = tagFor (timestamp e) 2 /\
  Z.land h 3 = (if payload e is Some _ then 1 else 0) /\ h <> 0.
Proof.
  intros Hts. destruct (cu64_cases (timestamp e) 2) as [Ht _]; [lia|done|].
  unfold write_header. generalize dependent (tagFor (timestamp e) 2). intros t Ht.
  assert (t = 0 \/ t = 1 \/ t = 2 \/ t = 3) as [->|[->|[->| ->]]]
    by (change (2 ^ 2) with 4 in Ht; lia).
  all: destruct (payload e); vm_compute; split_and!; done.
Qed.

Lemma parses_sized n l : sized n l -> parses (read_take n) l l.
Proof. intros [_ H]. by apply parses_take. Qed.

Lemma parses_cu64_inline tagByte w o t :
  Z.land (Z.shiftr tagByte (8 - o - w)) (Z.shiftl 1 w - 1) = t ->
  0 <= t -> t < Z.shiftl 1 w - 1 - 3 ->
  parses (cu64 tagByte w o) [] t.
Proof.
  intros Htag H0 Ht. unfold cu64. rewrite Htag.
  rewrite (lookup_ge_None_2 [8; 4; 2; 1]) by (cbn; lia). apply parses_ret.
Qed.

Lemma parses_decodeToken previous c s :
  capability_ok c -> sized 64 s -> parses (decodeToken previous) (write_token c s) (c, s).
Proof.
  intros Hc Hs. unfold decodeToken, write_token.
  destruct c as [|k a]; cbn [capability_ok] in Hc.
  - change (0 :: s) with ([0] ++ [] ++ [] ++ [] ++ [] ++ [] ++ s).
    eapply parses_bind; [apply parses_byte|].
    eapply parses_bind; [by apply parses_cu64_inline|].
    eapply parses_bind; [by apply parses_cu64_inline|].
    do 2 (eapply parses_bind; [by apply parses_require|]).
    eapply parses_bind; [apply parses_ret|].
    rewrite <-(app_nil_r s) at 1. eapply parses_bind; [by apply parses_sized|apply parses_ret].
  - destruct Hc as [Hk Ha].
    replace (0x80 :: k ++ a ++ s) with ([0x80] ++ [] ++ [] ++ [] ++ [] ++ (k ++ a ++ []) ++ s ++ [])
      by (rewrite !app_nil_r; cbn; by rewrite <-app_assoc).
    eapply parses_bind; [apply parses_byte|].
    eapply parses_bind; [by apply (parses_cu64_inline _ _ _ 0)|].
    eapply parses_bind; [by apply (parses_cu64_inline _ _ _ 0)|].
    do 2 (eapply parses_bind; [by apply parses_require|]).
    eapply parses_bind.
    { cbn [negb Z.eqb]. eapply parses_bind; [by apply parses_sized|].
      eapply parses_bind; [by apply parses_sized|apply parses_ret]. }
    eapply parses_bind; [by apply parses_sized|apply parses_ret].
Qed.

Lemma parses_decode_payload e :
  payload_ok e ->
  parses (decode_payload (if payload e is Some _ then 1 else 0)
      (payloadLength e) (payloadDigest e))
    (default [] (payload e)) (payload e).
Proof.
  unfold payload_ok. destruct (payload e) as [p|]; [|intros _; apply parses_ret].
  intros [Hp Hdigest] r l2 Hr Hahead. cbn in Hahead.
  unfold decode_payload. cbn [Z.eqb Pos.eqb].
  assert ((remaining r <? payloadLength e) = false) as ->.
  { apply Z.ltb_ge. rewrite remaining_ahead, Hahead, len_app by done. destruct Hp as [_ <-].
    pose proof (len_nonneg l2). lia. }
  revert r l2 Hr Hahead. cbn [negb].
  match goal with |- forall r l2, _ -> _ -> ?m r = _ =>
    change (parses m p (Some p)) end.
  replace p with ([] ++ p ++ [] ++ []) at 1 by (by rewrite !app_nil_r).
  eapply parses_bind; [by apply parses_require|].
  eapply parses_bind; [by apply parses_sized|].
  eapply parses_bind; [|apply parses_ret].
  apply parses_require, equal_true. unfold digest_of. by rewrite Hdigest.
Qed.

Definition valid (es : DropEntry * list Z) : Prop :=
  fields_ok es.1 /\ communal es.1 = isCommunal (namespace es.1) /\ payload_ok es.1 /\
  authorised es.1 es.2.

Lemma parses_decodeEntry e s previous :
  valid (e, s) ->
  parses (decodeEntry (write_header e) previous) (tail (write_entry e s)) e.
Proof.
  intros ((Hns & Hss & Hpath & Hts & Hpl & Hpd & Hcap) & Hcomm & Hpay & Hs & receiver & Hrec & Hsig).
  cbn [fst snd] in *.
  destruct (write_header_bits e Hts) as (H1 & H2 & H3 & H4 & H5 & _).
  unfold decodeEntry. rewrite H1, H2, H3, H5. cbn [negb Z.eqb Pos.eqb tail write_entry].
  rewrite <-(app_nil_r (default [] (payload e))).
  match goal with |- parses _ (?a ++ ?b ++ ?c ++ ?d ++ ?x ++ ?f ++ ?t ++ ?p) _ =>
    change (a ++ b ++ c ++ d ++ x ++ f ++ t ++ p)
      with ([] ++ a ++ b ++ c ++ d ++ x ++ f ++ t ++ [] ++ [] ++ p) end.
  eapply parses_bind; [by apply parses_require|].
  do 2 (eapply parses_bind; [by apply parses_sized|]).
  eapply parses_bind; [by apply parses_decodeRelativePath|].
  eapply parses_bind; [apply parses_cu64; [lia|exact Hts|exact H4]|].
  eapply parses_bind; [by apply parses_cu64Standalone|].
  eapply parses_bind; [by apply parses_sized|].
  eapply parses_bind; [by apply parses_decodeToken|]. cbn beta iota.
  eapply (parses_bind _ _ [] _ receiver).
  { destruct (capability e); cbn [receiver_of].
    - destruct Hrec as [Hc ->]. apply (parses_bind _ _ [] []  tt); [by apply parses_require|apply parses_ret].
    - destruct Hrec as (Hc & Hgen & ->).
      apply (parses_bind _ _ [] [] tt); [apply parses_require; by rewrite Hc|].
      apply (parses_bind _ _ [] [] tt); [by apply parses_require|apply parses_ret]. }
  eapply parses_bind; [by apply parses_require|].
  eapply parses_bind; [by apply parses_decode_payload|].
  rewrite <-Hcomm. destruct e; apply parses_ret.
Qed.

Lemma decode_entry_at_run index header previous r v :
  (index < MAX_ENTRIES)%nat -> decodeEntry header previous r = Ok v ->
  decode_entry_at index header previous r = Ok v.
Proof.
  intros Hi H. unfold decode_entry_at, mbind, rd_bind, require.
  by rewrite (proj2 (Nat.leb_gt _ _) Hi); cbn; rewrite H.
Qed.

Lemma decode_loop_written fuel previous entries es r :
  Forall valid es -> (length entries + length es <= MAX_ENTRIES)%nat ->
  (length es < fuel)%nat -> rd_wf r -> ahead r = write_drop es ->
  exists r', decode_loop fuel previous entries r = Some (Ok (entries ++ map fst es, r'))
    /\ remaining r' = 0.
Proof.
  revert previous entries r es; induction fuel as [|fuel IH];
    intros previous entries r es Hes Hmax Hfuel Hr Hahead; [lia|].
  cbn [decode_loop]. destruct Hes as [|[e s] es He Hes].
  - assert (ahead r = [0] ++ []) as H1 by exact Hahead.
    rewrite (parses_byte 0 r [] Hr H1). cbn [Z.eqb map]. rewrite app_nil_r.
    eexists. split; [done|].
    rewrite (remaining_ahead _ (advance_wf r [0] [] Hr H1)).
    by rewrite (ahead_advance r [0] [] H1).
  - assert (ahead r = [write_header e] ++ tail (write_entry e s) ++ write_drop es) as H1.
    { rewrite Hahead. unfold write_drop. cbn [map concat]. by rewrite <-app_assoc. }
    rewrite (parses_byte _ r _ Hr H1).
    destruct (write_header_bits e) as (_ & _ & _ & _ & _ & Hnz).
    { destruct He as ((_ & _ & _ & Hts & _) & _). exact Hts. }
    rewrite (proj2 (Z.eqb_neq _ _) Hnz).
    pose proof (advance_wf _ _ _ Hr H1) as Hr1. apply ahead_advance in H1.
    cbn [length] in Hmax, Hfuel.
    erewrite decode_entry_at_run; [|lia|by apply parses_decodeEntry with (l2 := write_drop es)].
    destruct (IH e (entries ++ [e]) (advance (advance r 1) (length (tail (write_entry e s)))) es)
      as (r' & Heq & Hr'); [done|rewrite length_app; cbn [length]; lia|lia
      |by eapply advance_wf|by apply ahead_advance|].
    exists r'. rewrite <-app_assoc in Heq. split; [exact Heq|done].
Qed.

(** C2 (roundtrip). A drop written in the format's absolute encoding from at
    most [MAX_ENTRIES] entries with valid fields, authorised signatures and
    matching payloads is accepted, and [decodeDrop] returns exactly those
    entries in order: verification has no false alarms and decoding loses
    nothing. *)
Theorem decodeDrop_written (es : list (DropEntry * list Z)) :
  Forall valid es -> (length es <= MAX_ENTRIES)%nat ->
  decodeDrop (write_drop es) = Some (Ok (map fst es)).
Proof.
  intros Hes Hmax. unfold decodeDrop.
  destruct (decode_loop_written (MAX_ENTRIES + 2) DEFAULT_ENTRY [] es (mkReader (write_drop es) 0))
    as (r' & -> & ->); [done|cbn [length]; lia|lia|apply Nat.le_0_l|done|done].
Qed.

End Verification.

(** A verifier that accepts the one signature made of sevens. *)
Definition demo_verify (signature message key : list Z) : option bool :=
  if forallb (fun b => b =? 7) signature then Some true else None.

Definition demo_entry : DropEntry :=
  mkDropEntry (replicate 31 1 ++ [3]) (replicate 32 5) [[98]; [7]] 300 3
    (digest_of [1; 2; 3]) (Owned (replicate 32 9) (replicate 64 7)) false (Some [1; 2; 3]).

Lemma demo_valid : valid demo_verify (demo_entry, replicate 64 7).
Proof.
  assert (H : sized 32 (digest_of [1; 2; 3])) by (split; [by_decide|vm_compute; reflexivity]).
  split; [|split; [reflexivity|split]].
  - split; [|split; [|split; [|split; [|split; [|split; [exact H|]]]]]].
    + split; [by_decide|reflexivity].
    + split; [by_decide|reflexivity].
    + split; [by_decide|split; vm_compute; discriminate].
    + cbn; lia.
    + cbn; lia.
    + split; split; by_decide || reflexivity.
  - split; [split; [by_decide|reflexivity]|apply william3_digest_of].
  - split; [split; [by_decide|reflexivity]|]. exists (replicate 32 9).
    split; [split_and!|]; reflexivity.
Qed.

Lemma decodeDrop_written_witness :
  Forall (valid demo_verify) [(demo_entry, replicate 64 7)] /\
  decodeDrop demo_verify (write_drop [(demo_entry, replicate 64 7)]) = Some (Ok [demo_entry]).
Proof.
  assert (H : Forall (valid demo_verify) [(demo_entry, replicate 64 7)])
    by (constructor; [exact demo_valid|constructor]).
  split; [exact H|]. apply (decodeDrop_written demo_verify _ H). apply Nat.leb_le; reflexivity.
Defined.

Lemma decodeDrop_authorised_witness :
  decodeDrop demo_verify (write_drop [(demo_entry, replicate 64 7)]) = Some (Ok [demo_entry]) /\
  Forall (entry_ok demo_verify) [demo_entry].
Proof.
  assert (H1 : Forall is_byte (write_drop [(demo_entry, replicate 64 7)])) by by_decide.
  assert (H2 : decodeDrop demo_verify (write_drop [(demo_entry, replicate 64 7)])
    = Some (Ok [demo_entry])) by (vm_compute; reflexivity).
  split; [exact H2|]. exact (proj1 (decodeDrop_authorised demo_verify _ _ H1 H2)).
Defined.
