(* ===== verification/Mapping.v ===== *)
(** * From drop entries to table rows

    Models [src/integrations/willow-drop/mapping.ts]: the displayed path, the
    UTC reading of a timestamp, Willow's "newer than" order, prefix pruning,
    the source identity and the row values.

    The theorems: pruning keeps exactly the entries nothing supersedes, and
    every pruned one is superseded by one that is kept, so pruning is
    idempotent and does not depend on the order of the entries; the source
    identity is the store key, without collisions. *)
From S2P Require Import Prelude Text JsDate Encoding Drop.
Local Open Scope Z_scope.

(* src: integrations/willow-drop/mapping.ts 7-8 MAX_STORED_PAYLOAD *)
Definition MAX_STORED_PAYLOAD : Z := 65536.

(** [b.toString(16).padStart(2, '0')]. *)
Definition hex_byte (b : Z) : jstr := [hex_digit (b / 16); hex_digit (b mod 16)].

(* src: integrations/willow-drop/mapping.ts 10-11 hex *)
Definition hex (bytes : list Z) : jstr := concat (map hex_byte bytes).

(* src: integrations/willow-drop/mapping.ts 13-13 UNRESERVED *)
Definition UNRESERVED (c : Z) : bool :=
  is_upper c || ((97 <=? c) && (c <=? 122)) || is_digit c
  || (c =? 45) || (c =? 46) || (c =? 95) || (c =? 126).

(* src: integrations/willow-drop/mapping.ts 15-31 displayPath *)
Definition displayPath (path : Path) : jstr :=
  47 :: join_str [47]
    (map (fun component =>
            concat (map (fun b => if (b <? 0x80) && UNRESERVED b then [b] else 37 :: hex_byte b)
                      component)) path).

(* src: integrations/willow-drop/mapping.ts 33-35 J2000_TAI_US *)
Definition J2000_TAI_US : Z := 946727967816000.
(* src: integrations/willow-drop/mapping.ts 36-44 LEAP_SECONDS *)
Definition LEAP_SECONDS : list (Z * Z) :=
  [(1483228800000000, 37); (1435708800000000, 36); (1341100800000000, 35);
   (1230768000000000, 34); (1136073600000000, 33); (0, 32)].
(* src: integrations/willow-drop/mapping.ts 45-45 YEAR_2100_US *)
Definition YEAR_2100_US : Z := 4102444800000000.

(** [l.find(f)]. *)
Fixpoint find_first {A} (f : A -> bool) (l : list A) : option A :=
  match l with [] => None | x :: l' => if f x then Some x else find_first f l' end.

(** [s.replace(c, r)]: the first occurrence. *)
Fixpoint replace_first (c : Z) (r s : jstr) : jstr :=
  match s with
  | [] => []
  | x :: s' => if x =? c then r ++ s' else x :: replace_first c r s'
  end.

(** The UTC reading, in microseconds since 1970. *)
Definition utc_of (timestamp : Z) : Z :=
  let tai := J2000_TAI_US + timestamp in
  match find_first (fun '(start, seconds) => start <=? tai - seconds * 1000000) LEAP_SECONDS with
  | Some (_, offset) => tai - offset * 1000000
  | None => tai
  end.

(* src: integrations/willow-drop/mapping.ts 47-58 utcTime *)
Definition utcTime (timestamp : Z) : option jstr :=
  let utc := utc_of timestamp in
  if YEAR_2100_US <=? utc then None
  else
    iso ← toISOString (Z.quot utc 1000);
    Some (replace_first 90 (pad_dec 3 (Z.rem utc 1000) ++ [90]) iso).

(* src: integrations/willow-drop/mapping.ts 60-65 compareBytes *)
Fixpoint compareBytes (a b : list Z) : Z :=
  match a, b with
  | x :: a', y :: b' => if x =? y then compareBytes a' b' else x - y
  | _, _ => len a - len b
  end.

(* src: integrations/willow-drop/mapping.ts 67-71 Version *)
Record Version := mkVersion { v_timestamp : Z; v_payloadDigest : list Z; v_payloadLength : Z }.

(* src: integrations/willow-drop/mapping.ts 73-80 newer *)
Definition newer (a b : Version) : bool :=
  if negb (v_timestamp a =? v_timestamp b) then v_timestamp b <? v_timestamp a
  else
    let digest := compareBytes (v_payloadDigest a) (v_payloadDigest b) in
    if negb (digest =? 0) then 0 <? digest
    else v_payloadLength b <? v_payloadLength a.

Definition version (e : DropEntry) : Version :=
  mkVersion (timestamp e) (payloadDigest e) (payloadLength e).

(* src: integrations/willow-drop/mapping.ts 82-84 sameKeySpace *)
Definition sameKeySpace (a b : DropEntry) : bool :=
  (compareBytes (namespace a) (namespace b) =? 0)
  && (compareBytes (subspace a) (subspace b) =? 0).

(* src: integrations/willow-drop/mapping.ts 86-88 isPrefix *)
Definition isPrefix (prefix path : Path) : bool :=
  (length prefix <=? length path)%nat
  && forallb (fun '(c, d) => compareBytes c d =? 0) (zip prefix path).

(** The condition on [other] in [prune]. *)
Definition supersedes (other entry : DropEntry) : bool :=
  sameKeySpace other entry && isPrefix (path other) (path entry)
  && newer (version other) (version entry).

(** [other !== entry] compares objects: entries are told apart by position. *)
Definition kept_at (entries : list DropEntry) (i : nat) (entry : DropEntry) : bool :=
  negb (existsb (fun '(j, other) => negb (j =? i)%nat && supersedes other entry)
          (imap pair entries)).

(* src: integrations/willow-drop/mapping.ts 90-111 prune *)
Definition prune (entries : list DropEntry) : list DropEntry * Z :=
  let kept := omap (fun '(i, entry) => if kept_at entries i entry then Some entry else None)
                (imap pair entries) in
  (kept, len entries - len kept).

(* src: integrations/willow-drop/mapping.ts 113-120 sourceId *)
Definition sourceId (entry : DropEntry) : jstr :=
  stringify (JArr [JStr (js "willow25"); JStr (hex (namespace entry)); JStr (hex (subspace entry));
                   JArr (map (fun c => JStr (hex c)) (path entry))]).

(* src: integrations/willow-drop/mapping.ts 122-151 rowValues *)
Definition rowValues (entry : DropEntry) : list (string * jstr) :=
  let stored := match payload entry with
                | Some p => if len p <=? MAX_STORED_PAYLOAD then Some p else None
                | None => None
                end in
  let text := p ← stored; utf8Text p in
  [("willow-namespace"%string, hex (namespace entry));
   ("willow-subspace"%string, hex (subspace entry));
   ("willow-path"%string, displayPath (path entry));
   ("willow-timestamp"%string, dec_signed (timestamp entry));
   ("willow-time"%string, default [] (utcTime (timestamp entry)));
   ("willow-payload-length"%string, dec_signed (payloadLength entry));
   ("willow-payload-digest"%string, hex (payloadDigest entry));
   ("willow-payload-status"%string,
      match stored, payload entry with
      | Some _, _ => js "stored"
      | None, Some _ => js "too-large"
      | None, None => js "not-in-drop"
      end);
   ("willow-payload"%string, default [] text);
   ("willow-payload-base64"%string,
      match stored, text with Some p, None => base64 p | _, _ => [] end);
   ("willow-capability"%string,
      match capability entry with Communal => js "communal" | Owned _ _ => js "owned" end);
   ("willow-source-id"%string, sourceId entry)].

(** ** The order of versions *)

Lemma compareBytes_eq a b : compareBytes a b = 0 <-> a = b.
Proof.
  revert b; induction a as [|x a IH]; intros [|y b]; cbn; try (by split; [unfold len; cbn; lia|]).
  - done.
  - destruct (Z.eqb_spec x y) as [->|].
    + rewrite IH. split; [by intros ->|congruence].
    + split; [lia|congruence].
Qed.

Lemma compareBytes_antisym a b : compareBytes b a = - compareBytes a b.
Proof.
  revert b; induction a as [|x a IH]; intros [|y b]; cbn; try (unfold len; lia).
  rewrite (Z.eqb_sym y x). destruct (x =? y); [apply IH|lia].
Qed.

Lemma compareBytes_trans a b c :
  0 < compareBytes a b -> 0 < compareBytes b c -> 0 < compareBytes a c.
Proof.
  revert b c; induction a as [|x a IH]; intros [|y b] [|z c]; cbn; unfold len in *; cbn in *; try lia.
  destruct (Z.eqb_spec x y), (Z.eqb_spec y z), (Z.eqb_spec x z); subst; try lia; eauto.
Qed.

Lemma newer_spec a b :
  newer a b = true <->
  v_timestamp b < v_timestamp a \/
  v_timestamp a = v_timestamp b /\
    (0 < compareBytes (v_payloadDigest a) (v_payloadDigest b) \/
     v_payloadDigest a = v_payloadDigest b /\ v_payloadLength b < v_payloadLength a).
Proof.
  unfold newer. rewrite <-compareBytes_eq.
  destruct (Z.eqb_spec (v_timestamp a) (v_timestamp b)); cbn [negb]; [|rewrite Z.ltb_lt; lia].
  destruct (Z.eqb_spec (compareBytes (v_payloadDigest a) (v_payloadDigest b)) 0);
    cbn [negb]; rewrite Z.ltb_lt; lia.
Qed.

(** [newer] is a strict total order on versions. *)
Lemma newer_irrefl a : newer a a = false.
Proof.
  apply not_true_iff_false. rewrite newer_spec.
  pose proof (proj2 (compareBytes_eq (v_payloadDigest a) _) eq_refl). lia.
Qed.

Lemma newer_trans a b c : newer a b = true -> newer b c = true -> newer a c = true.
Proof.
  rewrite !newer_spec. intros H1 H2.
  destruct H1 as [H1|[H1 [H1'|[H1' H1'']]]], H2 as [H2|[H2 [H2'|[H2' H2'']]]]; try (left; lia);
    right; (split; [lia|]).
  - left. by eapply compareBytes_trans.
  - left. by rewrite <-H2'.
  - left. by rewrite H1'.
  - right. split; [congruence|lia].
Qed.

Lemma newer_total a b : a <> b -> newer a b = true \/ newer b a = true.
Proof.
  intros Hne. rewrite !newer_spec, <-!compareBytes_eq, (compareBytes_antisym (v_payloadDigest a)).
  destruct (Z.eq_dec (compareBytes (v_payloadDigest a) (v_payloadDigest b)) 0) as [H0|]; [|lia].
  apply compareBytes_eq in H0 as Hd.
  destruct (Z.eq_dec (v_payloadLength a) (v_payloadLength b)); [|lia].
  destruct (Z.eq_dec (v_timestamp a) (v_timestamp b)); [|lia].
  destruct a, b; cbn in *; congruence.
Qed.

Lemma isPrefix_spec p q : isPrefix p q = true <-> exists s, q = p ++ s.
Proof.
  unfold isPrefix. revert q; induction p as [|c p IH]; intros q; cbn [length zip_with forallb].
  { split; [by exists q|done]. }
  destruct q as [|d q]; [split; [done|by intros [s ?]]|].
  specialize (IH q). cbn [zip_with forallb length Nat.leb].
  rewrite !andb_true_iff in *. rewrite Z.eqb_eq, compareBytes_eq. split.
  - intros (? & -> & ?). destruct (proj1 IH) as [s ->]; [done|]. by exists s.
  - intros [s [= -> ->]]. destruct (proj2 IH) as [? ?]; [by exists s|done].
Qed.

Lemma supersedes_spec o e :
  supersedes o e = true <->
  namespace o = namespace e /\ subspace o = subspace e /\ (exists s, path e = path o ++ s) /\
  newer (version o) (version e) = true.
Proof.
  unfold supersedes, sameKeySpace. rewrite !andb_true_iff, isPrefix_spec, !Z.eqb_eq, !compareBytes_eq.
  tauto.
Qed.

Lemma supersedes_irrefl e : supersedes e e = false.
Proof. unfold supersedes. by rewrite newer_irrefl, andb_false_r. Qed.

Lemma supersedes_trans a b c :
  supersedes a b = true -> supersedes b c = true -> supersedes a c = true.
Proof.
  rewrite !supersedes_spec. intros (-> & -> & [s Hs] & Hn) (-> & -> & [t Ht] & Hn').
  split_and!; [done..| |by eapply newer_trans]. exists (s ++ t). by rewrite app_assoc, <-Hs.
Qed.

(** ** Pruning *)

Definition superseded (entries : list DropEntry) (e : DropEntry) : bool :=
  existsb (fun other => supersedes other e) entries.

(** An entry never supersedes itself, so telling entries apart by position
    makes no difference. *)
Lemma kept_at_superseded entries i e :
  entries !! i = Some e -> kept_at entries i e = negb (superseded entries e).
Proof.
  intros Hi. unfold kept_at, superseded. f_equal. apply eq_bool_prop_intro.
  rewrite !Is_true_true, !existsb_exists. split.
  - intros ([j o] & Hin & Ho). apply list_elem_of_In, elem_of_imap_pair in Hin.
    exists o. breflect. split; [|done]. apply list_elem_of_In. by eapply list_elem_of_lookup_2.
  - intros (o & Hin & Ho). apply list_elem_of_In, list_elem_of_lookup in Hin as [j Hj].
    exists (j, o). split; [by apply list_elem_of_In, elem_of_imap_pair|].
    rewrite Ho, andb_true_r. apply negb_true_iff, Nat.eqb_neq. intros ->.
    rewrite Hi in Hj. injection Hj as <-. by rewrite supersedes_irrefl in Ho.
Qed.

Lemma prune_filter entries :
  (prune entries).1 = List.filter (fun e => negb (superseded entries e)) entries.
Proof.
  unfold prune; cbn [fst].
  assert (Hall : forall i e, (i, e) ∈ imap pair entries ->
    kept_at entries i e = negb (superseded entries e)).
  { intros i e Hin. by apply kept_at_superseded, elem_of_imap_pair. }
  revert Hall. generalize (kept_at entries), (superseded entries). intros K P.
  revert K. induction entries as [|e l IH] using rev_ind; intros K Hall; [done|].
  rewrite imap_app in *. rewrite omap_app, List.filter_app, <-(IH K).
  - f_equal. cbn. rewrite Hall; [by destruct (P e)|]. set_solver.
  - intros i x Hin. apply Hall. set_solver.
Qed.

Lemma superseded_true entries e :
  superseded entries e = true <-> exists o, o ∈ entries /\ supersedes o e = true.
Proof. unfold superseded. rewrite existsb_exists. by setoid_rewrite list_elem_of_In. Qed.

Lemma elem_of_prune entries e :
  e ∈ (prune entries).1 <-> e ∈ entries /\ forall o, o ∈ entries -> supersedes o e = false.
Proof.
  rewrite prune_filter, list_elem_of_In, List.filter_In, <-list_elem_of_In, negb_true_iff.
  rewrite <-not_true_iff_false, superseded_true. split; intros [Hin H]; (split; [done|]).
  - intros o Ho. apply not_true_iff_false. intros ?. apply H. eauto.
  - intros (o & Ho & Hs). rewrite H in Hs by done. done.
Qed.

(** Among the entries that supersede one, some are kept. *)
Lemma prune_dominates entries e :
  e ∈ entries -> exists o, o ∈ (prune entries).1 /\ (o = e \/ supersedes o e = true).
Proof.
  remember (length (List.filter (fun o => supersedes o e) entries)) as n eqn:Hn.
  revert e Hn; induction n as [n IH] using lt_wf_ind; intros e Hn He.
  destruct (superseded entries e) eqn:Hsup.
  - apply superseded_true in Hsup as (o & Ho & Hs).
    destruct (IH (length (List.filter (fun x => supersedes x o) entries))) with (e := o)
      as (m & Hm & Hmo); [|done|done|].
    + subst n. clear IH He. revert Ho Hs. generalize dependent e. intros e Ho Hs.
      induction entries as [|x l IHl]; [by apply elem_of_nil in Ho|].
      assert (Hle : forall k, (length (List.filter (fun x => supersedes x o) k)
        <= length (List.filter (fun x => supersedes x e) k))%nat).
      { induction k as [|y k IHk]; [done|]. cbn. destruct (supersedes y o) eqn:Hyo.
        - rewrite (supersedes_trans y o e) by done. cbn. lia.
        - destruct (supersedes y e); cbn; lia. }
      cbn. apply elem_of_cons in Ho as [->|Ho].
      * rewrite supersedes_irrefl, Hs. cbn. specialize (Hle l). lia.
      * specialize (IHl Ho). destruct (supersedes x o) eqn:Hxo.
        -- rewrite (supersedes_trans x o e) by done. cbn. lia.
        -- destruct (supersedes x e); cbn; lia.
    + exists m. split; [done|]. right. destruct Hmo as [->|Hmo]; [done|].
      by eapply supersedes_trans.
  - exists e. split; [|by left]. apply elem_of_prune. split; [done|]. intros o Ho.
    apply not_true_iff_false. intros Hs. apply not_true_iff_false in Hsup. apply Hsup.
    apply superseded_true. eauto.
Qed.

Lemma superseded_perm l k e : l ≡ₚ k -> superseded l e = superseded k e.
Proof.
  intros Hp. apply eq_bool_prop_intro. rewrite !Is_true_true, !superseded_true.
  by setoid_rewrite Hp.
Qed.

(** Prefix pruning keeps exactly the entries that no other
    entry of the drop supersedes (a newer one of the same namespace and
    subspace at the same path or a prefix of it); every entry it drops is
    superseded by one it keeps; pruning what was kept changes nothing; and
    what is kept does not depend on the order of the entries. *)
Theorem prune_join (entries : list DropEntry) :
  (forall e, e ∈ (prune entries).1 <->
     e ∈ entries /\ forall o, o ∈ entries -> supersedes o e = false) /\
  (forall e, e ∈ entries -> e ∉ (prune entries).1 ->
     exists o, o ∈ (prune entries).1 /\ supersedes o e = true) /\
  prune (prune entries).1 = ((prune entries).1, 0) /\
  (forall entries', entries' ≡ₚ entries -> (prune entries').1 ≡ₚ (prune entries).1).
Proof.
  split_and!.
  - apply elem_of_prune.
  - intros e He Hnot. destruct (prune_dominates entries e He) as (o & Ho & [->|Hs]); [done|].
    eauto.
  - assert ((prune (prune entries).1).1 = (prune entries).1) as Heq.
    { rewrite (prune_filter (prune entries).1). apply filter_length_id. intros e He.
      apply negb_true_iff, not_true_iff_false. intros (o & Ho & Hs)%superseded_true.
      apply elem_of_prune in He as [_ He]. rewrite He in Hs; [done|].
      by apply elem_of_prune in Ho as [Ho _]. }
    rewrite (surjective_pairing (prune (prune entries).1)), Heq. f_equal.
    change (prune (prune entries).1).2 with
      (len (prune entries).1 - len (prune (prune entries).1).1). rewrite Heq. lia.
  - intros entries' Hp. rewrite !prune_filter, (filter_Permutation _ _ _ Hp).
    assert (forall e, negb (superseded entries' e) = negb (superseded entries e)) as Hext
      by (intros e; by rewrite (superseded_perm _ _ e Hp)).
    by rewrite (List.filter_ext _ _ Hext).
Qed.

(** ** The source identity *)

Lemma hex_inj a b : Forall is_byte a -> Forall is_byte b -> hex a = hex b -> a = b.
Proof.
  intros Ha; revert b; induction Ha as [|x a Hx Ha IH]; intros b Hb; destruct Hb as [|y b Hy Hb];
    [done|done|done|]. unfold is_byte in *. cbn. intros [= H1 H2 H3].
  apply (f_equal unhex) in H1, H2. rewrite !unhex_digit in H1, H2 by dlia.
  f_equal; [dlia|by apply IH].
Qed.

Lemma hex_units bs : Forall is_byte bs -> Forall (fun c => 0 <= c) (hex bs).
Proof.
  induction 1 as [|b bs Hb Hbs IH]; [constructor|]. unfold is_byte in Hb. cbn.
  assert (H : forall n, 0 <= n -> 0 <= hex_digit n) by (intros; unfold hex_digit; case_match; lia).
  constructor; [apply H; dlia|]. constructor; [apply H; dlia|done].
Qed.

(** The bytes of an entry's key are bytes. *)
Definition key_bytes (e : DropEntry) : Prop :=
  Forall is_byte (namespace e) /\ Forall is_byte (subspace e) /\ Forall (Forall is_byte) (path e).

Lemma hex_path_inj p q :
  Forall (Forall is_byte) p -> Forall (Forall is_byte) q ->
  map (fun c => JStr (hex c)) p = map (fun c => JStr (hex c)) q -> p = q.
Proof.
  intros Hp; revert q; induction Hp as [|c p Hc Hp IH]; intros q Hq; destruct Hq as [|d q Hd Hq];
    [done|done|done|]. cbn. intros [= H1 H2]. f_equal; [by apply hex_inj|by apply IH].
Qed.

Lemma key_json_ok n s p :
  Forall is_byte n -> Forall is_byte s -> Forall (Forall is_byte) p ->
  Forall json_ok [JStr (js "willow25"); JStr (hex n); JStr (hex s);
                  JArr (map (fun c => JStr (hex c)) p)].
Proof.
  intros Hn Hs Hp. constructor; [cbn; by_decide|].
  constructor; [by apply hex_units|]. constructor; [by apply hex_units|]. constructor; [|constructor].
  apply json_ok_arr. induction Hp; cbn; constructor; [by apply hex_units|done].
Qed.

(** Two entries have the same source identity exactly when
    they have the same store key (namespace, subspace and path): rows of
    different entries are never merged, and versions of one entry always are. *)
Theorem sourceId_key (a b : DropEntry) :
  key_bytes a -> key_bytes b ->
  sourceId a = sourceId b <->
  namespace a = namespace b /\ subspace a = subspace b /\ path a = path b.
Proof.
  intros (Hna & Hsa & Hpa) (Hnb & Hsb & Hpb). split.
  - unfold sourceId. intros Heq. apply stringify_inj in Heq as [= H1 H2 H3].
    + split_and!; [by apply hex_inj|by apply hex_inj|by apply hex_path_inj].
    + apply json_ok_arr. apply key_json_ok; done.
    + apply json_ok_arr. apply key_json_ok; done.
  - unfold sourceId. by intros (-> & -> & ->).
Qed.

Lemma sourceId_key_witness :
  let a := demo_entry in
  key_bytes a /\ (sourceId a = sourceId a <->
    namespace a = namespace a /\ subspace a = subspace a /\ path a = path a).
Proof.
  intros a. assert (H : key_bytes a) by (split; [|split]; by_decide).
  split; [exact H|exact (sourceId_key a a H H)].
Defined.
