(* ===== verification/MoneyParser.v ===== *)
(** * Bank statements: MT940

    Models [src/integrations/money/parser.ts] and the error types of
    [src/integrations/money/errors.ts]: exact decimal amounts, dates, balance
    and transaction lines, the state machine of [parseMT940] over the file's
    fields, reconciliation and the refusal of JSON-shaped narratives.

    A thrown [StatementError] carries its data; a plain [Error] its message.
    [current] of the source is a statement object that is also in
    [statements]: here the index of it in that list, so that a write through
    one is seen through the other. *)
From S2P Require Import Prelude Text JsDate.
Local Open Scope Z_scope.

(** ** Errors *)

(* src: integrations/money/statement.ts 6-6 StatementFormat *)
Inductive StatementFormat := mt940 | camt053.

(* src: integrations/money/errors.ts 15-53 StatementErrorData *)
Inductive StatementErrorData :=
| BALANCE_MISMATCH (statement account currency opening : jstr) (entries : Z)
    (entriesSum expectedClosing closing start end_ : jstr)
| OVERLAP_WITHOUT_REFERENCES (statement account : jstr) (thisPeriod : jstr * jstr)
    (overlappingDate : jstr)
| REPEATED_REFERENCE (reference : jstr)
| CONFLICTING_REFERENCE (reference : jstr)
| JSON_NARRATIVE (count : Z)
| INVALID_FIELD (tag : jstr) (line : option Z)
| FILE_TOO_LARGE (limit : Z) (format : StatementFormat)
| TOO_MANY_ENTRIES (limit : Z)
| MISSING_BALANCE (statement : option jstr)
| NOT_A_STATEMENT.

(* src: integrations/money/errors.ts 57-69 StatementError *)
Inductive JsError :=
| StatementError (data : StatementErrorData) (message : string)
| PlainError (message : string).

(** [throw new Error(message)]. *)
Definition error {A} (message : string) : res JsError A := Err (PlainError message).

(* src: integrations/money/errors.ts 71-75 statementError *)
Definition statementError {A} (data : StatementErrorData) (message : string) : res JsError A :=
  Err (StatementError data message).

(* src: integrations/money/errors.ts 77-79 isStatementError *)
Definition isStatementError (e : JsError) : bool :=
  match e with StatementError _ _ => true | PlainError _ => false end.

(** ** Data *)

(* src: integrations/money/parser.ts 4-12 Transaction *)
Record Transaction := mkTransaction {
  date : jstr;
  bookingDate : jstr;
  amount : jstr;
  code : jstr;
  reference : jstr;
  bankReference : jstr;
  description : jstr;
}.

(* src: integrations/money/parser.ts 13-22 Statement *)
Record Statement := mkStatement {
  account : jstr;
  number : jstr;
  currency : jstr;
  opening : jstr;
  closing : jstr;
  start : jstr;
  end_ : jstr;
  transactions : list Transaction;
}.

(** ** Amounts *)

(** [s.replace(/^0+(?=\d)/, '')]. *)
Fixpoint strip_leading_zeros (s : jstr) : jstr :=
  match s with
  | c :: s' =>
      match s' with
      | d :: _ => if (c =? 48) && is_digit d then strip_leading_zeros s' else s
      | [] => s
      end
  | [] => []
  end.

(** [s.replace(/0+$/, '')]. *)
Fixpoint drop_zeros (s : jstr) : jstr :=
  match s with c :: s' => if c =? 48 then drop_zeros s' else s | [] => [] end.
Definition strip_trailing_zeros (s : jstr) : jstr := reverse (drop_zeros (reverse s)).

(** [/^\d{1,15},\d{0,5}$/]: the digits before and after the comma. *)
Definition amount_parts (raw : jstr) : option (jstr * jstr) :=
  let '(whole, rest) := span is_digit raw in
  match rest with
  | comma :: fraction =>
      if (comma =? 44) && (1 <=? len whole) && (len whole <=? 15) && (len fraction <=? 5)
         && forallb is_digit fraction
      then Some (whole, fraction) else None
  | [] => None
  end.

(* src: integrations/money/parser.ts 23-30 decimal *)
Definition decimal (raw : jstr) (negative : bool) : res JsError jstr :=
  match amount_parts raw with
  | None => error "Invalid MT940 amount"
  | Some (whole, fraction) =>
      let fraction := strip_trailing_zeros fraction in
      let value := strip_leading_zeros whole ++
        (if bool_decide (fraction = []) then [] else 46 :: fraction) in
      Ok (if negative && negb (jeqb value (js "0")) then 45 :: value else value)
  end.

(** [BigInt(s)] of digits; [None]: a [SyntaxError], or text that is no plain
    run of digits. *)
Definition BigInt (s : jstr) : option Z :=
  if forallb is_digit s then Some (parse_dec s) else None.

(* src: integrations/money/parser.ts 31-36 units *)
Definition units (value : jstr) : option Z :=
  let negative := starts_with [45] value in
  let value := if negative then tail value else value in
  let '(whole, fraction) :=
    match split_str [46] value with
    | whole :: fraction :: _ => (whole, fraction)
    | whole :: _ => (whole, [])
    | [] => ([], [])
    end in
  n ← BigInt (whole ++ padEnd 5 48 fraction);
  Some (n * (if negative then -1 else 1)).

(** ** Dates and lines *)

Definition all_digits (n : nat) (s : jstr) : bool := (length s =? n)%nat && forallb is_digit s.

(* src: integrations/money/parser.ts 38-51 date *)
Definition parse_date (raw : jstr) : res JsError jstr :=
  let year := parse_dec (slice 0 2 raw) in
  let full := if 70 <=? year then 1900 + year else 2000 + year in
  let result := dec full ++ 45 :: slice 2 4 raw ++ 45 :: slice 4 6 raw in
  if all_digits 6 raw then
    match Date_parse (fun _ => None) (result ++ js "T00:00:00Z") with
    | None => error "Invalid MT940 date"
    | Some t =>
        match toISOString t with
        | Some iso => if jeqb (slice 0 10 iso) result then Ok result else error "Invalid MT940 date"
        | None => error "Invalid MT940 date"
        end
    end
  else error "Invalid MT940 date".

Record Balance := mkBalance { b_date : jstr; b_currency : jstr; b_amount : jstr }.

(** [/\d+,\d{0,}/] at the start of a text, and what follows. *)
Definition match_amount (s : jstr) : option (jstr * jstr) :=
  let '(whole, rest) := span is_digit s in
  match whole, rest with
  | _ :: _, comma :: rest =>
      if comma =? 44 then
        let '(fraction, rest) := span is_digit rest in Some (whole ++ 44 :: fraction, rest)
      else None
  | _, _ => None
  end.

(** [/^([CD])(\d{6})([A-Z]{3})(\d+,\d{0,})$/]. *)
Definition match_balance (value : jstr) : option (Z * jstr * jstr * jstr) :=
  match value with
  | [] => None
  | sign :: rest =>
      let day := take 6 rest in
      let currency := take 3 (drop 6 rest) in
      '(amount, rest) ← match_amount (drop 9 rest);
      if ((sign =? 67) || (sign =? 68)) && all_digits 6 day
         && (length currency =? 3)%nat && forallb is_upper currency && bool_decide (rest = [])
      then Some (sign, day, currency, amount) else None
  end.

(* src: integrations/money/parser.ts 53-62 balance *)
Definition balance (value : jstr) : res JsError Balance :=
  match match_balance value with
  | None => error "Invalid MT940 balance"
  | Some (sign, day, currency, amount) =>
      d ← parse_date day;
      a ← decimal amount (sign =? 68);
      Ok (mkBalance d currency a)
  end.

(** [(RC|RD|C|D)]: reversals of credit and debit first. *)
Definition match_mark (s : jstr) : option (jstr * jstr) :=
  if starts_with (js "RC") s then Some (js "RC", drop 2 s)
  else if starts_with (js "RD") s then Some (js "RD", drop 2 s)
  else if starts_with (js "C") s then Some (js "C", drop 1 s)
  else if starts_with (js "D") s then Some (js "D", drop 1 s)
  else None.

Definition is_alnum (c : Z) : bool := is_upper c || is_digit c.

(** [([NSF][A-Z0-9]{3})(.{0,})$]. *)
Definition match_code (s : jstr) : option (jstr * jstr) :=
  match s with
  | c0 :: c1 :: c2 :: c3 :: rest =>
      if ((c0 =? 78) || (c0 =? 83) || (c0 =? 70)) && is_alnum c1 && is_alnum c2 && is_alnum c3
         && all_dots rest
      then Some ([c0; c1; c2; c3], rest) else None
  | _ => None
  end.

Record TransactionLine := mkLine {
  l_date : jstr; l_booking : option jstr; l_mark : jstr; l_amount : jstr; l_code : jstr; l_rest : jstr
}.

(** [/^(\d{6})(\d{4})?(RC|RD|C|D)([A-Z])?(\d+,\d{0,})([NSF][A-Z0-9]{3})(.{0,})$/]:
    every choice in it is settled by the next character. *)
Definition match_transaction (line : jstr) : option TransactionLine :=
  let day := take 6 line in
  let rest := drop 6 line in
  if all_digits 6 day then
    let booking := if all_digits 4 (take 4 rest) then Some (take 4 rest) else None in
    let rest := if booking is Some _ then drop 4 rest else rest in
    '(mark, rest) ← match_mark rest;
    let rest := match rest with c :: rest' => if is_upper c then rest' else rest | [] => rest end in
    '(amount, rest) ← match_amount rest;
    '(code, rest) ← match_code rest;
    Some (mkLine day booking mark amount code rest)
  else None.

(* src: integrations/money/parser.ts 64-96 transaction *)
Definition transaction (value : jstr) : res JsError Transaction :=
  let lines := split_str [10] value in
  let line := hd [] lines in
  let extra := tail lines in
  match match_transaction line with
  | None => error "Unsupported MT940 transaction line"
  | Some m =>
      valueDate ← parse_date (l_date m);
      bookingDate ←
        (match l_booking m with
         | None => Ok valueDate
         | Some day =>
             let valueYear := parse_dec (slice 0 4 valueDate) in
             let month := parse_dec (slice 0 2 day) in
             let valueMonth := parse_dec (slice 5 7 valueDate) in
             let year := valueYear +
               (if 6 <? month - valueMonth then -1 else if 6 <? valueMonth - month then 1 else 0) in
             parse_date (pad_dec 2 (Z.rem year 100) ++ day)
         end);
      match split_str [47; 47] (l_rest m) with
      | [] => error "Invalid MT940 transaction reference"
      | reference :: rest =>
          if bool_decide (reference = []) || (2 <=? length rest)%nat
          then error "Invalid MT940 transaction reference"
          else
            amount ← decimal (l_amount m) (jeqb (l_mark m) (js "D") || jeqb (l_mark m) (js "RC"));
            Ok (mkTransaction valueDate bookingDate amount (l_code m) reference (hd [] rest)
                  (join_str [10] extra))
      end
  end.

(** ** The fields of a file *)

Record Field := mkField { f_tag : jstr; f_value : jstr; f_line : Z }.

(** [/^(?:\{1:.{0,}\{4:|\{4:| -\}|-\}|\{5:.{0,}\})$/]: the SWIFT envelope. *)
Definition is_envelope (line : jstr) : bool :=
  all_dots line &&
  ((starts_with (js "{1:") line && ends_with (js "{4:") line && (6 <=? length line)%nat)
   || jeqb line (js "{4:") || jeqb line (js " -}") || jeqb line (js "-}")
   || (starts_with (js "{5:") line && ends_with (js "}") line && (4 <=? length line)%nat)).

(** [/^:(\d{2}[A-Z]?):(.{0,})$/]: tag and value. *)
Definition match_field (line : jstr) : option (jstr * jstr) :=
  match line with
  | colon :: d1 :: d2 :: rest =>
      if (colon =? 58) && is_digit d1 && is_digit d2 then
        let '(tag, rest) :=
          match rest with
          | c :: rest' => if is_upper c then ([d1; d2; c], rest') else ([d1; d2], rest)
          | [] => ([d1; d2], [])
          end in
        match rest with
        | c :: value => if (c =? 58) && all_dots value then Some (tag, value) else None
        | [] => None
        end
      else None
  | _ => None
  end.

(** One line of the file, at [index]. *)
Definition read_line (fields : list Field) (entry : nat * jstr) : res JsError (list Field) :=
  let '(index, line) := entry in
  let number := Z.of_nat index + 1 in
  if is_envelope line then Ok fields
  else
    match match_field line with
    | Some (tag, value) => Ok (fields ++ [mkField tag value number])
    | None =>
        if bool_decide (trim line = []) then Ok fields
        else
          match last fields with
          | Some previous =>
              if jeqb (f_tag previous) (js "61") || jeqb (f_tag previous) (js "86") then
                Ok (removelast fields ++
                    [mkField (f_tag previous) (f_value previous ++ 10 :: line) (f_line previous)])
              else statementError (INVALID_FIELD (f_tag previous) (Some number))
                     "Unsupported MT940 header or field continuation"
          | None => statementError (INVALID_FIELD (js "header") (Some number))
                      "Unsupported MT940 header or field continuation"
          end
    end.

(** [text.replace(/\r\n?/g, '\n')]. *)
Fixpoint normalize_newlines (s : jstr) : jstr :=
  match s with
  | [] => []
  | c :: s' =>
      if c =? 13 then
        10 :: match s' with
              | d :: s'' => if d =? 10 then normalize_newlines s'' else normalize_newlines s'
              | [] => []
              end
      else c :: normalize_newlines s'
  end.

Definition normalized (text : jstr) : jstr :=
  trim (normalize_newlines (match text with c :: s => if c =? 0xfeff then s else text | [] => [] end)).

(* src: integrations/money/parser.ts 99-126 parseMT940 (fields) ! *)
Definition read_fields (text : jstr) : res JsError (list Field) :=
  foldM read_line [] (imap pair (split_str [10] (normalized text))).

(** ** Reconciliation *)

(* src: integrations/money/parser.ts 251-259 decimalOf *)
Definition decimalOf (value : Z) : jstr :=
  let negative := value <? 0 in
  let digits := padStart 6 48 (dec (Z.abs value)) in
  let fraction := strip_trailing_zeros (drop (length digits - 5) digits) in
  let text := take (length digits - 5) digits
    ++ (if bool_decide (fraction = []) then [] else 46 :: fraction) in
  if negative then 45 :: text else text.

(** [rows.reduce((total, row) => total + units(row.amount), 0n)]. *)
Definition sum_units (rows : list Transaction) : option Z :=
  foldr (fun row total => n ← units (amount row); t ← total; Some (n + t)) (Some 0) rows.

(** What [units] throws on text that is no decimal. *)
Definition not_an_integer {A} : res JsError A := error "Cannot convert to a BigInt".

(* src: integrations/money/parser.ts 261-289 reconcile *)
Definition reconcile (statement : Statement) (closing end_ : jstr) : res JsError unit :=
  match sum_units (transactions statement), units (opening statement), units closing with
  | Some sum, Some opened, Some closed =>
      let expected := opened + sum in
      if expected =? closed then Ok tt
      else
        statementError
          (BALANCE_MISMATCH (number statement) (account statement) (currency statement)
             (opening statement) (len (transactions statement)) (decimalOf sum)
             (decimalOf expected) closing (start statement) end_)
          "Statement balance does not reconcile; no transactions will be imported"
  | _, _, _ => not_an_integer
  end.

(** ** JSON-shaped narratives

    What [JSON.parse] accepts, as a recogniser: each function returns the text
    after the construct it reads, or [None] for a [SyntaxError]. *)
Fixpoint skip_json_ws (s : jstr) : jstr :=
  match s with
  | c :: s' => if (c =? 32) || (c =? 9) || (c =? 10) || (c =? 13) then skip_json_ws s' else s
  | [] => []
  end.

Definition is_hex (c : Z) : bool :=
  is_digit c || ((65 <=? c) && (c <=? 70)) || ((97 <=? c) && (c <=? 102)).

(** The rest of a string literal, after its opening quote. *)
Fixpoint json_string (s : jstr) : option jstr :=
  match s with
  | [] => None
  | c :: s1 =>
      if c =? 34 then Some s1
      else if c <? 32 then None
      else if c =? 92 then
        match s1 with
        | [] => None
        | e :: s2 =>
            if bool_decide (e ∈ [34; 92; 47; 98; 102; 110; 114; 116]) then json_string s2
            else if e =? 117 then
              match s2 with
              | a :: b :: c :: d :: s3 =>
                  if is_hex a && is_hex b && is_hex c && is_hex d then json_string s3 else None
              | _ => None
              end
            else None
        end
      else json_string s1
  end.

Definition json_fraction (s : jstr) : option jstr :=
  match s with
  | c :: s' =>
      if c =? 46 then
        match span is_digit s' with ([], _) => None | (_, rest) => Some rest end
      else Some s
  | [] => Some []
  end.

Definition json_exponent (s : jstr) : option jstr :=
  match s with
  | c :: s' =>
      if (c =? 101) || (c =? 69) then
        let s' := match s' with
                  | d :: s'' => if (d =? 43) || (d =? 45) then s'' else s'
                  | [] => []
                  end in
        match span is_digit s' with ([], _) => None | (_, rest) => Some rest end
      else Some s
  | [] => Some []
  end.

Definition json_number (s : jstr) : option jstr :=
  let s := match s with c :: s' => if c =? 45 then s' else s | [] => [] end in
  match s with
  | c :: s' =>
      if is_digit c then
        let rest := if c =? 48 then s' else (span is_digit s').2 in
        rest ← json_fraction rest; json_exponent rest
      else None
  | [] => None
  end.

Definition json_literal (word s : jstr) : option jstr :=
  if starts_with word s then Some (drop (length word) s) else None.

Fixpoint json_value (fuel : nat) (s : jstr) : option jstr :=
  match fuel with
  | O => None
  | S f =>
      match skip_json_ws s with
      | [] => None
      | (c :: s') as whole =>
          if c =? 123 then
            match skip_json_ws s' with
            | d :: s'' => if d =? 125 then Some s'' else json_members f s'
            | [] => None
            end
          else if c =? 91 then
            match skip_json_ws s' with
            | d :: s'' => if d =? 93 then Some s'' else json_elements f s'
            | [] => None
            end
          else if c =? 34 then json_string s'
          else if c =? 116 then json_literal (js "true") whole
          else if c =? 102 then json_literal (js "false") whole
          else if c =? 110 then json_literal (js "null") whole
          else json_number whole
      end
  end
with json_elements (fuel : nat) (s : jstr) : option jstr :=
  match fuel with
  | O => None
  | S f =>
      rest ← json_value f s;
      match skip_json_ws rest with
      | c :: rest' =>
          if c =? 44 then json_elements f rest' else if c =? 93 then Some rest' else None
      | [] => None
      end
  end
with json_members (fuel : nat) (s : jstr) : option jstr :=
  match fuel with
  | O => None
  | S f =>
      match skip_json_ws s with
      | q :: s' =>
          if q =? 34 then
            rest ← json_string s';
            match skip_json_ws rest with
            | colon :: rest' =>
                if colon =? 58 then
                  rest ← json_value f rest';
                  match skip_json_ws rest with
                  | c :: rest' =>
                      if c =? 44 then json_members f rest' else if c =? 125 then Some rest' else None
                  | [] => None
                  end
                else None
            | [] => None
            end
          else None
      | [] => None
      end
  end.

(** Whether [JSON.parse(s)] returns. *)
Definition JSON_parses (s : jstr) : bool :=
  match json_value (2 * length s + 2) s with
  | Some rest => bool_decide (skip_json_ws rest = [])
  | None => false
  end.

Definition is_json_narrative (row : Transaction) : bool :=
  let narrative := trim (description row) in
  (starts_with (js "[") narrative || starts_with (js "{") narrative) && JSON_parses narrative.

(* src: integrations/money/parser.ts 290-318 rejectJsonNarratives *)
Definition rejectJsonNarratives (statements : list Statement) : res JsError unit :=
  let count := len (List.filter is_json_narrative (concat (map transactions statements))) in
  if count =? 0 then Ok tt
  else statementError (JSON_NARRATIVE count)
         "JSON-shaped bank narratives are not supported yet; the statement was not imported".

(** ** The state machine *)

Record PState := mkPState {
  p_account : jstr;
  p_number : jstr;
  p_current : option nat;
  p_closed : bool;
  p_count : Z;
  p_statements : list Statement;
}.

Definition initial : PState := mkPState [] [] None true 0 [].

(** [current], the object. *)
Definition current (st : PState) : option (nat * Statement) :=
  i ← p_current st; s ← p_statements st !! i; Some (i, s).

(** A write to the statement at [i]. *)
Definition set_statement (i : nat) (s : Statement) (st : PState) : PState :=
  mkPState (p_account st) (p_number st) (p_current st) (p_closed st) (p_count st)
    (<[i := s]> (p_statements st)).

Definition with_transactions (rows : list Transaction) (s : Statement) : Statement :=
  mkStatement (account s) (number s) (currency s) (opening s) (closing s) (start s) (end_ s) rows.

Definition with_description (d : jstr) (t : Transaction) : Transaction :=
  mkTransaction (date t) (bookingDate t) (amount t) (code t) (reference t) (bankReference t) d.

(** [[a, b].filter(Boolean).join('\n')]. *)
Definition join_narrative (a b : jstr) : jstr :=
  join_str [10] (List.filter (fun s => negb (bool_decide (s = []))) [a; b]).

(** [case '20']. *)
Definition field_20 (st : PState) : res JsError PState :=
  if negb (p_closed st) then
    statementError (MISSING_BALANCE (Some (p_number st))) "Statement is missing its closing balance"
  else Ok (mkPState [] [] None (p_closed st) (p_count st) (p_statements st)).

(** [case '25']. *)
Definition field_25 (value : jstr) (st : PState) : res JsError PState :=
  if negb (p_closed st) then error "Unexpected account inside a statement"
  else if bool_decide (trim value = []) then error "Missing bank account"
  else Ok (mkPState (trim value) (p_number st) (p_current st) (p_closed st) (p_count st)
             (p_statements st)).

(** [case '28'] and [case '28C']. *)
Definition field_28 (value : jstr) (st : PState) : res JsError PState :=
  if negb (p_closed st) then error "Unexpected statement number"
  else Ok (mkPState (p_account st) (trim value) (p_current st) (p_closed st) (p_count st)
             (p_statements st)).

(** [case '60F'] and [case '60M']. *)
Definition field_60 (value : jstr) (st : PState) : res JsError PState :=
  if negb (p_closed st) || bool_decide (p_account st = []) || bool_decide (p_number st = [])
  then error "Missing or out-of-order MT940 statement fields"
  else
    opening ← balance value;
    let s := mkStatement (p_account st) (p_number st) (b_currency opening) (b_amount opening) []
               (b_date opening) [] [] in
    Ok (mkPState (p_account st) (p_number st) (Some (length (p_statements st))) false
          (p_count st) (p_statements st ++ [s])).

(** [case '61']. *)
Definition field_61 (value : jstr) (st : PState) : res JsError PState :=
  match current st with
  | None => error "Transaction outside an open statement"
  | Some (i, s) =>
      if p_closed st then error "Transaction outside an open statement"
      else if 500 <? p_count st + 1 then
        statementError (TOO_MANY_ENTRIES 500)
          "Import at most 500 transactions at a time; export a shorter period"
      else
        row ← transaction value;
        let st := mkPState (p_account st) (p_number st) (p_current st) (p_closed st)
                    (p_count st + 1) (p_statements st) in
        Ok (set_statement i (with_transactions (transactions s ++ [row]) s) st)
  end.

(** [case '86']. *)
Definition field_86 (value : jstr) (st : PState) : res JsError PState :=
  match current st with
  | None => error "Unsupported statement-level narrative"
  | Some (i, s) =>
      if p_closed st then error "Unsupported statement-level narrative"
      else
        match last (transactions s) with
        | None => error "Narrative without a transaction"
        | Some row =>
            let row := with_description (join_narrative (description row) value) row in
            Ok (set_statement i (with_transactions (removelast (transactions s) ++ [row]) s) st)
        end
  end.

(** [case '62F'] and [case '62M']. *)
Definition field_62 (value : jstr) (st : PState) : res JsError PState :=
  match current st with
  | None => error "Closing balance without an open statement"
  | Some (i, s) =>
      if p_closed st then error "Closing balance without an open statement"
      else
        closing ← balance value;
        if negb (jeqb (b_currency closing) (currency s)) || jltb (b_date closing) (start s)
        then error "Statement currency or date range is inconsistent"
        else
          _ ← reconcile s (b_amount closing) (b_date closing);
          let s := mkStatement (account s) (number s) (currency s) (opening s) (b_amount closing)
                     (start s) (b_date closing) (transactions s) in
          let st := set_statement i s st in
          Ok (mkPState (p_account st) (p_number st) (p_current st) true (p_count st)
                (p_statements st))
  end.

(** The text of an error that names a tag, which [match_field] keeps to digits
    and capitals. *)
Definition text_of_tag (tag : jstr) : string :=
  foldr (fun c s => String.String (Ascii.ascii_of_N (Z.to_N c)) s) String.EmptyString tag.

(* src: integrations/money/parser.ts 146-238 field *)
Definition field (tag value : jstr) (st : PState) : res JsError PState :=
  if jeqb tag (js "20") then field_20 st
  else if jeqb tag (js "21") then Ok st
  else if jeqb tag (js "25") then field_25 value st
  else if jeqb tag (js "28") || jeqb tag (js "28C") then field_28 value st
  else if jeqb tag (js "60F") || jeqb tag (js "60M") then field_60 value st
  else if jeqb tag (js "61") then field_61 value st
  else if jeqb tag (js "86") then field_86 value st
  else if jeqb tag (js "62F") || jeqb tag (js "62M") then field_62 value st
  else if jeqb tag (js "64") || jeqb tag (js "65") then _ ← balance value; Ok st
  else error (String.append "Unsupported MT940 field :" (String.append (text_of_tag tag) ":")).

(** One field, its plain errors named by tag and line. *)
(* src: integrations/money/parser.ts 135-144 parseMT940 (field errors) ! *)
Definition process_field (st : PState) (f : Field) : res JsError PState :=
  match field (f_tag f) (f_value f) st with
  | Ok st => Ok st
  | Err (StatementError data message) => Err (StatementError data message)
  | Err (PlainError message) => statementError (INVALID_FIELD (f_tag f) (Some (f_line f))) message
  end.

(* src: integrations/money/parser.ts 98-249 parseMT940 *)
Definition parseMT940 (text : jstr) : res JsError (list Statement) :=
  if 512000 <? len text then
    statementError (FILE_TOO_LARGE 512000 mt940) "Choose an MT940 file smaller than 512 KB"
  else
    fields ← read_fields text;
    st ← foldM process_field initial fields;
    if bool_decide (p_statements st = []) || negb (p_closed st) then
      statementError
        (MISSING_BALANCE (if bool_decide (p_number st = []) then None else Some (p_number st)))
        "Incomplete MT940 statement: opening and closing balances are required"
    else
      _ ← rejectJsonNarratives (p_statements st);
      Ok (p_statements st).

Definition sample_mt940 : jstr :=
  js ":20:STARTUMS" ++ 13 :: 10 :: js ":25:NL00BANK0123456789" ++ 10 ::
  js ":28C:00001/001" ++ 10 :: js ":60F:C240101EUR100,00" ++ 10 ::
  js ":61:2401030103D12,50NTRFREF1//BANK1" ++ 10 :: js ":86:Groceries" ++ 10 ::
  js "and more" ++ 10 :: js ":61:240104C0,5NTRFREF2" ++ 10 :: js ":62F:C240131EUR88," ++ [10].

Example sample_parses :
  parseMT940 sample_mt940 = Ok [mkStatement (js "NL00BANK0123456789") (js "00001/001") (js "EUR")
    (js "100") (js "88") (js "2024-01-01") (js "2024-01-31")
    [mkTransaction (js "2024-01-03") (js "2024-01-03") (js "-12.5") (js "NTRF") (js "REF1")
       (js "BANK1") (js "Groceries" ++ 10 :: js "and more");
     mkTransaction (js "2024-01-04") (js "2024-01-04") (js "0.5") (js "NTRF") (js "REF2") [] []]].
Proof. vm_compute. reflexivity. Qed.

(** ** Amounts are exact *)

Abbreviation all_digit s := (Forall (fun c => is_digit c = true) s).

Lemma forallb_digits s : forallb is_digit s = true <-> all_digit s.
Proof.
  rewrite forallb_forall, Forall_forall. by setoid_rewrite list_elem_of_In.
Qed.

Lemma strip_leading_spec s :
  exists k, s = replicate k 48 ++ strip_leading_zeros s /\
    (s <> [] -> strip_leading_zeros s <> []) /\
    (all_digit s -> forall d, hd 0 (strip_leading_zeros s) = 48 -> strip_leading_zeros s <> 48 :: d :: tail (tail (strip_leading_zeros s))).
Proof.
  induction s as [|c s IH]; [by exists 0%nat|]. cbn [strip_leading_zeros].
  destruct s as [|d s]; [exists 0%nat; split_and!; done|].
  destruct IH as (k & Hk & Hne & Hcanon).
  destruct ((c =? 48) && is_digit d) eqn:Hc.
  - breflect. subst c. exists (S k). split_and!.
    + cbn [replicate app]. by rewrite <-Hk.
    + intros _. by apply Hne.
    + intros Hall. forall_split. apply Hcanon. by constructor.
  - exists 0%nat. split_and!; [done|done|]. intros Hall x Hhd Heq. cbn in Hhd. subst c.
    injection Heq as ->. forall_split. rewrite Z.eqb_refl in Hc. cbn in Hc. congruence.
Qed.

Lemma drop_zeros_spec s :
  exists k, s = replicate k 48 ++ drop_zeros s /\ hd 0 (drop_zeros s) <> 48.
Proof.
  induction s as [|c s (k & Hk & Hhd)]; [by exists 0%nat|]. cbn.
  destruct (Z.eqb_spec c 48) as [->|]; [|by exists 0%nat].
  exists (S k). split; [cbn; by rewrite <-Hk|done].
Qed.

Lemma strip_trailing_spec s :
  exists k, s = strip_trailing_zeros s ++ replicate k 48 /\
    (forall l, strip_trailing_zeros s <> l ++ [48]).
Proof.
  unfold strip_trailing_zeros. destruct (drop_zeros_spec (reverse s)) as (k & Hk & Hhd).
  exists k. split.
  - apply (f_equal reverse) in Hk. rewrite reverse_involutive, reverse_app, reverse_replicate in Hk.
    done.
  - intros l Hl. apply (f_equal reverse) in Hl. rewrite reverse_involutive, reverse_app in Hl.
    by rewrite Hl in Hhd.
Qed.

(** Padding a fraction does not see its trailing zeros. *)
Lemma padEnd_strip f : (length f <= 5)%nat -> padEnd 5 48 (strip_trailing_zeros f) = padEnd 5 48 f.
Proof.
  intros Hf. destruct (strip_trailing_spec f) as (k & Hk & _).
  unfold padEnd. pose proof (f_equal length Hk) as Hlen. rewrite length_app, length_replicate in Hlen.
  revert Hk Hlen. generalize (strip_trailing_zeros f) as g. intros g -> Hlen.
  rewrite <-app_assoc, <-replicate_add, length_app, length_replicate in *. do 2 f_equal. lia.
Qed.

(** A decimal text: sign, whole part and fraction. *)
Definition decimal_text (negative : bool) (whole fraction : jstr) : jstr :=
  (if negative then [45] else []) ++ whole ++
    (if bool_decide (fraction = []) then [] else 46 :: fraction).

Lemma all_digit_not c s : all_digit s -> is_digit c = false -> Forall (fun x => x <> c) s.
Proof. intros Hs Hc. eapply Forall_impl; [exact Hs|]. intros x Hx ->. congruence. Qed.

Lemma units_decimal_text negative whole fraction :
  all_digit whole -> whole <> [] -> all_digit fraction ->
  units (decimal_text negative whole fraction) =
    Some (parse_dec (whole ++ padEnd 5 48 fraction) * (if negative then -1 else 1)).
Proof.
  intros Hw Hne Hf. unfold units, decimal_text.
  set (body := whole ++ (if bool_decide (fraction = []) then [] else 46 :: fraction)).
  assert (starts_with [45] ((if negative then [45] else []) ++ body) = negative) as ->.
  { destruct negative; [done|]. subst body. destruct whole as [|c w]; [done|]. forall_split.
    cbn [app starts_with]. rewrite andb_true_r. apply Z.eqb_neq. by intros <-. }
  assert ((if negative then tail ((if negative then [45] else []) ++ body)
    else (if negative then [45] else []) ++ body) = body) as -> by (by destruct negative).
  subst body. unfold split_str.
  assert (Hbig : BigInt (whole ++ padEnd 5 48 fraction) = Some (parse_dec (whole ++ padEnd 5 48 fraction))).
  { unfold BigInt. rewrite (proj2 (forallb_digits _)); [done|]. unfold padEnd.
    apply Forall_app; split; [done|]. apply Forall_app; split; [done|]. by apply Forall_replicate. }
  case_bool_decide as Hfr.
  - subst fraction. rewrite app_nil_r, split_go_nosep by (by apply all_digit_not).
    cbn [app mbind]. rewrite Hbig. done.
  - rewrite split_go_sep by (by apply all_digit_not).
    rewrite split_go_nosep by (by apply all_digit_not). cbn [app mbind]. rewrite Hbig. done.
Qed.

Lemma padStart_length n c s : (n <= length (padStart n c s))%nat.
Proof. unfold padStart. rewrite length_app, length_replicate. lia. Qed.

Lemma decimalOf_text n :
  let digits := padStart 6 48 (dec (Z.abs n)) in
  decimalOf n = decimal_text (n <? 0) (take (length digits - 5) digits)
                  (strip_trailing_zeros (drop (length digits - 5) digits)).
Proof. unfold decimalOf, decimal_text. by destruct (n <? 0). Qed.

Lemma padStart_digits k s : all_digit s -> all_digit (padStart k 48 s).
Proof. intros. unfold padStart. apply Forall_app; split; [by apply Forall_replicate|done]. Qed.

Lemma strip_trailing_digits s : all_digit s -> all_digit (strip_trailing_zeros s).
Proof.
  intros Hs. destruct (strip_trailing_spec s) as (k & Hk & _). rewrite Hk in Hs.
  by apply Forall_app in Hs as [? _].
Qed.

Lemma units_decimalOf n : units (decimalOf n) = Some n.
Proof.
  rewrite decimalOf_text. cbn zeta. set (digits := padStart 6 48 (dec (Z.abs n))).
  destruct (dec_spec (Z.abs n)) as (Hp & Hd & _); [lia|].
  pose proof (padStart_digits 6 _ Hd) as Hdig.
  pose proof (padStart_length 6 48 (dec (Z.abs n))) as Hlen. fold digits in Hdig, Hlen.
  rewrite units_decimal_text.
  - rewrite padEnd_strip by (rewrite length_drop; lia).
    assert (padEnd 5 48 (drop (length digits - 5) digits) = drop (length digits - 5) digits) as ->.
    { unfold padEnd. rewrite length_drop. replace (5 - _)%nat with 0%nat by lia. apply app_nil_r. }
    rewrite take_drop. unfold digits. rewrite parse_dec_padStart, Hp. f_equal.
    destruct (Z.ltb_spec n 0); lia.
  - by apply Forall_take.
  - clearbody digits. intros H. apply (f_equal length) in H.
    rewrite length_take in H. cbn in H. lia.
  - by apply strip_trailing_digits, Forall_drop.
Qed.

Lemma dec_of_digits s : all_digit s -> s <> [] -> hd 0 s <> 48 -> dec (parse_dec s) = s.
Proof.
  intros Hs Hne Hhd. pose proof (parse_dec_range s Hs) as Hr.
  destruct (dec_spec (parse_dec s)) as (Hp & Hd & _); [lia|].
  apply digits_eq; [done|done| |done].
  assert (length (dec (parse_dec s)) <= length s)%nat.
  { apply dec_fuel_length; [exact Hr|]. destruct s; [done|cbn; lia]. }
  pose proof (parse_dec_range _ Hd) as Hr'. rewrite Hp in Hr'.
  destruct s as [|c s]; [done|]. forall_split. cbn [hd] in Hhd.
  pose proof (parse_dec_range s ltac:(done)). rewrite parse_dec_cons in *.
  unfold is_digit in *. breflect. unfold len in *. cbn [length] in *.
  destruct (decide (length (dec ((c - 48) * 10 ^ Z.of_nat (length s) + parse_dec s)) <= length s)%nat)
    as [Hle|]; [|lia].
  pose proof (Z.pow_le_mono_r 10 _ _ ltac:(lia) (proj1 (Nat2Z.inj_le _ _) Hle)). nia.
Qed.

Lemma strip_trailing_app f k :
  (forall l, f <> l ++ [48]) -> strip_trailing_zeros (f ++ replicate k 48) = f.
Proof.
  intros Hf. unfold strip_trailing_zeros. rewrite reverse_app, reverse_replicate.
  assert (drop_zeros (replicate k 48 ++ reverse f) = reverse f) as ->; [|apply reverse_involutive].
  induction k as [|k IH]; cbn; [|done].
  destruct (reverse f) as [|c r] eqn:Hr; [done|]. cbn. destruct (Z.eqb_spec c 48) as [->|]; [|done].
  exfalso. apply (f_equal reverse) in Hr. rewrite reverse_involutive, reverse_cons in Hr.
  by apply (Hf (reverse r)).
Qed.

Lemma parse_dec_zero s : all_digit s -> parse_dec s = 0 -> s = replicate (length s) 48.
Proof.
  induction 1 as [|c s Hc Hs IH]; [done|]. rewrite parse_dec_cons. intros H0.
  pose proof (parse_dec_range s Hs). unfold is_digit in Hc. breflect.
  pose proof (Z.pow_pos_nonneg 10 (len s) ltac:(lia) ltac:(unfold len; lia)).
  assert (c = 48) as -> by nia. cbn. f_equal. apply IH. lia.
Qed.

(** The normal form [decimal] writes: no superfluous zeros on either side. *)
Definition canonical (whole fraction : jstr) : Prop :=
  all_digit whole /\ whole <> [] /\ (hd 0 whole = 48 -> whole = [48]) /\
  all_digit fraction /\ (length fraction <= 5)%nat /\ (forall l, fraction <> l ++ [48]).

Lemma padEnd_digits f : all_digit f -> all_digit (padEnd 5 48 f).
Proof. intros. unfold padEnd. apply Forall_app; split; [done|by apply Forall_replicate]. Qed.

Lemma padEnd_length f : (length f <= 5)%nat -> length (padEnd 5 48 f) = 5%nat.
Proof. intros. unfold padEnd. rewrite length_app, length_replicate. lia. Qed.

Lemma canonical_digits w f :
  canonical w f -> padStart 6 48 (dec (parse_dec (w ++ padEnd 5 48 f))) = w ++ padEnd 5 48 f.
Proof.
  intros (Hw & Hne & Hhd & Hf & Hlf & _). set (D := w ++ padEnd 5 48 f).
  assert (HD : all_digit D) by (apply Forall_app; split; [done|by apply padEnd_digits]).
  assert (HlD : length D = (length w + 5)%nat) by (unfold D; rewrite length_app, padEnd_length by done; done).
  destruct (decide (hd 0 w = 48)) as [H48|H48].
  - apply digits_eq; [|done| |].
    + apply padStart_digits, dec_spec. by apply parse_dec_range.
    + rewrite (Hhd H48) in HlD. rewrite HlD. cbn [length Nat.add].
      apply pad_dec_length; [|lia]. pose proof (parse_dec_range D HD) as Hr.
      unfold len in Hr. by rewrite HlD in Hr.
    + rewrite parse_dec_padStart. by apply dec_spec, parse_dec_range.
  - rewrite dec_of_digits; [|done| |].
    + unfold padStart. rewrite HlD. destruct w; [done|]. cbn [length].
      replace (6 - _)%nat with 0%nat by lia. done.
    + unfold D. by destruct w.
    + unfold D. by destruct w.
Qed.

Lemma decimalOf_canonical negative w f :
  canonical w f -> (negative = true -> (w, f) <> ([48], [])) ->
  decimalOf (parse_dec (w ++ padEnd 5 48 f) * (if negative then -1 else 1)) = decimal_text negative w f.
Proof.
  intros Hc Hneg. pose proof (canonical_digits w f Hc) as HD.
  destruct Hc as (Hw & Hne & Hhd & Hf & Hlf & Hlast).
  set (D := w ++ padEnd 5 48 f) in *.
  assert (HDd : all_digit D) by (apply Forall_app; split; [done|by apply padEnd_digits]).
  pose proof (parse_dec_range D HDd) as HN.
  assert (Hpos : negative = true -> parse_dec D <> 0).
  { intros Hn H0. apply (Hneg Hn). apply (parse_dec_zero D HDd) in H0.
    assert (HwD : w = replicate (length w) 48).
    { apply (f_equal (take (length w))) in H0. unfold D in H0 at 1.
      rewrite take_app_length, take_replicate in H0. rewrite H0 at 1. f_equal.
      unfold D. rewrite length_app. lia. }
    assert (w = [48]) as ->.
    { apply Hhd. destruct w as [|c w]; [done|]. cbn in HwD. by injection HwD as -> _. }
    f_equal. destruct f as [|x f _] using rev_ind; [done|]. exfalso.
    assert (Hin : x ∈ D) by (unfold D, padEnd; rewrite !elem_of_app; right; left; right; by left).
    rewrite H0 in Hin. apply elem_of_replicate in Hin as [-> _]. by apply (Hlast f). }
  rewrite decimalOf_text. cbn zeta.
  assert (Z.abs (parse_dec D * (if negative then -1 else 1)) = parse_dec D) as ->
    by (destruct negative; lia).
  rewrite HD. unfold D at 2 3 4 5. rewrite length_app, padEnd_length, Nat.add_sub by done.
  rewrite take_app_length, drop_app_length. unfold padEnd. rewrite strip_trailing_app by done.
  f_equal. destruct negative; [specialize (Hpos eq_refl); lia|lia].
Qed.

Lemma decimal_canonical raw negative v :
  decimal raw negative = Ok v ->
  exists whole fraction, amount_parts raw = Some (whole, fraction) /\
    all_digit whole /\ all_digit fraction /\ (length fraction <= 5)%nat /\
    canonical (strip_leading_zeros whole) (strip_trailing_zeros fraction) /\
    exists sign, v = decimal_text sign (strip_leading_zeros whole) (strip_trailing_zeros fraction) /\
      (sign = true -> negative = true /\ (strip_leading_zeros whole, strip_trailing_zeros fraction) <> ([48], [])) /\
      (sign = false -> negative = true -> (strip_leading_zeros whole, strip_trailing_zeros fraction) = ([48], [])).
Proof.
  unfold decimal. destruct (amount_parts raw) as [[w f]|] eqn:Hparts; [|done].
  unfold amount_parts in Hparts. pose proof (span_all is_digit raw) as Hw.
  destruct (span is_digit raw) as [w0 rest]. cbn [fst] in Hw.
  destruct rest as [|comma f0]; [done|].
  match goal with H : (if ?b then _ else _) = _ |- _ => destruct b eqn:Hb; [|done] end.
  injection Hparts as -> ->. breflect. match goal with H : forallb is_digit _ = true |- _ => apply forallb_digits in H end.
  unfold len in *.
  intros [= Hv]. exists w, f. split; [done|]. split; [done|]. split; [done|]. split; [lia|].
  destruct (strip_leading_spec w) as (k & Hk & Hne & Hz).
  destruct (strip_trailing_spec f) as (j & Hj & Hlast).
  assert (Hcan : canonical (strip_leading_zeros w) (strip_trailing_zeros f)).
  { split_and!.
    - rewrite Hk in Hw. by apply Forall_app in Hw as [_ ?].
    - apply Hne. intros ->. cbn in *. lia.
    - intros H48. specialize (Hz Hw). destruct (strip_leading_zeros w) as [|c [|d l]]; [by destruct Hne; destruct w; cbn in *; lia| |].
      + cbn in H48. by subst.
      + cbn in H48. subst. exfalso. by apply (Hz d).
    - by apply strip_trailing_digits.
    - apply (f_equal length) in Hj. rewrite length_app, length_replicate in Hj. lia.
    - exact Hlast. }
  split; [done|].
  set (W := strip_leading_zeros w) in *. set (F := strip_trailing_zeros f) in *.
  assert (Hzero : jeqb (W ++ (if bool_decide (F = []) then [] else 46 :: F)) (js "0") = true
    <-> (W, F) = ([48], [])).
  { unfold jeqb. rewrite bool_decide_eq_true. destruct Hcan as (HW & HWne & _).
    case_bool_decide as HF.
    - rewrite app_nil_r, HF. split; [by intros ->|by intros [= ->]].
    - split; [|by intros [= _ ->]]. intros Heq. exfalso. destruct W as [|c W]; [done|].
      injection Heq as _ Heq. by destruct W. }
  exists (negative && negb (jeqb (W ++ (if bool_decide (F = []) then [] else 46 :: F)) (js "0"))).
  split.
  - rewrite <-Hv. unfold decimal_text. by destruct (negative && _).
  - split.
    + intros [Hn Hj']%andb_true_iff. split; [done|]. rewrite <-Hzero. apply negb_true_iff in Hj'. congruence.
    + intros Hs ->. apply Hzero. cbn in Hs. by apply negb_false_iff in Hs.
Qed.

(** Reading an MT940 amount is exact: the text [decimal]
    makes of digits [whole,fraction] stands for exactly that number of
    hundred-thousandths ([units]), negative only when asked, and it is the
    one canonical text of that number, which [decimalOf] writes again. *)
Theorem decimal_exact (raw v : jstr) (negative : bool) :
  decimal raw negative = Ok v ->
  exists whole fraction n, amount_parts raw = Some (whole, fraction) /\
    n = parse_dec (whole ++ padEnd 5 48 fraction) * (if negative then -1 else 1) /\
    units v = Some n /\ decimalOf n = v.
Proof.
  intros (w & f & Hparts & Hw & Hf & Hlf & Hcan & sign & -> & Hneg & Hpos)%decimal_canonical.
  exists w, f, (parse_dec (w ++ padEnd 5 48 f) * (if negative then -1 else 1)).
  assert (Hval : parse_dec (strip_leading_zeros w ++ padEnd 5 48 (strip_trailing_zeros f))
    = parse_dec (w ++ padEnd 5 48 f)).
  { rewrite padEnd_strip by done. destruct (strip_leading_spec w) as (k & Hk & _).
    rewrite Hk at 2. rewrite <-app_assoc. symmetry. apply parse_dec_zeros. }
  assert (Hsign : parse_dec (w ++ padEnd 5 48 f) * (if negative then -1 else 1)
    = parse_dec (w ++ padEnd 5 48 f) * (if sign then -1 else 1)).
  { destruct sign; [by destruct (Hneg eq_refl) as [-> _]|].
    destruct negative; [|done]. specialize (Hpos eq_refl eq_refl).
    rewrite <-Hval. injection Hpos as -> ->. done. }
  split_and!; [done|done|..]; rewrite Hsign, <-Hval.
  - destruct Hcan as (? & ? & _ & ? & _). by apply units_decimal_text.
  - apply decimalOf_canonical; [done|]. intros ->. by apply Hneg.
Qed.

Lemma decimal_exact_witness :
  decimal (js "0012,50") true = Ok (js "-12.5") /\
  exists whole fraction n, amount_parts (js "0012,50") = Some (whole, fraction) /\
    n = parse_dec (whole ++ padEnd 5 48 fraction) * -1 /\
    units (js "-12.5") = Some n /\ decimalOf n = js "-12.5".
Proof.
  assert (H : decimal (js "0012,50") true = Ok (js "-12.5")) by (vm_compute; reflexivity).
  split; [exact H|exact (decimal_exact _ _ _ H)].
Defined.

(** ** What the parser accepts *)

(** A calendar date, written [YYYY-MM-DD]. *)
Definition is_date (s : jstr) : Prop :=
  exists y m d, 0 <= y <= 9999 /\ valid_civil y m d = true /\ s = iso_date y m d.

Lemma iso_date_length y m d :
  0 <= y <= 9999 -> valid_civil y m d = true -> length (iso_date y m d) = 10%nat.
Proof.
  intros Hy Hv. unfold valid_civil in Hv. breflect. pose proof (days_in_month_range y m).
  unfold iso_date. rewrite (proj2 (Z.leb_le 0 y)), (proj2 (Z.leb_le y 9999)) by lia. cbn [andb].
  rewrite length_app. cbn [length]. rewrite length_app. cbn [length].
  rewrite !pad_dec_length by (cbn; lia). done.
Qed.

Lemma toISOString_date t s :
  toISOString t = Some s -> is_digit (hd 0 s) = true -> is_date (slice 0 10 s).
Proof.
  unfold toISOString. case_match; [done|].
  pose proof (days_from_civil_from_days (t / DAY_MS)) as Hday.
  destruct (civil_from_days _) as [[y m] d]. destruct Hday as [Hv _]. intros [= <-] Hhd.
  assert (Hy : 0 <= y <= 9999).
  { revert Hhd. unfold iso_date. destruct ((0 <=? y) && (y <=? 9999)) eqn:Hy; [by breflect|].
    cbn. by destruct (y <? 0). }
  exists y, m, d. split; [done|]. split; [done|].
  unfold slice. rewrite drop_0, Nat.sub_0_r, <-(iso_date_length y m d) by done.
  apply take_app_length.
Qed.

(** The century [date] chooses. *)
Lemma full_year_digit year :
  0 <= year < 100 -> is_digit (hd 0 (dec (if 70 <=? year then 1900 + year else 2000 + year))) = true.
Proof.
  intros Hy. apply (zseq_all 100 (fun year =>
    is_digit (hd 0 (dec (if 70 <=? year then 1900 + year else 2000 + year))))); [|lia].
  vm_compute. reflexivity.
Qed.

Lemma parse_date_ok raw r : parse_date raw = Ok r -> is_date r.
Proof.
  unfold parse_date. set (year := parse_dec (slice 0 2 raw)). cbn zeta.
  destruct (all_digits 6 raw) eqn:Hraw; [|done].
  destruct (Date_parse _ _) as [t|]; [|done].
  destruct (toISOString t) as [iso|] eqn:Hiso; [|done].
  unfold jeqb. case_bool_decide as Heq; [|done]. intros [= <-].
  rewrite <-Heq. apply (toISOString_date t iso Hiso).
  assert (Hyear : 0 <= year < 100).
  { unfold all_digits in Hraw. breflect. apply Nat.eqb_eq in H. apply forallb_digits in H0.
    unfold year. assert (all_digit (slice 0 2 raw)) as Hd by (by apply Forall_take, Forall_drop).
    pose proof (parse_dec_range _ Hd) as Hr. unfold len, slice in Hr.
    rewrite length_take, length_drop, H in Hr. exact Hr. }
  pose proof (full_year_digit year Hyear) as Hhd.
  destruct iso as [|c iso]; [|].
  - exfalso. revert Heq. generalize (dec (if 70 <=? year then 1900 + year else 2000 + year)).
    intros l Heq. by destruct l.
  - revert Hhd Heq. destruct (dec _) as [|x l] eqn:Hdec; [done|].
    intros Hx [= Heq _]. cbn in *. by subst.
Qed.

Definition row_ok (t : Transaction) : Prop :=
  is_date (date t) /\ is_date (bookingDate t) /\
  (exists n, units (amount t) = Some n /\ decimalOf n = amount t) /\ reference t <> [].

Lemma decimal_units raw negative v :
  decimal raw negative = Ok v -> exists n, units v = Some n /\ decimalOf n = v.
Proof.
  intros (w & f & _ & _ & _ & _ & Hcan & sign & -> & Hneg & _)%decimal_canonical.
  exists (parse_dec (strip_leading_zeros w ++ padEnd 5 48 (strip_trailing_zeros f))
          * (if sign then -1 else 1)). split.
  - destruct Hcan as (? & ? & _ & ? & _). by apply units_decimal_text.
  - apply decimalOf_canonical; [done|]. intros ->. by apply Hneg.
Qed.

Lemma transaction_ok value t : transaction value = Ok t -> row_ok t.
Proof.
  unfold transaction. destruct (match_transaction _) as [m|]; [|done].
  intros (vd & Hvd & (bd & Hbd & H)%bind_Ok)%bind_Ok.
  destruct (split_str [47; 47] (l_rest m)) as [|ref rest]; [done|].
  match type of H with (if ?b then _ else _) = _ => destruct b eqn:Href; [done|] end.
  apply bind_Ok in H as (a & Ha & [= <-]). breflect.
  split_and!; cbn; [by eapply parse_date_ok| |by eapply decimal_units|done].
  destruct (l_booking m); [by eapply parse_date_ok|].
  injection Hbd as <-. by eapply parse_date_ok.
Qed.

Lemma match_balance_currency value sign day currency amount :
  match_balance value = Some (sign, day, currency, amount) ->
  length currency = 3%nat /\ forallb is_upper currency = true.
Proof.
  unfold match_balance. destruct value as [|c rest]; [done|].
  destruct (match_amount _) as [[a r]|]; [|done]. cbn [mbind option_bind].
  match goal with |- (if ?b then _ else _) = _ -> _ => destruct b eqn:Hb; [|done] end.
  intros [= <- <- <- <-]. breflect. split; [by apply Nat.eqb_eq|done].
Qed.

Definition currency_ok (c : jstr) : Prop := length c = 3%nat /\ forallb is_upper c = true.

Lemma balance_ok value b :
  balance value = Ok b ->
  is_date (b_date b) /\ currency_ok (b_currency b) /\
  exists n, units (b_amount b) = Some n /\ decimalOf n = b_amount b.
Proof.
  unfold balance. destruct (match_balance value) as [[[[sign day] currency] amount]|] eqn:Hm; [|done].
  intros (d & Hd & (a & Ha & [= <-])%bind_Ok)%bind_Ok. cbn.
  split; [by eapply parse_date_ok|]. split; [by eapply match_balance_currency|by eapply decimal_units].
Qed.

(** A statement being read, and one that is complete. *)
Definition open_ok (s : Statement) : Prop :=
  account s <> [] /\ number s <> [] /\ currency_ok (currency s) /\ is_date (start s) /\
  (exists n, units (opening s) = Some n /\ decimalOf n = opening s) /\
  Forall row_ok (transactions s).

Definition reconciled (s : Statement) : Prop :=
  exists opened sum closed,
    units (opening s) = Some opened /\ sum_units (transactions s) = Some sum /\
    units (closing s) = Some closed /\ opened + sum = closed.

Definition statement_ok (s : Statement) : Prop :=
  open_ok s /\ is_date (end_ s) /\ jltb (end_ s) (start s) = false /\ reconciled s.

Definition rows_of (ss : list Statement) : list Transaction := concat (map transactions ss).

Definition pstate_ok (st : PState) : Prop :=
  p_count st = len (rows_of (p_statements st)) /\ p_count st <= 500 /\
  if p_closed st then Forall statement_ok (p_statements st)
  else exists init s, p_statements st = init ++ [s] /\ p_current st = Some (length init) /\
         Forall statement_ok init /\ open_ok s.

Lemma current_open st i s :
  pstate_ok st -> p_closed st = false -> current st = Some (i, s) ->
  exists init, p_statements st = init ++ [s] /\ i = length init /\ p_current st = Some i /\
    Forall statement_ok init /\ open_ok s.
Proof.
  intros (_ & _ & Hst) Hclosed Hcur. rewrite Hclosed in Hst.
  destruct Hst as (init & s' & Hss & Hci & Hinit & Hs). unfold current in Hcur.
  rewrite Hci in Hcur. cbn [mbind option_bind] in Hcur.
  rewrite Hss, lookup_app_r, Nat.sub_diag in Hcur by done. cbn in Hcur.
  injection Hcur as <- <-. exists init. split_and!; done.
Qed.

Lemma rows_of_app a b : rows_of (a ++ b) = rows_of a ++ rows_of b.
Proof. unfold rows_of. by rewrite map_app, concat_app. Qed.

Lemma insert_last {A} (init : list A) (x y : A) : <[length init := y]> (init ++ [x]) = init ++ [y].
Proof. by rewrite insert_app_r_alt, Nat.sub_diag by lia. Qed.

(** Replacing the open statement's rows keeps the invariant. *)
Lemma set_rows_ok st init s rows count :
  p_statements st = init ++ [s] -> p_current st = Some (length init) ->
  p_closed st = false -> Forall statement_ok init -> open_ok s ->
  count = len (rows_of init ++ rows) -> count <= 500 -> Forall row_ok rows ->
  pstate_ok (set_statement (length init) (with_transactions rows s)
    (mkPState (p_account st) (p_number st) (p_current st) (p_closed st) count (p_statements st))).
Proof.
  intros Hss Hcur Hclosed Hinit Hs Hcount Hmax Hrows. unfold set_statement, pstate_ok.
  cbn [p_count p_closed p_statements p_current].
  rewrite Hss, insert_last, Hclosed. split; [|split; [done|]].
  - rewrite rows_of_app. unfold rows_of at 2. cbn [map concat]. by rewrite app_nil_r.
  - exists init, (with_transactions rows s). split_and!; [done|done|done|].
    destruct Hs as (? & ? & ? & ? & ? & _). by split_and!.
Qed.

Lemma initial_ok : pstate_ok initial.
Proof. split; [reflexivity|]. split; [cbn; lia|constructor]. Qed.

Lemma open_rows_of ss init s :
  ss = init ++ [s] -> rows_of ss = rows_of init ++ transactions s.
Proof. intros ->. rewrite rows_of_app. unfold rows_of at 2. cbn [map concat]. by rewrite app_nil_r. Qed.

Lemma field_60_ok value st st' : pstate_ok st -> field_60 value st = Ok st' -> pstate_ok st'.
Proof.
  intros (Hcount & Hmax & Hst). unfold field_60.
  match goal with |- (if ?b then _ else _) = _ -> _ => destruct b eqn:Hb; [done|] end.
  breflect. intros (b & Hbal & [= <-])%bind_Ok. apply balance_ok in Hbal as (Hd & Hc & Ha).
  match goal with H : p_closed st = true |- _ => rewrite H in Hst end.
  split_and!; cbn [p_count p_closed p_statements p_current]; [|done|].
  - rewrite rows_of_app, Hcount. unfold rows_of at 3. cbn. by rewrite app_nil_r.
  - eexists _, _. split_and!; [done|done|done|]. by split_and!; cbn.
Qed.

Lemma field_61_ok value st st' : pstate_ok st -> field_61 value st = Ok st' -> pstate_ok st'.
Proof.
  intros Hok. unfold field_61. destruct (current st) as [[i s]|] eqn:Hcur; [|done].
  destruct (p_closed st) eqn:Hclosed; [done|].
  destruct (500 <? p_count st + 1) eqn:Hmax; [done|]. breflect.
  intros (row & Hrow & [= <-])%bind_Ok. apply transaction_ok in Hrow.
  destruct (current_open st i s Hok Hclosed Hcur) as (init & Hss & -> & Hci & Hinit & Hs).
  destruct Hok as (Hcount & _). rewrite <-Hclosed.
  apply set_rows_ok with (init := init) (s := s); try done.
  - rewrite Hcount, (open_rows_of _ _ _ Hss), app_assoc, (len_app _ [row]). done.
  - apply Forall_app. split; [apply Hs|by constructor].
Qed.

Lemma removelast_last {A} (l : list A) x : last l = Some x -> removelast l ++ [x] = l.
Proof.
  destruct l as [|y l _] using rev_ind; [done|]. rewrite last_snoc. intros [= ->].
  by rewrite removelast_last.
Qed.

Lemma field_86_ok value st st' : pstate_ok st -> field_86 value st = Ok st' -> pstate_ok st'.
Proof.
  intros Hok. unfold field_86. destruct (current st) as [[i s]|] eqn:Hcur; [|done].
  destruct (p_closed st) eqn:Hclosed; [done|].
  destruct (last (transactions s)) as [row|] eqn:Hlast; [|done]. intros [= <-].
  destruct (current_open st i s Hok Hclosed Hcur) as (init & Hss & -> & Hci & Hinit & Hs).
  destruct Hok as (Hcount & Hmax & _).
  apply removelast_last in Hlast. destruct st as [acc num cur clo cnt ss].
  cbn [p_closed p_count p_statements p_current] in *. subst clo.
  apply (set_rows_ok (mkPState acc num cur false cnt ss) init s); try done.
  - rewrite Hcount, (open_rows_of _ _ _ Hss), !len_app, <-(f_equal len Hlast), !len_app. done.
  - destruct Hs as (_ & _ & _ & _ & _ & Hrows). rewrite <-Hlast in Hrows at 1.
    apply Forall_app in Hrows as [H1 H2]. apply Forall_app; split; [done|].
    apply Forall_cons in H2 as [H2 _]. constructor; [exact H2|constructor].
Qed.

Lemma field_62_ok value st st' : pstate_ok st -> field_62 value st = Ok st' -> pstate_ok st'.
Proof.
  intros Hok. unfold field_62. destruct (current st) as [[i s]|] eqn:Hcur; [|done].
  destruct (p_closed st) eqn:Hclosed; [done|]. intros (b & Hb & H)%bind_Ok.
  match type of H with (if ?x then _ else _) = _ => destruct x eqn:Hx; [done|] end.
  apply bind_Ok in H as ([] & Hrec & [= <-]). apply balance_ok in Hb as (Hd & Hc & Ha).
  destruct (current_open st i s Hok Hclosed Hcur) as (init & Hss & -> & Hci & Hinit & Hs).
  destruct Hok as (Hcount & Hmax & _). breflect.
  split_and!; cbn [p_count p_closed p_statements p_current set_statement]; rewrite ?Hss, ?insert_last.
  - rewrite Hcount, Hss, !rows_of_app. f_equal.
  - done.
  - apply Forall_app; split; [done|]. constructor; [|constructor].
    split; [|split; [done|split; [done|]]].
    + destruct Hs as (? & ? & ? & ? & ? & ?). by split_and!.
    + unfold reconcile in Hrec. unfold reconciled. cbn [opening closing transactions].
      destruct (sum_units _) as [sum|]; [|done]. destruct (units (opening s)) as [o|]; [|done].
      destruct (units (b_amount b)) as [c|]; [|done].
      destruct (Z.eqb_spec (o + sum) c); [|done]. by exists o, sum, c.
Qed.

Lemma field_keeps st tag value st' : pstate_ok st -> field tag value st = Ok st' -> pstate_ok st'.
Proof.
  intros Hok. unfold field.
  repeat match goal with |- (if ?b then _ else _) = _ -> _ => destruct b eqn:? end; try done.
  - unfold field_20. case_match; [done|]. intros [= <-]. destruct Hok as (? & ? & Hst).
    split_and!; [done|done|]. cbn. apply negb_false_iff in H. by rewrite H in *.
  - by intros [= <-].
  - unfold field_25. do 2 (case_match; [done|]). intros [= <-]. apply Hok.
  - unfold field_28. case_match; [done|]. intros [= <-]. apply Hok.
  - by apply field_60_ok.
  - by apply field_61_ok.
  - by apply field_86_ok.
  - by apply field_62_ok.
  - intros (b & _ & [= <-])%bind_Ok. done.
Qed.

(** What [parseMT940] returns is sound: at least one
    statement and at most 500 transactions in all; every statement is complete,
    with an account, a number, a currency and real dates in order; every
    amount is a canonical decimal, every transaction has real dates and a
    reference; the opening balance plus the transactions equals the closing
    balance exactly; and no narrative parses as a JSON array or object. *)
Theorem parseMT940_sound (text : jstr) (ss : list Statement) :
  parseMT940 text = Ok ss ->
  ss <> [] /\ Forall statement_ok ss /\ len (rows_of ss) <= 500 /\
  Forall (fun row => is_json_narrative row = false) (rows_of ss).
Proof.
  unfold parseMT940. case_match; [done|]. intros (fields & _ & (st & Hst & H1)%bind_Ok)%bind_Ok.
  match type of H1 with (if ?x then _ else _) = _ => destruct x eqn:Hx; [done|] end.
  apply bind_Ok in H1 as ([] & Hjson & [= <-]). breflect.
  assert (Hok : pstate_ok st).
  { eapply (foldM_inv pstate_ok); [exact initial_ok| |exact Hst].
    intros st0 f st1 Hok0 _. unfold process_field.
    destruct (field _ _ _) as [s|[]] eqn:Hf; [|done|done]. intros [= <-]. by eapply field_keeps. }
  destruct Hok as (Hcount & Hmax & Hall).
  match goal with H : p_closed st = true |- _ => rewrite H in Hall end.
  split_and!; [done|done|lia|]. unfold rejectJsonNarratives in Hjson.
  match type of Hjson with (if ?x then _ else _) = _ => destruct x eqn:Hz; [|done] end.
  breflect. apply Forall_forall. intros row Hrow. apply not_true_iff_false. intros Hj.
  assert (Hin : row ∈ List.filter is_json_narrative (rows_of (p_statements st))).
  { apply list_elem_of_In, filter_In. split; [by apply list_elem_of_In|done]. }
  unfold rows_of in Hin. destruct (List.filter _ _) as [|x l]; [by apply elem_of_nil in Hin|].
  unfold len in Hz. cbn in Hz. lia.
Qed.

Lemma parseMT940_sound_witness :
  exists s, parseMT940 sample_mt940 = Ok [s] /\ statement_ok s.
Proof.
  eexists. split; [vm_compute; reflexivity|].
  assert (H : forall ss s, parseMT940 sample_mt940 = Ok ss -> ss = [s] -> statement_ok s).
  { intros ss s Hp ->. destruct (parseMT940_sound _ _ Hp) as (_ & Hall & _).
    by apply Forall_cons in Hall as [? _]. }
  eapply H; [|reflexivity]. vm_compute. reflexivity.
Defined.

(** ** The errors of [parseMT940] *)

(** The field [f] stands in the file where it says: line [f_line f] is the one
    with its tag. *)
Definition stands_in (text : jstr) (f : Field) : Prop :=
  exists i line value,
    split_str [10] (normalized text) !! i = Some line /\ is_envelope line = false /\
    match_field line = Some (f_tag f, value) /\ f_line f = Z.of_nat i + 1.

(** A line that is no field, is not blank, is no part of the envelope, and that
    no field [61] or [86] goes on with; [tag]: the field before it. *)
Inductive stray_line : list Field -> jstr -> jstr -> Prop :=
| stray fields line tag :
    is_envelope line = false -> match_field line = None -> trim line <> [] ->
    match last fields with
    | Some previous => tag = f_tag previous /\ tag <> js "61" /\ tag <> js "86"
    | None => tag = js "header"
    end ->
    stray_line fields line tag.

(** The [StatementError]s that a field throws itself, from the state [st]. *)
Inductive own_error (st : PState) : jstr -> jstr -> StatementErrorData -> string -> Prop :=
| own_unclosed value :
    p_closed st = false ->
    own_error st (js "20") value (MISSING_BALANCE (Some (p_number st)))
      "Statement is missing its closing balance"
| own_too_many value i s :
    current st = Some (i, s) -> p_closed st = false -> 500 <= p_count st ->
    own_error st (js "61") value (TOO_MANY_ENTRIES 500)
      "Import at most 500 transactions at a time; export a shorter period"
| own_mismatch tag value i s b sum opened closed :
    tag = js "62F" \/ tag = js "62M" ->
    current st = Some (i, s) -> p_closed st = false ->
    balance value = Ok b -> b_currency b = currency s -> jltb (b_date b) (start s) = false ->
    sum_units (transactions s) = Some sum -> units (opening s) = Some opened ->
    units (b_amount b) = Some closed -> opened + sum <> closed ->
    own_error st tag value
      (BALANCE_MISMATCH (number s) (account s) (currency s) (opening s) (len (transactions s))
         (decimalOf sum) (decimalOf (opened + sum)) (b_amount b) (start s) (b_date b))
      "Statement balance does not reconcile; no transactions will be imported".

(** Everything [parseMT940] throws, with what makes it throw that. *)
Inductive mt940_error (text : jstr) : JsError -> Prop :=
| mt940_large :
    512000 < len text ->
    mt940_error text
      (StatementError (FILE_TOO_LARGE 512000 mt940) "Choose an MT940 file smaller than 512 KB")
| mt940_line i line fields tag :
    len text <= 512000 -> split_str [10] (normalized text) !! i = Some line ->
    foldM read_line [] (take i (imap pair (split_str [10] (normalized text)))) = Ok fields ->
    stray_line fields line tag ->
    mt940_error text
      (StatementError (INVALID_FIELD tag (Some (Z.of_nat i + 1)))
         "Unsupported MT940 header or field continuation")
| mt940_field fields k f st message :
    len text <= 512000 -> read_fields text = Ok fields -> fields !! k = Some f ->
    stands_in text f -> foldM process_field initial (take k fields) = Ok st ->
    field (f_tag f) (f_value f) st = Err (PlainError message) ->
    mt940_error text (StatementError (INVALID_FIELD (f_tag f) (Some (f_line f))) message)
| mt940_own fields k f st data message :
    len text <= 512000 -> read_fields text = Ok fields -> fields !! k = Some f ->
    foldM process_field initial (take k fields) = Ok st ->
    own_error st (f_tag f) (f_value f) data message ->
    mt940_error text (StatementError data message)
| mt940_incomplete fields st statement :
    len text <= 512000 -> read_fields text = Ok fields ->
    foldM process_field initial fields = Ok st ->
    p_statements st = [] \/ p_closed st = false ->
    statement = (if bool_decide (p_number st = []) then None else Some (p_number st)) ->
    mt940_error text
      (StatementError (MISSING_BALANCE statement)
         "Incomplete MT940 statement: opening and closing balances are required")
| mt940_narrative fields st count :
    len text <= 512000 -> read_fields text = Ok fields ->
    foldM process_field initial fields = Ok st ->
    p_statements st <> [] -> p_closed st = true ->
    count = len (List.filter is_json_narrative (rows_of (p_statements st))) -> 0 < count ->
    mt940_error text
      (StatementError (JSON_NARRATIVE count)
         "JSON-shaped bank narratives are not supported yet; the statement was not imported").

Lemma read_line_err fields i line e :
  read_line fields (i, line) = Err e <->
  exists tag, stray_line fields line tag /\
    e = StatementError (INVALID_FIELD tag (Some (Z.of_nat i + 1)))
          "Unsupported MT940 header or field continuation".
Proof.
  unfold read_line, statementError. split.
  - destruct (is_envelope line) eqn:He; [done|]. destruct (match_field line) as [[]|] eqn:Hm; [done|].
    case_bool_decide; [done|]. destruct (last fields) as [p|] eqn:Hl.
    + destruct (_ || _) eqn:Ht; [done|]. intros [= <-]. exists (f_tag p). split; [|done].
      apply orb_false_iff in Ht as [H1%bool_decide_eq_false H2%bool_decide_eq_false].
      constructor; try done. by rewrite Hl.
    + intros [= <-]. exists (js "header"). split; [|done]. constructor; try done; by rewrite Hl.
  - intros (tag & [fields' line' tag' He Hm Ht Hl] & ->). rewrite He, Hm, bool_decide_false by done.
    destruct (last fields') as [p|]; [|by subst]. destruct Hl as (-> & H1 & H2).
    unfold jeqb.
    by rewrite (bool_decide_false (f_tag p = js "61")), (bool_decide_false (f_tag p = js "86")) by done.
Qed.

Lemma read_line_stands text fields i line fields' :
  split_str [10] (normalized text) !! i = Some line ->
  Forall (stands_in text) fields -> read_line fields (i, line) = Ok fields' ->
  Forall (stands_in text) fields'.
Proof.
  intros Hi Hf. unfold read_line. destruct (is_envelope line) eqn:He; [by intros [= <-]|].
  destruct (match_field line) as [[tag value]|] eqn:Hm.
  - intros [= <-]. apply Forall_app; split; [done|]. constructor; [|constructor].
    by exists i, line, value.
  - case_bool_decide; [by intros [= <-]|]. destruct (last fields) as [p|] eqn:Hl; [|done].
    case_match; [|done]. intros [= <-]. apply removelast_last in Hl. rewrite <-Hl in Hf.
    apply Forall_app in Hf as [Hf Hp]. apply Forall_app; split; [done|]. constructor; [|constructor].
    apply Forall_cons in Hp as [(j & l & v & Hp) _]. by exists j, l, v.
Qed.

Lemma read_fields_stand text fields : read_fields text = Ok fields -> Forall (stands_in text) fields.
Proof.
  unfold read_fields. apply (foldM_inv (Forall (stands_in text))); [constructor|].
  intros acc [i line] acc' Hacc Hin. apply elem_of_lookup_imap in Hin as (j & l & [= -> ->] & Hj).
  by apply read_line_stands.
Qed.

Lemma reconcile_err s closing end_ data message :
  reconcile s closing end_ = Err (StatementError data message) <->
  exists sum opened closed,
    sum_units (transactions s) = Some sum /\ units (opening s) = Some opened /\
    units closing = Some closed /\ opened + sum <> closed /\
    data = BALANCE_MISMATCH (number s) (account s) (currency s) (opening s) (len (transactions s))
             (decimalOf sum) (decimalOf (opened + sum)) closing (start s) end_ /\
    message = "Statement balance does not reconcile; no transactions will be imported"%string.
Proof.
  unfold reconcile, statementError, not_an_integer, error. split.
  - destruct (sum_units _) as [sum|]; [|done]. destruct (units (opening s)) as [o|]; [|done].
    destruct (units closing) as [c|]; [|done]. case_match eqn:Hc; [done|]. intros [= <- <-].
    breflect. by exists sum, o, c.
  - intros (sum & o & c & -> & -> & -> & Hne & -> & ->). by rewrite (proj2 (Z.eqb_neq _ _) Hne).
Qed.

(** What throws plain errors only. *)
Definition plain_only {A} (r : res JsError A) : Prop := forall data message, r <> Err (StatementError data message).

Lemma plain_then {A B} (r : res JsError A) (f : A -> res JsError B) :
  plain_only r -> (forall a, r = Ok a -> plain_only (f a)) -> plain_only (r ≫= f).
Proof.
  intros Hr Hf. destruct r as [a|e]; cbn [mbind res_bind]; [by apply Hf|].
  intros data message [= ->]. by apply (Hr data message).
Qed.

Lemma plain_decimal raw negative : plain_only (decimal raw negative).
Proof. intros data message. unfold decimal, error. by destruct (amount_parts raw) as [[]|]. Qed.

Lemma plain_date raw : plain_only (parse_date raw).
Proof. intros data message. unfold parse_date, error. by repeat case_match. Qed.

Lemma plain_balance value : plain_only (balance value).
Proof.
  unfold balance. destruct (match_balance value) as [[[[sign day] c] a]|]; [|done].
  apply plain_then; [apply plain_date|]. intros d _.
  apply plain_then; [apply plain_decimal|]. done.
Qed.

Lemma plain_transaction value : plain_only (transaction value).
Proof.
  unfold transaction. destruct (match_transaction _) as [m|]; [|done].
  apply plain_then; [apply plain_date|]. intros d _.
  apply plain_then; [destruct (l_booking m); [apply plain_date|done]|]. intros b _.
  destruct (split_str _ _) as [|r rest]; [done|]. case_match; [done|].
  apply plain_then; [apply plain_decimal|]. done.
Qed.

Lemma field_20_err value st data message :
  field_20 st = Err (StatementError data message) <-> own_error st (js "20") value data message.
Proof.
  unfold field_20, statementError. split.
  - destruct (p_closed st) eqn:Hc; [done|]. intros [= <- <-]. by constructor.
  - inversion 1; subst; try discriminate; try naive_solver.
    by match goal with H : p_closed st = false |- _ => rewrite H end.
Qed.

Lemma field_61_err value st data message :
  field_61 value st = Err (StatementError data message) <-> own_error st (js "61") value data message.
Proof.
  unfold field_61, statementError, error. split.
  - destruct (current st) as [[i s]|] eqn:Hcur; [|done]. destruct (p_closed st) eqn:Hc; [done|].
    destruct (Z.ltb_spec 500 (p_count st + 1)).
    + intros [= <- <-]. eapply own_too_many; [done|done|lia].
    + destruct (transaction value) as [row|e] eqn:Ht; [done|]. cbn [mbind res_bind]. intros [= ->].
      by apply plain_transaction in Ht.
  - inversion 1 as [|v i s Hcur Hc Hn|]; subst; try discriminate; try naive_solver.
    rewrite Hcur, Hc. destruct (Z.ltb_spec 500 (p_count st + 1)); [done|lia].
Qed.

Lemma field_62_err tag value st data message :
  tag = js "62F" \/ tag = js "62M" ->
  field_62 value st = Err (StatementError data message) <-> own_error st tag value data message.
Proof.
  intros Htag. unfold field_62, error. split.
  - destruct (current st) as [[i s]|] eqn:Hcur; [|done]. destruct (p_closed st) eqn:Hc; [done|].
    destruct (balance value) as [b|e] eqn:Hb; cbn [mbind res_bind].
    2:{ intros [= ->]. by apply plain_balance in Hb. }
    destruct (_ || _) eqn:Hx; [done|]. breflect.
    destruct (reconcile s (b_amount b) (b_date b)) as [[]|e] eqn:Hr; cbn [mbind res_bind]; [done|].
    intros [= ->]. apply reconcile_err in Hr as (sum & o & c & ? & ? & ? & ? & -> & ->).
    apply (own_mismatch st tag value i s b sum o c); try done.
    unfold jeqb in *. by breflect.
  - inversion 1 as [v|v i s|tag' v i s b sum o c Ht Hcur Hc Hb Hcy Hd Hsum Ho Hcl Hne]; subst.
    1,2: naive_solver.
    rewrite Hcur, Hc, Hb. cbn [mbind res_bind]. unfold jeqb. rewrite Hcy, bool_decide_true, Hd by done.
    cbn [negb orb].
    match goal with |- _ = Err (StatementError ?d ?m) =>
      assert (reconcile s (b_amount b) (b_date b) = Err (StatementError d m)) as Hrec
    end; [apply reconcile_err; by exists sum, o, c|]. by rewrite Hrec.
Qed.

Lemma field_err tag value st data message :
  field tag value st = Err (StatementError data message) <-> own_error st tag value data message.
Proof.
  unfold field, jeqb.
  destruct (decide (tag = js "20")) as [->|H20].
  { apply field_20_err. }
  rewrite (bool_decide_false (tag = js "20")) by done.
  destruct (decide (tag = js "61")) as [->|H61].
  { apply field_61_err. }
  destruct (decide (tag = js "62F" \/ tag = js "62M")) as [H62|H62].
  { transitivity (field_62 value st = Err (StatementError data message)); [|by apply field_62_err].
    by destruct H62 as [-> | ->]. }
  assert (Hno : ~ own_error st tag value data message) by (inversion 1; subst; naive_solver).
  split; [|done]. intros Hf. exfalso. revert Hf.
  rewrite (bool_decide_false (tag = js "61")), (bool_decide_false (tag = js "62F")),
    (bool_decide_false (tag = js "62M")) by naive_solver.
  repeat case_bool_decide; cbn [orb]; unfold field_25, field_28, field_60, field_86, error;
    repeat (case_match; try done);
    destruct (balance value) eqn:Hb; cbn [mbind res_bind]; try done;
    intros [= ->]; by apply plain_balance in Hb.
Qed.

Lemma process_field_err st f e :
  process_field st f = Err e <->
  (exists message, field (f_tag f) (f_value f) st = Err (PlainError message) /\
     e = StatementError (INVALID_FIELD (f_tag f) (Some (f_line f))) message) \/
  (exists data message, own_error st (f_tag f) (f_value f) data message /\ e = StatementError data message).
Proof.
  setoid_rewrite <-field_err. unfold process_field, statementError.
  destruct (field _ _ _) as [st'|[data message|message]]; naive_solver.
Qed.

Lemma read_fields_err text e :
  read_fields text = Err e <->
  exists i line fields tag, split_str [10] (normalized text) !! i = Some line /\
    foldM read_line [] (take i (imap pair (split_str [10] (normalized text)))) = Ok fields /\
    stray_line fields line tag /\
    e = StatementError (INVALID_FIELD tag (Some (Z.of_nat i + 1)))
          "Unsupported MT940 header or field continuation".
Proof.
  unfold read_fields. rewrite foldM_err. split.
  - intros (k & [i line] & fields & Hk & Hf & He). rewrite list_lookup_imap in Hk.
    apply fmap_Some in Hk as (l & Hl & [= -> ->]). apply read_line_err in He as (tag & Hs & ->).
    by exists k, l, fields, tag.
  - intros (i & line & fields & tag & Hi & Hf & Hs & ->). exists i, (i, line), fields.
    split; [by rewrite list_lookup_imap, Hi|]. split; [done|]. apply read_line_err. by exists tag.
Qed.

(** A field that fails is the first one that does, and stands in the file. *)
Lemma fields_err text fields e :
  len text <= 512000 -> read_fields text = Ok fields ->
  foldM process_field initial fields = Err e -> mt940_error text e.
Proof.
  intros Hl Hf (k & f & st & Hk & Hst & He)%foldM_err.
  pose proof (Forall_lookup_1 _ _ _ _ (read_fields_stand _ _ Hf) Hk) as Hs.
  apply process_field_err in He as [(m & Hm & ->)|(d & m & Hm & ->)]; by econstructor.
Qed.

Lemma errors_explained text e : parseMT940 text = Err e -> mt940_error text e.
Proof.
  unfold parseMT940, statementError. destruct (Z.ltb_spec 512000 (len text)) as [Hl|Hl].
  { intros [= <-]. by constructor. }
  destruct (read_fields text) as [fields|e0] eqn:Hf; cbn [mbind res_bind].
  2:{ intros [= <-]. apply read_fields_err in Hf as (i & line & fs & tag & ? & ? & ? & ->). by econstructor. }
  destruct (foldM process_field initial fields) as [st|e0] eqn:Hst; cbn [mbind res_bind].
  2:{ intros [= <-]. by eapply fields_err. }
  destruct (_ || _) eqn:Hopen.
  { intros [= <-]. eapply mt940_incomplete; [done..| |done].
    apply orb_true_iff in Hopen as [H%bool_decide_eq_true|H%negb_true_iff]; auto. }
  apply orb_false_iff in Hopen as [Hss%bool_decide_eq_false Hc%negb_false_iff].
  unfold rejectJsonNarratives, statementError. case_match eqn:Hn; cbn [mbind res_bind]; [done|].
  intros [= <-]. eapply mt940_narrative; [done..|]. apply Z.eqb_neq in Hn. unfold rows_of, len in *. lia.
Qed.

Lemma errors_thrown text e : mt940_error text e -> parseMT940 text = Err e.
Proof.
  unfold parseMT940, statementError.
  destruct 1 as [Hl|i line fields tag Hl Hi Hr Hs|fields k f st m Hl Hr Hk _ Hst Hm
    |fields k f st d m Hl Hr Hk Hst Hm|fields st x Hl Hr Hst Ho ->|fields st n Hl Hr Hst Hss Hc -> Hn].
  1: by rewrite (proj2 (Z.ltb_lt _ _) Hl).
  all: rewrite (proj2 (Z.ltb_ge _ _) Hl).
  - match goal with |- _ = Err ?e => assert (read_fields text = Err e) as -> end; [|done].
    apply read_fields_err. by eexists _, _, _, _.
  - rewrite Hr. cbn [mbind res_bind].
    match goal with |- _ = Err ?e => assert (foldM process_field initial fields = Err e) as -> end; [|done].
    apply foldM_err. exists k, f, st. do 2 (split; [done|]). apply process_field_err. eauto.
  - rewrite Hr. cbn [mbind res_bind].
    match goal with |- _ = Err ?e => assert (foldM process_field initial fields = Err e) as -> end; [|done].
    apply foldM_err. exists k, f, st. do 2 (split; [done|]). apply process_field_err. eauto 6.
  - rewrite Hr. cbn [mbind res_bind]. rewrite Hst. cbn [mbind res_bind].
    destruct Ho as [Ho|Ho]; rewrite Ho; cbn [negb]; [by rewrite bool_decide_true|by rewrite orb_true_r].
  - rewrite Hr. cbn [mbind res_bind]. rewrite Hst. cbn [mbind res_bind].
    rewrite bool_decide_false, Hc by done. cbn [orb negb]. unfold rejectJsonNarratives, statementError.
    fold (rows_of (p_statements st)). by rewrite (proj2 (Z.eqb_neq _ _)) by lia.
Qed.


(** A bad balance on the third line, and a stray line after it. *)
Example named_errors :
  parseMT940 (join_str [10] [js ":20:A"; js ":25:NL1"; js ":60F:C26X"])
    = Err (StatementError (INVALID_FIELD (js "60F") (Some 3))
        "Missing or out-of-order MT940 statement fields") /\
  parseMT940 (join_str [10] [js ":20:A"; js ":25:NL1"; js ":28C:1"; js ":60F:C26X"])
    = Err (StatementError (INVALID_FIELD (js "60F") (Some 4)) "Invalid MT940 balance") /\
  parseMT940 (join_str [10] [js ":20:A"; js "and more"])
    = Err (StatementError (INVALID_FIELD (js "20") (Some 2))
        "Unsupported MT940 header or field continuation") /\
  parseMT940 (join_str [10] [js ":20:A"; js ":99Z:"])
    = Err (StatementError (INVALID_FIELD (js "99Z") (Some 2)) "Unsupported MT940 field :99Z:").
Proof. split_and!; vm_compute; reflexivity. Qed.

(** The year of a booking date is found from its month and the value date, but
    goes through two digits again: a booking in December before a value date in
    January 1970 becomes one in 2069. *)
Example booking_year_pivot :
  exists t, transaction (js "7001011231C1,NTRFX") = Ok t /\
    date t = js "1970-01-01" /\ bookingDate t = js "2069-12-31".
Proof. eexists. split; [vm_compute; reflexivity|split; reflexivity]. Qed.
