(* ===== verification/MoneyIdentity.v ===== *)
(** * Import identities

    Models [src/integrations/money/identity.ts]: what identifies an imported
    transaction, the fingerprint of its content, and the refusal of files in
    which an identity repeats.  [JSON.stringify] is [Text.stringify], whose
    injectivity makes the identities collision-free. *)
From S2P Require Import Prelude Text MoneyParser.
Local Open Scope Z_scope.

(* src: integrations/money/identity.ts 12-23 Entry *)
Record Entry := mkEntry {
  e_statement : Statement;
  e_row : Transaction;
  e_index : nat;
  e_identity : jstr;
  e_fingerprint : jstr;
  e_reference : jstr;
}.

Definition format_name (f : StatementFormat) : jstr :=
  match f with mt940 => js "mt940" | camt053 => js "camt053" end.

(* src: integrations/money/identity.ts 40-46 statementKey ! *)
Definition statementKey (s : Statement) : jstr :=
  stringify (JArr [JStr (number s); JStr (start s); JStr (end_ s); JStr (opening s);
                   JStr (closing s)]).

(* src: integrations/money/identity.ts 49-60 fingerprint ! *)
Definition fingerprint_of (format : StatementFormat) (s : Statement) (row : Transaction) : jstr :=
  format_name format ++ js "-content:" ++
  stringify (JArr [JStr (account s); JStr (currency s); JStr (date row); JStr (bookingDate row);
                   JStr (amount row); JStr (code row); JStr (reference row);
                   JStr (description row)]).

(* src: integrations/money/identity.ts 61-64 reference ! *)
Definition reference_of (row : Transaction) : jstr :=
  if bool_decide (bankReference row = []) || jeqb (bankReference row) (js "NONREF") then []
  else bankReference row.

(* src: integrations/money/identity.ts 65-70 identity ! *)
Definition identity_of (format : StatementFormat) (s : Statement) (index : nat) (row : Transaction) : jstr :=
  stringify (JArr [JStr (format_name format); JStr (account s); JStr (currency s);
    if bool_decide (reference_of row = [])
    then JArr [JStr (js "statement"); JStr (statementKey s); JNum (Z.of_nat index)]
    else JArr [JStr (js "bank"); JStr (reference_of row)]]).

Definition entry_of (format : StatementFormat) (s : Statement) (index : nat) (row : Transaction) : Entry :=
  mkEntry s row index (identity_of format s index row) (fingerprint_of format s row)
    (reference_of row).

(** [out] and the map [seen]. *)
Definition EState : Type := list Entry * gmap (list Z) (list Z).

(** One row. *)
Definition add_entry (format : StatementFormat) (s : Statement) (st : EState)
    (indexed : nat * Transaction) : res JsError EState :=
  let '(index, row) := indexed in
  let '(out, seen) := st in
  let e := entry_of format s index row in
  match seen !! e_identity e with
  | Some fingerprint =>
      if negb (jeqb fingerprint (e_fingerprint e)) then
        statementError (CONFLICTING_REFERENCE (e_reference e))
          "Conflicting bank transaction references in this file"
      else
        statementError (REPEATED_REFERENCE (e_reference e))
          "Repeated bank transaction reference in this file; export non-overlapping statements"
  | None => Ok (out ++ [e], <[e_identity e := e_fingerprint e]> seen)
  end.

(* src: integrations/money/identity.ts 25-92 entries *)
Definition entries (format : StatementFormat) (statements : list Statement) : res JsError (list Entry) :=
  st ← foldM (fun st s => foldM (add_entry format s) st (imap pair (transactions s)))
         ([], ∅) statements;
  Ok (fst st).

(** ** Repeated identities *)

(** The entries of a file, repeated or not. *)
Definition rows_entries (format : StatementFormat) (s : Statement) : list Entry :=
  imap (entry_of format s) (transactions s).
Definition file_entries (format : StatementFormat) (statements : list Statement) : list Entry :=
  concat (map (rows_entries format) statements).

(** One step on an entry. *)
Definition add (st : EState) (e : Entry) : res JsError EState :=
  let '(out, seen) := st in
  match seen !! e_identity e with
  | Some fingerprint =>
      Err (if jeqb fingerprint (e_fingerprint e)
           then StatementError (REPEATED_REFERENCE (e_reference e))
                  "Repeated bank transaction reference in this file; export non-overlapping statements"
           else StatementError (CONFLICTING_REFERENCE (e_reference e))
                  "Conflicting bank transaction references in this file")
  | None => Ok (out ++ [e], <[e_identity e := e_fingerprint e]> seen)
  end.

Lemma add_entry_add format s st index row :
  add_entry format s st (index, row) = add st (entry_of format s index row).
Proof.
  unfold add_entry, add. destruct st as [out seen]. destruct (_ !! _); [|done].
  by destruct (jeqb _ _).
Qed.

Lemma rows_fold format s st :
  foldM (add_entry format s) st (imap pair (transactions s)) = foldM add st (rows_entries format s).
Proof.
  unfold rows_entries.
  rewrite (imap_pair_map (entry_of format s)).
  rewrite foldM_map. apply foldM_ext. intros acc [i row]. apply add_entry_add.
Qed.

Lemma entries_fold format ss :
  entries format ss = (st ← foldM add ([], ∅) (file_entries format ss); Ok (fst st)).
Proof.
  unfold entries. f_equal. unfold file_entries. generalize (@nil Entry, (∅ : gmap (list Z) (list Z))).
  induction ss as [|s ss IH]; intros st; [done|]. cbn [foldM map concat].
  rewrite foldM_app, rows_fold. destruct (foldM add st _); cbn; [apply IH|done].
Qed.

(** What the loop has seen is what it has put out. *)
Definition seen_ok (st : EState) : Prop :=
  NoDup (map e_identity st.1) /\
  forall i f, st.2 !! i = Some f <-> exists e, e ∈ st.1 /\ e_identity e = i /\ e_fingerprint e = f.

Lemma add_ok st e st' :
  seen_ok st -> add st e = Ok st' ->
  seen_ok st' /\ st'.1 = st.1 ++ [e] /\ e_identity e ∉ map e_identity st.1.
Proof.
  destruct st as [out seen]. intros [Hnd Hseen]. unfold add.
  destruct (seen !! e_identity e) as [f|] eqn:Hs; [done|]. intros [= <-].
  assert (Hnot : e_identity e ∉ map e_identity out).
  { intros (x & Hx & Hin)%list_elem_of_fmap.
    assert (seen !! e_identity x = Some (e_fingerprint x)) by (apply Hseen; eauto). congruence. }
  split; [|done]. cbn [fst snd] in *. split; cbn [fst snd].
  - rewrite map_app. cbn [map]. apply NoDup_app. split; [done|]. split; [|apply NoDup_singleton].
    intros x Hx ->%list_elem_of_singleton. done.
  - intros i f. rewrite lookup_insert_Some, Hseen. setoid_rewrite elem_of_app.
    setoid_rewrite list_elem_of_singleton. split.
    + intros [[<- <-]|[Hne (x & Hx & <- & <-)]]; [exists e; auto|exists x; auto].
    + intros (x & [Hx| ->] & <- & <-); [right|by left]. split; [|by eauto].
      intros Heq. apply Hnot. rewrite Heq. by apply list_elem_of_fmap_2.
Qed.

Lemma foldM_add_spec es st :
  seen_ok st ->
  match foldM add st es with
  | Ok st' => st'.1 = st.1 ++ es /\ NoDup (map e_identity (st.1 ++ es))
  | Err err =>
      exists pre e post earlier, es = pre ++ e :: post /\ earlier ∈ st.1 ++ pre /\
        e_identity earlier = e_identity e /\
        err = if jeqb (e_fingerprint earlier) (e_fingerprint e)
              then StatementError (REPEATED_REFERENCE (e_reference e))
                     "Repeated bank transaction reference in this file; export non-overlapping statements"
              else StatementError (CONFLICTING_REFERENCE (e_reference e))
                     "Conflicting bank transaction references in this file"
  end.
Proof.
  revert st; induction es as [|e es IH]; intros st Hst; cbn [foldM].
  { rewrite app_nil_r. split; [done|apply Hst]. }
  destruct (add st e) as [st1|err] eqn:Hadd; cbn [mbind res_bind].
  - destruct (add_ok st e st1 Hst Hadd) as (Hst1 & Hout & Hnot). specialize (IH st1 Hst1).
    rewrite Hout in IH. destruct (foldM add st1 es) as [st'|err'].
    + by rewrite <-app_assoc in IH.
    + destruct IH as (pre & x & post & earlier & -> & Hin & Hid & ->).
      exists (e :: pre), x, post, earlier. split; [done|]. split; [by rewrite <-app_assoc in Hin|done].
  - unfold add in Hadd. destruct st as [out seen]. destruct (seen !! e_identity e) as [f|] eqn:Hs; [|done].
    injection Hadd as <-. destruct Hst as [_ Hseen]. apply Hseen in Hs as (x & Hx & Hid & <-).
    exists [], e, es, x. split_and!; [done|by rewrite app_nil_r|done|done].
Qed.

Lemma empty_seen_ok : seen_ok ([], ∅).
Proof.
  split; [constructor|]. intros i f. cbn. rewrite lookup_empty. split; [done|].
  by intros (e & ?%elem_of_nil & _).
Qed.

(** What [entries] returns, on both branches. *)
Lemma entries_spec format ss :
  match entries format ss with
  | Ok es => es = file_entries format ss /\ NoDup (map e_identity es)
  | Err err =>
      exists pre e post earlier, file_entries format ss = pre ++ e :: post /\ earlier ∈ pre /\
        e_identity earlier = e_identity e /\
        err = if jeqb (e_fingerprint earlier) (e_fingerprint e)
              then StatementError (REPEATED_REFERENCE (e_reference e))
                     "Repeated bank transaction reference in this file; export non-overlapping statements"
              else StatementError (CONFLICTING_REFERENCE (e_reference e))
                     "Conflicting bank transaction references in this file"
  end.
Proof.
  rewrite entries_fold. pose proof (foldM_add_spec (file_entries format ss) ([], ∅) empty_seen_ok) as H.
  destruct (foldM add _ _) as [st|err]; cbn [mbind res_bind]; [|exact H].
  cbn in H. destruct H as [-> Hnd]. done.
Qed.

(** [entries] lists every transaction of the file, in order,
    exactly when no two of them have the same identity; otherwise it refuses
    the file, naming the reference of the first entry that repeats an earlier
    one's identity, as conflicting when their contents differ and as repeated
    when they do not. *)
Theorem entries_unique (format : StatementFormat) (ss : list Statement) :
  match entries format ss with
  | Ok es => es = file_entries format ss /\ NoDup (map e_identity es)
  | Err err =>
      ~ NoDup (map e_identity (file_entries format ss)) /\
      exists pre e post earlier, file_entries format ss = pre ++ e :: post /\ earlier ∈ pre /\
        e_identity earlier = e_identity e /\
        ((e_fingerprint earlier = e_fingerprint e /\
          exists m, err = StatementError (REPEATED_REFERENCE (e_reference e)) m) \/
         (e_fingerprint earlier <> e_fingerprint e /\
          exists m, err = StatementError (CONFLICTING_REFERENCE (e_reference e)) m))
  end.
Proof.
  pose proof (entries_spec format ss) as H. destruct (entries format ss) as [es|err]; [done|].
  destruct H as (pre & e & post & earlier & Heq & Hin & Hid & ->). split.
  - rewrite Heq, map_app. intros (_ & Hdis & _)%NoDup_app. apply (Hdis (e_identity e)).
    + rewrite <-Hid. by apply list_elem_of_fmap_2.
    + by left.
  - exists pre, e, post, earlier. split_and!; [done|done|done|].
    unfold jeqb. case_bool_decide; [left|right]; eauto.
Qed.

(** ** Identities are collision-free *)

Definition row_units (s : Statement) (row : Transaction) : Prop :=
  Forall (Forall (fun c => 0 <= c))
    [account s; currency s; number s; start s; end_ s; opening s; closing s; bankReference row].

Lemma row_json s row format index :
  row_units s row ->
  json_ok (JArr [JStr (format_name format); JStr (account s); JStr (currency s);
    if bool_decide (reference_of row = [])
    then JArr [JStr (js "statement"); JStr (statementKey s); JNum (Z.of_nat index)]
    else JArr [JStr (js "bank"); JStr (reference_of row)]]).
Proof.
  intros Hu. unfold row_units in Hu. forall_split.
  apply json_ok_arr. constructor; [cbn; destruct format; by_decide|].
  constructor; [done|]. constructor; [done|]. constructor; [|constructor].
  case_bool_decide; apply json_ok_arr.
  - constructor; [cbn; by_decide|]. constructor; [|by constructor].
    apply stringify_units, json_ok_arr. by repeat (constructor; [done|]).
  - constructor; [cbn; by_decide|]. constructor; [|constructor]. cbn. unfold reference_of.
    case_match; [constructor|done].
Qed.

(** Two transactions have the same identity exactly when
    the same format, account and currency go with the same bank reference or,
    without one, the same statement (number, period and balances) and position
    in it: no two different bookings are ever taken for one. *)
Theorem identity_key (format format' : StatementFormat) (s s' : Statement) (i i' : nat)
    (row row' : Transaction) :
  row_units s row -> row_units s' row' ->
  identity_of format s i row = identity_of format' s' i' row' <->
  format = format' /\ account s = account s' /\ currency s = currency s' /\
  reference_of row = reference_of row' /\
  (reference_of row = [] ->
   number s = number s' /\ start s = start s' /\ end_ s = end_ s' /\
   opening s = opening s' /\ closing s = closing s' /\ i = i').
Proof.
  intros Hu Hu'. split.
  - unfold identity_of. intros Heq.
    apply stringify_inj in Heq; [|by apply row_json|by apply row_json].
    injection Heq as Hf Ha Hc Hr.
    assert (format = format') as <- by (by destruct format, format').
    split; [done|]. split; [done|]. split; [done|]. revert Hr.
    remember (statementKey s) as k eqn:Hk. remember (statementKey s') as k' eqn:Hk'.
    do 2 case_bool_decide; [intros [= Hr Hi]|intros [=]|intros [=]|intros [= Hr]].
    + split; [congruence|]. intros _. unfold row_units in Hu, Hu'. forall_split.
      rewrite Hk, Hk' in Hr. apply stringify_inj in Hr as [= -> -> -> -> ->];
        [|apply json_ok_arr; by repeat (constructor; [done|])..].
      split_and!; try done. lia.
    + split; [done|]. intros ?. done.
  - unfold identity_of, statementKey. intros (-> & -> & -> & Href & Hst). rewrite <-Href.
    case_bool_decide as H0; [|done]. destruct (Hst H0) as (-> & -> & -> & -> & -> & ->). done.
Qed.

Lemma identity_key_witness :
  let s := mkStatement (js "NL00") (js "1") (js "EUR") (js "0") (js "1") (js "2024-01-01")
             (js "2024-01-31") [] in
  let row r := mkTransaction (js "2024-01-02") (js "2024-01-02") (js "1") (js "NTRF") (js "X") r [] in
  row_units s (row (js "B1")) /\ row_units s (row (js "NONREF")) /\
  identity_of mt940 s 0 (row (js "B1")) <> identity_of mt940 s 0 (row (js "NONREF")).
Proof.
  intros s row.
  assert (H1 : row_units s (row (js "B1"))) by by_decide.
  assert (H2 : row_units s (row (js "NONREF"))) by by_decide.
  split; [exact H1|split; [exact H2|]]. intros Heq.
  apply (identity_key mt940 mt940 s s 0 0 _ _ H1 H2) in Heq.
  destruct Heq as (_ & _ & _ & Hr & _). vm_compute in Hr. discriminate Hr.
Defined.
