(* ===== verification/MoneyLedger.v ===== *)
(** * Amounts and the ledger

    Models the arithmetic of [src/integrations/money/app/amounts.ts] (exact
    sums of decimal strings; its locale formatting is [Intl]'s and is left
    out) and the filters and summaries of
    [src/integrations/money/app/ledger.ts] over the rows of
    [src/integrations/money/app/rows.ts].

    [units] throws on text that is no decimal: the functions that use it
    return an [option].  A [Map] keeps its keys in first-seen order
    ([Collections]). *)
From stdpp Require Import sorting.
From S2P Require Import Prelude Collections Text JsDate MoneyParser MoneyIdentity.
Local Open Scope Z_scope.

(** ** Amounts *)

(* src: integrations/money/app/amounts.ts 12-12 SCALE *)
Definition SCALE : nat := 5.

(* src: integrations/money/app/amounts.ts 14-25 fromUnits *)
Definition fromUnits (value : Z) : jstr :=
  let negative := value <? 0 in
  let digits := padStart (SCALE + 1) 48 (dec (if negative then - value else value)) in
  let whole := take (length digits - SCALE) digits in
  let fraction := strip_trailing_zeros (drop (length digits - SCALE) digits) in
  let text := if bool_decide (fraction = []) then whole else whole ++ 46 :: fraction in
  if negative && negb (jeqb text (js "0")) then 45 :: text else text.

(* src: integrations/money/app/amounts.ts 27-27 isOut *)
Definition isOut (amount : jstr) : option bool := n ← units amount; Some (n <? 0).

(* src: integrations/money/app/amounts.ts 29-29 negate *)
Definition negate (amount : jstr) : option jstr := n ← units amount; Some (fromUnits (- n)).

(** [l.reduce((sum, a) => sum + units(a), 0n)]. *)
Definition add_units (sum : option Z) (a : jstr) : option Z := s ← sum; n ← units a; Some (s + n).

(* src: integrations/money/app/amounts.ts 31-32 addAmounts *)
Definition addAmounts (amounts : list jstr) : option jstr :=
  n ← fold_left add_units amounts (Some 0); Some (fromUnits n).

(* src: integrations/money/app/rows.ts 66-85 Txn *)
Record Txn := mkTxn {
  t_subject : jstr;
  t_account : jstr;
  t_currency : jstr;
  t_amount : jstr;
  t_valueDate : jstr;
  t_bookingDate : jstr;
  t_description : jstr;
  t_reference : jstr;
  t_code : jstr;
  t_statement : jstr;
  t_sourceId : jstr;
  t_fingerprint : jstr;
  t_format : option StatementFormat;
  t_category : jstr;
  t_note : jstr;
}.

(* src: integrations/money/app/amounts.ts 203-212 Totals *)
Record Totals := mkTotals {
  tot_account : jstr;
  tot_currency : jstr;
  tot_in : jstr;
  tot_out : jstr;
  tot_net : jstr;
  tot_count : Z;
}.

(** An entry of the map in [totals]. *)
Record Bucket := mkBucket {
  k_account : jstr; k_currency : jstr; k_in : Z; k_out : Z; k_count : Z
}.

Definition bucket_key (r : Txn) : jstr := t_account r ++ 0 :: t_currency r.

Definition add_row (b : Bucket) (value : Z) : Bucket :=
  mkBucket (k_account b) (k_currency b)
    (if value <? 0 then k_in b else k_in b + value)
    (if value <? 0 then k_out b + value else k_out b)
    (k_count b + 1).

Definition totals_step (m : option (list (jstr * Bucket))) (r : Txn) : option (list (jstr * Bucket)) :=
  m ← m;
  value ← units (t_amount r);
  let b := default (mkBucket (t_account r) (t_currency r) 0 0 0) (jget (bucket_key r) m) in
  Some (jset (bucket_key r) (add_row b value) m).

Definition totals_of (b : Bucket) : Totals :=
  mkTotals (k_account b) (k_currency b) (fromUnits (k_in b)) (fromUnits (k_out b))
    (fromUnits (k_in b + k_out b)) (k_count b).

(* src: integrations/money/app/amounts.ts 214-258 totals *)
Definition totals (rows : list Txn) : option (list Totals) :=
  m ← fold_left totals_step rows (Some []);
  Some (map totals_of (jvalues m)).

(* src: integrations/money/app/amounts.ts 198-201 Money *)
Record Money := mkMoney { m_currency : jstr; m_amount : jstr }.

Definition currency_step (m : option (list (jstr * Z))) (r : Txn) : option (list (jstr * Z)) :=
  m ← m;
  value ← units (t_amount r);
  Some (jset (t_currency r) (default 0 (jget (t_currency r) m) + value) m).

(* src: integrations/money/app/amounts.ts 260-271 sumByCurrency *)
Definition sumByCurrency (rows : list Txn) : option (list Money) :=
  m ← fold_left currency_step rows (Some []);
  Some (map (fun e => mkMoney e.1 (fromUnits e.2))
          (sort_by (fun a b => jcmp a.1 b.1) m)).

(* src: integrations/money/app/amounts.ts 273-278 Day *)
Record Day := mkDay { d_date : jstr; d_rows : list Txn; d_net : list Money }.

Definition day_step (m : list (jstr * list Txn)) (r : Txn) : list (jstr * list Txn) :=
  jset (t_bookingDate r) (default [] (jget (t_bookingDate r) m) ++ [r]) m.

(* src: integrations/money/app/amounts.ts 280-295 groupByDay *)
Definition groupByDay (rows : list Txn) : option (list Day) :=
  let m := fold_left day_step rows [] in
  mapM (fun e => net ← sumByCurrency e.2; Some (mkDay e.1 e.2 net))
    (sort_by (fun a b => jcmp b.1 a.1) m).

(** ** The ledger *)

(* src: integrations/money/app/ledger.ts 10-15 PeriodKind *)
Inductive PeriodKind := p_all | this_month | last_month | this_year | custom.

(* src: integrations/money/app/ledger.ts 17-22 Period *)
Record Period := mkPeriod { p_kind : PeriodKind; p_from : option jstr; p_to : option jstr }.

(* src: integrations/money/app/ledger.ts 24-24 Direction *)
Inductive Direction := d_all | d_in | d_out.

(* src: integrations/money/app/ledger.ts 26-32 StatementKey *)
Record StatementKey := mkStatementKey {
  s_account : jstr; s_currency : jstr; s_statement : jstr; s_format : option StatementFormat
}.

(* src: integrations/money/app/ledger.ts 34-42 Filters *)
Record Filters := mkFilters {
  f_account : jstr;
  f_query : jstr;
  f_period : Period;
  f_direction : Direction;
  f_uncategorised : bool;
  f_statement : option StatementKey;
}.

(* src: integrations/money/app/ledger.ts 46-47 accountKey *)
Definition accountKey (account currency : jstr) : jstr :=
  stringify (JArr [JStr account; JStr currency]).

#[global] Instance StatementFormat_eq_dec : EqDecision StatementFormat.
Proof. solve_decision. Defined.

(* src: integrations/money/app/ledger.ts 49-53 statementMatches *)
Definition statementMatches (row : Txn) (key : StatementKey) : bool :=
  jeqb (t_account row) (s_account key) && jeqb (t_currency row) (s_currency key)
  && jeqb (t_statement row) (s_statement key)
  && match s_format key with None => true | f => bool_decide (t_format row = f) end.

(** [a || undefined] on a string that may be absent. *)
Definition non_empty (s : option jstr) : option jstr :=
  match s with Some (_ :: _) => s | _ => None end.

(** The range of a month: [${year}-${pad(month)}-01] and [-31]. *)
Definition month_day (year month day : Z) : jstr :=
  dec_signed year ++ 45 :: pad_dec 2 month ++ 45 :: pad_dec 2 day.

(** [today] is an ISO date. *)
(* src: integrations/money/app/ledger.ts 57-86 periodRange *)
Definition periodRange (period : Period) (today : jstr) : option jstr * option jstr :=
  let year := parse_dec (slice 0 4 today) in
  let month := parse_dec (slice 5 7 today) in
  match p_kind period with
  | p_all => (None, None)
  | this_month => (Some (month_day year month 1), Some (month_day year month 31))
  | last_month =>
      let y := if month =? 1 then year - 1 else year in
      let m := if month =? 1 then 12 else month - 1 in
      (Some (month_day y m 1), Some (month_day y m 31))
  | this_year => (Some (month_day year 1 1), Some (month_day year 12 31))
  | custom => (non_empty (p_from period), non_empty (p_to period))
  end.

(** [(!from || date >= from) && (!to || date <= to)]. *)
Definition within (from to : option jstr) (date : jstr) : bool :=
  match non_empty from with None => true | Some from => negb (jltb date from) end
  && match non_empty to with None => true | Some to => negb (jltb to date) end.

(* src: integrations/money/app/ledger.ts 88-92 inPeriod *)
Definition inPeriod (row : Txn) (period : Period) (today : jstr) : bool :=
  let '(from, to) := periodRange period today in within from to (t_bookingDate row).

Section Filtering.
(** [String.prototype.toLowerCase]: Unicode's tables. *)
Context (toLowerCase : jstr -> jstr).

(* src: integrations/money/app/ledger.ts 94-102 matchesQuery *)
Definition matchesQuery (row : Txn) (query : jstr) : bool :=
  let q := toLowerCase (trim query) in
  bool_decide (q = []) || jincludes q (toLowerCase (t_description row))
  || jincludes q (toLowerCase (t_reference row)).

(* src: integrations/money/app/ledger.ts 104-105 matchesDirection *)
Definition matchesDirection (row : Txn) (direction : Direction) : option bool :=
  match direction with
  | d_all => Some true
  | d_out => isOut (t_amount row)
  | d_in => out ← isOut (t_amount row); Some (negb out)
  end.

(** [rows.filter(f)] whose test may throw. *)
Fixpoint filter_throwing {A} (f : A -> option bool) (l : list A) : option (list A) :=
  match l with
  | [] => Some []
  | x :: l' => b ← f x; l'' ← filter_throwing f l'; Some (if b : bool then x :: l'' else l'')
  end.

(** The conjunction of [filterExceptAccount], left to right. *)
Definition row_passes (filters : Filters) (today : jstr) (row : Txn) : option bool :=
  if inPeriod row (f_period filters) today && matchesQuery row (f_query filters) then
    d ← matchesDirection row (f_direction filters);
    Some (d && (negb (f_uncategorised filters) || bool_decide (t_category row = []))
            && match f_statement filters with None => true | Some k => statementMatches row k end)
  else Some false.

(* src: integrations/money/app/ledger.ts 107-121 filterExceptAccount *)
Definition filterExceptAccount (rows : list Txn) (filters : Filters) (today : jstr) : option (list Txn) :=
  filter_throwing (row_passes filters today) rows.

(* src: integrations/money/app/ledger.ts 123-133 applyFilters *)
Definition applyFilters (rows : list Txn) (filters : Filters) (today : jstr) : option (list Txn) :=
  rows ← filterExceptAccount rows filters today;
  Some (List.filter (fun row => bool_decide (f_account filters = [])
    || jeqb (accountKey (t_account row) (t_currency row)) (f_account filters)) rows).
End Filtering.

(** The comparator of [sortNewestFirst], on rows and their indices. *)
Definition newest_first (a b : nat * Txn) : Z :=
  if jeqb (t_bookingDate a.2) (t_bookingDate b.2) then Z.of_nat a.1 - Z.of_nat b.1
  else if jltb (t_bookingDate a.2) (t_bookingDate b.2) then 1 else -1.

(* src: integrations/money/app/ledger.ts 135-147 sortNewestFirst *)
Definition sortNewestFirst (rows : list Txn) : list Txn :=
  map snd (sort_by newest_first (imap pair rows)).

(* src: integrations/money/app/ledger.ts 149-154 AccountOption *)
Record AccountOption := mkAccountOption {
  o_key : jstr; o_account : jstr; o_currency : jstr; o_count : Z
}.

Definition accounts_step (m : list (jstr * AccountOption)) (row : Txn) : list (jstr * AccountOption) :=
  let key := accountKey (t_account row) (t_currency row) in
  match jget key m with
  | Some o => jset key (mkAccountOption (o_key o) (o_account o) (o_currency o) (o_count o + 1)) m
  | None => jset key (mkAccountOption key (t_account row) (t_currency row) 1) m
  end.

(* src: integrations/money/app/ledger.ts 156-174 accounts *)
Definition accounts (rows : list Txn) : list AccountOption :=
  sort_by (fun a b => o_count b - o_count a) (jvalues (fold_left accounts_step rows [])).

(* src: integrations/money/app/ledger.ts 176-183 defaultPeriod *)
Definition defaultPeriod (rows : list Txn) (today : jstr) : Period :=
  let month := mkPeriod this_month None None in
  if existsb (fun row => inPeriod row month today) rows then month else mkPeriod p_all None None.

(* src: integrations/money/app/ledger.ts 185-191 noFilters *)
Definition noFilters (period : Period) : Filters := mkFilters [] [] period d_all false None.

(* src: integrations/money/app/ledger.ts 193-201 hasNarrowingFilters *)
Definition hasNarrowingFilters (filters : Filters) : bool :=
  negb (bool_decide (trim (f_query filters) = []))
  || match p_kind (f_period filters) with p_all => false | _ => true end
  || match f_direction filters with d_all => false | _ => true end
  || f_uncategorised filters
  || match f_statement filters with Some _ => true | None => false end
  || negb (bool_decide (f_account filters = [])).

(* src: integrations/money/app/ledger.ts 203-208 latestDate *)
Definition latestDate (rows : list Txn) : jstr :=
  fold_left (fun max r => if jltb max (t_bookingDate r) then t_bookingDate r else max) rows [].

(* src: integrations/money/app/ledger.ts 210-220 categories *)
Definition categories (rows : list Txn) : list jstr :=
  let counts := fold_left (fun m row =>
    if bool_decide (t_category row = []) then m
    else jset (t_category row) (default 0 (jget (t_category row) m) + 1) m) rows [] in
  map fst (sort_by (fun a b : jstr * Z =>
    if negb (b.2 - a.2 =? 0) then b.2 - a.2 else if jltb a.1 b.1 then -1 else 1) counts).

(** What [closingBalance] reads of a stored statement. *)
Record StoredBalance := mkStoredBalance {
  sb_account : jstr; sb_currency : jstr; sb_end : jstr; sb_closing : jstr
}.

(** One iteration over the statements; [best] is an amount and its date. *)
Definition better (account currency : jstr) (from to : option jstr)
    (best : option (jstr * jstr)) (s : StoredBalance) : option (jstr * jstr) :=
  if negb (jeqb (sb_account s) account) || negb (jeqb (sb_currency s) currency) then best
  else if negb (within from to (sb_end s)) then best
  else
    match best with
    | None => Some (sb_closing s, sb_end s)
    | Some (_, date) => if jltb date (sb_end s) then Some (sb_closing s, sb_end s) else best
    end.

(* src: integrations/money/app/ledger.ts 282-310 closingBalance *)
Definition closingBalance (statements : list StoredBalance) (account currency : jstr)
    (period : Period) (today : jstr) : option (jstr * jstr) :=
  let '(from, to) := periodRange period today in
  fold_left (better account currency from to) statements None.

(** ** Exact sums *)

Lemma decimal_text_zero w f :
  w ++ (if bool_decide (f = []) then [] else 46 :: f) = js "0" ->
  all_digit w -> w <> [] -> w = [48] /\ f = [].
Proof.
  intros Heq Hw Hne. destruct w as [|c w]; [done|]. injection Heq as -> Heq.
  destruct w; [|done]. cbn in Heq. split; [done|]. case_bool_decide; [done|discriminate].
Qed.

(** [fromUnits] and the reader's [decimalOf] are one function. *)
Lemma fromUnits_decimalOf n : fromUnits n = decimalOf n.
Proof.
  unfold fromUnits, decimalOf, SCALE. change (5 + 1)%nat with 6%nat.
  replace (if n <? 0 then - n else n) with (Z.abs n) by (destruct (Z.ltb_spec n 0); lia).
  set (digits := padStart 6 48 (dec (Z.abs n))).
  set (w := take (length digits - 5) digits).
  set (f := strip_trailing_zeros (drop (length digits - 5) digits)).
  assert ((if bool_decide (f = []) then w else w ++ 46 :: f)
    = w ++ (if bool_decide (f = []) then [] else 46 :: f)) as ->
    by (case_bool_decide; [by rewrite app_nil_r|done]).
  destruct (Z.ltb_spec n 0) as [Hn|]; [|done]. cbn [andb].
  unfold jeqb. case_bool_decide as Hz; [|done]. exfalso.
  destruct (dec_spec (Z.abs n)) as (Hp & Hd & _); [lia|].
  pose proof (padStart_length 6 48 (dec (Z.abs n))) as Hlen. fold digits in Hlen.
  assert (Hdig : all_digit digits) by (by apply padStart_digits).
  apply decimal_text_zero in Hz as [Hw Hf].
  - assert (H0 : parse_dec (w ++ padEnd 5 48 f) = 0) by (rewrite Hw, Hf; reflexivity).
    unfold f in H0. rewrite padEnd_strip in H0 by (rewrite length_drop; lia).
    assert (padEnd 5 48 (drop (length digits - 5) digits) = drop (length digits - 5) digits) as Hpad.
    { unfold padEnd. rewrite length_drop. replace (5 - _)%nat with 0%nat by lia. apply app_nil_r. }
    rewrite Hpad in H0. unfold w in H0. rewrite take_drop in H0. unfold digits in H0.
    rewrite parse_dec_padStart, Hp in H0. lia.
  - by apply Forall_take.
  - unfold w. intros Hw. apply (f_equal length) in Hw. rewrite length_take in Hw.
    clearbody digits. cbn in Hw. lia.
Qed.

Lemma units_fromUnits n : units (fromUnits n) = Some n.
Proof. rewrite fromUnits_decimalOf. apply units_decimalOf. Qed.

Lemma fold_add_units l acc :
  fold_left add_units l (Some acc) =
    match mapM units l with Some ns => Some (acc + sum_Z ns) | None => None end.
Proof.
  revert acc; induction l as [|a l IH]; intros acc; cbn [fold_left mapM]; [cbn; by rewrite Z.add_0_r|].
  unfold add_units at 2. cbn [mbind option_bind].
  destruct (units a) as [n|]; cbn [mbind option_bind].
  - rewrite IH. destruct (mapM units l); [|done]. cbn. f_equal. unfold sum_Z. cbn. lia.
  - clear. induction l as [|b l IH]; [done|]. cbn. exact IH.
Qed.

(** [units] reads back exactly what [fromUnits] writes, for
    every integer, and [fromUnits] is the statement reader's [decimalOf];
    hence sums of amounts are exact: when every amount is a decimal,
    [addAmounts] writes a text that stands for the sum of what they stand for. *)
Theorem fromUnits_exact (n : Z) (amounts : list jstr) :
  units (fromUnits n) = Some n /\ fromUnits n = decimalOf n /\
  forall ns, mapM units amounts = Some ns ->
    exists s, addAmounts amounts = Some s /\ units s = Some (sum_Z ns).
Proof.
  split; [apply units_fromUnits|]. split; [apply fromUnits_decimalOf|]. intros ns Hns.
  unfold addAmounts. rewrite fold_add_units, Hns. cbn [mbind option_bind].
  eexists. split; [done|]. rewrite Z.add_0_l. apply units_fromUnits.
Qed.

(** ** Totals *)

Definition units_of (r : Txn) : option Z := units (t_amount r).

Definition bucket_step (o : option Bucket) (p : Txn * Z) : Bucket :=
  add_row (default (mkBucket (t_account p.1) (t_currency p.1) 0 0 0) o) p.2.

Lemma totals_fold rows ns m :
  mapM units_of rows = Some ns ->
  fold_left totals_step rows (Some m) =
    Some (fold_left (group_step (fun p => bucket_key p.1) bucket_step) (zip rows ns) m).
Proof.
  intros H%mapM_Some. revert m; induction H as [|r n rows ns Hr H IH]; intros m; [done|].
  cbn [fold_left zip_with]. unfold totals_step at 2. unfold units_of in Hr.
  cbn [mbind option_bind]. rewrite Hr. cbn [mbind option_bind]. apply IH.
Qed.

Lemma currency_fold rows ns m :
  mapM units_of rows = Some ns ->
  fold_left currency_step rows (Some m) =
    Some (fold_left (group_step (fun p => t_currency p.1)
            (fun o (p : Txn * Z) => default 0 o + p.2)) (zip rows ns) m).
Proof.
  intros H%mapM_Some. revert m; induction H as [|r n rows ns Hr H IH]; intros m; [done|].
  cbn [fold_left zip_with]. unfold currency_step at 2. unfold units_of in Hr.
  cbn [mbind option_bind]. rewrite Hr. cbn [mbind option_bind]. apply IH.
Qed.

Definition money_in (vs : list Z) : Z := sum_Z (List.filter (fun v => negb (v <? 0)) vs).
Definition money_out (vs : list Z) : Z := sum_Z (List.filter (fun v => v <? 0) vs).

Lemma money_split vs : money_in vs + money_out vs = sum_Z vs.
Proof.
  unfold money_in, money_out. induction vs as [|v vs IH]; [done|]. cbn.
  destruct (v <? 0); cbn; unfold sum_Z in *; cbn in *; lia.
Qed.

Lemma bucket_fold l b :
  fold_left (fun o p => Some (bucket_step o p)) l (Some b) =
    Some (mkBucket (k_account b) (k_currency b) (k_in b + money_in (map snd l))
            (k_out b + money_out (map snd l)) (k_count b + len l)).
Proof.
  revert b; induction l as [|p l IH]; intros b; cbn [fold_left map].
  - unfold money_in, money_out, len; cbn. rewrite !Z.add_0_r. by destruct b.
  - rewrite IH. unfold bucket_step, add_row, money_in, money_out, len. cbn [default List.filter k_account
      k_currency k_in k_out k_count length from_option id].
    destruct (Z.ltb_spec p.2 0); cbn [negb sum_Z foldr]; unfold sum_Z; cbn [foldr];
      do 2 f_equal; lia.
Qed.

(** A bucket's key names its account and currency: no currency holds a NUL. *)
Lemma bucket_key_inj r r' :
  0 ∉ t_currency r -> 0 ∉ t_currency r' ->
  bucket_key r = bucket_key r' <-> t_account r = t_account r' /\ t_currency r = t_currency r'.
Proof.
  unfold bucket_key. intros H H'. split; [|by intros [-> ->]].
  intros Heq. apply (f_equal reverse) in Heq.
  rewrite !reverse_app, !reverse_cons, <-!app_assoc in Heq. cbn in Heq.
  assert (Hr : 0 ∉ reverse (t_currency r)) by (by rewrite elem_of_reverse).
  assert (Hr' : 0 ∉ reverse (t_currency r')) by (by rewrite elem_of_reverse).
  assert (Hgen : forall a b c d : list Z, 0 ∉ a -> 0 ∉ b -> a ++ 0 :: c = b ++ 0 :: d -> a = b /\ c = d).
  { induction a as [|x a IH]; intros [|y b] c d Ha Hb Hab; cbn in Hab.
    - by injection Hab as ->.
    - injection Hab as <- _. destruct Hb. by left.
    - injection Hab as -> _. destruct Ha. by left.
    - injection Hab as -> Hab. apply not_elem_of_cons in Ha as [_ Ha], Hb as [_ Hb].
      destruct (IH b c d Ha Hb Hab) as [-> ->]. done. }
  destruct (Hgen _ _ _ _ Hr Hr' Heq) as [Hc Ha].
  apply (f_equal reverse) in Hc, Ha. by rewrite !reverse_involutive in *.
Qed.

(** The amounts of the rows of one account and currency. *)
Definition values_in (account currency : jstr) (rows : list Txn) (ns : list Z) : list Z :=
  map snd (List.filter (fun p : Txn * Z =>
    bool_decide (t_account p.1 = account /\ t_currency p.1 = currency)) (zip rows ns)).

(** When every amount is a decimal and no currency code
    holds a NUL, [totals] has one entry per account and currency, in first-seen
    order; its money in, money out and net are the exact sums of that account
    and currency's nonnegative, negative and all amounts, and its count their
    number: no row is lost, counted twice or summed across currencies. *)
Theorem totals_exact (rows : list Txn) (ns : list Z) :
  mapM units_of rows = Some ns -> Forall (fun r => 0 ∉ t_currency r) rows ->
  exists ts, totals rows = Some ts /\
    map (fun t => tot_account t ++ 0 :: tot_currency t) ts = first_seen (map bucket_key rows) /\
    Forall (fun t =>
      let vs := values_in (tot_account t) (tot_currency t) rows ns in
      tot_in t = fromUnits (money_in vs) /\ tot_out t = fromUnits (money_out vs) /\
      tot_net t = fromUnits (sum_Z vs) /\ tot_count t = len vs) ts.
Proof.
  intros Hns Hcur. unfold totals. rewrite (totals_fold rows ns [] Hns). cbn [mbind option_bind].
  eexists. split; [done|]. set (key := fun p : Txn * Z => bucket_key p.1).
  change (fold_left _ _ []) with (group key bucket_step (zip rows ns)).
  assert (Hlen : length rows = length ns) by (by eapply Forall2_length, mapM_Some).
  assert (Hzip : map key (zip rows ns) = map bucket_key rows).
  { unfold key. rewrite <-(map_map fst bucket_key). f_equal. apply fst_zip. lia. }
  assert (Hall : forall k b, (k, b) ∈ group key bucket_step (zip rows ns) ->
    k = k_account b ++ 0 :: k_currency b /\
    let vs := values_in (k_account b) (k_currency b) rows ns in
    k_in b = money_in vs /\ k_out b = money_out vs /\ k_count b = len vs).
  { intros k b Hin. pose proof (group_members _ _ _ _ _ Hin) as Hne. apply group_elem in Hin.
    unfold group_value in Hin. destruct (members key k (zip rows ns)) as [|p l] eqn:Hm; [done|].
    cbn [fold_left] in Hin. rewrite bucket_fold in Hin. injection Hin as <-. cbn.
    assert (Hp : p ∈ members key k (zip rows ns)) by (rewrite Hm; by left).
    unfold members in Hp. apply list_elem_of_In, filter_In in Hp as [Hpin Hpk]. breflect.
    apply list_elem_of_In in Hpin. split; [by rewrite <-Hpk|].
    assert (Hvs : values_in (t_account p.1) (t_currency p.1) rows ns = map snd (p :: l)).
    { rewrite <-Hm. unfold values_in, members. f_equal. apply filter_ext_in. intros q Hq%list_elem_of_In.
      apply bool_decide_ext. rewrite <-Hpk. unfold key.
      assert (Hz : forall q, q ∈ zip rows ns -> 0 ∉ t_currency q.1).
      { intros [r n] Hr%elem_of_zip_l. by apply (proj1 (Forall_forall _ _) Hcur). }
      symmetry. rewrite bucket_key_inj by (by apply Hz). done. }
    rewrite Hvs. unfold money_in, money_out, len, add_row. cbn.
    destruct (Z.ltb_spec p.2 0); cbn; unfold sum_Z; cbn; rewrite ?length_map; split_and!; lia. }
  split.
  - rewrite <-Hzip, <-(group_keys key bucket_step). unfold jkeys, jvalues. rewrite !map_map.
    apply map_ext_in. intros [k b] Hin%list_elem_of_In. destruct (Hall k b Hin) as [-> _]. done.
  - apply Forall_forall. intros t (b & -> & Hb)%list_elem_of_fmap.
    apply list_elem_of_fmap in Hb as ([k b'] & -> & Hin). cbn.
    destruct (Hall k b' Hin) as (_ & Hi & Ho & Hc). rewrite <-Hi, <-Ho.
    split_and!; [done|done| |done]. f_equal. rewrite Hi, Ho. apply money_split.
Qed.

Definition demo_row (account currency amount date : string) : Txn :=
  mkTxn [] (js account) (js currency) (js amount) (js date) (js date) [] [] [] [] [] [] None [] [].

Definition demo_rows : list Txn :=
  [demo_row "A" "EUR" "12.5" "2024-01-02"; demo_row "A" "EUR" "-2" "2024-01-03";
   demo_row "B" "EUR" "1" "2024-01-02"].

Lemma totals_exact_witness :
  mapM units_of demo_rows = Some [1250000; -200000; 100000] /\
  exists ts, totals demo_rows = Some ts /\
    map (fun t => tot_account t ++ 0 :: tot_currency t) ts = first_seen (map bucket_key demo_rows).
Proof.
  assert (H1 : mapM units_of demo_rows = Some [1250000; -200000; 100000])
    by (vm_compute; reflexivity).
  assert (H2 : Forall (fun r => 0 ∉ t_currency r) demo_rows) by by_decide.
  split; [exact H1|].
  destruct (totals_exact demo_rows _ H1 H2) as (ts & Hts & Hkeys & _).
  exists ts. split; [exact Hts|exact Hkeys].
Defined.

(** ** Sums by currency, days *)

Definition currency_values (currency : jstr) (rows : list Txn) (ns : list Z) : list Z :=
  map snd (List.filter (fun p : Txn * Z => bool_decide (t_currency p.1 = currency)) (zip rows ns)).

Lemma sum_fold (l : list (Txn * Z)) n :
  fold_left (fun o (p : Txn * Z) => Some (default 0 o + p.2)) l (Some n) = Some (n + sum_Z (map snd l)).
Proof.
  revert n; induction l as [|p l IH]; intros n; cbn [fold_left map]; [cbn; by rewrite Z.add_0_r|].
  rewrite IH. cbn [default from_option id]. f_equal. unfold sum_Z. cbn. lia.
Qed.

Lemma sumByCurrency_exact rows ns :
  mapM units_of rows = Some ns ->
  exists ms, sumByCurrency rows = Some ms /\
    StronglySorted jlt (map m_currency ms) /\
    (forall c, c ∈ map m_currency ms <-> exists r, r ∈ rows /\ t_currency r = c) /\
    Forall (fun m => m_amount m = fromUnits (sum_Z (currency_values (m_currency m) rows ns))) ms.
Proof.
  intros Hns. unfold sumByCurrency. rewrite (currency_fold rows ns [] Hns). cbn [mbind option_bind].
  eexists. split; [done|]. set (key := fun p : Txn * Z => t_currency p.1).
  set (step := fun o (p : Txn * Z) => default 0 o + p.2).
  change (fold_left _ _ []) with (group key step (zip rows ns)).
  assert (Hlen : length rows = length ns) by (by eapply Forall2_length, mapM_Some).
  assert (Hkeys : jkeys (group key step (zip rows ns)) = first_seen (map t_currency rows)).
  { rewrite group_keys. f_equal. unfold key. rewrite <-(map_map fst t_currency). f_equal.
    apply fst_zip. lia. }
  assert (Hnd : NoDup (jkeys (group key step (zip rows ns)))).
  { rewrite Hkeys. apply first_seen_nodup. }
  rewrite !map_map. cbn [m_currency].
  split; [by apply sort_keys_ascending|]. split.
  - intros c. change (map (fun x : jstr * Z => x.1)) with (map (@fst jstr Z)).
    rewrite (sort_by_perm _ _). change (map fst ?m) with (jkeys m). rewrite Hkeys, elem_of_first_seen.
    rewrite list_elem_of_fmap. naive_solver.
  - apply Forall_forall. intros m (e & -> & He)%list_elem_of_fmap. cbn. f_equal.
    rewrite (sort_by_perm _ _) in He. destruct e as [c n]. cbn.
    apply group_elem in He. unfold group_value in He.
    change (members key c (zip rows ns)) with
      (List.filter (fun p : Txn * Z => bool_decide (t_currency p.1 = c)) (zip rows ns)) in He.
    unfold currency_values. destruct (List.filter _ _) as [|p l]; [done|].
    cbn [fold_left] in He. unfold step in He. rewrite sum_fold in He. injection He as <-.
    cbn. done.
Qed.

Lemma day_fold rows :
  fold_left day_step rows [] =
    group t_bookingDate (fun o r => default [] o ++ [r]) rows.
Proof. reflexivity. Qed.

Lemma day_rows l acc :
  fold_left (fun o (r : Txn) => Some (default [] o ++ [r])) l (Some acc) = Some (acc ++ l).
Proof.
  revert acc; induction l as [|r l IH]; intros acc; cbn [fold_left]; [by rewrite app_nil_r|].
  rewrite IH. cbn [default from_option id]. by rewrite <-app_assoc.
Qed.

(** The rows of one day, in the order of the table. *)
Definition rows_on (date : jstr) (rows : list Txn) : list Txn := members t_bookingDate date rows.

Lemma group_day e rows :
  e ∈ group t_bookingDate (fun o r => default [] o ++ [r]) rows ->
  e.2 = rows_on e.1 rows /\ e.2 <> [].
Proof.
  destruct e as [d l]. intros He. pose proof (group_members _ _ _ _ _ He) as Hne.
  apply group_elem in He. unfold group_value, rows_on in *. cbn.
  destruct (members t_bookingDate d rows) as [|r k] eqn:Hm; [done|]. cbn [fold_left] in He.
  rewrite day_rows in He. cbn in He. injection He as <-. done.
Qed.

Lemma units_members (P : Txn -> bool) rows ns :
  mapM units_of rows = Some ns -> exists ks, mapM units_of (List.filter P rows) = Some ks.
Proof.
  intros H%mapM_Some. setoid_rewrite mapM_Some.
  induction H as [|r n rows ns Hr H (ks & IH)]; [by exists []|]. cbn.
  destruct (P r); [exists (n :: ks); by constructor|eauto].
Qed.

Lemma mapM_total {A B} (f : A -> option B) (P : A -> B -> Prop) l :
  (forall x, x ∈ l -> exists y, f x = Some y /\ P x y) ->
  exists k, mapM f l = Some k /\ Forall2 P l k.
Proof.
  induction l as [|x l IH]; intros H; [by exists []|].
  destruct (H x) as (y & Hy & HP); [by left|].
  destruct IH as (k & Hk & HPk); [intros z Hz; apply H; by right|].
  exists (y :: k). cbn. rewrite Hy. cbn. rewrite Hk. cbn. split; [done|by constructor].
Qed.

(** When every amount is a decimal, [groupByDay] lists each
    booking date of the rows once, newest first, with that day's rows in table
    order (so every row is on exactly one day) and, per currency present, their
    exact sum, currencies in order of their code. *)
Theorem groupByDay_exact (rows : list Txn) (ns : list Z) :
  mapM units_of rows = Some ns ->
  exists days, groupByDay rows = Some days /\
    StronglySorted (fun a b => jlt b a) (map d_date days) /\
    (forall r, r ∈ rows -> t_bookingDate r ∈ map d_date days) /\
    Forall (fun day =>
      d_rows day = rows_on (d_date day) rows /\ d_rows day <> [] /\
      StronglySorted jlt (map m_currency (d_net day)) /\
      (forall c, c ∈ map m_currency (d_net day) <-> exists r, r ∈ d_rows day /\ t_currency r = c) /\
      exists ks, mapM units_of (d_rows day) = Some ks /\
        Forall (fun m => m_amount m =
          fromUnits (sum_Z (currency_values (m_currency m) (d_rows day) ks))) (d_net day)) days.
Proof.
  intros Hns. unfold groupByDay. rewrite day_fold.
  set (m := group t_bookingDate (fun o r => default [] o ++ [r]) rows).
  assert (Hnd : NoDup (jkeys m)) by (unfold m; rewrite group_keys; apply first_seen_nodup).
  set (P := fun (e : jstr * list Txn) day => d_date day = e.1 /\ d_rows day = e.2 /\
    StronglySorted jlt (map m_currency (d_net day)) /\
    (forall c, c ∈ map m_currency (d_net day) <-> exists r, r ∈ e.2 /\ t_currency r = c) /\
    exists ks, mapM units_of e.2 = Some ks /\
      Forall (fun m => m_amount m = fromUnits (sum_Z (currency_values (m_currency m) e.2 ks))) (d_net day)).
  destruct (mapM_total (fun e => net ← sumByCurrency e.2; Some (mkDay e.1 e.2 net)) P
    (sort_by (fun a b => jcmp b.1 a.1) m)) as (days & Hdays & HP).
  { intros e He. rewrite (sort_by_perm _ _) in He. destruct (group_day e rows He) as [Hrows _].
    destruct (units_members (fun r => bool_decide (t_bookingDate r = e.1)) rows ns Hns) as [ks Hks].
    change (List.filter _ rows) with (rows_on e.1 rows) in Hks. rewrite <-Hrows in Hks.
    destruct (sumByCurrency_exact e.2 ks Hks) as (ms & Hms & Hsorted & Hcur & Hamounts).
    rewrite Hms. cbn. eexists. split; [done|]. unfold P. cbn. split_and!; [done|done|done|done|eauto]. }
  exists days. split; [exact Hdays|].
  assert (Hdates : map d_date days = map fst (sort_by (fun a b => jcmp b.1 a.1) m)).
  { clear -HP. induction HP as [|e day l k (Hd & _) _ IH]; [done|]. cbn. by rewrite Hd, IH. }
  rewrite Hdates. split; [by apply sort_keys_descending|]. split.
  - intros r Hr. rewrite (sort_by_perm _ _). change (map fst m) with (jkeys m). unfold m.
    rewrite group_keys, elem_of_first_seen. by apply list_elem_of_fmap_2.
  - assert (Hin : Forall (fun e => e.2 = rows_on e.1 rows /\ e.2 <> [])
      (sort_by (fun a b => jcmp b.1 a.1) m)).
    { apply Forall_forall. intros e He. rewrite (sort_by_perm _ _) in He. by apply group_day. }
    clear -HP Hin. induction HP as [|e day l k (Hd & Hr & Hs & Hc & Hks) _ IH]; [constructor|].
    apply Forall_cons in Hin as [[He1 He2] Hin]. constructor; [|by apply IH].
    rewrite Hd, Hr. split_and!; done.
Qed.

Lemma groupByDay_exact_witness :
  mapM units_of demo_rows = Some [1250000; -200000; 100000] /\
  exists days, groupByDay demo_rows = Some days /\
    StronglySorted (fun a b => jlt b a) (map d_date days).
Proof.
  assert (H1 : mapM units_of demo_rows = Some [1250000; -200000; 100000])
    by (vm_compute; reflexivity).
  split; [exact H1|].
  destruct (groupByDay_exact demo_rows _ H1) as (days & Hd & Hs & _).
  exists days. split; [exact Hd|exact Hs].
Defined.

(** ** Order and periods *)

Lemma newest_first_total x y : newest_first x y <= 0 \/ newest_first y x <= 0.
Proof.
  unfold newest_first, jeqb. rewrite (bool_decide_ext (t_bookingDate y.2 = t_bookingDate x.2)
    (t_bookingDate x.2 = t_bookingDate y.2)) by (by split).
  case_bool_decide; [lia|]. destruct (jltb _ _) eqn:H1; [|by left].
  right. destruct (jltb (t_bookingDate y.2) _) eqn:H2; [|done].
  pose proof (jltb_trans _ _ _ H1 H2) as H3. by rewrite jltb_irrefl in H3.
Qed.

Lemma newest_first_le x y :
  newest_first x y <= 0 <->
  jlt (t_bookingDate y.2) (t_bookingDate x.2) \/
  t_bookingDate x.2 = t_bookingDate y.2 /\ (x.1 <= y.1)%nat.
Proof.
  unfold newest_first, jeqb, jlt. case_bool_decide as Heq.
  - rewrite Heq, jltb_irrefl. split; [right; split; [done|lia]|intros [?|[_ ?]]; [done|lia]].
  - destruct (jltb (t_bookingDate x.2) (t_bookingDate y.2)) eqn:H1.
    + split; [lia|]. intros [H2|[? _]]; [|done].
      pose proof (jltb_trans _ _ _ H1 H2) as H3. by rewrite jltb_irrefl in H3.
    + split; [|lia]. intros _. left. apply not_false_iff_true. intros H2. apply Heq.
      by apply jltb_total.
Qed.

Lemma newest_first_trans x y z : newest_first x y <= 0 -> newest_first y z <= 0 -> newest_first x z <= 0.
Proof.
  rewrite !newest_first_le. unfold jlt. intros [H1|[H1 H1']] [H2|[H2 H2']].
  - left. by eapply jltb_trans.
  - left. by rewrite <-H2.
  - left. by rewrite H1.
  - right. split; [congruence|lia].
Qed.

Lemma imap_pair_sorted {A} (l : list A) :
  StronglySorted (fun x y : nat * A => (x.1 <= y.1)%nat) (imap pair l).
Proof.
  enough (H : forall n, StronglySorted (fun x y : nat * A => (x.1 <= y.1)%nat)
    (imap (fun i x => ((n + i)%nat, x)) l)) by apply (H 0%nat).
  induction l as [|a l IH]; intros n; [constructor|].
  change (imap (fun i x => ((n + i)%nat, x)) (a :: l))
    with (((n + 0)%nat, a) :: imap ((fun i x => ((n + i)%nat, x)) ∘ S) l).
  assert (imap ((fun i x => ((n + i)%nat, x)) ∘ S) l = imap (fun i (x : A) => ((S n + i)%nat, x)) l) as ->.
  { apply imap_ext. intros i x _. cbn. f_equal. lia. }
  constructor; [apply IH|]. apply Forall_forall. intros [i x] Hin. cbn.
  apply list_elem_of_lookup in Hin as [k Hk]. apply list_lookup_imap_Some in Hk as (y & _ & [= -> _]).
  lia.
Qed.

Lemma filter_map_snd {A B} (f : B -> bool) (l : list (A * B)) :
  List.filter f (map snd l) = map snd (List.filter (fun p => f p.2) l).
Proof. induction l as [|[a b] l IH]; cbn; [done|]. destruct (f b); cbn; by rewrite IH. Qed.

Lemma StronglySorted_filter {A} (R : A -> A -> Prop) (f : A -> bool) l :
  StronglySorted R l -> StronglySorted R (List.filter f l).
Proof.
  induction 1 as [|x l Hl IH Hx]; cbn; [constructor|]. destruct (f x); [|done].
  constructor; [done|]. apply Forall_forall. intros y Hy%list_elem_of_In.
  apply filter_In in Hy as [Hy _]. apply list_elem_of_In in Hy.
  by apply (proj1 (Forall_forall _ _) Hx).
Qed.

(** Newest booking first, rows of one day in the order they came in. *)
Lemma sortNewestFirst_spec rows :
  sortNewestFirst rows ≡ₚ rows /\
  StronglySorted (fun a b => jltb (t_bookingDate a) (t_bookingDate b) = false) (sortNewestFirst rows) /\
  forall d, rows_on d (sortNewestFirst rows) = rows_on d rows.
Proof.
  unfold sortNewestFirst. set (l := imap pair rows).
  assert (Hsnd : map snd l = rows).
  { unfold l. rewrite <-(imap_pair_map (fun _ r => r)). clear. induction rows; cbn; [done|].
    f_equal. exact IHrows. }
  split; [by rewrite (sort_by_perm newest_first l), Hsnd|]. split.
  - pose proof (sort_by_sorted newest_first newest_first_total newest_first_trans l) as Hs.
    induction Hs as [|x k Hk IH Hx]; cbn; [constructor|]. constructor; [done|].
    apply Forall_forall. intros r (y & -> & Hy)%list_elem_of_fmap.
    apply (proj1 (Forall_forall _ _) Hx) in Hy. apply newest_first_le in Hy. unfold jlt in Hy.
    apply not_true_iff_false. intros Hlt. destruct Hy as [Hy|[Heq _]].
    + pose proof (jltb_trans _ _ _ Hlt Hy) as H. by rewrite jltb_irrefl in H.
    + rewrite Heq in Hlt. by rewrite jltb_irrefl in Hlt.
  - intros d. unfold rows_on, members. rewrite <-Hsnd. rewrite !filter_map_snd. f_equal.
    set (P := fun p : nat * Txn => bool_decide (t_bookingDate p.2 = d)).
    assert (Hidx : forall x y, x ∈ l -> y ∈ l -> x.1 = y.1 -> x = y).
    { intros [i x] [j y] Hx%elem_of_imap_pair Hy%elem_of_imap_pair Heq. cbn in Heq. congruence. }
    assert (Hl : StronglySorted (fun x y : nat * Txn => (x.1 <= y.1)%nat) l) by apply imap_pair_sorted.
    apply (StronglySorted_unique_strong (fun x y : nat * Txn => (x.1 <= y.1)%nat)).
    + intros x y Hx%list_elem_of_In Hy%list_elem_of_In H1 H2.
      apply filter_In in Hx as [Hx%list_elem_of_In _], Hy as [Hy%list_elem_of_In _].
      rewrite (sort_by_perm newest_first l) in Hx. apply Hidx; [done|done|lia].
    + pose proof (sort_by_sorted newest_first newest_first_total newest_first_trans l) as Hs.
      induction Hs as [|x k Hk IH Hx]; cbn; [constructor|]. unfold P at 1.
      case_bool_decide as Hd; [|exact IH]. constructor; [exact IH|].
      apply Forall_forall. intros y Hy%list_elem_of_In. apply filter_In in Hy as [Hy Hpy].
      apply list_elem_of_In in Hy. apply (proj1 (Forall_forall _ _) Hx), newest_first_le in Hy.
      unfold P in Hpy. breflect. destruct Hy as [Hlt|[_ ?]]; [|done].
      exfalso. unfold jlt in Hlt. rewrite Hd, Hpy, jltb_irrefl in Hlt. done.
    + by apply StronglySorted_filter.
    + apply filter_Permutation, sort_by_perm.
Qed.
