(* ===== verification/MoneyCheck.v ===== *)
(** * The check before an import

    Models [src/integrations/money/app/check.ts]: comparing a statement file
    with the rows already in the table, the way the importer will.  Reading the
    file is [MoneyParser]; its identities are [MoneyIdentity].

    The theorem says what each of the check's outcomes means for the file's
    entries, so that a preview promises exactly what an import does. *)
From S2P Require Import Prelude Collections Text MoneyParser MoneyIdentity MoneyLedger.
Local Open Scope Z_scope.

(* src: integrations/money/app/check.ts 29-37 FileRow *)
Record FileRow := mkFileRow {
  r_date : jstr;
  r_account : jstr;
  r_currency : jstr;
  r_amount : jstr;
  r_description : jstr;
  r_reference : jstr;
}.

Inductive ChangedField := c_date | c_amount | c_description | c_account.

(* src: integrations/money/app/check.ts 39-44 Changed *)
Record Changed := mkChanged { ch_mine : Txn; ch_file : FileRow; ch_fields : list ChangedField }.

(* src: integrations/money/app/check.ts 46-49 ProblemCode *)
Inductive ProblemCode :=
| Code_BALANCE_MISMATCH | Code_OVERLAP_WITHOUT_REFERENCES | Code_REPEATED_REFERENCE
| Code_CONFLICTING_REFERENCE | Code_JSON_NARRATIVE | Code_INVALID_FIELD | Code_FILE_TOO_LARGE
| Code_TOO_MANY_ENTRIES | Code_MISSING_BALANCE | Code_NOT_A_STATEMENT
| CHANGED_TRANSACTION | UNKNOWN.

#[global] Instance ProblemCode_eq_dec : EqDecision ProblemCode.
Proof. solve_decision. Defined.

(* src: integrations/money/app/check.ts 51-59 Problem *)
Record Problem := mkProblem {
  pb_code : ProblemCode;
  pb_message : jstr;
  pb_data : option StatementErrorData;
  pb_changed : option Changed;
  pb_count : option Z;
}.

(** [error.code]. *)
Definition code_of (data : StatementErrorData) : ProblemCode :=
  match data with
  | BALANCE_MISMATCH _ _ _ _ _ _ _ _ _ _ => Code_BALANCE_MISMATCH
  | OVERLAP_WITHOUT_REFERENCES _ _ _ _ => Code_OVERLAP_WITHOUT_REFERENCES
  | REPEATED_REFERENCE _ => Code_REPEATED_REFERENCE
  | CONFLICTING_REFERENCE _ => Code_CONFLICTING_REFERENCE
  | JSON_NARRATIVE _ => Code_JSON_NARRATIVE
  | INVALID_FIELD _ _ => Code_INVALID_FIELD
  | FILE_TOO_LARGE _ _ => Code_FILE_TOO_LARGE
  | TOO_MANY_ENTRIES _ => Code_TOO_MANY_ENTRIES
  | MISSING_BALANCE _ => Code_MISSING_BALANCE
  | NOT_A_STATEMENT => Code_NOT_A_STATEMENT
  end.

(* src: integrations/money/app/check.ts 61-70 BLOCKING *)
Definition BLOCKING : list ProblemCode :=
  [CHANGED_TRANSACTION; Code_OVERLAP_WITHOUT_REFERENCES; Code_REPEATED_REFERENCE;
   Code_CONFLICTING_REFERENCE; Code_FILE_TOO_LARGE; Code_TOO_MANY_ENTRIES; Code_JSON_NARRATIVE].

(* src: integrations/money/app/check.ts 72-72 isBlocked *)
Definition isBlocked (p : Problem) : bool := bool_decide (pb_code p ∈ BLOCKING).

(* src: integrations/money/app/check.ts 74-81 Preview *)
Record Preview := mkPreview {
  pv_format : StatementFormat;
  pv_statements : list Statement;
  pv_fresh : list FileRow;
  pv_already : list FileRow;
  pv_withoutReference : Z;
}.

(* src: integrations/money/app/check.ts 96-105 tooLarge *)
Definition tooLarge (size : Z) : option Problem :=
  if size <=? 5000000 then None
  else Some (mkProblem Code_FILE_TOO_LARGE (js "Choose a camt.053 file smaller than 5 MB")
               (Some (FILE_TOO_LARGE 5000000 camt053)) None None).

(* src: integrations/money/app/check.ts 109-117 problemOf *)
Definition problemOf (e : JsError) : Problem :=
  match e with
  | StatementError data message => mkProblem (code_of data) (js message) (Some data) None None
  | PlainError message => mkProblem UNKNOWN (js message) None None None
  end.

(* src: integrations/money/app/check.ts 119-126 fileRow *)
Definition fileRow (e : Entry) : FileRow :=
  mkFileRow (bookingDate (e_row e)) (account (e_statement e)) (currency (e_statement e))
    (amount (e_row e)) (description (e_row e))
    (if bool_decide (bankReference (e_row e) = []) then reference (e_row e)
     else bankReference (e_row e)).

(* src: integrations/money/app/check.ts 230-238 differences *)
Definition differences (mine : Txn) (file : FileRow) : list ChangedField :=
  (if jeqb (t_bookingDate mine) (r_date file) then [] else [c_date])
  ++ (if jeqb (t_amount mine) (r_amount file) then [] else [c_amount])
  ++ (if jeqb (t_description mine) (r_description file) then [] else [c_description])
  ++ (if jeqb (t_account mine) (r_account file) then [] else [c_account]).

(* src: integrations/money/identity.ts 94-95 OVERLAP_MESSAGE ! *)
Definition OVERLAP_MESSAGE : jstr :=
  js "This statement overlaps an earlier import without unique bank references. Use the original statement or export a non-overlapping period.".

(** The variables of [compare]'s loop. *)
Record CState := mkCState {
  c_fresh : list FileRow; c_already : list FileRow; c_changed : list Changed; c_without : Z
}.

(** One iteration; [Err] is the early return. *)
Definition compare_entry (bySource byFingerprint : list (jstr * Txn)) (st : CState) (entry : Entry) :
    res Problem CState :=
  let without := c_without st + (if bool_decide (e_reference entry = []) then 1 else 0) in
  let row := fileRow entry in
  match jget (e_identity entry) bySource with
  | Some mine =>
      if bool_decide (t_fingerprint mine = []) || jeqb (t_fingerprint mine) (e_fingerprint entry)
      then Ok (mkCState (c_fresh st) (c_already st ++ [row]) (c_changed st) without)
      else Ok (mkCState (c_fresh st) (c_already st)
                 (c_changed st ++ [mkChanged mine row (differences mine row)]) without)
  | None =>
      let earlier := if bool_decide (e_reference entry = [])
                     then jget (e_fingerprint entry) byFingerprint else None in
      match earlier with
      | Some earlier =>
          Err (mkProblem Code_OVERLAP_WITHOUT_REFERENCES OVERLAP_MESSAGE
                 (Some (OVERLAP_WITHOUT_REFERENCES (number (e_statement entry))
                          (account (e_statement entry))
                          (start (e_statement entry), end_ (e_statement entry))
                          (t_valueDate earlier))) None None)
      | None => Ok (mkCState (c_fresh st ++ [row]) (c_already st) (c_changed st) without)
      end
  end.

(** The comparator [newestFirst]. *)
Definition newestFirst (a b : FileRow) : Z := jcmp (r_date b) (r_date a).

(* src: integrations/money/app/check.ts 141-228 compare *)
Definition compare (format : StatementFormat) (statements : list Statement) (existing : list Txn) :
    res Problem Preview :=
  match entries format statements with
  | Err e => Err (problemOf e)
  | Ok list =>
      let bySource := jmap_of (map (fun row => (t_sourceId row, row)) existing) in
      let byFingerprint := jmap_of (map (fun row => (t_fingerprint row, row)) existing) in
      st ← foldM (compare_entry bySource byFingerprint) (mkCState [] [] [] 0) list;
      match c_changed st with
      | first :: _ =>
          Err (mkProblem CHANGED_TRANSACTION
                 (dec (len (c_changed st)) ++ js " imported transaction(s) differ from this file")
                 None (Some first) (Some (len (c_changed st))))
      | [] => Ok (mkPreview format statements (sort_by newestFirst (c_fresh st))
                    (sort_by newestFirst (c_already st)) (c_without st))
      end
  end.

(** ** What an outcome means *)

(** The row of the table an entry was imported as: the last with its identity. *)
Definition imported_as (existing : list Txn) (e : Entry) : option Txn :=
  last (List.filter (fun row => bool_decide (t_sourceId row = e_identity e)) existing).

(** An earlier row with an entry's content, for entries without a reference. *)
Definition overlaps (existing : list Txn) (e : Entry) : Prop :=
  e_reference e = [] /\ exists row, row ∈ existing /\ t_fingerprint row = e_fingerprint e.

Definition same_content (mine : Txn) (e : Entry) : Prop :=
  t_fingerprint mine = [] \/ t_fingerprint mine = e_fingerprint e.

Inductive verdict := Fresh | Already | Differs | Overlaps.

#[global] Instance verdict_eq_dec : EqDecision verdict.
Proof. solve_decision. Defined.

Definition verdict_of (existing : list Txn) (e : Entry) : verdict :=
  match imported_as existing e with
  | Some mine =>
      if bool_decide (t_fingerprint mine = []) || jeqb (t_fingerprint mine) (e_fingerprint e)
      then Already else Differs
  | None =>
      if bool_decide (e_reference e = [])
         && existsb (fun row => jeqb (t_fingerprint row) (e_fingerprint e)) existing
      then Overlaps else Fresh
  end.

Lemma filter_map_pair {B} (key : B -> jstr) k (l : list B) :
  List.filter (fun p : jstr * B => bool_decide (p.1 = k)) (map (fun x => (key x, x)) l)
    = map (fun x => (key x, x)) (List.filter (fun x => bool_decide (key x = k)) l).
Proof. induction l as [|x l IH]; cbn; [done|]. case_bool_decide; cbn; by rewrite IH. Qed.

Lemma jget_by (key : Txn -> jstr) k existing :
  jget k (jmap_of (map (fun row => (key row, row)) existing)) =
    last (List.filter (fun row => bool_decide (key row = k)) existing).
Proof.
  rewrite jget_jmap_of, filter_map_pair.
  destruct (List.filter _ existing) as [|x l _] using rev_ind; [done|].
  rewrite map_app. cbn [map]. by rewrite !last_snoc.
Qed.

Lemma last_filter_None {A} (f : A -> bool) l : last (List.filter f l) = None <-> existsb f l = false.
Proof.
  rewrite last_None. induction l as [|x l IH]; cbn; [done|]. destruct (f x); cbn; [done|exact IH].
Qed.

Definition rows_with (v : verdict) (existing : list Txn) (es : list Entry) : list FileRow :=
  map fileRow (List.filter (fun e => bool_decide (verdict_of existing e = v)) es).

Lemma rows_with_cons v existing e es :
  rows_with v existing (e :: es) =
    (if bool_decide (verdict_of existing e = v) then [fileRow e] else []) ++ rows_with v existing es.
Proof. unfold rows_with. cbn. by case_bool_decide. Qed.

Definition without_reference (es : list Entry) : Z :=
  len (List.filter (fun e => bool_decide (e_reference e = [])) es).

(** The loop, by the verdicts of its entries. *)
Lemma compare_loop existing es st :
  match foldM (compare_entry (jmap_of (map (fun row => (t_sourceId row, row)) existing))
                 (jmap_of (map (fun row => (t_fingerprint row, row)) existing))) st es with
  | Ok st' =>
      Forall (fun e => verdict_of existing e <> Overlaps) es /\
      c_fresh st' = c_fresh st ++ rows_with Fresh existing es /\
      c_already st' = c_already st ++ rows_with Already existing es /\
      map ch_file (c_changed st') = map ch_file (c_changed st) ++ rows_with Differs existing es /\
      c_without st' = c_without st + without_reference es
  | Err p =>
      pb_code p = Code_OVERLAP_WITHOUT_REFERENCES /\
      exists e, e ∈ es /\ verdict_of existing e = Overlaps
  end.
Proof.
  revert st; induction es as [|e es IH]; intros st; cbn [foldM].
  { unfold rows_with, without_reference, len; cbn. rewrite !app_nil_r, Z.add_0_r.
    split_and!; [constructor|done..]. }
  assert (Hw : without_reference (e :: es)
    = (if bool_decide (e_reference e = []) then 1 else 0) + without_reference es).
  { unfold without_reference. cbn. case_bool_decide; unfold len; cbn [length]; lia. }
  assert (Hstep : match compare_entry (jmap_of (map (fun row => (t_sourceId row, row)) existing))
      (jmap_of (map (fun row => (t_fingerprint row, row)) existing)) st e with
    | Ok st' => verdict_of existing e <> Overlaps /\
        c_fresh st' = c_fresh st ++ (if bool_decide (verdict_of existing e = Fresh) then [fileRow e] else []) /\
        c_already st' = c_already st ++ (if bool_decide (verdict_of existing e = Already) then [fileRow e] else []) /\
        map ch_file (c_changed st') = map ch_file (c_changed st)
          ++ (if bool_decide (verdict_of existing e = Differs) then [fileRow e] else []) /\
        c_without st' = c_without st + (if bool_decide (e_reference e = []) then 1 else 0)
    | Err p => pb_code p = Code_OVERLAP_WITHOUT_REFERENCES /\ verdict_of existing e = Overlaps
    end).
  { unfold compare_entry, verdict_of, imported_as. rewrite !jget_by.
    destruct (last (List.filter (fun row => bool_decide (t_sourceId row = _)) existing)) as [mine|].
    - destruct (_ || _); cbn; rewrite ?app_nil_r, ?map_app; done.
    - case_bool_decide as Href; cbn [andb].
      + destruct (last (List.filter _ existing)) as [x|] eqn:Hl.
        * assert (existsb (fun row => jeqb (t_fingerprint row) (e_fingerprint e)) existing = true) as ->.
          { apply not_false_iff_true. intros H. apply last_filter_None in H. unfold jeqb in H. congruence. }
          done.
        * apply last_filter_None in Hl. unfold jeqb. rewrite Hl. cbn. by rewrite !app_nil_r.
      + cbn. by rewrite !app_nil_r. }
  destruct (compare_entry _ _ st e) as [st1|p]; cbn [mbind res_bind].
  - specialize (IH st1). destruct (foldM _ st1 es) as [st'|p].
    + destruct Hstep as (H1 & H2 & H3 & H4 & H5), IH as (I1 & -> & -> & -> & ->).
      rewrite !rows_with_cons, H2, H3, H4, H5, Hw, <-!app_assoc.
      split_and!; [by constructor|done|done|done|lia].
    + destruct IH as (? & x & Hx & Hv). split; [done|]. exists x. split; [by right|done].
  - destruct Hstep. split; [done|]. exists e. split; [by left|done].
Qed.

Lemma newestFirst_sorted l :
  StronglySorted (fun a b => jltb (r_date a) (r_date b) = false) (sort_by newestFirst l).
Proof.
  assert (H : StronglySorted (le_by newestFirst) (sort_by newestFirst l)).
  { apply sort_by_sorted; unfold newestFirst; [intros; apply jcmp_total|].
    intros x y z H1 H2. by eapply jcmp_trans. }
  induction H as [|x k Hk IH Hx]; [constructor|]. constructor; [done|].
  eapply Forall_impl; [exact Hx|]. intros y Hy. by apply jcmp_le.
Qed.

(** The check's outcome is decided by its entries' verdicts:
    it succeeds exactly when the file's identities do not repeat and no entry
    differs from its imported row or, having no reference, overlaps one by
    content; then the fresh and already imported rows are exactly the entries
    with that verdict, newest first, none lost or invented.  Otherwise the
    problem is the file's own, an overlap, or the number of differing rows. *)
Theorem compare_verdicts (format : StatementFormat) (ss : list Statement) (existing : list Txn) :
  match compare format ss existing with
  | Ok p =>
      entries format ss = Ok (file_entries format ss) /\
      Forall (fun e => verdict_of existing e = Fresh \/ verdict_of existing e = Already)
        (file_entries format ss) /\
      pv_fresh p ≡ₚ rows_with Fresh existing (file_entries format ss) /\
      pv_already p ≡ₚ rows_with Already existing (file_entries format ss) /\
      StronglySorted (fun a b => jltb (r_date a) (r_date b) = false) (pv_fresh p) /\
      StronglySorted (fun a b => jltb (r_date a) (r_date b) = false) (pv_already p) /\
      pv_withoutReference p = without_reference (file_entries format ss)
  | Err p =>
      (exists e, entries format ss = Err e /\ p = problemOf e) \/
      (entries format ss = Ok (file_entries format ss) /\
       ((pb_code p = Code_OVERLAP_WITHOUT_REFERENCES /\
         exists e, e ∈ file_entries format ss /\ verdict_of existing e = Overlaps) \/
        (pb_code p = CHANGED_TRANSACTION /\
         pb_count p = Some (len (rows_with Differs existing (file_entries format ss))) /\
         rows_with Differs existing (file_entries format ss) <> [])))
  end.
Proof.
  unfold compare. pose proof (entries_spec format ss) as He.
  destruct (entries format ss) as [es|e]; [|by left; eauto]. destruct He as [-> _].
  pose proof (compare_loop existing (file_entries format ss) (mkCState [] [] [] 0)) as Hloop.
  destruct (foldM _ _ _) as [st|p]; cbn [mbind res_bind]; [|right; split; [done|by left]].
  destruct Hloop as (Hno & Hf & Ha & Hc & Hw). cbn in Hf, Ha, Hc, Hw.
  destruct (c_changed st) as [|first rest] eqn:Hch.
  - cbn [map] in Hc. cbn [pv_fresh pv_already pv_withoutReference].
    split; [done|]. split.
    { apply Forall_forall. intros e Hin.
      pose proof (proj1 (Forall_forall _ _) Hno e Hin).
      destruct (verdict_of existing e) eqn:Hv; auto; [|done]. exfalso.
      assert (Hx : fileRow e ∈ rows_with Differs existing (file_entries format ss)).
      { unfold rows_with. apply list_elem_of_fmap_2, list_elem_of_In, filter_In.
        split; [by apply list_elem_of_In|by rewrite bool_decide_true]. }
      rewrite <-Hc in Hx. by apply elem_of_nil in Hx. }
    rewrite <-Hf, <-Ha, Hw.
    split_and!; [apply sort_by_perm|apply sort_by_perm|apply newestFirst_sorted
      |apply newestFirst_sorted|lia].
  - right. split; [done|]. right. cbn [pb_code pb_count]. split; [done|].
    rewrite <-Hc. unfold len. rewrite length_map. done.
Qed.
