(* ===== verification/Reconcile.v ===== *)
(** * Three-way reconciliation

    Models [src/devonian/src/reconcileRecord.ts].  A record is its properties
    in the order [Object.keys] gives them; [null] is a deletion, [undefined] a
    side not seen.  [structuredClone] copies a value: values are immutable
    here.

    Values are compared through the third-party [fast-json-stable-stringify]:
    [stringify_value] and [stringify_record] are that function on a value that
    may be undefined and on a record.  What is used of it is its documented
    behaviour: a record's text is decided by the texts of its properties,
    whatever their order, and tells records, [null] and [undefined] apart
    ([StableStringify]). *)
From S2P Require Import Prelude Collections.
Local Open Scope Z_scope.

Section Reconcile.
Context {V T : Type} `{EqDecision T}.

Abbreviation properties := (list (jstr * V)).

(* src: devonian/src/reconcileRecord.ts 11-12 SyncRecord ! *)
Inductive SyncRecord :=
| Unseen
| Deleted
| Rec (r : properties).

Context (stringify_value : option V -> T) (stringify_record : SyncRecord -> T).

(* src: devonian/src/reconcileRecord.ts 13-18 SyncConflict *)
Record SyncConflict := mkConflict {
  property : jstr;
  c_base : SyncRecord + option V;
  c_local : SyncRecord + option V;
  c_remote : SyncRecord + option V;
}.

Definition RecordConflict (base local remote : SyncRecord) : SyncConflict :=
  mkConflict (js "@record") (inl base) (inl local) (inl remote).
Definition PropertyConflict (p : jstr) (base local remote : option V) : SyncConflict :=
  mkConflict p (inr base) (inr local) (inr remote).

(* src: devonian/src/reconcileRecord.ts 19-29 SyncDecision *)
Record SyncDecision := mkDecision {
  d_local : list (jstr * option V);
  d_remote : list (jstr * option V);
  createLocal : bool;
  createRemote : bool;
  deleteLocal : bool;
  deleteRemote : bool;
  conflicts : list SyncConflict;
  agreed : SyncRecord;
}.

(* src: devonian/src/reconcileRecord.ts 30-31 equal *)
Definition equal (a b : option V) : bool := bool_decide (stringify_value a = stringify_value b).
Definition equal_record (a b : SyncRecord) : bool :=
  bool_decide (stringify_record a = stringify_record b).

Definition no_decision : SyncDecision := mkDecision [] [] false false false false [] Unseen.

(** [record?.[property]] and [Object.keys(record ?? {})]. *)
Definition prop (r : SyncRecord) (p : jstr) : option V :=
  match r with Rec l => jget p l | _ => None end.
Definition keys_of (r : SyncRecord) : list jstr := match r with Rec l => jkeys l | _ => [] end.

(** [new Set([...])] of the properties of the three records. *)
Definition all_properties (base local remote : SyncRecord) : list jstr :=
  first_seen (keys_of base ++ keys_of local ++ keys_of remote).

(** One iteration of the loop over the properties. *)
Definition reconcile_property (base local remote : SyncRecord) (d : SyncDecision) (p : jstr) : SyncDecision :=
  let before := prop base p in
  let here := prop local p in
  let there := prop remote p in
  if equal here there then d
  else if equal here before then
    mkDecision (jset p there (d_local d)) (d_remote d) (createLocal d) (createRemote d)
      (deleteLocal d) (deleteRemote d) (conflicts d) (agreed d)
  else if equal there before then
    mkDecision (d_local d) (jset p here (d_remote d)) (createLocal d) (createRemote d)
      (deleteLocal d) (deleteRemote d) (conflicts d) (agreed d)
  else
    mkDecision (d_local d) (d_remote d) (createLocal d) (createRemote d)
      (deleteLocal d) (deleteRemote d)
      (conflicts d ++ [PropertyConflict p before here there]) (agreed d).

Definition is_unseen (r : SyncRecord) : bool := match r with Unseen => true | _ => false end.
Definition is_deleted (r : SyncRecord) : bool := match r with Deleted => true | _ => false end.

(* src: devonian/src/reconcileRecord.ts 33-102 reconcileRecord *)
Definition reconcileRecord (base local remote : SyncRecord) : SyncDecision :=
  if equal_record local remote then
    if is_unseen local then no_decision
    else mkDecision [] [] false false false false [] local
  else if is_deleted local || is_deleted remote then
    if equal_record local base && is_deleted remote then
      mkDecision [] [] false false true false [] Unseen
    else if equal_record remote base && is_deleted local then
      mkDecision [] [] false false false true [] Unseen
    else mkDecision [] [] false false false false [RecordConflict base local remote] Unseen
  else if negb (is_unseen base) && (is_unseen local || is_unseen remote) then no_decision
  else
    let d := mkDecision [] []
      (is_unseen base && is_unseen local && negb (is_unseen remote))
      (is_unseen base && is_unseen remote && negb (is_unseen local))
      false false [] Unseen in
    fold_left (reconcile_property base local remote) (all_properties base local remote) d.

(* src: devonian/src/reconcileRecord.ts 104-113 acknowledgedBaseline *)
Definition acknowledgedBaseline (local remote : SyncRecord) : res string SyncRecord :=
  if negb (equal_record local remote) then Err "provider and Atomic projections still differ"%string
  else Ok local.

(** ** The loop *)

(** What the decision says of one property. *)
Inductive property_verdict := Same | TakeRemote | TakeLocal | Conflict.

Definition verdict (base local remote : SyncRecord) (p : jstr) : property_verdict :=
  if equal (prop local p) (prop remote p) then Same
  else if equal (prop local p) (prop base p) then TakeRemote
  else if equal (prop remote p) (prop base p) then TakeLocal
  else Conflict.

(** The two sides of the loop, by the verdicts of the properties so far. *)
Definition loop_inv (base local remote : SyncRecord) (d0 : SyncDecision) (done : list jstr)
    (d : SyncDecision) : Prop :=
  (forall p, jget p (d_local d) =
     if bool_decide (p ∈ done) then
       match verdict base local remote p with TakeRemote => Some (prop remote p) | _ => None end
     else None) /\
  (forall p, jget p (d_remote d) =
     if bool_decide (p ∈ done) then
       match verdict base local remote p with TakeLocal => Some (prop local p) | _ => None end
     else None) /\
  conflicts d = map (fun p => PropertyConflict p (prop base p) (prop local p) (prop remote p))
    (List.filter (fun p => match verdict base local remote p with Conflict => true | _ => false end) done) /\
  (createLocal d, createRemote d, deleteLocal d, deleteRemote d, agreed d) =
  (createLocal d0, createRemote d0, deleteLocal d0, deleteRemote d0, agreed d0).

Lemma reconcile_property_inv base local remote d0 done d p :
  loop_inv base local remote d0 done d -> p ∉ done ->
  loop_inv base local remote d0 (done ++ [p]) (reconcile_property base local remote d p).
Proof.
  intros (Hl & Hr & Hc & Hflags) Hp. unfold loop_inv, reconcile_property.
  rewrite List.filter_app, map_app, <-Hc. cbn [List.filter map].
  unfold verdict in *.
  assert (Hold : bool_decide (p ∈ done) = false) by (by apply bool_decide_false).
  assert (Hsnoc : forall x, bool_decide (x ∈ done ++ [p]) =
    if decide (x = p) then true else bool_decide (x ∈ done)).
  { intros x. destruct (decide (x = p)) as [Hx|Hx]; [apply bool_decide_true|apply bool_decide_ext];
      rewrite elem_of_app, list_elem_of_singleton; tauto. }
  destruct (equal (prop local p) (prop remote p)) eqn:E1;
    [|destruct (equal (prop local p) (prop base p)) eqn:E2;
      [|destruct (equal (prop remote p) (prop base p)) eqn:E3]];
    cbn [d_local d_remote conflicts createLocal createRemote deleteLocal deleteRemote agreed map];
    rewrite ?app_nil_r;
    (split; [|split; [|split; done]]); intros x; rewrite ?jget_jset, ?Hl, ?Hr, Hsnoc;
    destruct (decide (x = p)) as [Hx|Hx]; subst; rewrite ?Hold, ?E1, ?E2, ?E3; done.
Qed.

Lemma reconcile_loop base local remote d0 :
  d_local d0 = [] -> d_remote d0 = [] -> conflicts d0 = [] ->
  loop_inv base local remote d0 (all_properties base local remote)
    (fold_left (reconcile_property base local remote) (all_properties base local remote) d0).
Proof.
  intros Hl Hr Hc. pose proof (first_seen_nodup (keys_of base ++ keys_of local ++ keys_of remote)) as Hnd.
  fold (all_properties base local remote) in Hnd. revert Hnd.
  induction (all_properties base local remote) as [|p ps IH] using rev_ind; intros Hnd.
  - split_and!; cbn; rewrite ?Hl, ?Hr, ?Hc; done.
  - rewrite fold_left_app. cbn [fold_left]. apply NoDup_app in Hnd as (Hnd & Hdis & _).
    apply reconcile_property_inv; [by apply IH|]. intros Hin. apply (Hdis p Hin). by left.
Qed.

Lemma prop_keys r p : p ∉ keys_of r -> prop r p = None.
Proof. destruct r; cbn; [done|done|]. by rewrite <-jget_None. Qed.

Lemma equal_refl a : equal a a = true.
Proof. unfold equal. by apply bool_decide_true. Qed.

Lemma equal_sym a b : equal a b = equal b a.
Proof. unfold equal. apply bool_decide_ext. by split. Qed.

(** A property of none of the records is the same on both sides. *)
Lemma verdict_outside base local remote p :
  p ∉ all_properties base local remote -> verdict base local remote p = Same.
Proof.
  unfold all_properties. rewrite elem_of_first_seen, !elem_of_app. intros Hp.
  unfold verdict. rewrite (prop_keys local), (prop_keys remote) by tauto. by rewrite equal_refl.
Qed.

(** The properties the decision writes, by verdict, and its conflicts. *)
Lemma reconcile_properties base local remote d :
  equal_record local remote = false -> is_deleted local = false -> is_deleted remote = false ->
  is_unseen base = true \/ is_unseen local = false /\ is_unseen remote = false ->
  reconcileRecord base local remote = d ->
  (forall p, jget p (d_local d) =
     match verdict base local remote p with TakeRemote => Some (prop remote p) | _ => None end) /\
  (forall p, jget p (d_remote d) =
     match verdict base local remote p with TakeLocal => Some (prop local p) | _ => None end) /\
  (forall c, c ∈ conflicts d <-> exists p, verdict base local remote p = Conflict /\
     c = PropertyConflict p (prop base p) (prop local p) (prop remote p)) /\
  createLocal d = is_unseen base && is_unseen local && negb (is_unseen remote) /\
  createRemote d = is_unseen base && is_unseen remote && negb (is_unseen local) /\
  deleteLocal d = false /\ deleteRemote d = false /\ agreed d = Unseen.
Proof.
  intros Heq Hdl Hdr Hseen. unfold reconcileRecord. rewrite Heq, Hdl, Hdr. cbn [orb].
  assert (negb (is_unseen base) && (is_unseen local || is_unseen remote) = false) as ->.
  { destruct Hseen as [-> |[-> ->]]; [done|by rewrite andb_false_r]. }
  intros <-. set (d0 := mkDecision _ _ _ _ _ _ _ _).
  destruct (reconcile_loop base local remote d0 eq_refl eq_refl eq_refl) as (Hl & Hr & Hc & Hflags).
  injection Hflags as H1 H2 H3 H4 H5. split_and!; try done.
  - intros p. rewrite Hl. case_bool_decide as Hin; [done|]. by rewrite verdict_outside.
  - intros p. rewrite Hr. case_bool_decide as Hin; [done|]. by rewrite verdict_outside.
  - intros c. rewrite Hc, list_elem_of_fmap. setoid_rewrite list_elem_of_In. setoid_rewrite filter_In.
    split.
    + intros (p & -> & _ & Hp). exists p. by destruct (verdict _ _ _ p).
    + intros (p & Hp & ->). exists p. split; [done|]. split; [|by rewrite Hp].
      apply list_elem_of_In. destruct (decide (p ∈ all_properties base local remote)) as [|Hout]; [done|].
      apply verdict_outside in Hout. congruence.
Qed.

Lemma writes_nodup base local remote ps d :
  NoDup (jkeys (d_local d)) -> NoDup (jkeys (d_remote d)) ->
  let d' := fold_left (reconcile_property base local remote) ps d in
  NoDup (jkeys (d_local d')) /\ NoDup (jkeys (d_remote d')).
Proof.
  revert d. induction ps as [|p ps IH]; intros d Hl Hr; cbn [fold_left]; [done|].
  apply IH; unfold reconcile_property;
    destruct (equal _ _); [done| |done|]; destruct (equal _ _); cbn [d_local d_remote];
    try destruct (equal _ _); cbn [d_local d_remote]; try done; by apply jset_nodup.
Qed.

Lemma decision_nodup base local remote :
  let d := reconcileRecord base local remote in
  NoDup (jkeys (d_local d)) /\ NoDup (jkeys (d_remote d)).
Proof.
  unfold reconcileRecord.
  repeat (case_match; try (split; apply NoDup_nil_2)). apply writes_nodup; apply NoDup_nil_2.
Qed.

(** ** What a side becomes

    The adapters write a side's properties over the record they hold of it: an
    undefined value removes the property. *)
Definition write (r : properties) (w : jstr * option V) : properties :=
  match w.2 with Some v => jset w.1 v r | None => jdelete w.1 r end.

Definition props_of (r : SyncRecord) : properties := match r with Rec l => l | _ => [] end.
Definition applied (r : SyncRecord) (ws : list (jstr * option V)) : SyncRecord :=
  Rec (fold_left write ws (props_of r)).

Definition wf (r : SyncRecord) : Prop := NoDup (keys_of r).

Lemma props_of_nodup r : wf r -> NoDup (jkeys (props_of r)).
Proof. destruct r; cbn; intros; [apply NoDup_nil_2|apply NoDup_nil_2|done]. Qed.

Lemma prop_props_of r p : prop r p = jget p (props_of r).
Proof. by destruct r. Qed.

Lemma jget_write r w p : NoDup (jkeys r) ->
  jget p (write r w) = (if decide (p = w.1) then w.2 else jget p r) /\ NoDup (jkeys (write r w)).
Proof.
  intros Hr. destruct w as [q [v|]]; cbn [write fst snd].
  - split; [by rewrite jget_jset|by apply jset_nodup].
  - split; [by rewrite jget_jdelete|by apply jdelete_nodup].
Qed.

Lemma prop_applied_list ws r p :
  NoDup (jkeys ws) -> NoDup (jkeys r) ->
  jget p (fold_left write ws r) = match jget p ws with Some v => v | None => jget p r end.
Proof.
  revert r. induction ws as [|w ws IH] using rev_ind; intros r Hws Hr; [done|].
  assert (Hnd : NoDup (jkeys (fold_left write ws r))).
  { clear -Hr. revert r Hr. induction ws as [|w ws IH]; intros r Hr; [done|].
    apply IH. by apply (jget_write _ w [] Hr). }
  unfold jkeys in Hws. rewrite map_app in Hws. apply NoDup_app in Hws as (Hws & Hdis & _).
  rewrite fold_left_app. cbn [fold_left]. rewrite (proj1 (jget_write _ _ _ Hnd)), IH by done.
  destruct w as [q v]. cbn [fst snd]. destruct (decide (p = q)) as [->|Hne].
  - assert (jget q ws = None) as Hq.
    { apply jget_None. intros Hin. apply (Hdis q Hin). by left. }
    clear -Hq. induction ws as [|[x w] ws IH]; cbn in *; [by rewrite decide_True|].
    by destruct (decide (q = x)); [|apply IH].
  - assert (jget p (ws ++ [(q, v)]) = jget p ws) as ->; [|done].
    clear -Hne. induction ws as [|[x w] ws IH]; cbn; [by rewrite decide_False|]. by rewrite IH.
Qed.

Lemma prop_applied ws r p :
  NoDup (jkeys ws) -> wf r ->
  prop (applied r ws) p = match jget p ws with Some v => v | None => prop r p end.
Proof.
  intros Hws Hr. cbn [applied prop]. rewrite prop_applied_list by (try done; by apply props_of_nodup).
  by rewrite <-prop_props_of.
Qed.

Lemma applied_wf ws r : wf r -> wf (applied r ws).
Proof.
  intros Hr. unfold wf, applied. cbn [keys_of]. apply props_of_nodup in Hr. revert Hr.
  generalize (props_of r). induction ws as [|w ws IH]; intros l Hl; [done|].
  apply IH. by apply (jget_write _ w [] Hl).
Qed.

(** The three-way merge of one property: the side that changed wins. *)
Definition merged (base local remote : SyncRecord) (p : jstr) : option V :=
  if equal (prop local p) (prop base p) then prop remote p else prop local p.

End Reconcile.
Arguments Unseen {V}.
Arguments Deleted {V}.
Arguments Rec {V} r.

(** The documented behaviour of [fast-json-stable-stringify]. *)
Class StableStringify {V T : Type}
    (stringify_value : option V -> T) (stringify_record : SyncRecord -> T) : Prop := {
  stringify_properties a b : NoDup (jkeys a) -> NoDup (jkeys b) ->
    stringify_record (Rec a) = stringify_record (Rec b) <->
    forall p, stringify_value (jget p a) = stringify_value (jget p b);
  stringify_deleted_record a : stringify_record Deleted <> stringify_record (Rec a);
  stringify_unseen_record a : stringify_record Unseen <> stringify_record (Rec a);
  stringify_unseen_deleted : stringify_record Unseen <> stringify_record Deleted;
}.

Section Properties.
Context {V T : Type} `{EqDecision T}.
Context (sv : option V -> T) (sr : SyncRecord (V := V) -> T).
Implicit Types base local remote : SyncRecord (V := V).

Abbreviation reconcileRecord := (reconcileRecord sv sr).
Abbreviation verdict := (verdict sv).
Abbreviation equal_record := (equal_record sr).

Lemma equal_record_eq a b : equal_record a b = true <-> sr a = sr b.
Proof. apply bool_decide_eq_true. Qed.

Lemma equal_eq a b : equal sv a b = true <-> sv a = sv b.
Proof. apply bool_decide_eq_true. Qed.

Lemma equal_record_sym a b : equal_record a b = equal_record b a.
Proof. apply bool_decide_ext. by split. Qed.

(** Every write of the decision is to a side that still has the baseline's
    text of that property, and is the other side's changed value. *)
Lemma writes_verdict base local remote p w :
  let d := reconcileRecord base local remote in
  (jget p (d_local d) = Some w -> verdict base local remote p = TakeRemote /\ w = prop remote p) /\
  (jget p (d_remote d) = Some w -> verdict base local remote p = TakeLocal /\ w = prop local p).
Proof.
  cbn zeta. destruct (equal_record local remote) eqn:Eq;
    [unfold Reconcile.reconcileRecord; rewrite Eq; by destruct (is_unseen local)|].
  destruct (is_deleted local || is_deleted remote) eqn:Ed;
    [unfold Reconcile.reconcileRecord; rewrite Eq, Ed; repeat case_match; done|].
  destruct (negb (is_unseen base) && (is_unseen local || is_unseen remote)) eqn:Eu;
    [unfold Reconcile.reconcileRecord; by rewrite Eq, Ed, Eu|].
  breflect.
  destruct (reconcile_properties sv sr base local remote (reconcileRecord base local remote) Eq) as (Hl & Hr & _);
    [done|done| |done|].
  { destruct (is_unseen base); [by left|]. right. by destruct Eu as [|?%orb_false_iff]. }
  rewrite Hl, Hr. split; intros Hw; destruct (verdict base local remote p); naive_solver.
Qed.

Lemma verdict_sym base local remote p :
  verdict base remote local p =
  match verdict base local remote p with
  | Same => Same | TakeRemote => TakeLocal | TakeLocal => TakeRemote | Conflict => Conflict
  end.
Proof.
  unfold Reconcile.verdict. rewrite (equal_sym sv (prop remote p)).
  destruct (equal sv (prop local p) (prop remote p)) eqn:E1; [done|].
  destruct (equal sv (prop local p) (prop base p)) eqn:E2,
    (equal sv (prop remote p) (prop base p)) eqn:E3; try done.
  apply equal_eq in E2, E3. assert (equal sv (prop local p) (prop remote p) = true) by (apply equal_eq; congruence).
  congruence.
Qed.

Lemma deletes base local remote :
  let d := reconcileRecord base local remote in
  (deleteLocal d = true -> remote = Deleted /\ sr local = sr base) /\
  (deleteRemote d = true -> local = Deleted /\ sr remote = sr base).
Proof.
  cbn zeta. destruct (equal_record local remote) eqn:Eq;
    [unfold Reconcile.reconcileRecord; rewrite Eq; by destruct (is_unseen local)|].
  destruct (is_deleted local || is_deleted remote) eqn:Ed.
  { unfold Reconcile.reconcileRecord. rewrite Eq, Ed. repeat case_match; cbn; breflect; split; try done;
      intros _; (split; [|by apply equal_record_eq]); [by destruct remote|by destruct local]. }
  destruct (negb (is_unseen base) && (is_unseen local || is_unseen remote)) eqn:Eu;
    [unfold Reconcile.reconcileRecord; by rewrite Eq, Ed, Eu|].
  breflect.
  destruct (reconcile_properties sv sr base local remote (reconcileRecord base local remote) Eq)
    as (_ & _ & _ & _ & _ & -> & -> & _); try done.
  destruct (is_unseen base); [by left|]. right. by destruct Eu as [|?%orb_false_iff].
Qed.

Definition swap_conflict (c : SyncConflict (V := V)) : SyncConflict (V := V) :=
  mkConflict (property c) (c_base c) (c_remote c) (c_local c).

(** The properties of the two sides after a decision without conflicts. *)
Lemma applied_merged base local remote d p :
  wf base -> wf local -> wf remote ->
  reconcileRecord base local remote = d ->
  equal_record local remote = false -> is_deleted local = false -> is_deleted remote = false ->
  is_unseen base = true \/ is_unseen local = false /\ is_unseen remote = false ->
  conflicts d = [] ->
  sv (prop (applied local (d_local d)) p) = sv (merged sv base local remote p) /\
  sv (prop (applied remote (d_remote d)) p) = sv (merged sv base local remote p).
Proof.
  intros Hb Hl Hr Hd Eq Edl Edr Hu Hc.
  pose proof (decision_nodup sv sr base local remote) as [Hnl Hnr]. rewrite Hd in Hnl, Hnr.
  destruct (reconcile_properties sv sr base local remote d Eq Edl Edr Hu Hd) as (Hwl & Hwr & Hcs & _).
  assert (Hv : verdict base local remote p <> Conflict).
  { intros Hv. assert (PropertyConflict p (prop base p) (prop local p) (prop remote p) ∈ conflicts d) as Hin
      by (apply Hcs; eauto). rewrite Hc in Hin. by apply elem_of_nil in Hin. }
  rewrite !prop_applied, Hwl, Hwr by done. unfold merged, Reconcile.verdict in *.
  destruct (equal sv (prop local p) (prop remote p)) eqn:E1;
    destruct (equal sv (prop local p) (prop base p)) eqn:E2;
    destruct (equal sv (prop remote p) (prop base p)) eqn:E3;
    rewrite ?equal_eq in *; cbn in *; split; congruence.
Qed.

Lemma equal_records base local remote :
  StableStringify sv sr -> wf local -> wf remote ->
  is_deleted local = false -> is_deleted remote = false ->
  is_unseen local = false \/ is_unseen remote = false ->
  equal_record local remote = true <-> is_unseen local = is_unseen remote /\
    forall p, sv (prop local p) = sv (prop remote p).
Proof.
  intros HS Hl Hr Hdl Hdr Hu. rewrite equal_record_eq.
  destruct local as [| |l], remote as [| |r]; cbn in *; try done; try naive_solver.
  - split; [|naive_solver]. intros []%stringify_unseen_record.
  - split; [|naive_solver]. intros Heq. symmetry in Heq. by apply stringify_unseen_record in Heq.
  - rewrite stringify_properties by done. naive_solver.
Qed.

(** C3 (functional). The three-way merge converges.  Take two records that are
    not deleted, both of them seen, or at least one of them when there is no
    baseline yet (with a known baseline and a side that was not read, nothing
    is decided and nothing converges).  When the decision has no conflict,
    writing to each side what it says makes the two records equal, so that the
    receipt [acknowledgedBaseline] asks for is given; and each of their
    properties is the changed one of the two: the remote's where the local
    side still has the baseline's value, the local one otherwise. *)
Theorem reconcile_merges base local remote :
  StableStringify sv sr -> wf base -> wf local -> wf remote ->
  is_deleted local = false -> is_deleted remote = false ->
  is_unseen base = true /\ (is_unseen local = false \/ is_unseen remote = false) \/
    is_unseen local = false /\ is_unseen remote = false ->
  let d := reconcileRecord base local remote in
  let local' := applied local (d_local d) in
  let remote' := applied remote (d_remote d) in
  conflicts d = [] ->
  acknowledgedBaseline sr local' remote' = Ok local' /\
  forall p, sv (prop local' p) = sv (merged sv base local remote p).
Proof.
  intros HS Hb Hl Hr Hdl Hdr Hu d local' remote' Hc.
  assert (Hm : forall p, sv (prop local' p) = sv (merged sv base local remote p) /\
                         sv (prop remote' p) = sv (merged sv base local remote p)).
  { intros p. destruct (equal_record local remote) eqn:Eq.
    - subst local' remote' d. unfold Reconcile.reconcileRecord. rewrite Eq.
      apply (equal_records base) in Eq as [_ Eq]; try done; [|tauto].
      unfold merged. destruct (is_unseen local); cbn [d_local d_remote no_decision];
        rewrite !prop_applied by (try done; apply NoDup_nil_2); cbn;
        destruct (equal sv _ _); specialize (Eq p); split; congruence.
    - eapply applied_merged; try done. tauto. }
  split; [|apply Hm]. unfold acknowledgedBaseline.
  assert (Reconcile.equal_record sr local' remote' = true) as ->; [|done].
  apply (equal_records base); try done.
  - by apply applied_wf.
  - by apply applied_wf.
  - by left.
  - split; [done|]. intros p. destruct (Hm p). congruence.
Qed.

(** C4 (safety). Nothing is lost, whatever the three records are.  A property
    is only written to a side whose value is the baseline's, with the other
    side's value; a side is only deleted when the other was deleted and it
    still has the baseline's text; a side that is merely absent (a partial
    page) while a baseline is known causes no action at all; and when two seen
    sides both changed a property to different values the pair is reported as
    a conflict. *)
Theorem reconcile_safe base local remote :
  let d := reconcileRecord base local remote in
  (forall p w, jget p (d_local d) = Some w ->
     w = prop remote p /\ sv (prop local p) = sv (prop base p)) /\
  (forall p w, jget p (d_remote d) = Some w ->
     w = prop local p /\ sv (prop remote p) = sv (prop base p)) /\
  (deleteLocal d = true -> remote = Deleted /\ sr local = sr base) /\
  (deleteRemote d = true -> local = Deleted /\ sr remote = sr base) /\
  (is_unseen base = false -> is_unseen local || is_unseen remote = true ->
     is_deleted local || is_deleted remote = false -> sr local <> sr remote -> d = no_decision) /\
  (forall p l r, local = Rec l -> remote = Rec r -> sr local <> sr remote ->
     sv (prop local p) <> sv (prop remote p) -> sv (prop local p) <> sv (prop base p) ->
     sv (prop remote p) <> sv (prop base p) ->
     PropertyConflict p (prop base p) (prop local p) (prop remote p) ∈ conflicts d).
Proof.
  intros d. split; [|split; [|split; [|split; [|split]]]].
  - intros p w Hw. apply writes_verdict in Hw as [Hv ->]. split; [done|].
    unfold Reconcile.verdict in Hv. repeat case_match; try done. by apply equal_eq.
  - intros p w Hw. apply writes_verdict in Hw as [Hv ->]. split; [done|].
    unfold Reconcile.verdict in Hv. repeat case_match; try done. by apply equal_eq.
  - apply (deletes base local remote).
  - apply (deletes base local remote).
  - intros Hb Hu Hd Hne. subst d. unfold Reconcile.reconcileRecord.
    assert (equal_record local remote = false) as -> by (by apply bool_decide_eq_false).
    by rewrite Hd, Hb, Hu.
  - intros p l r -> -> Hne H1 H2 H3.
    destruct (reconcile_properties sv sr base (Rec l) (Rec r) d) as (_ & _ & Hc & _); try done.
    { by apply bool_decide_eq_false_2. }
    { by right. }
    apply Hc. exists p. split; [|done]. unfold Reconcile.verdict, equal.
    by rewrite !bool_decide_eq_false_2.
Qed.

(** Exchanging the sides exchanges the decision. *)
Definition exchanged (d d' : SyncDecision (V := V)) : Prop :=
  (forall p, jget p (d_local d') = jget p (d_remote d)) /\
  (forall p, jget p (d_remote d') = jget p (d_local d)) /\
  createLocal d' = createRemote d /\ createRemote d' = createLocal d /\
  deleteLocal d' = deleteRemote d /\ deleteRemote d' = deleteLocal d /\
  (forall c, c ∈ conflicts d <-> swap_conflict c ∈ conflicts d') /\
  sr (agreed d') = sr (agreed d).

Lemma exchanged_trivial d d' :
  d_local d = [] -> d_local d' = [] -> d_remote d = [] -> d_remote d' = [] ->
  createLocal d' = createRemote d -> createRemote d' = createLocal d ->
  deleteLocal d' = deleteRemote d -> deleteRemote d' = deleteLocal d ->
  conflicts d' = map swap_conflict (conflicts d) -> sr (agreed d') = sr (agreed d) ->
  exchanged d d'.
Proof.
  intros H1 H2 H3 H4 ? ? ? ? Hc ?. unfold exchanged. rewrite H1, H2, H3, H4, Hc. split_and!; try done.
  intros c. split; [apply list_elem_of_fmap_2|]. intros ([] & Heq & Hin)%list_elem_of_fmap.
  destruct c. by injection Heq as -> -> -> ->.
Qed.

Lemma exchanged_deleted base local remote :
  equal_record local remote = false -> is_deleted local || is_deleted remote = true ->
  exchanged (reconcileRecord base local remote) (reconcileRecord base remote local).
Proof.
  intros Eq Ed. assert (Eq' := Eq). rewrite equal_record_sym in Eq'.
  assert (Ed' := Ed). rewrite orb_comm in Ed'.
  unfold Reconcile.reconcileRecord. rewrite Eq, Eq', Ed, Ed'.
  destruct (equal_record local base && is_deleted remote) eqn:E1,
    (equal_record remote base && is_deleted local) eqn:E2; try by apply exchanged_trivial.
  breflect. rewrite equal_record_eq in *.
  assert (equal_record local remote = true) by (apply equal_record_eq; congruence). congruence.
Qed.

(** The decision does not prefer a side: exchanging the two
    records exchanges everything it says (the writes, what to create, what to
    delete) and leaves the same conflicts, with their two values exchanged;
    and the agreed records have the same text. *)
Theorem reconcile_symmetric base local remote :
  let d := reconcileRecord base local remote in
  let d' := reconcileRecord base remote local in
  exchanged d d'.
Proof.
  intros d d'. destruct (equal_record local remote) eqn:Eq.
  { assert (Eq' := Eq). rewrite equal_record_sym in Eq'. apply equal_record_eq in Eq as Etext.
    subst d d'. unfold Reconcile.reconcileRecord. rewrite Eq, Eq'.
    destruct local, remote; by apply exchanged_trivial. }
  assert (Eq' := Eq). rewrite equal_record_sym in Eq'.
  destruct (is_deleted local || is_deleted remote) eqn:Ed.
  { by apply exchanged_deleted. }
  assert (Ed' := Ed). rewrite orb_comm in Ed'.
  destruct (negb (is_unseen base) && (is_unseen local || is_unseen remote)) eqn:Eu.
  { assert (Eu' := Eu). rewrite (orb_comm (is_unseen local)) in Eu'.
    subst d d'. unfold Reconcile.reconcileRecord. rewrite Eq, Eq', Ed, Ed', Eu, Eu'. by apply exchanged_trivial. }
  assert (Hu : is_unseen base = true \/ is_unseen local = false /\ is_unseen remote = false).
  { breflect. destruct (is_unseen base); [by left|]. right. by destruct Eu as [|?%orb_false_iff]. }
  breflect. unfold exchanged.
  destruct (reconcile_properties sv sr base local remote d) as (Hl & Hr & Hc & -> & -> & -> & -> & ->); try done.
  destruct (reconcile_properties sv sr base remote local d') as (Hl' & Hr' & Hc' & -> & -> & -> & -> & ->); try done.
  { tauto. }
  split_and!; try done.
  - intros p. rewrite Hl', Hr, (verdict_sym base local remote). by destruct (verdict base local remote p).
  - intros p. rewrite Hr', Hl, (verdict_sym base local remote). by destruct (verdict base local remote p).
  - intros c. rewrite Hc, Hc'. setoid_rewrite (verdict_sym base local remote). split.
    + intros (p & Hp & ->). by exists p; rewrite Hp.
    + intros (p & Hp & Hsw). exists p. destruct c. cbv [swap_conflict PropertyConflict property c_base c_local c_remote] in *.
      destruct (verdict base local remote p); [done..|]. split; [done|]. congruence.
Qed.
End Properties.

(** ** An instance *)
Section TextInstance.
Abbreviation text := (option Z + (bool + gmap (list Z) Z))%type.

(** A canonical text for records of integers: the map itself. *)
Definition text_of_value (v : option Z) : text := inl v.
Definition text_of_record (r : SyncRecord (V := Z)) : text :=
  match r with
  | Unseen => inr (inl false)
  | Deleted => inr (inl true)
  | Rec l => inr (inr (list_to_map l))
  end.

Lemma lookup_list_to_map (l : list (list Z * Z)) p :
  (list_to_map l : gmap (list Z) Z) !! p = jget p l.
Proof.
  induction l as [|[k v] l IH]; cbn; [apply lookup_empty|].
  rewrite lookup_insert. by destruct (decide (k = p)), (decide (p = k)); subst.
Qed.

#[export] Instance text_stable : StableStringify text_of_value text_of_record.
Proof.
  split; [|done..]. intros a b _ _. unfold text_of_value, text_of_record. split.
  - intros [= Heq] p. f_equal. by rewrite <-!lookup_list_to_map, Heq.
  - intros H. do 2 f_equal. apply map_eq. intros p. rewrite !lookup_list_to_map.
    specialize (H p). by injection H.
Qed.
End TextInstance.

(** Each side changed one property of the baseline. *)
Lemma reconcile_merges_witness :
  let base := Rec [(js "title", 1); (js "state", 2)] in
  let local := Rec [(js "state", 2); (js "title", 5)] in
  let remote := Rec [(js "title", 1); (js "state", 7)] in
  let d := reconcileRecord text_of_value text_of_record base local remote in
  applied local (d_local d) = Rec [(js "state", 7); (js "title", 5)] /\
  acknowledgedBaseline text_of_record (applied local (d_local d)) (applied remote (d_remote d)) =
    Ok (applied local (d_local d)).
Proof.
  intros base local remote d. split; [by vm_compute|].
  apply (reconcile_merges text_of_value text_of_record base local remote);
    [apply _|by_decide..|reflexivity|reflexivity|right; split; reflexivity|reflexivity].
Defined.
