(* ===== verification/Index.v ===== *)
(** * The identity index

    Models [src/devonian/src/DevonianIndex.ts]: records of equivalent
    identifiers per model, and an index from (model, platform, local id) to the
    record.

    A local id is a string or an (integral) number; as an object key a number
    is its decimal text, so that 5 and "5" are the same key
    ([localKey]).  An [IdentifierMap] is the list of its pairs in insertion
    order (platform names are neither array indices nor names of
    [Object.prototype]).  A method that throws leaves the index as it was at
    that point: the error carries that state. *)
From S2P Require Import Prelude Text Collections.

Inductive Id :=
| IdS (s : jstr)
| IdN (n : Z).
#[global] Instance Id_eq_dec : EqDecision Id.
Proof. solve_decision. Defined.

Definition localKey (id : Id) : jstr := match id with IdS s => s | IdN n => dec_signed n end.

Abbreviation IdentifierMap := (list (jstr * Id)).
Abbreviation index_map := (gmap jstr (gmap jstr (gmap jstr nat))).

(* src: devonian/src/DevonianIndex.ts 7-15 DevonianIndex ! *)
Record DevonianIndex := mkIndex {
  ids : gmap jstr (list IdentifierMap);
  index : index_map;
}.

(** [index[model]?.[platform]?.[localId]]. *)
Definition index_get (ix : index_map) (model platform : jstr) (id : Id) : option nat :=
  m ← ix !! model; p ← m !! platform; p !! localKey id.

(** [index[model][platform] ??= {}; index[model][platform][localId] = i]. *)
Definition index_set (ix : index_map) (model platform : jstr) (id : Id) (i : nat) : index_map :=
  let m := default ∅ (ix !! model) in
  <[model := <[platform := <[localKey id := i]> (default ∅ (m !! platform))]> m]> ix.

(** [index[model][platform]]. *)
Definition platform_indexed (ix : index_map) (model platform : jstr) : bool :=
  match ix !! model with Some m => bool_decide (is_Some (m !! platform)) | None => false end.

(** [ids[model][i]]. *)
Definition record_at (s : DevonianIndex) (model : jstr) (i : nat) : option IdentifierMap :=
  l ← ids s !! model; l !! i.

Definition set_record (s : DevonianIndex) (model : jstr) (i : nat) (r : IdentifierMap) : DevonianIndex :=
  mkIndex (<[model := <[i := r]> (default [] (ids s !! model))]> (ids s)) (index s).

Definition empty_index : DevonianIndex := mkIndex ∅ ∅.

(* src: devonian/src/DevonianIndex.ts 17-37 lookupIndexFrom ! *)
Definition lookupIndexFrom (s : DevonianIndex) (model platform : jstr) (localId : Id)
    (foreignIds : IdentifierMap) : option nat :=
  match index_get (index s) model platform localId with
  | Some i => Some i
  | None => head (omap (fun f => index_get (index s) model f.1 f.2) foreignIds)
  end.

Abbreviation index_result := (res (string * DevonianIndex) DevonianIndex).

(* src: devonian/src/DevonianIndex.ts 39-49 ensureIndexed *)
Definition ensureIndexed (s : DevonianIndex) (model : jstr) (i : nat) : index_result :=
  let ix := match index s !! model with
            | None => <[model := ∅]> (index s)
            | Some _ => index s
            end in
  match record_at s model i with
  | None => Err ("TypeError"%string, mkIndex (ids s) ix)
  | Some r => Ok (mkIndex (ids s) (fold_left (fun ix p => index_set ix model p.1 p.2 i) r ix))
  end.

(** The body of the loop over the foreign ids of a known record. *)
Definition store_foreign (model : jstr) (i : nat) (s : DevonianIndex) (f : jstr * Id) : index_result :=
  match record_at s model i with
  | None => Err ("TypeError"%string, s)
  | Some r =>
      let s1 := set_record s model i (jset f.1 f.2 r) in
      if platform_indexed (index s1) model f.1
      then Ok (mkIndex (ids s1) (index_set (index s1) model f.1 f.2 i))
      else Err ("TypeError"%string, s1)
  end.

(* src: devonian/src/DevonianIndex.ts 51-77 storeIdentitiesFrom ! *)
Definition storeIdentitiesFrom (s : DevonianIndex) (model platform : jstr) (localId : Id)
    (foreignIds : IdentifierMap) : index_result :=
  match lookupIndexFrom s model platform localId foreignIds with
  | Some i =>
      match record_at s model i with
      | None => Err ("TypeError"%string, s)
      | Some r =>
          s' ← foldM (store_foreign model i) (set_record s model i (jset platform localId r)) foreignIds;
          ensureIndexed s' model i
      end
  | None =>
      let records := default [] (ids s !! model) in
      let s' := mkIndex (<[model := records ++ [jset platform localId foreignIds]]> (ids s)) (index s) in
      ensureIndexed s' model (length records)
  end.

(** One platform of one equivalence. *)
Definition store_thing (model : jstr) (thing : IdentifierMap) (s : DevonianIndex) (f : jstr * Id)
    : index_result :=
  let filtered := jdelete f.1 thing in
  match filtered with
  | [] => Ok s
  | _ => storeIdentitiesFrom s model f.1 f.2 filtered
  end.

(* src: devonian/src/DevonianIndex.ts 78-98 storeEquivalences *)
Definition storeEquivalences (s : DevonianIndex) (equivalences : list (jstr * list IdentifierMap))
    : index_result :=
  foldM (fun s e => foldM (fun s thing => foldM (store_thing e.1 thing) s thing) s e.2) s equivalences.

(* src: devonian/src/DevonianIndex.ts 100-112 convertId ! *)
Definition convertId (s : DevonianIndex) (model fromPlatform : jstr) (fromLocalId : Id)
    (toPlatform : jstr) : option Id :=
  i ← index_get (index s) model fromPlatform fromLocalId;
  r ← record_at s model i;
  jget toPlatform r.

(* src: devonian/src/DevonianIndex.ts 113-123 convertForeignIds ! *)
Definition convertForeignIds (fromPlatform : jstr) (fromId : Id) (fromForeignIds : IdentifierMap)
    (toPlatform : jstr) : IdentifierMap :=
  jset fromPlatform fromId (jdelete toPlatform fromForeignIds).

(** ** The index *)

Lemma index_get_set ix model platform id i m p id' :
  index_get (index_set ix model platform id i) m p id' =
  if decide (m = model /\ p = platform /\ localKey id' = localKey id) then Some i
  else index_get ix m p id'.
Proof.
  unfold index_get, index_set. destruct (decide (m = model)) as [->|Hm].
  - rewrite lookup_insert_eq. cbn. destruct (decide (p = platform)) as [->|Hp].
    + rewrite lookup_insert_eq. cbn. destruct (decide (localKey id' = localKey id)) as [->|Hid].
      * rewrite lookup_insert_eq. by rewrite decide_True.
      * rewrite lookup_insert_ne by done. rewrite decide_False by naive_solver.
        destruct (ix !! model) as [mm|]; cbn; [|by rewrite !lookup_empty].
        destruct (mm !! platform) as [pp|]; cbn; [done|by rewrite lookup_empty].
    + rewrite lookup_insert_ne by done. rewrite decide_False by naive_solver.
      destruct (ix !! model) as [mm|]; cbn; [done|by rewrite lookup_empty].
  - rewrite lookup_insert_ne by done. by rewrite decide_False by naive_solver.
Qed.

(** A record all of whose identifiers are indexed. *)
Lemma index_record ix model r i p id :
  (exists q, (p, q) ∈ r /\ localKey q = localKey id) ->
  index_get (fold_left (fun ix p => index_set ix model p.1 p.2 i) r ix) model p id = Some i.
Proof.
  induction r as [|[q v] r IH] using rev_ind; intros (w & Hin & Hw); [by apply elem_of_nil in Hin|].
  rewrite fold_left_app. cbn [fold_left fst snd]. rewrite index_get_set.
  destruct (decide _) as [|Hne]; [done|]. apply IH. exists w. split; [|done].
  apply elem_of_app in Hin as [|[= -> ->]%list_elem_of_singleton]; [done|]. exfalso. by apply Hne.
Qed.

Lemma index_record_other ix model r i m p id :
  m <> model \/ ~ (exists q, (p, q) ∈ r /\ localKey q = localKey id) ->
  index_get (fold_left (fun ix p => index_set ix model p.1 p.2 i) r ix) m p id = index_get ix m p id.
Proof.
  induction r as [|[q v] r IH] using rev_ind; intros Hno; [done|].
  rewrite fold_left_app. cbn [fold_left fst snd]. rewrite index_get_set, decide_False.
  - apply IH. destruct Hno as [|Hno]; [by left|right]. intros (w & Hin & Hw). apply Hno.
    exists w. split; [|done]. apply elem_of_app. by left.
  - intros (-> & -> & Hid). destruct Hno as [|Hno]; [done|]. apply Hno. exists v.
    split; [|done]. apply elem_of_app. right. by left.
Qed.

Lemma jget_in {V} (k : jstr) (v : V) m : jget k m = Some v -> (k, v) ∈ m.
Proof.
  induction m as [|[x w] m IH]; cbn; [done|]. destruct (decide (k = x)) as [->|].
  - intros [= ->]. by left.
  - intros H. right. by apply IH.
Qed.

(** ** Records *)

Lemma record_at_set s model i r0 r m j :
  record_at s model i = Some r0 ->
  record_at (set_record s model i r) m j = if decide (m = model /\ j = i) then Some r else record_at s m j.
Proof.
  unfold record_at, set_record. cbn [ids]. destruct (ids s !! model) as [l|] eqn:El; cbn; [|done].
  intros Hi. destruct (decide (m = model)) as [->|Hm].
  - rewrite lookup_insert_eq, El. cbn. destruct (decide (j = i)) as [->|Hj].
    + rewrite decide_True by done. apply list_lookup_insert_eq. by eapply lookup_lt_Some.
    + rewrite decide_False by naive_solver. by apply list_lookup_insert_ne.
  - rewrite lookup_insert_ne by done. by rewrite decide_False by naive_solver.
Qed.

Definition store_record (r : IdentifierMap) (fs : IdentifierMap) : IdentifierMap :=
  fold_left (fun r f => jset f.1 f.2 r) fs r.

Lemma jget_store_record r fs p v :
  NoDup (jkeys fs) -> (p, v) ∈ fs -> jget p (store_record r fs) = Some v.
Proof.
  unfold store_record. induction fs as [|[q w] fs IH] using rev_ind; intros Hnd Hin; [by apply elem_of_nil in Hin|].
  unfold jkeys in Hnd. rewrite map_app in Hnd. apply NoDup_app in Hnd as (Hnd & Hdis & _).
  rewrite fold_left_app. cbn [fold_left fst snd]. rewrite jget_jset.
  apply elem_of_app in Hin as [Hin|[= -> ->]%list_elem_of_singleton]; [|by rewrite decide_True].
  rewrite decide_False; [by apply IH|]. intros ->. apply (Hdis q); [|by left].
  change q with (fst (q, v)). by apply list_elem_of_fmap_2.
Qed.

Lemma jget_store_record_other r fs p :
  p ∉ jkeys fs -> jget p (store_record r fs) = jget p r.
Proof.
  unfold store_record. revert r. induction fs as [|[q w] fs IH]; intros r Hp; [done|].
  cbn [fold_left fst snd]. rewrite IH.
  - rewrite jget_jset, decide_False; [done|]. intros ->. apply Hp. by left.
  - intros Hin. apply Hp. by right.
Qed.

Lemma platform_indexed_set ix model platform id i m q :
  platform_indexed (index_set ix model platform id i) m q =
  bool_decide (m = model /\ q = platform) || platform_indexed ix m q.
Proof.
  unfold platform_indexed, index_set. destruct (decide (m = model)) as [->|Hm].
  - rewrite lookup_insert_eq. destruct (decide (q = platform)) as [->|Hq].
    + rewrite lookup_insert_eq. by rewrite !bool_decide_true.
    + rewrite lookup_insert_ne by done. rewrite (bool_decide_false (_ /\ _)) by naive_solver.
      destruct (ix !! model); cbn; [done|]. rewrite lookup_empty. by rewrite bool_decide_false by (by intros [? ?]).
  - rewrite lookup_insert_ne by done. by rewrite (bool_decide_false (_ /\ _)) by naive_solver.
Qed.

Lemma platform_indexed_set_mono ix model platform id i m q :
  platform_indexed ix m q = true -> platform_indexed (index_set ix model platform id i) m q = true.
Proof. rewrite platform_indexed_set. intros ->. by rewrite orb_true_r. Qed.

Lemma platform_indexed_set_same ix model platform id i m q :
  platform_indexed ix model platform = true ->
  platform_indexed (index_set ix model platform id i) m q = platform_indexed ix m q.
Proof.
  intros Hp. rewrite platform_indexed_set. case_bool_decide as Hd; [|done]. destruct Hd as [-> ->].
  by rewrite Hp.
Qed.

(** The loop over the foreign ids succeeds exactly when all their platforms
    are indexed, and then has stored them all. *)
Lemma store_loop_ok model i fs s r s' :
  record_at s model i = Some r -> foldM (store_foreign model i) s fs = Ok s' ->
  Forall (fun f => platform_indexed (index s) model f.1 = true) fs /\
  record_at s' model i = Some (store_record r fs) /\
  (forall m j, ~ (m = model /\ j = i) -> record_at s' m j = record_at s m j).
Proof.
  revert s r. induction fs as [|f fs IH]; intros s r Hr; cbn [foldM].
  - intros [= <-]. split; [constructor|]. done.
  - intros (s1 & Hs1 & Hrest)%bind_Ok. unfold store_foreign in Hs1. rewrite Hr in Hs1. cbn zeta in Hs1.
    destruct (platform_indexed _ _ _) eqn:Ep in Hs1; [|done]. injection Hs1 as <-. cbn [index set_record] in Ep.
    assert (Hrec : forall ix m j, record_at (mkIndex (ids (set_record s model i (jset f.1 f.2 r))) ix) m j =
      if decide (m = model /\ j = i) then Some (jset f.1 f.2 r) else record_at s m j).
    { intros ix m j. by rewrite <-(record_at_set s model i r (jset f.1 f.2 r)). }
    apply (IH _ (jset f.1 f.2 r)) in Hrest as (Hall & Hr' & Ho);
      [|etransitivity; [exact (Hrec _ model i)|by rewrite decide_True]].
    split; [|split; [done|]].
    + constructor; [done|]. eapply Forall_impl; [exact Hall|]. intros g. cbn [index].
      by rewrite platform_indexed_set_same.
    + intros m j Hmj. rewrite Ho by done. etransitivity; [exact (Hrec _ m j)|by rewrite decide_False].
Qed.

Lemma store_loop_total model i fs s r :
  record_at s model i = Some r ->
  Forall (fun f => platform_indexed (index s) model f.1 = true) fs ->
  exists s', foldM (store_foreign model i) s fs = Ok s'.
Proof.
  revert s r. induction fs as [|f fs IH]; intros s r Hr Hall; cbn [foldM]; [by eexists|].
  apply Forall_cons in Hall as [Hf Hall].
  assert (store_foreign model i s f = Ok (mkIndex (ids (set_record s model i (jset f.1 f.2 r)))
            (index_set (index s) model f.1 f.2 i))) as ->.
  { unfold store_foreign. rewrite Hr. cbn zeta. cbn [index set_record]. by rewrite Hf. }
  cbn [mbind res_bind].
  apply (IH _ (jset f.1 f.2 r)).
  - etransitivity; [exact (record_at_set s model i r (jset f.1 f.2 r) model i Hr)|by rewrite decide_True].
  - eapply Forall_impl; [exact Hall|]. intros g Hg. cbn [index]. by apply platform_indexed_set_mono.
Qed.

Lemma ensureIndexed_ok s model i r :
  record_at s model i = Some r ->
  exists ix, ensureIndexed s model i = Ok (mkIndex (ids s) ix) /\
    (forall p v, (p, v) ∈ r -> index_get ix model p v = Some i) /\
    (forall m p v, m <> model \/ ~ (exists q, (p, q) ∈ r /\ localKey q = localKey v) ->
       index_get ix m p v = index_get (index s) m p v).
Proof.
  intros Hr. unfold ensureIndexed. rewrite Hr. eexists. split; [done|]. split.
  - intros p v Hin. apply index_record. by exists v.
  - intros m p v Hno. rewrite index_record_other by done.
    destruct (index s !! model) eqn:E; [done|]. unfold index_get.
    destruct (decide (m = model)) as [->|]; [by rewrite lookup_insert_eq, E|by rewrite lookup_insert_ne].
Qed.

(** A successful store leaves one record with all the identifiers it was
    given, each of them indexed to it. *)
Lemma storeIdentities_record s s' model platform localId foreignIds :
  NoDup (jkeys foreignIds) -> platform ∉ jkeys foreignIds ->
  storeIdentitiesFrom s model platform localId foreignIds = Ok s' ->
  exists i r, record_at s' model i = Some r /\
    (forall p v, (p, v) ∈ (platform, localId) :: foreignIds ->
       jget p r = Some v /\ index_get (index s') model p v = Some i).
Proof.
  intros Hnd Hp. unfold storeIdentitiesFrom. destruct (lookupIndexFrom _ _ _ _ _) as [i|] eqn:El.
  - destruct (record_at s model i) as [r|] eqn:Er; [|done].
    intros (s1 & Hloop & Hen)%bind_Ok.
    eapply store_loop_ok in Hloop as (_ & Hr1 & _).
    2:{ rewrite (record_at_set _ _ _ r) by done. by rewrite decide_True. }
    destruct (ensureIndexed_ok s1 model i _ Hr1) as (ix & Hix & Hin & _). rewrite Hix in Hen.
    injection Hen as <-. exists i. eexists. split; [exact Hr1|]. intros p v Hpv.
    assert (Hget : jget p (store_record (jset platform localId r) foreignIds) = Some v).
    { apply elem_of_cons in Hpv as [[= -> ->]|Hpv]; [|by apply jget_store_record].
      rewrite jget_store_record_other by done. by rewrite jget_jset, decide_True. }
    split; [done|]. apply Hin. by apply jget_in.
  - set (l := default [] (ids s !! model)). set (r := jset platform localId foreignIds). intros Hen.
    assert (Hr : record_at (mkIndex (<[model := l ++ [r]]> (ids s)) (index s)) model (length l) = Some r).
    { unfold record_at. cbn [ids]. rewrite lookup_insert_eq. cbn. by apply list_lookup_middle. }
    destruct (ensureIndexed_ok _ model _ _ Hr) as (ix & Hix & Hin & _). rewrite Hix in Hen.
    injection Hen as <-. exists (length l), r. split; [exact Hr|]. intros p v Hpv.
    assert (Hget : jget p r = Some v).
    { unfold r. rewrite jget_jset. apply elem_of_cons in Hpv as [[= -> ->]|Hpv]; [by rewrite decide_True|].
      rewrite decide_False; [by apply jget_elem|]. intros ->. apply Hp.
      change platform with (fst (platform, v)). by apply list_elem_of_fmap_2. }
    split; [done|]. apply Hin. by apply jget_in.
Qed.

(** Once a record's identifiers are stored, any of them
    converts to any other: from its local id to each foreign one, back, and
    between two foreign ones. *)
Theorem storeIdentities_convert s s' model platform localId foreignIds :
  NoDup (jkeys foreignIds) -> platform ∉ jkeys foreignIds ->
  storeIdentitiesFrom s model platform localId foreignIds = Ok s' ->
  forall p v q w, (p, v) ∈ (platform, localId) :: foreignIds ->
    (q, w) ∈ (platform, localId) :: foreignIds ->
    convertId s' model p v q = Some w.
Proof.
  intros Hnd Hp Hs p v q w Hpv Hqw.
  destruct (storeIdentities_record _ _ _ _ _ _ Hnd Hp Hs) as (i & r & Hr & Hall).
  unfold convertId. destruct (Hall _ _ Hpv) as [_ ->]. destruct (Hall _ _ Hqw) as [Hq _].
  cbn. rewrite Hr. exact Hq.
Qed.

(** ** Reachable indexes *)

(** The index after a call, thrown or not. *)
Definition final (r : index_result) : DevonianIndex := match r with Ok s | Err (_, s) => s end.

Inductive reachable : DevonianIndex -> Prop :=
| reachable_new : reachable empty_index
| reachable_store s model platform localId foreignIds :
    reachable s -> reachable (final (storeIdentitiesFrom s model platform localId foreignIds))
| reachable_equivalences s equivalences :
    reachable s -> reachable (final (storeEquivalences s equivalences)).

(** Every index entry leads to a record with an identifier on its platform. *)
Definition consistent (s : DevonianIndex) : Prop := forall m p id i,
  index_get (index s) m p id = Some i ->
  exists r v, record_at s m i = Some r /\ jget p r = Some v.

Lemma foldM_final {A} (P : DevonianIndex -> Prop) (f : DevonianIndex -> A -> index_result) l s :
  (forall s x, P s -> P (final (f s x))) -> P s -> P (final (foldM f s l)).
Proof.
  intros Hstep. revert s. induction l as [|x l IH]; intros s Hs; cbn [foldM]; [done|].
  pose proof (Hstep s x Hs) as Hx. destruct (f s x) as [s1|[e s1]]; cbn in *; [by apply IH|done].
Qed.

Lemma consistent_set_record s model i r0 p v :
  consistent s -> record_at s model i = Some r0 -> consistent (set_record s model i (jset p v r0)).
Proof.
  intros Hs Hr m q id j Hj. cbn [index set_record] in Hj. destruct (Hs _ _ _ _ Hj) as (r & w & Hrj & Hw).
  rewrite (record_at_set _ _ _ r0) by done. destruct (decide _) as [[-> ->]|_]; [|by exists r, w].
  rewrite Hr in Hrj. injection Hrj as ->. exists (jset p v r).
  rewrite jget_jset. destruct (decide (q = p)); [by exists v|by exists w].
Qed.

Lemma consistent_index_set s model i r p id :
  consistent s -> record_at s model i = Some r -> is_Some (jget p r) ->
  consistent (mkIndex (ids s) (index_set (index s) model p id i)).
Proof.
  intros Hs Hr [v Hv] m q id' j Hj. cbn [index] in Hj. rewrite index_get_set in Hj.
  destruct (decide _) as [(-> & -> & _)|_]; [|by apply (Hs _ _ id')].
  injection Hj as <-. by exists r, v.
Qed.

Lemma consistent_store_foreign model i s f : consistent s -> consistent (final (store_foreign model i s f)).
Proof.
  intros Hs. unfold store_foreign. destruct (record_at s model i) as [r|] eqn:Er; [|done]. cbn zeta.
  pose proof (consistent_set_record s model i r f.1 f.2 Hs Er) as Hs1.
  destruct (platform_indexed _ _ _); [|done].
  eapply consistent_index_set; [exact Hs1| |].
  - rewrite (record_at_set _ _ _ r) by done. by rewrite decide_True.
  - rewrite jget_jset, decide_True by done. by eexists.
Qed.

Lemma consistent_ensureIndexed model i s : consistent s -> consistent (final (ensureIndexed s model i)).
Proof.
  intros Hs. unfold ensureIndexed. set (ix := match index s !! model with None => _ | _ => _ end).
  assert (Hix : consistent (mkIndex (ids s) ix)).
  { intros m p id j Hj. apply (Hs m p id). revert Hj. cbn [index]. unfold ix, index_get.
    destruct (index s !! model) eqn:E; [done|]. destruct (decide (m = model)) as [->|].
    - by rewrite lookup_insert_eq.
    - by rewrite lookup_insert_ne. }
  destruct (record_at s model i) as [r|] eqn:Er; [|done]. cbn [final].
  assert (Hsub : forall l, l ⊆ r ->
    consistent (mkIndex (ids s) (fold_left (fun ix p => index_set ix model p.1 p.2 i) l ix))).
  { induction l as [|[q v] l IH] using rev_ind; intros Hl; [done|]. rewrite fold_left_app.
    apply (consistent_index_set (mkIndex (ids s) (fold_left (fun ix p => index_set ix model p.1 p.2 i) l ix))
             model i r q v); [|exact Er|].
    - apply IH. intros x Hx. apply Hl. apply elem_of_app. by left.
    - destruct (jget q r) eqn:Eq; [by eexists|]. exfalso. apply jget_None in Eq. apply Eq.
      change q with (fst (q, v)). apply list_elem_of_fmap_2. apply Hl. apply elem_of_app. right. by left. }
  by apply Hsub.
Qed.

Lemma consistent_store s model platform localId foreignIds :
  consistent s -> consistent (final (storeIdentitiesFrom s model platform localId foreignIds)).
Proof.
  intros Hs. unfold storeIdentitiesFrom. destruct (lookupIndexFrom _ _ _ _ _) as [i|].
  - destruct (record_at s model i) as [r|] eqn:Er; [|done].
    pose proof (consistent_set_record s model i r platform localId Hs Er) as Hs1.
    pose proof (foldM_final consistent (store_foreign model i) foreignIds _
      (consistent_store_foreign model i) Hs1) as Hf.
    destruct (foldM _ _ _) as [s1|[e s1]]; [|done]. by apply consistent_ensureIndexed.
  - apply consistent_ensureIndexed. intros m p id j Hj. destruct (Hs _ _ _ _ Hj) as (r & v & Hr & Hv).
    exists r, v. split; [|done]. unfold record_at in *. cbn [ids]. destruct (decide (m = model)) as [->|].
    + rewrite lookup_insert_eq. cbn. destruct (ids s !! model) as [l|]; cbn in *; [|done].
      rewrite lookup_app_l; [done|]. by eapply lookup_lt_Some.
    + by rewrite lookup_insert_ne.
Qed.

Lemma reachable_consistent s : reachable s -> consistent s.
Proof.
  induction 1 as [|s model platform localId foreignIds _ IH|s equivalences _ IH].
  - intros m p id i Hi. unfold index_get in Hi. cbn in Hi. by rewrite lookup_empty in Hi.
  - by apply consistent_store.
  - unfold storeEquivalences. apply foldM_final; [|done]. clear s IH. intros s e Hs.
    apply foldM_final; [|done]. clear s Hs. intros s thing Hs.
    apply foldM_final; [|done]. clear s Hs. intros s f Hs. unfold store_thing.
    destruct (jdelete f.1 thing); [done|]. by apply consistent_store.
Qed.

(** In every index reached by any sequence of calls, thrown
    ones included, an entry never dangles: an identifier that is indexed leads
    to a record that has an identifier of its platform, so that it converts
    to one. *)
Theorem index_consistent s model platform id :
  reachable s ->
  is_Some (convertId s model platform id platform) <-> is_Some (index_get (index s) model platform id).
Proof.
  intros Hs%reachable_consistent. unfold convertId. split.
  - intros [v Hv]. destruct (index_get _ _ _ _); [by eexists|done].
  - intros [i Hi]. rewrite Hi. cbn. destruct (Hs _ _ _ _ Hi) as (r & v & Hr & Hv). rewrite Hr. cbn. by eexists.
Qed.

(** [storeIdentitiesFrom] throws on exactly the known records
    that gain an identifier on a platform nothing of the model was indexed on
    before: the loop writes into [index[model][otherPlatform]], which only
    [ensureIndexed], called after it, creates.  Otherwise it returns. *)
Theorem storeIdentities_throws s model platform localId foreignIds :
  reachable s ->
  (exists s', storeIdentitiesFrom s model platform localId foreignIds = Ok s') <->
  lookupIndexFrom s model platform localId foreignIds = None \/
  Forall (fun f => platform_indexed (index s) model f.1 = true) foreignIds.
Proof.
  intros Hs%reachable_consistent. unfold storeIdentitiesFrom.
  destruct (lookupIndexFrom _ _ _ _ _) as [i|] eqn:El.
  - assert (exists r, record_at s model i = Some r) as [r Hr].
    { revert El. unfold lookupIndexFrom. destruct (index_get _ _ _ _) eqn:Eg.
      - intros [= ->]. destruct (Hs _ _ _ _ Eg) as (r & v & Hr & _). by exists r.
      - intros Hh. apply head_Some_elem_of in Hh as ([q v] & _ & Hq)%list_elem_of_omap.
        destruct (Hs _ _ _ _ Hq) as (r & w & Hr & _). by exists r. }
    rewrite Hr.
    assert (Hr1 : record_at (set_record s model i (jset platform localId r)) model i = Some (jset platform localId r)).
    { rewrite (record_at_set _ _ _ r) by done. by rewrite decide_True. }
    split.
    + intros (s' & (s1 & Hloop & _)%bind_Ok). right. eapply store_loop_ok in Hloop as (Hall & _); [|done].
      exact Hall.
    + intros [|Hall]; [done|]. destruct (store_loop_total model i foreignIds _ _ Hr1) as [s1 Hs1]; [exact Hall|].
      rewrite Hs1. cbn. destruct (store_loop_ok _ _ _ _ _ _ Hr1 Hs1) as (_ & Hr2 & _).
      destruct (ensureIndexed_ok _ _ _ _ Hr2) as (ix & -> & _). by eexists.
  - split; [by left|]. intros _. cbn zeta. set (l := default [] (ids s !! model)).
    assert (Hr : record_at (mkIndex (<[model := l ++ [jset platform localId foreignIds]]> (ids s)) (index s))
                   model (length l) = Some (jset platform localId foreignIds)).
    { unfold record_at. cbn [ids]. rewrite lookup_insert_eq. cbn. by apply list_lookup_middle. }
    destruct (ensureIndexed_ok _ _ _ _ Hr) as (ix & -> & _). by eexists.
Qed.

(** One equivalence of three platforms, stored as [storeEquivalences] does. *)
Definition example_thing : IdentifierMap :=
  [(js "github", IdN 17); (js "solid", IdS (js "a/1")); (js "linear", IdS (js "L-3"))].
Definition example_index : DevonianIndex :=
  final (storeEquivalences empty_index [(js "issue", [example_thing])]).

Lemma storeIdentities_convert_witness :
  exists s', storeIdentitiesFrom empty_index (js "issue") (js "github") (IdN 17)
    [(js "solid", IdS (js "a/1"))] = Ok s' /\
  convertId s' (js "issue") (js "solid") (IdS (js "a/1")) (js "github") = Some (IdN 17).
Proof.
  eexists. split; [vm_compute; reflexivity|].
  eapply (storeIdentities_convert empty_index _ (js "issue") (js "github") (IdN 17)
    [(js "solid", IdS (js "a/1"))]); [by_decide|by_decide|vm_compute; reflexivity|by_decide|by_decide].
Defined.

Lemma index_consistent_witness :
  is_Some (convertId example_index (js "issue") (js "linear") (IdS (js "L-3")) (js "linear")).
Proof.
  apply (index_consistent example_index (js "issue") (js "linear") (IdS (js "L-3"))).
  - apply reachable_equivalences, reachable_new.
  - vm_compute. by eexists.
Defined.

(** A known issue that gains a counterpart on a platform not seen before. *)
Lemma storeIdentities_throws_witness :
  ~ exists s', storeIdentitiesFrom example_index (js "issue") (js "github") (IdN 17)
      [(js "jira", IdS (js "J-9"))] = Ok s'.
Proof.
  intros H. apply (storeIdentities_throws example_index) in H.
  - destruct H as [H|H]; [vm_compute in H; discriminate|]. apply Forall_cons in H as [H _].
    vm_compute in H. discriminate.
  - apply reachable_equivalences, reachable_new.
Defined.
