(* ===== verification/Uri.v ===== *)
(** * URI components

    [encodeURIComponent] and [decodeURIComponent] of the language's standard
    library, on UTF-16 text, with the UTF-8 of [Encoding] and [Upload].  [None]
    is the [URIError] they throw: a lone surrogate, or a malformed or
    ill-encoded percent sequence. *)
From S2P Require Import Prelude Text Encoding Upload.
Local Open Scope Z_scope.

(** Letters, digits and [- _ . ! ~ * ' ( )] stand for themselves. *)
Definition unreserved (c : Z) : bool :=
  is_digit c || is_upper c || ((97 <=? c) && (c <=? 122))
  || bool_decide (c ∈ js "-_.!~*'()").

Definition upper_hex (n : Z) : Z := if n <? 10 then 48 + n else 55 + n.
Definition pct_byte (b : Z) : jstr := [37; upper_hex (b / 16); upper_hex (b mod 16)].

Definition is_scalar (code : Z) : bool := negb ((0xd800 <=? code) && (code <=? 0xdfff)).

Definition encode_code (code : Z) : option jstr :=
  if unreserved code then Some [code]
  else if is_scalar code then Some (flat_map pct_byte (utf8_encode code)) else None.

Definition encodeURIComponent (s : jstr) : option jstr :=
  parts ← mapM encode_code (code_points s); Some (concat parts).

Definition hex_value (c : Z) : option Z :=
  if is_digit c then Some (c - 48)
  else if (65 <=? c) && (c <=? 70) then Some (c - 55)
  else if (97 <=? c) && (c <=? 102) then Some (c - 87) else None.

(** One [%XX]. *)
Definition pct (s : jstr) : option (Z * jstr) :=
  match s with
  | c :: a :: b :: s' =>
      if c =? 37 then x ← hex_value a; y ← hex_value b; Some (16 * x + y, s') else None
  | _ => None
  end.

Fixpoint pct_many (n : nat) (s : jstr) : option (list Z * jstr) :=
  match n with
  | O => Some ([], s)
  | S n' => '(b, s') ← pct s; '(bs, s'') ← pct_many n' s'; Some (b :: bs, s'')
  end.

(** With fuel for the characters left: each turn reads at least one. *)
Fixpoint decode_go (fuel : nat) (s : jstr) : option jstr :=
  match s, fuel with
  | [], _ => Some []
  | _, O => None
  | c :: s', S fuel' =>
      if c =? 37 then
        '(b, r) ← pct s;
        '(need, _, _) ← utf8_lead b;
        '(bs, r') ← pct_many need r;
        '(code, _) ← utf8_step b bs;
        out ← decode_go fuel' r';
        Some (fromCodePoint code ++ out)
      else out ← decode_go fuel' s'; Some (c :: out)
  end.

Definition decodeURIComponent (s : jstr) : option jstr := decode_go (length s) s.

(** ** Encoded text *)

(** The characters an encoded component is made of. *)
Definition uri_char (c : Z) : bool := unreserved c || (c =? 37).

Lemma uri_char_plain c : uri_char c = true -> is_ws c = false /\ c <> 61 /\ c <> 62 /\ c <> 60 /\ c <> 32.
Proof.
  unfold uri_char, unreserved, is_digit, is_upper, is_ws. intros H.
  assert (33 <= c <= 126 /\ c <> 60 /\ c <> 61 /\ c <> 62) as Hc.
  { destruct (decide (c ∈ js "-_.!~*'()")) as [Hin|Hout].
    - vm_compute in Hin. repeat (apply elem_of_cons in Hin as [->|Hin]; [lia|]). by apply elem_of_nil in Hin.
    - rewrite (bool_decide_false _ Hout) in H. lia. }
  split; [|lia]. lia.
Qed.

Lemma unreserved_not_pct c : unreserved c = true -> c <> 37.
Proof. intros H ->. by vm_compute in H. Qed.

Lemma unreserved_range c : unreserved c = true -> 0 <= c < 0x80.
Proof.
  intros H. destruct (decide (c ∈ js "-_.!~*'()")) as [Hin|Hout].
  - vm_compute in Hin. repeat (apply elem_of_cons in Hin as [->|Hin]; [lia|]). by apply elem_of_nil in Hin.
  - unfold unreserved, is_digit, is_upper in H. rewrite (bool_decide_false _ Hout) in H. lia.
Qed.

Lemma upper_hex_char n : 0 <= n < 16 -> uri_char (upper_hex n) = true.
Proof.
  intros Hn. unfold uri_char, unreserved, upper_hex, is_digit, is_upper.
  destruct (n <? 10) eqn:E; breflect.
  - assert ((48 <=? 48 + n) && (48 + n <=? 57) = true) as -> by lia. done.
  - assert ((65 <=? 55 + n) && (55 + n <=? 90) = true) as -> by lia. by rewrite orb_true_r.
Qed.

Lemma hex_value_upper n : 0 <= n < 16 -> hex_value (upper_hex n) = Some n.
Proof.
  intros Hn. unfold hex_value, upper_hex, is_digit. destruct (n <? 10) eqn:E; breflect.
  - assert ((48 <=? 48 + n) && (48 + n <=? 57) = true) as -> by lia. f_equal. lia.
  - assert ((48 <=? 55 + n) && (55 + n <=? 57) = false) as -> by lia.
    assert ((65 <=? 55 + n) && (55 + n <=? 70) = true) as -> by lia. f_equal. lia.
Qed.

Lemma pct_pct_byte b s : is_byte b -> pct (pct_byte b ++ s) = Some (b, s).
Proof.
  intros Hb. unfold is_byte in Hb. unfold pct_byte, pct. cbn [app]. cbn [Z.eqb Pos.eqb].
  rewrite !hex_value_upper by dlia. cbn. do 2 f_equal. dlia.
Qed.

Lemma pct_many_bytes bs s :
  Forall is_byte bs -> pct_many (length bs) (flat_map pct_byte bs ++ s) = Some (bs, s).
Proof.
  induction 1 as [|b bs Hb Hbs IH]; [done|]. cbn [flat_map length pct_many].
  rewrite <-app_assoc, pct_pct_byte by done. cbn. by rewrite IH.
Qed.

Lemma encode_code_nonempty code e : encode_code code = Some e -> e <> [].
Proof.
  unfold encode_code. destruct (unreserved code); [by intros [= <-]|].
  destruct (is_scalar code); [|done]. intros [= <-]. unfold utf8_encode.
  repeat case_match; done.
Qed.

Lemma decode_go_plain fuel c s :
  c <> 37 -> decode_go (S fuel) (c :: s) = (out ← decode_go fuel s; Some (c :: out)).
Proof. intros Hc. cbn [decode_go]. by rewrite (proj2 (Z.eqb_neq c 37)). Qed.

Lemma decode_go_code fuel code e s :
  scalar code -> encode_code code = Some e ->
  decode_go (S fuel) (e ++ s) = (out ← decode_go fuel s; Some (fromCodePoint code ++ out)).
Proof.
  intros Hcode. unfold encode_code. destruct (unreserved code) eqn:Hun.
  - intros [= <-]. cbn [app]. rewrite decode_go_plain by (by apply unreserved_not_pct).
    apply unreserved_range in Hun. unfold fromCodePoint.
    by rewrite (proj2 (Z.ltb_lt code 0x10000)) by lia.
  - destruct (is_scalar code); [|done]. intros [= <-].
    destruct (utf8_step_encode code [] Hcode) as (b & tail & Heq & Hb & Htail & Hstep).
    rewrite !app_nil_r in *. rewrite Heq. cbn [flat_map]. rewrite <-app_assoc.
    assert (exists lead min, utf8_lead b = Some (length tail, lead, min)) as (lead & min & Hlead).
    { unfold utf8_step in Hstep. destruct (utf8_lead b) as [[[need lead] min]|]; [|done]. cbn in Hstep.
      destruct (decide (length tail < need)%nat) as [|Hge]; [done|].
      destruct (utf8_continue _ _); [|done]. cbn in Hstep. case_match; [done|].
      injection Hstep as _ Hdrop. exists lead, min. do 3 f_equal.
      apply (f_equal length) in Hdrop. rewrite length_drop in Hdrop. cbn in Hdrop. lia. }
    change (pct_byte b ++ flat_map pct_byte tail ++ s)
      with (37 :: (upper_hex (b / 16) :: upper_hex (b mod 16) :: flat_map pct_byte tail ++ s)).
    cbn [decode_go]. cbn [Z.eqb Pos.eqb].
    change (37 :: upper_hex (b / 16) :: upper_hex (b mod 16) :: flat_map pct_byte tail ++ s)
      with (pct_byte b ++ flat_map pct_byte tail ++ s).
    rewrite pct_pct_byte by done. cbn [mbind option_bind]. rewrite Hlead. cbn [mbind option_bind].
    rewrite pct_many_bytes by done. cbn [mbind option_bind]. rewrite Hstep. done.
Qed.

Lemma decode_go_codes codes parts fuel :
  Forall scalar codes -> mapM encode_code codes = Some parts ->
  (length (concat parts) <= fuel)%nat ->
  decode_go fuel (concat parts) = Some (flat_map fromCodePoint codes).
Proof.
  intros Hs Hm%mapM_Some. revert fuel Hs. induction Hm as [|code e codes parts He Hm IH]; intros fuel Hs Hfuel.
  { by destruct fuel. }
  apply Forall_cons in Hs as [Hc Hs]. cbn [concat flat_map] in *. rewrite length_app in Hfuel.
  pose proof (encode_code_nonempty _ _ He) as Hne.
  destruct fuel as [|fuel]; [destruct e; [done|cbn in Hfuel; lia]|].
  rewrite (decode_go_code _ code) by done. rewrite IH; [done|done|].
  destruct e; [done|cbn in Hfuel; lia].
Qed.

Lemma code_points_range s : Forall code_unit s -> Forall (fun c => 0 <= c <= 0x10ffff) (code_points s).
Proof.
  remember (length s) as n eqn:Hn. revert s Hn.
  induction (lt_wf n) as [n _ IH]; intros [|u [|v s]] Hn Hu.
  - constructor.
  - decompose_Forall_hyps. constructor; [|constructor]. unfold code_unit in *. lia.
  - rewrite code_points_cons2. destruct (is_high u && is_low v) eqn:Hp; unfold code_unit in *.
    + unfold is_high, is_low in Hp. breflect. decompose_Forall_hyps. constructor; [lia|].
      by apply (IH (length s)); [lia| |].
    + apply Forall_cons in Hu as [Hu Hs]. constructor; [lia|].
      apply (IH (length (v :: s))); [subst n; cbn; lia|done|done].
Qed.

Lemma encode_scalars s e :
  Forall code_unit s -> encodeURIComponent s = Some e -> Forall scalar (code_points s).
Proof.
  intros Hs. unfold encodeURIComponent. destruct (mapM _ _) as [parts|] eqn:Hm; [|done]. intros _.
  pose proof (code_points_range s Hs) as Hr. apply mapM_Some in Hm. revert Hr.
  induction Hm as [|code p codes parts Hp Hm IH]; intros Hr; [constructor|].
  apply Forall_cons in Hr as [Hc Hr]. constructor; [|by apply IH].
  unfold encode_code in Hp. unfold scalar. destruct (unreserved code) eqn:Hun.
  - apply unreserved_range in Hun. lia.
  - destruct (is_scalar code) eqn:Hsc; [|done]. unfold is_scalar in Hsc. lia.
Qed.

(** Decoding undoes encoding. *)
Lemma decode_encode s e :
  Forall code_unit s -> encodeURIComponent s = Some e -> decodeURIComponent e = Some s.
Proof.
  intros Hs He. pose proof (encode_scalars s e Hs He) as Hsc. unfold encodeURIComponent in He.
  destruct (mapM _ _) as [parts|] eqn:Hm; [|done]. injection He as <-.
  unfold decodeURIComponent. rewrite (decode_go_codes (code_points s)) by done.
  by rewrite flat_code_points.
Qed.

(** Encoded text has only unreserved characters and percent signs. *)
Lemma encode_chars s e : Forall code_unit s -> encodeURIComponent s = Some e ->
  Forall (fun c => uri_char c = true) e.
Proof.
  intros Hs He. pose proof (encode_scalars s e Hs He) as Hsc. unfold encodeURIComponent in He.
  destruct (mapM _ _) as [parts|] eqn:Hm; [|done]. injection He as <-. apply mapM_Some in Hm.
  revert Hsc. induction Hm as [|code p codes parts Hp Hm IH]; intros Hsc; [constructor|].
  apply Forall_cons in Hsc as [Hc Hsc]. cbn [concat]. apply Forall_app. split; [|by apply IH].
  unfold encode_code in Hp. destruct (unreserved code) eqn:Hun.
  - injection Hp as <-. constructor; [|constructor]. unfold uri_char. by rewrite Hun.
  - destruct (is_scalar code); [|done]. injection Hp as <-.
    destruct (utf8_step_encode code [] Hc) as (b & tail & Heq & Hb & Htail & _).
    rewrite !app_nil_r in Heq. rewrite Heq. assert (Hall : Forall is_byte (b :: tail)) by (by constructor).
    clear -Hall. induction Hall as [|x l Hx Hl IH]; [constructor|]. cbn [flat_map]. apply Forall_app.
    split; [|done]. unfold is_byte in Hx. unfold pct_byte.
    repeat constructor; apply upper_hex_char; dlia.
Qed.

(** A valid text is encodable. *)
Lemma encode_total s :
  Forall code_unit s -> Forall scalar (code_points s) -> is_Some (encodeURIComponent s).
Proof.
  intros _ Hs. unfold encodeURIComponent.
  assert (is_Some (mapM encode_code (code_points s))) as [parts ->]; [|by eexists].
  apply mapM_is_Some_2. eapply Forall_impl; [exact Hs|]. intros c [Hr Hc].
  change (is_Some (encode_code c)). unfold encode_code.
  destruct (unreserved c); [by eexists|]. assert (is_scalar c = true) as -> by (unfold is_scalar; lia).
  by eexists.
Qed.
