(* ===== verification/Marker.v ===== *)
(** * Origin markers

    Models [src/devonian/src/reflect/marker.ts]: the hidden HTML comment by
    which a reflected copy names the record it was made from.

    The pattern is matched by the backtracking of its parts: each combinator
    takes the match of what follows ([k]) and tries the ways of its own part in
    the order the language specifies (greedy [*] longest first, lazy [*?]
    shortest first).  [encodeURIComponent] throws on a lone surrogate: the
    functions that render return an option.  Bodies are strings (the [?? '']
    of [embedMarker] is for callers outside the type). *)
From S2P Require Import Prelude Text Collections Encoding Upload Uri.
Local Open Scope Z_scope.

(* src: devonian/src/reflect/marker.ts 25-33 OriginRef *)
Record OriginRef := mkRef { system : jstr; kind : jstr; id : jstr }.

(* src: devonian/src/reflect/marker.ts 35-35 DEFAULT_NAMESPACE *)
Definition DEFAULT_NAMESPACE : jstr := js "devonian".

(** ** The pattern *)

Section Pattern.
Context {A : Type}.
Implicit Types (k : jstr -> option A) (s : jstr).

Definition lit (l : jstr) k s : option A :=
  if starts_with l s then k (drop (length l) s) else None.

(** [\s*] *)
Fixpoint ws_star k s : option A :=
  match s with
  | c :: s' =>
      if is_ws c then match ws_star k s' with Some r => Some r | None => k s end else k s
  | [] => k []
  end.

(** [\s+] *)
Definition ws_plus k s : option A :=
  match s with c :: s' => if is_ws c then ws_star k s' else None | [] => None end.

(** [([^>]*?)], with what it captured passed on. *)
Fixpoint lazy_payload (k : jstr -> jstr -> option A) (captured : jstr) s : option A :=
  match k captured s with
  | Some r => Some r
  | None =>
      match s with
      | c :: s' => if c =? 62 then None else lazy_payload k (captured ++ [c]) s'
      | [] => None
      end
  end.
End Pattern.

(* src: devonian/src/reflect/marker.ts 43-55 markerRegex *)
Definition markerRegex (namespace s : jstr) : option (jstr * jstr) :=
  lit (js "<!--") (ws_star (lit (namespace ++ js ":origin") (ws_plus
    (lazy_payload (fun payload => ws_star (lit (js "-->") (fun rest => Some (payload, rest)))) [])))) s.

(** [exec] from the start of the text: the first match's capture. *)
Fixpoint exec (namespace s : jstr) : option jstr :=
  match markerRegex namespace s with
  | Some (payload, _) => Some payload
  | None => match s with _ :: s' => exec namespace s' | [] => None end
  end.

(** [replace(markerRegex(namespace), '')], global: a match is never empty, so
    the length of the text is fuel enough. *)
Fixpoint remove_markers (fuel : nat) (namespace s : jstr) : jstr :=
  match fuel with
  | O => s
  | S fuel' =>
      match markerRegex namespace s with
      | Some (_, rest) => remove_markers fuel' namespace rest
      | None => match s with c :: s' => c :: remove_markers fuel' namespace s' | [] => [] end
      end
  end.

(** [replace(/\n{3,}/g, '\n\n')]; [n] is the length of the run so far. *)
Fixpoint collapse_newlines (n : nat) (s : jstr) : jstr :=
  match s with
  | [] => []
  | c :: s' =>
      if c =? 10
      then if (n <? 2)%nat then c :: collapse_newlines (S n) s' else collapse_newlines n s'
      else c :: collapse_newlines 0 s'
  end.

(** [split(/\s+/)]; [gap] is whether white space was the last thing read. *)
Fixpoint split_ws (piece : jstr) (gap : bool) (s : jstr) : list jstr :=
  match s with
  | [] => [piece]
  | c :: s' =>
      if is_ws c then if gap then split_ws piece true s' else piece :: split_ws [] true s'
      else split_ws (piece ++ [c]) false s'
  end.

(** ** The codec *)

(* src: devonian/src/reflect/marker.ts 57-66 renderMarker *)
Definition renderMarker (ref : OriginRef) (namespace : jstr) : option jstr :=
  s ← encodeURIComponent (system ref);
  k ← encodeURIComponent (kind ref);
  i ← encodeURIComponent (id ref);
  let fields := join_str (js " ") [js "system=" ++ s; js "kind=" ++ k; js "id=" ++ i] in
  Some (js "<!-- " ++ namespace ++ js ":origin " ++ fields ++ js " -->").

(* src: devonian/src/reflect/marker.ts 68-76 hasMarker *)
Definition hasMarker (body namespace : jstr) : bool := bool_decide (is_Some (exec namespace body)).

(** [pair.slice(0, eq)] and [pair.slice(eq + 1)] where [eq > 0]. *)
Definition key_value (pair : jstr) : option (jstr * jstr) :=
  match span (fun c => negb (c =? 61)) pair with
  | (c :: key, _ :: value) => Some (c :: key, value)
  | _ => None
  end.

(** The loop over the pairs: [None] when a value is malformed. *)
Definition read_field (fields : option (list (jstr * jstr))) (pair : jstr) : option (list (jstr * jstr)) :=
  fields ← fields;
  match key_value pair with
  | None => Some fields
  | Some (key, value) => v ← decodeURIComponent value; Some (jset key v fields)
  end.

(* src: devonian/src/reflect/marker.ts 78-112 parseMarker *)
Definition parseMarker (body namespace : jstr) : option OriginRef :=
  payload ← exec namespace body;
  fields ← fold_left read_field (split_ws [] false payload) (Some []);
  s ← jget (js "system") fields;
  k ← jget (js "kind") fields;
  i ← jget (js "id") fields;
  Some (mkRef s k i).

(* src: devonian/src/reflect/marker.ts 114-123 stripMarker *)
Definition stripMarker (body namespace : jstr) : jstr :=
  trim (collapse_newlines 0 (remove_markers (length body) namespace body)).

(* src: devonian/src/reflect/marker.ts 125-139 embedMarker *)
Definition embedMarker (body : jstr) (ref : OriginRef) (namespace : jstr) : option jstr :=
  let base := stripMarker body namespace in
  marker ← renderMarker ref namespace;
  Some (match base with [] => marker | _ => base ++ [10; 10] ++ marker end).

(** ** What the pattern matches *)

(** A namespace without white space and [<]. *)
Definition namespace_ok (namespace : jstr) : Prop := Forall (fun c => is_ws c = false /\ c <> 60) namespace.

Definition tag (namespace : jstr) : jstr := namespace ++ js ":origin".

(** A marker opens at the start of the text: [<!--\s*namespace:origin]. *)
Definition opens (namespace s : jstr) : bool :=
  starts_with (js "<!--") s && starts_with (tag namespace) (drop_ws (drop 4 s)).

(** No marker opens anywhere in the text. *)
Fixpoint opening_free (namespace s : jstr) : bool :=
  negb (opens namespace s) && match s with _ :: s' => opening_free namespace s' | [] => true end.

Lemma tag_ok namespace : namespace_ok namespace ->
  exists c t, tag namespace = c :: t /\ Forall (fun c => is_ws c = false /\ c <> 60) (tag namespace).
Proof.
  intros H. assert (Hall : Forall (fun c => is_ws c = false /\ c <> 60) (tag namespace)).
  { apply Forall_app. split; [exact H|]. vm_compute. repeat constructor; done. }
  unfold tag in *. destruct namespace; cbn [app] in *; [|by eexists _, _].
  eexists _, _. split; [vm_compute; reflexivity|exact Hall].
Qed.

(** Over a literal that does not begin with white space, [\s*] takes all of it. *)
Lemma ws_star_lit {A} (l : jstr) (k : jstr -> option A) s c t :
  l = c :: t -> is_ws c = false -> ws_star (lit l k) s = lit l k (drop_ws s).
Proof.
  intros -> Hc. induction s as [|x s IH]; [done|]. cbn [ws_star drop_ws]. destruct (is_ws x) eqn:Hx; [|done].
  rewrite IH. destruct (lit (c :: t) k (drop_ws s)) eqn:E; [done|]. unfold lit. cbn [starts_with].
  rewrite (proj2 (Z.eqb_neq c x)); [done|]. intros ->. congruence.
Qed.

Lemma markerRegex_opens namespace s :
  namespace_ok namespace -> opens namespace s = false -> markerRegex namespace s = None.
Proof.
  intros Hn. destruct (tag_ok _ Hn) as (c & t & Ht & Hall). unfold opens, markerRegex, lit at 1.
  destruct (starts_with (js "<!--") s); [|done]. cbn [andb]. intros Ho.
  assert (is_ws c = false) as Hc by (rewrite Ht in Hall; apply Forall_cons in Hall as [[? _] _]; done).
  change (length (js "<!--")) with 4%nat. fold (tag namespace). rewrite (ws_star_lit _ _ _ c t) by done.
  unfold lit at 1. by rewrite Ho.
Qed.

Lemma starts_with_spec l s : starts_with l s = true <-> exists r, s = l ++ r.
Proof.
  revert s. induction l as [|x l IH]; intros s; cbn; [split; [by eexists|done]|].
  destruct s as [|y s]; [split; [done|by intros [? ?]]|].
  rewrite andb_true_iff, Z.eqb_eq, IH. split.
  - intros [-> [r ->]]. by exists r.
  - intros [r [= -> ->]]. split; [done|by exists r].
Qed.

Lemma starts_with_app l r : starts_with l (l ++ r) = true.
Proof. apply starts_with_spec. by exists r. Qed.

(** A literal is not found across a character it does not have. *)
Lemma starts_with_across l u x r :
  x ∉ l -> starts_with l (u ++ x :: r) = starts_with l u.
Proof.
  revert u. induction l as [|y l IH]; intros u Hx; [done|]. destruct u as [|z u]; cbn.
  - rewrite (proj2 (Z.eqb_neq y x)); [done|]. intros ->. apply Hx. by left.
  - f_equal. apply IH. intros Hin. apply Hx. by right.
Qed.

Lemma drop_ws_app u x r :
  drop_ws (u ++ x :: r) = match drop_ws u with [] => drop_ws (x :: r) | v => v ++ x :: r end.
Proof.
  induction u as [|c u IH]; [done|]. cbn [app drop_ws]. destruct (is_ws c); [exact IH|done].
Qed.

(** A marker does not open across the blank line before an appended one. *)
Lemma opens_across namespace t r :
  namespace_ok namespace -> t <> [] ->
  (exists r', drop_ws r = 60 :: r') -> opens namespace (t ++ 10 :: r) = opens namespace t.
Proof.
  intros Hn Ht [r' Hr]. destruct (tag_ok _ Hn) as (c & tl & Htag & Hall). unfold opens.
  rewrite starts_with_across by by_decide. destruct (starts_with (js "<!--") t) eqn:Es; [|done].
  apply starts_with_spec in Es as [u ->]. cbn [andb].
  change (drop 4 ((js "<!--" ++ u) ++ 10 :: r)) with (u ++ 10 :: r).
  change (drop 4 (js "<!--" ++ u)) with u. rewrite drop_ws_app.
  assert (H10 : 10 ∉ tag namespace).
  { intros Hin. rewrite Forall_forall in Hall. by destruct (Hall 10 Hin). }
  destruct (drop_ws u) as [|y v]; [|by rewrite starts_with_across].
  change (drop_ws (10 :: r)) with (drop_ws r). rewrite Hr, Htag. cbn [starts_with].
  rewrite (proj2 (Z.eqb_neq c 60)); [done|]. rewrite Htag in Hall. by apply Forall_cons in Hall as [[_ ?] _].
Qed.

(** ** A rendered marker *)

Definition marker_of (namespace fields : jstr) : jstr :=
  js "<!-- " ++ namespace ++ js ":origin " ++ fields ++ js " -->".

(** Fields that neither begin nor end with white space and have no [>]. *)
Definition fields_ok (fields : jstr) : Prop :=
  (62 ∉ fields) /\ (exists c t, fields = c :: t /\ is_ws c = false) /\
  (exists t c, fields = t ++ [c] /\ is_ws c = false).

Lemma drop_ws_last f y : is_ws y = false -> exists g, drop_ws (f ++ [y]) = g ++ [y] /\ g ⊆ f.
Proof.
  intros Hy. induction f as [|c f IH]; cbn; [rewrite Hy; by exists []|]. destruct (is_ws c).
  - destruct IH as (g & -> & Hg). exists g. split; [done|]. set_solver.
  - by exists (c :: f).
Qed.

Lemma lazy_fields cap f y rest :
  is_ws y = false -> 62 ∉ f ++ [y] ->
  lazy_payload (fun payload => ws_star (lit (js "-->") (fun rest => Some (payload, rest)))) cap
    (f ++ [y] ++ js " -->" ++ rest) = Some (cap ++ f ++ [y], rest).
Proof.
  intros Hy. revert cap. induction f as [|c f IH]; intros cap H62.
  - cbn [app lazy_payload]. rewrite (ws_star_lit _ _ _ 45 [45; 62]) by done.
    cbn [drop_ws]. rewrite Hy. unfold lit at 1.
    change (y :: js " -->" ++ rest) with ([y] ++ 32 :: js "-->" ++ rest).
    rewrite starts_with_across by by_decide.
    assert (starts_with (js "-->") [y] = false) as ->.
    { apply andb_false_r. }
    rewrite (proj2 (Z.eqb_neq y 62)) by (intros ->; apply H62; by left). done.
  - cbn [app lazy_payload]. rewrite (ws_star_lit _ _ _ 45 [45; 62]) by done.
    unfold lit at 1.
    assert (starts_with (js "-->") (drop_ws (c :: f ++ y :: js " -->" ++ rest)) = false) as ->.
    { change (c :: f ++ y :: js " -->" ++ rest) with ((c :: f) ++ [y] ++ 32 :: js "-->" ++ rest).
      rewrite app_assoc, drop_ws_app.
      destruct (drop_ws_last (c :: f) y Hy) as (g & Hg & Hsub). rewrite Hg.
      assert (forall l, match g ++ [y] with [] => drop_ws (32 :: l) | v => v ++ 32 :: l end
                = (g ++ [y]) ++ 32 :: l) as -> by (intros; by destruct g).
      rewrite starts_with_across by by_decide. destruct (starts_with _ _) eqn:E; [|done].
      apply starts_with_spec in E as [r Hr]. exfalso. apply H62.
      assert (Hin : 62 ∈ g ++ [y]) by (rewrite Hr; apply elem_of_app; left; by_decide).
      apply elem_of_app in Hin as [Hin|Hin].
      - apply elem_of_app. left. by apply Hsub.
      - apply elem_of_app. by right. }
    rewrite (proj2 (Z.eqb_neq c 62)) by (intros ->; apply H62; by left).
    change (f ++ y :: js " -->" ++ rest) with (f ++ [y] ++ js " -->" ++ rest).
    rewrite IH; [by rewrite <-!app_assoc|]. intros Hin. apply H62. by right.
Qed.

Lemma markerRegex_marker namespace fields rest :
  namespace_ok namespace -> fields_ok fields ->
  markerRegex namespace (marker_of namespace fields ++ rest) = Some (fields, rest).
Proof.
  intros Hn (H62 & (x & t & Hx & Hwx) & (f & y & -> & Hy)).
  destruct (tag_ok _ Hn) as (c & tl & Htag & Hall). unfold markerRegex.
  assert (marker_of namespace (f ++ [y]) ++ rest =
    js "<!--" ++ 32 :: tag namespace ++ 32 :: f ++ [y] ++ js " -->" ++ rest) as ->.
  { unfold marker_of, tag. change (js "<!-- ") with (js "<!--" ++ [32]).
    change (js ":origin ") with (js ":origin" ++ [32]). by rewrite <-!app_assoc. }
  unfold lit at 1. rewrite starts_with_app. change (length (js "<!--")) with 4%nat.
  rewrite drop_app_length' by done. fold (tag namespace).
  assert (is_ws c = false) as Hc by (rewrite Htag in Hall; apply Forall_cons in Hall as [[? _] _]; done).
  rewrite (ws_star_lit _ _ _ c tl) by done.
  assert (drop_ws (32 :: tag namespace ++ 32 :: f ++ [y] ++ js " -->" ++ rest) =
    tag namespace ++ 32 :: f ++ [y] ++ js " -->" ++ rest) as ->.
  { cbn [drop_ws]. change (is_ws 32) with true. cbn iota. rewrite Htag. cbn [app drop_ws]. by rewrite Hc. }
  unfold lit at 1. rewrite starts_with_app, drop_app_length. cbn [ws_plus]. change (is_ws 32) with true.
  cbn iota. etransitivity; [|exact (lazy_fields [] f y rest Hy H62)].
  assert (forall r, f ++ [y] ++ r = x :: t ++ r) as Heq.
  { intros r. rewrite app_assoc, Hx. done. }
  rewrite Heq. cbn [ws_star]. by rewrite Hwx.
Qed.

Lemma exec_skip namespace base r :
  namespace_ok namespace -> opening_free namespace base = true ->
  (exists r', drop_ws r = 60 :: r') ->
  exec namespace (base ++ 10 :: r) = exec namespace r.
Proof.
  intros Hn Hfree Hr. induction base as [|c base IH].
  - cbn [app exec]. rewrite markerRegex_opens; [done..|]. unfold opens. done.
  - cbn [opening_free] in Hfree. apply andb_true_iff in Hfree as [Ho Hfree]. apply negb_true_iff in Ho.
    change ((c :: base) ++ 10 :: r) with (c :: base ++ 10 :: r). cbn [exec].
    rewrite markerRegex_opens; [by apply IH|done|].
    change (c :: base ++ 10 :: r) with ((c :: base) ++ 10 :: r). by rewrite opens_across.
Qed.

Lemma exec_marker namespace fields rest :
  namespace_ok namespace -> fields_ok fields ->
  exec namespace (marker_of namespace fields ++ rest) = Some fields.
Proof.
  intros Hn Hf. pose proof (markerRegex_marker namespace fields rest Hn Hf) as Hm.
  unfold marker_of in *. cbn [js app] in *. destruct (_ ++ rest) eqn:E; [done|].
  cbn [exec]. by rewrite Hm.
Qed.

Lemma split_ws_plain a gap p : Forall (fun c => is_ws c = false) p -> p <> [] ->
  split_ws a gap p = [a ++ p] /\ forall r, split_ws a gap (p ++ 32 :: r) = (a ++ p) :: split_ws [] true r.
Proof.
  intros Hp. revert a gap. induction Hp as [|c p Hc Hp IH]; intros a gap Hne; [done|].
  cbn [app split_ws]. rewrite Hc. destruct p as [|d p]; [done|].
  destruct (IH (a ++ [c]) false ltac:(done)) as [H1 H2].
  rewrite H1. setoid_rewrite H2. by rewrite <-app_assoc.
Qed.

Definition field_key (i : nat) : jstr := nth i [js "system"; js "kind"; js "id"] [].

Lemma key_value_field i v : (i < 3)%nat -> key_value (field_key i ++ 61 :: v) = Some (field_key i, v).
Proof.
  intros Hi. unfold key_value. rewrite span_stop; [|destruct i as [|[|[|]]]; [by_decide..|lia]|done].
  destruct i as [|[|[|]]]; [done..|lia].
Qed.

Lemma read_field_value i v x fields :
  (i < 3)%nat -> decodeURIComponent v = Some x ->
  read_field (Some fields) (field_key i ++ 61 :: v) = Some (jset (field_key i) x fields).
Proof. intros Hi Hv. unfold read_field. cbn [mbind option_bind]. rewrite key_value_field by done. by rewrite Hv. Qed.

Definition text_ok (s : jstr) : Prop := Forall code_unit s.
Definition ref_ok (ref : OriginRef) : Prop :=
  text_ok (system ref) /\ text_ok (kind ref) /\ text_ok (id ref).

Definition field_text (i : nat) (v : jstr) : jstr := field_key i ++ 61 :: v.

Lemma field_text_plain i v : (i < 3)%nat -> Forall (fun c => uri_char c = true) v ->
  Forall (fun c => is_ws c = false) (field_text i v) /\ (62 ∉ field_text i v) /\ field_text i v <> [].
Proof.
  intros Hi Hv.
  assert (Hplain : Forall (fun c => is_ws c = false /\ c <> 62) (field_text i v)).
  { unfold field_text. apply Forall_app. split; [destruct i as [|[|[|]]]; [by_decide..|lia]|].
    constructor; [done|]. eapply Forall_impl; [exact Hv|]. intros c Hc. cbn.
    by destruct (uri_char_plain c Hc) as (? & ? & ? & _). }
  split; [|split].
  - eapply Forall_impl; [exact Hplain|]. by intros c [? _].
  - intros Hin. rewrite Forall_forall in Hplain. by destruct (Hplain 62 Hin).
  - unfold field_text. by destruct (field_key i).
Qed.

Lemma field_text_last i v : (i < 3)%nat -> Forall (fun c => uri_char c = true) v ->
  exists t c, field_text i v = t ++ [c] /\ is_ws c = false.
Proof.
  intros Hi Hv. destruct (field_text_plain i v Hi Hv) as (Hp & _ & Hne).
  induction (field_text i v) as [|x t _] using rev_ind; [done|].
  apply Forall_app in Hp as [_ Hp]. apply Forall_cons in Hp as [Hx _]. by exists t, x.
Qed.

(** A rendered marker is the comment around its three fields, which read back. *)
Lemma renderMarker_spec ref namespace marker :
  ref_ok ref -> renderMarker ref namespace = Some marker ->
  exists fields, marker = marker_of namespace fields /\ fields_ok fields /\
    exists l, fold_left read_field (split_ws [] false fields) (Some []) = Some l /\
      jget (js "system") l = Some (system ref) /\ jget (js "kind") l = Some (kind ref) /\
      jget (js "id") l = Some (id ref).
Proof.
  intros (Hs & Hk & Hi). unfold renderMarker.
  destruct (encodeURIComponent (system ref)) as [es|] eqn:Es; [|done].
  destruct (encodeURIComponent (kind ref)) as [ek|] eqn:Ek; [|done].
  destruct (encodeURIComponent (id ref)) as [ei|] eqn:Ei; [|done]. intros [= <-].
  pose proof (encode_chars _ _ Hs Es) as Hes. pose proof (encode_chars _ _ Hk Ek) as Hek.
  pose proof (encode_chars _ _ Hi Ei) as Hei.
  destruct (field_text_plain 0 es) as (Hp0 & H620 & Hne0); [lia|done|].
  destruct (field_text_plain 1 ek) as (Hp1 & H621 & Hne1); [lia|done|].
  destruct (field_text_plain 2 ei) as (Hp2 & H622 & Hne2); [lia|done|].
  exists (field_text 0 es ++ 32 :: field_text 1 ek ++ 32 :: field_text 2 ei). split; [done|]. split.
  - split; [|split].
    + rewrite elem_of_app, elem_of_cons, elem_of_app, elem_of_cons. naive_solver.
    + by eexists _, _.
    + destruct (field_text_last 2 ei) as (t & c & Heq & Hc); [lia|done|]. rewrite Heq.
      exists (field_text 0 es ++ 32 :: field_text 1 ek ++ 32 :: t), c. split; [|done].
      rewrite <-app_assoc. cbn [app]. by rewrite <-app_assoc.
  - rewrite (proj2 (split_ws_plain [] false _ Hp0 Hne0)), (proj2 (split_ws_plain [] true _ Hp1 Hne1)),
      (proj1 (split_ws_plain [] true _ Hp2 Hne2)). cbn [fold_left].
    unfold field_text. rewrite !app_nil_l.
    rewrite (read_field_value 0 _ (system ref)), (read_field_value 1 _ (kind ref)),
      (read_field_value 2 _ (id ref)) by (lia || by apply decode_encode).
    eexists. split; [done|]. done.
Qed.

(** ** Stripped text *)

(** No run of more than two newlines, [n] of which came before. *)
Fixpoint runs_ok (n : nat) (s : jstr) : bool :=
  match s with
  | [] => true
  | c :: s' => if c =? 10 then (n <? 2)%nat && runs_ok (S n) s' else runs_ok 0 s'
  end.

Lemma collapse_id n s : runs_ok n s = true -> collapse_newlines n s = s.
Proof.
  revert n. induction s as [|c s IH]; intros n; cbn; [done|]. destruct (c =? 10) eqn:Ec.
  - intros [-> H]%andb_true_iff. by rewrite IH.
  - intros H. by rewrite IH.
Qed.

Lemma collapse_runs n s : runs_ok n (collapse_newlines n s) = true.
Proof.
  revert n. induction s as [|c s IH]; intros n; cbn [collapse_newlines]; [done|]. destruct (c =? 10) eqn:Ec.
  - destruct (n <? 2)%nat eqn:En; [|apply IH]. cbn [runs_ok]. by rewrite Ec, En, IH.
  - cbn [runs_ok]. by rewrite Ec, IH.
Qed.

Lemma runs_mono m n s : (m <= n)%nat -> runs_ok n s = true -> runs_ok m s = true.
Proof.
  revert m n. induction s as [|c s IH]; intros m n Hmn; cbn [runs_ok]; [done|]. destruct (c =? 10); [|done].
  rewrite !andb_true_iff, !Nat.ltb_lt. intros [? H]. split; [lia|]. by apply (IH _ (S n)); [lia|].
Qed.

Lemma runs_app n a b : runs_ok n (a ++ b) = true -> runs_ok n a = true /\ runs_ok 0 b = true.
Proof.
  revert n. induction a as [|c a IH]; intros n; cbn; [split; [done|by apply (runs_mono 0 n); [lia|]]|].
  destruct (c =? 10); [|apply IH]. rewrite !andb_true_iff. intros [H1 H2]. destruct (IH _ H2). done.
Qed.

Lemma runs_app_last n a y b : y <> 10 ->
  runs_ok n (a ++ [y]) = true -> runs_ok 0 b = true -> runs_ok n ((a ++ [y]) ++ b) = true.
Proof.
  intros Hy Ha Hb. revert n Ha. induction a as [|c a IH]; intros n; cbn.
  - by rewrite (proj2 (Z.eqb_neq y 10)).
  - destruct (c =? 10); [|apply IH]. rewrite !andb_true_iff. naive_solver.
Qed.

Lemma drop_ws_suffix s : exists a, s = a ++ drop_ws s.
Proof.
  induction s as [|c s [a Ha]]; cbn; [by exists []|]. destruct (is_ws c); [|by exists []].
  exists (c :: a). cbn. by rewrite <-Ha.
Qed.

Lemma drop_ws_head s : match drop_ws s with c :: _ => is_ws c = false | [] => True end.
Proof. induction s as [|c s IH]; cbn; [done|]. by destruct (is_ws c) eqn:E. Qed.

Lemma drop_ws_id s : match s with c :: _ => is_ws c = false | [] => True end -> drop_ws s = s.
Proof. destruct s as [|c s]; [done|]. cbn. by intros ->. Qed.

(** Trimmed text: what it is part of, and its ends. *)
Lemma trim_spec s :
  (exists a b, s = a ++ trim s ++ b) /\
  (trim s = [] \/ (exists c t, trim s = c :: t /\ is_ws c = false) /\ (exists t y, trim s = t ++ [y] /\ is_ws y = false)).
Proof.
  unfold trim. destruct (drop_ws_suffix s) as [a Ha]. pose proof (drop_ws_head s) as Hh.
  set (u := drop_ws s) in *. destruct (drop_ws_suffix (reverse u)) as [b Hb].
  pose proof (drop_ws_head (reverse u)) as Ht. set (v := drop_ws (reverse u)) in *.
  apply (f_equal reverse) in Hb. rewrite reverse_involutive, reverse_app in Hb. split.
  - exists a, (reverse b). by rewrite <-Hb.
  - destruct v as [|y v]; [by left|]. right. rewrite reverse_cons in *. split.
    + destruct (reverse v ++ [y]) as [|c t] eqn:E; [by apply app_nil in E as [_ ?]|].
      exists c, t. split; [done|]. rewrite Hb in Hh. done.
    + by exists (reverse v), y.
Qed.


Lemma trim_newlines b :
  (exists c t, b = c :: t /\ is_ws c = false) -> (exists t y, b = t ++ [y] /\ is_ws y = false) ->
  trim (b ++ [10; 10]) = b /\ trim b = b.
Proof.
  intros (c & t & Hc & Hwc) (t' & y & Hy & Hwy). unfold trim.
  assert (drop_ws (b ++ [10; 10]) = b ++ [10; 10]) as -> by (apply drop_ws_id; rewrite Hc; exact Hwc).
  assert (drop_ws b = b) as -> by (apply drop_ws_id; rewrite Hc; exact Hwc).
  assert (Hr : drop_ws (reverse b) = reverse b).
  { rewrite Hy, reverse_app. cbn [reverse rev_append app]. by apply drop_ws_id. }
  split; [|by rewrite Hr, reverse_involutive].
  rewrite reverse_app. change (reverse [10; 10]) with [10; 10]. cbn [app drop_ws].
  change (is_ws 10) with true. cbn iota. by rewrite Hr, reverse_involutive.
Qed.

Lemma strip_ends body namespace b : stripMarker body namespace = b ->
  runs_ok 0 b = true /\
  (b = [] \/ (exists c t, b = c :: t /\ is_ws c = false) /\ (exists t y, b = t ++ [y] /\ is_ws y = false)).
Proof.
  intros <-. unfold stripMarker. set (z := remove_markers _ _ _).
  destruct (trim_spec (collapse_newlines 0 z)) as [(p & q & Heq) Hends]. split; [|exact Hends].
  pose proof (collapse_runs 0 z) as Hr. rewrite Heq in Hr. apply runs_app in Hr as [_ Hr].
  by apply runs_app in Hr as [? _].
Qed.

Lemma remove_skip fuel namespace base r :
  namespace_ok namespace -> opening_free namespace base = true ->
  (exists r', drop_ws r = 60 :: r') ->
  remove_markers (length base + S fuel) namespace (base ++ 10 :: r) =
  base ++ 10 :: remove_markers fuel namespace r.
Proof.
  intros Hn Hfree Hr. induction base as [|c base IH].
  - cbn [app length Nat.add remove_markers]. rewrite markerRegex_opens; done.
  - cbn [opening_free] in Hfree. apply andb_true_iff in Hfree as [Ho Hfree]. apply negb_true_iff in Ho.
    change ((c :: base) ++ 10 :: r) with (c :: base ++ 10 :: r). cbn [length Nat.add remove_markers].
    rewrite markerRegex_opens; [by rewrite IH|done|].
    change (c :: base ++ 10 :: r) with ((c :: base) ++ 10 :: r). by rewrite opens_across.
Qed.

Lemma remove_marker fuel namespace fields :
  namespace_ok namespace -> fields_ok fields ->
  remove_markers (S fuel) namespace (marker_of namespace fields) = [].
Proof.
  intros Hn Hf. pose proof (markerRegex_marker namespace fields [] Hn Hf) as Hm. rewrite app_nil_r in Hm.
  cbn [remove_markers]. rewrite Hm. by destruct fuel.
Qed.

Lemma marker_head namespace fields : exists r', drop_ws (marker_of namespace fields) = 60 :: r'.
Proof. by eexists. Qed.

(** Stripping what [embedMarker] made gives the stripped text back. *)
Lemma strip_embedded body ref namespace m :
  namespace_ok namespace -> ref_ok ref ->
  opening_free namespace (stripMarker body namespace) = true ->
  embedMarker body ref namespace = Some m ->
  stripMarker m namespace = stripMarker body namespace.
Proof.
  intros Hn Href Hfree. unfold embedMarker.
  destruct (renderMarker ref namespace) as [marker|] eqn:Er; [|done]. cbn [mbind option_bind]. intros [= <-].
  destruct (renderMarker_spec _ _ _ Href Er) as (fields & -> & Hf & _).
  destruct (strip_ends body namespace _ eq_refl) as [Hruns Hends].
  set (base := stripMarker body namespace) in *. destruct base as [|c0 base0] eqn:Eb.
  - unfold stripMarker. pose proof (remove_marker) as Hrm.
    destruct (length (marker_of namespace fields)) eqn:El; [by unfold marker_of in El|].
    by rewrite Hrm.
  - destruct Hends as [|[Hhead Hlast]]; [done|]. rewrite <-Eb in *. clear c0 base0 Eb.
    unfold stripMarker at 1. change (base ++ [10; 10] ++ marker_of namespace fields)
      with (base ++ 10 :: 10 :: marker_of namespace fields).
    assert (length (base ++ 10 :: 10 :: marker_of namespace fields) =
      (length base + S (0 + S (length (marker_of namespace fields))))%nat) as ->.
    { rewrite length_app. cbn [length]. lia. }
    rewrite remove_skip by (try done; by apply marker_head).
    change (10 :: marker_of namespace fields) with ([] ++ 10 :: marker_of namespace fields).
    change (0 + S (length (marker_of namespace fields)))%nat
      with (length (@nil Z) + S (length (marker_of namespace fields)))%nat.
    rewrite remove_skip by (try done; by apply marker_head).
    destruct (length (marker_of namespace fields)) eqn:El; [by unfold marker_of in El|].
    rewrite remove_marker by done. change ([] ++ [10]) with [10].
    destruct Hlast as (t & y & Ht & Hy).
    assert (Hy10 : y <> 10) by (by intros ->).
    rewrite collapse_id.
    + apply trim_newlines; [done|by exists t, y].
    + rewrite Ht. apply runs_app_last; [done|by rewrite <-Ht|done].
Qed.

(** A copy names its original: when the text of the source
    record, stripped, opens no marker of its own, the body [embedMarker]
    renders is recognised by [hasMarker] and [parseMarker] reads from it
    exactly the reference that was embedded, whatever characters it has. *)
Theorem embed_parse body ref namespace m :
  namespace_ok namespace -> ref_ok ref ->
  opening_free namespace (stripMarker body namespace) = true ->
  embedMarker body ref namespace = Some m ->
  parseMarker m namespace = Some ref /\ hasMarker m namespace = true.
Proof.
  intros Hn Href Hfree. unfold embedMarker.
  destruct (renderMarker ref namespace) as [marker|] eqn:Er; [|done]. cbn [mbind option_bind]. intros [= <-].
  destruct (renderMarker_spec _ _ _ Href Er) as (fields & -> & Hf & l & Hl & Hs & Hk & Hi).
  set (base := stripMarker body namespace) in *.
  assert (Hex : exec namespace (match base with [] => marker_of namespace fields
                                | _ => base ++ 10 :: 10 :: marker_of namespace fields end) = Some fields).
  { pose proof (exec_marker namespace fields [] Hn Hf) as He. rewrite app_nil_r in He.
    destruct base as [|c base]; [done|].
    rewrite exec_skip by (try done; by apply marker_head).
    change (10 :: marker_of namespace fields) with ([] ++ 10 :: marker_of namespace fields).
    by rewrite exec_skip by (try done; by apply marker_head). }
  unfold parseMarker, hasMarker. rewrite Hex. cbn [mbind option_bind]. rewrite Hl. cbn [mbind option_bind].
  rewrite Hs, Hk, Hi. split; [by destruct ref|done].
Qed.

(** Markers do not stack: embedding into a body that was
    embedded before replaces its marker, and stripping recovers the visible
    text, again for text that opens no marker of its own. *)
Theorem embed_idempotent body ref ref' namespace m :
  namespace_ok namespace -> ref_ok ref ->
  opening_free namespace (stripMarker body namespace) = true ->
  embedMarker body ref namespace = Some m ->
  stripMarker m namespace = stripMarker body namespace /\
  embedMarker m ref' namespace = embedMarker body ref' namespace.
Proof.
  intros Hn Href Hfree Hm. pose proof (strip_embedded _ _ _ _ Hn Href Hfree Hm) as Hs.
  split; [done|]. unfold embedMarker. by rewrite Hs.
Qed.

(** ** Witnesses and the limits of the hypothesis *)

Definition example_ref : OriginRef := mkRef (js "octo/hello world") (js "issue") (js "12>=3").
Definition example_body : jstr := js "Fix <!-- this --> & that  ".

Lemma example_hyps :
  namespace_ok DEFAULT_NAMESPACE /\ ref_ok example_ref /\
  opening_free DEFAULT_NAMESPACE (stripMarker example_body DEFAULT_NAMESPACE) = true.
Proof.
  split; [unfold namespace_ok; by_decide|]. split; [|by vm_compute].
  repeat split; unfold text_ok; by_decide.
Qed.

Lemma embed_parse_witness : exists m,
  embedMarker example_body example_ref DEFAULT_NAMESPACE = Some m /\
  parseMarker m DEFAULT_NAMESPACE = Some example_ref /\ hasMarker m DEFAULT_NAMESPACE = true.
Proof.
  destruct example_hyps as (H1 & H2 & H3).
  eexists. split; [vm_compute; reflexivity|].
  apply (embed_parse example_body example_ref DEFAULT_NAMESPACE _ H1 H2 H3). vm_compute. reflexivity.
Defined.

Lemma embed_idempotent_witness : exists m,
  embedMarker example_body example_ref DEFAULT_NAMESPACE = Some m /\
  stripMarker m DEFAULT_NAMESPACE = js "Fix <!-- this --> & that".
Proof.
  destruct example_hyps as (H1 & H2 & H3).
  eexists. split; [vm_compute; reflexivity|].
  rewrite (proj1 (embed_idempotent example_body example_ref example_ref DEFAULT_NAMESPACE _ H1 H2 H3
    ltac:(vm_compute; reflexivity))). by vm_compute.
Defined.

(** [stripMarker] is one pass: what is left when a marker inside another one
    is taken out can be a marker again, which is then found before the one
    that [embedMarker] appends. *)
Definition forged_body : jstr :=
  js "<!-- devonian:ori<!-- devonian:origin x -->gin system=other kind=issue id=1 -->".

Example strip_forged :
  hasMarker (stripMarker forged_body DEFAULT_NAMESPACE) DEFAULT_NAMESPACE = true /\
  (embedMarker forged_body example_ref DEFAULT_NAMESPACE ≫= fun m => parseMarker m DEFAULT_NAMESPACE) =
    Some (mkRef (js "other") (js "issue") (js "1")).
Proof. by vm_compute. Qed.

(** An opening that the body does not close runs into the appended marker: a
    bare percent sign in it makes the whole marker unreadable. *)
Example embed_unclosed :
  (embedMarker (js "see <!-- devonian:origin 100=%") example_ref DEFAULT_NAMESPACE
     ≫= fun m => parseMarker m DEFAULT_NAMESPACE) = None.
Proof. by vm_compute. Qed.
