(* ===== verification/IdMap.v ===== *)
(** * The map of reflected pairs

    Models [src/devonian/src/reflect/id-map.ts] and the in-memory store of
    [src/devonian/src/reflect/kv-store.ts].  The map is keyed by the text
    [kind system id] and its keys are split at spaces again: what is proved of
    it is for names without the separators ([name_ok]).  The file-backed
    variants ([file.ts]) write [entries()] and [load] it again, which is
    [idmap_reload]; the file system is not modelled. *)
From S2P Require Import Prelude Text Collections.
Local Open Scope Z_scope.

(* src: devonian/src/reflect/id-map.ts 1-5 Link *)
Record Link := mkLink { l_system : jstr; l_id : jstr }.
#[global] Instance Link_eq_dec : EqDecision Link.
Proof. solve_decision. Defined.

Abbreviation link_map := (list (jstr * Link)).

(* src: devonian/src/reflect/id-map.ts 25-27 key *)
Definition key (kind system id : jstr) : jstr := kind ++ js " " ++ system ++ js " " ++ id.

(* src: devonian/src/reflect/id-map.ts 33-35 counterpart *)
Definition counterpart (m : link_map) (kind system id : jstr) : option Link := jget (key kind system id) m.

(* src: devonian/src/reflect/id-map.ts 41-50 record *)
Definition record (m : link_map) (kind : jstr) (a b : Link) : link_map :=
  jset (key kind (l_system b) (l_id b)) a (jset (key kind (l_system a) (l_id a)) b m).

(* src: devonian/src/reflect/id-map.ts 37-39 link ! *)
Definition link (m : link_map) (kind : jstr) (a b : Link) : link_map := record m kind a b.

Record Entry := mkEntry { e_kind : jstr; e_a : Link; e_b : Link }.

Definition end_text (l : Link) : jstr := l_system l ++ js ":" ++ l_id l.

(** [`${kind}|${[...].sort().join('|')}`]. *)
Definition pair_id (e : Entry) : jstr :=
  e_kind e ++ js "|" ++ join_str (js "|") (sort_by jcmp [end_text (e_a e); end_text (e_b e)]).

(** The entry of one key and value of the map: [k.split(' ')]. *)
Definition entry_of (p : jstr * Link) : Entry :=
  let pieces := split_str (js " ") p.1 in
  mkEntry (nth 0 pieces []) (mkLink (nth 1 pieces []) (nth 2 pieces [])) p.2.

(** The loop of [entries], over [seen] and [out]. *)
Definition entries_step (st : list jstr * list Entry) (p : jstr * Link) : list jstr * list Entry :=
  let e := entry_of p in
  if bool_decide (pair_id e ∈ st.1) then st else (st.1 ++ [pair_id e], st.2 ++ [e]).

(* src: devonian/src/reflect/id-map.ts 58-75 entries *)
Definition entries (m : link_map) : list Entry := (fold_left entries_step m ([], [])).2.

(* src: devonian/src/reflect/id-map.ts 52-56 links ! *)
Definition links (m : link_map) (kind : jstr) : list (Link * Link) :=
  map (fun e => (e_a e, e_b e)) (List.filter (fun e => jeqb (e_kind e) kind) (entries m)).

(* src: devonian/src/reflect/id-map.ts 77-81 load *)
Definition load (m : link_map) (es : list Entry) : link_map :=
  fold_left (fun m e => record m (e_kind e) (e_a e) (e_b e)) es m.

(** ** Names *)

Definition name_ok (s : jstr) : Prop := Forall (fun c => c <> 32 /\ c <> 58 /\ c <> 124) s.
Definition link_ok (l : Link) : Prop := name_ok (l_system l) /\ name_ok (l_id l).

Lemma name_sep s c : name_ok s -> c = 32 \/ c = 58 \/ c = 124 -> Forall (fun x => x <> c) s.
Proof. intros Hs Hc. eapply Forall_impl; [exact Hs|]. naive_solver. Qed.

Lemma split_key kind l : name_ok kind -> link_ok l ->
  split_str (js " ") (key kind (l_system l) (l_id l)) = [kind; l_system l; l_id l].
Proof.
  intros Hk [Hs Hi]. change (key kind (l_system l) (l_id l)) with (join_str [32] [kind; l_system l; l_id l]).
  apply split_join_char; [done|]. repeat constructor; apply name_sep; tauto.
Qed.

Lemma entry_of_key kind l b : name_ok kind -> link_ok l ->
  entry_of (key kind (l_system l) (l_id l), b) = mkEntry kind l b.
Proof. intros Hk Hl. unfold entry_of. cbn [fst snd]. rewrite split_key by done. by destruct l. Qed.

Lemma key_inj kind l kind' l' : name_ok kind -> link_ok l -> name_ok kind' -> link_ok l' ->
  key kind (l_system l) (l_id l) = key kind' (l_system l') (l_id l') -> kind = kind' /\ l = l'.
Proof.
  intros Hk Hl Hk' Hl' Heq. apply (f_equal (split_str (js " "))) in Heq.
  rewrite !split_key in Heq by done. injection Heq as -> Hs Hi. split; [done|].
  destruct l, l'. cbn in *. by subst.
Qed.

Lemma end_text_inj a b : link_ok a -> link_ok b -> end_text a = end_text b -> a = b.
Proof.
  intros [Ha Hai] [Hb Hbi] Heq. apply (f_equal (split_str [58])) in Heq.
  change (end_text a) with (join_str [58] [l_system a; l_id a]) in Heq.
  change (end_text b) with (join_str [58] [l_system b; l_id b]) in Heq.
  rewrite !split_join_char in Heq; try done; try (repeat constructor; apply name_sep; tauto).
  injection Heq as Hs Hi. destruct a, b. cbn in *. by subst.
Qed.

Lemma sort_two (x y : jstr) : sort_by jcmp [x; y] = [x; y] \/ sort_by jcmp [x; y] = [y; x].
Proof. unfold sort_by. cbn. destruct (jcmp x y <=? 0); [by left|by right]. Qed.

Definition entry_ok (e : Entry) : Prop := name_ok (e_kind e) /\ link_ok (e_a e) /\ link_ok (e_b e).

Lemma end_text_sep l : link_ok l -> Forall (fun x => x <> 124) (end_text l).
Proof.
  intros [Hs Hi]. apply Forall_app. split; [apply name_sep; tauto|]. constructor; [done|].
  apply name_sep; tauto.
Qed.

(** The text of a pair tells the kind and the two ends, whatever their order. *)
Lemma pair_id_inj e e' : entry_ok e -> entry_ok e' -> pair_id e = pair_id e' ->
  e_kind e = e_kind e' /\
  (e_a e = e_a e' /\ e_b e = e_b e' \/ e_a e = e_b e' /\ e_b e = e_a e').
Proof.
  assert (Hsplit : forall e, entry_ok e -> split_str [124] (pair_id e) =
    e_kind e :: sort_by jcmp [end_text (e_a e); end_text (e_b e)]).
  { intros x (Hk & Ha & Hb). pose proof (end_text_sep _ Ha). pose proof (end_text_sep _ Hb).
    assert (Hks : Forall (fun x => x <> 124) (e_kind x)) by (apply name_sep; tauto).
    unfold pair_id. destruct (sort_two (end_text (e_a x)) (end_text (e_b x))) as [-> | ->].
    - change (_ ++ js "|" ++ _) with (join_str [124] [e_kind x; end_text (e_a x); end_text (e_b x)]).
      apply split_join_char; [done|]. by repeat constructor.
    - change (_ ++ js "|" ++ _) with (join_str [124] [e_kind x; end_text (e_b x); end_text (e_a x)]).
      apply split_join_char; [done|]. by repeat constructor. }
  intros He He' Heq. apply (f_equal (split_str [124])) in Heq. rewrite !Hsplit in Heq by done.
  destruct He as (_ & Ha & Hb), He' as (_ & Ha' & Hb'). injection Heq as Hk Heq. split; [done|].
  destruct (sort_two (end_text (e_a e)) (end_text (e_b e))) as [E|E],
    (sort_two (end_text (e_a e')) (end_text (e_b e'))) as [E'|E'];
    rewrite E, E' in Heq; injection Heq as H1 H2;
    apply end_text_inj in H1, H2; try done; naive_solver.
Qed.


Lemma pair_id_sym kind a b : pair_id (mkEntry kind a b) = pair_id (mkEntry kind b a).
Proof.
  unfold pair_id. cbn [e_kind e_a e_b]. do 3 f_equal. generalize (end_text a) (end_text b). intros x y.
  unfold sort_by. cbn [foldl insert_by].
  destruct (jcmp x y <=? 0) eqn:E1, (jcmp y x <=? 0) eqn:E2; try done; breflect.
  - destruct (decide (x = y)) as [->|Hne]; [done|]. pose proof (jcmp_lt _ _ E1 Hne) as H.
    apply jcmp_le in E2. unfold jlt in H. congruence.
  - destruct (jcmp_total x y); lia.
Qed.

(** ** Linking *)

Lemma counterpart_record m kind a b kind' l :
  counterpart (record m kind a b) kind' (l_system l) (l_id l) =
  if decide (key kind' (l_system l) (l_id l) = key kind (l_system b) (l_id b)) then Some a
  else if decide (key kind' (l_system l) (l_id l) = key kind (l_system a) (l_id a)) then Some b
  else counterpart m kind' (l_system l) (l_id l).
Proof. unfold counterpart, record. by rewrite !jget_jset. Qed.

Lemma counterpart_link m kind a b kind' l :
  name_ok kind -> link_ok a -> link_ok b -> name_ok kind' -> link_ok l ->
  counterpart (link m kind a b) kind' (l_system l) (l_id l) =
  if decide (kind' = kind /\ l = b) then Some a
  else if decide (kind' = kind /\ l = a) then Some b
  else counterpart m kind' (l_system l) (l_id l).
Proof.
  intros. unfold link. rewrite counterpart_record.
  destruct (decide (key _ _ _ = key _ (l_system b) _)) as [E|E].
  - apply key_inj in E; try done. by rewrite decide_True.
  - rewrite (decide_False (P := kind' = kind /\ l = b)) by naive_solver.
    destruct (decide (key _ _ _ = key _ (l_system a) _)) as [E'|E'].
    + apply key_inj in E'; try done. by rewrite decide_True.
    + by rewrite decide_False by naive_solver.
Qed.

(** Linking makes each end the counterpart of the other and
    leaves every other record's counterpart, of this kind and of any other, as
    it was. *)
Theorem idmap_link m kind a b kind' l :
  name_ok kind -> link_ok a -> link_ok b -> name_ok kind' -> link_ok l ->
  counterpart (link m kind a b) kind (l_system a) (l_id a) = Some b /\
  counterpart (link m kind a b) kind (l_system b) (l_id b) = Some a /\
  (kind' <> kind \/ l <> a /\ l <> b ->
   counterpart (link m kind a b) kind' (l_system l) (l_id l) = counterpart m kind' (l_system l) (l_id l)).
Proof.
  intros Hk Ha Hb Hk' Hl. rewrite !counterpart_link by done. split; [|split].
  - destruct (decide (kind = kind /\ a = b)) as [[_ ->]|]; [done|]. by rewrite decide_True.
  - by rewrite decide_True.
  - intros Hne. rewrite !decide_False by naive_solver. done.
Qed.

(** ** Reachable maps *)

(** Maps in which a record is linked at most with one other, as the engine
    links them. *)
Inductive linked : link_map -> Prop :=
| linked_new : linked []
| linked_link m kind a b :
    linked m -> name_ok kind -> link_ok a -> link_ok b ->
    counterpart m kind (l_system a) (l_id a) ∈ [None; Some b] ->
    counterpart m kind (l_system b) (l_id b) ∈ [None; Some a] ->
    linked (link m kind a b).

Record paired (m : link_map) : Prop := {
  paired_keys : forall k b, (k, b) ∈ m ->
    exists kind a, name_ok kind /\ link_ok a /\ link_ok b /\ k = key kind (l_system a) (l_id a);
  paired_sym : forall kind a b, name_ok kind -> link_ok a ->
    counterpart m kind (l_system a) (l_id a) = Some b ->
    counterpart m kind (l_system b) (l_id b) = Some a;
  paired_nodup : NoDup (jkeys m);
}.

Lemma jset_elem {V} (k k' : jstr) (v v' : V) m : (k', v') ∈ jset k v m -> (k', v') = (k, v) \/ (k', v') ∈ m.
Proof.
  induction m as [|[x w] m IH]; cbn [jset].
  - rewrite list_elem_of_singleton. by left.
  - destruct (decide (k = x)) as [->|]; rewrite !elem_of_cons; naive_solver.
Qed.

Lemma paired_counterpart m kind a b : paired m -> counterpart m kind (l_system a) (l_id a) = Some b -> link_ok b.
Proof.
  intros Hm Hc. unfold counterpart in Hc. apply jget_elem in Hc; [|by apply paired_nodup].
  by apply (paired_keys m Hm) in Hc as (? & ? & ? & ? & ? & _).
Qed.

Lemma linked_paired m : linked m -> paired m.
Proof.
  induction 1 as [|m kind a b _ IH Hk Ha Hb Hca Hcb].
  - split; [by intros ? ? ?%elem_of_nil|done|constructor].
  - split.
    + intros k l [[= -> ->]|[[= -> ->]|Hin]%jset_elem]%jset_elem; [by exists kind, b|by exists kind, a|].
      by apply (paired_keys m IH).
    + intros kind' l x Hk' Hl. rewrite counterpart_link by done.
      destruct (decide (kind' = kind /\ l = b)) as [[-> ->]|Hnb].
      { intros [= <-]. rewrite counterpart_link by done. case_decide as Hd; [by destruct Hd as [_ ->]|].
        by rewrite decide_True. }
      destruct (decide (kind' = kind /\ l = a)) as [[-> ->]|Hna].
      { intros [= <-]. rewrite counterpart_link by done. by rewrite decide_True. }
      intros Hc. pose proof (paired_counterpart _ _ _ _ IH Hc) as Hx.
      pose proof (paired_sym m IH _ _ _ Hk' Hl Hc) as Hs. rewrite counterpart_link by done.
      destruct (decide (kind' = kind /\ x = b)) as [[-> ->]|_].
      { rewrite Hs in Hcb. set_solver. }
      destruct (decide (kind' = kind /\ x = a)) as [[-> ->]|_]; [|done].
      rewrite Hs in Hca. set_solver.
    + unfold link, record. apply jset_nodup, jset_nodup, (paired_nodup m IH).
Qed.

(** ** Entries *)

Lemma entries_loop m :
  let st := fold_left entries_step m ([], []) in
  st.1 = map pair_id st.2 /\ NoDup st.1 /\ (forall e, e ∈ st.2 -> exists p, p ∈ m /\ e = entry_of p) /\
  (forall p, p ∈ m -> pair_id (entry_of p) ∈ st.1).
Proof.
  cbn zeta. induction m as [|p m IH] using rev_ind.
  { cbn. split_and!; [done|constructor|by intros ? ?%elem_of_nil|by intros ? ?%elem_of_nil]. }
  rewrite fold_left_app. cbn [fold_left].
  destruct (fold_left entries_step m ([], [])) as [seen out]. cbn [fst snd] in IH.
  destruct IH as (Hseen & Hnd & Hout & Hall). unfold entries_step. cbn [fst snd].
  case_bool_decide as Hin; cbn [fst snd].
  - split_and!; [done|done| |].
    + intros e (q & Hq & ->)%Hout. exists q. split; [|done]. apply elem_of_app. by left.
    + intros q [Hq| ->%list_elem_of_singleton]%elem_of_app; [by apply Hall|done].
  - split_and!.
    + rewrite map_app. by subst seen.
    + apply NoDup_app. split; [done|]. split; [|apply NoDup_singleton].
      by intros x Hx ->%list_elem_of_singleton.
    + intros e [(q & Hq & ->)%Hout| ->%list_elem_of_singleton]%elem_of_app.
      * exists q. split; [|done]. apply elem_of_app. by left.
      * exists p. split; [|done]. apply elem_of_app. right. by left.
    + intros q [Hq| ->%list_elem_of_singleton]%elem_of_app; apply elem_of_app; [left; by apply Hall|right; by left].
Qed.

Lemma entries_sound m e : paired m -> e ∈ entries m ->
  entry_ok e /\ counterpart m (e_kind e) (l_system (e_a e)) (l_id (e_a e)) = Some (e_b e).
Proof.
  intros Hm He. destruct (entries_loop m) as (_ & _ & Hout & _).
  destruct (Hout e He) as ([k b] & Hp & ->). pose proof Hp as Hp'.
  apply (paired_keys m Hm) in Hp' as (kind & a & Hk & Ha & Hb & ->). rewrite entry_of_key by done.
  split; [done|]. cbn [e_kind e_a e_b]. unfold counterpart. apply jget_elem; [by apply paired_nodup|done].
Qed.

Lemma entries_complete m kind a b : paired m -> name_ok kind -> link_ok a ->
  counterpart m kind (l_system a) (l_id a) = Some b ->
  mkEntry kind a b ∈ entries m \/ mkEntry kind b a ∈ entries m.
Proof.
  intros Hm Hk Ha Hc. pose proof (paired_counterpart _ _ _ _ Hm Hc) as Hb.
  unfold counterpart in Hc. apply jget_elem in Hc; [|by apply paired_nodup].
  destruct (entries_loop m) as (Hseen & _ & _ & Hall). specialize (Hall _ Hc).
  rewrite entry_of_key, Hseen in Hall by done.
  apply list_elem_of_fmap in Hall as (e & Heq & He). fold (entries m) in He.
  destruct (entries_sound m e Hm He) as [Hok _].
  apply pair_id_inj in Heq as (Hkind & Hends); [|done|done]. cbn [e_kind e_a e_b] in *.
  destruct e as [k x y]. cbn in *. subst k. destruct Hends as [[<- <-]|[<- <-]]; [by left|by right].
Qed.

Lemma entries_once m kind a b : paired m ->
  mkEntry kind a b ∈ entries m -> mkEntry kind b a ∈ entries m -> a = b.
Proof.
  intros Hm H1 H2. destruct (entries_loop m) as (Hseen & Hnd & _ & _).
  fold (entries m) in *. rewrite Hseen in Hnd. revert H1 H2 Hnd. generalize (entries m). intros l H1 H2 Hnd.
  apply list_elem_of_lookup in H1 as [i Hi], H2 as [j Hj].
  assert (i = j) as ->.
  { apply (NoDup_lookup _ i j (pair_id (mkEntry kind a b)) Hnd).
    - change (map pair_id l) with (pair_id <$> l). by rewrite list_lookup_fmap, Hi.
    - change (map pair_id l) with (pair_id <$> l). by rewrite list_lookup_fmap, Hj, pair_id_sym. }
  rewrite Hi in Hj. by injection Hj.
Qed.

Lemma links_elem m kind a b : (a, b) ∈ links m kind <-> mkEntry kind a b ∈ entries m.
Proof.
  unfold links. rewrite list_elem_of_fmap. split.
  - intros ([k x y] & [= -> ->] & Hin). apply list_elem_of_In, filter_In in Hin as [Hin Hk].
    apply bool_decide_eq_true in Hk. cbn in Hk. subst k. by apply list_elem_of_In.
  - intros Hin. exists (mkEntry kind a b). split; [done|]. apply list_elem_of_In, filter_In.
    split; [by apply list_elem_of_In|]. by apply bool_decide_eq_true.
Qed.

(** [links] lists every reflected pair exactly once: two
    records are counterparts just when the pair is listed, in one order or
    the other and never in both. *)
Theorem idmap_links m kind a b :
  linked m -> name_ok kind -> link_ok a ->
  (counterpart m kind (l_system a) (l_id a) = Some b <-> (a, b) ∈ links m kind \/ (b, a) ∈ links m kind) /\
  ((a, b) ∈ links m kind -> (b, a) ∈ links m kind -> a = b).
Proof.
  intros Hm%linked_paired Hk Ha. rewrite !links_elem. split; [|by apply entries_once]. split.
  - by apply entries_complete.
  - intros [Hin|Hin]; apply entries_sound in Hin as [(_ & Hok & _) Hc]; try done.
    cbn in *. by apply (paired_sym m Hm) in Hc.
Qed.

Lemma load_sound m es kind l b : paired m ->
  Forall (fun e => entry_ok e /\ counterpart m (e_kind e) (l_system (e_a e)) (l_id (e_a e)) = Some (e_b e)) es ->
  name_ok kind -> link_ok l ->
  counterpart (load [] es) kind (l_system l) (l_id l) = Some b ->
  counterpart m kind (l_system l) (l_id l) = Some b.
Proof.
  intros Hm Hall Hk Hl. unfold load. revert Hall. induction es as [|e es IH] using rev_ind; intros Hall; [done|].
  rewrite fold_left_app. cbn [fold_left]. apply Forall_app in Hall as [Hall He].
  apply Forall_cons in He as [[(Hek & Hea & Heb) Hec] _].
  change (record ?x ?y ?z ?w) with (link x y z w). rewrite counterpart_link by done.
  case_decide as H1; [destruct H1 as [-> ->]; intros [= <-]; by apply (paired_sym m Hm)|].
  case_decide as H2; [destruct H2 as [-> ->]; by intros [= <-]|]. by apply IH.
Qed.

Lemma load_complete es e : Forall entry_ok es -> e ∈ es ->
  is_Some (counterpart (load [] es) (e_kind e) (l_system (e_a e)) (l_id (e_a e))) /\
  is_Some (counterpart (load [] es) (e_kind e) (l_system (e_b e)) (l_id (e_b e))).
Proof.
  intros Hall. unfold load. revert Hall. induction es as [|x es IH] using rev_ind; intros Hall Hin;
    [by apply elem_of_nil in Hin|].
  rewrite fold_left_app. cbn [fold_left]. apply Forall_app in Hall as [Hall Hx].
  apply Forall_cons in Hx as [(Hxk & Hxa & Hxb) _].
  change (record ?x ?y ?z ?w) with (link x y z w).
  apply elem_of_app in Hin as [Hin| ->%list_elem_of_singleton].
  - pose proof (proj1 (Forall_forall _ _) Hall e Hin) as (Hek & Hea & Heb).
    destruct (IH Hall Hin) as [H1 H2]. rewrite !counterpart_link by done.
    split; repeat case_decide; try done; by eexists.
  - rewrite !counterpart_link by done. split; repeat case_decide; try done; try by eexists. all: naive_solver.
Qed.

(** What is persisted is the whole map: loading the entries
    of a map into an empty one gives every record the counterpart it had. *)
Theorem idmap_reload m kind l :
  linked m -> name_ok kind -> link_ok l ->
  counterpart (load [] (entries m)) kind (l_system l) (l_id l) = counterpart m kind (l_system l) (l_id l).
Proof.
  intros Hm%linked_paired Hk Hl.
  assert (Hall : Forall (fun e => entry_ok e /\
    counterpart m (e_kind e) (l_system (e_a e)) (l_id (e_a e)) = Some (e_b e)) (entries m)).
  { apply Forall_forall. intros e He. by apply entries_sound. }
  destruct (counterpart (load [] (entries m)) kind _ _) as [b|] eqn:Hc.
  { symmetry. by apply (load_sound m (entries m)). }
  destruct (counterpart m kind _ _) as [b|] eqn:Hb; [|done].
  assert (Hok : Forall entry_ok (entries m)) by (eapply Forall_impl; [exact Hall|by intros e [? _]]).
  destruct (entries_complete m kind l b) as [Hin|Hin]; try done;
    destruct (load_complete _ _ Hok Hin) as [[x Hx] [y Hy]]; cbn in *; congruence.
Qed.

Definition example_map : link_map :=
  link (link [] (js "issue") (mkLink (js "octo/a") (js "7")) (mkLink (js "octo/b") (js "12")))
    (js "comment") (mkLink (js "octo/a") (js "90")) (mkLink (js "octo/b") (js "91")).

Lemma example_linked : linked example_map.
Proof.
  repeat apply linked_link; try (by_decide || (split; by_decide) || (by vm_compute; left)).
Qed.

Lemma idmap_link_witness :
  counterpart example_map (js "issue") (js "octo/b") (js "12") = Some (mkLink (js "octo/a") (js "7")).
Proof.
  etransitivity; [refine (proj2 (proj2 (idmap_link
    (link [] (js "issue") (mkLink (js "octo/a") (js "7")) (mkLink (js "octo/b") (js "12")))
    (js "comment") (mkLink (js "octo/a") (js "90")) (mkLink (js "octo/b") (js "91"))
    (js "issue") (mkLink (js "octo/b") (js "12"))
    ltac:(by_decide) ltac:(split; by_decide) ltac:(split; by_decide) ltac:(by_decide) ltac:(split; by_decide)))
    _); left; by_decide|by vm_compute].
Defined.

Lemma idmap_links_witness :
  (mkLink (js "octo/a") (js "7"), mkLink (js "octo/b") (js "12")) ∈ links example_map (js "issue") \/
  (mkLink (js "octo/b") (js "12"), mkLink (js "octo/a") (js "7")) ∈ links example_map (js "issue").
Proof.
  apply (idmap_links example_map (js "issue") (mkLink (js "octo/a") (js "7")) (mkLink (js "octo/b") (js "12"))
    example_linked ltac:(by_decide) ltac:(split; by_decide)). by vm_compute.
Defined.

Lemma idmap_reload_witness :
  counterpart (load [] (entries example_map)) (js "comment") (js "octo/b") (js "91") =
  Some (mkLink (js "octo/a") (js "90")).
Proof.
  etransitivity; [exact (idmap_reload example_map (js "comment") (mkLink (js "octo/b") (js "91"))
    example_linked ltac:(by_decide) ltac:(split; by_decide))|by vm_compute].
Defined.

(** A space in a system's name is read as a separator: the pair comes back
    under another name. *)
Example links_space :
  links (link [] (js "issue") (mkLink (js "my repo") (js "7")) (mkLink (js "b") (js "12"))) (js "issue") =
  [(mkLink (js "my") (js "repo"), mkLink (js "b") (js "12"));
   (mkLink (js "b") (js "12"), mkLink (js "my repo") (js "7"))].
Proof. by vm_compute. Qed.
