(* ===== verification/Events.v ===== *)
(** * The event emitter

    Models [src/devonian/src/events.ts].  Functions are compared by identity:
    a function is one of the user's ([User]) or one of the wrappers [once]
    made ([Wrap]), whose closure is in [wrappers].  What a user's function does
    when it is called is a parameter [act], on the arguments and the emitter,
    which it may use as it likes (register, remove, emit); it may throw.  A
    method that throws has done what it did before: the error carries the
    emitter. *)
From S2P Require Import Prelude Text Collections.
Local Open Scope Z_scope.

Section Emitter.
Context {Val : Type}.

Inductive fn :=
| User (n : nat)
| Wrap (k : nat).
#[global] Instance fn_eq_dec : EqDecision fn.
Proof. solve_decision. Defined.

Abbreviation EventName := (jstr).

(* src: devonian/src/events.ts 25-29 Registered *)
Record Registered := mkRegistered { listener : fn; wrapper : option fn }.

(* src: devonian/src/events.ts 31-34 State *)
Record State := mkState {
  events : list (EventName * list Registered);
  maxListeners : Z;
  wrappers : list (EventName * fn);
}.

(** What [emit] throws: the error it was given, or a new one. *)
Inductive Exn :=
| Thrown (v : Val)
| Unhandled (message : jstr).

(** [err instanceof Error] and [String(err)] of the first argument. *)
Context (is_error : Val -> bool) (to_string : option Val -> jstr).
Context (act : nat -> list Val -> State -> res (Exn * State) State).

(* src: devonian/src/events.ts 36-45 state ! *)
Definition new_state : State := mkState [] 10 [].

Definition set_events (st : State) (es : list (EventName * list Registered)) : State :=
  mkState es (maxListeners st) (wrappers st).

Definition registered (st : State) (eventName : EventName) : list Registered :=
  default [] (jget eventName (events st)).

(* src: devonian/src/events.ts 47-61 register *)
Definition register (st : State) (eventName : EventName) (entry : Registered) (prepend : bool) : State :=
  let list_ := registered st eventName in
  set_events st (jset eventName (if prepend then entry :: list_ else list_ ++ [entry]) (events st)).

(** The wrapper is a new function object: the next closure. *)
(* src: devonian/src/events.ts 63-75 onceEntry *)
Definition onceEntry (st : State) (eventName : EventName) (l : fn) : State * Registered :=
  (mkState (events st) (maxListeners st) (wrappers st ++ [(eventName, l)]),
   mkRegistered l (Some (Wrap (length (wrappers st))))).

(* src: devonian/src/events.ts 88-91 addListener *)
Definition addListener (st : State) (eventName : EventName) (l : fn) : State :=
  register st eventName (mkRegistered l None) false.

(* src: devonian/src/events.ts 84-86 on *)
Definition on (st : State) (eventName : EventName) (l : fn) : State := addListener st eventName l.

(* src: devonian/src/events.ts 93-96 prependListener *)
Definition prependListener (st : State) (eventName : EventName) (l : fn) : State :=
  register st eventName (mkRegistered l None) true.

(* src: devonian/src/events.ts 98-101 once *)
Definition once (st : State) (eventName : EventName) (l : fn) : State :=
  let '(st', entry) := onceEntry st eventName l in register st' eventName entry false.

(* src: devonian/src/events.ts 103-106 prependOnceListener *)
Definition prependOnceListener (st : State) (eventName : EventName) (l : fn) : State :=
  let '(st', entry) := onceEntry st eventName l in register st' eventName entry true.

Definition matches (l : fn) (entry : Registered) : bool :=
  bool_decide (listener entry = l) || bool_decide (wrapper entry = Some l).

(** The loop from the end: the last matching registration goes. *)
Fixpoint remove_last (l : fn) (rev_list : list Registered) : list Registered :=
  match rev_list with
  | [] => []
  | e :: rest => if matches l e then rest else e :: remove_last l rest
  end.

(* src: devonian/src/events.ts 112-130 removeListener *)
Definition removeListener (st : State) (eventName : EventName) (l : fn) : State :=
  match jget eventName (events st) with
  | None => st
  | Some list_ =>
      match reverse (remove_last l (reverse list_)) with
      | [] => set_events st (jdelete eventName (events st))
      | list' => set_events st (jset eventName list' (events st))
      end
  end.

(* src: devonian/src/events.ts 108-110 off *)
Definition off (st : State) (eventName : EventName) (l : fn) : State := removeListener st eventName l.

(* src: devonian/src/events.ts 132-140 removeAllListeners *)
Definition removeAllListeners (st : State) (eventName : option EventName) : State :=
  match eventName with
  | None => set_events st []
  | Some n => set_events st (jdelete n (events st))
  end.

(** Calling a function.  A wrapper removes its listener and calls it; the
    listener may itself be a wrapper, made before it, so that the number of
    wrappers bounds the depth. *)
Fixpoint call (fuel : nat) (f : fn) (args : list Val) (st : State) : res (Exn * State) State :=
  match f with
  | User n => act n args st
  | Wrap k =>
      match fuel, wrappers st !! k with
      | S fuel', Some (eventName, l) => call fuel' l args (removeListener st eventName l)
      | _, _ => Ok st
      end
  end.

Definition called (e : Registered) : fn := default (listener e) (wrapper e).

(* src: devonian/src/events.ts 142-160 emit *)
Definition emit (st : State) (eventName : EventName) (args : list Val) : res (Exn * State) (bool * State) :=
  match registered st eventName with
  | [] =>
      if jeqb eventName (js "error") then
        match args with
        | v :: _ => if is_error v then Err (Thrown v, st)
                    else Err (Unhandled (js "Unhandled error. (" ++ to_string (Some v) ++ js ")"), st)
        | [] => Err (Unhandled (js "Unhandled error. (" ++ to_string None ++ js ")"), st)
        end
      else Ok (false, st)
  | list_ =>
      st' ← foldM (fun st e => call (S (length (wrappers st))) (called e) args st) st list_;
      Ok (true, st')
  end.

(* src: devonian/src/events.ts 162-170 listenerCount *)
Definition listenerCount (st : State) (eventName : EventName) (l : option fn) : nat :=
  match l with
  | None => length (registered st eventName)
  | Some l => length (List.filter (matches l) (registered st eventName))
  end.

(* src: devonian/src/events.ts 172-177 listeners *)
Definition listeners (st : State) (eventName : EventName) : list fn := map listener (registered st eventName).

(* src: devonian/src/events.ts 179-184 rawListeners *)
Definition rawListeners (st : State) (eventName : EventName) : list fn := map called (registered st eventName).

(* src: devonian/src/events.ts 186-188 eventNames *)
Definition eventNames (st : State) : list EventName := jkeys (events st).

(* src: devonian/src/events.ts 190-193 setMaxListeners *)
Definition setMaxListeners (st : State) (n : Z) : State := mkState (events st) n (wrappers st).

(* src: devonian/src/events.ts 195-197 getMaxListeners *)
Definition getMaxListeners (st : State) : Z := maxListeners st.
End Emitter.

(** ** The list of one event *)

Section Properties.
Context {Val : Type}.
Implicit Types st : State.

(** No event is kept with an empty list, and none twice. *)
Definition emitter_ok st : Prop :=
  NoDup (jkeys (events st)) /\ forall n l, jget n (events st) = Some l -> l <> [].

Lemma registered_get st n : emitter_ok st ->
  jget n (events st) = match registered st n with [] => None | l => Some l end.
Proof.
  intros [_ Hne]. unfold registered. destruct (jget n (events st)) as [l|] eqn:E; [|done]. cbn.
  destruct l; [by apply Hne in E|done].
Qed.

Lemma registered_register st n entry prepend n' :
  registered (register st n entry prepend) n' =
  if decide (n' = n) then if prepend then entry :: registered st n else registered st n ++ [entry]
  else registered st n'.
Proof.
  unfold register. unfold registered at 1. cbn [events set_events]. rewrite jget_jset.
  by destruct (decide (n' = n)).
Qed.

Lemma registered_remove st n l n' : NoDup (jkeys (events st)) ->
  registered (removeListener st n l) n' =
  if decide (n' = n) then reverse (remove_last l (reverse (registered st n))) else registered st n'.
Proof.
  intros Hnd. unfold removeListener. unfold registered at 2. destruct (jget n (events st)) as [list_|] eqn:E.
  - cbn [default]. destruct (reverse (remove_last l (reverse list_))) as [|e es] eqn:Er;
      unfold registered; cbn [events set_events].
    + rewrite jget_jdelete by done. by destruct (decide (n' = n)).
    + rewrite jget_jset. by destruct (decide (n' = n)).
  - cbn [default]. change (reverse (remove_last l (reverse []))) with (@nil Registered).
    destruct (decide (n' = n)) as [->|]; [|done]. unfold registered. by rewrite E.
Qed.

Lemma ok_register st n entry prepend : emitter_ok st -> emitter_ok (register st n entry prepend).
Proof.
  intros [Hnd Hne]. unfold register, emitter_ok. cbn [events set_events]. split; [by apply jset_nodup|].
  intros n' l. rewrite jget_jset. destruct (decide (n' = n)); [|apply Hne].
  intros [= <-]. destruct prepend; [done|]. by destruct (registered st n).
Qed.

Lemma ok_remove st n l : emitter_ok st -> emitter_ok (removeListener st n l).
Proof.
  intros [Hnd Hne]. unfold removeListener. destruct (jget n (events st)) as [list_|] eqn:E; [|by split].
  destruct (reverse (remove_last l (reverse list_))) as [|e es] eqn:Er; unfold emitter_ok;
    cbn [events set_events].
  - split; [by apply jdelete_nodup|]. intros n' l'. rewrite jget_jdelete by done.
    destruct (decide (n' = n)); [done|apply Hne].
  - split; [by apply jset_nodup|]. intros n' l'. rewrite jget_jset.
    destruct (decide (n' = n)); [by intros [= <-]|apply Hne].
Qed.

(** The methods that change an emitter, apart from [emit]. *)
Inductive op :=
| OpAdd (n : jstr) (l : fn)
| OpPrepend (n : jstr) (l : fn)
| OpOnce (n : jstr) (l : fn)
| OpPrependOnce (n : jstr) (l : fn)
| OpRemove (n : jstr) (l : fn)
| OpRemoveAll (n : option jstr)
| OpSetMax (k : Z).

Definition run_op st (o : op) : State :=
  match o with
  | OpAdd n l => on st n l
  | OpPrepend n l => prependListener st n l
  | OpOnce n l => once st n l
  | OpPrependOnce n l => prependOnceListener st n l
  | OpRemove n l => off st n l
  | OpRemoveAll n => removeAllListeners st n
  | OpSetMax k => setMaxListeners st k
  end.

Lemma ok_op st o : emitter_ok st -> emitter_ok (run_op st o).
Proof.
  intros Hst. destruct o as [n l|n l|n l|n l|n l|[n|]|k]; cbn [run_op].
  - by apply ok_register.
  - by apply ok_register.
  - unfold once. cbn [onceEntry]. by apply ok_register.
  - unfold prependOnceListener. cbn [onceEntry]. by apply ok_register.
  - by apply ok_remove.
  - destruct Hst as [Hnd Hne]. split; cbn [events removeAllListeners set_events]; [by apply jdelete_nodup|].
    intros n' l. rewrite jget_jdelete by done. destruct (decide (n' = n)); [done|apply Hne].
  - by split; [constructor|].
  - done.
Qed.

Lemma ok_ops st ops : emitter_ok st -> emitter_ok (fold_left run_op ops st).
Proof. revert st. induction ops as [|o ops IH]; intros st Hst; [done|]. apply IH. by apply ok_op. Qed.

Lemma ok_new : emitter_ok new_state.
Proof. by split; [constructor|]. Qed.

(** After any sequence of registrations and removals on a
    new emitter [eventNames] lists, once each, exactly the events that have a
    listener. *)
Theorem eventNames_counts ops n :
  let st := fold_left run_op ops new_state in
  (n ∈ eventNames st <-> listenerCount st n None <> 0%nat) /\ NoDup (eventNames st).
Proof.
  cbn zeta. pose proof (ok_ops _ ops ok_new) as Hok. set (st := fold_left run_op ops new_state) in *.
  split; [|apply Hok]. unfold eventNames, listenerCount. pose proof (registered_get st n Hok) as Hg.
  destruct (registered st n) as [|e l].
  - apply jget_None in Hg. split; [done|]. intros H. by exfalso.
  - split; [done|]. intros _. destruct (decide (n ∈ jkeys (events st))) as [|Hn]; [done|].
    apply jget_None in Hn. congruence.
Qed.

(** Removing looks for the last match. *)
Lemma remove_last_split l rl :
  (forall e, e ∈ rl -> matches l e = false) /\ remove_last l rl = rl \/
  exists before e after, rl = before ++ e :: after /\ matches l e = true /\
    (forall x, x ∈ before -> matches l x = false) /\ remove_last l rl = before ++ after.
Proof.
  induction rl as [|x rl IH]; cbn [remove_last].
  { left. split; [by intros e ?%elem_of_nil|done]. }
  destruct (matches l x) eqn:E.
  - right. exists [], x, rl. split_and!; try done. by intros ? ?%elem_of_nil.
  - destruct IH as [[Hno ->]|(b & e & a & -> & He & Hb & ->)].
    + left. split; [|done]. intros e [->|Hin]%elem_of_cons; [done|by apply Hno].
    + right. exists (x :: b), e, a. split_and!; try done.
      intros y [->|Hin]%elem_of_cons; [done|by apply Hb].
Qed.

Lemma remove_split l list_ :
  (forall e, e ∈ list_ -> matches l e = false) /\ reverse (remove_last l (reverse list_)) = list_ \/
  exists before e after, list_ = before ++ e :: after /\ matches l e = true /\
    (forall x, x ∈ after -> matches l x = false) /\ reverse (remove_last l (reverse list_)) = before ++ after.
Proof.
  destruct (remove_last_split l (reverse list_)) as [[Hno ->]|(b & e & a & Hr & He & Hb & ->)].
  - left. split; [|by rewrite reverse_involutive]. intros e Hin. apply Hno. by apply elem_of_reverse.
  - right. exists (reverse a), e, (reverse b). apply (f_equal reverse) in Hr.
    rewrite reverse_involutive, reverse_app, reverse_cons, <-app_assoc in Hr. cbn [app] in Hr.
    split_and!; [done|done| |by rewrite reverse_app]. intros x Hx. apply Hb. by apply elem_of_reverse.
Qed.

Lemma remove_unique l before e after :
  matches l e = true -> (forall x, x ∈ after -> matches l x = false) ->
  reverse (remove_last l (reverse (before ++ e :: after))) = before ++ after.
Proof.
  intros He Ha. rewrite reverse_app, reverse_cons, <-app_assoc. cbn [app].
  assert (Hr : forall x, x ∈ reverse after -> matches l x = false).
  { intros x Hx. apply Ha. by apply elem_of_reverse. }
  rewrite <-(reverse_involutive (before ++ after)), reverse_app. f_equal. revert Hr.
  generalize (reverse after) (reverse before). intros a b. induction a as [|x a IH]; intros Hr; cbn [app remove_last].
  - by rewrite He.
  - rewrite (Hr x) by (by left). f_equal. apply IH. intros y Hy. apply Hr. by right.
Qed.

(** [off] takes away one registration of the function, the
    most recent in the order listeners run, and nothing else: the others keep
    their order, the count of the function drops by one, and other events are
    as they were; with no registration it does nothing. *)
Theorem off_removes_one st n l :
  emitter_ok st ->
  listenerCount (off st n l) n (Some l) = (listenerCount st n (Some l) - 1)%nat /\
  (listenerCount st n (Some l) = 0%nat -> registered (off st n l) n = registered st n) /\
  (listenerCount st n (Some l) <> 0%nat -> exists before e after,
     registered st n = before ++ e :: after /\ matches l e = true /\
     Forall (fun x => matches l x = false) after /\ registered (off st n l) n = before ++ after) /\
  (forall n', n' <> n -> registered (off st n l) n' = registered st n').
Proof.
  intros [Hnd _]. unfold off, listenerCount. rewrite registered_remove, decide_True by done.
  destruct (remove_split l (registered st n)) as [[Hno Heq]|(b & e & a & Heq & He & Ha & Hr)].
  - rewrite Heq, (filter_none (matches l) (registered st n)) by done. split_and!; try done.
    intros n' Hn'. by rewrite registered_remove, decide_False.
  - rewrite Hr, Heq, !List.filter_app. cbn [List.filter]. rewrite He, !length_app. cbn [length].
    rewrite (filter_none (matches l) a) by done. cbn [length]. split_and!; [lia|lia| |].
    + intros _. exists b, e, a. split_and!; try done. by apply Forall_forall.
    + intros n' Hn'. by rewrite registered_remove, decide_False.
Qed.

(** ** Emitting *)

(** A registration of a user's function, on its event; what [once] made has
    its closure. *)
Definition entry_ok st (n : jstr) (e : Registered) : Prop :=
  (exists u, listener e = User u) /\
  (wrapper e = None \/ exists k, wrapper e = Some (Wrap k) /\ wrappers st !! k = Some (n, listener e)).

Definition persistent (e : Registered) : bool := match wrapper e with None => true | Some _ => false end.

Context (is_error : Val -> bool) (to_string : option Val -> jstr).
Context (act : nat -> list Val -> State -> res (Exn (Val := Val) * State) State).

Lemma matches_user l u e n st :
  l = User u -> entry_ok st n e -> matches l e = bool_decide (listener e = l).
Proof.
  intros -> [_ Hw]. unfold matches. rewrite (bool_decide_false (wrapper e = _)); [apply orb_false_r|].
  destruct Hw as [-> |(k & -> & _)]; done.
Qed.

Lemma wrappers_remove st n l : wrappers (removeListener st n l) = wrappers st.
Proof. unfold removeListener. repeat case_match; done. Qed.

(** The listeners of one event, some of them run: those that [once] registered
    are gone. *)
Lemma emit_loop st0 n args (todo done_ : list Registered) st :
  (forall u args st, act u args st = Ok st) ->
  emitter_ok st -> wrappers st = wrappers st0 ->
  NoDup (map listener (done_ ++ todo)) -> Forall (entry_ok st0 n) (done_ ++ todo) ->
  registered st n = List.filter persistent done_ ++ todo ->
  exists st', foldM (fun st e => call act (S (length (wrappers st))) (called e) args st) st todo = Ok st' /\
    emitter_ok st' /\ wrappers st' = wrappers st0 /\
    registered st' n = List.filter persistent (done_ ++ todo) /\
    (forall n', n' <> n -> registered st' n' = registered st n').
Proof.
  intros Hact. revert done_ st. induction todo as [|e todo IH]; intros done_ st Hok Hw Hnd Hall Hreg.
  { exists st. rewrite app_nil_r in *. done. }
  assert (He : entry_ok st0 n e) by (rewrite Forall_forall in Hall; apply Hall, elem_of_app; right; by left).
  assert (Hstep : exists st1, call act (S (length (wrappers st))) (called e) args st = Ok st1 /\
    emitter_ok st1 /\ wrappers st1 = wrappers st0 /\
    registered st1 n = List.filter persistent (done_ ++ [e]) ++ todo /\
    (forall n', n' <> n -> registered st1 n' = registered st n')).
  { destruct He as [[u Hu] [Hnone|(k & Hk & Hc)]].
    - exists st. assert (called e = User u) as -> by (unfold called; by rewrite Hnone).
      cbn [call]. rewrite Hact, Hreg, List.filter_app. cbn.
      unfold persistent at 3. rewrite Hnone. by rewrite <-app_assoc.
    - exists (removeListener st n (listener e)).
      assert (called e = Wrap k) as -> by (unfold called; by rewrite Hk). cbn [call]. rewrite Hw, Hc.
      assert (Hcall : forall fuel st, call act fuel (listener e) args st = Ok st).
      { intros fuel s. rewrite Hu. destruct fuel; apply Hact. }
      split; [apply Hcall|]. split; [by apply ok_remove|]. split; [by rewrite wrappers_remove|].
      split; [|intros n' Hn'; by rewrite registered_remove, decide_False by (try done; apply Hok)].
      rewrite registered_remove, decide_True by (try done; apply Hok). rewrite Hreg.
      rewrite List.filter_app. cbn. unfold persistent at 3. rewrite Hk, app_nil_r.
      apply (remove_unique (listener e) (List.filter persistent done_) e todo).
      + unfold matches. by rewrite bool_decide_true.
      + intros x Hx. rewrite (matches_user _ u _ n st0) by
          (try done; rewrite Forall_forall in Hall; apply Hall, elem_of_app; right; by right).
        apply bool_decide_eq_false. intros Hl. rewrite map_app in Hnd. cbn [map] in Hnd.
        apply NoDup_app in Hnd as (_ & _ & Hnd). apply NoDup_cons in Hnd as [Hn _]. apply Hn.
        rewrite <-Hl. by apply list_elem_of_fmap_2. }
  destruct Hstep as (st1 & Hcall & Hok1 & Hw1 & Hreg1 & Ho1).
  destruct (IH (done_ ++ [e]) st1 Hok1 Hw1) as (st' & Hf & Hok' & Hw' & Hreg' & Ho');
    [by rewrite <-app_assoc|by rewrite <-app_assoc|done|].
  exists st'. cbn [foldM]. rewrite Hcall. cbn [mbind res_bind]. rewrite <-app_assoc in Hreg'.
  split_and!; try done. intros n' Hn'. by rewrite Ho', Ho1.
Qed.

(** Emitting to listeners that leave the emitter alone, each
    function being registered once on the event, runs them all and then has
    removed exactly the registrations [once] made: the others stay in order,
    and so do other events. *)
Theorem emit_once st n args :
  (forall u args st, act u args st = Ok st) ->
  emitter_ok st -> NoDup (listeners st n) -> Forall (entry_ok st n) (registered st n) ->
  registered st n <> [] ->
  exists st', emit is_error to_string act st n args = Ok (true, st') /\
    registered st' n = List.filter persistent (registered st n) /\
    (forall n', n' <> n -> registered st' n' = registered st n').
Proof.
  intros Hact Hok Hnd Hall Hne.
  destruct (emit_loop st n args (registered st n) [] st) as (st' & Hf & _ & _ & Hreg & Ho); try done.
  exists st'. unfold emit. destruct (registered st n) eqn:E; [done|]. rewrite Hf. done.
Qed.

(** With no listener on an event, [emit] does nothing and returns
    false, except for the event [error]: it throws its argument when that is
    an error, and a new error otherwise. *)
Theorem emit_none st n args :
  emitter_ok st -> n ∉ eventNames st ->
  emit is_error to_string act st n args =
  if decide (n = js "error") then
    match args with
    | v :: _ => if is_error v then Err (Thrown v, st)
                else Err (Unhandled (js "Unhandled error. (" ++ to_string (Some v) ++ js ")"), st)
    | [] => Err (Unhandled (js "Unhandled error. (" ++ to_string None ++ js ")"), st)
    end
  else Ok (false, st).
Proof.
  intros Hok Hn. apply jget_None in Hn. rewrite (registered_get st n Hok) in Hn.
  unfold emit. destruct (registered st n); [|done]. unfold jeqb. by case_bool_decide; case_decide.
Qed.
End Properties.

(** ** Witnesses *)

Definition inert (u : nat) (args : list Z) (st : State) : res (Exn (Val := Z) * State) State := Ok st.
Definition no_error (v : Z) : bool := false.
Definition text_of (v : option Z) : jstr := js "undefined".

Definition example_emitter : State :=
  fold_left run_op [OpAdd (js "add") (User 1); OpOnce (js "add") (User 2); OpPrepend (js "add") (User 3);
    OpOnce (js "error") (User 4)] new_state.

Lemma emit_once_witness : exists st',
  emit no_error text_of inert example_emitter (js "add") [5] = Ok (true, st') /\
  listeners st' (js "add") = [User 3; User 1].
Proof.
  destruct (emit_once no_error text_of inert example_emitter (js "add") [5]) as (st' & He & Hr & _).
  - done.
  - apply ok_ops, ok_new.
  - by_decide.
  - change (registered example_emitter (js "add")) with
      [mkRegistered (User 3) None; mkRegistered (User 1) None; mkRegistered (User 2) (Some (Wrap 0))].
    repeat (apply List.Forall_cons; [split; [by eexists|first [by left|right; by exists 0%nat]]|]).
    apply List.Forall_nil.
  - done.
  - exists st'. split; [exact He|]. unfold listeners. rewrite Hr. by vm_compute.
Defined.

Lemma off_removes_one_witness :
  listenerCount (off example_emitter (js "add") (User 2)) (js "add") (Some (User 2)) = 0%nat.
Proof.
  etransitivity; [apply (off_removes_one example_emitter (js "add") (User 2)); apply ok_ops, ok_new|].
  by vm_compute.
Defined.

Lemma emit_none_witness :
  emit no_error text_of inert new_state (js "error") [] =
  Err (Unhandled (js "Unhandled error. (undefined)"), new_state).
Proof.
  etransitivity; [apply (emit_none no_error text_of inert new_state (js "error") []);
    [apply ok_new|by_decide]|by vm_compute].
Defined.

(** A function registered with [once] and then with [on]: the wrapper removes
    the most recent registration of the function, the one of [on], and stays
    registered itself. *)
Example once_then_on :
  let st := on (once new_state (js "add") (User 1)) (js "add") (User 1) in
  match emit no_error text_of inert st (js "add") [] with
  | Ok (_, st') => map wrapper (registered st' (js "add")) = [Some (Wrap 0)]
  | Err _ => False
  end.
Proof. by vm_compute. Qed.
