(* ===== verification/Background.v ===== *)
(** * The background sync scheduler

    Models [src/devonian/src/background/BackgroundSync.ts]: one persisted state
    per schedule, which any number of contexts (tabs, workers) read and write
    under a lease.

    Times are milliseconds, persisted as ISO strings ([JsDate]).  The stored
    text is represented by what [JSON.parse] makes of it ([cell]).  What one
    sync pass does is not part of this: its outcome is a parameter, an error of
    type [E] or none, with the host's [isPermanent] and the error's [message].
    Every reading of the clock is one of its own ([Clock]).  The numbers are
    integers: [intervalMs * 2 ** k] is exact or infinite in doubles, and in
    both cases its minimum with the cap is the integer one. *)
From S2P Require Import Prelude Text JsDate.
Local Open Scope Z_scope.

(* src: devonian/src/background/BackgroundSync.ts 104-113 BackgroundSyncState *)
Record BackgroundSyncState := mkBState {
  failures : Z;
  nextDueAt : option jstr;
  lastAttemptAt : option jstr;
  lastSuccessAt : option jstr;
  lastError : option jstr;
  paused : option jstr;
}.

(* src: devonian/src/background/BackgroundSync.ts 115-115 TickOutcome *)
Inductive TickOutcome := Ran | NotDue | Busy | Paused | Failed.

(* src: devonian/src/background/BackgroundSync.ts 117-121 TickResult *)
Record TickResult := mkTick { outcome : TickOutcome; tick_state : BackgroundSyncState; tick_error : option jstr }.

(** What the store has under the scheduler's name: nothing, text that is not
    JSON, JSON that is not an object with [failures >= 0], or a state. *)
Inductive cell :=
| Absent
| NotJson
| WrongShape
| Stored (st : BackgroundSyncState).

(** The text of an optional property that is truthy. *)
Definition truthy (s : option jstr) : option jstr := match s with Some (c :: t) => Some (c :: t) | _ => None end.

Section Scheduler.
Context {E : Type} (message : E -> jstr) (isPermanent : option (E -> bool)).

(** The clock of one attempt, in the order it is read. *)
Record Clock := mkClock { at_due : Z; at_start : Z; at_done : Z; at_next : Z }.

(* src: devonian/src/background/BackgroundSync.ts 123-139 BackgroundSyncOptions *)
Record BackgroundSyncOptions := mkOptions { name : jstr; intervalMs : Z; opt_maxBackoffMs : option Z }.

(* src: devonian/src/background/BackgroundSync.ts 153-164 constructor *)
Definition constructor (o : BackgroundSyncOptions) : res string (jstr * Z) :=
  if bool_decide (name o = []) then Err "A background sync name is required"%string
  else if negb (intervalMs o <=? 2 ^ 53 - 1) || (intervalMs o <=? 0)
  then Err "intervalMs must be a positive integer"%string
  else Ok (js "devonian-background-sync:" ++ name o,
           default (Z.max (intervalMs o) (60 * 60 * 1000)) (opt_maxBackoffMs o)).

Context (intervalMs maxBackoffMs : Z) (other_dates : jstr -> option Z).

Definition no_state : BackgroundSyncState := mkBState 0 None None None None None.

(* src: devonian/src/background/BackgroundSync.ts 166-174 status *)
Definition status (c : cell) : res string BackgroundSyncState :=
  match c with
  | Absent => Ok no_state
  | NotJson => Err "SyntaxError"%string
  | WrongShape => Err "Corrupt background sync state"%string
  | Stored st => if failures st <? 0 then Err "Corrupt background sync state"%string else Ok st
  end.

(** [now() >= Date.parse(nextDueAt)]: never, when that is not a date. *)
(* src: devonian/src/background/BackgroundSync.ts 180-184 due *)
Definition due (now : Z) (st : BackgroundSyncState) : bool :=
  match nextDueAt st with
  | None => true
  | Some s => match Date_parse other_dates s with Some t => t <=? now | None => false end
  end.

(* src: devonian/src/background/BackgroundSync.ts 231-239 attempt ! *)
Definition backoff (n : Z) : Z := Z.min (intervalMs * 2 ^ (n - 1)) maxBackoffMs.

Definition iso (t : Z) : res string jstr :=
  match toISOString t with Some s => Ok s | None => Err "RangeError"%string end.

(** The state after a pass that failed, and one that succeeded. *)
Definition after_failure (st : BackgroundSyncState) (c : Clock) (e : E) : res string BackgroundSyncState :=
  let n := failures st + 1 in
  let permanent := match isPermanent with Some p => p e | None => false end in
  attempted ← iso (at_start c);
  if permanent then
    Ok (mkBState n None (Some attempted) (truthy (lastSuccessAt st)) (Some (message e)) (Some (message e)))
  else
    next ← iso (at_next c + backoff n);
    Ok (mkBState n (Some next) (Some attempted) (truthy (lastSuccessAt st)) (Some (message e)) None).

Definition after_success (c : Clock) : res string BackgroundSyncState :=
  attempted ← iso (at_start c);
  succeeded ← iso (at_done c);
  next ← iso (at_next c + intervalMs);
  Ok (mkBState 0 (Some next) (Some attempted) (Some succeeded) None None).

(** The two refusals of [attempt], before the pass. *)
Definition refusal (force : bool) (now : Z) (st : BackgroundSyncState) : option TickResult :=
  match truthy (paused st) with
  | Some _ => Some (mkTick Paused st None)
  | None => if negb force && negb (due now st) then Some (mkTick NotDue st None) else None
  end.

(** After the pass: what is reported and written. *)
Definition finish (st : BackgroundSyncState) (c : Clock) (run : option E)
    : res string (TickResult * BackgroundSyncState) :=
  match run with
  | Some e =>
      next ← after_failure st c e;
      let permanent := match isPermanent with Some p => p e | None => false end in
      Ok (mkTick (if permanent then Paused else Failed) next (Some (message e)), next)
  | None =>
      next ← after_success c;
      Ok (mkTick Ran next None, next)
  end.

(* src: devonian/src/background/BackgroundSync.ts 212-255 attempt *)
Definition attempt (force : bool) (store : cell) (c : Clock) (run : option E)
    : res string (TickResult * cell) :=
  st ← status store;
  match refusal force (at_due c) st with
  | Some r => Ok (r, store)
  | None => '(r, next) ← finish st c run; Ok (r, Stored next)
  end.

(** [tick]: [before] is the store as first read, [lease] whether the lease was
    free then, and [store] the store inside the lease, or as read again for
    the answer when it was not. *)
(* src: devonian/src/background/BackgroundSync.ts 186-202 tick *)
Definition tick (before : cell) (now : Z) (lease : bool) (store : cell) (c : Clock) (run : option E)
    : res string (TickResult * cell) :=
  st ← status before;
  match truthy (paused st) with
  | Some _ => Ok (mkTick Paused st None, store)
  | None =>
      if negb (due now st) then Ok (mkTick NotDue st None, store)
      else if lease then attempt false store c run
      else st' ← status store; Ok (mkTick Busy st' None, store)
  end.

(* src: devonian/src/background/BackgroundSync.ts 204-210 syncNow *)
Definition syncNow (store : cell) (c : Clock) (run : option E) : res string (TickResult * cell) :=
  attempt true store c run.

Definition resumed (st : BackgroundSyncState) : BackgroundSyncState :=
  mkBState 0 None (lastAttemptAt st) (lastSuccessAt st) (lastError st) None.

(* src: devonian/src/background/BackgroundSync.ts 257-267 resume *)
Definition resume (store : cell) : res string (BackgroundSyncState * cell) :=
  st ← status store; Ok (resumed st, Stored (resumed st)).
End Scheduler.

(** [start] and [stop], on whether the timer is set; [start] says whether it
    checks at once. *)
(* src: devonian/src/background/BackgroundSync.ts 278-293 start *)
Definition start (timer : bool) : bool * bool := if timer then (true, false) else (true, true).

(* src: devonian/src/background/BackgroundSync.ts 295-298 stop *)
Definition stop (timer : bool) : bool := false.

(** ** One attempt *)

Section Attempt.
Context {E : Type} (message : E -> jstr) (isPermanent : option (E -> bool)).
Context (intervalMs maxBackoffMs : Z) (other_dates : jstr -> option Z).

(** A time that a [Date] holds and writes with a four-digit year. *)
Definition date_ok (t : Z) : Prop :=
  (MAX_TIME <? Z.abs t) = false /\ 0 <= (civil_from_days (t / DAY_MS)).1.1 <= 9999.

Lemma iso_ok t : date_ok t -> exists s, iso t = Ok s /\ Date_parse other_dates s = Some t.
Proof.
  intros [Ht Hy]. destruct (civil_from_days (t / DAY_MS)) as [[y m] d] eqn:Hc. cbn [fst] in Hy.
  unfold iso. destruct (toISOString t) as [s|] eqn:Hs.
  - exists s. split; [done|]. by apply (Date_parse_toISOString other_dates t y m d).
  - unfold toISOString in Hs. by rewrite Ht, Hc in Hs.
Qed.

Definition permanent (e : E) : bool := match isPermanent with Some p => p e | None => false end.

Lemma success_spec (c : Clock) :
  date_ok (at_start c) -> date_ok (at_done c) -> date_ok (at_next c + intervalMs) ->
  exists next, after_success intervalMs c = Ok next /\ failures next = 0 /\ paused next = None /\
    lastError next = None /\ forall now, due other_dates now next = (at_next c + intervalMs <=? now).
Proof.
  intros H1 H2 H3. destruct (iso_ok _ H1) as (s1 & E1 & _), (iso_ok _ H2) as (s2 & E2 & _),
    (iso_ok _ H3) as (s3 & E3 & Hp). unfold after_success. rewrite E1, E2, E3.
  eexists. split; [done|]. split_and!; try done. intros now. unfold due. cbn [nextDueAt]. by rewrite Hp.
Qed.

Lemma failure_spec st (c : Clock) e :
  date_ok (at_start c) -> date_ok (at_next c + backoff intervalMs maxBackoffMs (failures st + 1)) ->
  exists next, after_failure message isPermanent intervalMs maxBackoffMs st c e = Ok next /\
    failures next = failures st + 1 /\ lastError next = Some (message e) /\
    lastSuccessAt next = truthy (lastSuccessAt st) /\
    if permanent e then paused next = Some (message e)
    else paused next = None /\ forall now,
      due other_dates now next = (at_next c + backoff intervalMs maxBackoffMs (failures st + 1) <=? now).
Proof.
  intros H1 H2. destruct (iso_ok _ H1) as (s1 & E1 & _), (iso_ok _ H2) as (s2 & E2 & Hp).
  unfold after_failure, permanent. rewrite E1. destruct (match isPermanent with Some p => p e | None => false end).
  - eexists. split; [done|]. done.
  - cbn [mbind res_bind]. rewrite E2. eexists. split; [done|]. split_and!; try done.
    intros now. unfold due. cbn [nextDueAt]. by rewrite Hp.
Qed.

(** Every branch of an attempt.  A paused schedule refuses
    even a forced one, a schedule that is not due refuses an unforced one, and
    neither touches the store.  A pass that succeeds clears the failures and
    makes the schedule due again [intervalMs] later; one that fails counts,
    keeps the last success, and makes it due after the backoff; one whose
    failure is permanent pauses it with the error's message. *)
Theorem attempt_outcome force store st (c : Clock) (run : option E) :
  status store = Ok st ->
  date_ok (at_start c) -> date_ok (at_done c) -> date_ok (at_next c + intervalMs) ->
  date_ok (at_next c + backoff intervalMs maxBackoffMs (failures st + 1)) ->
  let out := attempt message isPermanent intervalMs maxBackoffMs other_dates force store c run in
  if bool_decide (is_Some (truthy (paused st))) then out = Ok (mkTick Paused st None, store)
  else if negb force && negb (due other_dates (at_due c) st) then out = Ok (mkTick NotDue st None, store)
  else match run with
       | None => exists next, out = Ok (mkTick Ran next None, Stored next) /\
           failures next = 0 /\ paused next = None /\ lastError next = None /\
           (forall now, due other_dates now next = (at_next c + intervalMs <=? now))
       | Some e => exists next,
           out = Ok (mkTick (if permanent e then Paused else Failed) next (Some (message e)), Stored next) /\
           failures next = failures st + 1 /\ lastError next = Some (message e) /\
           lastSuccessAt next = truthy (lastSuccessAt st) /\
           if permanent e then paused next = Some (message e)
           else paused next = None /\ forall now,
             due other_dates now next = (at_next c + backoff intervalMs maxBackoffMs (failures st + 1) <=? now)
       end.
Proof.
  intros Hst H1 H2 H3 H4 out. subst out. unfold attempt. rewrite Hst. cbn [mbind res_bind]. unfold refusal.
  destruct (truthy (paused st)) as [p|]; [done|]. cbn [bool_decide].
  destruct (negb force && negb (due other_dates (at_due c) st)); [done|].
  destruct run as [e|].
  - destruct (failure_spec st c e H1 H4) as (next & Hn & Hrest). exists next. cbn [finish].
    rewrite Hn. by split.
  - destruct (success_spec c H1 H2 H3) as (next & Hn & Hrest). exists next. cbn [finish].
    rewrite Hn. by split.
Qed.

(** The delay after the n-th failure in a row starts at the
    interval, never shrinks, doubles until the cap, stays between the two, and
    reaches the cap. *)
Theorem backoff_bounds :
  0 < intervalMs <= maxBackoffMs ->
  backoff intervalMs maxBackoffMs 1 = intervalMs /\
  (forall n, 1 <= n -> intervalMs <= backoff intervalMs maxBackoffMs n <= maxBackoffMs) /\
  (forall n, 1 <= n -> backoff intervalMs maxBackoffMs (n + 1) =
     Z.min (2 * backoff intervalMs maxBackoffMs n) maxBackoffMs) /\
  (forall n, maxBackoffMs <= n -> backoff intervalMs maxBackoffMs n = maxBackoffMs).
Proof.
  intros Hi. unfold backoff.
  assert (Hpow : forall n, 1 <= n -> 1 <= 2 ^ (n - 1)).
  { intros n Hn. pose proof (Z.pow_pos_nonneg 2 (n - 1)). lia. }
  split_and!.
  - change (2 ^ (1 - 1)) with 1. lia.
  - intros n Hn. specialize (Hpow n Hn). nia.
  - intros n Hn. specialize (Hpow n Hn). replace (n + 1 - 1) with (Z.succ (n - 1)) by lia.
    rewrite Z.pow_succ_r by lia. lia.
  - intros n Hn. assert (n - 1 < 2 ^ (n - 1)) by (apply Z.pow_gt_lin_r; lia). nia.
Qed.
End Attempt.

(** ** Contexts

    Any number of contexts run the scheduler's methods on one store, each
    awaiting between the steps.  The lease is that of [processLocks]: whether a
    name is held is checked and recorded in one turn, and it is released in a
    [finally]; [navigator.locks] ([webLocks]) promises the same, and releases
    the lease of a context that dies. *)

Section Contexts.
Context {E : Type} (message : E -> jstr) (isPermanent : option (E -> bool)).
Context (intervalMs maxBackoffMs : Z) (other_dates : jstr -> option Z).

(** What a context wants the lease for. *)
(* src: devonian/src/background/BackgroundSync.ts 269-276 withLock *)
Inductive job := Attempt (force : bool) | Resume | Host.

(** Where a context is: not in a method; waiting for the lease; in it before
    it reads the state; in the host's [run], with the state it read; in
    [resume], with the state it read; done, about to release. *)
Inductive phase :=
| Idle
| Waiting (j : job)
| Holding (j : job)
| Running (force : bool) (now : Z) (st : BackgroundSyncState)
| Resuming (st : BackgroundSyncState)
| Leaving.

Record World := mkWorld { store : cell; lease : option nat; phases : nat -> phase }.

Definition at_phase (w : World) (p : nat) (ph : phase) : World :=
  mkWorld (store w) (lease w) (fun q => if (q =? p)%nat then ph else phases w q).
Definition with_store (w : World) (c : cell) : World := mkWorld c (lease w) (phases w).
Definition with_lease (w : World) (l : option nat) : World := mkWorld (store w) l (phases w).

Definition may_hold (ph : phase) : bool := match ph with Idle | Waiting _ => false | _ => true end.

(* src: devonian/src/background/BackgroundSync.ts 64-95 processLocks ! *)
Inductive step (w : World) : World -> Prop :=
| step_tick p now st :
    phases w p = Idle -> status (store w) = Ok st -> truthy (paused st) = None ->
    due other_dates now st = true -> step w (at_phase w p (Waiting (Attempt false)))
| step_call p j :
    phases w p = Idle -> j <> Attempt false -> step w (at_phase w p (Waiting j))
| step_busy p q :
    phases w p = Waiting (Attempt false) -> lease w = Some q -> step w (at_phase w p Idle)
| step_acquire p j :
    phases w p = Waiting j -> lease w = None -> step w (with_lease (at_phase w p (Holding j)) (Some p))
| step_refuse p force now st r :
    phases w p = Holding (Attempt force) -> status (store w) = Ok st ->
    refusal other_dates force now st = Some r -> step w (at_phase w p Leaving)
| step_unreadable p j e :
    phases w p = Holding j -> status (store w) = Err e -> step w (at_phase w p Leaving)
| step_run p force now st :
    phases w p = Holding (Attempt force) -> status (store w) = Ok st ->
    refusal other_dates force now st = None -> step w (at_phase w p (Running force now st))
| step_finish p force now st c run r next :
    phases w p = Running force now st ->
    finish message isPermanent intervalMs maxBackoffMs st c run = Ok (r, next) ->
    step w (with_store (at_phase w p Leaving) (Stored next))
| step_unfinished p force now st c run e :
    phases w p = Running force now st ->
    finish message isPermanent intervalMs maxBackoffMs st c run = Err e -> step w (at_phase w p Leaving)
| step_resume p st :
    phases w p = Holding Resume -> status (store w) = Ok st -> step w (at_phase w p (Resuming st))
| step_resumed p st :
    phases w p = Resuming st -> step w (with_store (at_phase w p Leaving) (Stored (resumed st)))
| step_host p : phases w p = Holding Host -> step w (at_phase w p Leaving)
| step_release p : phases w p = Leaving -> step w (with_lease (at_phase w p Idle) None)
| step_die p : may_hold (phases w p) = true -> step w (with_lease (at_phase w p Idle) None)
| step_quit p : may_hold (phases w p) = false -> step w (at_phase w p Idle).

Inductive reachable (c : cell) : World -> Prop :=
| reachable_start : reachable c (mkWorld c None (fun _ => Idle))
| reachable_step w w' : reachable c w -> step w w' -> reachable c w'.

Lemma phases_at w p ph q : phases (at_phase w p ph) q = if decide (q = p) then ph else phases w q.
Proof. unfold at_phase. cbn [phases]. destruct (Nat.eqb_spec q p), (decide (q = p)); done. Qed.

(** The lease is held by the one context past it, and the state that context
    read is still the stored one. *)
Definition world_ok (w : World) : Prop :=
  (forall p, may_hold (phases w p) = true <-> lease w = Some p) /\
  (forall p force now st, phases w p = Running force now st ->
     status (store w) = Ok st /\ refusal other_dates force now st = None) /\
  (forall p st, phases w p = Resuming st -> status (store w) = Ok st).

(** A context that moves without touching the store or the lease. *)
Lemma ok_move w p ph :
  world_ok w -> may_hold ph = may_hold (phases w p) ->
  (forall force now st, ph = Running force now st ->
     status (store w) = Ok st /\ refusal other_dates force now st = None) ->
  (forall st, ph = Resuming st -> status (store w) = Ok st) ->
  world_ok (at_phase w p ph).
Proof.
  intros (H1 & H2 & H3) Hh Hrun Hres. split; [|split].
  - intros q. rewrite phases_at. destruct (decide (q = p)) as [->|]; [rewrite Hh|]; apply H1.
  - intros q force now st. rewrite phases_at. destruct (decide (q = p)) as [->|]; [apply Hrun|apply H2].
  - intros q st. rewrite phases_at. destruct (decide (q = p)) as [->|]; [apply Hres|apply H3].
Qed.

(** The holder writes the store and leaves. *)
Lemma ok_write w p c :
  world_ok w -> may_hold (phases w p) = true -> world_ok (with_store (at_phase w p Leaving) c).
Proof.
  intros (H1 & H2 & H3) Hh.
  assert (Hother : forall q, q <> p -> may_hold (phases w q) = false).
  { intros q Hq. destruct (may_hold (phases w q)) eqn:Eq; [|done]. apply H1 in Eq, Hh. congruence. }
  split; [|split].
  - intros q. change (may_hold (phases (at_phase w p Leaving) q) = true <-> lease w = Some q).
    rewrite phases_at. destruct (decide (q = p)) as [->|]; [rewrite <-H1, Hh; done|apply H1].
  - intros q force now st. cbn [phases with_store with_lease].
    rewrite phases_at. destruct (decide (q = p)) as [->|Hq]; [done|]. intros Hr.
    pose proof (Hother q Hq) as Hno. by rewrite Hr in Hno.
  - intros q st. cbn [phases with_store with_lease].
    rewrite phases_at. destruct (decide (q = p)) as [->|Hq]; [done|]. intros Hr.
    pose proof (Hother q Hq) as Hno. by rewrite Hr in Hno.
Qed.

Lemma ok_release w p :
  world_ok w -> may_hold (phases w p) = true -> world_ok (with_lease (at_phase w p Idle) None).
Proof.
  intros (H1 & H2 & H3) Hh. split; [|split].
  - intros q. change (may_hold (phases (at_phase w p Idle) q) = true <-> None = Some q).
    rewrite phases_at. destruct (decide (q = p)) as [->|Hq]; [done|]. split; [|done].
    intros Hq'. apply H1 in Hq', Hh. congruence.
  - intros q force now st. cbn [phases with_store with_lease].
    rewrite phases_at. destruct (decide (q = p)) as [->|Hq]; [done|apply H2].
  - intros q st. cbn [phases with_store with_lease].
    rewrite phases_at. destruct (decide (q = p)) as [->|Hq]; [done|apply H3].
Qed.

Lemma ok_acquire w p j :
  world_ok w -> lease w = None -> world_ok (with_lease (at_phase w p (Holding j)) (Some p)).
Proof.
  intros (H1 & H2 & H3) Hl. split; [|split].
  - intros q. change (may_hold (phases (at_phase w p (Holding j)) q) = true <-> Some p = Some q).
    rewrite phases_at. destruct (decide (q = p)) as [->|Hq]; [done|]. split; [|intros [= ->]; done].
    intros Hq'. apply H1 in Hq'. congruence.
  - intros q force now st. cbn [phases with_store with_lease].
    rewrite phases_at. destruct (decide (q = p)) as [->|Hq]; [done|apply H2].
  - intros q st. cbn [phases with_store with_lease].
    rewrite phases_at. destruct (decide (q = p)) as [->|Hq]; [done|apply H3].
Qed.

Lemma step_ok w w' : world_ok w -> step w w' -> world_ok w'.
Proof.
  intros Hw [p now st Hp|p j Hp|p q Hp|p j Hp Hl|p f now st r Hp|p j e Hp|p f now st Hp Hs Hr
            |p f now st c run r next Hp|p f now st c run e Hp|p st Hp Hs|p st Hp|p Hp|p Hp|p Hp|p Hp].
  1-3, 5-7, 9-10, 12: apply ok_move; [done|by rewrite Hp|by intros; simplify_eq|by intros; simplify_eq].
  - by apply ok_acquire.
  - apply ok_write; [done|by rewrite Hp].
  - apply ok_write; [done|by rewrite Hp].
  - apply ok_release; [done|by rewrite Hp].
  - by apply ok_release.
  - by apply ok_move.
Qed.

Lemma reachable_ok c w : reachable c w -> world_ok w.
Proof.
  induction 1 as [|w w' _ IH Hstep]; [|by apply (step_ok w)]. split; [|done].
  intros p. cbn. done.
Qed.

(** C38 (safety). However the contexts interleave, passes never overlap, and
    none starts that should not: while one context is in the host's [run] no
    other context is in the lease, the stored state is still the one it read,
    that state is not paused, and if the pass was not asked for by a person
    its due time had come. *)
Theorem passes_exclusive c w p force now st :
  reachable c w -> phases w p = Running force now st ->
  (forall q, may_hold (phases w q) = true -> q = p) /\
  status (store w) = Ok st /\ truthy (paused st) = None /\
  (force = false -> due other_dates now st = true).
Proof.
  intros (H1 & H2 & _)%reachable_ok Hp. destruct (H2 _ _ _ _ Hp) as [Hs Hr].
  assert (Hl : lease w = Some p) by (apply H1; by rewrite Hp).
  split; [intros q Hq%H1; congruence|]. split; [done|]. unfold refusal in Hr.
  destruct (truthy (paused st)); [done|]. split; [done|]. intros ->. cbn in Hr.
  by destruct (due other_dates now st).
Qed.

(** A pause holds until a person lifts it: from a reachable world
    whose stored state is paused, a step either leaves that state stored and
    lets no context into a pass, or is the write of [resume]. *)
Theorem pause_holds c w w' st :
  reachable c w -> status (store w) = Ok st -> is_Some (truthy (paused st)) -> step w w' ->
  (store w' = store w \/ store w' = Stored (resumed st)) /\
  (forall p force now st', phases w' p <> Running force now st').
Proof.
  intros Hw Hst [m Hm] Hstep. pose proof (reachable_ok _ _ Hw) as Hok.
  pose proof (step_ok _ _ Hok Hstep) as Hok'.
  assert (Hidle : forall p force now st', phases w p <> Running force now st').
  { intros p force now st' Hp. destruct Hok as (_ & H2 & _). destruct (H2 _ _ _ _ Hp) as [Hs Hr].
    rewrite Hst in Hs. injection Hs as <-. unfold refusal in Hr. by rewrite Hm in Hr. }
  assert (Hstore : store w' = store w \/ store w' = Stored (resumed st)).
  { destruct Hstep as [| | | | | | |p f now st' c' run r next Hp| | |p st' Hp| | | |]; try by left.
    - by apply Hidle in Hp.
    - right. destruct Hok as (_ & _ & H3). apply H3 in Hp. rewrite Hst in Hp. by injection Hp as <-. }
  split; [exact Hstore|]. intros p force now st' Hp.
  destruct Hok' as (_ & H2' & _). destruct (H2' _ _ _ _ Hp) as [Hs Hr].
  destruct Hstep as [| | | | | |q f now' st2 Hq Hs2 Hr2|q f now' st2 c' run r next Hq| | |q st2 Hq| | | |];
    try (cbn [phases with_lease with_store] in Hp; rewrite phases_at in Hp; case_decide;
         [done|by apply Hidle in Hp]).
  rewrite Hst in Hs2. injection Hs2 as <-. unfold refusal in Hr2. by rewrite Hm in Hr2.
Qed.
End Contexts.

(** ** Witnesses *)

Definition no_other_dates (s : jstr) : option Z := None.
Definition ex_message (e : jstr) : jstr := e.
Definition ex_permanent : option (jstr -> bool) := Some (fun e => bool_decide (e = js "gone")).
Definition ex_clock : Clock := mkClock 1700000000000 1700000000001 1700000005000 1700000005001.
Definition ex_state : BackgroundSyncState := mkBState 2 (Some (js "2023-11-14T22:13:20.000Z")) None None None None.

Lemma ex_date_ok t : (MAX_TIME <? Z.abs t) = false ->
  bool_decide (0 <= (civil_from_days (t / DAY_MS)).1.1 <= 9999) = true -> date_ok t.
Proof. intros H1 H2%bool_decide_eq_true. by split. Qed.

Lemma attempt_outcome_witness : exists next,
  attempt ex_message ex_permanent 60000 3600000 no_other_dates false (Stored ex_state) ex_clock (Some (js "offline")) =
    Ok (mkTick Failed next (Some (js "offline")), Stored next) /\
  failures next = 3 /\ due no_other_dates 1700000245000 next = false /\ due no_other_dates 1700000245001 next = true.
Proof.
  pose proof (attempt_outcome ex_message ex_permanent 60000 3600000 no_other_dates false (Stored ex_state)
    ex_state ex_clock (Some (js "offline")) eq_refl
    ltac:(apply ex_date_ok; vm_compute; reflexivity) ltac:(apply ex_date_ok; vm_compute; reflexivity)
    ltac:(apply ex_date_ok; vm_compute; reflexivity) ltac:(apply ex_date_ok; vm_compute; reflexivity)) as H.
  destruct H as (next & Hout & Hf & _ & _ & _ & Hdue).
  exists next. split; [exact Hout|]. split; [exact Hf|]. split; rewrite Hdue; by vm_compute.
Defined.

Lemma backoff_bounds_witness : 60000 <= backoff 60000 3600000 4 <= 3600000.
Proof. apply (backoff_bounds 60000 3600000); lia. Defined.

(** A context that ticks while the schedule is due, up to its pass. *)
Definition ex_running : World :=
  at_phase (with_lease (at_phase (at_phase (mkWorld (Stored ex_state) None (fun _ => Idle)) 0
    (Waiting (Attempt false))) 0 (Holding (Attempt false))) (Some 0%nat)) 0
    (Running false 1700000000000 ex_state).

Lemma ex_running_reachable :
  reachable ex_message ex_permanent 60000 3600000 no_other_dates (Stored ex_state) ex_running.
Proof.
  eapply reachable_step; [eapply reachable_step; [eapply reachable_step; [apply reachable_start|]|]|].
  - apply (step_tick _ _ _ _ _ _ 0%nat 1700000000000 ex_state); [done|done|done|by vm_compute].
  - by apply (step_acquire _ _ _ _ _ _ 0%nat (Attempt false)).
  - apply (step_run _ _ _ _ _ _ 0%nat false 1700000000000 ex_state); [done|done|by vm_compute].
Qed.

Lemma passes_exclusive_witness : may_hold (phases ex_running 1) = false /\
  due no_other_dates 1700000000000 ex_state = true.
Proof.
  destruct (passes_exclusive ex_message ex_permanent 60000 3600000 no_other_dates (Stored ex_state) ex_running
    0%nat false 1700000000000 ex_state ex_running_reachable eq_refl) as (Hex & _ & _ & Hdue).
  split; [|by apply Hdue]. destruct (may_hold (phases ex_running 1)) eqn:E; [|done]. by apply Hex in E.
Defined.

Definition ex_paused : BackgroundSyncState := mkBState 1 None None None None (Some (js "gone")).

Lemma pause_holds_witness :
  let w := mkWorld (Stored ex_paused) None (fun _ => Idle) in
  let w' := at_phase w 0 (Waiting (Attempt true)) in
  (store w' = store w \/ store w' = Stored (resumed ex_paused)) /\
  phases w' 0%nat <> Running true 0 ex_paused.
Proof.
  destruct (pause_holds ex_message ex_permanent 60000 3600000 no_other_dates (Stored ex_paused)
    (mkWorld (Stored ex_paused) None (fun _ => Idle))
    (at_phase (mkWorld (Stored ex_paused) None (fun _ => Idle)) 0 (Waiting (Attempt true)))
    ex_paused (reachable_start _ _ _ _ _ _) eq_refl) as [H1 H2].
  - by eexists.
  - by apply step_call.
  - split; [exact H1|apply H2].
Defined.

(** A permanent failure whose error has no message writes an empty pause,
    which no check takes for one: the next tick runs again at once. *)
Example empty_pause :
  match attempt ex_message (Some (fun _ => true)) 60000 3600000 no_other_dates false Absent ex_clock (Some []) with
  | Ok (r, Stored st) => outcome r = Paused /\ refusal no_other_dates false 0 st = None
  | _ => False
  end.
Proof. by vm_compute. Qed.
