(* ===== verification/Engine.v ===== *)
(** * The reflection engine

    Models [src/devonian/src/reflect/engine.ts].  A side is a live client:
    its state and operations are the record [ApiClient], any functions that
    may fail or not do what they were asked.  [reflect_copies] is about the
    calls that the engine makes of them, whatever they do; only lemmas on the
    records themselves suppose [Server], that a call to create adds one record
    at most, which the client of [Client] breaks after a create that timed out.  Both collections the engine works on are [url]s of one client:
    a side's issues and the comments of one of them.

    Of a record the engine reads its id (through [String]), and its body,
    title and state where they are strings.  [drain] polls until the client
    has no pending write: the polls are what it sees, with the clock.  The
    id-map is the one of [IdMap], the markers those of [Marker]. *)
From S2P Require Import Prelude Text Collections Encoding Upload Uri Marker IdMap.
Local Open Scope Z_scope.

Inductive url := Issues | CommentsOf (issue : jstr).
#[global] Instance url_eq_dec : EqDecision url.
Proof. solve_decision. Defined.

Record Item := mkItem { f_id : jstr; f_title : option jstr; f_body : option jstr; f_state : option jstr }.

(** What is sent to create a record. *)
Record Fields := mkFields { n_title : option jstr; n_body : jstr }.

Record PendingWrite := mkPending { attempts : Z; w_lastError : option jstr }.

Section Engine.
Context {S : Type}.

Record ApiClient := mkClient {
  sync : S -> url -> res jstr S;
  list_ : S -> url -> list Item;
  get : S -> jstr -> option Item;
  create : S -> url -> Fields -> S;
  (** the polls [drain] makes, and the state when it stops *)
  polls : S -> url -> list (list PendingWrite * Z);
  settled : S -> url -> S;
  setState : S -> jstr -> jstr -> S * res jstr unit;
}.

(* src: devonian/src/reflect/engine.ts 11-39 ReflectionSide *)
Record ReflectionSide := mkSide { side_system : jstr; client : ApiClient }.

(* src: devonian/src/reflect/engine.ts 53-60 ReflectionSummary *)
Record ReflectionSummary := mkSummary {
  created : list (jstr * jstr * jstr);
  updated : list (jstr * jstr * jstr);
  errors : list (jstr * jstr * jstr);
}.

Inductive Direction := Bidirectional | AToB.

(* src: devonian/src/reflect/engine.ts 41-51 ReflectionOptions *)
Record ReflectionOptions := mkROptions {
  direction : Direction;
  maxAttempts : Z;
  drainTimeoutMs : Z;
  namespace : jstr;
}.

(* src: devonian/src/reflect/engine.ts 62-62 DEFAULT_MAX_ATTEMPTS *)
Definition DEFAULT_MAX_ATTEMPTS : Z := 5.

(** The constructor's defaults. *)
(* src: devonian/src/reflect/engine.ts 81-98 constructor ! *)
Definition engine_options (d : option Direction) (attempts timeout : option Z) (ns : option jstr) : ReflectionOptions :=
  mkROptions (default Bidirectional d) (default DEFAULT_MAX_ATTEMPTS attempts) (default 15000 timeout)
    (default DEFAULT_NAMESPACE ns).

(** The options, and [Date.now()] when a write was just made. *)
Context (o : ReflectionOptions) (Date_now : S -> Z).

(* src: devonian/src/reflect/engine.ts 432-434 bodyOf *)
Definition bodyOf (r : Item) : jstr := default [] (f_body r).

(* src: devonian/src/reflect/engine.ts 436-438 stateOf *)
Definition stateOf (r : Item) : jstr := default (js "open") (f_state r).

(* src: devonian/src/reflect/engine.ts 444-449 endFor *)
Definition endFor (pair : Link * Link) (sys : jstr) : option Link :=
  if jeqb (l_system pair.1) sys then Some pair.1
  else if jeqb (l_system pair.2) sys then Some pair.2 else None.

(* src: devonian/src/reflect/engine.ts 451-459 pairKey *)
Definition pairKey (systemA idA systemB idB : jstr) : jstr :=
  join_str (js "|") (sort_by jcmp [systemA ++ js "#" ++ idA; systemB ++ js "#" ++ idB]).

(* src: devonian/src/reflect/engine.ts 115-117 parse ! *)
Definition parse (body : jstr) : option OriginRef := parseMarker body (namespace o).
(* src: devonian/src/reflect/engine.ts 119-121 embed ! *)
Definition embed (body : jstr) (ref : OriginRef) : option jstr := embedMarker body ref (namespace o).
(* src: devonian/src/reflect/engine.ts 123-125 strip ! *)
Definition strip (body : jstr) : jstr := stripMarker body (namespace o).

(** One poll of [drain]'s loop after another; with none left it would wait on. *)
(* src: devonian/src/reflect/engine.ts 410-429 drain *)
Fixpoint drain (deadline : Z) (seen : list (list PendingWrite * Z)) : res jstr unit :=
  match seen with
  | [] => Ok tt
  | (pending, now) :: seen' =>
      match pending with
      | [] => Ok tt
      | _ =>
          match List.find (fun w => (maxAttempts o <=? attempts w) &&
                             match w_lastError w with Some (_ :: _) => true | _ => false end) pending with
          | Some stuck => Err (js "write failed: " ++ default [] (w_lastError stuck))
          | None =>
              if deadline <? now then Err (js "timed out waiting for write to settle")
              else drain deadline seen'
          end
      end
  end.

(** Whether a record's marker names a record of a kind on a system. *)
Definition marks (kind_ sys id_ : jstr) (r : Item) : bool :=
  match parse (bodyOf r) with
  | Some m => jeqb (kind m) kind_ && jeqb (system m) sys && jeqb (id m) id_
  | None => false
  end.

(** What differs between reflecting issues and comments. *)
Record Reflect := mkReflect {
  r_kind : jstr;
  r_to : url;
  r_fields : Item -> jstr -> Fields;
  r_missing : jstr;
  r_from_label : jstr -> jstr;
  r_to_label : jstr -> jstr;
}.

Section OneWay.
Context (from to : ReflectionSide) (k : Reflect).

Definition origin (sourceId : jstr) : OriginRef := mkRef (side_system from) (r_kind k) sourceId.

(** Creates a marked copy of a record and finds its id. *)
(* src: devonian/src/reflect/engine.ts 189-218 createIssueCopy ! *)
Definition createCopy (s : S) (source : Item) : S * res jstr jstr :=
  match embed (strip (bodyOf source)) (origin (f_id source)) with
  | None => (s, Err (js "URI malformed"))
  | Some body =>
      let s1 := create (client to) s (r_to k) (r_fields k source body) in
      let s2 := settled (client to) s1 (r_to k) in
      match drain (Date_now s1 + drainTimeoutMs o) (polls (client to) s1 (r_to k)) with
      | Err e => (s2, Err e)
      | Ok _ =>
          match List.find (marks (r_kind k) (side_system from) (f_id source)) (list_ (client to) s2 (r_to k)) with
          | None => (s2, Err (r_missing k))
          | Some copy => (s2, Ok (f_id copy))
          end
      end
  end.

(** The copies already there, by the source id their marker names. *)
(* src: devonian/src/reflect/engine.ts 135-145 reflectCreates ! *)
Definition existing_step (m : list (jstr * jstr)) (r : Item) : list (jstr * jstr) :=
  match parse (bodyOf r) with
  | Some ref => if jeqb (kind ref) (r_kind k) && jeqb (system ref) (side_system from)
                then jset (id ref) (f_id r) m else m
  | None => m
  end.
Definition existing (dest : list Item) : list (jstr * jstr) := fold_left existing_step dest [].

Record Pass := mkPass { p_to : S; p_map : link_map; p_summary : ReflectionSummary }.

Definition is_echo (r : Item) : bool :=
  match parse (bodyOf r) with Some m => jeqb (system m) (side_system to) | None => false end.

(** The id of the copy that is known, by the id-map or by its marker. *)
Definition known (m : link_map) (copies : list (jstr * jstr)) (sourceId : jstr) : option jstr :=
  match counterpart m (r_kind k) (side_system from) sourceId with
  | Some l => Some (l_id l)
  | None => jget sourceId copies
  end.

Definition link_copy (m : link_map) (sourceId toId : jstr) : link_map :=
  link m (r_kind k) (mkLink (side_system from) sourceId) (mkLink (side_system to) toId).

(** The body of the loop over the sources. *)
(* src: devonian/src/reflect/engine.ts 147-186 reflectCreates ! *)
Definition reflect_one (copies : list (jstr * jstr)) (p : Pass) (source : Item) : Pass :=
  let id_ := f_id source in
  if is_echo source then p
  else
    match known (p_map p) copies id_ with
    | Some toId => mkPass (p_to p) (link_copy (p_map p) id_ toId) (p_summary p)
    | None =>
        let sm := p_summary p in
        match createCopy (p_to p) source with
        | (s', Ok toId) =>
            mkPass s' (link_copy (p_map p) id_ toId)
              (mkSummary (created sm ++ [(r_kind k, r_from_label k id_, r_to_label k toId)]) (updated sm) (errors sm))
        | (s', Err e) =>
            mkPass s' (p_map p)
              (mkSummary (created sm) (updated sm) (errors sm ++ [(r_kind k, r_from_label k id_, e)]))
        end
    end.

(* src: devonian/src/reflect/engine.ts 127-187 reflectCreates ! *)
Definition reflect_all (sources : list Item) (p : Pass) : Pass :=
  fold_left (reflect_one (existing (list_ (client to) (p_to p) (r_to k)))) sources p.
End OneWay.

Definition hash_label (sys id_ : jstr) : jstr := sys ++ js "#" ++ id_.

Definition issue_reflect (from to : ReflectionSide) : Reflect :=
  mkReflect (js "issue") Issues
    (fun source body => mkFields (Some (default [] (f_title source))) body)
    (js "created copy not found after write settled")
    (hash_label (side_system from)) (hash_label (side_system to)).

Definition comment_reflect (from : ReflectionSide) (fromIssueId : jstr) (to : ReflectionSide) (toIssueId : jstr) : Reflect :=
  mkReflect (js "comment") (CommentsOf toIssueId)
    (fun _ body => mkFields None body)
    (js "created comment copy not found after write settled")
    (fun id_ => hash_label (side_system from) fromIssueId ++ js "/" ++ id_)
    (fun id_ => hash_label (side_system to) toIssueId ++ js "/" ++ id_).

(* src: devonian/src/reflect/engine.ts 127-187 reflectCreates ! *)
Definition reflectCreates (from to : ReflectionSide) (s_from : S) (p : Pass) : Pass :=
  reflect_all from to (issue_reflect from to) (list_ (client from) s_from Issues) p.

(* src: devonian/src/reflect/engine.ts 330-408 reflectCommentsOneWay ! *)
Definition reflectCommentsOneWay (from : ReflectionSide) (fromIssueId : jstr) (to : ReflectionSide)
    (toIssueId : jstr) (s_from : S) (p : Pass) : res jstr (S * Pass) :=
  s_from ← sync (client from) s_from (CommentsOf fromIssueId);
  s_to ← sync (client to) (p_to p) (CommentsOf toIssueId);
  Ok (s_from, reflect_all from to (comment_reflect from fromIssueId to toIssueId)
        (list_ (client from) s_from (CommentsOf fromIssueId)) (mkPass s_to (p_map p) (p_summary p))).

(** ** Both sides *)

Record World := mkWorld {
  w_a : S;
  w_b : S;
  w_map : link_map;
  w_ledger : list (jstr * jstr);
  w_summary : ReflectionSummary;
}.

Definition set_summary (w : World) (sm : ReflectionSummary) : World :=
  mkWorld (w_a w) (w_b w) (w_map w) (w_ledger w) sm.
Definition set_ledger (w : World) (key_ state : jstr) : World :=
  mkWorld (w_a w) (w_b w) (w_map w) (jset key_ state (w_ledger w)) (w_summary w).

Section Pass.
Context (a b : ReflectionSide).

(** Which side is written, and with which state: the side that changed since
    the last agreement wins, and the original where that does not decide. *)
(* src: devonian/src/reflect/engine.ts 256-280 reflectState ! *)
Definition decide_state (aIssue bIssue : Item) (last : option jstr) : bool * jstr :=
  let aState := stateOf aIssue in
  let bState := stateOf bIssue in
  let a_original :=
    match parse (bodyOf aIssue) with
    | Some m => negb (jeqb (system m) (side_system b))
    | None => true
    end in
  match last with
  | Some l =>
      if negb (jeqb aState l) && jeqb bState l then (false, aState)
      else if negb (jeqb bState l) && jeqb aState l then (true, bState)
      else if a_original then (false, aState) else (true, bState)
  | None => if a_original then (false, aState) else (true, bState)
  end.

(** Writes the winner to side a ([to_a]) or side b. *)
Definition write_state (w : World) (to_a : bool) (target_id winner key_ : jstr) : World :=
  let target := if to_a then a else b in
  let '(s', r) := setState (client target) (if to_a then w_a w else w_b w) target_id winner in
  let w1 := if to_a then mkWorld s' (w_b w) (w_map w) (w_ledger w) (w_summary w)
            else mkWorld (w_a w) s' (w_map w) (w_ledger w) (w_summary w) in
  let sm := w_summary w in
  let label := hash_label (side_system target) target_id in
  match r with
  | Ok _ => set_summary (set_ledger w1 key_ winner)
      (mkSummary (created sm) (updated sm ++ [(js "issue", label, winner)]) (errors sm))
  | Err e => set_summary w1 (mkSummary (created sm) (updated sm) (errors sm ++ [(js "issue", label, e)]))
  end.

(** The body of the loop over the pairs. *)
Definition reflect_pair_state (w : World) (pair : Link * Link) : World :=
  match endFor pair (side_system a), endFor pair (side_system b) with
  | Some aEnd, Some bEnd =>
      match get (client a) (w_a w) (l_id aEnd), get (client b) (w_b w) (l_id bEnd) with
      | Some aIssue, Some bIssue =>
          let key_ := pairKey (side_system a) (l_id aEnd) (side_system b) (l_id bEnd) in
          let last := jget key_ (w_ledger w) in
          if jeqb (stateOf aIssue) (stateOf bIssue) then
            if bool_decide (last = Some (stateOf aIssue)) then w else set_ledger w key_ (stateOf aIssue)
          else
            let '(to_a, winner) := decide_state aIssue bIssue last in
            write_state w to_a (if to_a then l_id aEnd else l_id bEnd) winner key_
      | _, _ => w
      end
  | _, _ => w
  end.

(* src: devonian/src/reflect/engine.ts 220-297 reflectState ! *)
Definition reflectState (w : World) : World :=
  fold_left reflect_pair_state (links (w_map w) (js "issue")) w.

(** The body of the loop over the pairs: one way, and back. *)
Definition reflect_pair_comments (w : World) (pair : Link * Link) : res jstr World :=
  match endFor pair (side_system a), endFor pair (side_system b) with
  | Some aEnd, Some bEnd =>
      '(sa, p) ← reflectCommentsOneWay a (l_id aEnd) b (l_id bEnd) (w_a w)
                   (mkPass (w_b w) (w_map w) (w_summary w));
      match direction o with
      | AToB => Ok (mkWorld sa (p_to p) (p_map p) (w_ledger w) (p_summary p))
      | Bidirectional =>
          '(sb, p) ← reflectCommentsOneWay b (l_id bEnd) a (l_id aEnd) (p_to p)
                       (mkPass sa (p_map p) (p_summary p));
          Ok (mkWorld (p_to p) sb (p_map p) (w_ledger w) (p_summary p))
      end
  | _, _ => Ok w
  end.

(* src: devonian/src/reflect/engine.ts 299-328 reflectComments ! *)
Definition reflectComments (w : World) : res jstr World :=
  foldM reflect_pair_comments w (links (w_map w) (js "issue")).

(** One pass; an error of a [sync] ends it. *)
(* src: devonian/src/reflect/engine.ts 100-113 reflect *)
Definition reflect (sa sb : S) (m : link_map) (ledger : list (jstr * jstr)) : res jstr World :=
  sa ← sync (client a) sa Issues;
  sb ← sync (client b) sb Issues;
  let p := reflectCreates a b sa (mkPass sb m (mkSummary [] [] [])) in
  let w :=
    match direction o with
    | AToB => mkWorld sa (p_to p) (p_map p) ledger (p_summary p)
    | Bidirectional =>
        let q := reflectCreates b a (p_to p) (mkPass sa (p_map p) (p_summary p)) in
        mkWorld (p_to q) (p_to p) (p_map q) ledger (p_summary q)
    end in
  reflectComments (reflectState w).
End Pass.
End Engine.

(** ** What is promised of a server *)

Section Theorems.
Context {S : Type} (o : ReflectionOptions) (Date_now : S -> Z).

(** A write that has settled is listed, as it was sent and under a new id; one
    that has not may be.  Setting a record's state leaves its body.

    A client that creates a record once per call promises this.  The one of
    [Client] does as long as no create fails half-way: it sends a create again
    whose answer was lost, and then the server may have made two records; and
    it lists a record under a local id until the server names it.  What needs
    no such promise, the calls that a pass makes, is [reflect_copies]. *)
Class Server (c : ApiClient (S := S)) : Prop := {
  server_create s u f :
    let s1 := create c s u f in
    exists copies, list_ c (settled c s1 u) u = list_ c s u ++ copies /\
      (copies = [] \/ exists i st, copies = [mkItem i (n_title f) (Some (n_body f)) st] /\
         i ∉ map f_id (list_ c s u)) /\
      (drain o (Date_now s1 + drainTimeoutMs o) (polls c s1 u) = Ok tt -> copies <> []);
  server_state s i st s' r :
    setState c s i st = (s', Ok tt) -> get c s i = Some r ->
    exists r', get c s' i = Some r' /\ stateOf r' = st /\ bodyOf r' = bodyOf r;
}.

(** ** One way *)

Section OneWay.
Context (from to : ReflectionSide (S := S)) (k : Reflect).
Abbreviation reflect_one := (reflect_one o Date_now from to k).
Abbreviation existing := (existing o from k).
Abbreviation known := (known from k).
Abbreviation origin := (origin from k).
Abbreviation linked_to m i := (is_Some (counterpart m (r_kind k) (side_system from) i)).

Lemma is_Some_jset {V} (k1 k2 : jstr) (v : V) m : is_Some (jget k1 m) -> is_Some (jget k1 (jset k2 v m)).
Proof. intros H. rewrite jget_jset. destruct (decide (k1 = k2)); [by eexists|done]. Qed.

Lemma linked_mono m i j t : linked_to m i -> linked_to (link_copy from to k m j t) i.
Proof. intros H. unfold link_copy, link, record, counterpart. by apply is_Some_jset, is_Some_jset. Qed.

Lemma linked_new_one m i t : linked_to (link_copy from to k m i t) i.
Proof.
  unfold link_copy, link, record, counterpart. cbn [l_system l_id]. apply is_Some_jset.
  rewrite jget_jset, decide_True by done. by eexists.
Qed.

(** One source: nothing, a link, a copy and its link, or an error. *)
Lemma reflect_one_spec copies p r :
  let q := reflect_one copies p r in
  is_echo o to r = true /\ q = p \/
  is_echo o to r = false /\ (exists t, known (p_map p) copies (f_id r) = Some t /\
    q = mkPass (p_to p) (link_copy from to k (p_map p) (f_id r) t) (p_summary p)) \/
  is_echo o to r = false /\ known (p_map p) copies (f_id r) = None /\
    ((exists t, snd (createCopy o Date_now from to k (p_to p) r) = Ok t /\
        p_map q = link_copy from to k (p_map p) (f_id r) t /\ errors (p_summary q) = errors (p_summary p)) \/
     (exists e, snd (createCopy o Date_now from to k (p_to p) r) = Err e /\ p_map q = p_map p /\
        length (errors (p_summary q)) = Datatypes.S (length (errors (p_summary p))))) /\
    p_to q = fst (createCopy o Date_now from to k (p_to p) r).
Proof.
  cbn zeta. unfold Engine.reflect_one. destruct (is_echo o to r); [by left|]. right.
  destruct (Engine.known _ _ _ _ _) as [t|]; [left; split; [done|]; by exists t|]. right.
  destruct (createCopy _ _ _ _ _ _ _) as [s' [t|e]]; cbn [fst snd p_map p_to p_summary errors].
  - split_and!; try done. left. by exists t.
  - split_and!; try done. right. exists e. split_and!; try done. rewrite length_app. cbn. lia.
Qed.

Lemma reflect_mono copies p r :
  (forall i, linked_to (p_map p) i -> linked_to (p_map (reflect_one copies p r)) i) /\
  (length (errors (p_summary p)) <= length (errors (p_summary (reflect_one copies p r))))%nat.
Proof.
  destruct (reflect_one_spec copies p r) as [[_ ->]|[(_ & t & _ & ->)|(_ & _ & Hq & _)]].
  - done.
  - split; [|done]. intros i. by apply linked_mono.
  - destruct Hq as [(t & _ & -> & ->)|(e & _ & -> & ->)]; split; try lia; try done.
    intros i. by apply linked_mono.
Qed.

Lemma fold_mono copies sources p :
  (forall i, linked_to (p_map p) i -> linked_to (p_map (fold_left (reflect_one copies) sources p)) i) /\
  (length (errors (p_summary p)) <= length (errors (p_summary (fold_left (reflect_one copies) sources p))))%nat.
Proof.
  revert p. induction sources as [|r sources IH]; intros p; [done|]. cbn [fold_left].
  destruct (IH (reflect_one copies p r)) as [H1 H2], (reflect_mono copies p r) as [H3 H4].
  split; [auto|lia].
Qed.

(** Without an error every source that is not an echo ends up linked. *)
Lemma fold_linked copies sources p r :
  errors (p_summary (fold_left (reflect_one copies) sources p)) = errors (p_summary p) ->
  r ∈ sources -> is_echo o to r = false ->
  linked_to (p_map (fold_left (reflect_one copies) sources p)) (f_id r).
Proof.
  intros He. assert (Hlen : (length (errors (p_summary (fold_left (reflect_one copies) sources p))) <=
    length (errors (p_summary p)))%nat) by (by rewrite He). clear He. revert p Hlen.
  induction sources as [|x sources IH]; intros p Hlen Hin Hecho; [by apply elem_of_nil in Hin|].
  cbn [fold_left] in *. destruct (reflect_mono copies p x) as [_ H4].
  destruct (fold_mono copies sources (reflect_one copies p x)) as [H1 H2].
  apply elem_of_cons in Hin as [->|Hin]; [|apply IH; [lia|done|done]].
  apply H1. destruct (reflect_one_spec copies p x) as [[He _]|[(_ & t & _ & ->)|(_ & _ & Hq & _)]].
  - congruence.
  - apply linked_new_one.
  - destruct Hq as [(t & _ & -> & _)|(e & _ & _ & Hl)]; [apply linked_new_one|lia].
Qed.

(** A pass whose sources are all known creates nothing. *)
Lemma fold_idle copies sources p :
  (forall r, r ∈ sources -> is_echo o to r = false ->
     linked_to (p_map p) (f_id r) \/ is_Some (jget (f_id r) copies)) ->
  let q := fold_left (reflect_one copies) sources p in
  p_to q = p_to p /\ p_summary q = p_summary p.
Proof.
  revert p. induction sources as [|x sources IH]; intros p Hall; [done|]. cbn [fold_left].
  destruct (IH (reflect_one copies p x)) as [H1 H2].
  { intros r Hr Hecho. destruct (Hall r) as [Hl|Hc]; [by right|done| |by right].
    left. by apply reflect_mono. }
  rewrite H1, H2. destruct (reflect_one_spec copies p x) as [[_ ->]|[(_ & t & _ & ->)|(He & Hk & _)]]; [done|done|].
  exfalso. unfold Engine.known in Hk. destruct (Hall x) as [[l Hl]|[t Ht]]; [by left|done| |].
  - by rewrite Hl in Hk.
  - rewrite Ht in Hk. by destruct (counterpart _ _ _ _).
Qed.

(** A record made as the marked copy of a source. *)
Definition copy_of (source copy : Item) : Prop :=
  embed o (strip o (bodyOf source)) (origin (f_id source)) = Some (bodyOf copy).

(** The fields sent have the body that was made. *)
Definition fields_body : Prop := forall r b, n_body (r_fields k r b) = b.

Abbreviation dest s := (list_ (client to) s (r_to k)).
Abbreviation marked i := (marks o (r_kind k) (side_system from) i).

Lemma createCopy_list `{!Server (client to)} s r :
  fields_body ->
  exists copies, dest (fst (createCopy o Date_now from to k s r)) = dest s ++ copies /\
  (copies = [] \/ exists c, copies = [c] /\ copy_of r c).
Proof.
  intros Hf. unfold createCopy, copy_of. destruct (embed _ _ _) as [body|] eqn:Hb.
  2: { exists []. split; [cbn [fst]; by rewrite app_nil_r|by left]. }
  destruct (server_create (c := client to) s (r_to k) (r_fields k r body)) as (copies & Hl & Hc & _).
  cbn zeta. exists copies. split.
  - destruct (drain _ _ _); [|exact Hl]. destruct (List.find _ _); exact Hl.
  - destruct Hc as [->|(i & st & -> & _)]; [by left|right]. eexists. split; [done|].
    unfold bodyOf. cbn [f_body default]. by rewrite Hf.
Qed.

(** A copy that was found is listed with its marker. *)
Lemma createCopy_found s r t :
  snd (createCopy o Date_now from to k s r) = Ok t ->
  exists x, x ∈ dest (fst (createCopy o Date_now from to k s r)) /\ marked (f_id r) x = true.
Proof.
  unfold createCopy. destruct (embed _ _ _) as [body|]; [|done]. cbn zeta.
  destruct (drain _ _ _); [|done].
  destruct (List.find _ _) as [x|] eqn:Hx; [|done]. intros _. cbn [fst].
  apply find_some in Hx as [Hin Hm]. exists x. split; [by apply list_elem_of_In|done].
Qed.

Lemma existing_spec l i : is_Some (jget i (existing l)) <-> exists x, x ∈ l /\ marked i x = true.
Proof.
  unfold Engine.existing. induction l as [|x l IH] using rev_ind.
  { cbn. split; [by intros [? ?]|by intros (? & ?%elem_of_nil & _)]. }
  rewrite fold_left_app. cbn [fold_left]. unfold existing_step at 1.
  assert (Hm : forall ref, parse o (bodyOf x) = Some ref ->
    marked i x = jeqb (kind ref) (r_kind k) && jeqb (system ref) (side_system from) && jeqb (id ref) i).
  { intros ref Href. unfold marks. by rewrite Href. }
  assert (Hn : parse o (bodyOf x) = None -> marked i x = false) by (intros Hp; unfold marks; by rewrite Hp).
  setoid_rewrite elem_of_app. setoid_rewrite list_elem_of_singleton.
  destruct (parse o (bodyOf x)) as [ref|].
  - specialize (Hm ref eq_refl). destruct (jeqb (kind ref) (r_kind k) && _) eqn:E; cbn [andb] in Hm.
    + rewrite jget_jset. unfold jeqb in Hm. destruct (decide (i = id ref)) as [->|Hne].
      * rewrite bool_decide_true in Hm by done. split; [intros _; exists x; naive_solver|by eexists].
      * rewrite bool_decide_false in Hm by congruence. rewrite IH. naive_solver congruence.
    + rewrite IH. naive_solver congruence.
  - specialize (Hn eq_refl). rewrite IH. naive_solver congruence.
Qed.

Lemma fold_copies `{!Server (client to)} copies sources p :
  fields_body ->
  exists srcs made, dest (p_to (fold_left (reflect_one copies) sources p)) = dest (p_to p) ++ made /\
    Forall2 copy_of srcs made /\ srcs `sublist_of` sources /\
    Forall (fun r => is_echo o to r = false /\ jget (f_id r) copies = None /\
              ~ linked_to (p_map p) (f_id r)) srcs.
Proof.
  intros Hf. revert p. induction sources as [|r sources IH]; intros p; cbn [fold_left].
  { exists [], []. by rewrite app_nil_r. }
  destruct (IH (reflect_one copies p r)) as (srcs & made & Hl & Hc & Hs & Hall).
  assert (Hall' : Forall (fun r => is_echo o to r = false /\ jget (f_id r) copies = None /\
              ~ linked_to (p_map p) (f_id r)) srcs).
  { eapply Forall_impl; [exact Hall|]. intros x (H1 & H2 & H3). split_and!; try done.
    intros H. apply H3. by apply reflect_mono. }
  destruct (reflect_one_spec copies p r) as [[_ Hq]|[(_ & t & _ & Hq)|(He & Hk & _ & Hq)]].
  - rewrite Hq in Hl. exists srcs, made. rewrite Hq. split_and!; try done. by apply sublist_cons.
  - exists srcs, made. rewrite Hl, Hq. split_and!; try done. by apply sublist_cons.
  - destruct (createCopy_list (p_to p) r Hf) as (cs & Hcs & Hcase). rewrite Hq, Hcs in Hl.
    destruct Hcase as [->|(c & -> & Hcopy)].
    + exists srcs, made. rewrite Hl, app_nil_r. split_and!; try done. by apply sublist_cons.
    + exists (r :: srcs), (c :: made). rewrite Hl, <-app_assoc. split_and!; [done|by constructor|by apply sublist_skip|].
      constructor; [|done]. unfold Engine.known in Hk. split; [done|].
      destruct (counterpart _ _ _ _); [done|]. split; [done|]. by intros [? ?].
Qed.

(** The same of the records that the destination lists, of a client that keeps
    the promise of [Server]: each new one is the copy of one source. *)
Lemma reflect_records `{!Server (client to)} sources p :
  fields_body ->
  let q := reflect_all o Date_now from to k sources p in
  exists srcs made, dest (p_to q) = dest (p_to p) ++ made /\
    Forall2 copy_of srcs made /\ srcs `sublist_of` sources /\
    Forall (fun r => is_echo o to r = false /\ ~ linked_to (p_map p) (f_id r) /\
              Forall (fun x => marked (f_id r) x = false) (dest (p_to p))) srcs.
Proof.
  intros Hf q. destruct (fold_copies (existing (dest (p_to p))) sources p Hf) as (srcs & made & Hl & Hc & Hs & Hall).
  exists srcs, made. split_and!; try done. eapply Forall_impl; [exact Hall|]. intros r (H1 & H2 & H3).
  split_and!; try done. apply Forall_forall. intros x Hx. destruct (marked (f_id r) x) eqn:E; [|done].
  assert (is_Some (jget (f_id r) (existing (dest (p_to p))))) as [? Hsome] by (apply existing_spec; eauto).
  congruence.
Qed.

(** C6 (equivalence). A pass that reported no error leaves nothing to do: with
    the id-map it made, a later pass over the same sources writes nothing,
    whatever happened to the destination in between, and reports nothing. *)
Theorem reflect_idempotent sources p p2 :
  let q := reflect_all o Date_now from to k sources p in
  errors (p_summary q) = errors (p_summary p) -> p_map p2 = p_map q ->
  let q2 := reflect_all o Date_now from to k sources p2 in
  p_to q2 = p_to p2 /\ p_summary q2 = p_summary p2.
Proof.
  intros q Herr Hmap q2. apply fold_idle. intros r Hr Hecho. left. rewrite Hmap.
  by apply fold_linked.
Qed.

(** ** A lost id-map *)

Lemma key_system kind_ s1 i1 s2 i2 :
  Forall (fun c => c <> 32) s1 -> Forall (fun c => c <> 32) s2 ->
  key kind_ s1 i1 = key kind_ s2 i2 -> s1 = s2 /\ i1 = i2.
Proof.
  intros H1 H2 Heq. unfold key in Heq. apply app_inv_head in Heq. apply app_inv_head in Heq.
  assert (Hspan : forall s i, Forall (fun c => c <> 32) s ->
    span (fun c => negb (c =? 32)) (s ++ js " " ++ i) = (s, 32 :: i)).
  { intros s i Hs. change (s ++ js " " ++ i) with (s ++ 32 :: i). apply span_stop; [|done].
    eapply Forall_impl; [exact Hs|]. intros c Hc. apply negb_true_iff. by apply Z.eqb_neq. }
  apply (f_equal (span (fun c => negb (c =? 32)))) in Heq. rewrite !Hspan in Heq by done. by injection Heq.
Qed.

Definition systems_ok : Prop :=
  side_system from <> side_system to /\
  Forall (fun c => c <> 32) (side_system from) /\ Forall (fun c => c <> 32) (side_system to).

Lemma linked_link_copy m j t i : systems_ok ->
  linked_to (link_copy from to k m j t) i -> i = j \/ linked_to m i.
Proof.
  intros (Hne & Hf & Ht) [l Hl]. unfold link_copy, link, record, counterpart in Hl. cbn [l_system l_id] in Hl.
  rewrite !jget_jset in Hl. destruct (decide (key _ _ _ = key _ (side_system to) _)) as [E|_].
  { by apply key_system in E as [? _]. }
  destruct (decide (key _ _ _ = key _ _ _)) as [E|_].
  { apply key_system in E as [_ ?]; [by left|done|done]. }
  right. by eexists.
Qed.

(** Every linked source has a listed copy. *)
Definition map_backed (p : Pass (S := S)) : Prop := forall i,
  linked_to (p_map p) i -> exists x, x ∈ dest (p_to p) /\ marked i x = true.

Lemma dest_grows `{!Server (client to)} copies p r : fields_body ->
  forall x, x ∈ dest (p_to p) -> x ∈ dest (p_to (reflect_one copies p r)).
Proof.
  intros Hf x Hx. destruct (reflect_one_spec copies p r) as [[_ ->]|[(_ & t & _ & ->)|(_ & _ & _ & ->)]];
    [done|done|]. destruct (createCopy_list (p_to p) r Hf) as (cs & -> & _). apply elem_of_app. by left.
Qed.

Lemma backed_step `{!Server (client to)} copies p r :
  fields_body -> systems_ok ->
  (forall i, is_Some (jget i copies) -> exists x, x ∈ dest (p_to p) /\ marked i x = true) ->
  map_backed p -> map_backed (reflect_one copies p r).
Proof.
  intros Hf Hsys Hcopies Hb i Hi.
  destruct (reflect_one_spec copies p r) as [[_ Hq]|[(_ & t & Hk & Hq)|(_ & _ & Hcase & Hto)]].
  - rewrite Hq in *. by apply Hb.
  - rewrite Hq in Hi |- *. cbn [p_map p_to] in *. apply linked_link_copy in Hi as [->|Hi]; [|by apply Hb|done].
    unfold Engine.known in Hk. destruct (counterpart _ _ _ _) eqn:E; [apply Hb; by eexists|].
    apply Hcopies. by eexists.
  - assert (Hgrow : (exists x, x ∈ dest (p_to p) /\ marked i x = true) ->
      exists x, x ∈ dest (p_to (reflect_one copies p r)) /\ marked i x = true).
    { intros (x & Hx & Hm). exists x. split; [by apply dest_grows|done]. }
    destruct Hcase as [(t & Ht & Hmap & _)|(e & _ & Hmap & _)]; rewrite Hmap in Hi.
    + apply linked_link_copy in Hi as [->|Hi]; [|apply Hgrow; by apply Hb|done].
      rewrite Hto. by apply (createCopy_found _ _ t).
    + apply Hgrow. by apply Hb.
Qed.

Lemma backed_fold `{!Server (client to)} copies sources p :
  fields_body -> systems_ok ->
  (forall i, is_Some (jget i copies) -> exists x, x ∈ dest (p_to p) /\ marked i x = true) ->
  map_backed p -> map_backed (fold_left (reflect_one copies) sources p).
Proof.
  intros Hf Hsys. revert p. induction sources as [|r sources IH]; intros p Hc Hb; [done|]. cbn [fold_left].
  apply IH; [|by apply backed_step]. intros i Hi. destruct (Hc i Hi) as (x & Hx & Hm). exists x.
  split; [by apply dest_grows|done].
Qed.

(** A lost id-map makes no duplicates: after a pass without
    errors from an empty map, a pass that again starts from an empty map finds
    every copy by its marker and writes nothing. *)
Theorem reflect_recovers `{!Server (client to)} sources s sm sm2 :
  fields_body -> systems_ok ->
  let q := reflect_all o Date_now from to k sources (mkPass s [] sm) in
  errors (p_summary q) = errors sm ->
  let q2 := reflect_all o Date_now from to k sources (mkPass (p_to q) [] sm2) in
  p_to q2 = p_to q /\ p_summary q2 = sm2.
Proof.
  intros Hf Hsys q Herr q2.
  refine (fold_idle (existing (dest (p_to q))) sources (mkPass (p_to q) [] sm2) _). intros r Hr Hecho. right. apply existing_spec.
  cbn [p_to]. apply (backed_fold (existing (dest s)) sources (mkPass s [] sm) Hf Hsys).
  - intros i Hi. by apply existing_spec.
  - intros i [l Hl]. done.
  - by apply fold_linked.
Qed.
End OneWay.

(** ** The calls of a pass *)

(** A client that also keeps a log of the calls to its [create]. *)
Definition logging (c : ApiClient (S := S)) : ApiClient (S := S * list (url * Fields)) :=
  mkClient (fun s u => match sync c s.1 u with Ok s' => Ok (s', s.2) | Err e => Err e end)
    (fun s u => list_ c s.1 u) (fun s i => get c s.1 i)
    (fun s u f => (create c s.1 u f, s.2 ++ [(u, f)]))
    (fun s u => polls c s.1 u) (fun s u => (settled c s.1 u, s.2))
    (fun s i st => let '(s', r) := setState c s.1 i st in ((s', s.2), r)).
Definition logging_side (x : ReflectionSide (S := S)) : ReflectionSide := mkSide (side_system x) (logging (client x)).

Section Calls.
Context (from to : ReflectionSide (S := S)) (k : Reflect).

(** The same with the log: what is kept of a pass that logs is the pass. *)
Abbreviation reflect_one' := (reflect_one o (fun s => Date_now s.1) (logging_side from) (logging_side to) k).
Definition unlogged (p : Pass (S := S * list (url * Fields))) : Pass (S := S) := mkPass (p_to p).1 (p_map p) (p_summary p).

(** The call that makes the marked copy of a source. *)
Definition copies_source (source : Item) (call : url * Fields) : Prop :=
  exists body, embed o (strip o (bodyOf source)) (origin from k (f_id source)) = Some body /\ call = (r_to k, r_fields k source body).

Lemma createCopy_calls s log r :
  let '(s', res) := createCopy o Date_now from to k s r in
  exists calls, createCopy o (fun s => Date_now s.1) (logging_side from) (logging_side to) k (s, log) r = ((s', log ++ calls), res)
    /\ (calls = [] \/ exists call, calls = [call] /\ copies_source r call).
Proof.
  unfold createCopy, copies_source. change (origin (logging_side from) k) with (origin from k).
  destruct (embed _ _ _) as [body|]; [|exists []; rewrite app_nil_r; by split; [|left]].
  cbn [logging_side logging client side_system create settled polls list_ fst snd].
  destruct (drain _ _ _); [destruct (List.find _ _)|].
  all: exists [(r_to k, r_fields k r body)]; split; [done|right; eauto].
Qed.

Lemma reflect_one_calls copies p r :
  unlogged (reflect_one' copies p r) = reflect_one o Date_now from to k copies (unlogged p) r
  /\ exists calls, (p_to (reflect_one' copies p r)).2 = (p_to p).2 ++ calls
    /\ (calls = [] \/ exists call, calls = [call] /\ copies_source r call
         /\ is_echo o to r = false /\ known from k (p_map p) copies (f_id r) = None).
Proof.
  unfold reflect_one. change (is_echo o (logging_side to)) with (is_echo o to).
  change (known (logging_side from) k) with (known from k). cbn [unlogged p_to p_map p_summary].
  destruct (is_echo o to r); [split; [done|exists []; rewrite app_nil_r; by split; [|left]]|].
  destruct (known from k (p_map p) copies (f_id r)) as [t|]; [split; [done|exists []; rewrite app_nil_r; by split; [|left]]|].
  pose proof (createCopy_calls (p_to p).1 (p_to p).2 r) as H. destruct (createCopy o Date_now from to k (p_to p).1 r) as [s' res].
  destruct H as (calls & Heq & Hcalls). rewrite <-surjective_pairing in Heq. rewrite Heq.
  destruct res as [t|e]; (split; [done|]); exists calls; (split; [done|]); destruct Hcalls as [->|(call & -> & Hcall)]; [by left|right; eauto..|by left|right; eauto].
Qed.

Lemma fold_calls copies sources : forall p,
  unlogged (fold_left (reflect_one' copies) sources p) = fold_left (reflect_one o Date_now from to k copies) sources (unlogged p)
  /\ exists srcs calls, (p_to (fold_left (reflect_one' copies) sources p)).2 = (p_to p).2 ++ calls
    /\ Forall2 copies_source srcs calls /\ srcs `sublist_of` sources
    /\ Forall (fun r => is_echo o to r = false /\ known from k (p_map p) copies (f_id r) = None) srcs.
Proof.
  induction sources as [|r sources IH]; intros p; cbn [fold_left].
  { split; [done|]. exists [], []. by rewrite app_nil_r. }
  destruct (reflect_one_calls copies p r) as [H1 (calls1 & H2 & H3)], (IH (reflect_one' copies p r)) as [G1 (srcs & calls & G2 & G3 & G4 & G5)].
  split; [by rewrite G1, H1|].
  assert (Forall (fun r => is_echo o to r = false /\ known from k (p_map p) copies (f_id r) = None) srcs) as Hall.
  { eapply Forall_impl; [exact G5|]. intros x [He Hk]. split; [done|].
    change (p_map (reflect_one' copies p r)) with (p_map (unlogged (reflect_one' copies p r))) in Hk. rewrite H1 in Hk.
    pose proof (proj1 (reflect_mono from to k copies (unlogged p) r) (f_id x)) as Hmono. cbn [unlogged p_map] in Hmono.
    unfold known in Hk |- *. cbn [p_map unlogged] in Hk. destruct (counterpart (p_map p) _ _ _) as [l|].
    - destruct (Hmono ltac:(eauto)) as [l' Hl']. by rewrite Hl' in Hk.
    - destruct (counterpart (p_map (reflect_one o Date_now from to k copies _ r)) _ _ _); done. }
  destruct H3 as [->|(call & -> & Hcall & He & Hk)].
  - exists srcs, calls. rewrite G2, H2, app_nil_r. split_and!; [done|done|by apply sublist_cons|done].
  - exists (r :: srcs), (call :: calls). rewrite G2, H2, <-app_assoc. split_and!; [done|by constructor|by apply sublist_skip|by constructor].
Qed.

(** C5 (safety). What one pass asks to be created, whatever the client does and
    whatever fails in it (a call that is never answered, one that is sent
    twice, a listing that shows nothing of it): with a log of the calls to the
    client's [create], which changes nothing else of the pass, the logged calls
    make the copies of some of the sources, in their order and at most one per
    source; each carries that source's stripped text and the marker that names
    it; and the source is no copy of a destination record itself, was not
    linked before the pass, and no record that the destination listed at its
    start has a marker that names it.  How many records the server makes of
    one call is the client's affair. *)
Theorem reflect_copies sources p :
  let start := mkPass (p_to p, []) (p_map p) (p_summary p) in
  let q := reflect_all o (fun s => Date_now s.1) (logging_side from) (logging_side to) k sources start in
  unlogged q = reflect_all o Date_now from to k sources p
  /\ exists srcs, Forall2 copies_source srcs (p_to q).2 /\ srcs `sublist_of` sources
    /\ Forall (fun r => is_echo o to r = false /\ counterpart (p_map p) (r_kind k) (side_system from) (f_id r) = None
         /\ Forall (fun x => marks o (r_kind k) (side_system from) (f_id r) x = false) (list_ (client to) (p_to p) (r_to k))) srcs.
Proof.
  intros start q. set (copies := existing o from k (list_ (client to) (p_to p) (r_to k))).
  destruct (fold_calls copies sources start) as [H1 (srcs & calls & H2 & H3 & H4 & H5)]. split.
  { replace p with (unlogged start) by (by destruct p). exact H1. }
  exists srcs. cbn [start p_to fst snd app] in H2. change (p_to q) with (p_to (fold_left (reflect_one' copies) sources start)). rewrite H2.
  split; [done|]. split; [done|]. eapply Forall_impl; [exact H5|]. intros r [He Hk]. split; [done|]. cbn [start p_map] in Hk.
  unfold known in Hk. destruct (counterpart _ _ _ _); [done|]. split; [done|]. apply Forall_forall. intros x Hx.
  destruct (marks _ _ _ _ x) eqn:E; [|done].
  assert (is_Some (jget (f_id r) copies)) as [? Hs] by (apply (existing_spec from k); eauto). by rewrite Hs in Hk.
Qed.
End Calls.

(** ** States *)

Section States.
Context (a b : ReflectionSide (S := S)).

(** The issue on side a is the original, by its marker. *)
Definition a_original (aIssue : Item) : bool :=
  match parse o (bodyOf aIssue) with
  | Some m => negb (jeqb (system m) (side_system b))
  | None => true
  end.

Definition agreed_state (last : option jstr) (aIssue bIssue : Item) : jstr :=
  if bool_decide (last = Some (stateOf bIssue)) then stateOf aIssue
  else if bool_decide (last = Some (stateOf aIssue)) then stateOf bIssue
  else if a_original aIssue then stateOf aIssue else stateOf bIssue.

Lemma decide_state_spec aIssue bIssue last :
  stateOf aIssue <> stateOf bIssue ->
  let '(to_a, winner) := decide_state o b aIssue bIssue last in
  winner = agreed_state last aIssue bIssue /\
  winner = if to_a then stateOf bIssue else stateOf aIssue.
Proof.
  intros Hne. unfold decide_state, agreed_state. cbn zeta. fold (a_original aIssue).
  destruct last as [l|]; [|rewrite !bool_decide_false by done; by destruct (a_original aIssue)].
  unfold jeqb. destruct (decide (stateOf bIssue = l)) as [<-|Hb].
  - rewrite (bool_decide_false (stateOf aIssue = _)), (bool_decide_true (stateOf bIssue = stateOf bIssue)) by done. cbn [negb andb].
    by rewrite bool_decide_true.
  - rewrite (bool_decide_false (stateOf bIssue = l)), andb_false_r by done. cbn [negb andb].
    rewrite (bool_decide_false (Some l = Some (stateOf bIssue))) by congruence.
    destruct (decide (stateOf aIssue = l)) as [<-|Ha].
    + by rewrite !bool_decide_true.
    + rewrite (bool_decide_false (stateOf aIssue = l)), (bool_decide_false (Some l = _)) by congruence.
      by destruct (a_original aIssue).
Qed.

(** A pair in agreement that the ledger knows is left alone. *)
Lemma reflect_pair_done w pair aEnd bEnd aIssue bIssue :
  endFor pair (side_system a) = Some aEnd -> endFor pair (side_system b) = Some bEnd ->
  get (client a) (w_a w) (l_id aEnd) = Some aIssue -> get (client b) (w_b w) (l_id bEnd) = Some bIssue ->
  stateOf aIssue = stateOf bIssue ->
  jget (pairKey (side_system a) (l_id aEnd) (side_system b) (l_id bEnd)) (w_ledger w) = Some (stateOf aIssue) ->
  reflect_pair_state o a b w pair = w.
Proof.
  intros H1 H2 H3 H4 Heq Hl. unfold reflect_pair_state. rewrite H1, H2, H3, H4, Hl, Heq. cbn zeta.
  unfold jeqb. by rewrite !bool_decide_true.
Qed.

(** Reconciling the states of one linked pair, when no error
    is reported: both issues are left in the same state, the ledger records
    it, and doing it again changes nothing, so that a change never bounces.
    The state is the one of the side that changed since the last agreement;
    where the ledger does not tell (no entry, or both sides changed) it is
    the original's, the copy being told by its marker. *)
Theorem reflect_pair_agrees `{!Server (client a)} `{!Server (client b)} w pair aEnd bEnd aIssue bIssue :
  endFor pair (side_system a) = Some aEnd -> endFor pair (side_system b) = Some bEnd ->
  get (client a) (w_a w) (l_id aEnd) = Some aIssue -> get (client b) (w_b w) (l_id bEnd) = Some bIssue ->
  let key_ := pairKey (side_system a) (l_id aEnd) (side_system b) (l_id bEnd) in
  let w' := reflect_pair_state o a b w pair in
  errors (w_summary w') = errors (w_summary w) ->
  let st := agreed_state (jget key_ (w_ledger w)) aIssue bIssue in
  (exists aIssue' bIssue',
     get (client a) (w_a w') (l_id aEnd) = Some aIssue' /\ stateOf aIssue' = st /\
     get (client b) (w_b w') (l_id bEnd) = Some bIssue' /\ stateOf bIssue' = st) /\
  jget key_ (w_ledger w') = Some st /\ reflect_pair_state o a b w' pair = w'.
Proof.
  intros H1 H2 H3 H4 key_ w' Herr st.
  assert (Hagree : exists aIssue' bIssue',
     get (client a) (w_a w') (l_id aEnd) = Some aIssue' /\ stateOf aIssue' = st /\
     get (client b) (w_b w') (l_id bEnd) = Some bIssue' /\ stateOf bIssue' = st /\
     jget key_ (w_ledger w') = Some st).
  { subst w'. unfold reflect_pair_state in *. rewrite H1, H2, H3, H4 in *. cbn zeta in *. fold key_ in Herr |- *.
    destruct (jeqb (stateOf aIssue) (stateOf bIssue)) eqn:Eq.
    - apply bool_decide_eq_true in Eq.
      assert (st = stateOf aIssue) as ->.
      { unfold st, agreed_state. rewrite <-Eq. repeat case_match; done. }
      exists aIssue, bIssue. case_bool_decide as Hl; [done|].
      cbn [set_ledger w_a w_b w_ledger]. rewrite jget_jset, decide_True by done. done.
    - apply bool_decide_eq_false in Eq.
      pose proof (decide_state_spec aIssue bIssue (jget key_ (w_ledger w)) Eq) as Hd.
      destruct (decide_state _ _ _ _ _) as [to_a winner]. destruct Hd as [Hw Hside]. fold st in Hw.
      rewrite Hw in *. clear Hw winner. unfold write_state in *.
      destruct to_a; destruct (setState _ _ _ _) as [s' [[]|e]] eqn:Hset;
        try (exfalso; cbn in Herr; apply (f_equal length) in Herr; rewrite length_app in Herr; cbn in Herr; lia).
      + eapply server_state in Hset as (r' & Hr' & Hst & _); [|exact H3].
        exists r', bIssue. cbn [set_summary set_ledger w_a w_b w_ledger]. rewrite jget_jset, decide_True by done. done.
      + eapply server_state in Hset as (r' & Hr' & Hst & _); [|exact H4].
        exists aIssue, r'. cbn [set_summary set_ledger w_a w_b w_ledger]. rewrite jget_jset, decide_True by done. done. }
  destruct Hagree as (aIssue' & bIssue' & Ha & Hsa & Hb & Hsb & Hl).
  split; [by exists aIssue', bIssue'|]. split; [done|].
  apply (reflect_pair_done w' pair aEnd bEnd aIssue' bIssue'); [done..|by rewrite Hsa, Hsb|rewrite Hsa; exact Hl].
Qed.
End States.
End Theorems.

(** ** A concrete server, and witnesses *)

Section Demo.
Abbreviation store_ := (list (url * Item)).

Definition of_url (s : store_) (u : url) : list Item :=
  map snd (List.filter (fun p => bool_decide (p.1 = u)) s).

Definition demo_get (s : store_) (i : jstr) : option Item :=
  List.find (fun r => bool_decide (f_id r = i)) (of_url s Issues).

(** An id longer than every other one. *)
Definition demo_id (s : store_) : jstr := 49 :: concat (map (fun p => f_id p.2) s).

Definition demo_set (i st : jstr) (p : url * Item) : url * Item :=
  if bool_decide (p.1 = Issues) && bool_decide (f_id p.2 = i)
  then (p.1, mkItem (f_id p.2) (f_title p.2) (f_body p.2) (Some st)) else p.

Definition demo_client : ApiClient (S := store_) :=
  mkClient (fun s _ => Ok s) of_url demo_get
    (fun s u f => s ++ [(u, mkItem (demo_id s) (n_title f) (Some (n_body f)) (Some (js "open")))])
    (fun _ _ => [([], 0)]) (fun s _ => s)
    (fun s i st => (map (demo_set i st) s, Ok tt)).

Lemma of_url_app s t u : of_url (s ++ t) u = of_url s u ++ of_url t u.
Proof. unfold of_url. by rewrite List.filter_app, map_app. Qed.

Lemma demo_id_fresh s u : demo_id s ∉ map f_id (of_url s u).
Proof.
  intros Hin. unfold of_url in Hin. rewrite map_map in Hin. apply list_elem_of_fmap in Hin as (p & Heq & Hin).
  apply list_elem_of_In, filter_In in Hin as [Hin _]. apply list_elem_of_In in Hin.
  assert (length (f_id p.2) <= length (concat (map (fun p => f_id p.2) s)))%nat as Hlen.
  { clear Heq. induction s as [|q s IH]; [by apply elem_of_nil in Hin|]. cbn [map concat]. rewrite length_app.
    apply elem_of_cons in Hin as [->|Hin]; [lia|]. specialize (IH Hin). lia. }
  unfold demo_id in Heq. apply (f_equal length) in Heq. cbn [length] in Heq. lia.
Qed.

Lemma demo_get_set s i st r :
  demo_get s i = Some r ->
  demo_get (map (demo_set i st) s) i = Some (mkItem (f_id r) (f_title r) (f_body r) (Some st)).
Proof.
  unfold demo_get, of_url. induction s as [|[u x] s IH]; [done|]. cbn [map List.filter fst].
  assert (Hset : demo_set i st (u, x) = (u, if bool_decide (u = Issues) && bool_decide (f_id x = i)
            then mkItem (f_id x) (f_title x) (f_body x) (Some st) else x)).
  { unfold demo_set. cbn [fst snd]. by destruct (_ && _). }
  rewrite Hset. cbn [fst]. destruct (bool_decide (u = Issues)); [|exact IH].
  cbn [andb map List.find snd]. destruct (bool_decide (f_id x = i)) eqn:Ex.
  - intros [= ->]. cbn [f_id]. by rewrite Ex.
  - rewrite Ex. exact IH.
Qed.

Lemma demo_server o Date_now : Server o Date_now demo_client.
Proof.
  split.
  - intros s u f. cbn [create settled list_ polls demo_client]. rewrite of_url_app.
    set (x := mkItem _ _ _ _). exists [x]. split; [|split].
    + f_equal. unfold of_url. cbn [List.filter fst]. by rewrite bool_decide_true.
    + right. exists (demo_id s), (Some (js "open")). split; [done|]. apply demo_id_fresh.
    + done.
  - intros s i st s' r [= <-] Hr. cbn [get demo_client] in *.
    exists (mkItem (f_id r) (f_title r) (f_body r) (Some st)). split; [by apply demo_get_set|done].
Qed.

Definition demo_options : ReflectionOptions := engine_options None None None None.
Definition demo_now (s : store_) : Z := 0.
Definition demo_a : ReflectionSide (S := store_) := mkSide (js "octo/a") demo_client.
Definition demo_b : ReflectionSide (S := store_) := mkSide (js "octo/b") demo_client.
Definition demo_sources : list Item :=
  [mkItem (js "1") (Some (js "Bug")) (Some (js "It breaks")) (Some (js "open"));
   mkItem (js "2") None None None].
Definition demo_pass : Pass (S := store_) := mkPass [] [] (mkSummary [] [] []).
Definition demo_after : Pass (S := store_) :=
  reflect_all demo_options demo_now demo_a demo_b (issue_reflect demo_a demo_b) demo_sources demo_pass.

Lemma issue_fields_body from to : fields_body (issue_reflect (S := store_) from to).
Proof. by intros r b. Qed.

Example two_copies :
  length (p_to demo_after) = 2%nat /\
  exists srcs, Forall2 (copy_of demo_options demo_a (issue_reflect demo_a demo_b)) srcs (of_url (p_to demo_after) Issues).
Proof.
  split; [by vm_compute|].
  destruct (reflect_records demo_options demo_now demo_a demo_b (issue_reflect demo_a demo_b)
    (Server0 := demo_server _ _) demo_sources demo_pass (issue_fields_body _ _)) as (srcs & made & Hl & Hc & _).
  exists srcs. cbn [demo_b client list_ demo_client r_to issue_reflect demo_pass p_to] in Hl.
  change (of_url [] Issues) with (@nil Item) in Hl. cbn [app] in Hl.
  unfold demo_after. rewrite Hl. exact Hc.
Qed.

Lemma reflect_idempotent_witness :
  p_to (reflect_all demo_options demo_now demo_a demo_b (issue_reflect demo_a demo_b) demo_sources
    (mkPass [] (p_map demo_after) (mkSummary [] [] []))) = [].
Proof.
  apply (reflect_idempotent demo_options demo_now demo_a demo_b (issue_reflect demo_a demo_b) demo_sources
    demo_pass (mkPass [] (p_map demo_after) (mkSummary [] [] []))); [by vm_compute|reflexivity].
Defined.

Lemma reflect_recovers_witness :
  length (p_to (reflect_all demo_options demo_now demo_a demo_b (issue_reflect demo_a demo_b) demo_sources
    (mkPass (p_to demo_after) [] (mkSummary [] [] [])))) = 2%nat.
Proof.
  etransitivity; [refine (f_equal length (proj1 (reflect_recovers demo_options demo_now demo_a demo_b
    (issue_reflect demo_a demo_b) (Server0 := demo_server _ _) demo_sources [] (mkSummary [] [] [])
    (mkSummary [] [] []) (issue_fields_body _ _) _ _)))|by vm_compute].
  - split; [done|]. split; by_decide.
  - by vm_compute.
Defined.

(** The copy of a closed issue is reopened; the ledger had both open. *)
Definition demo_world : World (S := store_) :=
  mkWorld [(Issues, mkItem (js "1") None (Some (js "It breaks")) (Some (js "closed")))]
    [(Issues, mkItem (js "9") None None (Some (js "open")))] []
    [(pairKey (js "octo/a") (js "1") (js "octo/b") (js "9"), js "open")] (mkSummary [] [] []).
Definition demo_pair : Link * Link := (mkLink (js "octo/a") (js "1"), mkLink (js "octo/b") (js "9")).

Lemma reflect_pair_agrees_witness :
  jget (pairKey (js "octo/a") (js "1") (js "octo/b") (js "9"))
    (w_ledger (reflect_pair_state demo_options demo_a demo_b demo_world demo_pair)) = Some (js "closed").
Proof.
  refine (proj1 (proj2 (reflect_pair_agrees demo_options demo_now demo_a demo_b
    (Server0 := demo_server _ _) (Server1 := demo_server _ _) demo_world demo_pair
    (mkLink (js "octo/a") (js "1")) (mkLink (js "octo/b") (js "9"))
    (mkItem (js "1") None (Some (js "It breaks")) (Some (js "closed")))
    (mkItem (js "9") None None (Some (js "open"))) eq_refl eq_refl eq_refl eq_refl _))).
  by vm_compute.
Defined.
End Demo.
