(* ===== verification/Storage.v ===== *)
(** * Indexed storage

    Models [src/devonian/src/storage/IndexedStorage.ts] over
    [src/devonian/src/storage/InMemory.ts], and [ensureOnStorage] of
    [src/devonian/src/DevonianTable.ts].

    A row is the list of its properties; a value is a primitive or an object
    of primitives, such as [foreignIds].  [rows] is the array, with [None] for
    a hole.  A position is a number: [Some] integer, or [None] for the [NaN]
    that [parseInt] may return; writing at a position that is not an index
    leaves the array as it is.  Objects are compared by identity: one that was
    cloned equals no other. *)
From S2P Require Import Prelude Text Collections.
Local Open Scope Z_scope.

Inductive prim := PStr (s : jstr) | PNum (n : Z) | PBool (b : bool) | PNull.
#[global] Instance prim_eq_dec : EqDecision prim.
Proof. solve_decision. Defined.

Inductive value := VPrim (p : prim) | VObj (m : list (jstr * prim)).

Abbreviation Row := (list (jstr * value)).
Abbreviation Rows := (list (option Row)).
Abbreviation position := (option Z).

(** [parseInt(s)]. *)
Definition hex_digit_of (c : Z) : option Z :=
  if is_digit c then Some (c - 48)
  else if (97 <=? c) && (c <=? 102) then Some (c - 87)
  else if (65 <=? c) && (c <=? 70) then Some (c - 55) else None.

Definition parse_hex (s : jstr) : Z :=
  fold_left (fun v c => v * 16 + default 0 (hex_digit_of c)) s 0.

Definition parse_unsigned (s : jstr) : position :=
  match s with
  | 48 :: x :: t =>
      if (x =? 120) || (x =? 88) then
        match (span (fun c => bool_decide (is_Some (hex_digit_of c))) t).1 with [] => None | h => Some (parse_hex h) end
      else Some (parse_dec (span is_digit s).1)
  | _ => match (span is_digit s).1 with [] => None | d => Some (parse_dec d) end
  end.

Definition parseInt (s : jstr) : position :=
  match drop_ws s with
  | 45 :: t => Z.opp <$> parse_unsigned t
  | 43 :: t => parse_unsigned t
  | t => parse_unsigned t
  end.

(** ** [InMemoryStorage] *)

(** [rows[i]]. *)
Definition row_at (rows : Rows) (i : position) : option Row :=
  match i with
  | Some n => if n <? 0 then None else mjoin (rows !! Z.to_nat n)
  | None => None
  end.

(* src: devonian/src/storage/InMemory.ts 11-14 setRow *)
Definition setRow (rows : Rows) (i : position) (row : Row) : Rows :=
  match i with
  | Some n =>
      if n <? 0 then rows
      else if n <? len rows then <[Z.to_nat n := Some row]> rows
      else rows ++ replicate (Z.to_nat (n - len rows)) None ++ [Some row]
  | None => rows
  end.

(** [getRow]: the text of a missing row is [undefined], which is not JSON. *)
(* src: devonian/src/storage/InMemory.ts 8-10 getRow *)
Definition getRow (rows : Rows) (i : position) : res string Row :=
  match row_at rows i with Some row => Ok row | None => Err "SyntaxError"%string end.

(* src: devonian/src/storage/InMemory.ts 15-17 getRows *)
Definition getRows (rows : Rows) : Rows := rows.

(** ** [IndexedStorage] *)

Section Indexed.
Context (storageId : jstr).

(** [a === b], one of them a clone. *)
Definition strict_equal (a b : option value) : bool :=
  match a, b with
  | Some (VPrim p), Some (VPrim q) => bool_decide (p = q)
  | None, None => true
  | _, _ => false
  end.

(* src: devonian/src/storage/IndexedStorage.ts 21-35 rowMatches *)
Definition rowMatches (where_ : Row) (row : option Row) : bool :=
  match row with
  | None => false
  | Some r => forallb (fun f => strict_equal (jget f.1 r) (Some f.2)) where_
  end.

(** [row.foreignIds[platform]]: an error when there is no such object. *)
Definition foreign_ids (row : Row) : res string (list (jstr * prim)) :=
  match jget (js "foreignIds") row with
  | Some (VObj m) => Ok m
  | Some (VPrim PNull) | None => Err "TypeError"%string
  | Some (VPrim _) => Ok []
  end.

(* src: devonian/src/storage/IndexedStorage.ts 36-45 rowMatchesId ! *)
Definition rowMatchesId (platform : jstr) (id : prim) (row : option Row) : res string bool :=
  match row with
  | None => Ok false
  | Some r => m ← foreign_ids r; Ok (bool_decide (jget platform m = Some id))
  end.

(** The first index a test holds at. *)
Fixpoint find_index (f : option Row -> res string bool) (i : Z) (rows : Rows) : res string (option Z) :=
  match rows with
  | [] => Ok None
  | row :: rows' => b ← f row; if b : bool then Ok (Some i) else find_index f (i + 1) rows'
  end.

(* src: devonian/src/storage/IndexedStorage.ts 46-57 findWhere *)
Definition findWhere (rows : Rows) (where_ : Row) : res string (option Z) :=
  find_index (fun row => Ok (rowMatches where_ row)) 0 rows.

(* src: devonian/src/storage/IndexedStorage.ts 58-80 findById ! *)
Definition findById (rows : Rows) (platform : jstr) (id : prim) : res string (option position) :=
  if jeqb platform storageId then
    Ok (match id with PStr s => Some (parseInt s) | PNum n => Some (Some n) | _ => None end)
  else i ← find_index (rowMatchesId platform id) 0 rows; Ok (match i with Some n => Some (Some n) | None => None end).

(* src: devonian/src/storage/IndexedStorage.ts 81-94 findByIdMap *)
Fixpoint findByIdMap (rows : Rows) (idMap : list (jstr * prim)) : res string (option position) :=
  match idMap with
  | [] => Ok None
  | (platform, id) :: idMap' =>
      r ← findById rows platform id;
      match r with Some p => Ok (Some p) | None => findByIdMap rows idMap' end
  end.

(* src: devonian/src/storage/IndexedStorage.ts 101-114 findObject *)
Definition findObject (rows : Rows) (obj : Row) : res string (option position) :=
  m ← match jget (js "foreignIds") obj with
      | Some (VObj m) => Ok m
      | Some (VPrim PNull) | None => Err "TypeError"%string
      | Some (VPrim (PStr s)) => Ok (imap (fun i c => (dec (Z.of_nat i), PStr [c])) s)
      | Some (VPrim _) => Ok []
      end;
  p ← findByIdMap rows m;
  match p with
  | Some p => Ok (Some p)
  | None => i ← findWhere rows (jdelete (js "foreignIds") obj);
            Ok (match i with Some n => Some (Some n) | None => None end)
  end.

(** [Object.keys(row[field])] with the values under them. *)
Definition entries_of (row : Row) (field : jstr) : res string (list (jstr * prim)) :=
  match jget field row with
  | Some (VObj m) => Ok m
  | Some (VPrim (PStr s)) => Ok (imap (fun i c => (dec (Z.of_nat i), PStr [c])) s)
  | Some (VPrim PNull) | None => Err "TypeError"%string
  | Some (VPrim _) => Ok []
  end.

(** [obj[field][platform] = v]: an error unless [obj[field]] is an object. *)
Definition set_in (field : jstr) (obj : Row) (e : jstr * prim) : res string Row :=
  match jget field obj with
  | Some (VObj m) => Ok (jset field (VObj (jset e.1 e.2 m)) obj)
  | _ => Err "TypeError"%string
  end.

Definition merge_field (row : Row) (obj : Row) (field : jstr) : res string Row :=
  es ← entries_of row field; foldM (set_in field) obj es.

(** [doUpsert] after it looked for the object: it runs to the write without
    giving way. *)
Definition commit (rows : Rows) (found : option position) (obj : Row) (fieldsToMerge : list jstr)
    : res string (Rows * (position * bool)) :=
  let '(pos, minted) := match found with Some p => (p, false) | None => (Some (len rows), true) end in
  obj' ← match row_at rows pos with
         | Some row => foldM (merge_field row) obj fieldsToMerge
         | None => Ok obj
         end;
  Ok (setRow rows pos obj', (pos, minted)).

(* src: devonian/src/storage/IndexedStorage.ts 115-141 doUpsert ! *)
Definition doUpsert (rows : Rows) (obj : Row) (fieldsToMerge : list jstr)
    : res string (Rows * (position * bool)) :=
  found ← findObject rows obj; commit rows found obj fieldsToMerge.

(* src: devonian/src/storage/IndexedStorage.ts 95-97 get *)
Definition get (rows : Rows) (i : position) : res string Row := getRow rows i.

(* src: devonian/src/storage/IndexedStorage.ts 98-100 set *)
Definition set_ (rows : Rows) (i : position) (obj : Row) : Rows := setRow rows i obj.

(** ** [ensureRow], interleaved

    Every call first awaits the [semaphore], once: it is the promise of the
    upsert that was running, which deletes it when it is done; of one that
    failed the promise stays, and rejects whoever awaits it. *)

Inductive ensuring :=
| Starting
| Awaiting (other : nat)
| Finding
| FoundAt (found : option position)
| Ensured (pos : position) (minted : bool)
| EnsureFailed (error : string).

Record Ensure := mkEnsure {
  en_rows : Rows;
  semaphore : option nat;
  tasks : list (Row * ensuring);
}.

Definition set_task (e : Ensure) (i : nat) (obj : Row) (ph : ensuring) (sem : option nat) (rows : Rows) : Ensure :=
  mkEnsure rows sem (<[i := (obj, ph)]> (tasks e)).

(** One turn of one call; a call that cannot move stays. *)
(* src: devonian/src/storage/IndexedStorage.ts 142-154 ensureRow ! *)
Definition ensureRow (fieldsToMerge : list jstr) (e : Ensure) (i : nat) : Ensure :=
  match tasks e !! i with
  | Some (obj, Starting) =>
      match semaphore e with
      | Some k => set_task e i obj (Awaiting k) (semaphore e) (en_rows e)
      | None => set_task e i obj Finding (Some i) (en_rows e)
      end
  | Some (obj, Awaiting k) =>
      match tasks e !! k with
      | Some (_, Ensured _ _) => set_task e i obj Finding (Some i) (en_rows e)
      | Some (_, EnsureFailed err) => set_task e i obj (EnsureFailed err) (semaphore e) (en_rows e)
      | _ => e
      end
  | Some (obj, Finding) =>
      match findObject (en_rows e) obj with
      | Ok found => set_task e i obj (FoundAt found) (semaphore e) (en_rows e)
      | Err err => set_task e i obj (EnsureFailed err) (semaphore e) (en_rows e)
      end
  | Some (obj, FoundAt found) =>
      match commit (en_rows e) found obj fieldsToMerge with
      | Ok (rows', (pos, minted)) => set_task e i obj (Ensured pos minted) None rows'
      | Err err => set_task e i obj (EnsureFailed err) (semaphore e) (en_rows e)
      end
  | _ => e
  end.
End Indexed.

(** ** [DevonianTable] *)

(** What a table stores of an object: without its native id, and with the
    client's id among the foreign ones. *)
(* src: devonian/src/DevonianTable.ts 42-55 ensureOnStorage ! *)
Definition ensureOnStorage (replicaId idFieldName platform : jstr) (obj : Row) : res string Row :=
  match jget (js "foreignIds") obj with
  | Some (VObj m) =>
      let obj1 := jset (js "foreignIds") (VObj (jdelete (js "devonian-" ++ replicaId) m)) obj in
      match jget idFieldName obj1 with
      | None => Ok obj1
      | Some (VPrim id) =>
          Ok (jdelete idFieldName (jset (js "foreignIds")
                (VObj (jset platform id (jdelete (js "devonian-" ++ replicaId) m))) obj1))
      | Some (VObj _) => Err "not an identifier"%string
      end
  | _ => Err "TypeError"%string
  end.


(** ** Upserting *)

Abbreviation FIDS := (js "foreignIds").

(** A row with its foreign ids. *)
Definition ids_of (row : Row) (m : list (jstr * prim)) : Prop := jget FIDS row = Some (VObj m).
Definition rows_ok (rows : Rows) : Prop :=
  forall i row, rows !! i = Some (Some row) -> exists m, ids_of row m.

(** The ids of a row written over those of the object. *)
Definition merged_ids (es m : list (jstr * prim)) : list (jstr * prim) :=
  fold_left (fun m e => jset e.1 e.2 m) es m.

Lemma jget_merged es m p : NoDup (jkeys es) ->
  jget p (merged_ids es m) = match jget p es with Some v => Some v | None => jget p m end.
Proof.
  unfold merged_ids. revert m. induction es as [|[q v] es IH]; intros m Hnd; [done|].
  unfold jkeys in Hnd. cbn [map fst] in Hnd. apply NoDup_cons in Hnd as [Hq Hnd].
  cbn [fold_left jget fst snd]. rewrite IH by done. rewrite jget_jset.
  destruct (decide (p = q)) as [->|]; [|done].
  assert (jget q es = None) as -> by (by apply jget_None). done.
Qed.

Lemma set_in_ok obj m e : ids_of obj m ->
  set_in FIDS obj e = Ok (jset FIDS (VObj (jset e.1 e.2 m)) obj) /\
  ids_of (jset FIDS (VObj (jset e.1 e.2 m)) obj) (jset e.1 e.2 m).
Proof.
  intros Hm. unfold set_in, ids_of in *. rewrite Hm. split; [done|].
  by rewrite jget_jset, decide_True.
Qed.

(** Merging the foreign ids of a row changes nothing else of the object. *)
Lemma merge_ids row es obj m : ids_of row es -> ids_of obj m ->
  exists obj', merge_field row obj FIDS = Ok obj' /\ ids_of obj' (merged_ids es m) /\
    forall k, k <> FIDS -> jget k obj' = jget k obj.
Proof.
  intros Hrow Hobj. unfold merge_field, entries_of. rewrite Hrow. cbn [mbind res_bind]. clear Hrow.
  revert obj m Hobj. induction es as [|e es IH]; intros obj m Hobj; [by exists obj|].
  destruct (set_in_ok obj m e Hobj) as [Hset Hids]. cbn [foldM]. rewrite Hset. cbn [mbind res_bind].
  destruct (IH _ _ Hids) as (obj' & Hf & Hids' & Hk). exists obj'. split_and!; [done|done|].
  intros k Hne. rewrite Hk, jget_jset by done. by rewrite decide_False.
Qed.

Lemma row_at_setRow rows n row q : 0 <= n ->
  row_at (setRow rows (Some n) row) q = if decide (q = Some n) then Some row else row_at rows q.
Proof.
  intros Hn. unfold setRow. rewrite (proj2 (Z.ltb_ge n 0)) by done. destruct q as [q|]; [|by rewrite decide_False].
  unfold row_at. destruct (q <? 0) eqn:Hq; breflect.
  { rewrite decide_False; [done|]. intros [= ->]. lia. }
  destruct (n <? len rows) eqn:Hlen; unfold len in *; breflect.
  - destruct (decide (Some q = Some n)) as [[= ->]|Hne].
    + rewrite list_lookup_insert_eq by lia. done.
    + rewrite list_lookup_insert_ne; [done|]. intros Heq. apply Hne. f_equal. lia.
  - destruct (decide (Some q = Some n)) as [[= ->]|Hne].
    + rewrite lookup_app_r by lia. rewrite lookup_app_r by (rewrite length_replicate; lia).
      rewrite length_replicate. replace (_ - _ - _)%nat with 0%nat by lia. done.
    + destruct (decide (Z.to_nat q < length rows)%nat) as [Hin|Hout].
      * by rewrite lookup_app_l.
      * rewrite lookup_app_r by lia. rewrite (lookup_ge_None_2 rows) by lia.
        destruct (decide (Z.to_nat q - length rows < Z.to_nat (n - Z.of_nat (length rows)))%nat) as [Hr|Hr].
        -- rewrite lookup_app_l by (rewrite length_replicate; lia). by rewrite lookup_replicate_2 by lia.
        -- rewrite lookup_app_r by (rewrite length_replicate; lia). rewrite length_replicate.
           assert (q <> n) by congruence.
           rewrite lookup_ge_None_2; [done|]. cbn [length]. lia.
Qed.

(** ** Finding *)

Lemma find_index_spec f k rows r : find_index f k rows = Ok r ->
  match r with
  | Some i => exists j row, i = k + Z.of_nat j /\ rows !! j = Some row /\ f row = Ok true /\
      forall j' row', (j' < j)%nat -> rows !! j' = Some row' -> f row' = Ok false
  | None => forall j row, rows !! j = Some row -> f row = Ok false
  end.
Proof.
  revert k. induction rows as [|row rows IH]; intros k; cbn [find_index]; [by intros [= <-]|].
  intros (b & Hb & Hr)%bind_Ok. destruct b.
  - injection Hr as <-. exists 0%nat, row. split_and!; [lia|done|done|]. intros j' row' Hj. lia.
  - apply IH in Hr. destruct r as [i|].
    + destruct Hr as (j & row' & -> & Hj & Hf & Hbefore). exists (S j), row'. split_and!; [lia|done|done|].
      intros [|j'] x Hlt Hx; [by injection Hx as <-|]. apply (Hbefore j'); [lia|done].
    + intros [|j] x Hx; [by injection Hx as <-|]. by apply (Hr j).
Qed.

Lemma find_index_complete f k rows j row :
  rows !! j = Some row -> f row = Ok true ->
  (forall j' row', (j' < j)%nat -> rows !! j' = Some row' -> f row' = Ok false) ->
  find_index f k rows = Ok (Some (k + Z.of_nat j)).
Proof.
  revert k j. induction rows as [|x rows IH]; intros k j Hj Hf Hbefore; [done|]. destruct j as [|j]; cbn [find_index].
  - injection Hj as ->. rewrite Hf. cbn. do 2 f_equal. lia.
  - rewrite (Hbefore 0%nat x) by (done || lia). cbn [mbind res_bind].
    rewrite (IH _ j); [do 2 f_equal; lia|done|done|]. intros j' row' Hlt Hrow. apply (Hbefore (S j')); [lia|done].
Qed.

Lemma find_index_none f k rows :
  (forall j row, rows !! j = Some row -> f row = Ok false) -> find_index f k rows = Ok None.
Proof.
  revert k. induction rows as [|x rows IH]; intros k H; [done|]. cbn [find_index].
  rewrite (H 0%nat x) by done. cbn. apply IH. intros j row Hj. by apply (H (S j)).
Qed.

(** Whether a row has an id. *)
Definition has_id (p : jstr) (id : prim) (row : option Row) : bool :=
  match row with
  | Some r => match jget FIDS r with Some (VObj m) => bool_decide (jget p m = Some id) | _ => false end
  | None => false
  end.

Lemma rowMatchesId_has rows j row p id : rows_ok rows -> rows !! j = Some row ->
  rowMatchesId p id row = Ok (has_id p id row).
Proof.
  intros Hok Hj. destruct row as [r|]; [|done]. destruct (Hok j r Hj) as [m Hm]. unfold ids_of in Hm.
  unfold rowMatchesId, foreign_ids, has_id. by rewrite Hm.
Qed.

(** The first row with an id. *)
Definition first_with (p : jstr) (id : prim) (rows : Rows) (j : nat) : Prop :=
  (exists row, rows !! j = Some row /\ has_id p id row = true) /\
  forall j' row', (j' < j)%nat -> rows !! j' = Some row' -> has_id p id row' = false.
Definition none_with (p : jstr) (id : prim) (rows : Rows) : Prop :=
  forall j row, rows !! j = Some row -> has_id p id row = false.

Lemma findById_cases storageId rows p id : rows_ok rows -> p <> storageId ->
  findById storageId rows p id = Ok None /\ none_with p id rows \/
  exists j, findById storageId rows p id = Ok (Some (Some (Z.of_nat j))) /\ first_with p id rows j.
Proof.
  intros Hok Hp. unfold findById, jeqb. rewrite bool_decide_false by done.
  assert (exists r, find_index (rowMatchesId p id) 0 rows = Ok r) as [r Hr].
  { assert (Hall : forall j row, rows !! j = Some row -> exists b, rowMatchesId p id row = Ok b)
      by (intros; eexists; by apply (rowMatchesId_has rows j)).
    clear Hok. revert Hall. generalize 0. induction rows as [|x rows IH]; intros k Hall; [by eexists|].
    cbn [find_index]. destruct (Hall 0%nat x eq_refl) as [b ->]. cbn. destruct b; [by eexists|].
    apply IH. intros j row Hj. by apply (Hall (S j)). }
  rewrite Hr. apply find_index_spec in Hr. destruct r as [i|]; [right|left].
  - destruct Hr as (j & row & -> & Hj & Hf & Hb). exists j. split; [done|]. split.
    + exists row. split; [done|]. rewrite (rowMatchesId_has rows j) in Hf by done. by injection Hf.
    + intros j' row' Hlt Hj'. specialize (Hb j' row' Hlt Hj').
      rewrite (rowMatchesId_has rows j') in Hb by done. by injection Hb.
  - split; [done|]. intros j row Hj. specialize (Hr j row Hj). rewrite (rowMatchesId_has rows j) in Hr by done.
    by injection Hr.
Qed.

Lemma findById_first storageId rows p id j : rows_ok rows -> p <> storageId -> first_with p id rows j ->
  findById storageId rows p id = Ok (Some (Some (Z.of_nat j))).
Proof.
  intros Hok Hp [(row & Hrow & Hid) Hb]. destruct (findById_cases storageId rows p id Hok Hp) as [[_ Hno]|(i & -> & [(x & Hx & Hidx) Hbx])].
  - rewrite (Hno j row Hrow) in Hid. done.
  - destruct (Nat.lt_trichotomy i j) as [Hlt|[->|Hlt]]; [|done|].
    + rewrite (Hb i x Hlt Hx) in Hidx. done.
    + rewrite (Hbx j row Hlt Hrow) in Hid. done.
Qed.

(** The search over the ids: the first of them that a row has decides. *)
Lemma findByIdMap_cases storageId rows ids : rows_ok rows -> storageId ∉ jkeys ids ->
  findByIdMap storageId rows ids = Ok None /\ Forall (fun e => none_with e.1 e.2 rows) ids \/
  exists before p id after j, ids = before ++ (p, id) :: after /\
    Forall (fun e => none_with e.1 e.2 rows) before /\ first_with p id rows j /\
    findByIdMap storageId rows ids = Ok (Some (Some (Z.of_nat j))).
Proof.
  intros Hok. unfold jkeys. induction ids as [|[p id] ids IH]; cbn [map fst]; intros Hs; [by left|].
  apply not_elem_of_cons in Hs as [Hp Hs]. cbn [findByIdMap].
  destruct (findById_cases storageId rows p id Hok) as [[-> Hno]|(j & -> & Hj)]; [done| |].
  - cbn [mbind res_bind]. destruct (IH Hs) as [[-> Hall]|(b & q & i & a & j & -> & Hb & Hj & ->)].
    + left. split; [done|]. by constructor.
    + right. exists ((p, id) :: b), q, i, a, j. split_and!; [done|by constructor|done|done].
  - right. exists [], p, id, ids, j. split_and!; [done|constructor|done|done].
Qed.

Lemma findObject_ids storageId rows obj m : ids_of obj m -> rows_ok rows -> storageId ∉ jkeys m ->
  (exists j, findByIdMap storageId rows m = Ok (Some (Some (Z.of_nat j))) /\
     findObject storageId rows obj = Ok (Some (Some (Z.of_nat j))) /\ (j < length rows)%nat) \/
  findByIdMap storageId rows m = Ok None /\
    ((exists j, findObject storageId rows obj = Ok (Some (Some (Z.of_nat j))) /\ (j < length rows)%nat /\
        (exists row, rows !! j = Some row /\ rowMatches (jdelete FIDS obj) row = true) /\
        forall j' row', (j' < j)%nat -> rows !! j' = Some row' -> rowMatches (jdelete FIDS obj) row' = false) \/
     findObject storageId rows obj = Ok None).
Proof.
  intros Hm Hok Hs. unfold findObject. unfold ids_of in Hm. rewrite Hm. cbn [mbind res_bind].
  destruct (findByIdMap_cases storageId rows m Hok Hs) as [[-> _]|(b & p & id & a & j & _ & _ & Hj & ->)].
  - right. split; [done|]. cbn [mbind res_bind]. unfold findWhere.
    destruct (find_index _ 0 rows) as [[i|]|e] eqn:Hf.
    + apply find_index_spec in Hf as (j & row & -> & Hj & Hr & Hb). left. exists j. split_and!; [done| | |].
      * by eapply lookup_lt_Some.
      * exists row. split; [done|]. by injection Hr.
      * intros j' row' Hlt Hj'. specialize (Hb j' row' Hlt Hj'). by injection Hb.
    + by right.
    + exfalso. revert Hf. generalize 0. induction rows as [|x rows IH]; intros k; cbn; [done|].
      destruct (rowMatches _ x); [done|]. apply IH. intros i r Hi. by apply (Hok (S i)).
  - left. exists j. split_and!; [done|done|]. destruct Hj as [(row & Hj & _) _]. by eapply lookup_lt_Some.
Qed.

(** Rows whose ids are objects, each with its keys once. *)
Definition rows_wf (rows : Rows) : Prop :=
  rows_ok rows /\ forall i row m, rows !! i = Some (Some row) -> ids_of row m -> NoDup (jkeys m).

(** The ids a position had. *)
Definition old_ids (rows : Rows) (pos : Z) : list (jstr * prim) :=
  match row_at rows (Some pos) with
  | Some row => match jget FIDS row with Some (VObj es) => es | _ => [] end
  | None => []
  end.

(** The rows after an object was stored at a position. *)
Definition stored (rows : Rows) (obj : Row) (m : list (jstr * prim)) (pos : Z) (rows' : Rows) : Prop :=
  (forall q, q <> Some pos -> row_at rows' q = row_at rows q) /\
  exists obj' m', row_at rows' (Some pos) = Some obj' /\ ids_of obj' m' /\
    (forall k, k <> FIDS -> jget k obj' = jget k obj) /\
    (forall p, jget p m' = match jget p (old_ids rows pos) with Some v => Some v | None => jget p m end).

Lemma row_at_lookup rows (j : nat) : row_at rows (Some (Z.of_nat j)) = mjoin (rows !! j).
Proof. unfold row_at. rewrite (proj2 (Z.ltb_ge _ 0)) by lia. by rewrite Nat2Z.id. Qed.

Lemma mjoin_Some {A} (x : option (option A)) r : mjoin x = Some r -> x = Some (Some r).
Proof. destruct x as [[y|]|]; cbn; congruence. Qed.

(** The second half of [doUpsert]. *)
Lemma store_at rows obj m pos : rows_wf rows -> ids_of obj m -> 0 <= pos ->
  exists obj', match row_at rows (Some pos) with
               | Some row => foldM (merge_field row) obj [FIDS]
               | None => Ok obj
               end = Ok obj' /\ stored rows obj m pos (setRow rows (Some pos) obj').
Proof.
  intros [Hok Hnd] Hm Hpos. destruct (row_at rows (Some pos)) as [row|] eqn:Hrow.
  - assert (Hl : rows !! Z.to_nat pos = Some (Some row)).
    { unfold row_at in Hrow. rewrite (proj2 (Z.ltb_ge pos 0)) in Hrow by done. by apply mjoin_Some. }
    destruct (Hok _ _ Hl) as [es Hes]. destruct (merge_ids row es obj m Hes Hm) as (obj' & Hf & Hids & Hk).
    exists obj'. cbn [foldM]. rewrite Hf. split; [done|]. split.
    + intros q Hq. by rewrite row_at_setRow, decide_False.
    + exists obj', (merged_ids es m). rewrite row_at_setRow, decide_True by done. split_and!; try done.
      intros p. rewrite jget_merged by (by eapply Hnd). unfold old_ids. rewrite Hrow. unfold ids_of in Hes.
      by rewrite Hes.
  - exists obj. split; [done|]. split.
    + intros q Hq. by rewrite row_at_setRow, decide_False.
    + exists obj, m. rewrite row_at_setRow, decide_True by done. split_and!; try done.
      intros p. unfold old_ids. by rewrite Hrow.
Qed.

(** Upserting an object always succeeds: it is stored at the
    position it was found at, or else at the end, under all its ids, keeping
    the ids (and the values of ids) the row there already had, with its other
    properties its own; no other row changes. *)
Theorem doUpsert_stores storageId rows obj m :
  rows_wf rows -> ids_of obj m -> storageId ∉ jkeys m ->
  exists rows' pos minted,
    doUpsert storageId rows obj [FIDS] = Ok (rows', (Some pos, minted)) /\
    (minted = true -> pos = len rows /\ findObject storageId rows obj = Ok None) /\
    (minted = false -> findObject storageId rows obj = Ok (Some (Some pos)) /\ 0 <= pos < len rows) /\
    stored rows obj m pos rows'.
Proof.
  intros Hwf Hm Hs. pose proof (findObject_ids storageId rows obj m Hm (proj1 Hwf) Hs) as Hfind.
  unfold doUpsert, commit.
  assert (Hcase : findObject storageId rows obj = Ok None \/
    exists j, findObject storageId rows obj = Ok (Some (Some (Z.of_nat j))) /\ (j < length rows)%nat).
  { destruct Hfind as [(j & _ & Hf & Hj)|(_ & [(j & Hf & Hj & _)|Hf])]; eauto. }
  destruct Hcase as [Hf|(j & Hf & Hj)]; rewrite Hf; cbn [mbind res_bind].
  - destruct (store_at rows obj m (len rows) Hwf Hm (len_nonneg rows)) as (obj' & Ho & Hst).
    rewrite Ho. cbn [mbind res_bind]. eexists _, (len rows), true. split_and!; done.
  - destruct (store_at rows obj m (Z.of_nat j) Hwf Hm ltac:(lia)) as (obj' & Ho & Hst).
    rewrite Ho. cbn [mbind res_bind]. eexists _, (Z.of_nat j), false. split_and!; try done.
    intros _. split; [done|]. unfold len. lia.
Qed.

(** ** Finding what was stored *)

Lemma lookup_row_at rows j row : rows !! j = Some row -> row_at rows (Some (Z.of_nat j)) = row.
Proof. intros H. rewrite row_at_lookup, H. by destruct row. Qed.

Lemma has_id_lookup rows j p id : has_id p id (row_at rows (Some (Z.of_nat j))) = true ->
  exists row, rows !! j = Some row /\ has_id p id row = true.
Proof.
  rewrite row_at_lookup. destruct (rows !! j) as [[r|]|]; cbn [mjoin option_join]; [eauto|done|done].
Qed.

Section Stored.
Context (rows rows' : Rows) (obj : Row) (m : list (jstr * prim)) (pos : nat).
Context (Hst : stored rows obj m (Z.of_nat pos) rows').

Lemma stored_other j row : rows' !! j = Some row -> j <> pos ->
  row = None \/ rows !! j = Some row.
Proof.
  intros Hj Hne. apply lookup_row_at in Hj. destruct Hst as [Ho _]. rewrite Ho in Hj by (intros [= ?]; lia).
  rewrite row_at_lookup in Hj. destruct (rows !! j) as [[r|]|]; cbn in Hj; subst; eauto.
Qed.

Lemma stored_ok : rows_ok rows -> rows_ok rows'.
Proof.
  intros Hok j row Hj. destruct (decide (j = pos)) as [->|Hne].
  - apply lookup_row_at in Hj. destruct Hst as [_ (obj' & m' & Hr & Hids & _)]. rewrite Hr in Hj.
    injection Hj as <-. eauto.
  - destruct (stored_other j _ Hj Hne) as [|Hr]; [done|]. by apply (Hok j).
Qed.

(** An id that no row had is found, if at all, at the new position. *)
Lemma stored_first p id : 
  (forall j row, (j < pos)%nat -> rows !! j = Some row -> has_id p id row = false) ->
  has_id p id (row_at rows' (Some (Z.of_nat pos))) = true -> first_with p id rows' pos.
Proof.
  intros Hb Hid. apply has_id_lookup in Hid as Hrow. split; [done|].
  intros j row Hlt Hj. destruct (stored_other j row Hj) as [->|Hr]; [lia|done|by apply (Hb j)].
Qed.

Lemma stored_has p id : NoDup (jkeys m) -> (p, id) ∈ m ->
  has_id p id (row_at rows' (Some (Z.of_nat pos))) =
  match jget p (old_ids rows (Z.of_nat pos)) with Some v => bool_decide (v = id) | None => true end.
Proof.
  intros Hnd Hin. destruct Hst as [_ (obj' & m' & -> & Hids & _ & Hm')]. unfold has_id. unfold ids_of in Hids.
  rewrite Hids, Hm'. apply jget_elem in Hin; [|done]. rewrite Hin.
  destruct (jget p (old_ids rows (Z.of_nat pos))) as [v|]; [|by apply bool_decide_eq_true].
  apply bool_decide_ext. naive_solver.
Qed.

(** The search over ids, the first of which the new position has. *)
Lemma find_stored storageId before p id after :
  rows_ok rows -> storageId ∉ jkeys (before ++ (p, id) :: after) ->
  Forall (fun e => forall j row, (j <> pos)%nat -> rows !! j = Some row -> has_id e.1 e.2 row = false) before ->
  first_with p id rows' pos ->
  findByIdMap storageId rows' (before ++ (p, id) :: after) = Ok (Some (Some (Z.of_nat pos))).
Proof.
  intros Hok. unfold jkeys. induction before as [|[q i] before IH]; cbn [app map fst]; intros Hs Hb Hf;
    apply not_elem_of_cons in Hs as [Hq Hs]; cbn [findByIdMap].
  - by rewrite (findById_first storageId rows' p id pos) by (try done; by apply stored_ok).
  - apply Forall_cons in Hb as [Hqb Hb]. cbn [fst snd] in Hqb.
    destruct (findById_cases storageId rows' q i) as [[-> _]|(j & -> & [(row & Hj & Hid) Hfirst])];
      [by apply stored_ok|done|by apply IH|]. cbn [mbind res_bind].
    destruct (decide (j = pos)) as [->|Hne]; [done|]. exfalso.
    destruct (stored_other j row Hj Hne) as [->|Hr]; [done|]. by rewrite (Hqb j row Hne Hr) in Hid.
Qed.
End Stored.

Lemma findObject_some storageId rows obj m p : ids_of obj m ->
  findByIdMap storageId rows m = Ok (Some p) -> findObject storageId rows obj = Ok (Some p).
Proof. intros Hm Hp. unfold findObject. unfold ids_of in Hm. rewrite Hm. cbn [mbind res_bind]. by rewrite Hp. Qed.

Lemma findObject_none storageId rows obj m : ids_of obj m ->
  findByIdMap storageId rows m = Ok None ->
  findObject storageId rows obj = (i ← findWhere rows (jdelete FIDS obj);
    Ok (match i with Some n => Some (Some n) | None => None end)).
Proof. intros Hm Hp. unfold findObject. unfold ids_of in Hm. rewrite Hm. cbn [mbind res_bind]. by rewrite Hp. Qed.

Lemma where_matches (obj obj' r : Row) : NoDup (jkeys obj) ->
  (forall k, k <> FIDS -> jget k obj' = jget k obj) ->
  rowMatches (jdelete FIDS obj) (Some r) = true -> rowMatches (jdelete FIDS obj) (Some obj') = true.
Proof.
  intros Hnd Hk. unfold rowMatches. rewrite !forallb_forall. intros H f Hf. specialize (H f Hf).
  destruct f as [k v]. cbn [fst snd] in *. apply list_elem_of_In, jget_elem in Hf; [|by apply jdelete_nodup].
  rewrite jget_jdelete in Hf by done. destruct (decide (k = FIDS)) as [|Hne]; [done|].
  rewrite Hk, Hf by done. unfold strict_equal in *. destruct v as [q|es].
  - by apply bool_decide_eq_true.
  - by destruct (jget k r) as [[]|].
Qed.

(** What was upserted is found where it was put, so that
    upserting the same object again mints no second row: the search over its
    ids, and then over its properties, gives that position. *)
Theorem doUpsert_found storageId rows rows' obj m pos minted :
  rows_wf rows -> ids_of obj m -> NoDup (jkeys m) -> NoDup (jkeys obj) -> m <> [] ->
  storageId ∉ jkeys m ->
  doUpsert storageId rows obj [FIDS] = Ok (rows', (Some pos, minted)) ->
  findObject storageId rows' obj = Ok (Some (Some pos)).
Proof.
  intros Hwf Hm Hndm Hndo Hne Hs Hup.
  assert (Hst : exists j : nat, pos = Z.of_nat j /\ stored rows obj m pos rows' /\
    (findObject storageId rows obj = Ok None /\ j = length rows \/
     findObject storageId rows obj = Ok (Some (Some pos)))).
  { unfold doUpsert, commit in Hup.
    destruct (findObject_ids storageId rows obj m Hm (proj1 Hwf) Hs) as [(j & _ & Hf & _)|(_ & [(j & Hf & _)|Hf])];
      rewrite Hf in Hup; cbn [mbind res_bind] in Hup.
    1, 2: destruct (store_at rows obj m (Z.of_nat j) Hwf Hm ltac:(lia)) as (obj' & Ho & Hst);
      rewrite Ho in Hup; cbn [mbind res_bind] in Hup; injection Hup as <- <- _; exists j; eauto.
    destruct (store_at rows obj m (len rows) Hwf Hm (len_nonneg rows)) as (obj' & Ho & Hst).
    rewrite Ho in Hup. cbn [mbind res_bind] in Hup. injection Hup as <- <- _. exists (length rows). eauto. }
  destruct Hst as (j & -> & Hst & Hcase). pose proof (stored_ok rows rows' obj m j Hst (proj1 Hwf)) as Hok'.
  destruct (findByIdMap_cases storageId rows m (proj1 Hwf) Hs)
    as [[Hnone Hall]|(b & p & id & a & i & -> & Hb & Hfirst & Hmap)].
  - (* no row had one of the ids *)
    destruct (findByIdMap_cases storageId rows' m Hok' Hs)
      as [[Hnone' Hall']|(b & p & id & a & i & Heq & _ & [(row & Hi & Hid) _] & Hmap')].
    + rewrite (findObject_none storageId rows' obj m) by done.
      destruct Hcase as [[_ Hj]|Hfound].
      { exfalso. destruct m as [|[p id] m']; [done|]. apply Forall_cons in Hall' as [Hno _].
        assert (Hold : old_ids rows (Z.of_nat j) = []).
        { unfold old_ids. rewrite row_at_lookup, lookup_ge_None_2 by lia. done. }
        assert (Hid : has_id p id (row_at rows' (Some (Z.of_nat j))) = true).
        { rewrite (stored_has rows rows' obj _ j Hst) by (done || by left). by rewrite Hold. }
        apply has_id_lookup in Hid as (row & Hrow & Hid). specialize (Hno j row Hrow). cbn [fst snd] in Hno. congruence. }
      rewrite (findObject_none storageId rows obj m) in Hfound by done. unfold findWhere in *.
      destruct (find_index _ 0 rows) as [[n|]|] eqn:Hf; try done. cbn in Hfound. injection Hfound as Hn.
      apply find_index_spec in Hf as (i & row & -> & Hi & Hr & Hbefore).
      assert (i = j) as -> by lia. injection Hr as Hr. destruct row as [r|]; [|done].
      pose proof Hst as [_ (obj' & m' & Hrow' & _ & Hk & _)].
      rewrite (find_index_complete _ 0 rows' j (Some obj')); [done| | |].
      * rewrite row_at_lookup in Hrow'. by apply mjoin_Some.
      * f_equal. by apply (where_matches obj obj' r).
      * intros i' row' Hlt Hi'. destruct (stored_other rows rows' obj m j Hst i' row' Hi') as [->|Hi2]; [lia|done|].
        by apply (Hbefore i').
    + rewrite (findObject_some storageId rows' obj m (Some (Z.of_nat i))) by done.
      destruct (decide (i = j)) as [->|Hij]; [done|]. exfalso.
      destruct (stored_other rows rows' obj m j Hst i row Hi Hij) as [->|Hi2]; [done|].
      rewrite Forall_forall in Hall. specialize (Hall (p, id)). rewrite Heq in Hall.
      specialize (Hall ltac:(apply elem_of_app; right; by left) i row Hi2). cbn [fst snd] in Hall. congruence.
  - (* the row that had the first of them keeps it *)
    assert (i = j) as ->.
    { destruct Hcase as [[Hf _]|Hf]; rewrite (findObject_some storageId rows obj _ (Some (Z.of_nat i))) in Hf by done;
        [done|]. injection Hf as Hf. lia. }
    rewrite (findObject_some storageId rows' obj (b ++ (p, id) :: a) (Some (Z.of_nat j))); [done|done|].
    apply (find_stored rows rows' obj _ j Hst storageId b p id a (proj1 Hwf) Hs).
    + eapply Forall_impl; [exact Hb|]. intros e He i row _. apply He.
    + destruct Hfirst as [(row & Hj & Hid) Hbefore]. apply (stored_first rows rows' obj _ j Hst); [exact Hbefore|].
      rewrite (stored_has rows rows' obj _ j Hst) by (done || (apply elem_of_app; right; by left)).
      unfold old_ids. rewrite row_at_lookup, Hj. destruct row as [r|]; [|done]. cbn [mjoin option_join].
      unfold has_id in Hid. destruct (jget FIDS r) as [[]|]; [done| |done].
      apply bool_decide_eq_true in Hid. rewrite Hid. by apply bool_decide_eq_true.
Qed.

(** ** Witnesses *)

Definition row_a : Row := [(js "title", VPrim (PStr (js "Bug"))); (FIDS, VObj [(js "github", PNum 7)])].
Definition row_b : Row := [(js "title", VPrim (PStr (js "Idea"))); (FIDS, VObj [(js "linear", PStr (js "L-1"))])].
Definition rows_ex : Rows := [Some row_a; None; Some row_b].
Definition obj_ex : Row :=
  [(FIDS, VObj [(js "solid", PStr (js "x/1")); (js "linear", PStr (js "L-1"))]); (js "title", VPrim (PStr (js "Idea!")))].

Lemma rows_ex_wf : rows_wf rows_ex.
Proof.
  assert (H : forall i row, rows_ex !! i = Some (Some row) -> row = row_a \/ row = row_b).
  { intros [|[|[|i]]] row; cbn; intros [=]; subst; tauto. }
  split.
  - intros i row [->| ->]%H; eexists; by vm_compute.
  - intros i row m [->| ->]%H Hm; vm_compute in Hm; injection Hm as <-; by_decide.
Qed.

Lemma doUpsert_stores_witness : exists rows' pos minted,
  doUpsert (js "devonian-1") rows_ex obj_ex [FIDS] = Ok (rows', (Some pos, minted)) /\
  row_at rows' (Some 0) = Some row_a.
Proof.
  destruct (doUpsert_stores (js "devonian-1") rows_ex obj_ex
    [(js "solid", PStr (js "x/1")); (js "linear", PStr (js "L-1"))] rows_ex_wf eq_refl ltac:(by_decide))
    as (rows' & pos & minted & Hup & _ & _ & Ho & _).
  exists rows', pos, minted. split; [exact Hup|]. rewrite Ho; [by vm_compute|].
  intros [= <-]. vm_compute in Hup. discriminate.
Defined.

Lemma doUpsert_found_witness : exists rows',
  doUpsert (js "devonian-1") rows_ex obj_ex [FIDS] = Ok (rows', (Some 2, false)) /\
  findObject (js "devonian-1") rows' obj_ex = Ok (Some (Some 2)).
Proof.
  eexists. split; [vm_compute; reflexivity|].
  eapply (doUpsert_found (js "devonian-1") rows_ex _ obj_ex
    [(js "solid", PStr (js "x/1")); (js "linear", PStr (js "L-1"))] 2 false rows_ex_wf eq_refl);
    [by_decide|by_decide|done|by_decide|vm_compute; reflexivity].
Defined.

(** The semaphore is awaited once: two calls that waited for a third both
    proceed, and the same new object gets two rows. *)
Example ensureRow_twice :
  let start_ := mkEnsure [] None [(row_a, Starting); (row_b, Starting); (row_b, Starting)] in
  let e := fold_left (ensureRow (js "devonian-1") [FIDS]) [0; 1; 2; 0; 0; 1; 2; 1; 2; 1; 2]%nat start_ in
  en_rows e = [Some row_a; Some row_b; Some row_b].
Proof. by vm_compute. Qed.
