(* ===== verification/Json.v ===== *)
(** * JSON values

    The values of [JSON.parse]: an object is the list of its entries in
    insertion order (keys that are array indices, which an engine would put
    first, do not occur), and numbers are integers.  [undefined] is [None]. *)
From S2P Require Import Prelude Text Collections.
Local Open Scope Z_scope.

#[warnings="-register-all"]
Inductive Json :=
| ONull
| OBool (b : bool)
| ONum (n : Z)
| OStr (s : jstr)
| OArr (l : list Json)
| OObj (m : list (jstr * Json)).

Abbreviation fields_map := (list (jstr * Json)).


(** [v?.k]. *)
Definition member (k : jstr) (v : Json) : option Json := match v with OObj m => jget k m | _ => None end.
Definition omember (k : jstr) (v : option Json) : option Json := v ← v; member k v.

(** [Object.entries(v ?? {})]. *)
Definition entries_of (v : option Json) : fields_map := match v with Some (OObj m) => m | _ => [] end.

(** The elements of an array. *)
Definition elements_of (v : option Json) : list Json := match v with Some (OArr l) => l | _ => [] end.

(** A string, or nothing. *)
Definition text_of (v : option Json) : jstr := match v with Some (OStr s) => s | _ => [] end.

Definition is_text (v : option Json) : bool := match v with Some (OStr _) => true | _ => false end.

(** [isRecord]: neither [null] nor an array. *)
Definition isRecord (v : option Json) : bool := match v with Some (OObj _) => true | _ => false end.

Definition truthy_json (v : option Json) : bool :=
  match v with
  | None | Some ONull | Some (OBool false) => false
  | Some (ONum n) => negb (n =? 0)
  | Some (OStr s) => negb (bool_decide (s = []))
  | _ => true
  end.

(** [v ?? w]. *)
Definition nullish (v w : option Json) : option Json := match v with None | Some ONull => w | _ => v end.

(** [v ?? b] of a boolean. *)
Definition bool_or (v : option Json) (b : bool) : bool := match v with Some (OBool x) => x | _ => b end.

(** [String(v)]: the elements of an array joined, [null] as nothing in one. *)
Fixpoint String_of (v : Json) : jstr :=
  match v with
  | ONull => js "null"
  | OBool b => if b then js "true" else js "false"
  | ONum n => dec_signed n
  | OStr s => s
  | OArr l => join_str (js ",") (map (fun v => match v with ONull => [] | _ => String_of v end) l)
  | OObj _ => js "[object Object]"
  end.

(** [JSON.stringify(v)]. *)
Fixpoint json_text (v : Json) : jstr :=
  match v with
  | ONull => js "null"
  | OBool b => if b then js "true" else js "false"
  | ONum n => dec_signed n
  | OStr s => quote s
  | OArr l => js "[" ++ join_str (js ",") (map json_text l) ++ js "]"
  | OObj m => js "{" ++ join_str (js ",") (map (fun p => quote p.1 ++ js ":" ++ json_text p.2) m) ++ js "}"
  end.

(** [{...a, ...b}]. *)
Definition spread (a b : fields_map) : fields_map := fold_left (fun m p => jset p.1 p.2 m) b a.

(** [name in {...}]: a key of the object. *)
Definition has_key {V} (k : jstr) (m : list (jstr * V)) : bool := match jget k m with Some _ => true | None => false end.

(** ** [JSON.stringify] is injective *)

(** Values whose strings and keys are code units. *)
Fixpoint Json_ok (v : Json) : Prop :=
  match v with
  | OStr s => Forall (fun c => 0 <= c) s
  | OArr l => fold_right (fun v P => Json_ok v /\ P) True l
  | OObj m => fold_right (fun p P => (Forall (fun c => 0 <= c) p.1 /\ Json_ok p.2) /\ P) True m
  | _ => True
  end.

Lemma fold_right_Forall {A} (Q : A -> Prop) l : fold_right (fun x P => Q x /\ P) True l <-> Forall Q l.
Proof. induction l as [|x l IH]; cbn; [done|]. by rewrite Forall_cons, IH. Qed.

Lemma Json_nested_ind (P : Json -> Prop) :
  P ONull -> (forall b, P (OBool b)) -> (forall n, P (ONum n)) -> (forall s, P (OStr s)) ->
  (forall l, Forall P l -> P (OArr l)) -> (forall m, Forall (fun p => P p.2) m -> P (OObj m)) -> forall v, P v.
Proof.
  intros H1 H2 H3 H4 H5 H6. fix IH 1. intros [| | | |l|m]; [done|done|done|done| |].
  - apply H5. induction l as [|v l IHl]; constructor; [apply IH|exact IHl].
  - apply H6. induction m as [|p m IHm]; constructor; [apply IH|exact IHm].
Qed.

#[export] Instance Json_eq_dec : EqDecision Json.
Proof.
  unfold EqDecision. fix IH 1. intros [|b|n|s|l|m] [|b'|n'|s'|l'|m']; try (right; congruence); [by left| | | | |].
  - destruct (decide (b = b')); [left|right]; congruence.
  - destruct (decide (n = n')); [left|right]; congruence.
  - destruct (decide (s = s')); [left|right]; congruence.
  - assert (Decision (l = l')) as []; [|left; congruence|right; congruence].
    revert l'. induction l as [|v l IHl]; intros [|w l']; [by left|by right|by right|].
    destruct (IH v w); [|right; congruence]. destruct (IHl l'); [left|right]; congruence.
  - assert (Decision (m = m')) as []; [|left; congruence|right; congruence].
    revert m'. induction m as [|[k v] m IHm]; intros [|[k' w] m']; [by left|by right|by right|].
    destruct (decide (k = k')); [|right; congruence]. destruct (IH v w); [|right; congruence].
    destruct (IHm m'); [left|right]; congruence.
Defined.

(** The first character of a value's text tells its kind. *)
Definition Json_head (v : Json) (c : Z) : Prop :=
  match v with
  | ONull => c = 110
  | OBool b => c = if b then 116 else 102
  | ONum _ => c = 45 \/ is_digit c = true
  | OStr _ => c = 34
  | OArr _ => c = 91
  | OObj _ => c = 123
  end.

Lemma json_text_head v r : exists c t, json_text v ++ r = c :: t /\ Json_head v c.
Proof.
  destruct v as [|[]|n|s|l|m]; try (cbn; by eauto).
  cbn [json_text Json_head]. unfold dec_signed. case_match eqn:Hn; breflect; cbn [app]; [eauto|].
  destruct (dec_spec n Hn) as (_ & Hd & Hne). destruct (dec n) as [|c t]; [done|].
  forall_split. exists c, (t ++ r). split; [done|by right].
Qed.

Lemma json_text_head_not v r t : json_text v ++ r <> 93 :: t.
Proof.
  intros H. destruct (json_text_head v r) as (c' & t' & H' & Hc). rewrite H in H'.
  injection H' as <- _. by destruct v as [|[]| | | |]; cbn in Hc; try (destruct Hc).
Qed.

(** The text of a property. *)
Definition entry_text (p : jstr * Json) : jstr := quote p.1 ++ js ":" ++ json_text p.2.
Definition entry_ok (p : jstr * Json) : Prop := Forall (fun c => 0 <= c) p.1 /\ Json_ok p.2.

Lemma entry_determines p : determines json_text Json_ok p.2 -> determines entry_text entry_ok p.
Proof.
  intros Hv [k w] r1 r2 [Hk1 Hv1] [Hk2 Hv2] H1 H2 Heq. destruct p as [k1 v1]. unfold entry_text in Heq. cbn [fst snd] in *.
  rewrite <-!app_assoc in Heq. apply quote_inj in Heq as [-> Heq]; [|done..].
  change (js ":") with [58] in Heq. cbn [app] in Heq. injection Heq as Heq. by apply Hv in Heq as [-> ->].
Qed.

Lemma json_text_prefix v1 : determines json_text Json_ok v1.
Proof.
  induction v1 as [|b|n|s|l IH|m IH] using Json_nested_ind;
    intros v2 r1 r2 Hok1 Hok2 Hr1 Hr2 Heq;
    match type of Heq with json_text ?v ++ _ = _ =>
      destruct (json_text_head v r1) as (c & t & Hc & Hk) end;
    destruct (json_text_head v2 r2) as (c' & t' & Hc' & Hk');
    pose proof (eq_trans (eq_sym Hc) (eq_trans Heq Hc')) as Ht; injection Ht as <- _;
    clear Hc Hc'; destruct v2 as [|b'|n'|s'|l'|m']; cbn in Hk, Hk';
    try (exfalso; repeat case_match; destruct_or?; subst; done).
  - by injection Heq as ->.
  - destruct b, b'; try (exfalso; subst; done); by injection Heq as ->.
  - apply dec_signed_prefix in Heq as [-> ->]; done.
  - apply quote_inj in Heq as [-> ->]; done.
  - cbn [Json_ok] in Hok1, Hok2. rewrite fold_right_Forall in Hok1, Hok2. cbn [json_text] in Heq.
    change (js "[") with [91] in Heq. change (js "]") with [93] in Heq. change (js ",") with [44] in Heq.
    cbn [app] in Heq. injection Heq as Heq. rewrite <-!app_assoc in Heq. cbn [app] in Heq.
    enough (l = l' /\ r1 = r2) as [-> ->] by done.
    apply (joined_elements json_text Json_ok 93); [done|by intros x r u ?%json_text_head_not|done..].
  - cbn [Json_ok] in Hok1, Hok2. rewrite (fold_right_Forall entry_ok) in Hok1, Hok2. cbn [json_text] in Heq.
    change (js "{") with [123] in Heq. change (js "}") with [125] in Heq. change (js ",") with [44] in Heq.
    cbn [app] in Heq. injection Heq as Heq. rewrite <-!app_assoc in Heq. cbn [app] in Heq.
    enough (m = m' /\ r1 = r2) as [-> ->] by done.
    apply (joined_elements entry_text entry_ok 125); [done| |by eapply Forall_impl; [exact IH|apply entry_determines]|done..].
    intros x r u. unfold entry_text, quote. cbn [app]. done.
Qed.

Lemma json_text_inj v w : Json_ok v -> Json_ok w -> json_text v = json_text w -> v = w.
Proof. intros H1 H2 E. apply (json_text_prefix v w [] [] H1 H2 I I). by rewrite E. Qed.
