(* ===== verification/Pagination.v ===== *)
(** * Pagination schemes

    Models [src/syncables/src/pagination]: [validate.ts], [autodetect.ts],
    [items.ts], [request-builder.ts] and [response-parser.ts].

    The document, its operations and its schemes are [Json] values, read with
    the shape their types promise; what a member has of another shape counts
    as absent.  Numbers are integers; [Number] of text that is no plain
    integer is the parameter [other_number].  A dotted path leads through
    objects, or to an element of an array. *)
From S2P Require Import Prelude Unicode Text Collections Json.
Local Open Scope Z_scope.

(** ** validate.ts *)

(* src: syncables/src/pagination/validate.ts 7-7 SCHEME_TYPES *)
Definition SCHEME_TYPES : list jstr := map js ["pageNumber"; "pageToken"; "nextLink"]%string.
(* src: syncables/src/pagination/validate.ts 8-14 REQUEST_ROLES *)
Definition REQUEST_ROLES : list jstr := map js ["page"; "pageSize"; "offset"; "pageToken"; "cursor"]%string.
(* src: syncables/src/pagination/validate.ts 15-23 RESPONSE_ROLES *)
Definition RESPONSE_ROLES : list jstr :=
  map js ["nextPageToken"; "nextCursor"; "nextLink"; "totalCount"; "totalPages"; "pageSize"; "currentPage"]%string.

(* src: syncables/src/pagination/validate.ts 25-27 isExtensionKey *)
Definition isExtensionKey (key : jstr) : bool := starts_with (js "x-") key.

(** [field.role], empty when absent. *)
Definition role_of (field : Json) : jstr := text_of (member (js "role") field).

Definition type_of (scheme : Json) : jstr := text_of (member (js "type") scheme).

(** [scheme.request?.queryParameters ?? {}] and the like. *)
Definition fields_at (part location : string) (scheme : Json) : fields_map :=
  entries_of (omember (js location) (member (js part) scheme)).

(** The complaint about one field's role. *)
Definition role_errors (path : jstr) (part location kind_ : string) (roles : list jstr) (scheme : Json) : list jstr :=
  flat_map (fun p =>
    let r := role_of p.2 in
    if negb (bool_decide (r = [])) && negb (isExtensionKey r) && negb (bool_decide (r ∈ roles))
    then [path ++ js "." ++ js part ++ js "." ++ js location ++ js "." ++ p.1 ++ js ".role is not a valid " ++ js kind_
          ++ js " role (got " ++ [34] ++ r ++ [34] ++ js ")"]
    else []) (fields_at part location scheme).

(* src: syncables/src/pagination/validate.ts 29-108 validatePaginationScheme *)
Definition validatePaginationScheme (name : jstr) (scheme : Json) : list jstr :=
  let path := js "paginationSchemes." ++ name in
  (if is_text (member (js "type") scheme) && bool_decide (type_of scheme ∈ SCHEME_TYPES) then []
   else [path ++ js ".type must be one of pageNumber, pageToken, or nextLink (got " ++ [34]
         ++ match member (js "type") scheme with Some v => String_of v | None => js "undefined" end ++ [34] ++ js ")"])
  ++ (if truthy_json (member (js "request") scheme) || truthy_json (member (js "response") scheme) then []
      else [path ++ js " must define at least one of " ++ [34] ++ js "request" ++ [34] ++ js " or "
            ++ [34] ++ js "response" ++ [34]])
  ++ role_errors path "request" "queryParameters" "request" REQUEST_ROLES scheme
  ++ role_errors path "request" "bodyFields" "request" REQUEST_ROLES scheme
  ++ role_errors path "response" "bodyFields" "response" RESPONSE_ROLES scheme
  ++ role_errors path "response" "headers" "response" RESPONSE_ROLES scheme.

(** ** autodetect.ts *)

(* src: syncables/src/pagination/autodetect.ts 8-11 EffectiveScheme *)
Record EffectiveScheme := mkEffective { schemeName : jstr; scheme : Json }.

(* src: syncables/src/pagination/autodetect.ts 13-30 validSchemes *)
Definition validSchemes (document : Json) : fields_map :=
  fold_left (fun m p => match validatePaginationScheme p.1 p.2 with [] => jset p.1 p.2 m | _ => m end)
    (entries_of (omember (js "paginationSchemes") (member (js "components") document))) [].

(* src: syncables/src/pagination/autodetect.ts 32-38 queryParamNames *)
Definition queryParamNames (operation : Json) : list jstr :=
  map (fun p => text_of (member (js "name") p))
    (List.filter (fun p => jeqb (text_of (member (js "in") p)) (js "query"))
       (elements_of (member (js "parameters") operation))).

(** The JSON schema of a message with content. *)
Definition json_schema (message : option Json) : option Json :=
  omember (js "schema") (omember (js "application/json") (omember (js "content") message)).

(* src: syncables/src/pagination/autodetect.ts 40-43 bodyFieldNames *)
Definition bodyFieldNames (operation : Json) : list jstr :=
  jkeys (entries_of (omember (js "properties") (json_schema (member (js "requestBody") operation)))).

(** What one dimension says: nothing when it is off or declares no field. *)
Definition dimension (on : bool) (required declared : list jstr) : list bool :=
  if on then match required with [] => [] | _ => [forallb (fun name => bool_decide (name ∈ declared)) required] end
  else [].

(* src: syncables/src/pagination/autodetect.ts 45-83 autoDetectMatches *)
Definition autoDetectMatches (scheme operation : Json) : bool :=
  match member (js "autoDetect") scheme with
  | Some (OBool false) => false
  | auto =>
      let options := match auto with Some (OObj m) => OObj m | _ => OObj [] end in
      let requireAll := bool_or (member (js "requireAll") options) true in
      let results :=
        dimension (bool_or (member (js "matchQueryParams") options) true)
          (jkeys (fields_at "request" "queryParameters" scheme)) (queryParamNames operation) ++
        dimension (bool_or (member (js "matchBodyFields") options) true)
          (jkeys (fields_at "request" "bodyFields" scheme)) (bodyFieldNames operation) in
      match results with
      | [] => false
      | _ => if requireAll then forallb id results else existsb id results
      end
  end.

(** The value that [deepMerge] leaves where [existing] was. *)
Fixpoint merge_value (value : Json) (existing : option Json) : Json :=
  match value, existing with
  | OObj overrides, Some (OObj base) =>
      OObj ((fix merge (overrides result : fields_map) : fields_map :=
        match overrides with
        | [] => result
        | (key, v) :: rest => merge rest (jset key (merge_value v (jget key result)) result)
        end) overrides base)
  | _, _ => value
  end.

(* src: syncables/src/pagination/autodetect.ts 89-101 deepMerge *)
Definition deepMerge (base overrides : Json) : Json := merge_value overrides (Some base).

(** The first valid scheme that matches the operation. *)
Definition auto_detected (schemes : fields_map) (operation : Json) : option EffectiveScheme :=
  p ← List.find (fun p => autoDetectMatches p.2 operation) schemes; Some (mkEffective p.1 p.2).

(* src: syncables/src/pagination/autodetect.ts 103-138 resolveEffectiveScheme *)
Definition resolveEffectiveScheme (document operation : Json) : option EffectiveScheme :=
  let schemes := validSchemes document in
  match member (js "x-pagination") operation with
  | Some (OArr (application :: _)) =>
      if truthy_json (Some application) then
        let name := text_of (member (js "scheme") application) in
        base ← jget name schemes;
        Some (mkEffective name
          (match member (js "overrides") application with
           | Some o => if truthy_json (Some o) then deepMerge base o else base
           | None => base
           end))
      else None
  | _ => auto_detected schemes operation
  end.

(** ** items.ts *)

(* src: syncables/src/pagination/items.ts 4-10 COMMON_ITEMS_FIELDS *)
Definition COMMON_ITEMS_FIELDS : list jstr := map js ["items"; "data"; "results"; "records"; "content"]%string.

(** Members of the schema, those of every [allOf] branch when it has some. *)
Fixpoint properties_of (schema : Json) : fields_map :=
  match schema with
  | OObj m =>
      let branches := (fix allOf (l : fields_map) : option (list fields_map) :=
        match l with
        | [] => None
        | (key, v) :: rest =>
            if bool_decide (key = js "allOf") then
              match v with OArr b => Some (map properties_of b) | _ => None end
            else allOf rest
        end) m in
      match branches with
      | Some b => fold_left spread b []
      | None => entries_of (jget (js "properties") m)
      end
  | _ => []
  end.

(* src: syncables/src/pagination/items.ts 12-31 effectiveProperties *)
Definition effectiveProperties (schema : option Json) : fields_map :=
  match schema with Some s => properties_of s | None => [] end.

(* src: syncables/src/pagination/items.ts 33-42 metadataFieldRoots *)
Definition metadataFieldRoots (scheme : option Json) : list jstr :=
  map (fun p => nth 0 (split_str (js ".") p.1) []) (default [] (fields_at "response" "bodyFields" <$> scheme)).

(* src: syncables/src/pagination/items.ts 44-66 locateItemsField *)
Definition locateItemsField (schema scheme : option Json) : option jstr :=
  let properties := effectiveProperties schema in
  let excluded := metadataFieldRoots scheme in
  match List.find (fun p => negb (bool_decide (p.1 ∈ excluded)) && jeqb (text_of (member (js "type") p.2)) (js "array")) properties with
  | Some p => Some p.1
  | None => List.find (fun name => has_key name properties && negb (bool_decide (name ∈ excluded))) COMMON_ITEMS_FIELDS
  end.

(* src: syncables/src/pagination/items.ts 68-78 itemSchemaFor *)
Definition itemSchemaFor (schema scheme : option Json) : option Json :=
  if jeqb (text_of (omember (js "type") schema)) (js "array") then omember (js "items") schema
  else
    field ← locateItemsField schema scheme;
    match field with
    | [] => None
    | _ => omember (js "items") (jget field (effectiveProperties schema))
    end.

(** ** Paths into values *)

(** The index that a key of an array names. *)
Definition array_index (segment : jstr) : option nat :=
  if forallb is_digit segment && jeqb (dec (parse_dec segment)) segment then Some (Z.to_nat (parse_dec segment)) else None.

(** [node[segment]]. *)
Definition at_key (segment : jstr) (node : Json) : option Json :=
  match node with
  | OObj m => jget segment m
  | OArr l =>
      if jeqb segment (js "length") then Some (ONum (Z.of_nat (length l)))
      else i ← array_index segment; nth_error l i
  | _ => None
  end.

(* src: syncables/src/pagination/response-parser.ts 8-21 readNestedField *)
Definition readNestedField (body : Json) (path : jstr) : option Json :=
  fold_left (fun node segment => node ← node; at_key segment node) (split_str (js ".") path) (Some body).

(** [node[segment] = value]: an array grows with nothing in between, and a key
    that is no index leaves no trace in its JSON. *)
(* src: syncables/src/pagination/response-parser.ts 39-39 setNestedField ! *)
Definition put_key (segment : jstr) (value : Json) (node : Json) : Json :=
  match node with
  | OObj m => OObj (jset segment value m)
  | OArr l =>
      match array_index segment with
      | Some i => OArr (<[i := value]> (l ++ repeat ONull (S i - length l)))
      | None => node
      end
  | _ => node
  end.

(** The object or array under a key, or a new object. *)
(* src: syncables/src/pagination/response-parser.ts 33-37 setNestedField ! *)
Definition child_of (segment : jstr) (node : Json) : Json :=
  match at_key segment node with
  | Some (OObj m) => OObj m
  | Some (OArr l) => OArr l
  | _ => OObj []
  end.

Fixpoint set_segments (segments : list jstr) (value node : Json) : Json :=
  match segments with
  | [] => node
  | [segment] => put_key segment value node
  | segment :: rest => put_key segment (set_segments rest value (child_of segment node)) node
  end.

(* src: syncables/src/pagination/response-parser.ts 23-40 setNestedField *)
Definition setNestedField (body : Json) (path : jstr) (value : Json) : Json :=
  set_segments (split_str (js ".") path) value body.

(** ** request-builder.ts *)

(* src: syncables/src/pagination/request-builder.ts 9-14 PageCursor *)
Record PageCursor := mkCursor { offset : option Z; page : option Z; pageToken : option jstr }.
Definition no_cursor : PageCursor := mkCursor None None None.

Inductive RequestLocation := QueryParameters | BodyFields.
Definition location_name (l : RequestLocation) : string :=
  match l with QueryParameters => "queryParameters" | BodyFields => "bodyFields" end.

(* src: syncables/src/pagination/request-builder.ts 18-30 fieldsWithRole *)
Definition fieldsWithRole (scheme : Json) (role : string) (locations : list RequestLocation) : list jstr :=
  flat_map (fun l => map fst (List.filter (fun p => jeqb (role_of p.2) (js role)) (fields_at "request" (location_name l) scheme)))
    locations.

Definition assign_all (names : list jstr) (value : Json) (values : fields_map) : fields_map :=
  fold_left (fun values name => jset name value values) names values.

(* src: syncables/src/pagination/request-builder.ts 32-65 cursorValues *)
Definition cursorValues (scheme : Json) (cursor : PageCursor) (pageSize : option Z) (location : RequestLocation) : fields_map :=
  let withRole role := fieldsWithRole scheme role [location] in
  let values := match pageSize with Some n => assign_all (withRole "pageSize") (ONum n) [] | None => [] end in
  let values := assign_all (withRole "offset") (ONum (default 0 (offset cursor))) values in
  let values := assign_all (withRole "page") (ONum (default 1 (page cursor))) values in
  match pageToken cursor with
  | Some token => assign_all (withRole "pageToken" ++ withRole "cursor") (OStr token) values
  | None => values
  end.

(* src: syncables/src/pagination/request-builder.ts 67-80 buildQuery *)
Definition buildQuery (scheme : Json) (cursor : PageCursor) (pageSize : option Z) : list (jstr * jstr) :=
  fold_left (fun query p => jset p.1 (String_of p.2) query) (cursorValues scheme cursor pageSize QueryParameters) [].

(* src: syncables/src/pagination/request-builder.ts 82-103 buildBody *)
Definition buildBody (scheme : Json) (cursor : PageCursor) (pageSize : option Z) : Json :=
  fold_left (fun body p => setNestedField body p.1 p.2) (cursorValues scheme cursor pageSize BodyFields) (OObj []).

(* src: syncables/src/pagination/request-builder.ts 105-108 usesRequestBody *)
Definition usesRequestBody (scheme : Json) : bool :=
  match jkeys (fields_at "request" "bodyFields" scheme) with [] => false | _ => true end.

(* src: syncables/src/pagination/types.ts 84-93 PaginationResponseState *)
Record PaginationResponseState := mkState {
  nextPageToken : option jstr;
  nextLink : option jstr;
  currentPage : option Z;
  totalCount : option Z;
  totalPages : option Z;
  pageSize_ : option Z;
  hasNextPage : bool;
}.

(* src: syncables/src/pagination/request-builder.ts 110-143 nextCursor *)
Definition nextCursor (scheme : Json) (cursor : PageCursor) (state : PaginationResponseState) (itemsReturned : Z) : option PageCursor :=
  if negb (hasNextPage state) then None
  else
    let both := [QueryParameters; BodyFields] in
    if jeqb (type_of scheme) (js "pageToken") then token ← nextPageToken state; Some (mkCursor None None (Some token))
    else if jeqb (type_of scheme) (js "pageNumber") then
      match fieldsWithRole scheme "offset" both, fieldsWithRole scheme "page" both with
      | _ :: _, _ => Some (mkCursor (Some (default 0 (offset cursor) + itemsReturned)) None None)
      | [], _ :: _ => Some (mkCursor None (Some (default 1 (page cursor) + 1)) None)
      | [], [] => None
      end
    else None.

(** ** response-parser.ts *)

Section LinkHeader.
(** The header split at commas that white space and [<] follow. *)
Fixpoint split_links (fuel : nat) (piece s : jstr) : list jstr :=
  match fuel, s with
  | O, _ | _, [] => [piece ++ s]
  | S fuel, c :: s' =>
      if (c =? 44) && starts_with [60] (drop_ws s') then piece :: split_links fuel [] (drop_ws s')
      else split_links fuel (piece ++ [c]) s'
  end.

Definition is_line_end (c : Z) : bool := (c =? 10) || (c =? 13) || (c =? 0x2028) || (c =? 0x2029).

(** White space, a link between angle brackets, and the rest of the line. *)
Definition match_link (part : jstr) : option (jstr * jstr) :=
  match drop_ws part with
  | 60 :: s =>
      match span (fun c => negb (c =? 62)) s with
      | (c :: link, _ :: attrs) => Some (c :: link, (span (fun c => negb (is_line_end c)) attrs).1)
      | _ => None
      end
  | _ => None
  end.

Definition is_word (c : Z) : bool :=
  is_digit c || ((65 <=? c) && (c <=? 90)) || ((97 <=? c) && (c <=? 122)) || (c =? 95).

(** At the start of [s], [rel], [=], a quote or none, and a value without
    quotes, separators and white space. *)
Definition match_rel (s : jstr) : option jstr :=
  if jeqb (lower (take 3 s)) (js "rel") then
    match drop_ws (drop 3 s) with
    | 61 :: rest =>
        let rest := drop_ws rest in
        let rest := match rest with 34 :: r => r | _ => rest end in
        match (span (fun c => negb ((c =? 34) || (c =? 59) || (c =? 44) || is_ws c)) rest).1 with
        | [] => None
        | v => Some v
        end
    | _ => None
    end
  else None.

(** The first match at a word boundary; [word]: the unit before is part of a word. *)
Fixpoint find_rel (word : bool) (s : jstr) : option jstr :=
  match (if word then None else match_rel s), s with
  | Some v, _ => Some v
  | None, [] => None
  | None, c :: s' => find_rel (is_word c) s'
  end.

(* src: syncables/src/pagination/response-parser.ts 42-63 parseLinkHeader *)
Definition parseLinkHeader (header : jstr) : option jstr :=
  match header with
  | [] => None
  | _ =>
      p ← List.find (fun p : jstr * jstr => match find_rel false p.2 with Some v => jeqb (lower v) (js "next") | None => false end)
        (omap match_link (split_links (length header) [] header));
      Some p.1
  end.
End LinkHeader.

Section Parser.
Context (other_number : jstr -> option Z).

(** [Number(s)] of a string. *)
Definition number_of_text (s : jstr) : option Z :=
  match trim s with
  | [] => Some 0
  | 45 :: ((_ :: _) as d) => if forallb is_digit d then Some (- parse_dec d) else other_number s
  | d => if forallb is_digit d then Some (parse_dec d) else other_number s
  end.

(* src: syncables/src/pagination/response-parser.ts 65-70 toStringOrNull *)
Definition toStringOrNull (value : option Json) : option jstr :=
  match value with
  | None | Some ONull | Some (OStr []) => None
  | Some v => Some (String_of v)
  end.

(* src: syncables/src/pagination/response-parser.ts 72-78 toNumberOrNull *)
Definition toNumberOrNull (value : option Json) : option Z :=
  match value with
  | None | Some ONull => None
  | Some (OBool b) => Some (if b then 1 else 0)
  | Some (ONum n) => Some n
  | Some (OStr s) => number_of_text s
  | Some (OArr l) => number_of_text (String_of (OArr l))
  | Some (OObj _) => None
  end.

Definition body_role (body : Json) (roles : fields_map) (p : jstr * Json) : fields_map :=
  match role_of p.2, readNestedField body p.1 with
  | [], _ | _, None => roles
  | role, Some value => jset role value roles
  end.

(** [headers[name] ?? headers[lower case] ?? headers[upper case]]. *)
Definition header_of (headers : list (jstr * jstr)) (name : jstr) : option jstr :=
  match jget name headers, jget (lower name) headers with
  | Some v, _ => Some v
  | None, Some v => Some v
  | None, None => jget (upper name) headers
  end.

Definition header_role (headers : list (jstr * jstr)) (roles : fields_map) (p : jstr * Json) : fields_map :=
  match role_of p.2, header_of headers p.1 with
  | [], _ | _, None => roles
  | role, Some raw =>
      if jeqb role (js "nextLink") then
        match parseLinkHeader raw with
        | Some (c :: link) => jset role (OStr (c :: link)) roles
        | _ => roles
        end
      else jset role (OStr raw) roles
  end.

(* src: syncables/src/pagination/response-parser.ts 80-113 extractByRole *)
Definition extractByRole (scheme body : Json) (headers : list (jstr * jstr)) : fields_map :=
  fold_left (header_role headers) (fields_at "response" "headers" scheme)
    (fold_left (body_role body) (fields_at "response" "bodyFields" scheme) []).

(* src: syncables/src/pagination/response-parser.ts 115-155 deriveHasNextPage *)
Definition deriveHasNextPage (type : jstr) (state : PaginationResponseState) (itemsFetchedSoFar : option Z) : bool :=
  match nextLink state, nextPageToken state, totalCount state, itemsFetchedSoFar with
  | Some _, _, _, _ | _, Some _, _, _ => true
  | None, None, Some total, Some fetched => fetched <? total
  | None, None, _, _ =>
      if jeqb type (js "pageNumber") then
        match currentPage state, totalPages state, totalCount state, pageSize_ state with
        | Some current, Some pages, _, _ => current <? pages
        | Some current, None, Some total, Some size => current * size <? total
        | _, _, _, _ => false
        end
      else false
  end.

(* src: syncables/src/pagination/response-parser.ts 157-184 parsePaginationState *)
Definition parsePaginationState (scheme body : Json) (headers : list (jstr * jstr)) (itemsFetchedSoFar : option Z)
    : PaginationResponseState :=
  let roles := extractByRole scheme body headers in
  let get role := jget (js role) roles in
  let state next := mkState (toStringOrNull (nullish (get "nextPageToken"%string) (get "nextCursor"%string)))
    (toStringOrNull (get "nextLink"%string)) (toNumberOrNull (get "currentPage"%string))
    (toNumberOrNull (get "totalCount"%string)) (toNumberOrNull (get "totalPages"%string))
    (toNumberOrNull (get "pageSize"%string)) next in
  state (deriveHasNextPage (type_of scheme) (state false) itemsFetchedSoFar).
End Parser.

(** ** Schemes are well formed *)

(** A role is absent, an extension or one of [roles]. *)
Definition known_role (roles : list jstr) (r : jstr) : Prop := r = [] \/ isExtensionKey r = true \/ r ∈ roles.

Record well_formed (scheme : Json) : Prop := {
  wf_type : type_of scheme ∈ SCHEME_TYPES;
  wf_parts : truthy_json (member (js "request") scheme) = true \/ truthy_json (member (js "response") scheme) = true;
  wf_request : forall location, location = "queryParameters"%string \/ location = "bodyFields"%string ->
    Forall (fun p => known_role REQUEST_ROLES (role_of p.2)) (fields_at "request" location scheme);
  wf_response : forall location, location = "bodyFields"%string \/ location = "headers"%string ->
    Forall (fun p => known_role RESPONSE_ROLES (role_of p.2)) (fields_at "response" location scheme);
}.

Lemma role_errors_none path part location kind_ roles scheme :
  role_errors path part location kind_ roles scheme = [] <->
  Forall (fun p => known_role roles (role_of p.2)) (fields_at part location scheme).
Proof.
  unfold role_errors. induction (fields_at part location scheme) as [|p l IH]; [by split|].
  cbn [flat_map]. rewrite Forall_cons, <-IH. unfold known_role at 1.
  destruct (decide (role_of p.2 = [])) as [->|H1]; [by cbn; tauto|].
  rewrite (bool_decide_false (role_of p.2 = [])) by done.
  destruct (isExtensionKey (role_of p.2)) eqn:H2; [by cbn; tauto|].
  destruct (decide (role_of p.2 ∈ roles)) as [H3|H3]; [rewrite bool_decide_true by done; by cbn; tauto|].
  rewrite bool_decide_false by done. cbn. split; [done|]. intros [[?|[?|?]] _]; done.
Qed.

Lemma validate_spec name scheme : validatePaginationScheme name scheme = [] <-> well_formed scheme.
Proof.
  unfold validatePaginationScheme. rewrite !app_nil, !role_errors_none.
  split.
  - intros (H1 & H2 & H3 & H4 & H5 & H6).
    assert (is_text (member (js "type") scheme) = true /\ type_of scheme ∈ SCHEME_TYPES) as [_ Ht].
    { destruct (is_text _), (bool_decide (type_of scheme ∈ _)) eqn:E; try discriminate H1.
      by apply bool_decide_eq_true in E. }
    split; [done| |intros location [->| ->]; done..].
    destruct (truthy_json _); [by left|]. destruct (truthy_json _); [by right|discriminate H2].
  - intros [H1 H2 H3 H4]. repeat split; auto.
    + rewrite bool_decide_true by done. destruct (is_text _) eqn:E; [done|]. exfalso. unfold type_of in H1.
      assert (text_of (member (js "type") scheme) = []) as Hnil by (unfold is_text, text_of in *; repeat case_match; done).
      rewrite Hnil in H1. apply (bool_decide_eq_true_2 _) in H1. vm_compute in H1. done.
    + destruct H2 as [-> | ->]; [done|]. by rewrite orb_true_r.
Qed.

Lemma validSchemes_valid document name scheme :
  jget name (validSchemes document) = Some scheme -> well_formed scheme.
Proof.
  unfold validSchemes. generalize (entries_of (omember (js "paginationSchemes") (member (js "components") document))) as l.
  intros l. cut (forall m, (forall k v, jget k m = Some v -> well_formed v) ->
    forall k v, jget k (fold_left (fun m p => match validatePaginationScheme p.1 p.2 with [] => jset p.1 p.2 m | _ => m end) l m)
    = Some v -> well_formed v); [intros H; by apply (H []) |].
  induction l as [|p l IH]; intros m Hm; [exact Hm|]. cbn [fold_left]. apply IH.
  destruct (validatePaginationScheme p.1 p.2) eqn:E; [|exact Hm].
  intros k v. rewrite jget_jset. case_decide; [intros [= <-]; by apply validate_spec in E|apply Hm].
Qed.

Lemma validSchemes_nodup document : NoDup (jkeys (validSchemes document)).
Proof.
  unfold validSchemes. generalize (entries_of (omember (js "paginationSchemes") (member (js "components") document))) as l.
  intros l. cut (forall m : fields_map, NoDup (jkeys m) -> NoDup (jkeys (fold_left
    (fun m p => match validatePaginationScheme p.1 p.2 with [] => jset p.1 p.2 m | _ => m end) l m))).
  { intros H. apply H. constructor. }
  induction l as [|p l IH]; intros m Hm; [exact Hm|]. cbn [fold_left]. apply IH.
  destruct (validatePaginationScheme p.1 p.2); [by apply jset_nodup|exact Hm].
Qed.

(** [x-pagination] of the operation has overrides. *)
Definition overridden (operation : Json) : bool :=
  truthy_json (omember (js "overrides") (head (elements_of (member (js "x-pagination") operation)))).

(** C17 (type). The scheme an operation resolves to, whether its
    [x-pagination] names it or it is detected, is declared by the document under
    the name it is given and is well formed: its type is one the walk knows, it
    says something of requests or responses, and every role in it is known or an
    extension.  Only overrides can change that. *)
Theorem resolved_scheme_well_formed document operation e (H : overridden operation = false) :
  resolveEffectiveScheme document operation = Some e ->
  jget (schemeName e) (validSchemes document) = Some (scheme e) /\ well_formed (scheme e).
Proof.
  cut (resolveEffectiveScheme document operation = Some e ->
       jget (schemeName e) (validSchemes document) = Some (scheme e)).
  { intros Hc He%Hc. split; [done|]. by apply (validSchemes_valid document (schemeName e)). }
  assert (auto_detected (validSchemes document) operation = Some e ->
          jget (schemeName e) (validSchemes document) = Some (scheme e)) as Hauto.
  { unfold auto_detected. destruct (List.find _ _) as [[name s]|] eqn:E; [|done]. intros [= <-].
    apply find_some in E as [E _]. cbn. apply jget_elem; [apply validSchemes_nodup|by apply list_elem_of_In]. }
  unfold resolveEffectiveScheme. unfold overridden in H.
  destruct (member (js "x-pagination") operation) as [v|]; [|exact Hauto].
  destruct v as [ | | | |[|a l]| ]; try exact Hauto. cbn [elements_of head omember mbind option_bind] in H.
  destruct (truthy_json (Some a)); [|done].
  destruct (jget (text_of (member (js "scheme") a)) (validSchemes document)) as [base|] eqn:E; [|done].
  cbn [mbind option_bind]. destruct (member (js "overrides") a) as [o|]; [rewrite H|]; intros [= <-]; exact E.
Qed.

(** ** Fields at a path *)

(** No array stands where the path leads through. *)
Fixpoint through_objects (segments : list jstr) (node : Json) : Prop :=
  match segments with
  | [] => True
  | segment :: rest =>
      match node with
      | OObj m => match rest with [] => True | _ => through_objects rest (child_of segment node) end
      | _ => False
      end
  end.

(** Neither path leads to or through the other. *)
Fixpoint diverge (p q : list jstr) : Prop :=
  match p, q with
  | a :: p, b :: q => a <> b \/ (a = b /\ diverge p q)
  | _, _ => False
  end.

Definition read_segments (segments : list jstr) (node : option Json) : option Json :=
  fold_left (fun node segment => node ← node; at_key segment node) segments node.

Lemma read_segments_none segments : read_segments segments None = None.
Proof. induction segments as [|a l IH]; [done|]. exact IH. Qed.

Lemma read_set_segments segments value node : segments <> [] -> through_objects segments node ->
  read_segments segments (Some (set_segments segments value node)) = Some value.
Proof.
  revert node. induction segments as [|a rest IH]; intros node Hne Ht; [done|]. cbn [through_objects] in Ht.
  destruct node as [ | | | | |m]; try done. destruct rest as [|b rest].
  - cbn. rewrite jget_jset. by rewrite decide_True.
  - change (set_segments (a :: b :: rest) value (OObj m))
      with (put_key a (set_segments (b :: rest) value (child_of a (OObj m))) (OObj m)).
    cbn [put_key]. unfold read_segments. cbn [fold_left]. cbn [mbind option_bind at_key].
    rewrite jget_jset, decide_True by done. apply IH; [done|exact Ht].
Qed.

(** An object reads [None] where its child would be new. *)
Lemma read_child_of a m q : q <> [] ->
  read_segments q (Some (child_of a (OObj m))) = read_segments (a :: q) (Some (OObj m)).
Proof.
  intros Hq. unfold child_of, read_segments. cbn [fold_left mbind option_bind]. cbn [at_key].
  destruct q as [|b q]; [done|]. cbn [fold_left]. destruct (jget a m) as [[]|]; done.
Qed.

Lemma read_set_other p q value node : through_objects p node -> diverge p q ->
  read_segments q (Some (set_segments p value node)) = read_segments q (Some node).
Proof.
  revert q node. induction p as [|a p IH]; intros q node Ht Hd; [done|].
  destruct q as [|b q]; [done|]. cbn [through_objects] in Ht. destruct node as [ | | | | |m]; try done.
  cbn [diverge] in Hd.
  destruct p as [|a' p].
  - destruct Hd as [Hd|[_ Hd]]; [|by destruct q]. unfold read_segments. cbn [set_segments put_key fold_left mbind option_bind at_key].
    by rewrite jget_jset, decide_False by congruence.
  - change (set_segments (a :: a' :: p) value (OObj m))
      with (put_key a (set_segments (a' :: p) value (child_of a (OObj m))) (OObj m)).
    cbn [put_key]. destruct (decide (b = a)) as [->|Hne].
    + destruct Hd as [Hd|[_ Hd]]; [done|]. assert (q <> []) as Hq by (by destruct q).
      rewrite <-(read_child_of a m q) by done. rewrite <-(IH q (child_of a (OObj m)) Ht Hd).
      unfold read_segments. cbn [fold_left mbind option_bind at_key]. by rewrite jget_jset, decide_True.
    + unfold read_segments. cbn [fold_left mbind option_bind at_key]. by rewrite jget_jset, decide_False.
Qed.

(** What is written at a dotted path of a body is what is read
    back at that path, the objects on the way made as needed, and a path that
    parts from it reads what it read before.  (An array on the way is indexed
    instead.) *)
Theorem nested_field_roundtrip body path value (H : through_objects (split_str (js ".") path) body) :
  readNestedField (setNestedField body path value) path = Some value
  /\ forall other, diverge (split_str (js ".") path) (split_str (js ".") other) ->
       readNestedField (setNestedField body path value) other = readNestedField body other.
Proof.
  split.
  - apply (read_set_segments (split_str (js ".") path) value body); [|exact H].
    unfold split_str. change (js ".") with [46]. by destruct (split_go_char 46 [] path) as (first & rest & ->).
  - intros other Hd. by apply (read_set_other (split_str (js ".") path)).
Qed.

Module Demo.
Definition obj (l : list (string * Json)) : Json := OObj (map (fun p => (js p.1, p.2)) l).
Definition role (name : string) : Json := obj [("role"%string, OStr (js name))].
Definition by_token : Json :=
  obj [("type"%string, OStr (js "pageToken"));
       ("request"%string, obj [("bodyFields"%string, obj [("page.after"%string, role "cursor")])]);
       ("response"%string, obj [("bodyFields"%string, obj [("next.cursor"%string, role "nextCursor")])])].
Definition unknown : Json := obj [("type"%string, OStr (js "magic"))].
Definition document : Json :=
  obj [("components"%string, obj [("paginationSchemes"%string, obj [("odd"%string, unknown); ("tokens"%string, by_token)])])].
Definition search : Json :=
  obj [("requestBody"%string, obj [("content"%string, obj [("application/json"%string, obj [("schema"%string,
    obj [("properties"%string, obj [("page.after"%string, OObj []); ("query"%string, OObj [])])])])])])].

Example detected : resolveEffectiveScheme document search = Some (mkEffective (js "tokens") by_token).
Proof. vm_compute. reflexivity. Qed.

Lemma resolved_scheme_well_formed_witness :
  jget (js "tokens") (validSchemes document) = Some by_token /\ well_formed by_token.
Proof. apply (resolved_scheme_well_formed document search (mkEffective (js "tokens") by_token) eq_refl detected). Defined.

(** The second page of a search: the cursor goes into the body. *)
Definition body : Json := obj [("query"%string, OStr (js "x")); ("page"%string, obj [("size"%string, ONum 10)])].

Example second_page : setNestedField body (js "page.after") (OStr (js "t1"))
  = obj [("query"%string, OStr (js "x")); ("page"%string, obj [("size"%string, ONum 10); ("after"%string, OStr (js "t1"))])].
Proof. vm_compute. reflexivity. Qed.

Lemma nested_field_roundtrip_witness :
  readNestedField (setNestedField body (js "page.after") (OStr (js "t1"))) (js "page.after") = Some (OStr (js "t1"))
  /\ forall other, diverge (split_str (js ".") (js "page.after")) (split_str (js ".") other) ->
       readNestedField (setNestedField body (js "page.after") (OStr (js "t1"))) other = readNestedField body other.
Proof. apply nested_field_roundtrip. vm_compute. exact I. Defined.

Example link_header : parseLinkHeader (js "<https://a/?p=1>; rel=prev, <https://a/?p=3>; rel=next") = Some (js "https://a/?p=3").
Proof. vm_compute. reflexivity. Qed.
End Demo.
