(* ===== verification/Pages.v ===== *)
(** * Walking the pages of a list operation

    Models [src/syncables/src/read/pages.ts] and [transport.ts], and
    [paginate] of [read.ts].

    The world outside is a state [S] with three operations: a request sent
    through the transport (which may throw), the clock and the timer.  The
    WHATWG [URL] class is the record of operations [UrlApi]; [Urls] says what
    its documentation says of them.  The body of a response is what
    [JSON.parse] makes of it.  A consumer of the pages keeps its state when it
    throws.  [walk_loop] runs on fuel; a read makes at most [maxRequests]
    requests, so [walk_fuel] is enough. *)
From S2P Require Import Prelude Unicode Text Collections JsDate Upload Uri Json Pagination.
Local Open Scope Z_scope.

Inductive ReadError := BudgetExhausted (message : jstr) | Failure (message : jstr) | ProbeDone.

(** ** transport.ts *)

(* src: syncables/src/read/transport.ts 8-8 ListMethod *)
Inductive ListMethod := GET | POST.
Definition method_name (m : ListMethod) : jstr := match m with GET => js "GET" | POST => js "POST" end.

(* src: syncables/src/read/transport.ts 58-64 lowerCaseHeaders *)
Definition lowerCaseHeaders (headers : list (jstr * jstr)) : list (jstr * jstr) :=
  jmap_of (map (fun p => (lower p.1, p.2)) headers).

(** ** The [URL] class *)

Record UrlApi (U : Type) := mkUrlApi {
  parse_url : jstr -> option U;
  resolve : jstr -> U -> option U;
  set_pathname : U -> jstr -> U;
  set_param : U -> jstr -> jstr -> U;
  href : U -> jstr;
  origin : U -> jstr;
  protocol : U -> jstr;
  pathname : U -> jstr;
  username : U -> jstr;
  password : U -> jstr;
  hash_ : U -> jstr;
}.
Arguments parse_url {U} _ _.
Arguments resolve {U} _ _ _.
Arguments set_pathname {U} _ _ _.
Arguments set_param {U} _ _ _ _.
Arguments href {U} _ _.
Arguments origin {U} _ _.
Arguments protocol {U} _ _.
Arguments pathname {U} _ _.
Arguments username {U} _ _.
Arguments password {U} _ _.
Arguments hash_ {U} _ _.

(** A copy of a URL is that URL, and its path and query are not part of its origin. *)
Class Urls {U} (api : UrlApi U) : Prop := {
  url_copy : forall u, parse_url api (href api u) = Some u;
  url_pathname : forall u p, origin api (set_pathname api u p) = origin api u;
  url_param : forall u k v, origin api (set_param api u k v) = origin api u;
}.

(* src: syncables/src/read/transport.ts 10-18 TransportRequest *)
Record TransportRequest (U : Type) := mkRequest {
  rq_url : U;
  rq_method : ListMethod;
  rq_headers : list (jstr * jstr);
  rq_body : option jstr;
}.
Arguments mkRequest {U} _ _ _ _.
Arguments rq_url {U} _.
Arguments rq_method {U} _.
Arguments rq_headers {U} _.
Arguments rq_body {U} _.

(* src: syncables/src/read/transport.ts 20-26 TransportResponse *)
Record TransportResponse := mkResponse {
  status : Z;
  rs_headers : list (jstr * jstr);
  rs_body : option Json;
}.

(* src: syncables/src/read/pages.ts 28-37 ReadLimits *)
Record ReadLimits := mkLimits { maxRequests : Z; maxRecords : Z; timeoutMs : Z; maxRetries : Z }.

(* src: syncables/src/read/pages.ts 39-44 DEFAULT_READ_LIMITS *)
Definition DEFAULT_READ_LIMITS : ReadLimits := mkLimits 10000 5000 (30 * 60 * 1000) 3.

(** ** The items of a page *)

(* src: syncables/src/read/pages.ts 111-134 pageItems *)
Definition pageItems (body : Json) (responseSchema scheme : option Json) : res ReadError (list Json) :=
  let array :=
    match body with
    | OArr l => Some (OArr l)
    | OObj m =>
        let field := match locateItemsField responseSchema scheme with
                     | Some f => Some f
                     | None => List.find (fun name => match jget name m with Some (OArr _) => true | _ => false end) COMMON_ITEMS_FIELDS
                     end in
        f ← field; jget f m
    | _ => None
    end in
  match array with
  | Some (OArr l) => Ok (List.filter (fun v => isRecord (Some v)) l)
  | _ => Err (Failure (js "Could not locate the items array in the response"))
  end.

(** ** Paths *)

(** The loop of the replacement: [None] in the result is a value that is missing. *)
Fixpoint bind_go (fuel : nat) (values : list (jstr * jstr)) (s : jstr) : res ReadError jstr :=
  match fuel, s with
  | O, _ | _, [] => Ok s
  | S fuel, c :: s' =>
      match (if c =? 123 then span (fun c => negb (c =? 125)) s' else ([], [])) with
      | (n :: name, _ :: rest) =>
          match jget (n :: name) values with
          | None | Some [] => Err (Failure (js "Missing value for " ++ n :: name))
          | Some v =>
              match encodeURIComponent v with
              | None => Err (Failure (js "URI malformed"))
              | Some e => r ← bind_go fuel values rest; Ok (e ++ r)
              end
          end
      | _ => r ← bind_go fuel values s'; Ok (c :: r)
      end
  end.

(* src: syncables/src/read/pages.ts 136-148 bindPath *)
Definition bindPath (template : jstr) (values : list (jstr * jstr)) : res ReadError jstr :=
  bind_go (length template) values template.

(** ** The cursor in the body *)

(** The values of the cursor's fields, under their dotted paths. *)
Fixpoint collect (prefix : jstr) (value : Json) : list (jstr * Json) :=
  match value with
  | OObj m =>
      (fix go (m : fields_map) : list (jstr * Json) :=
        match m with
        | [] => []
        | (key, v) :: rest =>
            match v with
            | OObj _ => collect (prefix ++ key ++ js ".") v
            | _ => [(prefix ++ key, v)]
            end ++ go rest
        end) m
  | _ => []
  end.

(* src: syncables/src/read/pages.ts 170-190 withBody *)
Definition withBody (body cursorFields : Json) : Json :=
  fold_left (fun merged p => setNestedField merged p.1 p.2) (collect [] cursorFields) body.

Section Walk.
Context {U S : Type} (api : UrlApi U).
Context (transport : S -> TransportRequest U -> S * res jstr TransportResponse).
Context (Date_now : S -> S * Z) (sleep : S -> Z -> S).
Context (other_dates : jstr -> option Z) (other_number : jstr -> option Z).

(* src: syncables/src/read/pages.ts 150-163 PageWalk *)
Record PageWalk := mkWalk {
  wk_document : Json;
  wk_operation : Json;
  wk_upstream : U;
  wk_path : jstr;
  wk_method : ListMethod;
  wk_query : list (jstr * jstr);
  wk_body : Json;
  wk_pageSize : option Z;
}.

(* src: syncables/src/read/pages.ts 165-168 Page *)
Record Page := mkPage { pg_url : U; pg_items : list Json }.

(** The budget: its limits and deadline, and what it counts. *)
(* src: syncables/src/read/pages.ts 58-59 Budget ! *)
Record Budget := mkBudget { limits : ReadLimits; deadline : Z }.
(* src: syncables/src/read/pages.ts 60-60 requests ! *)
Record Meter := mkMeter { env : S; requests : Z }.

(** When a response asks to be tried again. *)
Definition retry_at (now : Z) (headers : list (jstr * jstr)) : option Z :=
  match jget (js "retry-after") headers with
  | None | Some [] => None
  | Some s =>
      match number_of_text other_number s with
      | Some seconds => Some (now + Z.max 0 seconds * 1000)
      | None => Date_parse other_dates s
      end
  end.

(** The loop of [send]; [retries]: the retries that remain. *)
(* src: syncables/src/read/pages.ts 71-106 send ! *)
Fixpoint send_loop (retries : nat) (b : Budget) (request : TransportRequest U) (m : Meter)
    : Meter * res ReadError TransportResponse :=
  let '(s, now) := Date_now (env m) in
  if deadline b <? now then (mkMeter s (requests m), Err (BudgetExhausted (js "Read timed out")))
  else
    let n := requests m + 1 in
    if maxRequests (limits b) <? n then
      (mkMeter s n, Err (BudgetExhausted (js "Read exceeds " ++ dec_signed (maxRequests (limits b)) ++ js " requests; narrow its scope")))
    else
      match transport s request with
      | (s, Err e) => (mkMeter s n, Err (Failure e))
      | (s, Ok raw) =>
          let response := mkResponse (status raw) (lowerCaseHeaders (rs_headers raw)) (rs_body raw) in
          match retries with
          | O => (mkMeter s n, Ok response)
          | Datatypes.S retries =>
              if negb (status response =? 429) then (mkMeter s n, Ok response)
              else
                let '(s, now1) := Date_now s in
                match retry_at now1 (rs_headers response) with
                | None => (mkMeter s n, Ok response)
                | Some at_ =>
                    let '(s, now2) := Date_now s in
                    let delay := Z.max 0 (at_ - now2) in
                    let '(s, now3) := Date_now s in
                    if deadline b <? now3 + delay
                    then (mkMeter s n, Err (Failure (js "API retry delay exceeds the remaining read time")))
                    else send_loop retries b request (mkMeter (sleep s delay) n)
                end
          end
      end.

(* src: syncables/src/read/pages.ts 71-106 send *)
Definition send (b : Budget) (request : TransportRequest U) (m : Meter) : Meter * res ReadError TransportResponse :=
  send_loop (Z.to_nat (maxRetries (limits b))) b request m.

(** ** One page *)

(** Where the walk is. *)
Record WalkState := mkWalkState {
  ws_cursor : PageCursor;
  ws_next : option U;
  ws_items : Z;
  ws_seen : list jstr;
}.
Definition walk_start : WalkState := mkWalkState no_cursor None 0 [].

(** [pathname.replace(/\/$/, '')]. *)
Definition without_slash (s : jstr) : jstr :=
  match reverse s with 47 :: r => reverse r | _ => s end.

Definition scheme_of (w : PageWalk) : option Json :=
  scheme <$> resolveEffectiveScheme (wk_document w) (wk_operation w).

Definition response_schema (w : PageWalk) : option Json :=
  json_schema (omember (js "200") (member (js "responses") (wk_operation w))).

(** The URL of the next request. *)
(* src: syncables/src/read/pages.ts 217-229 walkPages ! *)
Definition page_url (w : PageWalk) (st : WalkState) : res ReadError U :=
  match ws_next st with
  | Some u => Ok u
  | None =>
      match parse_url api (href api (wk_upstream w)) with
      | None => Err (Failure (js "Invalid URL"))
      | Some u =>
          let query := fold_left (fun m p => jset p.1 p.2 m)
            (match scheme_of w with Some s => buildQuery s (ws_cursor st) (wk_pageSize w) | None => [] end) (wk_query w) in
          Ok (fold_left (fun u p => set_param api u p.1 p.2) query
                (set_pathname api u (without_slash (pathname api (wk_upstream w)) ++ wk_path w)))
      end
  end.

(* src: syncables/src/read/pages.ts 231-243 walkPages ! *)
Definition page_request (w : PageWalk) (st : WalkState) (u : U) : TransportRequest U :=
  let accept := [(js "accept", js "application/json")] in
  match wk_method w with
  | GET => mkRequest u GET accept None
  | POST =>
      mkRequest u POST (accept ++ [(js "content-type", js "application/json")])
        (Some (json_text (match ws_next st, scheme_of w with
                          | None, Some s => withBody (wk_body w) (buildBody s (ws_cursor st) (wk_pageSize w))
                          | _, _ => wk_body w
                          end)))
  end.

Definition request_key (r : TransportRequest U) : jstr :=
  method_name (rq_method r) ++ js " " ++ href api (rq_url r) ++ js " " ++ default [] (rq_body r).

(** The request of a page, and its items, unless it was made before. *)
(* src: syncables/src/read/pages.ts 245-266 walkPages ! *)
Definition fetch_page (b : Budget) (w : PageWalk) (st : WalkState) (m : Meter)
    : Meter * res ReadError (TransportRequest U * TransportResponse * Json * list Json) :=
  match page_url w st with
  | Err e => (m, Err e)
  | Ok u =>
      let request := page_request w st u in
      if bool_decide (request_key request ∈ ws_seen st)
      then (m, Err (Failure (js "Pagination repeated a page; stopping")))
      else
        match send b request m with
        | (m, Err e) => (m, Err e)
        | (m, Ok response) =>
            let what := method_name (wk_method w) ++ js " " ++ pathname api u in
            (m, if (status response <? 200) || (300 <=? status response)
                then Err (Failure (what ++ js " responded " ++ dec_signed (status response)))
                else match rs_body response with
                     | None => Err (Failure (what ++ js " did not return JSON"))
                     | Some body =>
                         items ← pageItems body (response_schema w) (scheme_of w);
                         Ok (request, response, body, items)
                     end)
        end
  end.

(** Where the walk goes after a page; [None]: it is done. *)
(* src: syncables/src/read/pages.ts 268-309 walkPages ! *)
Definition next_state (w : PageWalk) (st : WalkState) (request : TransportRequest U) (response : TransportResponse)
    (body : Json) (items : list Json) : res ReadError (option WalkState) :=
  match scheme_of w with
  | None => Ok None
  | Some s =>
      let n := Z.of_nat (length items) in
      let total := ws_items st + n in
      let seen := request_key request :: ws_seen st in
      let state := parsePaginationState other_number s (if isRecord (Some body) then body else OObj [])
                     (rs_headers response) (Some total) in
      if negb (hasNextPage state) then Ok None
      else if jeqb (type_of s) (js "nextLink") ||
              (bool_decide (is_Some (nextLink state)) && negb (bool_decide (is_Some (nextPageToken state)))) then
        match nextLink state with
        | None => Ok None
        | Some l =>
            match resolve api l (rq_url request) with
            | None => Err (Failure (js "Invalid URL"))
            | Some u =>
                if negb (jeqb (origin api u) (origin api (wk_upstream w))) || negb (jeqb (username api u) [])
                   || negb (jeqb (password api u) []) || negb (jeqb (hash_ api u) [])
                then Err (Failure (js "Pagination left the API origin"))
                else Ok (Some (mkWalkState (ws_cursor st) (Some u) total seen))
            end
        end
      else if jeqb (type_of s) (js "pageNumber") && bool_decide (items = []) then Ok None
      else match nextCursor s (ws_cursor st) state n with
           | None => Ok None
           | Some c => Ok (Some (mkWalkState c None total seen))
           end
  end.

(** ** The walk *)

Section Consumer.
Context {A : Type} (consume : A -> Page -> A * option ReadError).

(* src: syncables/src/read/pages.ts 192-310 walkPages *)
Fixpoint walk_loop (fuel : nat) (b : Budget) (w : PageWalk) (st : WalkState) (m : Meter) (a : A)
    : option (Meter * A * res ReadError unit) :=
  match fuel with
  | O => None
  | Datatypes.S fuel =>
      match fetch_page b w st m with
      | (m, Err e) => Some (m, a, Err e)
      | (m, Ok (request, response, body, items)) =>
          match consume a (mkPage (rq_url request) items) with
          | (a, Some e) => Some (m, a, Err e)
          | (a, None) =>
              match next_state w st request response body items with
              | Err e => Some (m, a, Err e)
              | Ok None => Some (m, a, Ok tt)
              | Ok (Some st) => walk_loop fuel b w st m a
              end
          end
      end
  end.
End Consumer.

Definition walk_fuel (b : Budget) (m : Meter) : nat := Datatypes.S (Z.to_nat (maxRequests (limits b) - requests m)).

(** [new Budget(transport, limits, sleep)]. *)
(* src: syncables/src/read/pages.ts 62-69 constructor ! *)
Definition new_budget (l : ReadLimits) (s : S) : Budget * Meter :=
  let '(s, now) := Date_now s in (mkBudget l (now + timeoutMs l), mkMeter s 0).

(** What [paginate] does with a page. *)
Definition push_page (b : Budget) (items : list Json) (p : Page) : list Json * option ReadError :=
  let items := items ++ pg_items p in
  (items, if maxRecords (limits b) <? Z.of_nat (length items)
          then Some (BudgetExhausted (js "Read exceeds " ++ dec_signed (maxRecords (limits b)) ++ js " records; narrow its scope"))
          else None).
End Walk.

(** ** What every request spends *)

Section Facts.
Context {U S A : Type} (api : UrlApi U).
Context (transport : S -> TransportRequest U -> S * res jstr TransportResponse).
Context (Date_now : S -> S * Z) (sleep : S -> Z -> S).
Context (other_dates : jstr -> option Z) (other_number : jstr -> option Z).
Context (consume : A -> Page (U := U) -> A * option ReadError).

#[local] Abbreviation send := (send transport Date_now sleep other_dates other_number).
#[local] Abbreviation send_loop := (send_loop transport Date_now sleep other_dates other_number).
#[local] Abbreviation fetch_page := (fetch_page api transport Date_now sleep other_dates other_number).
#[local] Abbreviation walk_loop := (walk_loop api transport Date_now sleep other_dates other_number consume).
#[local] Abbreviation next_state := (next_state api other_number).

(** What is kept by the clock, the timer, a request that is refused and one
    that is sent. *)
Record MeterInvariant (b : Budget) (sent : TransportRequest U -> Prop) (Inv : Meter (S := S) -> Prop) : Prop := {
  inv_clock : forall m, Inv m -> Inv (mkMeter (Date_now (env m)).1 (requests m));
  inv_sleep : forall m d, Inv m -> Inv (mkMeter (sleep (env m) d) (requests m));
  inv_refused : forall m, maxRequests (limits b) < requests m + 1 -> Inv m -> Inv (mkMeter (env m) (requests m + 1));
  inv_sent : forall m r, sent r -> requests m + 1 <= maxRequests (limits b) -> Inv m ->
    Inv (mkMeter (transport (env m) r).1 (requests m + 1));
}.

Lemma send_loop_inv b sent Inv retries r m :
  MeterInvariant b sent Inv -> sent r -> Inv m -> Inv (send_loop retries b r m).1.
Proof.
  intros [Hc Hs Hr Ht] Hr0. revert m. induction retries as [|retries IH]; intros m Hm; cbn [Pages.send_loop].
  all: pose proof (Hc _ Hm) as H1; destruct (Date_now (env m)) as [s now]; cbn [fst] in H1.
  all: destruct (deadline b <? now); [exact H1|].
  all: destruct (maxRequests (limits b) <? requests m + 1) eqn:E; breflect; [exact (Hr (mkMeter s (requests m)) E H1)|].
  all: pose proof (Ht (mkMeter s (requests m)) r Hr0 E H1) as H2; cbn [env requests] in H2.
  all: destruct (transport s r) as [s1 [raw|e]]; cbn [fst] in H2; try exact H2.
  cbn [status rs_headers rs_body]. destruct (negb _); [exact H2|].
  pose proof (Hc _ H2) as H3. cbn [env requests] in H3. destruct (Date_now s1) as [s2 now1]. cbn [fst] in H3.
  destruct (retry_at _ _ _) as [at_|]; [|exact H3].
  pose proof (Hc _ H3) as H4. cbn [env requests] in H4. destruct (Date_now s2) as [s3 now2]. cbn [fst] in H4.
  pose proof (Hc _ H4) as H5. cbn [env requests] in H5. destruct (Date_now s3) as [s4 now3]. cbn [fst] in H5.
  destruct (deadline b <? _); [exact H5|]. apply IH, (Hs (mkMeter s4 (requests m + 1)) _ H5).
Qed.

Lemma fetch_page_inv b sent Inv w st m :
  MeterInvariant b sent Inv -> (forall u, page_url api w st = Ok u -> sent (page_request w st u)) ->
  Inv m -> Inv (fetch_page b w st m).1.
Proof.
  intros HI Hsent Hm. unfold Pages.fetch_page. destruct (page_url api w st) as [u|e]; [|exact Hm].
  case_bool_decide; [exact Hm|].
  pose proof (send_loop_inv b sent Inv (Z.to_nat (maxRetries (limits b))) _ m HI (Hsent _ eq_refl) Hm) as H1.
  unfold Pages.send. destruct (send_loop _ _ _ _) as [m1 [response|e]]; exact H1.
Qed.

(** A property [at_] of the places a walk passes goes with it. *)
Lemma walk_loop_inv b sent Inv (at_ : WalkState (U := U) -> Prop) w fuel st m a m' a' r :
  MeterInvariant b sent Inv ->
  (forall st u, at_ st -> page_url api w st = Ok u -> sent (page_request w st u)) ->
  (forall st request response body items st', at_ st ->
     next_state w st request response body items = Ok (Some st') -> at_ st') ->
  at_ st -> Inv m -> walk_loop fuel b w st m a = Some (m', a', r) -> Inv m'.
Proof.
  intros HI Hsent Hnext. revert st m a. induction fuel as [|fuel IH]; intros st m a Hst Hm; [done|].
  cbn [Pages.walk_loop]. pose proof (fetch_page_inv b sent Inv w st m HI (fun u => Hsent st u Hst) Hm) as H1.
  destruct (fetch_page b w st m) as [m1 [[[[request response] body] items]|e]]; cbn [fst] in H1; [|by intros [= <- <- <-]].
  destruct (consume a _) as [a1 [e|]]; [by intros [= <- <- <-]|].
  destruct (next_state w st request response body items) as [[st'|]|e] eqn:E; [|by intros [= <- <- <-]..].
  apply IH; [by eapply Hnext|done].
Qed.

(** What the consumer of the pages keeps, the walk keeps. *)
Lemma walk_loop_consumes (P : A -> Prop) b w fuel st m a m' a' r :
  (forall a p, P a -> P (consume a p).1) -> P a -> walk_loop fuel b w st m a = Some (m', a', r) -> P a'.
Proof.
  intros Hc. revert st m a. induction fuel as [|fuel IH]; intros st m a Ha; [done|]. cbn [Pages.walk_loop].
  destruct (fetch_page b w st m) as [m1 [[[[request response] body] items]|e]]; [|by intros [= <- <- <-]].
  pose proof (Hc a (mkPage (rq_url request) items) Ha) as H1.
  destruct (consume a _) as [a1 [e|]]; cbn [fst] in H1; [by intros [= <- <- <-]|].
  destruct (next_state w st request response body items) as [[st'|]|e]; [by apply IH|by intros [= <- <- <-]..].
Qed.

(** A request that is answered has been counted, within the limit. *)
Lemma send_counts b r m m' response :
  send b r m = (m', Ok response) -> requests m < requests m' <= maxRequests (limits b).
Proof.
  unfold Pages.send. generalize (Z.to_nat (maxRetries (limits b))) as retries. intros retries. revert m.
  induction retries as [|retries IH]; intros m; cbn [Pages.send_loop].
  all: destruct (Date_now (env m)) as [s now]; destruct (deadline b <? now); [done|].
  all: destruct (maxRequests (limits b) <? requests m + 1) eqn:E; breflect; [done|].
  all: destruct (transport s r) as [s1 [raw|e]]; [|done].
  - intros [= <- _]. cbn. lia.
  - cbn [status rs_headers rs_body]. destruct (negb _); [intros [= <- _]; cbn; lia|].
    destruct (Date_now s1) as [s2 now1]. destruct (retry_at _ _ _) as [at_|]; [|intros [= <- _]; cbn; lia].
    destruct (Date_now s2) as [s3 now2], (Date_now s3) as [s4 now3].
    destruct (deadline b <? _); [done|]. intros [H1 H2]%IH. cbn [requests] in H1. lia.
Qed.

Lemma fetch_page_counts b w st m m' x :
  fetch_page b w st m = (m', Ok x) -> requests m < requests m' <= maxRequests (limits b).
Proof.
  unfold Pages.fetch_page. destruct (page_url api w st) as [u|e]; [|done]. case_bool_decide; [done|].
  destruct (send b _ m) as [m1 [response|e]] eqn:E; [|done]. intros [= <- _]. by apply send_counts in E.
Qed.

Lemma walk_loop_ends b w fuel st m a :
  (Z.to_nat (maxRequests (limits b) - requests m) < fuel)%nat -> is_Some (walk_loop fuel b w st m a).
Proof.
  revert st m a. induction fuel as [|fuel IH]; intros st m a Hfuel; [lia|]. cbn [Pages.walk_loop].
  destruct (fetch_page b w st m) as [m1 [[[[request response] body] items]|e]] eqn:E; [|eauto].
  apply fetch_page_counts in E. destruct (consume a _) as [a1 [e|]]; [eauto|].
  destruct (next_state _ _ _ _ _ _) as [[st'|]|e]; [|eauto..]. apply IH. lia.
Qed.

(** A walk of pages always ends, with every page consumed or
    an error, whatever the server answers: enough fuel is the number of
    requests the budget still allows. *)
Theorem walk_terminates b w m a :
  is_Some (walk_loop (walk_fuel b m) b w walk_start m a).
Proof. apply walk_loop_ends. unfold walk_fuel. lia. Qed.

(** C14 (bounds). However many pages a server offers and however often it asks
    to retry, a walk makes no more requests than the budget has left: whatever
    counter the world keeps of the requests it received, and the clock and the
    timer leave alone, grows by no more. *)
Theorem walk_within_budget (count : S -> Z) b w m a m' a' r
  (Hclock : forall s, count (Date_now s).1 = count s) (Hsleep : forall s d, count (sleep s d) = count s)
  (Hsent : forall s q, count (transport s q).1 <= count s + 1) :
  walk_loop (walk_fuel b m) b w walk_start m a = Some (m', a', r) ->
  count (env m') <= count (env m) + Z.max 0 (maxRequests (limits b) - requests m).
Proof.
  intros Hw.
  cut (count (env m') - Z.min (requests m') (maxRequests (limits b))
       <= count (env m) - Z.min (requests m) (maxRequests (limits b))); [lia|].
  revert Hw. apply (walk_loop_inv b (fun _ => True)
    (fun m1 => count (env m1) - Z.min (requests m1) (maxRequests (limits b))
               <= count (env m) - Z.min (requests m) (maxRequests (limits b))) (fun _ => True)); try done; try lia.
  split; cbn [env requests].
  - intros m1. rewrite Hclock. lia.
  - intros m1 d. rewrite Hsleep. lia.
  - intros m1 H1 H2. lia.
  - intros m1 q _ H1 H2. pose proof (Hsent (env m1) q). lia.
Qed.

(** ** Where requests go *)

Lemma set_params_origin {HU : Urls api} query u :
  origin api (fold_left (fun u p => set_param api u p.1 p.2) query u) = origin api u.
Proof.
  revert u. induction query as [|p query IH]; intros u; [done|]. cbn [fold_left]. by rewrite IH, url_param.
Qed.

(** A walk follows next links only on the upstream's origin. *)
Definition on_origin (w : PageWalk (U := U)) (st : WalkState (U := U)) : Prop :=
  match ws_next st with Some u => origin api u = origin api (wk_upstream w) | None => True end.

Lemma page_url_origin {HU : Urls api} w st u :
  on_origin w st -> page_url api w st = Ok u -> origin api u = origin api (wk_upstream w).
Proof.
  unfold on_origin, page_url. destruct (ws_next st) as [v|]; [by intros Hv [= <-]|]. intros _.
  rewrite url_copy. intros [= <-]. by rewrite set_params_origin, url_pathname.
Qed.

Lemma next_state_origin w st request response body items st' :
  next_state w st request response body items = Ok (Some st') -> on_origin w st'.
Proof.
  unfold Pages.next_state. destruct (scheme_of w) as [s|]; [|done]. cbv zeta. destruct (negb _); [done|].
  destruct (_ || _).
  - destruct (nextLink _) as [l|]; [|done]. destruct (resolve _ _ _) as [u|]; [|done].
    destruct (jeqb (origin api u) (origin api (wk_upstream w))) eqn:E; [|done]. cbn [negb orb].
    destruct (_ || _); [done|]. intros [= <-]. by apply bool_decide_eq_true in E.
  - destruct (_ && _); [done|]. destruct (nextCursor _ _ _ _); [|done]. by intros [= <-].
Qed.

Lemma page_request_url (w : PageWalk (U := U)) st u : rq_url (page_request w st u) = u.
Proof. unfold page_request. by destruct (wk_method w). Qed.

(** C13 (safety). No page of a provider can send a read elsewhere: whatever holds
    of the world and is kept by the clock, the timer and every request to the
    upstream's own origin still holds when the walk ends, so no request went to
    another origin. *)
Theorem walk_keeps_origin {HU : Urls api} (Good : S -> Prop) b w m a m' a' r
  (Hclock : forall s, Good s -> Good (Date_now s).1) (Hsleep : forall s d, Good s -> Good (sleep s d))
  (Hsent : forall s q, origin api (rq_url q) = origin api (wk_upstream w) -> Good s -> Good (transport s q).1) :
  Good (env m) -> walk_loop (walk_fuel b m) b w walk_start m a = Some (m', a', r) -> Good (env m').
Proof.
  intros Hm. apply (walk_loop_inv b (fun q => origin api (rq_url q) = origin api (wk_upstream w))
    (fun m => Good (env m)) (on_origin w)); [split; cbn [env]; auto|..|done|done].
  - intros st u Hst Hu. rewrite page_request_url. by apply (page_url_origin w st).
  - intros st request response body items st' _. apply next_state_origin.
Qed.
End Facts.

(** ** A list read by offsets *)

Section Offsets.
Context {U S : Type} (api : UrlApi U).
Context (transport : S -> TransportRequest U -> S * res jstr TransportResponse).
Context (Date_now : S -> S * Z) (sleep : S -> Z -> S).
Context (other_dates : jstr -> option Z) (other_number : jstr -> option Z).
Context (w : PageWalk (U := U)) (s : Json) (p t : jstr) (f g : Json).

(** The operation's scheme: an offset in the query, and the total in the body. *)
Record offset_scheme : Prop := {
  os_scheme : scheme_of w = Some s;
  os_type : type_of s = js "pageNumber";
  os_offset : fields_at "request" "queryParameters" s = [(p, f)];
  os_offset_role : role_of f = js "offset";
  os_body : fields_at "request" "bodyFields" s = [];
  os_total : fields_at "response" "bodyFields" s = [(t, g)];
  os_total_role : role_of g = js "totalCount";
  os_headers : fields_at "response" "headers" s = [];
  os_method : wk_method w = GET;
  os_query : p ∉ jkeys (wk_query w);
}.

(** The list's URL, and that of the page at an offset. *)
Definition list_url : U :=
  fold_left (fun u q => set_param api u q.1 q.2) (wk_query w)
    (set_pathname api (wk_upstream w) (without_slash (pathname api (wk_upstream w)) ++ wk_path w)).
Definition offset_url (o : Z) : U := set_param api list_url p (dec_signed o).
Definition offset_request (o : Z) : TransportRequest U :=
  mkRequest (offset_url o) GET [(js "accept", js "application/json")] None.

(** A server that holds [records]: asked for an offset it answers with some of
    those that follow, at least one while there are any, and with their number. *)
Record offset_server (records : list Json) (answer : Z -> Json) (count : Z -> nat) : Prop := {
  sv_answers : forall world o, 0 <= o <= Z.of_nat (length records) -> exists world',
    transport world (offset_request o) = (world', Ok (mkResponse 200 [] (Some (answer o))));
  sv_record : forall o, 0 <= o <= Z.of_nat (length records) -> isRecord (Some (answer o)) = true;
  sv_items : forall o, 0 <= o <= Z.of_nat (length records) ->
    pageItems (answer o) (response_schema w) (Some s) = Ok (take (count o) (drop (Z.to_nat o) records));
  sv_total : forall o, 0 <= o <= Z.of_nat (length records) ->
    readNestedField (answer o) t = Some (ONum (Z.of_nat (length records)));
  sv_count : forall o, (0 < count o)%nat;
}.

(** The places of the walk. *)
Definition at_offset (o : Z) (seen : list jstr) : WalkState (U := U) :=
  mkWalkState (mkCursor (Some o) None None) None o seen.

Lemma fields_role role : offset_scheme ->
  fieldsWithRole s role [QueryParameters] = if jeqb (js "offset") (js role) then [p] else [].
Proof.
  intros H. unfold fieldsWithRole. cbn [flat_map location_name]. rewrite (os_offset H). cbn [List.filter snd].
  rewrite (os_offset_role H). by destruct (jeqb _ _).
Qed.

Lemma offset_page_url {HU : Urls api} (st : WalkState (U := U)) : offset_scheme ->
  ws_next st = None -> page (ws_cursor st) = None -> pageToken (ws_cursor st) = None ->
  page_url api w st = Ok (offset_url (default 0 (offset (ws_cursor st)))).
Proof.
  intros H H1 H2 H3. unfold page_url. rewrite H1, url_copy, (os_scheme H). f_equal.
  assert (buildQuery s (ws_cursor st) (wk_pageSize w) = [(p, dec_signed (default 0 (offset (ws_cursor st))))]) as ->.
  { unfold buildQuery, cursorValues. rewrite H3, !fields_role by done. by destruct (wk_pageSize w). }
  cbn [fold_left fst snd]. rewrite jset_fresh by apply (os_query H). by rewrite fold_left_app.
Qed.

Lemma offset_page_request (st : WalkState (U := U)) o : offset_scheme -> page_request w st (offset_url o) = offset_request o.
Proof. intros H. unfold page_request. by rewrite (os_method H). Qed.

Lemma offset_state headers records answer count o n : offset_scheme -> offset_server records answer count ->
  0 <= o <= Z.of_nat (length records) ->
  parsePaginationState other_number s (answer o) headers (Some n)
  = mkState None None None (Some (Z.of_nat (length records))) None None (n <? Z.of_nat (length records)).
Proof.
  intros H Hs Hr. unfold parsePaginationState, extractByRole.
  rewrite (os_headers H), (os_total H). cbn [fold_left].
  assert (body_role (answer o) [] (t, g) = [(js "totalCount", ONum (Z.of_nat (length records)))]) as ->.
  { unfold body_role. cbn [fst snd]. rewrite (os_total_role H). cbn [js]. by rewrite (sv_total _ _ _ Hs o Hr). }
  reflexivity.
Qed.
Lemma offset_next {HU : Urls api} records answer count (st : WalkState (U := U)) o response :
  offset_scheme -> offset_server records answer count ->
  ws_items st = o -> default 0 (offset (ws_cursor st)) = o -> 0 <= o <= Z.of_nat (length records) ->
  let items := take (count o) (drop (Z.to_nat o) records) in
  let o' := o + Z.of_nat (length items) in
  next_state api other_number w st (offset_request o) response (answer o) items =
    Ok (if o' <? Z.of_nat (length records)
        then Some (at_offset o' (request_key api (offset_request o) :: ws_seen st)) else None).
Proof.
  intros H Hs Hi Ho Hr items o'. unfold next_state. rewrite (os_scheme H), (sv_record _ _ _ Hs o Hr). cbv zeta.
  rewrite (offset_state _ _ _ _ _ _ H Hs Hr), Hi. fold items o'. cbn [hasNextPage nextLink nextPageToken].
  destruct (o' <? Z.of_nat (length records)) eqn:E; [|done]. breflect. cbn [negb]. rewrite (os_type H).
  change (jeqb (js "pageNumber") (js "nextLink")) with false.
  change (jeqb (js "pageNumber") (js "pageNumber")) with true.
  rewrite (bool_decide_false (is_Some (@None jstr))) by apply is_Some_None. cbn [negb andb orb].
  rewrite bool_decide_false; [|].
  2: { intros Hnil. apply (f_equal length) in Hnil. unfold items in Hnil.
       rewrite length_take, length_drop in Hnil. cbn in Hnil. pose proof (sv_count _ _ _ Hs o).
       unfold o', items in E. rewrite length_take, length_drop in E. lia. }
  unfold nextCursor. cbn [hasNextPage negb]. rewrite (os_type H).
  change (jeqb (js "pageNumber") (js "pageToken")) with false.
  change (jeqb (js "pageNumber") (js "pageNumber")) with true.
  unfold fieldsWithRole at 1. cbn [flat_map location_name]. rewrite (os_offset H), (os_body H).
  cbn [List.filter snd]. rewrite (os_offset_role H). change (jeqb (js "offset") (js "offset")) with true.
  cbn [map fst List.filter app]. by rewrite Ho.
Qed.

(** Offsets are told apart by their URLs. *)
Lemma dec_signed_inj n m : dec_signed n = dec_signed m -> n = m.
Proof.
  intros H. apply (dec_signed_prefix n m [] []); [done..|]. by rewrite !app_nil_r.
Qed.

Lemma send_answers b r m response world now world' :
  Date_now (env m) = (world, now) -> now <= deadline b -> requests m + 1 <= maxRequests (limits b) ->
  transport world r = (world', Ok response) -> status response <> 429 ->
  send transport Date_now sleep other_dates other_number b r m
  = (mkMeter world' (requests m + 1), Ok (mkResponse (status response) (lowerCaseHeaders (rs_headers response)) (rs_body response))).
Proof.
  intros H1 H2 H3 H4 H5. unfold send. destruct (Z.to_nat (maxRetries (limits b))); cbn [send_loop]; rewrite H1.
  all: rewrite (proj2 (Z.ltb_ge (deadline b) now) H2), (proj2 (Z.ltb_ge _ _) H3), H4. 1: done.
  cbn [status]. by rewrite (proj2 (Z.eqb_neq (status response) 429) H5).
Qed.

Lemma offset_fetch {HU : Urls api} records answer count b (st : WalkState (U := U)) o m world now :
  offset_scheme -> offset_server records answer count ->
  ws_next st = None -> page (ws_cursor st) = None -> pageToken (ws_cursor st) = None ->
  default 0 (offset (ws_cursor st)) = o -> request_key api (offset_request o) ∉ ws_seen st ->
  Date_now (env m) = (world, now) -> now <= deadline b -> requests m + 1 <= maxRequests (limits b) ->
  0 <= o <= Z.of_nat (length records) ->
  exists world' response, fetch_page api transport Date_now sleep other_dates other_number b w st m =
    (mkMeter world' (requests m + 1), Ok (offset_request o, response, answer o, take (count o) (drop (Z.to_nat o) records))).
Proof.
  intros H Hs H1 H2 H3 Ho Hseen Hclock Hnow Hreq Hr. unfold fetch_page.
  rewrite (offset_page_url _ H H1 H2 H3), Ho, (offset_page_request _ _ H).
  rewrite bool_decide_false by done. destruct (sv_answers _ _ _ Hs world o Hr) as [world' Hans].
  rewrite (send_answers _ _ _ _ _ _ _ Hclock Hnow Hreq Hans) by done. cbn [status rs_body Z.ltb orb].
  rewrite (os_scheme H), (sv_items _ _ _ Hs o Hr). by eexists _, _.
Qed.

(** The rest of a walk that has come to an offset. *)
Lemma offset_walk_rest {HU : Urls api} records answer count b fuel :
  offset_scheme -> offset_server records answer count ->
  (forall o o', offset_url o = offset_url o' -> o = o') ->
  (forall world, (Date_now world).2 <= deadline b) -> Z.of_nat (length records) <= maxRecords (limits b) ->
  forall (st : WalkState (U := U)) o m acc,
  ws_next st = None -> page (ws_cursor st) = None -> pageToken (ws_cursor st) = None ->
  default 0 (offset (ws_cursor st)) = o -> ws_items st = o -> 0 <= o <= Z.of_nat (length records) ->
  (forall k, k ∈ ws_seen st -> exists o', o' < o /\ k = request_key api (offset_request o')) ->
  requests m + (Z.of_nat (length records) - o) < maxRequests (limits b) ->
  (length records - Z.to_nat o < fuel)%nat -> acc = take (Z.to_nat o) records ->
  exists m', walk_loop api transport Date_now sleep other_dates other_number (push_page b) fuel b w st m acc
    = Some (m', records, Ok tt).
Proof.
  intros H Hs Hinj Hclock Hmax. induction fuel as [|fuel IH]; intros st o m acc H1 H2 H3 Ho Hi Hr Hseen Hreq Hfuel ->; [lia|].
  cbn [walk_loop]. pose proof (Hclock (env m)) as Hnow. destruct (Date_now (env m)) as [world now] eqn:Hd.
  assert (request_key api (offset_request o) ∉ ws_seen st) as Hfresh.
  { intros (o' & Hlt & Hk)%Hseen. unfold request_key, offset_request in Hk. cbn [rq_method rq_url rq_body] in Hk.
    apply app_inv_head in Hk. apply app_inv_head in Hk. apply app_inv_tail in Hk. apply (f_equal (parse_url api)) in Hk. rewrite !url_copy in Hk.
    injection Hk as Hk%Hinj. lia. }
  destruct (offset_fetch records answer count b st o m world now H Hs H1 H2 H3 Ho Hfresh Hd Hnow) as (world' & response & ->); [lia|done|].
  set (items := take (count o) (drop (Z.to_nat o) records)).
  assert (take (Z.to_nat o) records ++ items = take (Z.to_nat o + length items) records) as Happ.
  { unfold items. rewrite take_take_drop, length_take, length_drop.
    destruct (decide (count o <= length records - Z.to_nat o)%nat); [f_equal; lia|].
    by rewrite !take_ge by lia. }
  unfold push_page at 1. cbn [pg_items]. rewrite Happ.
  rewrite (proj2 (Z.ltb_ge _ _)) by (rewrite length_take; lia).
  pose proof (offset_next records answer count st o response H Hs Hi Ho Hr) as Hnext.
  cbv zeta in Hnext. fold items in Hnext. rewrite Hnext. clear Hnext. set (o' := o + Z.of_nat (length items)).
  assert (Hcount := sv_count _ _ _ Hs o).
  assert (length items = Nat.min (count o) (length records - Z.to_nat o)) as Hlen by (unfold items; by rewrite length_take, length_drop).
  destruct (o' <? Z.of_nat (length records)) eqn:E; breflect; unfold o' in *.
  - apply (IH _ (o + Z.of_nat (length items))); try done; cbn [requests]; try lia.
    + intros k [->|Hk]%elem_of_cons; [exists o; split; [lia|done]|].
      destruct (Hseen k Hk) as (o1 & Hlt & ->). exists o1. split; [lia|done].
    + f_equal. lia.
  - eexists. do 3 f_equal. apply take_ge. lia.
Qed.

(** C12 (liveness). A list that a server hands out by offsets is read whole and
    in order.  The operation is a GET whose scheme ([offset_scheme]) is of type
    pageNumber and declares one request field, the offset, in the query, and
    one response field, the totalCount, in the body; the server
    ([offset_server]) answers an offset with 200, the number of its records,
    which stay as they are, and some of those that follow, at least one while
    any is left.  Whatever the sizes of these pages, the walk that [paginate]
    makes ends with exactly the server's records, provided that there are no
    more than maxRecords, that the budget allows a request for each and one
    more, that the deadline does not pass, and that different offsets make
    different URLs.  The total matters: a scheme of this kind without it stops
    after its first page ([no_total_stops]). *)
Theorem offsets_read_all {HU : Urls api} records answer count b m
  (H : offset_scheme) (Hs : offset_server records answer count)
  (Hinj : forall o o', offset_url o = offset_url o' -> o = o')
  (Hclock : forall world, (Date_now world).2 <= deadline b)
  (Hmax : Z.of_nat (length records) <= maxRecords (limits b))
  (Hreq : requests m + Z.of_nat (length records) < maxRequests (limits b)) :
  exists m', walk_loop api transport Date_now sleep other_dates other_number (push_page b)
    (walk_fuel b m) b w walk_start m [] = Some (m', records, Ok tt).
Proof.
  apply (offset_walk_rest records answer count b _ H Hs Hinj Hclock Hmax walk_start 0); try done; try lia.
  - cbn. intros k Hk. by apply elem_of_nil in Hk.
  - unfold walk_fuel. lia.
Qed.
End Offsets.

(** ** A provider of three records *)

Module Demo.
(** URLs as text without their scheme: the origin is what precedes the first slash. *)
Definition text_origin (u : jstr) : jstr := (span (fun c => negb (c =? 47)) u).1.
Definition text_rest (u : jstr) : jstr := tail (span (fun c => negb (c =? 47)) u).2.

Definition text_urls : UrlApi jstr := {|
  parse_url u := Some u;
  resolve l base := Some (text_origin base ++ l);
  set_pathname u p := text_origin u ++ 47 :: match p with 47 :: r => r | _ => p end;
  set_param u k v := text_origin u ++ 47 :: text_rest u ++ js "?" ++ k ++ js "=" ++ v;
  href u := u;
  origin := text_origin;
  protocol _ := js "https:";
  pathname u := 47 :: text_rest u;
  username _ := [];
  password _ := [];
  hash_ _ := [];
|}.

Lemma text_origin_app u r : text_origin (text_origin u ++ 47 :: r) = text_origin u.
Proof.
  unfold text_origin. induction u as [|c u IH]; [done|]. cbn [span]. destruct (negb (c =? 47)) eqn:E; [|done].
  destruct (span _ u) as [a z] eqn:Hu. cbn [fst app] in *. cbn [span]. rewrite E.
  destruct (span _ (a ++ 47 :: r)) as [a1 z1]. cbn [fst] in *. by subst.
Qed.

#[export] Instance text_urls_ok : Urls text_urls.
Proof. split; [done|intros; apply text_origin_app..]. Qed.

Definition obj (l : list (string * Json)) : Json := OObj (map (fun p => (js p.1, p.2)) l).
Definition role (name : string) : Json := obj [("role"%string, OStr (js name))].

Definition scheme_by_offset : Json :=
  obj [("type"%string, OStr (js "pageNumber"));
       ("request"%string, obj [("queryParameters"%string, obj [("offset"%string, role "offset")])]);
       ("response"%string, obj [("bodyFields"%string, obj [("total"%string, role "totalCount")])])].

Definition operation : Json :=
  obj [("x-pagination"%string, OArr [obj [("scheme"%string, OStr (js "offsets"))]])].

Definition document : Json :=
  obj [("components"%string, obj [("paginationSchemes"%string, obj [("offsets"%string, scheme_by_offset)])])].

Definition the_walk : PageWalk (U := jstr) :=
  mkWalk document operation (js "api.example/") (js "/tasks") GET [(js "state", js "open")] (OObj []) None.

Definition tasks : list Json := map (fun t => obj [("id"%string, OStr (js t))]) ["a"; "b"; "c"]%string.

Definition answer (o : Z) : Json :=
  obj [("items"%string, OArr (take 2 (drop (Z.to_nat o) tasks))); ("total"%string, ONum 3)].

(** The server reads the offset at the end of the URL; the world is the log of requests. *)
Definition transport (log : list jstr) (q : TransportRequest jstr) : list jstr * res jstr TransportResponse :=
  (rq_url q :: log, Ok (mkResponse 200 [] (Some (answer (parse_dec (list.drop 36 (rq_url q))))))).
Definition clock (log : list jstr) : list jstr * Z := (log, 0).
Definition sleep (log : list jstr) (ms : Z) : list jstr := log.
Definition budget : Budget := mkBudget DEFAULT_READ_LIMITS 1000.

Definition no_requests : Meter (S := list jstr) := mkMeter [] 0.

Definition run := walk_loop text_urls transport clock sleep (fun _ => None) (fun _ => None) (push_page budget)
  (walk_fuel budget no_requests) budget the_walk walk_start no_requests [].

Example run_logs : run = Some (mkMeter (map js ["api.example/tasks?state=open?offset=2"; "api.example/tasks?state=open?offset=0"]%string) 2, tasks, Ok tt).
Proof. vm_compute. reflexivity. Qed.

(** The same list by a scheme that does not name the total. *)
Definition without_total : Json :=
  obj [("type"%string, OStr (js "pageNumber"));
       ("request"%string, obj [("queryParameters"%string, obj [("offset"%string, role "offset")])])].

Example no_total_stops :
  let document := obj [("components"%string, obj [("paginationSchemes"%string, obj [("offsets"%string, without_total)])])] in
  let w := mkWalk document operation (js "api.example/") (js "/tasks") GET [(js "state", js "open")] (OObj []) None in
  walk_loop text_urls transport clock sleep (fun _ => None) (fun _ => None) (push_page budget)
    (walk_fuel budget no_requests) budget w walk_start no_requests []
  = Some (mkMeter [js "api.example/tasks?state=open?offset=0"] 1, take 2 tasks, Ok tt).
Proof. vm_compute. reflexivity. Qed.

Lemma origin_kept u v r : text_origin u = text_origin v -> text_origin (text_origin u ++ 47 :: r) = text_origin v.
Proof. intros <-. apply text_origin_app. Qed.

Lemma scheme_ok : offset_scheme the_walk scheme_by_offset (js "offset") (js "total") (role "offset") (role "totalCount").
Proof. split; try (vm_compute; reflexivity). cbn. intros [Hk|Hk]%elem_of_cons; [done|by apply elem_of_nil in Hk]. Qed.

Lemma three o : 0 <= o <= Z.of_nat (length tasks) -> o = 0 \/ o = 1 \/ o = 2 \/ o = 3.
Proof. cbn. lia. Qed.

Lemma server_ok : offset_server text_urls transport the_walk scheme_by_offset (js "offset") (js "total") tasks answer (fun _ => 2%nat).
Proof.
  split; [|intros o [->|[->|[->| ->]]]%three; vm_compute; reflexivity..|lia].
  intros log o [->|[->|[->| ->]]]%three; eexists; vm_compute; reflexivity.
Qed.

Lemma offset_url_inj o o' : offset_url text_urls the_walk (js "offset") o = offset_url text_urls the_walk (js "offset") o' -> o = o'.
Proof.
  unfold offset_url. cbn [text_urls set_param]. intros Ho. apply app_inv_head in Ho. injection Ho as Ho.
  by apply dec_signed_inj.
Qed.

Lemma offsets_read_all_witness : exists m',
  walk_loop text_urls transport clock sleep (fun _ => None) (fun _ => None) (push_page budget)
    (walk_fuel budget no_requests) budget the_walk walk_start no_requests [] = Some (m', tasks, Ok tt).
Proof.
  apply (offsets_read_all text_urls transport clock sleep (fun _ => None) (fun _ => None) the_walk scheme_by_offset
           (js "offset") (js "total") (role "offset") (role "totalCount") tasks answer (fun _ => 2%nat) budget no_requests).
  - exact scheme_ok.
  - exact server_ok.
  - exact offset_url_inj.
  - intros log. vm_compute. discriminate.
  - vm_compute. discriminate.
  - vm_compute. reflexivity.
Defined.

Lemma walk_within_budget_witness :
  Z.of_nat (length (map js ["api.example/tasks?state=open?offset=2"; "api.example/tasks?state=open?offset=0"]%string)) <= 10000.
Proof.
  apply (walk_within_budget text_urls transport clock sleep (fun _ => None) (fun _ => None) (push_page budget)
           (fun log => Z.of_nat (length log)) budget the_walk no_requests [] _ _ _ (fun _ => eq_refl) (fun _ _ => eq_refl)
           (fun log q => ltac:(cbn [transport fst length]; lia)) run_logs).
Defined.

(** Every logged request went to the API. *)
Definition logged (log : list jstr) : Prop := Forall (fun u => text_origin u = js "api.example") log.

Lemma walk_keeps_origin_witness :
  logged (map js ["api.example/tasks?state=open?offset=2"; "api.example/tasks?state=open?offset=0"]%string).
Proof.
  apply (walk_keeps_origin text_urls transport clock sleep (fun _ => None) (fun _ => None) (push_page budget)
           logged budget the_walk no_requests [] _ _ _ (fun log H => H) (fun log ms H => H)
           (fun log q Hq Hlog => Forall_cons_2 _ _ _ Hq Hlog) (Forall_nil_2 _) run_logs).
Defined.
End Demo.
