(* ===== verification/Resources.v ===== *)
(** * Resources, routes and local storage

    Models [src/syncables/src/resources/discover.ts], [routing/router.ts],
    [client/storage.ts] and [mock-server/store.ts].

    Paths are text; [decodeURIComponent] of [Uri] throws where it is [None].  A
    stored value is a JSON value or [undefined]. *)
From S2P Require Import Prelude Text Collections Uri Json.
Local Open Scope Z_scope.

(** ** discover.ts *)

Inductive UpdateMethod := PUT | PATCH.

(* src: syncables/src/resources/discover.ts 1-12 ResourceRoute *)
Record ResourceRoute := mkRoute {
  collectionPath : jstr;
  itemPath : jstr;
  itemParam : jstr;
  updateMethod : UpdateMethod;
}.

(** [path.split('/').filter(Boolean)]. *)
Definition segments (path : jstr) : list jstr :=
  List.filter (fun s => negb (bool_decide (s = []))) (split_str (js "/") path).

Definition is_variable (segment : jstr) : bool := starts_with (js "{") segment && ends_with (js "}") segment.

(** [s.slice(1, -1)]. *)
Definition inner (s : jstr) : jstr := take (length s - 2) (tail s).

(* src: syncables/src/resources/discover.ts 18-33 updateMethodFor *)
Definition updateMethodFor (paths : fields_map) (itemPath : jstr) : UpdateMethod :=
  match jget itemPath paths with
  | Some (OObj item) => if negb (has_key (js "put") item) && has_key (js "patch") item then PATCH else PUT
  | _ => PUT
  end.

(* src: syncables/src/resources/discover.ts 64-68 isItemPath *)
Definition isItemPath (path : jstr) : bool :=
  match last (segments path) with Some s => is_variable s | None => false end.

(* src: syncables/src/resources/discover.ts 70-74 extractParamName *)
Definition extractParamName (itemPath : jstr) : jstr := inner (default [] (last (segments itemPath))).

(* src: syncables/src/resources/discover.ts 76-85 isDirectChild *)
Definition isDirectChild (collectionPath candidate : jstr) : bool :=
  let c := segments collectionPath in
  let d := segments candidate in
  (length d =? S (length c))%nat && bool_decide (c = take (length c) d).

(* src: syncables/src/resources/discover.ts 35-62 discoverResources *)
Definition discoverResources (paths : fields_map) : list ResourceRoute :=
  let allPaths := jkeys paths in
  omap (fun collectionPath =>
      itemPath ← List.find (fun path => isItemPath path && isDirectChild collectionPath path) allPaths;
      match itemPath with
      | [] => None
      | _ => Some (mkRoute collectionPath itemPath (extractParamName itemPath) (updateMethodFor paths itemPath))
      end)
    (List.filter (fun path => negb (isItemPath path)) allPaths).

(** ** router.ts *)

(* src: syncables/src/routing/router.ts 1-4 RouteMatch *)
Record RouteMatch := mkMatch { template : jstr; params : list (jstr * jstr) }.

(** The segments against those of a template. *)
Fixpoint match_segments (templates actual : list jstr) (params : list (jstr * jstr)) : res jstr (option (list (jstr * jstr))) :=
  match templates, actual with
  | t :: templates, a :: actual =>
      if is_variable t then
        match decodeURIComponent a with
        | None => Err (js "URI malformed")
        | Some v => match_segments templates actual (jset (inner t) v params)
        end
      else if jeqb t a then match_segments templates actual params
      else Ok None
  | _, _ => Ok (Some params)
  end.

(* src: syncables/src/routing/router.ts 6-26 matchTemplate *)
Definition matchTemplate (template actual : jstr) : res jstr (option (list (jstr * jstr))) :=
  if (length (segments template) =? length (segments actual))%nat
  then match_segments (segments template) (segments actual) []
  else Ok None.

(* src: syncables/src/routing/router.ts 28-39 findRoute *)
Fixpoint findRoute (templates : list jstr) (actual : jstr) : res jstr (option RouteMatch) :=
  match templates with
  | [] => Ok None
  | template :: templates =>
      params ← matchTemplate template actual;
      match params with
      | Some params => Ok (Some (mkMatch template params))
      | None => findRoute templates actual
      end
  end.

(** ** client/storage.ts *)

Abbreviation Storage := (list (jstr * list (jstr * option Json))).

(* src: syncables/src/client/storage.ts 44-51 collection ! *)
Definition stored (s : Storage) (resource : jstr) : list (jstr * option Json) := default [] (jget resource s).

(* src: syncables/src/client/storage.ts 21-23 list *)
Definition storage_list (s : Storage) (resource : jstr) : list (option Json) := jvalues (stored s resource).

(* src: syncables/src/client/storage.ts 25-30 get ! *)
Definition storage_get (s : Storage) (resource id : jstr) : option Json := v ← jget id (stored s resource); v.

(* src: syncables/src/client/storage.ts 32-38 put ! *)
Definition storage_put (s : Storage) (resource id : jstr) (value : option Json) : Storage :=
  jset resource (jset id value (stored s resource)) s.

(* src: syncables/src/client/storage.ts 40-42 delete *)
Definition storage_delete (s : Storage) (resource id : jstr) : Storage :=
  jset resource (jdelete id (stored s resource)) s.

(** ** mock-server/store.ts *)

(* src: syncables/src/mock-server/store.ts 1-4 CollectionMeta *)
Record CollectionMeta := mkMeta { version : Z; lastModified : jstr }.

(* src: syncables/src/mock-server/store.ts 6-11 ResourceStore ! *)
Record ResourceStore := mkStore { collections : list (jstr * fields_map); meta : list (jstr * CollectionMeta) }.

(* src: syncables/src/mock-server/store.ts 13-15 has *)
Definition store_has (s : ResourceStore) (resource : jstr) : bool := has_key resource (collections s).

(* src: syncables/src/mock-server/store.ts 57-64 collection ! *)
Definition store_collection (s : ResourceStore) (resource : jstr) : ResourceStore * fields_map :=
  match jget resource (collections s) with
  | Some c => (s, c)
  | None => (mkStore (jset resource [] (collections s)) (meta s), [])
  end.

(* src: syncables/src/mock-server/store.ts 17-19 list *)
Definition store_list (s : ResourceStore) (resource : jstr) : ResourceStore * list Json :=
  let '(s, c) := store_collection s resource in (s, jvalues c).

(* src: syncables/src/mock-server/store.ts 21-23 get *)
Definition store_get (s : ResourceStore) (resource id : jstr) : ResourceStore * option Json :=
  let '(s, c) := store_collection s resource in (s, jget id c).

(** [now]: the text of the current date. *)
(* src: syncables/src/mock-server/store.ts 49-55 touch *)
Definition touch (s : ResourceStore) (resource now : jstr) : ResourceStore :=
  mkStore (collections s)
    (jset resource (mkMeta (default 0 (version <$> jget resource (meta s)) + 1) now) (meta s)).

(* src: syncables/src/mock-server/store.ts 25-28 put *)
Definition store_put (s : ResourceStore) (resource id : jstr) (value : Json) (now : jstr) : ResourceStore :=
  let '(s, c) := store_collection s resource in
  touch (mkStore (jset resource (jset id value c) (collections s)) (meta s)) resource now.

(* src: syncables/src/mock-server/store.ts 30-36 delete *)
Definition store_delete (s : ResourceStore) (resource id now : jstr) : ResourceStore * bool :=
  let '(s, c) := store_collection s resource in
  if has_key id c
  then (touch (mkStore (jset resource (jdelete id c) (collections s)) (meta s)) resource now, true)
  else (s, false).

(* src: syncables/src/mock-server/store.ts 38-42 etag *)
Definition etag (s : ResourceStore) (resource : jstr) : option jstr :=
  m ← jget resource (meta s); Some (js "W/" ++ [34] ++ dec_signed (version m) ++ [34]).

(* src: syncables/src/mock-server/store.ts 44-47 lastModified *)
Definition store_lastModified (s : ResourceStore) (resource : jstr) : option jstr := lastModified <$> jget resource (meta s).
