(* ===== verification/Client.v ===== *)
(** * The local-first API client

    Models [src/syncables/src/client/client.ts]: writes that change the local
    copy at once and reach the server in the background, one queue per record,
    and the synchronisation of whole collections.

    The write side is a step relation over the calls in flight.  An
    asynchronous function runs until it awaits: a [Thread] is one that waits,
    and a step is a call by the application, the answer to a request, or the
    resumption of a thread that awaits storage or a timer.  The arrays of queued
    writes and the writes in them are objects, shared between [writeQueues] and
    the loops that drain them, so they live in heaps and are referred to by
    their places.  [stamp] numbers the writes in the order the application made
    them; the code has no such field, and nothing it does depends on it.

    The storage is the in-memory adapter, which never fails.  The server, and
    the URLs that are built from paths, are parameters. *)
From S2P Require Import Prelude Text Collections Uri Json Pagination Pages Resources.
Local Open Scope Z_scope.

(** ** Data *)

(* src: syncables/src/client/client.ts 70-70 PendingWriteType *)
Inductive PendingWriteType := create | update | delete_.

(* src: syncables/src/client/client.ts 217-225 QueuedWrite *)
Record QueuedWrite := mkWrite {
  w_resource : jstr;
  w_id : jstr;
  w_type : PendingWriteType;
  w_data : fields_map;
  attempts : Z;
  lastError : option jstr;
  stamp : nat;
}.

(* src: syncables/src/client/client.ts 72-87 PendingWriteInfo *)
Record PendingWriteInfo := mkInfo {
  i_resource : jstr;
  i_id : jstr;
  i_type : PendingWriteType;
  i_attempts : Z;
  i_lastError : option jstr;
}.

(** What became of an attempt: the write is done under an id, is tried again
    after a delay, or is given up. *)
(* src: syncables/src/client/client.ts 227-230 WriteOutcome *)
Inductive WriteOutcome :=
| succeeded (resolvedId : jstr)
| retry (delayMs : Z)
| gave_up.

(** Where a loop awaits: [q] is its array, [w] the write at its head. *)
Inductive Place :=
| Deleting (q w : nat)
| Sent (q w : nat)
| Attempted (q w : nat) (outcome : WriteOutcome)
| Replacing (q w : nat) (resolvedId : jstr) (created : Json)
| Storing (q w : nat) (resolvedId : jstr)
| Sleeping.

Inductive Thread :=
| Merging (resource id : jstr) (data : fields_map) (existing : option Json)
| Enqueuing (resource id : jstr) (type : PendingWriteType) (data : fields_map)
| Draining (k : jstr) (at_ : Place)
| Finished.

(* src: syncables/src/client/client.ts 268-279 createApiClient ! *)
Record State := mkState {
  storage : Storage;
  writeQueues : list (jstr * nat);
  draining : list jstr;
  gaveUpWrites : list (jstr * nat);
  arrays : list (list nat);
  writes : list QueuedWrite;
  threads : list Thread;
  issued : nat;
  settled : list nat;
}.

Definition new_client (s : Storage) : State := mkState s [] [] [] [] [] [] 0 [].

Definition set_storage (st : State) (s : Storage) : State :=
  mkState s (writeQueues st) (draining st) (gaveUpWrites st) (arrays st) (writes st) (threads st) (issued st) (settled st).
Definition set_threads (st : State) (ts : list Thread) : State :=
  mkState (storage st) (writeQueues st) (draining st) (gaveUpWrites st) (arrays st) (writes st) ts (issued st) (settled st).
Definition set_thread (st : State) (i : nat) (t : Thread) : State := set_threads st (<[i := t]> (threads st)).
Definition spawn (st : State) (t : Thread) : State := set_threads st (threads st ++ [t]).

Section Client.
(** [routes]: the discovered resources.  A [uuid] is given with the call that needs one. *)
Context {U : Type} (api : UrlApi U) (baseUrl : jstr) (routes : list ResourceRoute) (idField : jstr).
Context (baseDelayMs maxDelayMs : Z) (maxAttempts : option Z).

(* src: syncables/src/client/client.ts 281-283 queueKey *)
Definition queueKey (resource id : jstr) : jstr := resource ++ js ":" ++ id.

(* src: syncables/src/client/client.ts 401-409 resolveRoute *)
Definition resolveRoute (resource : jstr) : option ResourceRoute :=
  List.find (fun r => jeqb (collectionPath r) resource) routes.

Definition default_write : QueuedWrite := mkWrite [] [] delete_ [] 0 None 0.
Definition write_at (st : State) (w : nat) : QueuedWrite := nth w (writes st) default_write.
Definition array_at (st : State) (q : nat) : list nat := nth q (arrays st) [].

(** ** One write *)

(** The first occurrence of [part] replaced. *)
Fixpoint replace_first (part by_ s : jstr) : jstr :=
  if starts_with part s then by_ ++ drop (length part) s
  else match s with [] => [] | c :: s' => c :: replace_first part by_ s' end.

(** [new URL(path, options.baseUrl).toString()]. *)
Definition url_of (path : jstr) : res jstr jstr :=
  match (base ← parse_url api baseUrl; resolve api path base) with
  | Some u => Ok (href api u)
  | None => Err (js "Invalid URL")
  end.

(* src: syncables/src/client/client.ts 411-413 collectionUrl *)
Definition collectionUrl (route : ResourceRoute) : res jstr jstr := url_of (collectionPath route).

(* src: syncables/src/client/client.ts 415-421 itemUrl *)
Definition itemUrl (route : ResourceRoute) (id : jstr) : res jstr jstr :=
  match encodeURIComponent id with
  | None => Err (js "URI malformed")
  | Some e => url_of (replace_first (123 :: itemParam route ++ [125]) e (itemPath route))
  end.

(** What a write sends: method, URL and body. *)
Record Request := mkRequest { rq_method : jstr; rq_url : jstr; rq_body : option jstr }.

Definition update_name (m : UpdateMethod) : jstr := match m with PUT => js "PUT" | PATCH => js "PATCH" end.

(* src: syncables/src/client/client.ts 299-326 attemptWrite ! *)
Definition request_of (write : QueuedWrite) : res jstr Request :=
  match resolveRoute (w_resource write) with
  | None => Err (js "Unknown resource " ++ [34] ++ w_resource write ++ [34] ++ js ". Known resources: " ++ join_str (js ", ") (map collectionPath routes))
  | Some route =>
      let body := json_text (OObj (w_data write)) in
      match w_type write with
      | create => u ← collectionUrl route; Ok (mkRequest (js "POST") u (Some body))
      | update => u ← itemUrl route (w_id write); Ok (mkRequest (update_name (updateMethod route)) u (Some body))
      | delete_ => u ← itemUrl route (w_id write); Ok (mkRequest (js "DELETE") u None)
      end
  end.

(** The write after a failed attempt, and its outcome. *)
(* src: syncables/src/client/client.ts 332-345 attemptWrite ! *)
Definition failed (write : QueuedWrite) (message : jstr) : QueuedWrite * WriteOutcome :=
  let n := attempts write + 1 in
  (mkWrite (w_resource write) (w_id write) (w_type write) (w_data write) n (Some message) (stamp write),
   match maxAttempts with
   | Some m => if m <=? n then gave_up else retry (Z.min (baseDelayMs * 2 ^ (n - 1)) maxDelayMs)
   | None => retry (Z.min (baseDelayMs * 2 ^ (n - 1)) maxDelayMs)
   end).

Definition set_write (st : State) (w : nat) (write : QueuedWrite) : State :=
  mkState (storage st) (writeQueues st) (draining st) (gaveUpWrites st) (arrays st) (<[w := write]> (writes st)) (threads st)
    (issued st) (settled st).

(** [attemptWrite] up to its first await. *)
(* src: syncables/src/client/client.ts 296-346 attemptWrite *)
Definition attemptWrite (st : State) (q w : nat) : State * Place :=
  let write := write_at st w in
  match w_type write with
  | delete_ => (set_storage st (storage_delete (storage st) (w_resource write) (w_id write)), Deleting q w)
  | _ =>
      match request_of write with
      | Ok _ => (st, Sent q w)
      | Err e => let '(write, outcome) := failed write e in (set_write st w write, Attempted q w outcome)
      end
  end.

(** The top of the loop of [drainQueue]: the next write, or the end of the loop. *)
(* src: syncables/src/client/client.ts 360-366 drainQueue ! *)
Definition drain_top (st : State) (k : jstr) : State * Thread :=
  match (q ← jget k (writeQueues st); w ← head (array_at st q); Some (q, w)) with
  | None =>
      (mkState (storage st) (jdelete k (writeQueues st)) (List.filter (fun x => negb (jeqb x k)) (draining st)) (gaveUpWrites st)
         (arrays st) (writes st) (threads st) (issued st) (settled st), Finished)
  | Some (q, w) => let '(st, at_) := attemptWrite st q w in (st, Draining k at_)
  end.

(** [add] of a set. *)
Definition set_add (k : jstr) (s : list jstr) : list jstr := if bool_decide (k ∈ s) then s else s ++ [k].

(* src: syncables/src/client/client.ts 348-399 drainQueue *)
Definition drainQueue (st : State) (k : jstr) : State * Thread :=
  drain_top (mkState (storage st) (writeQueues st) (set_add k (draining st)) (gaveUpWrites st) (arrays st) (writes st) (threads st)
               (issued st) (settled st)) k.

(* src: syncables/src/client/client.ts 285-294 enqueueWrite *)
Definition enqueueWrite (st : State) (resource id : jstr) (type : PendingWriteType) (data : fields_map) : State :=
  let k := queueKey resource id in
  let w := length (writes st) in
  let write := mkWrite resource id type data 0 None (issued st) in
  let '(q, arrays) := match jget k (writeQueues st) with
                      | Some q => (q, <[q := array_at st q ++ [w]]> (arrays st))
                      | None => (length (arrays st), arrays st ++ [[w]])
                      end in
  let st := mkState (storage st) (jset k q (writeQueues st)) (draining st) (jdelete k (gaveUpWrites st)) arrays
              (writes st ++ [write]) (threads st) (S (issued st)) (settled st) in
  if bool_decide (k ∈ draining st) then st
  else let '(st, t) := drainQueue st k in spawn st t.

(** ** What becomes of an attempt *)

(** The head of the array is done with. *)
(* src: syncables/src/client/client.ts 373-373 drainQueue ! *)
Definition shift (st : State) (q w : nat) : State :=
  mkState (storage st) (writeQueues st) (draining st) (gaveUpWrites st) (<[q := tail (array_at st q)]> (arrays st)) (writes st)
    (threads st) (issued st) (settled st ++ [stamp (write_at st w)]).

(* src: syncables/src/client/client.ts 392-394 drainQueue ! *)
Definition drop_if_empty (st : State) (k : jstr) (q : nat) : State :=
  match array_at st q with
  | [] => mkState (storage st) (jdelete k (writeQueues st)) (draining st) (gaveUpWrites st) (arrays st) (writes st) (threads st)
            (issued st) (settled st)
  | _ => st
  end.

(** The writes behind one that settled under another id, moved to that id's queue. *)
(* src: syncables/src/client/client.ts 378-389 drainQueue ! *)
Definition move_queue (st : State) (k k' : jstr) (q : nat) (resolvedId : jstr) : State :=
  let rest := array_at st q in
  let cleared := jdelete k (writeQueues st) in
  let existing := default [] ((fun q' => if decide (q' = q) then [] else array_at st q') <$> jget k' cleared) in
  let moved := map (fun w => let x := write_at st w in
      mkWrite (w_resource x) resolvedId (w_type x) (w_data x) (attempts x) (lastError x) (stamp x)) rest in
  mkState (storage st) (jset k' (length (arrays st)) cleared)
    (set_add k' (List.filter (fun x => negb (jeqb x k)) (draining st))) (gaveUpWrites st)
    (<[q := []]> (arrays st) ++ [existing ++ seq (length (writes st)) (length rest)])
    (writes st ++ moved) (threads st) (issued st) (settled st).

(** The rest of the loop's body, once the outcome is known, up to the next await. *)
(* src: syncables/src/client/client.ts 368-395 drainQueue ! *)
Definition after_outcome (st : State) (k : jstr) (q w : nat) (outcome : WriteOutcome) : State * Thread :=
  match outcome with
  | retry _ => (st, Draining k Sleeping)
  | gave_up =>
      let st := shift st q w in
      let st := mkState (storage st) (writeQueues st) (draining st) (jset k w (gaveUpWrites st)) (arrays st) (writes st) (threads st)
                  (issued st) (settled st) in
      drain_top (drop_if_empty st k q) k
  | succeeded resolvedId =>
      let write := write_at st w in
      let st := shift st q w in
      if jeqb resolvedId (w_id write) then drain_top (drop_if_empty st k q) k
      else let k' := queueKey (w_resource write) resolvedId in drain_top (move_queue st k k' q resolvedId) k'
  end.

(** An attempt fails: [attempts] and [lastError] of the write change. *)
Definition fail (st : State) (k : jstr) (q w : nat) (message : jstr) : State * Thread :=
  let '(write, outcome) := failed (write_at st w) message in
  after_outcome (set_write st w write) k q w outcome.

(** The answer to the request of a write; [None]: a response without a body. *)
(* src: syncables/src/client/client.ts 304-331 attemptWrite ! *)
Definition answered (st : State) (k : jstr) (q w : nat) (r : res jstr (option Json)) : State * Thread :=
  let write := write_at st w in
  match r with
  | Err e => fail st k q w e
  | Ok body =>
      match w_type write with
      | create =>
          match body with
          | None | Some ONull => fail st k q w (js "Cannot read properties of " ++ match body with None => js "undefined" | _ => js "null" end)
          | Some created =>
              let resolvedId := match member idField created with Some v => String_of v | None => js "undefined" end in
              if jeqb resolvedId (w_id write)
              then (set_storage st (storage_put (storage st) (w_resource write) resolvedId (Some created)), Draining k (Storing q w resolvedId))
              else (set_storage st (storage_delete (storage st) (w_resource write) (w_id write)), Draining k (Replacing q w resolvedId created))
          end
      | update =>
          (set_storage st (storage_put (storage st) (w_resource write) (w_id write) body), Draining k (Storing q w (w_id write)))
      | delete_ => after_outcome st k q w (succeeded (w_id write))
      end
  end.

(** A loop resumes. *)
Definition resume (st : State) (k : jstr) (at_ : Place) : option (State * Thread) :=
  match at_ with
  | Sent _ _ => None
  | Deleting q w =>
      Some (match request_of (write_at st w) with Ok _ => (st, Draining k (Sent q w)) | Err e => fail st k q w e end)
  | Attempted q w outcome => Some (after_outcome st k q w outcome)
  | Replacing q w resolvedId created =>
      Some (set_storage st (storage_put (storage st) (w_resource (write_at st w)) resolvedId (Some created)), Draining k (Storing q w resolvedId))
  | Storing q w resolvedId => Some (after_outcome st k q w (succeeded resolvedId))
  | Sleeping => Some (drain_top st k)
  end.

(** ** Calls of the application *)

(** [{...existing, ...data, [idField]: id}]. *)
(* src: syncables/src/client/client.ts 738-738 update ! *)
Definition merged_record (existing : option Json) (data : fields_map) (id : jstr) : fields_map :=
  jset idField (OStr id) (spread (entries_of existing) data).

(* src: syncables/src/client/client.ts 718-733 create ! *)
Definition call_create (st : State) (resource : jstr) (data : fields_map) (uuid : jstr) : option State :=
  route ← resolveRoute resource;
  let id := match jget idField data with Some (OStr s) => s | _ => uuid end in
  let record := merged_record None data id in
  Some (spawn (set_storage st (storage_put (storage st) (collectionPath route) id (Some (OObj record))))
          (Enqueuing (collectionPath route) id create record)).

(* src: syncables/src/client/client.ts 735-747 update ! *)
Definition call_update (st : State) (resource id : jstr) (data : fields_map) : option State :=
  route ← resolveRoute resource;
  Some (spawn st (Merging (collectionPath route) id data (storage_get (storage st) (collectionPath route) id))).

(* src: syncables/src/client/client.ts 749-753 remove ! *)
Definition call_remove (st : State) (resource id : jstr) : option State :=
  route ← resolveRoute resource;
  Some (spawn (set_storage st (storage_delete (storage st) (collectionPath route) id)) (Enqueuing (collectionPath route) id delete_ [])).

(* src: syncables/src/client/client.ts 755-781 pendingWrites *)
Definition pendingWrites (st : State) (resource : option jstr) : option (list PendingWriteInfo) :=
  path ← match resource with
         | None | Some [] => Some None
         | Some r => Some <$> (collectionPath <$> resolveRoute r)
         end;
  let all := map (write_at st) (flat_map (fun p => array_at st p.2) (writeQueues st) ++ jvalues (gaveUpWrites st)) in
  Some (map (fun w => mkInfo (w_resource w) (w_id w) (w_type w) (attempts w) (lastError w))
          (List.filter (fun w => match path with Some (c :: p) => jeqb (w_resource w) (c :: p) | _ => true end) all)).

(** ** Steps *)

Inductive Event :=
| Create (resource : jstr) (data : fields_map) (uuid : jstr)
| Update (resource id : jstr) (data : fields_map)
| Remove (resource id : jstr)
| Answer (i : nat) (r : res jstr (option Json))
| Resume (i : nat).

(** A thread that awaits storage or a timer resumes. *)
Definition resume_thread (st : State) (i : nat) : option State :=
  t ← threads st !! i;
  match t with
  | Merging resource id data existing =>
      let record := merged_record existing data id in
      Some (set_thread (set_storage st (storage_put (storage st) resource id (Some (OObj record)))) i (Enqueuing resource id update record))
  | Enqueuing resource id type data => Some (enqueueWrite (set_thread st i Finished) resource id type data)
  | Draining k at_ => '(st, t) ← resume st k at_; Some (set_thread st i t)
  | Finished => None
  end.

(** What the client does at an event; nothing when it cannot happen or the call throws. *)
Definition step (st : State) (e : Event) : option State :=
  match e with
  | Create resource data uuid => call_create st resource data uuid
  | Update resource id data => call_update st resource id data
  | Remove resource id => call_remove st resource id
  | Answer i r =>
      t ← threads st !! i;
      match t with
      | Draining k (Sent q w) => let '(st, t) := answered st k q w r in Some (set_thread st i t)
      | _ => None
      end
  | Resume i => resume_thread st i
  end.

Definition run (st : State) (es : list Event) : option State := foldl (fun st e => st ← st; step st e) (Some st) es.
End Client.

(** ** Queues that do not collide *)

Section Queues.
Context {U : Type} (api : UrlApi U) (baseUrl : jstr) (routes : list ResourceRoute) (idField : jstr).
Context (baseDelayMs maxDelayMs : Z) (maxAttempts : option Z).

#[local] Abbreviation step := (step api baseUrl routes idField baseDelayMs maxDelayMs maxAttempts).
#[local] Abbreviation drain_top := (drain_top api baseUrl routes baseDelayMs maxDelayMs maxAttempts).
#[local] Abbreviation after_outcome := (after_outcome api baseUrl routes baseDelayMs maxDelayMs maxAttempts).
#[local] Abbreviation fail := (fail api baseUrl routes baseDelayMs maxDelayMs maxAttempts).
#[local] Abbreviation answered := (answered api baseUrl routes idField baseDelayMs maxDelayMs maxAttempts).
#[local] Abbreviation resume := (resume api baseUrl routes baseDelayMs maxDelayMs maxAttempts).
#[local] Abbreviation enqueueWrite := (enqueueWrite api baseUrl routes baseDelayMs maxDelayMs maxAttempts).
#[local] Abbreviation attemptWrite := (attemptWrite api baseUrl routes baseDelayMs maxDelayMs maxAttempts).

(** The writes of a record that are not done with, oldest first. *)
Definition queue_of (st : State) (k : jstr) : list nat := default [] (array_at st <$> jget k (writeQueues st)).

Lemma queue_of_some st k q : jget k (writeQueues st) = Some q -> queue_of st k = array_at st q.
Proof. unfold queue_of. by intros ->. Qed.
Lemma queue_of_none st k : jget k (writeQueues st) = None -> queue_of st k = [].
Proof. unfold queue_of. by intros ->. Qed.

(** A loop's array is its key's, with its write at the head. *)
Definition holds (st : State) (k : jstr) (q w : nat) : Prop :=
  jget k (writeQueues st) = Some q /\ exists rest, array_at st q = w :: rest.

Definition place_ok (st : State) (k : jstr) (p : Place) : Prop :=
  match p with
  | Deleting q w | Sent q w | Replacing q w _ _ | Storing q w _ => holds st k q w
  | Attempted q w outcome => holds st k q w /\ match outcome with succeeded _ => False | _ => True end
  | Sleeping => True
  end.

(** The heaps and the map fit. *)
Record heaps_ok (st : State) : Prop := {
  hp_keys : NoDup (jkeys (writeQueues st));
  hp_arrays : forall k q, jget k (writeQueues st) = Some q -> (q < length (arrays st))%nat;
  hp_inj : forall k k' q, jget k (writeQueues st) = Some q -> jget k' (writeQueues st) = Some q -> k = k';
  hp_writes : forall k w, w ∈ queue_of st k -> (w < length (writes st))%nat;
  hp_drained : forall k, is_Some (jget k (writeQueues st)) -> k ∈ draining st;
}.

(** Every key that is drained has one loop, which holds its array. *)
Record client_ok (st : State) : Prop := {
  ok_heaps : heaps_ok st;
  ok_loop : forall i k p, threads st !! i = Some (Draining k p) -> k ∈ draining st /\ place_ok st k p;
  ok_one : forall i j k p p', threads st !! i = Some (Draining k p) -> threads st !! j = Some (Draining k p') -> i = j;
  ok_all : forall k, k ∈ draining st -> exists i p, threads st !! i = Some (Draining k p);
}.

(** The same while the loop [i] of the key [k] runs. *)
Record running (st : State) (i : nat) (k : jstr) : Prop := {
  rn_heaps : heaps_ok st;
  rn_here : k ∈ draining st /\ (i < length (threads st))%nat;
  rn_loop : forall j k' p, j <> i -> threads st !! j = Some (Draining k' p) -> k' <> k /\ k' ∈ draining st /\ place_ok st k' p;
  rn_one : forall j j' k' p p', j <> i -> j' <> i -> threads st !! j = Some (Draining k' p) -> threads st !! j' = Some (Draining k' p') -> j = j';
  rn_all : forall k', k' ∈ draining st -> k' = k \/ exists j p, j <> i /\ threads st !! j = Some (Draining k' p);
}.

Lemma client_running st i k p : client_ok st -> threads st !! i = Some (Draining k p) -> running st i k /\ place_ok st k p.
Proof.
  intros [Hh Hl H1 Ha] Hi. destruct (Hl _ _ _ Hi) as [Hk Hp]. split; [|done]. split; [done| | | |].
  - split; [done|]. by eapply lookup_lt_Some.
  - intros j k' p' Hj Ht. split; [|by eapply Hl]. intros ->. apply Hj. by eapply H1.
  - intros. by eapply H1.
  - intros k' (j & p' & Hj)%Ha. destruct (decide (j = i)) as [->|Hne]; [left; congruence|right; eauto].
Qed.

Lemma running_client st i k p : running st i k -> place_ok st k p -> client_ok (set_thread st i (Draining k p)).
Proof.
  intros [Hh [Hk Hi] Hl H1 Ha] Hp.
  assert (forall j k' p', threads (set_thread st i (Draining k p)) !! j = Some (Draining k' p') ->
            (j = i /\ k' = k /\ p' = p) \/ (j <> i /\ threads st !! j = Some (Draining k' p'))) as Hcase.
  { intros j k' p'. cbn. destruct (decide (j = i)) as [->|Hne].
    - rewrite list_lookup_insert_eq by done. intros [= -> ->]. by left.
    - rewrite list_lookup_insert_ne by done. by right. }
  split; [by destruct Hh; split| | |].
  - intros j k' p' [(-> & -> & ->)|[Hne Hj]]%Hcase; [done|]. by destruct (Hl _ _ _ Hne Hj) as (_ & ? & ?).
  - intros j j' k' p' p'' [(-> & -> & ->)|[Hne Hj]]%Hcase [(-> & Hk' & ->)|[Hne' Hj']]%Hcase; [done| | |by eapply H1].
    + by destruct (Hl _ _ _ Hne' Hj') as [? _].
    + subst k'. by destruct (Hl _ _ _ Hne Hj) as [? _].
  - intros k' [->|(j & p' & Hne & Hj)]%Ha.
    + exists i, p. cbn. by rewrite list_lookup_insert_eq.
    + exists j, p'. cbn. by rewrite list_lookup_insert_ne.
Qed.

(** A loop ends: its key is drained no more, and has no queue. *)
Lemma running_finished st i k : running st i k -> jget k (writeQueues st) = None ->
  client_ok (set_thread (mkState (storage st) (writeQueues st) (List.filter (fun x => negb (jeqb x k)) (draining st))
    (gaveUpWrites st) (arrays st) (writes st) (threads st) (issued st) (settled st)) i Finished).
Proof.
  intros [Hh [Hk Hi] Hl H1 Ha] Hnone.
  assert (forall x, x ∈ List.filter (fun x => negb (jeqb x k)) (draining st) <-> x ∈ draining st /\ x <> k) as Hfilter.
  { intros x. rewrite !list_elem_of_In, filter_In. unfold jeqb. destruct (decide (x = k)); [rewrite bool_decide_true by done|rewrite bool_decide_false by done]; naive_solver. }
  assert (forall j k' p', threads (set_thread st i Finished) !! j = Some (Draining k' p') ->
            j <> i /\ threads st !! j = Some (Draining k' p')) as Hcase.
  { intros j k' p'. cbn. destruct (decide (j = i)) as [->|Hne]; [by rewrite list_lookup_insert_eq|by rewrite list_lookup_insert_ne]. }
  split.
  - destruct Hh. split; cbn [writeQueues arrays writes draining set_thread set_threads]; try done.
    intros k' Hk'. apply Hfilter. split; [by auto|]. intros ->. rewrite Hnone in Hk'. by destruct Hk'.
  - intros j k' p' [Hne Hj]%Hcase. destruct (Hl _ _ _ Hne Hj) as (? & ? & ?). split; [|done]. cbn. by apply Hfilter.
  - intros j j' k' p' p'' [Hne Hj]%Hcase [Hne' Hj']%Hcase. by eapply H1.
  - intros k' [Hd Hne]%Hfilter. destruct (Ha _ Hd) as [->|(j & p & Hj & Hp)]; [done|].
    exists j, p. cbn. by rewrite list_lookup_insert_ne.
Qed.

(** ** The specification: a queue of writes per record *)

Record Spec := mkSpec { pending : jstr -> list nat; made : nat; done_ : list nat }.

Definition spec_of (st : State) : Spec :=
  mkSpec (fun k => map (fun w => stamp (write_at st w)) (queue_of st k)) (issued st) (settled st).

Lemma pending_queue st k : pending (spec_of st) k = map (fun w => stamp (write_at st w)) (queue_of st k).
Proof. done. Qed.

(** Nothing happens; a write is made; the oldest of a queue is done with; and
    with the oldest the rest moves under another key, under which nothing is queued. *)
Inductive spec_step (a b : Spec) : Prop :=
| spec_idle : (forall k, pending b k = pending a k) -> made b = made a -> done_ b = done_ a -> spec_step a b
| spec_make k : pending b k = pending a k ++ [made a] -> (forall x, x <> k -> pending b x = pending a x) ->
    made b = S (made a) -> done_ b = done_ a -> spec_step a b
| spec_settle k s : pending a k = s :: pending b k -> (forall x, x <> k -> pending b x = pending a x) ->
    made b = made a -> done_ b = done_ a ++ [s] -> spec_step a b
| spec_move k k' s : k <> k' -> pending a k = s :: pending b k' -> pending a k' = [] -> pending b k = [] ->
    (forall x, x <> k -> x <> k' -> pending b x = pending a x) ->
    made b = made a -> done_ b = done_ a ++ [s] -> spec_step a b.

(** The oldest of a queue is done with, and the rest moves behind the writes of another key. *)
Inductive spec_join (a b : Spec) : Prop :=
| join_queues k k' s rest : k <> k' -> pending a k = s :: rest -> pending b k = [] -> pending b k' = pending a k' ++ rest ->
    (forall x, x <> k -> x <> k' -> pending b x = pending a x) ->
    made b = made a -> done_ b = done_ a ++ [s] -> spec_join a b.

(** ** What does not touch the queues *)

Record same_queues (st st' : State) : Prop := {
  sq_queues : writeQueues st' = writeQueues st;
  sq_draining : draining st' = draining st;
  sq_arrays : arrays st' = arrays st;
  sq_threads : threads st' = threads st;
  sq_writes : length (writes st') = length (writes st);
  sq_stamps : forall w, stamp (write_at st' w) = stamp (write_at st w);
  sq_issued : issued st' = issued st;
  sq_settled : settled st' = settled st;
}.

Lemma same_refl st : same_queues st st.
Proof. by split. Qed.
Lemma same_trans a b c : same_queues a b -> same_queues b c -> same_queues a c.
Proof. intros [] []. split; congruence. Qed.

Lemma same_storage st s : same_queues st (set_storage st s).
Proof. by split. Qed.

Lemma same_write st w write : stamp write = stamp (write_at st w) -> same_queues st (set_write st w write).
Proof.
  intros Hs. split; try done; cbn [writes set_write]; [by rewrite length_insert|].
  intros w'. unfold write_at. cbn [writes set_write]. rewrite !nth_lookup.
  destruct (decide (w' = w)) as [->|Hne]; [|by rewrite list_lookup_insert_ne].
  destruct (decide (w < length (writes st))%nat) as [Hlt|Hge].
  - rewrite list_lookup_insert_eq by done. cbn. rewrite Hs. unfold write_at. by rewrite nth_lookup.
  - by rewrite list_insert_ge by lia.
Qed.

Lemma same_queue_of st st' k : same_queues st st' -> queue_of st' k = queue_of st k.
Proof. intros []. unfold queue_of, array_at. by rewrite sq_queues0, sq_arrays0. Qed.

Lemma same_pending st st' k : same_queues st st' -> pending (spec_of st') k = pending (spec_of st) k.
Proof.
  intros H. cbn. rewrite (same_queue_of _ _ _ H). apply map_ext. by destruct H.
Qed.

Lemma same_holds st st' k q w : same_queues st st' -> holds st k q w -> holds st' k q w.
Proof. intros [] [H1 H2]. unfold holds, array_at. by rewrite sq_queues0, sq_arrays0. Qed.

Lemma same_place st st' k p : same_queues st st' -> place_ok st k p -> place_ok st' k p.
Proof. intros H. destruct p; cbn; try done; try (by apply same_holds). intros [H1 H2]. split; [by eapply same_holds|done]. Qed.

Lemma same_heaps st st' : same_queues st st' -> heaps_ok st -> heaps_ok st'.
Proof.
  intros H [H1 H2 H3 H4 H5]. pose proof (fun k => same_queue_of _ _ k H) as Hq. destruct H.
  split; intros *; rewrite ?sq_queues0, ?sq_arrays0, ?sq_draining0, ?sq_writes0, ?Hq; eauto.
Qed.

Lemma same_running st st' i k : same_queues st st' -> running st i k -> running st' i k.
Proof.
  intros H [H1 H2 H3 H4 H5]. pose proof (same_heaps _ _ H H1) as Hh. pose proof (fun k p => same_place _ _ k p H) as Hp. destruct H.
  split; [done| | | |]; intros *; rewrite ?sq_threads0, ?sq_draining0; eauto.
  intros Hj Ht. destruct (H3 _ _ _ Hj Ht) as (? & ? & ?). eauto.
Qed.

(** ** The loop *)

Lemma failed_stamp write message : stamp (failed baseDelayMs maxDelayMs maxAttempts write message).1 = stamp write.
Proof. done. Qed.

Lemma failed_outcome write message id : (failed baseDelayMs maxDelayMs maxAttempts write message).2 <> succeeded id.
Proof. unfold failed. cbn. destruct maxAttempts as [m|]; [destruct (m <=? _)|]; done. Qed.

Lemma attemptWrite_same st q w : same_queues st (attemptWrite st q w).1.
Proof.
  unfold Client.attemptWrite. destruct (w_type _); [| |apply same_storage].
  all: destruct (request_of _ _ _ _) as [r|e]; [apply same_refl|].
  all: destruct (failed _ _ _ _ _) as [write outcome] eqn:E; apply same_write.
  all: apply (f_equal fst) in E; cbn in E; by rewrite <-E.
Qed.

Lemma attemptWrite_place st k q w : holds st k q w -> place_ok (attemptWrite st q w).1 k (attemptWrite st q w).2.
Proof.
  intros H. pose proof (same_holds _ _ _ _ _ (attemptWrite_same st q w) H) as H'. revert H'.
  unfold Client.attemptWrite. destruct (w_type _); [| |done].
  all: destruct (request_of _ _ _ _) as [r|e]; [done|].
  all: destruct (failed _ _ _ _ _) as [write outcome] eqn:E; intros H'; split; [done|].
  all: destruct outcome as [id| |]; [|done..].
  all: exfalso; apply (failed_outcome (write_at st w) e id); by rewrite E.
Qed.

Lemma filter_ne k (l : list jstr) x : x ∈ List.filter (fun x => negb (jeqb x k)) l <-> x ∈ l /\ x <> k.
Proof.
  rewrite !list_elem_of_In, filter_In. unfold jeqb.
  destruct (decide (x = k)); [rewrite bool_decide_true by done|rewrite bool_decide_false by done]; naive_solver.
Qed.

(** Dropping the key of an empty queue. *)
Lemma drop_heaps st k : heaps_ok st -> heaps_ok (mkState (storage st) (jdelete k (writeQueues st)) (draining st)
  (gaveUpWrites st) (arrays st) (writes st) (threads st) (issued st) (settled st)).
Proof.
  intros [H1 H2 H3 H4 H5].
  assert (forall k', jget k' (jdelete k (writeQueues st)) = if decide (k' = k) then None else jget k' (writeQueues st)) as Hget.
  { intros k'. by apply jget_jdelete. }
  split; cbn [writeQueues arrays writes draining].
  - by apply jdelete_nodup.
  - intros k' q. rewrite Hget. case_decide; [done|]. apply H2.
  - intros a b q. rewrite !Hget. do 2 (case_decide; [done|]). apply H3.
  - intros k' w. unfold queue_of, array_at. cbn [writeQueues arrays]. rewrite Hget. case_decide.
    + cbn. intros Hw. by apply elem_of_nil in Hw.
    + intros Hw. by apply (H4 k').
  - intros k'. rewrite Hget. case_decide; [intros [? ?]; done|]. apply H5.
Qed.

Lemma drop_pending st k x : heaps_ok st -> queue_of st k = [] ->
  pending (spec_of (mkState (storage st) (jdelete k (writeQueues st)) (draining st)
    (gaveUpWrites st) (arrays st) (writes st) (threads st) (issued st) (settled st))) x = pending (spec_of st) x.
Proof.
  intros [H1 _ _ _ _] Hnil. cbn. f_equal. unfold queue_of, array_at in *. cbn [writeQueues arrays]. rewrite jget_jdelete by done.
  case_decide; [subst; by rewrite Hnil|done].
Qed.

Lemma drop_running st i k : running st i k -> running (mkState (storage st) (jdelete k (writeQueues st)) (draining st)
  (gaveUpWrites st) (arrays st) (writes st) (threads st) (issued st) (settled st)) i k.
Proof.
  intros [H1 H2 H3 H4 H5]. split; [by apply drop_heaps|done| |done|done].
  intros j k' p Hj Ht. destruct (H3 _ _ _ Hj Ht) as (Hne & Hd & Hp). split; [done|]. split; [done|].
  assert (forall q w, holds st k' q w -> holds (mkState (storage st) (jdelete k (writeQueues st)) (draining st)
    (gaveUpWrites st) (arrays st) (writes st) (threads st) (issued st) (settled st)) k' q w) as Hh.
  { intros q w [Hq Hw]. split; [|exact Hw]. cbn [writeQueues]. rewrite jget_jdelete by apply H1. by rewrite decide_False. }
  destruct p; cbn in Hp |- *; try done; try (by apply Hh). destruct Hp as [Hp ?]. split; [by apply Hh|done].
Qed.

Lemma drain_top_pending st k : heaps_ok st ->
  (forall x, pending (spec_of (drain_top st k).1) x = pending (spec_of st) x)
  /\ issued (drain_top st k).1 = issued st /\ settled (drain_top st k).1 = settled st.
Proof.
  intros Hh. unfold Client.drain_top.
  destruct (jget k (writeQueues st)) as [q|] eqn:Eq; cbn [mbind option_bind]; [destruct (array_at st q) as [|w rest] eqn:Ea; cbn [head mbind option_bind]|].
  - split; [|done]. intros x. apply drop_pending; [done|]. unfold queue_of. by rewrite Eq.
  - pose proof (attemptWrite_same st q w) as Hs. destruct (attemptWrite st q w) as [st' p]. cbn [fst] in *.
    split; [intros x; exact (same_pending _ _ x Hs)|by destruct Hs].
  - split; [|done]. intros x. apply drop_pending; [done|]. unfold queue_of. by rewrite Eq.
Qed.

Lemma drain_top_ok st i k : running st i k ->
  let '(st', t) := drain_top st k in
  client_ok (set_thread st' i t) /\ (forall x, pending (spec_of (set_thread st' i t)) x = pending (spec_of st) x)
  /\ issued st' = issued st /\ settled st' = settled st.
Proof.
  intros Hr. pose proof (drain_top_pending st k ltac:(apply Hr)) as Hp. destruct (drain_top st k) as [st' t] eqn:E. cbn [fst] in Hp.
  split; [|exact Hp]. clear Hp. revert E. unfold Client.drain_top.
  assert (client_ok (set_thread (mkState (storage st) (jdelete k (writeQueues st)) (List.filter (fun x => negb (jeqb x k)) (draining st))
    (gaveUpWrites st) (arrays st) (writes st) (threads st) (issued st) (settled st)) i Finished)) as Hend.
  { apply (running_finished _ i k (drop_running _ _ _ Hr)). cbn [writeQueues]. rewrite jget_jdelete by apply Hr. by rewrite decide_True. }
  destruct (jget k (writeQueues st)) as [q|] eqn:Eq; cbn [mbind option_bind]; [destruct (array_at st q) as [|w rest] eqn:Ea; cbn [head mbind option_bind]|].
  - by intros [= <- <-].
  - pose proof (attemptWrite_same st q w) as Hs. pose proof (attemptWrite_place st k q w) as Hp.
    destruct (attemptWrite st q w) as [st1 p]. cbn [fst snd] in *. intros [= <- <-].
    apply running_client; [exact (same_running _ _ _ _ Hs Hr)|]. apply Hp. split; [done|eauto].
  - by intros [= <- <-].
Qed.

(** ** Settling *)

(** A loop whose write is done with, with its array after [shift]. *)
Lemma shift_running st i k q w : running st i k -> holds st k q w ->
  running (shift st q w) i k /\ jget k (writeQueues st) = Some q
  /\ pending (spec_of st) k = stamp (write_at st w) :: pending (spec_of (shift st q w)) k
  /\ forall x, x <> k -> pending (spec_of (shift st q w)) x = pending (spec_of st) x.
Proof.
  intros [[H1 H2 H3 H4 H5] Hh Hl Ho Ha] [Hq [rest Hrest]].
  assert (forall q', array_at (shift st q w) q' = if decide (q' = q) then rest else array_at st q') as Harr.
  { intros q'. unfold array_at at 1. cbn [arrays shift]. rewrite nth_lookup. case_decide as Heq.
    - subst. rewrite list_lookup_insert_eq by (by eapply H2). by rewrite Hrest.
    - rewrite list_lookup_insert_ne by done. unfold array_at. by rewrite nth_lookup. }
  assert (forall x, x <> k -> queue_of (shift st q w) x = queue_of st x) as Hother.
  { intros x Hx. destruct (jget x (writeQueues st)) as [q'|] eqn:E; [|by rewrite !queue_of_none].
    rewrite !(queue_of_some _ x q'), Harr by done. case_decide as Heq; [|done]. subst. by destruct Hx; apply (H3 x k q). }
  assert (queue_of (shift st q w) k = rest /\ queue_of st k = w :: rest) as [Hk1 Hk2].
  { rewrite !(queue_of_some _ k q), Harr, decide_True by done. done. }
  split; [split; [split| | | |]|]; try done.
  - intros k' q' Hk'. cbn [arrays shift]. rewrite length_insert. by eapply H2.
  - intros k' w' Hw'. destruct (decide (k' = k)) as [->|Hne].
    + rewrite Hk1 in Hw'. apply (H4 k). rewrite Hk2. by right.
    + rewrite Hother in Hw' by done. by apply (H4 k').
  - intros j k' p Hj Ht. destruct (Hl _ _ _ Hj Ht) as (Hne & Hd & Hp). split; [done|]. split; [done|].
    assert (forall q' w', holds st k' q' w' -> holds (shift st q w) k' q' w') as Hh'.
    { intros q' w' [Hq' Hw']. split; [done|]. rewrite Harr. case_decide as Heq; [|done]. subst. by destruct Hne; apply (H3 k' k q). }
    destruct p; cbn in Hp |- *; try done; try (by apply Hh'). destruct Hp as [Hp ?]. split; [by apply Hh'|done].
  - split; [done|]. split.
    + by rewrite !pending_queue, Hk1, Hk2.
    + intros x Hx. by rewrite !pending_queue, Hother.
Qed.

Lemma drop_if_empty_running st i k q : running st i k -> jget k (writeQueues st) = Some q ->
  running (drop_if_empty st k q) i k /\ (forall x, pending (spec_of (drop_if_empty st k q)) x = pending (spec_of st) x)
  /\ issued (drop_if_empty st k q) = issued st /\ settled (drop_if_empty st k q) = settled st.
Proof.
  intros Hr Hq. unfold drop_if_empty. destruct (array_at st q) eqn:E; [|done].
  split; [by apply drop_running|]. split; [|done]. intros x. apply drop_pending; [apply Hr|]. unfold queue_of. by rewrite Hq.
Qed.

(** Where a queue that moves is found, and the others. *)
Lemma move_get st k k' q id x : heaps_ok st ->
  jget x (writeQueues (move_queue st k k' q id))
  = if decide (x = k') then Some (length (arrays st)) else if decide (x = k) then None else jget x (writeQueues st).
Proof.
  intros Hh. unfold move_queue. cbn [writeQueues]. rewrite jget_jset. case_decide; [done|]. apply jget_jdelete, Hh.
Qed.

Lemma move_queue_of st k k' q id x : heaps_ok st -> jget k (writeQueues st) = Some q ->
  queue_of (move_queue st k k' q id) x
  = if decide (x = k') then (if decide (k' = k) then [] else queue_of st k') ++ seq (length (writes st)) (length (array_at st q))
    else if decide (x = k) then [] else queue_of st x.
Proof.
  intros Hh Hq. pose proof (move_get st k k' q id x Hh) as Hx. destruct (decide (x = k')) as [->|Hxk'].
  - rewrite (queue_of_some _ k' _ Hx). unfold array_at at 1, move_queue. cbn [arrays].
    rewrite nth_lookup, lookup_app_r, length_insert, Nat.sub_diag by (by rewrite length_insert). cbn [lookup list_lookup default from_option].
    f_equal. rewrite jget_jdelete by apply Hh. case_decide as Hk; [done|].
    destruct (jget k' (writeQueues st)) as [q'|] eqn:E; cbn; [|by rewrite queue_of_none].
    rewrite (queue_of_some _ _ _ E). rewrite decide_False; [done|]. intros ->. destruct Hk. by apply (hp_inj _ Hh k' k q).
  - destruct (decide (x = k)) as [->|Hxk]; [by apply queue_of_none|].
    destruct (jget x (writeQueues st)) as [q'|] eqn:E; [|by rewrite !queue_of_none].
    rewrite !(queue_of_some _ x q') by done. unfold array_at, move_queue. cbn [arrays].
    rewrite !nth_lookup, lookup_app_l by (rewrite length_insert; by eapply hp_arrays).
    rewrite list_lookup_insert_ne; [done|]. intros <-. destruct Hxk. by apply (hp_inj _ Hh x k q).
Qed.

(** The copies keep the stamps. *)
Lemma seq_stamps (old new : list QueuedWrite) :
  map (fun w => stamp (nth w (old ++ new) default_write)) (seq (length old) (length new)) = map stamp new.
Proof.
  revert old. induction new as [|x new IH]; intros old; [done|]. cbn [length seq map]. f_equal.
  - by rewrite app_nth2, Nat.sub_diag by lia.
  - specialize (IH (old ++ [x])). rewrite length_app in IH. cbn in IH. rewrite <-app_assoc, Nat.add_1_r in IH. exact IH.
Qed.

Lemma move_stamps st k k' q id l : (forall w, w ∈ l -> w < length (writes st))%nat ->
  map (fun w => stamp (write_at (move_queue st k k' q id) w)) l = map (fun w => stamp (write_at st w)) l.
Proof.
  intros Hl. apply map_ext_in. intros w Hw. f_equal. unfold move_queue, write_at. cbn [writes].
  apply app_nth1, Hl. by apply list_elem_of_In.
Qed.

Lemma move_pending st k k' q id x : heaps_ok st -> jget k (writeQueues st) = Some q ->
  pending (spec_of (move_queue st k k' q id)) x
  = if decide (x = k') then (if decide (k' = k) then [] else pending (spec_of st) k') ++ pending (spec_of st) k
    else if decide (x = k) then [] else pending (spec_of st) x.
Proof.
  intros Hh Hq. rewrite !pending_queue, move_queue_of by done. case_decide as Hx; [|case_decide; [done|apply move_stamps, Hh]].
  rewrite map_app. f_equal; [case_decide; [done|apply move_stamps, Hh]|]. rewrite (queue_of_some _ k q) by done.
  unfold move_queue, write_at. cbn [writes]. generalize (array_at st q) as rest. intros rest.
  rewrite <-(length_map (fun w => let x := nth w (writes st) default_write in
    mkWrite (w_resource x) id (w_type x) (w_data x) (attempts x) (lastError x) (stamp x)) rest) at 1.
  rewrite seq_stamps, map_map. by apply map_ext.
Qed.

Lemma move_draining st k k' q id x : x ∈ draining (move_queue st k k' q id) <-> x = k' \/ (x ∈ draining st /\ x <> k).
Proof.
  unfold move_queue, set_add. cbn [draining]. case_bool_decide as Hb; [|rewrite elem_of_app, filter_ne, list_elem_of_singleton; tauto].
  rewrite filter_ne. apply filter_ne in Hb. destruct Hb. split; [by right|intros [->|?]; done].
Qed.

Lemma move_heaps st k k' q id : heaps_ok st -> jget k (writeQueues st) = Some q -> heaps_ok (move_queue st k k' q id).
Proof.
  intros Hh Hq. pose proof Hh as [H1 H2 H3 H4 H5]. pose proof (fun x => move_get st k k' q id x Hh) as Hget.
  split.
  - unfold move_queue. cbn [writeQueues]. by apply jset_nodup, jdelete_nodup.
  - intros x q'. rewrite Hget. unfold move_queue. cbn [arrays]. rewrite length_app, length_insert. cbn [length].
    case_decide; [intros [= <-]; lia|]. case_decide; [done|]. intros Hx%H2. lia.
  - intros a b q'. rewrite !Hget. repeat case_decide; try done; try congruence; [intros [= <-] Hb%H2; lia|intros Hb%H2 [= <-]; lia|apply H3].
  - intros x w. assert (length (writes (move_queue st k k' q id)) = (length (writes st) + length (array_at st q))%nat) as ->.
    { unfold move_queue. cbn [writes]. by rewrite length_app, length_map. }
    rewrite move_queue_of by done. intros Hw. case_decide; [|case_decide; [by apply elem_of_nil in Hw|apply H4 in Hw; lia]].
    apply elem_of_app in Hw as [Hw|Hw%elem_of_seq]; [|lia]. case_decide; [by apply elem_of_nil in Hw|]. apply H4 in Hw. lia.
  - intros x. rewrite Hget, move_draining. case_decide; [by left|]. case_decide; [by intros [? ?]|]. intros Hx. right. split; [by apply H5|done].
Qed.

(** A queue moves to a key that no other loop is at work on. *)
Lemma move_running st i k k' q id : running st i k -> jget k (writeQueues st) = Some q -> k' = k \/ k' ∉ draining st ->
  running (move_queue st k k' q id) i k' /\ (k' <> k -> pending (spec_of st) k' = []).
Proof.
  intros [Hh [Hk Hi] Hl Ho Ha] Hq Hk'. pose proof Hh as [H1 H2 H3 H4 H5].
  pose proof (fun x => move_get st k k' q id x Hh) as Hget. pose proof (move_draining st k k' q id) as Hdrain.
  split; [split|].
  - by apply move_heaps.
  - split; [apply Hdrain; by left|done].
  - intros j x p Hj Ht. destruct (Hl _ _ _ Hj Ht) as (Hx & Hd & Hp). assert (x <> k') by (destruct Hk'; congruence).
    split; [done|]. split; [apply Hdrain; by right|].
    assert (forall q' w', holds st x q' w' -> holds (move_queue st k k' q id) x q' w') as Hh'.
    { intros q' w' [Hq' Hw']. split; [by rewrite Hget, !decide_False by done|].
      unfold array_at, move_queue. cbn [arrays]. rewrite nth_lookup, lookup_app_l by (rewrite length_insert; by eapply H2).
      rewrite list_lookup_insert_ne; [|intros <-; by destruct Hx; apply (H3 x k q)]. unfold array_at in Hw'. by rewrite nth_lookup in Hw'. }
    destruct p; cbn in Hp |- *; try done; try (by apply Hh'). destruct Hp as [Hp ?]. split; [by apply Hh'|done].
  - exact Ho.
  - intros x [->|[Hd Hx]]%Hdrain; [by left|]. destruct (Ha x Hd) as [->|?]; [done|by right].
  - intros Hne. rewrite pending_queue, queue_of_none; [done|]. destruct Hk' as [|Hk']; [done|].
    destruct (jget k' (writeQueues st)) eqn:E; [|done]. destruct Hk'. by apply H5.
Qed.

(** ** Every step *)

(** What a step owes: the client fits and the specification follows. *)
Definition follows (a : State) (i : nat) (r : State * Thread) : Prop :=
  client_ok (set_thread r.1 i r.2) /\ spec_step (spec_of a) (spec_of (set_thread r.1 i r.2)).

Lemma follows_same a b i r : same_queues a b -> follows b i r -> follows a i r.
Proof.
  intros Hs [H1 H2]. split; [done|]. pose proof (fun k => same_pending _ _ k Hs) as Hp.
  assert (made (spec_of b) = made (spec_of a)) as Hm by apply Hs. assert (done_ (spec_of b) = done_ (spec_of a)) as Hd by apply Hs.
  destruct H2 as [G1 G2 G3|k G1 G2 G3 G4|k n G1 G2 G3 G4|k k' n G0 G1 G2 G3 G4 G5 G6].
  - apply spec_idle; [intros k; by rewrite <-Hp|congruence..].
  - apply (spec_make _ _ k); [by rewrite <-Hp, <-Hm|intros x Hx; rewrite <-Hp; by apply G2|congruence..].
  - apply (spec_settle _ _ k n); [by rewrite <-Hp|intros x Hx; rewrite <-Hp; by apply G2|congruence..].
  - apply (spec_move _ _ k k' n); [done|by rewrite <-Hp|by rewrite <-Hp|done|intros x Hx Hx'; rewrite <-Hp; by apply G4|congruence|congruence].
Qed.

Lemma settle_follows st i k q w st' : running st i k -> holds st k q w -> same_queues (shift st q w) st' ->
  follows st i (drain_top (drop_if_empty st' k q) k).
Proof.
  intros Hr Hh Hs. destruct (shift_running st i k q w Hr Hh) as (Hr1 & Hq & Hp & Ho).
  assert (jget k (writeQueues st') = Some q) as Hq' by (destruct Hs; by rewrite sq_queues0).
  pose proof (fun k => same_pending _ _ k Hs) as Hp1.
  destruct (drop_if_empty_running st' i k q (same_running _ _ _ _ Hs Hr1) Hq') as (Hr2 & Hp2 & Hi2 & Hs2).
  pose proof (drain_top_ok _ i k Hr2) as Hd. unfold follows. destruct (drain_top _ k) as [st3 t]. cbn [fst snd].
  destruct Hd as (Hok & Hp3 & Hi3 & Hs3). split; [done|].
  apply (spec_settle _ _ k (stamp (write_at st w))).
  - by rewrite Hp3, Hp2, Hp1.
  - intros x Hx. rewrite Hp3, Hp2, Hp1. by apply Ho.
  - cbn [made spec_of set_thread set_threads issued]. rewrite Hi3, Hi2. by destruct Hs.
  - cbn [done_ spec_of set_thread set_threads settled]. rewrite Hs3, Hs2. by destruct Hs.
Qed.

(** The id that a write of [k] settled under is its own, or no other loop is at work on that id's record. *)
Definition free_target (st : State) (k : jstr) (w : nat) (id : jstr) : Prop :=
  id = w_id (write_at st w) \/ queueKey (w_resource (write_at st w)) id = k
  \/ queueKey (w_resource (write_at st w)) id ∉ draining st.

Lemma outcome_follows st i k q w outcome : running st i k -> holds st k q w ->
  match outcome with succeeded id => free_target st k w id | _ => True end ->
  follows st i (after_outcome st k q w outcome).
Proof.
  intros Hr Hh Hfree. unfold Client.after_outcome. destruct outcome as [id|ms|].
  - destruct (jeqb id (w_id (write_at st w))) eqn:E; [by eapply settle_follows; [..|apply same_refl]|].
    destruct Hfree as [Hid|Hfree]; [unfold jeqb in E; by rewrite bool_decide_true in E|].
    destruct (shift_running st i k q w Hr Hh) as (Hr1 & Hq & Hp & Ho). set (k' := queueKey _ id) in *.
    destruct (move_running (shift st q w) i k k' q id Hr1 Hq Hfree) as (Hr2 & Hnone).
    pose proof (fun x => move_pending (shift st q w) k k' q id x ltac:(apply Hr1) Hq) as Hmove.
    pose proof (drain_top_ok _ i k' Hr2) as Hd. unfold follows. destruct (drain_top _ k') as [st3 t]. cbn [fst snd].
    destruct Hd as (Hok & Hp3 & Hi3 & Hs3). split; [done|]. destruct (decide (k' = k)) as [->|Hne].
    + apply (spec_settle _ _ k (stamp (write_at st w))).
      * by rewrite Hp3, Hmove, decide_True.
      * intros x Hx. rewrite Hp3, Hmove, !decide_False by done. by apply Ho.
      * cbn [made spec_of set_thread set_threads issued]. by rewrite Hi3.
      * cbn [done_ spec_of set_thread set_threads settled]. by rewrite Hs3.
    + apply (spec_move _ _ k k' (stamp (write_at st w))); [done|rewrite Hp3, Hmove, decide_True, Hnone by done; exact Hp| |by rewrite Hp3, Hmove, decide_False, decide_True| | |].
      * rewrite <-Ho by done. by apply Hnone.
      * intros x Hx Hx'. rewrite Hp3, Hmove, !decide_False by done. by apply Ho.
      * cbn [made spec_of set_thread set_threads issued]. by rewrite Hi3.
      * cbn [done_ spec_of set_thread set_threads settled]. by rewrite Hs3.
  - split; [by apply running_client|]. by apply spec_idle.
  - by eapply settle_follows; [..|by split].
Qed.

(** The other case: the two queues are one, and two loops are at work on it. *)
Lemma outcome_joins st i k q w id : running st i k -> holds st k q w -> id <> w_id (write_at st w) ->
  queueKey (w_resource (write_at st w)) id <> k ->
  spec_join (spec_of st) (spec_of (set_thread (after_outcome st k q w (succeeded id)).1 i (after_outcome st k q w (succeeded id)).2)).
Proof.
  intros Hr Hh Hid Hne. unfold Client.after_outcome. unfold jeqb at 1. rewrite bool_decide_false by done.
  destruct (shift_running st i k q w Hr Hh) as (Hr1 & Hq & Hp & Ho). set (k' := queueKey _ id) in *.
  pose proof (fun x => move_pending (shift st q w) k k' q id x ltac:(apply Hr1) Hq) as Hmove.
  destruct (drain_top_pending (move_queue (shift st q w) k k' q id) k' (move_heaps _ _ _ _ _ ltac:(apply Hr1) Hq)) as (Hp3 & Hi3 & Hs3).
  destruct (drain_top _ k') as [st3 t]. cbn [fst snd] in *.
  assert (forall x, pending (spec_of (set_thread st3 i t)) x = pending (spec_of st3) x) as Hst by done.
  eapply (join_queues _ _ k k'); [done|exact Hp|by rewrite Hst, Hp3, Hmove, decide_False, decide_True| | | |].
  - rewrite Hst, Hp3, Hmove, decide_True, decide_False by done. f_equal. by apply Ho.
  - intros x Hx Hx'. rewrite Hst, Hp3, Hmove, !decide_False by done. by apply Ho.
  - cbn [made spec_of set_thread set_threads issued]. by rewrite Hi3.
  - cbn [done_ spec_of set_thread set_threads settled]. by rewrite Hs3.
Qed.

Lemma fail_follows st i k q w message : running st i k -> holds st k q w -> follows st i (fail st k q w message).
Proof.
  intros Hr Hh. unfold Client.fail. destruct (failed _ _ _ _ _) as [write outcome] eqn:E.
  assert (same_queues st (set_write st w write)) as Hs.
  { apply same_write. apply (f_equal fst) in E. cbn in E. by rewrite <-E. }
  eapply follows_same; [exact Hs|]. apply outcome_follows; [by eapply same_running|by eapply same_holds|].
  destruct outcome as [id| |]; [|done..]. exfalso. apply (failed_outcome (write_at st w) message id). by rewrite E.
Qed.

(** Going on to another place with the same write. *)
Lemma place_follows st i k p st' : running st i k -> same_queues st st' -> place_ok st k p -> follows st i (st', Draining k p).
Proof.
  intros Hr Hs Hp. eapply follows_same; [exact Hs|]. split; cbn [fst snd].
  - apply running_client; [by eapply same_running|by eapply same_place].
  - by apply spec_idle.
Qed.

Lemma answered_follows st i k q w r : running st i k -> holds st k q w -> follows st i (answered st k q w r).
Proof.
  intros Hr Hh. unfold Client.answered. destruct r as [body|e]; [|by apply fail_follows].
  destruct (w_type _).
  - destruct body as [created|]; [|by apply fail_follows].
    assert (forall id, follows st i (if jeqb id (w_id (write_at st w))
      then (set_storage st (storage_put (storage st) (w_resource (write_at st w)) id (Some created)), Draining k (Storing q w id))
      else (set_storage st (storage_delete (storage st) (w_resource (write_at st w)) (w_id (write_at st w))), Draining k (Replacing q w id created)))) as Hcase.
    { intros id. destruct (jeqb _ _); apply place_follows; done. }
    destruct created; try apply Hcase. by apply fail_follows.
  - by apply place_follows.
  - apply outcome_follows; [done..|]. by left.
Qed.

Lemma resume_follows st i k p r : running st i k -> place_ok st k p ->
  (forall q w id, p = Storing q w id -> free_target st k w id) -> resume st k p = Some r -> follows st i r.
Proof.
  intros Hr Hp Hfree. destruct p as [q w|q w|q w outcome|q w id created|q w id|]; cbn [Client.resume]; try done.
  - intros [= <-]. destruct (request_of _ _ _ _); [by apply place_follows|by apply fail_follows].
  - intros [= <-]. destruct Hp as [Hh Ho]. apply outcome_follows; [done..|]. by destruct outcome.
  - intros [= <-]. by apply place_follows.
  - intros [= <-]. apply (outcome_follows st i k q w (succeeded id)); [done..|]. by apply (Hfree q).
  - intros [= <-]. pose proof (drain_top_ok st i k Hr) as Hd. unfold follows. destruct (drain_top st k) as [st' t]. cbn [fst snd].
    destruct Hd as (Hok & Hpd & Hi & Hs). split; [done|]. by apply spec_idle.
Qed.

(** Threads that drain nothing come and go. *)
Lemma other_threads st st1 ts : client_ok st -> same_queues st st1 ->
  (forall j k p, ts !! j = Some (Draining k p) <-> threads st !! j = Some (Draining k p)) -> client_ok (set_threads st1 ts).
Proof.
  intros [H1 H2 H3 H4] Hs Hts. pose proof (same_heaps _ _ Hs H1) as Hh. pose proof (fun k p => same_place _ _ k p Hs) as Hp.
  split; [by destruct Hh; split| | |]; cbn [threads draining set_threads].
  - intros i k p Hi%Hts. destruct (H2 _ _ _ Hi) as [Hd Hpl]. destruct Hs. rewrite sq_draining0. split; [done|]. by apply Hp in Hpl.
  - intros i j k p p' Hi%Hts Hj%Hts. by eapply H3.
  - intros k Hk. destruct Hs. rewrite sq_draining0 in Hk. destruct (H4 k Hk) as (i & p & Hi). exists i, p. by apply Hts.
Qed.

Lemma spawn_threads st t j k p : (forall k p, t <> Draining k p) ->
  (threads st ++ [t]) !! j = Some (Draining k p) <-> threads st !! j = Some (Draining k p).
Proof.
  intros Ht. split; [|by apply lookup_app_l_Some]. intros [Hj|[_ Hj]]%lookup_app_Some; [done|].
  destruct (j - length (threads st))%nat; [|done]. injection Hj as Hj. by destruct (Ht k p).
Qed.

Lemma insert_threads st i t t' j k p : threads st !! i = Some t -> (forall k p, t <> Draining k p) -> (forall k p, t' <> Draining k p) ->
  <[i := t']> (threads st) !! j = Some (Draining k p) <-> threads st !! j = Some (Draining k p).
Proof.
  intros Hi Ht Ht'. destruct (decide (j = i)) as [->|Hne]; [|by rewrite list_lookup_insert_ne].
  rewrite list_lookup_insert_eq by (by eapply lookup_lt_Some). rewrite Hi. split; intros [= H]; [by destruct (Ht' k p)|by destruct (Ht k p)].
Qed.

Lemma drain_top_threads st ts k : drain_top (set_threads st ts) k = (set_threads (drain_top st k).1 ts, (drain_top st k).2).
Proof.
  unfold Client.drain_top. change (writeQueues (set_threads st ts)) with (writeQueues st).
  destruct (jget k (writeQueues st)) as [q|]; cbn [mbind option_bind]; [|done].
  change (array_at (set_threads st ts) q) with (array_at st q).
  destruct (head (array_at st q)) as [w|]; cbn [mbind option_bind]; [|done].
  unfold Client.attemptWrite. change (write_at (set_threads st ts) w) with (write_at st w).
  destruct (w_type (write_at st w)); [| |done].
  all: destruct (request_of _ _ _ _); [done|]. all: by destruct (failed _ _ _ _ _).
Qed.

(** ** A write is made *)

(** [enqueueWrite] without the loop it may start, the key being drained. *)
Definition pushed (st : State) (resource id : jstr) (type : PendingWriteType) (data : fields_map) : State :=
  let k := queueKey resource id in
  let '(q, arrays) := match jget k (writeQueues st) with
                      | Some q => (q, <[q := array_at st q ++ [length (writes st)]]> (arrays st))
                      | None => (length (arrays st), arrays st ++ [[length (writes st)]])
                      end in
  mkState (storage st) (jset k q (writeQueues st)) (set_add k (draining st)) (jdelete k (gaveUpWrites st)) arrays
    (writes st ++ [mkWrite resource id type data 0 None (issued st)]) (threads st) (S (issued st)) (settled st).

Lemma set_add_in k (l : list jstr) x : x ∈ set_add k l <-> x = k \/ x ∈ l.
Proof. unfold set_add. case_bool_decide; [naive_solver|]. rewrite elem_of_app, list_elem_of_singleton. tauto. Qed.

Lemma pushed_get st resource id type data x : let k := queueKey resource id in
  jget x (writeQueues (pushed st resource id type data)) =
    if decide (x = k) then Some (default (length (arrays st)) (jget k (writeQueues st))) else jget x (writeQueues st).
Proof. intros k. unfold pushed. fold k. by destruct (jget k (writeQueues st)); cbn [writeQueues]; rewrite jget_jset. Qed.

Lemma pushed_array st resource id type data q : heaps_ok st -> let k := queueKey resource id in
  array_at (pushed st resource id type data) q =
    if decide (q = default (length (arrays st)) (jget k (writeQueues st))) then queue_of st k ++ [length (writes st)] else array_at st q.
Proof.
  intros Hh k. unfold pushed. fold k. destruct (jget k (writeQueues st)) as [q0|] eqn:E; cbn [default from_option].
  - rewrite (queue_of_some _ _ _ E). unfold array_at at 1. cbn [arrays]. rewrite nth_lookup. case_decide as Hq.
    + subst. by rewrite list_lookup_insert_eq by (by eapply hp_arrays).
    + rewrite list_lookup_insert_ne by done. unfold array_at. by rewrite nth_lookup.
  - rewrite (queue_of_none _ _ E). unfold array_at. cbn [arrays app]. case_decide as Hq.
    + subst. rewrite app_nth2 by lia. by rewrite Nat.sub_diag.
    + destruct (decide (q < length (arrays st))%nat); [by rewrite app_nth1|]. rewrite app_nth2 by lia.
      rewrite (nth_overflow (arrays st)) by lia. by destruct (q - length (arrays st))%nat as [|[]] eqn:Eq; [lia|..].
Qed.

Lemma pushed_queue st resource id type data x : heaps_ok st -> let k := queueKey resource id in
  queue_of (pushed st resource id type data) x = if decide (x = k) then queue_of st k ++ [length (writes st)] else queue_of st x.
Proof.
  intros Hh k. pose proof (pushed_get st resource id type data x) as Hx. cbv zeta in Hx. fold k in Hx. case_decide as Heq.
  - rewrite (queue_of_some _ _ _ Hx), pushed_array by done. fold k. by rewrite decide_True.
  - destruct (jget x (writeQueues st)) as [q|] eqn:E; [|by rewrite !queue_of_none].
    rewrite (queue_of_some _ _ _ Hx), (queue_of_some _ _ _ E), pushed_array by done. fold k. rewrite decide_False; [done|].
    destruct (jget k (writeQueues st)) as [q0|] eqn:Ek; cbn.
    + intros ->. destruct Heq. by apply (hp_inj _ Hh x k q0).
    + intros ->. apply (hp_arrays _ Hh) in E. lia.
Qed.

Lemma pushed_heaps st resource id type data : heaps_ok st -> heaps_ok (pushed st resource id type data).
Proof.
  intros Hh. set (k := queueKey resource id). set (st' := pushed st resource id type data).
  assert (forall x, jget x (writeQueues st') = if decide (x = k) then Some (default (length (arrays st)) (jget k (writeQueues st))) else jget x (writeQueues st)) as Hget by (intros x; apply pushed_get).
  assert ((length (arrays st) <= length (arrays st'))%nat /\ (jget k (writeQueues st) = None -> length (arrays st') = S (length (arrays st)))) as [Hlen1 Hlen2].
  { unfold st', pushed. fold k. destruct (jget k (writeQueues st)); cbn [arrays]; [rewrite length_insert|rewrite length_app; cbn]; split; [lia|done|lia|lia]. }
  split.
  - unfold st', pushed. fold k. by destruct (jget k (writeQueues st)); apply jset_nodup, Hh.
  - intros x q. rewrite Hget. case_decide.
    + intros [= <-]. destruct (jget k (writeQueues st)) as [q0|] eqn:E; cbn; [apply (hp_arrays _ Hh) in E; lia|]. rewrite Hlen2 by done. lia.
    + intros Hx%(hp_arrays _ Hh). lia.
  - intros a b q. rewrite !Hget.
    assert (forall x, x <> k -> jget x (writeQueues st) <> Some (default (length (arrays st)) (jget k (writeQueues st)))) as Hne.
    { intros x Hx Heq. destruct (jget k (writeQueues st)) as [q0|] eqn:E; cbn in Heq; [by destruct Hx; apply (hp_inj _ Hh x k q0)|].
      apply (hp_arrays _ Hh) in Heq. lia. }
    repeat case_decide; try congruence; [intros [= <-] Hb; by destruct (Hne b)|intros Ha [= <-]; by destruct (Hne a)|apply (hp_inj _ Hh)].
  - intros x w. assert (length (writes st') = S (length (writes st))) as ->.
    { unfold st', pushed. fold k. destruct (jget k (writeQueues st)); cbn [writes]; rewrite length_app; cbn; lia. }
    unfold st'. rewrite pushed_queue by done. fold k. case_decide.
    + intros [Hw%(hp_writes _ Hh)|Hw%list_elem_of_singleton]%elem_of_app; lia.
    + intros Hw%(hp_writes _ Hh). lia.
  - intros x. rewrite Hget.
    assert (draining st' = set_add k (draining st)) as -> by (unfold st', pushed; fold k; by destruct (jget k (writeQueues st))).
    rewrite set_add_in. case_decide; [by left|]. intros Hx. right. by apply (hp_drained _ Hh).
Qed.

Lemma pushed_holds st resource id type data k' q w : heaps_ok st -> holds st k' q w -> holds (pushed st resource id type data) k' q w.
Proof.
  intros Hh [Hq [rest Hw]]. set (k := queueKey resource id).
  pose proof (pushed_get st resource id type data k') as Hx. cbv zeta in Hx. fold k in Hx.
  pose proof (pushed_queue st resource id type data k' Hh) as Hy. cbv zeta in Hy. fold k in Hy. case_decide as Heq.
  - subst k'. rewrite Hq in Hx. cbn in Hx. split; [done|]. rewrite <-(queue_of_some _ _ _ Hx), Hy, (queue_of_some _ _ _ Hq), Hw. by eexists.
  - rewrite Hq in Hx. split; [done|]. rewrite <-(queue_of_some _ _ _ Hx), Hy, (queue_of_some _ _ _ Hq), Hw. by eexists.
Qed.

Lemma pushed_pending st resource id type data x : heaps_ok st -> let k := queueKey resource id in
  pending (spec_of (pushed st resource id type data)) x =
    if decide (x = k) then pending (spec_of st) k ++ [issued st] else pending (spec_of st) x.
Proof.
  intros Hh k. rewrite !pending_queue, pushed_queue by done. fold k.
  assert (forall w, (w < length (writes st))%nat -> write_at (pushed st resource id type data) w = write_at st w) as Hold.
  { intros w Hw. unfold pushed, write_at. fold k. by destruct (jget k (writeQueues st)); cbn [writes]; rewrite app_nth1. }
  assert (forall y, map (fun w => stamp (write_at (pushed st resource id type data) w)) (queue_of st y) = map (fun w => stamp (write_at st w)) (queue_of st y)) as Hmap.
  { intros y. apply map_ext_in. intros w Hw. rewrite Hold; [done|]. apply (hp_writes _ Hh y). by apply list_elem_of_In. }
  case_decide; [|apply Hmap]. rewrite map_app, Hmap. f_equal. cbn [map]. f_equal.
  unfold pushed, write_at. fold k. by destruct (jget k (writeQueues st)); cbn [writes]; rewrite app_nth2, Nat.sub_diag by lia.
Qed.

Lemma enqueue_pushed st resource id type data : let k := queueKey resource id in
  enqueueWrite st resource id type data =
    if bool_decide (k ∈ draining st) then pushed st resource id type data
    else spawn (drain_top (pushed st resource id type data) k).1 (drain_top (pushed st resource id type data) k).2.
Proof.
  intros k. unfold Client.enqueueWrite, pushed, drainQueue. fold k.
  destruct (jget k (writeQueues st)) as [q|]; cbn [draining storage writeQueues gaveUpWrites arrays writes threads issued settled].
  all: case_bool_decide as Hk; [unfold set_add; by rewrite bool_decide_true|].
  all: by destruct (Client.drain_top _ _ _ _ _ _ _ k).
Qed.

Lemma pushed_shape st resource id type data : threads (pushed st resource id type data) = threads st
  /\ draining (pushed st resource id type data) = set_add (queueKey resource id) (draining st)
  /\ issued (pushed st resource id type data) = S (issued st) /\ settled (pushed st resource id type data) = settled st.
Proof. unfold pushed. by destruct (jget _ (writeQueues st)). Qed.

Lemma pushed_place st resource id type data k p : heaps_ok st -> place_ok st k p -> place_ok (pushed st resource id type data) k p.
Proof. intros Hh. destruct p; cbn; try done; try (by apply pushed_holds). intros [H1 H2]. split; [by apply pushed_holds|done]. Qed.

Lemma enqueue_follows st resource id type data : client_ok st ->
  client_ok (enqueueWrite st resource id type data)
  /\ spec_step (spec_of st) (spec_of (enqueueWrite st resource id type data)).
Proof.
  intros Hok. destruct (Hok) as [Hh Hl H1 Ha]. set (k := queueKey resource id).
  destruct (pushed_shape st resource id type data) as (Ht & Hd & Hi & Hs). fold k in Hd.
  pose proof (pushed_heaps st resource id type data Hh) as Hh'.
  assert (forall st', (forall x, pending (spec_of st') x = pending (spec_of (pushed st resource id type data)) x) ->
    issued st' = S (issued st) -> settled st' = settled st -> spec_step (spec_of st) (spec_of st')) as Hspec.
  { intros st' Hp Hi' Hs'. apply (spec_make _ _ k); cbn [made done_ spec_of]; [| |done|done].
    - rewrite Hp, pushed_pending by done. fold k. by rewrite decide_True.
    - intros x Hx. rewrite Hp, pushed_pending by done. fold k. by rewrite decide_False. }
  pose proof (enqueue_pushed st resource id type data) as Heq. cbv zeta in Heq. fold k in Heq. rewrite Heq. clear Heq.
  case_bool_decide as Hk.
  - split; [|by apply Hspec]. assert (draining (pushed st resource id type data) = draining st) as Hd'.
    { rewrite Hd. unfold set_add. by rewrite bool_decide_true. }
    split; [done|..]; rewrite ?Ht, ?Hd'; [|exact H1|exact Ha].
    intros i k' p Hi'. destruct (Hl _ _ _ Hi') as [Hk' Hp]. split; [done|by apply pushed_place].
  - set (ts := threads st ++ [Finished]).
    assert (running (set_threads (pushed st resource id type data) ts) (length (threads st)) k) as Hr.
    { assert (forall j k' p, threads (set_threads (pushed st resource id type data) ts) !! j = Some (Draining k' p) -> threads st !! j = Some (Draining k' p)) as Hts.
      { intros j k' p Hj. by apply (spawn_threads st Finished) in Hj. }
      split; cbn [draining threads set_threads].
      - by destruct Hh'; split.
      - rewrite Hd. split; [apply set_add_in; by left|]. unfold ts. rewrite length_app. cbn. lia.
      - intros j k' p _ Hj%Hts. destruct (Hl _ _ _ Hj) as [Hk' Hp]. rewrite Hd. split; [by intros ->|]. split; [apply set_add_in; by right|].
        apply (pushed_place st resource id type data) in Hp; [|done]. exact Hp.
      - intros j j' k' p p' _ _ Hj%Hts Hj'%Hts. by eapply H1.
      - intros k' Hk'. rewrite Hd in Hk'. apply set_add_in in Hk' as [->|Hk']; [by left|right].
        destruct (Ha _ Hk') as (j & p & Hj). exists j, p. split; [apply lookup_lt_Some in Hj; lia|]. by apply lookup_app_l_Some. }
    pose proof (drain_top_ok _ _ _ Hr) as Hdr. rewrite drain_top_threads in Hdr.
    destruct (drain_top (pushed st resource id type data) k) as [st' t] eqn:E. cbn [fst snd] in Hdr |- *.
    destruct Hdr as (Hok' & Hp & Hi' & Hs').
    assert (set_thread (set_threads st' ts) (length (threads st)) t = spawn st' t) as Hsp.
    { unfold set_thread, spawn, set_threads. cbn. f_equal. unfold ts.
      assert (threads st' = threads st) as ->.
      { rewrite <-Ht. pose proof (drain_top_threads (pushed st resource id type data) (threads (pushed st resource id type data)) k) as Hq.
        rewrite E in Hq. cbn [fst snd] in Hq. replace (set_threads (pushed st resource id type data) (threads (pushed st resource id type data))) with (pushed st resource id type data) in Hq by (by destruct (pushed st resource id type data)).
        rewrite E in Hq. injection Hq as Hq. rewrite Hq. done. }
      rewrite insert_app_r_alt by lia. by rewrite Nat.sub_diag. }
    rewrite Hsp in Hok', Hp. split; [done|]. apply Hspec; [exact Hp| |]; cbn [issued settled spawn set_threads]; [by rewrite <-Hi|by rewrite <-Hs].
Qed.

(** A write settles under another id than its own while another loop is at
    work on the record of that id: after [draining.delete(k)] the set still
    holds the key that the loop goes on with. *)
Definition collides (st : State) (e : Event) : bool :=
  match e with
  | Resume i =>
      match threads st !! i with
      | Some (Draining k (Storing q w id)) =>
          let write := write_at st w in
          negb (jeqb id (w_id write))
          && bool_decide (queueKey (w_resource write) id ∈ List.filter (fun x => negb (jeqb x k)) (draining st))
      | _ => false
      end
  | _ => false
  end.

Lemma collides_free st i k q w id : threads st !! i = Some (Draining k (Storing q w id)) -> collides st (Resume i) = false ->
  free_target st k w id.
Proof.
  intros Hi. cbn. rewrite Hi. unfold jeqb at 1. rewrite andb_false_iff, negb_false_iff, bool_decide_eq_true, bool_decide_eq_false, filter_ne.
  unfold free_target. intros [->|H]; [by left|right]. destruct (decide (queueKey (w_resource (write_at st w)) id = k)); [by left|right; tauto].
Qed.

Lemma collides_joins st e st' : client_ok st -> collides st e = true -> step st e = Some st' -> spec_join (spec_of st) (spec_of st').
Proof.
  intros Hok. destruct e as [| | | |i]; try done. cbn [collides Client.step]. unfold resume_thread.
  destruct (threads st !! i) as [[| |k [| | | |q w id|]|]|] eqn:Ei; try done.
  intros [Hid Hk]%andb_true_iff. apply negb_true_iff in Hid. unfold jeqb in Hid. apply bool_decide_eq_false in Hid.
  apply bool_decide_eq_true, filter_ne in Hk as [_ Hk]. destruct (client_running _ _ _ _ Hok Ei) as [Hr Hp].
  cbn [mbind option_bind Client.resume]. pose proof (outcome_joins st i k q w id Hr Hp Hid Hk) as Hj.
  destruct (after_outcome st k q w (succeeded id)) as [st1 t]. by intros [= <-].
Qed.

Lemma step_follows st e st' : client_ok st -> collides st e = false -> step st e = Some st' ->
  client_ok st' /\ spec_step (spec_of st) (spec_of st').
Proof.
  intros Hok Hcalm.
  assert (forall st1 ts, same_queues st st1 ->
    (forall j k p, ts !! j = Some (Draining k p) <-> threads st !! j = Some (Draining k p)) ->
    client_ok (set_threads st1 ts) /\ spec_step (spec_of st) (spec_of (set_threads st1 ts))) as Hother.
  { intros st1 ts Hs Hts. split; [by eapply other_threads|]. apply spec_idle; [intros k; exact (same_pending _ _ k Hs)|by destruct Hs..]. }
  destruct e as [resource data uuid|resource id data|resource id|i r|i]; cbn [Client.step].
  - unfold call_create. destruct (resolveRoute _ _) as [route|]; [|done]. intros [= <-].
    apply Hother; [apply same_storage|]. intros j k p. by apply (spawn_threads st).
  - unfold call_update. destruct (resolveRoute _ _) as [route|]; [|done]. intros [= <-].
    apply Hother; [apply same_refl|]. intros j k p. by apply (spawn_threads st).
  - unfold call_remove. destruct (resolveRoute _ _) as [route|]; [|done]. intros [= <-].
    apply Hother; [apply same_storage|]. intros j k p. by apply (spawn_threads st).
  - destruct (threads st !! i) as [[| |k []|]|] eqn:Ei; cbn [mbind option_bind]; try done.
    destruct (client_running _ _ _ _ Hok Ei) as [Hr Hp]. pose proof (answered_follows st i k q w r Hr Hp) as [H1 H2].
    destruct (answered st k q w r) as [st1 t]. by intros [= <-].
  - unfold resume_thread. destruct (threads st !! i) as [[resource id data existing|resource id type data|k p|]|] eqn:Ei; cbn [mbind option_bind]; try done.
    + intros [= <-]. apply Hother; [apply same_storage|]. intros j k p. by eapply (insert_threads st).
    + intros [= <-]. assert (client_ok (set_thread st i Finished) /\ spec_step (spec_of st) (spec_of (set_thread st i Finished))) as [H1 _].
      { apply Hother; [apply same_refl|]. intros j k p. by eapply (insert_threads st). }
      apply (enqueue_follows (set_thread st i Finished) resource id type data H1).
    + destruct (client_running _ _ _ _ Hok Ei) as [Hr Hp].
      destruct (resume st k p) as [r|] eqn:Er; [|done]. cbn [mbind option_bind].
      destruct (resume_follows st i k p r Hr Hp ltac:(intros q w id ->; by eapply collides_free) Er) as [H1 H2].
      destruct r as [st1 t]. by intros [= <-].
Qed.

(** ** Runs *)

(** The states a new client comes to, and whether two loops have collided on the way. *)
Inductive reachable : bool -> State -> Prop :=
| reach_new s : reachable false (new_client s)
| reach_step c st e st' : reachable c st -> step st e = Some st' -> reachable (c || collides st e) st'.

Lemma new_client_ok s : client_ok (new_client s).
Proof.
  split; [split|..]; cbn.
  - constructor.
  - done.
  - done.
  - intros k w Hw. cbn in Hw. by apply elem_of_nil in Hw.
  - by intros k [x Hx].
  - done.
  - done.
  - intros k Hk. by apply elem_of_nil in Hk.
Qed.

Lemma reachable_ind_ok (P : State -> Prop) : (forall s, P (new_client s)) ->
  (forall st e st', client_ok st -> P st -> collides st e = false -> step st e = Some st' -> client_ok st' -> spec_step (spec_of st) (spec_of st') -> P st') ->
  forall c st, reachable c st -> c = false -> client_ok st /\ P st.
Proof.
  intros Hnew Hstep c st Hr. induction Hr as [s|c st e st' _ IH Hs]; [intros _; split; [apply new_client_ok|apply Hnew]|].
  intros [Hc He]%orb_false_iff. destruct (IH Hc) as [Hok HP]. destruct (step_follows st e st' Hok He Hs) as [Hok' Hspec]. split; [done|].
  exact (Hstep st e st' Hok HP He Hs Hok' Hspec).
Qed.

Lemma client_reachable_ok st : reachable false st -> client_ok st.
Proof. intros Hr. by apply (reachable_ind_ok (fun _ => True) ltac:(done) ltac:(done) false st). Qed.

(** C10 (refinement). A client is a queue of writes per record.  Until two
    loops have met at one record, every step of it, a call of the application,
    an answer of the server or the resumption of a call in flight, is a step
    of the specification: nothing, a write added at the end of its record's
    queue, the oldest write of one queue done with, or that and the rest of
    the queue moved to the id that the server gave the record, under which
    nothing is queued.  The loops meet where a creation settles under an id
    that another loop is already at work on: that step, and no other, joins
    the two queues, the created record's rest behind the other's, and leaves
    two loops with one queue.  What follows it is no longer a queue per record
    and not stated. *)
Theorem client_refines_queues st e st' (Hr : reachable false st) :
  step st e = Some st' ->
  if collides st e then spec_join (spec_of st) (spec_of st') else spec_step (spec_of st) (spec_of st').
Proof.
  intros Hs. apply client_reachable_ok in Hr. destruct (collides st e) eqn:E; [by eapply collides_joins|by eapply step_follows].
Qed.

(** Every write made is done with or queued, once, and queues are in the order of making. *)
Record spec_ok (a : Spec) : Prop := {
  so_made : forall n, (n < made a)%nat -> n ∈ done_ a \/ exists k, n ∈ pending a k;
  so_done : NoDup (done_ a) /\ forall n, n ∈ done_ a -> (n < made a)%nat;
  so_queued : forall k n, n ∈ pending a k -> (n < made a)%nat /\ n ∉ done_ a;
  so_one : forall k k' n, n ∈ pending a k -> n ∈ pending a k' -> k = k';
  so_sorted : forall k, StronglySorted Nat.lt (pending a k);
}.

Lemma increasing_snoc (l : list nat) x : StronglySorted Nat.lt l -> (forall y, y ∈ l -> y < x)%nat -> StronglySorted Nat.lt (l ++ [x]).
Proof.
  induction 1 as [|y l Hl IH Hy]; intros Hx; cbn; [by repeat constructor|]. constructor.
  - apply IH. intros z Hz. apply Hx. by right.
  - apply Forall_app. split; [done|]. constructor; [apply Hx; by left|done].
Qed.

Lemma spec_step_ok a b : spec_ok a -> spec_step a b -> spec_ok b.
Proof.
  intros [H1 [H2 H2'] H3 H4 H5] [G1 G2 G3|k G1 G2 G3 G4|k s G1 G2 G3 G4|k k' s G0 G1 G2 G3 G4 G5 G6].
  - split; [|rewrite G3; split; [done|]| | |]; intros *; rewrite ?G1, ?G2, ?G3; eauto.
    intros Hn. destruct (H1 _ Hn) as [|[k Hk]]; [by left|right; exists k; by rewrite G1].
  - assert (forall x n, n ∈ pending b x <-> n ∈ pending a x \/ (x = k /\ n = made a)) as Hp.
    { intros x n. destruct (decide (x = k)) as [->|Hx]; [rewrite G1, elem_of_app, list_elem_of_singleton|rewrite G2 by done]; naive_solver. }
    split; rewrite ?G3, ?G4.
    + intros n Hn. destruct (decide (n = made a)) as [->|Hne]; [right; exists k; apply Hp; by right|].
      destruct (H1 n ltac:(lia)) as [|[x Hx]]; [by left|right; exists x; apply Hp; by left].
    + split; [done|]. intros n Hn%H2'. lia.
    + intros x n [Hn|[-> ->]]%Hp; [apply H3 in Hn as [? ?]; split; [lia|done]|]. split; [lia|]. intros Hd%H2'. lia.
    + intros x y n [Hx|[-> ->]]%Hp [Hy|[-> E]]%Hp; [by eapply H4|apply H3 in Hx as [? _]; lia|apply H3 in Hy as [? _]; lia|done].
    + intros x. destruct (decide (x = k)) as [->|Hx]; [rewrite G1; apply increasing_snoc; [apply H5|intros y Hy; by apply (H3 k)]|rewrite G2 by done; apply H5].
  - pose proof (H5 k) as Hs. rewrite G1 in Hs. apply StronglySorted_inv in Hs as [Hs Hall]. rewrite Forall_forall in Hall.
    assert (s ∈ pending a k) as Hin by (rewrite G1; by left). destruct (H3 _ _ Hin) as [Hlt Hnd].
    assert (forall x n, n ∈ pending b x <-> n ∈ pending a x /\ n <> s) as Hp.
    { intros x n. destruct (decide (x = k)) as [->|Hx].
      - rewrite G1, elem_of_cons. split; [intros Hn; split; [by right|apply Hall in Hn; lia]|intros [[->|?] ?]; done].
      - rewrite G2 by done. split; [|by intros [? _]]. intros Hn. split; [done|]. intros ->. destruct Hx. by apply (H4 x k s). }
    split; rewrite ?G3, ?G4.
    + intros n Hn. destruct (H1 n Hn) as [|[x Hx]]; [left; apply elem_of_app; by left|].
      destruct (decide (n = s)) as [->|Hne]; [left; apply elem_of_app; right; by left|right; exists x; by apply Hp].
    + split; [apply NoDup_app; split; [done|]; split; [intros n Hn ->%list_elem_of_singleton; done|apply NoDup_singleton]|].
      intros n [Hn| ->%list_elem_of_singleton]%elem_of_app; [by apply H2'|done].
    + intros x n [Hn Hne]%Hp. apply H3 in Hn as [? ?]. split; [done|]. rewrite elem_of_app, list_elem_of_singleton. tauto.
    + intros x y n [Hx _]%Hp [Hy _]%Hp. by eapply H4.
    + intros x. destruct (decide (x = k)) as [->|Hx]; [done|rewrite G2 by done; apply H5].
  - pose proof (H5 k) as Hs. rewrite G1 in Hs. apply StronglySorted_inv in Hs as [Hs Hall]. rewrite Forall_forall in Hall.
    assert (s ∈ pending a k) as Hin by (rewrite G1; by left). destruct (H3 _ _ Hin) as [Hlt Hnd].
    assert (forall n, n ∈ pending b k' -> n ∈ pending a k /\ n <> s) as Hk'.
    { intros n Hn. split; [rewrite G1; by right|]. apply Hall in Hn. lia. }
    assert (forall x n, n ∈ pending b x -> x = k' \/ (x <> k /\ n ∈ pending a x)) as Hp.
    { intros x n Hn. destruct (decide (x = k')) as [->|Hx']; [by left|]. destruct (decide (x = k)) as [->|Hx]; [rewrite G3 in Hn; by apply elem_of_nil in Hn|].
      right. by rewrite G4 in Hn. }
    split; rewrite ?G5, ?G6.
    + intros n Hn. destruct (H1 n Hn) as [|[x Hx]]; [left; apply elem_of_app; by left|].
      destruct (decide (x = k)) as [->|Hxk].
      * rewrite G1 in Hx. apply elem_of_cons in Hx as [->|Hx]; [left; apply elem_of_app; right; by left|right; by exists k'].
      * right. exists x. rewrite G4; [done|done|]. intros ->. rewrite G2 in Hx. by apply elem_of_nil in Hx.
    + split; [apply NoDup_app; split; [done|]; split; [intros n Hn ->%list_elem_of_singleton; done|apply NoDup_singleton]|].
      intros n [Hn| ->%list_elem_of_singleton]%elem_of_app; [by apply H2'|done].
    + intros x n Hn. rewrite elem_of_app, list_elem_of_singleton.
      destruct (Hp x n Hn) as [->|[Hx Hin']]; [apply Hk' in Hn as [Hn ?]; apply H3 in Hn; tauto|].
      pose proof (H3 _ _ Hin') as [? ?]. split; [done|]. intros [?| ->]; [done|]. destruct Hx. by apply (H4 x k s).
    + intros x y n Hx Hy. destruct (Hp x n Hx) as [->|[Hxk Hx2]], (Hp y n Hy) as [->|[Hyk Hy2]]; [done| | |by eapply H4].
      * apply Hk' in Hx as [Hx _]. destruct Hyk. by apply (H4 y k n).
      * apply Hk' in Hy as [Hy _]. destruct Hxk. by apply (H4 x k n).
    + intros x. destruct (decide (x = k')) as [->|Hx']; [done|]. destruct (decide (x = k)) as [->|Hx]; [rewrite G3; constructor|rewrite G4 by done; apply H5].
Qed.

Lemma new_spec_ok s : spec_ok (spec_of (new_client s)).
Proof.
  split; cbn.
  - intros n Hn. lia.
  - split; [constructor|]. intros n Hn. by apply elem_of_nil in Hn.
  - intros k n Hn. by apply elem_of_nil in Hn.
  - intros k k' n Hn. by apply elem_of_nil in Hn.
  - constructor.
Qed.

Lemma reachable_spec st : reachable false st -> spec_ok (spec_of st).
Proof.
  intros Hr. apply (reachable_ind_ok (fun st => spec_ok (spec_of st)) new_spec_ok) with (c := false); [|done..].
  intros st1 e st2 _ IH _ _ _ Hs. by eapply spec_step_ok.
Qed.

End Queues.

(** ** Pets *)

Module Demo.
Import Pages.Demo.

Definition pets : ResourceRoute := mkRoute (js "/pets") (js "/pets/{petId}") (js "petId") PUT.
Definition named (n : string) : fields_map := [(js "name", OStr (js n))].
Definition pet (id n : string) : Json := OObj [(js "id", OStr (js id)); (js "name", OStr (js n))].

Definition step_ := step text_urls (js "api.example/") [pets] (js "id") 200 30000 None.
Definition play (es : list Event) : option State := Client.run text_urls (js "api.example/") [pets] (js "id") 200 30000 None (new_client []) es.

Definition urls_reachable := reachable text_urls (js "api.example/") [pets] (js "id") 200 30000 None.

(** A run, and whether two loops have collided in it. *)
Fixpoint play_from (c : bool) (st : State) (es : list Event) : option (bool * State) :=
  match es with
  | [] => Some (c, st)
  | e :: es => st' ← step_ st e; play_from (c || collides st e) st' es
  end.

Lemma play_reachable es : forall c st c' st', urls_reachable c st -> play_from c st es = Some (c', st') -> urls_reachable c' st'.
Proof.
  induction es as [|e es IH]; intros c st c' st' Hr; [by intros [= <- <-]|]. cbn [play_from].
  destruct (step_ st e) as [st1|] eqn:E; [|done]. cbn [mbind option_bind]. apply IH. by eapply reach_step.
Qed.

(** A pet is created and renamed before the server answers with its own id;
    the request fails once. *)
Definition create_and_rename : list Event :=
  [Create (js "/pets") (named "Rex") (js "u1"); Resume 0;
   Update (js "/pets") (js "u1") (named "Max"); Resume 2; Resume 2;
   Answer 1 (Err (js "offline")); Resume 1;
   Answer 1 (Ok (Some (pet "p7" "Rex"))); Resume 1].

Definition moved : State := default (new_client []) (play create_and_rename).

Lemma moved_reachable : urls_reachable false moved.
Proof. apply (play_reachable create_and_rename false (new_client [])); [constructor|]. vm_compute. reflexivity. Qed.

(** The rename then follows the pet to the server's id. *)
Definition settled_create : State := default moved (step_ moved (Resume 1)).

Example rename_moves : pendingWrites [pets] settled_create None
  = Some [mkInfo (js "/pets") (js "p7") update 0 None]
  /\ storage settled_create = [(js "/pets", [(js "p7", Some (pet "p7" "Rex"))])].
Proof. split; vm_compute; reflexivity. Qed.

Lemma client_refines_queues_witness : spec_step (spec_of moved) (spec_of settled_create).
Proof.
  apply (client_refines_queues text_urls (js "api.example/") [pets] (js "id") 200 30000 None moved (Resume 1) settled_create moved_reachable).
  vm_compute. reflexivity.
Defined.


(** The application has seen the server's id before the client has, and
    renames the pet under it while the rename under the local id waits: the two
    loops share the key, the second rename is sent twice, the first is lost,
    and nothing is pending.  [collides] is true at one step of it. *)
Definition collision : list Event :=
  [Create (js "/pets") (named "Rex") (js "u1"); Resume 0;
   Update (js "/pets") (js "u1") (named "Max"); Resume 2; Resume 2;
   Update (js "/pets") (js "p7") (named "Bo"); Resume 3; Resume 3;
   Answer 1 (Ok (Some (pet "p7" "Rex"))); Resume 1; Resume 1;
   Answer 4 (Ok (Some (pet "p7" "Bo"))); Resume 4;
   Answer 1 (Ok (Some (pet "p7" "Bo"))); Resume 1].

Example queued_write_lost : exists st, play_from false (new_client []) collision = Some (true, st) /\ issued st = 3%nat /\ settled st = [0; 2; 2]%nat
  /\ pendingWrites [pets] st None = Some [] /\ Forall (eq Finished) (threads st).
Proof. eexists. split; [vm_compute; reflexivity|]. repeat split; try (vm_compute; reflexivity). repeat constructor. Qed.

(** An update that the server answers with no content leaves [undefined] in
    the local copy, and a creation so answered is sent again. *)
Example no_content_erases : exists st, play [Update (js "/pets") (js "p7") (named "Bo"); Resume 0; Resume 0; Answer 1 (Ok None)] = Some st
  /\ storage st = [(js "/pets", [(js "p7", None)])].
Proof. eexists. split; vm_compute; reflexivity. Qed.

Example no_content_repeats : exists st, play [Create (js "/pets") (named "Rex") (js "u1"); Resume 0; Answer 1 (Ok None); Resume 1] = Some st
  /\ threads st = [Finished; Draining (js "/pets:u1") (Sent 0 0)].
Proof. eexists. split; vm_compute; reflexivity. Qed.
End Demo.
