(* ===== verification/ClientSync.v ===== *)
(** * Synchronising whole collections

    Models the reading side of [src/syncables/src/client/client.ts]:
    conditional requests, the comparison with the last synchronisation, the
    pages of a list, and the polling timer.

    The network is a function of the world [S]: the request's URL and headers
    to a response with its status, its headers under lower-case names, and its
    text, empty or what [JSON.parse] makes of it.  Items are objects, as the
    types promise.  A synchronisation runs by itself; the writes of [Client]
    that may run between its requests are not interleaved here. *)
From S2P Require Import Prelude Text Collections Uri Json Pagination Pages Resources Client.
Local Open Scope Z_scope.

(** The text of a response: [None] when [JSON.parse] throws. *)
Inductive Text := NoText | Parsed (v : option Json).

Record Response := mkResponse { status : Z; headers : list (jstr * jstr); text : Text }.
Definition ok (r : Response) : bool := (200 <=? status r) && (status r <? 300).

(** What the last response to a URL said of its version. *)
Record Conditional := mkConditional { c_etag : option jstr; c_lastModified : option jstr }.

(* src: syncables/src/client/client.ts 149-149 MAX_PAGES *)
Definition MAX_PAGES : nat := 50.

(* src: syncables/src/client/client.ts 151-166 CHANGE_INDICATOR_FIELDS *)
Definition CHANGE_INDICATOR_FIELDS : list jstr :=
  map js ["updatedAt"; "updated_at"; "modifiedAt"; "modified_at"; "version"; "revision"; "_rev"; "etag"]%string.

(* src: syncables/src/client/client.ts 168-175 itemFingerprint *)
Definition itemFingerprint (item : Json) : jstr :=
  match List.find (fun field => has_key field (entries_of (Some item))) CHANGE_INDICATOR_FIELDS with
  | Some field => field ++ js ":" ++ default [] (String_of <$> member field item)
  | None => json_text item
  end.

(** [String(item[idField])]. *)
Definition id_of (idField : jstr) (item : Json) : jstr :=
  match member idField item with Some v => String_of v | None => js "undefined" end.

(* src: syncables/src/client/client.ts 177-197 hasChanges *)
Definition hasChanges (previous : option (list Json)) (next : list Json) (idField : jstr) : bool :=
  match previous with
  | None => true
  | Some previous =>
      if negb (length previous =? length next)%nat then true
      else
        let previousById := jmap_of (map (fun item => (id_of idField item, item)) previous) in
        existsb (fun item => match jget (id_of idField item) previousById with
                             | None => true
                             | Some m => negb (jeqb (itemFingerprint m) (itemFingerprint item))
                             end) next
  end.

(* src: syncables/src/client/client.ts 199-206 extractItemsFromEnvelope *)
Definition extractItemsFromEnvelope (body : Json) (responseSchema : option Json) : list Json :=
  match locateItemsField responseSchema None with
  | None | Some [] => []
  | Some field => elements_of (member field body)
  end.

(** The schema of an operation's responses. *)
Definition response_schema_of (operation : option Json) : option Json :=
  json_schema (omember (js "200") (omember (js "responses") operation)).

Section Sync.
Context {U S : Type} (api : UrlApi U).
Context (fetch : S -> jstr -> list (jstr * jstr) -> S * res jstr Response) (other_number : jstr -> option Z).
Context (document : Json) (baseUrl idField : jstr).

(** The variables of the client that a synchronisation uses. *)
(* src: syncables/src/client/client.ts 254-261 createApiClient ! *)
Record SyncState := mkSync {
  world : S;
  local : Storage;
  conditionalCache : list (jstr * Conditional);
  lastSyncedItems : list (jstr * list Json);
}.
Definition set_world (st : SyncState) (s : S) : SyncState := mkSync s (local st) (conditionalCache st) (lastSyncedItems st).

Definition failed_request (url : jstr) (r : Response) : jstr :=
  js "Request to " ++ url ++ js " failed with status " ++ dec_signed (status r).

Definition invalid_json : jstr := js "Invalid JSON".

(* src: syncables/src/client/client.ts 440-460 requestJsonWithHeaders *)
Definition requestJsonWithHeaders (s : S) (url : jstr) : S * res jstr (Json * list (jstr * jstr)) :=
  match fetch s url [] with
  | (s, Err e) => (s, Err e)
  | (s, Ok r) =>
      (s, if negb (ok r) then Err (failed_request url r)
          else match text r with
               | NoText => Ok (OObj [], headers r)
               | Parsed None => Err invalid_json
               | Parsed (Some (OObj m)) => Ok (OObj m, headers r)
               | Parsed (Some (OArr l)) => Ok (OArr l, headers r)
               | Parsed (Some _) => Ok (OObj [], headers r)
               end)
  end.

(** A header that is not empty. *)
Definition present (v : option jstr) : option jstr := match v with Some [] => None | _ => v end.

(* src: syncables/src/client/client.ts 477-484 fetchCollectionSnapshot ! *)
Definition conditional_headers (cached : option Conditional) : list (jstr * jstr) :=
  match cached with
  | None => []
  | Some c =>
      (match present (c_etag c) with Some e => [(js "If-None-Match", e)] | None => [] end) ++
      (match present (c_lastModified c) with Some m => [(js "If-Modified-Since", m)] | None => [] end)
  end.

(* src: syncables/src/client/client.ts 503-511 fetchCollectionSnapshot ! *)
Definition remember (cache : list (jstr * Conditional)) (url : jstr) (r : Response) : list (jstr * Conditional) :=
  match present (jget (js "etag") (headers r)), present (jget (js "last-modified") (headers r)) with
  | None, None => jdelete url cache
  | e, m => jset url (mkConditional e m) cache
  end.

(** The items of a collection, or [None] when they have not been modified. *)
(* src: syncables/src/client/client.ts 462-524 fetchCollectionSnapshot *)
Definition fetchCollectionSnapshot (route : ResourceRoute) (operation : option Json) (st : SyncState)
    : SyncState * res jstr (option (list Json)) :=
  match collectionUrl api baseUrl route with
  | Err e => (st, Err e)
  | Ok url =>
      match fetch (world st) url (conditional_headers (jget url (conditionalCache st))) with
      | (s, Err e) => (set_world st s, Err e)
      | (s, Ok r) =>
          if status r =? 304 then (set_world st s, Ok None)
          else if negb (ok r) then (set_world st s, Err (failed_request url r))
          else
            let st := mkSync s (local st) (remember (conditionalCache st) url r) (lastSyncedItems st) in
            (st, match text r with
                 | NoText => Ok (Some (extractItemsFromEnvelope (OObj []) (response_schema_of operation)))
                 | Parsed None => Err invalid_json
                 | Parsed (Some (OArr l)) => Ok (Some l)
                 | Parsed (Some ONull) =>
                     match locateItemsField (response_schema_of operation) None with
                     | None | Some [] => Ok (Some [])
                     | Some _ => Err (js "Cannot read properties of null")
                     end
                 | Parsed (Some body) => Ok (Some (extractItemsFromEnvelope body (response_schema_of operation)))
                 end)
      end
  end.

(** ** The pages of a list *)

(** The items of a page's body. *)
Definition page_items (itemsField : option jstr) (body : Json) : option (list Json) :=
  match body with
  | OArr l => Some l
  | _ => match itemsField with
         | None | Some [] => None
         | Some f => match member f body with Some (OArr l) => Some l | _ => None end
         end
  end.

(** The URL of a page that no link leads to. *)
Definition query_url (path : jstr) (query : list (jstr * jstr)) : res jstr jstr :=
  match (base ← parse_url api baseUrl; resolve api path base) with
  | Some u => Ok (href api (fold_left (fun u p => set_param api u p.1 p.2) query u))
  | None => Err (js "Invalid URL")
  end.

(* src: syncables/src/client/client.ts 568-616 fetchAllItems ! *)
Fixpoint fetch_pages (pages : nat) (path : jstr) (scheme : Json) (itemsField : option jstr) (pageSize : option Z)
    (cursor : PageCursor) (nextUrl : option jstr) (items : list Json) (s : S) : S * res jstr (list Json) :=
  match pages with
  | O => (s, Ok items)
  | Datatypes.S pages =>
      match (match nextUrl with
             | None | Some [] => query_url path (buildQuery scheme cursor pageSize)
             | Some u => Ok u
             end) with
      | Err e => (s, Err e)
      | Ok url =>
          match requestJsonWithHeaders s url with
          | (s, Err e) => (s, Err e)
          | (s, Ok (body, headers)) =>
              let found := page_items itemsField body in
              let items := items ++ default [] found in
              let state := parsePaginationState other_number scheme body headers (Some (Z.of_nat (length items))) in
              if negb (hasNextPage state) then (s, Ok items)
              else if jeqb (type_of scheme) (js "nextLink") then
                match nextLink state with
                | None | Some [] => (s, Ok items)
                | Some l => fetch_pages pages path scheme itemsField pageSize cursor (Some l) items s
                end
              else
                match nextCursor scheme cursor state (Z.of_nat (length (default [] found))) with
                | None => (s, Ok items)
                | Some c => fetch_pages pages path scheme itemsField pageSize c None items s
                end
          end
      end
  end.

(* src: syncables/src/client/client.ts 537-619 fetchAllItems *)
Definition fetchAllItems (path : jstr) (operation : Json) (pageSize : option Z) (s : S) : S * res jstr (list Json) :=
  let responseSchema := response_schema_of (Some operation) in
  match resolveEffectiveScheme document operation with
  | None =>
      match query_url path [] with
      | Err e => (s, Err e)
      | Ok url =>
          match requestJsonWithHeaders s url with
          | (s, Err e) => (s, Err e)
          | (s, Ok (body, _)) => (s, Ok (default [] (page_items (locateItemsField responseSchema None) body)))
          end
      end
  | Some effective =>
      fetch_pages MAX_PAGES path (scheme effective) (locateItemsField responseSchema (Some (scheme effective))) pageSize no_cursor None [] s
  end.

(** [document.paths[template]?.get]. *)
Definition get_operation (template : jstr) : option Json :=
  omember (js "get") (omember template (member (js "paths") document)).

(* src: syncables/src/client/client.ts 526-535 findGetOperation *)
Definition findGetOperation (path : jstr) : res jstr (option (Json * jstr)) :=
  m ← findRoute (jkeys (entries_of (member (js "paths") document))) path;
  Ok (m ← m; operation ← get_operation (template m);
      if truthy_json (Some operation) then Some (operation, template m) else None).

(* src: syncables/src/client/client.ts 783-792 paginate ! *)
Definition paginate (path : jstr) (pageSize : option Z) (s : S) : S * res jstr (list Json) :=
  match findGetOperation path with
  | Err e => (s, Err e)
  | Ok None => (s, Err (js "No GET operation found for path " ++ [34] ++ path ++ [34]))
  | Ok (Some (operation, _)) => fetchAllItems path operation pageSize s
  end.

(** ** Storing what was fetched *)

(** The fetched items, and without those that the last synchronisation had more. *)
(* src: syncables/src/client/client.ts 656-667 performSync ! *)
Definition store_items (path : jstr) (previous : option (list Json)) (items : list Json) (local : Storage) : Storage :=
  let local := fold_left (fun l item => storage_put l path (id_of idField item) (Some item)) items local in
  match previous with
  | None => local
  | Some previous =>
      let nextIds := map (id_of idField) items in
      fold_left (fun l stale => if bool_decide (id_of idField stale ∈ nextIds) then l
                                else storage_delete l path (id_of idField stale)) previous local
  end.

(** One resource: whether its local copy changed. *)
(* src: syncables/src/client/client.ts 651-669 performSync ! *)
Definition take_snapshot (path : jstr) (items : list Json) (st : SyncState) : SyncState * bool :=
  let previous := jget path (lastSyncedItems st) in
  let changed := hasChanges previous items idField in
  (mkSync (world st) (if changed then store_items path previous items (local st) else local st)
     (conditionalCache st) (jset path items (lastSyncedItems st)), changed).

(** The items of a resource, unless they have not been modified. *)
(* src: syncables/src/client/client.ts 633-647 performSync ! *)
Definition fetch_resource (route : ResourceRoute) (st : SyncState) : SyncState * res jstr (option (list Json)) :=
  let operation := get_operation (collectionPath route) in
  match operation with
  | Some o =>
      if truthy_json (Some o) && bool_decide (is_Some (schemeName <$> resolveEffectiveScheme document o)) then
        let '(s, r) := fetchAllItems (collectionPath route) o None (world st) in
        (set_world st s, match r with Ok l => Ok (Some l) | Err e => Err e end)
      else fetchCollectionSnapshot route operation st
  | None => fetchCollectionSnapshot route operation st
  end.

(* src: syncables/src/client/client.ts 621-672 performSync *)
Fixpoint performSync (routes : list ResourceRoute) (changed : list jstr) (st : SyncState) : SyncState * res jstr (list jstr) :=
  match routes with
  | [] => (st, Ok changed)
  | route :: routes =>
      match fetch_resource route st with
      | (st, Err e) => (st, Err e)
      | (st, Ok None) => performSync routes changed st
      | (st, Ok (Some items)) =>
          let '(st, c) := take_snapshot (collectionPath route) items st in
          performSync routes (if c then changed ++ [collectionPath route] else changed) st
      end
  end.
End Sync.

(** ** Polling *)

(* src: syncables/src/client/client.ts 679-708 startPolling *)
Record Polling := mkPolling { stopped : bool; syncInFlight : bool; started : nat; ended : nat }.

Inductive PollEvent := Tick | SyncEnded | Stop.

(** [started] and [ended] count the synchronisations. *)
Definition poll (p : Polling) (e : PollEvent) : Polling :=
  match e with
  | Tick => if stopped p || syncInFlight p then p else mkPolling (stopped p) true (S (started p)) (ended p)
  | SyncEnded => if syncInFlight p then mkPolling (stopped p) false (started p) (S (ended p)) else p
  | Stop => mkPolling true (syncInFlight p) (started p) (ended p)
  end.

(** ** The local copy mirrors the server *)

Section Mirror.
Context {U S : Type} (api : UrlApi U).
Context (fetch : S -> jstr -> list (jstr * jstr) -> S * res jstr Response) (other_number : jstr -> option Z).
Context (document : Json) (baseUrl idField : jstr).

#[local] Abbreviation id_of := (id_of idField).

(** The local copy of a collection has the records of the last synchronisation,
    no more and no fewer, and none whose fingerprint differs. *)
Record mirrored (local : Storage) (path : jstr) (items : list Json) : Prop := {
  mi_keys : NoDup (jkeys (stored local path));
  mi_ids : forall id, id ∈ jkeys (stored local path) <-> id ∈ map id_of items;
  mi_same : forall item, item ∈ items -> exists v, jget (id_of item) (stored local path) = Some (Some v) /\ itemFingerprint v = itemFingerprint item;
}.

Lemma stored_put local path id v path' :
  stored (storage_put local path id v) path' = if decide (path' = path) then jset id v (stored local path) else stored local path'.
Proof. unfold stored, storage_put. rewrite jget_jset. by case_decide. Qed.

Lemma stored_delete local path id path' :
  stored (storage_delete local path id) path' = if decide (path' = path) then jdelete id (stored local path) else stored local path'.
Proof. unfold stored, storage_delete. rewrite jget_jset. by case_decide. Qed.

(** Storing items: each is found under its id, and nothing else comes. *)
Lemma put_items path items : forall local, NoDup (map id_of items) -> NoDup (jkeys (stored local path)) ->
  let local' := fold_left (fun l item => storage_put l path (id_of item) (Some item)) items local in
  NoDup (jkeys (stored local' path))
  /\ (forall id, id ∈ jkeys (stored local' path) <-> id ∈ jkeys (stored local path) \/ id ∈ map id_of items)
  /\ (forall item, item ∈ items -> jget (id_of item) (stored local' path) = Some (Some item))
  /\ (forall id, id ∉ map id_of items -> jget id (stored local' path) = jget id (stored local path))
  /\ (forall path', path' <> path -> stored local' path' = stored local path').
Proof.
  induction items as [|item items IH]; intros local Hn Hk; cbn [fold_left map].
  { split; [done|]. split; [intros id; split; [by left|by intros [|?%elem_of_nil]]|].
    split; [intros item Hi; by apply elem_of_nil in Hi|done]. }
  apply NoDup_cons in Hn as [Hni Hn].
  pose proof (stored_put local path (id_of item) (Some item)) as Hput.
  destruct (IH (storage_put local path (id_of item) (Some item)) Hn) as (H1 & H2 & H3 & H4 & H5).
  { rewrite Hput, decide_True by done. by apply jset_nodup. }
  split; [done|]. rewrite Hput, decide_True in H2, H4 by done. split; [|split; [|split]].
  - intros id. rewrite H2, elem_of_cons, jkeys_jset. case_decide; [naive_solver|]. rewrite elem_of_app, list_elem_of_singleton. naive_solver.
  - intros x [->|Hx]%elem_of_cons; [|by apply H3]. rewrite H4 by done. by rewrite jget_jset, decide_True.
  - intros id [Hne Hid]%not_elem_of_cons. rewrite H4 by done. by rewrite jget_jset, decide_False.
  - intros path' Hp. rewrite H5 by done. by rewrite Hput, decide_False.
Qed.

(** Deleting the stale ones leaves exactly the others. *)
Lemma delete_stale (path : jstr) (keep : list jstr) previous : forall local, NoDup (jkeys (stored local path)) ->
  let local' := fold_left (fun l stale => if bool_decide (id_of stale ∈ keep) then l else storage_delete l path (id_of stale)) previous local in
  NoDup (jkeys (stored local' path))
  /\ (forall id, jget id (stored local' path) =
       if decide ((id ∉ keep) /\ (id ∈ map id_of previous)) then None else jget id (stored local path))
  /\ (forall path', path' <> path -> stored local' path' = stored local path').
Proof.
  induction previous as [|stale previous IH]; intros local Hk; cbn [fold_left map].
  { split; [done|]. split; [|done]. intros id. rewrite decide_False; [done|]. by intros [_ ?%elem_of_nil]. }
  case_bool_decide as Hs.
  - destruct (IH local Hk) as (H1 & H2 & H3). split; [done|]. split; [|done]. intros id. rewrite H2.
    apply decide_ext. rewrite elem_of_cons. naive_solver.
  - pose proof (stored_delete local path (id_of stale)) as Hdel.
    destruct (IH (storage_delete local path (id_of stale))) as (H1 & H2 & H3).
    { rewrite Hdel, decide_True by done. by apply jdelete_nodup. }
    split; [done|]. split.
    + intros id. rewrite H2, Hdel, (decide_True (P := path = path)), jget_jdelete by done.
      destruct (decide (id = id_of stale)) as [->|Hne].
      * rewrite (decide_True (P := (_ ∉ keep) /\ (_ ∈ id_of stale :: _))) by (split; [done|by left]). by case_decide.
      * apply decide_ext. rewrite elem_of_cons. naive_solver.
    + intros path' Hp. rewrite H3 by done. by rewrite Hdel, decide_False.
Qed.

Lemma jmap_of_in {K V} `{EqDecision K} (pairs : list (K * V)) k v : jget k (jmap_of pairs) = Some v -> (k, v) ∈ pairs.
Proof.
  rewrite jget_jmap_of. destruct (last _) as [[k' v']|] eqn:E; [|done]. cbn. intros [= <-].
  apply last_Some in E as [l' E]. assert ((k', v') ∈ List.filter (fun p => bool_decide (p.1 = k)) pairs) as Hin by (rewrite E; set_solver).
  apply list_elem_of_In, filter_In in Hin as [Hin Hk]. apply bool_decide_eq_true in Hk. cbn in Hk. subst. by apply list_elem_of_In.
Qed.

Lemma existsb_none {A} (f : A -> bool) l x : existsb f l = false -> x ∈ l -> f x = false.
Proof.
  induction l as [|y l IH]; cbn; [by intros _ ?%elem_of_nil|]. intros [H1 H2]%orb_false_iff [->|Hx]%elem_of_cons; [done|by apply IH].
Qed.

(** No change: the same ids, and every item like the one it was. *)
Lemma hasChanges_none previous items : NoDup (map id_of items) ->
  hasChanges (Some previous) items idField = false ->
  (forall id, id ∈ map id_of previous <-> id ∈ map id_of items)
  /\ forall item, item ∈ items -> exists m, m ∈ previous /\ id_of m = id_of item /\ itemFingerprint m = itemFingerprint item.
Proof.
  intros Hn. unfold hasChanges. destruct (negb _) eqn:Hlen; [done|]. breflect. apply Nat.eqb_eq in Hlen. intros Hall.
  assert (forall item, item ∈ items -> exists m, m ∈ previous /\ id_of m = id_of item /\ itemFingerprint m = itemFingerprint item) as Hsame.
  { intros item Hi. pose proof (existsb_none _ _ _ Hall Hi) as Hx. cbv beta in Hx.
    destruct (jget (id_of item) _) as [m|] eqn:E; [|done].
    apply jmap_of_in, list_elem_of_fmap in E as (m' & [= Hid ->] & Hin). exists m'. split; [done|]. split; [done|].
    apply negb_false_iff, bool_decide_eq_true in Hx. done. }
  split; [|done]. assert (map id_of items ≡ₚ map id_of previous) as Hperm.
  { apply submseteq_length_Permutation; [|by rewrite !length_map; lia]. apply NoDup_submseteq; [done|].
    intros id (item & -> & (m & Hm & <- & _)%Hsame)%list_elem_of_fmap. by apply list_elem_of_fmap_2. }
  intros id. by rewrite Hperm.
Qed.

(** The local copy of a collection mirrors its last synchronisation; before the
    first it is empty. *)
Definition in_step (st : SyncState (S := S)) (path : jstr) : Prop :=
  mirrored (local st) path (default [] (jget path (lastSyncedItems st))).

Lemma store_items_mirrored local path previous items : NoDup (map id_of items) ->
  mirrored local path (default [] previous) -> mirrored (store_items idField path previous items local) path items.
Proof.
  intros Hn [Hk Hids Hsame]. destruct (put_items path items local Hn Hk) as (H1 & H2 & H3 & H4 & H5).
  unfold store_items. destruct previous as [previous|]; cbn [default from_option] in *.
  - set (local1 := fold_left _ items local) in *.
    destruct (delete_stale path (map id_of items) previous local1 H1) as (G1 & G2 & G3).
    split; [done| |].
    + intros id. set (local2 := fold_left _ previous local1) in *.
      assert (id ∈ jkeys (stored local2 path) <-> is_Some (jget id (stored local2 path))) as ->.
      { destruct (jget id (stored local2 path)) eqn:E; [split; [by eexists|]|rewrite jget_None in E; split; [done|by intros [? ?]]].
        intros _. destruct (decide (id ∈ jkeys (stored local2 path))) as [|Hno]; [done|]. apply jget_None in Hno. congruence. }
      rewrite G2. case_decide as Hc; [split; [by intros [? ?]|naive_solver]|].
      destruct (decide (id ∈ map id_of items)) as [Hin|Hout].
      * split; [done|]. intros _. apply list_elem_of_fmap in Hin as (item & -> & Hi). rewrite H3 by done. by eexists.
      * split; [|done]. rewrite H4 by done. intros [v Hv]. exfalso. apply Hc. split; [done|]. apply Hids.
        destruct (decide (id ∈ jkeys (stored local path))) as [|Hno]; [done|]. apply jget_None in Hno. congruence.
    + intros item Hi. exists item. split; [|done]. rewrite G2, decide_False, H3 by (done || (intros [Hx _]; apply Hx; by apply list_elem_of_fmap_2)). done.
  - split; [done| |].
    + intros id. rewrite H2, Hids. cbn. split; [by intros [?%elem_of_nil|]|by right].
    + intros item Hi. exists item. by rewrite H3.
Qed.

Lemma store_items_other local path previous items path' : path' <> path ->
  stored (store_items idField path previous items local) path' = stored local path'.
Proof.
  intros Hp. unfold store_items.
  assert (forall l : Storage, stored (fold_left (fun l item => storage_put l path (id_of item) (Some item)) items l) path' = stored l path') as Hput.
  { induction items as [|item items IH]; intros l; [done|]. cbn [fold_left]. by rewrite IH, stored_put, decide_False. }
  destruct previous as [previous|]; [|apply Hput]. rewrite <-(Hput local).
  generalize (fold_left (fun l item => storage_put l path (id_of item) (Some item)) items local) as l. generalize (map id_of items) as keep. intros keep.
  induction previous as [|stale previous IH]; intros l; [done|]. cbn [fold_left]. rewrite IH. case_bool_decide; [done|]. by rewrite stored_delete, decide_False.
Qed.

Lemma mirrored_ext local local' path items : stored local' path = stored local path -> mirrored local path items -> mirrored local' path items.
Proof. intros Heq []. by split; rewrite ?Heq. Qed.

Lemma take_snapshot_in_step path items st : NoDup (map id_of items) -> in_step st path ->
  let '(st', changed) := take_snapshot idField path items st in
  in_step st' path /\ (forall path', path' <> path -> in_step st path' -> in_step st' path')
  /\ (changed = false -> local st' = local st).
Proof.
  intros Hn Hin. unfold take_snapshot. split; [|split].
  - unfold in_step. cbn [local lastSyncedItems]. rewrite jget_jset, decide_True by done. cbn [default from_option].
    destruct (hasChanges _ _ _) eqn:Hc; [by apply store_items_mirrored|].
    unfold in_step in Hin. destruct (jget path (lastSyncedItems st)) as [previous|]; [|done]. cbn [default from_option] in Hin.
    destruct (hasChanges_none previous items Hn Hc) as [Hids Hsame]. destruct Hin as [H1 H2 H3]. split; [done| |].
    + intros id. by rewrite H2, Hids.
    + intros item (m & Hm & Hid & Hf)%Hsame. destruct (H3 m Hm) as (v & Hv & Hfv). exists v. rewrite <-Hid. split; [done|congruence].
  - intros path' Hp Hin'. unfold in_step in *. cbn [local lastSyncedItems]. rewrite jget_jset, decide_False by done.
    eapply mirrored_ext; [|exact Hin']. destruct (hasChanges _ _ _); [by apply store_items_other|done].
  - cbn [local]. by intros ->.
Qed.

#[local] Abbreviation fetch_resource := (fetch_resource api fetch other_number document baseUrl).
#[local] Abbreviation performSync := (performSync api fetch other_number document baseUrl idField).

(** Fetching touches neither the local copy nor what was last synchronised. *)
Lemma fetch_resource_keeps route st st' r : fetch_resource route st = (st', r) ->
  local st' = local st /\ lastSyncedItems st' = lastSyncedItems st.
Proof.
  unfold ClientSync.fetch_resource, fetchCollectionSnapshot.
  assert (forall o, (match collectionUrl api baseUrl route with
    | Err e => (st, Err e)
    | Ok url => match fetch (world st) url (conditional_headers (jget url (conditionalCache st))) with
      | (s, Err e) => (set_world st s, Err e)
      | (s, Ok r) => if status r =? 304 then (set_world st s, Ok None) else if negb (ok r) then (set_world st s, Err (failed_request url r))
          else (mkSync s (local st) (remember (conditionalCache st) url r) (lastSyncedItems st), o r) end end) = (st', r) ->
    local st' = local st /\ lastSyncedItems st' = lastSyncedItems st) as Hsnap.
  { intros o. destruct (collectionUrl _ _ _) as [url|e]; [|by intros [= <- _]].
    destruct (fetch _ _ _) as [s [r1|e]]; [|by intros [= <- _]]. destruct (_ =? _); [by intros [= <- _]|]. destruct (negb _); by intros [= <- _]. }
  destruct (get_operation _ _) as [o|]; [|apply Hsnap].
  destruct (_ && _); [|apply Hsnap]. destruct (fetchAllItems _ _ _ _ _ _ _ _ _) as [s r1]. by intros [= <- _].
Qed.

(** What a fetch does depends on the network and the remembered headers only. *)
Lemma fetch_resource_ext route st a : world a = world st -> conditionalCache a = conditionalCache st ->
  (fetch_resource route a).2 = (fetch_resource route st).2
  /\ world (fetch_resource route a).1 = world (fetch_resource route st).1
  /\ conditionalCache (fetch_resource route a).1 = conditionalCache (fetch_resource route st).1.
Proof.
  intros Hw Hc.
  assert (forall o, let r x := fetchCollectionSnapshot api fetch baseUrl route o x in
    (r a).2 = (r st).2 /\ world (r a).1 = world (r st).1 /\ conditionalCache (r a).1 = conditionalCache (r st).1) as Hsnap.
  { intros o. cbv zeta. unfold fetchCollectionSnapshot. rewrite Hw, Hc. destruct (collectionUrl _ _ _) as [url|e]; [|done].
    destruct (fetch _ _ _) as [s [r1|e]]; [|done]. destruct (_ =? _); [done|]. by destruct (negb _). }
  unfold ClientSync.fetch_resource. destruct (get_operation _ _) as [o|]; [|apply Hsnap].
  destruct (_ && _); [|apply Hsnap]. rewrite Hw. by destruct (fetchAllItems _ _ _ _ _ _ _ _ _).
Qed.

(** What the server answers when the collections are fetched in turn, and
    nothing else is done: the items of each, or that they have not been modified. *)
Fixpoint answers (routes : list ResourceRoute) (st : SyncState (S := S)) : list (option (list Json)) :=
  match routes with
  | [] => []
  | route :: routes =>
      match fetch_resource route st with
      | (st, Ok items) => items :: answers routes st
      | (_, Err _) => []
      end
  end.

Lemma answers_ext routes : forall st a, world a = world st -> conditionalCache a = conditionalCache st -> answers routes a = answers routes st.
Proof.
  induction routes as [|route routes IH]; intros st a Hw Hc; [done|]. cbn [answers].
  destruct (fetch_resource_ext route st a Hw Hc) as (H1 & H2 & H3).
  destruct (fetch_resource route a) as [a1 ra], (fetch_resource route st) as [st1 rs]. cbn [fst snd] in *. subst ra.
  destruct rs; [|done]. f_equal. by apply IH.
Qed.

(** What a synchronisation owes a collection that the server answered so. *)
Definition taken (st st' : SyncState (S := S)) (changed : list jstr) (route : ResourceRoute) (answer : option (list Json)) : Prop :=
  let path := collectionPath route in
  match answer with
  | Some items => mirrored (local st') path items /\ jget path (lastSyncedItems st') = Some items
      /\ (path ∈ changed <-> hasChanges (jget path (lastSyncedItems st)) items idField = true)
  | None => jget path (lastSyncedItems st') = jget path (lastSyncedItems st) /\ path ∉ changed
  end
  /\ (path ∉ changed -> stored (local st') path = stored (local st) path).

(** The other collections, and the changes reported before. *)
Definition untouched (st st' : SyncState (S := S)) (acc changed : list jstr) (path : jstr) : Prop :=
  stored (local st') path = stored (local st) path /\ jget path (lastSyncedItems st') = jget path (lastSyncedItems st)
  /\ (path ∈ changed <-> path ∈ acc).

Lemma taken_from st1 st st' changed route answer : stored (local st1) (collectionPath route) = stored (local st) (collectionPath route) ->
  jget (collectionPath route) (lastSyncedItems st1) = jget (collectionPath route) (lastSyncedItems st) ->
  taken st1 st' changed route answer -> taken st st' changed route answer.
Proof. unfold taken. intros -> ->. done. Qed.

Lemma take_snapshot_other path items (st : SyncState (S := S)) path' : path' <> path ->
  stored (local (take_snapshot idField path items st).1) path' = stored (local st) path'
  /\ jget path' (lastSyncedItems (take_snapshot idField path items st).1) = jget path' (lastSyncedItems st).
Proof.
  intros Hp. unfold take_snapshot. cbn [fst local lastSyncedItems]. rewrite jget_jset, decide_False by done. split; [|done].
  destruct (hasChanges _ _ _); [by apply store_items_other|done].
Qed.

(** The first collection of a pass, the rest of which leaves it alone. *)
Lemma taken_first route items (st st2 : SyncState (S := S)) c st' acc changed : NoDup (map id_of items) -> in_step st (collectionPath route) ->
  take_snapshot idField (collectionPath route) items st = (st2, c) -> collectionPath route ∉ acc ->
  untouched st2 st' (if c then acc ++ [collectionPath route] else acc) changed (collectionPath route) ->
  taken st st' changed route (Some items).
Proof.
  intros Hn Hin E Hacc (H1 & H2 & H3). pose proof (take_snapshot_in_step _ _ _ Hn Hin) as H. rewrite E in H. destruct H as (Hm & _ & Hsame).
  unfold take_snapshot in E. injection E as E <-.
  assert (jget (collectionPath route) (lastSyncedItems st2) = Some items) as Hlast by (rewrite <-E; cbn [lastSyncedItems]; by rewrite jget_jset, decide_True).
  unfold in_step in Hm. rewrite Hlast in Hm. cbn [default from_option] in Hm.
  assert (collectionPath route ∈ changed <-> hasChanges (jget (collectionPath route) (lastSyncedItems st)) items idField = true) as Hc.
  { rewrite H3. destruct (hasChanges _ _ _); [|done]. split; [done|]. intros _. apply elem_of_app. right. by left. }
  split; [split; [by eapply mirrored_ext|split; [congruence|done]]|].
  intros Hno. rewrite H1, Hsame; [done|]. destruct (hasChanges _ _ _); [|done]. by destruct Hno; apply Hc.
Qed.

Lemma Forall2_impl_in {A B} (P Q : A -> B -> Prop) l k : Forall2 P l k -> (forall x y, x ∈ l -> P x y -> Q x y) -> Forall2 Q l k.
Proof.
  induction 1 as [|x y l k Hp _ IH]; intros H; constructor; [apply H; [by left|done]|]. apply IH. intros a b Ha. apply H. by right.
Qed.

Lemma sync_takes st' changed (Hserver : forall route st st' items, fetch_resource route st = (st', Ok (Some items)) -> NoDup (map id_of items)) :
  forall routes acc st, NoDup (map collectionPath routes) -> (forall path, path ∈ map collectionPath routes -> path ∉ acc) ->
  (forall route, route ∈ routes -> in_step st (collectionPath route)) -> performSync routes acc st = (st', Ok changed) ->
  Forall2 (taken st st' changed) routes (answers routes st)
  /\ forall path, path ∉ map collectionPath routes -> untouched st st' acc changed path.
Proof.
  induction routes as [|route routes IH]; intros acc st Hnd Hacc Hstep; cbn [ClientSync.performSync answers map]; [by intros [= <- <-]|].
  apply NoDup_cons in Hnd as [Hno Hnd]. destruct (fetch_resource route st) as [st1 [[items|]|e]] eqn:E; [| |done].
  - pose proof (Hserver _ _ _ _ E) as Hn. apply fetch_resource_keeps in E as [El Es].
    assert (in_step st1 (collectionPath route)) as Hin1 by (unfold in_step; rewrite El, Es; apply Hstep; by left).
    destruct (take_snapshot idField (collectionPath route) items st1) as [st2 c] eqn:E2.
    pose proof (fun p => take_snapshot_other (collectionPath route) items st1 p) as Hother. rewrite E2 in Hother. cbn [fst] in Hother. intros Hp.
    assert (world st1 = world st2 /\ conditionalCache st1 = conditionalCache st2) as [Hw Hcache] by (unfold take_snapshot in E2; by injection E2 as <- _).
    destruct (IH (if c then acc ++ [collectionPath route] else acc) st2 Hnd) as [G1 G2]; [| |exact Hp|].
    { intros p Hpin. assert (p ∉ acc) by (apply Hacc; by right). assert (p <> collectionPath route) by (intros ->; done). destruct c; set_solver. }
    { intros r Hr. assert (collectionPath r <> collectionPath route) as Hne by (intros Heq; apply Hno; rewrite <-Heq; by apply list_elem_of_fmap_2).
      destruct (Hother _ Hne) as [O1 O2]. unfold in_step. rewrite O2, Es. eapply mirrored_ext; [by rewrite O1, El|]. apply Hstep. by right. }
    rewrite <-(answers_ext routes st2 st1 Hw Hcache) in G1. split.
    + constructor.
      * eapply (taken_from st1); [by rewrite El|by rewrite Es|]. eapply taken_first; [done..|apply Hacc; by left|by apply G2].
      * eapply Forall2_impl_in; [exact G1|]. intros r a Hr Hta. assert (collectionPath r <> collectionPath route) as Hne by (intros Heq; apply Hno; rewrite <-Heq; by apply list_elem_of_fmap_2).
        destruct (Hother _ Hne) as [O1 O2]. eapply taken_from; [by rewrite O1, El|by rewrite O2, Es|done].
    + intros p [Hne Hpno]%not_elem_of_cons. destruct (G2 p Hpno) as (U1 & U2 & U3). destruct (Hother p Hne) as [O1 O2].
      split; [by rewrite U1, O1, El|]. split; [by rewrite U2, O2, Es|]. rewrite U3. destruct c; set_solver.
  - apply fetch_resource_keeps in E as [El Es]. intros Hp.
    destruct (IH acc st1 Hnd) as [G1 G2]; [intros p Hpin; apply Hacc; by right| |exact Hp|].
    { intros r Hr. unfold in_step. rewrite El, Es. apply Hstep. by right. }
    split.
    + constructor.
      * destruct (G2 (collectionPath route) Hno) as (U1 & U2 & U3). split; [split; [congruence|rewrite U3; apply Hacc; by left]|intros _; congruence].
      * eapply Forall2_impl; [exact G1|]. intros r a. apply taken_from; congruence.
    + intros p [Hne Hpno]%not_elem_of_cons. destruct (G2 p Hpno) as (U1 & U2 & U3). split; [congruence|]. split; [congruence|done].
Qed.

End Mirror.

(** ** Pets again *)

Module Demo.
Import Pages.Demo Client.Demo.

Definition versioned (id v : string) : Json := OObj [(js "id", OStr (js id)); (js "version", OStr (js v))].
Definition listed : list Json := [versioned "p1" "2"; versioned "p2" "1"].

Definition fetch_ (n : nat) (url : jstr) (headers : list (jstr * jstr)) : nat * res jstr Response :=
  (S n, Ok (mkResponse 200 [(js "etag", js "v2")] (Parsed (Some (OArr listed))))).

(** What the client had: an older first pet, and one that is gone. *)
Definition before : SyncState (S := nat) :=
  mkSync 0%nat [(js "/pets", [(js "p1", Some (versioned "p1" "1")); (js "p3", Some (versioned "p3" "1"))])]
    [] [(js "/pets", [versioned "p1" "1"; versioned "p3" "1"])].

Definition sync_ := performSync text_urls fetch_ (fun _ => None) (OObj []) (js "api.example/") (js "id") [pets] [].
Definition after : SyncState (S := nat) := (sync_ before).1.

Example synced : sync_ before = (after, Ok [js "/pets"])
  /\ local after = [(js "/pets", [(js "p1", Some (versioned "p1" "2")); (js "p2", Some (versioned "p2" "1"))])].
Proof. split; vm_compute; reflexivity. Qed.


(** A response whose body cannot be read is remembered all the same, so the
    server then says that nothing was modified, and its records never come. *)
Definition broken_once (n : nat) (url : jstr) (headers : list (jstr * jstr)) : nat * res jstr Response :=
  (S n, Ok (match headers with
            | [] => mkResponse 200 [(js "etag", js "v2")] (Parsed None)
            | _ => mkResponse 304 [] NoText
            end)).

Example never_stored :
  let sync st := performSync text_urls broken_once (fun _ => None) (OObj []) (js "api.example/") (js "id") [pets] [] st in
  let first := sync (mkSync 0%nat [] [] []) in
  first.2 = Err invalid_json /\ (sync first.1).2 = Ok [] /\ local (sync first.1).1 = [].
Proof. vm_compute. done. Qed.
End Demo.
