(* ===== verification/ReadModel.v ===== *)
(** * The collections that a read walks, and their ontology

    Models [src/syncables/src/read/model.ts] and [ontology.ts]: what an
    OpenAPI document declares in [components.crudResources], as the model of a
    read and as classes and properties.

    A document is a [Json] value with its references resolved.  A model is a
    value: [applySelection] returns the model it would have changed. *)
From S2P Require Import Prelude Unicode Text Collections JsDate Upload Uri Json Pagination Pages.
Local Open Scope Z_scope.

(** ** model.ts *)

(* src: syncables/src/read/model.ts 4-28 ReadCollection *)
Record ReadCollection := mkCollection {
  name : jstr;
  resource : jstr;
  url : jstr;
  idField : jstr;
  contextParams : list jstr;
  listQuery : list (jstr * jstr);
  method : ListMethod;
  listBody : Json;
}.

(* src: syncables/src/read/model.ts 30-34 ContextProvider *)
Record ContextProvider := mkProvider { collection : jstr; field : jstr }.

(* src: syncables/src/read/model.ts 36-39 ReadModel *)
Record ReadModel := mkModel { collections : list ReadCollection; providers : list (jstr * ContextProvider) }.

(* src: syncables/src/read/model.ts 45-52 asText *)
Definition asText (value : option Json) : jstr :=
  match value with
  | Some (OStr s) => s
  | None | Some ONull => []
  | Some v => json_text v
  end.

(** The names between braces. *)
Fixpoint variables_go (fuel : nat) (s : jstr) : list jstr :=
  match fuel, s with
  | O, _ | _, [] => []
  | S fuel, c :: s' =>
      match (if c =? 123 then span (fun c => negb (c =? 125)) s' else ([], [])) with
      | (n :: name, _ :: rest) => (n :: name) :: variables_go fuel rest
      | _ => variables_go fuel s'
      end
  end.

(* src: syncables/src/read/model.ts 54-56 pathVariables *)
Definition pathVariables (template : jstr) : list jstr := variables_go (length template) template.

(* src: syncables/src/read/model.ts 58-68 crudResourcesOf *)
Definition crudResourcesOf (document : Json) : res jstr fields_map :=
  match omember (js "crudResources") (member (js "components") document) with
  | Some (OObj m) => Ok m
  | _ => Err (js "OpenAPI document declares no crudResources; apply the CRUD-causality overlay")
  end.

(* src: syncables/src/read/model.ts 70-80 listMethodOf *)
Definition listMethodOf (collection : Json) : res jstr ListMethod :=
  match member (js "x-list-method") collection with
  | None => Ok GET
  | Some raw =>
      let method := upper (text_of (Some raw)) in
      if jeqb method (js "GET") then Ok GET
      else if jeqb method (js "POST") then Ok POST
      else Err (js "Unsupported x-list-method " ++ asText (Some raw))
  end.

Definition variable (param : jstr) : jstr := 123 :: param ++ [125].

(** An object, or [{}]. *)
Definition record_or_empty (v : option Json) : fields_map := entries_of v.

(** [collectionUrlHas]. *)
Definition collectionUrlHas (cols : fields_map) (param : jstr) : bool :=
  existsb (fun c => jincludes (variable param) (text_of (member (js "urlTemplate") c.2))) cols.

(** The field that a binding names. *)
Definition binding_field (binding : Json) : jstr :=
  match member (js "field") binding with Some (OStr s) => s | _ => js "id" end.

(** The bindings of a resource's identity, and its own id's field. *)
Definition resource_bindings (resource : jstr) (def : Json) : list (jstr * jstr * jstr) :=
  map (fun p => (p.1, resource, binding_field p.2)) (record_or_empty (omember (js "bindings") (member (js "identity") def))).

Definition id_field_of (def : Json) : jstr :=
  let itemUrl := text_of (omember (js "urlTemplate") (member (js "identity") def)) in
  let cols := record_or_empty (member (js "collections") def) in
  fold_left (fun idField p =>
      if jincludes (variable p.1) itemUrl && negb (collectionUrlHas cols p.1) then binding_field p.2 else idField)
    (record_or_empty (omember (js "bindings") (member (js "identity") def))) (js "id").

(** One collection; nothing when it has no URL. *)
Definition collection_of (resource idField name : jstr) (col : Json) : res jstr (option ReadCollection) :=
  match member (js "urlTemplate") col with
  | Some (OStr url) =>
      method ← listMethodOf col;
      Ok (Some (mkCollection name resource url idField (pathVariables url)
        (jmap_of (map (fun p => (p.1, asText (Some p.2))) (record_or_empty (member (js "x-list-query") col))))
        method (OObj (record_or_empty (member (js "x-list-body") col)))))
  | _ => Ok None
  end.

(** The collections of a resource. *)
Definition collections_of (p : jstr * Json) : res jstr (list ReadCollection) :=
  l ← mapR (fun c => collection_of p.1 (id_field_of p.2) c.1 c.2) (record_or_empty (member (js "collections") p.2));
  Ok (concat (map (fun c => match c with Some c => [c] | None => [] end) l)).

(** Of the bindings, the first for each parameter whose resource can be enumerated. *)
Definition add_provider (firstCollection : list (jstr * jstr)) (m : list (jstr * ContextProvider))
    (b : jstr * jstr * jstr) : list (jstr * ContextProvider) :=
  let '(param, resource, field) := b in
  match jget resource firstCollection with
  | None | Some [] => m
  | Some collection => if has_key param m then m else jset param (mkProvider collection field) m
  end.

(* src: syncables/src/read/model.ts 82-160 discoverReadModel *)
Definition discoverReadModel (document : Json) : res jstr ReadModel :=
  crud ← crudResourcesOf document;
  let defs := List.filter (fun p => isRecord (Some p.2)) crud in
  collections ← mapR collections_of defs;
  let collections := concat collections in
  let firstCollection := fold_left (fun m c => if has_key (resource c) m then m else jset (resource c) (name c) m) collections [] in
  Ok (mkModel collections (fold_left (add_provider firstCollection) (flat_map (fun p => resource_bindings p.1 p.2) defs) [])).

(** A parameter without a provider other than the collection itself. *)
Definition is_root (model : ReadModel) (c : ReadCollection) (param : jstr) : bool :=
  match jget param (providers model) with Some p => jeqb (collection p) (name c) | None => true end.

(* src: syncables/src/read/model.ts 162-174 rootParameters *)
Definition rootParameters (model : ReadModel) : list jstr :=
  sort_by jcmp (first_seen (flat_map (fun c => List.filter (is_root model c) (contextParams c)) (collections model))).

(* src: syncables/src/read/model.ts 176-189 upstreamOf *)
Definition upstreamOf {U} (api : UrlApi U) (document : Json) : res jstr U :=
  match omember (js "url") (head (elements_of (member (js "servers") document))) with
  | Some (OStr (c :: raw)) =>
      match parse_url api (c :: raw) with
      | None => Err (js "Invalid URL")
      | Some u =>
          if jeqb (protocol api u) (js "https:") || jeqb (protocol api u) (js "http:") then Ok u
          else Err (js "OpenAPI server must be an HTTP(S) URL")
      end
  | _ => Err (js "OpenAPI document declares no servers")
  end.

(* src: syncables/src/read/model.ts 191-199 listOperation *)
Definition listOperation (document : Json) (path : jstr) (method : ListMethod) : option Json :=
  match omember (match method with POST => js "post" | GET => js "get" end) (omember path (member (js "paths") document)) with
  | Some (OObj m) => Some (OObj m)
  | _ => None
  end.

(* src: syncables/src/read/model.ts 201-209 declaredQueryParameters *)
Definition declaredQueryParameters (operation : Json) : list jstr := queryParamNames operation.

(* src: syncables/src/read/model.ts 211-218 PlatformDescription *)
Record PlatformDescription := mkDescription { parameters : list jstr; collection_names : list jstr; upstream : jstr }.

(* src: syncables/src/read/model.ts 220-230 describeModel *)
Definition describeModel {U} (api : UrlApi U) (document : Json) (model : ReadModel) : res jstr PlatformDescription :=
  u ← upstreamOf api document;
  Ok (mkDescription (rootParameters model) (map name (collections model)) (href api u)).

(** ** Selections *)

Abbreviation QuerySelection := (list (jstr * fields_map)).

(** One override, with its path and values. *)
Definition override_of (item : Json) : option (jstr * fields_map) :=
  match member (js "path") item, member (js "values") item with
  | Some (OStr path), Some (OObj values) => Some (path, values)
  | _, _ => None
  end.

(* src: syncables/src/read/model.ts 239-262 querySelection *)
Definition querySelection (value : option Json) : res jstr QuerySelection :=
  match value with
  | None | Some ONull => Ok []
  | Some (OObj m) =>
      match jget (js "query_overrides") m with
      | None => Ok []
      | Some (OArr overrides) =>
          match mapM override_of overrides with
          | Some l => Ok l
          | None => Err (js "Invalid query selection")
          end
      | Some _ => Err (js "Invalid query selection")
      end
  | Some _ => Err (js "Invalid query selection")
  end.

Definition merge_override (merged : QuerySelection) (override : jstr * fields_map) : QuerySelection :=
  jset override.1 (spread (default [] (jget override.1 merged)) override.2) merged.

(* src: syncables/src/read/model.ts 264-289 mergeQuerySelections *)
Definition mergeQuerySelections (defaults explicit : option Json) : res jstr (option QuerySelection) :=
  a ← querySelection defaults; b ← querySelection explicit;
  let merged := fold_left merge_override b (fold_left merge_override a []) in
  Ok (match merged with [] => None | _ => Some merged end).

(** The first value whose parameter is not declared, or the query with all of them. *)
(* src: syncables/src/read/model.ts 314-320 applySelection ! *)
Definition override_query (path : jstr) (declared : list jstr) (query : list (jstr * jstr)) (values : fields_map)
    : res jstr (list (jstr * jstr)) :=
  foldM (fun query p =>
    if bool_decide (p.1 ∈ declared) then Ok (jset p.1 (asText (Some p.2)) query)
    else Err (js "Unknown query parameter " ++ p.1 ++ js " for " ++ path)) query values.

Definition with_query (c : ReadCollection) (query : list (jstr * jstr)) : ReadCollection :=
  mkCollection (name c) (resource c) (url c) (idField c) (contextParams c) query (method c) (listBody c).

(* src: syncables/src/read/model.ts 303-320 applySelection ! *)
Definition apply_override (document : Json) (model : ReadModel) (override : jstr * fields_map) : res jstr ReadModel :=
  let path := override.1 in
  match List.filter (fun c => jeqb (url c) path) (collections model) with
  | [c] =>
      match listOperation document path (method c) with
      | None => Err (js "Collection " ++ path ++ js " has no " ++ method_name (method c) ++ js " operation")
      | Some operation =>
          query ← override_query path (declaredQueryParameters operation) (listQuery c) override.2;
          Ok (mkModel (map (fun c => if jeqb (url c) path then with_query c query else c) (collections model)) (providers model))
      end
  | _ => Err (js "Unknown or ambiguous collection path " ++ path)
  end.

(* src: syncables/src/read/model.ts 291-322 applySelection *)
Definition applySelection (document : Json) (model : ReadModel) (selection : option QuerySelection) : res jstr ReadModel :=
  foldM (apply_override document) model (default [] selection).

(** ** ontology.ts *)

(* src: syncables/src/read/ontology.ts 4-17 DATATYPES *)
Inductive Datatype := DString | DTimestamp | DDate | DInteger | DFloat | DBoolean | DJson.
#[global] Instance Datatype_eq_dec : EqDecision Datatype.
Proof. solve_decision. Defined.

Inductive TermKind := class_ | property_.
(* src: syncables/src/read/ontology.ts 21-32 Term *)
Record Term := mkTerm {
  t_path : jstr;
  t_kind : TermKind;
  t_shortname : jstr;
  t_description : jstr;
  t_datatype : Datatype;
  t_requires : list jstr;
  t_recommends : list jstr;
}.

(* src: syncables/src/read/ontology.ts 34-37 Ontology *)
Record Ontology := mkOntology { o_description : jstr; terms : list Term }.

Definition is_alnum (c : Z) : bool := is_digit c || ((97 <=? c) && (c <=? 122)).

(** The runs of letters and digits of a text; [run]: the one being read. *)
Fixpoint alnum_runs (run s : jstr) : list jstr :=
  match s with
  | [] => match run with [] => [] | _ => [run] end
  | c :: s' =>
      if is_alnum c then alnum_runs (run ++ [c]) s'
      else match run with [] => alnum_runs [] s' | _ => run :: alnum_runs [] s' end
  end.

(* src: syncables/src/read/ontology.ts 39-46 ontologyShortname *)
Definition ontologyShortname (n : jstr) : jstr := join_str (js "-") (alnum_runs [] (lower n)).

(* src: syncables/src/read/ontology.ts 48-67 datatypeOf *)
Definition datatypeOf (schema : option Json) : option Datatype :=
  let type := text_of (omember (js "type") schema) in
  if jeqb type (js "string") then
    let format := text_of (omember (js "format") schema) in
    Some (if jeqb format (js "date-time") then DTimestamp else if jeqb format (js "date") then DDate else DString)
  else if jeqb type (js "integer") then Some DInteger
  else if jeqb type (js "number") then Some DFloat
  else if jeqb type (js "boolean") then Some DBoolean
  else None.

(** A schema's [required] and [properties], those of its [allOf] branches after its own. *)
Fixpoint flat_schema (schema : Json) : list Json * fields_map :=
  match schema with
  | OObj m =>
      let own := (elements_of (jget (js "required") m), entries_of (jget (js "properties") m)) in
      let branches := (fix allOf (l : fields_map) : option (list (list Json * fields_map)) :=
        match l with
        | [] => None
        | (key, v) :: rest =>
            if bool_decide (key = js "allOf") then
              match v with OArr b => Some (map flat_schema b) | _ => None end
            else allOf rest
        end) m in
      match branches with
      | Some b => fold_left (fun merged branch => (merged.1 ++ branch.1, spread merged.2 branch.2)) b own
      | None => own
      end
  | _ => ([], [])
  end.

(* src: syncables/src/read/ontology.ts 69-83 flattenSchema *)
Definition flattenSchema (schema : option Json) : list Json * fields_map :=
  match schema with Some s => flat_schema s | None => ([], []) end.

(* src: syncables/src/read/ontology.ts 85-95 claim *)
Definition claim (claimed : list (jstr * jstr)) (original : jstr) : res jstr (jstr * list (jstr * jstr)) :=
  let shortname := ontologyShortname original in
  match jget shortname claimed with
  | Some existing =>
      if jeqb existing original then Ok (shortname, jset shortname original claimed)
      else Err (js "Ontology shortname " ++ shortname ++ js " is claimed by both " ++ existing ++ js " and " ++ original)
  | None => Ok (shortname, jset shortname original claimed)
  end.

(** What the derivation keeps: [agreed] is, per property, its place among the
    terms and the datatype every field so far had. *)
Record Derivation := mkDerivation {
  d_terms : list Term;
  d_classes : list (jstr * jstr);
  d_names : list (jstr * jstr);
  d_agreed : list (jstr * (nat * option Datatype));
}.

Definition as_json (t : Term) : Term :=
  mkTerm (t_path t) (t_kind t) (t_shortname t) (t_description t) DJson (t_requires t) (t_recommends t).

Definition description_of (v : Json) (other : jstr) : jstr :=
  match member (js "description") v with Some (OStr s) => s | _ => other end.

Definition tick (s : jstr) : jstr := [96] ++ s ++ [96].

(** One field of a resource: the derivation after it, and its property's path. *)
(* src: syncables/src/read/ontology.ts 125-155 deriveOntology ! *)
Definition derive_field (base resource : jstr) (d : Derivation) (p : jstr * Json) : res jstr (Derivation * jstr) :=
  '(shortname, names) ← claim (d_names d) p.1;
  let datatype := datatypeOf (Some p.2) in
  let path := base ++ js "/property/" ++ shortname in
  match jget shortname (d_agreed d) with
  | None =>
      let t := mkTerm path property_ shortname (description_of p.2 (tick p.1 ++ js " of " ++ tick resource ++ js "."))
                 (default DJson datatype) [] [] in
      Ok (mkDerivation (d_terms d ++ [t]) (d_classes d) names (jset shortname (length (d_terms d), datatype) (d_agreed d)), path)
  | Some (i, agreed) =>
      let path := default [] (t_path <$> d_terms d !! i) in
      if bool_decide (agreed = datatype) then Ok (mkDerivation (d_terms d) (d_classes d) names (d_agreed d), path)
      else Ok (mkDerivation (alter as_json i (d_terms d)) (d_classes d) names (jset shortname (i, None) (d_agreed d)), path)
  end.

(** The paths of a class's fields, those it requires first. *)
Record ClassFields := mkFields { cf_requires : list jstr; cf_recommends : list jstr }.

Definition add_field (base resource : jstr) (required : list jstr) (acc : Derivation * ClassFields) (p : jstr * Json)
    : res jstr (Derivation * ClassFields) :=
  '(d, path) ← derive_field base resource acc.1 p;
  Ok (d, if bool_decide (p.1 ∈ required) then mkFields (cf_requires acc.2 ++ [path]) (cf_recommends acc.2)
         else mkFields (cf_requires acc.2) (cf_recommends acc.2 ++ [path])).

Definition derive_resource (base : jstr) (d : Derivation) (p : jstr * Json) : res jstr Derivation :=
  '(shortname, classes) ← claim (d_classes d) p.1;
  let '(required, properties) := flattenSchema (member (js "schema") p.2) in
  '(d, fields) ← foldM (add_field base p.1 (map (fun v => text_of (Some v)) required))
     (mkDerivation (d_terms d) classes (d_names d) (d_agreed d), mkFields [] []) properties;
  Ok (mkDerivation (d_terms d ++ [mkTerm (base ++ js "/class/" ++ shortname) class_ shortname
                (description_of p.2 (js "The " ++ tick p.1 ++ js " resource.")) DJson (cf_requires fields) (cf_recommends fields)])
        (d_classes d) (d_names d) (d_agreed d)).

Definition title_of (document : Json) : jstr := trim (text_of (omember (js "title") (member (js "info") document))).

(* src: syncables/src/read/ontology.ts 97-178 deriveOntology *)
Definition deriveOntology (document : Json) : res jstr Ontology :=
  let title := title_of document in
  let base := match title with [] => js "ontology" | _ => ontologyShortname title end in
  crud ← crudResourcesOf document;
  d ← foldM (derive_resource base) (mkDerivation [] [] [] []) (List.filter (fun p => isRecord (Some p.2)) crud);
  Ok (mkOntology (match title with
                  | [] => js "Derived from an OpenAPI document."
                  | _ => js "Derived from the " ++ [34] ++ title ++ [34] ++ js " OpenAPI document."
                  end) (d_terms d)).

(** ** What selections change *)

(** The same collection, but for its query, whose new names are declared. *)
Record narrowed (document : Json) (c c' : ReadCollection) : Prop := {
  nw_same : c' = with_query c (listQuery c');
  nw_names : forall k, k ∈ jkeys (listQuery c') -> k ∈ jkeys (listQuery c) \/
    exists operation, listOperation document (url c) (method c) = Some operation /\ k ∈ declaredQueryParameters operation;
}.

Lemma narrowed_refl document c : narrowed document c c.
Proof. split; [by destruct c|auto]. Qed.

Lemma narrowed_trans document a b c : narrowed document a b -> narrowed document b c -> narrowed document a c.
Proof.
  intros [H1 H2] [H3 H4]. split; [rewrite H3, H1; reflexivity|].
  intros k [Hk|Hk]%H4; [by apply H2|right]. rewrite H1 in Hk. exact Hk.
Qed.

Lemma jkeys_jset_in {V} (k : jstr) (v : V) m k' : k' ∈ jkeys (jset k v m) -> k' = k \/ k' ∈ jkeys m.
Proof. rewrite jkeys_jset. case_decide; [auto|]. intros [Hk|Hk%list_elem_of_singleton]%elem_of_app; auto. Qed.

Lemma override_query_names path declared query values query' k :
  override_query path declared query values = Ok query' -> k ∈ jkeys query' -> k ∈ jkeys query \/ k ∈ declared.
Proof.
  intros Hq. revert k. revert Hq. apply (foldM_inv (fun q => forall k, k ∈ jkeys q -> k ∈ jkeys query \/ k ∈ declared)); [auto|].
  intros q p q' IH _. case_bool_decide; [|done]. intros [= <-] k [->|Hk]%jkeys_jset_in; auto.
Qed.

Lemma apply_override_narrows document model override model' : apply_override document model override = Ok model' ->
  Forall2 (narrowed document) (collections model) (collections model') /\ providers model' = providers model.
Proof.
  unfold apply_override. destruct (List.filter _ _) as [|c [|]] eqn:Ef; try done.
  destruct (listOperation _ _ _) as [operation|] eqn:Eo; [|done].
  intros (query & Hq & [= <-])%bind_Ok. cbn [collections providers]. split; [|done].
  assert (forall x, x ∈ collections model -> jeqb (url x) override.1 = true -> x = c) as Honly.
  { intros x Hx Hu. apply list_elem_of_In in Hx. pose proof (proj2 (filter_In (fun c => jeqb (url c) override.1) x _) (conj Hx Hu)) as Hin.
    rewrite Ef in Hin. by destruct Hin as [->|[]]. }
  clear Ef. induction (collections model) as [|x l IH]; [done|]. cbn [map]. constructor.
  - destruct (jeqb (url x) override.1) eqn:E; [|apply narrowed_refl].
    rewrite (Honly x ltac:(by left) E). split; [done|]. cbn. intros k Hk.
    destruct (override_query_names _ _ _ _ _ k Hq Hk); [by left|right].
    exists operation. split; [|done]. rewrite (Honly x) in E by (by left || done).
    apply bool_decide_eq_true in E. by rewrite E.
  - apply IH. intros y Hy. apply Honly. by right.
Qed.

Lemma Forall2_narrowed_trans document a b c :
  Forall2 (narrowed document) a b -> Forall2 (narrowed document) b c -> Forall2 (narrowed document) a c.
Proof.
  intros H1. revert c. induction H1 as [|x y a b H H1 IH]; intros c H2; [exact H2|].
  inversion H2; subst. constructor; [by eapply narrowed_trans|by apply IH].
Qed.

Lemma applySelection_narrows document model selection model' : applySelection document model selection = Ok model' ->
  Forall2 (narrowed document) (collections model) (collections model') /\ providers model' = providers model.
Proof.
  apply (foldM_inv (fun m => Forall2 (narrowed document) (collections model) (collections m) /\ providers m = providers model)).
  - split; [|done]. induction (collections model); constructor; [apply narrowed_refl|done].
  - intros m override m' [H1 H2] _ [H3 H4]%apply_override_narrows. split; [by eapply Forall2_narrowed_trans|congruence].
Qed.

(** ** Where collections come from *)

Lemma mapR_Ok {E A B} (f : A -> res E B) l ys : mapR f l = Ok ys -> Forall2 (fun x y => f x = Ok y) l ys.
Proof.
  revert ys. induction l as [|x l IH]; intros ys; cbn; [intros [= <-]; constructor|].
  intros (y & Hy & (ys' & Hys & [= <-])%bind_Ok)%bind_Ok. constructor; [done|by apply IH].
Qed.

(** The resources a document declares. *)
Definition resource_names (crud : fields_map) : list jstr := map fst (List.filter (fun p => isRecord (Some p.2)) crud).

Lemma collections_of_resource p l : collections_of p = Ok l -> Forall (fun c => resource c = p.1) l.
Proof.
  unfold collections_of. intros (cs & Hcs%mapR_Ok & [= <-])%bind_Ok.
  induction Hcs as [|x c xs cs Hc Hcs IH]; [constructor|]. cbn [map concat]. apply Forall_app. split; [|exact IH].
  destruct c as [c|]; [|constructor]. constructor; [|constructor]. unfold collection_of in Hc.
  destruct (member _ _) as [[]|]; try done. apply bind_Ok in Hc as (method & _ & [= <-]). done.
Qed.

Lemma discovered_resource document crud model : crudResourcesOf document = Ok crud -> discoverReadModel document = Ok model ->
  Forall (fun c => resource c ∈ resource_names crud) (collections model).
Proof.
  intros Hcrud. unfold discoverReadModel. rewrite Hcrud. cbn [mbind res_bind].
  unfold resource_names. set (defs := List.filter _ crud).
  intros (ls & Hls%mapR_Ok & [= <-])%bind_Ok. cbn [collections].
  induction Hls as [|p l defs' ls Hl Hls IH]; [constructor|]. cbn [map concat]. apply Forall_app. split.
  - apply collections_of_resource in Hl. eapply Forall_impl; [exact Hl|]. intros c Hc. cbv beta. rewrite Hc. by left.
  - eapply Forall_impl; [exact IH|]. intros c Hc. by right.
Qed.

(** ** Names of the ontology *)

Lemma claim_claims claimed original shortname claimed' : claim claimed original = Ok (shortname, claimed') ->
  shortname = ontologyShortname original /\ jget shortname claimed' = Some original
  /\ forall k v, jget k claimed = Some v -> jget k claimed' = Some v.
Proof.
  unfold claim. destruct (jget _ claimed) as [existing|] eqn:E.
  - destruct (jeqb existing original) eqn:Ee; [|done]. apply bool_decide_eq_true in Ee as ->. intros [= <- <-].
    split; [done|]. split; [by rewrite jget_jset, decide_True|].
    intros k v Hk. rewrite jget_jset. case_decide; [subst; congruence|done].
  - intros [= <- <-]. split; [done|]. split; [by rewrite jget_jset, decide_True|].
    intros k v Hk. rewrite jget_jset. case_decide; [subst; congruence|done].
Qed.

Lemma add_field_classes base resource required acc p acc' :
  add_field base resource required acc p = Ok acc' -> d_classes acc'.1 = d_classes acc.1.
Proof.
  unfold add_field. intros ([d path] & Hd & [= <-])%bind_Ok. cbn [fst]. unfold derive_field in Hd.
  apply bind_Ok in Hd as ([shortname names] & _ & Hd).
  destruct (jget _ _) as [[i agreed]|]; [case_bool_decide|]; by injection Hd as <- <-.
Qed.

Lemma derive_resource_claims base d p d' : derive_resource base d p = Ok d' ->
  jget (ontologyShortname p.1) (d_classes d') = Some p.1
  /\ forall k v, jget k (d_classes d) = Some v -> jget k (d_classes d') = Some v.
Proof.
  unfold derive_resource. intros ([shortname classes] & (-> & Hget & Hkeep)%claim_claims & Hd)%bind_Ok.
  destruct (flattenSchema _) as [required properties].
  apply bind_Ok in Hd as ([d1 fields] & Hf & [= <-]). cbn [d_classes].
  cut (d_classes d1 = classes); [by intros ->|].
  apply (foldM_inv (fun acc => d_classes acc.1 = classes)) in Hf; [exact Hf|done|].
  intros acc q acc' Hacc _ Hq%add_field_classes. congruence.
Qed.

(** Two resources of a document with an ontology have different short names. *)
Lemma shortnames_distinct document crud o r1 r2 : crudResourcesOf document = Ok crud -> deriveOntology document = Ok o ->
  r1 ∈ resource_names crud -> r2 ∈ resource_names crud -> ontologyShortname r1 = ontologyShortname r2 -> r1 = r2.
Proof.
  intros Hcrud. unfold deriveOntology. rewrite Hcrud. cbn [mbind res_bind].
  generalize (match title_of document with [] => js "ontology" | _ => ontologyShortname (title_of document) end) as base.
  unfold resource_names. set (defs := List.filter _ crud). intros base (d & Hd & _)%bind_Ok.
  cut (forall r, r ∈ map fst defs -> jget (ontologyShortname r) (d_classes d) = Some r).
  { intros H H1%H H2%H Heq. rewrite Heq in H1. congruence. }
  clearbody defs. revert Hd. generalize (mkDerivation [] [] [] []) as d0. induction defs as [|p defs IH]; intros d0.
  { intros _ r Hr. by apply elem_of_nil in Hr. }
  cbn [foldM]. intros (d1 & [Hget Hkeep]%derive_resource_claims & Hd)%bind_Ok r [->|Hr]%elem_of_cons; [|by apply (IH d1)].
  clear IH. cut (forall k v, jget k (d_classes d1) = Some v -> jget k (d_classes d) = Some v); [auto|].
  revert Hd. apply (foldM_inv (fun d => forall k v, jget k (d_classes d1) = Some v -> jget k (d_classes d) = Some v)); [auto|].
  intros d2 q d3 H2 _ [_ H3]%derive_resource_claims. auto.
Qed.

(** ** Datatypes of properties *)

(** What the datatypes of the fields of one name agree on. *)
Definition agreement (ds : list (option Datatype)) : option Datatype :=
  match ds with d :: rest => if forallb (fun x => bool_decide (x = d)) rest then d else None | [] => None end.

Lemma agreement_snoc ds x : ds <> [] ->
  agreement (ds ++ [x]) = if bool_decide (agreement ds = x) then agreement ds else None.
Proof.
  destruct ds as [|d rest]; [done|]. intros _. cbn [agreement app]. rewrite forallb_app. cbn [forallb]. rewrite andb_true_r.
  destruct (forallb _ rest); cbn [andb]; [|by case_bool_decide].
  destruct (decide (d = x)) as [->|Hne]; [by rewrite !bool_decide_true|].
  by rewrite !bool_decide_false by congruence.
Qed.

(** The datatypes of the fields whose name has a short name. *)
Definition datatypes_of (fields : fields_map) (shortname : jstr) : list (option Datatype) :=
  map (fun p => datatypeOf (Some p.2)) (List.filter (fun p => jeqb (ontologyShortname p.1) shortname) fields).

Definition is_property (t : Term) : bool := match t_kind t with property_ => true | class_ => false end.

(** After some fields: every property has its place, its short name and the
    datatype agreed on, and a name without a place was no field's. *)
Record derived (fields : fields_map) (d : Derivation) : Prop := {
  dv_known : forall n i a, jget n (d_agreed d) = Some (i, a) ->
    a = agreement (datatypes_of fields n) /\ datatypes_of fields n <> [] /\
    exists t, d_terms d !! i = Some t /\ is_property t = true /\ t_shortname t = n /\ t_datatype t = default DJson a;
  dv_unknown : forall n, jget n (d_agreed d) = None -> datatypes_of fields n = [];
  dv_place : forall i t, d_terms d !! i = Some t -> is_property t = true ->
    exists a, jget (t_shortname t) (d_agreed d) = Some (i, a);
}.

Lemma datatypes_of_snoc fields p n :
  datatypes_of (fields ++ [p]) n = datatypes_of fields n ++ (if jeqb (ontologyShortname p.1) n then [datatypeOf (Some p.2)] else []).
Proof.
  unfold datatypes_of. rewrite List.filter_app, map_app. f_equal. cbn. by destruct (jeqb _ _).
Qed.

(** A field that is not of the name changes nothing of it. *)
Lemma datatypes_of_other fields p n : ontologyShortname p.1 <> n -> datatypes_of (fields ++ [p]) n = datatypes_of fields n.
Proof. intros H. rewrite datatypes_of_snoc. unfold jeqb. rewrite bool_decide_false by done. apply app_nil_r. Qed.
Lemma datatypes_of_same fields p :
  datatypes_of (fields ++ [p]) (ontologyShortname p.1) = datatypes_of fields (ontologyShortname p.1) ++ [datatypeOf (Some p.2)].
Proof. rewrite datatypes_of_snoc. unfold jeqb. by rewrite bool_decide_true. Qed.

Lemma derived_new fields d p classes names t :
  derived fields d -> jget (ontologyShortname p.1) (d_agreed d) = None ->
  is_property t = true -> t_shortname t = ontologyShortname p.1 -> t_datatype t = default DJson (datatypeOf (Some p.2)) ->
  derived (fields ++ [p]) (mkDerivation (d_terms d ++ [t]) classes names
    (jset (ontologyShortname p.1) (length (d_terms d), datatypeOf (Some p.2)) (d_agreed d))).
Proof.
  intros [Hk Hu Hp] Hnone H1 H2 H3. pose proof (Hu _ Hnone) as Hnil. split; cbn [d_terms d_agreed].
  - intros n i a. rewrite jget_jset. case_decide as Hn.
    + subst n. intros [= <- <-]. rewrite datatypes_of_same, Hnil. cbn [app agreement forallb].
      split; [done|]. split; [done|]. exists t. split; [by rewrite lookup_app_r, Nat.sub_diag by lia|done].
    + intros Hget. rewrite datatypes_of_other by done. destruct (Hk n i a Hget) as (-> & Hne & t' & Ht & Hrest).
      split; [done|]. split; [done|]. exists t'. split; [by apply lookup_app_l_Some|exact Hrest].
  - intros n. rewrite jget_jset. case_decide as Hn; [done|]. intros Hget. rewrite datatypes_of_other by done. by apply Hu.
  - intros i t' [Ht|[Hi Ht]]%lookup_app_Some Hprop.
    + destruct (Hp i t' Ht Hprop) as [a Ha]. exists a. rewrite jget_jset. case_decide as Hn; [congruence|done].
    + destruct (i - length (d_terms d))%nat as [|j] eqn:Ei; [|done]. injection Ht as <-.
      exists (datatypeOf (Some p.2)). rewrite H2, jget_jset, decide_True by done. do 2 f_equal. lia.
Qed.

Lemma derived_agrees fields d p i a classes names :
  derived fields d -> jget (ontologyShortname p.1) (d_agreed d) = Some (i, a) -> a = datatypeOf (Some p.2) ->
  derived (fields ++ [p]) (mkDerivation (d_terms d) classes names (d_agreed d)).
Proof.
  intros [Hk Hu Hp] Hget Ha. destruct (Hk _ _ _ Hget) as (Hag & Hne & Ht). split; cbn [d_terms d_agreed].
  - intros n j a'. destruct (decide (n = ontologyShortname p.1)) as [->|Hn].
    + rewrite Hget. intros [= <- <-]. rewrite datatypes_of_same, agreement_snoc by done. rewrite <-Hag, <-Ha, bool_decide_true by done.
      split; [done|]. split; [by destruct (datatypes_of _ _)|exact Ht].
    + intros Hj. rewrite datatypes_of_other by done. by apply Hk.
  - intros n Hn. rewrite datatypes_of_other by congruence. by apply Hu.
  - exact Hp.
Qed.

Lemma derived_differs fields d p i a classes names :
  derived fields d -> jget (ontologyShortname p.1) (d_agreed d) = Some (i, a) -> a <> datatypeOf (Some p.2) ->
  derived (fields ++ [p]) (mkDerivation (alter as_json i (d_terms d)) classes names
    (jset (ontologyShortname p.1) (i, None) (d_agreed d))).
Proof.
  intros [Hk Hu Hp] Hget Ha. destruct (Hk _ _ _ Hget) as (Hag & Hne & t & Ht & Hprop & Hn & Hd). split; cbn [d_terms d_agreed].
  - intros n j a'. rewrite jget_jset. case_decide as Heq.
    + subst n. intros [= <- <-]. rewrite datatypes_of_same, agreement_snoc by done. rewrite <-Hag, bool_decide_false by done.
      split; [done|]. split; [by destruct (datatypes_of _ _)|]. exists (as_json t). by rewrite list_lookup_alter_eq, Ht.
    + intros Hj. rewrite datatypes_of_other by done. destruct (Hk _ _ _ Hj) as (H1 & H2 & t' & H3 & H4 & H5 & H6).
      split; [done|]. split; [done|]. exists t'. split; [|done]. rewrite list_lookup_alter_ne; [done|].
      intros <-. assert (t' = t) by congruence. congruence.
  - intros n. rewrite jget_jset. case_decide as Heq; [done|]. intros Hj. rewrite datatypes_of_other by done. by apply Hu.
  - intros j t' Hj Hprop'. destruct (decide (j = i)) as [->|Hji].
    + rewrite list_lookup_alter_eq, Ht in Hj. injection Hj as <-. exists None. by rewrite jget_jset, decide_True.
    + rewrite list_lookup_alter_ne in Hj by done. destruct (Hp j t' Hj Hprop') as [a' Ha'].
      exists a'. rewrite jget_jset. case_decide as Heq; [|done]. rewrite Heq, Hget in Ha'. congruence.
Qed.

Lemma derive_field_derived base resource fields d p d' path :
  derived fields d -> derive_field base resource d p = Ok (d', path) -> derived (fields ++ [p]) d'.
Proof.
  intros Hd. unfold derive_field. intros ([shortname names] & (-> & _)%claim_claims & H)%bind_Ok.
  destruct (jget _ (d_agreed d)) as [[i a]|] eqn:E.
  - case_bool_decide; injection H as <- <-; [by eapply derived_agrees|by eapply derived_differs].
  - injection H as <- <-. by apply derived_new.
Qed.

Lemma add_fields_derived base resource required properties : forall fields acc acc',
  derived fields acc.1 -> foldM (add_field base resource required) acc properties = Ok acc' -> derived (fields ++ properties) acc'.1.
Proof.
  induction properties as [|p l IH]; intros fields acc acc' Hd; [intros [= <-]; by rewrite app_nil_r|].
  cbn [foldM]. intros (acc1 & ([d path] & Hf & [= <-])%bind_Ok & Hl)%bind_Ok.
  change (p :: l) with ([p] ++ l). rewrite app_assoc. eapply IH; [|exact Hl]. by eapply derive_field_derived.
Qed.

(** A class's own term is no property. *)
Lemma derived_class fields d t classes : derived fields d -> is_property t = false ->
  derived fields (mkDerivation (d_terms d ++ [t]) classes (d_names d) (d_agreed d)).
Proof.
  intros [Hk Hu Hp] Ht. split; cbn [d_terms d_agreed]; [|exact Hu|].
  - intros n i a Hget. destruct (Hk _ _ _ Hget) as (H1 & H2 & t' & H3 & H4). split; [done|]. split; [done|].
    exists t'. split; [by apply lookup_app_l_Some|done].
  - intros i t' [Hi|[_ Hi]]%lookup_app_Some Hprop; [by apply Hp|].
    destruct (i - length (d_terms d))%nat; [|done]. injection Hi as <-. congruence.
Qed.

(** The fields of a resource. *)
Definition resource_fields (p : jstr * Json) : fields_map := (flattenSchema (member (js "schema") p.2)).2.
Definition document_fields (crud : fields_map) : fields_map :=
  flat_map resource_fields (List.filter (fun p => isRecord (Some p.2)) crud).

Lemma derive_resource_derived base fields d p d' :
  derived fields d -> derive_resource base d p = Ok d' -> derived (fields ++ resource_fields p) d'.
Proof.
  intros Hd. unfold derive_resource, resource_fields. intros ([shortname classes] & _ & H)%bind_Ok.
  destruct (flattenSchema _) as [required properties]. cbn [snd].
  apply bind_Ok in H as ([d1 cf] & Hf & [= <-]). apply derived_class; [|done].
  eapply (add_fields_derived _ _ _ _ fields) in Hf; [exact Hf|]. cbn [fst]. by destruct Hd; split.
Qed.

Lemma derive_resources_derived base defs : forall fields d d',
  derived fields d -> foldM (derive_resource base) d defs = Ok d' -> derived (fields ++ flat_map resource_fields defs) d'.
Proof.
  induction defs as [|p l IH]; intros fields d d' Hd; [intros [= <-]; by rewrite app_nil_r|].
  cbn [foldM flat_map]. intros (d1 & H1 & H2)%bind_Ok. rewrite app_assoc. eapply IH; [|exact H2]. by eapply derive_resource_derived.
Qed.

(** The ontology of a document has exactly one property for
    each short name of a field of its resources, and its datatype is the one
    all fields of that name have, JSON when two of them differ or they are not
    scalar, in whatever order they are met. *)
Theorem ontology_datatypes document crud o (Hcrud : crudResourcesOf document = Ok crud) (Ho : deriveOntology document = Ok o) :
  let fields := document_fields crud in
  NoDup (map t_shortname (List.filter is_property (terms o)))
  /\ (forall t, t ∈ terms o -> is_property t = true -> t_datatype t = default DJson (agreement (datatypes_of fields (t_shortname t))))
  /\ (forall n, datatypes_of fields n <> [] <-> exists t, t ∈ terms o /\ is_property t = true /\ t_shortname t = n).
Proof.
  intros fields. unfold deriveOntology in Ho. rewrite Hcrud in Ho. cbn [mbind res_bind] in Ho.
  apply bind_Ok in Ho as (d & Hd & [= <-]). cbn [terms].
  apply (derive_resources_derived _ _ []) in Hd; [|by split].
  change ([] ++ _) with fields in Hd. destruct Hd as [Hk Hu Hp].
  assert (forall i j t t', d_terms d !! i = Some t -> d_terms d !! j = Some t' -> is_property t = true -> is_property t' = true ->
          t_shortname t = t_shortname t' -> i = j) as Hinj.
  { intros i j t t' Hi Hj H1 H2 Heq. destruct (Hp i t Hi H1) as [a Ha], (Hp j t' Hj H2) as [a' Ha']. rewrite Heq in Ha. congruence. }
  split; [|split].
  - clear Hk Hu Hp. induction (d_terms d) as [|t l IH]; [constructor|]. cbn [List.filter]. 
    assert (NoDup (map t_shortname (List.filter is_property l))) as Hl.
    { apply IH. intros i j t1 t2 Hi Hj H1 H2 Heq. pose proof (Hinj (S i) (S j) t1 t2 Hi Hj H1 H2 Heq). lia. }
    destruct (is_property t) eqn:Ht; [|exact Hl]. cbn [map]. constructor; [|exact Hl].
    intros (t' & Heq & [Hin Hprop]%list_elem_of_In%filter_In)%list_elem_of_fmap.
    apply list_elem_of_In, list_elem_of_lookup in Hin as [j Hj]. pose proof (Hinj 0%nat (S j) t t' eq_refl Hj Ht Hprop Heq). lia.
  - intros t [i Hi]%list_elem_of_lookup Hprop. destruct (Hp i t Hi Hprop) as [a Ha].
    destruct (Hk _ _ _ Ha) as (-> & _ & t' & Ht' & _ & _ & Hd). assert (t' = t) by congruence. by subst.
  - intros n. split.
    + intros Hn. destruct (jget n (d_agreed d)) as [[i a]|] eqn:E; [|by apply Hu in E].
      destruct (Hk _ _ _ E) as (_ & _ & t & Ht & H1 & H2 & _). exists t. split; [by eapply list_elem_of_lookup_2|done].
    + intros (t & [i Hi]%list_elem_of_lookup & Hprop & <-). destruct (Hp i t Hi Hprop) as [a Ha]. by destruct (Hk _ _ _ Ha) as (_ & ? & _).
Qed.

(** A selection can narrow what a read lists, never widen it: the
    model it leaves has the same collections, under the same URLs, methods and
    identities, and a query parameter it has more is one that the list
    operation declares. *)
Theorem selection_narrows document model selection model' : applySelection document model selection = Ok model' ->
  Forall2 (narrowed document) (collections model) (collections model') /\ providers model' = providers model.
Proof. apply applySelection_narrows. Qed.

(** ** Tasks under workspaces *)

Module Demo.
Import Pages.Demo.

Definition text (t : string) : Json := OStr (js t).
Definition typed (t : string) : Json := obj [("type"%string, text t)].
Definition list_of (path : string) : string * Json :=
  (path, obj [("get"%string, obj [("parameters"%string, OArr [obj [("name"%string, text "archived"); ("in"%string, text "query")]])])]).

(** Workspaces, and tasks under each; a task's [updated_at] is a date and time. *)
Definition document : Json := obj [
  ("servers"%string, OArr [obj [("url"%string, text "api.example/")]]);
  ("info"%string, obj [("title"%string, text "My Tasks")]);
  ("paths"%string, obj [list_of "/workspaces"; list_of "/workspaces/{workspaceId}/tasks"]);
  ("components"%string, obj [("crudResources"%string, obj [
    ("task"%string, obj [
      ("schema"%string, obj [("properties"%string, obj [
        ("title"%string, typed "string");
        ("updated_at"%string, obj [("type"%string, text "string"); ("format"%string, text "date-time")])])]);
      ("collections"%string, obj [("tasks"%string, obj [("urlTemplate"%string, text "/workspaces/{workspaceId}/tasks")])])]);
    ("workspace"%string, obj [
      ("schema"%string, obj [("properties"%string, obj [("title"%string, typed "integer")])]);
      ("identity"%string, obj [("urlTemplate"%string, text "/workspaces/{workspaceId}");
                               ("bindings"%string, obj [("workspaceId"%string, obj [("field"%string, text "gid")])])]);
      ("collections"%string, obj [("workspaces"%string, obj [("urlTemplate"%string, text "/workspaces")])])])])])].

(** Text in one resource and a number in the other: the title is JSON. *)
Lemma ontology_datatypes_witness :
  let o := match deriveOntology document with Ok o => o | Err _ => mkOntology [] [] end in
  let fields := document_fields (match crudResourcesOf document with Ok m => m | Err _ => [] end) in
  NoDup (map t_shortname (List.filter is_property (terms o)))
  /\ (forall t, t ∈ terms o -> is_property t = true -> t_datatype t = default DJson (agreement (datatypes_of fields (t_shortname t))))
  /\ (forall n, datatypes_of fields n <> [] <-> exists t, t ∈ terms o /\ is_property t = true /\ t_shortname t = n).
Proof. apply (ontology_datatypes document); vm_compute; reflexivity. Defined.

Definition narrowed_by (s : fields_map) : res jstr ReadModel :=
  model ← discoverReadModel document; applySelection document model (Some [(js "/workspaces", s)]).

Definition model_of (r : res jstr ReadModel) : ReadModel := match r with Ok m => m | Err _ => mkModel [] [] end.

Lemma selection_narrows_witness :
  let before := model_of (discoverReadModel document) in
  let after := model_of (narrowed_by [(js "archived", OBool false)]) in
  Forall2 (narrowed document) (collections before) (collections after) /\ providers after = providers before.
Proof.
  apply (selection_narrows document _ (Some [(js "/workspaces", [(js "archived", OBool false)])])). vm_compute. reflexivity.
Defined.

(** A parameter that the operation does not declare is refused. *)
Example selection_refused : narrowed_by [(js "token", text "x")] = Err (js "Unknown query parameter token for /workspaces").
Proof. vm_compute. reflexivity. Qed.
End Demo.
