(* ===== verification/Read.v ===== *)
(** * Reading a platform

    Models [src/syncables/src/read/read.ts] on documents whose references are
    resolved: the walk of every collection of the model, a collection under a
    parent once per record of the parent, and [paginate].

    The records of a read are a state [ReadState] that a walk of pages
    consumes into, so that what was read before an error is kept.  A provider's
    timestamp that is no date is [NaN], written [ONull], which no other value
    is.  Parameters are not named after members of [Object.prototype]. *)
From S2P Require Import Prelude Text Collections JsDate Upload Uri Json Pagination Pages ReadModel.
Local Open Scope Z_scope.

(* src: syncables/src/read/read.ts 85-100 ReadRecord *)
Record ReadRecord := mkRecord {
  r_resource : jstr;
  r_namespace : jstr;
  r_id : jstr;
  r_name : jstr;
  r_values : fields_map;
}.

(* src: syncables/src/read/read.ts 102-108 ReadResult *)
Record ReadResult := mkResult {
  rr_platform : jstr;
  rr_ontology : Ontology;
  rr_records : list ReadRecord;
  rr_errors : list jstr;
}.

Abbreviation path_values := (list (jstr * jstr)).

(* src: syncables/src/read/read.ts 110-113 Origin *)
Record Origin := mkOrigin { o_value : fields_map; o_path : path_values }.

(** The state of a read: [identities] are resource, namespace and id. *)
(* src: syncables/src/read/read.ts 217-220 readPlatform ! *)
Record ReadState := mkRead {
  records : list ReadRecord;
  identities : list (jstr * jstr * jstr);
  errors : list jstr;
  origins : list (jstr * list Origin);
}.

(** ** Invocations *)

(** The parameters that no constant gives, by the collection that provides them. *)
Definition provider_groups (c : ReadCollection) (model : ReadModel) (constants : path_values)
    : list (jstr * list (jstr * jstr)) :=
  fold_left (fun groups param =>
    if has_key param constants then groups
    else match jget param (providers model) with
         | None => groups
         | Some p => jset (collection p) (default [] (jget (collection p) groups) ++ [(param, field p)]) groups
         end) (contextParams c) [].

(** The values of a parent's record, for a combination of values so far. *)
Definition parent_values (params : list (jstr * jstr)) (combo : path_values) (parent : Origin) : path_values :=
  fold_left (fun values p => jset p.1 (asText (jget p.2 (o_value parent))) values) params
    (fold_left (fun m p => jset p.1 p.2 m) combo (o_path parent)).

Definition all_given (params : list (jstr * jstr)) (values : path_values) : bool :=
  forallb (fun p => match jget p.1 values with None | Some [] => false | _ => true end) params.

Definition combine (origins : list (jstr * list Origin)) (combos : list path_values) (group : jstr * list (jstr * jstr))
    : list path_values :=
  flat_map (fun combo =>
    List.filter (all_given group.2) (map (parent_values group.2 combo) (default [] (jget group.1 origins)))) combos.

Definition context_of (c : ReadCollection) (combo : path_values) : list jstr :=
  map (fun p => default [] (jget p combo)) (contextParams c).

Fixpoint distinct_by {A K} `{EqDecision K} (key : A -> K) (seen : list K) (l : list A) : list A :=
  match l with
  | [] => []
  | x :: l => if bool_decide (key x ∈ seen) then distinct_by key seen l else x :: distinct_by key (key x :: seen) l
  end.

(* src: syncables/src/read/read.ts 117-167 invocations *)
Definition invocations (c : ReadCollection) (model : ReadModel) (constants : path_values)
    (origins : list (jstr * list Origin)) : list path_values :=
  distinct_by (context_of c) [] (fold_left (combine origins) (provider_groups c model constants) [jmap_of constants]).

(** ** Values *)

Definition two_digits (s : jstr) : option jstr :=
  match s with a :: b :: r => if is_digit a && is_digit b then Some r else None | _ => None end.
Definition one_of (cs : list Z) (s : jstr) : option jstr :=
  match s with c :: r => if bool_decide (c ∈ cs) then Some r else None | [] => None end.

(* src: syncables/src/read/read.ts 169-170 TIMESTAMP *)
Definition is_timestamp (s : jstr) : bool :=
  match
    s ← two_digits s; s ← two_digits s; s ← one_of [45] s; s ← two_digits s; s ← one_of [45] s; s ← two_digits s;
    s ← one_of [84; 116] s; s ← two_digits s; s ← one_of [58] s; s ← two_digits s; s ← one_of [58] s; s ← two_digits s;
    let zone s := match one_of [90; 122] s with
                  | Some r => bool_decide (r = [])
                  | None => match (s ← one_of [43; 45] s; s ← two_digits s; s ← one_of [58] s; two_digits s) with
                            | Some r => bool_decide (r = []) | None => false end
                  end in
    Some (match s with
          | 46 :: r => match span is_digit r with ([], _) => false | (_, r) => zone r end
          | _ => zone s
          end)
  with Some b => b | None => false end.

Section Read.
Context {U S : Type} (api : UrlApi U).
Context (transport : S -> TransportRequest U -> S * res jstr TransportResponse).
Context (Date_now : S -> S * Z) (sleep : S -> Z -> S).
Context (other_dates : jstr -> option Z) (other_number : jstr -> option Z).

(* src: syncables/src/read/read.ts 172-183 typedValue *)
Definition typedValue (value : Json) (datatype : Datatype) : res jstr (option Json) :=
  match value with
  | ONull => Ok None
  | _ =>
      match datatype with
      | DTimestamp =>
          match value with
          | OStr s => if is_timestamp s then Ok (Some (match Date_parse other_dates s with Some t => ONum t | None => ONull end))
                      else Err (js "Invalid provider timestamp")
          | _ => Err (js "Invalid provider timestamp")
          end
      | _ => Ok (Some value)
      end
  end.

(** The fields that the ontology knows, with their types. *)
Definition known_values (properties : list (jstr * Datatype)) (value : fields_map) : res jstr fields_map :=
  foldM (fun values p =>
    let shortname := ontologyShortname p.1 in
    match jget shortname properties with
    | None => Ok values
    | Some datatype =>
        v ← typedValue p.2 datatype;
        Ok (match v with Some v => jset shortname v values | None => values end)
    end) [] value.

(** The first non-empty string of three fields, or the id. *)
Definition name_of (value : fields_map) (id : jstr) : jstr :=
  let field k := text_of (jget (js k) value) in
  match field "title"%string, field "summary"%string, field "name"%string with
  | c :: n, _, _ => c :: n
  | [], c :: n, _ => c :: n
  | [], [], c :: n => c :: n
  | [], [], [] => id
  end.

(** The [ReadOptions] but for the transport and the timer. *)
(* src: syncables/src/read/read.ts 71-83 ReadOptions ! *)
Record ReadOptions := mkOptions {
  platform : jstr;
  constants : path_values;
  selection : option QuerySelection;
  probe : bool;
}.

(** What a read knows before it walks. *)
Record ReadContext := mkContext {
  rc_document : Json;
  rc_upstream : U;
  rc_budget : Budget;
  rc_model : ReadModel;
  rc_options : ReadOptions;
  rc_ontology : Ontology;
}.

Definition properties_by_name (o : Ontology) : list (jstr * Datatype) :=
  fold_left (fun m t => jset (t_shortname t) (t_datatype t) m)
    (List.filter (fun t => match t_kind t with property_ => true | class_ => false end) (terms o)) [].

(** ** One collection *)

(** One item of a page.  The state is kept when it throws. *)
(* src: syncables/src/read/read.ts 250-286 readPlatform ! *)
Definition take_item (rc : ReadContext) (c : ReadCollection) (path : path_values) (acc : ReadState * list Origin)
    (item : Json) : ReadState * list Origin * option ReadError :=
  let value := entries_of (Some item) in
  let namespace := join_str (js "/") (context_of c path) in
  let id := asText (jget (idField c) value) in
  let key := (resource c, namespace, id) in
  let '(st, out) := acc in
  if bool_decide (id = []) || bool_decide (key ∈ identities st)
  then (acc, Some (Failure (js "Missing or repeated record identity; pagination may not be forwarded by the proxy")))
  else if maxRecords (limits (rc_budget rc)) <=? Z.of_nat (length (records st))
  then (acc, Some (BudgetExhausted (js "Read exceeds " ++ dec_signed (maxRecords (limits (rc_budget rc))) ++ js " records; narrow its scope")))
  else
    let st := mkRead (records st) (key :: identities st) (errors st) (origins st) in
    match known_values (properties_by_name (rc_ontology rc)) value with
    | Err e => (st, out, Some (Failure e))
    | Ok values =>
        let r := mkRecord (ontologyShortname (resource c)) namespace id (name_of value id) values in
        (mkRead (records st ++ [r]) (identities st) (errors st) (origins st), out ++ [mkOrigin value path], None)
    end.

Fixpoint take_items (rc : ReadContext) (c : ReadCollection) (path : path_values) (acc : ReadState * list Origin)
    (items : list Json) : ReadState * list Origin * option ReadError :=
  match items with
  | [] => (acc, None)
  | item :: items =>
      match take_item rc c path acc item with
      | (acc, Some e) => (acc, Some e)
      | (acc, None) => take_items rc c path acc items
      end
  end.

(* src: syncables/src/read/read.ts 247-250 readPlatform ! *)
Definition take_page (rc : ReadContext) (c : ReadCollection) (path : path_values) (acc : ReadState * list Origin)
    (page : Page (U := U)) : ReadState * list Origin * option ReadError :=
  if probe (rc_options rc) then (acc, Some ProbeDone) else take_items rc c path acc (pg_items page).

(** The walk of one invocation: its origins, or the error that ended it. *)
(* src: syncables/src/read/read.ts 222-290 readPlatform ! *)
Definition walk_collection (rc : ReadContext) (c : ReadCollection) (path : path_values) (m : Meter (S := S)) (st : ReadState)
    : option (Meter (S := S) * ReadState * res ReadError (list Origin)) :=
  match listOperation (rc_document rc) (url c) (method c) with
  | None => Some (m, st, Err (Failure (url c ++ js " declares no " ++ method_name (method c) ++ js " operation")))
  | Some operation =>
      match bindPath (url c) path with
      | Err e => Some (m, st, Err e)
      | Ok bound =>
          let w := mkWalk (rc_document rc) operation (rc_upstream rc) bound (method c) (listQuery c) (listBody c) None in
          '(m, (st, out), r) ← walk_loop api transport Date_now sleep other_dates other_number (take_page rc c path)
            (walk_fuel (rc_budget rc) m) (rc_budget rc) w walk_start m (st, []);
          Some (m, st, match r with Ok _ => Ok out | Err e => Err e end)
      end
  end.

Definition message_of (e : ReadError) : jstr :=
  match e with BudgetExhausted m | Failure m => m | ProbeDone => [] end.

Definition add_error (st : ReadState) (e : jstr) : ReadState :=
  mkRead (records st) (identities st) (errors st ++ [e]) (origins st).

(** How the invocations of a collection end: all walked, the budget out, or,
    when probing, with the probe done or failed. *)
Inductive Ending := Walked | Exhausted | Probed (r : res ReadError unit).

(* src: syncables/src/read/read.ts 313-341 readPlatform ! *)
Fixpoint walk_paths (rc : ReadContext) (c : ReadCollection) (paths : list path_values) (read : list Origin)
    (m : Meter (S := S)) (st : ReadState) : option (Meter (S := S) * ReadState * list Origin * Ending) :=
  match paths with
  | [] => Some (m, st, read, Walked)
  | path :: paths =>
      '(m, st, r) ← walk_collection rc c path m st;
      match r with
      | Ok out => walk_paths rc c paths (read ++ out) m st
      | Err ProbeDone => Some (m, st, read, Probed (Ok tt))
      | Err e =>
          if probe (rc_options rc) then Some (m, st, read, Probed (Err e))
          else
            let st := add_error st (name c ++ js ": " ++ message_of e) in
            match e with
            | BudgetExhausted _ => Some (m, st, read, Exhausted)
            | _ => walk_paths rc c paths read m st
            end
      end
  end.

(** ** All collections *)

(** The collections a collection takes values from. *)
Definition sources_of (c : ReadCollection) (model : ReadModel) (constants : path_values) : list (option jstr) :=
  map (fun p => collection <$> jget p (providers model)) (List.filter (fun p => negb (has_key p constants)) (contextParams c)).

Definition without_provider (c : ReadCollection) (sources : list (option jstr)) : bool :=
  existsb (fun s => match s with None => true | Some s => jeqb s (name c) end) sources.

Definition sources_read (st : ReadState) (sources : list (option jstr)) : bool :=
  forallb (fun s => match s with Some s => has_key s (origins st) | None => false end) sources.

Definition set_origins (st : ReadState) (c : jstr) (read : list Origin) : ReadState :=
  mkRead (records st) (identities st) (errors st) (jset c read (origins st)).

(** One round over the pending collections: those that wait, whether any did
    not, and how it ended. *)
(* src: syncables/src/read/read.ts 296-346 readPlatform ! *)
Fixpoint round (rc : ReadContext) (pending waiting : list ReadCollection) (progressed : bool)
    (m : Meter (S := S)) (st : ReadState) : option (Meter (S := S) * ReadState * list ReadCollection * bool * Ending) :=
  match pending with
  | [] => Some (m, st, waiting, progressed, Walked)
  | c :: pending =>
      let sources := sources_of c (rc_model rc) (constants (rc_options rc)) in
      if without_provider c sources
      then round rc pending waiting true m (add_error st (name c ++ js ": its context has no provider"))
      else if negb (sources_read st sources) then round rc pending (waiting ++ [c]) progressed m st
      else
        '(m, st, read, e) ← walk_paths rc c (invocations c (rc_model rc) (constants (rc_options rc)) (origins st)) [] m st;
        match e with
        | Walked => round rc pending waiting true m (set_origins st (name c) read)
        | Exhausted => Some (m, set_origins st (name c) read, waiting, true, Exhausted)
        | Probed r => Some (m, st, waiting, true, Probed r)
        end
  end.

(* src: syncables/src/read/read.ts 292-352 readPlatform ! *)
Fixpoint rounds (fuel : nat) (rc : ReadContext) (pending : list ReadCollection) (m : Meter (S := S)) (st : ReadState)
    : option (Meter (S := S) * ReadState * Ending) :=
  match pending, fuel with
  | [], _ => Some (m, st, Walked)
  | _, O => None
  | _, Datatypes.S fuel =>
      '(m, st, waiting, progressed, e) ← round rc pending [] false m st;
      match e with
      | Walked =>
          if (progressed : bool) then rounds fuel rc waiting m st
          else Some (m, fold_left (fun st c => add_error st (name c ++ js ": its parent collection could not be read")) waiting st, Walked)
      | _ => Some (m, st, e)
      end
  end.

(** What a read needs before the first request. *)
(* src: syncables/src/read/read.ts 199-216 readPlatform ! *)
Definition read_context (document : Json) (options : ReadOptions) (b : Budget) : res jstr ReadContext :=
  model ← discoverReadModel document;
  model ← applySelection document model (selection options);
  upstream ← upstreamOf api document;
  _ ← foldM (fun (_ : unit) param => match jget param (constants options) with
                            | None | Some [] => Err (js "Enter a value for " ++ param)
                            | _ => Ok tt end) tt (rootParameters model);
  ontology ← (if probe options then Ok (mkOntology [] []) else deriveOntology document);
  Ok (mkContext document upstream b model options ontology).

Definition no_records : ReadState := mkRead [] [] [] [].

(** The result of a read from the state in which it ended. *)
(* src: syncables/src/read/read.ts 354-360 readPlatform ! *)
Definition conclude (rc : ReadContext) (st : ReadState) (e : Ending) : res ReadError ReadResult :=
  let o := rc_options rc in
  match e with
  | Probed (Ok _) => Ok (mkResult (platform o) (rc_ontology rc) [] [])
  | Probed (Err e) => Err e
  | _ =>
      if probe o then Err (Failure (js "No collection available to check"))
      else match records st, errors st with
           | [], _ :: _ => Err (Failure (js "Read incomplete: " ++ join_str (js "; ") (errors st)))
           | _, _ => Ok (mkResult (platform o) (rc_ontology rc) (records st) (errors st))
           end
  end.

(* src: syncables/src/read/read.ts 185-361 readPlatform ! *)
Definition readPlatform (document : Json) (options : ReadOptions) (l : ReadLimits) (s : S)
    : option (S * res ReadError ReadResult) :=
  let '(b, m) := new_budget Date_now l s in
  match read_context document options b with
  | Err e => Some (env m, Err (Failure e))
  | Ok rc =>
      let pending := collections (rc_model rc) in
      '(m, st, e) ← rounds (Datatypes.S (length pending)) rc pending m no_records;
      Some (env m, conclude rc st e)
  end.

(* src: syncables/src/read/read.ts 63-69 describePlatform *)
Definition describePlatform (document : Json) : res jstr PlatformDescription :=
  model ← discoverReadModel document; describeModel api document model.

(** ** One list operation *)

(* src: syncables/src/read/read.ts 363-378 PaginateOptions *)
Record PaginateOptions := mkPaginate {
  pg_path : jstr;
  pg_method : ListMethod;
  pg_pathParams : path_values;
  pg_query : list (jstr * jstr);
  pg_body : Json;
  pg_pageSize : option Z;
}.

(** The walk that [paginate] makes. *)
Definition paginate_walk (document operation : Json) (o : PaginateOptions) : res ReadError (PageWalk (U := U)) :=
  match upstreamOf api document with
  | Err e => Err (Failure e)
  | Ok upstream =>
      bound ← bindPath (pg_path o) (pg_pathParams o);
      Ok (mkWalk document operation upstream bound (pg_method o) (pg_query o) (pg_body o) (pg_pageSize o))
  end.

(* src: syncables/src/read/read.ts 380-417 paginate *)
Definition paginate (document : Json) (o : PaginateOptions) (l : ReadLimits) (s : S) : option (S * res ReadError (list Json)) :=
  match listOperation document (pg_path o) (pg_method o) with
  | None => Some (s, Err (Failure (pg_path o ++ js " declares no " ++ method_name (pg_method o) ++ js " operation")))
  | Some operation =>
      let '(b, m) := new_budget Date_now l s in
      match paginate_walk document operation o with
      | Err e => Some (env m, Err e)
      | Ok w =>
          '(m, items, r) ← walk_loop api transport Date_now sleep other_dates other_number (push_page b) (walk_fuel b m) b w walk_start m [];
          Some (env m, match r with Ok _ => Ok items | Err e => Err e end)
      end
  end.
End Read.

(** ** A read ends *)

Section Facts.
Context {U S : Type} (api : UrlApi U).
Context (transport : S -> TransportRequest U -> S * res jstr TransportResponse).
Context (Date_now : S -> S * Z) (sleep : S -> Z -> S).
Context (other_dates : jstr -> option Z) (other_number : jstr -> option Z).

#[local] Abbreviation walk_collection := (walk_collection api transport Date_now sleep other_dates other_number).
#[local] Abbreviation walk_paths := (walk_paths api transport Date_now sleep other_dates other_number).
#[local] Abbreviation round := (round api transport Date_now sleep other_dates other_number).
#[local] Abbreviation rounds := (rounds api transport Date_now sleep other_dates other_number).
#[local] Abbreviation readPlatform := (readPlatform api transport Date_now sleep other_dates other_number).

Lemma walk_collection_ends rc c path m st : is_Some (walk_collection rc c path m st).
Proof.
  unfold Read.walk_collection. destruct (listOperation _ _ _) as [operation|]; [|eauto].
  destruct (bindPath _ _) as [bound|e]; [|eauto].
  match goal with |- context [walk_loop _ _ _ _ _ _ _ _ ?b ?w _ _ ?a] =>
    destruct (walk_loop_ends api transport Date_now sleep other_dates other_number (take_page other_dates rc c path) b w
      (walk_fuel b m) walk_start m a) as [[[m1 [st1 out]] r] ->] end; [unfold walk_fuel; lia|].
  cbn [mbind option_bind]. eauto.
Qed.

Lemma walk_paths_ends rc c paths : forall read m st, is_Some (walk_paths rc c paths read m st).
Proof.
  induction paths as [|path paths IH]; intros read m st; cbn [Read.walk_paths]; [eauto|].
  destruct (walk_collection_ends rc c path m st) as [[[m1 st1] r] ->]. cbn [mbind option_bind].
  destruct r as [out|[e|e|]]; [apply IH| |destruct (probe _); [eauto|apply IH]|eauto].
  destruct (probe _); eauto.
Qed.

(** A round ends, and when collections made progress fewer wait. *)
Lemma round_ends rc pending : forall waiting progressed m st, exists m' st' waiting' progressed' e,
  round rc pending waiting progressed m st = Some (m', st', waiting', progressed', e)
  /\ (length waiting' <= length waiting + length pending)%nat
  /\ (progressed' = true -> progressed = false -> length waiting' < length waiting + length pending)%nat.
Proof.
  induction pending as [|c pending IH]; intros waiting progressed m st; cbn [Read.round].
  { do 5 eexists. split; [reflexivity|]. split; [lia|congruence]. }
  destruct (without_provider c _).
  { destruct (IH waiting true m (add_error st (name c ++ js ": its context has no provider"))) as (m' & st' & w & p & e & Heq & H1 & _).
    do 5 eexists. split; [exact Heq|]. cbn [length]. lia. }
  destruct (negb _).
  { destruct (IH (waiting ++ [c]) progressed m st) as (m' & st' & w & p & e & Heq & H1 & H2).
    do 5 eexists. split; [exact Heq|]. rewrite length_app in H1, H2. cbn [length] in *. split; [lia|].
    intros Hp Hq. specialize (H2 Hp Hq). lia. }
  match goal with |- context [walk_paths ?rc ?c ?l ?r ?m ?st] =>
    destruct (walk_paths_ends rc c l r m st) as [[[[m1 st1] read] e1] ->] end. cbn [mbind option_bind].
  destruct e1 as [| |r].
  - destruct (IH waiting true m1 (set_origins st1 (name c) read)) as (m' & st' & w & p & e & Heq & H1 & _).
    do 5 eexists. split; [exact Heq|]. cbn [length]. lia.
  - do 5 eexists. split; [reflexivity|]. cbn [length]. lia.
  - do 5 eexists. split; [reflexivity|]. cbn [length]. lia.
Qed.

Lemma rounds_end rc fuel : forall pending m st, (length pending < fuel)%nat -> is_Some (rounds fuel rc pending m st).
Proof.
  induction fuel as [|fuel IH]; intros pending m st Hfuel; [lia|]. destruct pending as [|c pending]; cbn [Read.rounds]; [eauto|].
  destruct (round_ends rc (c :: pending) [] false m st) as (m' & st' & w & p & e & -> & H1 & H2). cbn [mbind option_bind].
  destruct e; [|eauto..]. destruct p; [|eauto]. apply IH. specialize (H2 eq_refl eq_refl). cbn [length] in *. lia.
Qed.

(** C16 (termination). A read of a platform always ends, with a result or an
    error: every walk of pages is bounded by the budget, and a round over the
    collections in which none makes progress is the last. *)
Theorem readPlatform_terminates document options l s : is_Some (readPlatform document options l s).
Proof.
  unfold Read.readPlatform. destruct (new_budget _ _ _) as [b m]. destruct (read_context _ _ _ _) as [rc|e]; [|eauto].
  destruct (rounds_end rc (Datatypes.S (length (collections (rc_model rc)))) (collections (rc_model rc)) m no_records) as [[[m1 st] e] ->]; [lia|].
  cbn [mbind option_bind]. eauto.
Qed.

(** ** Records are told apart *)

Definition short_key (k : jstr * jstr * jstr) : jstr * jstr * jstr := (ontologyShortname k.1.1, k.1.2, k.2).
Definition record_key (r : ReadRecord) : jstr * jstr * jstr := (r_resource r, r_namespace r, r_id r).

(** Every record has an identity of its own, of one of the resources [rs], and
    there are no more than [max]. *)
Definition recorded (max : Z) (rs : list jstr) (st : ReadState) : Prop := exists keys,
  NoDup keys /\ keys ⊆ identities st /\ Forall (fun k => k.1.1 ∈ rs /\ k.2 <> []) keys
  /\ map record_key (records st) = map short_key keys /\ Z.of_nat (length (records st)) <= Z.max 0 max.

Lemma recorded_same max rs st st' : records st' = records st -> identities st ⊆ identities st' -> recorded max rs st -> recorded max rs st'.
Proof.
  intros Hr Hi (keys & H1 & H2 & H3 & H4 & H5). exists keys. rewrite Hr. split; [done|]. split; [set_solver|done].
Qed.

Lemma take_item_recorded rc c path rs acc item : resource c ∈ rs ->
  recorded (maxRecords (limits (rc_budget rc))) rs acc.1 ->
  recorded (maxRecords (limits (rc_budget rc))) rs (take_item (U := U) other_dates rc c path acc item).1.1.
Proof.
  intros Hc Hacc. unfold take_item. destruct acc as [st out]. cbn [fst] in Hacc.
  destruct (_ || _) eqn:E1; [exact Hacc|]. breflect.
  destruct (_ <=? _) eqn:E2; [exact Hacc|]. breflect.
  destruct (known_values _ _ _) as [values|e]; cbn [fst]; [|by eapply recorded_same; [..|exact Hacc]; [done|cbn; set_solver]].
  destruct Hacc as (keys & H1 & H2 & H3 & H4 & H5).
  set (key := (resource c, _, _)) in *. exists (keys ++ [key]). cbn [records identities].
  split; [|split; [|split; [|split]]].
  - apply NoDup_app. split; [done|]. split; [|apply NoDup_singleton]. intros k Hk ->%list_elem_of_singleton. by apply H0, H2.
  - set_solver.
  - apply Forall_app. split; [done|]. constructor; [|constructor]. done.
  - by rewrite !map_app, H4.
  - rewrite length_app. cbn. lia.
Qed.

Lemma take_page_recorded rc c path rs acc page : resource c ∈ rs ->
  recorded (maxRecords (limits (rc_budget rc))) rs acc.1 ->
  recorded (maxRecords (limits (rc_budget rc))) rs (take_page (U := U) other_dates rc c path acc page).1.1.
Proof.
  intros Hc. unfold take_page. destruct (probe _); [done|]. revert acc.
  induction (pg_items page) as [|item items IH]; intros acc Hacc; cbn [take_items]; [done|].
  pose proof (take_item_recorded rc c path rs acc item Hc Hacc) as H1.
  destruct (take_item other_dates rc c path acc item) as [acc1 [e|]]; cbn [fst] in H1; [exact H1|by apply IH].
Qed.

Lemma walk_collection_recorded rc c path rs m st m' st' r : resource c ∈ rs ->
  recorded (maxRecords (limits (rc_budget rc))) rs st -> walk_collection rc c path m st = Some (m', st', r) ->
  recorded (maxRecords (limits (rc_budget rc))) rs st'.
Proof.
  intros Hc Hst. unfold Read.walk_collection. destruct (listOperation _ _ _) as [operation|]; [|by intros [= <- <- <-]].
  destruct (bindPath _ _) as [bound|e]; [|by intros [= <- <- <-]].
  destruct (walk_loop _ _ _ _ _ _ _ _ _ _ _ _ _) as [[[m1 [st1 out]] r1]|] eqn:E; [|done].
  cbn [mbind option_bind]. intros [= <- <- <-].
  apply (walk_loop_consumes _ _ _ _ _ _ _ (fun acc => recorded (maxRecords (limits (rc_budget rc))) rs acc.1)) in E; [exact E| |exact Hst].
  intros acc p. by apply take_page_recorded.
Qed.

Lemma walk_paths_recorded rc c rs paths : resource c ∈ rs -> forall read m st m' st' read' e,
  recorded (maxRecords (limits (rc_budget rc))) rs st -> walk_paths rc c paths read m st = Some (m', st', read', e) ->
  recorded (maxRecords (limits (rc_budget rc))) rs st'.
Proof.
  intros Hc. induction paths as [|path paths IH]; intros read m st m' st' read' e Hst; cbn [Read.walk_paths]; [by intros [= <- <- <- <-]|].
  destruct (walk_collection rc c path m st) as [[[m1 st1] r]|] eqn:E; [|done]. cbn [mbind option_bind].
  apply (walk_collection_recorded _ _ _ rs) in E; [|done..].
  assert (forall t, recorded (maxRecords (limits (rc_budget rc))) rs (add_error st1 t)) as Hadd by (intros t; by eapply recorded_same; [..|exact E]).
  destruct r as [out|[t|t|]]; [by apply IH| |destruct (probe _); [by intros [= <- <- <- <-]|by apply IH]|by intros [= <- <- <- <-]].
  destruct (probe _); by intros [= <- <- <- <-].
Qed.

Lemma round_recorded rc rs pending : Forall (fun c => resource c ∈ rs) pending -> forall waiting progressed m st m' st' waiting' progressed' e,
  Forall (fun c => resource c ∈ rs) waiting ->
  recorded (maxRecords (limits (rc_budget rc))) rs st ->
  round rc pending waiting progressed m st = Some (m', st', waiting', progressed', e) ->
  recorded (maxRecords (limits (rc_budget rc))) rs st' /\ Forall (fun c => resource c ∈ rs) waiting'.
Proof.
  induction 1 as [|c pending Hc Hp IH]; intros waiting progressed m st m' st' waiting' progressed' e Hw Hst; cbn [Read.round].
  { by intros [= <- <- <- <- <-]. }
  destruct (without_provider c _); [apply IH; [done|by eapply recorded_same; [..|exact Hst]]|].
  destruct (negb _); [apply IH; [apply Forall_app; split; [done|by constructor]|done]|].
  destruct (walk_paths _ _ _ _ _ _) as [[[[m1 st1] read] e1]|] eqn:E; [|done]. cbn [mbind option_bind].
  apply (walk_paths_recorded _ _ rs _ Hc) in E; [|done].
  assert (recorded (maxRecords (limits (rc_budget rc))) rs (set_origins st1 (name c) read)) as Hset by (by eapply recorded_same; [..|exact E]).
  destruct e1; [by apply IH|by intros [= <- <- <- <- <-]..].
Qed.

Lemma rounds_recorded rc rs fuel : forall pending m st m' st' e, Forall (fun c => resource c ∈ rs) pending ->
  recorded (maxRecords (limits (rc_budget rc))) rs st -> rounds fuel rc pending m st = Some (m', st', e) ->
  recorded (maxRecords (limits (rc_budget rc))) rs st'.
Proof.
  induction fuel as [|fuel IH]; intros pending m st m' st' e Hp Hst; destruct pending as [|c pending]; cbn [Read.rounds]; try done;
    try by intros [= <- <- <-].
  destruct (round _ _ _ _ _ _) as [[[[[m1 st1] waiting] progressed] e1]|] eqn:E; [|done]. cbn [mbind option_bind].
  apply (round_recorded _ rs _ Hp) in E as [H1 H2]; [|constructor|done].
  destruct e1; [|by intros [= <- <- <-]..]. destruct progressed; [by apply IH|]. intros [= <- <- <-].
  clear -H1. revert st1 H1. induction waiting as [|w waiting IH]; intros st1 H1; [done|]. cbn [fold_left].
  apply IH. by eapply recorded_same; [..|exact H1].
Qed.

(** The resources of the collections that a read walks. *)
Lemma read_context_resources document options b rc crud :
  crudResourcesOf document = Ok crud -> read_context api document options b = Ok rc ->
  Forall (fun c => resource c ∈ resource_names crud) (collections (rc_model rc))
  /\ rc_options rc = options /\ rc_budget rc = b
  /\ (probe options = false -> deriveOntology document = Ok (rc_ontology rc)).
Proof.
  intros Hcrud. unfold read_context.
  intros (model & Hm & (model' & [Hn _]%applySelection_narrows & (u & _ & (x & _ & (o & Ho & [= <-])%bind_Ok)%bind_Ok)%bind_Ok)%bind_Ok)%bind_Ok.
  cbn [rc_model rc_options rc_budget rc_ontology]. split; [|split; [done|split; [done|]]].
  - pose proof (discovered_resource document crud model Hcrud Hm) as Hd. clear -Hn Hd.
    induction Hn as [|c c' l l' Hc Hl IH]; [constructor|]. apply Forall_cons in Hd as [H1 H2]. constructor; [|by apply IH].
    destruct Hc as [-> _]. exact H1.
  - intros Hp. by rewrite Hp in Ho.
Qed.

Lemma discover_crud document model : discoverReadModel document = Ok model -> exists crud, crudResourcesOf document = Ok crud.
Proof. unfold discoverReadModel. intros (crud & Hcrud & _)%bind_Ok. eauto. Qed.

(** C15 (invariant). The records a read returns are told apart by resource,
    namespace and id, each has an id, and there are no more than the limit:
    although identities are kept under the names that the document gives its
    resources and records are filed under their short names, which the
    ontology keeps distinct. *)
Theorem read_records_identified document options l s s' result
  (H : readPlatform document options l s = Some (s', Ok result)) :
  NoDup (map record_key (rr_records result))
  /\ Forall (fun r => r_id r <> []) (rr_records result)
  /\ Z.of_nat (length (rr_records result)) <= Z.max 0 (maxRecords l).
Proof.
  unfold Read.readPlatform, new_budget in H. destruct (Date_now s) as [s1 now]. cbn [env] in H.
  destruct (read_context _ _ _ _) as [rc|e] eqn:Hrc; [|done].
  assert (exists crud, crudResourcesOf document = Ok crud) as [crud Hcrud].
  { unfold read_context in Hrc. apply bind_Ok in Hrc as (model & Hm & _). by eapply discover_crud. }
  destruct (read_context_resources document options _ rc crud Hcrud Hrc) as (Hres & Hopt & Hbud & Hont).
  destruct (rounds _ _ _ _ _) as [[[m1 st] e]|] eqn:E; [|done]. cbn [mbind option_bind] in H. injection H as _ H.
  apply (rounds_recorded rc (resource_names crud)) in E; [|done|exists []; repeat split; try constructor; cbn; try set_solver; lia].
  rewrite Hbud in E. cbn [limits] in E. clear Hbud Hrc.
  assert (rr_records result = [] \/ (probe options = false /\ rr_records result = records st)) as [->|[Hp ->]].
  { unfold conclude in H. rewrite Hopt in H. destruct e as [| |[]]; [..|by injection H as <-; left|done].
    all: destruct (probe options); [done|]; right; split; [done|].
    all: destruct (records st) in H |- *; [destruct (errors st); [|done]|]; by injection H as <-. }
  { split; [constructor|]. split; [constructor|]. cbn. lia. }
  destruct E as (keys & H1 & _ & H3 & H4 & H5). split; [|split; [|exact H5]].
  - rewrite H4. clear H4 H5. induction H1 as [|k keys Hk Hkeys IH]; [constructor|].
    apply Forall_cons in H3 as [[Hr _] H3]. cbn [map]. constructor; [|by apply IH].
    intros (k' & Heq & Hin)%list_elem_of_fmap. apply Hk. unfold short_key in Heq. injection Heq as E1 E2 E3.
    assert (k.1.1 = k'.1.1) as E4.
    { eapply (shortnames_distinct document crud); [done|by apply Hont|done| |done].
      rewrite Forall_forall in H3. by apply H3. }
    destruct k as [[r n] i], k' as [[r' n'] i']. cbn in *. by subst.
  - apply Forall_forall. intros r Hr Hnil.
    assert (record_key r ∈ map record_key (records st)) as Hin by (by apply list_elem_of_fmap_2).
    rewrite H4 in Hin. apply list_elem_of_fmap in Hin as (k & Hk & Hkin). rewrite Forall_forall in H3.
    destruct (H3 k Hkin) as [_ Hne]. apply Hne. unfold record_key, short_key in Hk. injection Hk as _ _ Hk. congruence.
Qed.
End Facts.

(** ** Tasks under workspaces *)

Module Demo.
Import Pages.Demo ReadModel.Demo.

Definition page_of (l : list Json) : res jstr TransportResponse := Ok (mkResponse 200 [] (Some (OArr l))).

Definition transport (log : list jstr) (q : TransportRequest jstr) : list jstr * res jstr TransportResponse :=
  (rq_url q :: log,
   if jeqb (rq_url q) (js "api.example/workspaces") then page_of [obj [("gid"%string, text "w1")]; obj [("gid"%string, text "w2")]]
   else if jeqb (rq_url q) (js "api.example/workspaces/w1/tasks")
   then page_of [obj [("id"%string, ONum 7); ("title"%string, text "Write"); ("updated_at"%string, text "1970-01-01T00:00:01Z")]]
   else page_of [obj [("id"%string, ONum 7); ("title"%string, text "Read")]]).

Definition options : ReadOptions := mkOptions (js "tasks") [] None false.
Definition limits_ : ReadLimits := mkLimits 10 5 1000 0.

(** The tasks wait for their workspaces. *)
Definition result : ReadResult :=
  mkResult (js "tasks")
    (match deriveOntology document with Ok o => o | Err _ => mkOntology [] [] end)
    [mkRecord (js "workspace") [] (js "w1") (js "w1") [];
     mkRecord (js "workspace") [] (js "w2") (js "w2") [];
     mkRecord (js "task") (js "w1") (js "7") (js "Write") [(js "title", text "Write"); (js "updated-at", ONum 1000)];
     mkRecord (js "task") (js "w2") (js "7") (js "Read") [(js "title", text "Read")]] [].

Example read_tasks : readPlatform text_urls transport clock sleep (fun _ => None) (fun _ => None) document options limits_ []
  = Some (map js ["api.example/workspaces/w2/tasks"; "api.example/workspaces/w1/tasks"; "api.example/workspaces"]%string, Ok result).
Proof. vm_compute. reflexivity. Qed.

Lemma read_records_identified_witness :
  NoDup (map record_key (rr_records result)) /\ Forall (fun r => r_id r <> []) (rr_records result)
  /\ Z.of_nat (length (rr_records result)) <= Z.max 0 5.
Proof.
  apply (read_records_identified text_urls transport clock sleep (fun _ => None) (fun _ => None) document options limits_ [] _ result read_tasks).
Defined.

End Demo.
