(* ===== verification/Observations.v ===== *)
(** * The observation log

    Models [src/integrations/timesheets/app/observations.ts]: reads of a
    provider, stored as what they changed, and the mirror that folding them
    gives.

    An instant is the string it arrived as; [ms] is its [Date.parse] (the
    formats that are the engine's own choice are the parameter [other]), a
    number where [None] is [NaN]: comparisons with it are false, and a sort
    takes the [NaN] of a comparator for zero.  An object used as a map is the
    list of its entries in insertion order (record keys have a slash, so none
    is an array index).  Numbers in records are integers. *)
From S2P Require Import Prelude Text Collections JsDate Json.
From stdpp Require Import sorting.
Local Open Scope Z_scope.

(* src: integrations/timesheets/app/observations.ts 36-45 RangeScope *)
Record RangeScope := mkRange {
  r_collection : jstr;
  r_params : list (jstr * jstr);
  r_field : jstr;
  r_from : jstr;
  r_to : jstr;
}.

(* src: integrations/timesheets/app/observations.ts 47-52 IdScope *)
Record IdScope := mkIdScope { i_collection : jstr; i_id : jstr }.

Inductive Scope := InRange (r : RangeScope) | ById (i : IdScope).

Definition collection_of (s : Scope) : jstr :=
  match s with InRange r => r_collection r | ById i => i_collection i end.
Definition is_id_scope (s : Scope) : bool := match s with ById _ => true | InRange _ => false end.

(* src: integrations/timesheets/app/observations.ts 56-59 CanonicalRecord *)
Record CanonicalRecord := mkCanonical { c_id : jstr; c_fields : fields_map }.

Inductive ObservationKind := ListRead | PointRead | WriteResponse.

(* src: integrations/timesheets/app/observations.ts 63-81 ObservationHeader *)
Record ObservationHeader := mkHeader {
  h_id : jstr;
  device : jstr;
  sentAt : jstr;
  receivedAt : jstr;
  h_kind : ObservationKind;
  scope : Scope;
  mask : list jstr;
  complete : bool;
  query : option (list (jstr * jstr));
}.

(* src: integrations/timesheets/app/observations.ts 83-86 Observation *)
Record Observation := mkObservation { o_header : ObservationHeader; records : list CanonicalRecord }.

(* src: integrations/timesheets/app/observations.ts 88-99 Incremental *)
Record Incremental := mkIncremental {
  header : ObservationHeader;
  upserts : list CanonicalRecord;
  absent : list jstr;
  unchanged : nat;
  digest : jstr;
}.

(* src: integrations/timesheets/app/observations.ts 101-111 MirrorRecord *)
Record MirrorRecord := mkRecord {
  m_id : jstr;
  m_collection : jstr;
  m_fields : fields_map;
  lastSeenAt : jstr;
  absentSince : option jstr;
  deletedAt : option jstr;
}.

(* src: integrations/timesheets/app/observations.ts 113-120 CoverageSegment *)
Record CoverageSegment := mkSegment { s_key : jstr; s_from : jstr; s_to : jstr; confirmedAt : jstr }.

(* src: integrations/timesheets/app/observations.ts 122-126 Mirror *)
Record Mirror := mkMirror { m_records : list (jstr * MirrorRecord); coverage : list CoverageSegment }.

(* src: integrations/timesheets/app/observations.ts 128-131 Position *)
Record Position := mkPosition { p_receivedAt : jstr; p_id : jstr }.

(* src: integrations/timesheets/app/observations.ts 133-133 emptyMirror *)
Definition emptyMirror : Mirror := mkMirror [] [].

(* src: integrations/timesheets/app/observations.ts 135-136 recordKey *)
Definition recordKey (collection id : jstr) : jstr := collection ++ js "/" ++ id.

(** A string property that is there and not empty. *)
Definition is_set (s : option jstr) : bool := match s with Some (_ :: _) => true | _ => false end.

(* src: integrations/timesheets/app/observations.ts 151-163 stableStringify *)
Fixpoint stableStringify (v : Json) : jstr :=
  match v with
  | ONull => js "null"
  | OBool b => if b then js "true" else js "false"
  | ONum n => dec_signed n
  | OStr s => quote s
  | OArr l => js "[" ++ join_str (js ",") (map stableStringify l) ++ js "]"
  | OObj m =>
      js "{" ++ join_str (js ",") (map (fun p => quote p.1 ++ js ":" ++ p.2)
        (sort_by (fun a b => jcmp a.1 b.1) (map (fun p => (p.1, stableStringify p.2)) m))) ++ js "}"
  end.

(** [n.toString(16).padStart(8, '0')] of a 32-bit number. *)
Definition hex8 (n : Z) : jstr := hex4 (n / 65536) ++ hex4 (n mod 65536).

(* src: integrations/timesheets/app/observations.ts 165-175 fnv1a *)
Definition fnv1a (text : jstr) : jstr :=
  hex8 (fold_left (fun hash c => u32 (i32 (js_xor hash c * 0x01000193))) text 0x811c9dc5).

(* src: integrations/timesheets/app/observations.ts 177-184 coverageKey *)
Definition coverageKey (r : RangeScope) : jstr :=
  r_collection r ++ js "?" ++
  join_str (js "&") (map (fun k => k ++ js "=" ++ default [] (jget k (r_params r))) (sort_by jcmp (jkeys (r_params r)))) ++
  js "#" ++ r_field r.

(* src: integrations/timesheets/app/observations.ts 202-207 pick *)
Definition pick (fields : fields_map) (mask : list jstr) : fields_map :=
  fold_left (fun out field => jset field (default ONull (jget field fields)) out) mask [].

Section Instants.
Context (other : jstr -> option Z).

(* src: integrations/timesheets/app/observations.ts 138-138 ms *)
Definition ms (instant : jstr) : option Z := Date_parse other instant.

(* src: integrations/timesheets/app/observations.ts 140-149 comparePositions *)
Definition comparePositions (a b : Position) : option Z :=
  let byTime := num_sub (ms (p_receivedAt a)) (ms (p_receivedAt b)) in
  if negb (num_eqb byTime (Some 0)) then byTime
  else if negb (jeqb (p_receivedAt a) (p_receivedAt b)) then
    Some (if jltb (p_receivedAt a) (p_receivedAt b) then -1 else 1)
  else if jeqb (p_id a) (p_id b) then Some 0
  else Some (if jltb (p_id a) (p_id b) then -1 else 1).

(* src: integrations/timesheets/app/observations.ts 186-200 inScope *)
Definition inScope (s : Scope) (r : MirrorRecord) : bool :=
  if negb (jeqb (m_collection r) (collection_of s)) then false
  else match s with
  | ById i => jeqb (m_id r) (i_id i)
  | InRange g =>
      if forallb (fun p => match jget p.1 (m_fields r) with Some (OStr v) => jeqb v p.2 | _ => false end) (r_params g)
      then match jget (r_field g) (m_fields r) with
           | Some (OStr at_) => num_leb (ms (r_from g)) (ms at_) && num_ltb (ms at_) (ms (r_to g))
           | _ => false
           end
      else false
  end.

(** Whether the mirror has a returned record just as it was returned. *)
Definition same_record (previous : option MirrorRecord) (masked : fields_map) (mask : list jstr) : bool :=
  match previous with
  | None => false
  | Some p =>
      negb (is_set (absentSince p)) && negb (is_set (deletedAt p)) &&
      forallb (fun field => jeqb (stableStringify (default ONull (jget field (m_fields p))))
                                 (stableStringify (default ONull (jget field masked)))) mask
  end.

(** The loop over the returned records: the changed ones and how many are not. *)
Definition diff_step (m : Mirror) (h : ObservationHeader) (acc : list CanonicalRecord * nat)
    (r : CanonicalRecord) : list CanonicalRecord * nat :=
  let masked := pick (c_fields r) (mask h) in
  if same_record (jget (recordKey (collection_of (scope h)) (c_id r)) (m_records m)) masked (mask h)
  then (acc.1, S acc.2) else (acc.1 ++ [mkCanonical (c_id r) masked], acc.2).

Definition by_id (a b : CanonicalRecord) : Z := jcmp (c_id a) (c_id b).

(** Whether the mirror places a record in the scope that was not returned. *)
Definition missing (h : ObservationHeader) (returned : list jstr) (r : MirrorRecord) : bool :=
  negb (is_set (deletedAt r)) && (negb (is_set (absentSince r)) || is_id_scope (scope h)) &&
  negb (bool_decide (m_id r ∈ returned)) && inScope (scope h) r.

(* src: integrations/timesheets/app/observations.ts 209-270 diffObservation *)
Definition diffObservation (m : Mirror) (o : Observation) : Incremental :=
  let h := o_header o in
  let '(ups, same) := fold_left (diff_step m h) (records o) ([], 0%nat) in
  let gone :=
    if complete h
    then sort_by jcmp (map m_id (List.filter (missing h (map c_id (records o))) (jvalues (m_records m))))
    else [] in
  mkIncremental h ups gone same
    (fnv1a (stableStringify (OArr (map (fun r => OObj [(js "id", OStr (c_id r)); (js "fields", OObj (c_fields r))])
       (sort_by by_id (records o)))))).

(* src: integrations/timesheets/app/observations.ts 272-273 isEmpty *)
Definition isEmpty (i : Incremental) : bool :=
  match upserts i, absent i with [], [] => true | _, _ => false end.

(** ** Coverage *)

(** The ends of the segments, by their number, as first written. *)
Definition add_bound (m : list (option Z * jstr)) (s : jstr) : list (option Z * jstr) :=
  match jget (ms s) m with Some _ => m | None => jset (ms s) s m end.
Definition bounds_of (spans : list CoverageSegment) : list (option Z * jstr) :=
  fold_left (fun m s => add_bound (add_bound m (s_from s)) (s_to s)) spans [].

(** Consecutive elements. *)
Fixpoint pairs_of {A} (l : list A) : list (A * A) :=
  match l with
  | a :: (b :: _) as l' => (a, b) :: pairs_of l'
  | _ => []
  end.

(** [reduce((x, y) => (ms(y) > ms(x) ? y : x))]. *)
Definition latest (first : jstr) (rest : list jstr) : jstr :=
  fold_left (fun x y => if num_ltb (ms x) (ms y) then y else x) rest first.

(** The body of the loop over the elementary spans. *)
Definition coverage_step (key : jstr) (spans : list CoverageSegment) (bounds : list (option Z * jstr))
    (merged : list CoverageSegment) (ab : option Z * option Z) : list CoverageSegment :=
  let '(a, b) := ab in
  match map confirmedAt (List.filter (fun s => num_leb (ms (s_from s)) a && num_leb b (ms (s_to s))) spans) with
  | [] => merged
  | c :: cs =>
      let at_ := latest c cs in
      let a_ := default [] (jget a bounds) in
      let b_ := default [] (jget b bounds) in
      match last merged with
      | Some l =>
          if num_eqb (ms (s_to l)) a && jeqb (confirmedAt l) at_
          then take (length merged - 1) merged ++ [mkSegment (s_key l) (s_from l) b_ (confirmedAt l)]
          else merged ++ [mkSegment key a_ b_ at_]
      | None => [mkSegment key a_ b_ at_]
      end
  end.

(* src: integrations/timesheets/app/observations.ts 275-321 addCoverage *)
Definition addCoverage (cov : list CoverageSegment) (key from to at_ : jstr) : list CoverageSegment :=
  if negb (num_ltb (ms from) (ms to)) then cov
  else
    let own := List.filter (fun c => jeqb (s_key c) key) cov in
    let others := List.filter (fun c => negb (jeqb (s_key c) key)) cov in
    let spans := own ++ [mkSegment key from to at_] in
    let bounds := bounds_of spans in
    let points := sort_by num_cmp (jkeys bounds) in
    others ++ fold_left (coverage_step key spans bounds) (pairs_of points) [].

(* src: integrations/timesheets/app/observations.ts 323-332 mergeCoverage *)
Definition mergeCoverage (a b : list CoverageSegment) : list CoverageSegment :=
  fold_left (fun acc s => addCoverage acc (s_key s) (s_from s) (s_to s) (confirmedAt s)) b a.

(** [key compare || ms(a.from) - ms(b.from)]. *)
Definition compare_segments (a b : CoverageSegment) : Z :=
  let k := jcmp (s_key a) (s_key b) in
  if k =? 0 then default 0 (num_sub (ms (s_from a)) (ms (s_from b))) else k.

(* src: integrations/timesheets/app/observations.ts 334-339 sortCoverage *)
Definition sortCoverage (cov : list CoverageSegment) : list CoverageSegment := sort_by compare_segments cov.

(** ** The fold *)

Definition apply_upsert (h : ObservationHeader) (rs : list (jstr * MirrorRecord)) (u : CanonicalRecord)
    : list (jstr * MirrorRecord) :=
  let key := recordKey (collection_of (scope h)) (c_id u) in
  let previous := match jget key rs with Some p => m_fields p | None => [] end in
  jset key (mkRecord (c_id u) (collection_of (scope h)) (spread previous (c_fields u)) (receivedAt h) None None) rs.

Definition apply_absent (h : ObservationHeader) (rs : list (jstr * MirrorRecord)) (id : jstr)
    : list (jstr * MirrorRecord) :=
  let key := recordKey (collection_of (scope h)) id in
  match jget key rs with
  | None => rs
  | Some r =>
      if is_id_scope (scope h) then
        jset key (mkRecord (m_id r) (m_collection r) (m_fields r) (lastSeenAt r) None (Some (receivedAt h))) rs
      else if negb (is_set (deletedAt r)) && negb (is_set (absentSince r)) then
        jset key (mkRecord (m_id r) (m_collection r) (m_fields r) (lastSeenAt r) (Some (receivedAt h)) (deletedAt r)) rs
      else rs
  end.

(* src: integrations/timesheets/app/observations.ts 341-374 applyIncremental *)
Definition applyIncremental (m : Mirror) (i : Incremental) : Mirror :=
  let h := header i in
  let rs := fold_left (apply_absent h) (absent i) (fold_left (apply_upsert h) (upserts i) (m_records m)) in
  mkMirror rs
    (match complete h, scope h with
     | true, InRange r => addCoverage (coverage m) (coverageKey r) (r_from r) (r_to r) (receivedAt h)
     | _, _ => coverage m
     end).

Definition position_of (i : Incremental) : Position := mkPosition (receivedAt (header i)) (h_id (header i)).

Definition compare_incrementals (a b : Incremental) : Z :=
  default 0 (comparePositions (position_of a) (position_of b)).

(* src: integrations/timesheets/app/observations.ts 376-391 fold *)
Definition fold (base : Mirror) (incrementals : list Incremental) : Mirror :=
  let m := fold_left applyIncremental (sort_by compare_incrementals incrementals) base in
  mkMirror (m_records m) (sortCoverage (coverage m)).
End Instants.

(** ** Coverage, by instants *)

Section Coverage.
Context (other : jstr -> option Z).
Abbreviation ms := (ms other).
Implicit Types (s : CoverageSegment) (l cov spans : list CoverageSegment).

Definition at_ms (x : jstr) : Z := default 0 (ms x).

(** A segment whose instants are dates, and which is not empty. *)
Definition segment_ok s : Prop :=
  is_Some (ms (s_from s)) /\ is_Some (ms (s_to s)) /\ is_Some (ms (confirmedAt s)) /\
  at_ms (s_from s) < at_ms (s_to s).

Definition contains s (t : Z) : bool := (at_ms (s_from s) <=? t) && (t <? at_ms (s_to s)).

Definition max_opt (a b : option Z) : option Z :=
  match a, b with Some x, Some y => Some (Z.max x y) | Some x, None => Some x | None, y => y end.

(** When an instant was last confirmed. *)
Fixpoint confirmed l (t : Z) : option Z :=
  match l with
  | [] => None
  | s :: l' => if contains s t then max_opt (Some (at_ms (confirmedAt s))) (confirmed l' t) else confirmed l' t
  end.

Definition own (k : jstr) cov : list CoverageSegment := List.filter (fun c => jeqb (s_key c) k) cov.

(** Disjoint, in order. *)
Definition before_seg (x y : CoverageSegment) : Prop := at_ms (s_to x) <= at_ms (s_from y).

Lemma ms_at x : is_Some (ms x) -> ms x = Some (at_ms x).
Proof. intros [v Hv]. unfold at_ms. by rewrite Hv. Qed.

Lemma max_opt_assoc a b c : max_opt a (max_opt b c) = max_opt (max_opt a b) c.
Proof. destruct a, b, c; cbn; try done. f_equal. lia. Qed.
Lemma max_opt_comm a b : max_opt a b = max_opt b a.
Proof. destruct a, b; cbn; try done. f_equal. lia. Qed.

Lemma confirmed_app l k t : confirmed (l ++ k) t = max_opt (confirmed l t) (confirmed k t).
Proof.
  induction l as [|s l IH]; cbn [app confirmed]; [done|]. rewrite IH.
  destruct (contains s t); [by rewrite max_opt_assoc|done].
Qed.

Lemma confirmed_none l t : Forall (fun s => contains s t = false) l -> confirmed l t = None.
Proof. induction 1 as [|s l Hs Hl IH]; cbn; [done|]. by rewrite Hs. Qed.

(** ** The ends of segments *)

Definition bounds_ok (bounds : list (option Z * jstr)) spans : Prop :=
  NoDup (jkeys bounds) /\ (forall k v, jget k bounds = Some v -> ms v = k) /\
  (forall k, is_Some (jget k bounds) <-> exists s, s ∈ spans /\ (k = ms (s_from s) \/ k = ms (s_to s))).

Lemma add_bound_spec m x : NoDup (jkeys m) -> (forall k v, jget k m = Some v -> ms v = k) ->
  NoDup (jkeys (add_bound other m x)) /\
  (forall k v, jget k (add_bound other m x) = Some v -> ms v = k) /\
  (forall k, is_Some (jget k (add_bound other m x)) <-> is_Some (jget k m) \/ k = ms x).
Proof.
  intros Hnd Hv. unfold add_bound. destruct (jget (ms x) m) as [y|] eqn:E.
  - split_and!; [done|done|]. intros k. split; [by left|]. intros [| ->]; [done|by eexists].
  - split_and!; [by apply jset_nodup| |].
    + intros k v. rewrite jget_jset. destruct (decide (k = ms x)) as [->|]; [by intros [= <-]|apply Hv].
    + intros k. rewrite jget_jset. destruct (decide (k = ms x)) as [->|]; [|naive_solver].
      split; [by right|]. by eexists.
Qed.

Lemma bounds_of_ok spans : bounds_ok (bounds_of other spans) spans.
Proof.
  unfold bounds_of. induction spans as [|s spans IH] using rev_ind.
  { split_and!; [constructor|done|]. intros k. split; [by intros [? ?]|by intros (? & ?%elem_of_nil & _)]. }
  rewrite fold_left_app. cbn [fold_left]. destruct IH as (Hnd & Hv & Hk).
  destruct (add_bound_spec _ (s_from s) Hnd Hv) as (Hnd1 & Hv1 & Hk1).
  destruct (add_bound_spec _ (s_to s) Hnd1 Hv1) as (Hnd2 & Hv2 & Hk2).
  split_and!; [done|done|]. intros k. rewrite Hk2, Hk1, Hk. setoid_rewrite elem_of_app.
  setoid_rewrite list_elem_of_singleton. naive_solver.
Qed.

(** The numbers of the bounds in order. *)
Lemma points_sorted spans : Forall segment_ok spans ->
  exists ps, sort_by num_cmp (jkeys (bounds_of other spans)) = map Some ps /\
    StronglySorted Z.lt ps /\
    (forall z, z ∈ ps <-> exists s, s ∈ spans /\ (z = at_ms (s_from s) \/ z = at_ms (s_to s))).
Proof.
  intros Hok. destruct (bounds_of_ok spans) as (Hnd & _ & Hk).
  set (keys := jkeys (bounds_of other spans)) in *.
  assert (Hkeys : forall k, k ∈ keys <-> exists s, s ∈ spans /\ (k = ms (s_from s) \/ k = ms (s_to s))).
  { intros k. rewrite <-Hk. pose proof (jget_None k (bounds_of other spans)) as Hn. fold keys in Hn.
    destruct (jget k (bounds_of other spans)).
    - split; [by eexists|]. intros _. destruct (decide (k ∈ keys)) as [|Hno]; [done|]. apply Hn in Hno. done.
    - split; [|by intros [? ?]]. intros Hin. exfalso. by apply Hn. }
  assert (Hsome : forall k, k ∈ keys -> exists z, k = Some z).
  { intros k (s & Hs & Hks)%Hkeys. rewrite Forall_forall in Hok. destruct (Hok s Hs) as ([x Hx] & [y Hy] & _).
    destruct Hks as [->| ->]; eauto. }
  assert (exists zs, keys = map Some zs) as [zs Hzs].
  { clear -Hsome. induction keys as [|k keys IH]; [by exists []|].
    destruct (Hsome k) as [z ->]; [by left|]. destruct IH as [zs ->]; [intros; apply Hsome; by right|].
    by exists (z :: zs). }
  rewrite Hzs.
  exists (sort_by Z.sub zs). split; [apply sort_by_map_some|].
  assert (Hperm : sort_by Z.sub zs ≡ₚ zs) by apply sort_by_perm.
  split.
  - apply sort_distinct. rewrite Hzs in Hnd. change (map Some zs) with (Some <$> zs) in Hnd. by apply NoDup_fmap_1 in Hnd.
  - intros z. rewrite Hperm. rewrite Hzs in Hkeys. specialize (Hkeys (Some z)).
    rewrite list_elem_of_fmap in Hkeys. split.
    + intros Hz. destruct (proj1 Hkeys ltac:(by exists z)) as (s & Hs & Hv). exists s. split; [done|].
      unfold at_ms. destruct Hv as [<-|<-]; cbn; tauto.
    + intros (s & Hs & Hv). rewrite Forall_forall in Hok. destruct (Hok s Hs) as (H1 & H2 & _).
      apply ms_at in H1, H2. destruct (proj2 Hkeys) as (y & [= ->] & Hy); [|done].
      exists s. split; [done|]. destruct Hv as [->| ->]; rewrite ?H1, ?H2; tauto.
Qed.

(** ** Elementary spans *)

Lemma pairs_of_map {A B} (f : A -> B) (xs : list A) :
  pairs_of (map f xs) = map (fun p => (f p.1, f p.2)) (pairs_of xs).
Proof.
  induction xs as [|x xs IH]; [done|]. destruct xs as [|y xs]; [done|].
  change (pairs_of (map f (x :: y :: xs))) with ((f x, f y) :: pairs_of (map f (y :: xs))).
  by rewrite IH.
Qed.

Lemma at_latest c cs : Forall (fun x => is_Some (ms x)) (c :: cs) ->
  is_Some (ms (latest other c cs)) /\
  at_ms (latest other c cs) = fold_left Z.max (map at_ms cs) (at_ms c).
Proof.
  unfold latest. revert c. induction cs as [|d cs IH]; intros c Hall; [by apply Forall_cons in Hall as [? _]|].
  apply Forall_cons in Hall as [Hc Hall]. apply Forall_cons in Hall as [Hd Hall]. cbn [fold_left map].
  pose proof (ms_at _ Hc) as Ec. pose proof (ms_at _ Hd) as Ed.
  destruct (IH (if num_ltb (ms c) (ms d) then d else c)) as [H1 H2].
  { constructor; [by destruct (num_ltb _ _)|done]. }
  split; [exact H1|]. rewrite H2. f_equal. rewrite Ec, Ed. cbn [num_ltb].
  destruct (at_ms c <? at_ms d) eqn:E; breflect; lia.
Qed.

Lemma fold_max_acc zs a b : fold_left Z.max zs (Z.max a b) = Z.max a (fold_left Z.max zs b).
Proof. revert b. induction zs as [|z zs IH]; intros b; [done|]. cbn. by rewrite <-Z.max_assoc, IH. Qed.

(** The latest of the segments that contain an instant. *)
Lemma confirmed_latest l t : Forall segment_ok l -> Forall (fun s => contains s t = true) l ->
  confirmed l t = match map confirmedAt l with [] => None | c :: cs => Some (at_ms (latest other c cs)) end.
Proof.
  intros Hok Hc. destruct l as [|s l]; [done|]. cbn [map].
  assert (Hall : Forall (fun x => is_Some (ms x)) (map confirmedAt (s :: l))).
  { apply Forall_map. eapply Forall_impl; [exact Hok|]. by intros x (_ & _ & ? & _). }
  rewrite (proj2 (at_latest (confirmedAt s) (map confirmedAt l) Hall)).
  apply Forall_cons in Hc as [Hs Hc]. apply Forall_cons in Hok as [_ Hok]. cbn [confirmed]. rewrite Hs. clear Hs Hall.
  generalize (at_ms (confirmedAt s)). revert Hok Hc. induction l as [|x l IH]; intros Hok Hc z; [done|].
  apply Forall_cons in Hc as [Hx Hc]. apply Forall_cons in Hok as [_ Hok]. cbn [confirmed map fold_left].
  rewrite Hx, max_opt_assoc.
  by apply (IH Hok Hc (Z.max z (at_ms (confirmedAt x)))).
Qed.

Lemma confirmed_filter f l t : (forall s, s ∈ l -> f s = contains s t) ->
  confirmed l t = confirmed (List.filter f l) t.
Proof.
  induction l as [|s l IH]; intros H; [done|]. cbn [confirmed List.filter].
  rewrite (H s) by (by left). destruct (contains s t) eqn:E; cbn [confirmed]; rewrite ?E, IH; try done;
    intros x Hx; apply H; by right.
Qed.

(** What the loop keeps, up to the bound [q]. *)
Record covers (key : jstr) spans (p0 q : Z) (merged : list CoverageSegment) : Prop := {
  covers_ok : Forall segment_ok merged;
  covers_key : Forall (fun s => s_key s = key) merged;
  covers_sorted : StronglySorted before_seg merged;
  covers_end : Forall (fun s => at_ms (s_to s) <= q) merged;
  covers_at : forall t, confirmed merged t = if (p0 <=? t) && (t <? q) then confirmed spans t else None;
}.

Lemma sorted_snoc (merged : list CoverageSegment) x :
  StronglySorted before_seg merged -> Forall (fun y => before_seg y x) merged ->
  StronglySorted before_seg (merged ++ [x]).
Proof.
  induction 1 as [|y l Hl IH Hy]; intros Hall; [repeat constructor|]. cbn [app].
  apply Forall_cons in Hall as [Hyx Hall]. constructor; [by apply IH|].
  apply Forall_app. split; [done|by repeat constructor].
Qed.

Lemma sorted_prefix (merged rest : list CoverageSegment) :
  StronglySorted before_seg (merged ++ rest) -> StronglySorted before_seg merged.
Proof.
  induction merged as [|x l IH]; [constructor|]. cbn [app]. inversion 1 as [|? ? Hl Hx]; subst.
  apply Forall_app in Hx as [Hx _]. constructor; [by apply IH|done].
Qed.

Lemma sorted_last (merged : list CoverageSegment) x :
  StronglySorted before_seg (merged ++ [x]) -> forall y, y ∈ merged -> before_seg y x.
Proof.
  induction merged as [|z l IH]; intros Hs y Hy; [by apply elem_of_nil in Hy|]. cbn [app] in Hs.
  inversion Hs as [|? ? Hl Hz]; subst. apply elem_of_cons in Hy as [->|Hy]; [|by apply IH].
  apply Forall_app in Hz as [_ Hz]. by apply Forall_cons in Hz as [? _].
Qed.

Lemma sorted_head (ps : list Z) p x : StronglySorted Z.lt (p :: ps) -> x ∈ p :: ps -> p <= x.
Proof.
  inversion 1 as [|? ? _ Hall]; subst. rewrite Forall_forall in Hall.
  intros [->|Hx]%elem_of_cons; [lia|]. specialize (Hall x Hx). lia.
Qed.

Lemma sorted_le_last (ps : list Z) x d : StronglySorted Z.lt ps -> x ∈ ps -> x <= List.last ps d.
Proof.
  intros Hs. revert x. induction Hs as [|p ps Hs IH Hall]; intros x Hx; [by apply elem_of_nil in Hx|].
  destruct ps as [|q ps]; [apply list_elem_of_singleton in Hx as ->; cbn; lia|].
  change (List.last (p :: q :: ps) d) with (List.last (q :: ps) d).
  apply elem_of_cons in Hx as [->|Hx]; [|by apply IH].
  apply Forall_cons in Hall as [Hpq _]. assert (q <= List.last (q :: ps) d); [apply IH; left|lia].
Qed.

(** A new last segment that begins where the loop is. *)
Lemma covers_append key spans p0 a b merged x :
  covers key spans p0 a merged -> p0 <= a < b ->
  segment_ok x -> s_key x = key -> at_ms (s_from x) = a -> at_ms (s_to x) = b ->
  (forall t, a <= t < b -> confirmed spans t = Some (at_ms (confirmedAt x))) ->
  covers key spans p0 b (merged ++ [x]).
Proof.
  intros [Hok Hk Hs He Hat] Hab Hx Hkx Hf Ht Hconf. split.
  - apply Forall_app. by split; [|constructor].
  - apply Forall_app. by split; [|constructor].
  - apply sorted_snoc; [done|]. eapply Forall_impl; [exact He|]. intros y Hy. unfold before_seg. by rewrite Hf.
  - apply Forall_app. split; [|constructor; [lia|constructor]]. eapply Forall_impl; [exact He|]. intros y Hy; cbv beta in *; lia.
  - intros t. rewrite confirmed_app, Hat. cbn [confirmed]. unfold contains. rewrite Hf, Ht.
    destruct (Z.leb_spec p0 t), (Z.ltb_spec t a), (Z.ltb_spec t b), (Z.leb_spec a t); cbn [andb max_opt];
      try lia; try done.
    + by destruct (confirmed spans t).
    + rewrite Hconf by lia. done.
Qed.

(** Nothing covers the next elementary span. *)
Lemma covers_skip key spans p0 a b merged :
  covers key spans p0 a merged -> p0 <= a < b ->
  (forall t, a <= t < b -> confirmed spans t = None) -> covers key spans p0 b merged.
Proof.
  intros [Hok Hk Hs He Hat] Hab Hconf. split; try done.
  - eapply Forall_impl; [exact He|]. intros y Hy; cbv beta in *; lia.
  - intros t. rewrite Hat. destruct (Z.leb_spec p0 t), (Z.ltb_spec t a), (Z.ltb_spec t b); cbn [andb]; try lia; try done.
    rewrite Hconf by lia. done.
Qed.

(** The last segment is lengthened. *)
Lemma covers_extend key spans p0 a b merged x b_ :
  covers key spans p0 a (merged ++ [x]) -> p0 <= a < b ->
  at_ms (s_to x) = a -> ms b_ = Some b ->
  (forall t, a <= t < b -> confirmed spans t = Some (at_ms (confirmedAt x))) ->
  covers key spans p0 b (merged ++ [mkSegment (s_key x) (s_from x) b_ (confirmedAt x)]).
Proof.
  intros [Hok Hk Hs He Hat] Hab Hx Hb Hconf.
  apply Forall_app in Hok as [Hok Hxok]. apply Forall_cons in Hxok as [(H1 & H2 & H3 & H4) _].
  apply Forall_app in Hk as [Hk Hkx]. apply Forall_app in He as [He _].
  assert (Hbz : at_ms b_ = b) by (unfold at_ms; by rewrite Hb).
  split.
  - apply Forall_app. split; [done|]. constructor; [|constructor]. split_and!; cbn [s_from s_to confirmedAt];
      [done|by eexists|done|lia].
  - apply Forall_app. split; [done|]. apply Forall_cons in Hkx as [Hkx _]. by constructor.
  - apply sorted_snoc; [by eapply sorted_prefix|]. apply Forall_forall. intros y Hy.
    apply (sorted_last merged x Hs y Hy).
  - apply Forall_app. split; [|constructor; [cbn; lia|constructor]]. eapply Forall_impl; [exact He|]. intros y Hy; cbv beta in *; lia.
  - intros t. specialize (Hat t). rewrite confirmed_app in Hat |- *. cbn [confirmed] in *.
    unfold contains in *. cbn [s_from s_to confirmedAt] in *. rewrite Hx in Hat. rewrite Hbz.
    destruct (Z.leb_spec p0 t), (Z.ltb_spec t a), (Z.ltb_spec t b), (Z.leb_spec (at_ms (s_from x)) t);
      cbn [andb] in *; try lia; try done.
    + rewrite Hconf by lia. destruct (confirmed merged t); [by cbn in Hat|done].
Qed.

(** An end of a segment that is not inside an elementary span. *)
Definition apart (a b e : Z) : Prop := e <= a \/ b <= e.

Lemma contains_span s a b t : apart a b (at_ms (s_from s)) -> apart a b (at_ms (s_to s)) -> a <= t < b ->
  segment_ok s ->
  num_leb (ms (s_from s)) (Some a) && num_leb (Some b) (ms (s_to s)) = contains s t.
Proof.
  unfold apart, contains. intros H1 H2 Ht (Hf & He & _). rewrite (ms_at _ Hf), (ms_at _ He). cbn [num_leb].
  destruct (Z.leb_spec (at_ms (s_from s)) a), (Z.leb_spec b (at_ms (s_to s))), (Z.leb_spec (at_ms (s_from s)) t),
    (Z.ltb_spec t (at_ms (s_to s))); try done; lia.
Qed.

Lemma confirmed_span spans a b t : Forall segment_ok spans ->
  (forall s, s ∈ spans -> apart a b (at_ms (s_from s)) /\ apart a b (at_ms (s_to s))) -> a <= t < b ->
  confirmed spans t =
    match map confirmedAt (List.filter (fun s => num_leb (ms (s_from s)) (Some a) && num_leb (Some b) (ms (s_to s))) spans) with
    | [] => None
    | c :: cs => Some (at_ms (latest other c cs))
    end.
Proof.
  intros Hok Hap Ht. rewrite Forall_forall in Hok.
  assert (Hc : forall s, s ∈ spans ->
    num_leb (ms (s_from s)) (Some a) && num_leb (Some b) (ms (s_to s)) = contains s t).
  { intros s Hs. destruct (Hap s Hs). by apply contains_span; [..|apply Hok]. }
  rewrite (confirmed_filter _ _ _ Hc). apply confirmed_latest; apply Forall_forall; intros s.
  - rewrite list_elem_of_In, filter_In, <-list_elem_of_In. intros [Hs _]. by apply Hok.
  - rewrite list_elem_of_In, filter_In, <-list_elem_of_In. intros [Hs Hb]. by rewrite <-Hc.
Qed.

Lemma coverage_step_covers key spans bounds p0 a b merged va vb :
  Forall segment_ok spans ->
  (forall s, s ∈ spans -> apart a b (at_ms (s_from s)) /\ apart a b (at_ms (s_to s))) ->
  jget (Some a) bounds = Some va -> ms va = Some a -> jget (Some b) bounds = Some vb -> ms vb = Some b ->
  p0 <= a < b -> covers key spans p0 a merged ->
  covers key spans p0 b (coverage_step other key spans bounds merged (Some a, Some b)).
Proof.
  intros Hok Hap Ha Hva Hb Hvb Hab Hcov. unfold coverage_step. rewrite Ha, Hb.
  pose proof (fun t => confirmed_span spans a b t Hok Hap) as Hconf.
  assert (Hall : Forall (fun x => is_Some (ms x)) (map confirmedAt (List.filter (fun s => num_leb (ms (s_from s)) (Some a)
    && num_leb (Some b) (ms (s_to s))) spans))).
  { apply Forall_map, Forall_forall. intros s. rewrite list_elem_of_In, filter_In, <-list_elem_of_In.
    intros [Hs _]. rewrite Forall_forall in Hok. by destruct (Hok s Hs) as (_ & _ & ? & _). }
  destruct (map confirmedAt _) as [|c cs]; [by eapply covers_skip|].
  apply at_latest in Hall as [Hat _]. cbv zeta. cbn [default].
  set (x := mkSegment key va vb (latest other c cs)).
  assert (Hfa : at_ms va = a) by (unfold at_ms; by rewrite Hva).
  assert (Htb : at_ms vb = b) by (unfold at_ms; by rewrite Hvb).
  assert (Happ : covers key spans p0 b (merged ++ [x])).
  { eapply covers_append; [exact Hcov|done| |done|done|done|exact Hconf].
    split_and!; cbn [s_from s_to confirmedAt x]; [by eexists|by eexists|done|lia]. }
  destruct (last merged) as [l|] eqn:El.
  - apply last_Some in El as [m' ->].
    destruct (num_eqb (ms (s_to l)) (Some a) && jeqb (confirmedAt l) (latest other c cs)) eqn:E; [|exact Happ].
    apply andb_true_iff in E as [E1 E2]. apply bool_decide_eq_true in E2.
    rewrite length_app. cbn [length]. replace (length m' + 1 - 1)%nat with (length m') by lia.
    rewrite take_app_length. apply (covers_extend _ _ _ a); [done|done| |done|by rewrite E2].
    unfold at_ms. destruct (ms (s_to l)); [|done]. cbn in E1 |- *. lia.
  - apply last_None in El as ->. exact Happ.
Qed.

Lemma coverage_loop key spans bounds p0 rest : forall a merged,
  Forall segment_ok spans -> StronglySorted Z.lt (a :: rest) -> p0 <= a ->
  (forall s, s ∈ spans -> forall e, e = at_ms (s_from s) \/ e = at_ms (s_to s) -> e <= a \/ e ∈ rest) ->
  (forall e, e ∈ a :: rest -> exists v, jget (Some e) bounds = Some v /\ ms v = Some e) ->
  covers key spans p0 a merged ->
  covers key spans p0 (List.last (a :: rest) a)
    (fold_left (coverage_step other key spans bounds) (pairs_of (map Some (a :: rest))) merged).
Proof.
  induction rest as [|b rest IH]; intros a merged Hok Hs Hp Hends Hb Hcov; [done|].
  inversion Hs as [|? ? Hs' Hall]; subst. apply Forall_cons in Hall as [Hab Har].
  change (pairs_of (map Some (a :: b :: rest))) with ((Some a, Some b) :: pairs_of (map Some (b :: rest))).
  cbn [fold_left].
  assert (Hlast : List.last (a :: b :: rest) a = List.last (b :: rest) b).
  { change (List.last (a :: b :: rest) a) with (List.last (b :: rest) a). clear.
    revert a b. induction rest as [|c rest IH]; intros a b; [done|].
    change (List.last (c :: rest) a = List.last (c :: rest) b). by rewrite (IH a c), (IH b c). }
  rewrite Hlast. apply IH; [done|done|lia| | |].
  - intros s Hin e He. destruct (Hends s Hin e He) as [|[->|]%elem_of_cons]; [left; lia|left; lia|by right].
  - intros e He. apply Hb. by right.
  - destruct (Hb a) as (va & Ha & Hva); [by left|]. destruct (Hb b) as (vb & Hbb & Hvb); [by right; left|].
    eapply coverage_step_covers; [done| |exact Ha|done|exact Hbb|done|lia|done].
    inversion Hs' as [|? ? _ Hbr]; subst. rewrite Forall_forall in Hbr. unfold apart.
    intros s Hin. split.
    + destruct (Hends s Hin _ (or_introl eq_refl)) as [|[->|H]%elem_of_cons]; [by left|by right|].
      right. specialize (Hbr _ H). lia.
    + destruct (Hends s Hin _ (or_intror eq_refl)) as [|[->|H]%elem_of_cons]; [by left|by right|].
      right. specialize (Hbr _ H). lia.
Qed.

(** The segments the loop leaves cover what the spans cover. *)
Lemma coverage_merged key spans : spans <> [] -> Forall segment_ok spans ->
  let bounds := bounds_of other spans in
  let merged := fold_left (coverage_step other key spans bounds)
    (pairs_of (sort_by num_cmp (jkeys bounds))) [] in
  Forall segment_ok merged /\ Forall (fun s => s_key s = key) merged /\ StronglySorted before_seg merged /\
  (forall t, confirmed merged t = confirmed spans t).
Proof.
  intros Hne Hok bounds merged. destruct (points_sorted spans Hok) as (ps & Hps & Hs & Hin).
  destruct (bounds_of_ok spans) as (_ & Hv & Hk). fold bounds in Hps, Hv, Hk. subst merged. rewrite Hps.
  assert (Hends : forall s, s ∈ spans -> at_ms (s_from s) ∈ ps /\ at_ms (s_to s) ∈ ps).
  { intros s Hsp. split; apply Hin; eauto. }
  destruct ps as [|p0 rest].
  { destruct spans as [|s l]; [done|]. destruct (Hends s) as [[]%elem_of_nil _]. by left. }
  assert (Hle : forall s, s ∈ spans -> p0 <= at_ms (s_from s) /\ at_ms (s_to s) <= List.last (p0 :: rest) p0).
  { intros s Hsp. destruct (Hends s Hsp) as [H1 H2]. split; [by eapply sorted_head|by eapply sorted_le_last]. }
  destruct (coverage_loop key spans bounds p0 rest p0 []) as [H1 H2 H3 _ H5]; try done.
  - intros s Hsp e He. destruct (Hends s Hsp) as [E1 E2].
    assert (He' : e ∈ p0 :: rest) by (by destruct He as [->| ->]).
    apply elem_of_cons in He' as [->|]; [left; lia|by right].
  - intros e (s & Hsp & He)%Hin. rewrite Forall_forall in Hok. destruct (Hok s Hsp) as (Hf & Ht & _).
    destruct (proj2 (Hk (Some e))) as [v Hget].
    { exists s. split; [done|]. destruct He as [->| ->]; [left|right]; by rewrite ms_at. }
    exists v. split; [done|by apply Hv].
  - split; try constructor. intros t. cbn [confirmed]. by destruct (Z.leb_spec p0 t), (Z.ltb_spec t p0); try lia.
  - split_and!; [done..|]. intros t. rewrite H5. destruct ((p0 <=? t) && (t <? List.last (p0 :: rest) p0)) eqn:E; [done|].
    symmetry. apply confirmed_none, Forall_forall. intros s Hsp. destruct (Hle s Hsp). unfold contains.
    apply andb_false_iff in E. apply andb_false_iff. destruct E as [E|E]; breflect; [left|right]; lia.
Qed.

Lemma own_app k l l' : own k (l ++ l') = own k l ++ own k l'.
Proof. apply List.filter_app. Qed.

Lemma own_all k l : Forall (fun s => s_key s = k) l -> own k l = l.
Proof.
  induction 1 as [|s l Hs Hl IH]; [done|]. unfold own. cbn [List.filter]. rewrite Hs. unfold jeqb at 1. rewrite bool_decide_true by done.
  f_equal. exact IH.
Qed.

Lemma own_none k l : Forall (fun s => s_key s <> k) l -> own k l = [].
Proof.
  induction 1 as [|s l Hs Hl IH]; [done|]. unfold own. cbn [List.filter].
  unfold jeqb at 1. rewrite bool_decide_false by done. exact IH.
Qed.

Lemma own_others k key cov : k <> key -> own k (List.filter (fun c => negb (jeqb (s_key c) key)) cov) = own k cov.
Proof.
  intros Hk. induction cov as [|s l IH]; [done|]. unfold own in *. cbn [List.filter].
  destruct (jeqb (s_key s) key) eqn:E; cbn [negb List.filter]; [|by rewrite IH].
  apply bool_decide_eq_true in E. assert (jeqb (s_key s) k = false) as ->; [|exact IH].
  apply bool_decide_eq_false. congruence.
Qed.

Lemma own_keys k cov : Forall (fun s => s_key s = k) (own k cov).
Proof.
  apply Forall_forall. intros s. unfold own. rewrite list_elem_of_In, filter_In. intros [_ H].
  by apply bool_decide_eq_true in H.
Qed.

Lemma own_ok k cov : Forall segment_ok cov -> Forall segment_ok (own k cov).
Proof.
  rewrite !Forall_forall. intros H s. unfold own. rewrite list_elem_of_In, filter_In, <-list_elem_of_In.
  intros [Hs _]. by apply H.
Qed.

(** The segments of a key made anew from spans. *)
Definition rebuilt (key : jstr) spans : list CoverageSegment :=
  let bounds := bounds_of other spans in
  fold_left (coverage_step other key spans bounds)
    (pairs_of (sort_by num_cmp (jkeys bounds))) [].

Lemma latest_elem c cs : latest other c cs ∈ c :: cs.
Proof.
  unfold latest. revert c. induction cs as [|d cs IH]; intros c; [by left|]. cbn [fold_left].
  destruct (num_ltb (ms c) (ms d)); [by right|]. specialize (IH c).
  apply elem_of_cons in IH as [->|IH]; [by left|by right; right].
Qed.

(** A segment is confirmed when a read says so. *)
Lemma coverage_step_times key spans bounds merged ab x :
  Forall (fun s => confirmedAt s ∈ map confirmedAt spans) merged ->
  x ∈ coverage_step other key spans bounds merged ab -> confirmedAt x ∈ map confirmedAt spans.
Proof.
  intros Hm. unfold coverage_step. destruct ab as [a b]. rewrite Forall_forall in Hm.
  destruct (map confirmedAt (List.filter (fun s => num_leb (ms (s_from s)) a && num_leb b (ms (s_to s))) spans))
    as [|c cs] eqn:E; [by intros ?%Hm|].
  assert (Hl : latest other c cs ∈ map confirmedAt spans).
  { assert (Hin := latest_elem c cs). rewrite <-E in Hin. apply list_elem_of_fmap in Hin as (y & -> & Hy).
    rewrite list_elem_of_In, filter_In, <-list_elem_of_In in Hy. by apply list_elem_of_fmap_2, Hy. }
  cbv zeta. destruct (last merged) as [l|] eqn:El; [destruct (num_eqb _ _ && jeqb _ _)|].
  - apply last_Some in El as [m' ->]. rewrite length_app. cbn [length].
    replace (length m' + 1 - 1)%nat with (length m') by lia. rewrite take_app_length.
    rewrite elem_of_app, list_elem_of_singleton. intros [Hx| ->]; [apply Hm; set_solver|].
    cbn [confirmedAt]. apply Hm. set_solver.
  - rewrite elem_of_app, list_elem_of_singleton. by intros [?%Hm| ->].
  - by intros ->%list_elem_of_singleton.
Qed.

Lemma addCoverage_times cov key from to at_ x : x ∈ addCoverage other cov key from to at_ ->
  confirmedAt x = at_ \/ exists y, y ∈ cov /\ confirmedAt x = confirmedAt y.
Proof.
  unfold addCoverage. destruct (negb _); [by right; exists x|]. cbv zeta.
  set (spans := own key cov ++ [mkSegment key from to at_]).
  change (List.filter (fun c => jeqb (s_key c) key) cov ++ [mkSegment key from to at_]) with spans.
  rewrite elem_of_app. intros [Hx|Hx].
  { right. exists x. rewrite list_elem_of_In, filter_In, <-list_elem_of_In in Hx. by destruct Hx. }
  enough (Ht : confirmedAt x ∈ map confirmedAt spans).
  { unfold spans in Ht. rewrite map_app in Ht. apply elem_of_app in Ht as [Ht|Ht]; [right|left].
    - apply list_elem_of_fmap in Ht as (y & -> & Hy). exists y. unfold own in Hy.
      rewrite list_elem_of_In, filter_In, <-list_elem_of_In in Hy. by destruct Hy.
    - by apply list_elem_of_singleton in Ht. }
  revert x Hx. apply Forall_forall. generalize (pairs_of (sort_by num_cmp (jkeys (bounds_of other spans)))).
  intros ps. enough (H : forall merged, Forall (fun s => confirmedAt s ∈ map confirmedAt spans) merged ->
    Forall (fun s => confirmedAt s ∈ map confirmedAt spans)
      (fold_left (coverage_step other key spans (bounds_of other spans)) ps merged)) by (apply H; constructor).
  induction ps as [|ab ps IH]; intros merged Hm; [done|]. cbn [fold_left]. apply IH, Forall_forall.
  intros y. by apply coverage_step_times.
Qed.

(** What one segment adds to the instants of its key. *)
Lemma addCoverage_spec cov s : Forall segment_ok cov -> segment_ok s ->
  let cov' := addCoverage other cov (s_key s) (s_from s) (s_to s) (confirmedAt s) in
  Forall segment_ok cov' /\
  (forall k, k <> s_key s -> own k cov' = own k cov) /\
  own (s_key s) cov' = rebuilt (s_key s) (own (s_key s) cov ++ [s]) /\
  StronglySorted before_seg (own (s_key s) cov') /\
  (forall t, confirmed (own (s_key s) cov') t = confirmed (own (s_key s) cov ++ [s]) t).
Proof.
  intros Hok Hs cov'. subst cov'. unfold addCoverage.
  destruct (id Hs) as (Hf & Ht & Hc & Hlt). rewrite (ms_at _ Hf), (ms_at _ Ht). cbn [num_ltb].
  rewrite (proj2 (Z.ltb_lt _ _) Hlt). cbn [negb]. destruct s as [key from to at_]. cbn [s_key s_from s_to confirmedAt].
  change (List.filter (fun c => jeqb (s_key c) key) cov) with (own key cov).
  set (spans := own key cov ++ [mkSegment key from to at_]).
  assert (Hsp : Forall segment_ok spans).
  { apply Forall_app. split; [by apply own_ok|by repeat constructor]. }
  destruct (coverage_merged key spans) as (H1 & H2 & H3 & H4); [by destruct (own key cov)|done|]. cbv zeta.
  fold (rebuilt key spans). set (merged := rebuilt key spans).
  assert (Hown : own key (List.filter (fun c => negb (jeqb (s_key c) key)) cov ++ merged) = merged).
  { rewrite own_app, (own_all key merged), own_none; [done| |done].
    apply Forall_forall. intros s. rewrite list_elem_of_In, filter_In. intros [_ E] Hk.
    unfold jeqb in E. by rewrite Hk, bool_decide_true in E. }
  change (fold_left _ _ _) with merged in H1, H2, H3, H4. rewrite Hown. split_and!; try done.
  - apply Forall_app. split; [|done]. rewrite Forall_forall in *. intros s.
    rewrite list_elem_of_In, filter_In, <-list_elem_of_In. intros [Hin _]. by apply Hok.
  - intros k Hk. rewrite own_app, own_others by done. rewrite (own_none k merged), app_nil_r; [done|].
    eapply Forall_impl; [exact H2|]. intros s Es. cbv beta in *. congruence.
Qed.

Lemma mergeCoverage_spec (a b : list CoverageSegment) :
  Forall segment_ok a -> Forall segment_ok b -> (forall k, StronglySorted before_seg (own k a)) ->
  Forall segment_ok (mergeCoverage other a b) /\
  forall k, StronglySorted before_seg (own k (mergeCoverage other a b)) /\
    forall t, confirmed (own k (mergeCoverage other a b)) t = max_opt (confirmed (own k a) t) (confirmed (own k b) t).
Proof.
  intros Ha Hb. unfold mergeCoverage. revert a Ha. induction Hb as [|s b Hs Hb IH]; intros a Ha Hsort.
  { split; [done|]. intros k. split; [apply Hsort|]. intros t. by destruct (confirmed _ _). }
  cbn [fold_left]. destruct (addCoverage_spec a s Ha Hs) as (H1 & H2 & _ & H3 & H4).
  set (a' := addCoverage _ _ _ _ _ _) in *. destruct (IH a' H1) as [G1 G2].
  { intros k. destruct (decide (k = s_key s)) as [->|Hk]; [done|]. by rewrite H2. }
  split; [done|]. intros k. destruct (G2 k) as [G3 G4]. split; [done|]. intros t. rewrite G4.
  change (own k (s :: b)) with (own k ([s] ++ b)). rewrite own_app, confirmed_app, max_opt_assoc. f_equal.
  destruct (decide (k = s_key s)) as [->|Hk].
  - by rewrite H4, confirmed_app, (own_all (s_key s) [s]) by by repeat constructor.
  - rewrite H2 by done. rewrite (own_none k [s]) by (constructor; [congruence|done]). by destruct (confirmed _ _).
Qed.

(** [mergeCoverage] of two lists of well-formed segments is
    well-formed, keeps the segments of each key disjoint and in order, and says
    of every key and every instant the latest time at which either list
    confirmed it; an instant neither covers is not covered by the result. *)
Theorem mergeCoverage_latest (a b : list CoverageSegment) :
  Forall segment_ok a -> Forall segment_ok b -> (forall k, StronglySorted before_seg (own k a)) ->
  Forall segment_ok (mergeCoverage other a b) /\
  forall k, StronglySorted before_seg (own k (mergeCoverage other a b)) /\
    forall t, confirmed (own k (mergeCoverage other a b)) t = max_opt (confirmed (own k a) t) (confirmed (own k b) t).
Proof. apply mergeCoverage_spec. Qed.
End Coverage.

(** ** The fold *)

Section Fold.
Context (other : jstr -> option Z).
Abbreviation ms := (ms other).
Abbreviation at_ms := (at_ms other).
Abbreviation segment_ok := (segment_ok other).
Abbreviation before_seg := (before_seg other).
Implicit Types (i j : Incremental) (m : Mirror) (c : list CoverageSegment).

(** An observation received at a date. *)
Definition dated i : Prop := is_Some (ms (receivedAt (header i))).

(** The order of observations: by instant, then by the string, then by id. *)
Definition order : Incremental -> Incremental -> Z :=
  lex (fun i j => at_ms (receivedAt (header i)) - at_ms (receivedAt (header j)))
    (lex (fun i j => jcmp (receivedAt (header i)) (receivedAt (header j)))
         (fun i j => jcmp (h_id (header i)) (h_id (header j)))).

#[export] Instance order_comparator : Comparator order.
Proof.
  apply lex_comparator; [exact (on_comparator (fun i => at_ms (receivedAt (header i))) Z.sub)|].
  apply lex_comparator; [exact (on_comparator (fun i => receivedAt (header i)) jcmp)|].
  exact (on_comparator (fun i => h_id (header i)) jcmp).
Qed.

Lemma jcmp_branch a b : jeqb a b = false -> (if jltb a b then -1 else 1) = jcmp a b.
Proof.
  intros H%bool_decide_eq_false. unfold jcmp. destruct (jltb a b) eqn:E; [done|].
  destruct (jltb b a) eqn:E'; [done|]. by destruct H; apply jltb_total.
Qed.

Lemma jcmp_zero a b : jcmp a b = 0 <-> a = b.
Proof.
  unfold jcmp. split; [|intros ->; by rewrite jltb_irrefl].
  destruct (jltb a b) eqn:E1; [done|]. destruct (jltb b a) eqn:E2; [done|]. intros _. by apply jltb_total.
Qed.

Lemma order_spec i j : dated i -> dated j -> compare_incrementals other i j = order i j.
Proof.
  unfold dated, compare_incrementals, comparePositions, position_of, order, lex. cbn [p_receivedAt p_id].
  intros Hi%ms_at Hj%ms_at. rewrite Hi, Hj. cbn [num_sub num_eqb].
  destruct (at_ms (receivedAt (header i)) - at_ms (receivedAt (header j)) =? 0) eqn:Ez; cbn [negb]; [|done].
  destruct (jeqb (receivedAt (header i)) (receivedAt (header j))) eqn:Er; cbn [negb].
  - apply bool_decide_eq_true in Er. rewrite Er, (proj2 (jcmp_zero _ _) eq_refl). cbn [Z.eqb].
    destruct (jeqb (h_id (header i)) (h_id (header j))) eqn:Ei.
    + apply bool_decide_eq_true in Ei. by rewrite Ei, (proj2 (jcmp_zero _ _) eq_refl).
    + change (default 0 (Some (if jltb (h_id (header i)) (h_id (header j)) then -1 else 1)) =
        jcmp (h_id (header i)) (h_id (header j))). by apply jcmp_branch.
  - change (default 0 (Some ?x)) with x. rewrite (jcmp_branch _ _ Er).
    destruct (Z.eqb_spec (jcmp (receivedAt (header i)) (receivedAt (header j))) 0) as [E|]; [|done].
    apply jcmp_zero in E. apply bool_decide_eq_false in Er. done.
Qed.

Lemma order_id i j : order i j = 0 -> h_id (header i) = h_id (header j).
Proof.
  unfold order, lex. repeat case_match; breflect; try lia. by intros ?%jcmp_zero.
Qed.

(** A set of observations: an id names one of them. *)
Definition by_ids (l : list Incremental) : Prop :=
  Forall dated l /\ forall i j, i ∈ l -> j ∈ l -> h_id (header i) = h_id (header j) -> i = j.

Lemma sort_order l : Forall dated l -> sort_by (compare_incrementals other) l = sort_by order l.
Proof. rewrite Forall_forall. intros H. apply sort_by_ext. intros i j Hi Hj. by apply order_spec; apply H. Qed.

(** C37 (equivalence). Folding any permutation of a set of observations gives
    the same mirror, records, their order and coverage. *)
Theorem fold_permutation (base : Mirror) (xs ys : list Incremental) :
  by_ids xs -> xs ≡ₚ ys -> fold other base xs = fold other base ys.
Proof.
  intros [Hd Hid] Hp. unfold fold. rewrite !sort_order; [|by rewrite <-Hp|done].
  rewrite (sort_by_permutation order xs ys); [done| |done].
  intros i j Hi Hj H%order_id. by apply Hid.
Qed.
(** Well-formed coverage: dated segments, disjoint and in order for each key. *)
Definition coverage_ok c : Prop := Forall segment_ok c /\ forall k, StronglySorted before_seg (own k c).

(** Coverage that differs only in how the keys are mixed. *)
Definition same_coverage c c' : Prop := forall k, own k c = own k c'.

Lemma sorted_tri c x y : StronglySorted before_seg c -> x ∈ c -> y ∈ c -> x = y \/ before_seg x y \/ before_seg y x.
Proof.
  induction 1 as [|z c Hc IH Hz]; intros Hx Hy; [by apply elem_of_nil in Hx|]. rewrite Forall_forall in Hz.
  apply elem_of_cons in Hx as [->|Hx]; apply elem_of_cons in Hy as [->|Hy]; auto.
Qed.

(** In well-formed coverage, a key and a start name a segment. *)
Lemma coverage_start c x y : coverage_ok c -> x ∈ c -> y ∈ c -> s_key x = s_key y ->
  at_ms (s_from x) = at_ms (s_from y) -> x = y.
Proof.
  intros [Hok Hs] Hx Hy Hk Hf. rewrite Forall_forall in Hok.
  destruct (Hok x Hx) as (_ & _ & _ & Hx'). destruct (Hok y Hy) as (_ & _ & _ & Hy').
  assert (Hin : forall z, z ∈ c -> s_key z = s_key x -> z ∈ own (s_key x) c).
  { intros z Hz Ez. unfold own. rewrite list_elem_of_In, filter_In, <-list_elem_of_In. split; [done|].
    by apply bool_decide_eq_true. }
  destruct (sorted_tri _ x y (Hs (s_key x))) as [|[H|H]]; [by apply Hin|by apply Hin|done| |];
    unfold Observations.before_seg in H; lia.
Qed.

Definition segments_order : CoverageSegment -> CoverageSegment -> Z :=
  lex (fun x y => jcmp (s_key x) (s_key y)) (fun x y => at_ms (s_from x) - at_ms (s_from y)).

#[export] Instance segments_comparator : Comparator segments_order.
Proof.
  apply lex_comparator; [exact (on_comparator s_key jcmp)|exact (on_comparator (fun x => at_ms (s_from x)) Z.sub)].
Qed.

Lemma sortCoverage_order c : coverage_ok c -> sortCoverage other c = sort_by segments_order c.
Proof.
  intros [Hok _]. rewrite Forall_forall in Hok. unfold sortCoverage. apply sort_by_ext. intros x y Hx Hy.
  destruct (Hok x Hx) as (Hfx & _). destruct (Hok y Hy) as (Hfy & _).
  unfold compare_segments, segments_order, lex. by rewrite (ms_at _ _ Hfx), (ms_at _ _ Hfy).
Qed.

#[export] Instance segment_eq_dec : EqDecision CoverageSegment.
Proof. solve_decision. Defined.

Lemma own_count c x : count_occ (decide_rel eq) c x = count_occ (decide_rel eq) (own (s_key x) c) x.
Proof.
  induction c as [|y c IH]; [done|]. unfold own in *. cbn [List.filter count_occ]. rewrite IH.
  destruct (decide_rel eq y x) as [->|Hn].
  - assert (jeqb (s_key x) (s_key x) = true) as -> by by apply bool_decide_eq_true.
    cbn [count_occ]. by destruct (decide_rel eq x x).
  - destruct (jeqb (s_key y) (s_key x)); [|done]. cbn [count_occ]. by destruct (decide_rel eq y x).
Qed.

Lemma same_coverage_perm c c' : same_coverage c c' -> c ≡ₚ c'.
Proof.
  intros H. apply (Permutation_count_occ (decide_rel eq)). intros x. by rewrite (own_count c), (own_count c'), H.
Qed.

(** Sorting well-formed coverage forgets how the keys were mixed. *)
Lemma sortCoverage_same c c' : coverage_ok c -> coverage_ok c' -> same_coverage c c' ->
  sortCoverage other c = sortCoverage other c'.
Proof.
  intros Hc Hc' H. rewrite !sortCoverage_order by done. apply sort_by_permutation; [apply _| |by apply same_coverage_perm].
  intros x y Hx Hy. unfold segments_order, lex. case_match; breflect; [|lia]. intros Hf.
  apply (coverage_start c); [done|done|done|by apply jcmp_zero|lia].
Qed.
(** Sorting well-formed coverage does not reorder the segments of a key. *)
Lemma sorted_filter (R : CoverageSegment -> CoverageSegment -> Prop) (P : CoverageSegment -> bool) c :
  StronglySorted R c -> StronglySorted R (List.filter P c).
Proof.
  induction 1 as [|x c Hc IH Hx]; [constructor|]. cbn [List.filter]. destruct (P x); [|done].
  constructor; [done|]. rewrite Forall_forall in *. intros y. rewrite list_elem_of_In, filter_In, <-list_elem_of_In.
  intros [Hy _]. by apply Hx.
Qed.

Lemma own_sort c k : coverage_ok c -> own k (sortCoverage other c) = own k c.
Proof.
  intros Hc. rewrite sortCoverage_order by done.
  apply (StronglySorted_unique_strong (fun x y => at_ms (s_from x) <= at_ms (s_from y))).
  - intros x y Hx Hy H1 H2. pose proof (own_keys k (sort_by segments_order c)) as Kx.
    pose proof (own_keys k c) as Ky. rewrite Forall_forall in Kx, Ky.
    apply (coverage_start c); [done| | |by rewrite Kx, Ky|lia].
    + revert Hx. unfold own. rewrite list_elem_of_In, filter_In, <-list_elem_of_In, sort_by_perm. by intros [? _].
    + revert Hy. unfold own. rewrite list_elem_of_In, filter_In, <-list_elem_of_In. by intros [? _].
  - assert (Hs : StronglySorted (le_by segments_order) (own k (sort_by segments_order c))).
    { apply sorted_filter, (sort_by_comparator segments_order). }
    pose proof (own_keys k (sort_by segments_order c)) as Hk. revert Hs Hk.
    induction 1 as [|x l Hl IH Hx]; intros Hk; [constructor|]. apply Forall_cons in Hk as [Kx Hk].
    constructor; [by apply IH|]. rewrite Forall_forall in *. intros y Hy. specialize (Hx y Hy).
    unfold le_by, segments_order, lex in Hx. rewrite Kx, (Hk y Hy), (proj2 (jcmp_zero k k) eq_refl) in Hx.
    cbn [Z.eqb] in Hx. lia.
  - destruct Hc as [Hok Hs]. specialize (Hs k). apply (own_ok other k) in Hok. revert Hs Hok.
    induction 1 as [|x l Hl IH Hx]; intros Hok; [constructor|].
    apply Forall_cons in Hok as [(_ & _ & _ & Hlt) Hok]. constructor; [by apply IH|].
    eapply Forall_impl; [exact Hx|]. intros y Hy. unfold Observations.before_seg in Hy. lia.
  - unfold own. apply filter_perm, sort_by_perm.
Qed.

Lemma sort_ok c : coverage_ok c -> coverage_ok (sortCoverage other c).
Proof.
  intros Hc. split; [|intros k; rewrite own_sort by done; apply Hc].
  destruct Hc as [Hok Hs]. unfold sortCoverage. by rewrite sort_by_perm.
Qed.

(** ** What an observation does to a mirror *)

Definition add_span c (s : CoverageSegment) : list CoverageSegment :=
  addCoverage other c (s_key s) (s_from s) (s_to s) (confirmedAt s).

(** A confirmed range either is a segment or adds nothing. *)
Lemma range_segment key from to at_ : is_Some (ms at_) -> num_ltb (ms from) (ms to) = true ->
  segment_ok (mkSegment key from to at_).
Proof.
  intros Hat E. destruct (ms from) as [f|] eqn:Ef; [|done]. destruct (ms to) as [t|] eqn:Et; [|done].
  split_and!; cbn [s_from s_to confirmedAt]; [by eexists|by eexists|done|].
  unfold Observations.at_ms. rewrite Ef, Et. cbn in E |- *. lia.
Qed.

Lemma addCoverage_cases c key from to at_ : is_Some (ms at_) ->
  segment_ok (mkSegment key from to at_) \/ addCoverage other c key from to at_ = c.
Proof.
  intros Hat. destruct (num_ltb (ms from) (ms to)) eqn:E; [left; by apply range_segment|right].
  unfold addCoverage. by rewrite E.
Qed.

Lemma addCoverage_ok c s : coverage_ok c -> segment_ok s -> coverage_ok (add_span c s).
Proof.
  intros [Hok Hs] Hseg. destruct (addCoverage_spec other c s Hok Hseg) as (H1 & H2 & _ & H3 & _).
  split; [done|]. intros k. destruct (decide (k = s_key s)) as [->|Hk]; [done|]. unfold add_span. by rewrite H2.
Qed.

Lemma addCoverage_same c c' s : coverage_ok c -> coverage_ok c' -> segment_ok s -> same_coverage c c' ->
  same_coverage (add_span c s) (add_span c' s).
Proof.
  intros [Hok _] [Hok' _] Hs H k. unfold add_span.
  destruct (addCoverage_spec other c s Hok Hs) as (_ & H2 & H3 & _).
  destruct (addCoverage_spec other c' s Hok' Hs) as (_ & H2' & H3' & _).
  destruct (decide (k = s_key s)) as [->|Hk]; [by rewrite H3, H3', H|by rewrite H2, H2', H].
Qed.

(** Mirrors with the same records and the same coverage up to the mixing of keys. *)
Record same_mirror m m' : Prop := {
  same_records : m_records m = m_records m';
  same_ok : coverage_ok (coverage m);
  same_ok' : coverage_ok (coverage m');
  same_cov : same_coverage (coverage m) (coverage m');
}.

Lemma apply_same i m m' : dated i -> same_mirror m m' ->
  same_mirror (applyIncremental other m i) (applyIncremental other m' i).
Proof.
  intros Hi [Hr Hok Hok' Hc]. unfold applyIncremental. rewrite Hr.
  destruct (complete (header i)), (scope (header i)) as [r|r]; try by split.
  destruct (addCoverage_cases (coverage m) (coverageKey r) (r_from r) (r_to r) _ Hi) as [Hs|E];
    destruct (addCoverage_cases (coverage m') (coverageKey r) (r_from r) (r_to r) _ Hi) as [Hs'|E'].
  - split; cbn [m_records coverage]; [done|by apply (addCoverage_ok _ _ Hok Hs)|by apply (addCoverage_ok _ _ Hok' Hs)|
      by apply (addCoverage_same _ _ _ Hok Hok' Hs)].
  - split; cbn [m_records coverage]; [done|by apply (addCoverage_ok _ _ Hok Hs)|by apply (addCoverage_ok _ _ Hok' Hs)|
      by apply (addCoverage_same _ _ _ Hok Hok' Hs)].
  - split; cbn [m_records coverage]; [done|by apply (addCoverage_ok _ _ Hok Hs')|by apply (addCoverage_ok _ _ Hok' Hs')|
      by apply (addCoverage_same _ _ _ Hok Hok' Hs')].
  - rewrite E, E'. by split.
Qed.

Lemma apply_all_same l m m' : Forall dated l -> same_mirror m m' ->
  same_mirror (fold_left (applyIncremental other) l m) (fold_left (applyIncremental other) l m').
Proof.
  intros Hl. revert m m'. induction Hl as [|i l Hi Hl IH]; intros m m' H; [done|].
  cbn [fold_left]. by apply IH, apply_same.
Qed.

(** A snapshot may stand for a prefix of the log: folding the
    rest onto the fold of a prefix gives the fold of everything, when nothing
    in the rest sorts before the prefix. *)
Theorem fold_snapshot (base : Mirror) (pre rest : list Incremental) :
  coverage_ok (coverage base) -> by_ids (pre ++ rest) ->
  (forall i j, i ∈ pre -> j ∈ rest -> compare_incrementals other i j <= 0) ->
  fold other (fold other base pre) rest = fold other base (pre ++ rest).
Proof.
  intros Hbase [Hd Hid] Hle. pose proof Hd as [Hdp Hdr]%Forall_app. unfold fold at 1 3.
  rewrite !sort_order by done.
  assert (Happ : sort_by order (pre ++ rest) = sort_by order pre ++ sort_by order rest).
  { apply (sort_by_app order).
    - intros i j Hi Hj H%order_id. by apply Hid.
    - intros i j Hi Hj. rewrite Forall_forall in Hdp, Hdr.
      rewrite <-order_spec; [by apply Hle|by apply Hdp|by apply Hdr]. }
  rewrite Happ, fold_left_app.
  unfold fold. rewrite sort_order by done. set (m := fold_left _ (sort_by order pre) base).
  assert (Hm : same_mirror m m).
  { apply apply_all_same; [by rewrite sort_by_perm|by split]. }
  assert (H : same_mirror (mkMirror (m_records m) (sortCoverage other (coverage m))) m).
  { split; cbn [m_records coverage]; [done|apply sort_ok, Hm|apply Hm|]. intros k. apply own_sort, Hm. }
  apply (apply_all_same (sort_by order rest)) in H; [|by rewrite sort_by_perm]. destruct H as [-> H1 H2 H3].
  f_equal. by apply sortCoverage_same.
Qed.
End Fold.

(** ** A read and its difference *)

Section Diff.
Context (other : jstr -> option Z).
Implicit Types (h : ObservationHeader) (m : Mirror) (rs : list (jstr * MirrorRecord)).

(** A mirror's records are under their keys. *)
Definition records_ok rs : Prop :=
  NoDup (jkeys rs) /\ forall k r, jget k rs = Some r -> k = recordKey (m_collection r) (m_id r).

Lemma recordKey_inj c i j : recordKey c i = recordKey c j -> i = j.
Proof. unfold recordKey. by intros H%app_inv_head%app_inv_head. Qed.

Definition masked_record h (r : CanonicalRecord) : CanonicalRecord := mkCanonical (c_id r) (pick (c_fields r) (mask h)).
Definition key_of h (r : CanonicalRecord) : jstr := recordKey (collection_of (scope h)) (c_id r).
Definition unchanged_record m h (r : CanonicalRecord) : bool :=
  same_record (jget (key_of h r) (m_records m)) (pick (c_fields r) (mask h)) (mask h).

(** The records of a read that changed, and the number of the others. *)
Lemma diff_loop m h l acc :
  fold_left (diff_step m h) l acc =
    (acc.1 ++ map (masked_record h) (List.filter (fun r => negb (unchanged_record m h r)) l),
     (acc.2 + length (List.filter (unchanged_record m h) l))%nat).
Proof.
  revert acc. induction l as [|r l IH]; intros [ups n]; cbn [fold_left List.filter map length fst snd].
  { by rewrite app_nil_r, Nat.add_0_r. }
  rewrite IH. unfold diff_step at 1 2. fold (key_of h r). fold (unchanged_record m h r). cbn [fst snd].
  destruct (unchanged_record m h r); cbn [negb fst snd map length]; f_equal; [lia|by rewrite <-app_assoc].
Qed.

(** ** Fields *)

Lemma pick_nodup fields mk : NoDup (jkeys (pick fields mk)).
Proof.
  unfold pick. induction mk as [|x mk IH] using rev_ind; [constructor|].
  rewrite fold_left_app. by apply jset_nodup.
Qed.

Lemma pick_get fields mk k : k ∈ mk -> jget k (pick fields mk) = Some (default ONull (jget k fields)).
Proof.
  unfold pick. induction mk as [|x mk IH] using rev_ind; intros Hk; [by apply elem_of_nil in Hk|].
  rewrite fold_left_app. cbn [fold_left]. rewrite jget_jset. case_decide as E; [by subst|].
  apply IH. apply elem_of_app in Hk as [|Hk%list_elem_of_singleton]; done.
Qed.

Lemma spread_get a b k : NoDup (jkeys b) ->
  jget k (spread a b) = match jget k b with Some v => Some v | None => jget k a end.
Proof.
  unfold spread. induction b as [|[x v] b IH] using rev_ind; intros Hnd; [done|].
  rewrite fold_left_app. cbn [fold_left fst snd]. rewrite jget_jset.
  unfold jkeys in Hnd. rewrite map_app in Hnd. apply NoDup_app in Hnd as (Hb & Hx & _).
  rewrite IH by done. assert (E : jget k (b ++ [(x, v)]) = match jget k b with Some w => Some w | None =>
    if decide (k = x) then Some v else None end).
  { clear. induction b as [|[y w] b IH]; [done|]. cbn [app jget]. destruct (decide (k = y)); done. }
  rewrite E. case_decide as Ek; [|by destruct (jget k b)]. subst. destruct (jget x b) eqn:Eb; [|done].
  destruct (Hx x); [|by left]. destruct (decide (x ∈ jkeys b)) as [|Hn]; [done|]. apply jget_None in Hn. congruence.
Qed.

(** ** Upserts *)

Lemma apply_upsert_ok h rs u : records_ok rs -> records_ok (apply_upsert h rs u).
Proof.
  intros [Hnd Hk]. split; [by apply jset_nodup|]. intros k r. unfold apply_upsert. rewrite jget_jset.
  case_decide as E; [by intros [= <-]|apply Hk].
Qed.

Lemma upserts_other h us rs k : (forall u, u ∈ us -> key_of h u <> k) ->
  jget k (fold_left (apply_upsert h) us rs) = jget k rs.
Proof.
  revert rs. induction us as [|u us IH]; intros rs H; [done|]. cbn [fold_left].
  rewrite IH by (intros; apply H; by right). unfold apply_upsert. rewrite jget_jset, decide_False; [done|].
  intros ->. by apply (H u); [left|].
Qed.

Lemma upserts_get h us rs u : NoDup (map c_id us) -> u ∈ us ->
  exists prev, jget (key_of h u) (fold_left (apply_upsert h) us rs) =
    Some (mkRecord (c_id u) (collection_of (scope h)) (spread prev (c_fields u)) (receivedAt h) None None).
Proof.
  revert rs. induction us as [|v us IH]; intros rs Hnd Hu; [by apply elem_of_nil in Hu|]. cbn [fold_left].
  cbn [map] in Hnd. apply NoDup_cons in Hnd as [Hv Hnd].
  apply elem_of_cons in Hu as [->|Hu]; [|by apply IH].
  rewrite upserts_other.
  - unfold apply_upsert. fold (key_of h v). rewrite jget_jset, decide_True by done. by eexists.
  - intros w Hw E%recordKey_inj. apply Hv. rewrite <-E. by apply list_elem_of_fmap_2.
Qed.

(** ** Absences *)

(** A record that a further absence of this scope would not change. *)
Definition flagged h (r : MirrorRecord) : bool :=
  if is_id_scope (scope h) then is_set (deletedAt r) else is_set (deletedAt r) || is_set (absentSince r).

(** What an absence keeps of a record. *)
Definition same_identity (r r' : MirrorRecord) : Prop :=
  m_id r = m_id r' /\ m_collection r = m_collection r' /\ m_fields r = m_fields r'.

Lemma apply_absent_get h rs id k : receivedAt h <> [] ->
  match jget k rs with
  | None => jget k (apply_absent h rs id) = None
  | Some r => exists r', jget k (apply_absent h rs id) = Some r' /\ same_identity r r' /\
      (flagged h r = true -> flagged h r' = true) /\
      (k = recordKey (collection_of (scope h)) id -> flagged h r' = true) /\
      (k <> recordKey (collection_of (scope h)) id -> r' = r)
  end.
Proof.
  intros Hr. assert (Hset : is_set (Some (receivedAt h)) = true) by (by destruct (receivedAt h)).
  unfold apply_absent, flagged. set (key := recordKey (collection_of (scope h)) id).
  destruct (decide (k = key)) as [->|Hne].
  - destruct (jget key rs) as [r|] eqn:E; [|done]. destruct (is_id_scope (scope h)).
    + rewrite jget_jset, decide_True by done. eexists. split; [done|]. by split_and!.
    + destruct (is_set (deletedAt r)) eqn:Ed, (is_set (absentSince r)) eqn:Ea; cbn [negb andb];
        try (rewrite E; exists r; rewrite Ed, ?Ea; by split_and!).
      rewrite jget_jset, decide_True by done. eexists. split; [done|].
      cbn [deletedAt absentSince]. rewrite Hset, Ed. by split_and!.
  - assert (E : jget k (match jget key rs with
      | None => rs
      | Some r => if is_id_scope (scope h)
          then jset key (mkRecord (m_id r) (m_collection r) (m_fields r) (lastSeenAt r) None (Some (receivedAt h))) rs
          else if negb (is_set (deletedAt r)) && negb (is_set (absentSince r))
          then jset key (mkRecord (m_id r) (m_collection r) (m_fields r) (lastSeenAt r) (Some (receivedAt h)) (deletedAt r)) rs
          else rs end) = jget k rs).
    { destruct (jget key rs); [|done]. repeat case_match; rewrite ?jget_jset, ?decide_False by done; done. }
    rewrite E. destruct (jget k rs) as [r|]; [|done]. exists r. by split_and!.
Qed.

Lemma absents_get h ids rs k : receivedAt h <> [] ->
  match jget k rs with
  | None => jget k (fold_left (apply_absent h) ids rs) = None
  | Some r => exists r', jget k (fold_left (apply_absent h) ids rs) = Some r' /\ same_identity r r' /\
      (flagged h r = true -> flagged h r' = true) /\
      ((exists id, id ∈ ids /\ k = recordKey (collection_of (scope h)) id) -> flagged h r' = true) /\
      ((forall id, id ∈ ids -> k <> recordKey (collection_of (scope h)) id) -> r' = r)
  end.
Proof.
  intros Hr. revert rs. induction ids as [|id ids IH]; intros rs.
  { destruct (jget k rs) as [r|] eqn:E; [|done]. exists r. split_and!; try done.
    by intros (? & ?%elem_of_nil & _). }
  cbn [fold_left]. specialize (IH (apply_absent h rs id)). pose proof (apply_absent_get h rs id k Hr) as H.
  destruct (jget k rs) as [r|]; [|by rewrite H in IH].
  destruct H as (r1 & E1 & (I1 & I2 & I3) & H1 & H2 & H3). rewrite E1 in IH.
  destruct IH as (r2 & E2 & (J1 & J2 & J3) & K1 & K2 & K3). exists r2. split_and!; [done| |by auto| |].
  - split_and!; congruence.
  - intros (id' & [->|Hin]%elem_of_cons & Hk); [by auto|]. apply K2. by exists id'.
  - intros H. rewrite K3 by (intros; apply H; by right). apply H3, H. by left.
Qed.
(** ** What applying a difference gives *)

Lemma jvalues_get {V} (m : list (jstr * V)) v : NoDup (jkeys m) -> v ∈ jvalues m <-> exists k, jget k m = Some v.
Proof.
  intros Hnd. unfold jvalues. split.
  - intros Hv. apply list_elem_of_fmap in Hv as ([k w] & -> & Hin). exists k. by apply jget_elem.
  - intros [k Hk%jget_elem]; [|done]. change v with (snd (k, v)). by apply list_elem_of_fmap_2.
Qed.

Lemma fold_upserts_ok h us rs : records_ok rs -> records_ok (fold_left (apply_upsert h) us rs).
Proof. revert rs. induction us as [|u us IH]; intros rs H; [done|]. by apply IH, apply_upsert_ok. Qed.

Lemma apply_absent_nodup h id rs : NoDup (jkeys rs) -> NoDup (jkeys (apply_absent h rs id)).
Proof. intros H. unfold apply_absent. repeat case_match; try done; by apply jset_nodup. Qed.

Lemma fold_absents_ok h ids rs : receivedAt h <> [] -> records_ok rs -> records_ok (fold_left (apply_absent h) ids rs).
Proof.
  intros Hr [Hnd Hk]. split.
  - clear Hk. revert rs Hnd. induction ids as [|id ids IH]; intros rs H; [done|]. by apply IH, apply_absent_nodup.
  - intros k r' E. pose proof (absents_get h ids rs k Hr) as H. destruct (jget k rs) as [r|] eqn:Er; [|congruence].
    destruct H as (r2 & E2 & (I1 & I2 & _) & _). rewrite E in E2. injection E2 as <-. rewrite <-I1, <-I2. by apply Hk.
Qed.

(** A record applied from a read is the record the read returned. *)
Lemma upserted_same h prev (r : CanonicalRecord) : same_record
    (Some (mkRecord (c_id r) (collection_of (scope h)) (spread prev (pick (c_fields r) (mask h))) (receivedAt h) None None))
    (pick (c_fields r) (mask h)) (mask h) = true.
Proof.
  unfold same_record. cbn [absentSince deletedAt m_fields is_set negb andb].
  apply forallb_forall. intros k Hk%list_elem_of_In. apply bool_decide_eq_true.
  rewrite spread_get by apply pick_nodup. by rewrite (pick_get _ _ _ Hk).
Qed.

Lemma same_scope h (r r' : MirrorRecord) : same_identity r r' -> inScope other (scope h) r = inScope other (scope h) r'.
Proof. intros (H1 & H2 & H3). unfold inScope. by rewrite H1, H2, H3. Qed.

Lemma inScope_collection h (r : MirrorRecord) : inScope other (scope h) r = true -> m_collection r = collection_of (scope h).
Proof.
  unfold inScope. destruct (jeqb _ _) eqn:E; [|done]. intros _. by apply bool_decide_eq_true in E.
Qed.

Lemma missing_flagged h returned (r : MirrorRecord) : missing other h returned r = true -> flagged h r = true -> False.
Proof.
  unfold missing, flagged. intros H. destruct (is_id_scope (scope h)), (is_set (deletedAt r)), (is_set (absentSince r));
    cbn in *; done.
Qed.

Lemma missing_elem h returned (r : MirrorRecord) : missing other h returned r = true ->
  (m_id r ∉ returned) /\ inScope other (scope h) r = true.
Proof.
  unfold missing. intros [H1 H2]%andb_true_iff. split; [|done].
  apply andb_true_iff in H1 as [_ H1]. by apply negb_true_iff, bool_decide_eq_false in H1.
Qed.
Section Settles.
Context (m : Mirror) (o : Observation).
Let h := o_header o.
Let d := diffObservation other m o.
Let m' := applyIncremental other m d.
Context (Hr : receivedAt h <> []) (Hm : records_ok (m_records m)) (Hids : NoDup (map c_id (records o))).

Lemma diff_upserts : upserts d =
  map (masked_record h) (List.filter (fun r => negb (unchanged_record m h r)) (records o)).
Proof. unfold d, diffObservation. fold h. by rewrite diff_loop. Qed.

Lemma diff_header : header d = h.
Proof. unfold d, diffObservation. fold h. by rewrite diff_loop. Qed.

Lemma diff_absent id : id ∈ absent d <-> complete h = true /\
  exists r, r ∈ jvalues (m_records m) /\ m_id r = id /\ missing other h (map c_id (records o)) r = true.
Proof.
  unfold d, diffObservation. fold h. rewrite diff_loop. cbn [absent]. destruct (complete h).
  - rewrite sort_by_perm. rewrite list_elem_of_fmap. setoid_rewrite list_elem_of_In at 1.
    setoid_rewrite filter_In. setoid_rewrite <-list_elem_of_In. naive_solver.
  - rewrite elem_of_nil. naive_solver.
Qed.

Lemma upserts_ids : NoDup (map c_id (upserts d)).
Proof.
  rewrite diff_upserts, map_map. cbn [masked_record c_id]. revert Hids. generalize (records o). clear.
  induction l as [|r l IH]; [done|]. cbn [map List.filter]. intros [Hr Hnd]%NoDup_cons.
  destruct (unchanged_record m h r); cbn [negb map]; [by apply IH|]. apply NoDup_cons. split; [|by apply IH].
  intros (r' & E & Hin)%list_elem_of_fmap. rewrite list_elem_of_In, filter_In, <-list_elem_of_In in Hin.
  apply Hr. rewrite E. by apply list_elem_of_fmap_2, Hin.
Qed.

Lemma upserts_elem u : u ∈ upserts d <-> exists r, r ∈ records o /\ unchanged_record m h r = false /\ u = masked_record h r.
Proof.
  rewrite diff_upserts, list_elem_of_fmap. setoid_rewrite list_elem_of_In at 1. setoid_rewrite filter_In.
  setoid_rewrite <-list_elem_of_In. setoid_rewrite negb_true_iff. naive_solver.
Qed.

(** A returned record is in the mirror as it was returned. *)
Lemma returned_same r : r ∈ records o -> unchanged_record m' h r = true.
Proof.
  intros Hin. unfold unchanged_record, m', applyIncremental. cbn [m_records]. rewrite diff_header.
  pose proof (absents_get h (absent d) (fold_left (apply_upsert h) (upserts d) (m_records m)) (key_of h r) Hr) as H.
  assert (Habs : forall id, id ∈ absent d -> key_of h r <> recordKey (collection_of (scope h)) id).
  { intros id (_ & x & _ & <- & (Hx & _)%missing_elem)%diff_absent E%recordKey_inj. apply Hx. rewrite <-E.
    by apply list_elem_of_fmap_2. }
  destruct (unchanged_record m h r) eqn:Eu.
  - assert (Eg : jget (key_of h r) (fold_left (apply_upsert h) (upserts d) (m_records m)) = jget (key_of h r) (m_records m)).
    { apply upserts_other. intros u (r' & Hr' & Eu' & ->)%upserts_elem E%recordKey_inj. cbn [masked_record c_id] in E.
      assert (r' = r) as ->; [|congruence]. by apply (nodup_map_inj c_id (records o)). }
    rewrite Eg in H. unfold unchanged_record in Eu. destruct (jget (key_of h r) (m_records m)) as [p|]; [|done].
    destruct H as (p' & -> & _ & _ & _ & Heq). by rewrite Heq by exact Habs.
  - destruct (upserts_get h (upserts d) (m_records m) (masked_record h r)) as [prev Hprev]; [apply upserts_ids| |].
    { apply upserts_elem. by exists r. }
    change (key_of h (masked_record h r)) with (key_of h r) in Hprev. rewrite Hprev in H.
    destruct H as (p' & -> & _ & _ & _ & Heq). rewrite Heq by exact Habs. apply upserted_same.
Qed.

Lemma applied_ok : records_ok (m_records m').
Proof.
  unfold m', applyIncremental. cbn [m_records]. rewrite diff_header. by apply fold_absents_ok, fold_upserts_ok.
Qed.

(** Nothing more is missing. *)
Lemma nothing_missing r : complete h = true -> r ∈ jvalues (m_records m') ->
  missing other h (map c_id (records o)) r = false.
Proof.
  intros Hc Hin. apply not_true_iff_false. intros Hmiss. destruct applied_ok as [Hnd Hk].
  apply jvalues_get in Hin as [k E]; [|done]. pose proof (Hk k r E) as Ek.
  destruct (missing_elem _ _ _ Hmiss) as [Hid Hsc]. pose proof (inScope_collection _ _ Hsc) as Hcol. rewrite Hcol in Ek.
  unfold m', applyIncremental in E. cbn [m_records] in E. rewrite diff_header in E.
  pose proof (absents_get h (absent d) (fold_left (apply_upsert h) (upserts d) (m_records m)) k Hr) as H.
  rewrite upserts_other in H.
  2: { intros u (x & Hx & _ & ->)%upserts_elem Eu. rewrite Ek in Eu. apply recordKey_inj in Eu.
       cbn [masked_record c_id] in Eu. apply Hid. rewrite <-Eu. by apply list_elem_of_fmap_2. }
  destruct (jget k (m_records m)) as [r0|] eqn:E0; [|congruence].
  destruct H as (r1 & E1 & Hsame & _ & Hflag & Heq). rewrite E in E1. injection E1 as <-.
  pose proof Hsame as (I1 & I2 & I3). destruct Hm as [Hnd0 _].
  destruct (decide (m_id r0 ∈ absent d)) as [Ha|Hno].
  { apply (missing_flagged _ _ _ Hmiss), Hflag. exists (m_id r0). split; [done|by rewrite Ek, I1]. }
  apply Hno, diff_absent. split; [done|]. exists r0. split_and!; [apply jvalues_get; [done|by exists k]|done|].
  rewrite Heq in Hmiss; [done|]. intros id Ha Eid. rewrite Ek in Eid. apply recordKey_inj in Eid.
  rewrite <-I1 in Eid. by subst id.
Qed.
End Settles.

(** Applying what a read changed leaves nothing for the same
    read to change: every returned record is then counted as unchanged, and no
    record is newly absent, whatever the scope, the mask and the mirror were. *)
Theorem diff_settles (m : Mirror) (o : Observation) :
  receivedAt (o_header o) <> [] -> records_ok (m_records m) -> NoDup (map c_id (records o)) ->
  let m' := applyIncremental other m (diffObservation other m o) in
  records_ok (m_records m') /\
  isEmpty (diffObservation other m' o) = true /\ unchanged (diffObservation other m' o) = length (records o).
Proof.
  intros Hr Hm Hids m'. pose proof (returned_same m o Hr Hids) as Hsame. fold m' in Hsame.
  pose proof (nothing_missing m o Hr Hm) as Hnone. fold m' in Hnone.
  assert (Hf : List.filter (unchanged_record m' (o_header o)) (records o) = records o).
  { revert Hsame. generalize (records o). clear. induction l as [|r l IH]; intros H; [done|]. cbn [List.filter].
    rewrite (H r) by (by left). rewrite IH; [done|]. intros x Hx. apply H. by right. }
  assert (Hn : List.filter (fun r => negb (unchanged_record m' (o_header o) r)) (records o) = []).
  { revert Hsame. generalize (records o). clear. induction l as [|r l IH]; intros H; [done|]. cbn [List.filter].
    rewrite (H r) by (by left). apply IH. intros x Hx. apply H. by right. }
  split; [by apply applied_ok|]. unfold diffObservation, isEmpty. rewrite diff_loop. cbn [fst snd app upserts absent unchanged].
  rewrite Hf, Hn. split; [|done]. cbn [map app]. destruct (complete (o_header o)) eqn:Ec; [|done].
  assert (List.filter (missing other (o_header o) (map c_id (records o))) (jvalues (m_records m')) = []) as ->; [|done].
  specialize (Hnone). revert Hnone. generalize (jvalues (m_records m')). induction l as [|r l IH]; intros H; [done|].
  cbn [List.filter]. rewrite (H r) by (done || by left). apply IH. intros x Hc Hx. apply H; [done|by right].
Qed.
End Diff.

Definition no_dates (s : jstr) : option Z := None.
Definition span (from to at_ : string) : CoverageSegment := mkSegment (js "k") (js from) (js to) (js at_).

Lemma mergeCoverage_latest_witness :
  let a := [span "2024-01-01" "2024-01-05" "2024-02-01"] in
  let b := [span "2024-01-03" "2024-01-08" "2024-02-02"] in
  mergeCoverage no_dates a b =
    [span "2024-01-01" "2024-01-03" "2024-02-01"; span "2024-01-03" "2024-01-08" "2024-02-02"] /\
  confirmed no_dates (own (js "k") (mergeCoverage no_dates a b)) (at_ms no_dates (js "2024-01-04")) =
    max_opt (confirmed no_dates (own (js "k") a) (at_ms no_dates (js "2024-01-04")))
            (confirmed no_dates (own (js "k") b) (at_ms no_dates (js "2024-01-04"))).
Proof.
  intros a b. split; [by vm_compute|].
  refine (proj2 (proj2 (mergeCoverage_latest no_dates a b _ _ _) (js "k")) _).
  - constructor; [|constructor]. split_and!; [by eexists..|by vm_compute].
  - constructor; [|constructor]. split_and!; [by eexists..|by vm_compute].
  - intros k. unfold own, a. cbn [List.filter]. destruct (jeqb _ _); repeat constructor.
Defined.

Definition week : Scope := InRange (mkRange (js "entries") [(js "user", js "u1")] (js "start") (js "2024-01-01") (js "2024-01-08")).
Definition read_header (id received : string) : ObservationHeader :=
  mkHeader (js id) (js "laptop") (js received) (js received) ListRead week [js "user"; js "start"; js "note"] true None.
Definition entry (id start note : string) : CanonicalRecord :=
  mkCanonical (js id) [(js "start", OStr (js start)); (js "user", OStr (js "u1")); (js "note", OStr (js note))].
Definition read_1 : Observation :=
  mkObservation (read_header "o1" "2024-02-01") [entry "e1" "2024-01-02" "a"; entry "e2" "2024-01-03" "b"].
Definition read_2 : Observation := mkObservation (read_header "o2" "2024-02-02") [entry "e2" "2024-01-03" "c"].
Definition change_1 : Incremental := diffObservation no_dates emptyMirror read_1.
Definition mirror_1 : Mirror := applyIncremental no_dates emptyMirror change_1.
Definition change_2 : Incremental := diffObservation no_dates mirror_1 read_2.

(** The second read changes a note, and finds a record gone. *)
Example second_read : map c_id (upserts change_2) = [js "e2"] /\ absent change_2 = [js "e1"] /\
  unchanged change_2 = 0%nat.
Proof. by vm_compute. Qed.

Lemma changes_by_ids l : l ⊆ [change_1; change_2] -> by_ids no_dates l.
Proof.
  intros Hl. split.
  - apply Forall_forall. intros i Hi%Hl. apply elem_of_cons in Hi as [->|Hi]; [by eexists|].
    apply list_elem_of_singleton in Hi as ->. by eexists.
  - intros i j Hi%Hl Hj%Hl. rewrite !elem_of_cons, elem_of_nil in Hi, Hj.
    destruct Hi as [->|[->|[]]], Hj as [->|[->|[]]]; by vm_compute.
Qed.

Lemma fold_permutation_witness :
  by_ids no_dates [change_1; change_2] /\
  fold no_dates emptyMirror [change_1; change_2] = fold no_dates emptyMirror [change_2; change_1].
Proof.
  assert (H : by_ids no_dates [change_1; change_2]) by by apply changes_by_ids.
  split; [done|]. apply fold_permutation; [done|]. constructor.
Defined.

Lemma fold_snapshot_witness :
  compare_incrementals no_dates change_1 change_2 <= 0 /\
  fold no_dates (fold no_dates emptyMirror [change_1]) [change_2] = fold no_dates emptyMirror [change_1; change_2].
Proof.
  assert (Hle : compare_incrementals no_dates change_1 change_2 <= 0) by by vm_compute.
  split; [done|]. apply (fold_snapshot no_dates emptyMirror [change_1] [change_2]).
  - split; [constructor|]. intros k. constructor.
  - by apply changes_by_ids.
  - by intros i j ->%list_elem_of_singleton ->%list_elem_of_singleton.
Defined.

Lemma diff_settles_witness :
  isEmpty change_2 = false /\
  isEmpty (diffObservation no_dates (applyIncremental no_dates mirror_1 change_2) read_2) = true.
Proof.
  split; [by vm_compute|]. apply (diff_settles no_dates mirror_1 read_2).
  - done.
  - unfold mirror_1. apply (diff_settles no_dates emptyMirror read_1); [done| |].
    + split; [constructor|done].
    + by vm_compute; repeat constructor; rewrite ?elem_of_cons, ?elem_of_nil; naive_solver.
  - repeat constructor. by intros ?%elem_of_nil.
Defined.
