(* ===== verification/ObservationLog.v ===== *)
(** * The stored observation log

    Models [src/integrations/timesheets/app/observationLog.ts]: the log of
    [Observations] kept as resources of a host's store, a head that lists the
    incrementals after the last snapshot, and snapshots that name what they
    absorbed.

    The host is the record of operations [PluginStore] (the interface of
    [store.ts]); what the theorems use of it is the class [Host].  A resource
    is its three texts and the app's link to the head; a text is what
    [JSON.parse] makes of it, [JsonText], or one that does not parse.  The
    length of an incremental's text is the parameter [json_length].  An
    operation is a function of the host's state and of the log's own fields
    that keeps both when it throws, as far as it came.  [readChain] follows
    the [previous] links with fuel. *)
From S2P Require Import Prelude Text Collections JsDate Observations.
From stdpp Require Import sorting.
Local Open Scope Z_scope.

(* src: integrations/timesheets/app/observationLog.ts 45-45 COMPACT_AFTER_INCREMENTALS *)
Definition COMPACT_AFTER_INCREMENTALS : nat := 50.
(* src: integrations/timesheets/app/observationLog.ts 46-46 COMPACT_AFTER_BYTES *)
Definition COMPACT_AFTER_BYTES : Z := 256 * 1024.

(* src: integrations/timesheets/app/observationLog.ts 48-52 TailEntry *)
Record TailEntry := mkEntry { te_position : Position; te_subject : jstr; te_bytes : Z }.

(* src: integrations/timesheets/app/observationLog.ts 54-64 HeadState *)
Record HeadState := mkHead {
  hd_snapshot : jstr;
  hd_cut : option Position;
  hd_tail : list TailEntry;
  hd_coverage : list CoverageSegment;
  hd_lastComplete : option jstr;
}.

(* src: integrations/timesheets/app/observationLog.ts 66-75 SnapshotState *)
Record SnapshotState := mkSnapshot {
  sn_mirror : Mirror;
  sn_cut : option Position;
  sn_previous : option jstr;
  sn_compacted : list TailEntry;
  sn_writtenAt : jstr;
}.

(** The value of a property that holds JSON text. *)
Inductive JsonText (A : Type) :=
| NotText
| BadJson
| Json (a : A).
Arguments NotText {A}.
Arguments BadJson {A}.
Arguments Json {A} _.

Record Resource := mkResource {
  log_ : option jstr;
  head_ : JsonText HeadState;
  snapshot_ : JsonText SnapshotState;
  observation_ : JsonText Incremental;
}.
Definition no_texts : Resource := mkResource None NotText NotText NotText.

(** [set] then [save]: the properties written. *)
Inductive Change := SetLog (subject : jstr) | SetHead (h : HeadState).
Definition change (c : Change) (r : Resource) : Resource :=
  match c with
  | SetLog x => mkResource (Some x) (head_ r) (snapshot_ r) (observation_ r)
  | SetHead h => mkResource (log_ r) (Json h) (snapshot_ r) (observation_ r)
  end.

Record PluginStore (S : Type) := mkStore {
  getApp : S -> res string jstr;
  getResource : S -> jstr -> res string Resource;
  newResource : S -> option jstr -> jstr -> Resource -> S * res string jstr;
  save : S -> jstr -> Change -> S * res string unit;
}.
Arguments getApp {S} _ _.
Arguments getResource {S} _ _ _.
Arguments newResource {S} _ _ _ _ _.
Arguments save {S} _ _ _ _.

(* src: integrations/timesheets/app/observationLog.ts 81-89 parse *)
Definition parse {A} (text : JsonText A) (what : string) : res string A :=
  match text with
  | NotText => Err ("The " ++ what ++ " is missing.")%string
  | BadJson => Err ("The " ++ what ++ " is not valid JSON.")%string
  | Json a => Ok a
  end.

(** The fields of an [ObservationLog]. *)
(* src: integrations/timesheets/app/observationLog.ts 94-108 ObservationLog ! *)
Record ObservationLog := mkLog {
  appended : nat;
  snapshotsWritten : nat;
  dirty : bool;
  headSubject : option jstr;
  head : option HeadState;
  current : Mirror;
}.

Section Log.
Context {S : Type} (store : PluginStore S) (other : jstr -> option Z) (json_length : Incremental -> Z).

(** [comparePositions(a, b) > 0]. *)
Definition sorts_after (a b : Position) : bool :=
  match comparePositions other a b with Some d => 0 <? d | None => false end.

(* src: integrations/timesheets/app/observationLog.ts 91-92 after *)
Definition after (entry : Position) (cut : option Position) : bool :=
  match cut with None => true | Some c => sorts_after entry c end.

(** ** Reading *)

(* src: integrations/timesheets/app/observationLog.ts 350-359 readSnapshot *)
Definition readSnapshot (s : S) (subject : jstr) : res string SnapshotState :=
  r ← getResource store s subject; parse (snapshot_ r) "Clockify snapshot".

Definition readIncremental (s : S) (e : TailEntry) : res string Incremental :=
  r ← getResource store s (te_subject e); parse (observation_ r) "Clockify observation".

(* src: integrations/timesheets/app/observationLog.ts 361-377 readIncrementals *)
Definition readIncrementals (s : S) (entries : list TailEntry) : res string (list Incremental) :=
  mapR (readIncremental s) entries.

(* src: integrations/timesheets/app/observationLog.ts 379-396 readChain *)
Fixpoint readChain (fuel : nat) (s : S) (snapshot : SnapshotState) : option (res string (list Incremental)) :=
  match fuel with
  | O => None
  | Datatypes.S fuel =>
      match readIncrementals s (sn_compacted snapshot) with
      | Err e => Some (Err e)
      | Ok ins =>
          match sn_previous snapshot with
          | Some (c :: x) =>
              match readSnapshot s (c :: x) with
              | Err e => Some (Err e)
              | Ok previous =>
                  match readChain fuel s previous with
                  | Some (Ok rest) => Some (Ok (ins ++ rest))
                  | r => r
                  end
              end
          | _ => Some (Ok ins)
          end
      end
  end.

Definition with_coverage (m : Mirror) (cov : list CoverageSegment) : Mirror :=
  mkMirror (m_records m) (mergeCoverage other (coverage m) cov).

(** The log of an app that has none. *)
Definition new_log : ObservationLog := mkLog 0 0 false None None emptyMirror.

(** The app's head: its subject, when there is one, and what it holds. *)
Definition readHead (s : S) : res string (option (jstr * HeadState)) :=
  x ← getApp store s;
  app ← getResource store s x;
  match log_ app with
  | Some (c :: y) =>
      r ← getResource store s (c :: y);
      h ← parse (head_ r) "Clockify log head";
      Ok (Some (c :: y, h))
  | _ => Ok None
  end.

(* src: integrations/timesheets/app/observationLog.ts 109-154 open ! *)
Definition open (fuel : nat) (s : S) : option (res string ObservationLog) :=
  match readHead s with
  | Err e => Some (Err e)
  | Ok None => Some (Ok new_log)
  | Ok (Some (subject, h)) =>
      match (sn ← readSnapshot s (hd_snapshot h); tl ← readIncrementals s (hd_tail h); Ok (sn, tl)) with
      | Err e => Some (Err e)
      | Ok (sn, tl) =>
          let opened m := mkLog 0 0 false (Some subject) (Some h) (with_coverage m (hd_coverage h)) in
          if existsb (fun e => negb (after (te_position e) (sn_cut sn))) (hd_tail h)
          then match readChain fuel s sn with
               | None => None
               | Some (Err e) => Some (Err e)
               | Some (Ok all) => Some (Ok (opened (fold other emptyMirror (all ++ tl))))
               end
          else Some (Ok (opened (fold other (sn_mirror sn) tl)))
      end
  end.

(* src: integrations/timesheets/app/observationLog.ts 156-181 replay ! *)
Definition replay (fuel : nat) (s : S) : option (res string Mirror) :=
  match readHead s with
  | Err e => Some (Err e)
  | Ok None => Some (Ok emptyMirror)
  | Ok (Some (_, h)) =>
      match readSnapshot s (hd_snapshot h) with
      | Err e => Some (Err e)
      | Ok sn =>
          match readChain fuel s sn with
          | None => None
          | Some (Err e) => Some (Err e)
          | Some (Ok all) =>
              Some (tl ← readIncrementals s (hd_tail h);
                    Ok (with_coverage (fold other emptyMirror (all ++ tl)) (hd_coverage h)))
          end
      end
  end.

(** ** Writing *)

Abbreviation World := (S * ObservationLog)%type.
Definition io (A : Type) : Type := World -> World * res string A.
#[local] Instance io_ret : MRet io := fun A a w => (w, Ok a).
#[local] Instance io_bind : MBind io := fun A B f m w =>
  match m w with
  | (w', Ok a) => f a w'
  | (w', Err e) => (w', Err e)
  end.

Definition reading {A} (f : S -> res string A) : io A := fun w => (w, f w.1).
Definition writing {A} (f : S -> S * res string A) : io A :=
  fun '(s, l) => let '(s', r) := f s in ((s', l), r).
Definition get_log : io ObservationLog := fun w => (w, Ok w.2).
Definition put_log (l : ObservationLog) : io unit := fun w => ((w.1, l), Ok tt).
Definition try {A} (r : res string A) : io A := fun w => (w, r).

Definition set_headSubject (l : ObservationLog) (x : jstr) : ObservationLog :=
  mkLog (appended l) (snapshotsWritten l) (dirty l) (Some x) (head l) (current l).
Definition set_head (l : ObservationLog) (h : HeadState) : ObservationLog :=
  mkLog (appended l) (snapshotsWritten l) (dirty l) (headSubject l) (Some h) (current l).
Definition set_dirty (l : ObservationLog) (b : bool) : ObservationLog :=
  mkLog (appended l) (snapshotsWritten l) b (headSubject l) (head l) (current l).
Definition set_current (l : ObservationLog) (m : Mirror) : ObservationLog :=
  mkLog (appended l) (snapshotsWritten l) (dirty l) (headSubject l) (head l) m.

(** [new Date(now).toISOString()]. *)
Definition iso (now : Z) : res string jstr :=
  match toISOString now with Some t => Ok t | None => Err "RangeError"%string end.

Definition snapshot_resource (sn : SnapshotState) : Resource := mkResource None NotText (Json sn) NotText.
Definition observation_resource (i : Incremental) : Resource := mkResource None NotText NotText (Json i).

(* src: integrations/timesheets/app/observationLog.ts 277-312 ensureHead *)
Definition ensureHead (now : Z) : io HeadState :=
  l ← get_log;
  match head l with
  | Some h => mret h
  | None =>
      a ← reading (getApp store);
      app ← reading (fun s => getResource store s a);
      x ← writing (fun s => newResource store s (Some a) (js "Clockify observation log") no_texts);
      _ ← put_log (set_headSubject l x);
      t ← try (iso now);
      y ← writing (fun s => newResource store s (Some x) (js "Clockify snapshot (empty)")
            (snapshot_resource (mkSnapshot emptyMirror None None [] t)));
      let h := mkHead y None [] [] None in
      _ ← put_log (set_head (set_headSubject l x) h);
      _ ← writing (fun s => save store s x (SetHead h));
      _ ← writing (fun s => save store s a (SetLog x));
      mret h
  end.

Definition kind_text (k : ObservationKind) : jstr :=
  match k with ListRead => js "list" | PointRead => js "point" | WriteResponse => js "write-response" end.

(** The part of [append] that stores the incremental. *)
Definition store_incremental (i : Incremental) (h : HeadState) : io HeadState :=
  l ← get_log;
  x ← writing (fun s => newResource store s (headSubject l)
        (js "Clockify " ++ kind_text (h_kind (header i)) ++ js " read " ++ receivedAt (header i)) (observation_resource i));
  let h' := mkHead (hd_snapshot h) (hd_cut h)
              (hd_tail h ++ [mkEntry (mkPosition (receivedAt (header i)) (h_id (header i))) x (json_length i)])
              (hd_coverage h) (hd_lastComplete h) in
  _ ← put_log (mkLog (appended l + 1) (snapshotsWritten l) (dirty l) (headSubject l) (Some h') (current l));
  mret h'.

(** What the head says of coverage after a complete read of a range. *)
Definition confirm_head (i : Incremental) (m : Mirror) (h : HeadState) : HeadState :=
  match complete (header i), scope (header i) with
  | true, InRange _ =>
      mkHead (hd_snapshot h) (hd_cut h) (hd_tail h)
        (mergeCoverage other (hd_coverage h)
           (List.filter (fun c => jeqb (confirmedAt c) (receivedAt (header i))) (coverage m)))
        (Some (receivedAt (header i)))
  | _, _ => h
  end.

(** The rest of [append], once there is a head. *)
Definition append_incremental (i : Incremental) (h : HeadState) : io Incremental :=
  h ← (if isEmpty i then mret h else store_incremental i h);
  l ← get_log;
  let m := fold other (current l) [i] in
  _ ← put_log (set_dirty (set_head (set_current l m) (confirm_head i m h)) true);
  mret i.

(* src: integrations/timesheets/app/observationLog.ts 196-237 append *)
Definition append (now : Z) (o : Observation) : io Incremental :=
  l ← get_log;
  let i := diffObservation other (current l) o in
  h ← ensureHead now;
  append_incremental i h.

(** The later of two positions. *)
Definition later_position (max : option Position) (e : Position) : option Position :=
  match max with
  | None => Some e
  | Some m => if sorts_after e m then Some e else Some m
  end.

(* src: integrations/timesheets/app/observationLog.ts 314-347 writeSnapshot *)
Definition writeSnapshot (now : Z) (h : HeadState) : io unit :=
  let cut := fold_left later_position
    (map te_position (hd_tail h) ++ match hd_cut h with Some c => [c] | None => [] end) None in
  t ← try (iso now);
  l ← get_log;
  x ← writing (fun s => newResource store s (headSubject l) (js "Clockify snapshot " ++ t)
        (snapshot_resource (mkSnapshot (current l) cut (Some (hd_snapshot h)) (hd_tail h) t)));
  put_log (mkLog (appended l) (snapshotsWritten l + 1) true (headSubject l)
    (Some (mkHead x cut [] (hd_coverage h) (hd_lastComplete h))) (current l)).

(* src: integrations/timesheets/app/observationLog.ts 239-251 compactIfNeeded *)
Definition compactIfNeeded (now : Z) : io bool :=
  l ← get_log;
  match head l with
  | None => mret false
  | Some h =>
      let bytes := fold_left (fun sum e => sum + te_bytes e) (hd_tail h) 0 in
      if (length (hd_tail h) <? COMPACT_AFTER_INCREMENTALS)%nat && (bytes <? COMPACT_AFTER_BYTES)
      then mret false
      else _ ← writeSnapshot now h; mret true
  end.

(** The head with what another device appended since. *)
Definition merge_stored (h : HeadState) (text : JsonText HeadState) : HeadState :=
  match parse text "log head" with
  | Ok st =>
      if jeqb (hd_snapshot st) (hd_snapshot h) then
        let known := map (fun e => p_id (te_position e)) (hd_tail h) in
        mkHead (hd_snapshot h) (hd_cut h)
          (hd_tail h ++ List.filter (fun e => negb (bool_decide (p_id (te_position e) ∈ known))) (hd_tail st))
          (mergeCoverage other (hd_coverage h) (hd_coverage st)) (hd_lastComplete h)
      else h
  | Err _ => h
  end.

(* src: integrations/timesheets/app/observationLog.ts 253-275 flush *)
Definition flush : io unit :=
  l ← get_log;
  match dirty l, headSubject l, head l with
  | true, Some (c :: x), Some h =>
      r ← reading (fun s => getResource store s (c :: x));
      let h' := merge_stored h (head_ r) in
      _ ← put_log (set_head l h');
      _ ← writing (fun s => save store s (c :: x) (SetHead h'));
      put_log (set_dirty (set_head l h') false)
  | _, _, _ => mret tt
  end.
End Log.

(** ** When an instant was last confirmed

    Coverage is compared by what it says of each key and instant: a join
    semilattice, in which an observation adds the range it read. *)

Section Meaning.
Context (other : jstr -> option Z).
Abbreviation at_ms := (at_ms other).
Abbreviation dated := (dated other).
Abbreviation coverage_ok := (coverage_ok other).
Abbreviation segment_ok := (segment_ok other).
Implicit Types (i j : Incremental) (m : Mirror) (c d : list CoverageSegment).

Definition sem c (k : jstr) (t : Z) : option Z := confirmed other (own k c) t.

Definition below (a b : option Z) : Prop := max_opt a b = b.

Lemma max_opt_idem a : max_opt a a = a.
Proof. destruct a; [|done]. cbn. f_equal. lia. Qed.

Lemma below_refl a : below a a.
Proof. apply max_opt_idem. Qed.

Lemma below_trans a b e : below a b -> below b e -> below a e.
Proof. unfold below. intros H1 H2. by rewrite <-H2, max_opt_assoc, H1. Qed.

Lemma below_antisym a b : below a b -> below b a -> a = b.
Proof. unfold below. intros H1 H2. rewrite <-H1, <-H2 at 1. by rewrite <-H1, max_opt_comm, H1. Qed.

Lemma below_join a b e : below (max_opt a b) e <-> below a e /\ below b e.
Proof.
  unfold below. split.
  - intros H. split; rewrite <-H.
    + by rewrite !max_opt_assoc, max_opt_idem.
    + by rewrite (max_opt_comm a b), <-!max_opt_assoc, (max_opt_assoc b b), max_opt_idem.
  - intros [H1 H2]. by rewrite <-max_opt_assoc, H2.
Qed.

Lemma below_left a b : below a (max_opt a b).
Proof. unfold below. by rewrite max_opt_assoc, max_opt_idem. Qed.
Lemma below_right a b : below b (max_opt a b).
Proof. rewrite max_opt_comm. apply below_left. Qed.

Lemma below_none a : below None a.
Proof. by destruct a. Qed.

Lemma sem_app c d k t : sem (c ++ d) k t = max_opt (sem c k t) (sem d k t).
Proof. unfold sem. by rewrite own_app, confirmed_app. Qed.

Lemma sem_perm c d k t : c ≡ₚ d -> sem c k t = sem d k t.
Proof.
  induction 1 as [|x c d Hp IH|x y c|c d e H1 IH1 H2 IH2]; [done| | |congruence].
  - change (x :: c) with ([x] ++ c). change (x :: d) with ([x] ++ d). by rewrite !sem_app, IH.
  - change (y :: x :: c) with ([y] ++ [x] ++ c). change (x :: y :: c) with ([x] ++ [y] ++ c).
    by rewrite !sem_app, !max_opt_assoc, (max_opt_comm (sem [y] k t)).
Qed.

Lemma sem_filter (P : CoverageSegment -> bool) c k t : below (sem (List.filter P c) k t) (sem c k t).
Proof.
  induction c as [|x c IH]; [done|]. cbn [List.filter]. change (x :: c) with ([x] ++ c). rewrite sem_app.
  destruct (P x).
  - change (x :: List.filter P c) with ([x] ++ List.filter P c). rewrite sem_app. apply below_join.
    split; [apply below_left|]. eapply below_trans; [exact IH|apply below_right].
  - eapply below_trans; [exact IH|apply below_right].
Qed.

Lemma filter_ok (P : CoverageSegment -> bool) c : coverage_ok c -> coverage_ok (List.filter P c).
Proof.
  intros [Hok Hs]. split.
  - rewrite Forall_forall in *. intros x. rewrite list_elem_of_In, filter_In, <-list_elem_of_In.
    intros [Hx _]. by apply Hok.
  - intros k. assert (own k (List.filter P c) = List.filter P (own k c)) as ->; [|by apply sorted_filter].
    unfold own. clear. induction c as [|x c IH]; [done|]. cbn [List.filter].
    destruct (P x) eqn:E, (jeqb (s_key x) k) eqn:E2; cbn [List.filter]; rewrite ?E, ?E2, ?IH; done.
Qed.

Lemma merge_ok c d : coverage_ok c -> coverage_ok d -> coverage_ok (mergeCoverage other c d).
Proof.
  intros [H1 H2] [H3 _]. destruct (mergeCoverage_spec other c d H1 H3 H2) as [H4 H5].
  split; [done|]. intros k. apply H5.
Qed.

Lemma merge_sem c d k t : coverage_ok c -> coverage_ok d ->
  sem (mergeCoverage other c d) k t = max_opt (sem c k t) (sem d k t).
Proof.
  intros [H1 H2] [H3 _]. destruct (mergeCoverage_spec other c d H1 H3 H2) as [_ H5]. apply H5.
Qed.

Lemma merge_times (P : jstr -> Prop) c d : Forall (fun x => P (confirmedAt x)) c -> Forall (fun x => P (confirmedAt x)) d ->
  Forall (fun x => P (confirmedAt x)) (mergeCoverage other c d).
Proof.
  intros Hc Hd. unfold mergeCoverage. revert c Hc. induction Hd as [|y d Hy Hd IH]; intros c Hc; [done|].
  cbn [fold_left]. apply IH, Forall_forall. intros x [->|(z & Hz & ->)]%addCoverage_times; [done|].
  rewrite Forall_forall in Hc. by apply Hc.
Qed.

(** The range a complete read confirms. *)
Definition span_of i : list CoverageSegment :=
  match complete (header i), scope (header i) with
  | true, InRange r =>
      if num_ltb (ms other (r_from r)) (ms other (r_to r))
      then [mkSegment (coverageKey r) (r_from r) (r_to r) (receivedAt (header i))] else []
  | _, _ => []
  end.
Definition spans (l : list Incremental) : list CoverageSegment := flat_map span_of l.

Lemma spans_app l1 l2 : spans (l1 ++ l2) = spans l1 ++ spans l2.
Proof. apply flat_map_app. Qed.

Lemma apply_coverage i m : dated i -> coverage_ok (coverage m) ->
  coverage_ok (coverage (applyIncremental other m i)) /\
  (forall k t, sem (coverage (applyIncremental other m i)) k t = max_opt (sem (coverage m) k t) (sem (span_of i) k t)) /\
  (forall x, x ∈ coverage (applyIncremental other m i) ->
     confirmedAt x = receivedAt (header i) \/ exists y, y ∈ coverage m /\ confirmedAt x = confirmedAt y).
Proof.
  intros Hi Hm. unfold applyIncremental, span_of. cbn [coverage].
  assert (Hno : coverage_ok (coverage m) /\ (forall k t, sem (coverage m) k t = max_opt (sem (coverage m) k t) (sem [] k t)) /\
    (forall x, x ∈ coverage m -> confirmedAt x = receivedAt (header i) \/ exists y, y ∈ coverage m /\ confirmedAt x = confirmedAt y)).
  { split_and!; [done| |by eauto]. intros k t. cbn. by destruct (sem _ _ _). }
  destruct (complete (header i)), (scope (header i)) as [r|r]; try exact Hno.
  destruct (num_ltb (ms other (r_from r)) (ms other (r_to r))) eqn:E; [|by unfold addCoverage; rewrite E].
  set (x := mkSegment (coverageKey r) (r_from r) (r_to r) (receivedAt (header i))).
  assert (Hx : segment_ok x) by by apply range_segment.
  split; [by apply (addCoverage_ok other _ x)|]. split; [|apply addCoverage_times].
  intros k t. destruct Hm as [Hok Hs]. destruct (addCoverage_spec other (coverage m) x Hok Hx) as (_ & H2 & _ & _ & H4).
  unfold sem. destruct (decide (k = coverageKey r)) as [->|Hk].
  - etransitivity; [apply (H4 t)|]. rewrite confirmed_app. f_equal.
    by rewrite (own_all (coverageKey r) [x]) by by repeat constructor.
  - etransitivity; [apply (f_equal (fun c => confirmed other c t) (H2 k Hk))|]. rewrite (own_none k [x]) by (constructor; [by apply not_eq_sym|done]).
    by destruct (confirmed _ _ _).
Qed.

Lemma apply_all_coverage l m : Forall dated l -> coverage_ok (coverage m) ->
  coverage_ok (coverage (fold_left (applyIncremental other) l m)) /\
  forall k t, sem (coverage (fold_left (applyIncremental other) l m)) k t = max_opt (sem (coverage m) k t) (sem (spans l) k t).
Proof.
  intros Hl. revert m. induction Hl as [|i l Hi Hl IH]; intros m Hm.
  { split; [done|]. intros k t. cbn. by destruct (sem _ _ _). }
  cbn [fold_left]. destruct (apply_coverage i m Hi Hm) as (H1 & H2 & _). destruct (IH _ H1) as [H3 H4].
  split; [done|]. intros k t. rewrite H4, H2. change (spans (i :: l)) with (span_of i ++ spans l).
  by rewrite sem_app, max_opt_assoc.
Qed.

Lemma spans_perm l1 l2 : l1 ≡ₚ l2 -> spans l1 ≡ₚ spans l2.
Proof. intros H. unfold spans. by rewrite H. Qed.

Lemma fold_coverage l m : Forall dated l -> coverage_ok (coverage m) ->
  coverage_ok (coverage (fold other m l)) /\
  forall k t, sem (coverage (fold other m l)) k t = max_opt (sem (coverage m) k t) (sem (spans l) k t).
Proof.
  intros Hl Hm. unfold fold. cbn [coverage].
  assert (Hl' : Forall dated (sort_by (compare_incrementals other) l)) by by rewrite sort_by_perm.
  destruct (apply_all_coverage _ m Hl' Hm) as [H1 H2]. split; [by apply sort_ok|].
  intros k t. unfold sem in *. rewrite own_sort by done. rewrite H2. f_equal.
  apply sem_perm, spans_perm, sort_by_perm.
Qed.

Lemma fold_times (P : jstr -> Prop) l m : Forall dated l -> Forall (fun i => P (receivedAt (header i))) l ->
  Forall (fun x => P (confirmedAt x)) (coverage m) -> Forall (fun x => P (confirmedAt x)) (coverage (fold other m l)).
Proof.
  intros Hd Hl Hm. unfold fold. cbn [coverage]. unfold sortCoverage. rewrite sort_by_perm.
  assert (Hl' : Forall (fun i => P (receivedAt (header i))) (sort_by (compare_incrementals other) l)) by by rewrite sort_by_perm.
  revert m Hm. induction Hl' as [|i l' Hi Hl' IH]; intros m Hm; [done|]. cbn [fold_left]. apply IH.
  unfold applyIncremental. cbn [coverage]. destruct (complete (header i)), (scope (header i)); try done.
  apply Forall_forall. intros x [->|(y & Hy & ->)]%addCoverage_times; [done|]. rewrite Forall_forall in Hm. by apply Hm.
Qed.

(** ** Observations in the order they were received *)

Definition earlier i j : Prop := at_ms (receivedAt (header i)) < at_ms (receivedAt (header j)).

Lemma sort_ascending l l' : Forall dated l -> StronglySorted earlier l -> l' ≡ₚ l ->
  sort_by (compare_incrementals other) l' = l.
Proof.
  intros Hd Hs Hp. rewrite (Observations.sort_order other) by by rewrite Hp.
  apply (sort_by_unique (Observations.order other)); [| |done].
  - intros i j Hi Hj Hij. rewrite Hp in Hi, Hj. assert (E : at_ms (receivedAt (header i)) = at_ms (receivedAt (header j))).
    { revert Hij. unfold Observations.order, lex. repeat case_match; breflect; lia. }
    clear -Hs Hi Hj E. induction Hs as [|x l Hl IH Hx]; [by apply elem_of_nil in Hi|].
    rewrite Forall_forall in Hx. unfold earlier in Hx.
    apply elem_of_cons in Hi as [->|Hi]; apply elem_of_cons in Hj as [->|Hj]; [done| | |by apply IH].
    + specialize (Hx j Hj). lia.
    + specialize (Hx i Hi). lia.
  - clear -Hs. induction Hs as [|x l Hl IH Hx]; constructor; [done|]. eapply Forall_impl; [exact Hx|].
    intros y Hy. unfold earlier in Hy. unfold le_by, Observations.order, lex. destruct (Z.eqb_spec (at_ms (receivedAt (header x)) -
      at_ms (receivedAt (header y))) 0); lia.
Qed.

Lemma sorted_prefix' (l1 l2 : list Incremental) : StronglySorted earlier (l1 ++ l2) -> StronglySorted earlier l1.
Proof.
  induction l1 as [|x l IH]; cbn [app]; [constructor|]. inversion 1 as [|? ? H1 H2]; subst.
  apply Forall_app in H2 as [H2 _]. constructor; [by apply IH|done].
Qed.

Lemma sorted_suffix (l1 l2 : list Incremental) : StronglySorted earlier (l1 ++ l2) -> StronglySorted earlier l2.
Proof. induction l1 as [|x l IH]; cbn [app]; [done|]. inversion 1; auto. Qed.

(** The records that observations leave, in their order. *)
Definition recs (l : list Incremental) : list (jstr * MirrorRecord) :=
  m_records (fold_left (applyIncremental other) l emptyMirror).

Lemma apply_records i m m' : m_records m = m_records m' ->
  m_records (applyIncremental other m i) = m_records (applyIncremental other m' i).
Proof. unfold applyIncremental. cbn [m_records]. by intros ->. Qed.

Lemma apply_all_records l m m' : m_records m = m_records m' ->
  m_records (fold_left (applyIncremental other) l m) = m_records (fold_left (applyIncremental other) l m').
Proof. revert m m'. induction l as [|i l IH]; intros m m' H; [done|]. cbn [fold_left]. by apply IH, apply_records. Qed.

Lemma fold_records l l' pre m : Forall dated l -> StronglySorted earlier l -> l' ≡ₚ l -> m_records m = recs pre ->
  m_records (fold other m l') = recs (pre ++ l).
Proof.
  intros Hd Hs Hp Hm. unfold fold. rewrite (sort_ascending l l') by done. cbn [m_records].
  unfold recs. rewrite fold_left_app. by apply apply_all_records.
Qed.
End Meaning.

(** ** The host

    What [store.ts] says of the store the host provides: a new resource has a
    subject of its own, a saved property is what the next read sees, and
    nothing else changes.  A write that throws may have been done or not. *)
Class Host {S} (store : PluginStore S) : Prop := {
  host_new : forall s parent name r s' x, newResource store s parent name r = (s', Ok x) ->
    x <> [] /\ getResource store s' x = Ok r /\ (forall q, getResource store s x <> Ok q) /\
    (forall y, y <> x -> getResource store s' y = getResource store s y);
  host_new_failed : forall s parent name r s' e y q, newResource store s parent name r = (s', Err e) ->
    getResource store s y = Ok q -> getResource store s' y = Ok q;
  host_save : forall s x c s' q, save store s x c = (s', Ok tt) -> getResource store s x = Ok q ->
    getResource store s' x = Ok (change c q) /\
    (forall y, y <> x -> getResource store s' y = getResource store s y);
  host_save_failed : forall s x c s' e q, save store s x c = (s', Err e) -> getResource store s x = Ok q ->
    (getResource store s' x = Ok q \/ getResource store s' x = Ok (change c q)) /\
    (forall y, y <> x -> getResource store s' y = getResource store s y);
  host_app_new : forall s parent name r, getApp store (newResource store s parent name r).1 = getApp store s;
  host_app_save : forall s x c, getApp store (save store s x c).1 = getApp store s;
}.

Section Kept.
Context {S : Type} (store : PluginStore S) (other : jstr -> option Z) (json_length : Incremental -> Z).
Context `{!Host store}.
Implicit Types (s : S) (h : HeadState) (sn : SnapshotState) (i : Incremental).

(** The store still holds the snapshots and observations it held. *)
Definition kept s s' : Prop := forall y q, getResource store s y = Ok q ->
  exists q', getResource store s' y = Ok q' /\ snapshot_ q' = snapshot_ q /\ observation_ q' = observation_ q.

Lemma kept_refl s : kept s s.
Proof. intros y q H. by exists q. Qed.

Lemma kept_trans s1 s2 s3 : kept s1 s2 -> kept s2 s3 -> kept s1 s3.
Proof.
  intros H1 H2 y q Hq. destruct (H1 y q Hq) as (q1 & E1 & A1 & B1). destruct (H2 y q1 E1) as (q2 & E2 & A2 & B2).
  exists q2. split_and!; congruence.
Qed.

(** A new resource, made or not, leaves every other as it was. *)
Lemma new_same s parent name r y q :
  getResource store s y = Ok q -> getResource store (newResource store s parent name r).1 y = Ok q.
Proof.
  intros Hq. destruct (newResource store s parent name r) as [s' [x|e]] eqn:E; cbn [fst].
  - destruct (host_new _ _ _ _ _ _ E) as (_ & _ & Hno & Hsame). rewrite Hsame; [done|]. intros ->. by apply (Hno q).
  - by apply (host_new_failed _ _ _ _ _ _ _ _ E).
Qed.

Lemma kept_new s parent name r : kept s (newResource store s parent name r).1.
Proof. intros y q Hq. exists q. split; [by apply new_same|done]. Qed.

Lemma save_cases s x c q : getResource store s x = Ok q ->
  let s' := (save store s x c).1 in
  (getResource store s' x = Ok q \/ getResource store s' x = Ok (change c q)) /\
  forall y, y <> x -> getResource store s' y = getResource store s y.
Proof.
  intros Hq. destruct (save store s x c) as [s' [[]|e]] eqn:E; cbn [fst].
  - destruct (host_save _ _ _ _ _ E Hq). by auto.
  - by apply (host_save_failed _ _ _ _ _ _ E).
Qed.

Lemma kept_save s x c q : getResource store s x = Ok q -> kept s (save store s x c).1.
Proof.
  intros Hx y p Hp. destruct (save_cases s x c q Hx) as [Hcase Hsame].
  destruct (decide (y = x)) as [->|Hne].
  - rewrite Hx in Hp. injection Hp as ->. destruct Hcase as [H|H]; [by exists p|]. exists (change c p).
    split; [done|]. by destruct c.
  - exists p. by rewrite Hsame.
Qed.

Lemma readSnapshot_kept s s' y sn : kept s s' -> readSnapshot store s y = Ok sn -> readSnapshot store s' y = Ok sn.
Proof.
  intros Hk. unfold readSnapshot. destruct (getResource store s y) as [q|] eqn:E; [|done].
  destruct (Hk y q E) as (q' & E' & Hs & _). rewrite E'. cbn [mbind res_bind]. by rewrite Hs.
Qed.

Lemma readIncremental_kept s s' e i : kept s s' ->
  readIncremental store s e = Ok i -> readIncremental store s' e = Ok i.
Proof.
  intros Hk. unfold readIncremental. destruct (getResource store s (te_subject e)) as [q|] eqn:E; [|done].
  destruct (Hk _ q E) as (q' & E' & _ & Ho). rewrite E'. cbn [mbind res_bind]. by rewrite Ho.
Qed.

Lemma readIncrementals_kept s s' es l : kept s s' ->
  readIncrementals store s es = Ok l -> readIncrementals store s' es = Ok l.
Proof.
  intros Hk. unfold readIncrementals. revert l. induction es as [|e es IH]; intros l; [done|]. cbn [mapR].
  destruct (readIncremental store s e) as [i|] eqn:E; [|done].
  rewrite (readIncremental_kept s s' e i Hk E). cbn [mbind res_bind].
  destruct (mapR (readIncremental store s) es) as [k|]; [|done]. by rewrite (IH _ eq_refl).
Qed.

Lemma readIncrementals_app s es1 es2 l1 l2 : readIncrementals store s es1 = Ok l1 ->
  readIncrementals store s es2 = Ok l2 -> readIncrementals store s (es1 ++ es2) = Ok (l1 ++ l2).
Proof.
  unfold readIncrementals. revert l1. induction es1 as [|e es1 IH]; intros l1; [by intros [= <-]|]. cbn [app mapR].
  destruct (readIncremental store s e); [|done]. cbn [mbind res_bind].
  destruct (mapR (readIncremental store s) es1) as [l|]; [|done]. intros [= <-] H2. by rewrite (IH _ eq_refl H2).
Qed.

(** ** The chain of snapshots *)

Inductive chain s : SnapshotState -> list Incremental -> Prop :=
| chain_first sn ins :
    match sn_previous sn with Some (_ :: _) => False | _ => True end ->
    readIncrementals store s (sn_compacted sn) = Ok ins -> chain s sn ins
| chain_next sn x previous ins rest :
    sn_previous sn = Some x -> x <> [] -> readSnapshot store s x = Ok previous ->
    readIncrementals store s (sn_compacted sn) = Ok ins -> chain s previous rest -> chain s sn (ins ++ rest).

Lemma chain_kept s s' sn l : kept s s' -> chain s sn l -> chain s' sn l.
Proof.
  intros Hk. induction 1 as [sn ins Hp Hr|sn x p ins rest Hp Hx Hs Hr Hc IH].
  - constructor; [done|]. by apply (readIncrementals_kept s).
  - apply (chain_next s' sn x p); [done|done|by apply (readSnapshot_kept s)|by apply (readIncrementals_kept s)|done].
Qed.

(** Following the links of a chain ends, with what the chain absorbed. *)
Lemma readChain_chain s sn l : chain s sn l -> exists n, forall fuel, (n <= fuel)%nat -> readChain store fuel s sn = Some (Ok l).
Proof.
  induction 1 as [sn ins Hp Hr|sn x p ins rest Hp Hx Hs Hr Hc [n IH]].
  - exists 1%nat. intros [|fuel] Hf; [lia|]. cbn [readChain]. rewrite Hr.
    destruct (sn_previous sn) as [[|c y]|]; done.
  - exists (Datatypes.S n). intros [|fuel] Hf; [lia|]. cbn [readChain]. rewrite Hr, Hp.
    destruct x as [|c y]; [done|]. rewrite Hs, IH by lia. done.
Qed.

(** ** A log whose parts agree *)

Abbreviation at_ms := (at_ms other).
Abbreviation coverage_ok := (coverage_ok other).

Definition instant i : Z := at_ms (receivedAt (header i)).

(** What makes the head [h] the log of the mirror [m]: its snapshot is the
    fold of [all], which the chain of snapshots absorbed, its tail holds [tl],
    received later, and both with what the head confirmed are the mirror.
    Everything was received by [B]. *)
Record log_ok s h (m : Mirror) (B : Z) sn (ch all tl : list Incremental) : Prop := {
  ok_snapshot : hd_snapshot h <> [] /\ readSnapshot store s (hd_snapshot h) = Ok sn;
  ok_chain : chain s sn ch;
  ok_perm : ch ≡ₚ all;
  ok_tail : readIncrementals store s (hd_tail h) = Ok tl;
  ok_entries : map te_position (hd_tail h) = map position_of tl;
  ok_sorted : StronglySorted (earlier other) (all ++ tl);
  ok_dated : Forall (dated other) (all ++ tl);
  ok_bound : Forall (fun i => instant i <= B) (all ++ tl);
  ok_cut : hd_cut h = position_of <$> last all /\ sn_cut sn = hd_cut h;
  ok_snap_times : Forall (fun c => at_ms (confirmedAt c) <= B) (coverage (sn_mirror sn));
  ok_snap_records : m_records (sn_mirror sn) = recs other all;
  ok_snap_cov : coverage_ok (coverage (sn_mirror sn));
  ok_snap_sem : forall k t, below (sem other (spans other all) k t) (sem other (coverage (sn_mirror sn)) k t) /\
    below (sem other (coverage (sn_mirror sn)) k t)
      (max_opt (sem other (spans other all) k t) (sem other (hd_coverage h) k t));
  ok_records : m_records m = recs other (all ++ tl);
  ok_cov : coverage_ok (coverage m);
  ok_head_cov : coverage_ok (hd_coverage h);
  ok_sem : forall k t, sem other (coverage m) k t =
    max_opt (sem other (spans other (all ++ tl)) k t) (sem other (hd_coverage h) k t);
  ok_times : Forall (fun c => at_ms (confirmedAt c) <= B) (coverage m);
  ok_head_times : Forall (fun c => at_ms (confirmedAt c) <= B) (hd_coverage h);
}.

Definition log_of s h m B : Prop := exists sn ch all tl, log_ok s h m B sn ch all tl.

Lemma log_kept s s' h m B : kept s s' -> log_of s h m B -> log_of s' h m B.
Proof.
  intros Hk (sn & ch & all & tl & H). exists sn, ch, all, tl. destruct H. split; try done.
  - destruct ok_snapshot0. split; [done|]. by apply (readSnapshot_kept s).
  - by apply (chain_kept s).
  - by apply (readIncrementals_kept s).
Qed.

Lemma log_later s h m B B' : B <= B' -> log_of s h m B -> log_of s h m B'.
Proof.
  intros HB (sn & ch & all & tl & H). exists sn, ch, all, tl. destruct H. split; try done.
  - eapply Forall_impl; [exact ok_bound0|]. intros x Hx; cbv beta in *; lia.
  - eapply Forall_impl; [exact ok_snap_times0|]. intros x Hx; cbv beta in *; lia.
  - eapply Forall_impl; [exact ok_times0|]. intros x Hx; cbv beta in *; lia.
  - eapply Forall_impl; [exact ok_head_times0|]. intros x Hx; cbv beta in *; lia.
Qed.

(** Mirrors that say the same: equal records, and of every key and instant
    the same confirmation. *)
Definition same_meaning (m m' : Mirror) : Prop :=
  m_records m = m_records m' /\ forall k t, sem other (coverage m) k t = sem other (coverage m') k t.

Lemma sorts_after_earlier i j : dated other i -> dated other j -> earlier other i j ->
  sorts_after other (position_of j) (position_of i) = true /\ sorts_after other (position_of i) (position_of j) = false.
Proof.
  intros Hi Hj Hlt. unfold sorts_after, comparePositions, position_of. cbn [p_receivedAt p_id].
  rewrite (ms_at _ _ Hi), (ms_at _ _ Hj). unfold earlier in Hlt. cbn [num_sub num_eqb].
  split; (destruct (Z.eqb_spec (at_ms (receivedAt (header j)) - at_ms (receivedAt (header i))) 0);
    destruct (Z.eqb_spec (at_ms (receivedAt (header i)) - at_ms (receivedAt (header j))) 0); cbn [negb]; lia).
Qed.

Lemma sorted_across (l1 l2 : list Incremental) i j : StronglySorted (earlier other) (l1 ++ l2) -> i ∈ l1 -> j ∈ l2 -> earlier other i j.
Proof.
  intros Hs Hi Hj. induction l1 as [|x l IH]; [by apply elem_of_nil in Hi|]. cbn [app] in Hs.
  inversion Hs as [|? ? H1 H2]; subst. apply elem_of_cons in Hi as [->|Hi]; [|by apply IH].
  rewrite Forall_forall in H2. apply H2. set_solver.
Qed.

(** An observation after the cut of an ascending log. *)
Lemma after_cut all tl i : StronglySorted (earlier other) (all ++ tl) -> Forall (dated other) (all ++ tl) -> i ∈ tl ->
  after other (position_of i) (position_of <$> last all) = true.
Proof.
  intros Hs Hd Hi. destruct (last all) as [j|] eqn:E; [|done]. apply last_Some in E as [all' ->].
  cbn [fmap option_fmap option_map after]. rewrite Forall_forall in Hd.
  apply sorts_after_earlier; [apply Hd; set_solver|apply Hd; set_solver|].
  apply (sorted_across (all' ++ [j]) tl); [done|set_solver|done].
Qed.

(** Opening, or replaying, a log whose parts agree. *)
Lemma open_ok s a app x r h m B :
  getApp store s = Ok a -> getResource store s a = Ok app -> log_ app = Some x -> x <> [] ->
  getResource store s x = Ok r -> head_ r = Json h -> log_of s h m B ->
  exists n m' m'',
    (forall fuel, open store other fuel s = Some (Ok (mkLog 0 0 false (Some x) (Some h) m'))) /\
    (forall fuel, (n <= fuel)%nat -> replay store other fuel s = Some (Ok m'')) /\ log_of s h m' B /\
    same_meaning m' m /\ same_meaning m'' m.
Proof.
  intros Ha Happ Hl Hx Hr Hh Hlog. pose proof Hlog as (sn & ch & all & tl & Hok). destruct Hok.
  destruct ok_snapshot0 as [_ Hsn]. destruct ok_cut0 as [Hc Hsc].
  pose proof ok_dated0 as [Hda Hdt]%Forall_app.
  assert (Hst : StronglySorted (earlier other) tl) by by eapply sorted_suffix.
  destruct (readChain_chain s sn ch ok_chain0) as [n Hn].
  set (m1 := fold other (sn_mirror sn) tl). set (m2 := fold other emptyMirror (ch ++ tl)).
  assert (Hm1 : m_records m1 = m_records m) by (unfold m1; by rewrite (fold_records other tl tl all), ok_records0).
  assert (Hp2 : ch ++ tl ≡ₚ all ++ tl) by by rewrite ok_perm0.
  assert (Hm2 : m_records m2 = m_records m) by (unfold m2; by rewrite (fold_records other (all ++ tl) _ []), ok_records0).
  destruct (fold_coverage other tl (sn_mirror sn) Hdt ok_snap_cov0) as [Hc1 Hs1]. fold m1 in Hc1, Hs1.
  destruct (fold_coverage other (ch ++ tl) emptyMirror) as [Hc2 Hs2]; [by rewrite Hp2|by split; [constructor|intros; constructor]|].
  fold m2 in Hc2, Hs2.
  assert (Hsem1 : forall k t, sem other (coverage (with_coverage other m1 (hd_coverage h))) k t = sem other (coverage m) k t).
  { intros k t. cbn [with_coverage coverage]. rewrite merge_sem, Hs1, ok_sem0, spans_app, sem_app by done.
    destruct (ok_snap_sem0 k t) as [L1 L2]. apply below_antisym.
    - apply below_join. split; [apply below_join; split|apply below_right].
      + eapply below_trans; [exact L2|]. apply below_join. split; [|apply below_right].
        eapply below_trans; [apply below_left|apply below_left].
      + eapply below_trans; [apply below_right|apply below_left].
    - apply below_join. split; [apply below_join; split|apply below_right].
      + eapply below_trans; [exact L1|]. eapply below_trans; [apply below_left|apply below_left].
      + eapply below_trans; [apply below_right|apply below_left]. }
  assert (Hsem2 : forall k t, sem other (coverage (with_coverage other m2 (hd_coverage h))) k t = sem other (coverage m) k t).
  { intros k t. cbn [with_coverage coverage]. rewrite merge_sem, Hs2, ok_sem0 by done. f_equal.
    rewrite (sem_perm _ _ _ _ _ (spans_perm _ _ _ Hp2)).
    change (sem other (coverage emptyMirror) k t) with (@None Z). done. }
  assert (Hlate : existsb (fun e => negb (after other (te_position e) (sn_cut sn))) (hd_tail h) = false).
  { apply not_true_iff_false. intros (e & He & Hne)%existsb_exists. apply negb_true_iff in Hne.
    assert (Hin : te_position e ∈ map te_position (hd_tail h)) by by apply list_elem_of_fmap_2, list_elem_of_In.
    rewrite ok_entries0 in Hin. apply list_elem_of_fmap in Hin as (i & Ei & Hi).
    rewrite Ei, Hsc, Hc, (after_cut all tl i) in Hne; done. }
  assert (Hread : readHead store s = Ok (Some (x, h))).
  { unfold readHead. rewrite Ha. cbn [mbind res_bind]. rewrite Happ. cbn [mbind res_bind]. rewrite Hl.
    destruct x as [|c x]; [done|]. rewrite Hr. cbn [mbind res_bind]. by rewrite Hh. }
  exists n, (with_coverage other m1 (hd_coverage h)), (with_coverage other m2 (hd_coverage h)).
  split_and!; [| | |by split|by split].
  1: { intros fuel. unfold open. rewrite Hread, Hsn. cbn [mbind res_bind]. rewrite ok_tail0. cbn [mbind res_bind]. by rewrite Hlate. }
  1: { intros fuel Hf. unfold replay. rewrite Hread, Hsn, (Hn fuel Hf), ok_tail0. done. }
  exists sn, ch, all, tl. split; try done.
  - split; [|done]. by destruct Hlog as (? & ? & ? & ? & [[? _]]).
  - cbn [with_coverage m_records]. by rewrite Hm1.
  - by apply merge_ok.
  - intros k t. by rewrite Hsem1.
  - apply (merge_times other (fun x => at_ms x <= B)); [|done]. apply Forall_app in ok_bound0 as [_ ?].
    by apply (fold_times other (fun x => at_ms x <= B)).
Qed.

(** ** One more observation *)

Lemma confirmed_elem l t v : confirmed other l t = Some v ->
  exists x, x ∈ l /\ contains other x t = true /\ at_ms (confirmedAt x) = v.
Proof.
  revert v. induction l as [|x l IH]; intros v; [done|]. cbn [confirmed].
  destruct (contains other x t) eqn:E.
  - destruct (confirmed other l t) as [w|] eqn:El; cbn [max_opt]; intros [= <-].
    + destruct (Z.max_spec (at_ms (confirmedAt x)) w) as [[_ ->]|[_ ->]].
      * destruct (IH w eq_refl) as (y & Hy & ?). exists y. split; [by right|done].
      * exists x. split; [by left|done].
    + exists x. split; [by left|done].
  - intros H. destruct (IH v H) as (y & Hy & ?). exists y. split; [by right|done].
Qed.

Lemma confirmed_above l t x : x ∈ l -> contains other x t = true -> below (Some (at_ms (confirmedAt x))) (confirmed other l t).
Proof.
  induction l as [|y l IH]; intros Hx Hc; [by apply elem_of_nil in Hx|]. cbn [confirmed].
  apply elem_of_cons in Hx as [->|Hx].
  - rewrite Hc. apply below_left.
  - specialize (IH Hx Hc). destruct (contains other y t); [|done]. eapply below_trans; [exact IH|apply below_right].
Qed.

Lemma confirmed_bound l t v b : Forall (fun x => at_ms (confirmedAt x) <= b) l -> confirmed other l t = Some v -> v <= b.
Proof. intros Hl (x & Hx & _ & <-)%confirmed_elem. rewrite Forall_forall in Hl. by apply Hl. Qed.

Lemma own_elem k c x : x ∈ own k c <-> x ∈ c /\ s_key x = k.
Proof.
  unfold own. rewrite list_elem_of_In, filter_In, <-list_elem_of_In. unfold jeqb. by rewrite bool_decide_eq_true.
Qed.

(** What the head is told of a read is there, and nothing that the mirror does not say. *)
Lemma confirm_spec i h m B : dated other i -> B < instant i -> coverage_ok (coverage m) -> coverage_ok (hd_coverage h) ->
  Forall (fun c => at_ms (confirmedAt c) <= B) (coverage m) ->
  let m' := fold other m [i] in
  let cov := hd_coverage (confirm_head other i m' h) in
  coverage_ok cov /\ forall k t, below (sem other (hd_coverage h) k t) (sem other cov k t) /\
    below (sem other cov k t) (max_opt (sem other (hd_coverage h) k t) (sem other (coverage m') k t)) /\
    below (sem other (span_of other i) k t) (sem other cov k t).
Proof.
  intros Hi HB Hm Hh Ht m' cov.
  assert (Hl : Forall (dated other) [i]) by by constructor.
  destruct (fold_coverage other [i] m Hl Hm) as [Hm' Hsem]. fold m' in Hm', Hsem.
  unfold cov, confirm_head. assert (Hsp : span_of other i <> [] -> exists r, complete (header i) = true /\ scope (header i) = InRange r).
  { unfold span_of. destruct (complete (header i)), (scope (header i)) as [r|r]; try done. by exists r. }
  destruct (complete (header i)) eqn:Ec; [destruct (scope (header i)) as [r|r] eqn:Es|]; cbn [hd_coverage].
  2, 3: split; [done|]; intros k t; split_and!; [apply below_refl|apply below_left|];
    destruct (span_of other i) as [|? ?]; [apply below_none|by destruct (Hsp ltac:(done)) as (? & ? & ?)].
  set (f := List.filter _ (coverage m')). assert (Hf : coverage_ok f) by by apply filter_ok.
  split; [by apply merge_ok|]. intros k t. rewrite merge_sem by done.
  split_and!; [apply below_left| |].
  { apply below_join. split; [apply below_left|]. eapply below_trans; [apply sem_filter|apply below_right]. }
  eapply below_trans; [|apply below_right]. destruct (sem other (span_of other i) k t) as [v|] eqn:Ev; [|apply below_none].
  assert (Hv : v = instant i).
  { unfold sem in Ev. apply confirmed_elem in Ev as (x & [Hx _]%own_elem & _ & <-). unfold span_of in Hx.
    rewrite Ec, Es in Hx. destruct (num_ltb _ _); [|by apply elem_of_nil in Hx]. by apply list_elem_of_singleton in Hx as ->. }
  assert (Hmv : sem other (coverage m') k t = Some v).
  { rewrite Hsem. change (spans other [i]) with (span_of other i ++ []). rewrite app_nil_r, Ev.
    destruct (sem other (coverage m) k t) as [w|] eqn:Ew; [|done]. cbn [max_opt]. f_equal.
    assert (w <= B); [|lia]. apply (confirmed_bound (own k (coverage m)) t); [|done].
    rewrite Forall_forall in Ht |- *. intros x [Hx _]%own_elem. by apply Ht. }
  unfold sem in Hmv. apply confirmed_elem in Hmv as (x & [Hx Hk]%own_elem & Hct & Hxv).
  assert (Hxs : confirmedAt x = receivedAt (header i)).
  { unfold m', fold in Hx. cbn [coverage] in Hx. unfold sortCoverage in Hx. rewrite sort_by_perm in Hx.
    rewrite (sort_ascending other [i] [i]) in Hx by first [done|by repeat constructor].
    destruct (apply_coverage other i m Hi Hm) as (_ & _ & Hor). destruct (Hor x Hx) as [|(y & Hy & E)]; [done|].
    rewrite Forall_forall in Ht. specialize (Ht y Hy). cbv beta in Ht. rewrite E in Hxv. lia. }
  rewrite <-Hxv. apply (confirmed_above _ _ x); [|done]. apply own_elem. split; [|done].
  unfold f. rewrite list_elem_of_In, filter_In, <-list_elem_of_In. split; [done|]. by apply bool_decide_eq_true.
Qed.

Lemma empty_records i m : isEmpty i = true -> m_records (applyIncremental other m i) = m_records m.
Proof. unfold isEmpty, applyIncremental. cbn [m_records]. by destruct (upserts i), (absent i). Qed.

Definition with_tail h (es : list TailEntry) : HeadState :=
  mkHead (hd_snapshot h) (hd_cut h) (hd_tail h ++ es) (hd_coverage h) (hd_lastComplete h).

Lemma confirm_same i h m :
  hd_snapshot (confirm_head other i m h) = hd_snapshot h /\ hd_cut (confirm_head other i m h) = hd_cut h /\
  hd_tail (confirm_head other i m h) = hd_tail h.
Proof. unfold confirm_head. by destruct (complete (header i)), (scope (header i)). Qed.

(** An observation received after the others keeps the parts agreeing, stored
    or, when it changed nothing, only confirmed. *)
Lemma log_step s h m B i es ins : log_of s h m B -> dated other i -> B < instant i ->
  readIncrementals store s es = Ok ins -> map te_position es = map position_of ins ->
  ins = [i] \/ (ins = [] /\ isEmpty i = true) ->
  log_of s (confirm_head other i (fold other m [i]) (with_tail h es)) (fold other m [i]) (instant i).
Proof.
  intros (sn & ch & all & tl & H) Hi HB Hes Hpos Hins. exists sn, ch, all, (tl ++ ins). destruct H.
  set (m' := fold other m [i]). set (h' := confirm_head other i m' (with_tail h es)).
  destruct (confirm_same i (with_tail h es) m') as (Esn & Ecut & Etl). fold h' in Esn, Ecut, Etl.
  cbn [with_tail hd_snapshot hd_cut hd_tail] in Esn, Ecut, Etl.
  destruct (confirm_spec i (with_tail h es) m B Hi HB ok_cov0 ok_head_cov0 ok_times0) as [Hc Hsem].
  fold m' h' in Hc, Hsem. cbn [with_tail hd_coverage] in Hsem.
  assert (Hl : Forall (dated other) [i]) by by constructor.
  destruct (fold_coverage other [i] m Hl ok_cov0) as [Hm' Hsm]. fold m' in Hm', Hsm.
  assert (Hsp : forall k t, sem other (spans other [i]) k t = sem other (span_of other i) k t).
  { intros k t. change (spans other [i]) with (span_of other i ++ []). by rewrite app_nil_r. }
  assert (Hin : forall x, x ∈ ins -> x = i).
  { intros x Hx. destruct Hins as [->|[-> _]]; [by apply list_elem_of_singleton in Hx|by apply elem_of_nil in Hx]. }
  assert (Hle : forall c, Forall (fun c => at_ms (confirmedAt c) <= B) c -> Forall (fun c => at_ms (confirmedAt c) <= instant i) c).
  { intros c Hfc. eapply Forall_impl; [exact Hfc|]. intros x Hx; cbv beta in *; lia. }
  split; rewrite ?Esn, ?Ecut, ?Etl; try done.
  - by apply readIncrementals_app.
  - by rewrite !map_app, ok_entries0, Hpos.
  - rewrite app_assoc. apply Collections.sorted_app; [done| |].
    + destruct Hins as [->|[-> _]]; repeat constructor.
    + intros x y Hx ->%Hin. rewrite Forall_forall in ok_bound0. specialize (ok_bound0 x Hx).
      unfold earlier. unfold instant in *. lia.
  - rewrite app_assoc. apply Forall_app. split; [done|]. apply Forall_forall. by intros x ->%Hin.
  - rewrite app_assoc. apply Forall_app. split; [eapply Forall_impl; [exact ok_bound0|]; intros x Hx; cbv beta in *; lia|].
    apply Forall_forall. intros x ->%Hin. lia.
  - by apply Hle.
  - intros k t. destruct (ok_snap_sem0 k t) as [L1 L2]. split; [done|]. eapply below_trans; [exact L2|].
    apply below_join. split; [apply below_left|]. eapply below_trans; [apply Hsem|apply below_right].
  - unfold m', fold. cbn [m_records]. rewrite (sort_ascending other [i] [i]) by first [done|by repeat constructor].
    cbn [fold_left]. unfold recs. rewrite app_assoc, fold_left_app. destruct Hins as [->|[-> Hempty]].
    + by apply apply_records.
    + by rewrite empty_records, ok_records0.
  - intros k t. destruct (Hsem k t) as (A1 & A2 & A3). rewrite app_assoc, spans_app, sem_app.
    assert (Hsi : below (sem other (spans other ins) k t) (sem other (span_of other i) k t)).
    { destruct Hins as [->|[-> _]]; [rewrite Hsp; apply below_refl|apply below_none]. }
    assert (Hms : sem other (coverage m') k t = max_opt (max_opt (sem other (spans other (all ++ tl)) k t)
      (sem other (hd_coverage h) k t)) (sem other (span_of other i) k t)) by by rewrite Hsm, ok_sem0, Hsp.
    apply below_antisym.
    + rewrite Hms. apply below_join. split; [apply below_join; split|].
      * eapply below_trans; [apply below_left|]. apply below_left.
      * eapply below_trans; [exact A1|apply below_right].
      * eapply below_trans; [exact A3|apply below_right].
    + apply below_join. split; [apply below_join; split|].
      * rewrite Hms. eapply below_trans; [apply below_left|apply below_left].
      * eapply below_trans; [exact Hsi|]. rewrite Hms. apply below_right.
      * eapply below_trans; [exact A2|]. apply below_join. split; [|apply below_refl].
        rewrite Hms. eapply below_trans; [apply below_right|apply below_left].
  - apply (fold_times other (fun x => at_ms x <= instant i)); [done| |by apply Hle].
    constructor; [unfold instant; lia|done].
  - unfold h', confirm_head. destruct (complete (header i)), (scope (header i)); cbn [hd_coverage with_tail]; try by apply Hle.
    apply (merge_times other (fun x => at_ms x <= instant i)); [by apply Hle|]. apply Forall_forall. intros x.
    rewrite list_elem_of_In, filter_In, <-list_elem_of_In. intros [_ Hx%bool_decide_eq_true]. rewrite Hx. unfold instant. lia.
Qed.

(** ** Compaction *)

Lemma latest_position l : StronglySorted (earlier other) l -> Forall (dated other) l ->
  fold_left (later_position other) (map position_of l) None = position_of <$> last l.
Proof.
  induction l as [|i l IH] using rev_ind; intros Hs Hd; [done|]. rewrite map_app, fold_left_app. cbn [map fold_left].
  pose proof Hd as [Hd' Hi]%Forall_app. rewrite IH, last_snoc; [|by eapply sorted_prefix'|done].
  destruct (last l) as [j|] eqn:E; [|done]. apply last_Some in E as [l' ->].
  cbn [fmap option_fmap option_map later_position]. apply Forall_cons in Hi as [Hi _].
  apply Forall_app in Hd' as [_ Hj]. apply Forall_cons in Hj as [Hj _].
  assert (earlier other j i) by (apply (sorted_across (l' ++ [j]) [i]); [done|set_solver|by left]).
  by rewrite (proj1 (sorts_after_earlier j i Hj Hi ltac:(done))).
Qed.

Lemma log_compact s s' h m B x t : log_of s h m B -> kept s s' -> x <> [] ->
  let cut := fold_left (later_position other)
    (map te_position (hd_tail h) ++ match hd_cut h with Some c => [c] | None => [] end) None in
  getResource store s' x = Ok (snapshot_resource (mkSnapshot m cut (Some (hd_snapshot h)) (hd_tail h) t)) ->
  log_of s' (mkHead x cut [] (hd_coverage h) (hd_lastComplete h)) m B.
Proof.
  intros (sn & ch & all & tl & H) Hk Hx cut Hr.
  set (sn' := mkSnapshot m cut (Some (hd_snapshot h)) (hd_tail h) t) in *.
  exists sn', (tl ++ ch), (all ++ tl), []. destruct H. destruct ok_snapshot0 as [Hne Hsn]. destruct ok_cut0 as [Hc Hsc].
  assert (Ecut : cut = position_of <$> last (all ++ tl)).
  { unfold cut. rewrite ok_entries0, fold_left_app, latest_position, Hc; [|by eapply sorted_suffix|by eapply Forall_app in ok_dated0 as [_ ?]].
    rewrite last_app. destruct (last tl) as [i|] eqn:Ei, (last all) as [j|] eqn:Ej; cbn [fmap option_fmap option_map fold_left later_position]; try done.
    apply last_Some in Ei as [tl' ->]. apply last_Some in Ej as [all' ->].
    rewrite Forall_forall in ok_dated0.
    assert (Hij : earlier other j i) by (apply (sorted_across (all' ++ [j]) (tl' ++ [i])); [done|set_solver|set_solver]).
    by rewrite (proj2 (sorts_after_earlier j i ltac:(apply ok_dated0; set_solver) ltac:(apply ok_dated0; set_solver) Hij)). }
  split; cbn [hd_snapshot hd_cut hd_tail hd_coverage sn_mirror sn_cut sn']; rewrite ?app_nil_r; try done.
  - split; [done|]. unfold readSnapshot. by rewrite Hr.
  - apply (chain_next s' sn' (hd_snapshot h) sn); [done|done|by apply (readSnapshot_kept s)| |by apply (chain_kept s)].
    by apply (readIncrementals_kept s).
  - rewrite ok_perm0. apply Permutation_app_comm.
  - intros k t'. rewrite ok_sem0. split; [apply below_left|apply below_refl].
Qed.

(** ** Saving the head *)

(** The stored head [st] may lag the log's own [h]. *)
Definition behind (st h : HeadState) : Prop :=
  hd_snapshot st = hd_snapshot h ->
  (forall e, e ∈ hd_tail st -> p_id (te_position e) ∈ map (fun e => p_id (te_position e)) (hd_tail h)) /\
  forall k t, below (sem other (hd_coverage st) k t) (sem other (hd_coverage h) k t).

Lemma log_merge s st h m mst B : log_of s h m B -> log_of s st mst B -> behind st h ->
  let h' := merge_stored other h (Json st) in
  log_of s h' m B /\ behind st h' /\ behind h h' /\ behind h' h.
Proof.
  intros Hh Hst Hb h'. subst h'. unfold merge_stored. cbn [parse].
  assert (Hself : behind h h).
  { intros _. split; [|intros; apply below_refl]. intros y Hy. by apply (list_elem_of_fmap_2 (fun e => p_id (te_position e))). }
  destruct (jeqb (hd_snapshot st) (hd_snapshot h)) eqn:E; [|by split_and!].
  apply bool_decide_eq_true in E. destruct (Hb E) as [Ht Hc].
  assert (List.filter (fun e => negb (bool_decide (p_id (te_position e) ∈ map (fun e => p_id (te_position e)) (hd_tail h)))) (hd_tail st) = []) as ->.
  { apply filter_none. intros e He. rewrite bool_decide_true by by apply Ht. done. }
  rewrite app_nil_r. destruct Hh as (sn & ch & all & tl & H). destruct H.
  destruct Hst as (? & ? & ? & ? & Hst). destruct Hst as [_ _ _ _ _ _ _ _ _ _ _ _ _ _ _ Hstc _ _ Hstt].
  assert (Hsem : forall k t, sem other (mergeCoverage other (hd_coverage h) (hd_coverage st)) k t = sem other (hd_coverage h) k t).
  { intros k t. rewrite merge_sem by done. rewrite max_opt_comm. apply Hc. }
  split; [|split_and!].
  - exists sn, ch, all, tl. split; cbn [hd_snapshot hd_cut hd_tail hd_coverage]; try done.
    + intros k t. rewrite Hsem. apply ok_snap_sem0.
    + by apply merge_ok.
    + intros k t. by rewrite Hsem.
    + by apply (merge_times other (fun x => at_ms x <= B)).
  - intros _. cbn [hd_tail hd_coverage]. split; [done|]. intros k t. rewrite Hsem. apply Hc.
  - intros _. cbn [hd_tail hd_coverage]. split; [by apply Hself|]. intros k t. rewrite Hsem. apply below_refl.
  - intros _. cbn [hd_tail hd_coverage]. split; [by apply Hself|]. intros k t. rewrite Hsem. apply below_refl.
Qed.

(** ** A session *)

Abbreviation World := (S * ObservationLog)%type.

(** The app links to the head, whose stored text is a log in itself, perhaps
    behind this instance's. *)
Record linked s (l : ObservationLog) h B a app x r st mst : Prop := {
  lk_app : getApp store s = Ok a /\ getResource store s a = Ok app /\ log_ app = Some x;
  lk_subject : x <> [] /\ headSubject l = Some x;
  lk_stored : getResource store s x = Ok r /\ head_ r = Json st /\ log_of s st mst B;
  lk_log : log_of s h (current l) B;
  lk_behind : behind st h;
  lk_clean : dirty l = false -> same_meaning mst (current l);
}.

(** An app without a log. *)
Definition fresh_app s : Prop := readHead store s = Ok None.

Definition world_ok (w : World) B : Prop :=
  match head w.2 with
  | None => current w.2 = emptyMirror /\ dirty w.2 = false /\ fresh_app w.1
  | Some h => exists a app x r st mst, linked w.1 w.2 h B a app x r st mst
  end.

Lemma linked_new s parent name r0 l h B a app x r st mst :
  linked s l h B a app x r st mst ->
  linked (newResource store s parent name r0).1 l h B a app x r st mst.
Proof.
  intros [(H1 & H2 & H3) H4 (H5 & H6 & H7) H8 H9 H10]. pose proof (kept_new s parent name r0) as Hk.
  split; try done.
  - split_and!; [by rewrite host_app_new|by apply new_same|done].
  - split_and!; [by apply new_same|done|by apply (log_kept s)].
  - by apply (log_kept s).
Qed.

Lemma linked_later s l h B B' a app x r st mst : B <= B' -> linked s l h B a app x r st mst ->
  linked s l h B' a app x r st mst.
Proof.
  intros HB [H1 H2 (H3 & H4 & H5) H6 H7 H8]. split; try done; [split_and!; try done|]; by apply (log_later _ _ _ B).
Qed.

(** The mirror of an empty log. *)
Lemma log_first s y t :
  y <> [] -> getResource store s y = Ok (snapshot_resource (mkSnapshot emptyMirror None None [] t)) ->
  forall B, log_of s (mkHead y None [] [] None) emptyMirror B.
Proof.
  intros Hy Hr B. exists (mkSnapshot emptyMirror None None [] t), [], [], [].
  assert (Hok : coverage_ok []) by (split; [constructor|intros; constructor]).
  split; cbn [hd_snapshot hd_cut hd_tail hd_coverage app]; try done; try by constructor.
  - split; [done|]. unfold readSnapshot. by rewrite Hr.
Qed.

Lemma fresh_spec s : fresh_app s <-> exists a app, getApp store s = Ok a /\ getResource store s a = Ok app
  /\ (log_ app = None \/ log_ app = Some []).
Proof.
  unfold fresh_app, readHead. split.
  - destruct (getApp store s) as [a|]; [|done]. cbn. destruct (getResource store s a) as [app|] eqn:E; [|done].
    cbn. destruct (log_ app) as [[|c y]|] eqn:El; [| |]; intros H; [by exists a, app; auto| |by exists a, app; auto].
    destruct (getResource store s (c :: y)) as [r|]; [|done]. cbn in H. by destruct (parse _ _).
  - intros (a & app & -> & E & [Hl|Hl]); cbn; rewrite E; cbn; by rewrite Hl.
Qed.

Lemma fresh_new s parent name r : fresh_app s -> fresh_app (newResource store s parent name r).1.
Proof.
  rewrite !fresh_spec. intros (a & app & Ha & Hr & Hl). exists a, app. rewrite host_app_new. split; [done|]. split; [by apply new_same|done].
Qed.

Lemma fresh_save_head s x h r : getResource store s x = Ok r -> fresh_app s -> fresh_app (save store s x (SetHead h)).1.
Proof.
  rewrite !fresh_spec. intros Hx (a & app & Ha & Hr & Hl). destruct (save_cases s x (SetHead h) r Hx) as [Hcase Hsame].
  destruct (decide (a = x)) as [->|Hne]; [|exists a, app; rewrite host_app_save, Hsame by done; done].
  rewrite Hx in Hr. injection Hr as ->. destruct Hcase as [E|E]; eexists x, _; rewrite host_app_save; (split; [done|]); (split; [exact E|done]).
Qed.

(** The first head, with its app linked to it. *)
Lemma linked_first s a app x y t l B : getApp store s = Ok a -> getResource store s a = Ok (change (SetLog x) app) -> x <> [] -> y <> [] ->
  getResource store s x = Ok (change (SetHead (mkHead y None [] [] None)) no_texts) ->
  getResource store s y = Ok (snapshot_resource (mkSnapshot emptyMirror None None [] t)) ->
  headSubject l = Some x -> head l = Some (mkHead y None [] [] None) -> current l = emptyMirror -> dirty l = false -> world_ok (s, l) B.
Proof.
  intros Ha Happ Hx Hy Hrx Hry Hsub Hh Hc Hd. unfold world_ok. cbn [fst snd]. rewrite Hh.
  assert (forall B, log_of s (mkHead y None [] [] None) emptyMirror B) as Hlog by (by apply (log_first _ _ t)).
  exists a, (change (SetLog x) app), x, (change (SetHead (mkHead y None [] [] None)) no_texts), (mkHead y None [] [] None), emptyMirror.
  split; rewrite ?Hc.
  - by split_and!.
  - done.
  - split_and!; [done|done|apply Hlog].
  - apply Hlog.
  - intros _. split; [by intros e ?%elem_of_nil|]. intros; apply below_refl.
  - done.
Qed.

(** Making the first head: it and its app are there; or it failed, and either
    nothing is linked to the app and the instance has no head, or it has one
    and the app may link to it or not. *)
Lemma ensureHead_cases now w w' j B : world_ok w B -> ensureHead store now w = (w', j) ->
  match j with
  | Ok h => world_ok w' B /\ head w'.2 = Some h /\ current w'.2 = current w.2
  | Err _ => head w.2 = None /\ (world_ok w' B \/ fresh_app w'.1 /\ is_Some (head w'.2))
  end.
Proof.
  destruct w as [s l]. intros Hw. unfold ensureHead. cbv [mbind io_bind get_log reading writing put_log try mret io_ret fst snd].
  destruct (head l) as [h0|] eqn:Eh; [by intros [= <- <-]|].
  assert (current l = emptyMirror /\ dirty l = false /\ fresh_app s) as (Hc & Hd & Hf).
  { unfold world_ok in Hw. cbn [fst snd] in Hw. by rewrite Eh in Hw. }
  assert (forall s' l', fresh_app s' -> current l' = current l -> dirty l' = dirty l -> head l' = None ->
    @None HeadState = None /\ (world_ok (s', l') B \/ fresh_app s' /\ is_Some (head l'))) as Hno.
  { intros s' l' Hf' Hc' Hd' Hh'. split; [done|]. left. unfold world_ok. cbn [fst snd]. rewrite Hh'. split_and!; congruence. }
  destruct (getApp store s) as [a|] eqn:Ea; [|intros [= <- <-]; by apply Hno].
  destruct (getResource store s a) as [app|] eqn:Eapp; [|intros [= <- <-]; by apply Hno].
  pose proof (fresh_new s (Some a) (js "Clockify observation log") no_texts Hf) as Hf1.
  destruct (newResource store s (Some a) (js "Clockify observation log") no_texts) as [s1 [x|]] eqn:E1; cbn [fst] in Hf1; [|intros [= <- <-]; by apply Hno].
  destruct (iso now) as [t|]; [|intros [= <- <-]; by apply Hno].
  set (first := snapshot_resource _). pose proof (fresh_new s1 (Some x) (js "Clockify snapshot (empty)") first Hf1) as Hf2.
  destruct (newResource store s1 (Some x) _ first) as [s2 [y|]] eqn:E2; cbn [fst] in Hf2; [|intros [= <- <-]; by apply Hno].
  destruct (host_new _ _ _ _ _ _ E1) as (Hx & Hx1 & Hxno & Hsame1).
  destruct (host_new _ _ _ _ _ _ E2) as (Hy & Hy2 & Hyno & Hsame2).
  assert (Hax : a <> x) by (intros ->; by apply (Hxno app)).
  assert (Hxy : x <> y) by (intros ->; by apply (Hyno no_texts)).
  assert (Hay : a <> y) by (intros ->; apply (Hyno app); by rewrite Hsame1).
  assert (Hx2 : getResource store s2 x = Ok no_texts) by by rewrite Hsame2.
  set (h := mkHead y None [] [] None). pose proof (fresh_save_head s2 x h no_texts Hx2 Hf2) as Hf3.
  destruct (save store s2 x (SetHead h)) as [s3 [[]|]] eqn:E3; cbn [fst] in Hf3.
  2: { intros [= <- <-]. split; [done|]. right. split; [done|by eexists]. }
  destruct (host_save _ _ _ _ _ E3 Hx2) as [Hx3 Hsame3].
  assert (Ha3 : getResource store s3 a = Ok app) by by rewrite Hsame3, Hsame2, Hsame1.
  assert (getApp store s3 = Ok a) as Hga3.
  { change s3 with (s3, Ok tt : res string unit).1. rewrite <-E3, host_app_save.
    change s2 with (s2, Ok y : res string jstr).1. rewrite <-E2, host_app_new.
    change s1 with (s1, Ok x : res string jstr).1. by rewrite <-E1, host_app_new. }
  destruct (save_cases s3 a (SetLog x) app Ha3) as [Hcase Hsame4]. pose proof (host_app_save s3 a (SetLog x)) as Hga4.
  assert (getResource store (save store s3 a (SetLog x)).1 a = Ok (change (SetLog x) app) ->
    world_ok ((save store s3 a (SetLog x)).1, set_head (set_headSubject l x) h) B) as Hlinked.
  { intros Ha4. apply (linked_first _ a app x y t); try done; [congruence|by rewrite Hsame4|by rewrite Hsame4, Hsame3, Hy2]. }
  destruct (save store s3 a (SetLog x)) as [s4 [[]|e]] eqn:E4; cbn [fst] in *; intros [= <- <-].
  - split; [|done]. apply Hlinked. by apply (host_save _ _ _ _ _ E4).
  - split; [done|]. destruct Hcase as [Ha4|Ha4]; [right|left; by apply Hlinked]. cbn [fst snd set_head head]. split; [|by eexists].
    apply fresh_spec. apply fresh_spec in Hf as (a' & app' & Ea' & Eapp' & Hl). exists a, app. split; [congruence|]. split; [done|]. congruence.
Qed.

Lemma behind_grows st h h' : behind st h ->
  hd_snapshot h' = hd_snapshot h ->
  (forall e, e ∈ hd_tail h -> p_id (te_position e) ∈ map (fun e => p_id (te_position e)) (hd_tail h')) ->
  (forall k t, below (sem other (hd_coverage h) k t) (sem other (hd_coverage h') k t)) -> behind st h'.
Proof.
  intros Hb Hs Ht Hc E. rewrite Hs in E. destruct (Hb E) as [H1 H2]. split.
  - intros e He%H1. apply list_elem_of_fmap in He as (e' & -> & He'). by apply Ht.
  - intros k t. eapply below_trans; [apply H2|apply Hc].
Qed.

Lemma append_incremental_ok w w' i h j B : world_ok w B -> head w.2 = Some h ->
  dated other i -> B < instant i -> append_incremental store other json_length i h w = (w', j) ->
  match j with Ok _ => world_ok w' (instant i) /\ is_Some (head w'.2) | Err _ => world_ok w' B /\ is_Some (head w'.2) end.
Proof.
  destruct w as [s l]. intros Hw Hh Hi HB. unfold world_ok in Hw. cbn [fst snd] in Hw, Hh. rewrite Hh in Hw.
  destruct Hw as (a & app & x & r & st & mst & Hl). unfold append_incremental, store_incremental.
  cbv [mbind io_bind get_log reading writing put_log try mret io_ret]. cbn [fst snd].
  assert (Hstep : forall s' l' es ins, linked s' (set_head l' h) h B a app x r st mst -> current l' = current l ->
    headSubject l' = headSubject l ->
    readIncrementals store s' es = Ok ins -> map te_position es = map position_of ins ->
    ins = [i] \/ (ins = [] /\ isEmpty i = true) ->
    world_ok (s', set_dirty (set_head (set_current l' (fold other (current l) [i]))
      (confirm_head other i (fold other (current l) [i]) (with_tail h es))) true) (instant i)).
  { intros s' l' es ins Hl' Hc Hsub Hes Hpos Hins. pose proof Hl' as [L1 L2 L3 L4 L5 _].
    cbn [set_head current] in L4. rewrite Hc in L4.
    assert (HB' : B <= instant i) by lia. exists a, app, x, r, st, mst. cbn [fst snd].
    destruct L3 as (L3 & L3' & L3''). split; cbn [set_dirty set_head set_current headSubject current dirty]; try done.
    - split_and!; try done. by apply (log_later _ _ _ B).
    - by apply (log_step s' h (current l) B i es ins).
    - destruct (confirm_same i (with_tail h es) (fold other (current l) [i])) as (E1 & _ & E3).
      apply (behind_grows st h); [done|done| |].
      + intros e He. rewrite E3. cbn [with_tail hd_tail]. rewrite map_app. apply elem_of_app. left.
        by apply (list_elem_of_fmap_2 (fun e => p_id (te_position e))).
      + intros k t. pose proof L4 as (? & ? & ? & ? & Hok). destruct Hok.
        destruct (confirm_spec i (with_tail h es) (current l) B Hi HB ok_cov0 ok_head_cov0 ok_times0) as [_ Hsem].
        apply Hsem. }
  destruct (isEmpty i) eqn:Ei.
  - intros [= <- <-]. split; [|by eexists]. replace h with (with_tail h []) by (destruct h; unfold with_tail; cbn; by rewrite app_nil_r).
    apply (Hstep s l [] []); [|done|done|done|done|by right]. destruct l; cbn in *; subst; done.
  - cbn [fst snd]. set (nm := js "Clockify " ++ kind_text (h_kind (header i)) ++ js " read " ++ receivedAt (header i)).
    pose proof (linked_new s (headSubject l) nm (observation_resource i) _ _ _ _ _ _ _ _ _ Hl) as Hl1.
    destruct (newResource store s (headSubject l) nm (observation_resource i)) as [s1 [y|e]] eqn:E1; cbn [fst] in Hl1; intros [= <- <-].
    + cbn [snd set_dirty set_head head]. split; [|by eexists].
      destruct (host_new _ _ _ _ _ _ E1) as (Hy & Hy1 & _ & _).
      set (e := mkEntry (mkPosition (receivedAt (header i)) (h_id (header i))) y (json_length i)).
      apply (Hstep s1 (mkLog (appended l + 1) (snapshotsWritten l) (dirty l) (headSubject l) (Some (with_tail h [e])) (current l)) [e] [i]);
        [|done|done| |done|by left].
      * destruct Hl1 as [L1 L2 L3 L4 L5 L6]. by split.
      * unfold readIncrementals, readIncremental. cbn [mapR te_subject e]. by rewrite Hy1.
    + cbn [snd]. split; [|by exists h]. unfold world_ok. cbn [snd]. rewrite Hh. exists a, app, x, r, st, mst. cbn [fst snd].
      exact Hl1.
Qed.

(** An instance with a head that its app does not link to. *)
Definition unlinked (w : World) : Prop := fresh_app w.1 /\ is_Some (head w.2).

(** An append; one that fails may leave its instance unlinked, when it made the head. *)
Lemma append_ok now o w w' j B : world_ok w B -> is_Some (ms other (receivedAt (o_header o))) ->
  B < at_ms (receivedAt (o_header o)) -> append store other json_length now o w = (w', j) ->
  match j with
  | Ok _ => world_ok w' (at_ms (receivedAt (o_header o)))
  | Err _ => world_ok w' B \/ head w.2 = None /\ unlinked w'
  end.
Proof.
  intros Hw Hd HB. unfold append. cbv [mbind io_bind get_log]. set (i := diffObservation other (current w.2) o).
  assert (Hi : header i = o_header o) by apply diff_header.
  destruct (ensureHead store now w) as [w1 [h|e]] eqn:E1; pose proof (ensureHead_cases _ _ _ _ _ Hw E1) as Hcases; cbn beta iota in Hcases.
  - destruct Hcases as (Hw1 & Hh1 & _). intros H.
    assert (Hdi : dated other i) by (unfold dated; by rewrite Hi).
    assert (Hbi : B < instant i) by (unfold instant; by rewrite Hi).
    pose proof (append_incremental_ok w1 w' i h j B Hw1 Hh1 Hdi Hbi H) as Hres. unfold instant in Hres. rewrite Hi in Hres.
    destruct j; [tauto|left; tauto].
  - intros [= <- <-]. destruct Hcases as [Hn [Hw'|Hu]]; [by left|by right].
Qed.

(** An unlinked instance goes on so. *)
Lemma append_unlinked now o w w' j : unlinked w -> append store other json_length now o w = (w', j) -> unlinked w'.
Proof.
  destruct w as [s l]. intros [Hf [h Hh]]. cbn [fst snd] in *. unfold append, ensureHead, append_incremental, store_incremental.
  cbv [mbind io_bind get_log reading writing put_log try mret io_ret]. cbn [fst snd]. rewrite Hh.
  destruct (isEmpty _); [intros [= <- <-]; split; [done|by eexists]|]. cbn [fst snd].
  set (nm := js "Clockify " ++ _). set (r := observation_resource _).
  pose proof (fresh_new s (headSubject l) nm r Hf) as Hf1. destruct (newResource store s (headSubject l) nm r) as [s1 [y|e]]; cbn [fst] in Hf1.
  all: intros [= <- <-]; split; [done|by eexists].
Qed.

Lemma compactIfNeeded_ok now w w' j B : world_ok w B -> compactIfNeeded store other now w = (w', j) ->
  world_ok w' B /\ (is_Some (head w.2) <-> is_Some (head w'.2)).
Proof.
  destruct w as [s l]. intros Hw. unfold compactIfNeeded. cbv [mbind io_bind get_log mret io_ret]. cbn [fst snd].
  destruct (head l) as [h|] eqn:Eh; [|intros [= <- <-]; cbn [snd]; by rewrite Eh].
  assert (Hnone : world_ok (s, l) B /\ (is_Some (Some h) <-> is_Some (head (s, l).2))).
  { split; [done|]. cbn [snd]. rewrite Eh. by split; intros _; eexists. }
  destruct (_ && _); [by intros [= <- <-]|]. unfold writeSnapshot.
  cbv [mbind io_bind get_log mret io_ret try writing put_log]. cbn [fst snd].
  destruct (iso now) as [t|e]; [|by intros [= <- <-]].
  set (cut := fold_left _ _ _). set (nm := js "Clockify snapshot " ++ t). set (res := snapshot_resource _).
  unfold world_ok in Hw. cbn [fst snd] in Hw. rewrite Eh in Hw. destruct Hw as (a & app & x & r & st & mst & Hl).
  pose proof (linked_new s (headSubject l) nm res _ _ _ _ _ _ _ _ _ Hl) as Hl1.
  destruct (newResource store s (headSubject l) nm res) as [s1 [y|e]] eqn:E1; cbn [fst] in Hl1; intros [= <- <-].
  - cbn [snd head]. split; [|by split; intros _; eexists]. exists a, app, x, r, st, mst. cbn [fst snd].
    destruct (host_new _ _ _ _ _ _ E1) as (Hy & Hy1 & Hyno & Hsame). destruct Hl as [_ _ (_ & _ & Hst) Hlog _ _].
    destruct Hl1 as [L1 L2 L3 L4 L5 L6]. split; cbn [headSubject current dirty]; try done.
    + apply (log_compact s s1 h (current l) B y t); [done| |done|done].
      intros z q Hq. exists q. split; [|done]. rewrite Hsame; [done|]. intros ->. by apply (Hyno q).
    + intros E. exfalso. destruct Hst as (sn & ch & all & tl & Hst). destruct Hst as [[_ Hsn] _ _ _ _ _ _ _ _ _ _ _ _ _ _ _ _ _ _].
      cbn [hd_snapshot] in E. rewrite E in Hsn. unfold readSnapshot in Hsn.
      destruct (getResource store s y) as [q|] eqn:Eq; [by apply (Hyno q)|done].
  - cbn [snd]. split; [|by rewrite Eh]. unfold world_ok. cbn [snd fst]. rewrite Eh. by exists a, app, x, r, st, mst.
Qed.

Lemma compact_unlinked now w w' j : unlinked w -> compactIfNeeded store other now w = (w', j) -> unlinked w'.
Proof.
  destruct w as [s l]. intros [Hf [h Hh]]. cbn [fst snd] in *. unfold compactIfNeeded, writeSnapshot.
  cbv [mbind io_bind get_log mret io_ret try writing put_log]. cbn [fst snd]. rewrite Hh.
  destruct (_ && _); [intros [= <- <-]; split; [done|by eexists]|].
  destruct (iso now) as [t|e]; [|intros [= <- <-]; split; [done|by eexists]]. cbn [fst snd].
  set (nm := js "Clockify snapshot " ++ t). set (r := snapshot_resource _).
  pose proof (fresh_new s (headSubject l) nm r Hf) as Hf1. destruct (newResource store s (headSubject l) nm r) as [s1 [y|e]]; cbn [fst] in Hf1.
  all: intros [= <- <-]; split; [done|by eexists].
Qed.

Lemma flush_unlinked w w' j : unlinked w -> flush store other w = (w', j) -> unlinked w' /\ current w'.2 = current w.2.
Proof.
  destruct w as [s l]. intros [Hf [h Hh]]. cbn [fst snd] in *. unfold flush.
  cbv [mbind io_bind get_log mret io_ret try reading writing put_log]. cbn [fst snd]. rewrite Hh.
  destruct (dirty l); [|intros [= <- <-]; split; [split; [done|by eexists]|done]].
  destruct (headSubject l) as [[|c x]|]; [intros [= <- <-]; split; [split; [done|by eexists]|done]| |intros [= <- <-]; split; [split; [done|by eexists]|done]].
  cbn [fst snd]. destruct (getResource store s (c :: x)) as [r|e] eqn:Er; [|intros [= <- <-]; split; [split; [done|by eexists]|done]].
  set (h' := merge_stored _ _ _). pose proof (fresh_save_head s (c :: x) h' r Er Hf) as Hf1.
  destruct (save store s (c :: x) (SetHead h')) as [s1 [[]|e]]; cbn [fst] in Hf1.
  all: intros [= <- <-]; split; [split; [done|by eexists]|done].
Qed.

Lemma flush_ok w w' j B : world_ok w B -> flush store other w = (w', j) ->
  world_ok w' B /\ current w'.2 = current w.2 /\ (j = Ok tt -> dirty w'.2 = false).
Proof.
  destruct w as [s l]. intros Hw. unfold flush.
  cbv [mbind io_bind get_log mret io_ret try reading writing put_log]. cbn [fst snd].
  destruct (dirty l) eqn:Ed; [|intros [= <- <-]; by split_and!].
  destruct (head l) as [h|] eqn:Eh.
  2: { unfold world_ok in Hw. cbn [snd] in Hw. rewrite Eh in Hw. destruct Hw as (_ & Hd & _). congruence. }
  pose proof Hw as Hw0. unfold world_ok in Hw. cbn [fst snd] in Hw. rewrite Eh in Hw.
  destruct Hw as (a & app & x & r & st & mst & Hl). destruct Hl as [L1 [Hx L2] (L3 & L4 & L5) L6 L7 _].
  rewrite L2. destruct x as [|c x]; [done|]. cbn [fst snd]. rewrite L3, L4.
  destruct (log_merge s st h (current l) mst B L6 L5 L7) as (Hm & Hb & _ & Hb').
  set (h' := merge_stored other h (Json st)) in *.
  destruct (save_cases s (c :: x) (SetHead h') r L3) as [Hcase Hsame].
  pose proof (kept_save s (c :: x) (SetHead h') r L3) as Hk.
  assert (Happ : exists app', getResource store (save store s (c :: x) (SetHead h')).1 a = Ok app' /\ log_ app' = Some (c :: x)).
  { destruct L1 as (_ & La & Ll). destruct (decide (a = c :: x)) as [->|Hne].
    - rewrite La in L3. injection L3 as ->. destruct Hcase as [E|E]; eexists; split; [exact E|done|exact E|done].
    - exists app. by rewrite Hsame. }
  destruct Happ as (app' & Ha' & Hl'). pose proof (host_app_save s (c :: x) (SetHead h')) as Hga.
  destruct (save store s (c :: x) (SetHead h')) as [s' [[]|e]] eqn:E; cbn [fst] in *; intros [= <- <-].
  - cbn [snd set_dirty set_head current dirty]. split_and!; try done. unfold world_ok. cbn [fst snd set_dirty set_head head].
    destruct (host_save _ _ _ _ _ E L3) as [Hx' _].
    exists a, app', (c :: x), (change (SetHead h') r), h', (current l). split; cbn [set_dirty set_head current dirty headSubject].
    + split_and!; [rewrite Hga; tauto|done|done].
    + done.
    + split_and!; [done|done|by apply (log_kept s)].
    + by apply (log_kept s).
    + intros _. split; [|intros; apply below_refl]. intros y Hy. by apply (list_elem_of_fmap_2 (fun e => p_id (te_position e))).
    + by split.
  - cbn [snd set_head current]. split_and!; [|done|done]. unfold world_ok. cbn [fst snd set_head head].
    destruct Hcase as [Hx'|Hx'].
    + exists a, app', (c :: x), r, st, mst. split; cbn [set_head current dirty headSubject]; try done.
      * split_and!; [rewrite Hga; tauto|done|done].
      * split_and!; [done|done|by apply (log_kept s)].
      * by apply (log_kept s).
      * by rewrite Ed.
    + exists a, app', (c :: x), (change (SetHead h') r), h', (current l). split; cbn [set_head current dirty headSubject]; try done.
      * split_and!; [rewrite Hga; tauto|done|done].
      * split_and!; [done|done|by apply (log_kept s)].
      * by apply (log_kept s).
      * intros _. split; [|intros; apply below_refl]. intros y Hy. by apply (list_elem_of_fmap_2 (fun e => p_id (te_position e))).
Qed.

(** Opening a store at any time. *)
Lemma world_opens w B : world_ok w B -> exists l' n,
  (forall fuel, open store other fuel w.1 = Some (Ok l')) /\
  (forall fuel, (n <= fuel)%nat -> exists m, replay store other fuel w.1 = Some (Ok m) /\ same_meaning m (current l')) /\
  world_ok (w.1, l') B /\ (dirty w.2 = false -> same_meaning (current l') (current w.2)).
Proof.
  destruct w as [s l]. unfold world_ok at 1. cbn [fst snd]. destruct (head l) as [h|] eqn:Eh.
  - intros (a & app & x & r & st & mst & [(L1 & L1' & L1'') [Hx L2] (L3 & L4 & L5) L6 L7 L8]).
    destruct (open_ok s a app x r st mst B L1 L1' L1'' Hx L3 L4 L5) as (n & m' & m'' & Ho & Hr & Hlog & [R1 S1] & [R2 S2]).
    exists (mkLog 0 0 false (Some x) (Some st) m'), n. split_and!; [done| | |].
    + intros fuel Hf. exists m''. split; [by apply Hr|]. split; [cbn [current]; congruence|]. intros k t. cbn [current]. by rewrite S2, S1.
    + unfold world_ok. cbn [fst snd head]. exists a, app, x, r, st, m'. split; cbn [dirty current headSubject]; try done.
      intros _. split; [|intros; apply below_refl]. intros y Hy. by apply (list_elem_of_fmap_2 (fun e => p_id (te_position e))).
    + intros Hd. destruct (L8 Hd) as [R3 S3]. cbn [current]. split; [congruence|]. intros k t. by rewrite S1, S3.
  - intros (Hc & Hd & Hf). exists new_log, 0%nat. unfold open, replay. rewrite Hf. split_and!; [done| |done|].
    + intros fuel _. by exists emptyMirror.
    + intros _. cbn [snd]. by rewrite Hc.
Qed.

(** Opening the store of an unlinked instance finds no log. *)
Lemma unlinked_opens w : unlinked w ->
  (forall fuel, open store other fuel w.1 = Some (Ok new_log)) /\ forall fuel, replay store other fuel w.1 = Some (Ok emptyMirror).
Proof. intros [Hf _]. unfold fresh_app in Hf. unfold open, replay. by rewrite Hf. Qed.

(** What one instance does, in any order, with writes of the host that fail.
    Observations are received one after the other: each later than [B], the
    time of the last.  [step_open] is the app opened again: what was not saved
    is lost.  The first append of a new app makes the head in several writes;
    [lost] says that one of them failed when the instance already had the head,
    and that the app has not been opened since. *)
Inductive step : World -> Z -> bool -> World -> Z -> bool -> Prop :=
| step_append now o w w' i B lost :
    is_Some (ms other (receivedAt (o_header o))) -> B < at_ms (receivedAt (o_header o)) ->
    append store other json_length now o w = (w', Ok i) -> step w B lost w' (at_ms (receivedAt (o_header o))) lost
| step_append_failed now o w w' e B lost :
    is_Some (ms other (receivedAt (o_header o))) -> B < at_ms (receivedAt (o_header o)) ->
    append store other json_length now o w = (w', Err e) ->
    step w B lost w' B (lost || bool_decide (head w.2 = None /\ is_Some (head w'.2)))
| step_compact now w w' r B lost : compactIfNeeded store other now w = (w', r) -> step w B lost w' B lost
| step_flush w w' r B lost : flush store other w = (w', r) -> step w B lost w' B lost
| step_open fuel s l l' B lost : open store other fuel s = Some (Ok l') -> step (s, l) B lost (s, l') B false.

Inductive session : World -> Z -> bool -> Prop :=
| session_first s B : fresh_app s -> session (s, new_log) B false
| session_step w B lost w' B' lost' : session w B lost -> step w B lost w' B' lost' -> session w' B' lost'.

(** A log that the app links to, or the lost one. *)
Definition session_inv (w : World) B (lost : bool) : Prop := world_ok w B \/ lost = true /\ unlinked w.

Lemma session_step_ok w B lost w' B' lost' : session_inv w B lost -> step w B lost w' B' lost' -> session_inv w' B' lost'.
Proof.
  intros Hw Hs. destruct Hs as [now o w w' i B lost Hd HB E|now o w w' e B lost Hd HB E|now w w' r B lost E|w w' r B lost E|fuel s l l' B lost E].
  - destruct Hw as [Hw|[-> Hu]]; [left; exact (append_ok now o w w' (Ok i) B Hw Hd HB E)|right; split; [done|exact (append_unlinked _ _ _ _ _ Hu E)]].
  - destruct Hw as [Hw|[-> Hu]]; [|right; split; [done|exact (append_unlinked _ _ _ _ _ Hu E)]].
    destruct (append_ok now o w w' (Err e) B Hw Hd HB E) as [Hw'|[Hn Hu]]; [by left|right]. split; [|done].
    rewrite bool_decide_true by (split; [done|apply Hu]). by rewrite orb_true_r.
  - destruct Hw as [Hw|[-> Hu]]; [left; exact (proj1 (compactIfNeeded_ok now w w' r B Hw E))|right; split; [done|exact (compact_unlinked _ _ _ _ Hu E)]].
  - destruct Hw as [Hw|[-> Hu]]; [left; exact (proj1 (flush_ok w w' r B Hw E))|right; split; [done|exact (proj1 (flush_unlinked _ _ _ Hu E))]].
  - left. destruct Hw as [Hw|[_ Hu]].
    + destruct (world_opens _ _ Hw) as (l2 & n & Ho & _ & Hw2 & _). cbn [fst] in *. rewrite Ho in E. by injection E as <-.
    + destruct (unlinked_opens _ Hu) as [Ho _]. cbn [fst] in Ho. rewrite Ho in E. injection E as <-. unfold world_ok. cbn. split_and!; [done|done|apply Hu].
Qed.

Lemma session_ok w B lost : session w B lost -> session_inv w B lost.
Proof.
  induction 1 as [s B Hf|w B lost w' B' lost' Hw IH Hs]; [left; by split_and!|by apply (session_step_ok w B lost)].
Qed.


End Kept.

(** ** A host *)

Module Demo.
(** The resources in the order they were made, and which of the writes to come fail. *)
Record state := mkState { faults : list bool; resources : list Resource }.

Definition subject (n : nat) : jstr := repeat 114 (S n).
Definition index_of (x : jstr) : option nat :=
  match length x with O => None | S n => if decide (x = subject n) then Some n else None end.

Definition getResource_ (s : state) (x : jstr) : res string Resource :=
  match n ← index_of x; resources s !! n with Some r => Ok r | None => Err "not found"%string end.

Definition write {A} (s : state) (f : list Resource * A) : state * res string A :=
  match faults s with
  | true :: fs => (mkState fs (resources s), Err "offline"%string)
  | fs => (mkState (tail fs) f.1, Ok f.2)
  end.

Definition store : PluginStore state := mkStore state
  (fun _ => Ok (subject 0)) getResource_
  (fun s _ _ r => write s (resources s ++ [r], subject (length (resources s))))
  (fun s x c =>
     match index_of x with
     | Some n => match resources s !! n with
                 | Some r => write s (<[n := change c r]> (resources s), tt)
                 | None => (s, Err "not found"%string)
                 end
     | None => (s, Err "not found"%string)
     end).

Lemma index_subject n : index_of (subject n) = Some n.
Proof.
  unfold index_of, subject. rewrite repeat_length. by rewrite decide_True.
Qed.

Lemma index_Some x n : index_of x = Some n -> x = subject n.
Proof. unfold index_of. destruct (length x) as [|m]; [done|]. case_decide; [|done]. by intros [= <-]. Qed.

#[export] Instance demo_host : Host store.
Proof.
  split; cbn [store newResource getResource save getApp].
  - intros s parent name r s' x. unfold write. set (n := length (resources s)).
    assert (Hnew : forall fs, (mkState fs (resources s ++ [r]), Ok (subject n)) = (s', Ok x : res string jstr) ->
      x <> [] /\ getResource_ s' x = Ok r /\ (forall q, getResource_ s x <> Ok q) /\
      (forall y, y <> x -> getResource_ s' y = getResource_ s y)).
    { intros fs [= <- <-]. split; [done|]. unfold getResource_. cbn [resources]. rewrite index_subject. cbn [mbind option_bind].
      rewrite lookup_app_r, Nat.sub_diag by done. split; [done|].
      rewrite lookup_ge_None_2 by done. split; [done|]. intros y Hy. destruct (index_of y) as [k|] eqn:Ek; [|done].
      apply index_Some in Ek as ->. cbn [mbind option_bind]. assert (k <> n) by (by intros ->).
      destruct (decide (k < n)%nat); [by rewrite lookup_app_l|].
      rewrite !lookup_ge_None_2; [done|unfold n in *; lia|rewrite length_app; cbn; unfold n in *; lia]. }
    destruct (faults s) as [|[] fs]; cbn [fst snd tail]; [apply Hnew|done|apply Hnew].
  - intros s parent name r s' e y q. unfold write. destruct (faults s) as [|[] fs]; try done. by intros [= <- _].
  - intros s x c s' q. unfold getResource_. destruct (index_of x) as [n|] eqn:En; [|done]. cbn [mbind option_bind].
    destruct (resources s !! n) as [r|] eqn:Er; [|done].
    assert (Hset : forall fs, (mkState fs (<[n := change c r]> (resources s)), Ok tt) = (s', Ok tt : res string unit) ->
      (Ok r : res string Resource) = Ok q -> getResource_ s' x = Ok (change c q) /\ (forall y, y <> x -> getResource_ s' y = getResource_ s y)).
    { intros fs [= <-] [= <-]. unfold getResource_. cbn [resources]. rewrite En. cbn [mbind option_bind].
      rewrite list_lookup_insert_eq by (by apply lookup_lt_Some in Er). split; [done|]. intros y Hy.
      destruct (index_of y) as [k|] eqn:Ek; [|done]. cbn [mbind option_bind].
      rewrite list_lookup_insert_ne; [done|]. intros ->. apply Hy. apply index_Some in En, Ek. congruence. }
    unfold write. destruct (faults s) as [|[] fs]; cbn [fst snd tail]; try done; intros H1 H2;
      pose proof (Hset _ H1 H2) as H; unfold getResource_ in H; rewrite En in H; exact H.
  - intros s x c s' e q. unfold getResource_. destruct (index_of x) as [n|] eqn:En; [|done]. cbn [mbind option_bind].
    destruct (resources s !! n) as [r|] eqn:Er; [|done]. unfold write.
    destruct (faults s) as [|[] fs]; try done. intros [= <- _] [= <-]. cbn [resources]. rewrite Er. split; [by left|done].
  - done.
  - done.
Qed.

(** A session: a read is stored and flushed, a second one is stored, the flush
    after it fails, the log is compacted, and the head is saved. *)
Definition long (i : Incremental) : Z := 200000.
Definition now : Z := 1706745600000.
Definition w0 : state * ObservationLog := (mkState (repeat false 7 ++ [true]) [no_texts], new_log).
Definition run_append (w : state * ObservationLog) (o : Observation) := append store no_dates long now o w.
Definition run_flush (w : state * ObservationLog) := flush store no_dates w.

Definition w1 := (run_flush (run_append w0 read_1).1).1.
Definition w2 := (run_flush (run_append w1 read_2).1).1.
Definition w3 := (compactIfNeeded store no_dates now w2).1.

Lemma session_w3 : session store no_dates long w3 (at_ms no_dates (js "2024-02-02")) false.
Proof.
  eapply session_step; [|apply (step_compact store no_dates long now w2 w3 (Ok true)); by vm_compute].
  eapply session_step; [|apply (step_flush store no_dates long (run_append w1 read_2).1 w2 (Err "offline"%string)); by vm_compute].
  eapply session_step; [|eapply (step_append store no_dates long now read_2 w1 (run_append w1 read_2).1 change_2 (at_ms no_dates (js "2024-02-01")));
    [by eexists|by vm_compute|by vm_compute]].
  eapply session_step; [|apply (step_flush store no_dates long (run_append w0 read_1).1 w1 (Ok tt)); by vm_compute].
  eapply session_step; [|eapply (step_append store no_dates long now read_1 w0 (run_append w0 read_1).1 change_1 0);
    [by eexists|by vm_compute|by vm_compute]].
  apply session_first. by vm_compute.
Qed.

(** The compaction is there, and not yet in the saved head. *)
Example compacted : length (resources w3.1) = 6%nat /\ dirty w3.2 = true /\
  (hd_tail <$> head w3.2) = Some [].
Proof. by vm_compute. Qed.



(** The first append of a new app, when the host fails to save the new head:
    the instance has a head, later appends and flushes succeed, and the app
    still does not link to the log, so that opening it finds none. *)
Definition lost : state * ObservationLog :=
  (run_flush (run_append (run_append (mkState [false; false; true] [no_texts], new_log) read_1).1 read_1).1).1.
Example unlinked_log : dirty lost.2 = false /\ length (resources lost.1) = 4%nat /\
  length (m_records (current lost.2)) = 2%nat /\ open store no_dates 9 lost.1 = Some (Ok new_log).
Proof. by vm_compute. Qed.
End Demo.
