(* ===== verification/Zones.v ===== *)
(** * Local days in a time zone

    Models [src/integrations/timesheets/app/timeZone.ts] and
    [app/model/time.ts]: wall-clock time, the instants a wall-clock time can
    mean, and local days and weeks.

    [Intl.DateTimeFormat] is the parameter [Intl]: nothing for a zone name it
    refuses with a [RangeError], else the year, month, day, hour, minute and
    second of an instant (nothing where [formatToParts] throws).  The cache of
    formatters is not kept: a formatter is a function of its zone.  An instant
    is a whole number of milliseconds and [None] is [NaN]; a function that can
    throw returns an [option]. *)
From S2P Require Import Prelude Unicode Text Collections JsDate Json.
Local Open Scope Z_scope.

Definition HOUR : Z := 3600000.
Definition MINUTE : Z := 60000.

(* src: integrations/timesheets/app/timeZone.ts 18-19 MAX_ZONE_OFFSET_MS *)
Definition MAX_ZONE_OFFSET_MS : Z := 14 * HOUR.

(** The time value a [Date] keeps of a number. *)
Definition time_clip (t : option Z) : option Z := t ← t; if MAX_TIME <? Z.abs t then None else Some t.

(** [Date.UTC(y, month, d, h, mi, s)]: [month] counts from zero. *)
Definition Date_UTC (y month d h mi s : Z) : option Z :=
  let y := if (0 <=? y) && (y <=? 99) then 1900 + y else y in
  time_clip (Some (time_value (y + month / 12) (month mod 12 + 1) d h mi s 0)).

(** [s.replace(/\.\d{3}Z$/, 'Z')]. *)
Definition without_millis (s : jstr) : jstr :=
  let n := (length s - 5)%nat in
  match drop n s with
  | [46; a; b; c; 90] => if is_digit a && is_digit b && is_digit c then take n s ++ [90] else s
  | _ => s
  end.

(** [Math.max(...l)] and [Math.min(...l)] of a list with a first element. *)
Definition num_max (x : option Z) (l : list (option Z)) : option Z := fold_left (num_op Z.max) l x.
Definition num_min (x : option Z) (l : list (option Z)) : option Z := fold_left (num_op Z.min) l x.

(** [String(n).padStart(2, '0')]. *)
(* src: integrations/timesheets/app/model/time.ts 60-60 pad *)
Definition pad (n : Z) : jstr := padStart 2 48 (dec_signed n).

(** [filter] with a test that can throw. *)
Fixpoint filter_throw {A} (f : A -> option bool) (l : list A) : option (list A) :=
  match l with
  | [] => Some []
  | x :: l => b ← f x; l ← filter_throw f l; Some (if b : bool then x :: l else l)
  end.

(** A wall-clock time as its year, month, day, hour, minute and second. *)
Definition Parts : Type := Z * Z * Z * Z * Z * Z.

Section Zone.
Context (Intl : jstr -> option (Z -> option Parts)).

(* src: integrations/timesheets/app/timeZone.ts 43-54 isTimeZone *)
Definition isTimeZone (timeZone : option Json) : bool :=
  match timeZone with
  | Some (OStr ((_ :: _) as s)) => match Intl s with Some _ => true | None => false end
  | _ => false
  end.

(* src: integrations/timesheets/app/timeZone.ts 56-72 wallClock *)
Definition wallClock (at_ : option Z) (timeZone : jstr) : option (option Z) :=
  formatToParts ← Intl timeZone;
  at_ ← at_;
  '(year, month, day, hour, minute, second) ← formatToParts at_;
  Some (Date_UTC year (month - 1) day hour minute second).

(* src: integrations/timesheets/app/timeZone.ts 74-76 zoneOffsetMs *)
Definition zoneOffsetMs (at_ : option Z) (timeZone : jstr) : option (option Z) :=
  wall ← wallClock at_ timeZone;
  Some (num_sub wall ((fun t => t / 1000 * 1000) <$> at_)).

(* src: integrations/timesheets/app/timeZone.ts 78-81 wallClockParam *)
Definition wallClockParam (at_ : option Z) (timeZone : jstr) : option jstr :=
  wall ← wallClock at_ timeZone;
  wall ← wall;
  without_millis <$> toISOString wall.

(* src: integrations/timesheets/app/timeZone.ts 83-99 instantsOf *)
Definition instantsOf (wall : option Z) (timeZone : jstr) : option (list (option Z)) :=
  let far := Some (MAX_ZONE_OFFSET_MS + 12 * HOUR) in
  before ← zoneOffsetMs (num_sub wall far) timeZone;
  here ← zoneOffsetMs wall timeZone;
  after ← zoneOffsetMs (num_op Z.add wall far) timeZone;
  let offsets := first_seen [before; here; after] in
  let candidates := map (num_sub wall) offsets in
  valid ← filter_throw (fun at_ => w ← wallClock at_ timeZone; Some (num_eqb w wall)) candidates;
  Some (sort_by num_cmp (match valid with [] => candidates | _ => valid end)).
End Zone.

(** ** Durations *)

(* src: integrations/timesheets/app/model/time.ts 15-16 MINUTE/DAY ! *)
Definition DAY : Z := 86400000.

(* src: integrations/timesheets/app/model/time.ts 38-38 minutes *)
Definition minutes (ms : Z) : Z := (Z.max 0 ms + MINUTE / 2) / MINUTE.

(* src: integrations/timesheets/app/model/time.ts 40-45 formatDuration *)
Definition formatDuration (ms : Z) : jstr :=
  let total := minutes ms in
  dec_signed (total / 60) ++ js ":" ++ padStart 2 48 (dec_signed (total mod 60)).

(* src: integrations/timesheets/app/model/time.ts 47-58 spokenDuration *)
Definition spokenDuration (ms : Z) : jstr :=
  let total := minutes ms in
  let h := total / 60 in
  let m := total mod 60 in
  join_str (js " ")
    ((if h =? 0 then [] else [dec_signed h ++ js " " ++ if h =? 1 then js "hour" else js "hours"]) ++
     (if negb (m =? 0) || (h =? 0) then [dec_signed m ++ js " " ++ if m =? 1 then js "minute" else js "minutes"]
      else [])).

(* src: integrations/timesheets/app/model/time.ts 198-208 ago *)
Definition ago (at_ now : Z) : jstr :=
  let s := Z.max 0 ((now - at_ + 500) / 1000) in
  let min := s / 60 in
  let h := min / 60 in
  if s <? 60 then js "just now"
  else if min <? 60 then dec_signed min ++ js " min ago"
  else if h <? 48 then dec_signed h ++ js " h ago"
  else dec_signed (h / 24) ++ js " days ago".

(** ** Days *)

(* src: integrations/timesheets/app/model/time.ts 62-66 keyOfUtc *)
Definition keyOfUtc (utcMidnight : option Z) : jstr :=
  match time_clip utcMidnight with
  | Some t => let '(y, m, d) := civil_from_days (t / DAY) in dec_signed y ++ js "-" ++ pad m ++ js "-" ++ pad d
  | None => js "NaN-NaN-NaN"
  end.

(* src: integrations/timesheets/app/model/time.ts 19-19 DayKey *)
Definition DayKey : Type := jstr.

#[warnings="-register-all"]
(* src: integrations/timesheets/app/model/time.ts 21-30 WEEKDAYS *)
Inductive WeekStart := MONDAY | TUESDAY | WEDNESDAY | THURSDAY | FRIDAY | SATURDAY | SUNDAY.

(* src: integrations/timesheets/app/model/time.ts 22-30 WEEKDAYS ! *)
Definition WEEKDAYS : list WeekStart := [MONDAY; TUESDAY; WEDNESDAY; THURSDAY; FRIDAY; SATURDAY; SUNDAY].

Definition weekday_name (w : WeekStart) : jstr :=
  match w with
  | MONDAY => js "MONDAY" | TUESDAY => js "TUESDAY" | WEDNESDAY => js "WEDNESDAY" | THURSDAY => js "THURSDAY"
  | FRIDAY => js "FRIDAY" | SATURDAY => js "SATURDAY" | SUNDAY => js "SUNDAY"
  end.

(** [WEEKDAYS.indexOf(w)]. *)
Definition weekday_number (w : WeekStart) : Z :=
  match w with
  | MONDAY => 0 | TUESDAY => 1 | WEDNESDAY => 2 | THURSDAY => 3 | FRIDAY => 4 | SATURDAY => 5 | SUNDAY => 6
  end.

(* src: integrations/timesheets/app/model/time.ts 34-36 weekStartOf *)
Definition weekStartOf (value : option Json) : WeekStart :=
  let text := upper (match value with Some v => String_of v | None => js "undefined" end) in
  default MONDAY (List.find (fun d => jeqb (weekday_name d) text) WEEKDAYS).

(* src: integrations/timesheets/app/model/time.ts 94-98 Week *)
Record Week := mkWeek { start : DayKey; days : list DayKey }.

Section Days.
Context (other : jstr -> option Z).

(* src: integrations/timesheets/app/model/time.ts 68-68 utcOfKey *)
Definition utcOfKey (key : DayKey) : option Z := Date_parse other (key ++ js "T00:00:00Z").

(* src: integrations/timesheets/app/model/time.ts 74-75 addDays *)
Definition addDays (key : DayKey) (n : Z) : DayKey := keyOfUtc (num_op Z.add (utcOfKey key) (Some (n * DAY))).

(* src: integrations/timesheets/app/model/time.ts 77-79 weekdayIndex *)
Definition weekdayIndex (key : DayKey) : option Z :=
  t ← time_clip (utcOfKey key); Some (((t / DAY + 4) mod 7 + 6) mod 7).

(* src: integrations/timesheets/app/model/time.ts 100-106 weekContaining *)
Definition weekContaining (key : DayKey) (weekStart : WeekStart) : Week :=
  let start := match weekdayIndex key with
               | Some index => addDays key (- ((index - weekday_number weekStart + 7) mod 7))
               | None => keyOfUtc None
               end in
  mkWeek start (map (addDays start) [0; 1; 2; 3; 4; 5; 6]).

(* src: integrations/timesheets/app/model/time.ts 111-115 shiftWeek *)
Definition shiftWeek (week : Week) (weeks : Z) : Week :=
  mkWeek (addDays (start week) (7 * weeks)) (map (fun d => addDays d (7 * weeks)) (days week)).

(* src: integrations/timesheets/app/model/time.ts 137-145 DAY_NAMES ! *)
Definition DAY_NAMES : list jstr :=
  [js "Monday"; js "Tuesday"; js "Wednesday"; js "Thursday"; js "Friday"; js "Saturday"; js "Sunday"].

(* src: integrations/timesheets/app/model/time.ts 157-158 longWeekday *)
Definition longWeekday (key : DayKey) : option jstr := i ← weekdayIndex key; DAY_NAMES !! Z.to_nat i.

(* src: integrations/timesheets/app/model/time.ts 154-156 shortWeekday *)
Definition shortWeekday (key : DayKey) : option jstr := take 3 <$> longWeekday key.

Context (Intl : jstr -> option (Z -> option Parts)).

(* src: integrations/timesheets/app/model/time.ts 70-72 dayKey *)
Definition dayKey (at_ : option Z) (timeZone : jstr) : option DayKey :=
  wall ← wallClock Intl at_ timeZone;
  Some (keyOfUtc ((fun t => t / DAY * DAY) <$> wall)).

(* src: integrations/timesheets/app/model/time.ts 81-92 startOfDay *)
Definition startOfDay (key : DayKey) (timeZone : jstr) : option (option Z) :=
  instants ← instantsOf Intl (utcOfKey key) timeZone;
  first ← head instants;
  firstKey ← dayKey first timeZone;
  if jeqb firstKey key then Some first
  else
    instants ← instantsOf Intl (utcOfKey key) timeZone;
    match instants with
    | x :: l => Some (num_max x l)
    | [] => None
    end.

(* src: integrations/timesheets/app/model/time.ts 108-109 weekOf *)
Definition weekOf (at_ : option Z) (weekStart : WeekStart) (timeZone : jstr) : option Week :=
  key ← dayKey at_ timeZone; Some (weekContaining key weekStart).

(* src: integrations/timesheets/app/model/time.ts 117-121 weekSpan *)
Definition weekSpan (week : Week) (timeZone : jstr) : option (option Z * option Z) :=
  from ← startOfDay (start week) timeZone;
  to ← startOfDay (addDays (start week) 7) timeZone;
  Some (from, to).

(* src: integrations/timesheets/app/model/time.ts 182-187 formatTime *)
Definition formatTime (at_ : option Z) (timeZone : jstr) : option jstr :=
  wall ← wallClock Intl at_ timeZone;
  Some (match time_clip wall with
        | Some t => pad (t / HOUR mod 24) ++ js ":" ++ pad (t / MINUTE mod 60)
        | None => js "NaN:NaN"
        end).
End Days.

(** ** What [Intl] promises *)

Section ZoneLaw.
Context (Intl : jstr -> option (Z -> option Parts)).

(** The instants considered: the years 900 to 10099. *)
Definition FIRST : Z := days_from_civil 900 1 1 * DAY.
Definition LAST : Z := days_from_civil 10100 1 1 * DAY.

(** The parts of the wall clock [w]. *)
Definition parts_of (w : Z) : Parts :=
  let '(y, m, d) := civil_from_days (w / DAY) in
  (y, m, d, w mod DAY / HOUR, w / MINUTE mod 60, w / 1000 mod 60).

(** A known zone: its wall clock runs a whole number of seconds, less than
    [MAX_ZONE_OFFSET_MS], off UTC, and shows the date and time there. *)
Record zone_law (timeZone : jstr) (off : Z -> Z) : Prop := {
  law_parts : exists f, Intl timeZone = Some f /\
    forall t, FIRST <= t < LAST -> f t = Some (parts_of (t / 1000 * 1000 + off t));
  law_whole : forall t, off t mod 1000 = 0;
  law_second : forall t, off (t / 1000 * 1000) = off t;
  law_bound : forall t, Z.abs (off t) <= MAX_ZONE_OFFSET_MS;
}.

(** The offset changes at most once within any 52 hours. *)
Definition seldom_changes (off : Z -> Z) : Prop := forall a b c,
  a <= b <= c -> c <= a + 52 * HOUR -> off b = off a \/ off b = off c.
End ZoneLaw.

(** ** Dates and day keys *)

(** The days of a year come before the next year's. *)
Lemma days_of_year y m d : valid_civil y m d = true ->
  days_from_civil y 1 1 <= days_from_civil y m d < days_from_civil (y + 1) 1 1.
Proof.
  intros Hv. unfold valid_civil, days_in_month, is_leap in Hv.
  unfold days_from_civil, day_of_era, year_start, day_of_year.
  change (1 <=? 2) with true. cbn [Z.add]. replace (y + 1 - 1) with y by lia.
  assert (Hm : m = 1 \/ m = 2 \/ m = 3 \/ m = 4 \/ m = 5 \/ m = 6 \/ m = 7 \/ m = 8 \/ m = 9 \/ m = 10 \/ m = 11 \/ m = 12)
    by (breflect; lia).
  destruct_or! Hm; subst m; cbn in *; repeat case_match; breflect; dlia.
Qed.

Lemma new_year_le x y : x <= y -> days_from_civil x 1 1 <= days_from_civil y 1 1.
Proof.
  intros H. unfold days_from_civil, day_of_era, year_start, day_of_year. change (1 <=? 2) with true. cbn. dlia.
Qed.

Lemma civil_year n y m d x : civil_from_days n = (y, m, d) ->
  (days_from_civil x 1 1 <= n -> x <= y) /\ (n < days_from_civil x 1 1 -> y < x).
Proof.
  intros E. pose proof (days_from_civil_from_days n) as H. rewrite E in H. destruct H as [Hv H].
  pose proof (days_of_year y m d Hv) as Hy. split; intros Hx.
  - destruct (Z.le_gt_cases x y); [done|]. pose proof (new_year_le (y + 1) x). lia.
  - destruct (Z.le_gt_cases x y) as [Hle|]; [|done]. pose proof (new_year_le x y Hle). lia.
Qed.

(** The days whose year has four digits, the first of them not zero. *)
Definition FIRST_DAY : Z := days_from_civil 1000 1 1.
Definition LAST_DAY : Z := days_from_civil 10000 1 1.
Lemma day_bounds : FIRST_DAY = -354285 /\ LAST_DAY = 2932897.
Proof. split; reflexivity. Qed.
Definition day_ok (n : Z) : Prop := FIRST_DAY <= n < LAST_DAY.

(** The key of a day. *)
Definition day_key (n : Z) : DayKey := keyOfUtc (Some (n * DAY)).

Lemma day_range n : day_ok n -> Z.abs (n * DAY) <= MAX_TIME.
Proof. unfold day_ok, DAY, MAX_TIME. destruct day_bounds as [-> ->]. lia. Qed.

Lemma pad_dec_eq k n : 0 <= n -> (length (dec n) >= k)%nat -> pad_dec k n = dec n.
Proof. intros Hn H. unfold pad_dec, padStart. by replace (k - length (dec n))%nat with 0%nat by lia. Qed.

Lemma dec_length_ge n k : 10 ^ Z.of_nat k <= n -> (length (dec n) >= S k)%nat.
Proof.
  intros H. assert (Hn : 0 <= n) by (pose proof (Z.pow_nonneg 10 (Z.of_nat k)); lia).
  destruct (dec_spec n Hn) as (Hp & Hd & _). pose proof (parse_dec_range _ Hd) as Hr. rewrite Hp in Hr.
  unfold len in Hr. destruct (Nat.le_gt_cases (S k) (length (dec n))) as [|Hlt]; [done|exfalso].
  pose proof (Z.pow_le_mono_r 10 (Z.of_nat (length (dec n))) (Z.of_nat k)). lia.
Qed.

Lemma pad_pad_dec n : 0 <= n -> pad n = pad_dec 2 n.
Proof. intros H. unfold pad, dec_signed. by rewrite (proj2 (Z.ltb_ge n 0)). Qed.

Lemma day_key_iso n y m d : day_ok n -> civil_from_days n = (y, m, d) ->
  1000 <= y <= 9999 /\ valid_civil y m d = true /\ day_key n = iso_date y m d.
Proof.
  intros Hn E. pose proof (days_from_civil_from_days n) as H. rewrite E in H. destruct H as [Hv H].
  assert (Hy : 1000 <= y <= 9999).
  { pose proof (civil_year n y m d 1000 E) as [H1 _]. pose proof (civil_year n y m d 10000 E) as [_ H2].
    unfold day_ok, FIRST_DAY, LAST_DAY in Hn. lia. }
  split_and!; [lia|lia|done|]. unfold valid_civil in Hv. breflect. pose proof (days_in_month_range y m).
  unfold day_key, keyOfUtc, time_clip. cbn [mbind option_bind].
  rewrite (proj2 (Z.ltb_ge MAX_TIME _)).
  2: by apply day_range.
  rewrite Z.div_mul by done. rewrite E. unfold iso_date.
  rewrite (proj2 (Z.leb_le 0 y)), (proj2 (Z.leb_le y 9999)) by lia. cbn [andb].
  rewrite !pad_pad_dec by lia. unfold dec_signed. rewrite (proj2 (Z.ltb_ge y 0)) by lia.
  rewrite (pad_dec_eq 4 y); [done|lia|]. apply (dec_length_ge y 3). lia.
Qed.

Section Keys.
Context (other : jstr -> option Z).
Abbreviation utcOfKey := (utcOfKey other).
Abbreviation addDays := (addDays other).
Abbreviation weekdayIndex := (weekdayIndex other).

Lemma utcOfKey_day n : day_ok n -> utcOfKey (day_key n) = Some (n * DAY).
Proof.
  intros Hn. destruct (civil_from_days n) as [[y m] d] eqn:E.
  destruct (day_key_iso n y m d Hn E) as (Hy & Hv & ->).
  pose proof (days_from_civil_from_days n) as H. rewrite E in H. destruct H as [_ H].
  unfold Zones.utcOfKey, Date_parse. rewrite parse_iso_date by (done || lia).
  assert (js "T00:00:00Z" = [84; 48; 48; 58; 48; 48; 58; 48; 48; 90]) as -> by reflexivity.
  cbn. unfold fields_value. rewrite Hv. cbn [andb]. unfold time_value. rewrite H. cbn. f_equal.
  unfold DAY_MS, DAY. lia.
Qed.

Lemma addDays_day n k : day_ok n -> addDays (day_key n) k = day_key (n + k).
Proof.
  intros Hn. unfold Zones.addDays. rewrite utcOfKey_day by done. unfold day_key. cbn [num_op].
  f_equal. f_equal. lia.
Qed.

Lemma weekdayIndex_day n : day_ok n -> weekdayIndex (day_key n) = Some ((n + 3) mod 7).
Proof.
  intros Hn. unfold Zones.weekdayIndex. rewrite utcOfKey_day by done. unfold time_clip. cbn [mbind option_bind].
  rewrite (proj2 (Z.ltb_ge MAX_TIME _)) by (by apply day_range). cbn [mbind option_bind].
  rewrite Z.div_mul by done. f_equal. dlia.
Qed.

Lemma day_key_inj n k : day_ok n -> day_ok k -> day_key n = day_key k -> n = k.
Proof.
  intros Hn Hk E. apply (f_equal utcOfKey) in E. rewrite !utcOfKey_day in E by done.
  injection E as E. unfold DAY in E. lia.
Qed.

Definition week_start (n : Z) (w : WeekStart) : Z := n - ((n + 3) mod 7 - weekday_number w + 7) mod 7.
Definition week_from (s : Z) : Week := mkWeek (day_key s) (map (fun i => day_key (s + i)) [0; 1; 2; 3; 4; 5; 6]).

(** The days whose week, and the next, have keys. *)
Definition week_ok (n : Z) : Prop := FIRST_DAY + 7 <= n < LAST_DAY - 7.

Lemma week_start_spec n w : week_start n w <= n < week_start n w + 7 /\ (week_start n w + 3) mod 7 = weekday_number w.
Proof. unfold week_start. destruct w; cbn [weekday_number]; split; dlia. Qed.

Lemma week_days_ok n w i : week_ok n -> 0 <= i < 7 -> day_ok (week_start n w + i).
Proof. unfold week_ok, day_ok. pose proof (week_start_spec n w). lia. Qed.

Lemma weekContaining_day n w : week_ok n -> weekContaining other (day_key n) w = week_from (week_start n w).
Proof.
  intros Hn. assert (day_ok n) by (unfold week_ok, day_ok in *; lia).
  unfold weekContaining. rewrite weekdayIndex_day, addDays_day by done.
  fold (week_start n w). replace (n + - _) with (week_start n w) by (unfold week_start; lia).
  unfold week_from. f_equal. apply map_ext_in. intros i Hi. apply addDays_day.
  replace (week_start n w) with (week_start n w + 0) by lia. by apply week_days_ok.
Qed.

Lemma week_from_elem s k : (forall i, 0 <= i < 7 -> day_ok (s + i)) -> day_ok k ->
  day_key k ∈ days (week_from s) <-> s <= k < s + 7.
Proof.
  intros Hs Hk. unfold week_from. cbn [days]. rewrite list_elem_of_In, in_map_iff. split.
  - intros (i & E & Hi). assert (0 <= i < 7) by (cbn in Hi; lia). apply day_key_inj in E; [lia|by apply Hs|done].
  - intros H. exists (k - s). split; [by f_equal; lia|]. cbn. lia.
Qed.

(** The week of a day holds the day, and is seven days in a
    row from a day that is the given weekday; another day is in it exactly when
    it has the same week; and the week so many weeks later is the week of the
    day so many weeks later. *)
Theorem weekContaining_week (n k j : Z) (w : WeekStart) : week_ok n -> week_ok k -> week_ok (n + 7 * j) ->
  let week := weekContaining other (day_key n) w in
  day_key n ∈ days week /\ weekdayIndex (start week) = Some (weekday_number w) /\
  (exists s, week = week_from s) /\
  (day_key k ∈ days week <-> weekContaining other (day_key k) w = week) /\
  shiftWeek other week j = weekContaining other (day_key (n + 7 * j)) w.
Proof.
  intros Hn Hk Hj week. unfold week. rewrite !weekContaining_day by done.
  pose proof (week_start_spec n w) as [H1 H2]. pose proof (week_start_spec k w) as [H3 H4].
  assert (forall x, week_ok x -> day_ok x) as Hok by (unfold week_ok, day_ok; lia).
  assert (Hd : forall x i, week_ok x -> 0 <= i < 7 -> day_ok (week_start x w + i)) by (intros; by apply week_days_ok).
  assert (H0 : forall x, week_ok x -> day_ok (week_start x w)).
  { intros x Hx. specialize (Hd x 0 Hx). rewrite Z.add_0_r in Hd. by apply Hd. }
  split_and!.
  - apply week_from_elem; [auto|auto|lia].
  - cbn [start week_from]. rewrite weekdayIndex_day by auto. by f_equal.
  - by eexists.
  - rewrite week_from_elem by auto. split.
    + intros Hr. f_equal. dlia.
    + intros E. apply (f_equal start) in E. cbn in E. apply day_key_inj in E; [lia|auto..].
  - unfold shiftWeek, week_from. cbn [start days]. rewrite addDays_day by auto.
    assert (week_start (n + 7 * j) w = week_start n w + 7 * j) as ->.
    { unfold week_start. replace (n + 7 * j + 3) with (n + 3 + j * 7) by lia. rewrite Z.mod_add by done. lia. }
    f_equal. rewrite map_map. apply map_ext_in. intros i Hi. rewrite addDays_day by (apply Hd; cbn in Hi; lia || done).
    f_equal. lia.
Qed.
End Keys.

(** ** Texts of whole seconds *)

Lemma without_millis_spec p n : 0 <= n < 1000 -> without_millis (p ++ 46 :: pad_dec 3 n ++ [90]) = p ++ [90].
Proof.
  intros Hn. pose proof (pad_dec_length 3 n ltac:(lia) ltac:(lia)) as Hl. destruct (pad_dec_spec 3 n) as [_ Hd]; [lia|].
  destruct (pad_dec 3 n) as [|a [|b [|c [|]]]]; try done. forall_split. unfold without_millis.
  rewrite length_app. cbn [length app]. replace (length p + 5 - 5)%nat with (length p) by lia.
  rewrite drop_app_length, take_app_length. rewrite H, H0, H1. done.
Qed.

(** A text of whole seconds is read back. *)
Lemma Date_parse_seconds other t y m d s : civil_from_days (t / DAY) = (y, m, d) -> 0 <= y <= 9999 ->
  toISOString t = Some s -> Date_parse other (without_millis s) = Some (t / 1000 * 1000).
Proof.
  intros Hciv Hy. unfold toISOString. change DAY_MS with DAY. rewrite Hciv. case_match; [done|]. intros [= <-].
  pose proof (days_from_civil_from_days (t / DAY)) as Hdays. rewrite Hciv in Hdays. destruct Hdays as [Hv Hday].
  assert (Ht : 0 <= t mod DAY < DAY) by (unfold DAY; apply Z.mod_pos_bound; lia).
  unfold iso_time. set (u := t mod DAY) in *.
  replace (iso_date y m d ++ _) with ((iso_date y m d ++ 84 :: pad_dec 2 (u / 3600000) ++ 58 :: pad_dec 2 (u / 60000 mod 60) ++
     58 :: pad_dec 2 (u / 1000 mod 60)) ++ 46 :: pad_dec 3 (u mod 1000) ++ [90])
    by (repeat (rewrite <-!app_assoc; cbn [app]); done).
  rewrite without_millis_spec by dlia. repeat (rewrite <-!app_assoc; cbn [app]).
  unfold Date_parse. rewrite parse_iso_date by done. unfold DAY in Ht.
  rewrite digits_pad by (change (10 ^ Z.of_nat 2) with 100; dlia || lia).
  cbn [mbind option_bind lit app Z.eqb Pos.eqb].
  rewrite digits_pad by (change (10 ^ Z.of_nat 2) with 100; dlia || lia).
  cbn [mbind option_bind lit app Z.eqb Pos.eqb seconds].
  rewrite digits_pad by (change (10 ^ Z.of_nat 2) with 100; dlia || lia).
  cbn [mbind option_bind lit app Z.eqb Pos.eqb seconds zone].
  unfold fields_value. rewrite Hv.
  rewrite (proj2 (Z.ltb_lt (u / 60000 mod 60) 60)), (proj2 (Z.ltb_lt (u / 1000 mod 60) 60)),
    (proj2 (Z.ltb_lt (u / 3600000) 24)) by dlia.
  cbn [andb orb]. unfold time_value. rewrite Hday. f_equal. unfold u, DAY_MS, DAY. dlia.
Qed.

Lemma iso_text other t : day_ok (t / DAY) -> exists s,
  toISOString t = Some s /\ Date_parse other (without_millis s) = Some (t / 1000 * 1000).
Proof.
  intros Hd. destruct (civil_from_days (t / DAY)) as [[y m] d] eqn:E.
  destruct (day_key_iso _ y m d Hd E) as (Hy & _ & _).
  destruct (toISOString t) as [s|] eqn:Es.
  - exists s. split; [done|]. apply (Date_parse_seconds other t y m d); [done|lia|done].
  - exfalso. revert Es. unfold toISOString. rewrite (proj2 (Z.ltb_ge MAX_TIME _)); [change DAY_MS with DAY; by rewrite E|].
    revert Hd. unfold day_ok, MAX_TIME. destruct day_bounds as [-> ->]. unfold DAY. intros. dlia.
Qed.

(** ** Wall clocks *)

Lemma filter_throw_total {A} (f : A -> option bool) (g : A -> bool) l : (forall x, x ∈ l -> f x = Some (g x)) ->
  filter_throw f l = Some (List.filter g l).
Proof.
  induction l as [|x l IH]; intros H; [done|]. cbn [filter_throw List.filter]. rewrite (H x) by (by left).
  cbn [mbind option_bind]. rewrite IH by (intros y Hy; apply H; by right). by destruct (g x).
Qed.

Lemma num_max_some x (l : list Z) : num_max (Some x) (map Some l) = Some (fold_left Z.max l x).
Proof. unfold num_max. revert x. induction l as [|y l IH]; intros x; [done|]. cbn [map fold_left num_op]. apply IH. Qed.

Lemma fold_max_spec (l : list Z) x : fold_left Z.max l x ∈ x :: l /\ forall y, y ∈ x :: l -> y <= fold_left Z.max l x.
Proof.
  revert x. induction l as [|z l IH]; intros x; cbn [fold_left].
  - split; [by left|]. intros y ->%list_elem_of_singleton. lia.
  - destruct (IH (Z.max x z)) as [H1 H2]. rewrite !elem_of_cons in *. split.
    + destruct H1 as [->|H1]; [|tauto]. destruct (Z.max_spec x z) as [[_ ->]|[_ ->]]; tauto.
    + intros y. rewrite !elem_of_cons. intros [->|[->|Hy]].
      * specialize (H2 (Z.max x z)). rewrite elem_of_cons in H2. specialize (H2 (or_introl eq_refl)). lia.
      * specialize (H2 (Z.max x z)). rewrite elem_of_cons in H2. specialize (H2 (or_introl eq_refl)). lia.
      * apply H2. rewrite elem_of_cons. by right.
Qed.

Lemma num_min_some x (l : list Z) : num_min (Some x) (map Some l) = Some (fold_left Z.min l x).
Proof. unfold num_min. revert x. induction l as [|y l IH]; intros x; [done|]. cbn [map fold_left num_op]. apply IH. Qed.

Lemma fold_min_max (l : list Z) x : fold_left Z.min l x = - fold_left Z.max (map Z.opp l) (- x).
Proof. revert x. induction l as [|y l IH]; intros x; cbn [map fold_left]; [lia|]. rewrite IH. do 2 f_equal. lia. Qed.

Lemma fold_min_spec (l : list Z) x : fold_left Z.min l x ∈ x :: l /\ forall y, y ∈ x :: l -> fold_left Z.min l x <= y.
Proof.
  rewrite fold_min_max. destruct (fold_max_spec (map Z.opp l) (- x)) as [H1 H2]. split.
  - change (- x :: map Z.opp l) with (map Z.opp (x :: l)) in H1. apply list_elem_of_In, in_map_iff in H1 as (y & <- & Hy).
    rewrite Z.opp_involutive. by apply list_elem_of_In.
  - intros y Hy. assert (Hin : - y ∈ map Z.opp (x :: l)) by (apply list_elem_of_In, in_map, list_elem_of_In, Hy).
    specialize (H2 (- y) Hin). lia.
Qed.

Section WallClock.
Context (Intl : jstr -> option (Z -> option Parts)) (tz : jstr) (off : Z -> Z) (Hlaw : zone_law Intl tz off).
Abbreviation wallClock := (wallClock Intl).
Abbreviation instantsOf := (instantsOf Intl).
Abbreviation dayKey := (dayKey Intl).

(** The wall clock at an instant. *)
Definition wall (t : Z) : Z := t / 1000 * 1000 + off t.

Lemma off_range t : - MAX_ZONE_OFFSET_MS <= off t <= MAX_ZONE_OFFSET_MS.
Proof. pose proof (law_bound _ _ _ Hlaw t). lia. Qed.

Lemma first_last : FIRST = - 390809 * DAY /\ LAST = 2969422 * DAY.
Proof. split; reflexivity. Qed.

Lemma wallClock_law t : FIRST <= t < LAST -> wallClock (Some t) tz = Some (Some (wall t)).
Proof.
  intros Ht. destruct (law_parts _ _ _ Hlaw) as (f & Ef & Hf). unfold Zones.wallClock. rewrite Ef. cbn [mbind option_bind].
  rewrite Hf by done. fold (wall t). pose proof (off_range t) as Ho.
  assert (Hw : FIRST - DAY <= wall t < LAST + DAY) by (unfold wall, MAX_ZONE_OFFSET_MS, HOUR, DAY in *; dlia).
  destruct first_last as [EF EL]. rewrite EF, EL in Hw. unfold parts_of.
  destruct (civil_from_days (wall t / DAY)) as [[y m] d] eqn:E. cbn [mbind option_bind]. f_equal.
  pose proof (days_from_civil_from_days (wall t / DAY)) as H. rewrite E in H. destruct H as [Hv Hd].
  destruct (civil_year _ _ _ _ 100 E) as [Hy _].
  assert (100 <= y).
  { apply Hy. change (days_from_civil 100 1 1) with (-683003). unfold DAY in *. dlia. }
  unfold Date_UTC. rewrite (proj2 (Z.leb_gt y 99)), andb_false_r by lia.
  unfold valid_civil in Hv. breflect.
  rewrite Z.div_small, Z.add_0_r by lia. rewrite Z.mod_small by lia. replace (m - 1 + 1) with m by lia.
  assert (time_value y m d (wall t mod DAY / HOUR) (wall t / MINUTE mod 60) (wall t / 1000 mod 60) 0 = wall t) as ->.
  { unfold time_value. rewrite Hd. unfold DAY_MS, DAY, HOUR, MINUTE.
    assert (wall t mod 1000 = 0).
    { unfold wall. rewrite Z.add_comm, Z.mod_add by done. apply (law_whole _ _ _ Hlaw). }
    dlia. }
  unfold time_clip. cbn [mbind option_bind]. rewrite (proj2 (Z.ltb_ge MAX_TIME _)); [done|]. unfold MAX_TIME, DAY in *. lia.
Qed.

Lemma zoneOffsetMs_law t : FIRST <= t < LAST -> zoneOffsetMs Intl (Some t) tz = Some (Some (off t)).
Proof.
  intros Ht. unfold zoneOffsetMs. rewrite wallClock_law by done. cbn. do 2 f_equal. unfold wall. lia.
Qed.

(** Instants whose neighbourhood is considered. *)
Definition inside (t : Z) : Prop := FIRST + 4 * DAY <= t < LAST - 4 * DAY.

(** The instants of whole seconds that read [w]. *)
Definition reads (w t : Z) : Prop := t mod 1000 = 0 /\ wall t = w.

Lemma reads_offset w t : reads w t -> t = w - off t.
Proof. unfold reads, wall. intros [H E]. dlia. Qed.

(** Every offset that a time can have is probed. *)
Lemma offset_probed w t : seldom_changes off -> reads w t ->
  off t = off (w - 26 * HOUR) \/ off t = off (w + 26 * HOUR).
Proof.
  intros Hs Ht. pose proof (reads_offset w t Ht) as E. pose proof (off_range t) as Ho.
  apply (Hs (w - 26 * HOUR) t (w + 26 * HOUR)); unfold MAX_ZONE_OFFSET_MS, HOUR in *; lia.
Qed.

Definition probes (w : Z) : list Z := [off (w - 26 * HOUR); off w; off (w + 26 * HOUR)].

Lemma probe_off w o : o ∈ probes w -> exists a, o = off a.
Proof. unfold probes. rewrite !elem_of_cons, elem_of_nil. intros [->|[->|[->|[]]]]; by eexists. Qed.

Lemma first_seen_some (l : list Z) : first_seen (map Some l) = map Some (first_seen l).
Proof.
  induction l as [|x l IH] using rev_ind; [done|]. rewrite map_app. cbn [map]. rewrite !first_seen_snoc, IH.
  rewrite (decide_ext (Some x ∈ map Some (first_seen l)) (x ∈ first_seen l)).
  - destruct (decide _); [done|]. by rewrite map_app.
  - rewrite !list_elem_of_In, in_map_iff. split; [by intros (y & [= ->] & ?)|eauto].
Qed.

Lemma filter_some (f : option Z -> bool) (l : list Z) :
  List.filter f (map Some l) = map Some (List.filter (fun x => f (Some x)) l).
Proof. induction l as [|x l IH]; [done|]. cbn. destruct (f (Some x)); cbn; by rewrite IH. Qed.

Definition readings (w : Z) : list Z :=
  let candidates := map (fun o => w - o) (first_seen (probes w)) in
  match List.filter (fun t => wall t =? w) candidates with [] => candidates | valid => valid end.

Lemma instantsOf_readings w : inside w -> instantsOf (Some w) tz = Some (map Some (sort_by Z.sub (readings w))).
Proof.
  intros Hw. unfold inside in Hw. unfold Zones.instantsOf. cbn [num_sub num_op].
  replace (MAX_ZONE_OFFSET_MS + 12 * HOUR) with (26 * HOUR) by reflexivity.
  rewrite !zoneOffsetMs_law by (unfold DAY, HOUR in *; lia). cbn [mbind option_bind].
  change [Some (off (w - 26 * HOUR)); Some (off w); Some (off (w + 26 * HOUR))] with (map Some (probes w)).
  rewrite first_seen_some, map_map. cbn [num_sub].
  rewrite (filter_throw_total _ (fun t => match t with Some t => wall t =? w | None => false end)).
  2: { intros x Hx. apply list_elem_of_In, in_map_iff in Hx as (o & <- & Ho).
       apply list_elem_of_In in Ho. rewrite elem_of_first_seen in Ho.
       destruct (probe_off _ _ Ho) as [t ->].
       pose proof (off_range t). rewrite wallClock_law; [done|]. unfold MAX_ZONE_OFFSET_MS, HOUR, DAY in *. lia. }
  cbn [mbind option_bind]. rewrite <-(map_map (fun o => w - o) Some), filter_some. unfold readings.
  rewrite <-sort_by_map_some. by destruct (List.filter _ _).
Qed.

Lemma readings_nodup w : NoDup (readings w).
Proof.
  assert (H : NoDup (map (fun o => w - o) (first_seen (probes w)))).
  { apply NoDup_fmap_2; [intros x y E; lia|apply first_seen_nodup]. }
  unfold readings. destruct (List.filter _ _) as [|x l] eqn:E; [done|]. rewrite <-E.
  apply NoDup_ListNoDup, List.NoDup_filter. by apply NoDup_ListNoDup.
Qed.

Lemma candidate_elem w t : t ∈ map (fun o => w - o) (first_seen (probes w)) <-> exists o, o ∈ probes w /\ t = w - o.
Proof.
  rewrite list_elem_of_In, in_map_iff. split.
  - intros (o & <- & Ho). exists o. split; [|done]. apply list_elem_of_In in Ho. by rewrite elem_of_first_seen in Ho.
  - intros (o & Ho & ->). exists o. split; [done|]. by apply list_elem_of_In, elem_of_first_seen.
Qed.

Lemma readings_candidate w t : t ∈ readings w -> exists o, o ∈ probes w /\ t = w - o.
Proof.
  unfold readings. destruct (List.filter _ _) as [|x k] eqn:Ef; [apply candidate_elem|]. rewrite <-Ef.
  intros Ht. apply list_elem_of_In, filter_In in Ht as [Ht _]. by apply candidate_elem, list_elem_of_In.
Qed.

Lemma candidate_whole w t : w mod 1000 = 0 -> (exists o, o ∈ probes w /\ t = w - o) -> t mod 1000 = 0.
Proof.
  intros Hw (o & Ho & ->). destruct (probe_off _ _ Ho) as [a ->].
  pose proof (law_whole _ _ _ Hlaw a). dlia.
Qed.

Lemma readings_valid w : seldom_changes off -> w mod 1000 = 0 -> (exists t, reads w t) ->
  forall t, t ∈ readings w <-> reads w t.
Proof.
  intros Hs Hw [t0 H0]. set (cs := map (fun o => w - o) (first_seen (probes w))).
  assert (Hv : forall t, t ∈ List.filter (fun t => wall t =? w) cs <-> reads w t).
  { intros t. rewrite list_elem_of_In, filter_In, <-list_elem_of_In. unfold cs. rewrite candidate_elem. split.
    - intros [Hc E]. split; [by apply (candidate_whole w)|by apply Z.eqb_eq].
    - intros Ht. split; [|apply Z.eqb_eq, Ht]. exists (off t). split; [|by apply reads_offset].
      unfold probes. rewrite !elem_of_cons. destruct (offset_probed w t Hs Ht) as [->| ->]; tauto. }
  unfold readings. fold cs. destruct (List.filter _ cs) as [|x l] eqn:E; [|done].
  exfalso. apply Hv in H0. by apply elem_of_nil in H0.
Qed.

Lemma readings_skipped w : seldom_changes off -> w mod 1000 = 0 -> ~ (exists t, reads w t) ->
  forall t, t ∈ readings w <-> t = w - off (w - 26 * HOUR) \/ t = w - off (w + 26 * HOUR).
Proof.
  intros Hs Hw Hno t. unfold readings. destruct (List.filter _ _) as [|x l] eqn:E.
  - rewrite candidate_elem. split.
    + intros (o & Ho & ->). unfold probes in Ho. rewrite !elem_of_cons, elem_of_nil in Ho.
      destruct (Hs (w - 26 * HOUR) w (w + 26 * HOUR)) as [H|H]; [unfold HOUR; lia..| |];
        destruct Ho as [->|[->|[->|[]]]]; rewrite ?H; tauto.
    + intros [->| ->]; eexists; (split; [|done]); unfold probes; rewrite !elem_of_cons; tauto.
  - exfalso. apply Hno. exists x. assert (Hx : x ∈ x :: l) by by left. rewrite <-E in Hx.
    apply list_elem_of_In, filter_In in Hx as [Hx Ex]. apply list_elem_of_In, candidate_elem in Hx.
    split; [by apply (candidate_whole w)|by apply Z.eqb_eq].
Qed.

(** The instants a wall-clock time can mean, in a zone that
    changes at most once in 52 hours: in order, exactly the instants whose wall
    clock shows it; where none does (a skipped time), what it means by the
    offset before and by the offset after. *)
Theorem instantsOf_exact (w : Z) : seldom_changes off -> inside w -> w mod 1000 = 0 ->
  exists l, instantsOf (Some w) tz = Some (map Some l) /\ StronglySorted Z.lt l /\ l <> [] /\
    ((exists t, reads w t) -> forall t, t ∈ l <-> reads w t) /\
    (~ (exists t, reads w t) -> forall t, t ∈ l <-> t = w - off (w - 26 * HOUR) \/ t = w - off (w + 26 * HOUR)).
Proof.
  intros Hs Hin Hw. exists (sort_by Z.sub (readings w)). split_and!.
  - by apply instantsOf_readings.
  - apply sort_distinct, readings_nodup.
  - intros E. pose proof (sort_by_perm Z.sub (readings w)) as Hp. rewrite E in Hp. apply Permutation_nil in Hp.
    unfold readings in Hp. destruct (List.filter _ _); [|done]. apply map_eq_nil in Hp.
    assert (Hc : off w ∈ first_seen (probes w)) by (apply elem_of_first_seen; right; by left).
    rewrite Hp in Hc. by apply elem_of_nil in Hc.
  - intros Hex t. rewrite sort_by_perm. by apply readings_valid.
  - intros Hno t. rewrite sort_by_perm. by apply readings_skipped.
Qed.

(** ** The start of a day *)

(** Days around which every instant in question has a key. *)
Definition day_inside (n : Z) : Prop := FIRST_DAY + 3 <= n < LAST_DAY - 3.

Lemma day_inside_inside n : day_inside n -> day_ok n /\ inside (n * DAY).
Proof.
  unfold day_inside, day_ok, inside. destruct day_bounds as [-> ->], first_last as [-> ->]. unfold DAY. lia.
Qed.

Lemma dayKey_law t : FIRST <= t < LAST -> dayKey (Some t) tz = Some (day_key (wall t / DAY)).
Proof. intros Ht. unfold Zones.dayKey. by rewrite wallClock_law. Qed.

Lemma wall_near t : t - 15 * HOUR <= wall t <= t + 14 * HOUR.
Proof. pose proof (off_range t). unfold wall, MAX_ZONE_OFFSET_MS, HOUR in *. dlia. Qed.

(** Instants whose local day has a key. *)
Definition key_range (t : Z) : Prop := FIRST_DAY + 1 <= t / DAY < LAST_DAY - 1.

Lemma key_range_inside t : key_range t -> FIRST <= t < LAST /\ day_ok (wall t / DAY).
Proof.
  pose proof (wall_near t) as Hw. unfold key_range, day_ok.
  destruct day_bounds as [-> ->], first_last as [-> ->]. unfold DAY, HOUR in *. intros. split; dlia.
Qed.

Lemma dayKey_eq t n : key_range t -> day_ok n ->
  dayKey (Some t) tz = Some (day_key n) <-> n * DAY <= wall t < n * DAY + DAY.
Proof.
  intros Ht Hn. destruct (key_range_inside t Ht) as [Hr Hd]. rewrite dayKey_law by done.
  split.
  - intros [= E]. apply (day_key_inj (fun _ => None)) in E; [|done..]. unfold DAY in *. dlia.
  - intros H. do 2 f_equal. unfold DAY in *. dlia.
Qed.

Lemma wall_whole t : wall t mod 1000 = 0.
Proof. unfold wall. rewrite Z.add_comm, Z.mod_add by done. apply (law_whole _ _ _ Hlaw). Qed.

Context (other : jstr -> option Z).
Abbreviation startOfDay := (startOfDay other Intl).

(** The text of a wall clock tells what it shows. *)
Lemma wallClockParam_text t : key_range t -> exists s,
  wallClockParam Intl (Some t) tz = Some s /\ Date_parse other s = Some (wall t).
Proof.
  intros Ht. destruct (key_range_inside t Ht) as [Hr Hd]. destruct (iso_text other _ Hd) as (s & Es & Ep).
  exists (without_millis s). unfold wallClockParam. rewrite wallClock_law by done. cbn [mbind option_bind].
  rewrite Es, Ep. split; [done|]. f_equal. pose proof (wall_whole t). dlia.
Qed.

(** The first and the last reading of midnight. *)
Lemma startOfDay_cases n : day_inside n -> exists first last : Z,
  let w := n * DAY in
  first ∈ readings w /\ last ∈ readings w /\ (forall t, t ∈ readings w -> first <= t <= last) /\
  startOfDay (day_key n) tz = Some (Some (if decide (w <= wall first < w + DAY) then first else last)).
Proof.
  intros Hn. destruct (day_inside_inside n Hn) as [Hok Hin].
  pose proof (sort_by_perm Z.sub (readings (n * DAY))) as Hp.
  pose proof (sort_distinct _ (readings_nodup (n * DAY))) as Hs.
  assert (Hne : readings (n * DAY) <> []).
  { unfold readings. destruct (List.filter _ _); [|done]. intros E. apply map_eq_nil in E.
    assert (Hc : off (n * DAY) ∈ first_seen (probes (n * DAY))) by (apply elem_of_first_seen; right; by left).
    rewrite E in Hc. by apply elem_of_nil in Hc. }
  pose proof (instantsOf_readings _ Hin) as Hi.
  destruct (sort_by Z.sub (readings (n * DAY))) as [|first l] eqn:E; [by apply Permutation_nil in Hp|].
  exists first, (fold_left Z.max l first). destruct (fold_max_spec l first) as [H1 H2].
  assert (Hf : forall t, t ∈ first :: l -> first <= t).
  { inversion Hs as [|? ? _ Hall]; subst. rewrite Forall_forall in Hall. intros t [->|Ht]%elem_of_cons; [lia|].
    specialize (Hall t Ht). lia. }
  assert (Hfirst : exists o, o ∈ probes (n * DAY) /\ first = n * DAY - o).
  { apply readings_candidate. rewrite <-Hp. by left. }
  assert (Hnear : n * DAY - DAY <= first <= n * DAY + DAY).
  { destruct Hfirst as (o & Ho & ->). destruct (probe_off _ _ Ho) as [a ->]. pose proof (off_range a).
    unfold MAX_ZONE_OFFSET_MS, HOUR, DAY in *. lia. }
  assert (Hk : key_range first) by (unfold key_range, day_inside, DAY in *; dlia).
  split_and!; [rewrite <-Hp; by left|by rewrite <-Hp| |].
  - intros t Ht. rewrite <-Hp in Ht. auto.
  - unfold Zones.startOfDay. rewrite utcOfKey_day, Hi by done. cbn [map head mbind option_bind hd_error].
    destruct (key_range_inside first Hk) as [Hr Hd]. pose proof (dayKey_eq first n Hk Hok) as He.
    rewrite dayKey_law in He |- * by done. cbn [mbind option_bind]. unfold jeqb.
    destruct (decide (n * DAY <= wall first < n * DAY + DAY)) as [Hw|Hw].
    + rewrite bool_decide_eq_true_2; [done|]. apply He in Hw. by injection Hw.
    + rewrite bool_decide_eq_false_2; [by rewrite num_max_some|]. intros E'. apply Hw, He. by rewrite E'.
Qed.

(** The day starts within 14 hours of midnight UTC, by an offset that holds
    around it. *)
Lemma startOfDay_near n : day_inside n -> exists a,
  n * DAY - 26 * HOUR <= a <= n * DAY + 26 * HOUR /\ startOfDay (day_key n) tz = Some (Some (n * DAY - off a)).
Proof.
  intros Hn. destruct (startOfDay_cases n Hn) as (first & last & H1 & H2 & _ & H4). rewrite H4.
  assert (H : forall t, t ∈ readings (n * DAY) -> exists a, n * DAY - 26 * HOUR <= a <= n * DAY + 26 * HOUR /\ t = n * DAY - off a).
  { intros t Ht. apply readings_candidate in Ht as (o & Ho & ->).
    unfold probes in Ho. rewrite !elem_of_cons, elem_of_nil in Ho.
    destruct Ho as [->|[->|[->|[]]]]; eexists; (split; [|done]); unfold HOUR; lia. }
  destruct (decide _) as [_|_]; [destruct (H first H1) as (a & Ha & ->)|destruct (H last H2) as (a & Ha & ->)]; eauto.
Qed.

(** Offsets a few days apart differ by a day at most. *)
Definition day_apart : Prop := forall a b, Z.abs (a - b) <= 4 * DAY -> Z.abs (off a - off b) <= DAY.

Lemma startOfDay_mono n s s' : day_apart -> day_inside n -> day_inside (n + 1) ->
  startOfDay (day_key n) tz = Some (Some s) -> startOfDay (day_key (n + 1)) tz = Some (Some s') -> s <= s'.
Proof.
  intros Hd Hn Hn' E E'. destruct (startOfDay_near n Hn) as (a & Ha & H). destruct (startOfDay_near _ Hn') as (b & Hb & H').
  rewrite E in H. rewrite E' in H'. injection H as ->. injection H' as ->.
  specialize (Hd b a). unfold HOUR, DAY in *. lia.
Qed.

(** The start of a local day, in a zone that changes at most
    once in 52 hours: where some instant reads midnight, the first instant of the day; where midnight is skipped, the
    instant it would have been by the smaller of the offsets around it. *)
Theorem startOfDay_first (n : Z) : seldom_changes off -> day_inside n ->
  let w := n * DAY in
  exists s, startOfDay (day_key n) tz = Some (Some s) /\
    ((exists t, reads w t) -> dayKey (Some s) tz = Some (day_key n) /\
       forall t, key_range t -> dayKey (Some t) tz = Some (day_key n) -> s <= t) /\
    (~ (exists t, reads w t) -> s = w - Z.min (off (w - 26 * HOUR)) (off (w + 26 * HOUR))).
Proof.
  intros Hs Hn w. destruct (startOfDay_cases n Hn) as (first & last & H1 & H2 & H3 & H4). fold w in H1, H2, H3, H4.
  destruct (day_inside_inside n Hn) as [Hok Hin].
  assert (Hw0 : w mod 1000 = 0) by (unfold w, DAY; dlia).
  eexists. split; [exact H4|]. split.
  - intros Hex. pose proof (readings_valid w Hs Hw0 Hex) as Hv.
    pose proof (proj1 (Hv first) H1) as [Hm Hf].
    rewrite decide_True by (rewrite Hf; unfold DAY; lia).
    pose proof (reads_offset _ _ (conj Hm Hf)) as Ef. pose proof (off_range first) as Ho.
    assert (Hk : key_range first).
    { unfold key_range, day_inside, w, MAX_ZONE_OFFSET_MS, HOUR, DAY in *. dlia. }
    split; [apply dayKey_eq; [done|done|]; rewrite Hf; unfold w, DAY; lia|].
    intros t Ht. rewrite dayKey_eq by done. fold w. intros Hr. destruct (Z.le_gt_cases first t) as [|Hlt]; [done|exfalso].
    pose proof (off_range t) as Ho'. unfold wall in Hr. rewrite <-(law_second _ _ _ Hlaw t) in Hr, Ho'.
    set (u := t / 1000 * 1000) in *. assert (Hu : u <= t < u + 1000) by (unfold u; dlia).
    assert (Hu0 : u mod 1000 = 0) by (unfold u; rewrite Z.mod_mul; done).
    assert (Hwu : wall u = u + off u) by (unfold wall; dlia).
    set (v := w - off u). assert (Hv0 : v mod 1000 = 0) by (unfold v; pose proof (law_whole _ _ _ Hlaw u); dlia).
    destruct (Hs v u first) as [E|E]; try (unfold v, MAX_ZONE_OFFSET_MS, HOUR, DAY in *; lia).
    assert (reads w v) as Hrv by (split; [done|unfold wall; rewrite <-E; unfold v in *; dlia]).
    apply Hv, H3 in Hrv. unfold v in *. lia.
  - intros Hno. pose proof (readings_skipped w Hs Hw0 Hno) as Hv.
    pose proof (H3 _ (proj2 (Hv _) (or_introl eq_refl))) as Hb. pose proof (H3 _ (proj2 (Hv _) (or_intror eq_refl))) as Ha.
    destruct (decide _) as [Hd|_]; [exfalso|apply Hv in H2; lia].
    apply Hno. exists first.
    assert (Hm : first mod 1000 = 0).
    { apply (candidate_whole w); [done|]. by apply readings_candidate. }
    split; [done|]. apply Hv in H1.
    pose proof (off_range (w - 26 * HOUR)) as Ho1. pose proof (off_range (w + 26 * HOUR)) as Ho2.
    assert (Hf : wall first = first + off first) by (unfold wall; dlia). rewrite Hf in *.
    destruct (Hs (w - 26 * HOUR) first (w + 26 * HOUR)) as [E|E]; unfold MAX_ZONE_OFFSET_MS, HOUR in *; lia.
Qed.
End WallClock.

Module Demo.
(** A zone from its offset. *)
Definition zone_of (off : Z -> Z) (t : Z) : option Parts := Some (parts_of (t / 1000 * 1000 + off t)).

Definition at_ (s : string) : option Z := Date_parse (fun _ => None) (js s).
Definition ms (s : string) : Z := default 0 (at_ s).

(** Europe/Amsterdam around 2026, America/Santiago's midnight gap of 6
    September 2026, and America/Toronto in March 1919, whose gap starts half an
    hour before midnight. *)
Definition amsterdam (t : Z) : Z :=
  if (ms "2026-03-29T01:00:00Z" <=? t) && (t <? ms "2026-10-25T01:00:00Z") then 2 * HOUR else HOUR.
Definition santiago (t : Z) : Z := if ms "2026-09-06T04:00:00Z" <=? t then - 3 * HOUR else - 4 * HOUR.
Definition toronto (t : Z) : Z := if ms "1919-03-31T04:30:00Z" <=? t then - 4 * HOUR else - 5 * HOUR.

Definition Intl (timeZone : jstr) : option (Z -> option Parts) :=
  if jeqb timeZone (js "UTC") then Some (zone_of (fun _ => 0))
  else if jeqb timeZone (js "Europe/Amsterdam") then Some (zone_of amsterdam)
  else if jeqb timeZone (js "America/Santiago") then Some (zone_of santiago)
  else if jeqb timeZone (js "America/Toronto") then Some (zone_of toronto)
  else None.
Definition none (s : jstr) : option Z := None.
Definition TZ := js "Europe/Amsterdam".

(** The repository's own examples. *)
Example wall_param : wallClockParam Intl (at_ "2026-09-26T22:30:00Z") TZ = Some (js "2026-09-27T00:30:00Z").
Proof. by vm_compute. Qed.
Example repeated_hour : instantsOf Intl (at_ "2026-10-25T02:30:00Z") TZ =
  Some [at_ "2026-10-25T00:30:00Z"; at_ "2026-10-25T01:30:00Z"].
Proof. by vm_compute. Qed.
Example skipped_hour : instantsOf Intl (at_ "2026-03-29T02:30:00Z") TZ =
  Some [at_ "2026-03-29T00:30:00Z"; at_ "2026-03-29T01:30:00Z"].
Proof. by vm_compute. Qed.
Example ordinary_time : instantsOf Intl (at_ "2026-03-29T03:30:00Z") TZ = Some [at_ "2026-03-29T01:30:00Z"].
Proof. by vm_compute. Qed.
Example late_evening : dayKey Intl (at_ "2026-09-23T22:30:00Z") TZ = Some (js "2026-09-24") /\
  formatTime Intl (at_ "2026-09-23T22:30:00Z") TZ = Some (js "00:30").
Proof. by vm_compute. Qed.
Example skipped_midnight :
  startOfDay none Intl (js "2026-09-06") (js "America/Santiago") = Some (at_ "2026-09-06T04:00:00Z") /\
  dayKey Intl (at_ "2026-09-06T04:00:00Z") (js "America/Santiago") = Some (js "2026-09-06").
Proof. by vm_compute. Qed.
Example a_week : days (weekContaining none (js "2026-09-23") MONDAY) =
  map js ["2026-09-21"; "2026-09-22"; "2026-09-23"; "2026-09-24"; "2026-09-25"; "2026-09-26"; "2026-09-27"]%string.
Proof. by vm_compute. Qed.
Example durations : formatDuration (26 * HOUR + 50 * MINUTE) = js "26:50" /\ formatDuration 29999 = js "0:00" /\
  spokenDuration (2 * HOUR + 30 * MINUTE) = js "2 hours 30 minutes" /\ spokenDuration 0 = js "0 minutes".
Proof. by vm_compute. Qed.

(** A gap that starts before midnight: the day starts half an hour after the
    first instant after the gap. *)
Lemma start_after_gap : exists s,
  startOfDay none Intl (js "1919-03-31") (js "America/Toronto") = Some (Some s) /\
  dayKey Intl (Some (s - 30 * MINUTE)) (js "America/Toronto") = Some (js "1919-03-31") /\
  s - 30 * MINUTE = ms "1919-03-31T04:30:00Z".
Proof. exists (ms "1919-03-31T05:00:00Z"). split_and!; by vm_compute. Qed.

Lemma amsterdam_law : zone_law Intl TZ amsterdam.
Proof.
  assert (H1 : ms "2026-03-29T01:00:00Z" = 1774746000000) by by vm_compute.
  assert (H2 : ms "2026-10-25T01:00:00Z" = 1792890000000) by by vm_compute.
  split; [by exists (zone_of amsterdam)|..]; intros t; unfold amsterdam; rewrite H1, H2; [by case_match| |].
  - repeat case_match; breflect; destruct_or?; breflect; try done; exfalso; dlia.
  - by case_match.
Qed.

Lemma amsterdam_settled : seldom_changes amsterdam /\ day_apart amsterdam.
Proof.
  assert (H1 : ms "2026-03-29T01:00:00Z" = 1774746000000) by by vm_compute.
  assert (H2 : ms "2026-10-25T01:00:00Z" = 1792890000000) by by vm_compute.
  unfold seldom_changes, day_apart, amsterdam, HOUR, DAY. rewrite H1, H2. split.
  - intros a b c Hab Hc. repeat case_match; breflect; destruct_or?; breflect; try tauto; exfalso; lia.
  - intros a b _. repeat case_match; lia.
Qed.

(** 2:30 on the night the clock is put back. *)
Lemma instantsOf_exact_witness : exists l, instantsOf Intl (Some (ms "2026-10-25T02:30:00Z")) TZ = Some (map Some l) /\
  ms "2026-10-25T00:30:00Z" ∈ l /\ ms "2026-10-25T01:30:00Z" ∈ l.
Proof.
  destruct (instantsOf_exact Intl TZ amsterdam amsterdam_law (ms "2026-10-25T02:30:00Z")) as (l & E & _ & _ & H & _).
  - apply amsterdam_settled.
  - unfold inside. destruct first_last as [-> ->]. split; [by apply Z.leb_le; vm_compute|by apply Z.ltb_lt; vm_compute].
  - by vm_compute.
  - exists l. split; [exact E|]. assert (Ht : reads amsterdam (ms "2026-10-25T02:30:00Z") (ms "2026-10-25T00:30:00Z")) by (split; by vm_compute).
    split; apply H; eauto.
Defined.

Definition day (s : string) : Z := ms s / DAY.

Lemma startOfDay_first_witness : exists s, startOfDay none Intl (day_key (day "2026-10-25")) TZ = Some (Some s) /\
  s <= ms "2026-10-25T22:59:59Z".
Proof.
  destruct (startOfDay_first Intl TZ amsterdam amsterdam_law none (day "2026-10-25")) as (s & E & H & _).
  - apply amsterdam_settled.
  - unfold day_inside. destruct day_bounds as [-> ->]. split; [by apply Z.leb_le; vm_compute|by apply Z.ltb_lt; vm_compute].
  - exists s. split; [exact E|]. destruct H as [_ H].
    + exists (ms "2026-10-24T22:00:00Z"). split; by vm_compute.
    + apply H; [|by vm_compute]. unfold key_range. destruct day_bounds as [-> ->].
      split; [by apply Z.leb_le; vm_compute|by apply Z.ltb_lt; vm_compute].
Defined.

Lemma weekContaining_week_witness : day_key (day "2026-09-23") ∈ days (weekContaining none (day_key (day "2026-09-23")) SUNDAY).
Proof.
  refine (proj1 (weekContaining_week none (day "2026-09-23") (day "2026-09-23") 4 SUNDAY _ _ _));
    unfold week_ok; destruct day_bounds as [-> ->];
    (split; [by apply Z.leb_le; vm_compute|by apply Z.ltb_lt; vm_compute]).
Defined.
End Demo.
