(* ===== verification/Clockify.v ===== *)
(** * Clockify, as the observation log sees it

    Models [src/integrations/timesheets/app/clockifyObserve.ts] with the parts
    of [transport.ts] and [clockifyApi.ts] it calls: what a time entry is
    canonically, which reads produce which observations, and which time those
    reads leave unknown.

    The transport is a parameter: what a path and a query are answered with,
    or the failure of the request.  A read sends each request once, one after
    the other.  The texts of the clock's two readings and the new observation's
    id are arguments of a read. *)
From S2P Require Import Prelude Text Collections JsDate Json Uri Observations Zones.
Local Open Scope Z_scope.

(** ** transport.ts *)

(* src: integrations/timesheets/app/transport.ts 29-44 ProxyError *)
Inductive Fault :=
| ProxyError (path : jstr) (status : Z) (body : option Json)
| OtherError (message : jstr).

(** A status and a body ([None]: no body). *)
Definition Response : Type := Z * option Json.
(** What one read gets: its requests all differ (each page and each entry is
    asked for once), so a function of the request says any sequence of answers,
    also those of a provider whose entries change between two pages. *)
(* src: integrations/timesheets/app/transport.ts 17-21 ProxyTransport ! *)
Definition ProxyTransport : Type := jstr -> list (jstr * jstr) -> res Fault Response.

(* src: integrations/timesheets/app/transport.ts 46-56 requestJson *)
Definition requestJson (transport : ProxyTransport) (path : jstr) (query : list (jstr * jstr)) : res Fault (option Json) :=
  '(status, body) ← transport path query;
  if (status <? 200) || (300 <=? status) then Err (ProxyError path status body) else Ok body.

(* src: integrations/timesheets/app/transport.ts 58-72 RECONNECT_CODES *)
Definition RECONNECT_CODES : list jstr :=
  map js ["unknown_connection"; "not_delegated"; "capability_scope"; "platform_mismatch"; "credential_refresh_failed"]%string.

(* src: integrations/timesheets/app/transport.ts 73-89 REFUSAL_CODES *)
Definition REFUSAL_CODES : list jstr :=
  RECONNECT_CODES ++
  map js ["missing_signature"; "unsupported_signature_version"; "invalid_agent"; "agent_key_mismatch";
          "stale_timestamp"; "bad_signature"; "replayed"; "invalid_capability"; "capability_expired";
          "capability_too_long"; "wrong_audience"; "capability_key_mismatch"; "not_owner"; "access_denied"]%string.

(* src: integrations/timesheets/app/transport.ts 91-107 proxyRefusal *)
Definition proxyRefusal (response : Response) : option jstr :=
  let '(status, body) := response in
  let code := text_of (omember (js "error") body) in
  if (status <? 400) || jeqb code [] || negb (bool_decide (code ∈ REFUSAL_CODES)) then None
  else
    let detail := match omember (js "message") body with Some (OStr m) => js ": " ++ m | _ => [] end in
    Some (if bool_decide (code ∈ RECONNECT_CODES)
          then js "The integration proxy refused this connection (" ++ code ++ detail ++ js "). Connect again."
          else js "The integration proxy refused the request (" ++ code ++ detail ++ js ").").

(* src: integrations/timesheets/app/transport.ts 109-133 relayTransport *)
Definition relayTransport (proxy : ProxyTransport) : ProxyTransport := fun path query =>
  response ← proxy path query;
  match proxyRefusal response with
  | Some message => Err (OtherError message)
  | None => Ok response
  end.

(** ** The canonical entry *)

(* src: integrations/timesheets/app/clockifyObserve.ts 39-39 TIME_ENTRY *)
Definition TIME_ENTRY : jstr := js "timeEntry".
(* src: integrations/timesheets/app/clockifyObserve.ts 40-41 PROXY_NOT_IN_CATALOG *)
Definition PROXY_NOT_IN_CATALOG : jstr := js "method or path is not in the catalog".
(* src: integrations/timesheets/app/clockifyObserve.ts 42-43 NOT_IN_WORKSPACE *)
Definition NOT_IN_WORKSPACE : jstr := js "Time entry doesn't belong to Workspace".
(* src: integrations/timesheets/app/clockifyObserve.ts 46-47 MARGIN_MS *)
Definition MARGIN_MS : Z := 24 * HOUR.
(* src: integrations/timesheets/app/clockifyApi.ts 14-14 PAGE_SIZE *)
Definition PAGE_SIZE : Z := 50.
(* src: integrations/timesheets/app/clockifyApi.ts 15-16 MAX_PAGES *)
Definition MAX_PAGES : Z := 200.

(* src: integrations/timesheets/app/clockifyObserve.ts 49-69 ENTRY_FIELDS *)
Definition ENTRY_FIELDS : list jstr :=
  map js ["start"; "end"; "projectId"; "taskId"; "description"; "billable"; "tagIds"; "type"; "isLocked"; "userId";
          "workspaceId"; "customFieldValues"; "extra"]%string.

(* src: integrations/timesheets/app/clockifyObserve.ts 71-72 ENTRY_MASK *)
Definition ENTRY_MASK : list jstr := ENTRY_FIELDS.

(** What [{...v}] copies: an array or a string has its indices as keys. *)
Definition own_entries (v : option Json) : fields_map :=
  match v with
  | Some (OObj m) => m
  | Some (OArr l) => imap (fun i x => (dec (Z.of_nat i), x)) l
  | Some (OStr s) => imap (fun i c => (dec (Z.of_nat i), OStr [c])) s
  | _ => []
  end.

(** What [{...v}] copies of an object ([typeof v === 'object']). *)
Definition object_entries (v : option Json) : fields_map :=
  match v with Some (OStr _) => [] | _ => own_entries v end.

Definition text_or_null (v : option Json) : Json := match v with Some (OStr s) => OStr s | _ => ONull end.

(** The loop over the other properties: into [fields] or into [extra]. *)
(* src: integrations/timesheets/app/clockifyObserve.ts 89-93 canonicalEntry ! *)
Definition place (acc : fields_map * fields_map) (p : jstr * Json) : fields_map * fields_map :=
  if decide (p.1 ∈ ENTRY_FIELDS) then (jset p.1 p.2 acc.1, acc.2) else (acc.1, jset p.1 p.2 acc.2).

(** The loop that gives every field a value. *)
(* src: integrations/timesheets/app/clockifyObserve.ts 95-96 canonicalEntry ! *)
Definition fill (fields : fields_map) (field : jstr) : fields_map :=
  if negb (has_key field fields) && negb (jeqb field (js "extra")) then jset field ONull fields else fields.

(* src: integrations/timesheets/app/clockifyObserve.ts 77-101 canonicalEntry *)
Definition canonicalEntry (raw : fields_map) : CanonicalRecord :=
  let rest := jdelete (js "timeInterval") (jdelete (js "id") raw) in
  let interval := own_entries (jget (js "timeInterval") raw) in
  let intervalExtra := jdelete (js "end") (jdelete (js "start") interval) in
  let fields := [(js "start", text_or_null (jget (js "start") interval)); (js "end", text_or_null (jget (js "end") interval))] in
  let '(fields, extra) := fold_left place rest (fields, []) in
  let fields := fold_left fill ENTRY_FIELDS fields in
  let extra := match intervalExtra with [] => extra | _ => jset (js "timeInterval") (OObj intervalExtra) extra end in
  mkCanonical (text_of (jget (js "id") raw)) (jset (js "extra") (OObj extra) fields).

(* src: integrations/timesheets/app/clockifyObserve.ts 103-127 rawFromCanonical *)
Definition rawFromCanonical (record : MirrorRecord) : fields_map :=
  let fields := m_fields record in
  let rest := jdelete (js "extra") (jdelete (js "end") (jdelete (js "start") fields)) in
  let extra := entries_of (jget (js "extra") fields) in
  let other := jdelete (js "timeInterval") extra in
  let interval := object_entries (jget (js "timeInterval") extra) in
  spread (spread other rest)
    [(js "id", OStr (m_id record));
     (js "timeInterval", OObj (spread interval
        [(js "start", text_or_null (jget (js "start") fields)); (js "end", text_or_null (jget (js "end") fields))]))].

(** ** Reads *)

(* src: integrations/timesheets/app/clockifyObserve.ts 155-155 Account *)
Record Account := mkAccount { workspaceId : jstr; userId : jstr }.

(* src: integrations/timesheets/app/clockifyObserve.ts 157-166 rangeScope *)
Definition rangeScope (c : Account) (from to : jstr) : RangeScope :=
  mkRange TIME_ENTRY [(js "workspaceId", workspaceId c); (js "userId", userId c)] (js "start") from to.

(* src: integrations/timesheets/app/clockifyObserve.ts 148-150 clockifyInstant *)
Definition clockifyInstant (at_ : option Z) : option jstr := t ← at_; without_millis <$> toISOString t.

(* src: integrations/timesheets/app/clockifyObserve.ts 183-183 rangeBounds ! *)
Record RangeBounds := mkBounds { b_start : jstr; b_end : jstr; b_from : option Z; b_to : option Z }.

(* src: integrations/timesheets/app/clockifyObserve.ts 174-201 rangeBounds *)
Definition rangeBounds (Intl : jstr -> option (Z -> option Parts)) (from to : Z) (timeZone : option jstr)
    : option RangeBounds :=
  let f := from / 1000 * 1000 in
  let t := to / 1000 * 1000 in
  match timeZone with
  | None | Some [] =>
      start ← clockifyInstant (Some f); end_ ← clockifyInstant (Some t);
      Some (mkBounds start end_ (Some (f + MAX_ZONE_OFFSET_MS)) (Some (t - MAX_ZONE_OFFSET_MS)))
  | Some timeZone =>
      start ← wallClockParam Intl (Some f) timeZone;
      end_ ← wallClockParam Intl (Some t) timeZone;
      fs ← (w ← wallClock Intl (Some f) timeZone; instantsOf Intl w timeZone);
      ts ← (w ← wallClock Intl (Some t) timeZone; instantsOf Intl w timeZone);
      match fs, ts with
      | f0 :: fs, t0 :: ts => Some (mkBounds start end_ (num_max f0 fs) (num_min t0 ts))
      | _, _ => None
      end
  end.

(* src: integrations/timesheets/app/clockifyObserve.ts 129-144 ReadContext *)
Record ReadContext := mkContext {
  transport : ProxyTransport;
  c_account : Account;
  c_timeZone : option jstr;
  c_device : jstr;
}.

Definition or_throw {A} (error : jstr) (v : option A) : res Fault A :=
  match v with Some v => Ok v | None => Err (OtherError error) end.

(** [encodeURIComponent], which throws on half a surrogate pair. *)
Definition encode (s : jstr) : res Fault jstr := or_throw (js "URI malformed") (encodeURIComponent s).

(* src: integrations/timesheets/app/clockifyObserve.ts 152-153 listPath *)
Definition listPath (c : ReadContext) : res Fault jstr :=
  workspace ← encode (workspaceId (c_account c)); user ← encode (userId (c_account c));
  Ok (js "/api/v1/workspaces/" ++ workspace ++ js "/user/" ++ user ++ js "/time-entries").

(** The path in a message. *)
Definition path_text (c : ReadContext) : jstr := match listPath c with Ok path => path | Err _ => [] end.

(* src: integrations/timesheets/app/clockifyObserve.ts 168-172 RangeRead *)
Record RangeRead := mkRead { observation : Observation; error : option Fault }.

(** The query of one page. *)
(* src: integrations/timesheets/app/clockifyObserve.ts 231-233 readRange ! *)
Definition page_query (b : RangeBounds) (page : Z) : list (jstr * jstr) :=
  [(js "start", b_start b); (js "end", b_end b); (js "page", dec_signed page); (js "page-size", dec_signed PAGE_SIZE)].

(** The entries of a page: those that are objects with a text id. *)
(* src: integrations/timesheets/app/clockifyObserve.ts 243-245 readRange ! *)
Definition entries_on (items : list Json) : list CanonicalRecord :=
  omap (fun item => match item with
                    | OObj m => if is_text (jget (js "id") m) then Some (canonicalEntry m) else None
                    | _ => None
                    end) items.

(** The loop over the pages, [fuel] of them left: the records, whether the
    last page was reached, and what stopped the paging early. *)
(* src: integrations/timesheets/app/clockifyObserve.ts 226-251 readRange ! *)
Fixpoint read_pages (fuel : nat) (c : ReadContext) (b : RangeBounds) (page : Z) (records : list CanonicalRecord)
    : res Fault (list CanonicalRecord * bool * option Fault) :=
  match fuel with
  | O => Ok (records, false, None)
  | S fuel =>
      let caught e := if page =? 1 then Err e else Ok (records, false, Some e) in
      match path ← listPath c; requestJson (transport c) path (page_query b page) with
      | Err e => caught e
      | Ok (Some (OArr items)) =>
          let records := records ++ entries_on items in
          if len items <? PAGE_SIZE then Ok (records, true, None) else read_pages fuel c b (page + 1) records
      | Ok _ => caught (OtherError (js "Clockify " ++ path_text c ++ js " did not return a list"))
      end
  end.

(* src: integrations/timesheets/app/clockifyObserve.ts 278-281 dedupe *)
Definition dedupe (records : list CanonicalRecord) : list CanonicalRecord :=
  jvalues (jmap_of (map (fun r => (c_id r, r)) records)).

(* src: integrations/timesheets/app/clockifyObserve.ts 203-276 readRange *)
Definition readRange (Intl : jstr -> option (Z -> option Parts)) (c : ReadContext) (id sentAt receivedAt : jstr)
    (from to : Z) : res Fault RangeRead :=
  bounds ← or_throw (js "Invalid time value") (rangeBounds Intl from to (c_timeZone c));
  scope_from ← or_throw (js "Invalid time value") (clockifyInstant (b_from bounds));
  scope_to ← or_throw (js "Invalid time value") (clockifyInstant (num_op Z.max (b_from bounds) (b_to bounds)));
  walked ← read_pages (Z.to_nat MAX_PAGES) c bounds 1 [];
  let '(records, complete, error) := walked : list CanonicalRecord * bool * option Fault in
  let error := match error with
               | None => if complete then None
                         else Some (OtherError (js "Clockify " ++ path_text c ++ js " returned more than " ++
                                dec_signed MAX_PAGES ++ js " pages"))
               | e => e
               end in
  let zone := match c_timeZone c with Some ((_ :: _) as z) => [(js "timeZone", z)] | _ => [] end in
  Ok (mkRead
    (mkObservation
       (mkHeader id (c_device c) sentAt receivedAt ListRead
          (InRange (rangeScope (c_account c) scope_from scope_to)) ENTRY_MASK complete
          (Some ([(js "start", b_start bounds); (js "end", b_end bounds)] ++ zone)))
       (dedupe records))
    error).

(* src: integrations/timesheets/app/clockifyObserve.ts 283-296 saysDeleted *)
Definition saysDeleted (e : Fault) : bool :=
  match e with
  | ProxyError _ status body =>
      if status =? 400 then match omember (js "message") body with Some (OStr m) => jeqb m NOT_IN_WORKSPACE | _ => false end
      else (status =? 404) && negb (match body with Some (OStr s) => jeqb s PROXY_NOT_IN_CATALOG | _ => false end)
  | OtherError _ => false
  end.

(* src: integrations/timesheets/app/clockifyObserve.ts 298-333 readOne *)
Definition readOne (c : ReadContext) (observation_id sentAt receivedAt id : jstr) : res Fault Observation :=
  workspace ← encode (workspaceId (c_account c)); entry_id ← encode id;
  let path := js "/api/v1/workspaces/" ++ workspace ++ js "/time-entries/" ++ entry_id in
  let answer :=
    entry ← requestJson (transport c) path [];
    match entry with
    | Some (OObj m) =>
        if match jget (js "id") m with Some (OStr i) => jeqb i id | _ => false end then Ok [canonicalEntry m]
        else Err (OtherError (js "Clockify " ++ path ++ js " returned another entry"))
    | _ => Err (OtherError (js "Clockify " ++ path ++ js " returned another entry"))
    end in
  records ← match answer with
            | Ok records => Ok records
            | Err e => if saysDeleted e then Ok [] else Err e
            end;
  Ok (mkObservation
        (mkHeader observation_id (c_device c) sentAt receivedAt PointRead (ById (mkIdScope TIME_ENTRY id))
           ENTRY_MASK true None)
        records).

(** ** What is unknown *)

(* src: integrations/timesheets/app/clockifyObserve.ts 335-336 timeEntries *)
Definition timeEntries (mirror : Mirror) : list MirrorRecord :=
  List.filter (fun r => jeqb (m_collection r) TIME_ENTRY) (jvalues (m_records mirror)).

(* src: integrations/timesheets/app/clockifyObserve.ts 338-342 absenceCandidates *)
Definition absenceCandidates (mirror : Mirror) : list MirrorRecord :=
  sort_by (fun a b => if jltb (m_id a) (m_id b) then -1 else 1)
    (List.filter (fun r => is_set (absentSince r) && negb (is_set (deletedAt r))) (timeEntries mirror)).

(* src: integrations/timesheets/app/clockifyObserve.ts 344-347 Interval *)
Record Interval := mkInterval { from : Z; to : Z }.

(** An interval whose ends may be [NaN]. *)
Definition NumInterval : Type := option Z * option Z.

(* src: integrations/timesheets/app/clockifyObserve.ts 384-388 union ! *)
Definition union_step (merged : list NumInterval) (i : NumInterval) : list NumInterval :=
  match last merged with
  | Some l =>
      if num_leb i.1 l.2 then take (length merged - 1) merged ++ [(l.1, num_op Z.max l.2 i.2)] else merged ++ [i]
  | None => [i]
  end.
(* src: integrations/timesheets/app/clockifyObserve.ts 380-391 union *)
Definition union (intervals : list NumInterval) : list NumInterval :=
  fold_left union_step (sort_by (fun a b => num_cmp a.1 b.1) intervals) [].

(* src: integrations/timesheets/app/clockifyObserve.ts 393-402 subtract *)
Definition subtract (intervals : list Interval) (cut : Interval) : list Interval :=
  flat_map (fun i =>
    if (to cut <=? from i) || (to i <=? from cut) then [i]
    else (if from i <? from cut then [mkInterval (from i) (from cut)] else []) ++
         (if to cut <? to i then [mkInterval (to cut) (to i)] else [])) intervals.

Section Unknown.
Context (other : jstr -> option Z).
Abbreviation ms := (ms other).

(* src: integrations/timesheets/app/clockifyObserve.ts 349-358 span *)
Definition span (record : MirrorRecord) (now : Z) : option Interval :=
  match jget (js "start") (m_fields record) with
  | Some (OStr start) =>
      from ← ms start;
      to ← match jget (js "end") (m_fields record) with Some (OStr end_) => ms end_ | _ => Some now end;
      if from <? to then Some (mkInterval from to) else None
  | _ => None
  end.

(* src: integrations/timesheets/app/clockifyObserve.ts 360-378 longestEntryMs *)
Definition longestEntryMs (mirror : Mirror) (now : Z) : Z :=
  fold_left (fun longest record =>
    if is_set (deletedAt record) then longest
    else match span record now with Some s => Z.max longest (to s - from s) | None => longest end)
    (timeEntries mirror) MARGIN_MS.

(** What one covered interval cuts off, its starts eroded by [longest]. *)
(* src: integrations/timesheets/app/clockifyObserve.ts 428-430 unknownIntervals ! *)
Definition cut_covered (longest : Z) (unknown : list Interval) (covered : NumInterval) : list Interval :=
  match covered with
  | (Some f, Some t) => if f + longest <? t then subtract unknown (mkInterval (f + longest) t) else unknown
  | _ => unknown
  end.

(** What one absence candidate makes unknown. *)
(* src: integrations/timesheets/app/clockifyObserve.ts 433-444 unknownIntervals ! *)
Definition add_candidate (window : Interval) (now : Z) (unknown : list Interval) (record : MirrorRecord) : list Interval :=
  match span record now with
  | None => unknown
  | Some s =>
      let cut := mkInterval (Z.max (from s) (from window)) (Z.min (to s) (to window)) in
      if from cut <? to cut then sort_by (fun a b => from a - from b) (subtract unknown cut ++ [cut]) else unknown
  end.

(* src: integrations/timesheets/app/clockifyObserve.ts 404-447 unknownIntervals *)
Definition unknownIntervals (mirror : Mirror) (c : Account) (window : Interval) (now : Z) : list Interval :=
  let key := coverageKey (rangeScope c [] []) in
  let longest := longestEntryMs mirror now in
  let covered := union (map (fun s => (ms (s_from s), ms (s_to s)))
                         (List.filter (fun s => jeqb (s_key s) key) (coverage mirror))) in
  let unknown := fold_left (cut_covered longest) covered [window] in
  let unknown := fold_left (add_candidate window now) (absenceCandidates mirror) unknown in
  List.filter (fun i => from i <? to i) unknown.
End Unknown.

(* src: integrations/timesheets/app/clockifyObserve.ts 449-450 totalMs *)
Definition totalMs (intervals : list Interval) : Z := fold_left (fun sum i => sum + (to i - from i)) intervals 0.

(** ** Unknown time, instant by instant *)

Definition holds (i : Interval) (t : Z) : bool := (from i <=? t) && (t <? to i).

(** How many intervals an instant is in. *)
Definition depth (l : list Interval) (t : Z) : nat := length (List.filter (fun i => holds i t) l).

Lemma depth_app l k t : depth (l ++ k) t = (depth l t + depth k t)%nat.
Proof. unfold depth. by rewrite List.filter_app, length_app. Qed.

Lemma depth_perm l k t : l ≡ₚ k -> depth l t = depth k t.
Proof. intros H. unfold depth. by rewrite (filter_perm _ _ _ H). Qed.

Lemma depth_elem l t : (0 < depth l t)%nat <-> exists i, i ∈ l /\ from i <= t < to i.
Proof.
  unfold depth. split.
  - destruct (List.filter _ l) as [|i k] eqn:E; [cbn; lia|]. intros _. exists i.
    assert (Hi : i ∈ i :: k) by by left. rewrite <-E in Hi. apply list_elem_of_In, filter_In in Hi as [Hi Ht].
    unfold holds in Ht. breflect. split; [by apply list_elem_of_In|lia].
  - intros (i & Hi & Ht). destruct (List.filter _ l) as [|j k] eqn:E; [|cbn; lia]. exfalso.
    assert (Hf : i ∈ List.filter (fun i => holds i t) l).
    { apply list_elem_of_In, filter_In. split; [by apply list_elem_of_In|]. unfold holds. lia. }
    rewrite E in Hf. by apply elem_of_nil in Hf.
Qed.

Lemma depth_subtract l cut t : from cut < to cut ->
  depth (subtract l cut) t = if holds cut t then 0%nat else depth l t.
Proof.
  intros Hc. induction l as [|i l IH]; [by case_match|].
  unfold subtract in *. cbn [flat_map]. rewrite depth_app, IH. change (i :: l) with ([i] ++ l). rewrite (depth_app [i] l).
  destruct (holds cut t) eqn:Ec; unfold holds in Ec; breflect; destruct_or?; breflect;
    unfold depth; repeat case_match; breflect; destruct_or?; breflect; cbn [app List.filter]; unfold holds; cbn [from to];
    repeat case_match; breflect; destruct_or?; breflect; cbn; lia.
Qed.

Lemma depth_nonempty l t : depth (List.filter (fun i => from i <? to i) l) t = depth l t.
Proof.
  induction l as [|i l IH]; [done|]. cbn [List.filter]. unfold depth in *.
  destruct (from i <? to i) eqn:E; cbn [List.filter]; destruct (holds i t) eqn:Eh; cbn [length]; rewrite ?IH; try done.
  unfold holds in Eh. breflect. lia.
Qed.

(** *** The union of intervals *)

Definition some_interval (i : Z * Z) : NumInterval := (Some i.1, Some i.2).

Definition in_some (l : list (Z * Z)) (t : Z) : Prop := exists i, i ∈ l /\ i.1 <= t < i.2.

(** The merged intervals: as the others cover, in order, with gaps between. *)
Record merged_ok (merged l : list (Z * Z)) : Prop := {
  merged_gaps : StronglySorted (fun x y => x.2 < y.1) merged;
  merged_covers : forall t, in_some merged t <-> in_some l t;
}.

Lemma in_some_app l k t : in_some (l ++ k) t <-> in_some l t \/ in_some k t.
Proof. unfold in_some. setoid_rewrite elem_of_app. naive_solver. Qed.

Lemma in_some_single i t : in_some [i] t <-> i.1 <= t < i.2.
Proof. unfold in_some. setoid_rewrite list_elem_of_singleton. naive_solver. Qed.

Definition merge_one (merged : list (Z * Z)) (i : Z * Z) : list (Z * Z) :=
  match last merged with
  | Some l => if i.1 <=? l.2 then take (length merged - 1) merged ++ [(l.1, Z.max l.2 i.2)] else merged ++ [i]
  | None => [i]
  end.

Lemma union_step_some merged i :
  union_step (map some_interval merged) (some_interval i) = map some_interval (merge_one merged i).
Proof.
  unfold union_step, merge_one.
  change (map some_interval merged) with (some_interval <$> merged). rewrite fmap_last.
  destruct (last merged) as [l|]; [|done]. cbn [fmap option_fmap option_map some_interval fst snd num_leb].
  destruct (i.1 <=? l.2).
  - rewrite length_fmap, <-fmap_take. change (some_interval <$> take (length merged - 1) merged) with
      (map some_interval (take (length merged - 1) merged)). by rewrite map_app.
  - change (some_interval <$> merged) with (map some_interval merged). by rewrite map_app.
Qed.

Lemma last_split {A} (l : list A) x : last l = Some x -> l = take (length l - 1) l ++ [x].
Proof.
  intros E. destruct l as [|y l] using rev_ind; [done|]. rewrite last_snoc in E. injection E as ->.
  rewrite length_app. cbn [length]. replace (length l + 1 - 1)%nat with (length l) by lia. by rewrite take_app_length.
Qed.

Lemma sorted_snoc_iff {A} (R : A -> A -> Prop) l x :
  StronglySorted R (l ++ [x]) <-> StronglySorted R l /\ Forall (fun y => R y x) l.
Proof.
  induction l as [|y l IH]; cbn [app].
  - split; [by repeat constructor|]. intros _. repeat constructor.
  - split.
    + inversion 1 as [|? ? Hs Hy]; subst. apply IH in Hs as [Hs Hx]. apply Forall_app in Hy as [Hy Hyx].
      apply Forall_cons in Hyx as [Hyx _]. by repeat constructor.
    + intros [Hs Hx]. inversion Hs as [|? ? Hs' Hy]; subst. apply Forall_cons in Hx as [Hyx Hx].
      constructor; [by apply IH|]. apply Forall_app. by repeat constructor.
Qed.

(** The merged intervals start no later than those still to come. *)
Definition before_next (merged : list (Z * Z)) (i : Z * Z) : Prop := Forall (fun m => m.1 <= i.1) merged.

Lemma merge_one_ok merged l i : merged_ok merged l -> before_next merged i ->
  merged_ok (merge_one merged i) (l ++ [i]) /\ forall j, i.1 <= j.1 -> before_next (merge_one merged i) j.
Proof.
  intros [Hg Hc] Hb. unfold merge_one. destruct (last merged) as [x|] eqn:E.
  2: { apply last_None in E as ->. split.
       - split; [repeat constructor|]. intros t. rewrite in_some_app, <-Hc, in_some_single.
         split; [by right|]. intros [(? & ?%elem_of_nil & _)|]; done.
       - intros j Hj. by repeat constructor. }
  apply last_split in E. set (init := take (length merged - 1) merged) in *. clearbody init. subst merged.
  apply sorted_snoc_iff in Hg as [Hg Hx]. apply Forall_app in Hb as [Hb Hbx]. apply Forall_cons in Hbx as [Hbx _].
  destruct (i.1 <=? x.2) eqn:El; breflect.
  - split.
    + split; [by apply sorted_snoc_iff|]. intros t.
      rewrite (in_some_app l), <-Hc, !in_some_app, !in_some_single. cbn [fst snd]. split; [|lia || (intros; destruct_or?; auto; right; lia)].
      intros [?|?]; [tauto|]. destruct (Z.lt_ge_cases t x.2); [left; right; lia|right; lia].
    + intros j Hj. apply Forall_app. split; [eapply Forall_impl; [exact Hb|]; cbn; lia|]. repeat constructor. cbn. lia.
  - split.
    + split.
      * apply sorted_snoc_iff. split; [by apply sorted_snoc_iff|]. apply Forall_app. split; [|by repeat constructor].
        rewrite Forall_forall in Hx |- *. intros y Hy. specialize (Hx y Hy). lia.
      * intros t. by rewrite !(in_some_app _ [i]), Hc.
    + intros j Hj. apply Forall_app. split; [|by repeat constructor].
      apply Forall_app. split; [|repeat constructor; lia]. eapply Forall_impl; [exact Hb|]. cbn. lia.
Qed.

Lemma merge_all_ok k merged l : merged_ok merged l -> StronglySorted (fun x y => x.1 <= y.1) k ->
  Forall (before_next merged) k -> merged_ok (fold_left merge_one k merged) (l ++ k).
Proof.
  revert merged l. induction k as [|i k IH]; intros merged l Hm Hs Hb; [by rewrite app_nil_r|].
  inversion Hs as [|? ? Hs' Hi]; subst. apply Forall_cons in Hb as [Hb _].
  destruct (merge_one_ok merged l i Hm Hb) as [H1 H2]. cbn [fold_left].
  replace (l ++ i :: k) with ((l ++ [i]) ++ k) by (by rewrite <-app_assoc).
  apply IH; [done|done|]. eapply Forall_impl; [exact Hi|]. intros j Hj. by apply H2.
Qed.

Lemma sort_some_intervals l :
  sort_by (fun a b => num_cmp a.1 b.1) (map some_interval l) = map some_interval (sort_by (fun a b => a.1 - b.1) l).
Proof.
  assert (Hi : forall x acc, insert_by (fun a b : NumInterval => num_cmp a.1 b.1) (some_interval x) (map some_interval acc) =
    map some_interval (insert_by (fun a b => a.1 - b.1) x acc)).
  { intros x. induction acc as [|y acc IHa]; [done|]. cbn [map insert_by]. rewrite IHa.
    change (num_cmp (some_interval y).1 (some_interval x).1) with (y.1 - x.1). by case_match. }
  unfold sort_by. change (@nil (option Z * option Z)) with (map some_interval []). generalize (@nil (Z * Z)).
  induction l as [|x l IH]; intros acc; [done|]. cbn [map foldl]. by rewrite Hi, IH.
Qed.

Lemma union_some l : exists merged, union (map some_interval l) = map some_interval merged /\ merged_ok merged l.
Proof.
  set (k := sort_by (fun a b : Z * Z => a.1 - b.1) l). exists (fold_left merge_one k []).
  split.
  - unfold union. rewrite sort_some_intervals. fold k. change (@nil NumInterval) with (map some_interval []).
    generalize (@nil (Z * Z)). induction k as [|i k IH]; intros merged; [done|]. cbn [map fold_left].
    by rewrite union_step_some, IH.
  - assert (Hk : merged_ok (fold_left merge_one k []) ([] ++ k)).
    { apply merge_all_ok; [by split; [constructor|]| |].
      - pose proof (sort_by_comparator (fun a b : Z * Z => a.1 - b.1) l) as H. fold k in H.
        clear -H. induction H as [|x k Hk IH Hx]; constructor; [done|]. eapply Forall_impl; [exact Hx|]. unfold le_by. cbn. lia.
      - apply Forall_forall. intros. constructor. }
    destruct Hk as [Hg Hc]. split; [done|]. intros t. rewrite Hc. unfold in_some, k. cbn [app].
    setoid_rewrite (sort_by_perm (fun a b : Z * Z => a.1 - b.1) l). done.
Qed.

(** An interval of instants is covered exactly when one merged interval covers it. *)
Lemma merged_connected merged l lo hi : merged_ok merged l -> lo <= hi ->
  (forall t, lo <= t <= hi -> in_some l t) <-> exists m, m ∈ merged /\ m.1 <= lo /\ hi < m.2.
Proof.
  intros [Hg Hc] Hle. split.
  - intros H. destruct (proj2 (Hc lo) (H lo ltac:(lia))) as (m & Hm & Hlo). exists m. split_and!; [done|lia|].
    destruct (Z.lt_ge_cases hi m.2) as [|Hge]; [done|exfalso].
    destruct (proj2 (Hc m.2) (H m.2 ltac:(lia))) as (m' & Hm' & Hin).
    assert (m = m' \/ m.2 < m'.1 \/ m'.2 < m.1) as [->|[|]]; [|lia..].
    clear -Hg Hm Hm'. induction Hg as [|x k Hk IH Hx]; [by apply elem_of_nil in Hm|]. rewrite Forall_forall in Hx.
    apply elem_of_cons in Hm as [->|Hm], Hm' as [->|Hm']; auto.
  - intros (m & Hm & H1 & H2) t Ht. apply Hc. exists m. split; [done|lia].
Qed.

Section UnknownExact.
Context (other : jstr -> option Z).
Abbreviation ms := (Observations.ms other).
Abbreviation span := (span other).

Definition account_key (c : Account) : jstr := coverageKey (rangeScope c [] []).

(** A complete read has seen the entries that start at an instant. *)
Definition covered (mirror : Mirror) (c : Account) (t : Z) : Prop :=
  exists s f e, s ∈ coverage mirror /\ s_key s = account_key c /\ ms (s_from s) = Some f /\ ms (s_to s) = Some e /\ f <= t < e.

(** An entry that may be gone is at an instant. *)
Definition unsure (mirror : Mirror) (now t : Z) : Prop :=
  exists r s, r ∈ absenceCandidates mirror /\ span r now = Some s /\ from s <= t < to s.

(** The coverage of the account has dates for ends. *)
Definition coverage_dated (mirror : Mirror) (c : Account) : Prop := forall s, s ∈ coverage mirror ->
  s_key s = account_key c -> is_Some (ms (s_from s)) /\ is_Some (ms (s_to s)).

Lemma covered_intervals mirror c : coverage_dated mirror c -> exists l,
  map (fun s => (ms (s_from s), ms (s_to s))) (List.filter (fun s => jeqb (s_key s) (account_key c)) (coverage mirror))
    = map some_interval l /\ forall t, in_some l t <-> covered mirror c t.
Proof.
  unfold coverage_dated, covered. generalize (coverage mirror). intros cov.
  induction cov as [|s cov IH]; intros Hd.
  { exists []. split; [done|]. intros t. split; [by intros (? & ?%elem_of_nil & _)|by intros (? & ? & ? & ?%elem_of_nil & _)]. }
  destruct IH as (l & El & Hl); [intros x Hx; apply Hd; by right|]. cbn [List.filter].
  destruct (jeqb (s_key s) (account_key c)) eqn:Ek; unfold jeqb in Ek; breflect.
  - destruct (Hd s) as [[f Hf] [e He]]; [by left|done|]. exists ((f, e) :: l). cbn [map]. rewrite El, Hf, He.
    split; [done|]. intros t. split.
    + intros (i & Hi & Ht). apply elem_of_cons in Hi as [->|Hi].
      * exists s, f, e. split_and!; try done; [by left|apply Ht..].
      * destruct (proj1 (Hl t)) as (x & f' & e' & Hx & Hr); [by exists i|]. exists x, f', e'. split; [by right|done].
    + intros (x & f' & e' & Hx & Hk & Hf' & He' & Ht). apply elem_of_cons in Hx as [->|Hx].
      * rewrite Hf in Hf'. rewrite He in He'. simplify_eq. exists (f', e'). split; [by left|done].
      * destruct (proj2 (Hl t)) as (i & Hi & Ht'); [by exists x, f', e'|]. exists i. split; [by right|done].
  - exists l. split; [done|]. intros t. rewrite Hl. split.
    + intros (x & f & e & Hx & Hr). exists x, f, e. split; [by right|done].
    + intros (x & f & e & Hx & Hk & Hr). apply elem_of_cons in Hx as [->|Hx]; [done|]. by exists x, f, e.
Qed.

Lemma depth_cut longest merged us t : 
  depth (fold_left (cut_covered longest) (map some_interval merged) us) t =
    if existsb (fun m => (m.1 + longest <=? t) && (t <? m.2)) merged then 0%nat else depth us t.
Proof.
  revert us. induction merged as [|m merged IH]; intros us; [done|]. cbn [map fold_left existsb]. rewrite IH.
  destruct (existsb _ merged); [by rewrite orb_true_r|]. rewrite orb_false_r. cbn [cut_covered some_interval].
  destruct (m.1 + longest <? m.2) eqn:E; breflect.
  - rewrite depth_subtract by done. unfold holds. by cbn [from to].
  - case_match eqn:Ec; [|done]. breflect. lia.
Qed.

Lemma depth_candidate window now us r t : (depth us t <= 1)%nat ->
  depth (add_candidate other window now us r) t =
    match span r now with
    | Some s => if holds s t && holds window t then 1%nat else depth us t
    | None => depth us t
    end.
Proof.
  intros Hd. unfold add_candidate. destruct (span r now) as [s|]; [|done].
  set (cut := mkInterval _ _).
  assert (Hh : holds s t && holds window t = holds cut t).
  { unfold holds, cut. cbn [from to]. apply eq_bool_prop_intro. rewrite !Is_true_true. split; intros; breflect;
      repeat (apply andb_true_iff; split); lia. }
  rewrite Hh. destruct (from cut <? to cut) eqn:E; breflect.
  - rewrite (depth_perm _ _ t (sort_by_perm _ _)), depth_app, depth_subtract by done.
    unfold depth at 2. cbn [List.filter]. destruct (holds cut t); cbn; lia.
  - destruct (holds cut t) eqn:Eh; [|done]. unfold holds in Eh. breflect. lia.
Qed.

Lemma depth_candidates window now rs us t : (depth us t <= 1)%nat ->
  let sure := forall r s, r ∈ rs -> span r now = Some s -> holds s t && holds window t = false in
  let d := depth (fold_left (add_candidate other window now) rs us) t in
  (sure -> d = depth us t) /\ (~ sure -> d = 1%nat).
Proof.
  revert us. induction rs as [|r rs IH]; intros us Hd; cbn zeta.
  { split; [done|]. intros []. intros r s Hr. by apply elem_of_nil in Hr. }
  cbn [fold_left]. pose proof (depth_candidate window now us r t Hd) as E.
  assert (Hd' : (depth (add_candidate other window now us r) t <= 1)%nat) by (rewrite E; repeat case_match; lia).
  destruct (IH _ Hd') as [H1 H2]. split.
  - intros Hs. rewrite H1 by (intros x s Hx; apply Hs; by right). rewrite E.
    destruct (span r now) as [s|] eqn:Es; [|done]. by rewrite (Hs r s ltac:(by left) Es).
  - intros Hs.
    destruct (span r now) as [s|] eqn:Es; [destruct (holds s t && holds window t) eqn:Eh|].
    2-3: apply H2; intros Hs'; apply Hs; intros x s' Hx Es'; apply elem_of_cons in Hx as [->|Hx]; eauto; congruence.
    destruct (existsb (fun x => match span x now with Some s => holds s t && holds window t | None => false end) rs) eqn:Ee.
    + apply H2. intros Hs'. apply existsb_exists in Ee as (x & Hx & Ex). destruct (span x now) eqn:Es'; [|done].
      apply list_elem_of_In in Hx. by rewrite (Hs' x _ Hx Es') in Ex.
    + rewrite H1, E; [done|]. intros x s' Hx Es'. apply not_true_iff_false. intros Ht. apply (not_true_iff_false _) in Ee.
      apply Ee, existsb_exists. exists x. split; [by apply list_elem_of_In|by rewrite Es'].
Qed.

(** Whether some candidate is at an instant of the window. *)
Lemma candidates_dec window now t (rs : list MirrorRecord) :
  (exists r s, r ∈ rs /\ span r now = Some s /\ holds s t && holds window t = true) \/
  (forall r s, r ∈ rs -> span r now = Some s -> holds s t && holds window t = false).
Proof.
  induction rs as [|x rs IH]; [right; intros ? ? []%elem_of_nil|].
  destruct IH as [(r & s & Hr & Es)|IH]; [left; exists r, s; split; [by right|done]|].
  destruct (span x now) as [s|] eqn:Es; [destruct (holds s t && holds window t) eqn:Eh|].
  - left. exists x, s. split; [by left|done].
  - right. intros r s' Hr Es'. apply elem_of_cons in Hr as [->|Hr]; [congruence|by eapply IH].
  - right. intros r s' Hr Es'. apply elem_of_cons in Hr as [->|Hr]; [congruence|by eapply IH].
Qed.

Lemma longest_margin mirror now : MARGIN_MS <= longestEntryMs other mirror now.
Proof.
  unfold longestEntryMs. generalize MARGIN_MS. induction (timeEntries mirror) as [|r l IH]; intros z; [done|].
  cbn [fold_left]. etransitivity; [|apply IH]. repeat case_match; lia.
Qed.

(** The longest entry is no shorter than any that may still exist. *)
Lemma longest_entry mirror now r s : r ∈ timeEntries mirror -> is_set (deletedAt r) = false -> span r now = Some s ->
  to s - from s <= longestEntryMs other mirror now.
Proof.
  intros Hr Hd Hs. unfold longestEntryMs.
  assert (Hmono : forall l z, z <= fold_left (fun longest record =>
    if is_set (deletedAt record) then longest
    else match span record now with Some s => Z.max longest (to s - from s) | None => longest end) l z).
  { induction l as [|x l IH]; intros z; [done|]. cbn [fold_left]. etransitivity; [|apply IH]. repeat case_match; lia. }
  revert Hr. generalize MARGIN_MS. induction (timeEntries mirror) as [|x l IH]; intros z Hr; [by apply elem_of_nil in Hr|].
  cbn [fold_left]. apply elem_of_cons in Hr as [<-|Hr]; [|by apply IH].
  rewrite Hd, Hs. etransitivity; [|apply Hmono]. lia.
Qed.

Lemma depth_cut_le longest cs us t : (depth (fold_left (cut_covered longest) cs us) t <= depth us t)%nat.
Proof.
  revert us. induction cs as [|[[f|] [e|]] cs IH]; intros us; try done; cbn [fold_left]; (etransitivity; [apply IH|]); cbn [cut_covered]; try done.
  destruct (f + longest <? e) eqn:E; [|done]. breflect. rewrite depth_subtract by done. case_match; lia.
Qed.

Lemma longest_perm m1 m2 now : timeEntries m1 ≡ₚ timeEntries m2 -> longestEntryMs other m1 now = longestEntryMs other m2 now.
Proof.
  unfold longestEntryMs. intros H. generalize MARGIN_MS. induction H as [|r l k _ IH|r x l|l k j _ IH1 _ IH2]; intros z.
  - done.
  - apply IH.
  - cbn [fold_left]. f_equal. repeat case_match; lia.
  - by rewrite IH1.
Qed.

(** What is unknown does not depend on the order of the records. *)
Lemma unknown_depth_perm m1 m2 c window now t : coverage m1 = coverage m2 -> timeEntries m1 ≡ₚ timeEntries m2 ->
  depth (unknownIntervals other m1 c window now) t = depth (unknownIntervals other m2 c window now) t.
Proof.
  intros Hc Hp. unfold unknownIntervals. rewrite !depth_nonempty, <-Hc, <-(longest_perm m1 m2) by done.
  set (us := fold_left (cut_covered _) _ _).
  assert (Hus : (depth us t <= 1)%nat).
  { etransitivity; [apply depth_cut_le|]. unfold depth. cbn [List.filter]. case_match; cbn; lia. }
  assert (Hin : forall r, r ∈ absenceCandidates m1 <-> r ∈ absenceCandidates m2).
  { intros r. unfold absenceCandidates. rewrite !sort_by_perm. by rewrite (filter_perm _ _ _ Hp). }
  destruct (depth_candidates window now (absenceCandidates m1) us t Hus) as [S1 N1].
  destruct (depth_candidates window now (absenceCandidates m2) us t Hus) as [S2 N2].
  destruct (candidates_dec window now t (absenceCandidates m1)) as [(r & s & Hr & Es & Eh)|Hs].
  - rewrite N1, N2; [done|intros Hs; rewrite (Hs r s) in Eh; [done|by apply Hin|done]|intros Hs; by rewrite (Hs r s) in Eh].
  - rewrite S1, S2; [done| |done]. intros r s Hr. by apply Hs, Hin.
Qed.

(** C35 (equivalence). The unknown time of a window, instant by instant: what is
    unknown is in one interval, and an instant of the window is unknown exactly
    when reads have not seen every start from as long before it as the longest
    known entry, or an entry that may be gone is there.  So an entry no longer
    than that, at an instant that is known, starts where a read has been; and no
    entry that is not deleted is longer. *)
Theorem unknown_exact (mirror : Mirror) (c : Account) (window : Interval) (now t : Z) : coverage_dated mirror c ->
  let unknown := unknownIntervals other mirror c window now in
  let longest := longestEntryMs other mirror now in
  let known_at := forall u, t - longest <= u <= t -> covered mirror c u in
  (depth unknown t <= 1)%nat /\
  ((exists i, i ∈ unknown /\ from i <= t < to i) <-> from window <= t < to window /\ (~ known_at \/ unsure mirror now t)) /\
  (from window <= t < to window -> ~ (exists i, i ∈ unknown /\ from i <= t < to i) ->
     forall start end_, end_ - start <= longest -> start <= t < end_ -> covered mirror c start) /\
  (forall r s, r ∈ timeEntries mirror -> is_set (deletedAt r) = false -> span r now = Some s -> to s - from s <= longest).
Proof.
  intros Hd unknown longest known_at.
  assert (Hl : 0 <= longest) by (pose proof (longest_margin mirror now); unfold MARGIN_MS, HOUR in *; lia).
  destruct (covered_intervals mirror c Hd) as (l & El & Hcov). destruct (union_some l) as (merged & Em & Hm).
  set (known := existsb (fun m => (m.1 + longest <=? t) && (t <? m.2)) merged).
  assert (Hk : known = true <-> known_at).
  { unfold known. rewrite existsb_exists. transitivity (exists m, m ∈ merged /\ m.1 <= t - longest /\ t < m.2).
    - split; intros (m & Hin & Hr); exists m; (split; [by apply list_elem_of_In|breflect; lia]).
    - rewrite <-(merged_connected merged l) by (done || lia). unfold known_at. by setoid_rewrite Hcov. }
  set (us := fold_left (cut_covered longest) (map some_interval merged) [window]).
  assert (Hus : depth us t = if known then 0%nat else if holds window t then 1%nat else 0%nat).
  { unfold us. rewrite depth_cut. fold known. destruct known; [done|]. unfold depth. cbn. by destruct (holds window t). }
  assert (Hun : depth unknown t = depth (fold_left (add_candidate other window now) (absenceCandidates mirror) us) t).
  { unfold unknown, unknownIntervals. fold (account_key c). rewrite depth_nonempty. unfold us. by rewrite El, Em. }
  destruct (depth_candidates window now (absenceCandidates mirror) us t) as [H1 H2].
  { rewrite Hus. repeat case_match; lia. }
  pose proof (candidates_dec window now t (absenceCandidates mirror)) as Hs.
  assert (Hw : forall i u, holds i u = true <-> from i <= u < to i) by (intros i u; unfold holds; rewrite andb_true_iff; lia).
  assert (Hboth : (depth unknown t <= 1)%nat /\ ((0 < depth unknown t)%nat <->
    from window <= t < to window /\ (~ known_at \/ unsure mirror now t))).
  { rewrite Hun, <-Hw, <-Hk. destruct Hs as [(r & s & Hr & Es & Eh)|Hs].
    - rewrite H2; [|intros Hs; by rewrite (Hs r s) in Eh]. apply andb_true_iff in Eh as [Eh1 Eh2].
      split; [lia|]. split; [|lia]. intros _. split; [done|right]. exists r, s. by rewrite <-Hw.
    - rewrite H1, Hus by done. split; [repeat case_match; lia|].
      assert (Hno : holds window t = true -> ~ unsure mirror now t).
      { intros Eh (r & s & Hr & Es & Ht). apply Hw in Ht. specialize (Hs r s Hr Es). by rewrite Ht, Eh in Hs. }
      destruct known; [split; [lia|]; intros [Eh [Hn|Hu]]; [by destruct Hn|by apply Hno in Hu]|].
      destruct (holds window t); [|split; [lia|by intros [? _]]].
      split; [|lia]. intros _. split; [done|by left]. }
  destruct Hboth as [Hone Hiff]. rewrite depth_elem in Hiff. split_and!; [done|done| |by intros; apply (longest_entry mirror now r)].
  intros Ht Hnot start end_ Hlen Hin. apply (proj1 Hk); [|lia].
  destruct known; [done|]. exfalso. apply Hnot, Hiff. split; [done|left]. by intros Hx%Hk.
Qed.
End UnknownExact.

(** ** What a read of a range has seen *)

Lemma rangeBounds_zone Intl from to zone : zone <> [] -> rangeBounds Intl from to (Some zone) =
  (let f := from / 1000 * 1000 in
   let t := to / 1000 * 1000 in
   start ← wallClockParam Intl (Some f) zone;
   end_ ← wallClockParam Intl (Some t) zone;
   fs ← (w ← wallClock Intl (Some f) zone; instantsOf Intl w zone);
   ts ← (w ← wallClock Intl (Some t) zone; instantsOf Intl w zone);
   match fs, ts with
   | f0 :: fs, t0 :: ts => Some (mkBounds start end_ (num_max f0 fs) (num_min t0 ts))
   | _, _ => None
   end).
Proof. by destruct zone. Qed.

Section Covers.
Context (Intl : jstr -> option (Z -> option Parts)) (other : jstr -> option Z) (tz : jstr) (off : Z -> Z).
Context (Hlaw : zone_law Intl tz off).
Abbreviation wall := (wall off).

(** Instants well within the days that have keys. *)
Definition safe (t : Z) : Prop := FIRST_DAY + 9 <= t / DAY < LAST_DAY - 9.

Lemma safe_range t : safe t -> key_range t /\ inside (wall t) /\ safe (t / 1000 * 1000).
Proof.
  pose proof (wall_near Intl tz off Hlaw t) as Hw. unfold safe, key_range, inside.
  destruct day_bounds as [-> ->], first_last as [-> ->]. unfold DAY, HOUR in *. intros. split_and!; dlia.
Qed.

(** The instants a bound can be taken for: those whose wall clock it shows. *)
Definition taken_for (text : jstr) (a : Z) : Prop :=
  a mod 1000 = 0 /\ key_range a /\ wallClockParam Intl (Some a) tz = Some text.

Lemma taken_reads f text a : key_range f -> wallClockParam Intl (Some f) tz = Some text ->
  taken_for text a -> reads off (wall f) a.
Proof.
  intros Hf Et (Ha & Hr & Ea). split; [done|].
  destruct (wallClockParam_text Intl tz off Hlaw other f Hf) as (s & Es & Ps).
  destruct (wallClockParam_text Intl tz off Hlaw other a Hr) as (s' & Es' & Ps').
  rewrite Es in Et. rewrite Es' in Ea. congruence.
Qed.

Lemma instants_bounds f : seldom_changes off -> safe f -> f mod 1000 = 0 -> exists x l,
  (w ← wallClock Intl (Some f) tz; instantsOf Intl w tz) = Some (Some x :: map Some l) /\
  (forall a, reads off (wall f) a <-> a ∈ x :: l).
Proof.
  intros Hs Hf H0. destruct (safe_range f Hf) as (Hk & Hi & _). destruct (key_range_inside Intl tz off Hlaw f Hk) as [Hr _].
  rewrite (wallClock_law Intl tz off Hlaw) by done. cbn [mbind option_bind].
  rewrite (instantsOf_readings Intl tz off Hlaw) by done.
  assert (Hff : reads off (wall f) f) by done.
  pose proof (readings_valid Intl tz off Hlaw (wall f) Hs (wall_whole Intl tz off Hlaw f) (ex_intro _ f Hff)) as Hv.
  pose proof (sort_by_perm Z.sub (readings off (wall f))) as Hp.
  destruct (sort_by Z.sub (readings off (wall f))) as [|x l].
  - exfalso. apply Hv in Hff. rewrite <-Hp in Hff. by apply elem_of_nil in Hff.
  - exists x, l. split; [done|]. intros a. by rewrite <-Hv, Hp.
Qed.

(** However the two bounds are taken, the recorded span lies between them. *)
Lemma bounds_known f t b : seldom_changes off -> safe f -> safe t -> tz <> [] -> rangeBounds Intl f t (Some tz) = Some b ->
  exists F T, b_from b = Some F /\ b_to b = Some T /\ F mod 1000 = 0 /\ T mod 1000 = 0 /\
    Z.abs (F - f) <= 2 * DAY /\ Z.abs (T - t) <= 2 * DAY /\
    forall a e, taken_for (b_start b) a -> taken_for (b_end b) e -> a <= F /\ T <= e.
Proof.
  intros Hs Hf Ht Htz. rewrite rangeBounds_zone by done. cbn zeta.
  destruct (safe_range f Hf) as (_ & _ & Hf'). destruct (safe_range t Ht) as (_ & _ & Ht').
  set (f' := f / 1000 * 1000) in *. set (t' := t / 1000 * 1000) in *.
  assert (Hf0 : f' mod 1000 = 0) by (unfold f'; by rewrite Z.mod_mul).
  assert (Ht0 : t' mod 1000 = 0) by (unfold t'; by rewrite Z.mod_mul).
  destruct (safe_range f' Hf') as (Hkf & _ & _). destruct (safe_range t' Ht') as (Hkt & _ & _).
  destruct (instants_bounds f' Hs Hf' Hf0) as (x & l & E1 & H1). destruct (instants_bounds t' Hs Ht' Ht0) as (y & k & E2 & H2).
  destruct (wallClockParam_text Intl tz off Hlaw other f' Hkf) as (s1 & Es1 & _).
  destruct (wallClockParam_text Intl tz off Hlaw other t' Hkt) as (s2 & Es2 & _).
  rewrite Es1, Es2. cbn [mbind option_bind]. cbn [mbind option_bind] in E1, E2. rewrite E1. cbn [mbind option_bind].
  rewrite E2. cbn [mbind option_bind]. intros [= <-]. cbn [b_from b_to b_start b_end].
  rewrite num_max_some, num_min_some. destruct (fold_max_spec l x) as [Hin Hmax].
  destruct (fold_min_spec k y) as [Hmin Hle].
  exists (fold_left Z.max l x), (fold_left Z.min k y).
  assert (Hnear : forall g a, reads off (wall g) a -> Z.abs (a - g) <= DAY + 6 * HOUR).
  { intros g a Hr. pose proof (reads_offset off _ _ Hr). pose proof (wall_near Intl tz off Hlaw g).
    pose proof (off_range Intl tz off Hlaw a). unfold MAX_ZONE_OFFSET_MS, HOUR, DAY in *. lia. }
  apply H1 in Hin. apply H2 in Hmin. pose proof (Hnear _ _ Hin). pose proof (Hnear _ _ Hmin).
  split_and!; [done|done|apply Hin|apply Hmin|..].
  - unfold f', HOUR, DAY in *. dlia.
  - unfold t', HOUR, DAY in *. dlia.
  - intros a e Ha He. split.
    + apply Hmax, H1. by apply (taken_reads f' s1).
    + apply Hle, H2. by apply (taken_reads t' s2).
Qed.

(** The zone is not known: whatever it is. *)
Lemma bounds_unknown f t b : safe f -> safe t -> rangeBounds Intl f t None = Some b ->
  exists F T, b_from b = Some F /\ b_to b = Some T /\ F mod 1000 = 0 /\ T mod 1000 = 0 /\
    Z.abs (F - f) <= 2 * DAY /\ Z.abs (T - t) <= 2 * DAY /\
    forall a e, taken_for (b_start b) a -> taken_for (b_end b) e -> a <= F /\ T <= e.
Proof.
  intros Hf Ht. unfold rangeBounds, clockifyInstant. cbn [mbind option_bind].
  assert (Htext : forall g s a, safe g -> without_millis <$> toISOString (g / 1000 * 1000) = Some s -> taken_for s a ->
    wall a = g / 1000 * 1000).
  { intros g s a Hg E (Ha & Hr & Ea). destruct (wallClockParam_text Intl tz off Hlaw other a Hr) as (s' & Es' & Ps').
    rewrite Es' in Ea. injection Ea as ->.
    assert (Hd : day_ok (g / 1000 * 1000 / DAY)).
    { revert Hg. unfold safe, day_ok. destruct day_bounds as [-> ->]. unfold DAY. intros. dlia. }
    destruct (iso_text other _ Hd) as (u & Eu & Pu). rewrite Eu in E. injection E as <-. rewrite Ps' in Pu.
    injection Pu as ->. by rewrite Z.div_mul. }
  destruct (without_millis <$> toISOString (f / 1000 * 1000)) as [s1|] eqn:E1; [|done]. cbn [mbind option_bind].
  destruct (without_millis <$> toISOString (t / 1000 * 1000)) as [s2|] eqn:E2; [|done]. cbn [mbind option_bind].
  intros [= <-]. cbn [b_from b_to b_start b_end]. do 2 eexists. split_and!; try done.
  1-4: unfold MAX_ZONE_OFFSET_MS, HOUR, DAY; dlia.
  intros a e Ha He. pose proof (reads_offset off _ _ (conj (proj1 Ha) (Htext f s1 a Hf E1 Ha))).
  pose proof (reads_offset off _ _ (conj (proj1 He) (Htext t s2 e Ht E2 He))).
  pose proof (off_range Intl tz off Hlaw a). pose proof (off_range Intl tz off Hlaw e). lia.
Qed.
End Covers.

(** A list that only grows keeps its elements at their place or later. *)
Lemma sublist_later {A} (l k : list A) i x : l `sublist_of` k -> l !! i = Some x -> exists j, (i <= j)%nat /\ k !! j = Some x.
Proof.
  intros H. revert i. induction H as [|y l k H IH|y l k H IH]; intros i Hi; [done| |].
  - destruct i as [|i]; [by exists 0%nat|]. destruct (IH i Hi) as (j & Hj & Hx). exists (S j). split; [lia|done].
  - destruct (IH i Hi) as (j & Hj & Hx). exists (S j). split; [lia|done].
Qed.

Section Pages.
Context (c : ReadContext) (b : RangeBounds) (matched : Z -> list fields_map).

Definition page_of (page : Z) : list fields_map :=
  take (Z.to_nat PAGE_SIZE) (drop (Z.to_nat (PAGE_SIZE * (page - 1))) (matched page)).

(** The provider's pages: a list that answers a page is that part of the
    entries that match at that time.  Any request may fail. *)
Definition pages_answered : Prop := forall page items, 1 <= page ->
  (path ← listPath c; requestJson (transport c) path (page_query b page)) = Ok (Some (OArr items)) ->
  items = map OObj (page_of page).

Definition has_id (m : fields_map) : Prop := is_text (jget (js "id") m) = true.

Lemma entries_on_objects l : Forall has_id l -> entries_on (map OObj l) = map canonicalEntry l.
Proof.
  unfold entries_on. induction 1 as [|m l Hm Hl IH]; [done|]. cbn [map omap list_omap]. unfold has_id in Hm. rewrite Hm.
  f_equal. exact IH.
Qed.

(** A walk of pages over a list that only grows meets everything that was there. *)
Lemma read_pages_all fuel page records result : pages_answered -> (forall p, 1 <= p -> Forall has_id (matched p)) ->
  (forall p, 1 <= p -> matched p `sublist_of` matched (p + 1)) -> 1 <= page ->
  (forall m, m ∈ matched 1 -> canonicalEntry m ∈ records \/
     exists i, matched page !! i = Some m /\ (Z.to_nat (PAGE_SIZE * (page - 1)) <= i)%nat) ->
  (forall x, x ∈ records -> exists p m, 1 <= p /\ m ∈ matched p /\ x = canonicalEntry m) ->
  read_pages fuel c b page records = Ok result -> result.1.2 = true ->
  result.2 = None /\ (forall m, m ∈ matched 1 -> canonicalEntry m ∈ result.1.1) /\
  forall x, x ∈ result.1.1 -> exists p m, 1 <= p /\ m ∈ matched p /\ x = canonicalEntry m.
Proof.
  intros Hp Hid Hgrow. revert page records. induction fuel as [|fuel IH]; intros page records H1 Hall Hfrom; cbn [read_pages]; [by intros [= <-]|].
  pose proof (Hp page) as Ha. set (answer := mbind _ _) in *. clearbody answer.
  destruct answer as [[[| | | |items|]|]|fault]; try (destruct (page =? 1); [done|by intros [= <-]]).
  specialize (Ha items H1 eq_refl). subst items. rewrite entries_on_objects by (by apply Forall_take, Forall_drop, Hid).
  set (n := Z.to_nat (PAGE_SIZE * (page - 1))) in *. set (size := Z.to_nat PAGE_SIZE).
  assert (forall m, m ∈ matched 1 -> canonicalEntry m ∈ records ++ map canonicalEntry (page_of page) \/
    exists i, matched page !! i = Some m /\ (n + size <= i)%nat) as Hnow.
  { intros m Hm. destruct (Hall m Hm) as [Hr|(i & Hi & Hn)]; [left; apply elem_of_app; by left|].
    destruct (decide (n + size <= i)%nat) as [Hge|Hlt]; [right; by exists i|left]. apply elem_of_app. right.
    apply list_elem_of_fmap_2. apply (list_elem_of_lookup_2 _ (i - n)). unfold page_of. fold n size.
    rewrite lookup_take, decide_True by lia. rewrite lookup_drop, <-Hi. f_equal. lia. }
  assert (forall x, x ∈ records ++ map canonicalEntry (page_of page) -> exists p m, 1 <= p /\ m ∈ matched p /\ x = canonicalEntry m) as Hseen.
  { intros x [Hx|Hx]%elem_of_app; [by apply Hfrom|]. apply list_elem_of_fmap in Hx as (m & -> & Hm). exists page, m. split; [done|]. split; [|done].
    unfold page_of in Hm.
    apply list_elem_of_lookup in Hm as [i Hi]. eapply sublist_later in Hi as (j & _ & Hj); [by eapply list_elem_of_lookup_2|].
    etransitivity; [apply sublist_take|apply sublist_drop]. }
  destruct (len (map OObj (page_of page)) <? PAGE_SIZE) eqn:E; breflect.
  - intros [= <-] _. cbn [fst snd]. split; [done|]. split; [|done]. intros m Hm. destruct (Hnow m Hm) as [|(i & Hi & Hn)]; [done|exfalso].
    apply lookup_lt_Some in Hi. unfold len in E. rewrite length_map in E. unfold page_of in E. fold n size in E.
    rewrite length_take, length_drop in E. unfold size, PAGE_SIZE in *. lia.
  - apply IH; [lia| |done]. intros m Hm. destruct (Hnow m Hm) as [|(i & Hi & Hn)]; [by left|right].
    destruct (sublist_later _ _ _ _ (Hgrow page H1) Hi) as (j & Hj & Hjm). exists j. split; [done|].
    unfold n, size, PAGE_SIZE in *. lia.
Qed.
End Pages.

Lemma canonicalEntry_id m : c_id (canonicalEntry m) = text_of (jget (js "id") m).
Proof. unfold canonicalEntry. by destruct (fold_left place _ _). Qed.

Lemma sublist_filter_bool {A} (f : A -> bool) (l k : list A) : l `sublist_of` k -> List.filter f l `sublist_of` List.filter f k.
Proof.
  induction 1 as [|x l k H IH|x l k H IH]; cbn [List.filter]; [done|destruct (f x); [by apply sublist_skip|done]|destruct (f x); [by apply sublist_cons|done]].
Qed.

Lemma jmap_of_keyed_nodup {K V} `{EqDecision K} (l : list (K * V)) : NoDup (jkeys (jmap_of l)).
Proof.
  unfold jmap_of. assert (forall m : list (K * V), NoDup (jkeys m) -> NoDup (jkeys (fold_left (fun m p => jset p.1 p.2 m) l m))) as H; [|by apply H; constructor].
  induction l as [|p l IH]; intros m Hm; [done|]. cbn [fold_left]. by apply IH, jset_nodup.
Qed.

Lemma dedupe_get l k x : jget k (jmap_of (map (fun r => (c_id r, r)) l)) = Some x -> x ∈ l /\ c_id x = k.
Proof.
  rewrite jget_jmap_of. destruct (last _) as [[k' x']|] eqn:E; [|done]. cbn. intros [= ->]. apply last_Some_elem_of in E.
  apply list_elem_of_In, filter_In in E as [E Hk]. cbn in Hk. apply bool_decide_eq_true in Hk. subst k'.
  apply list_elem_of_In, list_elem_of_fmap in E as (y & [= -> ->] & Hy). done.
Qed.

Lemma dedupe_ids l : NoDup (map c_id (dedupe l)).
Proof.
  unfold dedupe. pose proof (jmap_of_keyed_nodup (map (fun r => (c_id r, r)) l)) as Hnd.
  replace (map c_id (jvalues (jmap_of (map (fun r => (c_id r, r)) l)))) with (jkeys (jmap_of (map (fun r => (c_id r, r)) l))); [done|].
  unfold jkeys, jvalues. rewrite map_map. apply map_ext_in. intros [k x] Hin. cbn.
  assert (jget k (jmap_of (map (fun r => (c_id r, r)) l)) = Some x) as H by (apply jget_elem; [done|by apply list_elem_of_In]).
  by apply dedupe_get in H as [_ <-].
Qed.

(** The last of the records with an id is kept. *)
Lemma dedupe_keeps l x : x ∈ l -> (forall y, y ∈ l -> c_id y = c_id x -> y = x) -> x ∈ dedupe l.
Proof.
  intros Hx Huniq. unfold dedupe, jvalues. apply list_elem_of_fmap. set (m := jmap_of _).
  destruct (jget (c_id x) m) as [y|] eqn:E.
  - pose proof (dedupe_get _ _ _ E) as [Hy Hid]. exists (c_id x, y). split; [by rewrite (Huniq y)|]. apply jget_elem; [apply jmap_of_keyed_nodup|done].
  - exfalso. unfold m in E. rewrite jget_jmap_of in E. destruct (last _) as [p|] eqn:El; [done|]. apply last_None in El.
    assert ((c_id x, x) ∈ List.filter (fun p => bool_decide (p.1 = c_id x)) (map (fun r => (c_id r, r)) l)) as Hin; [|rewrite El in Hin; by apply elem_of_nil in Hin].
    apply list_elem_of_In, filter_In. split; [apply in_map_iff; exists x; split; [done|by apply list_elem_of_In]|]. by apply bool_decide_eq_true.
Qed.

(** A read has each entry once, whatever the answers are. *)
Lemma readRange_once Intl c id sent received f t read : readRange Intl c id sent received f t = Ok read ->
  NoDup (map c_id (records (observation read))).
Proof.
  unfold readRange. destruct (or_throw _ (rangeBounds _ _ _ _)) as [b|]; [|done]. cbn [mbind res_bind].
  destruct (or_throw _ (clockifyInstant (b_from b))) as [x|]; [|done]. cbn [mbind res_bind].
  destruct (or_throw _ (clockifyInstant (num_op _ _ _))) as [y|]; [|done]. cbn [mbind res_bind].
  destruct (read_pages _ _ _ _ _) as [[[rs done_] fault]|]; [|done]. cbn [mbind res_bind]. intros [= <-]. apply dedupe_ids.
Qed.

(** C36 (safety). What a read of a range claims to have seen, it has seen.  The
    provider may take the two bounds for any instants whose wall clock shows
    the digits sent (in the zone of the account when it is known, in any zone
    otherwise), answers a page with that part of the entries that start between
    them, and may fail at any page; between two pages it may gain entries, at
    any place of its list, but no entry is removed or changed.  A read that is
    complete then has every entry that was there at its first page and starts
    in the scope it records; and any read, whatever the answers were, has each
    entry once.  When an entry is removed between two pages, which the code
    expects ("can make the next page skip one entry"), a read that is complete
    may have missed one ([Demo.deletion_skips]). *)
Theorem readRange_complete Intl other (c : ReadContext) (tz : jstr) (off start_of : _) (f t a e : Z)
    (id sent received : jstr) (entries : Z -> list fields_map) (b : RangeBounds) (read : RangeRead) :
  zone_law Intl tz off -> c_timeZone c = None \/ (c_timeZone c = Some tz /\ tz <> [] /\ seldom_changes off) ->
  safe f -> safe t -> rangeBounds Intl f t (c_timeZone c) = Some b ->
  taken_for Intl tz (b_start b) a -> taken_for Intl tz (b_end b) e ->
  pages_answered c b (fun page => List.filter (fun m => (a <=? start_of m) && (start_of m <? e)) (entries page)) ->
  (forall p, 1 <= p -> Forall has_id (entries p) /\ entries p `sublist_of` entries (p + 1)) ->
  (forall p q m n, 1 <= p -> 1 <= q -> m ∈ entries p -> n ∈ entries q ->
     text_of (jget (js "id") m) = text_of (jget (js "id") n) -> m = n) ->
  readRange Intl c id sent received f t = Ok read ->
  NoDup (map c_id (records (observation read))) /\
  (complete (o_header (observation read)) = true -> error read = None /\
   exists F T g, scope (o_header (observation read)) = InRange g /\ ms other (r_from g) = Some F /\ ms other (r_to g) = Some T /\
     forall m, m ∈ entries 1 -> F <= start_of m < T -> canonicalEntry m ∈ records (observation read)).
Proof.
  intros Hlaw Hz Hf Ht Eb Ha He Hp Hgrow Huniq Hread. split; [by eapply readRange_once|]. revert Hread.
  set (matched := fun page => List.filter _ (entries page)) in *.
  assert (Hb : exists F T, b_from b = Some F /\ b_to b = Some T /\ F mod 1000 = 0 /\ T mod 1000 = 0 /\
    Z.abs (F - f) <= 2 * DAY /\ Z.abs (T - t) <= 2 * DAY /\ a <= F /\ T <= e).
  { destruct Hz as [Hz|(Hz & Hne & Hs)]; rewrite Hz in Eb.
    - destruct (bounds_unknown Intl other tz off Hlaw f t b Hf Ht Eb) as (F & T & H1 & H2 & H3 & H4 & H5 & H6 & H7).
      exists F, T. destruct (H7 a e Ha He). by split_and!.
    - destruct (bounds_known Intl other tz off Hlaw f t b Hs Hf Ht Hne Eb) as (F & T & H1 & H2 & H3 & H4 & H5 & H6 & H7).
      exists F, T. destruct (H7 a e Ha He). by split_and!. }
  destruct Hb as (F & T & EF & ET & HF & HT & Hff & Htt & HaF & HTe).
  assert (Htext : forall x y, safe y -> Z.abs (x - y) <= 2 * DAY -> x mod 1000 = 0 ->
    exists s, clockifyInstant (Some x) = Some s /\ ms other s = Some x).
  { intros x y Hy Hxy Hx0. assert (Hd : day_ok (x / DAY)).
    { revert Hy. unfold safe, day_ok. destruct day_bounds as [-> ->]. unfold DAY in *. intros. dlia. }
    destruct (iso_text other x Hd) as (s & Es & Ep). exists (without_millis s). unfold clockifyInstant. cbn [mbind option_bind].
    rewrite Es. split; [done|]. unfold ms. rewrite Ep. f_equal. dlia. }
  unfold readRange. rewrite Eb. cbn [or_throw mbind res_bind]. rewrite EF, ET. cbn [num_op].
  destruct (Htext F f Hf Hff HF) as (s1 & Es1 & Ps1).
  assert (exists s2, clockifyInstant (Some (Z.max F T)) = Some s2 /\ ms other s2 = Some (Z.max F T)) as (s2 & Es2 & Ps2).
  { destruct (Z.max_spec F T) as [[_ ->]|[_ ->]]; [by apply (Htext T t)|by apply (Htext F f)]. }
  rewrite Es1, Es2. cbn [or_throw mbind res_bind].
  destruct (read_pages _ c b 1 []) as [[[rs done_] fault]|] eqn:Er; [|done]. cbn [mbind res_bind].
  intros [= <-]. cbn [observation error o_header complete scope records]. intros ->.
  assert (forall p m, m ∈ matched p <-> m ∈ entries p /\ (a <=? start_of m) && (start_of m <? e) = true) as Hmatched.
  { intros p m. unfold matched. by rewrite !list_elem_of_In, filter_In. }
  apply (read_pages_all c b matched _ 1) in Er as (Herr & Hin & Hfrom); cbn [fst snd] in *; [|done|..|done].
  - subst fault. split; [done|]. exists F, (Z.max F T). eexists. split_and!; [done|by cbn|by cbn|]. intros m Hm Hr.
    apply dedupe_keeps.
    + apply Hin, Hmatched. split; [done|]. apply andb_true_iff. lia.
    + intros y (p & n & H1 & [Hn _]%Hmatched & ->)%Hfrom. rewrite !canonicalEntry_id. intros Heq. f_equal. by apply (Huniq p 1 n m).
  - intros p H1. apply Forall_forall. intros m [Hm _]%Hmatched. destruct (Hgrow p H1) as [Hid _]. rewrite Forall_forall in Hid. by apply Hid.
  - intros p H1. apply sublist_filter_bool, Hgrow, H1.
  - done.
  - intros m Hm. right. apply list_elem_of_lookup in Hm as [i Hi]. exists i. split; [done|]. cbn. lia.
  - intros x Hx. by apply elem_of_nil in Hx.
Qed.

(** ** The canonical form and the provider's *)

Lemma place_get rest acc k : NoDup (jkeys rest) ->
  jget k (fold_left place rest acc).1 =
    (if decide (k ∈ ENTRY_FIELDS) then match jget k rest with Some v => Some v | None => jget k acc.1 end else jget k acc.1) /\
  jget k (fold_left place rest acc).2 =
    (if decide (k ∈ ENTRY_FIELDS) then jget k acc.2 else match jget k rest with Some v => Some v | None => jget k acc.2 end).
Proof.
  revert acc. induction rest as [|[x v] rest IH]; intros acc Hnd; cbn [fold_left]; [by destruct (decide _)|].
  unfold jkeys in Hnd. apply NoDup_cons in Hnd as [Hx Hnd]. apply jget_None in Hx. cbn [fst] in Hx.
  destruct (IH (place acc (x, v)) Hnd) as [-> ->]. unfold place. cbn [fst snd].
  cbn [jget]. destruct (decide (k ∈ ENTRY_FIELDS)) as [Hk|Hk], (decide (x ∈ ENTRY_FIELDS)) as [Hf|Hf]; cbn [fst snd];
    rewrite ?jget_jset; repeat case_decide; subst; rewrite ?Hx; done.
Qed.

Lemma place_nodup rest acc : NoDup (jkeys acc.1) -> NoDup (jkeys acc.2) ->
  NoDup (jkeys (fold_left place rest acc).1) /\ NoDup (jkeys (fold_left place rest acc).2).
Proof.
  revert acc. induction rest as [|p rest IH]; intros acc H1 H2; [done|]. cbn [fold_left]. apply IH; unfold place;
    destruct (decide _); cbn [fst snd]; try done; by apply jset_nodup.
Qed.

Lemma fill_get fs fields k : jget k (fold_left fill fs fields) =
  match jget k fields with
  | Some v => Some v
  | None => if decide (k ∈ fs /\ k <> js "extra") then Some ONull else None
  end.
Proof.
  revert fields. induction fs as [|f fs IH]; intros fields; cbn [fold_left].
  { destruct (jget k fields); [done|]. rewrite decide_False; [done|]. by intros [?%elem_of_nil _]. }
  rewrite IH. unfold fill, has_key, jeqb. destruct (jget f fields) as [v|] eqn:Ef; cbn [negb andb].
  - destruct (jget k fields) eqn:Ek; [done|].
    rewrite (decide_ext (k ∈ f :: fs /\ k <> js "extra") (k ∈ fs /\ k <> js "extra")); [done|].
    rewrite elem_of_cons. split; [|tauto]. intros [[->|?] ?]; [congruence|done].
  - destruct (decide (f = js "extra")) as [->|He].
    + rewrite bool_decide_eq_true_2 by done. cbn [negb andb]. destruct (jget k fields); [done|].
      rewrite (decide_ext (k ∈ js "extra" :: fs /\ k <> js "extra") (k ∈ fs /\ k <> js "extra")); [done|].
      rewrite elem_of_cons. tauto.
    + rewrite bool_decide_eq_false_2 by done. cbn [negb andb]. rewrite jget_jset. destruct (decide (k = f)) as [->|Hk].
      * rewrite Ef. rewrite decide_True; [done|]. split; [by left|done].
      * destruct (jget k fields); [done|].
        rewrite (decide_ext (k ∈ f :: fs /\ k <> js "extra") (k ∈ fs /\ k <> js "extra")); [done|].
        rewrite elem_of_cons. tauto.
Qed.

Lemma fill_nodup fs fields : NoDup (jkeys fields) -> NoDup (jkeys (fold_left fill fs fields)).
Proof.
  revert fields. induction fs as [|f fs IH]; intros fields H; [done|]. cbn [fold_left]. apply IH. unfold fill.
  destruct (_ && _); [by apply jset_nodup|done].
Qed.

Lemma jdelete_get k k' (m : fields_map) : NoDup (jkeys m) -> jget k (jdelete k' m) = if decide (k = k') then None else jget k m.
Proof. apply jget_jdelete. Qed.

(** The fields and the extra properties of a canonical entry. *)
Lemma canonical_get raw ti : NoDup (jkeys raw) -> jget (js "timeInterval") raw = Some (OObj ti) -> NoDup (jkeys ti) ->
  let fields := c_fields (canonicalEntry raw) in
  let rest k := if decide (k = js "id" \/ k = js "timeInterval") then None else jget k raw in
  exists extra, NoDup (jkeys fields) /\ NoDup (jkeys extra) /\ jget (js "extra") fields = Some (OObj extra) /\
    (forall k, k <> js "extra" -> jget k fields =
       if decide (k ∈ ENTRY_FIELDS) then
         match rest k with
         | Some v => Some v
         | None => Some (if decide (k = js "start" \/ k = js "end") then text_or_null (jget k ti) else ONull)
         end
       else None) /\
    (forall k, k <> js "timeInterval" -> jget k extra = if decide (k ∈ ENTRY_FIELDS) then None else rest k) /\
    NoDup (jkeys (object_entries (jget (js "timeInterval") extra))) /\
    (forall k, jget k (object_entries (jget (js "timeInterval") extra)) =
       if decide (k = js "start" \/ k = js "end") then None else jget k ti).
Proof.
  intros Hnd Hti Hndt fields rest. unfold fields, canonicalEntry. rewrite Hti. cbn [own_entries].
  set (r := jdelete (js "timeInterval") (jdelete (js "id") raw)).
  assert (Hr : NoDup (jkeys r)) by by do 2 apply jdelete_nodup.
  assert (Hrest : forall k, jget k r = rest k).
  { intros k. unfold r, rest. rewrite !jdelete_get by (try apply jdelete_nodup; done).
    repeat case_decide; try done; exfalso; tauto. }
  clearbody r. set (f0 := [(js "start", _); (js "end", _)]).
  assert (H0 : NoDup (jkeys f0)) by by_decide.
  destruct (fold_left place r (f0, [])) as [f1 e1] eqn:E. cbn [c_fields].
  destruct (place_nodup r (f0, []) H0 (NoDup_nil_2)) as [Hf1 He1]. rewrite E in Hf1, He1. cbn [fst snd] in Hf1, He1.
  pose proof (fun k => place_get r (f0, []) k Hr) as Hp. rewrite E in Hp. cbn [fst snd] in Hp.
  set (ie := jdelete (js "end") (jdelete (js "start") ti)).
  assert (Hie : forall k, jget k ie = if decide (k = js "start" \/ k = js "end") then None else jget k ti).
  { intros k. unfold ie. rewrite !jdelete_get by (try apply jdelete_nodup; done).
    repeat case_decide; try done; exfalso; tauto. }
  set (ex := match ie with [] => e1 | _ => jset (js "timeInterval") (OObj ie) e1 end).
  assert (Hex : forall k, jget k ex = if decide (k = js "timeInterval") then (match ie with [] => None | _ => Some (OObj ie) end) else jget k e1).
  { intros k. unfold ex. destruct ie; [|apply jget_jset]. case_decide as Hk; [|done]. subst k.
    rewrite (proj2 (Hp _)). rewrite decide_False by by_decide. rewrite Hrest. unfold rest. rewrite decide_True by by right. done. }
  exists ex. split_and!.
  - apply jset_nodup, fill_nodup, Hf1.
  - unfold ex. destruct ie; [done|by apply jset_nodup].
  - rewrite jget_jset. by rewrite decide_True.
  - intros k Hk. rewrite jget_jset, decide_False by done. rewrite fill_get, (proj1 (Hp k)), Hrest.
    assert (Hf0 : jget k f0 = if decide (k = js "start" \/ k = js "end") then Some (text_or_null (jget k ti)) else None).
    { unfold f0. cbn [jget]. repeat case_decide; subst; try done; exfalso; tauto. }
    rewrite Hf0. destruct (decide (k ∈ ENTRY_FIELDS)) as [Hin|Hin].
    + destruct (rest k); [done|]. case_decide; [done|]. by rewrite decide_True.
    + rewrite decide_False; [|intros [->| ->]; apply Hin; by_decide]. rewrite decide_False; [done|]. by intros [? _].
  - intros k Hk. rewrite Hex, decide_False by done. rewrite (proj2 (Hp k)), Hrest. by destruct (decide _), (rest k).
  - rewrite Hex, decide_True by done. assert (Hnie : NoDup (jkeys ie)) by by do 2 apply jdelete_nodup.
    by destruct ie; [constructor|].
  - intros k. rewrite <-Hie, Hex, decide_True by done. destruct ie; by cbn.
Qed.

Lemma spread_nodup a b : NoDup (jkeys a) -> NoDup (jkeys (spread a b)).
Proof.
  unfold spread. revert a. induction b as [|p b IH]; intros a H; [done|]. cbn [fold_left]. by apply IH, jset_nodup.
Qed.

Lemma text_or_null_twice v : text_or_null (Some (text_or_null v)) = text_or_null v.
Proof. by destruct v as [[]|]. Qed.

Section Back.
Context (raw ti : fields_map) (id : jstr).
Context (Hnd : NoDup (jkeys raw)) (Hid : jget (js "id") raw = Some (OStr id)).
Context (Hti : jget (js "timeInterval") raw = Some (OObj ti)) (Hndt : NoDup (jkeys ti)).
Context (Hown : forall k, k ∈ [js "start"; js "end"; js "extra"] -> jget k raw = None).

Lemma back_get collection seen absent gone :
  let back := rawFromCanonical (mkRecord (c_id (canonicalEntry raw)) collection (c_fields (canonicalEntry raw)) seen absent gone) in
  NoDup (jkeys back) /\
  (forall k, k <> js "timeInterval" -> jget k back =
     match jget k raw with
     | Some v => Some v
     | None => if decide (k ∈ ENTRY_FIELDS /\ k ∉ [js "start"; js "end"; js "extra"]) then Some ONull else None
     end) /\
  (exists ti', NoDup (jkeys ti') /\ jget (js "timeInterval") back = Some (OObj ti') /\ forall k, jget k ti' =
     if decide (k = js "start" \/ k = js "end") then Some (text_or_null (jget k ti)) else jget k ti).
Proof.
  intros back. pose proof (canonicalEntry_id raw) as Eid. rewrite Hid in Eid. cbn [text_of] in Eid.
  destruct (canonical_get raw ti Hnd Hti Hndt) as (extra & Hf & He & Eex & Hfields & Hextra & Hni & Hint).
  set (fields := c_fields (canonicalEntry raw)) in *.
  assert (Hrest : forall k, jget k (jdelete (js "extra") (jdelete (js "end") (jdelete (js "start") fields))) =
    if decide (k ∈ [js "start"; js "end"; js "extra"]) then None else jget k fields).
  { intros k. rewrite !jdelete_get by (repeat apply jdelete_nodup; done). rewrite (decide_ext (k ∈ _) (k = js "start" \/ k = js "end" \/ k = js "extra")).
    - repeat case_decide; try done; exfalso; tauto.
    - rewrite !elem_of_cons, elem_of_nil. tauto. }
  assert (Hse : forall k, k = js "start" \/ k = js "end" -> jget k fields = Some (text_or_null (jget k ti))).
  { intros k Hk. rewrite Hfields by (intros ->; by destruct Hk).
    rewrite decide_True by (destruct Hk as [->| ->]; by_decide). rewrite decide_False by (destruct Hk as [->| ->]; by_decide).
    rewrite Hown by (rewrite !elem_of_cons; tauto). by rewrite decide_True. }
  unfold back, rawFromCanonical. cbn [m_fields m_id]. rewrite Eid, Eex. cbn [entries_of]. split_and!.
  - do 2 apply spread_nodup. by apply jdelete_nodup.
  - intros k Hk. rewrite spread_get by by_decide. cbn [jget]. rewrite (decide_False (P := k = js "timeInterval")) by done.
    destruct (decide (k = js "id")) as [->|Hkid]; [by rewrite Hid|].
    rewrite spread_get by by repeat apply jdelete_nodup. rewrite Hrest, jdelete_get by done. rewrite (decide_False (P := k = js "timeInterval")) by done.
    rewrite Hextra by done. rewrite (decide_False (P := k = js "id" \/ k = js "timeInterval")) by (intros [|]; done).
    destruct (decide (k ∈ [js "start"; js "end"; js "extra"])) as [Hs|Hs].
    + rewrite Hown by done. rewrite decide_True; [by rewrite decide_False by tauto|].
      rewrite !elem_of_cons, elem_of_nil in Hs. destruct Hs as [->|[->|[->|[]]]]; by_decide.
    + rewrite Hfields by (intros ->; apply Hs; by_decide). rewrite (decide_False (P := k = js "id" \/ k = js "timeInterval")) by (intros [|]; done).
      destruct (decide (k ∈ ENTRY_FIELDS)) as [Hin|Hin].
      * destruct (jget k raw); [done|]. rewrite decide_False; [by rewrite decide_True|].
        rewrite !elem_of_cons in Hs. tauto.
      * destruct (jget k raw); [done|]. by rewrite decide_False by tauto.
  - rewrite spread_get by by_decide. cbn [jget]. rewrite decide_False by by_decide. rewrite decide_True by done.
    eexists. split; [|split; [done|]]; [by apply spread_nodup|]. intros k.
    rewrite spread_get by by_decide. cbn [jget]. rewrite !Hse by tauto.
    destruct (decide (k = js "start")) as [->|H1]; [by rewrite decide_True, text_or_null_twice by tauto|].
    destruct (decide (k = js "end")) as [->|H2]; [by rewrite decide_True, text_or_null_twice by tauto|].
    by rewrite Hint, !decide_False by tauto.
Qed.
End Back.

(** An entry as the provider sent it comes back from its
    canonical form: every property it had, the uninterpreted ones included,
    managed properties it did not have as [null], and its interval with the
    same properties; and the entry that comes back has the same canonical form.
    (Of the top level, [start], [end] and [extra] are names the form takes for
    itself.) *)
Theorem entry_roundtrip (raw ti : fields_map) (id collection seen : jstr) (absent gone : option jstr) :
  NoDup (jkeys raw) -> jget (js "id") raw = Some (OStr id) -> jget (js "timeInterval") raw = Some (OObj ti) ->
  NoDup (jkeys ti) -> (forall k, k ∈ [js "start"; js "end"; js "extra"] -> jget k raw = None) ->
  let entry := canonicalEntry raw in
  let back := rawFromCanonical (mkRecord (c_id entry) collection (c_fields entry) seen absent gone) in
  (forall k, k <> js "timeInterval" -> jget k back =
     match jget k raw with
     | Some v => Some v
     | None => if decide (k ∈ ENTRY_FIELDS /\ k ∉ [js "start"; js "end"; js "extra"]) then Some ONull else None
     end) /\
  (exists ti', jget (js "timeInterval") back = Some (OObj ti') /\ forall k, jget k ti' =
     if decide (k = js "start" \/ k = js "end") then Some (text_or_null (jget k ti)) else jget k ti) /\
  c_id (canonicalEntry back) = c_id entry /\
  forall k, k <> js "extra" -> jget k (c_fields (canonicalEntry back)) = jget k (c_fields entry).
Proof.
  intros Hnd Hid Hti Hndt Hown entry back.
  destruct (back_get raw ti id Hnd Hid Hti Hndt Hown collection seen absent gone) as (Hndb & Hback & ti' & Hndt' & Eti & Hti').
  fold entry in Hndb, Hback, Eti. fold back in Hndb, Hback, Eti. split_and!; [done|by exists ti'|..].
  - rewrite !canonicalEntry_id, Hback by by_decide. unfold entry. by rewrite canonicalEntry_id, Hid.
  - intros k Hk.
    destruct (canonical_get raw ti Hnd Hti Hndt) as (_ & _ & _ & _ & -> & _); [|done].
    destruct (canonical_get back ti' Hndb Eti Hndt') as (_ & _ & _ & _ & -> & _); [|done].
    destruct (decide (k ∈ ENTRY_FIELDS)) as [Hin|]; [|done].
    assert (Hno : ~ (k = js "id" \/ k = js "timeInterval")).
    { intros [->| ->]; revert Hin; apply (bool_decide_unpack (_ ∉ _)); vm_compute; exact I. }
    rewrite !(decide_False (P := k = js "id" \/ k = js "timeInterval")) by done. rewrite Hback by tauto.
    destruct (jget k raw) as [v|] eqn:Ek; [done|]. rewrite Hti'.
    destruct (decide (k = js "start" \/ k = js "end")) as [Hse|Hse].
    + rewrite decide_False; [by rewrite text_or_null_twice|]. rewrite !elem_of_cons. tauto.
    + rewrite decide_True; [done|]. split; [done|]. rewrite !elem_of_cons, elem_of_nil. tauto.
Qed.

Module Demo.
Import Zones.Demo.

Definition account : Account := mkAccount (js "ws") (js "u1").
Definition raw_entry (id start end_ : string) : fields_map :=
  [(js "id", OStr (js id)); (js "description", OStr (js "work")); (js "colour", OStr (js "red"));
   (js "workspaceId", OStr (js "ws")); (js "userId", OStr (js "u1"));
   (js "timeInterval", OObj [(js "start", OStr (js start)); (js "end", OStr (js end_)); (js "duration", OStr (js "PT1H"))])].

(** A property called [extra] does not come back. *)
Lemma extra_lost :
  jget (js "extra") (rawFromCanonical
    (mkRecord (js "e1") TIME_ENTRY (c_fields (canonicalEntry (raw_entry "e1" "s" "e" ++ [(js "extra", OStr (js "kept")) ]))) [] None None)) = None.
Proof. by vm_compute. Qed.

Lemma entry_roundtrip_witness :
  let raw := raw_entry "e1" "2026-09-23T09:00:00Z" "2026-09-23T10:00:00Z" in
  let back := rawFromCanonical (mkRecord (js "e1") TIME_ENTRY (c_fields (canonicalEntry raw)) [] None None) in
  jget (js "colour") back = Some (OStr (js "red")).
Proof.
  intros raw back.
  destruct (entry_roundtrip raw (entries_of (jget (js "timeInterval") raw)) (js "e1") TIME_ENTRY [] None None) as [H _];
    [by_decide|by vm_compute|by vm_compute|by_decide| |by rewrite H by by_decide].
  intros k Hk. rewrite !elem_of_cons, elem_of_nil in Hk. by destruct Hk as [->|[->|[->|[]]]]; vm_compute.
Defined.

(** Three days of starts were read; an entry of two days is running, and one
    may be gone. *)
Definition record (id start end_ : string) (absent : option jstr) : jstr * MirrorRecord :=
  (recordKey TIME_ENTRY (js id),
   mkRecord (js id) TIME_ENTRY (c_fields (canonicalEntry (raw_entry id start end_))) (js "2026-09-20") absent None).
Definition mirror : Mirror := mkMirror
  [record "e1" "2026-09-11T00:00:00Z" "2026-09-13T00:00:00Z" None;
   record "e2" "2026-09-14T06:00:00Z" "2026-09-14T08:00:00Z" (Some (js "2026-09-20"))]
  [mkSegment (account_key account) (js "2026-09-10") (js "2026-09-12") (js "2026-09-20");
   mkSegment (account_key account) (js "2026-09-12") (js "2026-09-15") (js "2026-09-21")].
Definition window : Interval := mkInterval (ms "2026-09-10") (ms "2026-09-15").

Example unknown_window : unknownIntervals none mirror account window (ms "2026-09-15") =
  [mkInterval (ms "2026-09-10") (ms "2026-09-12"); mkInterval (ms "2026-09-14T06:00:00Z") (ms "2026-09-14T08:00:00Z")].
Proof. by vm_compute. Qed.

Lemma unknown_exact_witness : covered none mirror account (ms "2026-09-11T12:00:00Z").
Proof.
  destruct (unknown_exact none mirror account window (ms "2026-09-15") (ms "2026-09-13")) as (_ & _ & H & _).
  - intros s Hs _. unfold mirror in Hs. cbn [coverage] in Hs. rewrite !elem_of_cons, elem_of_nil in Hs.
    destruct Hs as [->|[->|[]]]; split; by eexists.
  - apply (H ltac:(by_decide)) with (end_ := ms "2026-09-13T01:00:00Z"); [|by_decide..].
    rewrite unknown_window. intros (i & Hi & Ht). rewrite !elem_of_cons, elem_of_nil in Hi.
    destruct Hi as [->|[->|[]]]; revert Ht; apply (bool_decide_unpack (~ _)); vm_compute; exact I.
Defined.

(** A provider of two entries, asked for a week. *)
Definition entries : list fields_map :=
  [raw_entry "e1" "2026-09-23T09:00:00Z" "2026-09-23T10:00:00Z"; raw_entry "e2" "2026-09-30T09:00:00Z" "2026-09-30T10:00:00Z"].
Definition start_of (m : fields_map) : Z :=
  default 0 (match omember (js "start") (jget (js "timeInterval") m) with Some (OStr s) => Date_parse none s | _ => None end).
Definition week_from : Z := ms "2026-09-21T00:00:00Z".
Definition week_to : Z := ms "2026-09-28T00:00:00Z".
Definition matched : list fields_map := List.filter (fun m => (week_from <=? start_of m) && (start_of m <? week_to)) entries.
Definition provider : ProxyTransport := fun path query =>
  Ok (200, Some (OArr (if jeqb (default [] (jget (js "page") query)) (js "1") then map OObj matched else []))).
Definition context : ReadContext := mkContext provider account (Some TZ) (js "laptop").
Definition bounds : RangeBounds :=
  mkBounds (js "2026-09-21T02:00:00Z") (js "2026-09-28T02:00:00Z") (Some week_from) (Some week_to).

#[export] Instance has_id_dec m : Decision (has_id m).
Proof. unfold has_id. apply _. Defined.

Lemma provider_pages : pages_answered context bounds (fun _ => matched).
Proof.
  intros page items Hp. destruct (listPath context) as [path|] eqn:E; [|by vm_compute in E]. clear E.
  cbn [mbind res_bind]. unfold requestJson, context, transport, provider. cbn [mbind res_bind].
  change (jget (js "page") (page_query bounds page)) with (Some (dec_signed page)). cbn [default].
  unfold jeqb. destruct (Z.eq_dec page 1) as [->|Hne].
  - rewrite bool_decide_eq_true_2 by by vm_compute. intros [= <-]. by vm_compute.
  - rewrite bool_decide_eq_false_2.
    + intros [= <-]. unfold page_of. rewrite drop_ge; [done|].
      assert (Hl : length matched = 1%nat) by by vm_compute. rewrite Hl. unfold PAGE_SIZE. lia.
    + unfold dec_signed. rewrite (proj2 (Z.ltb_ge page 0)) by lia. change (js "1") with (dec 1).
      intros Heq. apply dec_inj in Heq; lia.
Qed.

Lemma in_days n : (FIRST_DAY + 9 <=? n / DAY) && (n / DAY <? LAST_DAY - 9) = true -> safe n.
Proof. intros H. unfold safe. breflect. lia. Qed.

Lemma safe_key n : safe n -> key_range n.
Proof. unfold safe, key_range. lia. Qed.

Lemma readRange_complete_witness : exists read,
  readRange Intl context (js "o1") (js "2026-09-28T08:00:00Z") (js "2026-09-28T08:00:01Z") week_from week_to = Ok read /\
  canonicalEntry (raw_entry "e1" "2026-09-23T09:00:00Z" "2026-09-23T10:00:00Z") ∈ records (observation read).
Proof.
  destruct (readRange Intl context _ _ _ week_from week_to) as [read|] eqn:E; [|by vm_compute in E]. exists read.
  split; [done|].
  assert (Hs : safe week_from /\ safe week_to) by (split; apply in_days; by vm_compute). destruct Hs as [Hf Ht].
  assert (Hc : complete (o_header (observation read)) = true).
  { vm_compute in E. injection E as <-. by vm_compute. }
  assert (Hz : c_timeZone context = None \/ (c_timeZone context = Some TZ /\ TZ <> [] /\ seldom_changes amsterdam)).
  { right. split; [done|]. split; [done|apply amsterdam_settled]. }
  assert (Eb : rangeBounds Intl week_from week_to (c_timeZone context) = Some bounds) by by vm_compute.
  assert (Ha : taken_for Intl TZ (b_start bounds) week_from) by (split; [by vm_compute|split; [by apply safe_key|by vm_compute]]).
  assert (He : taken_for Intl TZ (b_end bounds) week_to) by (split; [by vm_compute|split; [by apply safe_key|by vm_compute]]).
  assert (Hids : forall p, 1 <= p -> Forall has_id entries /\ entries `sublist_of` entries) by (intros; split; [by_decide|done]).
  assert (Hnd : forall p q m n, 1 <= p -> 1 <= q -> m ∈ entries -> n ∈ entries -> text_of (jget (js "id") m) = text_of (jget (js "id") n) -> m = n).
  { intros _ _ m n _ _ Hm Hn. unfold entries in Hm, Hn. rewrite !elem_of_cons, elem_of_nil in Hm, Hn.
    destruct Hm as [->|[->|[]]], Hn as [->|[->|[]]]; vm_compute; congruence. }
  assert (Es : scope (o_header (observation read)) =
    InRange (rangeScope account (js "2026-09-21T00:00:00Z") (js "2026-09-28T00:00:00Z"))).
  { vm_compute in E. injection E as <-. by vm_compute. }
  destruct (readRange_complete Intl none context TZ amsterdam start_of week_from week_to week_from week_to
    (js "o1") (js "2026-09-28T08:00:00Z") (js "2026-09-28T08:00:01Z") (fun _ => entries) bounds read amsterdam_law
    Hz Hf Ht Eb Ha He provider_pages Hids Hnd E) as [_ Hall].
  destruct (Hall Hc) as (_ & F & T & g & Hg & EF & ET & H).
  rewrite Es in Hg. injection Hg as <-. cbn [r_from r_to rangeScope] in EF, ET. vm_compute in EF, ET.
  injection EF as <-. injection ET as <-.
  apply H; [by left|]. by_decide.
Defined.

(** Of 51 entries, newest first, the newest is removed between the two pages: the
    read is complete, and does not have the oldest. *)
Definition many : list fields_map :=
  map (fun n => raw_entry (Stdlib.Strings.String.string_of_list_ascii (map Stdlib.Strings.Ascii.ascii_of_nat [101; 48 + n / 10; 48 + n mod 10]%nat)) "2026-09-23T09:00:00Z" "2026-09-23T10:00:00Z") (seq 0 51).
Definition shrinking : ProxyTransport := fun path query =>
  Ok (200, Some (OArr (map OObj (if jeqb (default [] (jget (js "page") query)) (js "1") then take 50 many else drop 50 (tail many))))).
Example deletion_skips : exists read,
  readRange Intl (mkContext shrinking account (Some TZ) (js "laptop")) (js "o1") (js "2026-09-28T08:00:00Z") (js "2026-09-28T08:00:01Z") week_from week_to = Ok read
  /\ complete (o_header (observation read)) = true /\ length (records (observation read)) = 50%nat
  /\ js "e50" ∉ map c_id (records (observation read)).
Proof.
  destruct (readRange Intl _ _ _ _ week_from week_to) as [read|] eqn:E; [|by vm_compute in E]. exists read. split; [done|].
  vm_compute in E. injection E as <-. split; [reflexivity|]. split; [reflexivity|]. by_decide.
Qed.
End Demo.
