(* ===== verification/Timeline.v ===== *)
(** * The timeline

    Models [src/integrations/timesheets/devonian/clockify/lens/claims.ts] and
    [app/timeline/sweep.ts]: what each time entry claims, and the sweep over
    the claims and the coverage that gives every local day its segments.

    A claim's instants are the provider's texts.  The keys of [BADGES] are the
    three it lists (a type named like a property of [Object.prototype] does
    not occur).  The loop over the days has fuel; running out of it is told
    apart from an exception. *)
From S2P Require Import Prelude Text Collections JsDate Json Observations Zones Clockify.
Local Open Scope Z_scope.

(** ** claims.ts *)

#[warnings="-register-all"]
(* src: integrations/timesheets/devonian/clockify/lens/claims.ts 27-28 NotWorkedBadge *)
Inductive NotWorkedBadge := break | holiday | timeOff.

#[warnings="-register-all"]
(* src: integrations/timesheets/devonian/clockify/lens/claims.ts 30-32 TimeLabel *)
Inductive TimeLabel :=
| worked (projectId : option jstr)
| didNotWork (badge : option NotWorkedBadge).

(* src: integrations/timesheets/devonian/clockify/lens/claims.ts 34-46 TimeClaim *)
Record TimeClaim := mkClaim {
  entryId : jstr;
  cl_from : jstr;
  cl_to : jstr;
  label : TimeLabel;
  open : bool;
  locked : bool;
  customFields : bool;
}.

#[export] Instance badge_eq_dec : EqDecision NotWorkedBadge.
Proof. solve_decision. Defined.
#[export] Instance label_eq_dec : EqDecision TimeLabel.
Proof. solve_decision. Defined.

(* src: integrations/timesheets/devonian/clockify/lens/claims.ts 54-58 BADGES *)
Definition BADGES : list (jstr * NotWorkedBadge) :=
  [(js "BREAK", break); (js "HOLIDAY", holiday); (js "TIME_OFF", timeOff)].

Definition badge_text (b : NotWorkedBadge) : jstr :=
  match b with break => js "break" | holiday => js "holiday" | timeOff => js "timeOff" end.

Section Claims.
Context (other : jstr -> option Z).

(* src: integrations/timesheets/devonian/clockify/lens/claims.ts 60-61 at *)
Definition instant (value : option Json) : option Z := match value with Some (OStr s) => Date_parse other s | _ => None end.

(** The claim of an entry, if it makes one; nothing when [toISOString] throws. *)
(* src: integrations/timesheets/devonian/clockify/lens/claims.ts 63-95 clockifyClaim *)
Definition clockifyClaim (entry : MirrorRecord) (now : Z) : option (option TimeClaim) :=
  let field k := jget (js k) (m_fields entry) in
  let from := instant (field "start"%string) in
  let open := match field "end"%string with None | Some ONull => true | _ => false end in
  let to := if open then Some now else instant (field "end"%string) in
  if negb (num_ltb from to) then Some None
  else
    end_ ← (if open then without_millis <$> toISOString now else Some (text_of (field "end"%string)));
    let badge := match field "type"%string with Some (OStr t) => jget t BADGES | _ => None end in
    Some (Some (mkClaim (m_id entry) (text_of (field "start"%string)) end_
      (match badge with
       | Some _ => didNotWork badge
       | None => worked (match field "projectId"%string with Some (OStr ((_ :: _) as p)) => Some p | _ => None end)
       end)
      open
      (match field "isLocked"%string with Some (OBool b) => b | _ => false end)
      (match field "customFieldValues"%string with Some (OArr (_ :: _)) => true | _ => false end))).

(** ** sweep.ts: the map stage *)

(* src: integrations/timesheets/app/timeline/sweep.ts 54-57 mine *)
Definition mine (record : MirrorRecord) (settings : Account) : bool :=
  let same k v := match jget (js k) (m_fields record) with
                | None | Some ONull => true
                | Some (OStr s) => jeqb s v
                | _ => false
                end in
  same "workspaceId"%string (workspaceId settings) && same "userId"%string (userId settings).

(** [Date.parse(a.from) - Date.parse(b.from) || (by id)]. *)
(* src: integrations/timesheets/app/timeline/sweep.ts 73-77 claimsOf ! *)
Definition compare_claims (a b : TimeClaim) : Z :=
  let d := default 0 (num_sub (Date_parse other (cl_from a)) (Date_parse other (cl_from b))) in
  if d =? 0 then jcmp (entryId a) (entryId b) else d.

(* src: integrations/timesheets/app/timeline/sweep.ts 70-70 claimsOf ! *)
Definition claimant (settings : Account) (r : MirrorRecord) : bool :=
  negb (is_set (deletedAt r)) && negb (is_set (absentSince r)) && mine r settings.

(* src: integrations/timesheets/app/timeline/sweep.ts 59-78 claimsOf *)
Definition claimsOf (mirror : Mirror) (settings : Account) (now : Z) : option (list TimeClaim) :=
  claims ← mapM (fun r => clockifyClaim r now) (List.filter (claimant settings) (timeEntries mirror));
  Some (sort_by compare_claims (omap id claims)).
End Claims.

(* src: integrations/timesheets/app/timeline/sweep.ts 80-83 labelKey *)
Definition labelKey (l : TimeLabel) : jstr :=
  match l with
  | worked None => js "01"
  | worked (Some p) => js "00" ++ p
  | didNotWork badge => js "1" ++ match badge with Some b => badge_text b | None => [] end
  end.

(* src: integrations/timesheets/app/timeline/sweep.ts 85-86 byLabel *)
Definition byLabel (a b : TimeLabel) : Z := jcmp (labelKey a) (labelKey b).

(** ** What one span is *)

#[warnings="-register-all"]
(* src: integrations/timesheets/app/timeline/types.ts 25-34 SegmentState *)
Inductive SegmentState := Worked | DidNotWork | Unknown | InConflict.

#[warnings="-register-all"]
(* src: integrations/timesheets/app/timeline/types.ts 36-42 ConflictKind *)
Inductive ConflictKind := whichProject | whetherWorked.

#[warnings="-register-all"]
(* src: integrations/timesheets/app/timeline/types.ts 44-57 ReadOnlyReason *)
Inductive ReadOnlyReason := Running | Locked | EntryType | CustomFields | ForceProjects | NotLoaded.

#[export] Instance state_eq_dec : EqDecision SegmentState.
Proof. solve_decision. Defined.
#[export] Instance conflict_kind_eq_dec : EqDecision ConflictKind.
Proof. solve_decision. Defined.
#[export] Instance reason_eq_dec : EqDecision ReadOnlyReason.
Proof. solve_decision. Defined.

Definition reason_text (r : ReadOnlyReason) : jstr :=
  match r with
  | Running => js "running" | Locked => js "locked" | EntryType => js "entryType"
  | CustomFields => js "customFields" | ForceProjects => js "forceProjects" | NotLoaded => js "unknown"
  end.
Definition state_text (s : SegmentState) : jstr :=
  match s with Worked => js "worked" | DidNotWork => js "didNotWork" | Unknown => js "unknown" | InConflict => js "conflict" end.
Definition conflict_kind_text (k : ConflictKind) : jstr :=
  match k with whichProject => js "whichProject" | whetherWorked => js "whetherWorked" end.

(** A segment without its span. *)
(* src: integrations/timesheets/app/timeline/sweep.ts 52-52 Shape *)
Record Shape := mkShape {
  state : SegmentState;
  sh_label : option TimeLabel;
  duplicate : bool;
  conflict : option (ConflictKind * list TimeLabel);
  entryIds : list jstr;
  readOnly : list ReadOnlyReason;
  sh_open : bool;
}.

(* src: integrations/timesheets/app/timeline/types.ts 59-73 Segment *)
Record Segment := mkSegment { seg_from : Z; seg_to : Z; shape : Shape }.

Definition is_worked (l : TimeLabel) : bool := match l with worked _ => true | didNotWork _ => false end.

(** What one active claim gives the reasons not to edit. *)
(* src: integrations/timesheets/app/timeline/sweep.ts 111-120 classify ! *)
Definition reasons_of (forceProjects : bool) (c : TimeClaim) : list ReadOnlyReason :=
  (if open c then [Running] else []) ++ (if locked c then [Locked] else []) ++
  (if is_worked (label c) then [] else [EntryType]) ++ (if customFields c then [CustomFields] else []) ++
  (if forceProjects && bool_decide (label c = worked None) then [ForceProjects] else []).

(* src: integrations/timesheets/app/timeline/sweep.ts 88-148 classify *)
Definition classify (active : list TimeClaim) (unknown forceProjects : bool) : Shape :=
  if unknown then mkShape Unknown None false None [] [NotLoaded] false
  else match active with
  | [] => mkShape DidNotWork (Some (didNotWork None)) false None [] [] false
  | _ =>
      let entryIds := sort_by jcmp (map entryId active) in
      let labels := sort_by byLabel (jvalues (jmap_of (map (fun c => (labelKey (label c), label c)) active))) in
      let worked := List.filter is_worked labels in
      let reasons := sort_by (fun a b => jcmp (reason_text a) (reason_text b))
                       (first_seen (flat_map (reasons_of forceProjects) active)) in
      let opened := existsb open active in
      match worked with
      | [] => mkShape DidNotWork (head labels) false None entryIds reasons opened
      | _ =>
          if (length labels =? 1)%nat
          then mkShape Worked (head labels) (1 <? length active)%nat None entryIds reasons opened
          else mkShape InConflict None false
                 (Some (if (length worked <? length labels)%nat then whetherWorked else whichProject, labels))
                 entryIds reasons opened
      end
  end.

(** ** Merging spans *)

Definition label_json (l : TimeLabel) : Json :=
  match l with
  | worked p => OObj [(js "kind", OStr (js "worked")); (js "projectId", match p with Some p => OStr p | None => ONull end)]
  | didNotWork b => OObj ((js "kind", OStr (js "didNotWork")) ::
      match b with Some b => [(js "badge", OStr (badge_text b))] | None => [] end)
  end.

(** The properties of a segment besides its span, in the order they are written. *)
Definition shape_entries (s : Shape) : fields_map :=
  [(js "state", OStr (state_text (state s)))] ++
  match sh_label s with Some l => [(js "label", label_json l)] | None => [] end ++
  (if duplicate s then [(js "duplicate", OBool true)] else []) ++
  match conflict s with
  | Some (k, ls) => [(js "conflict", OObj [(js "kind", OStr (conflict_kind_text k)); (js "candidates", OArr (map label_json ls))])]
  | None => []
  end ++
  [(js "entryIds", OArr (map OStr (entryIds s))); (js "readOnly", OArr (map (fun r => OStr (reason_text r)) (readOnly s)))] ++
  (if sh_open s then [(js "open", OBool true)] else []).

(* src: integrations/timesheets/app/timeline/sweep.ts 150-150 shapeKey *)
Definition shapeKey (s : Segment) : jstr :=
  json_text (OObj ([(js "from", ONum 0); (js "to", ONum 0)] ++ shape_entries (shape s))).

(* src: integrations/timesheets/app/timeline/sweep.ts 156-162 merge ! *)
Definition merge_step (out : list Segment) (s : Segment) : list Segment :=
  match last out with
  | Some l =>
      if (seg_to l =? seg_from s) && jeqb (shapeKey l) (shapeKey s)
      then take (length out - 1) out ++ [mkSegment (seg_from l) (seg_to s) (shape l)]
      else out ++ [s]
  | None => out ++ [s]
  end.
(* src: integrations/timesheets/app/timeline/sweep.ts 152-165 merge *)
Definition merge (segments : list Segment) : list Segment := fold_left merge_step segments [].

(** ** The sweep *)

Inductive Stop := Throws | OutOfFuel.

Definition or_throws {A} (v : option A) : res Stop A := match v with Some v => Ok v | None => Err Throws end.

(* src: integrations/timesheets/app/timeline/sweep.ts 169-169 daysOf ! *)
Record DaySpan := mkDay { day : DayKey; d_from : Z; d_to : Z }.

(* src: integrations/timesheets/app/timeline/sweep.ts 35-46 TimelineInput *)
Record TimelineInput := mkInput {
  i_mirror : Mirror;
  settings : Account;
  window : Interval;
  now : Z;
  timeZone : jstr;
  forceProjects : bool;
}.

(* src: integrations/timesheets/app/timeline/types.ts 82-89 TimelineConflict *)
Record TimelineConflict := mkConflict {
  tc_entryId : option jstr;
  tc_entryIds : list jstr;
  fields : list jstr;
  tc_kind : option ConflictKind;  (* none: ['duplicate'] *)
  candidates : list TimeLabel;
  tc_from : Z;
  tc_to : Z;
}.

(* src: integrations/timesheets/app/timeline/types.ts 91-101 Timeline *)
Record Timeline := mkTimeline {
  t_timeZone : jstr;
  t_window : Interval;
  t_days : list (DaySpan * list Segment);
  t_unknown : list Interval;
  conflicts : list TimelineConflict;
}.

Section Sweep.
Context (other : jstr -> option Z) (Intl : jstr -> option (Z -> option Parts)).

(** The start of a day is a number: a [NaN] would have thrown. *)
Definition start_number (key : DayKey) (zone : jstr) : res Stop Z := or_throws (v ← startOfDay other Intl key zone; v).

(* src: integrations/timesheets/app/timeline/sweep.ts 171-181 daysOf ! *)
Fixpoint days_from (fuel : nat) (key : DayKey) (to : Z) (zone : jstr) : res Stop (list DaySpan) :=
  match fuel with
  | O => Err OutOfFuel
  | S fuel =>
      start ← start_number key zone;
      if to <=? start then Ok []
      else
        next ← start_number (addDays other key 1) zone;
        rest ← days_from fuel (addDays other key 1) to zone;
        Ok (mkDay key start (Z.min to next) :: rest)
  end.

(* src: integrations/timesheets/app/timeline/sweep.ts 167-182 daysOf *)
Definition daysOf (fuel : nat) (from to : Z) (zone : jstr) : res Stop (list DaySpan) :=
  key ← or_throws (dayKey Intl (Some from) zone); days_from fuel key to zone.

(** A claim's span within the range, if any of it is. *)
(* src: integrations/timesheets/app/timeline/sweep.ts 190-195 buildTimeline ! *)
Definition claim_span (range : Interval) (c : TimeClaim) : option (TimeClaim * Interval) :=
  f ← Date_parse other (cl_from c);
  t ← Date_parse other (cl_to c);
  let f := Z.max (from range) f in
  let t := Z.min (to range) t in
  if f <? t then Some (c, mkInterval f t) else None.

Definition both_ends (i : Interval) : list Z := [from i; to i].

(** The boundaries, in order. *)
(* src: integrations/timesheets/app/timeline/sweep.ts 197-203 buildTimeline ! *)
Definition points_of (range : Interval) (days : list DaySpan) (claims : list (TimeClaim * Interval)) (unknown : list Interval)
    : list Z :=
  sort_by Z.sub (List.filter (fun p => (from range <=? p) && (p <=? to range))
    (first_seen (both_ends range ++ flat_map (fun d => [d_from d; d_to d]) days ++
                 flat_map (fun c => both_ends c.2) claims ++ flat_map both_ends unknown))).

(** The body of the loop over the elementary spans. *)
(* src: integrations/timesheets/app/timeline/sweep.ts 208-217 buildTimeline ! *)
Definition atom (claims : list (TimeClaim * Interval)) (unknown : list Interval) (force : bool) (span : Z * Z) : Segment :=
  let '(f, t) := span in
  let active := map fst (List.filter (fun c => (from c.2 <=? f) && (t <=? to c.2)) claims) in
  let isUnknown := existsb (fun u => (from u <=? f) && (t <=? to u)) unknown in
  mkSegment f t (classify active isUnknown force).

(** One merged conflicting or duplicate span. *)
(* src: integrations/timesheets/app/timeline/sweep.ts 227-239 buildTimeline ! *)
Definition conflict_of (s : Segment) : TimelineConflict :=
  let h := shape s in
  let kind := if duplicate h then None else fst <$> conflict h in
  mkConflict (head (entryIds h)) (entryIds h)
    (match kind with
     | None => [js "start"; js "end"]
     | Some whichProject => [js "projectId"]
     | Some whetherWorked => [js "type"]
     end)
    kind
    (if duplicate h then match sh_label h with Some l => [l] | None => [] end
     else match conflict h with Some (_, ls) => ls | None => [] end)
    (seg_from s) (seg_to s).

(* src: integrations/timesheets/app/timeline/sweep.ts 226-226 buildTimeline ! *)
Definition is_conflicting (s : Segment) : bool := bool_decide (state (shape s) = InConflict) || duplicate (shape s).

(* src: integrations/timesheets/app/timeline/sweep.ts 184-248 buildTimeline *)
Definition buildTimeline (fuel : nat) (input : TimelineInput) : res Stop Timeline :=
  days ← daysOf fuel (from (window input)) (now input) (timeZone input);
  let range := mkInterval (match days with d :: _ => d_from d | [] => from (window input) end) (now input) in
  let unknown := unknownIntervals other (i_mirror input) (settings input) range (now input) in
  all ← or_throws (claimsOf other (i_mirror input) (settings input) (now input));
  let claims := omap (claim_span range) all in
  let atoms := map (atom claims unknown (forceProjects input)) (pairs_of (points_of range days claims unknown)) in
  Ok (mkTimeline (timeZone input) (window input)
    (map (fun d => (d, merge (List.filter (fun a => (d_from d <=? seg_from a) && (seg_to a <=? d_to d)) atoms))) days)
    (unknownIntervals other (i_mirror input) (settings input) (window input) (now input))
    (map conflict_of (merge (List.filter is_conflicting atoms)))).
End Sweep.

(** ** Elementary spans *)

Lemma sorted_map {A B} (R : A -> A -> Prop) (S : B -> B -> Prop) (f : A -> B) l :
  (forall x y, R x y -> S (f x) (f y)) -> StronglySorted R l -> StronglySorted S (map f l).
Proof.
  intros Hf. induction 1 as [|x l Hl IH Hx]; [constructor|]. cbn [map]. constructor; [done|].
  apply Forall_map. eapply Forall_impl; [exact Hx|]. intros y. apply Hf.
Qed.

Lemma pairs_sorted (ps : list Z) : StronglySorted Z.lt ps ->
  StronglySorted (fun x y => x.2 <= y.1) (pairs_of ps) /\
  forall p, p ∈ pairs_of ps -> p.1 < p.2 /\ p.1 ∈ ps /\ p.2 ∈ ps /\ forall x, x ∈ ps -> x <= p.1 \/ p.2 <= x.
Proof.
  induction ps as [|a ps IH]; intros Hs; [split; [constructor|by intros ? ?%elem_of_nil]|].
  inversion Hs as [|? ? Hs' Ha]; subst. rewrite Forall_forall in Ha. destruct (IH Hs') as [H1 H2].
  destruct ps as [|b ps]; [split; [constructor|by intros ? ?%elem_of_nil]|].
  change (pairs_of (a :: b :: ps)) with ((a, b) :: pairs_of (b :: ps)).
  assert (Hb : forall x, x ∈ b :: ps -> b <= x) by (intros x; by apply sorted_head). split.
  - constructor; [done|]. apply Forall_forall. intros p Hp. destruct (H2 p Hp) as (_ & Hp1 & _). cbn. by apply Hb.
  - intros p [->|Hp]%elem_of_cons.
    + cbn. split_and!; [apply Ha; by left|by left|right; by left|]. intros x [->|Hx]%elem_of_cons; [left; lia|right; by apply Hb].
    + destruct (H2 p Hp) as (Hlt & Hp1 & Hp2 & Hno). split_and!; [done|by right|by right|].
      intros x [->|Hx]%elem_of_cons; [|by apply Hno]. left. specialize (Ha _ Hp1). lia.
Qed.

(** Every instant between two points is in one pair. *)
Lemma pairs_cover (ps : list Z) lo hi t : StronglySorted Z.lt ps -> lo ∈ ps -> hi ∈ ps -> lo <= t < hi ->
  exists p, p ∈ pairs_of ps /\ p.1 <= t < p.2.
Proof.
  revert lo. induction ps as [|a ps IH]; intros lo Hs Hlo Hhi Ht; [by apply elem_of_nil in Hlo|].
  pose proof (sorted_head _ _ _ Hs Hlo) as Halo.
  inversion Hs as [|? ? Hs' Ha]; subst. rewrite Forall_forall in Ha.
  apply elem_of_cons in Hhi as [->|Hhi]; [lia|]. destruct ps as [|b ps]; [by apply elem_of_nil in Hhi|].
  change (pairs_of (a :: b :: ps)) with ((a, b) :: pairs_of (b :: ps)).
  destruct (Z.lt_ge_cases t b) as [Hb|Hb].
  - exists (a, b). split; [by left|]. cbn. lia.
  - destruct (IH b Hs') as (p & Hp & Ht'); [by left|done|lia|]. exists p. split; [by right|done].
Qed.

(** ** Runs of segments *)

Definition covers (s : Segment) (t : Z) : Prop := seg_from s <= t < seg_to s.

(** Segments in order, none empty. *)
Definition run (l : list Segment) : Prop :=
  StronglySorted (fun x y => seg_to x <= seg_from y) l /\ Forall (fun s => seg_from s < seg_to s) l.

(** What an instant is shown as. *)
Definition shown (l : list Segment) (t : Z) (h : Shape) : Prop := exists s, s ∈ l /\ covers s t /\ shape s = h.

(** Neighbours that touch are of different shapes. *)
Definition merged (l : list Segment) : Prop := forall l1 x y l2, l = l1 ++ x :: y :: l2 ->
  seg_to x = seg_from y -> shape x <> shape y.

Lemma shown_app l k t h : shown (l ++ k) t h <-> shown l t h \/ shown k t h.
Proof. unfold shown. setoid_rewrite elem_of_app. naive_solver. Qed.

Lemma shown_single s t h : shown [s] t h <-> covers s t /\ shape s = h.
Proof. unfold shown. setoid_rewrite list_elem_of_singleton. naive_solver. Qed.

Lemma run_unique l t h h' : run l -> shown l t h -> shown l t h' -> h = h'.
Proof.
  intros [Hs _] (x & Hx & Hxt & <-) (y & Hy & Hyt & <-). unfold covers in *.
  induction Hs as [|z l Hl IH Hz]; [by apply elem_of_nil in Hx|]. rewrite Forall_forall in Hz.
  apply elem_of_cons in Hx as [->|Hx], Hy as [->|Hy]; [done|specialize (Hz y Hy); lia|specialize (Hz x Hx); lia|by apply IH].
Qed.

Lemma run_snoc l s : run (l ++ [s]) <-> run l /\ Forall (fun x => seg_to x <= seg_from s) l /\ seg_from s < seg_to s.
Proof.
  unfold run. rewrite (sorted_snoc_iff (fun x y => seg_to x <= seg_from y)), Forall_app, Forall_singleton. naive_solver.
Qed.

Lemma merged_snoc l s : merged l -> (forall x, last l = Some x -> seg_to x = seg_from s -> shape x <> shape s) -> merged (l ++ [s]).
Proof.
  intros Hm Hl l1 x y l2 E. destruct l2 as [|z l2] using rev_ind.
  - replace (l1 ++ [x; y]) with ((l1 ++ [x]) ++ [y]) in E by (by rewrite <-app_assoc).
    apply app_inj_tail in E as [-> ->]. apply Hl. by rewrite last_snoc.
  - replace (l1 ++ x :: y :: l2 ++ [z]) with ((l1 ++ x :: y :: l2) ++ [z]) in E by (by rewrite <-app_assoc).
    apply app_inj_tail in E as [-> _]. by apply (Hm l1 x y l2).
Qed.

Lemma merged_prefix l s : merged (l ++ [s]) -> merged l.
Proof. intros H l1 x y l2 ->. apply (H l1 x y (l2 ++ [s])). by rewrite <-app_assoc. Qed.

(** Shapes whose text determines them. *)
Definition faithful (l : list Segment) : Prop := forall x y, x ∈ l -> y ∈ l -> shapeKey x = shapeKey y -> shape x = shape y.

Record merges (l out : list Segment) : Prop := {
  merges_run : run out;
  merges_shown : forall t h, shown out t h <-> shown l t h;
  merges_merged : merged out;
  merges_shapes : forall x, x ∈ out -> exists y, y ∈ l /\ shape x = shape y /\ seg_to x = seg_to y;
}.

Lemma shapeKey_shape x y : shape x = shape y -> shapeKey x = shapeKey y.
Proof. unfold shapeKey. by intros ->. Qed.

Lemma merge_step_merges l out s : run (l ++ [s]) -> faithful (l ++ [s]) -> merges l out -> merges (l ++ [s]) (merge_step out s).
Proof.
  intros Hrun Hf [Hr Hs Hm Hx]. apply run_snoc in Hrun as (_ & Hbefore & Hpos). rewrite Forall_forall in Hbefore.
  assert (Hout : Forall (fun x => seg_to x <= seg_from s) out).
  { apply Forall_forall. intros x Hin. destruct (Hx x Hin) as (y & Hy & _ & ->). by apply Hbefore. }
  assert (Hpush : (forall x, last out = Some x -> seg_to x = seg_from s -> shape x <> shape s) -> merges (l ++ [s]) (out ++ [s])).
  { intros Hlast. split.
    - by apply run_snoc.
    - intros t h. by rewrite !shown_app, Hs.
    - by apply merged_snoc.
    - intros x [Hin|Hin]%elem_of_app.
      + destruct (Hx x Hin) as (y & Hy & He). exists y. split; [apply elem_of_app; by left|done].
      + exists x. split; [apply elem_of_app; by right|done]. }
  unfold merge_step. destruct (last out) as [x|] eqn:El; [|by apply Hpush].
  destruct ((seg_to x =? seg_from s) && jeqb (shapeKey x) (shapeKey s)) eqn:E.
  2: { apply Hpush. intros y [= <-] Et Eh. apply andb_false_iff in E as [E|E]; breflect; [done|].
       apply shapeKey_shape in Eh. unfold jeqb in E. breflect. done. }
  apply andb_true_iff in E as [Et Ek]. unfold jeqb in Ek. breflect.
  apply last_split in El. set (init := take (length out - 1) out) in *. clearbody init. subst out.
  destruct (Hx x) as (y & Hy & Eh & _); [apply elem_of_app; right; by left|].
  assert (Hshape : shape x = shape s).
  { rewrite Eh. apply Hf; [apply elem_of_app; by left|apply elem_of_app; right; by left|].
    rewrite <-Ek. by apply shapeKey_shape. }
  apply run_snoc in Hr as (Hr & Hinit & Hxp). split.
  - apply run_snoc. cbn. split_and!; [done|done|lia].
  - intros t h. rewrite !shown_app, <-Hs, !shown_app, !shown_single. unfold covers. cbn [seg_from seg_to shape].
    rewrite Hshape. split.
    + intros [|[Ht Hh]]; [tauto|]. destruct (Z.lt_ge_cases t (seg_to x)); [left; right; split; [lia|done]|right; split; [lia|done]].
    + intros [[|[Ht Hh]]|[Ht Hh]]; [tauto|right; split; [lia|done]..].
  - apply merged_snoc; [by eapply merged_prefix|]. intros z Hz Ez. cbn in Ez |- *.
    apply last_split in Hz. rewrite Hz in Hm. apply (Hm (take (length init - 1) init) z x []); [by rewrite <-app_assoc|done].
  - intros z [Hin|Hin]%elem_of_app.
    + destruct (Hx z) as (w & Hw & He); [apply elem_of_app; by left|]. exists w. split; [apply elem_of_app; by left|done].
    + apply list_elem_of_singleton in Hin as ->. exists s. cbn. split; [apply elem_of_app; right; by left|done].
Qed.

Lemma merge_merges l : run l -> faithful l -> merges l (merge l).
Proof.
  unfold merge. induction l as [|s l IH] using rev_ind; intros Hr Hf.
  { split; [done|done| |by intros x ?%elem_of_nil]. intros l1 x y l2 E. by destruct l1. }
  rewrite fold_left_app. cbn [fold_left]. apply merge_step_merges; [done|done|]. apply IH.
  - by apply run_snoc in Hr as [? _].
  - intros x y Hx Hy. apply Hf; apply elem_of_app; by left.
Qed.

(** ** The text of a shape determines it *)

Definition units (s : jstr) : Prop := Forall (fun c => 0 <= c) s.
Definition label_units (l : TimeLabel) : Prop := match l with worked (Some p) => units p | _ => True end.
Definition shape_units (s : Shape) : Prop :=
  Forall units (entryIds s) /\ (forall l, sh_label s = Some l -> label_units l) /\
  (forall k ls, conflict s = Some (k, ls) -> Forall label_units ls).

Lemma label_json_inj a b : label_json a = label_json b -> a = b.
Proof. destruct a as [[p|]|[[]|]], b as [[q|]|[[]|]]; cbn; try done. by intros [= ->]. Qed.

Lemma map_json_inj {A} (f : A -> Json) (l k : list A) : (forall x y, f x = f y -> x = y) -> map f l = map f k -> l = k.
Proof.
  intros Hf. revert k. induction l as [|x l IH]; intros [|y k]; cbn; try done. intros [= ?%Hf ?%IH]. by subst.
Qed.

Lemma shape_entries_get s :
  let get k := jget (js k) (shape_entries s) in
  get "state"%string = Some (OStr (state_text (state s))) /\
  get "label"%string = label_json <$> sh_label s /\
  get "duplicate"%string = (if duplicate s then Some (OBool true) else None) /\
  get "conflict"%string = (fun c => OObj [(js "kind", OStr (conflict_kind_text c.1)); (js "candidates", OArr (map label_json c.2))]) <$> conflict s /\
  get "entryIds"%string = Some (OArr (map OStr (entryIds s))) /\
  get "readOnly"%string = Some (OArr (map (fun r => OStr (reason_text r)) (readOnly s))) /\
  get "open"%string = (if sh_open s then Some (OBool true) else None).
Proof. destruct s as [st [l|] [] [[k ls]|] ids ro []]; split_and!; reflexivity. Qed.

Lemma shape_entries_inj a b : shape_entries a = shape_entries b -> a = b.
Proof.
  intros E. destruct (shape_entries_get a) as (A1 & A2 & A3 & A4 & A5 & A6 & A7).
  destruct (shape_entries_get b) as (B1 & B2 & B3 & B4 & B5 & B6 & B7).
  rewrite E in A1, A2, A3, A4, A5, A6, A7.
  rewrite A1 in B1. rewrite A2 in B2. rewrite A3 in B3. rewrite A4 in B4. rewrite A5 in B5. rewrite A6 in B6. rewrite A7 in B7.
  clear A1 A2 A3 A4 A5 A6 A7 E.
  destruct a as [st l d c ids ro o], b as [st' l' d' c' ids' ro' o']. cbn [state sh_label duplicate conflict entryIds readOnly sh_open] in *.
  assert (st = st') as -> by (by destruct st, st').
  assert (l = l') as ->.
  { destruct l as [l|], l' as [l'|]; try done. cbn in B2. injection B2 as B2. by apply label_json_inj in B2 as ->. }
  assert (d = d') as -> by (by destruct d, d'). assert (o = o') as -> by (by destruct o, o').
  assert (ids = ids') as ->.
  { injection B5 as B5. apply (map_json_inj OStr) in B5; [done|by intros ? ? [= ->]]. }
  assert (ro = ro') as ->.
  { injection B6 as B6. apply (map_json_inj (fun r => OStr (reason_text r))) in B6; [done|]. by intros [] []. }
  f_equal. destruct c as [[k ls]|], c' as [[k' ls']|]; try done. cbn in B4. injection B4 as Bk Bl.
  apply (map_json_inj label_json) in Bl as ->; [|apply label_json_inj]. by destruct k, k'.
Qed.

Lemma units_js s : units (js s).
Proof.
  unfold units, js. apply Forall_forall. intros c (x & -> & _)%list_elem_of_fmap. apply N2Z.is_nonneg.
Qed.

Lemma entry_ok_js k v : Json_ok v -> entry_ok (js k, v).
Proof. intros H. split; [apply units_js|exact H]. Qed.

Lemma object_ok m : Json_ok (OObj m) <-> Forall entry_ok m.
Proof. apply (fold_right_Forall entry_ok). Qed.
Lemma array_ok l : Json_ok (OArr l) <-> Forall Json_ok l.
Proof. apply (fold_right_Forall Json_ok). Qed.

Lemma label_json_ok l : label_units l -> Json_ok (label_json l).
Proof.
  intros H. destruct l as [[p|]|[[| |]|]]; apply object_ok; repeat apply Forall_cons_2; try apply Forall_nil_2; apply entry_ok_js;
    first [exact H|exact I|apply units_js].
Qed.

Lemma shape_json_ok s : shape_units s ->
  Json_ok (OObj ([(js "from", ONum 0); (js "to", ONum 0)] ++ shape_entries s)).
Proof.
  intros (Hi & Hl & Hc). apply object_ok. unfold shape_entries.
  rewrite !Forall_app. split_and!.
  - constructor; [by apply entry_ok_js|]. constructor; [by apply entry_ok_js|constructor].
  - constructor; [|constructor]. apply entry_ok_js. destruct (state s); apply units_js.
  - destruct (sh_label s) as [l|]; [|constructor]. constructor; [|constructor]. by apply entry_ok_js, label_json_ok, Hl.
  - destruct (duplicate s); [|constructor]. constructor; [|constructor]. by apply entry_ok_js.
  - destruct (conflict s) as [[k ls]|]; [|constructor]. constructor; [|constructor]. apply entry_ok_js, object_ok.
    constructor; [apply entry_ok_js; destruct k; apply units_js|]. constructor; [|constructor].
    apply entry_ok_js, array_ok, Forall_map. eapply Forall_impl; [exact (Hc k ls eq_refl)|apply label_json_ok].
  - constructor; [apply entry_ok_js, array_ok, Forall_map; exact Hi|]. constructor; [|constructor].
    apply entry_ok_js, array_ok, Forall_map, Forall_forall. intros [] _; apply units_js.
  - destruct (sh_open s); [|constructor]. constructor; [|constructor]. by apply entry_ok_js.
Qed.

Lemma shapeKey_inj x y : shape_units (shape x) -> shape_units (shape y) -> shapeKey x = shapeKey y -> shape x = shape y.
Proof.
  intros Hx Hy E. apply json_text_inj in E; [|by apply shape_json_ok..].
  apply (f_equal (fun v => match v with OObj m => drop 2 m | _ => [] end)) in E. by apply shape_entries_inj.
Qed.

Lemma sort_by_forall {A} (P : A -> Prop) cmp (l : list A) : Forall P l -> Forall P (sort_by cmp l).
Proof. by rewrite sort_by_perm. Qed.

Lemma jmap_of_values {V} (P : V -> Prop) (l : list (jstr * V)) : Forall (fun p => P p.2) l -> Forall P (jvalues (jmap_of l)).
Proof.
  intros H. unfold jvalues, jmap_of. induction l as [|[k v] l IH] using rev_ind; [constructor|].
  apply Forall_app in H as [H Hv]. rewrite Forall_singleton in Hv. cbn in Hv. specialize (IH H). rewrite fold_left_app.
  cbn [fold_left fst snd]. revert IH. generalize (fold_left (fun m p => jset p.1 p.2 m) l []). clear -Hv.
  intros m. induction m as [|[x w] m IH]; cbn; intros Hm; [by constructor|]. apply Forall_cons in Hm as [Hw Hm].
  destruct (decide (k = x)); cbn; constructor; auto.
Qed.

Definition claim_units (c : TimeClaim) : Prop := units (entryId c) /\ label_units (label c).

Lemma shape_units_intro st l d c ids ro o : Forall units ids -> (forall x, l = Some x -> label_units x) ->
  (forall k ls, c = Some (k, ls) -> Forall label_units ls) -> shape_units (mkShape st l d c ids ro o).
Proof. by split; [|split]. Qed.

Lemma classify_units active unknown force : Forall claim_units active -> shape_units (classify active unknown force).
Proof.
  intros Ha. unfold classify. destruct unknown; [by apply shape_units_intro|].
  destruct active as [|c0 rest]; [apply shape_units_intro; try done; by intros l [= <-]|].
  set (active := c0 :: rest) in *. clearbody active.
  assert (Hids : Forall units (sort_by jcmp (map entryId active))).
  { apply sort_by_forall, Forall_map. eapply Forall_impl; [exact Ha|]. by intros ? [? _]. }
  set (labels := sort_by byLabel _).
  assert (Hls : Forall label_units labels).
  { apply sort_by_forall, jmap_of_values, Forall_map. eapply Forall_impl; [exact Ha|]. by intros ? [_ ?]. }
  assert (Hhead : forall l, head labels = Some l -> label_units l).
  { destruct labels; [done|]. apply Forall_cons in Hls as [? _]. by intros ? [= <-]. }
  destruct (List.filter is_worked labels) as [|w ws]; [by apply shape_units_intro|].
  destruct (length labels =? 1)%nat; apply shape_units_intro; try done. by intros k ls [= _ <-].
Qed.

(** ** The days *)

Section DaysOf.
Context (Intl : jstr -> option (Z -> option Parts)) (other : jstr -> option Z) (tz : jstr) (off : Z -> Z).
Context (Hlaw : zone_law Intl tz off) (Hapart : day_apart off).

(** Days in a row from day [n], which starts at [a], up to [b]. *)
Fixpoint tiled (n a b : Z) (ds : list DaySpan) : Prop :=
  match ds with
  | [] => b <= a
  | d :: ds => day d = day_key n /\ d_from d = a /\ a < b /\ a <= d_to d <= b /\ tiled (n + 1) (d_to d) b ds
  end.

Lemma start_number_ok n : day_inside n -> exists s,
  start_number other Intl (day_key n) tz = Ok s /\ n * DAY - 14 * HOUR <= s <= n * DAY + 14 * HOUR /\
  startOfDay other Intl (day_key n) tz = Some (Some s).
Proof.
  intros Hn. destruct (startOfDay_near Intl tz off Hlaw other n Hn) as (a & _ & E). exists (n * DAY - off a).
  unfold start_number. rewrite E. pose proof (off_range Intl tz off Hlaw a). unfold MAX_ZONE_OFFSET_MS in *.
  split; [done|]. split; [lia|done].
Qed.

Lemma days_from_ok k fuel n to : FIRST_DAY + 3 <= n -> n + Z.of_nat k < LAST_DAY - 3 ->
  to <= (n + Z.of_nat k - 1) * DAY - 14 * HOUR -> (1 <= k <= fuel)%nat ->
  exists s ds, startOfDay other Intl (day_key n) tz = Some (Some s) /\
    days_from other Intl fuel (day_key n) to tz = Ok ds /\ tiled n s to ds.
Proof.
  revert fuel n. induction k as [|k IH]; intros fuel n Hn Hk Hto Hf; [lia|].
  assert (Hin : day_inside n) by (unfold day_inside; lia). destruct (start_number_ok n Hin) as (s & Es & Hs & E).
  exists s. destruct fuel as [|fuel]; [lia|]. cbn [days_from]. rewrite Es. cbn [mbind res_bind].
  destruct (to <=? s) eqn:El; breflect; [by exists []|].
  destruct (day_inside_inside n Hin) as [Hok _]. rewrite addDays_day by done.
  assert (Hk1 : (1 <= k)%nat) by (unfold HOUR, DAY in *; lia).
  destruct (IH fuel (n + 1)) as (s' & ds & E' & Er & Ht); [lia..|].
  assert (Hin' : day_inside (n + 1)) by (unfold day_inside; lia).
  destruct (start_number_ok (n + 1) Hin') as (s'' & Es' & _ & E''). rewrite E' in E''. injection E'' as <-.
  rewrite Es'. cbn [mbind res_bind]. rewrite Er. cbn [mbind res_bind].
  pose proof (startOfDay_mono Intl tz off Hlaw other n s s' Hapart Hin Hin' E E') as Hm.
  eexists. split; [done|]. split; [done|]. cbn [tiled day d_from d_to]. split_and!; [done|done|done|lia|lia|].
  destruct (Z.le_gt_cases to s') as [Hle|Hgt].
  - rewrite Z.min_l by done. destruct ds as [|d ds]; [cbn; lia|]. cbn [tiled] in Ht. lia.
  - by rewrite Z.min_r by lia.
Qed.

(** Enough rounds: a day more than the span has, and the zone's offset. *)
Definition days_fuel (from to : Z) : nat := Z.to_nat (Z.max 0 ((to - from) / DAY) + 5).

Lemma daysOf_ok fuel from to : safe from -> safe to -> (days_fuel from to <= fuel)%nat ->
  exists n s ds, dayKey Intl (Some from) tz = Some (day_key n) /\ startOfDay other Intl (day_key n) tz = Some (Some s) /\
    daysOf other Intl fuel from to tz = Ok ds /\ tiled n s to ds.
Proof.
  intros Hfrom Hto Hf. destruct (safe_range Intl other tz off Hlaw from Hfrom) as (Hk & _ & _).
  destruct (key_range_inside Intl tz off Hlaw from Hk) as [Hr Hd].
  pose proof (dayKey_law Intl tz off Hlaw from Hr) as E. set (n := wall off from / DAY) in *.
  pose proof (wall_near Intl tz off Hlaw from) as Hw.
  destruct (days_from_ok (days_fuel from to) fuel n to) as (s & ds & Es & Er & Ht).
  - unfold n, safe, HOUR, DAY in *. dlia.
  - unfold days_fuel. rewrite Z2Nat.id by (unfold DAY in *; dlia). unfold n, safe, HOUR, DAY in *. dlia.
  - unfold days_fuel. rewrite Z2Nat.id by (unfold DAY in *; dlia). unfold n, HOUR, DAY in *. dlia.
  - unfold days_fuel in *. lia.
  - exists n, s, ds. unfold daysOf. by rewrite E.
Qed.

(** The days together. *)
Lemma tiled_facts n a b ds d : tiled n a b ds -> d ∈ ds -> a <= d_from d /\ d_from d <= d_to d <= b.
Proof.
  revert n a. induction ds as [|x ds IH]; intros n a Ht Hd; [by apply elem_of_nil in Hd|]. destruct Ht as (_ & Hx & Hlt & Hle & Ht).
  apply elem_of_cons in Hd as [->|Hd]; [lia|]. specialize (IH _ _ Ht Hd). lia.
Qed.

Lemma tiled_covers n a b ds t : tiled n a b ds -> a <= t < b <-> exists d, d ∈ ds /\ d_from d <= t < d_to d.
Proof.
  revert n a. induction ds as [|x ds IH]; intros n a Ht.
  - cbn in Ht. split; [lia|]. by intros (d & ?%elem_of_nil & _).
  - destruct Ht as (_ & Hx & Hlt & Hle & Ht). specialize (IH _ _ Ht). split.
    + intros Hr. destruct (Z.lt_ge_cases t (d_to x)); [exists x; split; [by left|lia]|].
      destruct (proj1 IH ltac:(lia)) as (d & Hd & Hdt). exists d. split; [by right|done].
    + intros (d & Hd & Hdt). apply elem_of_cons in Hd as [->|Hd]; [lia|].
      pose proof (tiled_facts _ _ _ _ _ Ht Hd). lia.
Qed.
End DaysOf.

(** ** The sweep, instant by instant *)

Definition claim_at (other : jstr -> option Z) (t : Z) (c : TimeClaim) : bool :=
  match Date_parse other (cl_from c), Date_parse other (cl_to c) with
  | Some f, Some e => (f <=? t) && (t <? e)
  | _, _ => false
  end.

(** What an instant is: the claims on it in their order, and whether it is known. *)
Definition shape_at (other : jstr -> option Z) (all : list TimeClaim) (unknown : list Interval) (force : bool) (t : Z) : Shape :=
  classify (List.filter (claim_at other t) all) (existsb (fun u => holds u t) unknown) force.

Section Atoms.
Context (other : jstr -> option Z) (range : Interval) (days : list DaySpan) (all : list TimeClaim).
Context (unknown : list Interval) (force : bool) (Hunits : Forall claim_units all).
Let claims : list (TimeClaim * Interval) := omap (claim_span other range) all.
Let points : list Z := points_of range days claims unknown.
Let atoms : list Segment := map (atom claims unknown force) (pairs_of points).

Definition ends : list Z :=
  both_ends range ++ flat_map (fun d => [d_from d; d_to d]) days ++ flat_map (fun c => both_ends c.2) claims ++ flat_map both_ends unknown.

Lemma points_spec p : p ∈ points <-> p ∈ ends /\ from range <= p <= to range.
Proof.
  unfold points, points_of. rewrite sort_by_perm, list_elem_of_In, filter_In, <-list_elem_of_In, elem_of_first_seen.
  rewrite andb_true_iff. unfold ends. split; intros [H1 H2]; (split; [done|lia]).
Qed.

Lemma points_order : StronglySorted Z.lt points.
Proof.
  apply sort_distinct. apply NoDup_ListNoDup, List.NoDup_filter, NoDup_ListNoDup, first_seen_nodup.
Qed.

(** No boundary is inside an elementary span. *)
Lemma atom_side p v t : p ∈ pairs_of points -> v ∈ ends -> p.1 <= t < p.2 -> (v <= p.1 <-> v <= t) /\ (p.2 <= v <-> t < v).
Proof.
  intros Hp Hv Ht. destruct (proj2 (pairs_sorted points points_order) p Hp) as (_ & H1 & H2 & Hno).
  apply points_spec in H1 as [_ H1]. apply points_spec in H2 as [_ H2].
  destruct (decide (from range <= v <= to range)) as [Hr|Hr]; [|lia].
  assert (Hin : v ∈ points) by by apply points_spec. specialize (Hno v Hin). lia.
Qed.

Lemma atom_active p t l : p ∈ pairs_of points -> p.1 <= t < p.2 -> (forall c i, (c, i) ∈ omap (claim_span other range) l -> (c, i) ∈ claims) ->
  map fst (List.filter (fun c => (from c.2 <=? p.1) && (p.2 <=? to c.2)) (omap (claim_span other range) l)) =
    List.filter (claim_at other t) l.
Proof.
  intros Hp Ht. destruct (proj2 (pairs_sorted points points_order) p Hp) as (_ & H1 & H2 & _).
  apply points_spec in H1 as [_ H1]. apply points_spec in H2 as [_ H2].
  induction l as [|c l IH]; intros Hl; [done|]. cbn [omap list_omap List.filter]. unfold claim_at at 1.
  assert (Hl' : forall c i, (c, i) ∈ omap (claim_span other range) l -> (c, i) ∈ claims).
  { intros x i Hx. apply Hl. cbn [omap list_omap]. destruct (claim_span other range c); [by right|done]. }
  destruct (claim_span other range c) as [ci|] eqn:Ec.
  - assert (Hin : ci ∈ claims) by (destruct ci; apply Hl; cbn [omap list_omap]; rewrite Ec; by left).
    unfold claim_span in Ec. destruct (Date_parse other (cl_from c)) as [f|]; [|done].
    destruct (Date_parse other (cl_to c)) as [e|]; [|done]. cbn [mbind option_bind] in Ec.
    destruct (_ <? _) eqn:Elt in Ec; [|done]. injection Ec as <-. breflect.
    assert (Hends : forall v, v ∈ both_ends (mkInterval (Z.max (from range) f) (Z.min (to range) e)) -> v ∈ ends).
    { intros v Hv. unfold ends. rewrite !elem_of_app. right; right; left. apply list_elem_of_In, in_flat_map.
      eexists. split; [by apply list_elem_of_In|]. by apply list_elem_of_In. }
    destruct (atom_side p (Z.max (from range) f) t Hp) as [S1 _]; [apply Hends; by left|done|].
    destruct (atom_side p (Z.min (to range) e) t Hp) as [_ S2]; [apply Hends; right; by left|done|].
    cbn [List.filter snd from to]. rewrite <-(IH Hl').
    assert ((Z.max (from range) f <=? p.1) && (p.2 <=? Z.min (to range) e) = (f <=? t) && (t <? e)) as ->.
    { apply eq_bool_prop_intro. rewrite !Is_true_true, !andb_true_iff. lia. }
    by destruct ((f <=? t) && (t <? e)).
  - rewrite (IH Hl'). unfold claim_span in Ec. destruct (Date_parse other (cl_from c)) as [f|]; [|done].
    destruct (Date_parse other (cl_to c)) as [e|]; [|done]. cbn [mbind option_bind] in Ec.
    destruct (_ <? _) eqn:Elt in Ec; [done|]. breflect. assert ((f <=? t) && (t <? e) = false) as ->; [|done].
    apply andb_false_iff. destruct (Z.leb_spec f t); [right; apply Z.ltb_ge; lia|by left].
Qed.

Lemma atom_unknown p t : p ∈ pairs_of points -> p.1 <= t < p.2 ->
  existsb (fun u => (from u <=? p.1) && (p.2 <=? to u)) unknown = existsb (fun u => holds u t) unknown.
Proof.
  intros Hp Ht. assert (H : forall u, u ∈ unknown -> (from u <=? p.1) && (p.2 <=? to u) = holds u t).
  { intros u Hu. assert (Hends : forall v, v ∈ both_ends u -> v ∈ ends).
    { intros v Hv. unfold ends. rewrite !elem_of_app. right; right; right. apply list_elem_of_In, in_flat_map.
      exists u. split; by apply list_elem_of_In. }
    destruct (atom_side p (from u) t Hp) as [S1 _]; [apply Hends; by left|done|].
    destruct (atom_side p (to u) t Hp) as [_ S2]; [apply Hends; right; by left|done|].
    unfold holds. apply eq_bool_prop_intro. rewrite !Is_true_true, !andb_true_iff. lia. }
  revert H. clear. induction unknown as [|u l IH]; intros H; [done|]. cbn [existsb]. rewrite H by by left.
  f_equal. apply IH. intros x Hx. apply H. by right.
Qed.

Lemma atom_shape p t : p ∈ pairs_of points -> p.1 <= t < p.2 -> shape (atom claims unknown force p) = shape_at other all unknown force t.
Proof.
  intros Hp Ht. destruct p as [f e]. unfold atom, shape_at. cbn [shape fst snd] in *.
  pose proof (atom_active (f, e) t all Hp Ht ltac:(done)) as E. cbn [fst snd] in E. unfold claims at 1. rewrite E.
  pose proof (atom_unknown (f, e) t Hp Ht) as E'. cbn [fst snd] in E'. by rewrite E'.
Qed.

Lemma atoms_run : run atoms.
Proof.
  destruct (pairs_sorted points points_order) as [H1 H2]. split.
  - eapply sorted_map; [|exact H1]. by intros [] [].
  - apply Forall_map, Forall_forall. intros p Hp. destruct (H2 p Hp) as [Hlt _]. by destruct p.
Qed.

Lemma atoms_shown t h : shown atoms t h <-> from range <= t < to range /\ h = shape_at other all unknown force t.
Proof.
  unfold shown, atoms, covers. split.
  - intros (s & Hs & Ht & <-). apply list_elem_of_In, in_map_iff in Hs as (p & <- & Hp). apply list_elem_of_In in Hp.
    assert (Hpt : p.1 <= t < p.2) by (by destruct p).
    destruct (proj2 (pairs_sorted points points_order) p Hp) as (_ & H1 & H2 & _).
    apply points_spec in H1 as [_ H1]. apply points_spec in H2 as [_ H2]. split; [lia|by apply atom_shape].
  - intros [Ht ->].
    destruct (pairs_cover points (from range) (to range) t points_order) as (p & Hp & Hpt).
    + apply points_spec. split; [unfold ends; by left|lia].
    + apply points_spec. split; [unfold ends; right; by left|lia].
    + lia.
    + exists (atom claims unknown force p). split; [by apply list_elem_of_In, in_map, list_elem_of_In|].
      split; [destruct p; exact Hpt|by apply atom_shape].
Qed.

Lemma atoms_units s : s ∈ atoms -> shape_units (shape s).
Proof.
  unfold atoms. rewrite list_elem_of_In, in_map_iff. intros ([f e] & <- & _). apply classify_units. cbn [shape].
  apply Forall_map, Forall_forall. intros [c i] Hc. apply list_elem_of_In, filter_In in Hc as [Hc _].
  apply list_elem_of_In, list_elem_of_omap in Hc as (x & Hx & Ex). cbn. rewrite Forall_forall in Hunits.
  unfold claim_span in Ex. destruct (Date_parse other (cl_from x)); [|done]. destruct (Date_parse other (cl_to x)); [|done].
  cbn [mbind option_bind] in Ex. destruct (_ <? _) in Ex; [|done]. injection Ex as <- _. by apply Hunits.
Qed.

Lemma run_filter (f : Segment -> bool) l : run l -> run (List.filter f l).
Proof.
  intros [Hs Hp]. split.
  - clear Hp. induction Hs as [|x l Hl IH Hx]; [constructor|]. cbn [List.filter]. destruct (f x); [|done].
    constructor; [done|]. rewrite Forall_forall in Hx |- *. intros y Hy. apply Hx.
    apply list_elem_of_In, filter_In in Hy as [Hy _]. by apply list_elem_of_In.
  - rewrite Forall_forall in Hp |- *. intros y Hy. apply Hp. apply list_elem_of_In, filter_In in Hy as [Hy _]. by apply list_elem_of_In.
Qed.

Lemma atoms_faithful f : faithful (List.filter f atoms).
Proof.
  intros x y Hx Hy. apply list_elem_of_In, filter_In in Hx as [Hx _]. apply list_elem_of_In, filter_In in Hy as [Hy _].
  apply shapeKey_inj; apply atoms_units; by apply list_elem_of_In.
Qed.

Lemma day_shown d t h : d ∈ days ->
  shown (List.filter (fun a => (d_from d <=? seg_from a) && (seg_to a <=? d_to d)) atoms) t h <->
    d_from d <= t < d_to d /\ shown atoms t h.
Proof.
  intros Hd. unfold shown. split.
  - intros (s & Hs & Ht & Hh). apply list_elem_of_In, filter_In in Hs as [Hs Hin]. unfold covers in Ht. breflect.
    split; [lia|]. exists s. split; [by apply list_elem_of_In|]. by split.
  - intros (Ht & s & Hs & Hst & Hh). exists s. split; [|done]. apply list_elem_of_In, filter_In.
    split; [by apply list_elem_of_In|]. unfold atoms in Hs. apply list_elem_of_In, in_map_iff in Hs as (p & <- & Hp).
    apply list_elem_of_In in Hp. unfold covers in Hst.
    assert (Hends : forall v, v ∈ [d_from d; d_to d] -> v ∈ ends).
    { intros v Hv. unfold ends. rewrite !elem_of_app. right; left. apply list_elem_of_In, in_flat_map.
      exists d. split; by apply list_elem_of_In. }
    destruct p as [f e]. cbn [atom seg_from seg_to] in *.
    destruct (atom_side (f, e) (d_from d) t Hp) as [S1 _]; [apply Hends; by left|done|].
    destruct (atom_side (f, e) (d_to d) t Hp) as [_ S2]; [apply Hends; right; by left|done|].
    cbn [fst snd] in *. apply andb_true_iff. split; apply Z.leb_le; lia.
Qed.
End Atoms.

(** ** What an instant's claims make of it *)

Lemma labelKey_inj a b : labelKey a = labelKey b -> a = b.
Proof. destruct a as [[p|]|[[]|]], b as [[q|]|[[]|]]; cbn; try done. by intros [= ->]. Qed.
#[local] Instance labelKey_Inj : Inj (=) (=) labelKey := labelKey_inj.

(** The different labels of the claims on a span. *)
Definition labels_of (active : list TimeClaim) : list TimeLabel :=
  sort_by byLabel (jvalues (jmap_of (map (fun c => (labelKey (label c), label c)) active))).

Lemma labels_of_eq active : labels_of active = sort_by byLabel (first_seen (map label active)).
Proof.
  unfold labels_of. rewrite <-(map_map label (fun l => (labelKey l, l))), jmap_of_keyed by apply _.
  unfold jvalues. by rewrite map_map, map_id.
Qed.

Lemma labels_of_elem active l : l ∈ labels_of active <-> exists c, c ∈ active /\ label c = l.
Proof.
  rewrite labels_of_eq, sort_by_perm, elem_of_first_seen. rewrite list_elem_of_In, in_map_iff.
  setoid_rewrite list_elem_of_In. naive_solver.
Qed.

Lemma labels_of_nodup active : NoDup (labels_of active).
Proof. rewrite labels_of_eq, sort_by_perm. apply first_seen_nodup. Qed.

Lemma one_label active l : labels_of active = [l] <-> active <> [] /\ forall c, c ∈ active -> label c = l.
Proof.
  split.
  - intros E. split.
    + intros ->. assert (H : l ∈ labels_of []) by (rewrite E; by left). by apply labels_of_elem in H as (? & ?%elem_of_nil & _).
    + intros c Hc. apply list_elem_of_singleton. rewrite <-E. apply labels_of_elem. by exists c.
  - intros [Hne Hall]. pose proof (labels_of_nodup active) as Hnd.
    assert (Hin : forall x, x ∈ labels_of active <-> x = l).
    { intros x. rewrite labels_of_elem. split; [by intros (c & Hc & <-); apply Hall|]. intros ->.
      destruct active as [|c rest]; [done|]. exists c. split; [by left|]. apply Hall. by left. }
    destruct (labels_of active) as [|x [|y rest]]; [|f_equal; apply Hin; by left|].
    + specialize (Hin l). exfalso. eapply elem_of_nil, Hin. done.
    + assert (x = l) as -> by (apply Hin; by left). assert (y = l) as -> by (apply Hin; right; by left).
      apply NoDup_cons in Hnd as [Hn _]. exfalso. apply Hn. by left.
Qed.

Definition some_worked (active : list TimeClaim) : Prop := exists c, c ∈ active /\ is_worked (label c) = true.
Definition some_not_worked (active : list TimeClaim) : Prop := exists c, c ∈ active /\ is_worked (label c) = false.
Definition agree (active : list TimeClaim) : Prop := forall c d, c ∈ active -> d ∈ active -> label c = label d.

Definition decide_by_iff {P Q : Prop} `{Decision P} (H : P <-> Q) : Decision Q :=
  match decide P with left p => left (proj1 H p) | right np => right (fun q => np (proj2 H q)) end.

Lemma agree_forall active : Forall (fun c => Forall (fun d => label c = label d) active) active <-> agree active.
Proof. unfold agree. rewrite Forall_forall. setoid_rewrite Forall_forall. naive_solver. Qed.

#[local] Instance some_worked_dec active : Decision (some_worked active) := decide_by_iff (Exists_exists _ active).
#[local] Instance some_not_worked_dec active : Decision (some_not_worked active) := decide_by_iff (Exists_exists _ active).
#[local] Instance agree_dec active : Decision (agree active) := decide_by_iff (agree_forall active).

Lemma worked_labels active : List.filter is_worked (labels_of active) = [] <-> ~ some_worked active.
Proof.
  split.
  - intros E (c & Hc & Hw). assert (H : In (label c) (List.filter is_worked (labels_of active))).
    { apply filter_In. split; [|done]. apply list_elem_of_In, labels_of_elem. by exists c. }
    by rewrite E in H.
  - intros H. destruct (List.filter is_worked (labels_of active)) as [|l ls] eqn:E; [done|]. destruct H.
    assert (Hl : In l (List.filter is_worked (labels_of active))) by (rewrite E; by left).
    apply filter_In in Hl as [Hl Hw]. apply list_elem_of_In, labels_of_elem in Hl as (c & Hc & <-). by exists c.
Qed.

Lemma filter_shorter {A} (f : A -> bool) (l : list A) :
  (length (List.filter f l) <? length l)%nat = true <-> exists x, x ∈ l /\ f x = false.
Proof.
  rewrite Nat.ltb_lt. induction l as [|x l IH]; cbn.
  - split; [lia|]. by intros (x & ?%elem_of_nil & _).
  - pose proof (List.filter_length_le f l) as Hle. destruct (f x) eqn:Ef; cbn.
    + rewrite <-Nat.succ_lt_mono, IH. split; intros (y & Hy & Hf); (exists y; split; [|done]); [by right|].
      apply elem_of_cons in Hy as [->|Hy]; [congruence|done].
    + split; [|lia]. intros _. exists x. split; [by left|done].
Qed.

Lemma one_label_agree active : active <> [] -> (length (labels_of active) =? 1)%nat = true <-> agree active.
Proof.
  intros Hne. rewrite Nat.eqb_eq. split.
  - destruct (labels_of active) as [|l [|]] eqn:E; try done. intros _. apply one_label in E as [_ H].
    intros c d Hc Hd. by rewrite !H.
  - intros H. destruct active as [|c rest]; [done|].
    assert (labels_of (c :: rest) = [label c]) as ->; [|done]. apply one_label. split; [done|]. intros d Hd.
    apply H; [done|by left].
Qed.

(** The shape of a known span, when its claims' labels are sorted and distinct. *)
Lemma classify_known active force : exists l,
  classify active false force =
    let entryIds := sort_by jcmp (map entryId active) in
    let reasons := sort_by (fun a b => jcmp (reason_text a) (reason_text b)) (first_seen (flat_map (reasons_of force) active)) in
    let opened := existsb open active in
    if bool_decide (some_worked active) then
      if bool_decide (agree active)
      then mkShape Worked (head (labels_of active)) (1 <? length active)%nat None entryIds reasons opened
      else mkShape InConflict None false
        (Some (if bool_decide (some_not_worked active) then whetherWorked else whichProject, labels_of active)) entryIds reasons opened
    else mkShape DidNotWork l false None entryIds reasons opened.
Proof.
  destruct (decide (active = [])) as [->|Hne].
  { exists (Some (didNotWork None)). cbn. rewrite bool_decide_false by by intros (c & ?%elem_of_nil & _). reflexivity. }
  exists (head (labels_of active)). destruct active as [|c0 rest]; [done|]. set (active := c0 :: rest) in *.
  transitivity (match List.filter is_worked (labels_of active) with
    | [] => mkShape DidNotWork (head (labels_of active)) false None (sort_by jcmp (map entryId active))
       (sort_by (fun a b => jcmp (reason_text a) (reason_text b)) (first_seen (flat_map (reasons_of force) active))) (existsb open active)
    | _ :: _ => if (length (labels_of active) =? 1)%nat
        then mkShape Worked (head (labels_of active)) (1 <? length active)%nat None (sort_by jcmp (map entryId active))
          (sort_by (fun a b => jcmp (reason_text a) (reason_text b)) (first_seen (flat_map (reasons_of force) active))) (existsb open active)
        else mkShape InConflict None false
          (Some (if (length (List.filter is_worked (labels_of active)) <? length (labels_of active))%nat then whetherWorked else whichProject,
             labels_of active)) (sort_by jcmp (map entryId active))
          (sort_by (fun a b => jcmp (reason_text a) (reason_text b)) (first_seen (flat_map (reasons_of force) active))) (existsb open active)
    end); [reflexivity|]. clearbody active. cbv zeta.
  assert (E1 : (length (labels_of active) =? 1)%nat = bool_decide (agree active)).
  { apply eq_bool_prop_intro. rewrite Is_true_true, one_label_agree, bool_decide_spec; done. }
  assert (E2 : (length (List.filter is_worked (labels_of active)) <? length (labels_of active))%nat = bool_decide (some_not_worked active)).
  { apply eq_bool_prop_intro. rewrite Is_true_true, filter_shorter, bool_decide_spec. unfold some_not_worked.
    setoid_rewrite labels_of_elem. naive_solver. }
  rewrite E1, E2. pose proof (worked_labels active) as Ew.
  destruct (List.filter is_worked (labels_of active)).
  - rewrite bool_decide_false; [done|]. tauto.
  - destruct (bool_decide_reflect (some_worked active)) as [|Hn]; [done|by apply Ew in Hn].
Qed.

(** What claims make of the span they are on, when it is
    known: it is worked when some claim says so and all say the same, a
    duplicate when there are several; a conflict when some claim says worked
    and some claim says anything else, between its different labels, about
    whether there was work when one says there was none and else about the
    project; and otherwise it is not worked.  It names exactly the entries of
    its claims, and gives exactly the reasons its claims give. *)
Theorem classify_verdict active force :
  let s := classify active false force in
  (state s = Worked <-> some_worked active /\ agree active) /\
  (state s = InConflict <-> some_worked active /\ ~ agree active) /\
  (state s = DidNotWork <-> ~ some_worked active) /\
  (duplicate s = true <-> state s = Worked /\ (1 < length active)%nat) /\
  (state s = Worked -> forall c, c ∈ active -> sh_label s = Some (label c)) /\
  (is_Some (conflict s) <-> state s = InConflict) /\
  (forall k ls, conflict s = Some (k, ls) -> NoDup ls /\ (forall l, l ∈ ls <-> exists c, c ∈ active /\ label c = l) /\
     (k = whetherWorked <-> some_not_worked active)) /\
  entryIds s ≡ₚ map entryId active /\
  (forall r, r ∈ readOnly s <-> exists c, c ∈ active /\ r ∈ reasons_of force c) /\
  (sh_open s = true <-> exists c, c ∈ active /\ open c = true).
Proof.
  intros s. destruct (classify_known active force) as [l E]. unfold s. rewrite E. cbv zeta. clear s E.
  assert (Hids : sort_by jcmp (map entryId active) ≡ₚ map entryId active) by apply sort_by_perm.
  assert (Hro : forall r, r ∈ sort_by (fun a b => jcmp (reason_text a) (reason_text b)) (first_seen (flat_map (reasons_of force) active)) <->
    exists c, c ∈ active /\ r ∈ reasons_of force c).
  { intros r. rewrite sort_by_perm, elem_of_first_seen. rewrite list_elem_of_In, in_flat_map. by setoid_rewrite list_elem_of_In. }
  assert (Hop : existsb open active = true <-> exists c, c ∈ active /\ open c = true).
  { rewrite existsb_exists. by setoid_rewrite list_elem_of_In. }
  destruct (bool_decide_reflect (some_worked active)) as [Hw|Hw]; [destruct (bool_decide_reflect (agree active)) as [Ha|Ha]|]; cbn; split_and!;
    try done; try (split; [done|tauto]); try tauto.
  - rewrite <-Nat.ltb_lt. split; [by intros H|by intros [_ H]].
  - intros _ c Hc. assert (labels_of active = [label c]) as ->; [|done]. apply one_label.
    split; [by intros ->; apply elem_of_nil in Hc|]. intros d Hd. by apply Ha.
  - split; [done|by intros [? _]].
  - intros k ls [= <- <-]. split; [apply labels_of_nodup|]. split; [intros x; apply labels_of_elem|].
    by destruct (bool_decide_reflect (some_not_worked active)).
  - split; [done|by intros [? _]].
Qed.

(** ** The claims *)

(** The ids of entries and projects are code units. *)
Definition mirror_units (m : Mirror) : Prop := forall r, r ∈ timeEntries m ->
  units (m_id r) /\ forall p, jget (js "projectId") (m_fields r) = Some (OStr p) -> units p.

Section ClaimsOf.
Context (other : jstr -> option Z).

Lemma clockifyClaim_total r now : day_ok (now / DAY) -> exists c, clockifyClaim other r now = Some c.
Proof.
  intros Hn. destruct (iso_text other now Hn) as (s & Es & _). unfold clockifyClaim. rewrite Es.
  destruct (negb _); [by eexists|]. destruct (match jget (js "end") (m_fields r) with Some ONull => true | Some _ => false | None => true end);
    cbn [mbind option_bind fmap option_fmap option_map]; by eexists.
Qed.

Lemma clockifyClaim_units r now c : units (m_id r) -> (forall p, jget (js "projectId") (m_fields r) = Some (OStr p) -> units p) ->
  clockifyClaim other r now = Some (Some c) -> claim_units c.
Proof.
  intros Hid Hp. unfold clockifyClaim. destruct (negb _); [done|].
  destruct (match jget (js "end") (m_fields r) with Some ONull => true | Some _ => false | None => true end);
    [destruct (toISOString now) as [s|]; [|done]|]; cbn [mbind option_bind fmap option_fmap option_map]; intros [= <-].
  all: split; [exact Hid|]; cbn [label]; unfold label_units; repeat case_match; simplify_eq; try done; by apply Hp.
Qed.

Lemma claimsOf_total m st now : day_ok (now / DAY) -> exists all, claimsOf other m st now = Some all.
Proof.
  intros Hn. unfold claimsOf.
  assert (is_Some (mapM (fun r => clockifyClaim other r now) (List.filter (claimant st) (timeEntries m)))) as [k ->]; [|by eexists].
  apply mapM_is_Some, Forall_forall. intros r _. by destruct (clockifyClaim_total r now Hn) as [c E]; exists c.
Qed.

Lemma claimsOf_units m st now all : mirror_units m -> claimsOf other m st now = Some all -> Forall claim_units all.
Proof.
  intros Hm. unfold claimsOf. destruct (mapM _ _) as [k|] eqn:Ek; [|done]. cbn [mbind option_bind]. intros [= <-].
  apply sort_by_forall, Forall_forall. intros c Hc. apply list_elem_of_omap in Hc as (oc & Hoc & Eoc). cbn in Eoc. subst oc.
  apply mapM_Some in Ek. apply list_elem_of_lookup in Hoc as (i & Hi).
  destruct (Forall2_lookup_r _ _ _ _ _ Ek Hi) as (r & Hr & Er).
  assert (Hin : r ∈ List.filter (claimant st) (timeEntries m)) by (by eapply list_elem_of_lookup_2).
  apply list_elem_of_In, filter_In in Hin as [Hin _]. apply list_elem_of_In in Hin. destruct (Hm r Hin).
  by apply (clockifyClaim_units r now).
Qed.
End ClaimsOf.

(** ** The timeline *)

Section BuildTimeline.
Context (Intl : jstr -> option (Z -> option Parts)) (other : jstr -> option Z) (off : Z -> Z).
Context (input : TimelineInput) (fuel : nat).
Context (Hlaw : zone_law Intl (timeZone input) off) (Hapart : day_apart off).
Context (Hfrom : safe (from (window input))) (Hnow : safe (now input)) (Hunits : mirror_units (i_mirror input)).
Context (Hfuel : (days_fuel (from (window input)) (now input) <= fuel)%nat).

(** What an instant is, when the days start at [s]. *)
Definition shape_in (s : Z) (all : list TimeClaim) (t : Z) : Shape :=
  shape_at other all (unknownIntervals other (i_mirror input) (settings input) (mkInterval s (now input)) (now input))
    (forceProjects input) t.

Definition inside_day (d : DaySpan) (a : Segment) : bool := (d_from d <=? seg_from a) && (seg_to a <=? d_to d).

Lemma buildTimeline_parts : exists n s0 s ds all atoms T,
  dayKey Intl (Some (from (window input))) (timeZone input) = Some (day_key n) /\
  startOfDay other Intl (day_key n) (timeZone input) = Some (Some s0) /\
  claimsOf other (i_mirror input) (settings input) (now input) = Some all /\
  buildTimeline other Intl fuel input = Ok T /\
  daysOf other Intl fuel (from (window input)) (now input) (timeZone input) = Ok ds /\
  tiled n s0 (now input) ds /\ s = (if decide (ds = []) then from (window input) else s0) /\
  run atoms /\ (forall f, faithful (List.filter f atoms)) /\
  (forall t h, shown atoms t h <-> s <= t < now input /\ h = shape_in s all t) /\
  (forall d, d ∈ ds -> forall t h, shown (List.filter (inside_day d) atoms) t h <-> d_from d <= t < d_to d /\ shown atoms t h) /\
  t_days T = map (fun d => (d, merge (List.filter (inside_day d) atoms))) ds /\
  conflicts T = map conflict_of (merge (List.filter is_conflicting atoms)) /\
  t_unknown T = unknownIntervals other (i_mirror input) (settings input) (window input) (now input).
Proof.
  destruct (daysOf_ok Intl other (timeZone input) off Hlaw Hapart fuel _ _ Hfrom Hnow Hfuel) as (n & s0 & ds & Ek & Es & Ed & Ht).
  assert (Hd : day_ok (now input / DAY)) by (unfold safe, day_ok in *; lia).
  destruct (claimsOf_total other (i_mirror input) (settings input) _ Hd) as [all Ea].
  pose proof (claimsOf_units other _ _ _ _ Hunits Ea) as Hu.
  set (s := if decide (ds = []) then from (window input) else s0).
  set (range := mkInterval s (now input)).
  set (unknown := unknownIntervals other (i_mirror input) (settings input) range (now input)).
  set (claims := omap (claim_span other range) all).
  set (atoms := map (atom claims unknown (forceProjects input)) (pairs_of (points_of range ds claims unknown))).
  exists n, s0, s, ds, all, atoms. eexists.
  split; [done|]. split; [done|]. split; [done|]. split; [|split; [done|]; split; [done|]; split; [done|]; split_and!].
  - unfold buildTimeline. rewrite Ed. cbn [mbind res_bind]. rewrite Ea. cbn [or_throws mbind res_bind].
    assert ((match ds with d :: _ => d_from d | [] => from (window input) end) = s) as ->; [|reflexivity].
    unfold s. destruct ds as [|d ds']; [done|]. rewrite decide_False by done. by destruct Ht as (_ & -> & _).
  - apply atoms_run.
  - by apply atoms_faithful.
  - intros t h. apply atoms_shown.
  - intros d Hdin t h. by apply day_shown.
  - reflexivity.
  - reflexivity.
  - reflexivity.
Qed.

(** C20 (functional). The timeline is always produced, with enough rounds for
    the days between its bounds: local days in a row, from the one that holds
    the start of the window up to now; and the segments of a day, instant by
    instant, are the day's instants, each with the shape that the claims on it
    and the unknown time give it, in order, no two that touch alike. *)
Theorem timeline_exact : exists n s T all,
  buildTimeline other Intl fuel input = Ok T /\
  dayKey Intl (Some (from (window input))) (timeZone input) = Some (day_key n) /\
  startOfDay other Intl (day_key n) (timeZone input) = Some (Some s) /\
  tiled n s (now input) (map fst (t_days T)) /\
  claimsOf other (i_mirror input) (settings input) (now input) = Some all /\
  forall d segments, (d, segments) ∈ t_days T ->
    run segments /\ merged segments /\
    forall t h, shown segments t h <-> d_from d <= t < d_to d /\ h = shape_in s all t.
Proof.
  destruct buildTimeline_parts as (n & s0 & s & ds & all & atoms & T & Ek & Es & Ea & ET & _ & Ht & Hs & Hr & Hf & Hat & Hday & Edays & _).
  exists n, s0, T, all. split; [done|]. split; [done|]. split; [done|]. rewrite Edays, map_map, map_id.
  split; [done|]. split; [done|]. intros d segs Hin. apply list_elem_of_In, in_map_iff in Hin as (d' & [= -> <-] & Hd).
  apply list_elem_of_In in Hd.
  assert (s = s0) as ->. { rewrite Hs. apply decide_False. intros ->. by apply elem_of_nil in Hd. }
  destruct (merge_merges (List.filter (inside_day d) atoms) (run_filter _ _ Hr) (Hf _)) as [Hrun Hsh Hm _].
  split; [done|]. split; [done|]. intros t h. rewrite Hsh, Hday, Hat by done.
  destruct (tiled_facts _ _ _ _ _ Ht Hd). split; [tauto|]. intros [? ?]. split_and!; try done; lia.
Qed.

Lemma shown_filter f l t h : shown (List.filter f l) t h <-> exists x, x ∈ l /\ covers x t /\ shape x = h /\ f x = true.
Proof.
  unfold shown. split.
  - intros (x & Hx & Hc & Hh). apply list_elem_of_In, filter_In in Hx as [Hx Hfx]. exists x. by rewrite list_elem_of_In.
  - intros (x & Hx & Hc & Hh & Hfx). exists x. split; [|done]. apply list_elem_of_In, filter_In. by rewrite <-list_elem_of_In.
Qed.

Lemma shown_conflicting l t h : shown (List.filter is_conflicting l) t h <->
  shown l t h /\ bool_decide (state h = InConflict) || duplicate h = true.
Proof.
  rewrite shown_filter. unfold is_conflicting, shown. split.
  - intros (x & Hx & Hc & <- & H). split; [by exists x|done].
  - intros [(x & Hx & Hc & <-) H]. by exists x.
Qed.

(** What makes a span part of a conflict list. *)
Lemma classify_conflicting active unknown force :
  let h := classify active unknown force in
  bool_decide (state h = InConflict) || duplicate h = true <->
    unknown = false /\ some_worked active /\ (2 <= length active)%nat.
Proof.
  destruct unknown; [split; [done|by intros [? _]]|]. cbv zeta.
  destruct (classify_known active force) as [l ->]. cbv zeta.
  destruct (bool_decide_reflect (some_worked active)) as [Hw|Hw]; [|split; [done|tauto]].
  destruct (bool_decide_reflect (agree active)) as [Ha|Ha]; cbn [state duplicate].
  - rewrite bool_decide_false by done. cbn [orb]. rewrite Nat.ltb_lt. split; [by intros ?|lia].
  - rewrite bool_decide_true by done. cbn [orb]. split; [intros _|done]. split_and!; [done..|].
    destruct active as [|c [|d rest]]; cbn; [by destruct Hw as (? & ?%elem_of_nil & _)| |lia].
    destruct Ha. by intros ? ? ->%list_elem_of_singleton ->%list_elem_of_singleton.
Qed.

(** What is said of a conflicting span. *)
Lemma classify_conflict active force f e : let h := classify active false force in
  bool_decide (state h = InConflict) || duplicate h = true ->
  let k := conflict_of (mkSegment f e h) in
  tc_entryIds k ≡ₚ map entryId active /\ (tc_kind k = None <-> agree active) /\
  (tc_kind k = Some whetherWorked <-> some_not_worked active) /\
  (forall l, l ∈ candidates k <-> exists c, c ∈ active /\ label c = l).
Proof.
  intros h Hh. apply classify_conflicting in Hh as Hc. destruct Hc as (_ & Hw & Hlen). unfold h in *. clear h.
  destruct (classify_known active force) as [l E]. rewrite E in *. cbv zeta in *. clear E.
  rewrite bool_decide_true in * by done.
  destruct (bool_decide_reflect (agree active)) as [Ha|Ha]; unfold conflict_of; cbn in *.
  - assert (Hd : (1 <? length active)%nat = true) by (rewrite Nat.ltb_lt; lia). change (match length active with
      | S (S _) => true | _ => false end) with (1 <? length active)%nat. rewrite Hd. cbn.
    split; [apply sort_by_perm|]. split; [done|]. destruct Hw as (c & Hc & Hw). split.
    + split; [done|]. intros (d & Hd' & Hn). by rewrite (Ha d c), Hw in Hn.
    + intros x. assert (labels_of active = [label c]) as ->. { apply one_label. split; [by intros ->; apply elem_of_nil in Hc|]. by intros d Hd'; apply Ha. }
      cbn. rewrite list_elem_of_singleton. split; [intros ->; by exists c|]. intros (d & Hd' & <-). by apply Ha.
  - split; [apply sort_by_perm|]. split; [done|]. split; [|apply labels_of_elem].
    by destruct (bool_decide_reflect (some_not_worked active)).
Qed.

(** C21 (safety). The conflicts of a timeline are exactly what is in conflict:
    an instant of its days is in one of them just when it is known, two
    claims or more are on it and one of them says worked.  They are in order
    and apart, and each names all the entries on each of its instants and
    their labels, is a duplicate when these all say the same, and is about
    whether there was work when one says there was none. *)
Theorem conflicts_exact key s T all :
  dayKey Intl (Some (from (window input))) (timeZone input) = Some key ->
  startOfDay other Intl key (timeZone input) = Some (Some s) ->
  claimsOf other (i_mirror input) (settings input) (now input) = Some all ->
  buildTimeline other Intl fuel input = Ok T ->
  let unknown := unknownIntervals other (i_mirror input) (settings input) (mkInterval s (now input)) (now input) in
  let on t := List.filter (claim_at other t) all in
  (forall t, s <= t < now input ->
     (exists k, k ∈ conflicts T /\ tc_from k <= t < tc_to k) <->
       existsb (fun u => holds u t) unknown = false /\ some_worked (on t) /\ (2 <= length (on t))%nat) /\
  StronglySorted (fun x y => tc_to x <= tc_from y) (conflicts T) /\
  forall k, k ∈ conflicts T -> tc_from k < tc_to k /\ forall t, tc_from k <= t < tc_to k ->
     tc_entryIds k ≡ₚ map entryId (on t) /\ (tc_kind k = None <-> agree (on t)) /\
     (tc_kind k = Some whetherWorked <-> some_not_worked (on t)) /\
     (forall l, l ∈ candidates k <-> exists c, c ∈ on t /\ label c = l).
Proof.
  intros Ek Es Ea ET.
  destruct buildTimeline_parts as (n & s0 & s' & ds & all' & atoms & T' & Ek' & Es' & Ea' & ET' & _ & Ht & Hs & Hr & Hf & Hat & _ & _ & Ec & _).
  rewrite Ek in Ek'. injection Ek' as ->. rewrite Es in Es'. injection Es' as <-. rewrite Ea in Ea'. injection Ea' as <-.
  rewrite ET in ET'. injection ET' as <-. rewrite Ec.
  destruct (merge_merges (List.filter is_conflicting atoms) (run_filter _ _ Hr) (Hf _)) as [Hrun Hsh _ _].
  set (spans := merge _) in *. clearbody spans.
  assert (Hin : forall t h, shown spans t h <-> s' <= t < now input /\ h = shape_in s' all t /\
    bool_decide (state h = InConflict) || duplicate h = true).
  { intros t h. rewrite Hsh, shown_conflicting, Hat. tauto. }
  split; [|split].
  - intros t Hts. assert (s' = s) as ->. { rewrite Hs. apply decide_False. intros ->. cbn in Ht. lia. }
    rewrite <-(classify_conflicting _ _ (forceProjects input)). cbv zeta. fold (shape_at other all
      (unknownIntervals other (i_mirror input) (settings input) (mkInterval s (now input)) (now input)) (forceProjects input) t).
    fold (shape_in s all t). setoid_rewrite list_elem_of_fmap. split.
    + intros (k & (x & -> & Hx) & Hk). destruct (proj1 (Hin t (shape x))) as (_ & <- & H); [by exists x|done].
    + intros H. destruct (proj2 (Hin t (shape_in s all t))) as (x & Hx & Hxt & _); [done|].
      exists (conflict_of x). split; [by exists x|done].
  - eapply sorted_map; [|exact (proj1 Hrun)]. done.
  - intros k (x & -> & Hx)%list_elem_of_fmap. destruct Hrun as [_ Hpos]. rewrite Forall_forall in Hpos.
    split; [by apply Hpos|]. intros t Hk. destruct (proj1 (Hin t (shape x))) as (_ & Hh & H); [by exists x|].
    destruct x as [f e h]. cbn [shape] in *. subst h. unfold shape_in, shape_at in *.
    apply classify_conflicting in H as H'. destruct H' as [Hu _]. rewrite Hu in *. by apply classify_conflict.
Qed.
End BuildTimeline.

(** ** One timeline for one mirror *)

(** A run of segments that touch only when different is determined by what it shows. *)
Lemma shown_cons s l t h : shown (s :: l) t h <-> (covers s t /\ shape s = h) \/ shown l t h.
Proof. unfold shown. setoid_rewrite elem_of_cons. naive_solver. Qed.

Lemma run_cons s l : run (s :: l) <-> run l /\ seg_from s < seg_to s /\ forall x, x ∈ l -> seg_to s <= seg_from x.
Proof.
  unfold run. split.
  - intros [Hs Hp]. inversion Hs as [|? ? Hs' Hx]; subst. apply Forall_cons in Hp as [? ?]. rewrite Forall_forall in Hx. tauto.
  - intros ([Hs Hp] & Hlt & Hx). split; [constructor; [done|by apply Forall_forall]|by constructor].
Qed.

Lemma merged_tail s l : merged (s :: l) -> merged l.
Proof. intros H l1 x y l2 ->. by apply (H (s :: l1) x y l2). Qed.

(** What is shown at the end of the first segment is not its shape. *)
Lemma merged_head s l : run (s :: l) -> merged (s :: l) -> ~ shown (s :: l) (seg_to s) (shape s).
Proof.
  intros Hr Hm [[Hc _]|(x & Hx & Hc & Hh)]%shown_cons; unfold covers in *; [lia|].
  apply run_cons in Hr as (Hr & Hlt & Hall). pose proof (Hall x Hx) as Hle.
  destruct l as [|y l]; [by apply elem_of_nil in Hx|]. apply run_cons in Hr as (_ & Hy & Hrest).
  apply elem_of_cons in Hx as [->|Hx].
  - apply (Hm [] s y l eq_refl); [lia|done].
  - pose proof (Hrest x Hx). assert (seg_to s <= seg_from y) by (apply Hall; by left). lia.
Qed.

Lemma head_from s l k : run (s :: l) -> run k -> (forall t h, shown k t h -> shown (s :: l) t h) ->
  forall x, x ∈ k -> seg_from s <= seg_from x.
Proof.
  intros Hs [_ Hp] H x Hx. rewrite Forall_forall in Hp. apply run_cons in Hs as (_ & Hlt & Hall).
  destruct (H (seg_from x) (shape x)) as (y & Hy & Hc & _).
  { exists x. split; [done|]. split; [|done]. unfold covers. specialize (Hp x Hx). lia. }
  unfold covers in Hc. apply elem_of_cons in Hy as [->|Hy]; [lia|]. specialize (Hall y Hy). lia.
Qed.

Lemma head_to x l y k : run (x :: l) -> run (y :: k) -> merged (x :: l) -> seg_from x = seg_from y -> shape x = shape y ->
  (forall t h, shown (y :: k) t h -> shown (x :: l) t h) -> seg_to y <= seg_to x.
Proof.
  intros Hx Hy Hm Ef Eh H. destruct (Z.le_gt_cases (seg_to y) (seg_to x)) as [|Hgt]; [done|]. exfalso.
  apply (merged_head x l Hx Hm), H, shown_cons. left. apply run_cons in Hx as (_ & Hlt & _). unfold covers. split; [lia|done].
Qed.

Lemma tail_shown x l t h : run (x :: l) -> shown l t h <-> shown (x :: l) t h /\ seg_to x <= t.
Proof.
  intros Hr. rewrite shown_cons. unfold covers. split.
  - intros Hs. split; [by right|]. destruct Hs as (y & Hy & Hc & _). apply run_cons in Hr as (_ & _ & Hall).
    specialize (Hall y Hy). unfold covers in Hc. lia.
  - intros [[[Hc _]|Hs] Ht]; [lia|done].
Qed.

Lemma run_determined l k : run l -> run k -> merged l -> merged k -> (forall t h, shown l t h <-> shown k t h) -> l = k.
Proof.
  revert k. induction l as [|x l IH]; intros k Hl Hk Hml Hmk H.
  - destruct k as [|y k]; [done|]. apply run_cons in Hk as (_ & Hlt & _).
    destruct (proj2 (H (seg_from y) (shape y))) as (z & Hz & _); [|by apply elem_of_nil in Hz].
    apply shown_cons. left. unfold covers. split; [lia|done].
  - destruct k as [|y k].
    { apply run_cons in Hl as (_ & Hlt & _). destruct (proj1 (H (seg_from x) (shape x))) as (z & Hz & _); [|by apply elem_of_nil in Hz].
      apply shown_cons. left. unfold covers. split; [lia|done]. }
    assert (Ef : seg_from x = seg_from y).
    { apply Z.le_antisymm; [apply (head_from x l (y :: k))|apply (head_from y k (x :: l))]; try done; try by left; intros t h; apply H.
      all: intros t h; apply H. }
    assert (Eh : shape x = shape y).
    { apply run_cons in Hl as Hl'. destruct Hl' as (_ & Hlt & _). apply run_cons in Hk as Hk'. destruct Hk' as (_ & Hlt' & _).
      apply (run_unique (y :: k) (seg_from x)); [done|apply H|]; apply shown_cons; left; unfold covers; (split; [lia|done]). }
    assert (Et : seg_to x = seg_to y).
    { apply Z.le_antisymm; [apply (head_to y k x l)|apply (head_to x l y k)]; try done; intros t h; apply H. }
    assert (x = y) as -> by (destruct x, y; cbn in *; by subst). f_equal.
    apply IH; [by apply run_cons in Hl as [? _]|by apply run_cons in Hk as [? _]|by eapply merged_tail..|].
    intros t h. rewrite (tail_shown y l), (tail_shown y k), H by done. done.
Qed.

(** ** The order of the records *)

Lemma existsb_depth l t : existsb (fun u => holds u t) l = (0 <? depth l t)%nat.
Proof. unfold depth. induction l as [|u l IH]; [done|]. cbn [existsb List.filter]. rewrite IH. by destruct (holds u t). Qed.

Section Permuted.
Context (other : jstr -> option Z).

Lemma claim_origin r now c : clockifyClaim other r now = Some (Some c) -> entryId c = m_id r /\ is_Some (Date_parse other (cl_from c)).
Proof.
  unfold clockifyClaim. destruct (negb _) eqn:En; [done|].
  assert (Hf : is_Some (Date_parse other (text_of (jget (js "start") (m_fields r))))).
  { apply negb_false_iff in En. unfold instant at 1 in En. destruct (jget (js "start") (m_fields r)) as [[]|]; try done.
    cbn [text_of]. by destruct (Date_parse other s). }
  destruct (match jget (js "end") (m_fields r) with Some ONull => true | Some _ => false | None => true end);
    [destruct (toISOString now) as [s|]; [|done]|]; cbn [mbind option_bind fmap option_fmap option_map]; by intros [= <-].
Qed.

Lemma claimsOf_perm m1 m2 st now all : timeEntries m1 ≡ₚ timeEntries m2 -> NoDup (map m_id (timeEntries m1)) ->
  day_ok (now / DAY) -> claimsOf other m1 st now = Some all -> claimsOf other m2 st now = Some all.
Proof.
  intros Hp Hnd Hnow. unfold claimsOf.
  set (g r := default None (clockifyClaim other r now)).
  assert (Hg : forall l, mapM (fun r => clockifyClaim other r now) l = Some (map g l)).
  { induction l as [|r l IH]; [done|]. cbn [mapM map]. unfold mapM in IH |- *. rewrite IH. unfold g.
    by destruct (clockifyClaim_total other r now Hnow) as [c ->]. }
  rewrite !Hg. cbn [mbind option_bind]. intros [= <-]. f_equal.
  set (start c := default 0 (Date_parse other (cl_from c))).
  set (cmp := lex (fun a b => start a - start b) (fun a b => jcmp (entryId a) (entryId b))).
  assert (Hfrom : forall m c, c ∈ omap id (map g (List.filter (claimant st) (timeEntries m))) ->
    exists r, r ∈ timeEntries m /\ clockifyClaim other r now = Some (Some c)).
  { intros m c (o & Ho & Eo)%list_elem_of_omap. cbn in Eo. subst o. apply list_elem_of_In, in_map_iff in Ho as (r & Er & Hr).
    apply filter_In in Hr as [Hr _]. exists r. split; [by apply list_elem_of_In|]. unfold g in Er.
    destruct (clockifyClaim_total other r now Hnow) as [c' E]. rewrite E in *. cbn in Er. by subst. }
  assert (Hsort : forall m, sort_by (compare_claims other) (omap id (map g (List.filter (claimant st) (timeEntries m)))) =
    sort_by cmp (omap id (map g (List.filter (claimant st) (timeEntries m))))).
  { intros m. apply (sort_by_ext cmp). intros x y Hx Hy. destruct (Hfrom m x Hx) as (? & _ & Ex). destruct (Hfrom m y Hy) as (? & _ & Ey).
    apply claim_origin in Ex as [_ [fx Ex]], Ey as [_ [fy Ey]]. unfold compare_claims, cmp, lex, start. by rewrite Ex, Ey. }
  rewrite !Hsort. symmetry. apply (sort_by_permutation cmp).
  - intros x y Hx Hy H0. destruct (Hfrom m1 x Hx) as (r & Hr & Ex). destruct (Hfrom m1 y Hy) as (r' & Hr' & Ey).
    apply claim_origin in Ex as Ix. apply claim_origin in Ey as Iy. unfold cmp, lex in H0.
    assert (entryId x = entryId y) as E. { apply jcmp_zero. revert H0. by destruct (start x - start y =? 0) eqn:Ez; [|breflect]. }
    assert (r = r') as <-; [|congruence]. apply (nodup_map_inj m_id (timeEntries m1)); [done..|]. destruct Ix, Iy. congruence.
  - apply omap_Permutation, Permutation_map, filter_perm. done.
Qed.

Lemma timeEntries_perm m1 m2 : m_records m1 ≡ₚ m_records m2 -> timeEntries m1 ≡ₚ timeEntries m2.
Proof. intros H. apply filter_perm. by apply Permutation_map. Qed.

Lemma timeEntries_nodup m : records_ok (m_records m) -> NoDup (map m_id (timeEntries m)).
Proof.
  intros [Hnd Hk]. unfold timeEntries, jvalues, jkeys in *. assert (Hin : forall p, p ∈ m_records m -> p.1 = recordKey (m_collection p.2) (m_id p.2)).
  { intros [k r] Hp. apply Hk, jget_elem; done. }
  clear Hk. induction (m_records m) as [|[k r] l IH]; [constructor|]. cbn [map] in Hnd. apply NoDup_cons in Hnd as [Hn Hnd].
  cbn [map snd List.filter]. assert (IH' := IH Hnd (fun p Hp => Hin p ltac:(by right))). destruct (jeqb (m_collection r) TIME_ENTRY) eqn:E; [|done].
  cbn [map]. apply NoDup_cons. split; [|done]. intros (x & Ex & Hx)%list_elem_of_fmap. apply list_elem_of_In, filter_In in Hx as [Hx Hc].
  apply list_elem_of_In, list_elem_of_fmap in Hx as ([k' r'] & -> & Hp). apply Hn, list_elem_of_fmap. exists (k', r'). split; [|done].
  unfold jeqb in *. breflect. pose proof (Hin (k, r) ltac:(by left)) as Ek. pose proof (Hin (k', r') ltac:(by right)) as Ek'. cbn in *. congruence.
Qed.
End Permuted.

Section Deterministic.
Context (Intl : jstr -> option (Z -> option Parts)) (other : jstr -> option Z) (off : Z -> Z).
Context (input : TimelineInput) (fuel : nat) (m : Mirror).

Definition with_mirror : TimelineInput := mkInput m (settings input) (window input) (now input) (timeZone input) (forceProjects input).

(** A timeline does not depend on the order of the records
    it is made from: from the same records and the same coverage, in whatever
    order they were folded, come the same days with the same segments, the
    same conflicts, and the same unknown time. *)
Theorem timeline_deterministic : zone_law Intl (timeZone input) off -> day_apart off ->
  safe (from (window input)) -> safe (now input) -> mirror_units (i_mirror input) ->
  (days_fuel (from (window input)) (now input) <= fuel)%nat ->
  records_ok (m_records (i_mirror input)) -> m_records (i_mirror input) ≡ₚ m_records m -> coverage (i_mirror input) = coverage m ->
  exists T T', buildTimeline other Intl fuel input = Ok T /\ buildTimeline other Intl fuel with_mirror = Ok T' /\
    t_days T = t_days T' /\ conflicts T = conflicts T' /\ forall t, depth (t_unknown T) t = depth (t_unknown T') t.
Proof.
  intros Hlaw Hap Hf Hn Hu Hfuel Hok Hp Hc.
  pose proof (timeEntries_perm _ _ Hp) as He. pose proof (timeEntries_nodup _ Hok) as Hnd.
  assert (Hu' : mirror_units m) by (intros r Hr; apply Hu; by rewrite He).
  destruct (buildTimeline_parts Intl other off input fuel Hlaw Hap Hf Hn Hu Hfuel)
    as (n & s0 & s & ds & all & atoms & T & Ek & Es & Ea & ET & Ed & _ & Hs & Hr & Hfa & Hat & Hday & Edays & Ec & Eu).
  destruct (buildTimeline_parts Intl other off with_mirror fuel Hlaw Hap Hf Hn Hu' Hfuel)
    as (n' & s0' & s' & ds' & all' & atoms' & T' & Ek' & Es' & Ea' & ET' & Ed' & _ & Hs' & Hr' & Hfa' & Hat' & Hday' & Edays' & Ec' & Eu').
  cbn [window now timeZone settings i_mirror with_mirror] in *.
  rewrite Ek in Ek'. injection Ek' as Ek'. rewrite <-Ek', Es in Es'. injection Es' as <-. rewrite Ed in Ed'. injection Ed' as <-.
  assert (s' = s) as -> by by rewrite Hs, Hs'. clear Hs Hs'.
  assert (Hd : day_ok (now input / DAY)) by (unfold safe, day_ok in *; lia).
  rewrite (claimsOf_perm other _ m _ _ all He Hnd Hd Ea) in Ea'. injection Ea' as <-.
  assert (Hdepth : forall w t, depth (unknownIntervals other (i_mirror input) (settings input) w (now input)) t =
    depth (unknownIntervals other m (settings input) w (now input)) t) by (intros; by apply unknown_depth_perm).
  assert (Hsame : forall t h, shown atoms t h <-> shown atoms' t h).
  { intros t h. rewrite Hat, Hat'. unfold shape_in, shape_at. cbn. rewrite !existsb_depth, Hdepth. done. }
  assert (Hmerge : forall f f', (forall t h, shown (List.filter f atoms) t h <-> shown (List.filter f' atoms') t h) ->
    merge (List.filter f atoms) = merge (List.filter f' atoms')).
  { intros f f' H. destruct (merge_merges (List.filter f atoms) (run_filter _ _ Hr) (Hfa _)) as [R1 S1 M1 _].
    destruct (merge_merges (List.filter f' atoms') (run_filter _ _ Hr') (Hfa' _)) as [R2 S2 M2 _].
    apply run_determined; [done..|]. intros t h. by rewrite S1, S2. }
  exists T, T'. split; [done|]. split; [done|]. rewrite Edays, Edays', Ec, Ec', Eu, Eu'. split_and!; [| |apply Hdepth].
  - apply map_ext_in. intros d Hin. apply list_elem_of_In in Hin. f_equal. apply Hmerge. intros t h. by rewrite Hday, Hday', Hsame.
  - f_equal. apply Hmerge. intros t h. rewrite !shown_conflicting. by rewrite Hsame.
Qed.
End Deterministic.

Module Demo.
Import Zones.Demo.

Definition account : Account := Clockify.Demo.account.

(** An entry, by the fields the timeline reads. *)
Definition entry (id start end_ type : string) (project : Json) : jstr * MirrorRecord :=
  (recordKey TIME_ENTRY (js id),
   mkRecord (js id) TIME_ENTRY
     [(js "start", OStr (js start)); (js "end", OStr (js end_)); (js "type", OStr (js type)); (js "projectId", project)]
     (js "2026-09-23") None None).

(** Two entries that overlap, two for the same hour, and a break. *)
Definition entries : list (jstr * MirrorRecord) :=
  [entry "e1" "2026-09-21T06:00:00Z" "2026-09-21T08:00:00Z" "REGULAR" (OStr (js "p1"));
   entry "e2" "2026-09-21T07:00:00Z" "2026-09-21T09:00:00Z" "REGULAR" ONull;
   entry "e3" "2026-09-22T06:00:00Z" "2026-09-22T07:00:00Z" "REGULAR" (OStr (js "p1"));
   entry "e4" "2026-09-22T06:00:00Z" "2026-09-22T07:00:00Z" "REGULAR" (OStr (js "p1"));
   entry "e5" "2026-09-22T08:00:00Z" "2026-09-22T08:30:00Z" "BREAK" ONull].

Definition mirror : Mirror := mkMirror entries
  [Observations.mkSegment (account_key account) (js "2026-09-18") (js "2026-09-23") (js "2026-09-23")].

Definition input : TimelineInput :=
  mkInput mirror account (mkInterval (ms "2026-09-21T10:00:00Z") (ms "2026-09-28")) (ms "2026-09-23T06:00:00Z") TZ false.

(** The spans of the days: what each is, and when. *)
Definition spans : list (jstr * list (SegmentState * Z * Z)) :=
  match buildTimeline none Intl 20 input with
  | Ok T => map (fun d => (Timeline.day d.1, map (fun s => (state (shape s), seg_from s, seg_to s)) d.2)) (t_days T)
  | Err _ => []
  end.
Definition conflict_spans : list (list jstr * option ConflictKind * Z * Z) :=
  match buildTimeline none Intl 20 input with
  | Ok T => map (fun k => (tc_entryIds k, tc_kind k, tc_from k, tc_to k)) (conflicts T)
  | Err _ => []
  end.

Example demo_spans : spans =
  [(js "2026-09-21",
    [(DidNotWork, ms "2026-09-20T22:00:00Z", ms "2026-09-21T06:00:00Z"); (Worked, ms "2026-09-21T06:00:00Z", ms "2026-09-21T07:00:00Z");
     (InConflict, ms "2026-09-21T07:00:00Z", ms "2026-09-21T08:00:00Z"); (Worked, ms "2026-09-21T08:00:00Z", ms "2026-09-21T09:00:00Z");
     (DidNotWork, ms "2026-09-21T09:00:00Z", ms "2026-09-21T22:00:00Z")]);
   (js "2026-09-22",
    [(DidNotWork, ms "2026-09-21T22:00:00Z", ms "2026-09-22T06:00:00Z"); (Worked, ms "2026-09-22T06:00:00Z", ms "2026-09-22T07:00:00Z");
     (DidNotWork, ms "2026-09-22T07:00:00Z", ms "2026-09-22T08:00:00Z"); (DidNotWork, ms "2026-09-22T08:00:00Z", ms "2026-09-22T08:30:00Z");
     (DidNotWork, ms "2026-09-22T08:30:00Z", ms "2026-09-22T22:00:00Z")]);
   (js "2026-09-23",
    [(DidNotWork, ms "2026-09-22T22:00:00Z", ms "2026-09-23"); (Unknown, ms "2026-09-23", ms "2026-09-23T06:00:00Z")])].
Proof. by vm_compute. Qed.

Example demo_conflicts : conflict_spans =
  [([js "e1"; js "e2"], Some whichProject, ms "2026-09-21T07:00:00Z", ms "2026-09-21T08:00:00Z");
   ([js "e3"; js "e4"], None, ms "2026-09-22T06:00:00Z", ms "2026-09-22T07:00:00Z")].
Proof. by vm_compute. Qed.

Lemma input_safe : safe (from (window input)) /\ safe (now input).
Proof. split; apply Clockify.Demo.in_days; by vm_compute. Qed.

Lemma entries_units : mirror_units mirror.
Proof.
  intros r Hr. assert (E : timeEntries mirror = map snd entries) by by vm_compute. rewrite E in Hr. clear E.
  unfold entries in Hr. cbn [map snd] in Hr. rewrite !elem_of_cons, elem_of_nil in Hr.
  destruct Hr as [->|[->|[->|[->|[->|[]]]]]]; (split; [apply units_js|]); intros p Hp;
    vm_compute in Hp; first [discriminate Hp|injection Hp as <-; unfold units; by_decide].
Qed.

Lemma timeline_exact_witness : exists T, buildTimeline none Intl 20 input = Ok T /\
  forall d segments, (d, segments) ∈ t_days T -> run segments /\ merged segments.
Proof.
  destruct input_safe as [Hf Hn].
  destruct (timeline_exact Intl none amsterdam input 20 amsterdam_law (proj2 amsterdam_settled) Hf Hn entries_units ltac:(by_decide))
    as (n & s & T & all & ET & _ & _ & _ & _ & H).
  exists T. split; [done|]. intros d segments Hd. destruct (H d segments Hd) as (H1 & H2 & _). by split.
Defined.

Lemma conflicts_exact_witness : exists T, buildTimeline none Intl 20 input = Ok T /\ exists k, k ∈ conflicts T /\ tc_from k <= ms "2026-09-21T07:30:00Z" < tc_to k.
Proof.
  destruct (buildTimeline none Intl 20 input) as [T|] eqn:ET; [|by vm_compute in ET]. exists T. split; [done|].
  destruct input_safe as [Hf Hn]. destruct (claimsOf none mirror account (now input)) as [all|] eqn:Ea; [|by vm_compute in Ea].
  assert (Ek : dayKey Intl (Some (from (window input))) (timeZone input) = Some (js "2026-09-21")) by by vm_compute.
  assert (Es : startOfDay none Intl (js "2026-09-21") (timeZone input) = Some (Some (ms "2026-09-20T22:00:00Z"))) by by vm_compute.
  pose proof (conflicts_exact Intl none amsterdam input 20 amsterdam_law (proj2 amsterdam_settled) Hf Hn entries_units ltac:(by_decide)
    _ _ T all Ek Es Ea ET) as [H _].
  vm_compute in Ea. injection Ea as <-. apply (proj2 (H (ms "2026-09-21T07:30:00Z") ltac:(by_decide))).
  split; [by vm_compute|]. split; [|by vm_compute; lia]. eexists. split; [by left|by vm_compute].
Defined.

Definition reordered : Mirror := mkMirror (rev entries) (coverage mirror).

Lemma timeline_deterministic_witness : exists T T', buildTimeline none Intl 20 input = Ok T /\
  buildTimeline none Intl 20 (with_mirror input reordered) = Ok T' /\ t_days T = t_days T' /\ conflicts T = conflicts T'.
Proof.
  destruct input_safe as [Hf Hn].
  destruct (timeline_deterministic Intl none amsterdam input 20 reordered amsterdam_law (proj2 amsterdam_settled) Hf Hn entries_units
    ltac:(by_decide)) as (T & T' & H1 & H2 & H3 & H4 & _); [|exact (Permutation_rev entries)|reflexivity|exact (ex_intro _ T (ex_intro _ T' (conj H1 (conj H2 (conj H3 H4)))))].
  split; [by_decide|]. intros k r Hk. apply jget_elem in Hk; [|by_decide]. change (m_records (i_mirror input)) with entries in Hk.
  unfold entries in Hk.
  rewrite !elem_of_cons, elem_of_nil in Hk. by destruct Hk as [[= -> ->]|[[= -> ->]|[[= -> ->]|[[= -> ->]|[[= -> ->]|[]]]]]].
Defined.
End Demo.
