(* ===== verification/Projection.v ===== *)
(** * What a sync shows of Clockify's entries

    Models the rest of [src/integrations/timesheets/app/clockifyApi.ts] (the
    account, the setup options, projects and members),
    [devonian/clockify/lens/projection.ts] (the lens on a fetched platform)
    and [app/project.ts] (the lens run over this app's records).

    The ids of time entries are texts, as their type says; projects and
    members are whatever the provider answered.  Identity of ontology terms
    is their position. *)
From S2P Require Import Prelude Unicode Text Collections JsDate Json Uri Observations Zones Clockify.
Local Open Scope Z_scope.

(** ** clockifyApi.ts *)

(** [error.message]. *)
Definition message (e : Fault) : jstr :=
  match e with
  | OtherError m => m
  | ProxyError path status body =>
      js "Clockify request " ++ path ++ js " failed with " ++ dec_signed status ++
      match omember (js "message") body with Some v => js ": " ++ String_of v | None => [] end
  end.

(** A 403 or a 404 of the provider. *)
(* src: integrations/timesheets/app/clockifyApi.ts 101-102 fetchAccountContext ! *)
Definition is_soft (e : Fault) : bool :=
  match e with ProxyError _ status _ => (status =? 403) || (status =? 404) | OtherError _ => false end.

Section Api.
Context (transport : ProxyTransport).

(* src: integrations/timesheets/app/clockifyApi.ts 42-54 fetchAllPages ! *)
Fixpoint all_pages (fuel : nat) (path : jstr) (page : Z) (all : list Json) : res Fault (list Json) :=
  match fuel with
  | O => Err (OtherError (js "Clockify " ++ path ++ js " returned more than " ++ dec MAX_PAGES ++ js " pages"))
  | S fuel =>
      body ← requestJson transport path [(js "page", dec_signed page); (js "page-size", dec PAGE_SIZE)];
      match body with
      | Some (OArr items) =>
          if len items <? PAGE_SIZE then Ok (all ++ items) else all_pages fuel path (page + 1) (all ++ items)
      | _ => Err (OtherError (js "Clockify " ++ path ++ js " did not return a list"))
      end
  end.

(* src: integrations/timesheets/app/clockifyApi.ts 35-55 fetchAllPages *)
Definition fetchAllPages (path : jstr) : res Fault (list Json) := all_pages (Z.to_nat MAX_PAGES) path 1 [].

(* src: integrations/timesheets/app/clockifyApi.ts 69-85 AccountContext *)
Record AccountContext := mkContext {
  a_timeZone : option jstr;
  a_forceProjects : option bool;
  weekStart : option jstr;
  userName : option jstr;
  workspaceName : option jstr;
  a_warnings : list jstr;
}.

Definition no_context : AccountContext := mkContext None None None None None [].

Definition warn (c : AccountContext) (w : jstr) : AccountContext :=
  mkContext (a_timeZone c) (a_forceProjects c) (weekStart c) (userName c) (workspaceName c) (a_warnings c ++ [w]).

(** A text that is not empty. *)
Definition some_text (v : option Json) : option jstr := match v with Some (OStr ((_ :: _) as s)) => Some s | _ => None end.

(* src: integrations/timesheets/app/clockifyApi.ts 99-106 fetchAccountContext ! *)
Definition soft (c : AccountContext) (e : Fault) : res Fault AccountContext :=
  if is_soft e then Ok (warn c (message e)) else Err e.

(** What the answer about the user adds. *)
(* src: integrations/timesheets/app/clockifyApi.ts 110-119 fetchAccountContext ! *)
Definition read_user (Intl : jstr -> option (Z -> option Parts)) (c : AccountContext) (user : option Json) : AccountContext :=
  let settings := omember (js "settings") user in
  let zone := omember (js "timeZone") settings in
  let c := match omember (js "weekStart") settings with
           | Some (OStr w) => mkContext (a_timeZone c) (a_forceProjects c) (Some w) (userName c) (workspaceName c) (a_warnings c)
           | _ => c
           end in
  let c := match some_text (nullish (omember (js "name") user) (omember (js "email") user)) with
           | Some n => mkContext (a_timeZone c) (a_forceProjects c) (weekStart c) (Some n) (workspaceName c) (a_warnings c)
           | None => c
           end in
  if isTimeZone Intl zone
  then mkContext (Some (text_of zone)) (a_forceProjects c) (weekStart c) (userName c) (workspaceName c) (a_warnings c)
  else warn c (js "Clockify did not name a known time zone for this account; the window is read less precisely.").

(** What the answer about the workspaces adds. *)
(* src: integrations/timesheets/app/clockifyApi.ts 129-135 fetchAccountContext ! *)
Definition read_workspaces (workspaceId : jstr) (c : AccountContext) (workspaces : option Json) : AccountContext :=
  let workspace := List.find (fun w => match member (js "id") w with Some (OStr s) => jeqb s workspaceId | _ => false end)
                     (elements_of workspaces) in
  let c := match some_text (omember (js "name") workspace) with
           | Some n => mkContext (a_timeZone c) (a_forceProjects c) (weekStart c) (userName c) (Some n) (a_warnings c)
           | None => c
           end in
  match omember (js "forceProjects") (omember (js "settings") workspace) with
  | Some (OBool b) => mkContext (a_timeZone c) (Some b) (weekStart c) (userName c) (workspaceName c) (a_warnings c)
  | _ => c
  end.

(* src: integrations/timesheets/app/clockifyApi.ts 87-141 fetchAccountContext *)
Definition fetchAccountContext (Intl : jstr -> option (Z -> option Parts)) (workspaceId : jstr) : res Fault AccountContext :=
  c ← match requestJson transport (js "/api/v1/user") [] with
      | Ok user => Ok (read_user Intl no_context user)
      | Err e => soft no_context e
      end;
  match requestJson transport (js "/api/v1/workspaces") [] with
  | Ok workspaces => Ok (read_workspaces workspaceId c workspaces)
  | Err e => soft c e
  end.

(* src: integrations/timesheets/app/clockifyApi.ts 148-172 fetchSetupOptions *)
Definition fetchSetupOptions : res Fault (Json * list Json) :=
  user ← requestJson transport (js "/api/v1/user") [];
  match user, some_text (omember (js "id") user) with
  | Some user, Some _ =>
      workspaces ← requestJson transport (js "/api/v1/workspaces") [];
      match workspaces with
      | Some (OArr l) => Ok (user, List.filter (fun w => is_text (member (js "id") w) && is_text (member (js "name") w)) l)
      | _ => Err (OtherError (js "Clockify /api/v1/workspaces did not return a list"))
      end
  | _, _ => Err (OtherError (js "Clockify did not say which account is connected"))
  end.

(* src: integrations/timesheets/app/clockifyApi.ts 174-199 fetchNamed *)
Definition fetchNamed (workspaceId collection : jstr) : res Fault (list Json * option jstr) :=
  match (w ← encode workspaceId; fetchAllPages (js "/api/v1/workspaces/" ++ w ++ js "/" ++ collection)) with
  | Ok items => Ok (items, None)
  | Err e => if is_soft e then Ok ([], Some (message e)) else Err e
  end.
End Api.

(** ** projection.ts *)

(* src: integrations/timesheets/devonian/clockify/lens/projection.ts 10-10 CLOCKIFY_PLATFORM *)
Definition CLOCKIFY_PLATFORM : jstr := js "clockify".
(* src: integrations/timesheets/devonian/clockify/lens/projection.ts 11-11 TIME_ENTRY_RESOURCE *)
Definition TIME_ENTRY_RESOURCE : jstr := js "timeentry".
(* src: integrations/timesheets/devonian/clockify/lens/projection.ts 12-12 PROJECT_RESOURCE *)
Definition PROJECT_RESOURCE : jstr := js "project".
(* src: integrations/timesheets/devonian/clockify/lens/projection.ts 13-13 MEMBER_RESOURCE *)
Definition MEMBER_RESOURCE : jstr := js "member".

(* src: integrations/timesheets/devonian/clockify/lens/types.ts 6-14 Term *)
Record Term := mkTerm {
  path : jstr;
  is_class : bool;  (* kind *)
  shortname : jstr;
  description : jstr;
  datatype : jstr;
  requires : list jstr;
  recommends : list jstr;
}.

(* src: integrations/timesheets/devonian/clockify/lens/types.ts 15-21 FetchedRecord *)
Record FetchedRecord := mkFetched {
  resource : jstr;
  namespace : jstr;
  f_id : option Json;
  f_name : option Json;
  values : fields_map;
}.

(* src: integrations/timesheets/devonian/clockify/lens/types.ts 22-28 FetchedPlatform *)
Record FetchedPlatform := mkPlatform {
  platform : jstr;
  o_description : jstr;
  terms : list Term;
  f_records : list FetchedRecord;
  errors : list jstr;
}.

(** [${v}]. *)
Definition template (v : option Json) : jstr := match v with Some v => String_of v | None => js "undefined" end.

(** The datatype of the two terms, [Datatype.TIMESTAMP]. *)
Definition TIMESTAMP : jstr := js "https://atomicdata.dev/datatypes/timestamp".

Definition extra_term (name about : string) : Term :=
  mkTerm (js "urn:atomic:clockify:" ++ js name) false (js name) (js about) TIMESTAMP [] [].

(** The terms the projection adds. *)
(* src: integrations/timesheets/devonian/clockify/lens/projection.ts 46-64 clockifyProjection ! *)
Definition extra_terms : list Term :=
  [extra_term "start" "Start instant of the entry, from Clockify's UTC interval.";
   extra_term "end" "End instant of the completed entry, from Clockify's UTC interval."].

Section Lens.
Context (other : jstr -> option Z).

(* src: integrations/timesheets/devonian/clockify/lens/projection.ts 25-30 instant *)
Definition instant (value : option Json) : option Z := match value with Some (OStr s) => Date_parse other s | _ => None end.

Definition is_break (fields : fields_map) : bool :=
  match jget (js "type") fields with Some (OStr t) => jeqb t (js "BREAK") | _ => false end.

(** The body of the loop over the records: what it pushes. *)
(* src: integrations/timesheets/devonian/clockify/lens/projection.ts 75-104 clockifyProjection ! *)
Definition project_row (row : FetchedRecord) : res jstr (option FetchedRecord) :=
  if negb (jeqb (resource row) TIME_ENTRY_RESOURCE) then Ok (Some row)
  else if is_break (values row) then Ok None
  else
    let interval := entries_of (jget (js "timeinterval") (values row)) in
    match instant (jget (js "start") interval) with
    | None => Err (js "Clockify entry " ++ template (f_id row) ++ js " has no valid start")
    | Some start =>
        match instant (jget (js "end") interval) with
        | None => Ok None
        | Some end_ =>
            if end_ <? start then Err (js "Clockify entry " ++ template (f_id row) ++ js " ends before it starts")
            else
              let description := trim (text_of (jget (js "description") (values row))) in
              Ok (Some (mkFetched (resource row) (namespace row) (f_id row)
                (Some (OStr (match description with [] => js "Time entry" | _ => description end)))
                (spread (values row) [(js "start", ONum start); (js "end", ONum end_)])))
        end
    end.

(** The position of the first class that describes entries. *)
Definition entry_term (ts : list Term) : option nat :=
  fst <$> list_find (fun t => is_class t && jeqb (shortname t) TIME_ENTRY_RESOURCE = true) ts.

(* src: integrations/timesheets/devonian/clockify/lens/projection.ts 32-127 clockifyProjection *)
Definition clockifyProjection (fetched : FetchedPlatform) : res jstr FetchedPlatform :=
  if negb (jeqb (platform fetched) CLOCKIFY_PLATFORM) then Ok fetched
  else match entry_term (terms fetched) with
  | None => Ok fetched
  | Some entry =>
      if existsb (fun t => existsb (fun extra => jeqb (shortname extra) (shortname t)) extra_terms) (terms fetched)
      then Err (js "Clockify projection property collides with provider ontology")
      else
        rows ← mapR project_row (f_records fetched);
        let described t := mkTerm (path t) (is_class t) (shortname t) (description t) (datatype t) (requires t)
                             (recommends t ++ map path extra_terms) in
        Ok (mkPlatform (platform fetched) (o_description fetched)
              (imap (fun i t => if (i =? entry)%nat then described t else t) (terms fetched) ++ extra_terms)
              (omap id rows) (errors fetched))
  end.
End Lens.

(* src: integrations/timesheets/devonian/clockify/lens/projection.ts 129-137 ClockifyReferenceResolution *)
Record ClockifyReferenceResolution := mkResolution {
  timeEntryId : option Json;
  r_projectId : option jstr;
  r_userId : option jstr;
  project : option FetchedRecord;
  member_ : option FetchedRecord;
}.

Definition text_property (k : string) (row : FetchedRecord) : option jstr :=
  match jget (js k) (values row) with Some (OStr s) => Some s | _ => None end.

Definition has_text_id (id : jstr) (v : option Json) : bool := match v with Some (OStr s) => jeqb s id | _ => false end.

(** [new Map(records.map(r => [r.id, r])).get(id)] of a text. *)
Definition by_id (id : jstr) (records : list FetchedRecord) : option FetchedRecord :=
  last (List.filter (fun r => has_text_id id (f_id r)) records).

Definition of_resource (name : jstr) (records : list FetchedRecord) : list FetchedRecord :=
  List.filter (fun r => jeqb (resource r) name) records.

(** The body of the loop: the resolution of a row, if it refers to anything. *)
(* src: integrations/timesheets/devonian/clockify/lens/projection.ts 169-189 resolveClockifyReferences ! *)
Definition resolution (projects members : list FetchedRecord) (row : FetchedRecord) : option ClockifyReferenceResolution :=
  match text_property "projectid" row, text_property "userid" row with
  | None, None => None
  | projectId, userId =>
      Some (mkResolution (f_id row) projectId userId (id ← projectId; by_id id projects) (id ← userId; by_id id members))
  end.

(* src: integrations/timesheets/devonian/clockify/lens/projection.ts 139-192 resolveClockifyReferences *)
Definition resolveClockifyReferences (fetched : FetchedPlatform) : list ClockifyReferenceResolution :=
  if negb (jeqb (platform fetched) CLOCKIFY_PLATFORM) then []
  else
    let rs := f_records fetched in
    omap (resolution (of_resource PROJECT_RESOURCE rs) (of_resource MEMBER_RESOURCE rs)) (of_resource TIME_ENTRY_RESOURCE rs).

(** ** project.ts *)

(* src: integrations/timesheets/app/project.ts 21-32 ProjectedEntry *)
Record ProjectedEntry := mkProjected {
  p_entryId : jstr;
  p_name : jstr;
  p_start : option Z;
  p_end : option Z;
  p_billable : option bool;
  p_projectId : option jstr;
  projectName : option jstr;
  memberId : option jstr;
  memberName : option jstr;
}.

(* src: integrations/timesheets/app/project.ts 34-37 lowerKeys *)
Definition lowerKeys (value : fields_map) : fields_map := jmap_of (map (fun p => (lower p.1, p.2)) value).

(* src: integrations/timesheets/app/project.ts 39-50 record *)
Definition record (resource : jstr) (id name : option Json) (raw : fields_map) : FetchedRecord :=
  mkFetched resource CLOCKIFY_PLATFORM id name (lowerKeys raw).

(* src: integrations/timesheets/app/project.ts 52-62 classTerm *)
Definition classTerm (name : jstr) : Term :=
  mkTerm (js "urn:atomic:clockify:" ++ name) true name (js "Clockify " ++ name)
    (js "https://atomicdata.dev/datatypes/resourceArray") [] [].

(** A project or member as a record: [null] has no properties to read. *)
Definition named_record (resource : jstr) (v : Json) : res jstr FetchedRecord :=
  match v with
  | ONull => Err (js "Cannot read properties of null (reading 'id')")
  | _ => Ok (record resource (member (js "id") v) (member (js "name") v) (own_entries (Some v)))
  end.

(* src: integrations/timesheets/app/project.ts 64-81 toFetchedPlatform *)
Definition toFetchedPlatform (entries : list fields_map) (projects members : list Json) : res jstr FetchedPlatform :=
  ps ← mapR (named_record (js "project")) projects;
  ms ← mapR (named_record (js "member")) members;
  Ok (mkPlatform CLOCKIFY_PLATFORM (js "Clockify, fetched by the timesheets drive app")
    (map classTerm [js "timeentry"; js "project"; js "member"])
    (map (fun e => record (js "timeentry") (jget (js "id") e) (Some (OStr [])) e) entries ++ ps ++ ms) []).

(** [str(v)] of an optional record's name. *)
(* src: integrations/timesheets/app/project.ts 83-84 str *)
Definition str (value : option Json) : option jstr := some_text value.

Definition number_of (v : option Json) : option Z := match v with Some (ONum n) => Some n | _ => None end.

Definition nonempty (s : option jstr) : option jstr := match s with Some ((_ :: _) as s) => Some s | _ => None end.

(** [references.get(id)]: the last resolution of the id. *)
Definition reference (id : option Json) (references : list ClockifyReferenceResolution) : option ClockifyReferenceResolution :=
  match id with
  | Some (OStr s) => last (List.filter (fun r => has_text_id s (timeEntryId r)) references)
  | _ => None
  end.

(* src: integrations/timesheets/app/project.ts 86-116 projectEntries *)
Definition projectEntries (other : jstr -> option Z) (entries : list fields_map) (projects members : list Json)
    : res jstr (list ProjectedEntry) :=
  fetched ← toFetchedPlatform entries projects members;
  projected ← clockifyProjection other fetched;
  let references := resolveClockifyReferences projected in
  Ok (map (fun r =>
    let ref := reference (f_id r) references in
    mkProjected (text_of (f_id r)) (text_of (f_name r)) (number_of (jget (js "start") (values r)))
      (number_of (jget (js "end") (values r)))
      (match jget (js "billable") (values r) with Some (OBool b) => Some b | _ => None end)
      (ref ← ref; nonempty (r_projectId ref))
      (ref ← ref; p ← project ref; str (f_name p))
      (ref ← ref; nonempty (r_userId ref))
      (ref ← ref; m ← member_ ref; str (f_name m)))
    (of_resource (js "timeentry") (f_records projected))).

(** ** The lens, entry by entry *)

(** The name of the project or member with an id, the last of several. *)
Definition name_of (id : option jstr) (named : list Json) : option jstr :=
  id ← id;
  v ← last (List.filter (fun v => has_text_id id (member (js "id") v)) named);
  str (member (js "name") v).

(** What one entry is shown as, read off its own properties. *)
Definition entry_of (other : jstr -> option Z) (projects members : list Json) (e : fields_map) : res jstr (option ProjectedEntry) :=
  let field k := jget (js k) (lowerKeys e) in
  let text k := match field k with Some (OStr s) => Some s | _ => None end in
  let interval := entries_of (field "timeinterval"%string) in
  let id := text_of (jget (js "id") e) in
  if is_break (lowerKeys e) then Ok None
  else match instant other (jget (js "start") interval), instant other (jget (js "end") interval) with
  | None, _ => Err (js "Clockify entry " ++ id ++ js " has no valid start")
  | Some _, None => Ok None
  | Some start, Some end_ =>
      if end_ <? start then Err (js "Clockify entry " ++ id ++ js " ends before it starts")
      else
        Ok (Some (mkProjected id
          (match trim (text_of (field "description"%string)) with [] => js "Time entry" | d => d end)
          (Some start) (Some end_)
          (match field "billable"%string with Some (OBool b) => Some b | _ => None end)
          (nonempty (text "projectid"%string)) (name_of (text "projectid"%string) projects)
          (nonempty (text "userid"%string)) (name_of (text "userid"%string) members)))
  end.

Definition entry_record (e : fields_map) : FetchedRecord := record (js "timeentry") (jget (js "id") e) (Some (OStr [])) e.

(** A project or member the provider answered, as a record. *)
Definition plain (resource : jstr) (v : Json) : FetchedRecord :=
  record resource (member (js "id") v) (member (js "name") v) (own_entries (Some v)).

Lemma named_records resource l : Forall (fun v => v <> ONull) l -> mapR (named_record resource) l = Ok (map (plain resource) l).
Proof.
  intros H. apply mapR_ok. intros v Hv. rewrite Forall_forall in H. specialize (H v Hv). by destruct v.
Qed.

Lemma of_resource_app name l k : of_resource name (l ++ k) = of_resource name l ++ of_resource name k.
Proof. apply List.filter_app. Qed.

Lemma of_resource_all name l : (forall r, r ∈ l -> resource r = name) -> of_resource name l = l.
Proof.
  intros H. unfold of_resource. apply filter_length_id. intros r Hr. unfold jeqb. by rewrite H, bool_decide_true.
Qed.

Lemma of_resource_none name l : (forall r, r ∈ l -> resource r <> name) -> of_resource name l = [].
Proof.
  intros H. apply filter_none. intros r Hr. unfold jeqb. apply bool_decide_false. by apply H.
Qed.

(** The lens on one entry of this app. *)
Definition lens_row (other : jstr -> option Z) (e : fields_map) : res jstr (option FetchedRecord) := project_row other (entry_record e).

(** Whatever the lens makes of an entry keeps its id and the fields it does not set. *)
Lemma lens_row_some other e r : lens_row other e = Ok (Some r) ->
  resource r = TIME_ENTRY_RESOURCE /\ f_id r = jget (js "id") e /\
  (forall k, k <> js "start" -> k <> js "end" -> jget k (values r) = jget k (lowerKeys e)).
Proof.
  unfold lens_row, project_row, jeqb. cbn [entry_record record resource values f_id namespace].
  rewrite bool_decide_true by done. cbn [negb]. destruct (is_break (lowerKeys e)); [done|].
  set (interval := entries_of _). destruct (instant other (jget (js "start") interval)) as [s|]; [|done].
  destruct (instant other (jget (js "end") interval)) as [t|]; [|done].
  destruct (t <? s); [done|]. intros [= <-]. cbn [resource f_id values]. split_and!; [done..|].
  intros k Hs Ht. unfold spread. cbn [fold_left fst snd]. by rewrite !jget_jset, !decide_False.
Qed.

Lemma platform_terms : entry_term (map classTerm [js "timeentry"; js "project"; js "member"]) = Some 0%nat /\
  existsb (fun t => existsb (fun extra => jeqb (shortname extra) (shortname t)) extra_terms)
    (map classTerm [js "timeentry"; js "project"; js "member"]) = false.
Proof. by split; vm_compute. Qed.

(** The records the lens leaves: the completed entries, then the others. *)
Lemma projected_records other es ps ms : exists ts,
  clockifyProjection other (mkPlatform CLOCKIFY_PLATFORM (js "Clockify, fetched by the timesheets drive app")
    (map classTerm [js "timeentry"; js "project"; js "member"])
    (map entry_record es ++ map (plain (js "project")) ps ++ map (plain (js "member")) ms) []) =
  (rows ← mapR (lens_row other) es;
   Ok (mkPlatform CLOCKIFY_PLATFORM (js "Clockify, fetched by the timesheets drive app") ts
     (omap id rows ++ map (plain (js "project")) ps ++ map (plain (js "member")) ms) [])).
Proof.
  eexists. unfold clockifyProjection. cbn [platform terms f_records o_description errors].
  destruct platform_terms as [-> ->]. unfold jeqb at 1. rewrite bool_decide_true by done. cbn [negb].
  rewrite !mapR_app. assert (Hothers : forall name l, name <> TIME_ENTRY_RESOURCE ->
    mapR (project_row other) (map (plain name) l) = Ok (map Some (map (plain name) l))).
  { intros name l Hn. apply mapR_ok. intros r (v & -> & _)%list_elem_of_fmap. unfold project_row, jeqb. cbn [resource plain record].
    by rewrite bool_decide_false by done. }
  rewrite !Hothers by done. assert (E : mapR (project_row other) (map entry_record es) = mapR (lens_row other) es).
  { induction es as [|e es IH]; [done|]. cbn [map mapR]. by rewrite IH. }
  rewrite E. destruct (mapR (lens_row other) es) as [rows|]; [|done]. cbn [mbind res_bind].
  rewrite !omap_app. assert (Hid : forall l : list FetchedRecord, omap id (map Some l) = l).
  { induction l as [|x l IH]; [done|]. cbn. f_equal. exact IH. }
  rewrite !Hid. reflexivity.
Qed.

Lemma lens_rows_ids other es rows : mapR (lens_row other) es = Ok rows ->
  Forall (fun r => resource r = TIME_ENTRY_RESOURCE) (omap id rows) /\ map f_id (omap id rows) `sublist_of` map (jget (js "id")) es.
Proof.
  revert rows. induction es as [|e es IH]; intros rows; cbn [mapR].
  - intros [= <-]. split; [constructor|done].
  - destruct (lens_row other e) as [o|] eqn:Ee; [|done]. cbn [mbind res_bind].
    destruct (mapR _ es) as [rest|]; [|done]. cbn [mbind res_bind]. intros [= <-]. destruct (IH rest eq_refl) as [H1 H2].
    destruct o as [r|]; cbn [omap list_omap id map].
    + apply lens_row_some in Ee as (Hr & Hi & _). rewrite Hi. split; [by constructor|]. by apply sublist_skip.
    + split; [done|]. by apply sublist_cons.
Qed.

(** Among rows of different ids, the resolution under a row's id is its own. *)
Lemma reference_own ps ms rows r id : NoDup (map f_id rows) -> r ∈ rows -> f_id r = Some (OStr id) ->
  reference (f_id r) (omap (resolution ps ms) rows) = resolution ps ms r.
Proof.
  intros Hnd Hr Hi. rewrite Hi. cbn [reference].
  assert (Hid : forall x y, resolution ps ms x = Some y -> timeEntryId y = f_id x).
  { intros x y. unfold resolution. repeat case_match; intros [= <-]; done. }
  assert (Hf : List.filter (fun x => has_text_id id (timeEntryId x)) (omap (resolution ps ms) rows) = option_list (resolution ps ms r)).
  { induction rows as [|x rows IH]; [by apply elem_of_nil in Hr|]. cbn [map] in Hnd. apply NoDup_cons in Hnd as [Hx Hnd].
    assert (Hnone : forall l, f_id r ∉ map f_id l -> List.filter (fun y => has_text_id id (timeEntryId y)) (omap (resolution ps ms) l) = []).
    { intros l Hl. apply filter_none. intros y (z & Hz & Ez)%list_elem_of_omap. rewrite (Hid z y Ez).
      destruct (f_id z) as [[| | |s| |]|] eqn:Es; try done. cbn. unfold jeqb. apply bool_decide_false. intros ->.
      apply Hl. rewrite Hi, <-Es. by apply list_elem_of_fmap_2. }
    apply elem_of_cons in Hr as [<-|Hr]; cbn [omap list_omap].
    - destruct (resolution ps ms r) as [y|] eqn:Ey; [|by apply Hnone].
      cbn [List.filter]. rewrite (Hid r y Ey), Hi. cbn. unfold jeqb. rewrite bool_decide_true by done. cbn. f_equal. by apply Hnone.
    - assert (Hne : f_id x <> f_id r) by (intros E; apply Hx; rewrite E; by apply list_elem_of_fmap_2).
      destruct (resolution ps ms x) as [y|] eqn:Ey; [|by apply IH]. cbn [List.filter]. rewrite (Hid x y Ey).
      assert (has_text_id id (f_id x) = false) as ->; [|by apply IH].
      destruct (f_id x) as [[| | |s| |]|]; try done. cbn. unfold jeqb. apply bool_decide_false. intros ->. by rewrite Hi in Hne. }
  rewrite Hf. by destruct (resolution ps ms r).
Qed.

Lemma filter_map_comm {A B} (P : B -> bool) (f : A -> B) l : List.filter P (map f l) = map f (List.filter (fun x => P (f x)) l).
Proof. induction l as [|x l IH]; [done|]. cbn. destruct (P (f x)); cbn; by rewrite IH. Qed.

Lemma last_map {A B} (f : A -> B) l : last (map f l) = f <$> last l.
Proof. apply (fmap_last f). Qed.

Lemma by_id_name name id l : (p ← by_id id (map (plain name) l); str (f_name p)) = name_of (Some id) l.
Proof.
  unfold by_id, name_of. rewrite filter_map_comm, last_map. cbn [mbind option_bind].
  change (fun x => has_text_id id (f_id (plain name x))) with (fun v => has_text_id id (member (js "id") v)).
  by destruct (last _).
Qed.

(** How a row of the lens is shown. *)
Definition shown_row (projects members : list Json) (r : FetchedRecord) : ProjectedEntry :=
  mkProjected (text_of (f_id r)) (text_of (f_name r)) (number_of (jget (js "start") (values r)))
    (number_of (jget (js "end") (values r)))
    (match jget (js "billable") (values r) with Some (OBool b) => Some b | _ => None end)
    (nonempty (text_property "projectid" r)) (name_of (text_property "projectid" r) projects)
    (nonempty (text_property "userid" r)) (name_of (text_property "userid" r) members).

Lemma entry_of_lens other projects members e : is_text (jget (js "id") e) = true ->
  entry_of other projects members e = (o ← lens_row other e; Ok (option_map (shown_row projects members) o)).
Proof.
  intros Hid. destruct (jget (js "id") e) as [[| | |i| |]|] eqn:Ei; try done.
  pose proof (lens_row_some other e) as Hkeep. unfold entry_of, lens_row, project_row, jeqb in *.
  cbn [entry_record record resource values f_id namespace] in *.
  rewrite (bool_decide_true (js "timeentry" = TIME_ENTRY_RESOURCE)) in * by done. cbn [negb] in *. rewrite Ei in *.
  destruct (is_break (lowerKeys e)); [done|].
  destruct (instant other (jget (js "start") _)) as [s|]; [|done].
  destruct (instant other _) as [t|]; [|done]. cbn [text_of]. destruct (t <? s); [done|]. cbn [mbind res_bind fmap option_fmap option_map].
  destruct (Hkeep _ eq_refl) as (_ & _ & Hk). unfold shown_row, text_property. cbn [f_id f_name values text_of].
  cbn [values] in Hk. rewrite (Hk (js "billable")), (Hk (js "projectid")), (Hk (js "userid")) by by_decide. unfold spread. cbn [fold_left fst snd]. rewrite !jget_jset.
  rewrite (decide_False (P := js "start" = js "end")) by by_decide. rewrite !decide_True by done. cbn [number_of text_of].
  by destruct (trim _).
Qed.

(** The whole lens of this app, entry by entry. *)
Lemma projectEntries_each other entries projects members :
  Forall (fun v => v <> ONull) projects -> Forall (fun v => v <> ONull) members ->
  Forall (fun e => is_text (jget (js "id") e) = true) entries -> NoDup (map (jget (js "id")) entries) ->
  projectEntries other entries projects members =
    (shown ← mapR (entry_of other projects members) entries; Ok (omap id shown : list ProjectedEntry)).
Proof.
  intros Hp Hm Hid Hnd. unfold projectEntries, toFetchedPlatform. rewrite !named_records by done. cbn [mbind res_bind].
  destruct (projected_records other entries projects members) as [ts E].
  change (fun e => record (js "timeentry") (jget (js "id") e) (Some (OStr [])) e) with entry_record. rewrite E. clear E.
  assert (Hshown : mapR (entry_of other projects members) entries =
    (rows ← mapR (lens_row other) entries; Ok (map (option_map (shown_row projects members)) rows))).
  { clear Hnd. induction Hid as [|e es He _ IH]; [done|]. cbn [mapR]. rewrite entry_of_lens by done.
    destruct (lens_row other e); [|done]. cbn [mbind res_bind]. rewrite IH. by destruct (mapR (lens_row other) es). }
  rewrite Hshown. destruct (mapR (lens_row other) entries) as [rows|] eqn:Er; [|done]. cbn [mbind res_bind].
  destruct (lens_rows_ids other entries rows Er) as [Hres Hsub].
  assert (Hnd' : NoDup (map f_id (omap id rows))) by by eapply sublist_NoDup.
  assert (Htext : forall r, r ∈ omap id rows -> exists i, f_id r = Some (OStr i)).
  { intros r Hr. assert (Hin : f_id r ∈ map (jget (js "id")) entries).
    { eapply sublist_subseteq; [exact Hsub|]. by apply list_elem_of_fmap_2. }
    apply list_elem_of_fmap in Hin as (e & Ee & He). rewrite Forall_forall in Hid. specialize (Hid e He). rewrite <-Ee in Hid.
    destruct (f_id r) as [[| | |i| |]|]; try done. by exists i. }
  unfold resolveClockifyReferences. cbn [platform f_records].
  assert (jeqb CLOCKIFY_PLATFORM CLOCKIFY_PLATFORM = true) as -> by (by apply bool_decide_true). cbn [negb].
  rewrite Forall_forall in Hres. set (rs := omap id rows) in *.
  assert (Hplain : forall name l r, r ∈ map (plain name) l -> resource r = name) by (by intros name l r (v & -> & _)%list_elem_of_fmap).
  assert (Hof : forall name l, of_resource name (map (plain name) l) = map (plain name) l).
  { intros. apply of_resource_all. intros r. apply Hplain. }
  assert (Hnot : forall name name' l, name' <> name -> of_resource name (map (plain name') l) = []).
  { intros name name' l Hne. apply of_resource_none. by intros r ->%Hplain. }
  assert (Hrs : forall name, name <> TIME_ENTRY_RESOURCE -> of_resource name rs = []).
  { intros name Hne. apply of_resource_none. intros r Hr. by rewrite Hres. }
  rewrite !of_resource_app.
  rewrite (of_resource_all (js "timeentry") rs), (of_resource_all TIME_ENTRY_RESOURCE rs) by (intros; by apply Hres).
  rewrite (Hrs PROJECT_RESOURCE), (Hrs MEMBER_RESOURCE), !Hof by by_decide. rewrite !Hnot by by_decide.
  rewrite !app_nil_r. cbn [app]. f_equal.
  assert (Hmap : forall (f : FetchedRecord -> ProjectedEntry) l, omap id (map (option_map f) l) = map f (omap id l)).
  { intros f l. induction l as [|[x|] l IH]; cbn; [done|by f_equal|done]. }
  rewrite Hmap. fold rs. apply map_ext_in. intros r Hr. apply list_elem_of_In in Hr. destruct (Htext r Hr) as [i Ei].
  rewrite (reference_own _ _ rs r i) by done. unfold shown_row, resolution.
  pose proof (fun id => by_id_name PROJECT_RESOURCE id projects) as Np. pose proof (fun id => by_id_name MEMBER_RESOURCE id members) as Nm.
  destruct (text_property "projectid" r) as [p|], (text_property "userid" r) as [u|]; cbn [mbind option_bind project member_ r_projectId r_userId] in *;
    rewrite ?Np, ?Nm; done.
Qed.

(** The lens of this app, which makes records of everything
    the provider answered, projects them and looks the references up, shows
    each entry as read off its own properties: a break or a running entry not
    at all, a completed entry with its instants, its trimmed description, and
    the ids and names of its project and member.  It fails on the first entry
    that has no valid start or ends before it starts, and only there. *)
Theorem projectEntries_exact other entries projects members :
  Forall (fun v => v <> ONull) projects -> Forall (fun v => v <> ONull) members ->
  Forall (fun e => is_text (jget (js "id") e) = true) entries -> NoDup (map (jget (js "id")) entries) ->
  projectEntries other entries projects members =
    (shown ← mapR (entry_of other projects members) entries; Ok (omap id shown : list ProjectedEntry)).
Proof. apply projectEntries_each. Qed.

(** ** Every page of a list *)

Section AllPages.
Context (transport : ProxyTransport) (path : jstr) (l : list Json).

(** A provider that answers a page with that part of a list. *)
Definition lists : Prop := forall page, 1 <= page ->
  requestJson transport path [(js "page", dec_signed page); (js "page-size", dec PAGE_SIZE)] =
    Ok (Some (OArr (take (Z.to_nat PAGE_SIZE) (drop (Z.to_nat (PAGE_SIZE * (page - 1))) l)))).

Lemma all_pages_whole fuel page : lists -> 1 <= page -> PAGE_SIZE * (page - 1) <= len l ->
  all_pages transport fuel path page (take (Z.to_nat (PAGE_SIZE * (page - 1))) l) =
    if len l <? PAGE_SIZE * (page - 1 + Z.of_nat fuel) then Ok l
    else Err (OtherError (js "Clockify " ++ path ++ js " returned more than " ++ dec MAX_PAGES ++ js " pages")).
Proof.
  intros Hl. revert page. induction fuel as [|fuel IH]; intros page H1 Hlen; cbn [all_pages].
  { rewrite (proj2 (Z.ltb_ge _ _)); [done|]. rewrite Z.add_0_r. done. }
  rewrite Hl by done. cbn [mbind res_bind]. set (n := Z.to_nat (PAGE_SIZE * (page - 1))).
  rewrite take_take_drop. unfold len. rewrite length_take, length_drop.
  unfold len in Hlen. assert (Hn : (n <= length l)%nat) by (unfold n; lia).
  destruct (_ <? PAGE_SIZE) eqn:E; breflect; unfold PAGE_SIZE in E, Hlen.
  - rewrite (proj2 (Z.ltb_lt _ _)) by (unfold n, PAGE_SIZE in *; lia). f_equal. apply firstn_all2. unfold n, PAGE_SIZE in *. lia.
  - replace (n + Z.to_nat PAGE_SIZE)%nat with (Z.to_nat (PAGE_SIZE * (page + 1 - 1))) by (unfold n, PAGE_SIZE; lia).
    rewrite IH by (unfold len, n, PAGE_SIZE in *; lia). unfold len. by replace (page + 1 - 1 + Z.of_nat fuel) with (page - 1 + Z.of_nat (S fuel)) by lia.
Qed.

(** A list of the account is read whole, in order, when two hundred pages have
    room for it and one more entry, and is refused otherwise. *)
Lemma fetchAllPages_whole : lists ->
  fetchAllPages transport path =
    if len l <? PAGE_SIZE * MAX_PAGES then Ok l
    else Err (OtherError (js "Clockify " ++ path ++ js " returned more than " ++ dec MAX_PAGES ++ js " pages")).
Proof.
  intros Hl. unfold fetchAllPages. pose proof (all_pages_whole (Z.to_nat MAX_PAGES) 1 Hl) as H.
  rewrite Z.sub_diag, Z.mul_0_r in H. change (take (Z.to_nat 0) l) with (@nil Json) in H. rewrite H by (unfold len; lia).
  by rewrite Z2Nat.id by by_decide.
Qed.
End AllPages.

Module Demo.
Import Zones.Demo.

Definition entry (id start end_ type : string) (project : Json) : fields_map :=
  [(js "id", OStr (js id)); (js "type", OStr (js type)); (js "description", OStr (js " call ")); (js "projectId", project);
   (js "userId", OStr (js "u1")); (js "billable", OBool true);
   (js "timeInterval", OObj [(js "start", OStr (js start)); (js "end", match end_ with EmptyString => ONull | _ => OStr (js end_) end)])].
Definition entries : list fields_map :=
  [entry "e1" "2026-09-21T06:00:00Z" "2026-09-21T08:00:00Z" "REGULAR" (OStr (js "p1"));
   entry "e2" "2026-09-21T09:00:00Z" "" "REGULAR" ONull;
   entry "e3" "2026-09-21T08:00:00Z" "2026-09-21T09:00:00Z" "BREAK" ONull].
Definition named (id name : string) : Json := OObj [(js "id", OStr (js id)); (js "name", OStr (js name))].
Definition projects : list Json := [named "p0" "Other"; named "p1" "Site"].
Definition members : list Json := [named "u1" "Ada"].

Lemma projectEntries_exact_witness : projectEntries none entries projects members =
  Ok [mkProjected (js "e1") (js "call") (Some (ms "2026-09-21T06:00:00Z")) (Some (ms "2026-09-21T08:00:00Z")) (Some true)
        (Some (js "p1")) (Some (js "Site")) (Some (js "u1")) (Some (js "Ada"))].
Proof.
  rewrite (projectEntries_exact none entries projects members).
  - by vm_compute.
  - repeat constructor; done.
  - repeat constructor; done.
  - by_decide.
  - repeat constructor; cbn [map entries entry]; rewrite ?elem_of_cons, ?elem_of_nil; cbn; intuition discriminate.
Defined.
End Demo.
