(* ===== verification/Sheet.v ===== *)
(** * The timesheet views

    Models [src/integrations/timesheets/app/model/types.ts], [model/views.ts]
    (the week grid, the list by day, the shares by project) and
    [model/source.ts] (the timesheet of a mirror).

    Instants and durations are integers, sums and products of them exact; a
    quotient is a double, rounded to 53 bits ([divide]), since what the shares
    of equal projects are depends on it. *)
From S2P Require Import Prelude Text Collections JsDate Json Uri Observations Zones Clockify Timeline Projection.
Local Open Scope Z_scope.

(** ** Doubles *)

(** The integer nearest to [n / d], the even one of two. *)
Definition nearest_even (n d : Z) : Z :=
  let q := n / d in
  let r := n mod d in
  if 2 * r <? d then q else if d <? 2 * r then q + 1 else if Z.even q then q else q + 1.

(** A double that is no less than 0: [num / 2 ^ scale]. *)
Record double := mkDouble { num : Z; scale : N }.
Definition unit_of (x : double) : Z := 2 ^ Z.of_N (scale x).

(** The double nearest to [n / d]: 53 bits, for [n / d] less than [2 ^ 53]. *)
Definition divide (n d : Z) : double :=
  if n =? 0 then mkDouble 0 0
  else
    let e := Z.log2 n - Z.log2 d in
    let k := 52 - (if d * 2 ^ Z.max 0 e <=? n * 2 ^ Z.max 0 (- e) then e else e - 1) in
    mkDouble (nearest_even (n * 2 ^ k) d) (Z.to_N k).

Definition floor (x : double) : Z := num x / unit_of x.
(** [x - Math.floor(x)], which is exact. *)
Definition fraction (x : double) : double := mkDouble (num x mod unit_of x) (scale x).
(** [x - y], as far as its sign. *)
Definition compare_doubles (x y : double) : Z := num x * unit_of y - num y * unit_of x.
(** [x * n], rounded. *)
Definition times (x : double) (n : Z) : double := divide (num x * n) (unit_of x).
(** [Math.round(x)]: a half goes up. *)
Definition round (x : double) : Z := (2 * num x + unit_of x) / (2 * unit_of x).

(** ** types.ts *)

(* src: integrations/timesheets/app/model/types.ts 12-19 Project *)
Record Project := mkProject { pr_id : jstr; name : option jstr; color : option jstr; client : option jstr }.

(* src: integrations/timesheets/app/model/types.ts 21-32 TimeEntry *)
Record TimeEntry := mkTimeEntry {
  te_id : jstr;
  te_description : jstr;
  start : Z;
  end_ : Z;
  billable : bool;
  te_project : option Project;
  te_member : option jstr;
}.

(** ** views.ts *)

(* src: integrations/timesheets/app/model/views.ts 10-10 NO_PROJECT *)
Definition NO_PROJECT : jstr := [].

(* src: integrations/timesheets/app/model/views.ts 12-12 durationOf *)
Definition durationOf (e : TimeEntry) : Z := Z.max 0 (end_ e - start e).
(* src: integrations/timesheets/app/model/views.ts 13-13 projectKey *)
Definition projectKey (e : TimeEntry) : jstr := match te_project e with Some p => pr_id p | None => NO_PROJECT end.

(* src: integrations/timesheets/app/model/views.ts 15-17 projectLabel *)
Definition projectLabel (project : option Project) : jstr :=
  match project with
  | None => js "No project"
  | Some p => match name p with Some n => n | None => js "Project " ++ drop (length (pr_id p) - 6) (pr_id p) end
  end.

(* src: integrations/timesheets/app/model/views.ts 19-25 GridDay *)
Record GridDay := mkGridDay { gd_key : DayKey; isToday : bool; isFuture : bool; inWindow : bool }.

(* src: integrations/timesheets/app/model/views.ts 27-34 GridRow *)
Record GridRow := mkGridRow { gr_key : jstr; gr_project : option Project; cells : list Z; gr_total : Z }.

(* src: integrations/timesheets/app/model/views.ts 36-43 WeekGrid *)
Record WeekGrid := mkWeekGrid {
  days : list GridDay;
  rows : list GridRow;
  dayTotals : list Z;
  total : Z;
  g_billable : Z;
  notBillable : Z;
}.

(** [byTotalThenName] of what it reads of a row. *)
Definition by_total_then_name (a b : option Project * Z) : Z :=
  match a.1, b.1 with
  | Some _, None => -1
  | None, Some _ => 1
  | _, _ => if a.2 =? b.2 then jcmp (projectLabel a.1) (projectLabel b.1) else b.2 - a.2
  end.

(* src: integrations/timesheets/app/model/views.ts 51-57 byTotalThenName *)
Definition byTotalThenName (a b : GridRow) : Z := by_total_then_name (gr_project a, gr_total a) (gr_project b, gr_total b).

(** [a[i] += n]. *)
Definition add_at (i : nat) (n : Z) (l : list Z) : list Z := alter (fun x => x + n) i l.

(** The variables of the loop over the entries. *)
Record GridState := mkGridState { gs_rows : list (jstr * GridRow); gs_dayTotals : list Z; gs_billable : Z; gs_total : Z }.

Section Views.
Context (other : jstr -> option Z) (Intl : jstr -> option (Z -> option Parts)).

Definition key_of (timeZone : jstr) (at_ : Z) : option DayKey := dayKey Intl (Some at_) timeZone.

(** The body of the loop over the entries of the week. *)
(* src: integrations/timesheets/app/model/views.ts 74-92 weekGrid ! *)
Definition grid_entry (width : nat) (st : GridState) (entry : TimeEntry) (i : nat) : GridState :=
  let key := projectKey entry in
  let row := match jget key (gs_rows st) with
             | Some row => row
             | None => mkGridRow key (te_project entry) (replicate width 0) 0
             end in
  let ms := durationOf entry in
  mkGridState (jset key (mkGridRow (gr_key row) (gr_project row) (add_at i ms (cells row)) (gr_total row + ms)) (gs_rows st))
    (add_at i ms (gs_dayTotals st)) (if billable entry then gs_billable st + ms else gs_billable st) (gs_total st + ms).

(** [index.get(key)]: the last of the week's days with the key. *)
(* src: integrations/timesheets/app/model/views.ts 65-65 weekGrid ! *)
Definition index_of (week : list DayKey) (key : DayKey) : option nat := jget key (jmap_of (imap (fun i d => (d, i)) week)).

(* src: integrations/timesheets/app/model/views.ts 72-73 weekGrid ! *)
Definition grid_step (timeZone : jstr) (week : list DayKey) (st : option GridState) (entry : TimeEntry) : option GridState :=
  st ← st;
  key ← key_of timeZone (start entry);
  Some (match index_of week key with Some i => grid_entry (length week) st entry i | None => st end).

(* src: integrations/timesheets/app/model/views.ts 96-101 weekGrid ! *)
Definition grid_day (timeZone : jstr) (window : option Interval) (today key : DayKey) : option GridDay :=
  after ← match window with
          | None => Some true
          | Some w => next ← startOfDay other Intl (addDays other key 1) timeZone; Some (num_ltb (Some (from w)) next)
          end;
  Some (mkGridDay key (jeqb key today) (jltb today key) after).

(* src: integrations/timesheets/app/model/views.ts 59-108 weekGrid *)
Definition weekGrid (entries : list TimeEntry) (week : Week) (timeZone : jstr) (now : Z) (window : option Interval)
    : option WeekGrid :=
  today ← key_of timeZone now;
  let ds := Zones.days week in
  st ← fold_left (grid_step timeZone ds) entries (Some (mkGridState [] (map (fun _ => 0) ds) 0 0));
  shown ← mapM (grid_day timeZone window today) ds;
  Some (mkWeekGrid shown (sort_by byTotalThenName (jvalues (gs_rows st))) (gs_dayTotals st) (gs_total st) (gs_billable st)
    (gs_total st - gs_billable st)).

(* src: integrations/timesheets/app/model/views.ts 110-115 DayGroup *)
Record DayGroup := mkDayGroup { dg_key : DayKey; dg_total : Z; dg_entries : list TimeEntry }.

(* src: integrations/timesheets/app/model/views.ts 127-137 dayList ! *)
Definition list_step (timeZone : jstr) (week : list DayKey) (groups : option (list (DayKey * DayGroup))) (entry : TimeEntry)
    : option (list (DayKey * DayGroup)) :=
  groups ← groups;
  key ← key_of timeZone (start entry);
  Some (if bool_decide (key ∈ week) then
          let group := default (mkDayGroup key 0 []) (jget key groups) in
          jset key (mkDayGroup (dg_key group) (dg_total group + durationOf entry) (dg_entries group ++ [entry])) groups
        else groups).

(** Newest first. *)
(* src: integrations/timesheets/app/model/views.ts 141-141 dayList ! *)
Definition newest_first (a b : TimeEntry) : Z :=
  if start b - start a =? 0 then (if jltb (te_id a) (te_id b) then -1 else 1) else start b - start a.

(* src: integrations/timesheets/app/model/views.ts 117-144 dayList *)
Definition dayList (entries : list TimeEntry) (week : Week) (timeZone : jstr) : option (list DayGroup) :=
  groups ← fold_left (list_step timeZone (Zones.days week)) entries (Some []);
  Some (sort_by (fun a b => if jltb (dg_key a) (dg_key b) then 1 else -1)
    (map (fun g => mkDayGroup (dg_key g) (dg_total g) (sort_by newest_first (dg_entries g))) (jvalues groups))).
End Views.

(* src: integrations/timesheets/app/model/views.ts 146-157 ProjectShare *)
Record ProjectShare := mkShare {
  ps_key : jstr;
  ps_project : option Project;
  ps_total : Z;
  ps_billable : Z;
  shareTenths : Z;
  barTenths : Z;          (* barPercent, in tenths *)
  billableBarTenths : Z;  (* billableBarPercent, in tenths *)
}.

(* src: integrations/timesheets/app/model/views.ts 159-164 ProjectSummary *)
Record ProjectSummary := mkSummary {
  s_total : Z;
  s_billable : Z;
  s_notBillable : Z;
  s_rows : list ProjectShare;
}.

(** The loop that gives the remainders away. *)
(* src: integrations/timesheets/app/model/views.ts 177-181 apportion ! *)
Fixpoint give (order : list nat) (left_ : Z) (floors : list Z) : list Z :=
  match order with
  | [] => floors
  | i :: order => if left_ <=? 0 then floors else give order (left_ - 1) (add_at i 1 floors)
  end.

(** [b.r - a.r || a.i - b.i]. *)
(* src: integrations/timesheets/app/model/views.ts 175-175 apportion ! *)
Definition by_remainder (a b : nat * double) : Z :=
  let d := compare_doubles b.2 a.2 in if d =? 0 then Z.of_nat a.1 - Z.of_nat b.1 else d.

(* src: integrations/timesheets/app/model/views.ts 166-184 apportion *)
Definition apportion (values : list Z) (sum : Z) : list Z :=
  let whole := fold_left Z.add values 0 in
  if whole =? 0 then map (fun _ => 0) values
  else
    let exact := map (fun v => divide (v * sum) whole) values in
    let floors := map floor exact in
    let left_ := sum - fold_left Z.add floors 0 in
    let order := map fst (sort_by by_remainder (imap (fun i x => (i, fraction x)) exact)) in
    give order left_ floors.

(** A row of the summary before its shares. *)
(* src: integrations/timesheets/app/model/views.ts 201-220 projectSummary ! *)
Definition summary_entry (rows : list (jstr * ProjectShare)) (entry : TimeEntry) : list (jstr * ProjectShare) :=
  let key := projectKey entry in
  let row := default (mkShare key (te_project entry) 0 0 0 0 0) (jget key rows) in
  let ms := durationOf entry in
  jset key (mkShare (ps_key row) (ps_project row) (ps_total row + ms)
              (if billable entry then ps_billable row + ms else ps_billable row) 0 0 0) rows.

(* src: integrations/timesheets/app/model/views.ts 199-200 projectSummary ! *)
Definition starts_in (window : option Interval) (entry : TimeEntry) : bool :=
  match window with Some w => negb ((start entry <? from w) || (to w <=? start entry)) | None => true end.

(** [pct], in tenths. *)
(* src: integrations/timesheets/app/model/views.ts 236-237 projectSummary ! *)
Definition pct (largest ms : Z) : Z := if largest =? 0 then 0 else round (times (divide ms largest) 1000).

(** The rows with their shares and bars. *)
(* src: integrations/timesheets/app/model/views.ts 230-236 projectSummary ! *)
Definition with_shares (sorted : list ProjectShare) : list ProjectShare :=
  let largest := match sorted with r :: _ => ps_total r | [] => 0 end in
  let shares := apportion (map (fun r => (ps_total r + MINUTE / 2) / MINUTE) sorted) 1000 in
  zip_with (fun r share => mkShare (ps_key r) (ps_project r) (ps_total r) (ps_billable r) share
    (pct largest (ps_total r)) (pct largest (ps_billable r))) sorted shares.

(* src: integrations/timesheets/app/model/views.ts 186-250 projectSummary *)
Definition projectSummary (entries : list TimeEntry) (window : option Interval) : ProjectSummary :=
  let shown := List.filter (starts_in window) entries in
  let total := fold_left (fun t e => t + durationOf e) shown 0 in
  let billable := fold_left (fun t e => if billable e then t + durationOf e else t) shown 0 in
  let rows := fold_left summary_entry shown [] in
  let sorted := sort_by (fun a b => by_total_then_name (ps_project a, ps_total a) (ps_project b, ps_total b)) (jvalues rows) in
  mkSummary total billable (total - billable) (with_shares sorted).

(* src: integrations/timesheets/app/model/views.ts 252-254 formatShare *)
Definition formatShare (tenths : Z) : jstr := dec_signed (tenths / 10) ++ js "." ++ dec_signed (Z.rem tenths 10) ++ js "%".

(** ** source.ts *)

(* src: integrations/timesheets/app/config.ts 6-15 Settings *)
Record Settings := mkSettings { account : Account; lookbackDays : Z }.

(* src: integrations/timesheets/app/model/source.ts 37-50 SourceInput *)
Record SourceInput := mkSource {
  mirror : Mirror;
  projects : list Json;
  members : list Json;
  settings : option Settings;
  s_now : Z;
  s_timeZone : jstr;
  weekStart : option Json;
  s_forceProjects : bool;
}.

(* src: integrations/timesheets/app/model/types.ts 49-75 Timesheet *)
Record Timesheet := mkTimesheet {
  ts_entries : list TimeEntry;
  running : Z;
  breaks : Z;
  ts_window : option Interval;
  lastChecked : option jstr;
  ts_weekStart : WeekStart;
  ts_timeZone : jstr;
  unknown : list Interval;
  ts_conflicts : list TimelineConflict;
  timeline : option (list (DaySpan * list Segment));
}.

(** [/^#[0-9a-f]{3,8}$/i]. *)
(* src: integrations/timesheets/app/model/source.ts 67-67 projectOf ! *)
Definition is_color (s : jstr) : bool :=
  match s with
  | 35 :: digits => (3 <=? length digits)%nat && (length digits <=? 8)%nat && forallb (fun c => bool_decide (is_Some (hex_value c))) digits
  | _ => false
  end.

(** [projects.find(p => p.id === id)], which throws on a [null] before it. *)
(* src: integrations/timesheets/app/model/source.ts 59-59 projectOf ! *)
Fixpoint find_named (id : jstr) (named : list Json) : res Stop (option Json) :=
  match named with
  | [] => Ok None
  | ONull :: _ => Err Throws
  | v :: named => if has_text_id id (member (js "id") v) then Ok (Some v) else find_named id named
  end.

(* src: integrations/timesheets/app/model/source.ts 54-70 projectOf *)
Definition projectOf (id : option jstr) (projects : list Json) : res Stop (option Project) :=
  match id with
  | None => Ok None
  | Some id =>
      found ← find_named id projects;
      let property k := some_text (omember (js k) found) in
      Ok (Some (mkProject id (property "name"%string)
        (match property "color"%string with Some c => if is_color c then Some c else None | None => None end)
        (property "clientName"%string)))
  end.

(* src: integrations/timesheets/app/model/source.ts 72-76 mine *)
Definition source_mine (record : MirrorRecord) (settings : option Settings) : bool :=
  match settings with None => true | Some s => Timeline.mine record (account s) end.

Section Source.
Context (other : jstr -> option Z) (Intl : jstr -> option (Z -> option Parts)).

(* src: integrations/timesheets/app/model/source.ts 82-84 timesheetFromMirror ! *)
Definition import_window (settings : option Settings) (now : Z) : option Interval :=
  s ← settings; Some (mkInterval (now - lookbackDays s * DAY) now).

(* src: integrations/timesheets/app/model/source.ts 90-95 timesheetFromMirror ! *)
Definition in_window (window : option Interval) (r : MirrorRecord) : bool :=
  match jget (js "start") (m_fields r) with
  | Some (OStr start) =>
      match window with
      | None => true
      | Some w => num_leb (Some (from w)) (ms other start) && num_ltb (ms other start) (Some (to w))
      end
  | _ => false
  end.

Definition is_break_record (r : MirrorRecord) : bool := is_break (m_fields r).

(** What is counted and not listed: the running entries and the breaks. *)
(* src: integrations/timesheets/app/model/source.ts 101-103 timesheetFromMirror ! *)
Definition count_step (window : option Interval) (acc : Z * Z) (r : MirrorRecord) : Z * Z :=
  let '(running, breaks) := acc in
  if is_break_record r then (running, if in_window window r then breaks + 1 else breaks)
  else if truthy_json (jget (js "start") (m_fields r)) && negb (truthy_json (jget (js "end") (m_fields r)))
  then (running + 1, breaks) else (running, breaks).

(** [byId.get(id)?.fields ?? {}]. *)
(* src: integrations/timesheets/app/model/source.ts 88-88 timesheetFromMirror ! *)
Definition fields_of (records : list MirrorRecord) (id : jstr) : fields_map :=
  match last (List.filter (fun r => jeqb (m_id r) id) records) with Some r => m_fields r | None => [] end.

(** An entry of the sheet, from what the lens shows of it. *)
(* src: integrations/timesheets/app/model/source.ts 113-124 timesheetFromMirror ! *)
Definition sheet_entry (records : list MirrorRecord) (projects : list Json) (p : ProjectedEntry) : res Stop (option TimeEntry) :=
  match p_start p, p_end p with
  | Some start, Some end_ =>
      let fields := fields_of records (p_entryId p) in
      project ← projectOf (some_text (jget (js "projectId") fields)) projects;
      Ok (Some (mkTimeEntry (p_entryId p) (default [] (some_text (jget (js "description") fields))) start end_
        (match jget (js "billable") fields with Some (OBool b) => b | _ => false end) project (nonempty (memberName p))))
  | _, _ => Ok None
  end.

(** The latest confirmation of the coverage that counts. *)
(* src: integrations/timesheets/app/model/source.ts 127-144 timesheetFromMirror ! *)
Definition last_checked (settings : option Settings) (cov : list CoverageSegment) : option jstr :=
  let counts c := match settings with Some s => jeqb (s_key c) (account_key (account s)) | None => true end in
  nonempty (last (sort_by (fun a b => num_cmp (ms other a) (ms other b)) (map confirmedAt (List.filter counts cov)))).

(* src: integrations/timesheets/app/model/source.ts 78-174 timesheetFromMirror *)
Definition timesheetFromMirror (fuel : nat) (input : SourceInput) : res Stop Timesheet :=
  let now := s_now input in
  let window := import_window (settings input) now in
  let records := List.filter (fun r => negb (is_set (deletedAt r)) && source_mine r (settings input)) (timeEntries (mirror input)) in
  let '(running, breaks) := fold_left (count_step window) records (0, 0) in
  projected ← match projectEntries other (map rawFromCanonical records) (projects input) (members input) with
              | Ok ps => Ok ps
              | Err _ => Err Throws
              end;
  entries ← mapR (sheet_entry records (projects input)) projected;
  let lastChecked := last_checked (settings input) (coverage (mirror input)) in
  tl ← match settings input, window with
       | Some s, Some w =>
           t ← buildTimeline other Intl fuel
                 (mkInput (mirror input) (account s) w now (s_timeZone input) (s_forceProjects input));
           Ok (Some t)
       | _, _ => Ok None
       end;
  Ok (mkTimesheet (omap id entries) running breaks window lastChecked (weekStartOf (weekStart input)) (s_timeZone input)
    (match tl with Some t => t_unknown t | None => [] end) (match tl with Some t => Timeline.conflicts t | None => [] end)
    (t_days <$> tl)).
End Source.

(** ** Doubles: how near they are *)

Lemma unit_pos x : 0 < unit_of x.
Proof. unfold unit_of. lia. Qed.

Lemma unit_scale z x : unit_of (mkDouble z (scale x)) = unit_of x.
Proof. done. Qed.

Lemma nearest_even_near n d : 0 < d -> 2 * Z.abs (nearest_even n d * d - n) <= d.
Proof.
  intros Hd. unfold nearest_even. pose proof (Z.mod_pos_bound n d Hd). pose proof (Z.div_mod n d ltac:(lia)) as E.
  set (q := n / d) in *. set (r := n mod d) in *. clearbody q r. subst n.
  assert (Hq : q * d - (d * q + r) = - r /\ (q + 1) * d - (d * q + r) = d - r) by lia. destruct Hq as [Hq Hq'].
  destruct (2 * r <? d) eqn:E1; breflect; [|destruct (d <? 2 * r) eqn:E2; breflect; [|destruct (Z.even q)]]; rewrite ?Hq, ?Hq'; lia.
Qed.

Lemma nearest_even_above n d z : 0 < d -> z * d <= n -> z <= nearest_even n d.
Proof.
  intros Hd Hz. pose proof (nearest_even_near n d Hd) as H. destruct (Z.le_gt_cases z (nearest_even n d)); [done|]. exfalso.
  assert (nearest_even n d * d <= n - d) by nia. lia.
Qed.

(** A quotient below [2 ^ a] keeps at least [52 - a] binary places. *)
Lemma divide_near n d a : 0 <= n -> 0 < d -> 0 <= a <= 52 -> n < d * 2 ^ a ->
  let x := divide n d in
  2 * Z.abs (num x * d - n * unit_of x) <= d /\ (forall z, z * d <= n -> z * unit_of x <= num x) /\
  (n = 0 /\ x = mkDouble 0 0 \/ 2 ^ (52 - a) <= unit_of x).
Proof.
  intros Hn Hd Ha Hlt x. unfold x, divide. destruct (Z.eqb_spec n 0) as [->|H0].
  { change (unit_of (mkDouble 0 0)) with 1. cbn [num]. split; [lia|]. split; [intros z Hz; nia|by left]. }
  set (e := Z.log2 n - Z.log2 d). set (e' := if _ <=? _ then e else e - 1).
  assert (He : e' <= a).
  { assert (Hl : Z.log2 n < Z.log2 d + 1 + a).
    { apply Z.log2_lt_pow2; [lia|]. pose proof (proj2 (Z.log2_spec d Hd)). rewrite Z.add_comm, Z.pow_add_r by (pose proof (Z.log2_nonneg d); lia).
      unfold Z.succ in *. pose proof (Z.pow_pos_nonneg 2 a). nia. }
    unfold e', e. case_match; lia. }
  clearbody e'. cbn [num]. unfold unit_of. cbn [scale]. rewrite Z2N.id by lia.
  pose proof (Z.pow_pos_nonneg 2 (52 - e') ltac:(lia) ltac:(lia)) as Hp. split; [by apply nearest_even_near|]. split.
  - intros z Hz. apply nearest_even_above; nia.
  - right. apply Z.pow_le_mono_r; lia.
Qed.

(** Of a quotient below [2 ^ 10] by a number below [2 ^ 42], the whole part is
    exact, and parts of different remainders compare as these do. *)
Lemma floor_divide n d : 0 <= n -> 0 < d < 2 ^ 42 -> n < d * 2 ^ 10 -> floor (divide n d) = n / d.
Proof.
  intros Hn Hd Hlt. destruct (divide_near n d 10 Hn ltac:(lia) ltac:(lia) Hlt) as (Hnear & Hbelow & Hu).
  pose proof (unit_pos (divide n d)) as Hp. unfold floor.
  pose proof (Z.div_mod n d ltac:(lia)) as E. pose proof (Z.mod_pos_bound n d ltac:(lia)) as Hr.
  pose proof (Hbelow (n / d) ltac:(lia)) as Hlow. symmetry. destruct Hu as [[-> ->]|Hu]; [done|].
  change (52 - 10) with 42 in Hu. apply Z.div_unique with (num (divide n d) - n / d * unit_of (divide n d)); [|lia].
  left. split; [lia|]. set (m := num (divide n d)) in *. set (u := unit_of (divide n d)) in *. clearbody m u.
  set (q := n / d) in *. set (r := n mod d) in *. clearbody q r. subst n.
  assert (2 * d * m < 2 * d * (q * u + u)); [|nia].
  assert (H1 : 2 * (m * d) <= 2 * ((d * q + r) * u) + d) by lia.
  assert (H2 : r * u <= (d - 1) * u) by nia. nia.
Qed.

Lemma fraction_order n n' d : 0 <= n -> 0 <= n' -> 0 < d < 2 ^ 42 -> n < d * 2 ^ 10 -> n' < d * 2 ^ 10 ->
  n mod d < n' mod d -> compare_doubles (fraction (divide n d)) (fraction (divide n' d)) < 0.
Proof.
  intros Hn Hn' Hd Hlt Hlt' Hr. unfold compare_doubles, fraction. cbn [num]. rewrite !unit_scale.
  assert (Hf : forall z, 0 <= z -> z < d * 2 ^ 10 -> exists f, num (divide z d) mod unit_of (divide z d) = f /\
    2 * Z.abs (f * d - (z mod d) * unit_of (divide z d)) <= d /\
    (z = 0 /\ f = 0 /\ unit_of (divide z d) = 1 \/ 2 ^ 42 <= unit_of (divide z d))).
  { intros z Hz Hzl. destruct (divide_near z d 10 Hz ltac:(lia) ltac:(lia) Hzl) as (Hnear & _ & Hu).
    eexists. split; [done|]. pose proof (floor_divide z d Hz Hd Hzl) as E. unfold floor in E.
    pose proof (unit_pos (divide z d)). rewrite Z.mod_eq, E by lia. rewrite (Z.mod_eq z d) by lia. split.
    - replace ((num (divide z d) - unit_of (divide z d) * (z / d)) * d - (z - d * (z / d)) * unit_of (divide z d))
        with (num (divide z d) * d - z * unit_of (divide z d)) by ring. done.
    - destruct Hu as [[-> ->]|Hu]; [left; by rewrite Z.div_0_l by lia|by right]. }
  destruct (Hf n Hn Hlt) as (f & Ef & Hnear & Hu). destruct (Hf n' Hn' Hlt') as (f' & Ef' & Hnear' & Hu'). rewrite Ef, Ef'.
  pose proof (unit_pos (divide n d)) as Hp. pose proof (unit_pos (divide n' d)) as Hp'.
  pose proof (Z.mod_pos_bound n d ltac:(lia)) as Hr0. clear Hf Ef Ef'.
  destruct Hu' as [(-> & _)|Hu']; [rewrite Z.mod_0_l in Hr by lia; lia|].
  set (u := unit_of (divide n d)) in *. set (u' := unit_of (divide n' d)) in *. clearbody u u'.
  set (r := n mod d) in *. set (r' := n' mod d) in *. clearbody r r'.
  assert (H2' : 2 * r' * u' - d <= 2 * (f' * d)) by lia.
  destruct Hu as [(-> & -> & ->)|Hu].
  - assert (0 < f'); [|lia]. assert (1 * u' <= r' * u') by (apply Z.mul_le_mono_nonneg_r; lia).
    assert (0 < f' * d) by lia. nia.
  - assert (H2 : 2 * (f * d) <= 2 * r * u + d) by lia.
    assert (2 * d * (f * u') < 2 * d * (f' * u)); [|nia].
    assert (A1 : 2 * (f * d) * u' <= (2 * r * u + d) * u') by nia.
    assert (A2 : (2 * r' * u' - d) * u <= 2 * (f' * d) * u) by nia.
    assert (A3 : d * u' < u * u') by nia. assert (A4 : d * u < u' * u) by nia. nia.
Qed.

#[export] Instance compare_doubles_comparator : Comparator compare_doubles.
Proof.
  split.
  - intros x y. unfold compare_doubles. lia.
  - intros x y z. unfold compare_doubles. pose proof (unit_pos x). pose proof (unit_pos y). pose proof (unit_pos z). intros Hxy Hyz.
    assert (num x * unit_of y * unit_of z <= num y * unit_of x * unit_of z) by nia.
    assert (num y * unit_of z * unit_of x <= num z * unit_of y * unit_of x) by nia. nia.
Qed.

(** ** Largest remainders *)

(** The other way round (no instance: it would apply to itself). *)
Lemma flip_comparator {A} (f : A -> A -> Z) : Comparator f -> Comparator (fun x y => f y x).
Proof. intros [Ho Ht]. split; [intros x y; apply Ho|intros x y z H1 H2; by apply (Ht z y x)]. Qed.

#[export] Instance by_remainder_comparator : Comparator by_remainder.
Proof.
  pose proof (flip_comparator _ (on_comparator (@snd nat double) compare_doubles)) as H1.
  pose proof (on_comparator (fun a : nat * double => Z.of_nat a.1) Z.sub) as H2. exact (lex_comparator _ _).
Qed.

Lemma sum_cons x l : sum_Z (x :: l) = x + sum_Z l.
Proof. done. Qed.

Lemma sum_Z_perm l k : l ≡ₚ k -> sum_Z l = sum_Z k.
Proof. induction 1; rewrite ?sum_cons; lia. Qed.

Lemma fold_add_sum l z : fold_left Z.add l z = z + sum_Z l.
Proof. rewrite (fold_left_sum id). by rewrite map_id. Qed.

Lemma length_add_at i n l : length (add_at i n l) = length l.
Proof. apply length_alter. Qed.

Lemma sum_add_at i n l : (i < length l)%nat -> sum_Z (add_at i n l) = sum_Z l + n.
Proof.
  unfold add_at, sum_Z. revert i. induction l as [|x l IH]; intros [|i] Hi; cbn [length] in Hi; try lia.
  - change (alter (fun y => y + n) 0%nat (x :: l)) with (x + n :: l). cbn [foldr]. lia.
  - change (alter (fun y => y + n) (S i) (x :: l)) with (x :: alter (fun y => y + n) i l). cbn [foldr]. rewrite IH by lia. lia.
Qed.

Lemma give_length order n l : length (give order n l) = length l.
Proof. revert n l. induction order as [|i order IH]; intros n l; cbn; [done|]. destruct (n <=? 0); [done|]. rewrite IH. apply length_add_at. Qed.

Lemma give_sum order n l : (forall i, i ∈ order -> (i < length l)%nat) -> n <= len order ->
  sum_Z (give order n l) = sum_Z l + Z.max 0 n.
Proof.
  unfold len. revert n l. induction order as [|i order IH]; intros n l Hi Hn; cbn [give length] in *; [lia|].
  destruct (n <=? 0) eqn:E; breflect; [lia|]. rewrite IH; [|intros j Hj; rewrite length_add_at; apply Hi; by right|lia].
  rewrite sum_add_at by (apply Hi; by left). lia.
Qed.

Lemma give_lookup order n l i x : NoDup order -> l !! i = Some x ->
  give order n l !! i = Some (if decide (i ∈ take (Z.to_nat n) order) then x + 1 else x).
Proof.
  revert n l x. induction order as [|j order IH]; intros n l x Hnd Hx; cbn [give].
  { rewrite take_nil, decide_False by by intros ?%elem_of_nil. done. }
  apply NoDup_cons in Hnd as [Hj Hnd]. destruct (n <=? 0) eqn:E; breflect.
  { replace (Z.to_nat n) with 0%nat by lia. by rewrite decide_False by by intros ?%elem_of_nil. }
  replace (Z.to_nat n) with (S (Z.to_nat (n - 1))) by lia. cbn [take]. unfold add_at.
  destruct (decide (i = j)) as [->|Hne].
  - rewrite (IH _ _ (x + 1)) by (rewrite ?list_lookup_alter_eq, ?Hx; done).
    rewrite decide_False by (intros Hin; apply Hj; by eapply subseteq_take). by rewrite decide_True by by left.
  - rewrite (IH _ _ x) by (rewrite ?list_lookup_alter_ne; done).
    destruct (decide (i ∈ take _ order)); [by rewrite decide_True by by right|].
    rewrite decide_False; [done|]. intros [?|?]%elem_of_cons; done.
Qed.

(** What is given first is no greater, in a sorted list. *)
Lemma sorted_take {A} (R : A -> A -> Prop) l n x y : StronglySorted R l -> x ∈ take n l -> y ∈ l -> ~ R x y -> y ∈ take n l.
Proof.
  intros Hs Hx Hy Hn. revert n Hx. induction Hs as [|z l Hl IH Hz]; intros [|n] Hx; cbn [take] in *; try by apply elem_of_nil in Hx.
  rewrite Forall_forall in Hz. apply elem_of_cons in Hy as [->|Hy]; [by left|]. right.
  apply elem_of_cons in Hx as [->|Hx]; [destruct Hn; by apply Hz|by apply IH].
Qed.

Section Apportion.
Context (values : list Z) (sum : Z).
Context (Hpos : Forall (fun v => 0 <= v) values) (Hsum : 0 <= sum < 2 ^ 10).
Let whole : Z := sum_Z values.
Context (Hwhole : 0 < whole < 2 ^ 42).

Definition exact_of (v : Z) : double := divide (v * sum) (sum_Z values).
Definition ranked : list (nat * double) := sort_by by_remainder (imap (fun i x => (i, fraction x)) (map exact_of values)).
Definition floors : list Z := map (fun v => v * sum / sum_Z values) values.

Lemma sum_elem v : v ∈ values -> 0 <= v <= whole.
Proof.
  unfold whole. clear Hwhole. induction values as [|w l IH]; [by intros ?%elem_of_nil|]. apply Forall_cons in Hpos as [Hw Hl].
  assert (H0 : 0 <= sum_Z l) by (by apply sum_Z_nonneg). rewrite sum_cons. intros [->|Hv]%elem_of_cons; [lia|]. specialize (IH Hl Hv). lia.
Qed.

Lemma value_bound v : v ∈ values -> 0 <= v * sum /\ v * sum < whole * 2 ^ 10.
Proof. intros Hv. pose proof (sum_elem v Hv). nia. Qed.

Lemma floors_eq : map floor (map exact_of values) = floors.
Proof.
  unfold floors. rewrite map_map. apply map_ext_in. intros v Hv. apply list_elem_of_In in Hv. destruct (value_bound v Hv).
  unfold exact_of. fold whole. by apply floor_divide.
Qed.

Lemma apportion_eq : apportion values sum = give (map fst ranked) (sum - sum_Z floors) floors.
Proof.
  unfold apportion. rewrite fold_add_sum. cbv zeta. change (0 + sum_Z values) with whole. destruct (Z.eqb_spec whole 0); [lia|].
  change (map (fun v => divide (v * sum) whole) values) with (map exact_of values). rewrite floors_eq, fold_add_sum. reflexivity.
Qed.

Lemma ranked_perm : map fst ranked ≡ₚ seq 0 (length values).
Proof.
  unfold ranked. rewrite sort_by_perm. change (map fst ?l) with (fst <$> l). rewrite fmap_imap.
  rewrite <-(length_map exact_of values). generalize (map exact_of values). intros l.
  change (imap (fun n => fst ∘ (fun x => (n, fraction x))) l) with (imap (fun n _ => id n) l).
  by rewrite (imap_seq_0 l id), list_fmap_id.
Qed.

Lemma ranked_elem i v : values !! i = Some v -> (i, fraction (exact_of v)) ∈ ranked.
Proof.
  intros Hi. unfold ranked. rewrite sort_by_perm. apply elem_of_lookup_imap. exists i, (exact_of v).
  split; [done|]. change (map exact_of values) with (exact_of <$> values). by rewrite list_lookup_fmap, Hi.
Qed.

Lemma ranked_only i x : (i, x) ∈ ranked -> exists v, values !! i = Some v /\ x = fraction (exact_of v).
Proof.
  unfold ranked. rewrite sort_by_perm. intros (j & y & [= -> ->] & Hj)%elem_of_lookup_imap.
  change (map exact_of values) with (exact_of <$> values) in Hj. apply list_lookup_fmap_Some in Hj as (v & -> & Hv). by exists v.
Qed.

(** The floors miss the sum by less than one each. *)
Lemma floors_miss : 0 <= sum - sum_Z floors <= len values.
Proof.
  assert (H : forall l, Forall (fun v => 0 <= v) l ->
    sum_Z (map (fun v => v * sum / whole) l) * whole <= sum_Z l * sum <= (sum_Z (map (fun v => v * sum / whole) l) + len l) * whole).
  { unfold len. induction 1 as [|v l Hv Hl IH]; [cbn; lia|]. cbn [map length]. rewrite !sum_cons, Nat2Z.inj_succ.
    pose proof (Z.div_mod (v * sum) whole ltac:(lia)). pose proof (Z.mod_pos_bound (v * sum) whole ltac:(lia)). nia. }
  specialize (H values Hpos). fold whole in H. unfold floors. fold whole.
  set (f := sum_Z (map _ _)) in *. clearbody f. nia.
Qed.

(** Shares add up: of values that are not negative, each gets its
    part of the sum rounded down or up, the parts add up to exactly the sum,
    and what is left over goes to the largest remainders first, for sums below
    1024 and values that add up to less than [2 ^ 42].  The quotients are
    doubles. *)
Theorem apportion_exact : let shares := apportion values sum in
  length shares = length values /\ sum_Z shares = sum /\
  (forall i v, values !! i = Some v ->
     shares !! i = Some (v * sum / whole) \/ shares !! i = Some (v * sum / whole + 1)) /\
  (forall i j v w, values !! i = Some v -> values !! j = Some w -> (v * sum) mod whole < (w * sum) mod whole ->
     shares !! i = Some (v * sum / whole + 1) -> shares !! j = Some (w * sum / whole + 1)).
Proof.
  cbv zeta. rewrite apportion_eq. pose proof floors_miss as Hmiss. pose proof ranked_perm as Hperm.
  assert (Hlen : length floors = length values) by apply length_map.
  assert (Hnd : NoDup (map fst ranked)) by (rewrite Hperm; apply NoDup_seq).
  assert (Hfl : forall i v, values !! i = Some v -> floors !! i = Some (v * sum / whole)).
  { intros i v Hi. unfold floors. change (map ?f values) with (f <$> values). by rewrite list_lookup_fmap, Hi. }
  split; [by rewrite give_length|]. split.
  { rewrite give_sum; [lia| |].
    - intros i. rewrite Hperm, elem_of_seq, Hlen. lia.
    - unfold len in *. rewrite Hperm, length_seq. lia. }
  split.
  - intros i v Hi. rewrite (give_lookup _ _ _ i (v * sum / whole)) by auto. case_decide; auto.
  - intros i j v w Hi Hj Hr. rewrite (give_lookup _ _ _ i (v * sum / whole)), (give_lookup _ _ _ j (w * sum / whole)) by auto.
    set (n := Z.to_nat _). destruct (decide (i ∈ take n (map fst ranked))) as [Hin|]; [|intros Ei; injection Ei as Ei; lia].
    intros _. rewrite decide_True; [done|].
    assert (Hf : compare_doubles (fraction (exact_of v)) (fraction (exact_of w)) < 0).
    { destruct (value_bound v) as [? ?]; [by eapply list_elem_of_lookup_2|]. destruct (value_bound w) as [? ?]; [by eapply list_elem_of_lookup_2|].
      by apply fraction_order. }
    assert (Htake : forall k, k ∈ take n (map fst ranked) <-> exists x, (k, x) ∈ take n ranked).
    { intros k. change (map fst ranked) with (fst <$> ranked). rewrite <-fmap_take. rewrite list_elem_of_fmap. split.
      - intros ([k' x] & -> & Hx). by exists x.
      - intros (x & Hx). by exists (k, x). }
    apply Htake. apply Htake in Hin as (x & Hx).
    destruct (ranked_only i x) as (v' & Hv' & ->); [by eapply subseteq_take|]. rewrite Hi in Hv'. injection Hv' as <-.
    exists (fraction (exact_of w)). eapply sorted_take; [apply (sort_by_comparator by_remainder)|exact Hx|by apply ranked_elem|].
    unfold le_by, by_remainder. cbv zeta. cbn [fst snd]. pose proof (comparator_opp (f := compare_doubles) (fraction (exact_of w)) (fraction (exact_of v))).
    destruct (Z.eqb_spec (compare_doubles (fraction (exact_of w)) (fraction (exact_of v))) 0); lia.
Qed.
End Apportion.

(** ** The week grid *)

(** The time of the entries a predicate holds of. *)
Definition time_of (P : TimeEntry -> bool) (entries : list TimeEntry) : Z := sum_Z (map durationOf (List.filter P entries)).

Lemma time_of_snoc P entries e : time_of P (entries ++ [e]) = time_of P entries + if P e then durationOf e else 0.
Proof.
  unfold time_of. rewrite List.filter_app, map_app, sum_Z_app. cbn [List.filter]. destruct (P e); cbn; lia.
Qed.

Lemma sum_jset {K V} `{EqDecision K} (f : V -> Z) (k : K) v m : NoDup (jkeys m) ->
  sum_Z (map f (jvalues (jset k v m))) = sum_Z (map f (jvalues m)) + f v - match jget k m with Some w => f w | None => 0 end.
Proof.
  unfold jvalues, jkeys. induction m as [|[x w] m IH]; cbn [map fst jset jget]; intros Hnd; [cbn; lia|].
  apply NoDup_cons in Hnd as [Hx Hnd]. destruct (decide (k = x)); cbn [map snd]; rewrite !sum_cons; [lia|].
  rewrite IH by done. lia.
Qed.

Section Grid.
Context (Intl : jstr -> option (Z -> option Parts)) (zone : jstr) (week : list DayKey).

(** The column of an entry, if its local day is of the week. *)
Definition column (e : TimeEntry) : option nat := key ← key_of Intl zone (start e); index_of week key.

Lemma index_of_spec key j : NoDup week -> index_of week key = Some j <-> week !! j = Some key.
Proof.
  intros Hnd. unfold index_of.
  assert (Hk : jkeys (imap (fun i d => (d, i)) week) = week).
  { unfold jkeys. etransitivity; [exact (fmap_imap (fun i d => (d, i)) fst week)|].
    etransitivity; [exact (imap_const id week)|apply list_fmap_id]. }
  rewrite jmap_of_nodup by by rewrite Hk. rewrite jget_elem by by rewrite Hk. rewrite elem_of_lookup_imap. split.
  - by intros (i & d & [= <- <-] & H).
  - intros H. by exists j, key.
Qed.

(** What the loop has made of the entries so far. *)
Record grid_ok (entries : list TimeEntry) (st : GridState) : Prop := {
  ok_keys : NoDup (jkeys (gs_rows st));
  ok_rows : forall k row, jget k (gs_rows st) = Some row ->
    gr_key row = k /\ length (cells row) = length week /\ sum_Z (cells row) = gr_total row /\
    (exists e, e ∈ entries /\ projectKey e = k /\ is_Some (column e) /\ gr_project row = te_project e) /\
    forall j, (j < length week)%nat ->
      cells row !! j = Some (time_of (fun e => jeqb (projectKey e) k && bool_decide (column e = Some j)) entries);
  ok_none : forall k, jget k (gs_rows st) = None -> forall e, e ∈ entries -> is_Some (column e) -> projectKey e <> k;
  ok_totals : length (gs_dayTotals st) = length week /\ forall j, (j < length week)%nat ->
    gs_dayTotals st !! j = Some (time_of (fun e => bool_decide (column e = Some j)) entries);
  ok_sums : sum_Z (gs_dayTotals st) = gs_total st /\ sum_Z (map gr_total (jvalues (gs_rows st))) = gs_total st;
  ok_total : gs_total st = time_of (fun e => bool_decide (is_Some (column e))) entries;
  ok_billable : gs_billable st = time_of (fun e => bool_decide (is_Some (column e)) && billable e) entries;
}.

Lemma time_of_none P entries : (forall e, e ∈ entries -> P e = false) -> time_of P entries = 0.
Proof. intros H. unfold time_of. by rewrite filter_none. Qed.

Lemma grid_start : grid_ok [] (mkGridState [] (map (fun _ => 0) week) 0 0).
Proof.
  assert (Hz : sum_Z (map (fun _ : DayKey => 0) week) = 0).
  { induction week as [|d l IH]; [done|]. cbn [map]. rewrite sum_cons. lia. }
  split; cbn [gs_rows gs_dayTotals gs_billable gs_total jget].
  - constructor.
  - done.
  - by intros k _ e ?%elem_of_nil.
  - split; [apply length_map|]. intros j Hj. apply lookup_lt_is_Some in Hj as [d Hd].
    change (map (fun _ : DayKey => 0) week) with ((fun _ : DayKey => 0) <$> week). by rewrite list_lookup_fmap, Hd.
  - done.
  - done.
  - done.
Qed.

Lemma add_at_lookup i n l j : add_at i n l !! j = (if decide (i = j) then fun x => x + n else id) <$> l !! j.
Proof.
  unfold add_at. case_decide as E; [subst; apply list_lookup_alter_eq|]. rewrite list_lookup_alter_ne by done. by destruct (l !! j).
Qed.
(** The row of an entry before it is counted. *)
Definition row_before (st : GridState) (e : TimeEntry) : GridRow :=
  match jget (projectKey e) (gs_rows st) with
  | Some row => row
  | None => mkGridRow (projectKey e) (te_project e) (replicate (length week) 0) 0
  end.

Lemma row_before_ok entries st e i : grid_ok entries st -> column e = Some i ->
  let row := row_before st e in
  gr_key row = projectKey e /\ length (cells row) = length week /\ sum_Z (cells row) = gr_total row /\
  (exists x, x ∈ entries ++ [e] /\ projectKey x = projectKey e /\ is_Some (column x) /\ gr_project row = te_project x) /\
  forall j, (j < length week)%nat ->
    cells row !! j = Some (time_of (fun x => jeqb (projectKey x) (projectKey e) && bool_decide (column x = Some j)) entries).
Proof.
  intros H Hi. unfold row_before. destruct (jget (projectKey e) (gs_rows st)) as [row|] eqn:Er.
  - destruct (ok_rows _ _ H _ _ Er) as (H1 & H2 & H3 & (x & Hx & H4) & H5). split_and!; try done.
    exists x. split; [apply elem_of_app; by left|done].
  - cbn [gr_key cells gr_total gr_project]. split; [done|]. split; [apply length_replicate|]. split.
    { generalize (length week). intros n. induction n; [done|]. cbn [replicate]. rewrite sum_cons. lia. }
    split. { exists e. split; [apply elem_of_app; right; by left|]. split; [done|]. split; [by rewrite Hi|done]. }
    intros j Hj. rewrite time_of_none; [by apply lookup_replicate_2|]. intros x Hx.
    destruct (jeqb (projectKey x) (projectKey e)) eqn:Ek; [|done]. unfold jeqb in Ek. breflect. cbn. apply bool_decide_false. intros Ec.
    by apply (ok_none _ _ H _ Er x Hx); [rewrite Ec|].
Qed.

Lemma grid_entry_ok entries st e i : grid_ok entries st -> column e = Some i -> (i < length week)%nat ->
  grid_ok (entries ++ [e]) (grid_entry (length week) st e i).
Proof.
  intros H Hi Hlt. pose proof (row_before_ok entries st e i H Hi) as (Rk & Rl & Rs & Rp & Rc).
  assert (E : grid_entry (length week) st e i =
    mkGridState (jset (projectKey e) (mkGridRow (gr_key (row_before st e)) (gr_project (row_before st e))
        (add_at i (durationOf e) (cells (row_before st e))) (gr_total (row_before st e) + durationOf e)) (gs_rows st))
      (add_at i (durationOf e) (gs_dayTotals st))
      (if billable e then gs_billable st + durationOf e else gs_billable st) (gs_total st + durationOf e)) by reflexivity.
  rewrite E. clear E. destruct (ok_totals _ _ H) as [Tl Tc]. destruct (ok_sums _ _ H) as [S1 S2].
  assert (Hold : sum_Z (map gr_total (jvalues (gs_rows st))) + gr_total (row_before st e) -
    match jget (projectKey e) (gs_rows st) with Some w => gr_total w | None => 0 end = gs_total st).
  { rewrite S2. unfold row_before. destruct (jget _ _); cbn; lia. }
  split; cbn [gs_rows gs_dayTotals gs_billable gs_total].
  - apply jset_nodup, (ok_keys _ _ H).
  - intros k row. rewrite jget_jset. destruct (decide (k = projectKey e)) as [->|Hne].
    + intros [= <-]. cbn [gr_key cells gr_total gr_project]. split; [done|]. split; [by rewrite length_add_at|].
      split; [rewrite sum_add_at by (by rewrite Rl); lia|]. split; [done|]. intros j Hj.
      rewrite add_at_lookup, Rc, time_of_snoc by done. unfold jeqb. rewrite bool_decide_true by done. rewrite Hi. cbn [andb].
      destruct (decide (i = j)) as [->|Hij]; cbn; [by rewrite bool_decide_true by done|].
      rewrite bool_decide_false by congruence. by rewrite Z.add_0_r.
    + intros Hk. destruct (ok_rows _ _ H _ _ Hk) as (H1 & H2 & H3 & (x & Hx & H4) & H5). split_and!; try done.
      * exists x. split; [apply elem_of_app; by left|done].
      * intros j Hj. rewrite H5, time_of_snoc by done. unfold jeqb. rewrite (bool_decide_false (projectKey e = k)) by congruence.
        cbn. by rewrite Z.add_0_r.
  - intros k. rewrite jget_jset. destruct (decide (k = projectKey e)) as [->|Hne]; [done|]. intros Hk x Hx Hc.
    apply elem_of_app in Hx as [Hx| ->%list_elem_of_singleton]; [by apply (ok_none _ _ H k)|done].
  - split; [by rewrite length_add_at|]. intros j Hj. rewrite add_at_lookup, Tc, time_of_snoc by done. rewrite Hi.
    destruct (decide (i = j)) as [->|Hij]; cbn; [by rewrite bool_decide_true by done|].
    rewrite bool_decide_false by congruence. by rewrite Z.add_0_r.
  - split; [rewrite sum_add_at by (by rewrite Tl); lia|]. rewrite sum_jset by apply (ok_keys _ _ H). cbn [gr_total]. lia.
  - rewrite time_of_snoc, (ok_total _ _ H), Hi. rewrite bool_decide_true by done. done.
  - rewrite time_of_snoc, (ok_billable _ _ H), Hi. rewrite bool_decide_true by done. cbn [andb]. destruct (billable e); lia.
Qed.

Lemma grid_skip entries st e : grid_ok entries st -> column e = None -> grid_ok (entries ++ [e]) st.
Proof.
  intros H Hc.
  assert (Ht : forall P, P e = false -> time_of P (entries ++ [e]) = time_of P entries) by (intros P HP; rewrite time_of_snoc, HP; lia).
  destruct (ok_totals _ _ H) as [Tl Tc]. split.
  - apply (ok_keys _ _ H).
  - intros k row Hk. destruct (ok_rows _ _ H _ _ Hk) as (H1 & H2 & H3 & (x & Hx & H4) & H5). split_and!; try done.
    + exists x. split; [apply elem_of_app; by left|done].
    + intros j Hj. rewrite H5 by done. rewrite Ht; [done|]. rewrite Hc. by rewrite andb_false_r.
  - intros k Hk x [Hx| ->%list_elem_of_singleton]%elem_of_app; [by apply (ok_none _ _ H)|]. rewrite Hc. by intros [? ?].
  - split; [done|]. intros j Hj. rewrite Tc by done. rewrite Ht; [done|]. by rewrite Hc.
  - apply (ok_sums _ _ H).
  - rewrite Ht; [apply (ok_total _ _ H)|]. rewrite Hc. done.
  - rewrite Ht; [apply (ok_billable _ _ H)|]. rewrite Hc. done.
Qed.

Lemma grid_folds entries st : NoDup week ->
  fold_left (grid_step Intl zone week) entries (Some (mkGridState [] (map (fun _ => 0) week) 0 0)) = Some st -> grid_ok entries st.
Proof.
  intros Hnd. revert st. induction entries as [|e entries IH] using rev_ind; intros st.
  - intros [= <-]. apply grid_start.
  - rewrite fold_left_app. cbn [fold_left]. set (before := fold_left _ entries _) in *.
    destruct before as [st'|]; [|done]. cbn [mbind option_bind grid_step].
    destruct (key_of Intl zone (start e)) as [key|] eqn:Ek; [|done]. cbn [mbind option_bind]. intros [= <-].
    destruct (index_of week key) as [i|] eqn:Ei.
    + apply grid_entry_ok; [by apply IH|unfold column; by rewrite Ek|]. apply index_of_spec in Ei; [|done]. by eapply lookup_lt_Some.
    + apply grid_skip; [by apply IH|unfold column; by rewrite Ek].
Qed.
End Grid.

Section GridOfWeek.
Context (other : jstr -> option Z) (Intl : jstr -> option (Z -> option Parts)) (zone : jstr) (off : Z -> Z) (s : Z).
Context (Hlaw : zone_law Intl zone off) (Hs : FIRST_DAY + 3 <= s /\ s + 8 < LAST_DAY - 3).

(** The local day of an entry's start. *)
Definition local_day (e : TimeEntry) : Z := wall off (start e) / DAY.
Definition this_week (e : TimeEntry) : bool := (s <=? local_day e) && (local_day e <? s + 7).

Lemma week_days_lookup j : Zones.days (week_from s) !! j = if decide (j < 7)%nat then Some (day_key (s + Z.of_nat j)) else None.
Proof. cbn [Zones.days week_from map]. do 7 (destruct j as [|j]; [done|]). by destruct j. Qed.

Lemma week_day_ok j : (j < 8)%nat -> day_ok (s + Z.of_nat j) /\ day_inside (s + Z.of_nat j).
Proof. unfold day_ok, day_inside. lia. Qed.

Lemma week_nodup : NoDup (Zones.days (week_from s)).
Proof.
  apply NoDup_alt. intros i j d Hi Hj. rewrite week_days_lookup in Hi, Hj. repeat case_decide; try done.
  injection Hi as <-. injection Hj as E. apply (day_key_inj (fun _ => None)) in E; [lia|apply week_day_ok; lia..].
Qed.

Lemma column_local e : key_range (start e) ->
  column Intl zone (Zones.days (week_from s)) e = if this_week e then Some (Z.to_nat (local_day e - s)) else None.
Proof.
  intros Hr. destruct (key_range_inside Intl zone off Hlaw (start e) Hr) as [Hb Hd]. unfold column, key_of.
  rewrite (dayKey_law Intl zone off Hlaw) by done. cbn [mbind option_bind]. fold (local_day e).
  assert (Hiff : forall j, index_of (Zones.days (week_from s)) (day_key (local_day e)) = Some j <-> (j < 7)%nat /\ local_day e = s + Z.of_nat j).
  { intros j. rewrite index_of_spec by apply week_nodup. rewrite week_days_lookup. case_decide as Hj; [|split; [done|by intros [? _]]].
    split; [intros [= E]|by intros [_ ->]]. split; [done|]. apply (day_key_inj (fun _ => None)) in E; [done|apply week_day_ok; lia|done]. }
  unfold this_week. destruct ((s <=? local_day e) && (local_day e <? s + 7)) eqn:E.
  - breflect. apply Hiff. lia.
  - destruct (index_of _ _) as [j|] eqn:Ej; [|done]. destruct (proj1 (Hiff j) eq_refl) as [Hj Ed]. exfalso. apply andb_false_iff in E as [E|E]; breflect; lia.
Qed.

Context (entries : list TimeEntry) (now : Z) (window : option Interval).
Context (Hentries : Forall (fun e => key_range (start e)) entries) (Hnow : key_range now).

Lemma key_of_total t : key_range t -> exists key, key_of Intl zone t = Some key.
Proof.
  intros Ht. destruct (key_range_inside Intl zone off Hlaw t Ht) as [Hb _]. unfold key_of.
  rewrite (dayKey_law Intl zone off Hlaw) by done. by eexists.
Qed.

Lemma grid_days today : exists ds, mapM (grid_day other Intl zone window today) (Zones.days (week_from s)) = Some ds.
Proof.
  apply mapM_is_Some, Forall_forall. intros d Hd. apply list_elem_of_lookup in Hd as (j & Hj). rewrite week_days_lookup in Hj.
  case_decide as Hlt; [|done]. injection Hj as <-. unfold compose, grid_day. destruct window as [w|]; [|by eexists].
  rewrite addDays_day by (apply week_day_ok; lia).
  replace (s + Z.of_nat j + 1) with (s + Z.of_nat (S j)) by lia.
  destruct (startOfDay_near Intl zone off Hlaw other (s + Z.of_nat (S j))) as (a & _ & ->); [apply week_day_ok; lia|]. by eexists.
Qed.

Lemma grid_fold_total st : exists st', fold_left (grid_step Intl zone (Zones.days (week_from s))) entries (Some st) = Some st'.
Proof.
  revert st. induction Hentries as [|e es He Hes IH]; intros st; [by eexists|]. cbn [fold_left grid_step mbind option_bind].
  destruct (key_of_total (start e) He) as [key Ek]. rewrite Ek. cbn [mbind option_bind]. exact (IH Hes _).
Qed.

(** The grid of a week is always made, and is the entries
    counted by project and local day: the cell of a row in a column is the time
    of the project's entries that start on that local day, the totals of days
    and projects are the sums of their cells, all of them come to the time of
    the entries that start in the week, and what is billable and what is not to
    the same.  There is one row for each project with such an entry, and none
    else. *)
Theorem weekGrid_exact : exists g,
  weekGrid other Intl entries (week_from s) zone now window = Some g /\
  total g = time_of this_week entries /\
  g_billable g = time_of (fun e => this_week e && billable e) entries /\ g_billable g + notBillable g = total g /\
  sum_Z (dayTotals g) = total g /\ sum_Z (map gr_total (rows g)) = total g /\ length (dayTotals g) = 7%nat /\
  (forall j, 0 <= j < 7 -> dayTotals g !! Z.to_nat j = Some (time_of (fun e => local_day e =? s + j) entries)) /\
  NoDup (map gr_key (rows g)) /\
  (forall k, k ∈ map gr_key (rows g) <-> exists e, e ∈ entries /\ this_week e = true /\ projectKey e = k) /\
  forall row, row ∈ rows g -> sum_Z (cells row) = gr_total row /\ length (cells row) = 7%nat /\
    forall j, 0 <= j < 7 ->
      cells row !! Z.to_nat j = Some (time_of (fun e => jeqb (projectKey e) (gr_key row) && (local_day e =? s + j)) entries).
Proof.
  destruct (key_of_total now Hnow) as [today Et]. destruct (grid_days today) as [ds Eds].
  destruct (grid_fold_total (mkGridState [] (map (fun _ => 0) (Zones.days (week_from s))) 0 0)) as [st Est].
  eexists. split.
  { unfold weekGrid. rewrite Et. cbn [mbind option_bind]. rewrite Est. cbn [mbind option_bind]. rewrite Eds. reflexivity. }
  cbn [total g_billable notBillable dayTotals rows].
  pose proof (grid_folds Intl zone (Zones.days (week_from s)) entries st week_nodup Est) as H.
  assert (Hcol : forall e, e ∈ entries -> column Intl zone (Zones.days (week_from s)) e = if this_week e then Some (Z.to_nat (local_day e - s)) else None).
  { intros e He. rewrite Forall_forall in Hentries. by apply column_local, Hentries. }
  assert (Hext : forall P Q, (forall e, e ∈ entries -> P e = Q e) -> time_of P entries = time_of Q entries).
  { intros P Q HPQ. unfold time_of. do 2 f_equal. apply filter_ext_in. intros e He. by apply HPQ, list_elem_of_In. }
  assert (Hj : forall e j, e ∈ entries -> 0 <= j < 7 ->
    bool_decide (column Intl zone (Zones.days (week_from s)) e = Some (Z.to_nat j)) = (local_day e =? s + j)).
  { intros e j He Hjr. rewrite Hcol by done. unfold this_week. apply eq_bool_prop_intro. rewrite bool_decide_spec, Is_true_true, Z.eqb_eq.
    destruct ((s <=? local_day e) && (local_day e <? s + 7)) eqn:E; [breflect; split; [intros [= E']; lia|intros E'; f_equal; lia]|].
    split; [done|]. intros E'. apply andb_false_iff in E as [E|E]; breflect; lia. }
  assert (Hw : forall e, e ∈ entries -> bool_decide (is_Some (column Intl zone (Zones.days (week_from s)) e)) = this_week e).
  { intros e He. rewrite Hcol by done. destruct (this_week e); [by apply bool_decide_true|apply bool_decide_false; by intros [? ?]]. }
  destruct (ok_totals _ _ _ _ _ H) as [Tl Tc]. destruct (ok_sums _ _ _ _ _ H) as [S1 S2].
  assert (Hrows : forall row, row ∈ jvalues (gs_rows st) <-> exists k, jget k (gs_rows st) = Some row).
  { intros row. apply jvalues_get, (ok_keys _ _ _ _ _ H). }
  assert (Hkeys : map gr_key (jvalues (gs_rows st)) = jkeys (gs_rows st)).
  { unfold jvalues, jkeys. rewrite map_map. apply map_ext_in. intros [k row] Hin. apply list_elem_of_In in Hin. cbn.
    apply jget_elem in Hin; [|apply (ok_keys _ _ _ _ _ H)]. by destruct (ok_rows _ _ _ _ _ H k row Hin). }
  split_and!.
  - rewrite (ok_total _ _ _ _ _ H). by apply Hext.
  - rewrite (ok_billable _ _ _ _ _ H). apply Hext. intros e He. by rewrite Hw.
  - lia.
  - done.
  - by rewrite (sum_Z_perm _ _ (Permutation_map gr_total (sort_by_perm byTotalThenName (jvalues (gs_rows st))))).
  - done.
  - intros j Hjr. rewrite Tc by (cbn; lia). f_equal. apply Hext. intros e He. by apply Hj.
  - rewrite (Permutation_map gr_key (sort_by_perm _ _)), Hkeys. apply (ok_keys _ _ _ _ _ H).
  - intros k. rewrite (Permutation_map gr_key (sort_by_perm _ _)), Hkeys. split.
    + intros Hk. destruct (jget k (gs_rows st)) as [row|] eqn:Er; [|by apply jget_None in Er].
      destruct (ok_rows _ _ _ _ _ H k row Er) as (_ & _ & _ & (e & He & Ek & Hc & _) & _). exists e.
      split; [done|]. split; [|done]. rewrite <-Hw by done. by apply bool_decide_true.
    + intros (e & He & Ht & <-). destruct (decide (projectKey e ∈ jkeys (gs_rows st))) as [|Hn]; [done|]. apply jget_None in Hn.
      exfalso. apply (ok_none _ _ _ _ _ H _ Hn e He); [|done]. rewrite <-Hw in Ht by done. by apply bool_decide_eq_true in Ht.
  - intros row Hrow. rewrite sort_by_perm in Hrow. apply Hrows in Hrow as (k & Hk).
    destruct (ok_rows _ _ _ _ _ H k row Hk) as (-> & Hl & Hsum & _ & Hc). split; [done|]. split; [done|].
    intros j Hjr. rewrite Hc by (cbn; lia). f_equal. apply Hext. intros e He. by rewrite Hj.
Qed.
End GridOfWeek.

(** ** The list by day *)

Section ListOfWeek.
Context (Intl : jstr -> option (Z -> option Parts)) (zone : jstr) (week : list DayKey).

(** The entries of a day, in their order. *)
Definition on_day (key : DayKey) (entries : list TimeEntry) : list TimeEntry :=
  List.filter (fun e => bool_decide (key_of Intl zone (start e) = Some key)) entries.

Record groups_ok (entries : list TimeEntry) (groups : list (DayKey * DayGroup)) : Prop := {
  groups_keys : NoDup (jkeys groups);
  groups_day : forall key g, jget key groups = Some g ->
    key ∈ week /\ dg_key g = key /\ dg_entries g = on_day key entries /\ dg_entries g <> [] /\
    dg_total g = sum_Z (map durationOf (dg_entries g));
  groups_none : forall key, key ∈ week -> jget key groups = None -> on_day key entries = [];
}.

Lemma on_day_snoc key entries e k : key_of Intl zone (start e) = Some k ->
  on_day key (entries ++ [e]) = on_day key entries ++ if decide (k = key) then [e] else [].
Proof.
  intros E. unfold on_day. rewrite List.filter_app. cbn [List.filter]. rewrite E. f_equal.
  case_decide; [rewrite bool_decide_true by congruence|rewrite bool_decide_false by congruence]; done.
Qed.

Lemma list_folds entries groups : fold_left (list_step Intl zone week) entries (Some []) = Some groups -> groups_ok entries groups.
Proof.
  revert groups. induction entries as [|e entries IH] using rev_ind; intros groups.
  { intros [= <-]. split; [constructor|done|done]. }
  rewrite fold_left_app. cbn [fold_left]. set (before := fold_left _ entries _) in *.
  destruct before as [gs|]; [|done]. destruct (IH gs eq_refl) as [Hnd Hd Hn]. cbn [mbind option_bind list_step].
  destruct (key_of Intl zone (start e)) as [k|] eqn:Ek; [|done]. cbn [mbind option_bind].
  destruct (bool_decide_reflect (k ∈ week)) as [Hk|Hk]; intros [= <-].
  - set (g := default (mkDayGroup k 0 []) (jget k gs)).
    assert (Hg : dg_key g = k /\ dg_entries g = on_day k entries /\ dg_total g = sum_Z (map durationOf (dg_entries g))).
    { unfold g. destruct (jget k gs) as [g'|] eqn:Eg; [by destruct (Hd k g' Eg) as (_ & ? & ? & _ & ?)|]. cbn. by rewrite (Hn k). }
    destruct Hg as (G1 & G2 & G3). split; [by apply jset_nodup| |].
    + intros key g'. rewrite jget_jset, (on_day_snoc key entries e k Ek). destruct (decide (key = k)) as [->|Hne].
      * intros [= <-]. cbn [dg_key dg_entries dg_total]. rewrite decide_True by done. split_and!; [done|done|by rewrite G2| |].
        -- by destruct (dg_entries g).
        -- rewrite map_app, sum_Z_app, G3. cbn [map]. rewrite sum_cons. cbn. lia.
      * intros Hg'. rewrite decide_False, app_nil_r by done. by apply Hd.
    + intros key Hkey. rewrite jget_jset. destruct (decide (key = k)) as [->|Hne]; [done|]. intros Hno.
      rewrite (on_day_snoc key entries e k Ek), decide_False, app_nil_r by done. by apply Hn.
  - split; [done| |].
    + intros key g Hg. destruct (Hd key g Hg) as (H1 & H2 & H3 & H4). rewrite (on_day_snoc key entries e k Ek).
      rewrite decide_False by (by intros ->). by rewrite app_nil_r.
    + intros key Hkey Hno. rewrite (on_day_snoc key entries e k Ek), decide_False by (by intros ->). rewrite app_nil_r. by apply Hn.
Qed.

(** The list of a week has one group for each of its days with entries, with
    all of them and their time. *)
Lemma dayList_groups entries (w : Week) groups : Zones.days w = week -> dayList Intl entries w zone = Some groups ->
  NoDup (map dg_key groups) /\
  (forall key, key ∈ map dg_key groups <-> key ∈ week /\ on_day key entries <> []) /\
  forall g, g ∈ groups -> dg_entries g ≡ₚ on_day (dg_key g) entries /\ dg_total g = sum_Z (map durationOf (dg_entries g)).
Proof.
  intros Hw. unfold dayList. rewrite Hw. destruct (fold_left _ entries _) as [gs|] eqn:E; [|done]. cbn [mbind option_bind].
  intros [= <-]. destruct (list_folds entries gs E) as [Hnd Hd Hn].
  set (sorted := map _ (jvalues gs)).
  assert (Hkeys : map dg_key sorted = jkeys gs).
  { unfold sorted, jvalues, jkeys. rewrite !map_map. apply map_ext_in. intros [k g] Hin. apply list_elem_of_In, jget_elem in Hin; [|done].
    by destruct (Hd k g Hin) as (_ & ? & _). }
  rewrite (Permutation_map dg_key (sort_by_perm _ sorted)), Hkeys. split; [done|]. split.
  - intros key. rewrite (Permutation_map dg_key (sort_by_perm _ sorted)), Hkeys. split.
    + intros Hk. destruct (jget key gs) as [g|] eqn:Eg; [|by apply jget_None in Eg].
      destruct (Hd key g Eg) as (H1 & _ & H3 & H4 & _). by rewrite <-H3.
    + intros [Hk Hne]. destruct (decide (key ∈ jkeys gs)) as [|Hno]; [done|]. apply jget_None in Hno. by destruct Hne; apply Hn.
  - intros g. rewrite sort_by_perm. unfold sorted. intros (g' & -> & Hg')%list_elem_of_fmap. cbn [dg_entries dg_key dg_total].
    apply jvalues_get in Hg' as (k & Hk); [|done]. destruct (Hd k g' Hk) as (_ & <- & <- & _ & ->).
    pose proof (sort_by_perm newest_first (dg_entries g')) as Hp. split; [done|].
    by rewrite (sum_Z_perm _ _ (Permutation_map durationOf Hp)).
Qed.
End ListOfWeek.

Module Demo.
Import Zones.Demo.

(** Remainders that are equal as fractions and not as doubles. *)
Example doubles_decide : apportion [12; 10; 48; 20] 1000 = [133; 111; 534; 222].
Proof. by vm_compute. Qed.

Lemma apportion_exact_witness : sum_Z (apportion [1; 11; 1; 11; 1; 11; 31] 1000) = 1000.
Proof.
  destruct (apportion_exact [1; 11; 1; 11; 1; 11; 31] 1000 ltac:(by_decide) ltac:(lia)) as (_ & H & _); [by vm_compute|exact H].
Defined.

Definition site : Project := mkProject (js "p1") (Some (js "Site")) None None.
Definition entries : list TimeEntry :=
  [mkTimeEntry (js "e1") [] (ms "2026-09-21T06:00:00Z") (ms "2026-09-21T08:00:00Z") true (Some site) None;
   mkTimeEntry (js "e2") [] (ms "2026-09-21T22:30:00Z") (ms "2026-09-22T06:30:00Z") false None None;
   mkTimeEntry (js "e3") [] (ms "2026-09-22T07:00:00Z") (ms "2026-09-22T08:00:00Z") false (Some site) None;
   mkTimeEntry (js "e4") [] (ms "2026-09-28T07:00:00Z") (ms "2026-09-28T08:00:00Z") false (Some site) None].

(** An entry counts wholly on the local day it starts. *)
Example grid : option_map (fun g => (map (fun r => (gr_key r, cells r, gr_total r)) (rows g), total g, notBillable g))
    (weekGrid none Intl entries (weekContaining none (js "2026-09-23") MONDAY) TZ (ms "2026-09-23T10:00:00Z") None) =
  Some ([(js "p1", [2 * HOUR; HOUR; 0; 0; 0; 0; 0], 3 * HOUR); ([], [0; 8 * HOUR; 0; 0; 0; 0; 0], 8 * HOUR)], 11 * HOUR, 9 * HOUR).
Proof. by vm_compute. Qed.

Lemma weekGrid_exact_witness : exists g,
  weekGrid none Intl entries (week_from (day "2026-09-21")) TZ (ms "2026-09-23T10:00:00Z") None = Some g /\ sum_Z (dayTotals g) = total g.
Proof.
  assert (Hk : forall t, (FIRST_DAY + 1 <=? t / DAY) && (t / DAY <? LAST_DAY - 1) = true -> key_range t).
  { intros t H. unfold key_range. breflect. lia. }
  destruct (weekGrid_exact none Intl TZ amsterdam (day "2026-09-21") amsterdam_law ltac:(by_decide) entries (ms "2026-09-23T10:00:00Z") None)
    as (g & Hg & _ & _ & _ & Hs & _).
  - repeat constructor; apply Hk; by vm_compute.
  - apply Hk. by vm_compute.
  - by exists g.
Defined.
End Demo.
