(* ===== verification/HostStore.v ===== *)
(** * The store a plugin's view receives

    Models the interface [PluginStore] of
    [src/integrations/timesheets/app/store.ts] (of which Calendar, Notion and
    the issue tracker keep copies): resources of a drive with their properties,
    found by a property's value, made, saved and destroyed.  The host is not
    part of the repository, so it is a parameter; what the theorems use of it
    are the laws of [Drive], over the resources that a state of the host holds.

    A view's own code is a function of the host's state that keeps the state
    when it throws, [act].  [triple] is the program logic over such functions:
    a precondition, what holds of the result, and what holds of an exception. *)
From S2P Require Import Prelude Text Collections Json.
Local Open Scope Z_scope.

(** ** Functions of a state that may throw *)

Definition act (S E A : Type) : Type := S -> S * res E A.
#[global] Instance act_ret S E : MRet (act S E) := fun A a s => (s, Ok a).
#[global] Instance act_bind S E : MBind (act S E) := fun A B f m s =>
  match m s with (s', Ok a) => f a s' | (s', Err e) => (s', Err e) end.

Definition throw {S E A} (e : E) : act S E A := fun s => (s, Err e).
Definition lift {S E A} (r : res E A) : act S E A := fun s => (s, r).
Definition reads {S E A} (f : S -> res E A) : act S E A := fun s => (s, f s).
Definition writes {S E A} (f : S -> S * res E A) : act S E A := f.

(** [for (const x of l) acc = await f(acc, x)]. *)
Fixpoint loop {S E A B} (f : B -> A -> act S E B) (acc : B) (l : list A) : act S E B :=
  match l with
  | [] => mret acc
  | x :: l => acc ← f acc x; loop f acc l
  end.

(** Another type of exceptions. *)
Definition throwing {S E F A} (g : E -> F) (m : act S E A) : act S F A := fun s =>
  match m s with (s', Ok a) => (s', Ok a) | (s', Err e) => (s', Err (g e)) end.

Section Logic.
Context {S E : Type}.

Definition triple {A} (P : S -> Prop) (m : act S E A) (Q : A -> S -> Prop) (X : E -> S -> Prop) : Prop :=
  forall s, P s -> match m s with (s', Ok a) => Q a s' | (s', Err e) => X e s' end.

Lemma triple_ret {A} (a : A) (P : S -> Prop) (Q : A -> S -> Prop) X : (forall s, P s -> Q a s) -> triple P (mret a) Q X.
Proof. intros H s Hs. by apply H. Qed.

Lemma triple_bind {A B} (m : act S E A) (f : A -> act S E B) P Q R X :
  triple P m Q X -> (forall a, triple (Q a) (f a) R X) -> triple P (m ≫= f) R X.
Proof.
  intros Hm Hf s Hs. specialize (Hm s Hs). unfold mbind, act_bind. destruct (m s) as [s1 [a|e]]; [by apply Hf|done].
Qed.

Lemma triple_reads {A} (f : S -> res E A) P (Q : A -> S -> Prop) (X : E -> S -> Prop) :
  (forall s, P s -> match f s with Ok a => Q a s | Err e => X e s end) -> triple P (reads f) Q X.
Proof. intros H s Hs. cbn. by apply H. Qed.

Lemma triple_lift {A} (r : res E A) P (Q : A -> S -> Prop) (X : E -> S -> Prop) :
  (forall s, P s -> match r with Ok a => Q a s | Err e => X e s end) -> triple P (lift r) Q X.
Proof. intros H s Hs. cbn. by apply H. Qed.

Lemma triple_weaken {A} (m : act S E A) (P P' : S -> Prop) (Q Q' : A -> S -> Prop) (X X' : E -> S -> Prop) :
  triple P' m Q' X' -> (forall s, P s -> P' s) -> (forall a s, Q' a s -> Q a s) -> (forall e s, X' e s -> X e s) ->
  triple P m Q X.
Proof. intros H HP HQ HX s Hs. specialize (H s (HP s Hs)). destruct (m s) as [s' [a|e]]; [by apply HQ|by apply HX]. Qed.

(** What does not depend on the state is moved out of a precondition. *)
Lemma triple_pure {A} (m : act S E A) (C : Prop) P Q X : (C -> triple P m Q X) -> triple (fun s => C /\ P s) m Q X.
Proof. intros H s [HC Hs]. by apply (H HC). Qed.

(** A loop keeps an invariant over the elements it has done. *)
Lemma triple_loop {A B} (f : B -> A -> act S E B) (I : list A -> B -> S -> Prop) X l acc :
  (forall done x todo b, l = done ++ x :: todo -> triple (I done b) (f b x) (I (done ++ [x])) X) ->
  triple (I [] acc) (loop f acc l) (I l) X.
Proof.
  intros H. cut (forall done todo b, l = done ++ todo -> triple (I done b) (loop f b todo) (I l) X); [intros C; by apply C|].
  intros done todo. revert done. induction todo as [|x todo IH]; intros done b ->.
  - apply triple_ret. intros s. by rewrite app_nil_r.
  - cbn [loop]. eapply triple_bind; [by eapply H|]. intros b'. apply IH. by rewrite <-app_assoc.
Qed.

(** A loop whose rounds leave the state alone. *)
Lemma loop_same {A B} (f : B -> A -> act S E B) (g : B -> A -> B) (P : B -> Prop) s l acc :
  P acc -> (forall b x, P b -> x ∈ l -> f b x s = (s, Ok (g b x)) /\ P (g b x)) -> loop f acc l s = (s, Ok (fold_left g l acc)).
Proof.
  revert acc. induction l as [|x l IH]; intros acc Ha H; [done|]. cbn. unfold mbind, act_bind.
  destruct (H acc x Ha) as [-> Hg]; [by left|]. apply IH; [done|]. intros b y Hb Hy. apply H; [done|by right].
Qed.

(** What a function returns, from a triple. *)
Lemma triple_run {A} (m : act S E A) P Q X s s' a : triple P m Q X -> P s -> m s = (s', Ok a) -> Q a s'.
Proof. intros H Hs E'. specialize (H s Hs). by rewrite E' in H. Qed.
End Logic.

(** A function that returned is one whose steps returned. *)
Lemma act_bind_inv {S E A B} (m : act S E A) (f : A -> act S E B) s s' b : (m ≫= f) s = (s', Ok b) ->
  exists s1 a, m s = (s1, Ok a) /\ f a s1 = (s', Ok b).
Proof. unfold mbind, act_bind. destruct (m s) as [s1 [a|e]]; [|done]. intros H. by exists s1, a. Qed.

(** ** Resources *)

Definition A : jstr := js "https://atomicdata.dev".
(* src: integrations/timesheets/app/ontology.ts 15-25 atomic ! *)
Definition NAME : jstr := A ++ js "/properties/name".
Definition DESCRIPTION : jstr := A ++ js "/properties/description".
Definition SHORTNAME : jstr := A ++ js "/properties/shortname".
Definition DATATYPE : jstr := A ++ js "/properties/datatype".
Definition PARENT : jstr := A ++ js "/properties/parent".
Definition ISA : jstr := A ++ js "/properties/isA".
Definition PROPERTIES : jstr := A ++ js "/properties/properties".
Definition RECOMMENDS : jstr := A ++ js "/properties/recommends".
Definition PROPERTY_CLASS : jstr := A ++ js "/classes/Property".

(** The properties of a resource. *)
Abbreviation Props := (gmap (list Z) Json).

(** [set] of each of some values, where [undefined] is not sent. *)
Definition assign (vals : list (jstr * option Json)) (r : Props) : Props :=
  fold_left (fun r p => match p.2 with Some v => <[p.1 := v]> r | None => r end) vals r.

Definition new_resource (parent : jstr) (isA : list jstr) (vals : list (jstr * option Json)) : Props :=
  assign vals (<[PARENT := OStr parent]> (<[ISA := OArr (map OStr isA)]> ∅)).

(** Whether a property has a value: the text itself, or a list with it. *)
Definition answers (v : option Json) (value : jstr) : bool :=
  match v with
  | Some (OStr s) => jeqb s value
  | Some (OArr l) => existsb (fun v => match v with OStr s => jeqb s value | _ => false end) l
  | _ => false
  end.

(** [a === b] of a stored value and one that was computed: two lists or
    objects are never the same one. *)
Definition strict_eq (a b : option Json) : bool :=
  match a, b with
  | None, None | Some ONull, Some ONull => true
  | Some (OBool x), Some (OBool y) => Bool.eqb x y
  | Some (ONum x), Some (ONum y) => x =? y
  | Some (OStr x), Some (OStr y) => jeqb x y
  | _, _ => false
  end.

Lemma answers_text s value : answers (Some (OStr s)) value = true <-> s = value.
Proof. apply bool_decide_eq_true. Qed.

Lemma strict_eq_spec a b : strict_eq a b = true -> a = b.
Proof.
  destruct a as [[| | | | |]|], b as [[| | | | |]|]; cbn; try done; intros H.
  - by apply Bool.eqb_prop in H as ->.
  - by apply Z.eqb_eq in H as ->.
  - by apply bool_decide_eq_true in H as ->.
Qed.

Definition is_scalar (v : option Json) : bool := match v with Some (OArr _) | Some (OObj _) => false | _ => true end.

Lemma strict_eq_refl v : is_scalar v = true -> strict_eq v v = true.
Proof.
  destruct v as [[| | | | |]|]; cbn; try done; intros _.
  - apply Bool.eqb_reflx.
  - apply Z.eqb_refl.
  - by apply bool_decide_eq_true.
Qed.

Section Assign.
Implicit Types (vals : list (jstr * option Json)) (r : Props).

Lemma assign_get vals r k : NoDup (map fst vals) ->
  assign vals r !! k = match jget k vals with Some (Some v) => Some v | _ => r !! k end.
Proof.
  unfold assign. revert r. induction vals as [|[k' v] vals IH]; intros r Hnd; [done|]. cbn [map fst] in Hnd.
  apply NoDup_cons in Hnd as [Hk Hnd]. cbn [fold_left fst snd jget]. rewrite IH by done. destruct (decide (k = k')) as [->|Hne].
  - assert (jget k' vals = None) as -> by (apply jget_None; exact Hk). destruct v; by rewrite ?lookup_insert_eq.
  - destruct (jget k vals) as [[|]|]; destruct v; by rewrite ?lookup_insert_ne by done.
Qed.

Lemma assign_same vals r : (forall k v, (k, Some v) ∈ vals -> r !! k = Some v) -> assign vals r = r.
Proof.
  intros H. unfold assign. induction vals as [|[k [v|]] vals IH]; cbn; [done| |].
  - rewrite insert_id; [apply IH|apply H; by left]. intros k' v' Hin. apply H. by right.
  - apply IH. intros k' v' Hin. apply H. by right.
Qed.
End Assign.

(** ** The host *)

(* src: integrations/timesheets/app/store.ts 107-112 PluginStore ! *)
Record HostStore (S : Type) := mkHost {
  getData : S -> res string (option (jstr * option jstr));
  getResource : S -> jstr -> res string Props;
  query : S -> jstr -> jstr -> res string (list jstr);
  newResource : S -> jstr -> list jstr -> list (jstr * option Json) -> S * res string jstr;
  save : S -> jstr -> list (jstr * option Json) -> S * res string unit;
  destroy : S -> jstr -> S * res string unit;
}.
Arguments getData {S} _ _.
Arguments getResource {S} _ _ _.
Arguments query {S} _ _ _ _.
Arguments newResource {S} _ _ _ _ _.
Arguments save {S} _ _ _ _.
Arguments destroy {S} _ _ _.

(** What a host says it does, where it does not fail: reads say what the drive
    holds, a query finds every resource with the value, a new resource has a
    subject of its own, and a write changes the one resource. *)
Class Drive {S} (host : HostStore S) (content : S -> gmap jstr Props) : Prop := {
  drive_get : forall s x r, getResource host s x = Ok r -> content s !! x = Some r;
  drive_query : forall s p v l, query host s p v = Ok l ->
    forall x, x ∈ l <-> exists r, content s !! x = Some r /\ answers (r !! p) v = true;
  drive_new : forall s parent isA vals s' x, newResource host s parent isA vals = (s', Ok x) ->
    content s !! x = None /\ content s' = <[x := new_resource parent isA vals]> (content s);
  drive_save : forall s x vals s' r, save host s x vals = (s', Ok tt) -> content s !! x = Some r ->
    content s' = <[x := assign vals r]> (content s);
  drive_destroy : forall s x s', destroy host s x = (s', Ok tt) -> content s' = delete x (content s);
}.

(** ** A host *)

Module Demo.
(** A drive beside another state: a subject is an [x] and a key. *)
Section Beside.
Context {L : Type}.

Abbreviation Beside := (L * gmap (list Z) Props)%type.
Definition subject (k : jstr) : jstr := 120 :: k.
Definition key (x : jstr) : option jstr := match x with c :: k => if c =? 120 then Some k else None | [] => None end.
Definition content (s : Beside) : gmap (list Z) Props := kmap subject s.2.

Definition host : HostStore Beside := mkHost Beside
  (fun _ => Ok (Some (subject (js "table"), Some (subject (js "row")))))
  (fun s x => match k ← key x; s.2 !! k with Some r => Ok r | None => Err "not found"%string end)
  (fun s p v => Ok (omap (fun q => if answers (q.2 !! p) v then Some (subject q.1) else None) (map_to_list s.2)))
  (fun s parent isA vals =>
     let k := fresh (dom s.2 : gset (list Z)) in ((s.1, <[k := new_resource parent isA vals]> s.2), Ok (subject k)))
  (fun s x vals =>
     match k ← key x; r ← s.2 !! k; Some (k, r) with
     | Some (k, r) => ((s.1, <[k := assign vals r]> s.2), Ok tt)
     | None => (s, Err "not found"%string)
     end)
  (fun s x => match key x with Some k => ((s.1, delete k s.2), Ok tt) | None => (s, Err "not found"%string) end).

#[export] Instance subject_inj : Inj (=) (=) subject.
Proof. by intros k k' [= ->]. Qed.

Lemma key_Some x k : key x = Some k -> x = subject k.
Proof.
  unfold key. destruct x as [|c x]; [done|]. destruct (Z.eqb_spec c 120) as [->|]; [by intros [= ->]|done].
Qed.

Lemma content_subject s k : content s !! subject k = s.2 !! k.
Proof. apply lookup_kmap, _. Qed.

Lemma content_other s x : key x = None -> content s !! x = None.
Proof. intros H. apply lookup_kmap_None; [apply _|]. by intros k ->. Qed.

#[export] Instance host_drive : Drive host content.
Proof.
  split; cbn [host getResource query newResource save destroy].
  - intros s x r. destruct (key x) as [k|] eqn:Ek; [|done]. apply key_Some in Ek as ->. rewrite content_subject. cbn.
    by destruct (s.2 !! k); intros [= <-].
  - intros s p v l [= <-] x. rewrite list_elem_of_omap. split.
    + intros ([k r] & Hin & Hx). cbn in Hx. destruct (answers _ _) eqn:Ea; [|done]. injection Hx as <-.
      apply elem_of_map_to_list in Hin. exists r. by rewrite content_subject.
    + intros (r & Hr & Ha). apply lookup_kmap_Some in Hr as (k & -> & Hr); [|apply _]. exists (k, r).
      rewrite elem_of_map_to_list. cbn. by rewrite Ha.
  - intros s parent isA vals s' x [= <- <-]. set (k := fresh _). assert (Hk : s.2 !! k = None) by (apply not_elem_of_dom, is_fresh).
    rewrite content_subject. split; [done|]. apply kmap_insert, _.
  - intros s x vals s' r. destruct (key x) as [k|] eqn:Ek; [|done]. apply key_Some in Ek as ->. rewrite content_subject. cbn.
    intros H Hr. rewrite Hr in H. injection H as <-. apply kmap_insert, _.
  - intros s x s'. destruct (key x) as [k|] eqn:Ek; [|done]. apply key_Some in Ek as ->. intros [= <-]. apply kmap_delete, _.
Qed.
End Beside.
Arguments host : clear implicits.
End Demo.
