(* ===== verification/SheetSync.v ===== *)
(** * The sync pass of the timesheets and the rows it shows

    Models [src/integrations/timesheets/app/sync.ts]: the values of a row,
    [projectRows], which makes the rows of the app's table a projection of the
    mirror, and [syncClockify], the pass that reads Clockify into the
    observation log and then projects.

    The host's rows are [HostStore], the resources of the log
    [ObservationLog.PluginStore], both of one state.  The ids and instants of
    observations are sequences, one element for each observation of a pass.
    [onProgress] only tells the screens how far a pass is. *)
From S2P Require Import Prelude Text Collections JsDate Observations ObservationLog Json Zones Clockify Projection HostStore.
From S2P Require Sheet.
Local Open Scope Z_scope.

(** ** Rows *)

(** The properties of a row's values. *)
(* src: integrations/timesheets/app/schema.ts 24-28 CompleteSchema ! *)
Record RowSchema := mkRow {
  entryId : jstr;
  start : jstr;
  end_ : jstr;
  billable : jstr;
  projectId : jstr;
  r_projectName : jstr;
  r_memberId : jstr;
  r_memberName : jstr;
}.

Record CompleteSchema := mkSchema { table : jstr; rowClass : jstr; row : RowSchema }.

Definition row_keys (row : RowSchema) : list jstr :=
  [NAME; entryId row; start row; end_ row; billable row; projectId row; r_projectName row; r_memberId row; r_memberName row].

(** [if (v) values[k] = v] of a text. *)
Definition when_set (k : jstr) (v : option jstr) : list (jstr * option Json) :=
  match v with Some ((_ :: _) as s) => [(k, Some (OStr s))] | _ => [] end.

(* src: integrations/timesheets/app/sync.ts 95-112 rowValues *)
Definition rowValues (entry : ProjectedEntry) (row : RowSchema) : list (jstr * option Json) :=
  let values := [(NAME, Some (OStr (p_name entry))); (entryId row, Some (OStr (p_entryId entry)));
                 (start row, ONum <$> p_start entry); (end_ row, ONum <$> p_end entry)]
    ++ match p_billable entry with Some b => [(billable row, Some (OBool b))] | None => [] end
    ++ when_set (projectId row) (p_projectId entry) ++ when_set (r_projectName row) (projectName entry)
    ++ when_set (r_memberId row) (memberId entry) ++ when_set (r_memberName row) (memberName entry) in
  jmap_of values.

Record Counts := mkCounts { created : nat; updated : nat; unchanged : nat; removed : nat }.

Definition GENERATED_TABLE_NOTE : jstr :=
  js "Generated by the Clockify timesheets app from what it last read in Clockify. Read-only: edits made here are overwritten on the next sync.".

(** Earlier start first, then the smaller id. *)
(* src: integrations/timesheets/app/sync.ts 266-266 projectRows ! *)
Definition by_start (a b : ProjectedEntry) : Z :=
  let d := match p_start a, p_start b with Some s, Some t => s - t | _, _ => 0 end in
  if d =? 0 then (if jltb (p_entryId a) (p_entryId b) then -1 else 1) else d.

Section Rows.
Context {S : Type} (host : HostStore S) (other : jstr -> option Z) (schema : CompleteSchema).

#[local] Abbreviation act := (act S string).

(** The first of the app's own rows with an entry's id. *)
(* src: integrations/timesheets/app/sync.ts 249-252 projectRows ! *)
Definition rowOf (own : list jstr) (id : jstr) : act (option jstr) :=
  l ← reads (fun s => query host s (entryId (row schema)) id);
  mret (List.find (fun x => bool_decide (x ∈ own)) l).

(** The body of the loop over the projected entries. *)
(* src: integrations/timesheets/app/sync.ts 270-296 projectRows ! *)
Definition save_row (st : list jstr * Counts) (entry : ProjectedEntry) : act (list jstr * Counts) :=
  let '(own, c) := st in
  let values := rowValues entry (row schema) in
  subject ← rowOf own (p_entryId entry);
  match subject with
  | None =>
      x ← writes (fun s => newResource host s (table schema) [rowClass schema] values);
      mret (own ++ [x], mkCounts (created c + 1) (updated c) (unchanged c) (removed c))
  | Some x =>
      existing ← reads (fun s => getResource host s x);
      match List.filter (fun p => negb (strict_eq (existing !! p.1) p.2)) values with
      | [] => mret (own, mkCounts (created c) (updated c) (unchanged c + 1) (removed c))
      | changed =>
          _ ← writes (fun s => save host s x changed);
          mret (own, mkCounts (created c) (updated c + 1) (unchanged c) (removed c))
      end
  end.

(** The body of the loop over the entries that are gone. *)
(* src: integrations/timesheets/app/sync.ts 299-304 projectRows ! *)
Definition drop_row (st : list jstr * Counts) (gone : MirrorRecord) : act (list jstr * Counts) :=
  let '(own, c) := st in
  subject ← rowOf own (m_id gone);
  match subject with
  | None => mret (own, c)
  | Some x =>
      _ ← reads (fun s => getResource host s x);
      _ ← writes (fun s => destroy host s x);
      mret (List.filter (fun y => negb (jeqb y x)) own,
            mkCounts (created c) (updated c) (unchanged c) (removed c + 1))
  end.

(** The note on the table, which is written once. *)
(* src: integrations/timesheets/app/sync.ts 254-259 projectRows ! *)
Definition describe_table : act unit :=
  t ← reads (fun s => getResource host s (table schema));
  if truthy_json (t !! DESCRIPTION) then mret tt
  else writes (fun s => save host s (table schema) [(DESCRIPTION, Some (OStr GENERATED_TABLE_NOTE))]).

Definition is_deleted (r : MirrorRecord) : bool := is_set (deletedAt r).

(** What the mirror shows. *)
(* src: integrations/timesheets/app/sync.ts 261-266 projectRows ! *)
Definition projected (mirror : Mirror) (projects members : list Json) : res jstr (list ProjectedEntry) :=
  l ← projectEntries other (map rawFromCanonical (List.filter (fun r => negb (is_deleted r)) (timeEntries mirror))) projects members;
  Ok (sort_by by_start l).

Definition gone_entries (mirror : Mirror) : list MirrorRecord := List.filter is_deleted (timeEntries mirror).

(** An exception of the host, or of the lens. *)
Definition text_error (e : string) : jstr := js e.

(* src: integrations/timesheets/app/sync.ts 237-308 projectRows *)
Definition projectRows (mirror : Mirror) (projects members : list Json) : HostStore.act S jstr Counts :=
  own ← throwing text_error (reads (fun s => query host s PARENT (table schema)));
  _ ← throwing text_error describe_table;
  entries ← lift (projected mirror projects members);
  st ← throwing text_error (loop save_row (own, mkCounts 0 0 0 0) entries);
  st ← throwing text_error (loop drop_row st (gone_entries mirror));
  mret st.2.
End Rows.

(** ** The pass *)

(** What a pass throws: the provider's failure, or another error's message. *)
Inductive Failure := Provider (e : Fault) | Thrown (message : jstr).

(* src: integrations/timesheets/app/sync.ts 61-69 LogReport *)
Record LogReport := mkReport { incrementals : nat; snapshotWritten : bool; candidates : nat; unknownMs : Z }.

(* src: integrations/timesheets/app/sync.ts 29-52 SyncResult *)
Record SyncResult := mkResult {
  counts : Counts;
  warnings : list jstr;
  report : LogReport;
  account : AccountContext;
  mirror : Mirror;
  projects : list Json;
  members : list Json;
}.

(** The ids of a pass's observations, and the instants around them. *)
(* src: integrations/timesheets/app/sync.ts 71-79 SyncOptions *)
Record SyncOptions := mkOptions {
  newId : nat -> jstr;
  sentAt : nat -> jstr;
  answeredAt : nat -> jstr;
  appendedAt : nat -> Z;
  compactedAt : Z;
  device : jstr;
}.

Section Pass.
Context {S : Type} (host : HostStore S) (store : ObservationLog.PluginStore S) (other : jstr -> option Z) (json_length : Incremental -> Z).
Context (Intl : jstr -> option (Z -> option Parts)) (transport : ProxyTransport).
Context (settings : Sheet.Settings) (schema : CompleteSchema) (now : Z) (options : SyncOptions).

#[local] Abbreviation World := (S * ObservationLog)%type.
#[local] Abbreviation pass_act := (HostStore.act World Failure).

Definition from_host (e : string) : Failure := Thrown (js e).
Definition logged {A} (m : ObservationLog.io (S := S) A) : pass_act A := throwing from_host (m : HostStore.act World string A).
Definition asked {A} (r : res Fault A) : pass_act A := throwing Provider (lift r).
Definition on_rows {A} (m : HostStore.act S jstr A) : pass_act A := fun '(s, l) =>
  match m s with (s', Ok a) => ((s', l), Ok a) | (s', Err e) => ((s', l), Err (Thrown e)) end.

(** One absence candidate, whose failure is a warning. *)
(* src: integrations/timesheets/app/sync.ts 163-171 syncClockify ! *)
Definition recheck (context : ReadContext) (st : nat * list jstr) (candidate : MirrorRecord) : pass_act (nat * list jstr) := fun w =>
  let '(i, ws) := st in
  let warn e := ((i + 1)%nat, ws ++ [js "Could not re-check entry " ++ m_id candidate ++ js ": " ++ e]) in
  match readOne context (newId options i) (sentAt options i) (answeredAt options i) (m_id candidate) with
  | Err e => (w, Ok (warn (message e)))
  | Ok o =>
      match append store other json_length (appendedAt options i) o w with
      | (w', Ok _) => (w', Ok ((i + 1)%nat, ws))
      | (w', Err e) => (w', Ok (warn (js e)))
      end
  end.

(* src: integrations/timesheets/app/sync.ts 151-159 syncClockify ! *)
Definition read_context (account : AccountContext) : ReadContext :=
  Clockify.mkContext transport (Sheet.account settings) (nonempty (a_timeZone account)) (device options).

(* src: integrations/timesheets/app/sync.ts 173-173 syncClockify ! *)
Definition window : Interval := mkInterval (now - Sheet.lookbackDays settings * DAY) now.

(** The read of the window, as the [i]-th observation. *)
(* src: integrations/timesheets/app/sync.ts 177-177 syncClockify ! *)
Definition read_window (account : AccountContext) (i : nat) : res Fault RangeRead :=
  readRange Intl (read_context account) (newId options i) (sentAt options i) (answeredAt options i) (from window - MARGIN_MS) (to window).

(* src: integrations/timesheets/app/sync.ts 220-231 syncClockify ! *)
Definition shown_account (a : AccountContext) : AccountContext :=
  mkContext (nonempty (a_timeZone a)) (a_forceProjects a) (nonempty (weekStart a)) (nonempty (userName a)) (nonempty (workspaceName a)) [].

(** The steps after the window was read whole. *)
(* src: integrations/timesheets/app/sync.ts 190-234 syncClockify ! *)
Definition finish (a : AccountContext) (ws : list jstr) : pass_act SyncResult :=
  ps ← asked (fetchNamed transport (workspaceId (Sheet.account settings)) (js "projects"));
  ms ← asked (fetchNamed transport (workspaceId (Sheet.account settings)) (js "users"));
  written ← logged (compactIfNeeded store other (compactedAt options));
  _ ← logged (flush store other);
  l ← reads (fun w => Ok w.2);
  counts ← on_rows (projectRows host other schema (current l) ps.1 ms.1);
  mret (mkResult counts (ws ++ omap nonempty [ps.2; ms.2])
    (mkReport (appended l) written (length (absenceCandidates (current l)))
       (totalMs (unknownIntervals other (current l) (Sheet.account settings) window now)))
    (shown_account a) (current l) ps.1 ms.1).

(** The pass on an open log. *)
(* src: integrations/timesheets/app/sync.ts 161-187 syncClockify ! *)
Definition pass (a : AccountContext) : pass_act SyncResult :=
  l ← reads (fun w => Ok w.2);
  st ← loop (recheck (read_context a)) (0%nat, a_warnings a) (absenceCandidates (current l));
  match read_window a st.1 with
  | Err e => _ ← logged (flush store other); throw (Provider e)
  | Ok read =>
      _ ← logged (append store other json_length (appendedAt options st.1) (observation read));
      match error read with
      | Some e => _ ← logged (flush store other); throw (Provider e)
      | None => finish a st.2
      end
  end.

(** [fuel] is for following the chain of snapshots. *)
(* src: integrations/timesheets/app/sync.ts 114-235 syncClockify *)
Definition syncClockify (fuel : nat) (s : S) : option (S * res Failure SyncResult) :=
  match fetchAccountContext transport Intl (workspaceId (Sheet.account settings)) with
  | Err e => Some (s, Err (Provider e))
  | Ok a =>
      match open store other fuel s with
      | None => None
      | Some (Err e) => Some (s, Err (from_host e))
      | Some (Ok l) => let '(w, r) := pass a (s, l) in Some (w.1, r)
      end
  end.
End Pass.

(** ** The values of a row *)

Section RowValues.
Context (row : RowSchema) (Hkeys : NoDup (row_keys row)).
Implicit Types e : ProjectedEntry.

Lemma when_set_keys k v : map fst (when_set k v) `sublist_of` [k].
Proof. destruct v as [[|]|]; cbn; repeat constructor. Qed.

(** The values in the order they are set. *)
Definition values_list e : list (jstr * option Json) :=
  [(NAME, Some (OStr (p_name e))); (entryId row, Some (OStr (p_entryId e))); (start row, ONum <$> p_start e); (end_ row, ONum <$> p_end e)]
  ++ match p_billable e with Some b => [(billable row, Some (OBool b))] | None => [] end
  ++ when_set (projectId row) (p_projectId e) ++ when_set (r_projectName row) (projectName e)
  ++ when_set (r_memberId row) (memberId e) ++ when_set (r_memberName row) (memberName e).

Lemma values_keys e : map fst (values_list e) `sublist_of` row_keys row.
Proof using.
  clear Hkeys. unfold row_keys, values_list. rewrite !map_app.
  change ([NAME; entryId row; start row; end_ row; billable row; projectId row; r_projectName row; r_memberId row; r_memberName row])
    with ([NAME; entryId row; start row; end_ row] ++ [billable row] ++ [projectId row] ++ [r_projectName row] ++ [r_memberId row] ++ [r_memberName row]).
  repeat apply sublist_app; try apply when_set_keys; [done|]. destruct (p_billable e); cbn; repeat constructor.
Qed.

Lemma rowValues_eq e : rowValues e row = values_list e.
Proof. apply jmap_of_nodup. eapply sublist_NoDup; [exact Hkeys|apply values_keys]. Qed.

Lemma rowValues_nodup e : NoDup (map fst (rowValues e row)).
Proof. rewrite rowValues_eq. eapply sublist_NoDup; [exact Hkeys|apply values_keys]. Qed.

Lemma rowValues_key e k v : (k, v) ∈ rowValues e row -> k ∈ row_keys row.
Proof.
  rewrite rowValues_eq. intros H. eapply sublist_subseteq; [apply values_keys|]. apply (list_elem_of_fmap_2 fst) in H. exact H.
Qed.

Lemma rowValues_id e : (entryId row, Some (OStr (p_entryId e))) ∈ rowValues e row.
Proof. rewrite rowValues_eq. right. left. Qed.

Lemma rowValues_scalar e p : p ∈ rowValues e row -> is_scalar p.2 = true.
Proof.
  rewrite rowValues_eq. unfold values_list. rewrite !elem_of_app, !elem_of_cons, elem_of_nil.
  assert (W : forall k v, p ∈ when_set k v -> is_scalar p.2 = true).
  { intros k [[|]|]; cbn; rewrite ?elem_of_cons, elem_of_nil; [tauto| |tauto]. by intros [->|[]]. }
  intros [H|[H|H]].
  - repeat destruct H as [->|H]; try done; cbn; [by destruct (p_start e)|by destruct (p_end e)].
  - destruct (p_billable e); rewrite ?elem_of_cons, elem_of_nil in H; [by destruct H as [->|[]]|done].
  - naive_solver.
Qed.

(** The values that are there, when the instants are. *)
Lemma rowValues_defined e p : is_Some (p_start e) -> is_Some (p_end e) -> p ∈ rowValues e row -> is_Some p.2.
Proof.
  intros [t Ht] [u Hu]. rewrite rowValues_eq. unfold values_list. rewrite Ht, Hu, !elem_of_app, !elem_of_cons, elem_of_nil.
  assert (W : forall k v, p ∈ when_set k v -> is_Some p.2).
  { intros k [[|]|]; cbn; rewrite ?elem_of_cons, elem_of_nil; [tauto| |tauto]. by intros [->|[]]. }
  intros [H|[H|H]].
  - repeat destruct H as [->|H]; try done; cbn; eauto.
  - destruct (p_billable e); rewrite ?elem_of_cons, elem_of_nil in H; [destruct H as [->|[]]; cbn; eauto|done].
  - naive_solver.
Qed.
End RowValues.

Lemma filter_sublist {A} (P : A -> bool) l : List.filter P l `sublist_of` l.
Proof. induction l as [|x l IH]; cbn; [done|]. destruct (P x); by constructor. Qed.

(** ** What the lens shows of a mirror *)

Section Projected.
Context (other : jstr -> option Z).

Lemma jkeys_values (rs : list (jstr * MirrorRecord)) : records_ok rs ->
  NoDup (map (fun r => recordKey (m_collection r) (m_id r)) (jvalues rs)).
Proof.
  intros [Hnd Hk]. unfold jvalues. rewrite map_map. rewrite (map_ext_in _ fst); [done|]. intros [k r] Hin. cbn.
  symmetry. apply Hk, jget_elem; [done|]. by apply list_elem_of_In.
Qed.

Lemma timeEntries_ids mirror : records_ok (m_records mirror) -> NoDup (map m_id (timeEntries mirror)).
Proof.
  intros H. apply jkeys_values in H. unfold timeEntries. set (l := jvalues _) in *. clearbody l.
  apply (NoDup_fmap_1 (recordKey TIME_ENTRY)). change (NoDup (map (recordKey TIME_ENTRY) (map m_id (List.filter (fun r => jeqb (m_collection r) TIME_ENTRY) l)))).
  rewrite map_map. eapply sublist_NoDup; [exact H|]. clear H. induction l as [|r l IH]; [done|]. cbn [List.filter map].
  destruct (jeqb (m_collection r) TIME_ENTRY) eqn:E; [|by apply sublist_cons]. apply bool_decide_eq_true in E. cbn [map]. rewrite E. by apply sublist_skip.
Qed.

Lemma named_not_null resource l rs : mapR (named_record resource) l = Ok rs -> Forall (fun v => v <> ONull) l.
Proof.
  revert rs. induction l as [|v l IH]; intros rs; [done|]. cbn. intros (r & Hr & H)%bind_Ok. apply bind_Ok in H as (rs' & Hrs & _).
  constructor; [by intros ->|by eapply IH].
Qed.

Lemma raw_id r : jget (js "id") (rawFromCanonical r) = Some (OStr (m_id r)).
Proof.
  unfold rawFromCanonical, spread. cbn [fold_left fst snd]. rewrite !jget_jset.
  by rewrite (decide_False (P := js "id" = js "timeInterval")) by by_decide.
Qed.

Lemma shown_entry projects members r e : entry_of other projects members (rawFromCanonical r) = Ok (Some e) ->
  p_entryId e = m_id r /\ is_Some (p_start e) /\ is_Some (p_end e).
Proof.
  unfold entry_of. rewrite raw_id. destruct (is_break _); [done|].
  destruct (instant _ _); [|done]. destruct (instant _ _); [|done]. destruct (_ <? _); [done|].
  intros [= <-]. cbn. eauto.
Qed.

(** What the entries of a mirror that are not deleted show, one by one. *)
Definition shown_entries (mirror : Mirror) (projects members : list Json) : res jstr (list ProjectedEntry) :=
  shown ← mapR (fun r => entry_of other projects members (rawFromCanonical r))
            (List.filter (fun r => negb (is_deleted r)) (timeEntries mirror));
  Ok (omap id (shown : list (option ProjectedEntry))).

(** What is shown of a mirror is that, in order of the starts. *)
Lemma projected_entries mirror projects members es : records_ok (m_records mirror) ->
  projected other mirror projects members = Ok es ->
  exists shown, shown_entries mirror projects members = Ok shown /\ es = sort_by by_start shown.
Proof.
  intros Hm H. unfold projected in H. apply bind_Ok in H as (l & Hl & [= <-]). set (live := List.filter _ _) in *.
  assert (Hnn : Forall (fun v => v <> ONull) projects /\ Forall (fun v => v <> ONull) members).
  { unfold projectEntries, toFetchedPlatform in Hl. apply bind_Ok in Hl as (f & Hf & _).
    apply bind_Ok in Hf as (ps & Hp & Hf). apply bind_Ok in Hf as (ms & Hms & _). split; by eapply named_not_null. }
  rewrite projectEntries_each in Hl; [|apply Hnn|apply Hnn| |].
  - apply bind_Ok in Hl as (shown & Hs & [= <-]). exists (omap id shown). split; [|done]. unfold shown_entries. fold live.
    by rewrite mapR_map, Hs.
  - apply Forall_map, Forall_true. intros r. by rewrite raw_id.
  - rewrite map_map, (map_ext _ (fun r => Some (OStr (m_id r)))) by apply raw_id.
    rewrite <-(map_map m_id (fun i => Some (OStr i))). assert (Inj (=) (=) (fun i : jstr => Some (OStr i))) by (by intros ? ? [= ->]). apply (NoDup_fmap_2 _). eapply sublist_NoDup; [by apply (timeEntries_ids mirror)|].
    apply fmap_sublist, filter_sublist.
Qed.

Lemma shown_ids projects members (live : list MirrorRecord) shown :
  mapR (fun r => entry_of other projects members (rawFromCanonical r)) live = Ok shown ->
  map p_entryId (omap id shown) `sublist_of` map m_id live /\
  Forall (fun e => is_Some (p_start e) /\ is_Some (p_end e)) (omap id shown).
Proof.
  revert shown. induction live as [|r live IH]; intros shown; cbn; [by intros [= <-]|].
  intros (o & Ho & H)%bind_Ok. apply bind_Ok in H as (os & Hos & [= <-]). destruct (IH os Hos) as [Hsub Hall].
  destruct o as [e|]; cbn; [|split; [by constructor|done]]. destruct (shown_entry _ _ _ _ Ho) as (-> & Hs & He).
  split; by constructor.
Qed.

Lemma split_ids (P : MirrorRecord -> bool) l : NoDup (map m_id l) ->
  NoDup (map m_id (List.filter (fun r => negb (P r)) l) ++ map m_id (List.filter P l)).
Proof.
  intros H. rewrite <-map_app. eapply NoDup_Permutation_proper; [|exact H]. apply fmap_Permutation.
  clear H. induction l as [|r l IH]; [done|]. cbn. destruct (P r); cbn; [|by constructor]. by rewrite <-Permutation_middle; constructor.
Qed.

Lemma projected_ids mirror projects members es : records_ok (m_records mirror) -> projected other mirror projects members = Ok es ->
  NoDup (map p_entryId es ++ map m_id (gone_entries mirror)) /\ Forall (fun e => is_Some (p_start e) /\ is_Some (p_end e)) es.
Proof.
  intros Hm (es' & Hs & ->)%projected_entries; [|done]. apply bind_Ok in Hs as (shown & Hs & [= <-]).
  destruct (shown_ids _ _ _ _ Hs) as [Hsub Hall].
  pose proof (split_ids is_deleted _ (timeEntries_ids mirror Hm)) as Hnd. split.
  - rewrite sort_by_perm. eapply sublist_NoDup; [exact Hnd|]. by apply sublist_app.
  - by rewrite sort_by_perm.
Qed.
End Projected.

(** ** Projecting onto the rows *)

Lemma find_elem {A} (P : A -> bool) l : match List.find P l with
  | Some x => x ∈ l /\ P x = true | None => forall x, x ∈ l -> P x = false end.
Proof.
  destruct (List.find P l) as [x|] eqn:E.
  - apply find_some in E as [H ?]. by rewrite list_elem_of_In.
  - intros x Hx. rewrite list_elem_of_In in Hx. by apply (find_none _ _ E).
Qed.

Section RowsExact.
Context {S : Type} (host : HostStore S) (content : S -> gmap (list Z) Props) `{!Drive host content}.
Context (other : jstr -> option Z) (schema : CompleteSchema).
Implicit Types (s : S) (x y id : jstr) (r q : Props) (e : ProjectedEntry) (own : list jstr).

(** The fields of the app are properties of their own. *)
Context (Hkeys : NoDup (PARENT :: DESCRIPTION :: row_keys (row schema))).

#[local] Lemma row_keys_nodup : NoDup (row_keys (row schema)).
Proof. by apply NoDup_cons in Hkeys as [_ [_ ?]%NoDup_cons]. Qed.

Definition is_row r : bool := answers (r !! PARENT) (table schema).
Definition row_for id r : bool := is_row r && answers (r !! entryId (row schema)) id.
Definition row_of s id x r : Prop := content s !! x = Some r /\ row_for id r = true.

(** One row of the table for each entry. *)
Definition unique s : Prop := forall id x y r q, row_of s id x r -> row_of s id y q -> x = y.

(** The set [own] is the table's rows. *)
Definition owns own s : Prop := forall x, x ∈ own <-> exists r, content s !! x = Some r /\ is_row r = true.

Definition shows r e : Prop := forall k v, (k, Some v) ∈ rowValues e (row schema) -> r !! k = Some v.
Definition shown s e : Prop := exists x r, row_of s (p_entryId e) x r /\ shows r e.
Definition no_row s id : Prop := forall x r, ~ row_of s id x r.

(** Only rows of the entries [ids] changed, and the table's own properties. *)
Record frame (ids : list jstr) s0 s : Prop := {
  frame_kept : forall y q, y <> table schema -> content s0 !! y = Some q -> (forall id, id ∈ ids -> row_for id q = false) -> content s !! y = Some q;
  frame_new : forall y q, y <> table schema -> content s !! y = Some q -> content s0 !! y = Some q \/ exists id, id ∈ ids /\ row_for id q = true;
}.

Lemma frame_refl ids s : frame ids s s.
Proof. split; eauto. Qed.

Lemma frame_trans ids1 ids2 s0 s1 s2 : frame ids1 s0 s1 -> frame ids2 s1 s2 -> frame (ids1 ++ ids2) s0 s2.
Proof.
  intros [K1 N1] [K2 N2]. split.
  - intros y q Hy Hq Hids. apply K2; [done| |]; [apply K1; [done|done|]|]; intros id Hid; apply Hids, elem_of_app; auto.
  - intros y q Hy Hq. destruct (N2 y q Hy Hq) as [H|(id & Hid & Hr)]; [|right; exists id; rewrite elem_of_app; auto].
    destruct (N1 y q Hy H) as [?|(id & Hid & Hr)]; [by left|right; exists id; rewrite elem_of_app; auto].
Qed.

(** The table is there, has its note, and is none of its rows. *)
Definition described s : Prop := exists t, content s !! table schema = Some t /\ truthy_json (t !! DESCRIPTION) = true /\ is_row t = false.

Lemma row_not_table s id x r : described s -> row_of s id x r -> x <> table schema.
Proof. intros (t & Ht & _ & Hn) [Hx Hr] ->. rewrite Ht in Hx. injection Hx as ->. unfold row_for in Hr. by rewrite Hn in Hr. Qed.

Lemma rowOf_find own id s s' o : rowOf host schema own id s = (s', Ok o) -> owns own s ->
  s' = s /\ match o with Some x => exists r, row_of s id x r | None => no_row s id end.
Proof.
  intros H Hown. unfold rowOf in H. apply act_bind_inv in H as (s1 & l & H1 & H). injection H1 as <- Hl. injection H as <- <-.
  pose proof (drive_query _ _ _ _ Hl) as Hq. split; [done|].
  pose proof (find_elem (fun x => bool_decide (x ∈ own)) l) as Hf. destruct (List.find _ l) as [x|].
  - destruct Hf as [Hx Ho%bool_decide_eq_true]. apply Hq in Hx as (r & Hr & Ha). apply Hown in Ho as (r' & Hr' & Hp).
    rewrite Hr in Hr'. injection Hr' as <-. exists r. split; [done|]. unfold row_for. by rewrite Hp, Ha.
  - intros x r [Hx Hr]. unfold row_for in Hr. breflect.
    assert (Hl' : x ∈ l) by (apply Hq; eauto). specialize (Hf x Hl'). apply bool_decide_eq_false in Hf. apply Hf, Hown. eauto.
Qed.

(** One step changes the rows of one entry, and leaves one row for it that
    shows it or none. *)
Record stepped id own s own' s' : Prop := {
  step_owns : owns own' s';
  step_unique : unique s';
  step_described : described s';
  step_frame : frame [id] s s';
}.

Lemma row_for_inj id1 id2 r : r !! entryId (row schema) = Some (OStr id1) -> row_for id2 r = true -> id2 = id1.
Proof. intros Hr H. unfold row_for in H. rewrite Hr in H. breflect. by apply answers_text in H0. Qed.

Lemma shows_id r e : shows r e -> r !! entryId (row schema) = Some (OStr (p_entryId e)).
Proof. intros H. apply H, rowValues_id, row_keys_nodup. Qed.

(** A row that takes the values of an entry. *)
Lemma assign_row r e vals : is_row r = true -> NoDup (map fst vals) -> (forall p, p ∈ vals -> p ∈ rowValues e (row schema)) ->
  (forall k v, (k, Some v) ∈ rowValues e (row schema) -> (k, Some v) ∈ vals \/ r !! k = Some v) ->
  is_row (assign vals r) = true /\ shows (assign vals r) e.
Proof.
  intros Hr Hnd Hsub Hall. pose proof row_keys_nodup as Hk.
  assert (Hget : forall k v, (k, v) ∈ vals -> jget k vals = Some v) by (intros k v H; by apply jget_elem).
  assert (Hnone : forall k, (forall v, (k, v) ∉ vals) -> jget k vals = None).
  { intros k H. destruct (jget k vals) as [v|] eqn:E; [|done]. apply jget_elem in E; [|done]. by destruct (H v). }
  split.
  - unfold is_row. rewrite assign_get, Hnone; [done| |done]. intros v Hv%Hsub%rowValues_key; [|done].
    apply NoDup_cons in Hkeys as [Hp _]. apply Hp. by right.
  - intros k v Hv. rewrite assign_get by done. destruct (jget k vals) as [[w|]|] eqn:E.
    + apply jget_elem in E; [|done]. apply Hsub in E. pose proof (rowValues_nodup _ Hk e) as Hn.
      apply (jget_elem _ _ _ Hn) in E, Hv. rewrite E in Hv. by injection Hv as ->.
    + apply jget_elem in E; [|done]. apply Hsub in E. pose proof (rowValues_nodup _ Hk e) as Hn.
      apply (jget_elem _ _ _ Hn) in E, Hv. by rewrite E in Hv.
    + destruct (Hall k v Hv) as [Hin|]; [|done]. apply Hget in Hin. by rewrite E in Hin.
Qed.

(** Writing one row of an entry, which is new or was its row already. *)
Lemma write_row own s s' e x r : owns own s -> unique s -> described s ->
  (content s !! x = None /\ no_row s (p_entryId e) \/ exists q, row_of s (p_entryId e) x q) ->
  content s' = <[x := r]> (content s) -> is_row r = true -> shows r e ->
  forall own', (forall y, y ∈ own' <-> y = x \/ y ∈ own) ->
  stepped (p_entryId e) own s own' s' /\ shown s' e.
Proof.
  intros Hown Hu Hd Hx Hs' Hr Hsh own' Hown'. pose proof (shows_id _ _ Hsh) as Hid.
  assert (Hxt : x <> table schema).
  { destruct Hx as [[Hn _]|[q Hq]]; [|by eapply row_not_table]. destruct Hd as (t & Ht & _). by intros ->; rewrite Hn in Ht. }
  assert (Hrow : row_for (p_entryId e) r = true).
  { unfold row_for. rewrite Hr, Hid. by apply answers_text. }
  assert (Hget : forall y q, content s' !! y = Some q -> y = x /\ q = r \/ y <> x /\ content s !! y = Some q).
  { intros y q. rewrite Hs'. intros [[<- <-]|[Hne Hy]]%lookup_insert_Some; eauto. }
  assert (Hxs' : content s' !! x = Some r) by by rewrite Hs', lookup_insert_eq.
  split; [split|].
  - intros y. rewrite Hown', (Hown y). split.
    + intros [->|(q & Hq & Hp)]; [by exists r|]. destruct (decide (y = x)) as [->|Hne]; [by exists r|].
      exists q. by rewrite Hs', lookup_insert_ne by done.
    + intros (q & Hq & Hp). destruct (Hget y q Hq) as [[-> _]|[_ Hy]]; [by left|right; eauto].
  - intros id y z q1 q2 [Hy Hy'] [Hz Hz']. apply Hget in Hy as [[-> ->]|[Hny Hy]], Hz as [[-> ->]|[Hnz Hz]]; [done| | |].
    + apply (row_for_inj _ _ _ Hid) in Hy' as ->. destruct Hx as [[_ Hn]|[q Hq]]; [by destruct (Hn z q2)|by eapply Hu].
    + apply (row_for_inj _ _ _ Hid) in Hz' as ->. destruct Hx as [[_ Hn]|[q Hq]]; [by destruct (Hn y q1)|by eapply Hu].
    + by eapply (Hu id y z q1 q2).
  - destruct Hd as (t & Ht & Hd). exists t. by rewrite Hs', lookup_insert_ne by done.
  - split.
    + intros y q Hy Hq Hids. rewrite Hs'. destruct (decide (y = x)) as [->|Hne]; [|by rewrite lookup_insert_ne by done].
      destruct Hx as [[Hn _]|[q' [Hq' Hr']]]; [by rewrite Hn in Hq|]. rewrite Hq' in Hq. injection Hq as ->.
      rewrite Hids in Hr'; [done|by left].
    + intros y q Hy Hq. apply Hget in Hq as [[-> ->]|[_ Hq]]; [right; exists (p_entryId e); split; [by left|done]|by left].
  - exists x, r. by split; [split|].
Qed.

Lemma stepped_refl id own s : owns own s -> unique s -> described s -> stepped id own s own s.
Proof. intros. split; [done|done|done|apply frame_refl]. Qed.

Lemma shown_kept id own s own' s' e : described s -> stepped id own s own' s' -> shown s e -> p_entryId e <> id -> shown s' e.
Proof.
  intros Hd Hst (x & r & Hx & Hsh) Hne. pose proof (row_not_table _ _ _ _ Hd Hx) as Hxt. destruct Hx as [Hx Hr].
  exists x, r. split; [split; [|done]|done]. apply (frame_kept _ _ _ (step_frame _ _ _ _ _ Hst)); [done|done|].
  intros id' ->%list_elem_of_singleton. apply not_true_iff_false. intros H%(row_for_inj _ _ _ (shows_id _ _ Hsh)). by subst id.
Qed.

Definition saved (c : Counts) : nat := created c + updated c + unchanged c.

Lemma new_is_row vals e : vals = rowValues e (row schema) ->
  is_row (new_resource (table schema) [rowClass schema] vals) = true /\ shows (new_resource (table schema) [rowClass schema] vals) e.
Proof.
  intros ->. apply assign_row; [|apply rowValues_nodup, row_keys_nodup|done|by left].
  unfold is_row. rewrite lookup_insert_eq. by apply answers_text.
Qed.

Lemma save_row_ok own c e s s' own' c' : save_row host schema (own, c) e s = (s', Ok (own', c')) ->
  owns own s -> unique s -> described s ->
  stepped (p_entryId e) own s own' s' /\ shown s' e /\ saved c' = Datatypes.S (saved c) /\ removed c' = removed c.
Proof.
  intros H Hown Hu Hd. unfold save_row in H. apply act_bind_inv in H as (s1 & o & H1 & H).
  apply rowOf_find in H1 as [-> Ho]; [|done]. destruct o as [x|].
  - destruct Ho as (r & Hx). apply act_bind_inv in H as (s1 & q & H1 & H). injection H1 as <- Hq.
    apply drive_get in Hq. pose proof Hx as [Hx' Hr]. rewrite Hq in Hx'. injection Hx' as ->.
    assert (Hsame : forall k v, (k, Some v) ∈ rowValues e (row schema) -> strict_eq (r !! k) (Some v) = true -> r !! k = Some v)
      by (intros k v _; apply strict_eq_spec).
    set (f := fun p : list Z * option Json => negb (strict_eq (r !! p.1) p.2)) in H.
    assert (Hin : forall p, p ∈ List.filter f (rowValues e (row schema)) <-> p ∈ rowValues e (row schema) /\ f p = true).
    { intros p. by rewrite !list_elem_of_In, List.filter_In. }
    assert (Hall : forall k v, (k, Some v) ∈ rowValues e (row schema) ->
      (k, Some v) ∈ List.filter f (rowValues e (row schema)) \/ r !! k = Some v).
    { intros k v Hv. destruct (f (k, Some v)) eqn:Ef; [left; by apply Hin|right; apply Hsame; [done|]]. unfold f in Ef. cbn in Ef. by breflect. }
    destruct (List.filter f _) as [|p ps] eqn:Ef.
    + injection H as <- <- <-. split; [by apply stepped_refl|]. split; [|unfold saved; cbn; lia].
      exists x, r. split; [done|]. intros k v Hv. destruct (Hall k v Hv) as [Hn|]; [by apply elem_of_nil in Hn|done].
    + apply act_bind_inv in H as (s1 & [] & H1 & H). injection H as <- <- <-.
      pose proof (drive_save _ _ _ _ _ H1 Hq) as Hs1.
      assert (Hrow : is_row r = true) by (unfold row_for in Hr; by breflect).
      destruct (assign_row r e (p :: ps)) as [Hp Hsh]; [done| |by intros p' [? _]%Hin|done|].
      { rewrite <-Ef. eapply sublist_NoDup; [apply (rowValues_nodup _ row_keys_nodup e)|]. apply fmap_sublist, filter_sublist. }
      destruct (write_row own s s1 e x (assign (p :: ps) r) Hown Hu Hd) with (own' := own) as [? ?]; [right; by exists r|done|done|done| |].
      { intros y. split; [by right|]. intros [->|]; [|done]. apply Hown. by exists r. }
      split; [done|]. split; [done|]. unfold saved; cbn; lia.
  - apply act_bind_inv in H as (s1 & x & H1 & H). injection H as <- <- <-.
    apply drive_new in H1 as [Hn Hs1]. destruct (new_is_row _ e eq_refl) as [Hp Hsh].
    edestruct (write_row own s s1 e x) with (own' := own ++ [x]) as [? ?]; try done; [by left| |].
    { intros y. rewrite elem_of_app, list_elem_of_singleton. tauto. }
    split; [done|]. split; [done|]. unfold saved; cbn; lia.
Qed.

Lemma drop_row_ok own c (g : MirrorRecord) s s' own' c' : drop_row host schema (own, c) g s = (s', Ok (own', c')) ->
  owns own s -> unique s -> described s ->
  stepped (m_id g) own s own' s' /\ content s' ⊆ content s /\ no_row s' (m_id g) /\ saved c' = saved c.
Proof.
  intros H Hown Hu Hd. unfold drop_row in H. apply act_bind_inv in H as (s1 & o & H1 & H).
  apply rowOf_find in H1 as [-> Ho]; [|done]. destruct o as [x|].
  - destruct Ho as (r & Hx). apply act_bind_inv in H as (s1 & q & H1 & H). injection H1 as <- _.
    apply act_bind_inv in H as (s1 & [] & H1 & H). injection H as <- <- <-. apply drive_destroy in H1.
    pose proof (row_not_table _ _ _ _ Hd Hx) as Hxt.
    assert (Hget : forall y q, content s1 !! y = Some q <-> y <> x /\ content s !! y = Some q).
    { intros y q'. rewrite H1, lookup_delete_Some. naive_solver. }
    split; [split|split; [|split; [|done]]].
    + intros y. rewrite list_elem_of_In, List.filter_In, <-list_elem_of_In, negb_true_iff, (Hown y).
      unfold jeqb. rewrite bool_decide_eq_false. split; [intros [(q' & Hq & Hp) Hne]|intros (q' & [Hne Hq]%Hget & Hp)]; eauto.
      exists q'. split; [by apply Hget|done].
    + intros id y z q1 q2 [[_ Hy]%Hget Hy'] [[_ Hz]%Hget Hz']. by eapply (Hu id y z q1 q2).
    + destruct Hd as (t & Ht & Hd). exists t. split; [by apply Hget|done].
    + split.
      * intros y q' Hy Hq Hids. apply Hget. split; [|done]. intros ->. destruct Hx as [Hx Hr]. rewrite Hx in Hq. injection Hq as ->.
        rewrite Hids in Hr; [done|by left].
      * intros y q' Hy [_ Hq]%Hget. by left.
    + rewrite H1. apply delete_subseteq.
    + intros y q' [[Hne Hy]%Hget Hr]. apply Hne. by eapply (Hu (m_id g) y x q' r).
  - injection H as <- <- <-. split; [by apply stepped_refl|done].
Qed.

(** The table is none of its own rows. *)
Definition table_apart s : Prop := forall t, content s !! table schema = Some t -> is_row t = false.

Lemma describe_table_ok s s' own : describe_table host schema s = (s', Ok tt) -> table_apart s -> owns own s -> unique s ->
  owns own s' /\ unique s' /\ described s' /\ frame [] s s' /\ forall id, no_row s id -> no_row s' id.
Proof.
  intros H Ht Hown Hu. unfold describe_table in H. apply act_bind_inv in H as (s1 & t & H1 & H). injection H1 as <- Hg.
  apply drive_get in Hg. pose proof (Ht _ Hg) as Hap. destruct (truthy_json _) eqn:E.
  { injection H as <-. split_and!; [done|done|by exists t|apply frame_refl|done]. }
  pose proof (drive_save _ _ _ _ _ H Hg) as Hs. set (t' := assign _ t) in Hs.
  assert (Hap' : is_row t' = false).
  { unfold is_row, t'. cbn. rewrite lookup_insert_ne; [done|]. by_decide. }
  assert (Hget : forall y q, content s' !! y = Some q <-> y = table schema /\ q = t' \/ y <> table schema /\ content s !! y = Some q).
  { intros y q. rewrite Hs, lookup_insert_Some. naive_solver. }
  assert (Hrow : forall id x r, row_of s' id x r -> row_of s id x r).
  { intros id x r [[[-> ->]|[_ Hx]]%Hget Hr]; [|done]. unfold row_for in Hr. by rewrite Hap' in Hr. }
  split_and!.
  - intros y. rewrite (Hown y). split; intros (q & Hq & Hp).
    + exists q. split; [|done]. apply Hget. right. split; [|done]. intros ->. rewrite Hg in Hq. injection Hq as ->. by rewrite Hap in Hp.
    + apply Hget in Hq as [[-> ->]|[_ Hq]]; [by rewrite Hap' in Hp|eauto].
  - intros id x y r q Hx%Hrow Hy%Hrow. by eapply Hu.
  - exists t'. split; [by apply Hget; left|]. split; [|done]. unfold t'. cbn. by rewrite lookup_insert_eq.
  - split; intros y q Hy Hq; [intros _; apply Hget; by right|]. apply Hget in Hq as [[]|[]]; [done|by left].
  - intros id Hn x r Hx%Hrow. by apply (Hn x r).
Qed.

(** What the rows are after a projection of [es], with [gone] confirmed
    deleted: each entry has one row, with its values, no row is of an entry
    that is gone, and no other resource of the drive changed, but for the note
    on the table. *)
Record mirrored s0 s (es : list ProjectedEntry) (gone : list jstr) : Prop := {
  mi_shown : forall e, e ∈ es -> shown s e;
  mi_gone : forall id, id ∈ gone -> no_row s id;
  mi_unique : unique s;
  mi_table : described s;
  mi_frame : frame (map p_entryId es ++ gone) s0 s;
}.

Definition row_state (s0 : S) (ids : list jstr) (own : list jstr) s : Prop :=
  owns own s /\ unique s /\ described s /\ frame ids s0 s.

Lemma row_state_step s0 ids id own own' s s' : row_state s0 ids own s -> stepped id own s own' s' -> row_state s0 (ids ++ [id]) own' s'.
Proof. intros (_ & _ & _ & Hf) [? ? ? ?]. split_and!; try done. by eapply frame_trans. Qed.

Lemma save_loop s0 s s' own c own' c' es : NoDup (map p_entryId es) -> row_state s0 [] own s ->
  loop (save_row host schema) (own, c) es s = (s', Ok (own', c')) ->
  row_state s0 (map p_entryId es) own' s' /\ (forall e, e ∈ es -> shown s' e) /\ saved c' = (saved c + length es)%nat.
Proof.
  intros Hnd Hst H. set (I := fun (done : list ProjectedEntry) (st : list jstr * Counts) s =>
    row_state s0 (map p_entryId done) st.1 s /\ (forall e, e ∈ done -> shown s e) /\ saved st.2 = (saved c + length done)%nat).
  apply (triple_run _ (I [] (own, c)) (I es) (fun _ _ => True)) in H; [by destruct H| |].
  - apply triple_loop. intros dn e todo [o k] Hes s1 (Hs1 & Hsh & Hc). cbn [fst snd] in *.
    destruct (save_row _ _ _ _ _) as [s2 [[o' k']|]] eqn:E; [|done]. pose proof Hs1 as (Ho & Hu & Hd & _).
    apply save_row_ok in E as (Hstep & Hse & Hk & _); [|done|done|done]. split; [|split].
    + cbn [fst]. rewrite map_app. by eapply row_state_step.
    + intros e'. rewrite elem_of_app, list_elem_of_singleton. intros [He'| ->]; [|done].
      eapply shown_kept; [exact Hd|exact Hstep|by apply Hsh|]. rewrite Hes, map_app in Hnd. cbn in Hnd.
      apply NoDup_app in Hnd as (_ & Hnd & _). intros Heq. apply (Hnd (p_entryId e')); [by apply list_elem_of_fmap_2|rewrite Heq; by left].
    + cbn [snd]. rewrite Hk, Hc, length_app. cbn. lia.
  - split; [done|]. split; [by intros e ?%elem_of_nil|cbn; lia].
Qed.

Lemma drop_loop s0 s s' own c own' c' (es : list ProjectedEntry) (gone : list MirrorRecord) ids : (forall e, e ∈ es -> p_entryId e ∉ map m_id gone) ->
  row_state s0 ids own s -> (forall e, e ∈ es -> shown s e) ->
  loop (drop_row host schema) (own, c) gone s = (s', Ok (own', c')) ->
  row_state s0 (ids ++ map m_id gone) own' s' /\ (forall e, e ∈ es -> shown s' e) /\
  (forall id, id ∈ map m_id gone -> no_row s' id) /\ saved c' = saved c.
Proof.
  intros Hes Hst Hsh H. set (I := fun (done : list MirrorRecord) (st : list jstr * Counts) s =>
    row_state s0 (ids ++ map m_id done) st.1 s /\ (forall e, e ∈ es -> shown s e) /\
    (forall id, id ∈ map m_id done -> no_row s id) /\ saved st.2 = saved c).
  apply (triple_run _ (I [] (own, c)) (I gone) (fun _ _ => True)) in H; [by destruct H| |].
  - apply triple_loop. intros dn g todo [o k] Hg s1 (Hs1 & Hsh1 & Hn & Hc). cbn [fst snd] in *.
    destruct (drop_row _ _ _ _ _) as [s2 [[o' k']|]] eqn:E; [|done]. pose proof Hs1 as (Ho & Hu & Hd & _).
    apply drop_row_ok in E as (Hstep & Hsub & Hno & Hk); [|done|done|done]. split; [|split; [|split]].
    + cbn [fst]. rewrite map_app, app_assoc. by eapply row_state_step.
    + intros e He. eapply shown_kept; [exact Hd|exact Hstep|by apply Hsh1|]. intros Heq. apply (Hes e He).
      rewrite Heq, Hg, map_app. apply elem_of_app. right. by left.
    + intros id. rewrite map_app, elem_of_app. cbn. rewrite list_elem_of_singleton. intros [Hid| ->]; [|done].
      intros x r [Hx Hr]. apply (Hn id Hid x r). split; [|done]. by eapply lookup_weaken.
    + cbn [snd]. by rewrite Hk.
  - split; [by rewrite app_nil_r|]. split; [done|]. split; [by intros id ?%elem_of_nil|done].
Qed.

Lemma throwing_inv {E F A} (g : E -> F) (m : HostStore.act S E A) s s' (a : A) : throwing g m s = (s', Ok a) -> m s = (s', Ok a).
Proof. unfold throwing. by destruct (m s) as [? [|]]; intros [= <- <-]. Qed.

Lemma owns_query s l : query host s PARENT (table schema) = Ok l -> owns l s.
Proof. intros H x. apply (drive_query _ _ _ _ H). Qed.

(** The rows after a projection that returns. *)
Lemma projectRows_rows s s' (mirror : Mirror) (projects members : list Json) c :
  records_ok (m_records mirror) -> table_apart s -> unique s ->
  projectRows host other schema mirror projects members s = (s', Ok c) ->
  exists entries, shown_entries other mirror projects members = Ok entries /\
    mirrored s s' (sort_by by_start entries) (map m_id (gone_entries mirror)) /\
    (created c + updated c + unchanged c = length entries)%nat.
Proof.
  intros Hm Ht Hu H. unfold projectRows in H. apply act_bind_inv in H as (s1 & own & H1 & H).
  apply throwing_inv in H1. injection H1 as <- Hown%owns_query.
  apply act_bind_inv in H as (s1 & [] & H1%throwing_inv & H). destruct (describe_table_ok _ _ _ H1 Ht Hown Hu) as (Ho & Hu1 & Hd & Hf & _).
  apply act_bind_inv in H as (s2 & es & H2 & H). injection H2 as <- Hes.
  destruct (projected_ids _ _ _ _ _ Hm Hes) as [Hnd _]. apply NoDup_app in Hnd as (Hnd & Hne & _).
  destruct (projected_entries _ _ _ _ _ Hm Hes) as (entries & Hs & ->). set (es := sort_by by_start _) in *.
  apply act_bind_inv in H as (s2 & [own2 c2] & H2%throwing_inv & H). apply (save_loop s) in H2 as (Hst & Hsh & Hc); [|done|done].
  apply act_bind_inv in H as (s3 & [own3 c3] & H3%throwing_inv & H). injection H as <- <-.
  apply (drop_loop s _ _ _ _ _ _ es _ (map p_entryId es)) in H3 as ((Ho3 & Hu3 & Hd3 & Hf3) & Hsh3 & Hg3 & Hc3); [| |done|done].
  - exists entries. split; [done|]. split; [done|]. unfold saved in *. cbn [snd fst created updated unchanged] in *.
    unfold es in Hc. rewrite (Permutation_length (sort_by_perm by_start _)) in Hc. cbn in Hc. lia.
  - intros e He. apply Hne. by apply list_elem_of_fmap_2.
Qed.

(** The host's reads answer what the drive holds. *)
Definition readable s : Prop :=
  (forall x r, content s !! x = Some r -> getResource host s x = Ok r) /\ (forall p v, exists l, query host s p v = Ok l).

Lemma rowOf_some own id s x r : readable s -> owns own s -> unique s -> row_of s id x r -> rowOf host schema own id s = (s, Ok (Some x)).
Proof.
  intros [_ Hq] Hown Hu Hx. destruct (rowOf host schema own id s) as [s' o] eqn:E. destruct (Hq (entryId (row schema)) id) as [l Hl].
  pose proof E as E'. cbn in E'. unfold rowOf, mbind, act_bind, reads in E'. rewrite Hl in E'. injection E' as <- <-.
  apply rowOf_find in E as [_ Ho]; [|done]. destruct (List.find _ l) as [y|].
  - destruct Ho as [q Hy]. by rewrite (Hu id y x q r Hy Hx).
  - by destruct (Ho x r).
Qed.

Lemma rowOf_none own id s : readable s -> owns own s -> no_row s id -> rowOf host schema own id s = (s, Ok None).
Proof.
  intros [_ Hq] Hown Hn. destruct (rowOf host schema own id s) as [s' o] eqn:E. destruct (Hq (entryId (row schema)) id) as [l Hl].
  pose proof E as E'. cbn in E'. unfold rowOf, mbind, act_bind, reads in E'. rewrite Hl in E'. injection E' as <- <-.
  apply rowOf_find in E as [_ Ho]; [|done]. destruct (List.find _ l) as [y|]; [|done]. destruct Ho as [q Hy]. by destruct (Hn y q).
Qed.

Lemma save_row_again own c e s : readable s -> owns own s -> unique s -> shown s e -> is_Some (p_start e) /\ is_Some (p_end e) ->
  save_row host schema (own, c) e s = (s, Ok (own, mkCounts (created c) (updated c) (unchanged c + 1) (removed c))).
Proof.
  intros Hr Hown Hu (x & r & Hx & Hsh) [Hs He]. unfold save_row, mbind at 1, act_bind. rewrite (rowOf_some own _ s x r) by done.
  unfold mbind, act_bind, reads. rewrite (proj1 Hr x r) by apply Hx. rewrite filter_none; [done|].
  intros [k v] Hin. cbn. pose proof (rowValues_scalar _ row_keys_nodup e _ Hin) as Hsc.
  destruct (rowValues_defined _ row_keys_nodup e _ Hs He Hin) as [w Hw]. cbn in Hw, Hsc. subst v. rewrite (Hsh k w Hin).
  by rewrite strict_eq_refl.
Qed.

Lemma drop_row_again own c (g : MirrorRecord) s : readable s -> owns own s -> no_row s (m_id g) ->
  drop_row host schema (own, c) g s = (s, Ok (own, c)).
Proof. intros. unfold drop_row, mbind at 1, act_bind. by rewrite rowOf_none. Qed.

(** A second projection of the same entries. *)
Lemma projectRows_again s (mirror : Mirror) (projects members : list Json) es : readable s ->
  projected other mirror projects members = Ok es -> Forall (fun e => is_Some (p_start e) /\ is_Some (p_end e)) es ->
  (forall e, e ∈ es -> shown s e) -> (forall id, id ∈ map m_id (gone_entries mirror) -> no_row s id) -> unique s -> described s ->
  projectRows host other schema mirror projects members s = (s, Ok (mkCounts 0 0 (length es) 0)).
Proof.
  intros Hread Hes Hdef Hsh Hgone Hu (t & Htab & Hnote & _).
  destruct (proj2 Hread PARENT (table schema)) as [own Hq]. pose proof (owns_query _ _ Hq) as Hown.
  unfold projectRows, mbind, act_bind, throwing. cbn [reads lift]. rewrite Hq, Hes.
  assert (describe_table host schema s = (s, Ok tt)) as ->.
  { unfold describe_table, mbind, act_bind, reads. rewrite (proj1 Hread _ _ Htab). by rewrite Hnote. }
  set (again := fun (st : list jstr * Counts) (e : ProjectedEntry) =>
    (st.1, mkCounts (created st.2) (updated st.2) (unchanged st.2 + 1) (removed st.2))).
  set (P := fun st : list jstr * Counts => st.1 = own). rewrite Forall_forall in Hdef.
  rewrite (loop_same _ again P); [|done|].
  2: { intros [o k] e -> He. split; [|done]. apply save_row_again; auto. }
  rewrite (loop_same _ (fun st _ => st) P).
  - assert (Hk : forall l k, fold_left again l (own, k) = (own, mkCounts (created k) (updated k) (unchanged k + length l) (removed k))).
    { induction l as [|e l IH]; intros k; cbn [fold_left length]; [destruct k; by rewrite Nat.add_0_r|].
      unfold again at 2. cbn [fst snd]. rewrite IH. cbn. do 2 f_equal. lia. }
    assert (Hid : forall (l : list MirrorRecord) (st : list jstr * Counts), fold_left (fun st _ => st) l st = st) by by induction l.
    by rewrite Hid, Hk.
  - unfold P. assert (Hf : forall l st, st.1 = own -> (fold_left again l st).1 = own) by (induction l; cbn; [done|intros st' Hst'; apply IHl; by rewrite <-Hst']). by apply Hf.
  - intros [o k] g -> Hg. split; [|done]. apply drop_row_again; [done|done|]. by apply Hgone, list_elem_of_fmap_2.
Qed.

(** C33 (functional). After a projection that returns, the rows of the table
    show what the mirror has: each completed entry that is not deleted has
    exactly one row, and each property that the entry's own fields give a value
    ([rowValues]) has it there; no row is left of an entry that was confirmed
    deleted; every resource that is not a row of one of these entries is as it
    was, but for the note on the table; and each shown entry is counted once.
    A property that an entry no longer has is not written, so its row keeps
    what it had, a cleared project for one ([Demo.stale_project]).  It settles:
    doing it again, on a host that can be read, returns, writes nothing, and
    counts each shown entry as unchanged. *)
Theorem projectRows_mirrors s s' (mirror : Mirror) (projects members : list Json) c :
  records_ok (m_records mirror) -> table_apart s -> unique s ->
  projectRows host other schema mirror projects members s = (s', Ok c) ->
  exists entries, shown_entries other mirror projects members = Ok entries /\
    mirrored s s' (sort_by by_start entries) (map m_id (gone_entries mirror)) /\
    (created c + updated c + unchanged c = length entries)%nat /\
    (readable s' -> projectRows host other schema mirror projects members s' = (s', Ok (mkCounts 0 0 (length entries) 0))).
Proof.
  intros Hm Ht Hu H. pose proof H as H'. apply act_bind_inv in H' as (s1 & own0 & _ & H').
  apply act_bind_inv in H' as (s2 & [] & _ & H'). apply act_bind_inv in H' as (s3 & es & H3 & _). injection H3 as _ Hes.
  destruct (projected_ids _ _ _ _ _ Hm Hes) as [_ Hdef]. destruct (projected_entries _ _ _ _ _ Hm Hes) as (entries & Hs & Heq).
  apply projectRows_rows in H as (entries' & Hs' & Hmir & Hc); [|done|done|done].
  rewrite Hs in Hs'. injection Hs' as <-. exists entries. split; [done|]. split; [done|]. split; [done|]. intros Hread.
  rewrite <-Heq in Hmir. destruct Hmir as [Hsh Hgone Hu' Htab _].
  rewrite <-(Permutation_length (sort_by_perm by_start entries)), <-Heq. by apply projectRows_again.
Qed.
End RowsExact.

(** ** A pass and the rows *)

Section Beside.
Context {S : Type} (host : HostStore S) (content : S -> gmap (list Z) Props) (schema : CompleteSchema).
Context (store : ObservationLog.PluginStore S) (other : jstr -> option Z) (json_length : Incremental -> Z).
Implicit Types (s : S) (x y : jstr) (l : ObservationLog).

(** Two states with the same table and the same rows. *)
Definition same_rows s s' : Prop := content s' !! table schema = content s !! table schema /\
  forall x (r : Props), is_row schema r = true -> content s' !! x = Some r <-> content s !! x = Some r.

(** A resource that is neither the table nor one of its rows. *)
Definition outside s x : Prop := x <> table schema /\ forall r : Props, content s !! x = Some r -> is_row schema r = false.

(** The log is kept beside the table: the app is not one of its own rows, what
    is made elsewhere than in the table is no row, and saving what is no row
    changes none. *)
Class Beside : Prop := {
  beside_app : forall s a, ObservationLog.getApp store s = Ok a -> outside s a;
  beside_new : forall s parent name r s' o, parent <> Some (table schema) ->
    ObservationLog.newResource store s parent name r = (s', o) -> same_rows s s' /\ forall x, o = Ok x -> outside s' x;
  beside_save : forall s x c s' o, outside s x -> ObservationLog.save store s x c = (s', o) -> same_rows s s';
}.

Lemma same_rows_refl s : same_rows s s.
Proof. by split. Qed.

Lemma same_rows_trans s1 s2 s3 : same_rows s1 s2 -> same_rows s2 s3 -> same_rows s1 s3.
Proof. intros [T1 R1] [T2 R2]. split; [congruence|]. intros x r Hr. by rewrite R2, R1. Qed.

Lemma outside_kept s s' x : same_rows s s' -> outside s x -> outside s' x.
Proof.
  intros [_ R] [Hx Ho]. split; [done|]. intros r Hr. destruct (is_row schema r) eqn:E; [|done]. apply R in Hr; [|done].
  apply Ho in Hr. congruence.
Qed.

Context `{!Beside}.
Context (s0 : S).

#[local] Abbreviation World := (S * ObservationLog)%type.

(** The rows are those of [s0], and the log's head and the subjects [xs] are
    not among them. *)
Definition clear (xs : list jstr) (w : World) : Prop :=
  same_rows s0 w.1 /\ (forall x, headSubject w.2 = Some x -> outside w.1 x) /\ (forall x, x ∈ xs -> outside w.1 x).

Definition clears {A} (xs : list jstr) (m : ObservationLog.io (S := S) A) (ys : A -> list jstr) : Prop :=
  triple (clear xs) (m : HostStore.act World string A) (fun a => clear (ys a)) (fun _ => clear []).

Lemma clear_fewer xs ys w : clear xs w -> ys ⊆ xs -> clear ys w.
Proof. intros (H1 & H2 & H3) Hsub. split; [done|]. split; [done|]. intros x Hx. by apply H3, Hsub. Qed.

Lemma clear_moves xs ys s' l' w : clear xs w -> same_rows w.1 s' -> (forall x, headSubject l' = Some x -> outside s' x) ->
  (forall y, y ∈ ys -> y ∈ xs \/ outside s' y) -> clear ys (s', l').
Proof.
  intros (H1 & _ & H3) Hs Hl Hy. split; [by eapply same_rows_trans|]. split; [done|]. intros y [Hin|]%Hy; [|done].
  by eapply outside_kept; [|apply H3].
Qed.

Lemma clears_bind {A B} xs (m : ObservationLog.io A) (f : A -> ObservationLog.io B) ys zs :
  clears xs m ys -> (forall a, clears (ys a) (f a) zs) -> clears xs (mbind (MBind := ObservationLog.io_bind) f m) zs.
Proof. intros Hm Hf. exact (triple_bind m f _ _ _ _ Hm Hf). Qed.

Lemma clears_ret {A} xs (a : A) : clears xs (mret (MRet := ObservationLog.io_ret) a) (fun _ => []).
Proof. intros w Hw. eapply clear_fewer; [exact Hw|apply list_subseteq_nil]. Qed.

Lemma clears_done {A} xs (m : ObservationLog.io A) ys : clears xs m ys -> clears xs m (fun _ => []).
Proof.
  intros Hm w Hw. specialize (Hm w Hw). destruct (m w) as [w' [a|e]]; [|done]. eapply clear_fewer; [exact Hm|apply list_subseteq_nil].
Qed.

Lemma clears_reading {A} xs (f : S -> res string A) : clears xs (reading f) (fun _ => xs).
Proof. intros w Hw. cbn. destruct (f w.1); [done|]. eapply clear_fewer; [exact Hw|apply list_subseteq_nil]. Qed.

Lemma clears_app xs : clears xs (reading (ObservationLog.getApp store)) (fun a => a :: xs).
Proof.
  intros w Hw. cbn. destruct (ObservationLog.getApp store w.1) as [a|] eqn:E; [|eapply clear_fewer; [exact Hw|apply list_subseteq_nil]].
  apply beside_app in E. destruct Hw as (? & ? & Hx). split; [done|]. split; [done|]. intros y [->|Hy]%elem_of_cons; auto.
Qed.

Lemma clears_try {A} xs (r : res string A) : clears xs (try r) (fun _ => xs).
Proof. intros w Hw. cbn. destruct r; [done|]. eapply clear_fewer; [exact Hw|apply list_subseteq_nil]. Qed.

Lemma clears_get xs : clears xs get_log (fun l => option_list (headSubject l) ++ xs).
Proof.
  intros w Hw. cbn. pose proof Hw as (? & Hh & Hx). split; [done|]. split; [done|]. intros y [Hy|Hy]%elem_of_app; [|auto].
  destruct (headSubject w.2) as [x|]; [|by apply elem_of_nil in Hy]. apply list_elem_of_singleton in Hy as ->. by apply Hh.
Qed.

Lemma clears_put xs l : option_list (headSubject l) ⊆ xs -> clears xs (put_log l) (fun _ => xs).
Proof.
  intros Hl w Hw. cbn. pose proof Hw as (? & _ & Hx). split; [done|]. split; [|done]. cbn. intros x Hh. apply Hx, Hl.
  rewrite Hh. by apply list_elem_of_singleton.
Qed.

Lemma clears_new xs parent name r : option_list parent ⊆ xs ->
  clears xs (writing (fun s => ObservationLog.newResource store s parent name r)) (fun x => x :: xs).
Proof.
  intros Hp [s l] Hw. unfold writing. destruct (ObservationLog.newResource store s parent name r) as [s' o] eqn:E. pose proof Hw as (H1 & Hh & Hx).
  apply beside_new in E as [Hs Ho]; [|intros ->; destruct (Hx (table schema)) as [Hne _]; [by apply Hp, list_elem_of_singleton|done]].
  assert (Hh' : forall x, headSubject l = Some x -> outside s' x) by (intros x Hl; by eapply outside_kept; [|apply Hh]).
  destruct o as [x|]; (eapply clear_moves; [exact Hw|done|exact Hh'|]).
  - intros y [->|Hy]%elem_of_cons; [right; by apply Ho|by left].
  - by intros y ?%elem_of_nil.
Qed.

Lemma clears_save xs x c : x ∈ xs -> clears xs (writing (fun s => ObservationLog.save store s x c)) (fun _ => xs).
Proof.
  intros Hp [s l] Hw. unfold writing. destruct (ObservationLog.save store s x c) as [s' o] eqn:E. pose proof Hw as (H1 & Hh & Hx).
  apply beside_save in E; [|by apply Hx].
  assert (Hh' : forall x, headSubject l = Some x -> outside s' x) by (intros y Hl; by eapply outside_kept; [|apply Hh]).
  destruct o as [[]|]; (eapply clear_moves; [exact Hw|done|exact Hh'|]); [by left|by intros y ?%elem_of_nil].
Qed.

#[local] Ltac subjects :=
  cbn [option_list headSubject set_headSubject set_head set_current set_dirty];
  (set_solver || (intros ? ?; rewrite ?elem_of_app, ?elem_of_cons in *; naive_solver)).

Lemma clears_if {A} xs (b : bool) (m1 m2 : ObservationLog.io A) ys : clears xs m1 ys -> clears xs m2 ys -> clears xs (if b then m1 else m2) ys.
Proof. by destruct b. Qed.

Lemma clears_ensureHead now : clears [] (ensureHead store now) (fun _ => []).
Proof.
  unfold ensureHead. eapply clears_bind; [apply clears_get|]. intros l. destruct (ObservationLog.head l) as [h|]; [apply clears_ret|].
  eapply clears_bind; [apply clears_app|]. intros a. eapply clears_bind; [apply clears_reading|]. intros ?.
  eapply clears_bind; [apply clears_new; subjects|]. intros x. eapply clears_bind; [apply clears_put; subjects|]. intros ?.
  eapply clears_bind; [apply clears_try|]. intros t. eapply clears_bind; [apply clears_new; subjects|]. intros y.
  eapply clears_bind; [apply clears_put; subjects|]. intros ?. eapply clears_bind; [apply clears_save; subjects|]. intros ?.
  eapply clears_bind; [apply clears_save; subjects|]. intros ?. apply clears_ret.
Qed.

Lemma clears_store_incremental i h : clears [] (store_incremental store json_length i h) (fun _ => []).
Proof.
  unfold store_incremental. eapply clears_bind; [apply clears_get|]. intros l. eapply clears_bind; [apply clears_new; subjects|]. intros x.
  eapply clears_bind; [apply clears_put; subjects|]. intros ?. apply clears_ret.
Qed.

Lemma clears_append now o : clears [] (append store other json_length now o) (fun _ => []).
Proof.
  unfold append. eapply clears_bind; [apply clears_get|]. intros l.
  eapply clears_bind. { intros w Hw. apply clears_ensureHead. eapply clear_fewer; [exact Hw|apply list_subseteq_nil]. }
  intros h. unfold append_incremental. eapply clears_bind.
  { apply clears_if; [apply clears_ret|apply clears_store_incremental]. }
  intros h'. eapply clears_bind; [apply clears_get|]. intros l'. eapply clears_bind; [apply clears_put; subjects|].
  intros ?. apply clears_ret.
Qed.

Lemma clears_compact now : clears [] (compactIfNeeded store other now) (fun _ => []).
Proof.
  unfold compactIfNeeded. eapply clears_bind; [apply clears_get|]. intros l. destruct (ObservationLog.head l) as [h|]; [|apply clears_ret].
  apply clears_if; [apply clears_ret|]. unfold writeSnapshot. eapply clears_bind; [|intros; apply clears_ret].
  eapply clears_bind; [apply clears_try|]. intros t. eapply clears_bind; [apply clears_get|]. intros l'.
  eapply clears_bind; [apply clears_new; subjects|]. intros x. eapply clears_done, clears_put. subjects.
Qed.

Lemma clears_flush : clears [] (flush store other) (fun _ => []).
Proof.
  unfold flush. eapply clears_bind; [apply clears_get|]. intros l. destruct (dirty l); [|apply clears_ret].
  destruct (headSubject l) as [[|c x]|] eqn:E; try (apply clears_ret).
  destruct (ObservationLog.head l) as [h|]; [|apply clears_ret]. eapply clears_bind; [apply clears_reading|]. intros q.
  eapply clears_bind; [apply clears_put; cbn; rewrite E; subjects|]. intros ?. eapply clears_bind; [apply clears_save; subjects|]. intros ?.
  eapply clears_done, clears_put. cbn. rewrite E. subjects.
Qed.
End Beside.

Section PassRows.
Context {S : Type} (host : HostStore S) (content : S -> gmap (list Z) Props) (schema : CompleteSchema) `{!Drive host content}.
Context (store : ObservationLog.PluginStore S) `{!Beside content schema store}.
Context (other : jstr -> option Z) (json_length : Incremental -> Z) (Intl : jstr -> option (Z -> option Parts)).
Context (transport : ProxyTransport) (settings : Sheet.Settings) (now : Z) (options : SyncOptions).
Context (Hkeys : NoDup (PARENT :: DESCRIPTION :: row_keys (row schema))).
Implicit Types (s : S) (a : AccountContext).

#[local] Abbreviation World := (S * ObservationLog)%type.

(** The projection of a pass started from the rows of [s]: the window was read
    whole, the names were read, and [s1], which has the same rows, was projected. *)
Record projects_from s s' (r : res Failure SyncResult) (a : AccountContext) (i : nat) (read : RangeRead)
    (ps ms : list Json * option jstr) (m : Mirror) (s1 : S) : Prop := {
  pf_account : fetchAccountContext transport Intl (workspaceId (Sheet.account settings)) = Ok a;
  pf_read : read_window Intl transport settings now options a i = Ok read;
  pf_whole : error read = None;
  pf_projects : fetchNamed transport (workspaceId (Sheet.account settings)) (js "projects") = Ok ps;
  pf_members : fetchNamed transport (workspaceId (Sheet.account settings)) (js "users") = Ok ms;
  pf_rows : same_rows content schema s s1;
  pf_projected : match r with
    | Ok result => projectRows host other schema m ps.1 ms.1 s1 = (s', Ok (counts result)) /\ mirror result = m
    | Err e => exists e', projectRows host other schema m ps.1 ms.1 s1 = (s', Err e') /\ e = Thrown e'
    end;
}.

Definition projected_from s s' r : Prop := exists a i read ps ms m s1, projects_from s s' r a i read ps ms m s1.

Lemma recheck_clear s context st candidate :
  triple (clear content schema s []) (recheck store other json_length options context st candidate) (fun _ => clear content schema s [])
    (fun _ => clear content schema s []).
Proof.
  intros w Hw. unfold recheck. destruct st as [i ws]. destruct (readOne _ _ _ _ _) as [o|]; [|done].
  pose proof (clears_append content schema store other json_length s (appendedAt options i) o w Hw) as Ha.
  by destruct (append _ _ _ _ _ w) as [w' [|]].
Qed.

Lemma logged_clear {A} s (m : ObservationLog.io A) ys (X : Failure -> World -> Prop) : clears content schema s [] m ys ->
  (forall e w, clear content schema s [] w -> X e w) ->
  triple (clear content schema s []) (logged m) (fun _ => clear content schema s []) X.
Proof.
  intros Hm HX w Hw. apply clears_done in Hm. specialize (Hm w Hw). unfold logged, throwing. destruct (m w) as [w' [|]]; [done|by apply HX].
Qed.

Lemma asked_clear {A} (q : res Fault A) (P : World -> Prop) (X : Failure -> World -> Prop) : (forall e w, P w -> X e w) ->
  triple P (asked q) (fun b w => q = Ok b /\ P w) X.
Proof. intros HX w Hw. unfold asked, throwing, lift. destruct q; [done|by apply HX]. Qed.

Definition ended s (e : Failure) (w : World) : Prop := same_rows content schema s w.1 \/ projected_from s w.1 (Err e).

Lemma ended_clear s e w : clear content schema s [] w -> ended s e w.
Proof. intros Hw. left. apply Hw. Qed.

Lemma finish_rows s a i read ws :
  fetchAccountContext transport Intl (workspaceId (Sheet.account settings)) = Ok a ->
  read_window Intl transport settings now options a i = Ok read -> error read = None ->
  triple (clear content schema s []) (finish host store other transport settings schema now options a ws)
    (fun result w => projected_from s w.1 (Ok result)) (ended s).
Proof.
  intros Ha Hr Hw. unfold finish. set (ws_id := workspaceId (Sheet.account settings)).
  eapply triple_bind; [apply asked_clear; apply ended_clear|].
  intros ps. apply triple_pure. intros Hps.
  eapply triple_bind; [apply asked_clear; apply ended_clear|].
  intros ms. apply triple_pure. intros Hms.
  eapply triple_bind; [eapply logged_clear; [by apply clears_compact|apply ended_clear]|]. intros written.
  eapply triple_bind; [eapply logged_clear; [by apply clears_flush|apply ended_clear]|]. intros ?.
  eapply triple_bind; [by apply (triple_reads _ _ (fun _ => clear content schema s []))|]. intros l.
  intros [s1 l'] Hc. unfold mbind, act_bind, on_rows.
  destruct (projectRows host other schema (current l) ps.1 ms.1 s1) as [s2 [k|e]] eqn:E.
  - exists a, i, read, ps, ms, (current l), s1. split; try done. apply Hc.
  - right. exists a, i, read, ps, ms, (current l), s1. split; try done; [apply Hc|]. by exists e.
Qed.

Lemma pass_rows s a : fetchAccountContext transport Intl (workspaceId (Sheet.account settings)) = Ok a ->
  triple (clear content schema s []) (pass host store other json_length Intl transport settings schema now options a)
    (fun result w => projected_from s w.1 (Ok result)) (ended s).
Proof.
  intros Ha. unfold pass. eapply triple_bind; [by apply (triple_reads _ _ (fun _ => clear content schema s []))|]. intros l.
  eapply triple_bind.
  { eapply triple_weaken; [apply (triple_loop _ (fun _ _ => clear content schema s []) (fun _ => clear content schema s []))|done|done|].
    - intros. apply recheck_clear.
    - apply ended_clear. }
  intros [i ws]. cbn [fst snd]. destruct (read_window _ _ _ _ _ a i) as [read|e] eqn:Er.
  - eapply triple_bind; [eapply logged_clear; [by apply clears_append|apply ended_clear]|]. intros ?.
    destruct (error read) as [e|] eqn:Ee; [|by eapply finish_rows].
    eapply triple_bind; [eapply logged_clear; [by apply clears_flush|apply ended_clear]|]. intros ? w Hw. by apply ended_clear.
  - eapply triple_bind; [eapply logged_clear; [by apply clears_flush|apply ended_clear]|]. intros ? w Hw. by apply ended_clear.
Qed.

End PassRows.

Module Demo.
Import Zones.Demo.

(** A drive with a table of two rows and a log beside it. *)
Abbreviation State := (ObservationLog.Demo.state * gmap (list Z) Props)%type.
Definition host : HostStore State := HostStore.Demo.host ObservationLog.Demo.state.
#[export] Instance demo_drive : Drive host HostStore.Demo.content.
Proof. apply HostStore.Demo.host_drive. Qed.

Definition store : ObservationLog.PluginStore State := ObservationLog.mkStore State
  (fun s => ObservationLog.getApp ObservationLog.Demo.store s.1)
  (fun s x => ObservationLog.getResource ObservationLog.Demo.store s.1 x)
  (fun s parent name r => let '(l, o) := ObservationLog.newResource ObservationLog.Demo.store s.1 parent name r in ((l, s.2), o))
  (fun s x c => let '(l, o) := ObservationLog.save ObservationLog.Demo.store s.1 x c in ((l, s.2), o)).

Definition field (k : string) : jstr := HostStore.Demo.subject (js k).
Definition schema : CompleteSchema := mkSchema (field "table") (field "row")
  (mkRow (field "entry") (field "start") (field "end") (field "billable") (field "project") (field "projectName") (field "member") (field "memberName")).

Lemma fields_apart : NoDup (PARENT :: DESCRIPTION :: row_keys (row schema)).
Proof. by_decide. Qed.

Lemma log_outside (s : State) n : outside HostStore.Demo.content schema s (ObservationLog.Demo.subject n).
Proof. split; [done|]. intros r Hr. by rewrite HostStore.Demo.content_other in Hr. Qed.

#[export] Instance log_beside : Beside HostStore.Demo.content schema store.
Proof.
  split; cbn [store ObservationLog.getApp ObservationLog.newResource ObservationLog.save].
  - intros s a [= <-]. apply (log_outside s 0).
  - intros s parent name r s' o _. cbn. unfold ObservationLog.Demo.write. intros H.
    destruct (ObservationLog.Demo.faults s.1) as [|[] fs]; simplify_eq/=; (split; [done|]);
      intros x Hx; simplify_eq; apply log_outside.
  - intros s x c s' o _. cbn. destruct (ObservationLog.Demo.index_of x) as [n|]; [|by intros [= <- _]].
    destruct (_ !! n); [|by intros [= <- _]]. unfold ObservationLog.Demo.write.
    destruct (ObservationLog.Demo.faults s.1) as [|[] fs]; intros H; by simplify_eq/=.
Qed.

(** A row of an entry that was renamed since, and one that no one made here. *)
Definition drive : gmap (list Z) Props :=
  <[js "table" := {[ PARENT := OStr (js "app") ]}]>
  (<[js "r1" := assign [(PARENT, Some (OStr (field "table"))); (NAME, Some (OStr (js "old"))); (field "entry", Some (OStr (js "e1")))] ∅]>
   {[ js "r2" := assign [(PARENT, Some (OStr (field "table"))); (field "entry", Some (OStr (js "mine")))] ∅ ]}).
Definition s0 : State := (ObservationLog.Demo.mkState [] [no_texts], drive).

(** The rows of the drive and their entries. *)
Lemma drive_rows (x : jstr) (r : Props) : HostStore.Demo.content s0 !! x = Some r -> is_row schema r = true ->
  exists id, r !! field "entry" = Some (OStr id) /\ (x = field "r1" /\ id = js "e1" \/ x = field "r2" /\ id = js "mine").
Proof.
  intros (k & -> & Hk)%lookup_kmap_Some Hr; [|apply _]. unfold s0, drive in Hk. cbn [snd] in Hk.
  rewrite !lookup_insert_Some, lookup_singleton_Some in Hk. destruct Hk as [[? ?]|[? [[? ?]|[? [? ?]]]]]; subst.
  - by vm_compute in Hr.
  - exists (js "e1"). split; [by vm_compute|by left].
  - exists (js "mine"). split; [by vm_compute|by right].
Qed.

Lemma drive_unique : unique HostStore.Demo.content schema s0.
Proof.
  intros id x y r q [Hx Hr] [Hy Hq]. unfold row_for in *. breflect.
  destruct (drive_rows x r) as (i & Hi & Hxi); [done|done|]. destruct (drive_rows y q) as (j & Hj & Hyj); [done|done|].
  change (entryId (row schema)) with (field "entry") in *. rewrite Hi in *. rewrite Hj in *.
  assert (i = id) by (by apply answers_text). assert (j = id) by (by apply answers_text). subst.
  by destruct Hxi as [[-> ->]|[-> ->]], Hyj as [[-> ?]|[-> ?]].
Qed.

Lemma drive_apart : table_apart HostStore.Demo.content schema s0.
Proof. intros t Ht. destruct (is_row schema t) eqn:E; [|done]. by destruct (drive_rows _ _ Ht E) as (? & ? & [[? ?]|[? ?]]). Qed.

Lemma drive_readable (s : State) : readable host HostStore.Demo.content s.
Proof.
  split; [|by eexists]. intros x r (k & -> & Hk)%lookup_kmap_Some; [|apply _]. cbn. by rewrite Hk.
Qed.

Definition entry (id start end_ type : string) : fields_map :=
  [(js "id", OStr (js id)); (js "type", OStr (js type)); (js "description", OStr (js "call")); (js "projectId", OStr (js "p1"));
   (js "userId", OStr (js "u1")); (js "timeInterval", OObj [(js "start", OStr (js start)); (js "end", OStr (js end_))])].
Definition named (id name : string) : Json := OObj [(js "id", OStr (js id)); (js "name", OStr (js name))].

(** A provider of two entries and a break. *)
Definition provider : ProxyTransport := fun path query =>
  Ok (200, Some (
    if jeqb path (js "/api/v1/user") then OObj [(js "id", OStr (js "u1")); (js "settings", OObj [(js "timeZone", OStr TZ)])]
    else if jeqb path (js "/api/v1/workspaces") then OArr [named "ws" "Work"]
    else if jeqb path (js "/api/v1/workspaces/ws/projects") then OArr [named "p1" "Site"]
    else if jeqb path (js "/api/v1/workspaces/ws/users") then OArr [named "u1" "Ada"]
    else OArr (map OObj [entry "e1" "2026-09-23T09:00:00Z" "2026-09-23T10:00:00Z" "REGULAR";
                         entry "e2" "2026-09-24T09:00:00Z" "2026-09-24T10:00:00Z" "REGULAR";
                         entry "e3" "2026-09-24T10:00:00Z" "2026-09-24T11:00:00Z" "BREAK"]))).
Definition settings : Sheet.Settings := Sheet.mkSettings (mkAccount (js "ws") (js "u1")) 7.
Definition now : Z := ms "2026-09-28T00:00:00Z".
Definition options : SyncOptions := mkOptions (fun _ => js "o1") (fun _ => js "2026-09-28T00:00:00.000Z") (fun _ => js "2026-09-28T00:00:01.000Z")
  (fun _ => now) now (js "laptop").
Abbreviation run := (syncClockify host store none (fun _ => 100) Intl provider settings schema now options 5).

Definition keyed (rs : list (jstr * MirrorRecord)) : Prop := NoDup (jkeys rs) /\ Forall (fun p => p.1 = recordKey (m_collection p.2) (m_id p.2)) rs.
#[export] Instance keyed_dec rs : Decision (keyed rs).
Proof. unfold keyed. apply _. Defined.

Lemma keyed_ok rs : keyed rs -> records_ok rs.
Proof.
  intros [Hnd H]. split; [done|]. intros k r Hk. apply jget_elem in Hk; [|done]. rewrite Forall_forall in H. by apply (H (k, r)).
Qed.


(** The mirror of that pass, projected on its own: the rows it shows stay as they are. *)
Definition pass_mirror : Mirror := match run s0 with Some (_, Ok r) => mirror r | _ => emptyMirror end.
Lemma pass_mirror_ok : records_ok (m_records pass_mirror).
Proof. apply keyed_ok. by_decide. Qed.

Abbreviation project := (projectRows host none schema pass_mirror [named "p1" "Site"] [named "u1" "Ada"]).

Lemma projectRows_mirrors_witness : exists s, project s0 = (s, Ok (mkCounts 1 1 0 0)) /\ project s = (s, Ok (mkCounts 0 0 2 0)).
Proof.
  assert (C : (project s0).2 = Ok (mkCounts 1 1 0 0)) by (vm_compute; reflexivity).
  pose proof (fun s c => projectRows_mirrors host HostStore.Demo.content none schema fields_apart s0 s pass_mirror
    [named "p1" "Site"] [named "u1" "Ada"] c pass_mirror_ok drive_apart drive_unique) as H.
  destruct (project s0) as [s o]. cbn [snd] in C. subst o. exists s. split; [reflexivity|].
  destruct (H s _ eq_refl) as (es & _ & _ & Hc & Hagain). rewrite <-Hc in Hagain. exact (Hagain (drive_readable s)).
Defined.

(** A project that is taken off an entry stays on its row: [rowValues] does not
    mention what the entry no longer has. *)
Definition with_project (p : option jstr) : ProjectedEntry :=
  mkProjected (js "e1") (js "call") (Some 0) (Some 1) None p None None None.
Definition shown_once (e : ProjectedEntry) (s : State) : State :=
  (loop (save_row host schema) ([field "r1"; field "r2"], mkCounts 0 0 0 0) [e] s).1.
Example stale_project :
  (r ← HostStore.Demo.content (shown_once (with_project None) (shown_once (with_project (Some (js "p1"))) s0)) !! field "r1"; r !! field "project")
  = Some (OStr (js "p1")).
Proof. by vm_compute. Qed.
End Demo.
