(* ===== verification/Schema.v ===== *)
(** * The properties a timesheet app keeps its data in

    Models [src/integrations/timesheets/app/ontology.ts], [schema.ts] and the
    settings of [config.ts]: one Property of the drive for each field, found
    again by its short name under the ontology of the row class, and made when
    it is not there.

    A property in [byShortname] is its subject and its datatype, which is all
    that is read of it. *)
From S2P Require Import Prelude Text Collections Json HostStore.
Local Open Scope Z_scope.

(** ** ontology.ts *)

Definition string_type : jstr := A ++ js "/datatypes/string".
Definition timestamp_type : jstr := A ++ js "/datatypes/timestamp".
Definition boolean_type : jstr := A ++ js "/datatypes/boolean".
Definition integer_type : jstr := A ++ js "/datatypes/integer".

(* src: integrations/timesheets/app/ontology.ts 36-41 Field *)
Record Field := mkField { shortname : jstr; f_name : string; datatype : jstr; description : jstr }.

(* src: integrations/timesheets/app/ontology.ts 43-48 field *)
Definition field (sn name : string) (dt : jstr) (desc : string) : Field := mkField (js sn) name dt (js desc).

(* src: integrations/timesheets/app/ontology.ts 50-95 ROW_FIELDS *)
Definition ROW_FIELDS : list (jstr * Field) :=
  [(js "entryId", field "clockify-entry-id" "Clockify entry id" string_type
       "The id of the Clockify time entry this row was imported from.");
   (js "start", field "start" "Start" timestamp_type
       "When the time entry started.");
   (js "end", field "end" "End" timestamp_type
       "When the time entry ended.");
   (js "billable", field "billable" "Billable" boolean_type
       "Whether Clockify marks the entry billable.");
   (js "projectId", field "clockify-project-id" "Clockify project id" string_type
       "The id of the Clockify project the entry belongs to.");
   (js "projectName", field "project" "Project" string_type
       "The name of the Clockify project the entry belongs to.");
   (js "memberId", field "clockify-user-id" "Clockify user id" string_type
       "The id of the Clockify user who tracked the entry.");
   (js "memberName", field "member" "Member" string_type
       "The name of the Clockify user who tracked the entry.")].
(* src: integrations/timesheets/app/ontology.ts 97-122 SETTING_FIELDS *)
Definition SETTING_FIELDS : list (jstr * Field) :=
  [(js "workspaceId", field "clockify-workspace" "Clockify workspace id" string_type
       "The Clockify workspace this app imports from.");
   (js "userId", field "clockify-account" "Clockify account id" string_type
       "The Clockify user whose time entries this app imports.");
   (js "lookbackDays", field "clockify-lookback-days" "Look-back (days)" integer_type
       "How many days back each import reads: 7 or 30.")].
(* src: integrations/timesheets/app/ontology.ts 124-156 LOG_FIELDS *)
Definition LOG_FIELDS : list (jstr * Field) :=
  [(js "log", field "clockify-observation-log" "Clockify observation log" string_type
       "The subject of this app's Clockify observation log head.");
   (js "head", field "clockify-log-head" "Clockify log head" string_type
       "JSON text: the current snapshot, the incrementals after it and what has been read. Written by the timesheets app; do not edit.");
   (js "observation", field "clockify-observation" "Clockify observation" string_type
       "JSON text: one read from Clockify, as a diff against what the app knew before. Written by the timesheets app; do not edit.");
   (js "snapshot", field "clockify-snapshot" "Clockify snapshot" string_type
       "JSON text: the Clockify mirror folded up to a point in the log. Written by the timesheets app; do not edit.")].

(** ** schema.ts *)

(** The strings of a list. *)
(* src: integrations/timesheets/app/schema.ts 30-33 list *)
Definition strings_of (value : option Json) : list jstr :=
  omap (fun v => match v with OStr s => Some s | _ => None end) (elements_of value).

(* src: integrations/timesheets/app/schema.ts 14-22 Schema *)
Record Schema := mkSchema {
  table : jstr;
  rowClass : jstr;
  ontology : jstr;
  row : list (jstr * jstr);
  settings : list (jstr * jstr);
  log : list (jstr * jstr);
}.

(** What is found by short name: the subject and the datatype. *)
Definition Index : Type := list (jstr * (jstr * option Json)).

(** [byShortname.set(shortname, property)], for a property with a short name. *)
(* src: integrations/timesheets/app/schema.ts 48-49 locate ! *)
Definition index_property (m : Index) (subject : jstr) (property : Props) : Index :=
  match property !! SHORTNAME with
  | Some (OStr n) => jset n (subject, property !! DATATYPE) m
  | _ => m
  end.

Section Schema.
Context {S : Type} (host : HostStore S).

#[local] Abbreviation act := (act S string).

(* src: integrations/timesheets/app/schema.ts 46-50 locate ! *)
Definition read_property (m : Index) (subject : jstr) : act Index :=
  property ← reads (fun s => getResource host s subject);
  mret (index_property m subject property).

(** The table, the row class, its ontology and its properties. *)
(* src: integrations/timesheets/app/schema.ts 35-53 locate *)
Definition locate : act (jstr * (jstr * Props) * (jstr * Props) * Index) :=
  data ← reads (getData host);
  match data with
  | Some (((_ :: _) as t), Some ((_ :: _) as c)) =>
      klass ← reads (fun s => getResource host s c);
      match klass !! PARENT with
      | Some (OStr o) =>
          onto ← reads (fun s => getResource host s o);
          m ← loop read_property [] (strings_of (onto !! PROPERTIES));
          mret (t, (c, klass), (o, onto), m)
      | _ => throw "The row class has no parent ontology to add fields to."%string
      end
  | _ => throw "This app has no table with a row class to import into."%string
  end.

(** The property of a field, when it has the field's datatype. *)
Definition bound (m : Index) (p : jstr * Field) : option (jstr * jstr) :=
  match jget (shortname p.2) m with
  | Some (subject, dt) => if strict_eq dt (Some (OStr (datatype p.2))) then Some (p.1, subject) else None
  | None => None
  end.

(* src: integrations/timesheets/app/schema.ts 55-68 bind *)
Definition bind (fields : list (jstr * Field)) (m : Index) : list (jstr * jstr) := omap (bound m) fields.

(* src: integrations/timesheets/app/schema.ts 70-82 findSchema *)
Definition findSchema : act Schema :=
  found ← locate;
  let '(t, (c, _), (o, _), m) := found in
  mret (mkSchema t c o (bind ROW_FIELDS m) (bind SETTING_FIELDS m) (bind LOG_FIELDS m)).

Definition other_datatype (f : Field) : string :=
  ("The field " ++ String (Ascii.ascii_of_nat 34) (f_name f ++ String (Ascii.ascii_of_nat 34) " already exists with another datatype."))%string.

(** The subject of one field, made when there is none. *)
(* src: integrations/timesheets/app/schema.ts 98-124 ensureSchema ! *)
Definition ensure (o : jstr) (st : list jstr * Index) (f : Field) : act (jstr * (list jstr * Index)) :=
  match jget (shortname f) st.2 with
  | Some (subject, dt) =>
      if strict_eq dt (Some (OStr (datatype f))) then mret (subject, st)
      else throw (other_datatype f)
  | None =>
      x ← writes (fun s => newResource host s o [PROPERTY_CLASS]
            [(SHORTNAME, Some (OStr (shortname f))); (NAME, Some (OStr (js (f_name f))));
             (DATATYPE, Some (OStr (datatype f))); (DESCRIPTION, Some (OStr (description f)))]);
      mret (x, (st.1 ++ [x], jset (shortname f) (x, Some (OStr (datatype f))) st.2))
  end.

(** The loops over the keys of a record of fields. *)
(* src: integrations/timesheets/app/schema.ts 126-134 ensureSchema ! *)
Definition ensure_field (o : jstr) (acc : list (jstr * jstr) * (list jstr * Index)) (p : jstr * Field)
    : act (list (jstr * jstr) * (list jstr * Index)) :=
  e ← ensure o acc.2 p.2;
  mret (acc.1 ++ [(p.1, e.1)], e.2).

(* src: integrations/timesheets/app/schema.ts 84-161 ensureSchema *)
Definition ensureSchema : act Schema :=
  found ← locate;
  let '(t, (c, klass), (o, onto), m) := found in
  rows ← loop (ensure_field o) ([], ([], m)) ROW_FIELDS;
  sets ← loop (ensure_field o) ([], rows.2) SETTING_FIELDS;
  logs ← loop (ensure_field o) ([], sets.2) LOG_FIELDS;
  let added := logs.2.1 in
  _ ← match added with
      | [] => mret tt
      | _ => writes (fun s => save host s o
               [(PROPERTIES, Some (OArr (map OStr (strings_of (onto !! PROPERTIES) ++ added))))])
      end;
  let recommends := strings_of (klass !! RECOMMENDS) in
  let wanted := NAME :: map snd rows.1 in
  let missing := List.filter (fun x => negb (bool_decide (x ∈ recommends))) wanted in
  _ ← match missing with
      | [] => mret tt
      | _ => writes (fun s => save host s c [(RECOMMENDS, Some (OArr (map OStr (recommends ++ missing))))])
      end;
  mret (mkSchema t c o rows.1 sets.1 logs.1).
End Schema.

(** ** What is made once stays *)

Section SchemaExact.
Context {S : Type} (host : HostStore S) (content : S -> gmap (list Z) Props) `{!Drive host content}.
Implicit Types (s : S) (x o : jstr) (m : Index) (r klass onto : Props).

(** The index of some subjects of a drive. *)
Definition index_all (c : gmap (list Z) Props) m (subjects : list jstr) : Index :=
  fold_left (fun m x => match c !! x with Some r => index_property m x r | None => m end) subjects m.

Lemma index_all_app c m l k : index_all c m (l ++ k) = index_all c (index_all c m l) k.
Proof. apply fold_left_app. Qed.

(** What [locate] reads of a property is the same in both drives. *)
Definition same_property (c c' : gmap (list Z) Props) x : Prop :=
  exists r r', c !! x = Some r /\ c' !! x = Some r' /\ r' !! SHORTNAME = r !! SHORTNAME /\ r' !! DATATYPE = r !! DATATYPE.

Lemma index_all_same c c' m l : (forall x, x ∈ l -> same_property c c' x) -> index_all c' m l = index_all c m l.
Proof.
  unfold index_all. revert m. induction l as [|x l IH]; intros m H; [done|]. cbn [fold_left].
  destruct (H x) as (r & r' & -> & -> & Hs & Hd); [by left|]. unfold index_property. rewrite Hs, Hd. apply IH. intros y Hy. apply H. by right.
Qed.

Lemma read_properties_inv m l s s' m' : loop (read_property host) m l s = (s', Ok m') ->
  s' = s /\ m' = index_all (content s) m l /\ forall x, x ∈ l -> is_Some (content s !! x).
Proof.
  revert m. induction l as [|x l IH]; intros m H; [injection H as <- <-; split_and!; try done; by intros x ?%elem_of_nil|]. cbn [loop] in H.
  apply act_bind_inv in H as (s1 & m1 & H1 & H). unfold read_property in H1. apply act_bind_inv in H1 as (s2 & r & H2 & H1).
  injection H2 as <- Hr. injection H1 as <- <-. apply drive_get in Hr. apply IH in H as (-> & -> & Hl). split; [done|]. split.
  - unfold index_all at 2. cbn [fold_left]. by rewrite Hr.
  - intros y [->|Hy]%elem_of_cons; [by eexists|by apply Hl].
Qed.

(** The host's reads answer what the drive holds. *)
Definition answering s : Prop := forall x r, content s !! x = Some r -> getResource host s x = Ok r.

Lemma read_properties_total m l s : answering s -> (forall x, x ∈ l -> is_Some (content s !! x)) ->
  loop (read_property host) m l s = (s, Ok (index_all (content s) m l)).
Proof.
  intros Ha. revert m. induction l as [|x l IH]; intros m H; [done|]. destruct (H x) as [r Hr]; [by left|].
  cbn [loop]. unfold mbind, act_bind, read_property, reads. unfold mbind, act_bind. rewrite (Ha x r Hr). cbn [mret act_ret].
  rewrite IH by (intros y Hy; apply H; by right). unfold index_all at 2. cbn [fold_left]. by rewrite Hr.
Qed.

(** Properties were made one after the other since [s0], where [m0] was indexed. *)
Record made s0 m0 s (added : list jstr) m : Prop := {
  md_old : forall x, x ∉ added -> content s !! x = content s0 !! x;
  md_new : forall x, x ∈ added -> content s0 !! x = None /\ is_Some (content s !! x);
  md_index : m = index_all (content s) m0 added;
}.

(** The subjects of some fields. *)
Definition fields_in m (p : jstr * Field) (q : jstr * jstr) : Prop :=
  q.1 = p.1 /\ jget (shortname p.2) m = Some (q.2, Some (OStr (datatype p.2))).

Definition extends m m' : Prop := forall n v, jget n m = Some v -> jget n m' = Some v.

Lemma property_vals f o : let r := new_resource o [PROPERTY_CLASS]
    [(SHORTNAME, Some (OStr (shortname f))); (NAME, Some (OStr (js (f_name f))));
     (DATATYPE, Some (OStr (datatype f))); (DESCRIPTION, Some (OStr (description f)))] in
  r !! SHORTNAME = Some (OStr (shortname f)) /\ r !! DATATYPE = Some (OStr (datatype f)).
Proof.
  cbv zeta. unfold new_resource. rewrite !assign_get by by_decide. split; reflexivity.
Qed.

Lemma ensure_made o f s0 m0 s added m s' x added' m' : made s0 m0 s added m ->
  ensure host o (added, m) f s = (s', Ok (x, (added', m'))) ->
  made s0 m0 s' added' m' /\ extends m m' /\ jget (shortname f) m' = Some (x, Some (OStr (datatype f))).
Proof.
  intros Hm H. unfold ensure in H. cbn [fst snd] in H. destruct (jget (shortname f) m) as [[y dt]|] eqn:E.
  - destruct (strict_eq dt _) eqn:Ed; [|done]. injection H as <- <- <- <-. apply strict_eq_spec in Ed as ->. split; [done|]. split; [by intros ? ?|done].
  - apply act_bind_inv in H as (s1 & y & H1 & H). injection H as <- <- <- <-. apply drive_new in H1 as [Hn Hc].
    destruct Hm as [Hold Hnew ->]. destruct (property_vals f o) as [Hs Hd]. set (r := new_resource _ _ _) in *. clearbody r.
    assert (Hxa : y ∉ added) by (intros Hy; destruct (Hnew y Hy) as [_ [? Hy']]; congruence).
    split; [split|split].
    + intros z [Hz Hzy]%not_elem_of_app. rewrite Hc, lookup_insert_ne by (intros <-; apply Hzy; by left). by apply Hold.
    + intros z [Hz| ->%list_elem_of_singleton]%elem_of_app.
      * destruct (Hnew z Hz) as [? ?]. rewrite Hc, lookup_insert_ne; [done|]. intros <-. by apply Hxa.
      * rewrite Hc, lookup_insert_eq. split; [|by eexists]. by rewrite <-(Hold y Hxa).
    + rewrite index_all_app. unfold index_all at 2. cbn [fold_left]. assert (content s1 !! y = Some r) as -> by by rewrite Hc, lookup_insert_eq.
      unfold index_property. rewrite Hs, Hd. f_equal. symmetry. apply index_all_same. intros z Hz.
      destruct (Hnew z Hz) as [_ [q Hq]]. exists q, q. rewrite Hc, lookup_insert_ne; [done|]. intros <-. by apply Hxa.
    + intros n v Hv. rewrite jget_jset, decide_False; [done|]. intros ->. by rewrite E in Hv.
    + by rewrite jget_jset, decide_True.
Qed.

Lemma ensure_fields o fs s0 m0 s added m s' out added' m' : made s0 m0 s added m ->
  loop (ensure_field host o) ([], (added, m)) fs s = (s', Ok (out, (added', m'))) ->
  made s0 m0 s' added' m' /\ extends m m' /\ Forall2 (fields_in m') fs out.
Proof.
  intros Hm H. set (I := fun (done : list (jstr * Field)) (acc : list (jstr * jstr) * (list jstr * Index)) s =>
    made s0 m0 s acc.2.1 acc.2.2 /\ extends m acc.2.2 /\ Forall2 (fields_in acc.2.2) done acc.1).
  apply (triple_run _ (I [] ([], (added, m))) (I fs) (fun _ _ => True)) in H; [done| |].
  - apply triple_loop. intros dn p todo [o1 [a1 m1]] _ s1 (Hm1 & He1 & Hf1). cbn [fst snd] in *.
    destruct (ensure_field _ _ _ _ _) as [s2 [[o2 [a2 m2]]|]] eqn:E; [|done]. unfold ensure_field in E. cbn [fst snd] in E.
    apply act_bind_inv in E as (s3 & [x [a3 m3]] & E & E2). injection E2 as <- <- <- <-.
    eapply ensure_made in E as (Hm2 & He2 & Hx); [|exact Hm1]. split; [done|]. split; [intros n v Hv; by apply He2, He1|].
    apply Forall2_app; [|constructor; [by split|constructor]]. eapply Forall2_impl; [exact Hf1|]. intros q t [Hq Ht]. split; [done|]. by apply He2.
  - split; [done|]. split; [by intros ? ?|constructor].
Qed.

Lemma ensure_again o m s fs out added : Forall2 (fields_in m) fs out ->
  loop (ensure_field host o) ([], (added, m)) fs s = (s, Ok (out, (added, m))).
Proof.
  intros H. cut (forall acc, loop (ensure_field host o) (acc, (added, m)) fs s = (s, Ok (acc ++ out, (added, m)))); [intros C; apply C|].
  induction H as [|p q fs out [Hk Hg] _ IH]; intros acc; [by rewrite app_nil_r|].
  cbn [loop]. unfold mbind at 1, act_bind. unfold ensure_field, ensure. cbn [fst snd]. rewrite Hg, strict_eq_refl by done.
  unfold mbind at 1, act_bind. cbn [mret act_ret fst snd]. unfold mret, act_ret. rewrite IH, <-app_assoc, <-Hk. by destruct q.
Qed.

Lemma bind_fields m fs out : Forall2 (fields_in m) fs out -> bind fs m = out.
Proof.
  induction 1 as [|p q fs out [Hk Hg] _ IH]; [done|]. unfold bind in *. cbn. unfold bound at 1. rewrite Hg, strict_eq_refl by done.
  rewrite IH, <-Hk. by destruct q.
Qed.

Lemma index_all_get c l n x dt : jget n (index_all c [] l) = Some (x, dt) ->
  x ∈ l /\ exists r, c !! x = Some r /\ r !! SHORTNAME = Some (OStr n) /\ r !! DATATYPE = dt.
Proof.
  induction l as [|y l IH] using rev_ind; [done|]. rewrite index_all_app. unfold index_all at 1. cbn [fold_left].
  assert (Hl : jget n (index_all c [] l) = Some (x, dt) -> x ∈ l ++ [y] /\
    exists r, c !! x = Some r /\ r !! SHORTNAME = Some (OStr n) /\ r !! DATATYPE = dt).
  { intros H%IH. destruct H as [Hx H]. split; [|done]. apply elem_of_app. by left. }
  destruct (c !! y) as [r|] eqn:Er; [|exact Hl]. unfold index_property. destruct (r !! SHORTNAME) as [[| | |k| |]|] eqn:Es; try exact Hl.
  rewrite jget_jset. case_decide as Hk; [|exact Hl]. subst k. intros [= <- <-].
  split; [apply elem_of_app; right; by left|]. by exists r.
Qed.

Record located s t c o klass onto : Prop := {
  lo_data : getData host s = Ok (Some (t, Some c));
  lo_table : t <> [];
  lo_row : c <> [];
  lo_class : content s !! c = Some klass;
  lo_parent : klass !! PARENT = Some (OStr o);
  lo_ontology : content s !! o = Some onto;
  lo_listed : forall x, x ∈ strings_of (onto !! PROPERTIES) -> is_Some (content s !! x);
}.

Lemma locate_inv s s' t c klass o onto m : locate host s = (s', Ok (t, (c, klass), (o, onto), m)) ->
  s' = s /\ located s t c o klass onto /\ m = index_all (content s) [] (strings_of (onto !! PROPERTIES)).
Proof.
  intros H. unfold locate in H. apply act_bind_inv in H as (s1 & data & H1 & H). injection H1 as <- Hd.
  destruct data as [[t' c']|]; [|done]. destruct t' as [|t1 t']; [done|]. destruct c' as [[|c1 c']|]; [done| |done].
  apply act_bind_inv in H as (s1 & k & H1 & H). injection H1 as <- Hk%drive_get.
  destruct (k !! PARENT) as [[| | |o'| |]|] eqn:Ep; try done.
  apply act_bind_inv in H as (s1 & on & H1 & H). injection H1 as <- Ho%drive_get.
  apply act_bind_inv in H as (s1 & m1 & H1 & H). apply read_properties_inv in H1 as (-> & -> & Hl).
  injection H as <- <- <- <- <- <- <-. by split_and!.
Qed.

Lemma locate_total s t c klass o onto : answering s -> located s t c o klass onto ->
  locate host s = (s, Ok (t, (c, klass), (o, onto), index_all (content s) [] (strings_of (onto !! PROPERTIES)))).
Proof.
  intros Ha [Hd Ht Hc Hk Hp Ho Hl]. unfold locate, mbind, act_bind. cbn [reads]. rewrite Hd.
  destruct t as [|t1 t]; [done|]. destruct c as [|c1 c]; [done|]. cbn [reads]. rewrite (Ha _ _ Hk), Hp. cbn [reads].
  rewrite (Ha _ _ Ho). by rewrite read_properties_total.
Qed.

(** Saving one property of a resource. *)
Lemma save_one s x k v s' r : save host s x [(k, Some v)] = (s', Ok tt) -> content s !! x = Some r ->
  content s' !! x = Some (<[k := v]> r) /\ forall y, y <> x -> content s' !! y = content s !! y.
Proof.
  intros H Hr. rewrite (drive_save _ _ _ _ _ H Hr). cbn. split; [apply lookup_insert_eq|].
  intros y Hy. by apply lookup_insert_ne.
Qed.

Lemma strings_of_texts (l : list jstr) : strings_of (Some (OArr (map OStr l))) = l.
Proof. unfold strings_of. cbn [elements_of]. induction l as [|x l IH]; [done|]. cbn. by rewrite IH. Qed.

(** At most the property [k] of resources changed. *)
Definition touched k s s' : Prop := forall y r, content s !! y = Some r ->
  exists r', content s' !! y = Some r' /\ forall k', k' <> k -> r' !! k' = r !! k'.

(** A list that is saved when there is something to add to it. *)
Lemma save_more s s' x k r old (more : list jstr) : content s !! x = Some r -> strings_of (r !! k) = old ->
  (match more with [] => mret tt | _ => writes (fun s => save host s x [(k, Some (OArr (map OStr (old ++ more))))]) end : act S string unit) s
    = (s', Ok tt) ->
  touched k s s' /\ (forall y, y <> x -> content s' !! y = content s !! y) /\
  exists r', content s' !! x = Some r' /\ strings_of (r' !! k) = old ++ more.
Proof.
  intros Hr <-. destruct more as [|y l].
  - intros [= <-]. split; [by intros z q Hq; exists q|]. split; [done|]. exists r. by rewrite app_nil_r.
  - intros H. destruct (save_one _ _ _ _ _ _ H Hr) as [Hx Hother]. split; [|split; [done|]].
    + intros z q Hq. destruct (decide (z = x)) as [->|Hne]; [|exists q; by rewrite Hother].
      rewrite Hr in Hq. injection Hq as <-. eexists. split; [exact Hx|]. intros k' Hk. by rewrite lookup_insert_ne.
    + eexists. split; [exact Hx|]. by rewrite lookup_insert_eq, strings_of_texts.
Qed.

(** A field that is bound in a drive: its property is listed by the ontology
    and has its short name and datatype. *)
Definition held s onto (p : jstr * Field) (q : jstr * jstr) : Prop :=
  q.1 = p.1 /\ q.2 ∈ strings_of (onto !! PROPERTIES) /\
  exists r, content s !! q.2 = Some r /\ r !! SHORTNAME = Some (OStr (shortname p.2)) /\ r !! DATATYPE = Some (OStr (datatype p.2)).

Lemma fields_held s onto fs out : Forall2 (fields_in (index_all (content s) [] (strings_of (onto !! PROPERTIES)))) fs out ->
  Forall2 (held s onto) fs out.
Proof.
  intros H. eapply Forall2_impl; [exact H|]. intros p q [Hk Hg]. apply index_all_get in Hg as [Hl (r & ? & ? & ?)].
  split; [done|]. split; [done|]. by exists r.
Qed.

(** The app's table does not change. *)
Context (Hdata : forall s s', getData host s' = getData host s).

Lemma touched_trans k1 k2 s1 s2 s3 y r : touched k1 s1 s2 -> touched k2 s2 s3 -> content s1 !! y = Some r ->
  exists r', content s3 !! y = Some r' /\ forall k, k <> k1 -> k <> k2 -> r' !! k = r !! k.
Proof.
  intros H1 H2 (r1 & Hr1 & Hk1)%H1. apply H2 in Hr1 as (r2 & Hr2 & Hk2). exists r2. split; [done|].
  intros k Hn1 Hn2. by rewrite Hk2, Hk1.
Qed.

(** What there is after the steps of a first run. *)
Lemma located_again s s1 s2 s3 t c klass o onto added m : located s t c o klass onto ->
  made s (index_all (content s) [] (strings_of (onto !! PROPERTIES))) s1 added m ->
  touched PROPERTIES s1 s2 -> touched RECOMMENDS s2 s3 ->
  (exists r, content s2 !! o = Some r /\ strings_of (r !! PROPERTIES) = strings_of (onto !! PROPERTIES) ++ added) ->
  exists klass' onto', located s3 t c o klass' onto' /\ strings_of (onto' !! PROPERTIES) = strings_of (onto !! PROPERTIES) ++ added /\
    m = index_all (content s3) [] (strings_of (onto' !! PROPERTIES)).
Proof.
  intros [Hd Ht Hc Hk Hp Ho Hl] [Hold Hnew ->] T1 T2 (r2 & Hr2 & Hs2). set (l := strings_of (onto !! PROPERTIES)) in *.
  assert (Hs1 : forall y r, content s !! y = Some r -> content s1 !! y = Some r).
  { intros y r Hy. rewrite Hold; [done|]. intros Ha. destruct (Hnew y Ha) as [Hn _]. congruence. }
  destruct (touched_trans _ _ _ _ _ c klass T1 T2 (Hs1 _ _ Hk)) as (klass' & Hk' & Hkk).
  destruct (T2 o r2 Hr2) as (onto' & Ho' & Hoo).
  assert (El : strings_of (onto' !! PROPERTIES) = l ++ added) by (rewrite Hoo by by_decide; exact Hs2).
  exists klass', onto'. split; [split; try done|split; [done|]].
  - by rewrite (Hdata s).
  - rewrite Hkk by by_decide. done.
  - rewrite El. intros x [Hx|Hx]%elem_of_app.
    + destruct (Hl x Hx) as [r Hr]. destruct (touched_trans _ _ _ _ _ x r T1 T2 (Hs1 _ _ Hr)) as (r' & Hr' & _). by eexists.
    + destruct (Hnew x Hx) as [_ [r Hr]]. destruct (touched_trans _ _ _ _ _ x r T1 T2 Hr) as (r' & Hr' & _). by eexists.
  - rewrite El, index_all_app. rewrite (index_all_same (content s1) (content s3) _ added), (index_all_same (content s) (content s3) _ l); [done| |].
    + intros x Hx. destruct (Hl x Hx) as [r Hr]. destruct (touched_trans _ _ _ _ _ x r T1 T2 (Hs1 _ _ Hr)) as (r' & Hr' & Hrr).
      exists r, r'. split; [done|]. split; [done|]. split; apply Hrr; by_decide.
    + intros x Hx. destruct (Hnew x Hx) as [_ [r Hr]]. destruct (touched_trans _ _ _ _ _ x r T1 T2 Hr) as (r' & Hr' & Hrr).
      exists r, r'. split; [done|]. split; [done|]. split; apply Hrr; by_decide.
Qed.

(** A run of [ensureSchema] that returned, in its steps. *)
Lemma ensureSchema_inv s s' sch : ensureSchema host s = (s', Ok sch) -> exists klass onto s1 s2 added m,
  located s (table sch) (rowClass sch) (ontology sch) klass onto /\
  made s (index_all (content s) [] (strings_of (onto !! PROPERTIES))) s1 added m /\
  Forall2 (fields_in m) (ROW_FIELDS ++ SETTING_FIELDS ++ LOG_FIELDS) (row sch ++ Schema.settings sch ++ log sch) /\
  length (row sch) = length ROW_FIELDS /\ length (Schema.settings sch) = length SETTING_FIELDS /\
  touched PROPERTIES s1 s2 /\ touched RECOMMENDS s2 s' /\
  (forall y, y <> ontology sch -> content s2 !! y = content s1 !! y) /\ (forall y, y <> rowClass sch -> content s' !! y = content s2 !! y) /\
  (exists r, content s2 !! ontology sch = Some r /\ strings_of (r !! PROPERTIES) = strings_of (onto !! PROPERTIES) ++ added) /\
  (exists r, content s' !! rowClass sch = Some r /\ forall x, x ∈ NAME :: map snd (row sch) -> x ∈ strings_of (r !! RECOMMENDS)).
Proof.
  intros H. unfold ensureSchema in H. apply act_bind_inv in H as (s0 & [[[t [c klass]] [o onto]] m] & H0 & H).
  apply locate_inv in H0 as (-> & Hloc & ->). set (m0 := index_all _ _ _) in *.
  assert (Hmade : made s m0 s [] m0) by (split; [done|by intros x ?%elem_of_nil|done]).
  apply act_bind_inv in H as (s1 & [rows [a1 m1]] & H1 & H). eapply ensure_fields in H1 as (Hm1 & E1 & F1); [|exact Hmade].
  apply act_bind_inv in H as (s2 & [sets [a2 m2]] & H2 & H). eapply ensure_fields in H2 as (Hm2 & E2 & F2); [|exact Hm1].
  apply act_bind_inv in H as (s3 & [logs [a3 m3]] & H3 & H). eapply ensure_fields in H3 as (Hm3 & E3 & F3); [|exact Hm2].
  cbn [fst snd] in H. apply act_bind_inv in H as (s4 & [] & H4 & H). apply act_bind_inv in H as (s5 & [] & H5 & H). injection H as <- <-.
  pose proof Hloc as [_ _ _ Hk _ Ho _]. destruct Hm3 as [Hold Hnew Hidx].
  assert (Hs3 : forall y r, content s !! y = Some r -> content s3 !! y = Some r).
  { intros y r Hy. rewrite Hold; [done|]. intros Ha. destruct (Hnew y Ha) as [Hn _]. congruence. }
  apply (save_more _ _ _ _ _ _ _ (Hs3 _ _ Ho) eq_refl) in H4 as (T4 & O4 & R4).
  destruct (T4 c klass (Hs3 _ _ Hk)) as (k4 & Hk4 & Hkk).
  eapply save_more in H5 as (T5 & O5 & r5 & R5 & L5); [|exact Hk4|by rewrite Hkk by by_decide].
  exists klass, onto, s3, s4, a3, m3. cbn [table rowClass ontology row Schema.settings log]. split_and!; try done.
  - apply Forall2_app; [|apply Forall2_app; [|done]]; (eapply Forall2_impl; [eassumption|]); intros p q [Hkey Hg]; (split; [done|]); auto.
  - symmetry. by eapply Forall2_length.
  - symmetry. by eapply Forall2_length.
  - exists r5. split; [done|]. intros x Hx. rewrite L5. apply elem_of_app.
    destruct (bool_decide (x ∈ strings_of (klass !! RECOMMENDS))) eqn:E; [left; by apply bool_decide_eq_true in E|right].
    rewrite list_elem_of_In, List.filter_In, <-list_elem_of_In. by rewrite E.
Qed.

(** C34 (functional). After a run that returns, the app has its schema: every
    field is a property that the ontology lists, with the field's short name
    and datatype, the row class recommends the name and all columns, and no other
    resource changed.  The schema settles: on a host that can be read, both
    finding it and ensuring it again return the same one and write nothing. *)
Theorem ensureSchema_settles s s' sch : ensureSchema host s = (s', Ok sch) ->
  exists klass onto, content s' !! rowClass sch = Some klass /\ content s' !! ontology sch = Some onto /\
    Forall2 (held s' onto) (ROW_FIELDS ++ SETTING_FIELDS ++ LOG_FIELDS) (row sch ++ Schema.settings sch ++ log sch) /\
    (forall x, x ∈ NAME :: map snd (row sch) -> x ∈ strings_of (klass !! RECOMMENDS)) /\
    (forall x r, content s !! x = Some r -> x <> rowClass sch -> x <> ontology sch -> content s' !! x = Some r) /\
    (answering s' -> findSchema host s' = (s', Ok sch) /\ ensureSchema host s' = (s', Ok sch)).
Proof.
  intros H. destruct (ensureSchema_inv _ _ _ H) as (k0 & on0 & s1 & s2 & added & m & Hloc & Hmade & HF & L1 & L2 & T1 & T2 & O1 & O2 & R1 & rc & Hrc & Hrec).
  destruct (located_again _ _ _ _ _ _ _ _ _ _ _ Hloc Hmade T1 T2 R1) as (klass & onto & Hloc' & El & ->).
  pose proof Hloc' as [_ _ _ Hk _ Ho _]. rewrite Hrc in Hk. injection Hk as <-. exists rc, onto.
  split; [done|]. split; [done|]. split; [by apply fields_held|]. split; [done|]. split.
  { intros x r Hx Hxc Hxo. rewrite O2, O1 by done. destruct Hmade as [Hold Hnew _]. rewrite Hold; [done|].
    intros Ha. destruct (Hnew x Ha) as [Hn _]. congruence. }
  intros Ha. pose proof (locate_total _ _ _ _ _ _ Ha Hloc') as Hl. set (m := index_all _ _ _) in *.
  apply Forall2_app_inv in HF as [F1 F23]; [|done]. apply Forall2_app_inv in F23 as [F2 F3]; [|done]. split.
  - unfold findSchema, mbind, act_bind. rewrite Hl, !(bind_fields m _ _ F1), (bind_fields m _ _ F2), (bind_fields m _ _ F3). by destruct sch.
  - unfold ensureSchema, mbind, act_bind. rewrite Hl, (ensure_again _ _ _ _ _ [] F1). cbn [fst snd].
    rewrite (ensure_again _ _ _ _ _ [] F2). cbn [fst snd]. rewrite (ensure_again _ _ _ _ _ [] F3). cbn [fst snd]. cbn [mret act_ret].
    rewrite filter_none; [by destruct sch|]. intros x Hx. rewrite bool_decide_true; [done|]. by apply Hrec.
Qed.
End SchemaExact.

Module Demo.
(** A row class whose ontology has one of the fields already. *)
Definition at_ (k : string) : jstr := HostStore.Demo.subject (js k).
Abbreviation host := (HostStore.Demo.host unit).
#[export] Instance demo_drive : Drive host HostStore.Demo.content.
Proof. apply HostStore.Demo.host_drive. Qed.

Definition drive (billable : jstr) : unit * gmap (list Z) Props := (tt,
  <[js "row" := {[ PARENT := OStr (at_ "onto") ]}]>
  (<[js "onto" := {[ PROPERTIES := OArr [OStr (at_ "p")] ]}]>
   {[ js "p" := <[SHORTNAME := OStr (js "billable")]> {[ DATATYPE := OStr billable ]} ]})).

Lemma drive_answering s : answering host HostStore.Demo.content s.
Proof. intros x r (k & -> & Hk)%lookup_kmap_Some; [|apply _]. cbn. by rewrite Hk. Qed.

Lemma ensureSchema_settles_witness : exists s sch, ensureSchema host (drive boolean_type) = (s, Ok sch) /\
  jget (js "billable") (row sch) = Some (at_ "p") /\ ensureSchema host s = (s, Ok sch).
Proof.
  assert (C : match ensureSchema host (drive boolean_type) with
              | (_, Ok sch) => jget (js "billable") (row sch) = Some (at_ "p")
              | _ => False
              end) by (vm_compute; reflexivity).
  pose proof (fun s sch => ensureSchema_settles host HostStore.Demo.content (fun _ _ => eq_refl) (drive boolean_type) s sch) as H.
  destruct (ensureSchema host (drive boolean_type)) as [s [sch|e]]; [|by destruct C]. exists s, sch. split; [reflexivity|]. split; [exact C|].
  destruct (H s sch eq_refl) as (klass & onto & _ & _ & _ & _ & _ & Hagain). exact (proj2 (Hagain (drive_answering s))).
Defined.

(** A run that throws at a field of another type has made the fields before
    it, and lists none of them: the next run makes them again. *)
Example made_again :
  let run s := ensureSchema host s in
  let size s := length (map_to_list (snd s)) in
  let s1 := (run (drive string_type)).1 in
  size (drive string_type) = 3%nat /\ size s1 = 6%nat /\ size (run s1).1 = 9%nat /\ (run s1).2 = Err (other_datatype (field "billable" "Billable" boolean_type EmptyString)).
Proof. by vm_compute. Qed.
End Demo.
