(* ===== verification/JsonParse.v ===== *)
(** * [JSON.parse]

    The parser of ECMA-404 as JavaScript runs it, on the values of [Json]: a
    number with a fraction or an exponent is out of the model, so it does not
    parse here.  The recursion is on the nesting of values, for which the length
    of the text is enough fuel.  What [JSON.stringify] writes is read back. *)
From S2P Require Import Prelude Text Collections Json.
Local Open Scope Z_scope.

Definition is_json_space (c : Z) : bool := (c =? 32) || (c =? 9) || (c =? 10) || (c =? 13).
Definition skip (s : jstr) : jstr := (span is_json_space s).2.

(** The value of a hexadecimal digit. *)
Definition hex_of (c : Z) : option Z :=
  if is_digit c then Some (c - 48)
  else if (97 <=? c) && (c <=? 102) then Some (c - 87)
  else if (65 <=? c) && (c <=? 70) then Some (c - 55)
  else None.

(** The escapes of one character. *)
Definition unescape (c : Z) : option Z :=
  if (c =? 34) || (c =? 92) || (c =? 47) then Some c
  else if c =? 98 then Some 8 else if c =? 102 then Some 12 else if c =? 110 then Some 10
  else if c =? 114 then Some 13 else if c =? 116 then Some 9 else None.

(** The rest of a string after its opening quote. *)
Fixpoint parse_units (s : jstr) : option (jstr * jstr) :=
  match s with
  | [] => None
  | c :: s =>
      if c =? 34 then Some ([], s)
      else if c =? 92 then
        match s with
        | e :: s =>
            if e =? 117 then
              match s with
              | a :: b :: c :: d :: s =>
                  a ← hex_of a; b ← hex_of b; c ← hex_of c; d ← hex_of d;
                  t ← parse_units s; Some ((a * 4096 + b * 256 + c * 16 + d) :: t.1, t.2)
              | _ => None
              end
            else x ← unescape e; t ← parse_units s; Some (x :: t.1, t.2)
        | [] => None
        end
      else if c <? 32 then None
      else t ← parse_units s; Some (c :: t.1, t.2)
  end.

Definition parse_string (s : jstr) : option (jstr * jstr) :=
  match s with c :: s => if c =? 34 then parse_units s else None | [] => None end.

(** Digits without a superfluous zero, and no fraction or exponent after them. *)
Definition parse_natural (s : jstr) : option (Z * jstr) :=
  let '(digits, rest) := span is_digit s in
  match digits with
  | [] => None
  | [_] | _ :: _ =>
      if (1 <? len digits) && (match digits with d :: _ => d =? 48 | [] => false end) then None
      else match rest with
           | c :: _ => if (c =? 46) || (c =? 101) || (c =? 69) then None else Some (parse_dec digits, rest)
           | [] => Some (parse_dec digits, rest)
           end
  end.

Definition parse_number (s : jstr) : option (Z * jstr) :=
  match s with
  | c :: s' => if c =? 45 then t ← parse_natural s'; Some (- t.1, t.2) else parse_natural s
  | [] => None
  end.

(** Items separated by commas, up to a closing character, at least one. *)
Fixpoint parse_items {A} (item : jstr -> option (A * jstr)) (close : Z) (n : nat) (s : jstr) : option (list A * jstr) :=
  match n with
  | O => None
  | S n =>
      t ← item s;
      match skip t.2 with
      | c :: r =>
          if c =? close then Some ([t.1], r)
          else if c =? 44 then u ← parse_items item close n r; Some (t.1 :: u.1, u.2)
          else None
      | [] => None
      end
  end.

(** An array or object after its opening character. *)
Definition parse_group {A} (item : jstr -> option (A * jstr)) (close : Z) (n : nat) (s : jstr) : option (list A * jstr) :=
  match skip s with
  | c :: r => if c =? close then Some ([], r) else parse_items item close n s
  | [] => None
  end.

(** A property of an object. *)
Definition parse_entry (value : jstr -> option (Json * jstr)) (s : jstr) : option ((jstr * Json) * jstr) :=
  k ← parse_string (skip s);
  match skip k.2 with
  | c :: r => if c =? 58 then v ← value r; Some ((k.1, v.1), v.2) else None
  | [] => None
  end.

Definition strip (prefix s : jstr) : jstr := drop (length prefix) s.

Fixpoint parse_value (fuel : nat) (s : jstr) : option (Json * jstr) :=
  match fuel with
  | O => None
  | S fuel =>
      let s := skip s in
      match s with
      | [] => None
      | c :: r =>
          if c =? 34 then t ← parse_units r; Some (OStr t.1, t.2)
          else if c =? 91 then t ← parse_group (parse_value fuel) 93 (length r) r; Some (OArr t.1, t.2)
          else if c =? 123 then t ← parse_group (parse_entry (parse_value fuel)) 125 (length r) r; Some (OObj (jmap_of t.1), t.2)
          else if starts_with (js "null") s then Some (ONull, strip (js "null") s)
          else if starts_with (js "true") s then Some (OBool true, strip (js "true") s)
          else if starts_with (js "false") s then Some (OBool false, strip (js "false") s)
          else t ← parse_number s; Some (ONum t.1, t.2)
      end
  end.

Definition JSON_parse (s : jstr) : option Json :=
  t ← parse_value (S (length s)) s;
  match skip t.2 with [] => Some t.1 | _ => None end.


(** ** What is written is read back *)

(** Values whose objects have each key once. *)
Fixpoint Json_keyed (v : Json) : Prop :=
  match v with
  | OArr l => fold_right (fun v P => Json_keyed v /\ P) True l
  | OObj m => NoDup (jkeys m) /\ fold_right (fun p P => Json_keyed p.2 /\ P) True m
  | _ => True
  end.

Lemma hex_of_digit n : 0 <= n < 16 -> hex_of (hex_digit n) = Some n.
Proof.
  intros H. unfold hex_of, hex_digit, is_digit. destruct (Z.ltb_spec n 10).
  - rewrite (proj2 (Z.leb_le 48 (48 + n))), (proj2 (Z.leb_le (48 + n) 57)) by lia. cbn [andb]. f_equal. lia.
  - rewrite (proj2 (Z.leb_gt (87 + n) 57)), andb_false_r by lia.
    rewrite (proj2 (Z.leb_le 97 (87 + n))), (proj2 (Z.leb_le (87 + n) 102)) by lia. cbn [andb]. f_equal. lia.
Qed.

Lemma parse_unit l c r : 0 <= c -> escapes l c -> parse_units (l ++ r) = (t ← parse_units r; Some (c :: t.1, t.2)).
Proof.
  intros Hc (lone & Hl & ->). unfold quote_unit.
  repeat match goal with |- context [if c =? ?n then _ else _] => destruct (Z.eqb_spec c n) as [->|]; [reflexivity|] end.
  destruct ((c <? 32) || lone) eqn:E.
  - assert (0 <= c < 65536). { apply orb_true_iff in E as [E| ->]; [breflect; lia|]. specialize (Hl eq_refl). unfold is_surrogate in Hl. breflect. lia. }
    change (js "\u" ++ hex4 c) with ([92; 117] ++ hex4 c). unfold hex4. cbn [app parse_units]. 
    change (92 =? 34) with false. change (92 =? 92) with true. change (117 =? 117) with true. cbv iota.
    rewrite !hex_of_digit by dlia. cbn [mbind option_bind].
    replace (c / 4096 mod 16 * 4096 + c / 256 mod 16 * 256 + c / 16 mod 16 * 16 + c mod 16) with c by dlia. reflexivity.
  - breflect. cbn [app parse_units]. destruct (Z.eqb_spec c 34); [done|]. destruct (Z.eqb_spec c 92); [done|].
    destruct (Z.ltb_spec c 32); [lia|]. reflexivity.
Qed.

Lemma parse_quoted s r : Forall (fun c => 0 <= c) s -> parse_units (quote_units s ++ 34 :: r) = Some (s, r).
Proof.
  intros Hs. destruct (quote_units_escapes s) as (ts & -> & Hts). revert Hs. induction Hts as [|l c ts s Hl Hts IH]; intros Hs; [done|].
  forall_split. cbn [concat]. rewrite <-app_assoc, (parse_unit l c) by done. rewrite IH by done. reflexivity.
Qed.

(** What may follow a value: nothing, or a comma or the end of what it is in. *)
Definition follows (r : jstr) : Prop := match r with c :: _ => c = 44 \/ c = 93 \/ c = 125 | [] => True end.

Lemma dec_fuel_head fuel n : 0 < n < 10 ^ Z.of_nat fuel -> exists c t, dec_fuel fuel n = c :: t /\ c <> 48.
Proof.
  revert n. induction fuel as [|fuel IH]; intros n Hn; [cbn in Hn; lia|]. cbn [dec_fuel].
  rewrite Nat2Z.inj_succ, Z.pow_succ_r in Hn by lia. destruct (Z.ltb_spec n 10).
  - exists (48 + n), []. split; [done|lia].
  - destruct (IH (n / 10)) as (c & t & -> & Hc); [dlia|]. by exists c, (t ++ [48 + n mod 10]).
Qed.

Lemma dec_head n : 0 < n -> exists c t, dec n = c :: t /\ c <> 48.
Proof.
  intros H. apply dec_fuel_head. split; [done|]. rewrite Nat2Z.inj_succ, Z2Nat.id by apply Z.log2_nonneg.
  pose proof (Z.log2_spec n ltac:(lia)) as [_ Hlt]. eapply Z.lt_le_trans; [exact Hlt|]. apply Z.pow_le_mono_l. lia.
Qed.

Lemma parse_natural_dec n r : 0 <= n -> follows r -> parse_natural (dec n ++ r) = Some (n, r).
Proof.
  intros Hn Hr. destruct (dec_spec n Hn) as (Hp & Hd & Hne). unfold parse_natural.
  assert (span is_digit (dec n ++ r) = (dec n, r)) as ->.
  { destruct r as [|c r]; [rewrite app_nil_r; by apply span_end|]. apply span_stop; [done|].
    cbn in Hr. destruct Hr as [->|[->| ->]]; done. }
  assert ((1 <? len (dec n)) && match dec n with d :: _ => d =? 48 | [] => false end = false) as Hz.
  { destruct (Z.eq_dec n 0) as [->|]; [done|]. destruct (dec_head n) as (c & t & -> & Hc); [lia|].
    apply andb_false_iff. right. by apply Z.eqb_neq. }
  destruct (dec n) as [|d t]; [done|]. assert (match t with [] | _ => Some (n, r) end = Some (n, r)) as Ht by by destruct t.
  rewrite Hz, Hp. destruct r as [|c r]; [by destruct t|]. cbn in Hr. destruct Hr as [->|[->| ->]]; by destruct t.
Qed.

Lemma parse_number_dec n r : follows r -> parse_number (dec_signed n ++ r) = Some (n, r).
Proof.
  intros Hr. unfold dec_signed. destruct (Z.ltb_spec n 0) as [Hn|Hn].
  - cbn [app parse_number]. change (45 =? 45) with true. cbv iota. rewrite parse_natural_dec by (lia || done).
    cbn [mbind option_bind fst snd]. by rewrite Z.opp_involutive.
  - destruct (dec_spec n Hn) as (_ & Hd & Hne). pose proof (parse_natural_dec n r Hn Hr) as H.
    destruct (dec n) as [|d t]; [done|]. forall_split. cbn [app parse_number] in *.
    destruct (Z.eqb_spec d 45) as [->|]; [done|exact H].
Qed.

Lemma skip_same c r : is_json_space c = false -> skip (c :: r) = c :: r.
Proof. intros H. unfold skip. cbn. by rewrite H. Qed.

Section Items.
Context {A : Type} (text : A -> jstr) (item : jstr -> option (A * jstr)) (close : Z) (Hspace : is_json_space close = false)
  (Hcomma : close <> 44) (Hclose : close = 93 \/ close = 125).
Implicit Types (l : list A) (r : jstr).

Lemma parse_items_text n l x r : Forall (fun x => forall r, follows r -> item (text x ++ r) = Some (x, r)) (x :: l) ->
  (length l < n)%nat -> parse_items item close n (join_str [44] (map text (x :: l)) ++ close :: r) = Some (x :: l, r).
Proof using Hspace Hcomma Hclose.
  revert x n. induction l as [|y l IH]; intros x n H Hn; destruct n as [|n]; cbn [length] in Hn; try lia.
  - forall_split. cbn [map join_str parse_items]. match goal with Hx : forall r, follows r -> _ |- _ => rewrite Hx by (cbn; lia) end.
    cbn [mbind option_bind fst snd]. rewrite skip_same by done. by rewrite Z.eqb_refl.
  - apply Forall_cons in H as [Hx H]. cbn [map]. rewrite join_str_cons. cbn [concat map]. cbn [parse_items].
    rewrite <-!app_assoc, Hx by (cbn; lia). cbn [mbind option_bind fst snd app]. rewrite skip_same by done.
    destruct (Z.eqb_spec 44 close); [lia|]. rewrite Z.eqb_refl.
    specialize (IH y n H ltac:(lia)). cbn [map] in IH. rewrite join_str_cons in IH. rewrite <-app_assoc in IH. cbn [app] in IH. by rewrite IH.
Qed.

Lemma parse_group_text n l r : Forall (fun x => forall r, follows r -> item (text x ++ r) = Some (x, r)) l ->
  (forall x, x ∈ l -> exists c t, text x = c :: t /\ is_json_space c = false /\ c <> close) -> (length l <= n)%nat ->
  parse_group item close n (join_str [44] (map text l) ++ close :: r) = Some (l, r).
Proof using Hspace Hcomma Hclose.
  intros H Hhead Hn. destruct l as [|x l].
  - cbn. unfold parse_group. by rewrite skip_same, Z.eqb_refl.
  - destruct (Hhead x) as (c & t & Hx & Hs & Hc); [by left|].
    rewrite <-(parse_items_text n l x r) by (done || (cbn in Hn; lia)). unfold parse_group.
    cbn [map]. rewrite join_str_cons, Hx. cbn [app]. rewrite skip_same by done. destruct (Z.eqb_spec c close); done.
Qed.
End Items.

Lemma parse_string_text k r : Forall (fun c => 0 <= c) k -> parse_string (skip (quote k ++ r)) = Some (k, r).
Proof.
  intros H. unfold quote. cbn [app]. rewrite skip_same by done. cbn [parse_string]. rewrite Z.eqb_refl, <-app_assoc. by apply parse_quoted.
Qed.

Lemma parse_entry_text value p r : Forall (fun c => 0 <= c) p.1 -> value (json_text p.2 ++ r) = Some (p.2, r) ->
  parse_entry value (entry_text p ++ r) = Some (p, r).
Proof.
  intros Hk Hv. unfold parse_entry, entry_text. rewrite <-app_assoc, parse_string_text by done. cbn [mbind option_bind fst snd].
  change (js ":") with [58]. rewrite <-app_assoc. cbn [app]. rewrite skip_same by done. rewrite Z.eqb_refl, Hv. by destruct p.
Qed.

Lemma join_length (ts : list jstr) : Forall (fun t => t <> []) ts -> (length ts <= length (join_str [44%Z] ts))%nat.
Proof.
  intros H. induction H as [|t ts Ht H IH]; [done|]. destruct ts as [|u ts]; [destruct t; cbn; [done|lia]|].
  change (join_str [44%Z] (t :: u :: ts)) with (t ++ [44] ++ join_str [44%Z] (u :: ts)). rewrite !length_app. cbn [length] in *. lia.
Qed.

Lemma join_member (t : jstr) ts : t ∈ ts -> (length t <= length (join_str [44%Z] ts))%nat.
Proof.
  induction ts as [|u ts IH]; [by intros ?%elem_of_nil|]. intros [->|H]%elem_of_cons.
  - destruct ts; [done|]. change (join_str [44%Z] (u :: l :: ts)) with (u ++ [44] ++ join_str [44%Z] (l :: ts)). rewrite length_app. lia.
  - specialize (IH H). destruct ts as [|w ts]; [by apply elem_of_nil in H|].
    change (join_str [44%Z] (u :: w :: ts)) with (u ++ [44] ++ join_str [44%Z] (w :: ts)). rewrite !length_app. lia.
Qed.

Lemma json_text_nonempty v : exists c t, json_text v = c :: t /\ is_json_space c = false /\ c <> 93.
Proof.
  destruct (json_text_head v []) as (c & t & H & Hh). rewrite app_nil_r in H. exists c, t. split; [done|].
  destruct v as [|[]|n|s|l|m]; cbn in Hh; try (subst; done). destruct Hh as [->|Hd]; [done|].
  unfold is_digit in Hd. unfold is_json_space. lia.
Qed.

Lemma strip_app p r : strip p (p ++ r) = r.
Proof. apply drop_app_length. Qed.

(** What the parser does, by the first character. *)
Lemma parse_value_number fuel n r : follows r -> parse_value (S fuel) (dec_signed n ++ r) = Some (ONum n, r).
Proof.
  intros Hr. pose proof (parse_number_dec n r Hr) as Hn. destruct (json_text_head (ONum n) r) as (c & t & Ht & Hc).
  cbn [json_text Json_head] in *. rewrite Ht in *.
  assert (Hd : c = 45 \/ 48 <= c <= 57) by (destruct Hc as [->|Hd]; [by left|unfold is_digit in Hd; breflect; lia]).
  assert (Hs : is_json_space c = false) by (unfold is_json_space; lia).
  cbn [parse_value]. rewrite skip_same by done. change (js "null") with [110; 117; 108; 108].
  change (js "true") with [116; 114; 117; 101]. change (js "false") with [102; 97; 108; 115; 101]. cbn [starts_with].
  repeat match goal with |- context [c =? ?k] => destruct (Z.eqb_spec c k); [lia|] end.
  repeat match goal with |- context [?k =? c] => destruct (Z.eqb_spec k c); [lia|] end. cbn [andb]. by rewrite Hn.
Qed.

Lemma parse_value_list fuel t r (l : list Json) : parse_group (parse_value fuel) 93 (length (t ++ 93 :: r)) (t ++ 93 :: r) = Some (l, r) ->
  parse_value (S fuel) (91 :: t ++ 93 :: r) = Some (OArr l, r).
Proof. intros H. cbn [parse_value]. rewrite skip_same by done. change (91 =? 34) with false. change (91 =? 91) with true. cbv iota. by rewrite H. Qed.

Lemma parse_value_object fuel t r (m : fields_map) : NoDup (jkeys m) ->
  parse_group (parse_entry (parse_value fuel)) 125 (length (t ++ 125 :: r)) (t ++ 125 :: r) = Some (m, r) ->
  parse_value (S fuel) (123 :: t ++ 125 :: r) = Some (OObj m, r).
Proof.
  intros Hnd H. cbn [parse_value]. rewrite skip_same by done. change (123 =? 34) with false. change (123 =? 91) with false.
  change (123 =? 123) with true. cbv iota. rewrite H. cbn [mbind option_bind fst snd]. by rewrite jmap_of_nodup.
Qed.

Lemma parse_value_word fuel (w : string) v r : (w, v) ∈ [("null"%string, ONull); ("true"%string, OBool true); ("false"%string, OBool false)] ->
  parse_value (S fuel) (js w ++ r) = Some (v, r).
Proof.
  intros H. repeat (apply elem_of_cons in H as [[= -> ->]|H]; [reflexivity|]). by apply elem_of_nil in H.
Qed.

Lemma parse_value_text v : forall fuel r, Json_ok v -> Json_keyed v -> (length (json_text v) < fuel)%nat -> follows r ->
  parse_value fuel (json_text v ++ r) = Some (v, r).
Proof.
  induction v as [|b|n|s|l IH|m IH] using Json_nested_ind; intros fuel r Hok Hk Hf Hr; (destruct fuel as [|fuel]; [lia|]).
  - apply (parse_value_word _ "null"). by left.
  - destruct b; [apply (parse_value_word _ "true")|apply (parse_value_word _ "false")]; set_solver.
  - by apply parse_value_number.
  - cbn [json_text] in *. unfold quote. cbn [app parse_value]. rewrite skip_same by done. change (34 =? 34) with true. cbv iota.
    rewrite <-app_assoc. cbn [app]. cbn [Json_ok] in Hok. by rewrite parse_quoted.
  - cbn [json_text Json_ok Json_keyed] in *. rewrite fold_right_Forall in Hok, Hk. change (js "[") with [91] in *. change (js "]") with [93] in *.
    change (js ",") with [44] in *. cbn [app length] in *. rewrite length_app in Hf. cbn [length] in Hf. rewrite <-app_assoc. cbn [app].
    apply parse_value_list. apply (parse_group_text json_text); [done|done|by left| | |].
    + rewrite !Forall_forall in *. intros x Hx r' Hr'. apply IH; try by auto.
      pose proof (join_member (json_text x) (map json_text l) ltac:(by apply list_elem_of_fmap_2)). lia.
    + intros x _. apply json_text_nonempty.
    + rewrite length_app. pose proof (join_length (map json_text l)) as HL. rewrite length_map in HL.
      etransitivity; [apply HL|lia]. apply Forall_fmap, Forall_forall. intros x _. cbn. by destruct (json_text_nonempty x) as (c & t & -> & _).
  - cbn [json_text Json_ok Json_keyed] in *. destruct Hk as [Hnd Hk]. rewrite (fold_right_Forall entry_ok) in Hok. rewrite (fold_right_Forall (fun p : jstr * Json => Json_keyed p.2)) in Hk.
    change (js "{") with [123] in *. change (js "}") with [125] in *.
    change (map (fun p : jstr * Json => quote p.1 ++ js ":" ++ json_text p.2) m) with (map entry_text m) in *. change (js ",") with [44] in *.
    cbn [app length] in *. rewrite length_app in Hf. cbn [length] in Hf. rewrite <-app_assoc. cbn [app].
    apply parse_value_object; [done|]. apply (parse_group_text entry_text); [done|done|by right| | |].
    + rewrite !Forall_forall in *. intros x Hx r' Hr'. destruct (Hok x Hx) as [Hkey Hv]. apply parse_entry_text; [done|]. apply IH; try by auto.
      pose proof (join_member (entry_text x) (map entry_text m) ltac:(by apply list_elem_of_fmap_2)) as HL. unfold entry_text in HL at 1. rewrite !length_app in HL. lia.
    + intros x _. unfold entry_text, quote. cbn [app]. eauto.
    + rewrite length_app. pose proof (join_length (map entry_text m)) as HL. rewrite length_map in HL.
      etransitivity; [apply HL|lia]. apply Forall_fmap, Forall_forall. intros x _. done.
Qed.

(** [JSON.parse(JSON.stringify(v))] is [v]. *)
Lemma JSON_parse_text v : Json_ok v -> Json_keyed v -> JSON_parse (json_text v) = Some v.
Proof.
  intros Hok Hk. unfold JSON_parse. rewrite <-(app_nil_r (json_text v)) at 2. rewrite parse_value_text by (done || lia). reflexivity.
Qed.
