(* ===== verification/Civil.v ===== *)
(** * The order of civil dates

    ISO dates of four-digit years sort as text the way their days do. *)
From S2P Require Import Prelude Text Collections JsDate.
Local Open Scope Z_scope.

(** ** Digits of the same width *)

Lemma jcompare_digits a b r s : length a = length b ->
  Forall (fun c => is_digit c = true) a -> Forall (fun c => is_digit c = true) b ->
  jcompare (a ++ r) (b ++ s) = match parse_dec a ?= parse_dec b with Eq => jcompare r s | c => c end.
Proof.
  revert b. induction a as [|x a IH]; intros [|y b] Hl Ha Hb; try done. cbn [app jcompare].
  forall_split. injection Hl as Hl. rewrite !parse_dec_cons. assert (len a = len b) as Hn by (unfold len; congruence). rewrite Hn.
  pose proof (parse_dec_range a ltac:(done)). pose proof (parse_dec_range b ltac:(done)). rewrite Hn in *.
  assert (is_digit x = true /\ is_digit y = true) as [Hx Hy] by done. unfold is_digit in Hx, Hy. breflect.
  destruct (Z.compare_spec x y) as [->|Hxy|Hxy].
  - rewrite IH by done. destruct (Z.compare_spec (parse_dec a) (parse_dec b)) as [->|Hlt|Hlt].
    + by rewrite Z.compare_refl.
    + symmetry. destruct (Z.compare_spec ((y - 48) * 10 ^ len b + parse_dec a) ((y - 48) * 10 ^ len b + parse_dec b)); [lia|done|lia].
    + symmetry. destruct (Z.compare_spec ((y - 48) * 10 ^ len b + parse_dec a) ((y - 48) * 10 ^ len b + parse_dec b)); [lia|lia|done].
  - assert ((x - 48) * 10 ^ len b + parse_dec a < (y - 48) * 10 ^ len b + parse_dec b) as Hlt%Z.compare_lt_iff by nia. by rewrite Hlt.
  - assert ((y - 48) * 10 ^ len b + parse_dec b < (x - 48) * 10 ^ len b + parse_dec a) as Hlt%Z.compare_gt_iff by nia. by rewrite Hlt.
Qed.

Lemma jcompare_pad k n m r s : 0 <= n < 10 ^ Z.of_nat k -> 0 <= m < 10 ^ Z.of_nat k -> (0 < k)%nat ->
  jcompare (pad_dec k n ++ r) (pad_dec k m ++ s) = match n ?= m with Eq => jcompare r s | c => c end.
Proof.
  intros Hn Hm Hk. destruct (pad_dec_spec k n) as [En Dn]; [lia|]. destruct (pad_dec_spec k m) as [Em Dm]; [lia|].
  rewrite jcompare_digits by (rewrite ?pad_dec_length by done; done). by rewrite En, Em.
Qed.

(** ** Months in a row *)

(** The first day of the [k]-th month since year zero. *)
Definition month_start (k : Z) : Z := days_from_civil (k / 12) (k mod 12 + 1) 1.
Definition month_length (k : Z) : Z := days_in_month (k / 12) (k mod 12 + 1).

(** The days before a month, by its year counted from March. *)
Definition march_year (y : Z) : Z := y / 400 * 146097 + year_start (y mod 400) - 719468.

Lemma month_first y m : 0 <= m <= 11 ->
  days_from_civil y (m + 1) 1 =
    (if m <=? 1 then march_year (y - 1) + 306 + 31 * m
     else march_year y + match m with 2 => 0 | 3 => 31 | 4 => 61 | 5 => 92 | 6 => 122 | 7 => 153 | 8 => 184 | 9 => 214 | 10 => 245 | _ => 275 end).
Proof.
  intros H. unfold days_from_civil, day_of_era, day_of_year, march_year.
  assert (m = 0 \/ m = 1 \/ m = 2 \/ m = 3 \/ m = 4 \/ m = 5 \/ m = 6 \/ m = 7 \/ m = 8 \/ m = 9 \/ m = 10 \/ m = 11) as Hc by lia.
  repeat match type of Hc with
  | _ \/ _ => destruct Hc as [->|Hc]
  | _ => subst m
  end;
    repeat match goal with
    | |- context [?a <=? ?b] => let v := eval vm_compute in (a <=? b) in change (a <=? b) with v
    | |- context [(153 * ?a + 2) / 5] => let v := eval vm_compute in ((153 * a + 2) / 5) in change ((153 * a + 2) / 5) with v
    end; cbv iota; lia.
Qed.

Lemma march_year_succ y : march_year y = march_year (y - 1) + 365 + (if is_leap y then 1 else 0).
Proof.
  unfold march_year, year_start, is_leap.
  destruct (Z.eqb_spec (y mod 4) 0), (Z.eqb_spec (y mod 100) 0), (Z.eqb_spec (y mod 400) 0); cbn [andb orb negb]; dlia.
Qed.

Lemma month_start_succ k : month_start (k + 1) = month_start k + month_length k.
Proof.
  unfold month_start, month_length. assert (Hk : k = 12 * (k / 12) + k mod 12) by dlia. assert (Hm : 0 <= k mod 12 < 12) by dlia.
  revert Hk Hm. generalize (k / 12) as y, (k mod 12) as m. intros y m Hk Hm.
  assert ((k + 1) / 12 = (if m =? 11 then y + 1 else y)) as -> by (destruct (Z.eqb_spec m 11); dlia).
  assert ((k + 1) mod 12 = (if m =? 11 then 0 else m + 1)) as -> by (destruct (Z.eqb_spec m 11); dlia).
  pose proof (march_year_succ y) as Hy.
  assert (m = 0 \/ m = 1 \/ m = 2 \/ m = 3 \/ m = 4 \/ m = 5 \/ m = 6 \/ m = 7 \/ m = 8 \/ m = 9 \/ m = 10 \/ m = 11) as Hc by lia.
  repeat match type of Hc with
  | _ \/ _ => destruct Hc as [->|Hc]
  | _ => subst m
  end; rewrite !month_first by (cbn; lia); unfold days_in_month;
    repeat match goal with
    | |- context [?a + 1] => let v := eval vm_compute in (a + 1) in match v with Z.pos _ => change (a + 1) with v end
    | |- context [?a <=? ?b] => let v := eval vm_compute in (a <=? b) in change (a <=? b) with v
    | |- context [?a =? ?b] => let v := eval vm_compute in (a =? b) in change (a =? b) with v
    end; cbn [orb]; cbv iota; rewrite ?Z.add_simpl_r; try (destruct (is_leap y)); cbv iota in *; lia.
Qed.

Lemma month_start_mono k n : 0 <= n -> month_start k <= month_start (k + n).
Proof.
  intros Hn. apply natlike_ind with (x := n); [by rewrite Z.add_0_r| |done]. intros x Hx IH.
  replace (k + Z.succ x) with (k + x + 1) by lia. rewrite month_start_succ.
  unfold month_length. pose proof (days_in_month_range ((k + x) / 12) ((k + x) mod 12 + 1)). lia.
Qed.

Lemma days_from_civil_month y m d : 1 <= m <= 12 -> days_from_civil y m d = month_start (12 * y + (m - 1)) + (d - 1).
Proof.
  intros Hm. unfold month_start. assert ((12 * y + (m - 1)) / 12 = y) as -> by dlia.
  assert ((12 * y + (m - 1)) mod 12 + 1 = m) as -> by dlia. unfold days_from_civil, day_of_era, day_of_year. lia.
Qed.

Lemma days_from_civil_lt y m d y' m' d' : valid_civil y m d = true -> valid_civil y' m' d' = true ->
  12 * y + m < 12 * y' + m' -> days_from_civil y m d < days_from_civil y' m' d'.
Proof.
  intros H H' Hlt. unfold valid_civil in H, H'. breflect. rewrite !days_from_civil_month by lia.
  pose proof (month_start_mono (12 * y + (m - 1) + 1) (12 * y' + m' - (12 * y + m) - 1) ltac:(lia)) as Hmono.
  rewrite month_start_succ in Hmono. unfold month_length in Hmono.
  assert ((12 * y + (m - 1)) / 12 = y) as E1 by dlia. assert ((12 * y + (m - 1)) mod 12 + 1 = m) as E2 by dlia. rewrite E1, E2 in Hmono.
  replace (12 * y + (m - 1) + 1 + (12 * y' + m' - (12 * y + m) - 1)) with (12 * y' + (m' - 1)) in Hmono by lia. lia.
Qed.

Lemma days_compare y m d y' m' d' : valid_civil y m d = true -> valid_civil y' m' d' = true ->
  (days_from_civil y m d ?= days_from_civil y' m' d')
  = match y ?= y' with Eq => match m ?= m' with Eq => d ?= d' | c => c end | c => c end.
Proof.
  intros H H'. assert (V := H). assert (V' := H'). unfold valid_civil in V, V'. breflect.
  pose proof (days_from_civil_lt y m d y' m' d' H H') as Hlt. pose proof (days_from_civil_lt y' m' d' y m d H' H) as Hgt.
  destruct (Z.compare_spec y y') as [->|Hy|Hy]; [|apply Z.compare_lt_iff, Hlt; lia|apply Z.compare_gt_iff, Hgt; lia].
  destruct (Z.compare_spec m m') as [->|Hm|Hm]; [|apply Z.compare_lt_iff, Hlt; lia|apply Z.compare_gt_iff, Hgt; lia].
  rewrite !days_from_civil_month by lia. destruct (Z.compare_spec d d') as [->|Hd|Hd].
  - apply Z.compare_refl.
  - apply Z.compare_lt_iff. lia.
  - apply Z.compare_gt_iff. lia.
Qed.

(** ** Dates as text *)

Lemma iso_date_units y m d : 0 <= y <= 9999 -> iso_date y m d = pad_dec 4 y ++ 45 :: pad_dec 2 m ++ 45 :: pad_dec 2 d.
Proof. intros Hy. unfold iso_date. by rewrite (proj2 (Z.leb_le 0 y)), (proj2 (Z.leb_le y 9999)) by lia. Qed.

Lemma iso_date_order y m d y' m' d' : 0 <= y <= 9999 -> 0 <= y' <= 9999 ->
  valid_civil y m d = true -> valid_civil y' m' d' = true ->
  jltb (iso_date y m d) (iso_date y' m' d') = (days_from_civil y m d <? days_from_civil y' m' d').
Proof.
  intros Hy Hy' V V'. unfold Z.ltb. rewrite (days_compare y m d y' m' d' V V'), !iso_date_units by done.
  unfold valid_civil in V, V'. breflect. pose proof (days_in_month_range y m). pose proof (days_in_month_range y' m'). unfold jltb.
  rewrite jcompare_pad by (cbn; lia). destruct (y ?= y'); [|done..]. cbn [jcompare]. rewrite Z.compare_refl.
  rewrite jcompare_pad by (cbn; lia). destruct (m ?= m'); [|done..]. cbn [jcompare]. rewrite Z.compare_refl.
  rewrite <-(app_nil_r (pad_dec 2 d)), <-(app_nil_r (pad_dec 2 d')), jcompare_pad by (cbn; lia). by destruct (d ?= d').
Qed.
