(* ===== verification/CalendarAdapter.v ===== *)
(** * Google Calendar: events, previews and edits

    Models [src/integrations/calendar/adapter.ts]: what an event is for the app,
    the preview that compares a whole calendar with the app's cards, and the
    conditional edits sent back.

    What Google answers is JSON of any shape, so an event and a projection of
    one are values of [Json]; a [TypeError] is what reading a property of
    [undefined] or [null] throws.  [reconcileRecord] is imported from the host's
    library, which is not part of the repository: it is a parameter, of which
    the theorems use the three-way merge its callers describe ([ThreeWay]).
    [Date.parse] of text that is not in the ECMAScript format is [other]. *)
From S2P Require Import Prelude Text Collections JsDate Civil Json JsonParse Uri Reconcile HostStore.
Local Open Scope Z_scope.

Abbreviation Side := (SyncRecord (V := Json)).

(** ** Exceptions *)

(* src: integrations/calendar/adapter.ts 82-88 StaleEventError *)
Inductive Failure :=
| StaleEventError (id : jstr)
| UncertainWriteError (id : jstr) (cause : string)
| Failure_ (message : jstr)
| StatusError (message : jstr) (status : Z) (retryAfter detail : option jstr).

Definition fail {A} (message : string) : res Failure A := Err (Failure_ (js message)).
Definition TypeError {A} : res Failure A := fail "TypeError".
Definition URIError {A} : res Failure A := fail "URI malformed".

(** [v.k], and [v?.k] is [omember]. *)
Definition at_ (k : string) (v : option Json) : res Failure (option Json) :=
  match v with None | Some ONull => TypeError | Some v => Ok (member (js k) v) end.

Definition encode (s : jstr) : res Failure jstr := match encodeURIComponent s with Some e => Ok e | None => URIError end.

(** [v?.length]. *)
Definition length_of (v : option Json) : option Json :=
  match v with
  | Some (OArr l) => Some (ONum (len l))
  | Some (OStr s) => Some (ONum (len s))
  | _ => omember (js "length") v
  end.

(** [String(v)] where [v] may be undefined. *)
Definition string_of (v : option Json) : jstr := match v with Some v => String_of v | None => js "undefined" end.

(** [typeof v === 'string'], with the text. *)
Definition text (v : option Json) : option jstr := match v with Some (OStr s) => Some s | _ => None end.

Definition is_some {A} (o : option A) : bool := match o with Some _ => true | None => false end.

(** ** Events and projections *)

(** [{title, description, location, start, end, allDay}]. *)
(* src: integrations/calendar/adapter.ts 32-39 Projection *)
Definition projection (title description location start end_ : Json) (allDay : bool) : Json :=
  OObj [(js "title", title); (js "description", description); (js "location", location);
        (js "start", start); (js "end", end_); (js "allDay", OBool allDay)].

(** [/^\d{4}-\d{2}-\d{2}/]: what follows. *)
Definition civil_prefix (s : jstr) : option jstr :=
  '(_, s) ← digits 4 s; s ← lit 45 s; '(_, s) ← digits 2 s; s ← lit 45 s; '(_, s) ← digits 2 s; Some s.

(** [/^\d{4}-\d{2}-\d{2}$/] *)
Definition civil_shape (s : jstr) : bool := match civil_prefix s with Some [] => true | _ => false end.

(** [/^\d{4}-\d{2}-\d{2}T.*(?:Z|[+-]\d{2}:\d{2})$/] *)
Definition offset_shape (s : jstr) : bool :=
  match civil_prefix s with
  | Some (84 :: r) =>
      all_dots r && (ends_with (js "Z") r || match zone (drop (length r - 6) r) with Some (_, []) => true | _ => false end)
  | _ => false
  end.

Section Adapter.
Context (other : jstr -> option Z).

(** [Date.parse(`${s}T00:00:00Z`)] *)
Definition midnight (s : jstr) : option Z := Date_parse other (s ++ js "T00:00:00Z").

(* src: integrations/calendar/adapter.ts 99-106 civilDate *)
Definition civilDate (value : option Json) : bool :=
  civil_shape (string_of value) &&
  match midnight (string_of value) with
  | Some time => match toISOString time with Some iso => strict_eq (Some (OStr (take 10 iso))) value | None => false end
  | None => false
  end.

(* src: integrations/calendar/adapter.ts 108-113 offsetDateTime *)
Definition offsetDateTime (value : option Json) : bool :=
  offset_shape (string_of value) && is_some (Date_parse other (string_of value)).

(** [event.recurrence?.length || event.recurringEventId]. *)
(* src: integrations/calendar/adapter.ts 119-119 project ! *)
Definition repeats (event : option Json) : res Failure bool :=
  recurrence ← at_ "recurrence" event;
  if truthy_json (length_of recurrence) then Ok true
  else instance ← at_ "recurringEventId" event; Ok (truthy_json instance).

(** The two dates, or date-times, of an interval that is valid. *)
(* src: integrations/calendar/adapter.ts 123-137 project ! *)
Definition all_day_interval (id : jstr) (start end_ : option Json) : res Failure (jstr * jstr) :=
  let invalid := Err (Failure_ (js "Calendar event " ++ id ++ js " has an invalid all-day interval")) in
  timed ← at_ "dateTime" start;
  if is_some timed then invalid
  else
    end_timed ← at_ "dateTime" end_;
    if is_some end_timed then invalid
    else
      from ← at_ "date" start;
      if negb (truthy_json from) || negb (civilDate from) then invalid
      else
        to ← at_ "date" end_;
        if negb (truthy_json to) || negb (civilDate to) then invalid
        else match text from, text to with
             | Some a, Some b => if jltb a b then Ok (a, b) else invalid
             | _, _ => invalid
             end.

(* src: integrations/calendar/adapter.ts 138-151 project ! *)
Definition timed_interval (id : jstr) (start end_ : option Json) : res Failure (jstr * jstr) :=
  let invalid := Err (Failure_ (js "Calendar event " ++ id ++ js " has an invalid timed interval")) in
  date ← at_ "date" start;
  if is_some date then invalid
  else
    end_date ← at_ "date" end_;
    if is_some end_date then invalid
    else
      from ← at_ "dateTime" start;
      match text from with
      | Some a =>
          if negb (offsetDateTime from) then invalid
          else
            to ← at_ "dateTime" end_;
            match text to with
            | Some b =>
                if negb (offsetDateTime to) || num_leb (Date_parse other b) (Date_parse other a) then invalid
                else Ok (a, b)
            | None => invalid
            end
      | None => invalid
      end.

(** The projection of an event; [None]: it is not for this app. *)
(* src: integrations/calendar/adapter.ts 115-161 project *)
Definition project (event : option Json) : res Failure (option Json) :=
  series ← repeats event;
  if series : bool then Ok None
  else
    status ← at_ "status" event;
    if strict_eq status (Some (OStr (js "cancelled"))) then Ok None
    else
      id ← at_ "id" event;
      match text id with
      | Some ((_ :: _) as id) =>
          start ← at_ "start" event;
          date ← at_ "date" start;
          let allDay := is_text date in
          end_ ← at_ "end" event;
          '(a, b) ← (if allDay then all_day_interval id start end_ else timed_interval id start end_);
          summary ← at_ "summary" event;
          description ← at_ "description" event;
          location ← at_ "location" event;
          let or_empty v := default (OStr []) (nullish v None) in
          Ok (Some (projection (or_empty summary) (or_empty description) (or_empty location) (OStr a) (OStr b) allDay))
      | _ => fail "Google returned an invalid event"
      end.

(* src: integrations/calendar/adapter.ts 163-184 validate *)
Definition validate (value : Json) : res Failure unit :=
  let v := Some value in
  title ← at_ "title" v;
  match text title with
  | Some t =>
      if bool_decide (trim t = []) then fail "Events require a non-empty title"
      else
        description ← at_ "description" v;
        location ← at_ "location" v;
        if negb (is_text description) || negb (is_text location) then fail "Description and location must be text"
        else
          allDay ← at_ "allDay" v;
          match allDay with
          | Some (OBool allDay) =>
              let valid := if allDay then civilDate else offsetDateTime in
              start ← at_ "start" v;
              end_ ← at_ "end" v;
              if negb (valid start) || negb (valid end_) then
                fail (if allDay then "All-day events need plain YYYY-MM-DD dates" else "Timed events need an explicit UTC offset")
              else
                let parseDate d := if allDay then midnight (string_of d) else Date_parse other (string_of d) in
                if num_leb (parseDate end_) (parseDate start) then fail "Event end must follow its start" else Ok tt
          | _ => fail "allDay must be a boolean"
          end
  | None => fail "Events require a non-empty title"
  end.
End Adapter.

(* src: integrations/calendar/adapter.ts 186-195 endpoint *)
Definition endpoint (calendarId : jstr) : res Failure jstr :=
  if bool_decide (calendarId = []) || existsb (fun c => bool_decide (c ∈ js "/?#")) calendarId
     || bool_decide (calendarId ∈ [js "."; js ".."])
  then fail "Calendar id must not contain path separators"
  else e ← encode calendarId; Ok (js "https://www.googleapis.com/calendar/v3/calendars/" ++ e ++ js "/events").

(** ** Requests *)

(** [ExternalIntent] and [ExternalReceipt] of the host's library. *)
Record ExternalIntent := mkIntent {
  i_operation : jstr; i_method : jstr; i_url : jstr; i_id : jstr;
  i_headers : list (jstr * jstr); i_body : option jstr
}.
Record ExternalReceipt := mkReceipt { r_status : Z; r_body : jstr }.

(* src: integrations/calendar/adapter.ts 94-97 headers *)
Definition headers : list (jstr * jstr) :=
  [(js "Authorization", js "secret:google-calendar"); (js "Content-Type", js "application/json")].

(* src: integrations/calendar/adapter.ts 262-269 parse *)
Definition parse (response : ExternalReceipt) : res Failure Json :=
  if (r_status response <? 200) || (300 <=? r_status response) then
    Err (Failure_ (js "Google Calendar returned " ++ dec_signed (r_status response)
      ++ js "; no checkpoint was advanced. Resolve access/reconnect before retrying."))
  else match JSON_parse (r_body response) with Some v => Ok v | None => fail "SyntaxError" end.

(* src: integrations/calendar/adapter.ts 271-287 request *)
Definition request (operation method : string) (url id : jstr) (body : option Json) (ifMatch : jstr) : ExternalIntent :=
  mkIntent (js operation) (js method) url id
    (if bool_decide (ifMatch = []) then headers else jset (js "If-Match") ifMatch headers)
    (json_text <$> body).

(** What has been made of the sync so far, and a row of the app. *)
Record Binding := mkBinding { b_local : jstr; b_baseline : Json }.
Record ConnectionState := mkState { s_revision : Z; s_records : list (jstr * Binding); s_cursor : option Json }.

(* src: integrations/calendar/adapter.ts 40-44 Card *)
Record Card := mkCard { c_subject : jstr; c_id : option jstr; c_value : Json }.

(* src: integrations/calendar/adapter.ts 45-49 Host *)
Record Host (T : Type) := mkHost {
  read : ExternalIntent -> act T Failure ExternalReceipt;
  cards : act T Failure (list Card);
  state : act T Failure ConnectionState
}.
Arguments read {T} _ _.
Arguments cards {T} _.
Arguments state {T} _.

(* src: integrations/calendar/adapter.ts 288-302 get *)
Definition get {T} (host : Host T) (root id : jstr) : act T Failure Json :=
  e ← lift (encode id);
  response ← read host (request "get" "GET" (root ++ js "/" ++ e) (js "read") None []);
  event ← lift (parse response);
  found ← lift (at_ "id" (Some event));
  if strict_eq found (Some (OStr id)) then mret event
  else lift (fail "Expected an event with the requested id").

(** ** The preview *)

(* src: integrations/calendar/adapter.ts 51-61 Change *)
Record Change := mkChange {
  ch_subject : option jstr; ch_id : option jstr; ch_local : option Json; ch_remote : option Json; ch_desired : Json;
  ch_etag : option jstr; ch_link : option jstr
}.

(* src: integrations/calendar/adapter.ts 66-76 Preview ! *)
Record Clash := mkClash {
  k_subject : option jstr; k_id : option jstr; k_fields : list jstr;
  k_local : option Json; k_remote : option Json; k_base : option Json; k_etag : option jstr
}.

(* src: integrations/calendar/adapter.ts 62-80 Preview *)
Record Preview := mkPreview {
  p_calendarId : jstr; p_revision : Z; p_changes : list Change; p_conflicts : list Clash; p_skipped : Z * Z
}.

(* src: integrations/calendar/adapter.ts 90-91 PAGE_SIZE *)
Definition PAGE_SIZE : Z := 250.
(* src: integrations/calendar/adapter.ts 92-92 MAX_PAGES *)
Definition MAX_PAGES : nat := 100.

(** [.replace(/\B(?=(\d{3})+$)/g, ',')]: a comma before every group of three digits. *)
Fixpoint thousands (s : jstr) : jstr :=
  match s with
  | [] => []
  | c :: t => c :: (if (Nat.eqb (length t mod 3) 0) && negb (Nat.eqb (length t) 0) then 44 :: thousands t else thousands t)
  end.

(** What the pages have given: [events], [etags], [links] and [skipped]. *)
(* src: integrations/calendar/adapter.ts 316-319 preview ! *)
Record Scan := mkScan {
  events : list (jstr * Json); etags : list (jstr * jstr); links : list (jstr * jstr); recurring : Z; cancelled : Z
}.
Definition no_scan : Scan := mkScan [] [] [] 0 0.

Definition is_https (s : jstr) : bool := starts_with (js "https://") s.

Section Preview.
Context (other : jstr -> option Z).

(* src: integrations/calendar/adapter.ts 337-351 preview ! *)
Definition scan_event (acc : Scan) (event : Json) : res Failure Scan :=
  let e := Some event in
  found ← project other e;
  match found with
  | Some value =>
      id ← at_ "id" e;
      etag ← at_ "etag" e;
      link ← at_ "htmlLink" e;
      let id := string_of id in
      Ok (mkScan (jset id value (events acc))
            (match text etag with Some t => jset id t (etags acc) | None => etags acc end)
            (match text link with Some l => if is_https l then jset id l (links acc) else links acc | None => links acc end)
            (recurring acc) (cancelled acc))
  | None =>
      series ← repeats e;
      Ok (if series : bool then mkScan (events acc) (etags acc) (links acc) (recurring acc + 1) (cancelled acc)
          else mkScan (events acc) (etags acc) (links acc) (recurring acc) (cancelled acc + 1))
  end.

Fixpoint scan_events (acc : Scan) (items : list Json) : res Failure Scan :=
  match items with [] => Ok acc | e :: items => acc ← scan_event acc e; scan_events acc items end.

(** The address of a page. *)
(* src: integrations/calendar/adapter.ts 328-330 preview ! *)
Definition page_url (root : jstr) (pageToken : option Json) : res Failure jstr :=
  token ← (if truthy_json pageToken then e ← encode (string_of pageToken); Ok (js "&pageToken=" ++ e) else Ok []);
  Ok (root ++ js "?singleEvents=false&showDeleted=true&maxResults=" ++ dec PAGE_SIZE ++ token).

(** The loop over pages, with [left] pages that may still be read of [maxPages]. *)
(* src: integrations/calendar/adapter.ts 316-354 preview ! *)
Fixpoint scan_pages {T} (host : Host T) (root : jstr) (maxPages left_ : nat) (acc : Scan) (pageToken : option Json)
    : act T Failure Scan :=
  match left_ with
  | O => lift (Err (Failure_ (js "Pilot supports at most " ++ thousands (dec (Z.of_nat maxPages * PAGE_SIZE)) ++ js " events per scan")))
  | S left_ =>
      url ← lift (page_url root pageToken);
      response ← read host (request "list" "GET" url (js "page-" ++ dec (Z.of_nat (maxPages - left_))) None []);
      page ← lift (parse response);
      items ← lift (at_ "items" (Some page));
      match items with
      | Some (OArr items) =>
          acc ← lift (scan_events acc items);
          let next := member (js "nextPageToken") page in
          if truthy_json next then scan_pages host root maxPages left_ acc next else mret acc
      | _ => lift (fail "Google Calendar event page must include an items array")
      end
  end.

(** [byId]. *)
(* src: integrations/calendar/adapter.ts 356-367 preview ! *)
Fixpoint index_cards (byId : list (jstr * Card)) (l : list Card) : res Failure (list (jstr * Card)) :=
  match l with
  | [] => Ok byId
  | card :: l =>
      _ ← validate other (c_value card);
      match c_id card with
      | Some id =>
          if has_key id byId then Err (Failure_ (js "Duplicate cards for event " ++ id))
          else index_cards (jset id card byId) l
      | None => index_cards byId l
      end
  end.

Context (reconcileRecord : Side -> Side -> Side -> SyncDecision (V := Json)).

(** A value as a record: the properties of an object. *)
Definition as_record (v : Json) : Side :=
  match v with OObj m => Rec m | ONull => Deleted | _ => Rec [] end.

(** [{...value, ...patch}] *)
Definition overlay (value : Json) (patch : list (jstr * option Json)) : Json :=
  OObj (fold_left write patch (entries_of (Some value))).

(** What the three sides of an event decide. *)
(* src: integrations/calendar/adapter.ts 390-422 preview ! *)
Definition decide_event (baseline : option Json) (card : option Card) (found : Scan) (id : jstr) (remote : Json)
    : res Failure (Change + Clash) :=
  let decision := reconcileRecord (from_option as_record Unseen baseline) (from_option (as_record ∘ c_value) Unseen card)
                    (as_record remote) in
  match conflicts decision with
  | _ :: _ =>
      Ok (inr (mkClash (c_subject <$> card) (Some id) (map property (conflicts decision)) (c_value <$> card) (Some remote)
                 (if truthy_json baseline then baseline else None) (jget id (etags found))))
  | [] =>
      let desired := overlay remote (d_remote decision) in
      _ ← validate other desired;
      Ok (inl (mkChange (c_subject <$> card) (Some id) (c_value <$> card) (Some remote) desired
                 (jget id (etags found)) (jget id (links found))))
  end.

(** The outcome for one event that was read. *)
(* src: integrations/calendar/adapter.ts 377-423 preview ! *)
Definition compare_event (st : ConnectionState) (byId : list (jstr * Card)) (found : Scan) (id : jstr) (remote : Json)
    : res Failure (Change + Clash) :=
  let binding := jget id (s_records st) in
  let card := jget id byId in
  match binding with
  | Some b =>
      if match card with Some c => negb (jeqb (b_local b) (c_subject c)) | None => true end
      then Ok (inr (mkClash (if bool_decide (b_local b = []) then None else Some (b_local b)) (Some id)
                      [js "Missing or rebound local card"] None None None None))
      else decide_event (Some (b_baseline b)) card found id remote
  | None => decide_event None card found id remote
  end.

(** What a card adds after the events. *)
(* src: integrations/calendar/adapter.ts 425-440 preview ! *)
Definition compare_card (found : Scan) (card : Card) : option (Change + Clash) :=
  match c_id card with
  | None => Some (inl (mkChange (Some (c_subject card)) None (Some (c_value card)) None (c_value card) None None))
  | Some id =>
      if has_key id (events found) then None
      else Some (inr (mkClash (Some (c_subject card)) (Some id)
                        [js "Event cancelled, recurring or inaccessible; no deletion inferred"] None None None None))
  end.

Fixpoint compare_events (st : ConnectionState) (byId : list (jstr * Card)) (found : Scan) (l : list (jstr * Json))
    : res Failure (list (Change + Clash)) :=
  match l with
  | [] => Ok []
  | (id, remote) :: l => o ← compare_event st byId found id remote; os ← compare_events st byId found l; Ok (o :: os)
  end.

Definition sum_lefts {A B} (l : list (A + B)) : list A := omap (fun o => match o with inl a => Some a | inr _ => None end) l.
Definition sum_rights {A B} (l : list (A + B)) : list B := omap (fun o => match o with inr b => Some b | inl _ => None end) l.

(* src: integrations/calendar/adapter.ts 356-443 preview ! *)
Definition compare (calendarId : jstr) (st : ConnectionState) (found : Scan) (l : list Card) : res Failure Preview :=
  byId ← index_cards [] l;
  outcomes ← compare_events st byId found (events found);
  let all := outcomes ++ omap (compare_card found) l in
  Ok (mkPreview calendarId (s_revision st) (sum_lefts all) (sum_rights all) (recurring found, cancelled found)).

(* src: integrations/calendar/adapter.ts 304-443 preview *)
Definition preview {T} (host : Host T) (calendarId : jstr) (maxPages : nat) : act T Failure Preview :=
  root ← lift (endpoint calendarId);
  st ← state host;
  if truthy_json (s_cursor st) then lift (fail "A saved sync is pending; resume it before previewing another run")
  else
    found ← scan_pages host root maxPages maxPages no_scan None;
    l ← cards host;
    lift (compare calendarId st found l).
End Preview.

(** ** Edits *)

(* src: integrations/calendar/adapter.ts 445-455 Edit *)
Record Edit := mkEdit { e_id : jstr; e_subject : option jstr; e_patch : list (jstr * option Json) }.

(* src: integrations/calendar/adapter.ts 457-459 eventTime *)
Definition eventTime (value : option Json) (allDay : bool) : option Json :=
  Some (OObj (match value with Some v => [(if allDay then js "date" else js "dateTime", v)] | None => [] end)).

(** The fields of Google's event, and what of them a projection is patched with. *)
(* src: integrations/calendar/adapter.ts 469-477 planEdit ! *)
Definition patch_fields (desired remote : Json) : list (jstr * option Json) :=
  let d k := member (js k) desired in
  let changed k := negb (strict_eq (d k) (member (js k) remote)) in
  let allDay := truthy_json (d "allDay"%string) in
  (if changed "title" then [(js "summary", d "title")] else [])
  ++ (if changed "description" then [(js "description", d "description")] else [])
  ++ (if changed "location" then [(js "location", d "location")] else [])
  ++ (if changed "start" || changed "allDay" then [(js "start", eventTime (d "start") allDay)] else [])
  ++ (if changed "end" || changed "allDay" then [(js "end", eventTime (d "end") allDay)] else []).

(* src: integrations/calendar/adapter.ts 461-481 planEdit *)
Definition planEdit (id : jstr) (desired remote : Json) (subject : option jstr) : option Edit :=
  match patch_fields desired remote with
  | [] => None
  | patch => Some (mkEdit id subject patch)
  end.

(** The object of a patch: [JSON.stringify] leaves an undefined value out. *)
Definition patch_json (patch : list (jstr * option Json)) : Json :=
  OObj (omap (fun p => (fun v => (p.1, v)) <$> p.2) patch).

(* src: integrations/calendar/adapter.ts 482-503 applyEdit *)
Definition applyEdit {T} (host : Host T) (root : jstr) (edit : Edit) (etag : jstr) : act T Failure Json :=
  id ← lift (encode (e_id edit));
  response ← read host (request "update" "PATCH" (root ++ js "/" ++ id ++ js "?sendUpdates=none") (js "write")
                          (Some (patch_json (e_patch edit))) etag);
  if r_status response =? 412 then lift (Err (StaleEventError (e_id edit)))
  else lift (parse response).

(** ** The interval of an event *)

Lemma is_text_Some v : is_text v = true <-> exists s, v = Some (OStr s).
Proof. destruct v as [[| | | | |]|]; cbn; naive_solver. Qed.

Section Intervals.
Context (other : jstr -> option Z).
Implicit Types (v start stop event remote desired : option Json) (a b s id : jstr).

(** The instant of a text of a projection. *)
Definition instant (allDay : bool) s : option Z := if allDay then midnight other s else Date_parse other s.

(** An event's [start] or [end] that says the text. *)
Definition says (allDay : bool) s v : Prop :=
  at_ "date" v = Ok (if allDay then Some (OStr s) else None) /\ at_ "dateTime" v = Ok (if allDay then None else Some (OStr s)).

Definition valid_end (allDay : bool) s : Prop :=
  (if allDay then civilDate other else offsetDateTime other) (Some (OStr s)) = true.

Definition valid_interval (allDay : bool) a b : Prop :=
  valid_end allDay a /\ valid_end allDay b /\ num_ltb (instant allDay a) (instant allDay b) = true.

Definition interval_of (allDay : bool) id start stop : res Failure (jstr * jstr) :=
  if allDay then all_day_interval other id start stop else timed_interval other id start stop.

Lemma iso_date_take y m d r : 0 <= y <= 9999 -> valid_civil y m d = true -> take 10 (iso_date y m d ++ r) = iso_date y m d.
Proof.
  intros Hy V. unfold valid_civil in V. breflect. pose proof (days_in_month_range y m).
  assert (length (iso_date y m d) = 10%nat) as <-; [|apply take_app_length]. rewrite iso_date_units by done.
  rewrite !length_app. cbn [length]. rewrite !length_app. cbn [length]. by rewrite !pad_dec_length by (cbn; lia).
Qed.

Lemma civilDate_spec s : civilDate other (Some (OStr s)) = true ->
  exists y m d, 0 <= y <= 9999 /\ valid_civil y m d = true /\ s = iso_date y m d /\
    midnight other s = Some (days_from_civil y m d * DAY_MS).
Proof.
  unfold civilDate. cbn [string_of String_of]. intros [Hs H]%andb_true_iff.
  destruct (midnight other s) as [t|] eqn:Em; [|done]. unfold toISOString in H. destruct (MAX_TIME <? Z.abs t); [done|].
  pose proof (days_from_civil_from_days (t / DAY_MS)) as Hd. destruct (civil_from_days (t / DAY_MS)) as [[y m] d]. destruct Hd as [V _].
  cbn [strict_eq] in H. apply bool_decide_eq_true in H. assert (Hy : 0 <= y <= 9999).
  { destruct (decide (0 <= y <= 9999)) as [|Hn]; [done|exfalso]. unfold iso_date in H.
    assert ((0 <=? y) && (y <=? 9999) = false) as E by lia. rewrite E in H. cbn [app take] in H. rewrite <-H in Hs.
    unfold civil_shape, civil_prefix, digits in Hs. cbn [take forallb] in Hs. destruct (y <? 0); by rewrite andb_false_r in Hs. }
  rewrite iso_date_take in H by done. subst s. exists y, m, d. split_and!; try done; try lia.
  rewrite <-Em. unfold midnight, Date_parse. rewrite parse_iso_date by done. change (js "T00:00:00Z") with ([84; 48; 48; 58; 48; 48; 58; 48; 48; 90]).
  cbn -[fields_value]. unfold fields_value. rewrite V. cbn [andb]. unfold time_value. f_equal. lia.
Qed.

(** A day of the calendar has its form and a time value; not conversely, where
    [Date.parse] takes 30 February. *)
Lemma civilDate_shape s : civilDate other (Some (OStr s)) = true -> civil_shape s && is_some (midnight other s) = true.
Proof. unfold civilDate. cbn [string_of String_of]. destruct (civil_shape s); [|done]. by destruct (midnight other s). Qed.

(** All-day intervals are ordered as text, timed ones as instants: either way
    the end is after the start. *)
Lemma civil_order a b : civilDate other (Some (OStr a)) = true -> civilDate other (Some (OStr b)) = true ->
  jltb a b = num_ltb (midnight other a) (midnight other b).
Proof.
  intros (y & m & d & Hy & V & -> & ->)%civilDate_spec (y' & m' & d' & Hy' & V' & -> & ->)%civilDate_spec.
  rewrite iso_date_order by done. cbn. unfold DAY_MS. lia.
Qed.

Lemma num_ltb_leb x y : is_some x = true -> is_some y = true -> num_ltb x y = negb (num_leb y x).
Proof. destruct x, y; cbn; try done; lia. Qed.

Lemma valid_instant allDay s : valid_end allDay s -> is_some (instant allDay s) = true.
Proof.
  destruct allDay; unfold valid_end, instant; [by intros (y & m & d & _ & _ & _ & ->)%civilDate_spec|].
  unfold offsetDateTime. cbn [string_of String_of]. by intros [_ H]%andb_true_iff.
Qed.

Lemma all_day_interval_spec id start stop a b : all_day_interval other id start stop = Ok (a, b) <->
  says true a start /\ says true b stop /\ valid_interval true a b.
Proof.
  unfold says, valid_interval, valid_end, instant. split.
  - unfold all_day_interval. destruct (at_ "dateTime" start) as [[?|]|] eqn:E1; try done. cbn [mbind res_bind is_some].
    destruct (at_ "dateTime" stop) as [[?|]|] eqn:E2; try done. cbn [mbind res_bind is_some].
    destruct (at_ "date" start) as [from|] eqn:E3; [|done]. cbn [mbind res_bind].
    destruct (negb (truthy_json from) || negb (civilDate other from)) eqn:E4; [done|].
    destruct (at_ "date" stop) as [to|] eqn:E5; [|done]. cbn [mbind res_bind].
    destruct (negb (truthy_json to) || negb (civilDate other to)) eqn:E6; [done|]. breflect.
    destruct from as [[| | |x| |]|], to as [[| | |y| |]|]; cbn [text]; try done. destruct (jltb x y) eqn:El; [|done].
    intros [= <- <-]. split_and!; try done. by rewrite <-civil_order.
  - intros ([E1 E2] & [E3 E4] & Ha & Hb & Hlt). unfold all_day_interval. rewrite E1, E2, E3, E4. cbn [mbind res_bind is_some text].
    rewrite Ha, Hb. rewrite <-civil_order in Hlt by done. rewrite Hlt.
    destruct a; [by destruct (civilDate_spec _ Ha) as (y & m & d & Hy & V & E & _); rewrite iso_date_units in E|].
    destruct b; [by destruct (civilDate_spec _ Hb) as (y & m & d & Hy & V & E & _); rewrite iso_date_units in E|]. done.
Qed.

Lemma timed_interval_spec id start stop a b : timed_interval other id start stop = Ok (a, b) <->
  says false a start /\ says false b stop /\ valid_interval false a b.
Proof.
  unfold says, valid_interval, valid_end, instant. split.
  - unfold timed_interval. destruct (at_ "date" start) as [[?|]|] eqn:E1; try done. cbn [mbind res_bind is_some].
    destruct (at_ "date" stop) as [[?|]|] eqn:E2; try done. cbn [mbind res_bind is_some].
    destruct (at_ "dateTime" start) as [from|] eqn:E3; [|done]. cbn [mbind res_bind].
    destruct from as [[| | |x| |]|]; cbn [text]; try done. destruct (offsetDateTime other (Some (OStr x))) eqn:E4; [|done]. cbn [negb].
    destruct (at_ "dateTime" stop) as [to|] eqn:E5; [|done]. cbn [mbind res_bind].
    destruct to as [[| | |y| |]|]; cbn [text]; try done.
    destruct (negb (offsetDateTime other (Some (OStr y))) || num_leb (Date_parse other y) (Date_parse other x)) eqn:E6; [done|].
    breflect. intros [= <- <-]. split_and!; try done.
    rewrite num_ltb_leb by (by apply (valid_instant false)). by rewrite H0.
  - intros ([E1 E2] & [E3 E4] & Ha & Hb & Hlt). unfold timed_interval. rewrite E1, E2, E3, E4. cbn [mbind res_bind is_some text].
    rewrite Ha, Hb. cbn [negb orb]. rewrite num_ltb_leb in Hlt by (by apply (valid_instant false)).
    by destruct (num_leb _ _).
Qed.

Lemma interval_spec allDay id start stop a b : interval_of allDay id start stop = Ok (a, b) <->
  says allDay a start /\ says allDay b stop /\ valid_interval allDay a b.
Proof. destruct allDay; [apply all_day_interval_spec|apply timed_interval_spec]. Qed.
End Intervals.

(** ** Events *)

Definition or_empty (v : option Json) : Json := default (OStr []) (nullish v None).

(** An event that is neither of a series nor cancelled. *)
Definition single (m : fields_map) : Prop :=
  truthy_json (length_of (jget (js "recurrence") m)) = false /\ truthy_json (jget (js "recurringEventId") m) = false /\
  strict_eq (jget (js "status") m) (Some (OStr (js "cancelled"))) = false /\
  exists c id, jget (js "id") m = Some (OStr (c :: id)).

Ltac no_fields := split; [done|]; intros (? & ? & ? & ? & ? & ? & ? & ? & ? & ? & ? & ? & ? & ?); congruence.

Section Events.
Context (other : jstr -> option Z).
Implicit Types (m : fields_map) (a b s id : jstr).

(** What an event's projection is. *)
Definition projects m (v : Json) : Prop := exists a b allDay,
  single m /\ says allDay a (jget (js "start") m) /\ says allDay b (jget (js "end") m) /\ valid_interval other allDay a b /\
  v = projection (or_empty (jget (js "summary") m)) (or_empty (jget (js "description") m)) (or_empty (jget (js "location") m))
        (OStr a) (OStr b) allDay.

Lemma at_object k m : at_ k (Some (OObj m)) = Ok (jget (js k) m).
Proof. done. Qed.

Lemma project_object event v : project other event = Ok (Some v) -> exists m, event = Some (OObj m).
Proof.
  unfold project. destruct event as [[| | | | |m]|]; try done. by eauto.
Qed.

Lemma project_spec m v : project other (Some (OObj m)) = Ok (Some v) <-> projects m v.
Proof.
  unfold project, projects, single, repeats. rewrite !at_object. cbn [mbind res_bind].
  destruct (truthy_json (length_of (jget (js "recurrence") m))) eqn:E1; [cbn; naive_solver|].
  cbn [mbind res_bind]. destruct (truthy_json (jget (js "recurringEventId") m)) eqn:E2; [cbn; naive_solver|].
  destruct (strict_eq (jget (js "status") m) _) eqn:E3; [naive_solver|].
  destruct (jget (js "id") m) as [[| | |[|c id]| |]|]; cbn [text];
    try (split; [done|]; intros (? & ? & ? & (_ & _ & _ & ? & ? & ?) & _); congruence).
  split.
  - destruct (at_ "date" (jget (js "start") m)) as [date|] eqn:E4; [|done]. cbn [mbind res_bind].
    change (if is_text date then all_day_interval other ?i ?x ?y else timed_interval other ?i ?x ?y) with (interval_of other (is_text date) i x y).
    fold (interval_of other (is_text date) (c :: id) (jget (js "start") m) (jget (js "end") m)).
    destruct (interval_of other _ _ _ _) as [[a b]|] eqn:E5; [|done]. cbn [mbind res_bind]. apply interval_spec in E5 as (H1 & H2 & H3).
    intros [= <-]. exists a, b, (is_text date). split_and!; try done. by eauto.
  - intros (a & b & allDay & _ & H1 & H2 & H3 & ->). destruct (interval_spec other allDay (c :: id) (jget (js "start") m) (jget (js "end") m) a b) as [_ E].
    specialize (E (conj H1 (conj H2 H3))). destruct H1 as [H1 _]. rewrite H1. cbn [mbind res_bind].
    assert (is_text (if allDay then Some (OStr a) else None) = allDay) as -> by by destruct allDay. unfold interval_of in E. by rewrite E.
Qed.

(** A value that passes the check, with the times as text. *)
Definition valid_projection m : Prop := exists t d l a b allDay,
  jget (js "title") m = Some (OStr t) /\ trim t <> [] /\ jget (js "description") m = Some (OStr d) /\
  jget (js "location") m = Some (OStr l) /\ jget (js "start") m = Some (OStr a) /\ jget (js "end") m = Some (OStr b) /\
  jget (js "allDay") m = Some (OBool allDay) /\ valid_interval other allDay a b.

Lemma validate_accepts m : is_text (jget (js "start") m) = true -> is_text (jget (js "end") m) = true ->
  validate other (OObj m) = Ok tt <-> valid_projection m.
Proof.
  intros Ha Hb. apply is_text_Some in Ha as [a Ha]. apply is_text_Some in Hb as [b Hb]. unfold valid_projection.
  unfold validate. rewrite !at_object. cbn [mbind res_bind].
  destruct (jget (js "title") m) as [[| | |t| |]|]; cbn [text]; try no_fields.
  case_bool_decide as Et; [no_fields|].
  destruct (jget (js "description") m) as [[| | |d| |]|]; cbn [is_text negb orb]; try no_fields.
  destruct (jget (js "location") m) as [[| | |l| |]|]; cbn [is_text negb orb]; try no_fields.
  destruct (jget (js "allDay") m) as [[|allDay| | | |]|]; try no_fields.
  rewrite Ha, Hb. cbn [mbind res_bind string_of String_of].
  enough ((if negb ((if allDay then civilDate other else offsetDateTime other) (Some (OStr a))) ||
             negb ((if allDay then civilDate other else offsetDateTime other) (Some (OStr b)))
           then fail (if allDay then "All-day events need plain YYYY-MM-DD dates" else "Timed events need an explicit UTC offset")
           else if num_leb (instant other allDay b) (instant other allDay a) then fail "Event end must follow its start" else Ok tt)
          = Ok tt <-> valid_interval other allDay a b) as H.
  { split.
    - intros E. exists t, d, l, a, b, allDay. split_and!; try done. apply H. exact E.
    - intros (? & ? & ? & ? & ? & ? & ? & ? & ?). naive_solver. }
  unfold valid_interval, valid_end.
  destruct ((if allDay then civilDate other else offsetDateTime other) (Some (OStr a))) eqn:Ea; [|cbn; naive_solver].
  destruct ((if allDay then civilDate other else offsetDateTime other) (Some (OStr b))) eqn:Eb; [|cbn; naive_solver].
  cbn [negb orb]. rewrite num_ltb_leb by (by apply valid_instant). destruct (num_leb _ _); cbn; naive_solver.
Qed.
End Events.

(** ** Edits *)

(** The fields of a projection. *)
Definition FIELDS : list jstr := map js ["title"; "description"; "location"; "start"; "end"; "allDay"]%string.

Definition same_fields (v w : Json) : Prop := forall k, k ∈ FIELDS -> member k v = member k w.

Lemma same_fields_spec v w : same_fields v w <->
  member (js "title") v = member (js "title") w /\ member (js "description") v = member (js "description") w /\
  member (js "location") v = member (js "location") w /\ member (js "start") v = member (js "start") w /\
  member (js "end") v = member (js "end") w /\ member (js "allDay") v = member (js "allDay") w.
Proof.
  unfold same_fields, FIELDS. cbn [map]. split.
  - intros H. split_and!; apply H; set_solver.
  - intros (H1 & H2 & H3 & H4 & H5 & H6) k Hk.
    repeat (apply elem_of_cons in Hk as [->|Hk]; [done|]). by apply elem_of_nil in Hk.
Qed.

(** A patch writes its values over the properties. *)
Lemma write_all_get (ws : list (jstr * option Json)) (m : fields_map) k :
  NoDup (jkeys ws) -> Forall (fun w => is_some w.2 = true) ws ->
  jget k (fold_left write ws m) = match jget k ws with Some v => v | None => jget k m end.
Proof.
  revert m. induction ws as [|[q [v|]] ws IH]; intros m Hnd Hws; [done| |by forall_split].
  cbn [jkeys map fst] in Hnd. apply NoDup_cons in Hnd as [Hq Hnd]. forall_split. cbn [fold_left]. rewrite IH by done.
  cbn [write fst snd jget]. rewrite jget_jset. destruct (decide (k = q)) as [->|]; [|done].
  by rewrite (proj2 (jget_None q ws) Hq).
Qed.

Lemma jget_when {V} (b : bool) (k k' : jstr) (v : V) l :
  jget k ((if b then [(k', v)] else []) ++ l) = if b && bool_decide (k = k') then Some v else jget k l.
Proof. destruct b; cbn; [|done]. case_bool_decide; by case_decide. Qed.

(** The words of the literals decide. *)
Ltac decide_words := repeat match goal with
  | |- context [bool_decide (@eq jstr (js ?a) (js ?b))] =>
      let v := eval vm_compute in (bool_decide (@eq jstr (js a) (js b))) in change (bool_decide (@eq jstr (js a) (js b))) with v
  end.

Ltac decide_in H E := match type of H with context [if ?c then _ else _] => destruct c eqn:E end.

Section Edits.
Context (other : jstr -> option Z).
Implicit Types (m dm : fields_map) (remote : Json) (id : jstr).

Definition changed (desired remote : Json) (k : string) : bool := negb (strict_eq (member (js k) desired) (member (js k) remote)).

Lemma changed_false desired remote k : changed desired remote k = false -> member (js k) desired = member (js k) remote.
Proof. intros H%negb_false_iff. by apply strict_eq_spec. Qed.

(** What a patch has of each of Google's fields. *)
Lemma patch_get desired remote : let p := patch_fields desired remote in
  let d k := member (js k) desired in let moved := changed desired remote "allDay" in
  let when k := eventTime (d k) (truthy_json (d "allDay"%string)) in
  jget (js "summary") p = (if changed desired remote "title" then Some (d "title"%string) else None) /\
  jget (js "description") p = (if changed desired remote "description" then Some (d "description"%string) else None) /\
  jget (js "location") p = (if changed desired remote "location" then Some (d "location"%string) else None) /\
  jget (js "start") p = (if changed desired remote "start" || moved then Some (when "start"%string) else None) /\
  jget (js "end") p = (if changed desired remote "end" || moved then Some (when "end"%string) else None) /\
  forall k, k ∉ map js ["summary"; "description"; "location"; "start"; "end"]%string -> jget k p = None.
Proof.
  cbv zeta. unfold patch_fields. fold (changed desired remote "title") (changed desired remote "description") (changed desired remote "location")
    (changed desired remote "start") (changed desired remote "end") (changed desired remote "allDay").
  rewrite <-(app_nil_r (if changed desired remote "end" || _ then _ else _)).
  split_and!; rewrite ?jget_when; decide_words; rewrite ?andb_true_r, ?andb_false_r; try done.
  intros k Hk. rewrite !jget_when. cbn [map] in Hk.
  assert (forall b (x : jstr) (v : option Json) r, k <> x -> (if b && bool_decide (k = x) then Some v else r) = r) as Hne.
  { intros b x v r Hx. rewrite bool_decide_eq_false_2 by done. by rewrite andb_false_r. }
  rewrite !not_elem_of_cons in Hk. destruct Hk as (H1 & H2 & H3 & H4 & H5 & _). by rewrite !Hne.
Qed.

Lemma patch_nodup desired remote : NoDup (jkeys (patch_fields desired remote)).
Proof.
  unfold patch_fields. repeat match goal with |- context [if ?b then _ else _] => destruct b end; by_decide.
Qed.

Lemma patch_nil desired remote : patch_fields desired remote = [] <->
  forall k, k ∈ ["title"; "description"; "location"; "start"; "end"; "allDay"]%string -> changed desired remote k = false.
Proof.
  unfold patch_fields. fold (changed desired remote "title") (changed desired remote "description") (changed desired remote "location")
    (changed desired remote "start") (changed desired remote "end") (changed desired remote "allDay").
  destruct (changed desired remote "title") eqn:E1; [cbn; split; [done|]; intros H; specialize (H "title"%string ltac:(set_solver)); congruence|].
  destruct (changed desired remote "description") eqn:E2; [cbn; split; [done|]; intros H; specialize (H "description"%string ltac:(set_solver)); congruence|].
  destruct (changed desired remote "location") eqn:E3; [cbn; split; [done|]; intros H; specialize (H "location"%string ltac:(set_solver)); congruence|].
  destruct (changed desired remote "start") eqn:E4; [cbn; split; [done|]; intros H; specialize (H "start"%string ltac:(set_solver)); congruence|].
  destruct (changed desired remote "end") eqn:E5; [cbn; split; [by destruct (changed desired remote "allDay")|]; intros H; specialize (H "end"%string ltac:(set_solver)); congruence|].
  destruct (changed desired remote "allDay") eqn:E6; [cbn; split; [done|]; intros H; specialize (H "allDay"%string ltac:(set_solver)); congruence|].
  cbn. split; [|done]. intros _ k Hk. repeat (apply elem_of_cons in Hk as [->|Hk]; [done|]). by apply elem_of_nil in Hk.
Qed.

Lemma says_eventTime allDay s : says allDay s (eventTime (Some (OStr s)) allDay).
Proof. by destruct allDay. Qed.

Lemma single_same m m' : single m -> (forall k, k ∉ map js ["summary"; "description"; "location"; "start"; "end"]%string -> jget k m' = jget k m) ->
  single m'.
Proof.
  intros (H1 & H2 & H3 & H4) Hs. unfold single.
  rewrite (Hs (js "recurrence")), (Hs (js "recurringEventId")), (Hs (js "status")), (Hs (js "id")) by by_decide. done.
Qed.

(** The six values of a projection. *)
Lemma projection_get t d l a b allDay : let v := projection t d l a b allDay in
  member (js "title") v = Some t /\ member (js "description") v = Some d /\ member (js "location") v = Some l /\
  member (js "start") v = Some a /\ member (js "end") v = Some b /\ member (js "allDay") v = Some (OBool allDay).
Proof. by vm_compute. Qed.

Lemma event_patched m dm remote : project other (Some (OObj m)) = Ok (Some remote) -> valid_projection other dm ->
  exists v, project other (Some (overlay (OObj m) (patch_fields (OObj dm) remote))) = Ok (Some v) /\ same_fields v (OObj dm).
Proof.
  intros (a0 & b0 & all0 & Hs & Ha0 & Hb0 & _ & ->)%project_spec (t & d & l & a & b & allDay & Ht & _ & Hd & Hl & Ha & Hb & Hall & Hv).
  set (remote := projection _ _ _ _ _ _).
  destruct (projection_get (or_empty (jget (js "summary") m)) (or_empty (jget (js "description") m)) (or_empty (jget (js "location") m))
              (OStr a0) (OStr b0) all0) as (R1 & R2 & R3 & R4 & R5 & R6). fold remote in R1, R2, R3, R4, R5, R6.
  destruct (patch_get (OObj dm) remote) as (P1 & P2 & P3 & P4 & P5 & P6). cbn [member] in P1, P2, P3, P4, P5.
  rewrite Ht in P1. rewrite Hd in P2. rewrite Hl in P3. rewrite Ha, Hall in P4. rewrite Hb, Hall in P5.
  cbn [truthy_json] in P4, P5. replace (match OBool allDay with OBool false => false | _ => true end) with allDay in * by by destruct allDay.
  set (p := patch_fields (OObj dm) remote) in *.
  assert (Hsome : Forall (fun w : jstr * option Json => is_some w.2 = true) p).
  { apply Forall_forall. intros [k v] Hin. assert (Hk : jget k p = Some v) by (apply jget_elem; [apply patch_nodup|done]).
    destruct (decide (k ∈ map js ["summary"; "description"; "location"; "start"; "end"]%string)) as [Hm|Hm]; [|by rewrite P6 in Hk].
    assert (Hif : forall (b : bool) x, (if b then Some x else None) = Some v -> is_some x = true -> is_some v = true) by (intros [] x; congruence).
    cbn [map] in Hm. apply elem_of_cons in Hm as [->|Hm]; [rewrite P1 in Hk; by eapply Hif|].
    apply elem_of_cons in Hm as [->|Hm]; [rewrite P2 in Hk; by eapply Hif|]. apply elem_of_cons in Hm as [->|Hm]; [rewrite P3 in Hk; by eapply Hif|].
    apply elem_of_cons in Hm as [->|Hm]; [rewrite P4 in Hk; by eapply Hif|]. apply elem_of_cons in Hm as [->|Hm]; [rewrite P5 in Hk; by eapply Hif|].
    by apply elem_of_nil in Hm. }
  unfold overlay. cbn [entries_of]. set (m' := fold_left write p m).
  assert (Hget : forall k, jget k m' = match jget k p with Some v => v | None => jget k m end) by (intros k; apply write_all_get; [apply patch_nodup|done]).
  assert (Hsay : forall k x x0, jget (js k) m' = (if changed (OObj dm) remote k || changed (OObj dm) remote "allDay"
            then eventTime (Some (OStr x)) allDay else jget (js k) m) -> member (js k) (OObj dm) = Some (OStr x) ->
            member (js k) remote = Some (OStr x0) -> says all0 x0 (jget (js k) m) -> says allDay x (jget (js k) m')).
  { intros k x x0 -> Hx Hx0 H0. destruct (changed (OObj dm) remote k) eqn:E1; [apply says_eventTime|].
    destruct (changed (OObj dm) remote "allDay") eqn:E2; [apply says_eventTime|]. cbn [orb].
    apply changed_false in E1, E2. rewrite Hx, Hx0 in E1. cbn [member] in E2. rewrite Hall in E2. rewrite R6 in E2. by simplify_eq. }
  exists (projection (OStr t) (OStr d) (OStr l) (OStr a) (OStr b) allDay). split.
  - apply project_spec. exists a, b, allDay. split_and!; try done.
    + apply (single_same m); [done|]. intros k Hk. by rewrite Hget, P6.
    + apply (Hsay "start"%string a a0); try done. rewrite Hget, P4. by destruct (_ || _).
    + apply (Hsay "end"%string b b0); try done. rewrite Hget, P5. destruct (changed (OObj dm) remote "end" || changed (OObj dm) remote "allDay"); reflexivity.
    + f_equal; rewrite Hget; rewrite ?P1, ?P2, ?P3; match goal with |- context [changed ?x ?y ?z] => destruct (changed x y z) eqn:E end; try reflexivity;
        apply changed_false in E; cbn [member] in E; rewrite ?Ht, ?Hd, ?Hl, ?R1, ?R2, ?R3 in E; by injection E.
  - apply same_fields_spec. destruct (projection_get (OStr t) (OStr d) (OStr l) (OStr a) (OStr b) allDay) as (-> & -> & -> & -> & -> & ->).
    cbn [member]. by rewrite Ht, Hd, Hl, Ha, Hb, Hall.
Qed.

(** C25 (functional). An edit sends what was reviewed and nothing else.  For an
    event whose projection is [remote] and a valid projection [desired]: when
    no edit is planned the two agree in every field; an edit that is planned
    names the event and its row, the event with the patch written over it
    projects to exactly the fields of [desired], and each key of the patch is
    a field that differs (or an end of an interval that changes between whole
    days and times). *)
Theorem planEdit_sends_desired m dm remote id subject :
  project other (Some (OObj m)) = Ok (Some remote) ->
  is_text (jget (js "start") dm) = true -> is_text (jget (js "end") dm) = true -> validate other (OObj dm) = Ok tt ->
  match planEdit id (OObj dm) remote subject with
  | None => same_fields (OObj dm) remote
  | Some e =>
      e_id e = id /\ e_subject e = subject /\
      (exists v, project other (Some (overlay (OObj m) (e_patch e))) = Ok (Some v) /\ same_fields v (OObj dm)) /\
      (forall k, k ∈ jkeys (e_patch e) -> exists f,
         (k, f) ∈ [(js "summary", "title"); (js "description", "description"); (js "location", "location");
                   (js "start", "start"); (js "end", "end")]%string /\
         (member (js f) (OObj dm) <> member (js f) remote \/
          f ∈ ["start"; "end"]%string /\ member (js "allDay") (OObj dm) <> member (js "allDay") remote))
  end.
Proof.
  intros Hp Hs He Hv%validate_accepts; [|done..]. unfold planEdit. destruct (patch_fields (OObj dm) remote) as [|w ws] eqn:E.
  - apply same_fields_spec. pose proof (proj1 (patch_nil _ _) E) as Hc. split_and!; apply changed_false, Hc; set_solver.
  - cbn [e_id e_subject e_patch]. rewrite <-E. split_and!; [done|done|by apply event_patched|]. clear E. intros k Hk.
    assert (Hne : forall f, changed (OObj dm) remote f = true -> is_scalar (member (js f) (OObj dm)) = true -> member (js f) (OObj dm) <> member (js f) remote).
    { intros f Hf Hsc Heq. unfold changed in Hf. rewrite <-Heq, strict_eq_refl in Hf by done. done. }
    destruct Hv as (t & d & l & a & b & allDay & Ht & _ & Hd & Hl & Ha & Hb & Hall & _).
    destruct (patch_get (OObj dm) remote) as (P1 & P2 & P3 & P4 & P5 & P6). apply list_elem_of_fmap in Hk as ([k' v] & -> & Hin). cbn [fst].
    assert (Hk : jget k' (patch_fields (OObj dm) remote) = Some v) by (apply jget_elem; [apply patch_nodup|done]). clear Hin.
    destruct (decide (k' ∈ map js ["summary"; "description"; "location"; "start"; "end"]%string)) as [Hm|Hm]; [|by rewrite P6 in Hk].
    assert (Hor : forall f, (changed (OObj dm) remote f || changed (OObj dm) remote "allDay") = true -> f ∈ ["start"; "end"]%string ->
      is_scalar (member (js f) (OObj dm)) = true -> member (js f) (OObj dm) <> member (js f) remote \/
          f ∈ ["start"; "end"]%string /\ member (js "allDay") (OObj dm) <> member (js "allDay") remote).
    { intros f [Hf|Hf]%orb_true_iff Hfe Hsc; [left; by apply Hne|right; split; [done|]]. apply Hne; [done|]. cbn [member]. by rewrite Hall. }
    cbn [map] in Hm. repeat (apply elem_of_cons in Hm as [->|Hm]; [|]); [| | | | |by apply elem_of_nil in Hm].
    + exists "title"%string. split; [by_decide|]. left. rewrite P1 in Hk. decide_in Hk Ec; [|done]. apply Hne; [done|]. cbn [member]. by rewrite Ht.
    + exists "description"%string. split; [by_decide|]. left. rewrite P2 in Hk. decide_in Hk Ec; [|done]. apply Hne; [done|]. cbn [member]. by rewrite Hd.
    + exists "location"%string. split; [by_decide|]. left. rewrite P3 in Hk. decide_in Hk Ec; [|done]. apply Hne; [done|]. cbn [member]. by rewrite Hl.
    + exists "start"%string. split; [by_decide|]. rewrite P4 in Hk. decide_in Hk Ec; [|done]. apply Hor; [done|by_decide|]. cbn [member]. by rewrite Ha.
    + exists "end"%string. split; [by_decide|]. rewrite P5 in Hk. decide_in Hk Ec; [|done]. apply Hor; [done|by_decide|]. cbn [member]. by rewrite Hb.
Qed.
End Edits.

(** ** The three-way merge

    What the callers of [reconcileRecord] say of it: a property that changed on
    one side since the baseline is that side's, a property both sides changed,
    differently, is a conflict; an event without a card is taken as it is. *)
Definition both_changed (base local remote : option Json) : Prop := local <> remote /\ local <> base /\ remote <> base.

Definition merge (base local remote : option Json) : option Json := if decide (local = base) then remote else local.

Definition scalars (base local remote : option Json) : Prop :=
  HostStore.is_scalar base = true /\ HostStore.is_scalar local = true /\ HostStore.is_scalar remote = true.

Class ThreeWay (reconcile : Side -> Side -> Side -> SyncDecision (V := Json)) : Prop := {
  three_way_conflicts base local remote p : NoDup (jkeys local) -> NoDup (jkeys remote) ->
    scalars (prop base p) (jget p local) (jget p remote) ->
    p ∈ map property (conflicts (reconcile base (Rec local) (Rec remote))) <->
    both_changed (prop base p) (jget p local) (jget p remote);
  three_way_remote base local remote p : NoDup (jkeys local) -> NoDup (jkeys remote) ->
    scalars (prop base p) (jget p local) (jget p remote) ->
    jget p (d_remote (reconcile base (Rec local) (Rec remote))) =
    if decide (jget p local <> jget p remote /\ jget p remote = prop base p) then Some (jget p local) else None;
  three_way_nodup base local remote : NoDup (jkeys (d_remote (reconcile base local remote)));
  three_way_new remote : let d := reconcile Unseen Unseen (Rec remote) in conflicts d = [] /\ d_remote d = [];
}.

Section Compare.
Context (other : jstr -> option Z) (reconcileRecord : Side -> Side -> Side -> SyncDecision (V := Json)) `{!ThreeWay reconcileRecord}.
Implicit Types (st : ConnectionState) (byId : list (jstr * Card)) (found : Scan) (card : Card) (l : list Card) (id : jstr).

(** The identity of an outcome. *)
Definition outcome_id (o : Change + Clash) : option jstr := match o with inl c => ch_id c | inr k => k_id k end.

Lemma outcome_ids (all : list (Change + Clash)) :
  omap ch_id (sum_lefts all) ++ omap k_id (sum_rights all) ≡ₚ omap outcome_id all.
Proof.
  unfold sum_lefts, sum_rights. induction all as [|[c|k] all IH]; [done| |]; cbn.
  - destruct (ch_id c); cbn; by rewrite IH.
  - destruct (k_id k) as [i|]; cbn; [|done]. rewrite <-IH. symmetry. apply Permutation_middle.
Qed.

Lemma elem_of_lefts {A B} (l : list (A + B)) a : a ∈ sum_lefts l <-> inl a ∈ l.
Proof. unfold sum_lefts. rewrite list_elem_of_omap. split; [by intros ([|] & H & [= ->])|by exists (inl a)]. Qed.

Lemma elem_of_rights {A B} (l : list (A + B)) b : b ∈ sum_rights l <-> inr b ∈ l.
Proof. unfold sum_rights. rewrite list_elem_of_omap. split; [by intros ([|] & H & [= ->])|by exists (inr b)]. Qed.

Definition bound_cards l : list (jstr * Card) := omap (fun card => (fun id => (id, card)) <$> c_id card) l.

Lemma index_cards_app byId l byId' : index_cards other byId l = Ok byId' -> NoDup (jkeys byId) ->
  byId' = byId ++ bound_cards l /\ NoDup (jkeys byId').
Proof.
  revert byId. induction l as [|card l IH]; intros byId H Hnd; [injection H as <-; by rewrite app_nil_r|].
  cbn [index_cards] in H. destruct (validate other (c_value card)) as [[]|]; [|done]. cbn [mbind res_bind] in H. unfold bound_cards. cbn.
  destruct (c_id card) as [id|]; cbn; [|by apply IH]. unfold has_key in H. destruct (jget id byId) eqn:Ek; [done|].
  apply jget_None in Ek. rewrite jset_fresh in H by done. apply IH in H as [-> H].
  - by rewrite <-app_assoc in *.
  - unfold jkeys. rewrite map_app. apply NoDup_app. split; [done|]. split; [|cbn; by_decide || apply NoDup_singleton].
    by intros x Hx ->%list_elem_of_singleton.
Qed.

Lemma index_cards_spec l byId : index_cards other [] l = Ok byId ->
  forall id card, jget id byId = Some card <-> card ∈ l /\ c_id card = Some id.
Proof.
  intros [-> Hnd]%index_cards_app id card; [|constructor]. rewrite jget_elem by done. cbn. unfold bound_cards.
  rewrite list_elem_of_omap. split.
  - intros (c & Hc & Heq). destruct (c_id c) eqn:E; cbn in Heq; [|done]. by injection Heq as -> ->.
  - intros [Hc Hid]. exists card. by rewrite Hid.
Qed.

Lemma compare_event_id st byId found id remote o :
  compare_event other reconcileRecord st byId found id remote = Ok o -> outcome_id o = Some id.
Proof.
  assert (forall b c, decide_event other reconcileRecord b c found id remote = Ok o -> outcome_id o = Some id) as Hd.
  { intros b c. unfold decide_event. case_match; [|by intros [= <-]]. destruct (validate _ _); [|done]. by intros [= <-]. }
  unfold compare_event. destruct (jget id (s_records st)); [|apply Hd]. case_match; [by intros [= <-]|apply Hd].
Qed.

Lemma compare_events_all st byId found es os : compare_events other reconcileRecord st byId found es = Ok os ->
  Forall2 (fun e o => compare_event other reconcileRecord st byId found e.1 e.2 = Ok o) es os.
Proof.
  revert os. induction es as [|[id remote] es IH]; intros os H; [injection H as <-; constructor|]. cbn [compare_events] in H.
  destruct (compare_event _ _ _ _ _ _ _) as [o|] eqn:Eo; [|done]. cbn [mbind res_bind] in H.
  destruct (compare_events _ _ _ _ _ es) as [os'|] eqn:El; [|done]. injection H as <-. constructor; [done|]. by apply IH.
Qed.

(** The ids of the cards whose events were not read. *)
Definition missing found l : list jstr := omap (fun card => id ← c_id card; if has_key id (events found) then None else Some id) l.

(** What [compare] does, taken apart. *)
Lemma compare_inv calendarId st found l pv : compare other reconcileRecord calendarId st found l = Ok pv ->
  exists byId os, index_cards other [] l = Ok byId /\
    Forall2 (fun e o => compare_event other reconcileRecord st byId found e.1 e.2 = Ok o) (events found) os /\
    p_changes pv = sum_lefts (os ++ omap (compare_card found) l) /\
    p_conflicts pv = sum_rights (os ++ omap (compare_card found) l).
Proof.
  unfold compare. destruct (index_cards other [] l) as [byId|] eqn:E1; [|done]. cbn [mbind res_bind].
  destruct (compare_events _ _ _ _ _ _) as [os|] eqn:E2; [|done]. intros [= <-]. exists byId, os. split_and!; try done.
  by apply compare_events_all.
Qed.

Lemma ids_of_events st byId found (es : list (jstr * Json)) os :
  Forall2 (fun e o => compare_event other reconcileRecord st byId found e.1 e.2 = Ok o) es os -> omap outcome_id os = jkeys es.
Proof. induction 1 as [|[id remote] o es os Ho Hos IH]; [done|]. cbn. rewrite (compare_event_id _ _ _ _ _ _ Ho). cbn. by rewrite IH. Qed.

Lemma ids_of_cards found l : omap outcome_id (omap (compare_card found) l) = missing found l.
Proof.
  unfold missing. induction l as [|card l IH]; [done|]. cbn. unfold compare_card at 1. destruct (c_id card) as [id|]; cbn; [|done].
  destruct (has_key id _); cbn; by rewrite IH.
Qed.

Lemma compare_accounts calendarId st found l pv : compare other reconcileRecord calendarId st found l = Ok pv ->
  omap ch_id (p_changes pv) ++ omap k_id (p_conflicts pv) ≡ₚ jkeys (events found) ++ missing found l.
Proof.
  intros (byId & os & _ & Hos & -> & ->)%compare_inv. rewrite outcome_ids, omap_app, ids_of_cards. by rewrite (ids_of_events _ _ _ _ _ Hos).
Qed.

(** ** What a change and a conflict say *)

Definition keyed (v : Json) : Prop := match v with OObj m => NoDup (jkeys m) | _ => True end.
Definition baseline st id : Side := from_option (as_record ∘ b_baseline) Unseen (jget id (s_records st)).

Lemma prop_as_record v p : prop (as_record v) p = member p v.
Proof. by destruct v. Qed.

Lemma validate_object v : validate other v = Ok tt -> exists m, v = OObj m.
Proof. destruct v as [| | | | |m]; try done. by eauto. Qed.

Lemma index_cards_objects l byId byId' : index_cards other byId l = Ok byId' -> forall card, card ∈ l -> exists m, c_value card = OObj m.
Proof.
  revert byId. induction l as [|card l IH]; intros byId H c Hc; [by apply elem_of_nil in Hc|]. cbn [index_cards] in H.
  destruct (validate other (c_value card)) as [[]|] eqn:Ev; [|done]. cbn [mbind res_bind] in H.
  apply elem_of_cons in Hc as [->|Hc]; [by eapply validate_object|].
  destruct (c_id card); [destruct (has_key _ _); [done|]|]; by eapply IH.
Qed.

(** A decision on an event whose card is there. *)
Definition decided found id remote (base : Side) card (o : Change + Clash) : Prop :=
  match o with
  | inl ch =>
      ch_subject ch = Some (c_subject card) /\ ch_local ch = Some (c_value card) /\ ch_remote ch = Some remote /\
      ch_etag ch = jget id (etags found) /\ validate other (ch_desired ch) = Ok tt /\
      forall p, scalars (prop base p) (member p (c_value card)) (member p remote) ->
        ~ both_changed (prop base p) (member p (c_value card)) (member p remote) /\
        member p (ch_desired ch) = merge (prop base p) (member p (c_value card)) (member p remote)
  | inr k =>
      k_subject k = Some (c_subject card) /\ k_local k = Some (c_value card) /\ k_remote k = Some remote /\
      k_etag k = jget id (etags found) /\ k_fields k <> [] /\
      forall p, scalars (prop base p) (member p (c_value card)) (member p remote) ->
        p ∈ k_fields k <-> both_changed (prop base p) (member p (c_value card)) (member p remote)
  end.

Lemma overlay_get remote_fields ws p : NoDup (jkeys ws) -> NoDup (jkeys remote_fields) ->
  member p (overlay (OObj remote_fields) ws) = match jget p ws with Some v => v | None => jget p remote_fields end.
Proof. intros. by apply prop_applied_list. Qed.

Lemma decide_event_card base card found id rm lm o :
  c_value card = OObj lm -> NoDup (jkeys lm) -> NoDup (jkeys rm) ->
  decide_event other reconcileRecord base (Some card) found id (OObj rm) = Ok o ->
  decided found id (OObj rm) (from_option as_record Unseen base) card o.
Proof using ThreeWay0.
  intros Hv Hl Hr. unfold decide_event. cbn [from_option compose]. unfold compose. rewrite Hv. cbn [as_record fmap option_fmap option_map]. set (b := from_option as_record Unseen base).
  set (d := reconcileRecord b (Rec lm) (Rec rm)). destruct (conflicts d) as [|c cs] eqn:Ec.
  - destruct (validate other _) as [[]|] eqn:Evl; [|done]. intros [= <-]. unfold decided. cbn [ch_subject ch_local ch_remote ch_etag ch_desired]. rewrite Hv.
    split_and!; try done. intros p Hs. cbn [member] in Hs |- *.
    pose proof (three_way_conflicts b lm rm p Hl Hr Hs) as Hc. fold d in Hc. rewrite Ec in Hc. cbn in Hc.
    assert (Hn : ~ both_changed (prop b p) (jget p lm) (jget p rm)) by (intros Hb; apply Hc in Hb; by apply elem_of_nil in Hb).
    split; [done|]. rewrite overlay_get by (done || apply three_way_nodup). unfold d. rewrite three_way_remote by done. unfold merge.
    unfold both_changed in Hn. destruct (decide (jget p lm = prop b p)) as [E|E].
    + rewrite E. rewrite decide_False; [done|]. intros [H1 H2]. congruence.
    + destruct (decide (jget p lm = jget p rm)) as [E'|E']; [rewrite decide_False by tauto; done|].
      rewrite decide_True; [done|]. split; [done|]. destruct (decide (jget p rm = prop b p)); [done|]. tauto.
  - intros [= <-]. unfold decided. cbn [k_subject k_local k_remote k_etag k_fields]. rewrite Hv. split_and!; try done.
    intros p Hs. rewrite <-(three_way_conflicts b lm rm p) by done. fold d. by rewrite Ec.
Qed.

Lemma decide_event_new found id rm o :
  decide_event other reconcileRecord None None found id (OObj rm) = Ok o ->
  exists ch, o = inl ch /\ ch_subject ch = None /\ ch_local ch = None /\ ch_remote ch = Some (OObj rm) /\ ch_desired ch = OObj rm /\
    ch_etag ch = jget id (etags found) /\ ch_id ch = Some id /\ validate other (OObj rm) = Ok tt.
Proof using ThreeWay0.
  unfold decide_event. cbn [from_option as_record]. destruct (three_way_new rm) as [-> ->]. unfold overlay. cbn [fold_left entries_of].
  destruct (validate other _) as [[]|] eqn:Ev; [|done]. intros [= <-]. eexists. by split_and!.
Qed.

(** What the preview makes of an event that was read: a new one is taken as
    Google has it; one whose row is gone, or is another than it was, is a
    conflict; one with a card is decided. *)
Inductive event_result st l found id remote : Change + Clash -> Prop :=
| result_new ch : (forall card, card ∈ l -> c_id card <> Some id) -> jget id (s_records st) = None ->
    ch_id ch = Some id -> ch_subject ch = None -> ch_remote ch = Some remote -> ch_desired ch = remote -> validate other remote = Ok tt ->
    event_result st l found id remote (inl ch)
| result_rebound b : jget id (s_records st) = Some b -> (forall card, card ∈ l -> c_id card = Some id -> c_subject card <> b_local b) ->
    event_result st l found id remote
      (inr (mkClash (if bool_decide (b_local b = []) then None else Some (b_local b)) (Some id) [js "Missing or rebound local card"] None None None None))
| result_decided card o : card ∈ l -> c_id card = Some id -> (forall b, jget id (s_records st) = Some b -> b_local b = c_subject card) ->
    decided found id remote (baseline st id) card o -> event_result st l found id remote o.

(** The change that a card without an event is, and the conflict that one is whose event was not read. *)
Definition own_change card : option Change :=
  match c_id card with
  | None => Some (mkChange (Some (c_subject card)) None (Some (c_value card)) None (c_value card) None None)
  | Some _ => None
  end.
Definition unseen_clash card id : Clash :=
  mkClash (Some (c_subject card)) (Some id) [js "Event cancelled, recurring or inaccessible; no deletion inferred"] None None None None.

Lemma compare_event_result st byId found l id remote o : index_cards other [] l = Ok byId ->
  (exists m, remote = OObj m /\ NoDup (jkeys m)) -> (forall card, card ∈ l -> keyed (c_value card)) ->
  compare_event other reconcileRecord st byId found id remote = Ok o -> event_result st l found id remote o.
Proof using ThreeWay0.
  intros Hix (rm & -> & Hrm) Hkeyed Hcmp. pose proof (index_cards_spec l byId Hix) as Hby.
  assert (forall b card, jget id byId = Some card -> b = b_baseline <$> jget id (s_records st) ->
    (forall b, jget id (s_records st) = Some b -> b_local b = c_subject card) ->
    decide_event other reconcileRecord b (Some card) found id (OObj rm) = Ok o -> event_result st l found id (OObj rm) o) as Hcard.
  { intros b card Hc -> Hb Hd. apply Hby in Hc as [Hc Hid]. apply (result_decided _ _ _ _ _ card); try done.
    destruct (index_cards_objects l [] byId Hix card Hc) as [lm Hlm]. pose proof (Hkeyed card Hc) as Hkd. rewrite Hlm in Hkd.
    replace (baseline st id) with (from_option as_record Unseen (b_baseline <$> jget id (s_records st))) by (unfold baseline; by destruct (jget id (s_records st))).
    by apply (decide_event_card _ card found id rm lm). }
  unfold compare_event in Hcmp. destruct (jget id (s_records st)) as [b|] eqn:Eb; destruct (jget id byId) as [card|] eqn:Ec.
  - destruct (jeqb (b_local b) (c_subject card)) eqn:Es; cbn [negb] in Hcmp; unfold jeqb in Es.
    + apply bool_decide_eq_true in Es. eapply Hcard; [done|done| |exact Hcmp]. by intros b' [= <-].
    + apply bool_decide_eq_false in Es. injection Hcmp as <-. apply result_rebound; [done|]. intros card' Hc Hid.
      assert (jget id byId = Some card') as Ec' by (by apply Hby). congruence.
  - injection Hcmp as <-. apply result_rebound; [done|]. intros card' Hc Hid. assert (jget id byId = Some card') by (by apply Hby). congruence.
  - by eapply Hcard.
  - apply decide_event_new in Hcmp as (ch & -> & H1 & _ & H2 & H3 & _ & H4 & H5). apply result_new; try done.
    intros card Hc Hid. assert (jget id byId = Some card) by (by apply Hby). congruence.
Qed.

Lemma no_own_events st byId found (es : list (jstr * Json)) os :
  Forall2 (fun e o => compare_event other reconcileRecord st byId found e.1 e.2 = Ok o) es os ->
  List.filter (fun ch => bool_decide (ch_id ch = None)) (sum_lefts os) = [].
Proof.
  induction 1 as [|[id remote] o es os Ho Hos IH]; [done|]. apply compare_event_id in Ho. cbn [fst] in Ho. destruct o as [ch|k]; [|exact IH].
  change (sum_lefts (inl ch :: os)) with (ch :: sum_lefts os). cbn [outcome_id] in Ho. cbn [List.filter]. rewrite bool_decide_false by congruence. exact IH.
Qed.

Lemma own_cards found l : List.filter (fun ch => bool_decide (ch_id ch = None)) (sum_lefts (omap (compare_card found) l)) = omap own_change l.
Proof.
  induction l as [|card l IH]; [done|]. change (omap own_change (card :: l)) with (match own_change card with Some c => c :: omap own_change l | None => omap own_change l end).
  change (omap (compare_card found) (card :: l)) with (match compare_card found card with Some o => o :: omap (compare_card found) l | None => omap (compare_card found) l end).
  unfold compare_card at 1, own_change at 1. destruct (c_id card) as [id|]; [destruct (has_key id (events found)); exact IH|].
  match goal with |- context [sum_lefts (inl ?c :: ?os)] => change (sum_lefts (inl c :: os)) with (c :: sum_lefts os) end.
  cbn [List.filter ch_id]. rewrite bool_decide_true by done. by rewrite IH.
Qed.

Lemma compare_merges calendarId st found l pv :
  compare other reconcileRecord calendarId st found l = Ok pv ->
  NoDup (jkeys (events found)) ->
  (forall id v, (id, v) ∈ events found -> exists m, v = OObj m /\ NoDup (jkeys m)) ->
  (forall card, card ∈ l -> keyed (c_value card)) ->
  omap ch_id (p_changes pv) ++ omap k_id (p_conflicts pv) ≡ₚ jkeys (events found) ++ missing found l /\
  (forall ch id, ch ∈ p_changes pv -> ch_id ch = Some id ->
     exists remote, jget id (events found) = Some remote /\ event_result st l found id remote (inl ch)) /\
  List.filter (fun ch => bool_decide (ch_id ch = None)) (p_changes pv) = omap own_change l /\
  (forall k, k ∈ p_conflicts pv -> exists id, k_id k = Some id /\
     ((exists remote, jget id (events found) = Some remote /\ event_result st l found id remote (inr k)) \/
      has_key id (events found) = false /\ exists card, card ∈ l /\ c_id card = Some id /\ k = unseen_clash card id)).
Proof using ThreeWay0.
  intros Hpv Hnd Hobj Hkeyed. split; [by eapply compare_accounts|].
  apply compare_inv in Hpv as (byId & os & Hix & Hos & Hch & Hk).
  assert (Hev : forall o, o ∈ os -> exists id remote, jget id (events found) = Some remote /\ outcome_id o = Some id /\ event_result st l found id remote o).
  { intros o Ho. apply list_elem_of_lookup in Ho as [i Hi]. destruct (Forall2_lookup_r _ _ _ _ _ Hos Hi) as ([id remote] & Hin & Hcmp).
    apply list_elem_of_lookup_2 in Hin. cbn [fst snd] in Hcmp. exists id, remote. split; [by apply jget_elem|]. split; [by eapply compare_event_id|].
    by apply (compare_event_result st byId found l id remote o Hix (Hobj id remote Hin) Hkeyed). }
  split; [|split].
  - intros ch id Hin Hid. rewrite Hch in Hin. apply elem_of_lefts, elem_of_app in Hin as [Hin|Hin].
    + destruct (Hev _ Hin) as (id' & remote & He & Ho & Hres). cbn in Ho. rewrite Hid in Ho. injection Ho as <-. by exists remote.
    + apply list_elem_of_omap in Hin as (card & _ & Hc). unfold compare_card in Hc. destruct (c_id card); [by destruct (has_key _ _)|].
      injection Hc as <-. done.
  - rewrite Hch. unfold sum_lefts. rewrite omap_app, List.filter_app. change (omap _ os) with (sum_lefts os).
    rewrite (no_own_events _ _ _ _ _ Hos). apply own_cards.
  - intros k Hin. rewrite Hk in Hin. apply elem_of_rights, elem_of_app in Hin as [Hin|Hin].
    + destruct (Hev _ Hin) as (id & remote & He & Ho & Hres). exists id. split; [done|]. left. by exists remote.
    + apply list_elem_of_omap in Hin as (card & Hl & Hc). unfold compare_card in Hc. destruct (c_id card) as [id|] eqn:Eid; [|done].
      destruct (has_key id (events found)) eqn:Eh; [done|]. injection Hc as <-. exists id. split; [done|]. right. split; [done|]. by exists card.
Qed.

(** No event is there twice. *)
Lemma missing_sub found l id : id ∈ missing found l -> id ∈ omap c_id l /\ has_key id (events found) = false.
Proof.
  unfold missing. intros (card & Hc & Hid)%list_elem_of_omap. destruct (c_id card) as [i|] eqn:E; [|done]. cbn in Hid.
  destruct (has_key i (events found)) eqn:Eh; [done|]. injection Hid as <-. split; [|done]. apply list_elem_of_omap. by exists card.
Qed.

Lemma missing_nodup found l : NoDup (omap c_id l) -> NoDup (missing found l).
Proof.
  induction l as [|card l IH]; [constructor|]. unfold missing. cbn. destruct (c_id card) as [id|] eqn:Ec; cbn; [|exact IH].
  intros [Hid Hnd]%NoDup_cons. destruct (has_key id (events found)); cbn; [by apply IH|]. apply NoDup_cons. split; [|by apply IH].
  by intros [Hin _]%missing_sub.
Qed.

Lemma compare_nodup calendarId st found l pv : compare other reconcileRecord calendarId st found l = Ok pv -> NoDup (jkeys (events found)) ->
  NoDup (omap ch_id (p_changes pv)).
Proof.
  intros Hpv Hnd. assert (NoDup (omap ch_id (p_changes pv) ++ omap k_id (p_conflicts pv))) as H; [|by apply NoDup_app in H as [H _]].
  rewrite (compare_accounts _ _ _ _ _ Hpv). apply compare_inv in Hpv as (byId & os & Hix & _). apply index_cards_app in Hix as [-> Hb]; [|constructor].
  apply NoDup_app. split; [done|]. split.
  - intros id Hid [_ Hno]%missing_sub. unfold has_key in Hno. destruct (jget id (events found)) eqn:E; [done|]. by apply jget_None in E.
  - apply missing_nodup. cbn in Hb. enough (jkeys (bound_cards l) = omap c_id l) as <- by done. unfold bound_cards. clear.
    induction l as [|card l IH]; [done|]. cbn. destruct (c_id card); cbn; [by f_equal|done].
Qed.

(** An event that has no row. *)
Lemma event_new calendarId st found l pv id rm :
  compare other reconcileRecord calendarId st found l = Ok pv -> (id, OObj rm) ∈ events found ->
  (forall card, card ∈ l -> c_id card <> Some id) -> jget id (s_records st) = None ->
  exists ch, ch ∈ p_changes pv /\ ch_id ch = Some id /\ ch_subject ch = None /\ ch_remote ch = Some (OObj rm) /\ ch_desired ch = OObj rm.
Proof using ThreeWay0.
  intros Hpv Hin Hno Hrec. apply compare_inv in Hpv as (byId & os & Hix & Hos & Hch & _).
  apply list_elem_of_lookup in Hin as [i Hi]. destruct (Forall2_lookup_l _ _ _ _ _ Hos Hi) as (o & Ho & Hcmp). cbn [fst snd] in Hcmp.
  unfold compare_event in Hcmp. rewrite Hrec in Hcmp. destruct (jget id byId) as [card|] eqn:Ec.
  - apply (index_cards_spec l) in Ec as [Hc Hid]; [|done]. by destruct (Hno card Hc).
  - apply decide_event_new in Hcmp as (ch & -> & H1 & _ & H2 & H3 & _ & H4 & _). exists ch. split_and!; try done.
    rewrite Hch. apply elem_of_lefts, elem_of_app. left. by apply list_elem_of_lookup_2 in Ho.
Qed.

(** An event whose row is there and bound to it. *)
Lemma event_outcome calendarId st found l pv id remote card b rm lm :
  compare other reconcileRecord calendarId st found l = Ok pv -> (id, remote) ∈ events found -> card ∈ l -> c_id card = Some id ->
  jget id (s_records st) = Some b -> b_local b = c_subject card ->
  remote = OObj rm -> NoDup (jkeys rm) -> c_value card = OObj lm -> NoDup (jkeys lm) ->
  exists o, decided found id remote (baseline st id) card o /\ outcome_id o = Some id /\
    match o with inl ch => ch ∈ p_changes pv | inr k => k ∈ p_conflicts pv end.
Proof using ThreeWay0.
  intros Hpv Hin Hc Hid Hb Hl -> Hrm Hlm Hnd. apply compare_inv in Hpv as (byId & os & Hix & Hos & Hch & Hk).
  apply list_elem_of_lookup in Hin as [i Hi]. destruct (Forall2_lookup_l _ _ _ _ _ Hos Hi) as (o & Ho & Hcmp). cbn [fst snd] in Hcmp.
  pose proof (compare_event_id _ _ _ _ _ _ Hcmp) as Hoid.
  unfold compare_event in Hcmp. assert (jget id byId = Some card) as Ec by (by apply (index_cards_spec l)). rewrite Hb, Ec, Hl in Hcmp.
  assert (jeqb (c_subject card) (c_subject card) = true) as Er by (by apply bool_decide_eq_true). rewrite Er in Hcmp. cbn [negb] in Hcmp.
  exists o. split.
  - apply (decide_event_card _ card found id rm lm) in Hcmp; [|done..]. unfold baseline. rewrite Hb. exact Hcmp.
  - split; [done|]. apply list_elem_of_lookup_2 in Ho. destruct o as [ch|k]; rewrite ?Hch, ?Hk; [apply elem_of_lefts|apply elem_of_rights]; apply elem_of_app; by left.
Qed.

(** C26 (safety). The preview loses nothing and overwrites nothing.  Every event
    that was read, and every card whose event was not, is in the preview once,
    as a change or as a conflict, and nothing else with an id is.  An event
    with neither a card nor a binding is a change that takes it as Google has
    it; one whose row is gone, or is another than the one bound to it, is a
    conflict that says so, and only such a bound one; and one with a card is a
    change or a conflict by its fields: each field of the change is the value
    of the side that changed it since the baseline, and no field of it was
    changed on both sides, while the conflict lists exactly the fields that
    were, with both values.  A card whose event was not read is a conflict, of
    which no deletion is inferred.  The changes without an id are the cards
    without an event, each with its own value, in their order. *)
Theorem preview_merges calendarId st found l pv :
  compare other reconcileRecord calendarId st found l = Ok pv ->
  NoDup (jkeys (events found)) ->
  (forall id v, (id, v) ∈ events found -> exists m, v = OObj m /\ NoDup (jkeys m)) ->
  (forall card, card ∈ l -> keyed (c_value card)) ->
  omap ch_id (p_changes pv) ++ omap k_id (p_conflicts pv) ≡ₚ jkeys (events found) ++ missing found l /\
  (forall ch id, ch ∈ p_changes pv -> ch_id ch = Some id ->
     exists remote, jget id (events found) = Some remote /\ event_result st l found id remote (inl ch)) /\
  List.filter (fun ch => bool_decide (ch_id ch = None)) (p_changes pv) = omap own_change l /\
  (forall k, k ∈ p_conflicts pv -> exists id, k_id k = Some id /\
     ((exists remote, jget id (events found) = Some remote /\ event_result st l found id remote (inr k)) \/
      has_key id (events found) = false /\ exists card, card ∈ l /\ c_id card = Some id /\ k = unseen_clash card id)).
Proof using ThreeWay0. apply compare_merges. Qed.
End Compare.

(** ** Reading a whole calendar *)

Section Scanning.
Context {T : Type} (other : jstr -> option Z) (host : Host T) (root : jstr).
Implicit Types (s : T) (acc found : Scan) (token : option Json) (pages : list (list Json)).

Definition page_request (n : nat) (url : jstr) : ExternalIntent :=
  request "list" "GET" url (js "page-" ++ dec (Z.of_nat n)) None [].

(** The items of a page, read with the token of the one before. *)
Record page_read (n : nat) token s (page : Json) (items : list Json) s' : Prop := {
  pr_answer : exists url response, page_url root token = Ok url /\ read host (page_request n url) s = (s', Ok response) /\
                parse response = Ok page;
  pr_items : at_ "items" (Some page) = Ok (Some (OArr items));
}.

(** All pages of a list, from the [n]-th on: each has the token of the next, the
    last has none. *)
Inductive list_read : nat -> option Json -> T -> list (list Json) -> T -> Prop :=
| list_last n token s page items s' : page_read n token s page items s' ->
    truthy_json (member (js "nextPageToken") page) = false -> list_read n token s [items] s'
| list_next n token s page items s1 pages s' : page_read n token s page items s1 ->
    truthy_json (member (js "nextPageToken") page) = true ->
    list_read (S n) (member (js "nextPageToken") page) s1 pages s' -> list_read n token s (items :: pages) s'.

Lemma scan_events_app acc l k : scan_events other acc (l ++ k) = (acc' ← scan_events other acc l; scan_events other acc' k).
Proof.
  revert acc. induction l as [|e l IH]; intros acc; [done|]. cbn [app scan_events]. destruct (scan_event other acc e); [apply IH|reflexivity].
Qed.

(** One page of the loop. *)
Lemma scan_pages_step maxPages left_ acc token s s' found :
  scan_pages other host root maxPages (S left_) acc token s = (s', Ok found) <->
  exists s1 page items acc', page_read (maxPages - left_) token s page items s1 /\ scan_events other acc items = Ok acc' /\
    (if truthy_json (member (js "nextPageToken") page)
     then scan_pages other host root maxPages left_ acc' (member (js "nextPageToken") page) s1
     else (s1, Ok acc')) = (s', Ok found).
Proof.
  cbn [scan_pages]. unfold mbind, act_bind, lift. split.
  - destruct (page_url root token) as [url|] eqn:E1; [|done].
    destruct (read host _ s) as [s1 [response|]] eqn:E2; [|done]. destruct (parse response) as [page|] eqn:E3; [|done].
    destruct (at_ "items" (Some page)) as [[[| | | |items|]|]|] eqn:E4; try done.
    destruct (scan_events other acc items) as [acc'|] eqn:E5; [|done]. intros H. exists s1, page, items, acc'. split_and!; [|done|].
    + split; [|done]. exists url, response. by split_and!.
    + by destruct (truthy_json _).
  - intros (s1 & page & items & acc' & [(url & response & E1 & E2 & E3) E4] & E5 & H).
    rewrite E1. unfold page_request in E2. rewrite E2, E3, E4, E5. by destruct (truthy_json _).
Qed.

Lemma scan_pages_spec maxPages left_ acc token s s' found : (left_ <= maxPages)%nat ->
  scan_pages other host root maxPages left_ acc token s = (s', Ok found) <->
  exists pages, list_read (maxPages - left_ + 1) token s pages s' /\ (length pages <= left_)%nat /\
    scan_events other acc (concat pages) = Ok found.
Proof.
  revert acc token s. induction left_ as [|left_ IH]; intros acc token s Hle.
  - split; [done|]. intros (pages & Hr & Hlen & _). destruct pages; [by inversion Hr|cbn in Hlen; lia].
  - rewrite scan_pages_step. replace (maxPages - S left_ + 1)%nat with (maxPages - left_)%nat by lia. split.
    + intros (s1 & page & items & acc' & Hp & Hs & H). destruct (truthy_json (member (js "nextPageToken") page)) eqn:En.
      * apply IH in H as (pages & Hr & Hlen & Hsc); [|lia]. exists (items :: pages). split; [|split; [cbn; lia|]].
        { eapply list_next; [done|done|]. by replace (S (maxPages - left_)) with (maxPages - left_ + 1)%nat by lia. }
        { cbn [concat]. by rewrite scan_events_app, Hs. }
      * injection H as <- <-. exists [items]. split; [by eapply list_last|]. split; [cbn; lia|]. cbn. by rewrite app_nil_r.
    + intros (pages & Hr & Hlen & Hsc). inversion Hr as [n t s0 page items s0' Hp En|n t s0 page items s1 rest s0' Hp En Hrest]; subst.
      * cbn in Hsc. rewrite app_nil_r in Hsc. exists s', page, items, found. split_and!; [done|done|]. by rewrite En.
      * cbn [concat] in Hsc. rewrite scan_events_app in Hsc. destruct (scan_events other acc items) as [acc'|] eqn:Es; [|done].
        exists s1, page, items, acc'. split_and!; [done|done|]. rewrite En. apply IH; [lia|]. exists rest. split; [|split; [cbn in Hlen; lia|done]].
        by replace (maxPages - left_ + 1)%nat with (S (maxPages - left_)) by lia.
Qed.

(** C27 (refinement). A scan reads the whole calendar or fails: it returns what
    it made of the events exactly when there are at most [maxPages] pages, each
    asked for with the token of the one before and the last without one, every
    one of them was answered with a list, and every event in them is valid; and
    what it returns is made of all of their events, in order. *)
Theorem scan_whole maxPages s s' found :
  scan_pages other host root maxPages maxPages no_scan None s = (s', Ok found) <->
  exists pages, list_read 1 None s pages s' /\ (length pages <= maxPages)%nat /\ scan_events other no_scan (concat pages) = Ok found.
Proof. rewrite scan_pages_spec by done. by replace (maxPages - maxPages + 1)%nat with 1%nat by lia. Qed.

(** A scan changes only what its reads do. *)
Lemma scan_pages_state (P : T -> Prop) maxPages left_ acc token s s' r :
  (forall intent s s' r, P s -> read host intent s = (s', r) -> P s') -> P s ->
  scan_pages other host root maxPages left_ acc token s = (s', r) -> P s'.
Proof.
  intros Hread. revert acc token s. induction left_ as [|left_ IH]; intros acc token s Hs; cbn [scan_pages]; [by intros [= <- _]|].
  unfold mbind, act_bind, lift. destruct (page_url root token) as [url|]; [|by intros [= <- _]].
  destruct (read host _ s) as [s1 [response|]] eqn:E; (assert (P s1) by (by eapply Hread)); [|by intros [= <- _]].
  destruct (parse response) as [page|]; [|by intros [= <- _]].
  destruct (at_ "items" (Some page)) as [[[| | | |items|]|]|]; try (by intros [= <- _]).
  destruct (scan_events other acc items); [|by intros [= <- _]]. destruct (truthy_json _); [by apply IH|by intros [= <- _]].
Qed.

(** Events are kept by id, each a projection. *)
Definition scan_ok found : Prop := NoDup (jkeys (events found)) /\
  forall id v, (id, v) ∈ events found -> id <> [] /\ exists t d l a b allDay, v = projection t d l (OStr a) (OStr b) allDay /\ valid_interval other allDay a b.

Lemma scan_event_ok acc e acc' : scan_event other acc e = Ok acc' -> scan_ok acc -> scan_ok acc'.
Proof.
  unfold scan_event. destruct (project other (Some e)) as [[v|]|] eqn:Ep; [| |done]; cbn [mbind res_bind].
  - destruct (project_object _ _ _ Ep) as [m [= ->]]. apply project_spec in Ep as (a & b & allDay & (_ & _ & _ & c & id0 & Hid) & _ & _ & Hv & ->).
    rewrite !at_object. cbn [mbind res_bind]. rewrite Hid. intros [= <-] [Hnd Hev]. split; cbn [events]; [by apply jset_nodup|].
    intros id v Hin. apply jget_elem in Hin; [|by apply jset_nodup]. rewrite jget_jset in Hin. case_decide.
    + injection Hin as <-. split; [by subst|]. repeat eexists. all: apply Hv.
    + apply (Hev id v). by apply jget_elem.
  - destruct (repeats _) as [[]|]; [| |done]; by intros [= <-].
Qed.

Lemma scan_events_ok acc es found : scan_events other acc es = Ok found -> scan_ok acc -> scan_ok found.
Proof.
  revert acc. induction es as [|e es IH]; intros acc H Ha; [by injection H as <-|]. cbn [scan_events] in H.
  destruct (scan_event other acc e) as [acc'|] eqn:E; [|done]. apply (IH acc'); [done|]. by eapply scan_event_ok.
Qed.

Lemma scan_pages_ok maxPages s s' found :
  scan_pages other host root maxPages maxPages no_scan None s = (s', Ok found) -> scan_ok found.
Proof.
  intros (pages & _ & _ & H)%scan_pages_spec; [|done]. eapply scan_events_ok; [exact H|]. split; [constructor|]. by intros id v Hin%elem_of_nil.
Qed.
End Scanning.

(** ** Instances *)

Module Demo.
(** The three-way merge of [Reconcile], with canonical texts. *)
Abbreviation text := (option Json + (bool + gmap (list Z) Json))%type.
Definition text_of_value (v : option Json) : text := inl v.
Definition text_of_record (r : Side) : text :=
  match r with Unseen => inr (inl false) | Deleted => inr (inl true) | Rec l => inr (inr (list_to_map l)) end.

Lemma list_to_map_jget (l : list (list Z * Json)) p : (list_to_map l : gmap (list Z) Json) !! p = jget p l.
Proof.
  induction l as [|[k v] l IH]; cbn; [apply lookup_empty|]. rewrite lookup_insert. by destruct (decide (k = p)), (decide (p = k)); subst.
Qed.

#[export] Instance text_stable : StableStringify text_of_value text_of_record.
Proof.
  split; [|done..]. intros a b _ _. unfold text_of_value, text_of_record. split.
  - intros [= Heq] p. f_equal. by rewrite <-!list_to_map_jget, Heq.
  - intros H. do 2 f_equal. apply map_eq. intros p. rewrite !list_to_map_jget. specialize (H p). by injection H.
Qed.

Definition reconcile : Side -> Side -> Side -> SyncDecision (V := Json) := reconcileRecord text_of_value text_of_record.

Lemma equal_spec a b : equal text_of_value a b = bool_decide (a = b).
Proof. unfold equal, text_of_value. apply bool_decide_ext. split; [by intros [= ->]|by intros ->]. Qed.

Lemma all_none {V} (l : list (jstr * V)) : (forall p, jget p l = None) -> l = [].
Proof. destruct l as [|[k v] l]; [done|]. intros H. specialize (H k). cbn in H. by rewrite decide_True in H. Qed.

Lemma reconcile_seen base local remote : NoDup (jkeys local) -> NoDup (jkeys remote) -> let d := reconcile base (Rec local) (Rec remote) in
  (forall p, jget p (d_remote d) = match verdict text_of_value base (Rec local) (Rec remote) p with TakeLocal => Some (jget p local) | _ => None end) /\
  (forall p, p ∈ map property (conflicts d) <-> verdict text_of_value base (Rec local) (Rec remote) p = Conflict).
Proof.
  intros Hl Hr d. destruct (equal_record text_of_record (Rec local) (Rec remote)) eqn:Eq.
  - assert (forall p, verdict text_of_value base (Rec local) (Rec remote) p = Same) as Hv.
    { intros p. unfold verdict. cbn [prop]. rewrite equal_spec. apply bool_decide_eq_true in Eq. rewrite stringify_properties in Eq by done.
      specialize (Eq p). injection Eq as ->. by rewrite bool_decide_eq_true_2. }
    subst d. unfold reconcile, reconcileRecord. rewrite Eq. cbn. setoid_rewrite Hv. split; [done|]. intros p. split; [by intros ?%elem_of_nil|done].
  - destruct (reconcile_properties text_of_value text_of_record base (Rec local) (Rec remote) d Eq) as (_ & H1 & H2 & _); try done; [by right|].
    split; [exact H1|]. intros p. rewrite list_elem_of_fmap. split.
    + intros (c & -> & (q & Hq & ->)%H2). done.
    + intros Hv. exists (PropertyConflict p (prop base p) (jget p local) (jget p remote)). split; [done|]. apply H2. by exists p.
Qed.

#[export] Instance reconcile_three_way : ThreeWay reconcile.
Proof.
  split.
  - intros base local remote p Hl Hr _. destruct (reconcile_seen base local remote Hl Hr) as [_ ->]. unfold verdict, both_changed. cbn [prop].
    rewrite !equal_spec. repeat case_bool_decide; naive_solver.
  - intros base local remote p Hl Hr _. destruct (reconcile_seen base local remote Hl Hr) as [-> _]. unfold verdict. cbn [prop].
    rewrite !equal_spec. repeat case_bool_decide; case_decide; try done; naive_solver congruence.
  - intros. apply decision_nodup.
  - intros remote d.
    assert (equal_record text_of_record Unseen (Rec remote) = false) as Eq by (by apply bool_decide_eq_false).
    destruct (reconcile_properties text_of_value text_of_record Unseen Unseen (Rec remote) d Eq) as (_ & H1 & H2 & _); try done; [by left|].
    assert (Hv : forall p, verdict text_of_value Unseen Unseen (Rec remote) p <> Conflict /\ verdict text_of_value Unseen Unseen (Rec remote) p <> TakeLocal).
    { intros p. unfold verdict. cbn [prop]. destruct (equal _ None (jget p remote)); [done|]. by rewrite equal_refl. }
    split.
    + destruct (conflicts d) as [|c cs] eqn:E; [done|]. destruct (proj1 (H2 c)) as (p & Hp & _); [by left|]. by destruct (Hv p).
    + apply all_none. intros p. rewrite H1. destruct (Hv p) as [_ Hp]. by destruct (verdict _ _ _ _ p).
Qed.

Definition other : jstr -> option Z := fun _ => None.

Definition time_of (s : string) : Json := OObj [(js "dateTime", OStr (js s))].

Definition meeting : fields_map :=
  [(js "id", OStr (js "e1")); (js "status", OStr (js "confirmed")); (js "summary", OStr (js "Planning"));
   (js "start", time_of "2026-03-02T09:00:00+01:00"); (js "end", time_of "2026-03-02T10:00:00+01:00"); (js "etag", OStr (js "7"))].

Definition meeting_value : Json :=
  projection (OStr (js "Planning")) (OStr []) (OStr []) (OStr (js "2026-03-02T09:00:00+01:00")) (OStr (js "2026-03-02T10:00:00+01:00")) false.

(** The meeting becomes a whole day, with a place. *)
Definition whole_day : fields_map :=
  [(js "title", OStr (js "Planning")); (js "description", OStr []); (js "location", OStr (js "Utrecht"));
   (js "start", OStr (js "2026-03-02")); (js "end", OStr (js "2026-03-03")); (js "allDay", OBool true)].

Lemma planEdit_sends_desired_witness : exists e v,
  planEdit (js "e1") (OObj whole_day) meeting_value None = Some e /\ map fst (e_patch e) = [js "location"; js "start"; js "end"] /\
  project other (Some (overlay (OObj meeting) (e_patch e))) = Ok (Some v) /\ member (js "location") v = Some (OStr (js "Utrecht")) /\
  member (js "start") v = Some (OStr (js "2026-03-02")).
Proof.
  assert (C : match planEdit (js "e1") (OObj whole_day) meeting_value None with
              | Some e => map fst (e_patch e) = [js "location"; js "start"; js "end"] | None => False end) by by_decide || (vm_compute; reflexivity).
  pose proof (planEdit_sends_desired other meeting whole_day meeting_value (js "e1") None) as H.
  assert (H1 : project other (Some (OObj meeting)) = Ok (Some meeting_value)) by (vm_compute; reflexivity).
  assert (H2 : validate other (OObj whole_day) = Ok tt) by (vm_compute; reflexivity).
  specialize (H H1 eq_refl eq_refl H2). destruct (planEdit (js "e1") (OObj whole_day) meeting_value None) as [e|]; [|destruct C].
  destruct H as (_ & _ & (v & Hv & Hs) & _). exists e, v. split; [reflexivity|]. split; [exact C|]. split; [exact Hv|]. split.
  - rewrite (Hs (js "location") ltac:(by_decide)). reflexivity.
  - rewrite (Hs (js "start") ltac:(by_decide)). reflexivity.
Defined.

(** Google renamed the meeting, the row's place was edited here; another event
    is new. *)
Definition edited : Json :=
  projection (OStr (js "Planning")) (OStr []) (OStr (js "Utrecht")) (OStr (js "2026-03-02T09:00:00+01:00")) (OStr (js "2026-03-02T10:00:00+01:00")) false.
Definition renamed : Json :=
  projection (OStr (js "Roadmap")) (OStr []) (OStr []) (OStr (js "2026-03-02T09:00:00+01:00")) (OStr (js "2026-03-02T10:00:00+01:00")) false.
Definition holiday : Json := projection (OStr (js "Off")) (OStr []) (OStr []) (OStr (js "2026-05-01")) (OStr (js "2026-05-02")) true.

Definition found : Scan := mkScan [(js "e1", renamed); (js "e2", holiday)] [(js "e1", js "8")] [] 0 0.
Definition row : Card := mkCard (js "row") (Some (js "e1")) edited.
Definition bound : ConnectionState := mkState 0 [(js "e1", mkBinding (js "row") meeting_value)] None.

Lemma preview_merges_witness : exists pv ch,
  compare other reconcile (js "cal") bound found [row] = Ok pv /\ length (p_changes pv) = 2%nat /\
  ch ∈ p_changes pv /\ ch_id ch = Some (js "e1") /\
  member (js "title") (ch_desired ch) = Some (OStr (js "Roadmap")) /\ member (js "location") (ch_desired ch) = Some (OStr (js "Utrecht")).
Proof.
  assert (C : match compare other reconcile (js "cal") bound found [row] with
              | Ok pv => length (p_changes pv) = 2%nat /\ match p_changes pv with ch :: _ => ch_id ch = Some (js "e1") | [] => False end
              | Err _ => False end) by (vm_compute; split; reflexivity).
  pose proof (preview_merges other reconcile (js "cal") bound found [row]) as H.
  destruct (compare other reconcile (js "cal") bound found [row]) as [pv|]; [|destruct C]. destruct C as [C1 C2].
  destruct (p_changes pv) as [|ch cs] eqn:Ec; [destruct C2|].
  destruct (H pv eq_refl) as (_ & Hch & _); [by_decide| | |].
  - intros id v Hin. repeat (apply elem_of_cons in Hin as [[= -> ->]|Hin]; [eexists; split; [reflexivity|by_decide]|]). by apply elem_of_nil in Hin.
  - intros card ->%list_elem_of_singleton. by_decide.
  - exists pv, ch. split; [reflexivity|]. rewrite Ec in Hch |- *. split; [exact C1|]. split; [by left|]. split; [exact C2|].
    destruct (Hch ch (js "e1") ltac:(by left) C2) as (remote & Hr & Hres). inversion Hres as [ch' Hno|b|card o Hc Hid Hbound Hdec]; subst.
    + exfalso. apply (Hno row); [by left|reflexivity].
    + apply list_elem_of_singleton in Hc as ->. vm_compute in Hr. injection Hr as <-. destruct Hdec as (_ & _ & _ & _ & _ & Hp).
      split; [apply (Hp (js "title"))|apply (Hp (js "location"))]; by_decide.
Defined.
End Demo.
