(* ===== verification/CalendarRelay.v ===== *)
(** * Google Calendar through the integration proxy

    Models [src/integrations/calendar/app/relay.ts]: the only way the app's
    requests leave it.  The proxy belongs to the host and is a parameter, a
    function of the host's state that answers or throws; so is the [URL] class,
    an address taken apart.  [last] of the relay is kept beside the host's state.  *)
From S2P Require Import Prelude Unicode Text Collections Json JsonParse Reconcile HostStore CalendarAdapter.
Local Open Scope Z_scope.

(* src: integrations/calendar/app/store.ts 48-60 HostProxyRequest ! *)
Record HostProxyRequest := mkRequest {
  q_platform : jstr; q_connectionId : jstr; q_path : jstr; q_method : jstr;
  q_query : list (jstr * jstr); q_body : option jstr; q_ifMatch : option jstr
}.

(* src: integrations/calendar/app/store.ts 62-68 HostProxyResponse *)
Record HostProxyResponse := mkResponse { h_status : Z; h_headers : list (jstr * jstr); h_body : option Json }.

Definition HostProxy (S : Type) : Type := S -> HostProxyRequest -> S * res string HostProxyResponse.

(** [new URL(href)] and what is read of it. *)
Record Url := mkUrl {
  u_href : jstr; u_origin : jstr; u_pathname : jstr; u_username : jstr; u_password : jstr; u_hash : jstr;
  u_search : list (jstr * jstr)
}.

(* src: integrations/calendar/app/relay.ts 26-26 PLATFORM *)
Definition PLATFORM : jstr := js "google-calendar".
(* src: integrations/calendar/app/relay.ts 27-27 UPSTREAM ! *)
Definition UPSTREAM : jstr := js "https://www.googleapis.com/calendar/v3".

(* src: integrations/calendar/app/relay.ts 48-62 RECONNECT_CODES *)
Definition RECONNECT_CODES : list jstr :=
  map js ["unknown_connection"; "not_delegated"; "capability_scope"; "platform_mismatch"; "credential_refresh_failed"]%string.

(* src: integrations/calendar/app/relay.ts 63-79 REFUSAL_CODES *)
Definition REFUSAL_CODES : list jstr :=
  RECONNECT_CODES ++
  map js ["missing_signature"; "unsupported_signature_version"; "invalid_agent"; "agent_key_mismatch";
          "stale_timestamp"; "bad_signature"; "replayed"; "invalid_capability"; "capability_expired";
          "capability_too_long"; "wrong_audience"; "capability_key_mismatch"; "not_owner"; "access_denied"]%string.

(* src: integrations/calendar/app/relay.ts 81-97 proxyRefusal *)
Definition proxyRefusal (response : HostProxyResponse) : option jstr :=
  let code := text_of (omember (js "error") (h_body response)) in
  if (h_status response <? 400) || bool_decide (code = []) || negb (bool_decide (code ∈ REFUSAL_CODES)) then None
  else
    let detail := match omember (js "message") (h_body response) with Some (OStr m) => js ": " ++ m | _ => [] end in
    Some (if bool_decide (code ∈ RECONNECT_CODES)
          then js "The integration proxy refused this connection (" ++ code ++ detail ++ js "). Connect again."
          else js "The integration proxy refused the request (" ++ code ++ detail ++ js ").").

Section Relay.
Context {S : Type} (new_URL : jstr -> option Url) (proxy : HostProxy S) (connectionId : jstr).

(** The host's state and the relay's [last]. *)
Definition Relayed : Type := S * option HostProxyResponse.

(* src: integrations/calendar/app/relay.ts 105-125 relayPath *)
Definition relayPath (href : jstr) : res Failure (jstr * list (jstr * jstr)) :=
  match new_URL href, new_URL UPSTREAM with
  | Some url, Some base =>
      if negb (jeqb (u_origin url) (u_origin base)) || negb (starts_with (u_pathname base ++ js "/") (u_pathname url))
         || negb (jeqb (u_username url) []) || negb (jeqb (u_password url) []) || negb (jeqb (u_hash url) [])
      then Err (Failure_ (js "Refusing a request outside " ++ UPSTREAM ++ js ": " ++ u_href url))
      else Ok (u_pathname url, jmap_of (u_search url))
  | _, _ => fail "Invalid URL"
  end.

(** The request of an intent, or the refusal to make one. *)
(* src: integrations/calendar/app/relay.ts 130-148 relay ! *)
Definition relay_request (intent : ExternalIntent) : res Failure HostProxyRequest :=
  '(path, query) ← relayPath (i_url intent);
  let method := upper (i_method intent) in
  if negb (jeqb method (js "GET")) && negb (jeqb method (js "PATCH"))
  then Err (Failure_ (js "The Calendar app does not send " ++ method ++ js " requests"))
  else
    let ifMatch := match jget (js "If-Match") (i_headers intent) with Some ((_ :: _) as e) => Some e | _ => None end in
    if jeqb method (js "PATCH") && negb (is_some ifMatch) then fail "Refusing a Calendar write without If-Match"
    else Ok (mkRequest PLATFORM connectionId path method query (i_body intent) ifMatch).

(* src: integrations/calendar/app/relay.ts 127-170 relay *)
Definition relay (intent : ExternalIntent) : act Relayed Failure ExternalReceipt := fun st =>
  match relay_request intent with
  | Err e => (st, Err e)
  | Ok q =>
      match proxy st.1 q with
      | (s, Err cause) =>
          ((s, st.2), Err (if jeqb (q_method q) (js "GET") then Failure_ (js cause) else UncertainWriteError (i_id intent) cause))
      | (s, Ok response) =>
          ((s, Some response),
           match proxyRefusal response with
           | Some message => Err (Failure_ message)
           | None => Ok (mkReceipt (h_status response)
                           (match h_body response with Some (OStr b) => b | b => json_text (default ONull b) end))
           end)
      end
  end.

(** ** The calendars of an account *)

(* src: integrations/calendar/app/relay.ts 172-180 CalendarEntry *)
Record CalendarEntry := mkEntry {
  ce_id : jstr; ce_summary : jstr; ce_primary : bool; ce_accessRole : jstr; ce_backgroundColor : option jstr
}.

Definition is_hex (c : Z) : bool := is_digit c || ((97 <=? c) && (c <=? 102)) || ((65 <=? c) && (c <=? 70)).

(** [/^#[0-9a-f]{6}$/i] *)
Definition is_color (s : jstr) : bool :=
  match s with c :: t => (c =? 35) && Nat.eqb (length t) 6 && forallb is_hex t | [] => false end.

(* src: integrations/calendar/app/relay.ts 221-233 listCalendars ! *)
Definition entry_of (item : Json) : res Failure (option CalendarEntry) :=
  id ← at_ "id" (Some item);
  match text id with
  | Some ((_ :: _) as id) =>
      Ok (Some (mkEntry id (default id (text (member (js "summary") item)))
                  (strict_eq (member (js "primary") item) (Some (OBool true)))
                  (default (js "reader") (text (member (js "accessRole") item)))
                  (match text (member (js "backgroundColor") item) with Some c => if is_color c then Some c else None | None => None end)))
  | _ => Ok None
  end.

Fixpoint entries_of_items (items : list Json) : res Failure (list CalendarEntry) :=
  match items with
  | [] => Ok []
  | item :: items => e ← entry_of item; es ← entries_of_items items; Ok (match e with Some e => e :: es | None => es end)
  end.

(** The address of [UPSTREAM/users/me/calendarList] with the parameters. *)
Context (list_href : list (jstr * jstr) -> jstr).

(** The [retry-after] header of an answer, when it has one. *)
Definition retry_after (last : option HostProxyResponse) : option jstr :=
  match last with
  | Some response => match jget (js "retry-after") (h_headers response) with Some ((_ :: _) as t) => Some t | _ => None end
  | None => None
  end.

(* src: integrations/calendar/app/relay.ts 204-213 listCalendars ! *)
Definition list_refused (receipt : ExternalReceipt) (st : Relayed) : res Failure (list CalendarEntry) :=
  Err (StatusError (js "Google Calendar returned " ++ dec_signed (r_status receipt)) (r_status receipt) (retry_after st.2) None).

(** Reading with [left_] pages of the ten still to go; a token is sent as text. *)
(* src: integrations/calendar/app/relay.ts 192-236 listCalendars ! *)
Fixpoint list_pages (left_ : nat) (out : list CalendarEntry) (pageToken : option Json) : act Relayed Failure (list CalendarEntry) :=
  match left_ with
  | O => lift (fail "More than 2,500 calendars; the list was not read")
  | Datatypes.S left_ =>
      let params := [(js "maxResults", js "250")] ++ (if truthy_json pageToken then [(js "pageToken", string_of pageToken)] else []) in
      receipt ← relay (mkIntent (js "calendar-list") (js "GET") (list_href params)
                         (js "calendar-list-" ++ dec (Z.of_nat (10 - left_))) [] None);
      if (r_status receipt <? 200) || (300 <=? r_status receipt) then
        reads (list_refused receipt)
      else
        page ← lift (match JSON_parse (r_body receipt) with Some v => Ok v | None => fail "SyntaxError" end);
        items ← lift (at_ "items" (Some page));
        match items with
        | Some (OArr items) =>
            es ← lift (entries_of_items items);
            let next := member (js "nextPageToken") page in
            if truthy_json next then list_pages left_ (out ++ es) next else mret (out ++ es)
        | _ => lift (fail "Google Calendar list page must include an items array")
        end
  end.

(* src: integrations/calendar/app/relay.ts 182-239 listCalendars *)
Definition listCalendars : act Relayed Failure (list CalendarEntry) := list_pages 10 [] None.
End Relay.

(** ** What crosses to the proxy *)

(** The [URL] class takes the address of Google's API apart. *)
Class UrlClass (new_URL : jstr -> option Url) : Prop := {
  url_upstream : exists u, new_URL UPSTREAM = Some u /\ u_origin u = js "https://www.googleapis.com" /\ u_pathname u = js "/calendar/v3";
}.

Section Guard.
Context {S : Type} (new_URL : jstr -> option Url) (proxy : HostProxy S) (connectionId : jstr) `{!UrlClass new_URL}.
Implicit Types (st : Relayed (S := S)) (intent : ExternalIntent).

(** A request that may be made. *)
Definition allowed intent (q : HostProxyRequest) : Prop :=
  q_platform q = PLATFORM /\ q_connectionId q = connectionId /\ q_body q = i_body intent /\
  (exists u rest, new_URL (i_url intent) = Some u /\ u_origin u = js "https://www.googleapis.com" /\
     u_username u = [] /\ u_password u = [] /\ u_pathname u = js "/calendar/v3/" ++ rest /\ q_path q = u_pathname u) /\
  (q_method q = js "GET" \/
   q_method q = js "PATCH" /\ exists c etag, jget (js "If-Match") (i_headers intent) = Some (c :: etag) /\ q_ifMatch q = Some (c :: etag)).

Lemma starts_with_cat p s : starts_with p s = true -> exists r, s = p ++ r.
Proof.
  revert s. induction p as [|x p IH]; intros s; [by exists s|]. destruct s as [|y s]; [done|]. cbn.
  intros [->%Z.eqb_eq [r ->]%IH]%andb_true_iff. by exists r.
Qed.

Lemma jeqb_eq a b : jeqb a b = true <-> a = b.
Proof. apply bool_decide_eq_true. Qed.

Lemma relay_request_allowed intent q : relay_request new_URL connectionId intent = Ok q -> allowed intent q.
Proof using UrlClass0.
  unfold relay_request, relayPath. destruct url_upstream as (base & -> & Ho & Hp). destruct (new_URL (i_url intent)) as [u|] eqn:Eu; [|done].
  rewrite Ho, Hp. destruct (_ || negb (jeqb (u_hash u) [])) eqn:Eg; [done|]. cbn [mbind res_bind].
  destruct (_ && _) eqn:Em; [done|]. intros H. breflect.
  repeat match goal with H : jeqb _ _ = true |- _ => apply jeqb_eq in H end.
  assert (Hpath : exists rest, u_pathname u = js "/calendar/v3/" ++ rest) by (apply starts_with_cat in H4 as [r Hr]; exists r; by rewrite Hr).
  destruct Hpath as [rest Hrest].
  destruct (jeqb (upper (i_method intent)) (js "PATCH")) eqn:Ep.
  - apply jeqb_eq in Ep. destruct (jget (js "If-Match") (i_headers intent)) as [[|c e]|] eqn:Ei; cbn [andb negb is_some] in H; try done.
    injection H as <-. unfold allowed. cbn. split_and!; try done; [by exists u, rest|]. right. split; [done|]. by exists c, e.
  - cbn [andb] in H. injection H as <-. unfold allowed. cbn. split_and!; try done; [by exists u, rest|]. left.
    destruct Em as [Em%negb_false_iff|Em%negb_false_iff]; [by apply jeqb_eq in Em|congruence].
Qed.
End Guard.

Section Outcomes.
Context {S : Type} (new_URL : jstr -> option Url) (proxy : HostProxy S) (connectionId : jstr) `{!UrlClass new_URL}.
Implicit Types (st : Relayed (S := S)) (intent : ExternalIntent).

Lemma relay_request_error intent e : relay_request new_URL connectionId intent = Err e -> exists m, e = Failure_ m.
Proof.
  unfold relay_request, relayPath, fail. repeat (case_match; cbn [mbind res_bind]; try done); try (intros [= <-]; by eexists).
  all: match goal with H : (if ?c then _ else _) = _ |- _ => destruct c; try done; injection H as <- end.
  all: intros [= <-]; by eexists.
Qed.

(** What a request comes to. *)
Inductive relayed intent st : Relayed (S := S) -> res Failure ExternalReceipt -> Prop :=
| relayed_kept m : relay_request new_URL connectionId intent = Err (Failure_ m) -> relayed intent st st (Err (Failure_ m))
| relayed_lost q s cause : relay_request new_URL connectionId intent = Ok q -> allowed new_URL connectionId intent q ->
    proxy st.1 q = (s, Err cause) ->
    relayed intent st (s, st.2) (Err (if decide (q_method q = js "PATCH") then UncertainWriteError (i_id intent) cause else Failure_ (js cause)))
| relayed_refused q s response m : relay_request new_URL connectionId intent = Ok q -> allowed new_URL connectionId intent q ->
    proxy st.1 q = (s, Ok response) -> proxyRefusal response = Some m -> relayed intent st (s, Some response) (Err (Failure_ m))
| relayed_answered q s response body : relay_request new_URL connectionId intent = Ok q -> allowed new_URL connectionId intent q ->
    proxy st.1 q = (s, Ok response) -> proxyRefusal response = None ->
    relayed intent st (s, Some response) (Ok (mkReceipt (h_status response) body)).

Lemma relay_relayed intent st st' r : relay new_URL proxy connectionId intent st = (st', r) -> relayed intent st st' r.
Proof using UrlClass0.
  unfold relay. destruct (relay_request new_URL connectionId intent) as [q|e] eqn:Eq.
  - pose proof (relay_request_allowed new_URL connectionId intent q Eq) as Ha. destruct (proxy st.1 q) as [s [response|cause]] eqn:Ep.
    + destruct (proxyRefusal response) as [m|] eqn:Er; intros [= <- <-]; [by eapply relayed_refused|by eapply relayed_answered].
    + assert ((if jeqb (q_method q) (js "GET") then Failure_ (js cause) else UncertainWriteError (i_id intent) cause)
        = (if decide (q_method q = js "PATCH") then UncertainWriteError (i_id intent) cause else Failure_ (js cause))) as ->.
      { destruct Ha as (_ & _ & _ & _ & [->|[-> _]]); reflexivity. }
      intros H. injection H as <- <-. by apply (relayed_lost intent st q s cause).
  - destruct (relay_request_error _ _ Eq) as [m ->]. intros [= <- <-]. by apply relayed_kept.
Qed.

(** C28 (error). What leaves the app, and what is known of it.  The proxy is
    called at most once for a request, for the app's own connection, with a path
    under Google's calendar API and never with a credential; with GET, or with
    PATCH and the event's ETag.  A request that is not made leaves everything as
    it was and is an ordinary error.  Only a write whose call threw is of an
    unknown outcome; a refusal of the proxy's own is an ordinary error; and what
    Google answered comes back with its status, whatever that is. *)
Theorem relay_outcomes intent st st' r :
  relay new_URL proxy connectionId intent st = (st', r) ->
  relayed intent st st' r /\
  (forall id cause, r = Err (UncertainWriteError id cause) <->
     id = i_id intent /\ exists q, relay_request new_URL connectionId intent = Ok q /\ q_method q = js "PATCH" /\ proxy st.1 q = (st'.1, Err cause)) /\
  (forall id, r <> Err (StaleEventError id)).
Proof using UrlClass0.
  intros H%relay_relayed. split; [done|]. destruct H as [m Eq|q s cause Eq Ha Ep|q s response m Eq Ha Ep Er|q s response body Eq Ha Ep Er].
  - split; [|done]. intros id cause. split; [done|]. intros (_ & q & Hq & _). congruence.
  - split; [|intros id; by destruct (decide _)]. intros id c. destruct (decide (q_method q = js "PATCH")) as [Hm|Hm].
    + split; [intros [= <- <-]; split; [done|]; by exists q|]. intros (-> & q' & Hq & _ & Hp). rewrite Eq in Hq. injection Hq as <-. rewrite Ep in Hp. by injection Hp as <-.
    + split; [done|]. intros (_ & q' & Hq & Hm' & _). rewrite Eq in Hq. by injection Hq as <-.
  - split; [|done]. intros id c. split; [done|]. intros (_ & q' & Hq & _ & Hp). rewrite Eq in Hq. injection Hq as <-. by rewrite Ep in Hp.
  - split; [|done]. intros id c. split; [done|]. intros (_ & q' & Hq & _ & Hp). rewrite Eq in Hq. injection Hq as <-. by rewrite Ep in Hp.
Qed.
End Outcomes.

(** ** An instance *)

Module Demo.
Definition origin : jstr := js "https://www.googleapis.com".

(** Addresses of Google's API: a path up to a question mark. *)
Definition new_URL (href : jstr) : option Url :=
  if starts_with origin href then
    let '(path, query) := span (fun c => negb (c =? 63)) (drop (length origin) href) in
    Some (mkUrl href origin path [] [] [] (match query with [] => [] | _ => [(js "query", tail query)] end))
  else None.

#[export] Instance url_class : UrlClass new_URL.
Proof. split. eexists. split; [vm_compute; reflexivity|split; reflexivity]. Qed.

(** A proxy that counts its calls and loses the answers to writes. *)
Definition proxy : HostProxy nat := fun n q =>
  (Datatypes.S n, if jeqb (q_method q) (js "PATCH") then Err "timeout"%string else Ok (mkResponse 200 [] (Some (OObj [])))).

Lemma relay_outcomes_witness :
  let intent := request "update" "PATCH" (UPSTREAM ++ js "/calendars/me/events/e1") (js "write") (Some (OObj [])) (js "7") in
  exists cause, relay new_URL proxy (js "c1") intent (0%nat, None) = ((1%nat, None), Err (UncertainWriteError (js "write") cause)) /\
    exists q, allowed new_URL (js "c1") intent q.
Proof.
  intros intent. assert (E : relay new_URL proxy (js "c1") intent (0%nat, None) = ((1%nat, None), Err (UncertainWriteError (js "write") "timeout"))) by (vm_compute; reflexivity).
  exists "timeout"%string. split; [exact E|]. destruct (relay_outcomes new_URL proxy (js "c1") intent (0%nat, None) _ _ E) as (H & _).
  inversion H; subst; eauto.
Defined.
End Demo.
