(* ===== verification/CalendarSync.v ===== *)
(** * The rows of the Calendar app

    Models [src/integrations/calendar/app/sync.ts]: one row of the app's table
    for each event of Google's calendar, bound to it by the event's id, the ETag
    last read and the baseline, the projection both sides last agreed on.

    The host's store, its removal of properties ([removing]) and its proxy are
    parameters, functions of one state.  Reporting progress is not modelled. *)
From S2P Require Import Prelude Unicode Text Collections JsDate Civil Json JsonParse Uri Reconcile HostStore CalendarAdapter CalendarRelay.
Local Open Scope Z_scope.

Definition string_type : jstr := A ++ js "/datatypes/string".

(* src: integrations/calendar/app/sync.ts 61-67 Spec *)
Record Spec := mkSpec { sp_name : jstr; sp_datatype : jstr; sp_description : jstr; sp_column : bool }.

(* src: integrations/calendar/app/sync.ts 69-143 SPECS *)
Definition SPECS : list (jstr * Spec) :=
  [(js "location", mkSpec (js "Location") string_type
      (js "Where the event takes place, as Google Calendar has it.") true);
   (js "start", mkSpec (js "Start") string_type
      (js "YYYY-MM-DD for an all-day event, otherwise a date-time with its UTC offset.") true);
   (js "end", mkSpec (js "End") string_type
      (js "Exclusive: the day after the last day for an all-day event, otherwise a date-time with its UTC offset.") true);
   (js "all-day", mkSpec (js "All day") (A ++ js "/datatypes/boolean")
      (js "Whether Start and End are dates rather than date-times.") true);
   (js "day", mkSpec (js "Day") (A ++ js "/datatypes/date")
      (js "The date of Start, for calendar views. Derived on import; edit Start to move the event.") true);
   (js "google-event-id", mkSpec (js "Google event id") string_type
      (js "The Google Calendar event this row is bound to.") false);
   (js "google-etag", mkSpec (js "Google ETag") string_type
      (js "The event version last read from Google Calendar.") false);
   (js "google-link", mkSpec (js "Google Calendar link") string_type
      (js "The event" ++ [8217] ++ js "s page in Google Calendar (its htmlLink), as last read. Display only.") false);
   (js "sync-baseline", mkSpec (js "Sync baseline") string_type
      (js "JSON of the fields as both sides last agreed; tells local edits from Google edits.") false);
   (js "google-calendar-id", mkSpec (js "Google calendar id") string_type
      (js "The one Google calendar this table imports (on the table).") false);
   (js "google-calendar-meta", mkSpec (js "Google calendar details") string_type
      (js "JSON of the imported calendar" ++ [8217] ++ js "s name, colour, access role and account, as Google listed them (on the table; display only).") false)].

(* src: integrations/calendar/app/sync.ts 145-153 CalendarMeta *)
Record CalendarMeta := mkMeta { m_summary : jstr; m_color : jstr; m_accessRole : jstr; m_account : option jstr }.

(* src: integrations/calendar/app/sync.ts 155-155 DEFAULT_COLOR *)
Definition DEFAULT_COLOR : jstr := js "#4986e7".

(* src: integrations/calendar/app/sync.ts 157-158 isReadOnly *)
Definition isReadOnly (accessRole : jstr) : bool := jeqb accessRole (js "reader") || jeqb accessRole (js "freeBusyReader").

(** Short names and the properties they stand for. *)
Definition Names : Type := list (jstr * jstr).
Definition named (props : Names) (k : string) : jstr := default [] (jget (js k) props).

(* src: integrations/calendar/app/sync.ts 162-166 Layout *)
Record Layout := mkLayout { table : jstr; rowClass : jstr; ontology : jstr }.

(* src: integrations/calendar/app/sync.ts 168-171 asList *)
Definition asList (value : option Json) : list jstr :=
  match value with Some (OArr l) => omap (fun v => match v with OStr s => Some s | _ => None end) l | _ => [] end.

(** ** Rows *)

(* src: integrations/calendar/app/sync.ts 335-350 cardOf *)
Definition cardOf (props : Names) (subject : jstr) (row : Props) : Card :=
  let s k := OStr (text_of (row !! k)) in
  mkCard subject
    (match row !! named props "google-event-id" with Some (OStr ((_ :: _) as id)) => Some id | _ => None end)
    (projection (s NAME) (s DESCRIPTION) (s (named props "location")) (s (named props "start")) (s (named props "end"))
       (strict_eq (row !! named props "all-day") (Some (OBool true)))).

(** [null] is [ONull]. *)
(* src: integrations/calendar/app/sync.ts 352-361 baselineOf *)
Definition baselineOf (props : Names) (row : Props) : Json :=
  match row !! named props "sync-baseline" with
  | Some (OStr ((_ :: _) as raw)) => default ONull (JSON_parse raw)
  | _ => ONull
  end.

(* src: integrations/calendar/app/sync.ts 262-279 parseMeta *)
Definition parseMeta (raw : option Json) : option CalendarMeta :=
  match raw with
  | Some (OStr ((_ :: _) as raw)) =>
      meta ← JSON_parse raw;
      match meta with
      | ONull => None
      | _ =>
          summary ← CalendarAdapter.text (member (js "summary") meta);
          Some (mkMeta summary (default DEFAULT_COLOR (CalendarAdapter.text (member (js "color") meta)))
                  (default (js "reader") (CalendarAdapter.text (member (js "accessRole") meta)))
                  (CalendarAdapter.text (member (js "account") meta)))
      end
  | _ => None
  end.

Definition meta_json (meta : CalendarMeta) : Json :=
  OObj ([(js "summary", OStr (m_summary meta)); (js "color", OStr (m_color meta)); (js "accessRole", OStr (m_accessRole meta))]
        ++ match m_account meta with Some a => [(js "account", OStr a)] | None => [] end).

(** The reason a value cannot be sent. *)
(* src: integrations/calendar/app/sync.ts 363-381 invalid *)
Definition invalid (other : jstr -> option Z) (value : Json) : res Failure (option string) :=
  let v := Some value in
  title ← at_ "title" v;
  match CalendarAdapter.text title with
  | None => TypeError
  | Some title =>
      if bool_decide (trim title = []) then Ok (Some "the title is empty"%string)
      else
        let allDay := truthy_json (member (js "allDay") value) in
        let ok s := if allDay then civil_shape s && is_some (midnight other s) else offset_shape s && is_some (Date_parse other s) in
        let start := string_of (member (js "start") value) in
        let stop := string_of (member (js "end") value) in
        if negb (ok start) || negb (ok stop) then
          Ok (Some (if allDay then "all-day Start and End must be YYYY-MM-DD" else "Start and End need a date-time with a UTC offset")%string)
        else if num_leb (instant other allDay stop) (instant other allDay start) then Ok (Some "End must be after Start"%string)
        else Ok None
  end.

(* src: integrations/calendar/app/sync.ts 515-522 LABELS *)
Definition LABELS : list (jstr * string) :=
  [(js "title", "Title"); (js "description", "Description"); (js "location", "Location"); (js "start", "Start");
   (js "end", "End"); (js "allDay", "All day")]%string.

(* src: integrations/calendar/app/sync.ts 524-532 fieldsOf *)
Definition fieldsOf (before after : Json) : list (string * (jstr * jstr)) :=
  map (fun p => (p.2, (string_of (member p.1 before), string_of (member p.1 after))))
    (List.filter (fun p => negb (strict_eq (member p.1 before) (member p.1 after))) LABELS).

(** [value.start.slice(0, 10)] *)
Definition day_of (start : option Json) : res Failure Json :=
  match start with Some (OStr s) => Ok (OStr (take 10 s)) | Some (OArr l) => Ok (OArr (take 10 l)) | _ => TypeError end.

(* src: integrations/calendar/app/sync.ts 534-544 valuesOf *)
Definition valuesOf (props : Names) (value : Json) : res Failure (list (jstr * option Json)) :=
  let v k := member (js k) value in
  day ← day_of (v "start"%string);
  Ok (jmap_of [(NAME, v "title"%string); (DESCRIPTION, v "description"%string); (named props "location", v "location"%string);
               (named props "start", v "start"%string); (named props "end", v "end"%string);
               (named props "all-day", v "allDay"%string); (named props "day", Some day)]).

(** What [writeRow] sets on a row. *)
(* src: integrations/calendar/app/sync.ts 546-560 writeRow *)
Definition writeRow (props : Names) (row : Props) (value : Json) : res Failure (list (jstr * option Json)) :=
  vs ← valuesOf props value; Ok (List.filter (fun p => negb (strict_eq (row !! p.1) p.2)) vs).

(* src: integrations/calendar/app/sync.ts 467-478 PendingEdit *)
Record PendingEdit := mkPending {
  pe_edit : Edit; pe_etag : jstr; pe_title : Json; pe_fields : list (string * (jstr * jstr)); pe_remote : Json; pe_desired : Json
}.

(* src: integrations/calendar/app/sync.ts 480-487 ConflictKind *)
Inductive ConflictKind := both | missing_remote | missing_local.

(* src: integrations/calendar/app/sync.ts 489-500 Conflict *)
Record CalConflict := mkCalConflict {
  cf_subject : option jstr; cf_id : option jstr; cf_title : Json; cf_fields : list jstr; cf_kind : ConflictKind;
  cf_local : option Json; cf_remote : option Json; cf_base : option Json; cf_etag : option jstr
}.

(* src: integrations/calendar/app/sync.ts 502-513 ImportSummary *)
Record ImportSummary := mkSummary {
  is_calendarId : jstr; is_total : Z; is_added : Z; is_updated : Z; is_unchanged : Z; is_skipped : Z * Z;
  is_conflicts : list CalConflict; is_localOnly : Z; is_invalid : list (jstr * string); is_review : list PendingEdit
}.

(** The text of [needle] somewhere. *)
Fixpoint includes (needle s : jstr) : bool :=
  starts_with needle s || match s with [] => false | _ :: s => includes needle s end.

(* src: integrations/calendar/app/sync.ts 610-632 refresh ! *)
Definition conflict_of (titles : list (jstr * jstr)) (c : Clash) : CalConflict :=
  let kind := match k_remote c with
              | Some _ => both
              | None => if includes (js "no deletion inferred") (default [] (head (k_fields c))) then missing_remote else missing_local
              end in
  let known := subject ← k_subject c; jget subject titles in
  let title := match known with
               | Some ((_ :: _) as t) => OStr t
               | _ =>
                   let remote := omember (js "title") (k_remote c) in
                   if truthy_json remote then default ONull remote
                   else match k_id c with Some ((_ :: _) as id) => OStr id | _ => OStr (js "(untitled)") end
               end in
  let nonempty o := match o with Some ((_ :: _) as x) => Some x | _ => (None : option jstr) end in
  mkCalConflict (nonempty (k_subject c)) (nonempty (k_id c)) title (k_fields c) kind (k_local c) (k_remote c) (k_base c) (nonempty (k_etag c)).

(** ** Sync *)

Section Sync.
Context {S : Type} (host : HostStore S) (removing : S -> jstr -> list jstr -> S * res string unit).
Context (proxy : HostProxy S) (new_URL : jstr -> option Url) (other : jstr -> option Z).
Context (reconcileRecord : Side -> Side -> Side -> SyncDecision (V := Json)).

#[local] Abbreviation act := (act S Failure).

(** A call of the host, whose exception is an [Error]. *)
Definition calling {A} (m : HostStore.act S string A) : act A := throwing (fun e => Failure_ (js e)) m.

Definition get_resource (subject : jstr) : act Props := calling (reads (fun s => getResource host s subject)).
Definition save_values (subject : jstr) (vals : list (jstr * option Json)) : act unit := calling (writes (fun s => save host s subject vals)).

(* src: integrations/calendar/app/sync.ts 173-183 layout *)
Definition layout : act Layout :=
  data ← calling (reads (getData host));
  match data with
  | Some (t, Some ((_ :: _) as c)) =>
      klass ← get_resource c;
      match klass !! PARENT with
      | Some (OStr o) => mret (mkLayout t c o)
      | _ => lift (fail "The row class has no parent ontology to add fields to.")
      end
  | _ => lift (fail "This app has no table with a row class to sync into.")
  end.

(** [found.set(shortname, subject)], for a property with a short name. *)
Definition find_name (found : Names) (subject : jstr) : act Names :=
  property ← get_resource subject;
  mret (match property !! SHORTNAME with Some (OStr n) => jset n subject found | _ => found end).

(* src: integrations/calendar/app/sync.ts 246-260 existing *)
Definition existing (where_ : Layout) : act Names :=
  onto ← get_resource (ontology where_);
  loop find_name [] (asList (onto !! PROPERTIES)).

(* src: integrations/calendar/app/sync.ts 204-218 properties ! *)
Definition create_property (o : jstr) (acc : Names * list jstr) (p : jstr * Spec) : act (Names * list jstr) :=
  x ← calling (writes (fun s => newResource host s o [PROPERTY_CLASS]
        [(SHORTNAME, Some (OStr p.1)); (NAME, Some (OStr (sp_name p.2))); (DESCRIPTION, Some (OStr (sp_description p.2)));
         (DATATYPE, Some (OStr (sp_datatype p.2)))]));
  mret (jset p.1 x acc.1, acc.2 ++ [x]).

(* src: integrations/calendar/app/sync.ts 227-241 properties ! *)
Definition recommend (c : jstr) (props : Names) : act unit :=
  klass ← get_resource c;
  let recommends := asList (klass !! RECOMMENDS) in
  let wanted := NAME :: DESCRIPTION :: omap (fun p => if sp_column p.2 then jget p.1 props else None) SPECS in
  let merged := recommends ++ List.filter (fun x => negb (bool_decide (x ∈ recommends))) wanted in
  if negb (Nat.eqb (length merged) (length recommends)) || negb (strict_eq (klass !! NAME) (Some (OStr (js "Event"))))
  then save_values c [(RECOMMENDS, Some (OArr (map OStr merged))); (NAME, Some (OStr (js "Event")))]
  else mret tt.

(* src: integrations/calendar/app/sync.ts 185-244 properties *)
Definition properties (where_ : Layout) (create : bool) : act (option Names) :=
  onto ← get_resource (ontology where_);
  let listed := asList (onto !! PROPERTIES) in
  found ← loop find_name [] listed;
  let absent := List.filter (fun p : jstr * Spec => negb (has_key p.1 found)) SPECS in
  match absent, create with
  | _ :: _, false => mret None
  | _, _ =>
      made ← loop (create_property (ontology where_)) (found, []) absent;
      _ ← match made.2 with
          | [] => mret tt
          | created => save_values (ontology where_) [(PROPERTIES, Some (OArr (map OStr (listed ++ created))))]
          end;
      let props := map (fun p : jstr * Spec => (p.1, default [] (jget p.1 made.1))) SPECS in
      _ ← recommend (rowClass where_) props;
      mret (Some props)
  end.

(** [(await properties(store, where, true))!] *)
Definition all_properties (where_ : Layout) : act Names :=
  props ← properties where_ true;
  match props with Some props => mret props | None => lift TypeError end.

(* src: integrations/calendar/app/sync.ts 281-296 chosenCalendar *)
Definition chosenCalendar : act (option (jstr * option CalendarMeta)) :=
  where_ ← layout;
  found ← existing where_;
  match jget (js "google-calendar-id") found with
  | Some ((_ :: _) as idProp) =>
      t ← get_resource (table where_);
      match t !! idProp with
      | Some (OStr ((_ :: _) as id)) =>
          mret (Some (id, match jget (js "google-calendar-meta") found with
                          | Some ((_ :: _) as metaProp) => parseMeta (t !! metaProp)
                          | _ => None
                          end))
      | _ => mret None
      end
  | _ => mret None
  end.

(* src: integrations/calendar/app/sync.ts 298-330 chooseCalendar *)
Definition chooseCalendar (id summary : jstr) (backgroundColor accessRole account : option jstr) : act CalendarMeta :=
  where_ ← layout;
  props ← all_properties where_;
  t ← get_resource (table where_);
  if match t !! named props "google-calendar-id" with Some (OStr ((_ :: _) as current)) => negb (jeqb current id) | _ => false end
  then lift (fail "This table already imports another calendar. Use a new Calendar app for a second one.")
  else
    let meta := mkMeta summary (default DEFAULT_COLOR backgroundColor) (default (js "reader") accessRole)
                  (match account with Some ((_ :: _) as a) => Some a | _ => None end) in
    _ ← save_values (table where_) [(named props "google-calendar-id", Some (OStr id));
          (named props "google-calendar-meta", Some (OStr (json_text (meta_json meta)))); (NAME, Some (OStr summary))];
    mret meta.

(** ** The rows *)

(* src: integrations/calendar/app/sync.ts 383-390 Rows *)
Record Rows := mkRows { rw_bound : list (jstr * Props); rw_localOnly : Z }.

(* src: integrations/calendar/app/sync.ts 404-412 readRows ! *)
Definition read_row (props : Names) (out : Rows) (subject : jstr) : act Rows :=
  row ← get_resource subject;
  mret (match c_id (cardOf props subject row) with
        | None => mkRows (rw_bound out) (rw_localOnly out + 1)
        | Some _ => mkRows (jset subject row (rw_bound out)) (rw_localOnly out)
        end).

(* src: integrations/calendar/app/sync.ts 392-415 readRows *)
Definition readRows (where_ : Layout) (props : Names) : act Rows :=
  subjects ← calling (reads (fun s => query host s PARENT (table where_)));
  loop (read_row props) (mkRows [] 0) subjects.

(** Rows whose value cannot be sent, by subject: the title and the reason. *)
Definition Held : Type := list (jstr * (jstr * string)).

(* src: integrations/calendar/app/sync.ts 433-445 host ! *)
Definition card_of_row (props : Names) (acc : list Card * Held) (p : jstr * Props) : res Failure (list Card * Held) :=
  let card := cardOf props p.1 p.2 in
  reason ← invalid other (c_value card);
  Ok (match reason with
      | Some reason =>
          let held := jset p.1 (text_of (member (js "title") (c_value card)), reason) acc.2 in
          let baseline := baselineOf props p.2 in
          if truthy_json (Some baseline) then (acc.1 ++ [mkCard (c_subject card) (c_id card) baseline], held) else (acc.1, held)
      | None => (acc.1 ++ [card], acc.2)
      end).

Fixpoint cards_of_rows (props : Names) (acc : list Card * Held) (rows : list (jstr * Props)) : res Failure (list Card * Held) :=
  match rows with [] => Ok acc | p :: rows => acc ← card_of_row props acc p; cards_of_rows props acc rows end.

(* src: integrations/calendar/app/sync.ts 449-461 host ! *)
Definition records_of (props : Names) (rows : list (jstr * Props)) : list (jstr * Binding) :=
  fold_left (fun m p => jset (text_of (p.2 !! named props "google-event-id")) (mkBinding p.1 (baselineOf props p.2)) m) rows [].

(** The relay beside what the cards held back. *)
Definition Hosted : Type := (Relayed (S := S) * Held)%type.

Definition relaying {A} (m : HostStore.act (Relayed (S := S)) Failure A) : HostStore.act Hosted Failure A := fun st =>
  match m st.1 with (r, a) => ((r, st.2), a) end.

(* src: integrations/calendar/app/sync.ts 417-465 host *)
Definition calendar_host (connectionId : jstr) (props : Names) (rows : Rows) : Host Hosted :=
  CalendarAdapter.mkHost Hosted
    (fun intent => relaying (relay new_URL proxy connectionId intent))
    (fun st => match cards_of_rows props ([], st.2) (rw_bound rows) with
               | Ok (cards, held) => ((st.1, held), Ok cards)
               | Err e => (st, Err e)
               end)
    (mret (mkState 0 (records_of props (rw_bound rows)) None)).

(** [/Google Calendar returned \d{3}\b/] in a text. *)
Fixpoint mentions_status (s : jstr) : bool :=
  (starts_with (js "Google Calendar returned ") s
   && match drop 25 s with
      | a :: b :: c :: r => is_digit a && is_digit b && is_digit c
          && match r with d :: _ => negb (is_digit d || is_upper d || ((97 <=? d) && (d <=? 122)) || (d =? 95)) | [] => true end
      | _ => false
      end)
  || match s with [] => false | _ :: s => mentions_status s end.

Definition message_of (e : Failure) : jstr :=
  match e with
  | StaleEventError _ => js "Google event changed after preview; preview again"
  | UncertainWriteError _ cause =>
      js "Google may or may not have applied this change (" ++ js cause ++ js "). Refresh to see what Google has now."
  | Failure_ m => m
  | StatusError m _ _ _ => m
  end.

(** The exception of a preview, with the status of the answer it is about. *)
(* src: integrations/calendar/app/sync.ts 776-810 withStatus *)
Definition withStatus (last : option HostProxyResponse) (e : Failure) : Failure :=
  match last with
  | Some response =>
      if mentions_status (message_of e) && (400 <=? h_status response)
      then StatusError (message_of e) (h_status response) (retry_after last)
             (match h_body response with
              | Some ((OObj _ | OArr _) as b) => Some (json_text b)
              | Some (OStr ((_ :: _) as b)) => Some b
              | _ => None
              end)
      else e
  | None => e
  end.

(* src: integrations/calendar/app/sync.ts 586-599 refresh ! *)
Definition preview_rows (connectionId : jstr) (props : Names) (rows : Rows) (calendarId : jstr) (maxPages : nat)
    : act (Preview * Held) := fun s =>
  match preview other reconcileRecord (calendar_host connectionId props rows) calendarId maxPages ((s, None), []) with
  | (((s', _), held), Ok pv) => (s', Ok (pv, held))
  | (((s', last), _), Err e) => (s', Err (withStatus last e))
  end.

(** A row that is made of an event. *)
(* src: integrations/calendar/app/sync.ts 643-657 refresh ! *)
Definition add_row (where_ : Layout) (props : Names) (change : Change) (id : jstr) (baseline : jstr) : act unit :=
  vs ← lift (valuesOf props (ch_desired change));
  _ ← calling (writes (fun s => newResource host s (table where_) [rowClass where_]
        (jmap_of (vs ++ [(named props "google-event-id", Some (OStr id)); (named props "google-etag", Some (OStr (default [] (ch_etag change))));
               (named props "sync-baseline", Some (OStr baseline))]
            ++ match ch_link change with Some ((_ :: _) as l) => [(named props "google-link", Some (OStr l))] | _ => [] end))));
  mret tt.

(** What an update sets on a row: the fields, and the bookkeeping. *)
(* src: integrations/calendar/app/sync.ts 659-671 refresh ! *)
Definition row_updates (props : Names) (row : Props) (change : Change) (baseline : jstr)
    : res Failure (list (jstr * option Json) * list (jstr * option Json)) :=
  updated ← writeRow props row (ch_desired change);
  let row := assign updated row in
  let etag := OStr (default [] (ch_etag change)) in
  let link := OStr (default [] (ch_link change)) in
  let bookkeeping :=
    negb (strict_eq (row !! named props "google-etag") (Some etag))
    || negb (strict_eq (row !! named props "sync-baseline") (Some (OStr baseline)))
    || negb (strict_eq (nullish (row !! named props "google-link") (Some (OStr []))) (Some link)) in
  Ok (updated, if bookkeeping
               then [(named props "google-etag", Some etag); (named props "sync-baseline", Some (OStr baseline)); (named props "google-link", Some link)]
               else []).

Definition is_empty {A} (l : list A) : bool := match l with [] => true | _ => false end.

(* src: integrations/calendar/app/sync.ts 675-689 refresh ! *)
Definition review_of (change : Change) (id : jstr) (remote : Json) : list PendingEdit :=
  match planEdit id (ch_desired change) remote (ch_subject change), ch_etag change with
  | Some edit, Some ((_ :: _) as etag) =>
      [mkPending edit etag (default ONull (member (js "title") remote)) (fieldsOf remote (ch_desired change)) remote (ch_desired change)]
  | _, _ => []
  end.

(* src: integrations/calendar/app/sync.ts 638-690 refresh ! *)
Definition apply_change (where_ : Layout) (props : Names) (rows : Rows) (held : Held) (sum : ImportSummary) (change : Change)
    : act ImportSummary :=
  match ch_id change, ch_remote change with
  | Some ((_ :: _) as id), Some remote =>
      let baseline := json_text remote in
      match ch_subject change with
      | Some ((_ :: _) as subject) =>
          if has_key subject held then mret sum
          else
            match jget subject (rw_bound rows) with
            | None => lift TypeError
            | Some row =>
                '(updated, bookkeeping) ← lift (row_updates props row change baseline);
                _ ← (if is_empty updated && is_empty bookkeeping then mret tt else save_values subject (updated ++ bookkeeping));
                mret (mkSummary (is_calendarId sum) (is_total sum) (is_added sum)
                        (is_updated sum + if is_empty updated then 0 else 1) (is_unchanged sum + if is_empty updated then 1 else 0)
                        (is_skipped sum) (is_conflicts sum) (is_localOnly sum) (is_invalid sum) (is_review sum ++ review_of change id remote))
            end
      | _ =>
          _ ← add_row where_ props change id baseline;
          mret (mkSummary (is_calendarId sum) (is_total sum) (is_added sum + 1) (is_updated sum) (is_unchanged sum)
                  (is_skipped sum) (is_conflicts sum) (is_localOnly sum) (is_invalid sum) (is_review sum))
      end
  | _, _ => mret sum
  end.

(* src: integrations/calendar/app/sync.ts 585-693 refresh ! *)
Definition import_rows (connectionId : jstr) (where_ : Layout) (props : Names) (calendarId : jstr) (maxPages : nat) : act ImportSummary :=
  rows ← readRows where_ props;
  '(pv, held) ← preview_rows connectionId props rows calendarId maxPages;
  let titles := map (fun p : jstr * Props => (p.1, text_of (p.2 !! NAME))) (rw_bound rows) in
  let sum := mkSummary calendarId (Z.of_nat (length (p_changes pv))) 0 0 0 (p_skipped pv)
               (map (conflict_of titles) (p_conflicts pv)) (rw_localOnly rows) (map snd held) [] in
  loop (apply_change where_ props rows held) sum (p_changes pv).

(* src: integrations/calendar/app/sync.ts 562-693 refresh *)
Definition refresh (connectionId : jstr) (maxPages : nat) : act ImportSummary :=
  where_ ← layout;
  props ← all_properties where_;
  t ← get_resource (table where_);
  match t !! named props "google-calendar-id" with
  | Some (OStr ((_ :: _) as calendarId)) => import_rows connectionId where_ props calendarId maxPages
  | _ => lift (fail "Choose a calendar first.")
  end.

(** ** Sending *)

(* src: integrations/calendar/app/sync.ts 695-703 Outcome ! *)
Inductive Outcome :=
| sent (title : Json)
| stale (title : Json)
| uncertain (title : Json) (message : jstr)
| failed (title : Json) (message : jstr)
| not_sent (title : Json).

(* src: integrations/calendar/app/sync.ts 738-743 send ! *)
Definition sending_host (connectionId : jstr) : Host (Relayed (S := S)) :=
  CalendarAdapter.mkHost (Relayed (S := S)) (relay new_URL proxy connectionId) (mret [])
    (lift (fail "applyEdit does not read connection state")).

Definition without_last {A} (m : HostStore.act (Relayed (S := S)) Failure A) : act A := fun s =>
  match m (s, None) with ((s', _), r) => (s', r) end.

(** The baseline of a row takes what Google confirmed. *)
(* src: integrations/calendar/app/sync.ts 745-753 send ! *)
Definition confirm (props : option Names) (subject : jstr) (event : Json) (value : Json) : act unit :=
  _ ← get_resource subject;
  match props with
  | Some props => save_values subject [(named props "google-etag", member (js "etag") event); (named props "sync-baseline", Some (OStr (json_text value)))]
  | None => lift TypeError
  end.

(* src: integrations/calendar/app/sync.ts 738-754 send ! *)
Definition send_edit (connectionId root : jstr) (props : option Names) (pending : PendingEdit) : act unit :=
  event ← without_last (applyEdit (sending_host connectionId) root (pe_edit pending) (pe_etag pending));
  value ← lift (project other (Some event));
  match e_subject (pe_edit pending), value with
  | Some ((_ :: _) as subject), Some value => confirm props subject event value
  | _, _ => mret tt
  end.

(** [try { … } catch], and whether the batch stops. *)
(* src: integrations/calendar/app/sync.ts 727-771 send ! *)
Definition send_one (connectionId root : jstr) (props : option Names) (acc : list Outcome * bool) (pending : PendingEdit)
    : act (list Outcome * bool) := fun s =>
  let title := pe_title pending in
  if acc.2 then (s, Ok (acc.1 ++ [not_sent title], true))
  else match send_edit connectionId root props pending s with
       | (s', Ok _) => (s', Ok (acc.1 ++ [sent title], false))
       | (s', Err (StaleEventError _)) => (s', Ok (acc.1 ++ [stale title], false))
       | (s', Err (UncertainWriteError _ _ as e)) => (s', Ok (acc.1 ++ [uncertain title (message_of e)], true))
       | (s', Err e) => (s', Ok (acc.1 ++ [failed title (message_of e)], false))
       end.

(* src: integrations/calendar/app/sync.ts 705-774 send *)
Definition send (connectionId calendarId : jstr) (review : list PendingEdit) : act (list Outcome) :=
  where_ ← layout;
  props ← properties where_ false;
  root ← lift (endpoint calendarId);
  acc ← loop (send_one connectionId root props) ([], false) review;
  mret acc.1.

(** ** Reading and editing rows *)

(* src: integrations/calendar/app/events.ts 14-30 CalEvent *)
Record CalEvent := mkCalEvent {
  ev_value : Json; ev_subject : jstr; ev_id : option jstr; ev_baseline : option Json; ev_link : option jstr;
  ev_pending : bool; ev_conflict : bool; ev_readOnly : bool; ev_calendar : jstr * jstr
}.

(* src: integrations/calendar/app/sync.ts 829-849 readEvents ! *)
Definition event_of (props : Names) (meta : CalendarMeta) (inConflict : list (option jstr)) (subject : jstr) (row : Props) : CalEvent :=
  let card := cardOf props subject row in
  let baseline := baselineOf props row in
  let known := truthy_json (Some baseline) in
  mkCalEvent (c_value card) subject (c_id card) (if known then Some baseline else None)
    (match row !! named props "google-link" with Some (OStr l) => if is_https l then Some l else None | _ => None end)
    (is_some (c_id card) && known
     && existsb (fun p : jstr * string => negb (strict_eq (member p.1 baseline) (member p.1 (c_value card)))) LABELS)
    (bool_decide (Some subject ∈ inConflict))
    (isReadOnly (m_accessRole meta) || negb (is_some (c_id card)))
    (m_summary meta, m_color meta).

(* src: integrations/calendar/app/sync.ts 812-853 readEvents *)
Definition readEvents (meta : CalendarMeta) (conflicts : list CalConflict) : act (list CalEvent) :=
  where_ ← layout;
  props ← all_properties where_;
  subjects ← calling (reads (fun s => query host s PARENT (table where_)));
  loop (fun out subject => row ← get_resource subject; mret (out ++ [event_of props meta (map cf_subject conflicts) subject row])) [] subjects.

(* src: integrations/calendar/app/sync.ts 855-867 saveMeta *)
Definition saveMeta (meta : CalendarMeta) : act unit :=
  where_ ← layout;
  props ← all_properties where_;
  _ ← get_resource (table where_);
  save_values (table where_) [(named props "google-calendar-meta", Some (OStr (json_text (meta_json meta))))].

(* src: integrations/calendar/app/sync.ts 869-883 saveLocal *)
Definition saveLocal (subject : jstr) (value : Json) : act unit :=
  where_ ← layout;
  props ← all_properties where_;
  row ← get_resource subject;
  updated ← lift (writeRow props row value);
  if is_empty updated then mret tt else save_values subject updated.

(** Some fields of a row, with what Google has as its baseline. *)
Definition settle_row (props : Names) (subject : jstr) (value remote : Json) (etag : jstr) : act unit :=
  row ← get_resource subject;
  updated ← lift (writeRow props row value);
  save_values subject (updated ++ [(named props "google-etag", Some (OStr etag)); (named props "sync-baseline", Some (OStr (json_text remote)))]).

(* src: integrations/calendar/app/sync.ts 885-899 discard *)
Definition discard (pending : PendingEdit) : act unit :=
  match e_subject (pe_edit pending) with
  | Some ((_ :: _) as subject) =>
      where_ ← layout;
      props ← all_properties where_;
      settle_row props subject (pe_remote pending) (pe_remote pending) (pe_etag pending)
  | _ => mret tt
  end.

(* src: integrations/calendar/app/sync.ts 901-901 Choice *)
Inductive Choice := mine | google.

(** What a resolved conflict makes of a field. *)
(* src: integrations/calendar/app/sync.ts 923-932 resolveConflict ! *)
Definition resolved (choices : list (jstr * Choice)) (base : option Json) (local remote : Json) (k : jstr) : option Json :=
  match jget k choices with
  | Some mine => member k local
  | Some google => member k remote
  | None =>
      if match base with Some b => negb (strict_eq (member k b) (member k local)) | None => false end
      then member k local else member k remote
  end.

Definition resolved_value (choices : list (jstr * Choice)) (base : option Json) (local remote : Json) : Json :=
  OObj (omap (fun p : jstr * string => (fun v => (p.1, v)) <$> resolved choices base local remote p.1) LABELS).

(* src: integrations/calendar/app/sync.ts 903-944 resolveConflict *)
Definition resolveConflict (conflict : CalConflict) (choices : list (jstr * Choice)) : act unit :=
  match cf_kind conflict, cf_subject conflict, cf_local conflict, cf_remote conflict with
  | both, Some ((_ :: _) as subject), Some local, Some remote =>
      match List.filter (fun f => negb (has_key f choices)) (cf_fields conflict) with
      | f :: _ => lift (Err (Failure_ (js "Choose a value for " ++ f ++ js ".")))
      | [] =>
          let merged := resolved_value choices (cf_base conflict) local remote in
          reason ← lift (invalid other merged);
          match reason with
          | Some reason => lift (Err (Failure_ (js "That combination can" ++ [8217] ++ js "t be saved: " ++ js reason ++ js ".")))
          | None =>
              where_ ← layout;
              props ← all_properties where_;
              settle_row props subject merged remote (default [] (cf_etag conflict))
          end
      end
  | _, _, _, _ => lift (fail "Only a both-changed conflict can be resolved per field.")
  end.

(* src: integrations/calendar/app/sync.ts 946-963 keepAsLocal *)
Definition keepAsLocal (subject : jstr) : act unit :=
  where_ ← layout;
  props ← all_properties where_;
  _ ← get_resource subject;
  calling (writes (fun s => removing s subject (map (named props) ["google-event-id"; "google-etag"; "sync-baseline"]%string))).

(* src: integrations/calendar/app/sync.ts 965-968 tableOf *)
Definition tableOf : act jstr := where_ ← layout; mret (table where_).

(* src: integrations/calendar/app/sync.ts 970-976 removeLocal *)
Definition removeLocal (subject : jstr) : act unit :=
  _ ← get_resource subject;
  calling (writes (fun s => destroy host s subject)).
End Sync.

(** ** Laws of the host

    The proxy's calls leave the drive alone, and a save that is refused writes
    nothing. *)
Class Beside {S} (host : HostStore S) (proxy : HostProxy S) (content : S -> gmap (list Z) Props) : Prop := {
  proxy_beside : forall s q s' r, proxy s q = (s', r) -> content s' = content s;
  save_refused : forall s x vals s' e, save host s x vals = (s', Err e) -> content s' = content s;
}.

Section Sending.
Context {S : Type} (host : HostStore S) (proxy : HostProxy S) (new_URL : jstr -> option Url) (other : jstr -> option Z).
Context (content : S -> gmap (list Z) Props) `{!Drive host content} `{!Beside host proxy content} `{!UrlClass new_URL}.
Context (connectionId root : jstr) (props : option Names).
Implicit Types (s : S) (x : jstr) (pending : PendingEdit).

(** Steps of the host. *)
Lemma calling_ok {A} (m : HostStore.act S string A) s s' a : calling m s = (s', Ok a) <-> m s = (s', Ok a).
Proof. unfold calling, throwing. destruct (m s) as [s1 [b|e]]; split; congruence. Qed.

Lemma get_resource_inv x s s' r : get_resource host x s = (s', Ok r) -> s' = s /\ content s !! x = Some r.
Proof using Drive0.
  intros H%calling_ok. injection H as <- H. split; [done|]. by eapply drive_get.
Qed.

Lemma get_resource_state x s s' r : get_resource host x s = (s', r) -> s' = s.
Proof. unfold get_resource, calling, throwing, reads. destruct (getResource host s x); congruence. Qed.

Lemma save_values_content x vals s s' r0 : save_values host x vals s = (s', Ok tt) -> content s !! x = Some r0 ->
  content s' = <[x := assign vals r0]> (content s).
Proof using Drive0. intros H%calling_ok Hr. by eapply drive_save. Qed.

Lemma save_values_refused x vals s s' e : save_values host x vals s = (s', Err e) -> content s' = content s.
Proof using Beside0.
  unfold save_values, calling, throwing, writes. destruct (save host s x vals) as [s1 [[]|e1]] eqn:E; [done|]. intros [= <- _]. by eapply save_refused.
Qed.

(** The request of a pending edit. *)
Definition edit_intent pending id : ExternalIntent :=
  request "update" "PATCH" (root ++ js "/" ++ id ++ js "?sendUpdates=none") (js "write") (Some (patch_json (e_patch (pe_edit pending)))) (pe_etag pending).

Definition patches pending (q : HostProxyRequest) : Prop := exists id,
  encodeURIComponent (e_id (pe_edit pending)) = Some id /\ allowed new_URL connectionId (edit_intent pending id) q /\
  q_method q = js "PATCH" /\ q_ifMatch q = Some (pe_etag pending) /\
  q_body q = Some (json_text (patch_json (e_patch (pe_edit pending)))).

(** A row of which Google confirmed an edit. *)
Definition confirmed_row (event value : Json) (r : Props) : Props :=
  match props with
  | Some names => assign [(named names "google-etag", member (js "etag") event); (named names "sync-baseline", Some (OStr (json_text value)))] r
  | None => r
  end.

Definition confirmed pending (event : Json) (value : option Json) (c c' : gmap (list Z) Props) : Prop :=
  match e_subject (pe_edit pending), value with
  | Some ((_ :: _) as x), Some v => exists r, c !! x = Some r /\ c' = <[x := confirmed_row event v r]> c
  | _, _ => c' = c
  end.

(** The text of an answer, and an answer in which Google confirms an event. *)
Definition body_text (response : HostProxyResponse) : jstr :=
  match h_body response with Some (OStr b) => b | b => json_text (default ONull b) end.
Definition accepted (response : HostProxyResponse) (event : Json) : Prop :=
  proxyRefusal response = None /\ 200 <= h_status response < 300 /\ JSON_parse (body_text response) = Some event.
Definition conflicting (response : HostProxyResponse) : Prop := proxyRefusal response = None /\ h_status response = 412.

(** An edit of which no request can be made. *)
Definition unsendable pending : Prop := forall id, encodeURIComponent (e_id (pe_edit pending)) = Some id ->
  exists m, relay_request new_URL connectionId (edit_intent pending id) = Err (Failure_ m).

(** What becomes of one edit: no request, a call that threw, or an answer, which
    confirms a valid event, is 412, or is neither; and with a valid event, the
    row is written or cannot be. *)
Inductive sent_step pending s : Outcome -> S -> Prop :=
| step_sent q s1 response event value s' : patches pending q -> proxy s q = (s1, Ok response) ->
    accepted response event -> project other (Some event) = Ok value ->
    confirmed pending event value (content s) (content s') -> sent_step pending s (sent (pe_title pending)) s'
| step_stale q s' response : patches pending q -> proxy s q = (s', Ok response) -> conflicting response ->
    content s' = content s -> sent_step pending s (stale (pe_title pending)) s'
| step_uncertain q s' cause message : patches pending q -> proxy s q = (s', Err cause) -> content s' = content s ->
    sent_step pending s (uncertain (pe_title pending) message) s'
| step_unsent message : unsendable pending -> sent_step pending s (failed (pe_title pending) message) s
| step_rejected q s' response message : patches pending q -> proxy s q = (s', Ok response) -> ~ conflicting response ->
    (forall event value, accepted response event -> project other (Some event) <> Ok value) ->
    content s' = content s -> sent_step pending s (failed (pe_title pending) message) s'
| step_unsaved q s1 response event x v e s' message : patches pending q -> proxy s q = (s1, Ok response) ->
    accepted response event -> project other (Some event) = Ok (Some v) -> e_subject (pe_edit pending) = Some x ->
    confirm host props x event v s1 = (s', Err e) -> content s' = content s ->
    sent_step pending s (failed (pe_title pending) message) s'.

Lemma edit_request_patches pending id q : encodeURIComponent (e_id (pe_edit pending)) = Some id ->
  relay_request new_URL connectionId (edit_intent pending id) = Ok q -> patches pending q.
Proof using UrlClass0.
  intros Hid Hq. exists id. split; [done|]. pose proof (relay_request_allowed _ _ _ _ Hq) as Ha. split; [done|].
  destruct Ha as (_ & _ & Hbody & _ & Hm). unfold relay_request in Hq. destruct (relayPath _ _) as [[path query]|]; [|done].
  cbn [mbind res_bind] in Hq. change (upper (i_method (edit_intent pending id))) with (js "PATCH") in Hq.
  change (jeqb (js "PATCH") (js "GET")) with false in Hq. change (jeqb (js "PATCH") (js "PATCH")) with true in Hq. cbn [negb andb] in Hq.
  destruct (match jget (js "If-Match") (i_headers (edit_intent pending id)) with Some ((_ :: _) as e) => Some e | _ => None end) as [e|] eqn:Ee; [|done].
  cbn [is_some negb] in Hq. assert (Hinj : forall a b : HostProxyRequest, Ok (E := Failure) a = Ok b -> a = b) by (by intros ? ? [= ->]).
  apply Hinj in Hq. subst q. cbn [q_method q_ifMatch q_body] in *. split; [done|]. split; [|done].
  unfold edit_intent, request in Ee. cbn [i_headers] in Ee. case_bool_decide as Ei; [done|].
  rewrite jget_jset, decide_True in Ee by done. by destruct (pe_etag pending).
Qed.

Lemma relay_state intent st st' r : relay new_URL proxy connectionId intent st = (st', r) -> content st'.1 = content st.1.
Proof using Beside0.
  unfold relay. destruct (relay_request _ _ _); [|by intros [= <- _]]. destruct (proxy st.1 _) as [s1 [response|cause]] eqn:Ep;
    intros [= <- _]; cbn [fst]; by eapply proxy_beside.
Qed.

(** What [applyEdit] comes to. *)
Lemma apply_edit_step pending s s1 r :
  without_last (applyEdit (sending_host proxy new_URL connectionId) root (pe_edit pending) (pe_etag pending)) s = (s1, r) ->
  content s1 = content s /\
  match r with
  | Ok event => exists q response, patches pending q /\ proxy s q = (s1, Ok response) /\ accepted response event
  | Err (StaleEventError _) => exists q response, patches pending q /\ proxy s q = (s1, Ok response) /\ conflicting response
  | Err (UncertainWriteError _ _) => exists q cause, patches pending q /\ proxy s q = (s1, Err cause)
  | Err (Failure_ _) => s1 = s /\ unsendable pending \/
      exists q response, patches pending q /\ proxy s q = (s1, Ok response) /\ ~ conflicting response /\ forall event, ~ accepted response event
  | Err _ => False
  end.
Proof using Beside0 UrlClass0.
  unfold without_last, applyEdit. unfold mbind, act_bind, lift, encode. destruct (encodeURIComponent (e_id (pe_edit pending))) as [id|] eqn:Eid.
  2: { intros [= <- <-]. split; [done|]. left. split; [done|]. intros id. by rewrite Eid. }
  cbn [read sending_host]. fold (edit_intent pending id). unfold relay. cbn [fst snd].
  destruct (relay_request new_URL connectionId (edit_intent pending id)) as [q|e] eqn:Eq.
  2: { destruct (relay_request_error _ _ _ _ Eq) as [m ->]. intros [= <- <-]. split; [done|]. left. split; [done|]. intros id'. rewrite Eid. intros [= <-]. by exists m. }
  pose proof (edit_request_patches pending id q Eid Eq) as Hp. assert (q_method q = js "PATCH") as Hm by (by destruct Hp as (? & _ & _ & ? & _)).
  destruct (proxy s q) as [s2 [response|cause]] eqn:Ep; pose proof (proxy_beside _ _ _ _ Ep) as Hc.
  2: { rewrite Hm. change (jeqb (js "PATCH") (js "GET")) with false. cbn iota. intros [= <- <-]. split; [done|]. by exists q, cause. }
  destruct (proxyRefusal response) as [m|] eqn:Er.
  { intros [= <- <-]. split; [done|]. right. exists q, response. unfold conflicting, accepted. rewrite Er. split_and!; [done|done|by intros [? _]|by intros ? [? _]]. }
  cbn [r_status]. destruct (Z.eqb_spec (h_status response) 412) as [E412|E412].
  { intros [= <- <-]. split; [done|]. by exists q, response. }
  assert (forall m, (forall event, ~ accepted response event) -> (s2, Err (A := Json) (Failure_ m)) = (s1, r) -> content s1 = content s /\
    match r with Ok event => exists q response, patches pending q /\ proxy s q = (s1, Ok response) /\ accepted response event
    | Err (StaleEventError _) => exists q response, patches pending q /\ proxy s q = (s1, Ok response) /\ conflicting response
    | Err (UncertainWriteError _ _) => exists q cause, patches pending q /\ proxy s q = (s1, Err cause)
    | Err (Failure_ _) => s1 = s /\ unsendable pending \/
        exists q response, patches pending q /\ proxy s q = (s1, Ok response) /\ ~ conflicting response /\ forall event, ~ accepted response event
    | Err _ => False end) as Hbad.
  { intros m Hno [= <- <-]. split; [done|]. right. exists q, response. split_and!; [done|done|by intros [_ ?]|done]. }
  unfold parse. cbn [r_status r_body]. fold (body_text response). destruct (_ || _) eqn:Es.
  { apply Hbad. intros event (_ & Hs & _). breflect. lia. }
  breflect. destruct (JSON_parse (body_text response)) as [event|] eqn:Ej.
  - intros [= <- <-]. split; [done|]. exists q, response. split_and!; [done|done|]. split_and!; [done|lia|lia|done].
  - apply Hbad. intros event (_ & _ & Hj). congruence.
Qed.

Lemma confirm_content x event value s s' : confirm host props x event value s = (s', Ok tt) ->
  exists r, content s !! x = Some r /\ content s' = <[x := confirmed_row event value r]> (content s).
Proof using Drive0.
  intros (s1 & r & H1 & H2)%act_bind_inv. apply get_resource_inv in H1 as [-> Hr]. exists r. split; [done|].
  unfold confirmed_row. destruct props as [names|]; [|done]. by eapply save_values_content.
Qed.

Lemma confirm_refused x event value s s' e : confirm host props x event value s = (s', Err e) -> content s' = content s.
Proof using Beside0.
  unfold confirm, mbind, act_bind. destruct (get_resource host x s) as [s1 [r|e1]] eqn:E; apply get_resource_state in E as ->.
  - destruct props as [names|]; [apply save_values_refused|by intros [= <- _]].
  - by intros [= <- _].
Qed.

Lemma confirm_error x event value s s' e : confirm host props x event value s = (s', Err e) -> exists m, e = Failure_ m.
Proof.
  unfold confirm, mbind, act_bind, get_resource, save_values, calling, throwing, lift, TypeError, fail.
  destruct (reads _ s) as [s3 [r|e1]]; [|intros [= _ <-]; by eexists]. destruct props; [|intros [= _ <-]; by eexists].
  destruct (writes _ s3) as [s4 [r'|e1]]; [done|]. intros [= _ <-]. by eexists.
Qed.

Definition is_uncertain (o : Outcome) : bool := match o with uncertain _ _ => true | _ => false end.
Definition is_not_sent (o : Outcome) : bool := match o with not_sent _ => true | _ => false end.

(** Errors that are only a message. *)
Definition plain {A} (r : res Failure A) : Prop := forall e, r = Err e -> exists m, e = Failure_ m.

Lemma plain_ok {A} (a : A) : plain (Ok a).
Proof. by intros e. Qed.

Lemma plain_fail {A} m : plain (A := A) (Err (Failure_ m)).
Proof. intros e [= <-]. by eexists. Qed.

Lemma plain_bind {A B} (r : res Failure A) (f : A -> res Failure B) : plain r -> (forall a, plain (f a)) -> plain (r ≫= f).
Proof. intros Hr Hf. destruct r as [a|e]; [apply Hf|]. intros e' [= <-]. by apply Hr. Qed.

Lemma plain_at k v : plain (at_ k v).
Proof. unfold at_. destruct v as [[| | | | |]|]; first [apply plain_ok|apply plain_fail]. Qed.

Ltac plain_tac := repeat first
  [ apply plain_at | apply plain_ok | apply plain_fail | apply plain_bind; [|intros ?]
  | match goal with |- plain (match ?x with _ => _ end) => destruct x end ].

Lemma project_error e event : project other (Some event) = Err e -> exists m, e = Failure_ m.
Proof.
  assert (plain (project other (Some event))) as H; [|by apply H].
  unfold project, repeats. unfold fail. plain_tac.
  all: unfold all_day_interval, timed_interval; plain_tac.
Qed.

(** [props] are the app's, or a row is not confirmed at all. *)
Lemma send_one_step os pending s s' acc : send_one host proxy new_URL other connectionId root props (os, false) pending s = (s', Ok acc) ->
  exists o, acc = (os ++ [o], is_uncertain o) /\ sent_step pending s o s' /\ is_not_sent o = false.
Proof using Beside0 UrlClass0 Drive0.
  unfold send_one. cbn [fst snd]. unfold send_edit, mbind, act_bind, lift.
  assert (forall o s2, (s2, Ok (E := Failure) (os ++ [o], is_uncertain o)) = (s', Ok acc) -> sent_step pending s o s2 -> is_not_sent o = false ->
    exists o, acc = (os ++ [o], is_uncertain o) /\ sent_step pending s o s' /\ is_not_sent o = false) as Hend by (intros o s2 [= <- <-] ? ?; by exists o).
  destruct (without_last _ s) as [s1 [event|e]] eqn:Ea; apply apply_edit_step in Ea as [Hc Hr].
  - destruct Hr as (q & response & Hq & Hp & Ha). destruct (project other (Some event)) as [value|e] eqn:Ev.
    + assert (confirmed pending event value (content s1) (content s1) -> sent_step pending s (sent (pe_title pending)) s1) as Hskip.
      { intros Hcf. eapply step_sent; try done. by rewrite <-Hc. }
      destruct (e_subject (pe_edit pending)) as [[|c x]|] eqn:Es; [|destruct value as [v|]|];
        try (intros H; apply (Hend _ _ H); [apply Hskip; unfold confirmed; by rewrite Es|done]).
      destruct (confirm host props (c :: x) event v s1) as [s2 [[]|e]] eqn:Ecf.
      * intros H. apply (Hend _ _ H); [|done]. eapply step_sent; try done. unfold confirmed. rewrite Es, <-Hc. by apply confirm_content.
      * assert (content s2 = content s) as Hc2 by (rewrite <-Hc; by eapply confirm_refused).
        destruct (confirm_error _ _ _ _ _ _ Ecf) as [m ->]. intros H. apply (Hend (failed (pe_title pending) _) _ H); [|done]. by eapply step_unsaved.
    + destruct (project_error _ _ Ev) as [m ->]. intros H. apply (Hend (failed (pe_title pending) _) _ H); [|done].
      eapply step_rejected; try done; [intros [_ H412]; destruct Ha as (_ & ? & _); lia|].
      intros event' value (_ & _ & Hj). destruct Ha as (_ & _ & Hj'). assert (event' = event) as -> by congruence. congruence.
  - destruct e as [id|id cause|m|m st ra d].
    + destruct Hr as (q & response & ? & ? & ?). intros Hs. apply (Hend _ _ Hs); [by eapply step_stale|done].
    + destruct Hr as (q & cause' & ? & ?). intros Hs. apply (Hend (uncertain (pe_title pending) _) _ Hs); [by eapply step_uncertain|done].
    + intros Hs. apply (Hend (failed (pe_title pending) _) _ Hs); [|done]. destruct Hr as [[-> Hu]|(q & response & ? & ? & ? & Hno)]; [by apply step_unsent|].
      eapply step_rejected; try done. intros event value Ha. by destruct (Hno event).
    + done.
Qed.

(** A batch of edits: each is tried, until one is of an unknown outcome. *)
Inductive batch : bool -> S -> list PendingEdit -> list Outcome -> S -> Prop :=
| batch_end stopped s : batch stopped s [] [] s
| batch_skip s pending rest os s' : batch true s rest os s' -> batch true s (pending :: rest) (not_sent (pe_title pending) :: os) s'
| batch_try s pending rest o s1 os s' : sent_step pending s o s1 -> is_not_sent o = false ->
    batch (is_uncertain o) s1 rest os s' -> batch false s (pending :: rest) (o :: os) s'.

Lemma send_loop_batch review stopped os s s' acc :
  loop (send_one host proxy new_URL other connectionId root props) (os, stopped) review s = (s', Ok acc) ->
  exists new, acc.1 = os ++ new /\ batch stopped s review new s'.
Proof using Beside0 UrlClass0 Drive0.
  revert stopped os s. induction review as [|p review IH]; intros stopped os s H.
  - injection H as <- <-. exists []. rewrite app_nil_r. split; [done|constructor].
  - cbn [loop] in H. apply act_bind_inv in H as (s1 & acc1 & H1 & H2). destruct stopped.
    + injection H1 as <- <-. apply IH in H2 as (new & Hacc & Hb). exists (not_sent (pe_title p) :: new). split; [by rewrite Hacc, <-app_assoc|by constructor].
    + apply send_one_step in H1 as (o & -> & Ho & Hn). apply IH in H2 as (new & Hacc & Hb). exists (o :: new).
      split; [by rewrite Hacc, <-app_assoc|]. by eapply batch_try.
Qed.

Lemma batch_stopped s review os s' : batch true s review os s' -> s' = s /\ os = map (fun p => not_sent (pe_title p)) review.
Proof.
  revert os. induction review as [|p review IH]; intros os H; inversion H; subst; [done|].
  match goal with Hb : batch true _ review _ _ |- _ => apply IH in Hb as [-> ->] end. done.
Qed.

Lemma batch_order stopped s review os s' : batch stopped s review os s' -> length os = length review /\
  forall i, (exists o, os !! i = Some o /\ is_not_sent o = true) <->
    (i < length review)%nat /\ (stopped = true \/ exists j o, (j < i)%nat /\ os !! j = Some o /\ is_uncertain o = true).
Proof.
  induction 1 as [stopped s|s p rest os s' Hb [IHl IH]|s p rest o s1 os s' Hs Hn Hb [IHl IH]].
  - split; [done|]. intros i. split; [by intros (o & ? & _)|]. cbn. lia.
  - split; [cbn; by rewrite IHl|]. intros [|i]; cbn [length].
    + split; [intros _; split; [lia|by left]|]. intros _. by eexists.
    + cbn [lookup list_lookup]. rewrite IH. split; [intros [? _]; split; [lia|by left]|]. intros [? _]. split; [lia|by left].
  - split; [cbn; by rewrite IHl|]. intros [|i]; cbn [length].
    + split; [intros (o' & [= <-] & Ho); congruence|]. intros [_ [?|(j & o' & ? & _)]]; [done|lia].
    + cbn [lookup list_lookup]. rewrite IH. split.
      * intros [Hi Hc]. split; [lia|]. right. destruct Hc as [Hu|(j & o' & Hj & Ho' & Hu)]; [exists 0%nat, o; split_and!; [lia|done|done]|].
        exists (Datatypes.S j), o'. split_and!; [lia|done|done].
      * intros [Hi [?|(j & o' & Hj & Ho' & Hu)]]; [done|]. split; [lia|]. destruct j as [|j]; [left; by injection Ho' as ->|].
        right. exists j, o'. split_and!; [lia|done|done].
Qed.

(** The rows a batch may touch, and what of them. *)
Definition bookkeeping_of (k : jstr) : Prop :=
  match props with Some names => k = named names "google-etag" \/ k = named names "sync-baseline" | None => False end.

Lemma confirmed_row_other event v r k : ~ bookkeeping_of k -> confirmed_row event v r !! k = r !! k.
Proof.
  unfold confirmed_row, bookkeeping_of. destruct props as [names|]; [|done]. intros Hk. unfold assign. cbn [fold_left fst snd].
  destruct (member _ event); rewrite !lookup_insert_ne; try done; intros <-; tauto.
Qed.

Definition sent_to x (p : PendingEdit) (o : Outcome) : Prop := e_subject (pe_edit p) = Some x /\ exists t, o = sent t.

Lemma step_rows pending s o s' x : sent_step pending s o s' ->
  (content s' !! x = content s !! x \/ sent_to x pending o) /\
  (forall r, content s !! x = Some r -> exists r', content s' !! x = Some r' /\ forall k, ~ bookkeeping_of k -> r' !! k = r !! k).
Proof.
  intros H. assert (Hsame : content s' = content s -> (content s' !! x = content s !! x \/ sent_to x pending o) /\
    (forall r, content s !! x = Some r -> exists r', content s' !! x = Some r' /\ forall k, ~ bookkeeping_of k -> r' !! k = r !! k)).
  { intros ->. split; [by left|]. intros r Hr. by exists r. }
  destruct H as [q s1 response event value s' _ _ _ _ Hcf| | | | | ]; try by apply Hsame.
  unfold confirmed in Hcf. destruct (e_subject (pe_edit pending)) as [[|c y]|] eqn:Es; [by apply Hsame| |by apply Hsame].
  destruct value as [v|]; [|by apply Hsame]. destruct Hcf as (r0 & Hr0 & ->). destruct (decide (x = c :: y)) as [->|Hne].
  - split; [right; split; [done|by eexists]|]. intros r Hr. rewrite Hr0 in Hr. injection Hr as <-. rewrite lookup_insert_eq. eexists. split; [done|].
    intros k Hk. by apply confirmed_row_other.
  - rewrite lookup_insert_ne by done. split; [by left|]. intros r Hr. by exists r.
Qed.

Lemma batch_rows stopped s review os s' x : batch stopped s review os s' ->
  (content s' !! x = content s !! x \/ exists i p o, review !! i = Some p /\ os !! i = Some o /\ sent_to x p o) /\
  (forall r, content s !! x = Some r -> exists r', content s' !! x = Some r' /\ forall k, ~ bookkeeping_of k -> r' !! k = r !! k).
Proof.
  induction 1 as [stopped s|s p rest os s' Hb [IH1 IH2]|s p rest o s1 os s' Hs Hn Hb [IH1 IH2]].
  - split; [by left|]. intros r Hr. by exists r.
  - split; [|done]. destruct IH1 as [?|(i & p' & o & ? & ? & ?)]; [by left|]. right. by exists (Datatypes.S i), p', o.
  - destruct (step_rows _ _ _ _ x Hs) as [H1 H2]. split.
    + destruct IH1 as [E1|(i & p' & o' & ? & ? & ?)]; [|right; by exists (Datatypes.S i), p', o'].
      destruct H1 as [E2|Hst]; [left; congruence|]. right. by exists 0%nat, p, o.
    + intros r Hr. destruct (H2 r Hr) as (r1 & Hr1 & K1). destruct (IH2 r1 Hr1) as (r2 & Hr2 & K2). exists r2. split; [done|].
      intros k Hk. by rewrite K2, K1.
Qed.
End Sending.

Section Send.
Context {S : Type} (host : HostStore S) (proxy : HostProxy S) (new_URL : jstr -> option Url) (other : jstr -> option Z).
Context (content : S -> gmap (list Z) Props) `{!Drive host content} `{!Beside host proxy content} `{!UrlClass new_URL}.
Implicit Types (s : S) (x connectionId calendarId : jstr).

Lemma layout_state s s' r : layout host s = (s', r) -> s' = s.
Proof.
  unfold layout, mbind, act_bind, calling at 1, throwing, reads. destruct (getData host s) as [[[t [[|c x]|]]|]|e]; try (by intros [= <- _]).
  destruct (get_resource host (c :: x) s) as [s1 [klass|e]] eqn:E; apply get_resource_state in E as ->; [|by intros [= <- _]].
  destruct (klass !! PARENT) as [[| | | | |]|]; by intros [= <- _].
Qed.

(** C23 (safety). Sending reviewed edits overwrites nothing in Google and claims
    nothing that Google did not confirm.  Each edit is tried in order, and each
    as one PATCH with the ETag that its preview read and a body of its patch
    alone, through the app's connection ([sent_step]).  A call that threw makes
    its outcome unknown; an answer of 412 makes it stale; an answer of success
    whose event is valid confirms it, and then its row, if it has one and the
    event is not cancelled or a series now, gets the new ETag and baseline.  It has failed in three cases and no other: no
    request can be made of it, the answer is neither of the two, or Google
    confirmed it and its row could not be read or saved.  Nothing is tried
    after an outcome that is unknown, and everything is tried otherwise.  A row
    changes only when Google confirmed its edit, and then only its ETag and its
    baseline do. *)
Theorem send_batch connectionId calendarId review s s' outcomes :
  send host proxy new_URL other connectionId calendarId review s = (s', Ok outcomes) ->
  exists root props s0 where_, endpoint calendarId = Ok root /\ layout host s = (s, Ok where_) /\ properties host where_ false s = (s0, Ok props) /\
    batch host proxy new_URL other content connectionId root props false s0 review outcomes s' /\
    length outcomes = length review /\
    (forall i, (exists o, outcomes !! i = Some o /\ is_not_sent o = true) <->
       (i < length review)%nat /\ exists j o, (j < i)%nat /\ outcomes !! j = Some o /\ is_uncertain o = true) /\
    forall x,
      (content s' !! x = content s0 !! x \/ exists i p o, review !! i = Some p /\ outcomes !! i = Some o /\ sent_to x p o) /\
      (forall r, content s0 !! x = Some r -> exists r', content s' !! x = Some r' /\ forall k, ~ bookkeeping_of props k -> r' !! k = r !! k).
Proof using Drive0 Beside0 UrlClass0.
  unfold send. intros (s1 & where_ & H1 & (s0 & props & H2 & (s2 & root & H3 & (s3 & acc & H4 & H5)%act_bind_inv)%act_bind_inv)%act_bind_inv)%act_bind_inv.
  assert (H0 := H1). apply layout_state in H1 as ->. unfold lift in H3. injection H3 as <- Hroot. injection H5 as <- <-.
  apply (send_loop_batch host proxy new_URL other content) in H4 as (new & Hacc & Hb); [|done..]. cbn [app] in Hacc. rewrite Hacc.
  exists root, props, s0, where_. split_and!; [done|done|done|done| | |].
  - by destruct (batch_order _ _ _ _ _ _ _ _ _ _ _ _ _ Hb).
  - intros i. destruct (batch_order _ _ _ _ _ _ _ _ _ _ _ _ _ Hb) as [_ ->]. naive_solver.
  - intros x. by apply (batch_rows _ _ _ _ _ _ _ _ _ _ _ _ _ x Hb).
Qed.
End Send.

(** ** The fields of a row *)

Section Rows_.
Context (other : jstr -> option Z).
Implicit Types (m dm : fields_map) (row : Props) (props : Names).

(** Values as rows hold them. *)
Definition textual m : Prop :=
  is_text (jget (js "title") m) = true /\ is_text (jget (js "description") m) = true /\ is_text (jget (js "location") m) = true /\
  is_text (jget (js "start") m) = true /\ is_text (jget (js "end") m) = true /\ exists allDay, jget (js "allDay") m = Some (OBool allDay).

Lemma valid_textual m : valid_projection other m -> textual m.
Proof.
  intros (t & d & l & a & b & allDay & H1 & _ & H2 & H3 & H4 & H5 & H6 & _). unfold textual. rewrite H1, H2, H3, H4, H5, H6.
  split_and!; try done. by eexists.
Qed.

(** The app's own check of a row gives a reason only where the check before
    sending throws, on values as rows hold them, texts and a flag.  Where it
    gives none that check passes, unless the row is of whole days and one of
    them is no day of the calendar though [Date.parse] takes it. *)
Definition unreal_day (v : Json) : Prop :=
  member (js "allDay") v = Some (OBool true) /\ exists k s, k ∈ [js "start"; js "end"] /\ member k v = Some (OStr s)
    /\ civilDate other (Some (OStr s)) = false /\ is_Some (midnight other s).

Lemma invalid_validate m : textual m ->
  match invalid other (OObj m) with
  | Ok None => validate other (OObj m) = Ok tt \/ unreal_day (OObj m)
  | Ok (Some _) => exists e, validate other (OObj m) = Err e
  | Err _ => False
  end.
Proof.
  intros (Ht & Hd & Hl & Ha & Hb & allDay & Hall). apply is_text_Some in Ht as [t Ht]. apply is_text_Some in Ha as [a Ha]. apply is_text_Some in Hb as [b Hb].
  unfold invalid, validate. rewrite !at_object. cbn [mbind res_bind member]. rewrite Ht, Hd, Hl, Ha, Hb, Hall. cbn [mbind res_bind CalendarAdapter.text negb orb].
  case_bool_decide; [by eexists|]. cbn [truthy_json string_of String_of].
  replace (if allDay then true else false) with allDay by by destruct allDay.
  set (ok s := if allDay then civil_shape s && is_some (midnight other s) else offset_shape s && is_some (Date_parse other s)).
  set (day s := (if allDay then civilDate other else offsetDateTime other) (Some (OStr s))).
  assert (forall s, day s = true -> ok s = true) as Hday by (intros s; unfold day, ok; destruct allDay; [apply civilDate_shape|done]).
  assert (forall s, ok s = true -> day s = false -> allDay = true /\ civilDate other (Some (OStr s)) = false /\ is_Some (midnight other s)) as Hok.
  { intros s. unfold ok, day. destruct allDay; [|unfold offsetDateTime; cbn [string_of String_of]; congruence].
    intros [_ Hm]%andb_true_iff Hc. split_and!; [done|done|]. destruct (midnight other s); [by eexists|done]. }
  fold (ok a) (ok b) (day a) (day b).
  destruct (ok a) eqn:Ea; cbn [negb orb]; [destruct (ok b) eqn:Eb; cbn [negb orb]|].
  - destruct (day a) eqn:Da; [destruct (day b) eqn:Db|]; cbn [negb orb].
    + unfold instant. destruct (num_leb _ _); [by eexists|by left].
    + destruct (Hok b Eb Db) as (-> & H1 & H2). unfold instant. destruct (num_leb _ _); [by eexists|]. right. split; [done|]. exists (js "end"), b. split; [set_solver|done].
    + destruct (Hok a Ea Da) as (-> & H1 & H2). unfold instant. destruct (num_leb _ _); [by eexists|]. right. split; [done|]. exists (js "start"), a. split; [set_solver|done].
  - destruct (day b) eqn:Db; [apply Hday in Db; congruence|]. rewrite orb_true_r. by eexists.
  - destruct (day a) eqn:Da; [apply Hday in Da; congruence|]. by eexists.
Qed.
End Rows_.

(** ** Writing a row *)

Definition field_keys (props : Names) : list jstr :=
  [NAME; DESCRIPTION; named props "location"; named props "start"; named props "end"; named props "all-day"; named props "day"].
Definition book_keys (props : Names) : list jstr := [named props "google-etag"; named props "sync-baseline"; named props "google-link"].

(** The app's properties are different ones. *)
Definition separate (props : Names) : Prop :=
  NoDup (field_keys props ++ book_keys props ++ [named props "google-event-id"; PARENT]).

Section Writing.
Context (props : Names) (Hsep : separate props).
Implicit Types (vals : list (jstr * option Json)) (row r : Props) (dm : fields_map) (x k : jstr).

Lemma jget_filter {V} (f : jstr * V -> bool) (l : list (jstr * V)) k : NoDup (jkeys l) ->
  jget k (List.filter f l) = match jget k l with Some v => if f (k, v) then Some v else None | None => None end.
Proof.
  induction l as [|[k' v] l IH]; intros Hnd; [done|]. cbn [jkeys map fst] in Hnd. apply NoDup_cons in Hnd as [Hk Hnd]. cbn [List.filter jget].
  destruct (decide (k = k')) as [->|Hne].
  - destruct (f (k', v)); cbn [jget]; [by rewrite decide_True|]. rewrite IH by done. by rewrite (proj2 (jget_None k' l) Hk).
  - destruct (f (k', v)); cbn [jget]; [rewrite decide_False by done|]; by apply IH.
Qed.

Lemma jkeys_filter {V} (f : jstr * V -> bool) (l : list (jstr * V)) : NoDup (jkeys l) -> NoDup (jkeys (List.filter f l)).
Proof.
  induction l as [|[k v] l IH]; intros Hnd; [done|]. cbn [jkeys map fst] in Hnd. apply NoDup_cons in Hnd as [Hk Hnd]. cbn [List.filter].
  destruct (f (k, v)); [|by apply IH]. cbn [jkeys map fst]. apply NoDup_cons. split; [|by apply IH].
  intros ((k' & v') & -> & Hin%list_elem_of_In)%list_elem_of_fmap. apply filter_In in Hin as [Hin _]. apply Hk. apply list_elem_of_fmap.
  exists (k', v'). split; [done|]. by apply list_elem_of_In.
Qed.

(** Setting only what is different sets everything. *)
Lemma assign_changed vals r : NoDup (jkeys vals) ->
  assign (List.filter (fun p => negb (strict_eq (r !! p.1) p.2)) vals) r = assign vals r.
Proof.
  intros Hnd. apply map_eq. intros k. rewrite !assign_get by (done || by apply jkeys_filter). rewrite jget_filter by done.
  destruct (jget k vals) as [[v|]|]; cbn [fst snd]; [|by destruct (negb _)|done].
  destruct (strict_eq (r !! k) (Some v)) eqn:E; [|done]. by apply strict_eq_spec in E.
Qed.

Lemma assign_app a b r : assign (a ++ b) r = assign b (assign a r).
Proof. apply fold_left_app. Qed.

Lemma assign_other vals r k : NoDup (jkeys vals) -> k ∉ jkeys vals -> assign vals r !! k = r !! k.
Proof. intros Hnd Hk%jget_None. by rewrite assign_get, Hk. Qed.

Lemma assign_elem vals r k v : NoDup (jkeys vals) -> (k, Some v) ∈ vals -> assign vals r !! k = Some v.
Proof. intros Hnd Hk%jget_elem; [|done]. by rewrite assign_get, Hk. Qed.

Definition field_values dm (day : Json) : list (jstr * option Json) :=
  [(NAME, jget (js "title") dm); (DESCRIPTION, jget (js "description") dm); (named props "location", jget (js "location") dm);
   (named props "start", jget (js "start") dm); (named props "end", jget (js "end") dm);
   (named props "all-day", jget (js "allDay") dm); (named props "day", Some day)].

Lemma valuesOf_fields dm vs : valuesOf props (OObj dm) = Ok vs -> exists day, vs = field_values dm day.
Proof using Hsep.
  unfold valuesOf. destruct (day_of _) as [day|]; [|done]. cbn [mbind res_bind member]. intros [= <-]. exists day.
  apply jmap_of_nodup. by apply NoDup_app in Hsep as [H _].
Qed.

(** A row with a value written over it, and some bookkeeping. *)
Record written dm (extra : list (jstr * option Json)) row row' : Prop := {
  wr_fields : forall x, same_fields (c_value (cardOf props x row')) (OObj dm);
  wr_id : forall x, c_id (cardOf props x row') = c_id (cardOf props x row);
  wr_extra : forall k v, (k, Some v) ∈ extra -> row' !! k = Some v;
  wr_other : forall k, k ∉ field_keys props ++ jkeys extra -> row' !! k = row !! k;
}.

Lemma card_fields x row dm : textual dm ->
  row !! NAME = jget (js "title") dm -> row !! DESCRIPTION = jget (js "description") dm ->
  row !! named props "location" = jget (js "location") dm -> row !! named props "start" = jget (js "start") dm ->
  row !! named props "end" = jget (js "end") dm -> row !! named props "all-day" = jget (js "allDay") dm ->
  same_fields (c_value (cardOf props x row)) (OObj dm).
Proof using.
  intros (Ht & Hd & Hl & Ha & Hb & allDay & Hall) E1 E2 E3 E4 E5 E6. apply same_fields_spec.
  apply is_text_Some in Ht as [t Ht]. apply is_text_Some in Hd as [d Hd]. apply is_text_Some in Hl as [l Hl].
  apply is_text_Some in Ha as [a Ha]. apply is_text_Some in Hb as [b Hb].
  unfold cardOf. cbn [c_value]. rewrite E1, E2, E3, E4, E5, E6, Ht, Hd, Hl, Ha, Hb, Hall.
  assert (strict_eq (Some (OBool allDay)) (Some (OBool true)) = allDay) as -> by by destruct allDay.
  destruct (projection_get (OStr (text_of (Some (OStr t)))) (OStr (text_of (Some (OStr d)))) (OStr (text_of (Some (OStr l))))
    (OStr (text_of (Some (OStr a)))) (OStr (text_of (Some (OStr b)))) allDay) as (-> & -> & -> & -> & -> & ->).
  cbn [member]. by rewrite Ht, Hd, Hl, Ha, Hb, Hall.
Qed.

Lemma row_written dm extra row updated : textual dm -> writeRow props row (OObj dm) = Ok updated ->
  NoDup (jkeys extra) -> (forall k, k ∈ jkeys extra -> k ∈ book_keys props) -> written dm extra row (assign (updated ++ extra) row).
Proof using Hsep.
  intros Ht Hw Hnd Hbook. unfold writeRow in Hw. destruct (valuesOf props (OObj dm)) as [vs|] eqn:Ev; [|done]. cbn [mbind res_bind] in Hw.
  injection Hw as <-. apply valuesOf_fields in Ev as [day ->]. assert (Hs := Hsep). apply NoDup_app in Hs as (Hf & Hdis & Hrest).
  apply NoDup_app in Hrest as (Hb & Hdis2 & _).
  assert (Hkeys : NoDup (jkeys (field_values dm day))) by exact Hf. rewrite assign_app, assign_changed by done.
  assert (Hfield : forall k v, (k, v) ∈ field_values dm day -> is_some v = true -> assign extra (assign (field_values dm day) row) !! k = v).
  { intros k [v|] Hin Hv; [|done]. rewrite assign_other; [by apply assign_elem|done|]. intros Hk%Hbook. apply (Hdis k).
    - change (k ∈ jkeys (field_values dm day)). apply list_elem_of_fmap. exists (k, Some v). by split.
    - apply elem_of_app. by left. }
  split.
  - intros x. assert (Ht' := Ht). destruct Ht' as (T1 & T2 & T3 & T4 & T5 & allDay & T6).
    assert (Hsome : forall v, is_text v = true -> is_some v = true) by (by intros [|]).
    assert (Hset : forall k f, (k, jget (js f) dm) ∈ field_values dm day -> is_some (jget (js f) dm) = true ->
        assign extra (assign (field_values dm day) row) !! k = jget (js f) dm) by (intros k f; apply Hfield).
    apply card_fields; [done| | | | | |]; apply Hset; try (by apply Hsome); try (by rewrite T6); repeat first [by left|right].
  - intros x. unfold cardOf. cbn [c_id]. rewrite !assign_other; [done|done| |done|].
    + intros Hin. apply (Hdis (named props "google-event-id")); [exact Hin|]. apply elem_of_app. right. by left.
    + intros Hin%Hbook. apply (Hdis2 (named props "google-event-id")); [exact Hin|]. by left.
  - intros k v Hin. by apply assign_elem.
  - intros k [H1 H2]%not_elem_of_app. rewrite !assign_other; done.
Qed.

Lemma baseline_read row remote : row !! named props "sync-baseline" = Some (OStr (json_text remote)) -> Json_ok remote -> Json_keyed remote ->
  baselineOf props row = remote.
Proof.
  intros E Hok Hk. unfold baselineOf. rewrite E. destruct (json_text_nonempty remote) as (c & t & Ht & _). rewrite Ht. rewrite <-Ht.
  by rewrite JSON_parse_text.
Qed.
End Writing.

(** ** Resolving a conflict *)

Section Resolving.
Context {S : Type} (host : HostStore S) (content : S -> gmap (list Z) Props) `{!Drive host content}.
Implicit Types (s : S) (props : Names) (subject : jstr) (lm dm : fields_map) (row : Props).

Definition settled_extra props (etag : jstr) (remote : Json) : list (jstr * option Json) :=
  [(named props "google-etag", Some (OStr etag)); (named props "sync-baseline", Some (OStr (json_text remote)))].

Lemma settle_row_written props subject dm remote etag s s' : separate props -> textual dm ->
  settle_row host props subject (OObj dm) remote etag s = (s', Ok tt) ->
  exists row row', content s !! subject = Some row /\ content s' = <[subject := row']> (content s) /\
    written props dm (settled_extra props etag remote) row row'.
Proof using Drive0.
  intros Hsep Ht (s1 & row & H1 & (s2 & updated & H2 & H3)%act_bind_inv)%act_bind_inv.
  apply (get_resource_inv host content) in H1 as [-> Hrow]. unfold lift in H2. injection H2 as <- Hw.
  exists row, (assign (updated ++ settled_extra props etag remote) row). split; [done|]. split; [by eapply (save_values_content host content)|].
  assert (Hb := Hsep). apply NoDup_app in Hb as (_ & _ & Hb). apply NoDup_app in Hb as (Hb & _ & _).
  apply row_written; try done.
  - unfold settled_extra. cbn [jkeys map fst]. unfold book_keys in Hb. apply NoDup_cons in Hb as [Hn Hb]. apply NoDup_cons. split; [set_solver|]. apply NoDup_singleton.
  - unfold settled_extra, book_keys. cbn [jkeys map fst]. intros k. set_solver.
Qed.

End Resolving.

Section Resolved.
Context (other : jstr -> option Z).
Implicit Types (lm dm : fields_map).

(** What a choice leaves of two texts, or of two flags. *)
Lemma resolved_either choices base local remote k :
  resolved choices base local remote k = member k local \/ resolved choices base local remote k = member k remote.
Proof. unfold resolved. destruct (jget k choices) as [[]|]; [by left|by right|]. destruct (match base with Some _ => _ | None => _ end); [by left|by right]. Qed.

Lemma resolved_fields choices base lm rm : textual lm -> textual rm ->
  exists dm, resolved_value choices base (OObj lm) (OObj rm) = OObj dm /\ textual dm /\
    forall k, k ∈ FIELDS -> jget k dm = resolved choices base (OObj lm) (OObj rm) k.
Proof.
  intros (L1 & L2 & L3 & L4 & L5 & al & L6) (R1 & R2 & R3 & R4 & R5 & ar & R6).
  assert (Htext : forall k, is_text (jget k lm) = true -> is_text (jget k rm) = true -> exists t, resolved choices base (OObj lm) (OObj rm) k = Some (OStr t)).
  { intros k Hl Hr. apply is_text_Some. destruct (resolved_either choices base (OObj lm) (OObj rm) k) as [->| ->]; done. }
  destruct (Htext _ L1 R1) as [t Et], (Htext _ L2 R2) as [d Ed], (Htext _ L3 R3) as [l El], (Htext _ L4 R4) as [a Ea], (Htext _ L5 R5) as [b Eb].
  assert (exists c, resolved choices base (OObj lm) (OObj rm) (js "allDay") = Some (OBool c)) as [c Ec].
  { destruct (resolved_either choices base (OObj lm) (OObj rm) (js "allDay")) as [->| ->]; cbn [member]; eauto. }
  exists [(js "title", OStr t); (js "description", OStr d); (js "location", OStr l); (js "start", OStr a); (js "end", OStr b); (js "allDay", OBool c)].
  split; [|split].
  - unfold resolved_value, LABELS. unfold omap, list_omap. cbn [fst]. by rewrite Et, Ed, El, Ea, Eb, Ec.
  - unfold textual. split_and!; try reflexivity. by exists c.
  - intros k Hk. unfold FIELDS in Hk. cbn [map] in Hk.
    apply elem_of_cons in Hk as [->|Hk]; [by rewrite Et|]. apply elem_of_cons in Hk as [->|Hk]; [by rewrite Ed|].
    apply elem_of_cons in Hk as [->|Hk]; [by rewrite El|]. apply elem_of_cons in Hk as [->|Hk]; [by rewrite Ea|].
    apply elem_of_cons in Hk as [->|Hk]; [by rewrite Eb|]. apply elem_of_cons in Hk as [->|Hk]; [by rewrite Ec|]. by apply elem_of_nil in Hk.
Qed.

Lemma valid_same dm lm : valid_projection other dm -> same_fields (OObj lm) (OObj dm) -> valid_projection other lm.
Proof.
  intros (t & d & l & a & b & allDay & H1 & Ht & H2 & H3 & H4 & H5 & H6 & Hv) (E1 & E2 & E3 & E4 & E5 & E6)%same_fields_spec.
  cbn [member] in *. exists t, d, l, a, b, allDay. rewrite E1, E2, E3, E4, E5, E6. by split_and!.
Qed.

(** The properties of a projection are scalars. *)
Lemma projection_scalar t d l a b allDay p :
  HostStore.is_scalar (member p (projection (OStr t) (OStr d) (OStr l) (OStr a) (OStr b) allDay)) = true.
Proof. unfold projection. cbn [member jget]. by repeat case_decide. Qed.

Lemma projection_nodup t d l a b allDay m : projection t d l a b allDay = OObj m -> NoDup (jkeys m).
Proof. intros H. injection H as <-. cbn [jkeys map fst]. by_decide. Qed.

(** A row whose baseline is what Google has: no conflict, and the row's values
    are what is wanted. *)
Lemma settled_decision (R : Side -> Side -> Side -> SyncDecision (V := Json)) `{!ThreeWay R} card found id t d l a b allDay t' d' l' a' b' allDay' :
  let remote := projection (OStr t) (OStr d) (OStr l) (OStr a) (OStr b) allDay in
  let value := projection (OStr t') (OStr d') (OStr l') (OStr a') (OStr b') allDay' in
  c_value card = value -> (exists lm, value = OObj lm /\ valid_projection other lm) ->
  exists ch, decide_event other R (Some remote) (Some card) found id remote = Ok (inl ch) /\
    same_fields (ch_desired ch) value /\ ch_subject ch = Some (c_subject card) /\ ch_remote ch = Some remote /\ ch_etag ch = jget id (etags found).
Proof.
  intros remote value Hv (lm & Elm & Hvalid). unfold decide_event. cbn [from_option]. unfold compose. rewrite Hv, Elm.
  destruct remote as [| | | | |rm] eqn:Erm; try done. cbn [as_record].
  assert (Hl : NoDup (jkeys lm)) by (by eapply projection_nodup). assert (Hr : NoDup (jkeys rm)) by (by eapply projection_nodup).
  assert (Hsc : forall p, scalars (prop (Rec rm) p) (jget p lm) (jget p rm)).
  { intros p. cbn [prop]. change (jget p rm) with (member p (OObj rm)). change (jget p lm) with (member p (OObj lm)). rewrite <-Erm, <-Elm.
    unfold scalars, remote, value. by rewrite !projection_scalar. }
  set (dec := R (Rec rm) (Rec lm) (Rec rm)).
  assert (Hnc : conflicts dec = []).
  { destruct (conflicts dec) as [|c cs] eqn:Ec; [done|]. exfalso.
    destruct (proj1 (three_way_conflicts (Rec rm) lm rm (property c) Hl Hr (Hsc _))) as (_ & _ & Hne); [|by apply Hne].
    fold dec. rewrite Ec. by left. }
  rewrite Hnc. set (desired := overlay (OObj rm) (d_remote dec)).
  assert (Hget : forall p, member p desired = jget p lm).
  { intros p. unfold desired. rewrite overlay_get by (done || apply three_way_nodup). unfold dec. rewrite three_way_remote by done. cbn [prop].
    destruct (decide (jget p lm = jget p rm)) as [E|E]; [rewrite decide_False; [done|tauto]|]. by rewrite decide_True. }
  assert (validate other desired = Ok tt) as ->.
  { unfold desired, overlay in *. apply validate_accepts.
    - change (is_text (member (js "start") (OObj (fold_left write (d_remote dec) (entries_of (Some (OObj rm)))))) = true). rewrite Hget.
      by destruct Hvalid as (? & ? & ? & ? & ? & ? & _ & _ & _ & _ & -> & _).
    - change (is_text (member (js "end") (OObj (fold_left write (d_remote dec) (entries_of (Some (OObj rm)))))) = true). rewrite Hget.
      by destruct Hvalid as (? & ? & ? & ? & ? & ? & _ & _ & _ & _ & _ & -> & _).
    - eapply valid_same; [exact Hvalid|]. intros k _. apply Hget. }
  cbn [mbind res_bind]. eexists. split; [done|]. cbn. split_and!; try done. intros k _. apply Hget.
Qed.
End Resolved.

Section ResolveConflict.
Context {S : Type} (host : HostStore S) (other : jstr -> option Z) (content : S -> gmap (list Z) Props) `{!Drive host content}.
Implicit Types (s : S).

Lemma card_projection props x row : exists t d l a b allDay,
  c_value (cardOf props x row) = projection (OStr t) (OStr d) (OStr l) (OStr a) (OStr b) allDay.
Proof. unfold cardOf. cbn [c_value]. by eexists _, _, _, _, _, _. Qed.

(** C24 (functional). A conflict is resolved field by field, and nothing is
    sent: when it returns, the row has in each field what was chosen (where
    nothing was to choose, the edit made here or else Google's value), it stays
    bound to its event with the ETag read, its baseline is what Google has, and
    nothing else of the drive changed.  The next preview of that event then has
    no conflict, wants what the row says, and plans an edit unless that is what
    Google has already.  That last part has an exception: a row of whole days
    one of which no calendar has ([unreal_day], 30 February), which the app's
    check lets through where [Date.parse] takes it. *)
Theorem resolve_keeps_choice conflict choices lm t d l a b allDay s s' :
  let remote := projection (OStr t) (OStr d) (OStr l) (OStr a) (OStr b) allDay in
  cf_local conflict = Some (OObj lm) -> textual lm -> cf_remote conflict = Some remote -> Json_ok remote ->
  resolveConflict host other conflict choices s = (s', Ok tt) ->
  exists subject where_ props s0, cf_subject conflict = Some subject /\ layout host s = (s, Ok where_) /\ all_properties host where_ s = (s0, Ok props) /\
    (separate props -> exists row row', content s0 !! subject = Some row /\ content s' = <[subject := row']> (content s0) /\
       (forall k, k ∈ FIELDS -> member k (c_value (cardOf props subject row')) = resolved choices (cf_base conflict) (OObj lm) remote k) /\
       c_id (cardOf props subject row') = c_id (cardOf props subject row) /\
       row' !! named props "google-etag" = Some (OStr (default [] (cf_etag conflict))) /\ baselineOf props row' = remote /\
       (forall k, k ∉ field_keys props ++ book_keys props -> row' !! k = row !! k) /\
       (unreal_day other (c_value (cardOf props subject row')) \/
        forall R, ThreeWay R -> forall found id, exists ch,
         decide_event other R (Some (baselineOf props row')) (Some (cardOf props subject row')) found id remote = Ok (inl ch) /\
         same_fields (ch_desired ch) (c_value (cardOf props subject row')) /\
         (planEdit id (ch_desired ch) remote (ch_subject ch) = None <-> same_fields (c_value (cardOf props subject row')) remote))).
Proof using Drive0.
  intros remote Hlocal Hlm Hremote Hok Hrun. unfold resolveConflict in Hrun. rewrite Hlocal, Hremote in Hrun.
  destruct (cf_kind conflict); try done. destruct (cf_subject conflict) as [[|c x]|]; try done.
  destruct (List.filter _ (cf_fields conflict)); [|done].
  assert (exists rm, remote = OObj rm /\ textual rm) as (rm & Erm & Hrm) by (eexists; split; [done|]; unfold textual; split_and!; try reflexivity; by exists allDay).
  rewrite Erm in Hrun. destruct (resolved_fields choices (cf_base conflict) lm rm Hlm Hrm) as (dm & Edm & Hdm & Hget). rewrite Edm in Hrun.
  apply act_bind_inv in Hrun as (s1 & reason & H1 & H2). unfold lift in H1. injection H1 as <- Hinv. destruct reason as [m|]; [done|].
  pose proof (invalid_validate other dm Hdm) as Hv. rewrite Hinv in Hv.
  apply act_bind_inv in H2 as (s2 & where_ & H2 & H3). assert (H0 := H2). apply layout_state in H2 as ->. apply act_bind_inv in H3 as (s0 & props & H3 & H4).
  exists (c :: x), where_, props, s0. split; [done|]. split; [done|]. split; [done|]. intros Hsep.
  apply (settle_row_written host content) in H4 as (row & row' & Hrow & Hcont & [Wf Wi We Wo]); [|done..]. rewrite <-Erm in We.
  exists row, row'. split; [done|]. split; [done|].
  assert (Hbase : baselineOf props row' = remote).
  { apply baseline_read; [apply We; set_solver|done|]. subst remote. cbn. split; [by_decide|done]. }
  split_and!.
  - intros k Hk. rewrite (Wf (c :: x) k Hk). cbn [member]. rewrite Erm. by apply Hget.
  - apply Wi.
  - apply We. set_solver.
  - done.
  - intros k [Hk1 Hk2]%not_elem_of_app. apply Wo. apply not_elem_of_app. split; [done|]. unfold book_keys in Hk2. cbn [jkeys map fst settled_extra]. set_solver.
  - destruct Hv as [Hv|(Hall & k & v & Hk & Hv & Hciv)]; [right|left].
    2: { split; [rewrite Wf by by_decide; exact Hall|]. exists k, v. split; [done|]. rewrite Wf; [done|].
         apply elem_of_cons in Hk as [->| ->%list_elem_of_singleton]; by_decide. }
    assert (Hvp : valid_projection other dm) by (destruct Hdm as (_ & _ & _ & Ha & Hb & _); by apply validate_accepts).
    intros R HR found id. rewrite Hbase. destruct (card_projection props (c :: x) row') as (t' & d' & l' & a' & b' & all' & Ecard).
    assert (Hcv : exists lm', c_value (cardOf props (c :: x) row') = OObj lm' /\ valid_projection other lm').
    { eexists. split; [exact Ecard|]. eapply valid_same; [exact Hvp|]. intros k Hk. rewrite <-(Wf (c :: x) k Hk), Ecard. done. }
    rewrite Ecard in Hcv |- *.
    destruct (settled_decision other R (cardOf props (c :: x) row') found id t d l a b allDay _ _ _ _ _ _ Ecard Hcv) as (ch & Hch & Hsame & _ & _ & _).
    exists ch. split; [exact Hch|]. split; [exact Hsame|]. unfold planEdit. fold remote.
    assert (Hiff : patch_fields (ch_desired ch) remote = [] <-> same_fields (projection (OStr t') (OStr d') (OStr l') (OStr a') (OStr b') all') remote).
    { rewrite patch_nil. split.
      - intros Hc k Hk. rewrite <-(Hsame k Hk). unfold FIELDS in Hk. apply list_elem_of_fmap in Hk as (f & -> & Hf). by apply changed_false, Hc.
      - intros Hs f Hf. unfold changed. assert (Hk : js f ∈ FIELDS) by (unfold FIELDS; by apply list_elem_of_fmap_2).
        rewrite (Hsame _ Hk), (Hs _ Hk). unfold remote. rewrite strict_eq_refl; [done|]. apply projection_scalar. }
    rewrite <-Hiff. destruct (patch_fields (ch_desired ch) remote); done.
Qed.
End ResolveConflict.

(** ** What a refresh reads *)

Section Reading.
Context {S : Type} (host : HostStore S) (content : S -> gmap (list Z) Props) `{!Drive host content}.
Implicit Types (s : S) (props : Names) (x : jstr) (r : Props) (rows : Rows).

(** A row of the table that is bound to an event. *)
Definition bound_row (where_ : Layout) props s x r : Prop :=
  content s !! x = Some r /\ answers (r !! PARENT) (table where_) = true /\ is_some (c_id (cardOf props x r)) = true.

Lemma mret_ok {E A} (a b : A) s s' : (mret a : act S E A) s = (s', Ok b) -> s' = s /\ b = a.
Proof. by intros [= <- <-]. Qed.

Lemma read_row_loop props seen todo out s s' rows :
  loop (read_row host props) out todo s = (s', Ok rows) -> NoDup (jkeys (rw_bound out)) ->
  (forall x r, (x, r) ∈ rw_bound out <-> x ∈ seen /\ content s !! x = Some r /\ is_some (c_id (cardOf props x r)) = true) ->
  s' = s /\ NoDup (jkeys (rw_bound rows)) /\
  (forall x r, (x, r) ∈ rw_bound rows <-> x ∈ seen ++ todo /\ content s !! x = Some r /\ is_some (c_id (cardOf props x r)) = true).
Proof using Drive0.
  revert seen out. induction todo as [|y todo IH]; intros seen out H Hnd Hb; [injection H as <- <-; by rewrite app_nil_r|].
  cbn [loop] in H. apply act_bind_inv in H as (s1 & out1 & H1 & H2). apply act_bind_inv in H1 as (s2 & row & H1 & H3).
  apply (get_resource_inv host content) in H1 as [-> Hrow]. apply mret_ok in H3 as [-> ->].
  change (y :: todo) with ([y] ++ todo). rewrite app_assoc. apply (IH (seen ++ [y])) in H2; [done| |].
  - destruct (c_id (cardOf props y row)); [cbn; by apply jset_nodup|done].
  - intros x r. setoid_rewrite elem_of_app. setoid_rewrite list_elem_of_singleton.
    destruct (c_id (cardOf props y row)) as [id|] eqn:Ec; cbn [rw_bound].
    + rewrite <-!jget_elem in * by (done || by apply jset_nodup). rewrite jget_jset. destruct (decide (x = y)) as [->|Hne].
      * split; [intros [= <-]; split; [by right|]; by rewrite Ec|]. intros (_ & Hr & _). congruence.
      * rewrite jget_elem by done. rewrite Hb. split; [intros (? & ?); split; [by left|done]|]. by intros ([?|?] & ?).
    + rewrite Hb. split; [intros (? & ?); split; [by left|done]|]. intros ([Hx| ->] & Hr & Hi); [done|]. rewrite Hrow in Hr. injection Hr as <-. by rewrite Ec in Hi.
Qed.

Lemma readRows_spec where_ props s s' rows : readRows host where_ props s = (s', Ok rows) ->
  s' = s /\ NoDup (jkeys (rw_bound rows)) /\ forall x r, (x, r) ∈ rw_bound rows <-> bound_row where_ props s x r.
Proof using Drive0.
  intros (s1 & l & H1%calling_ok & H2)%act_bind_inv. injection H1 as <- Hl. apply (read_row_loop props []) in H2 as (-> & Hnd & Hb).
  - split; [done|]. split; [done|]. intros x r. rewrite Hb. cbn [app]. pose proof (drive_query s PARENT (table where_) l Hl x) as Hq.
    unfold bound_row. rewrite Hq. split; [intros ((r' & Hr' & Ha) & Hr & Hi); split_and!; congruence|]. intros (Hr & Ha & Hi). split_and!; try done. by exists r.
  - constructor.
  - intros x r. cbn. split; [by intros ?%elem_of_nil|]. by intros [?%elem_of_nil _].
Qed.

End Reading.

Section Cards.
Context (other : jstr -> option Z).
Implicit Types (x : jstr) (r : Props).

(** A row whose own value may be sent, or the stand-in of one that is held back. *)
Definition fit (props : Names) x r : Prop := invalid other (c_value (cardOf props x r)) = Ok None.

Lemma cards_of_rows_spec (props : Names) (rows : list (jstr * Props)) acc cs held :
  cards_of_rows other props acc rows = Ok (cs, held) -> NoDup (jkeys rows) -> (forall x, x ∈ jkeys rows -> x ∉ jkeys acc.2) ->
  (forall x r, (x, r) ∈ rows -> fit props x r -> cardOf props x r ∈ cs /\ x ∉ jkeys held) /\
  (forall x r, (x, r) ∈ rows -> ~ fit props x r -> x ∈ jkeys held) /\
  (forall x, x ∈ jkeys held -> x ∈ jkeys acc.2 \/ exists r, (x, r) ∈ rows /\ ~ fit props x r) /\
  (forall card, card ∈ acc.1 -> card ∈ cs) /\ (forall x, x ∈ jkeys acc.2 -> x ∈ jkeys held) /\
  (forall card, card ∈ cs -> card ∈ acc.1 \/ exists x r, (x, r) ∈ rows /\ c_subject card = x /\ c_id card = c_id (cardOf props x r) /\
     (fit props x r /\ card = cardOf props x r \/ x ∈ jkeys held /\ c_value card = baselineOf props r)).
Proof.
  revert acc. induction rows as [|[x r] rows IH]; intros acc H Hnd Hacc.
  - injection H as ->. cbn [fst snd]. split_and!; try (by intros ? ? ?%elem_of_nil); try done; by left.
  - cbn [cards_of_rows] in H. destruct (card_of_row other props acc (x, r)) as [acc1|] eqn:E1; [|done]. cbn [mbind res_bind] in H.
    cbn [jkeys map fst] in Hnd. apply NoDup_cons in Hnd as [Hx Hnd]. unfold card_of_row in E1. cbn [fst snd] in E1.
    destruct (invalid other (c_value (cardOf props x r))) as [reason|] eqn:Ei; [|done]. cbn [mbind res_bind] in E1. injection E1 as <-.
    set (card := cardOf props x r) in *.
    assert (Hkeys : forall y, y ∈ jkeys rows -> y ∉ jkeys acc.2) by (intros y Hy; apply Hacc; by right).
    destruct reason as [reason|].
    + set (held1 := jset x (text_of (member (js "title") (c_value card)), reason) acc.2) in *.
      set (acc1 := (if truthy_json (Some (baselineOf props r)) then (acc.1 ++ [mkCard (c_subject card) (c_id card) (baselineOf props r)], held1) else (acc.1, held1))) in *.
      assert (Hin1 : jkeys held1 = jkeys acc.2 ++ [x]).
      { subst held1. rewrite jset_fresh by (apply Hacc; by left). unfold jkeys. by rewrite map_app. }
      assert (Hacc1 : @snd (list Card) Held acc1 = held1) by (subst acc1; by destruct (truthy_json _)).
      assert (Hfit : ~ fit props x r) by (unfold fit; fold card; congruence).
      assert (Hcs1 : forall c, c ∈ acc1.1 -> c ∈ acc.1 \/ c = mkCard (c_subject card) (c_id card) (baselineOf props r)).
      { intros c. subst acc1. destruct (truthy_json _); cbn [fst]; [|by left]. intros [Hc| ->%list_elem_of_singleton]%elem_of_app; [by left|by right]. }
      destruct (IH acc1 H Hnd) as (I1 & I2 & I3 & I4 & I5 & I6).
      { intros y Hy. rewrite Hacc1, Hin1, elem_of_app, list_elem_of_singleton. intros [Hy'| ->]; [by apply (Hkeys y)|done]. }
      rewrite Hacc1, Hin1 in *. assert (Hxh : x ∈ jkeys held) by (apply I5, elem_of_app; right; by left).
      split_and!.
      * intros y ry [[= -> ->]|Hin]%elem_of_cons Hf; [done|]. by apply I1.
      * intros y ry [[= -> ->]|Hin]%elem_of_cons Hf; [done|]. by eapply I2.
      * intros y Hy. destruct (I3 y Hy) as [[Hy'| ->%list_elem_of_singleton]%elem_of_app|(ry & Hin & Hf)]; [by left| |].
        { right. exists r. split; [by left|done]. }
        { right. exists ry. split; [by right|done]. }
      * intros c Hc. apply I4. subst acc1. destruct (truthy_json _); cbn [fst]; [apply elem_of_app; by left|done].
      * intros y Hy. apply I5, elem_of_app. by left.
      * intros c Hc. destruct (I6 c Hc) as [Hc1|(y & ry & Hin & Hs)]; [|right; exists y, ry; split; [by right|done]].
        destruct (Hcs1 c Hc1) as [?| ->]; [by left|]. right. exists x, r. split; [by left|]. split; [done|]. split; [done|]. by right.
    + assert (Hfit : fit props x r) by exact Ei.
      destruct (IH _ H Hnd Hkeys) as (I1 & I2 & I3 & I4 & I5 & I6). cbn [fst snd] in *.
      split_and!.
      * intros y ry [[= -> ->]|Hin]%elem_of_cons Hf; [|by apply I1]. split; [apply I4, elem_of_app; right; by left|]. intros Hh.
        destruct (I3 x Hh) as [Ha|(ry & Hin & _)]; [apply (Hacc x); [by left|done]|]. apply Hx. apply list_elem_of_fmap. by exists (x, ry).
      * intros y ry [[= -> ->]|Hin]%elem_of_cons Hf; [done|]. by eapply I2.
      * intros y Hy. destruct (I3 y Hy) as [Hy'|(ry & Hin & Hf)]; [by left|]. right. exists ry. split; [by right|done].
      * intros c Hc. apply I4, elem_of_app. by left.
      * done.
      * intros c Hc. destruct (I6 c Hc) as [[Hc1| ->%list_elem_of_singleton]%elem_of_app|(y & ry & Hin & Hs)]; [by left| |right; exists y, ry; split; [by right|done]].
        right. exists x, r. split; [by left|]. split; [done|]. split; [done|]. by left.
Qed.
End Cards.

Section Previewing.
Context {S : Type} (host : HostStore S) (proxy : HostProxy S) (new_URL : jstr -> option Url) (other : jstr -> option Z).
Context (reconcileRecord : Side -> Side -> Side -> SyncDecision (V := Json)).
Context (content : S -> gmap (list Z) Props) `{!Beside host proxy content}.
Implicit Types (s : S) (x : jstr) (r : Props).

Lemma jset_keys {V} (k k' : jstr) (v : V) (m : list (jstr * V)) : k ∈ jkeys (jset k' v m) -> k = k' \/ k ∈ jkeys m.
Proof.
  induction m as [|[k1 v1] m IH]; cbn.
  - intros ->%list_elem_of_singleton. by left.
  - destruct (decide (k' = k1)) as [->|]; cbn; intros [->|Hin]%elem_of_cons; [by left|right; by right|right; by left|].
    destruct (IH Hin); [by left|right; by right].
Qed.

Lemma fold_jset_get {A B} (f : A -> jstr) (g : A -> B) (l : list A) m p : p ∈ l -> (forall q, q ∈ l -> f q = f p -> g q = g p) ->
  jget (f p) (fold_left (fun m q => jset (f q) (g q) m) l m) = Some (g p).
Proof.
  induction l as [|q l IH] using rev_ind; [by intros ?%elem_of_nil|]. intros Hp Hg. rewrite fold_left_app. cbn [fold_left]. rewrite jget_jset.
  destruct (decide (f p = f q)) as [E|Hne].
  - f_equal. apply Hg; [apply elem_of_app; right; by left|done].
  - apply IH; [|intros q' Hq'; apply Hg, elem_of_app; by left]. apply elem_of_app in Hp as [?|Hp%list_elem_of_singleton]; [done|by subst].
Qed.

Lemma c_id_text (props : Names) x r id : c_id (cardOf props x r) = Some id -> text_of (r !! named props "google-event-id") = id /\ id <> [].
Proof. unfold cardOf. cbn [c_id]. destruct (r !! named props "google-event-id") as [[| | |[|c t]| |]|]; by intros [= <-]. Qed.

(** Each event has one row. *)
Definition one_row (props : Names) (rows : list (jstr * Props)) : Prop := forall x r y r', (x, r) ∈ rows -> (y, r') ∈ rows ->
  c_id (cardOf props x r) = c_id (cardOf props y r') -> x = y /\ r = r'.

Lemma records_of_get (props : Names) (rows : list (jstr * Props)) x r id : one_row props rows ->
  (forall y r', (y, r') ∈ rows -> is_some (c_id (cardOf props y r')) = true) -> (x, r) ∈ rows -> c_id (cardOf props x r) = Some id ->
  jget id (records_of props rows) = Some (mkBinding x (baselineOf props r)).
Proof.
  intros Hone Hsome Hin Hid. unfold records_of. destruct (c_id_text props x r id Hid) as [Ht _]. rewrite <-Ht.
  apply (fold_jset_get (fun p : jstr * Props => text_of (p.2 !! named props "google-event-id")) (fun p => mkBinding p.1 (baselineOf props p.2)) rows [] (x, r)); [done|].
  intros [y r'] Hq Heq. cbn [fst snd] in *. specialize (Hsome y r' Hq). destruct (c_id (cardOf props y r')) as [id'|] eqn:Ey; [|done].
  destruct (c_id_text props y r' id' Ey) as [Ht' _]. destruct (Hone x r y r' Hin Hq) as [-> ->]; [|done]. rewrite Hid, Ey. congruence.
Qed.

Lemma records_keys (props : Names) (rows : list (jstr * Props)) id : id ∈ jkeys (records_of props rows) ->
  exists x r, (x, r) ∈ rows /\ text_of (r !! named props "google-event-id") = id.
Proof.
  unfold records_of. induction rows as [|[x r] rows IH] using rev_ind; [by intros ?%elem_of_nil|]. rewrite fold_left_app. cbn [fold_left fst snd].
  intros Hin. apply jset_keys in Hin as [->|Hin]; [exists x, r; split; [apply elem_of_app; right; by left|done]|].
  destruct (IH Hin) as (y & r' & Hy & Ht). exists y, r'. split; [apply elem_of_app; by left|done].
Qed.

(** What the preview of the rows reads. *)
Record previewed (connectionId : jstr) (props : Names) (rows : Rows) (calendarId : jstr) s (pv : Preview) (held : Held) s' (found : Scan) (cs : list Card) : Prop := {
  pw_content : content s' = content s;
  pw_cards : cards_of_rows other props ([], []) (rw_bound rows) = Ok (cs, held);
  pw_found : scan_ok other found;
  pw_compare : compare other reconcileRecord calendarId (mkState 0 (records_of props (rw_bound rows)) None) found cs = Ok pv;
}.

(** Google's calendar, as a scan of it found it. *)
Definition scanned (connectionId : jstr) (props : Names) (rows : Rows) (calendarId : jstr) (maxPages : nat) s (found : Scan) : Prop :=
  exists root st', endpoint calendarId = Ok root /\
    scan_pages other (calendar_host proxy new_URL other connectionId props rows) root maxPages maxPages no_scan None ((s, None), []) = (st', Ok found).

Lemma preview_rows_spec connectionId props rows calendarId maxPages s s' pv held :
  preview_rows proxy new_URL other reconcileRecord connectionId props rows calendarId maxPages s = (s', Ok (pv, held)) ->
  exists found cs, previewed connectionId props rows calendarId s pv held s' found cs /\ scanned connectionId props rows calendarId maxPages s found.
Proof using Beside0.
  unfold preview_rows. set (h := calendar_host proxy new_URL other connectionId props rows).
  destruct (preview other reconcileRecord h calendarId maxPages ((s, None), [])) as [[[s1 last] held1] [pv1|e]] eqn:E; [|done].
  intros [= -> -> ->]. unfold preview in E. apply act_bind_inv in E as (st1 & root & H1 & E). unfold lift in H1. injection H1 as <- Hroot.
  apply act_bind_inv in E as (st2 & st & H2 & E). injection H2 as <- <-. cbn [s_cursor truthy_json] in E.
  apply act_bind_inv in E as (st3 & found & H3 & E). apply act_bind_inv in E as (st4 & cs & H4 & E). unfold lift in E. injection E as -> Hcmp.
  assert (content st3.1.1 = content s /\ st3.2 = []) as [Hc Hh].
  { refine (scan_pages_state other h root (fun st => content st.1.1 = content s /\ st.2 = []) maxPages maxPages no_scan None _ st3 (Ok found) _ _ H3); [|by split].
    intros intent sa sb ra [Ha Hb]. subst h. cbn [read calendar_host]. unfold relaying. destruct (relay new_URL proxy connectionId intent sa.1) as [rl a] eqn:Er.
    intros [= <- _]. cbn [fst snd]. split; [|done]. by rewrite (relay_state host proxy new_URL content connectionId intent sa.1 rl a Er). }
  subst h. cbn [cards calendar_host] in H4. rewrite Hh in H4. destruct (cards_of_rows other props _ (rw_bound rows)) as [[cs1 held2]|] eqn:Ec; [|done].
  injection H4 as H4 H5 H6. subst. exists found, cs. split; [split; [|done| |exact Hcmp]|].
  - rewrite <-Hc. f_equal. by rewrite H4.
  - eapply scan_pages_ok. exact H3.
  - exists root, st3. by split.
Qed.
End Previewing.

(** ** What a refresh writes *)

Section ImportedRows.
Context (where_ : Layout) (props : Names) (Hsep : separate props) (held : Held).
Implicit Types (x y id : jstr) (r : Props) (ch : Change) (chs : list Change) (remote : Json).

(** A row after an event was imported into it. *)
Record imported ch remote r r' : Prop := {
  im_fields : forall x, same_fields (c_value (cardOf props x r')) (ch_desired ch);
  im_id : forall x, c_id (cardOf props x r') = c_id (cardOf props x r);
  im_baseline : r' !! named props "sync-baseline" = Some (OStr (json_text remote));
  im_etag : r' !! named props "google-etag" = Some (OStr (default [] (ch_etag ch)));
  im_other : forall k, k ∉ field_keys props ++ book_keys props -> r' !! k = r !! k;
}.

(** A row that was made of an event. *)
Record added ch id remote r' : Prop := {
  ad_fields : forall x, same_fields (c_value (cardOf props x r')) (ch_desired ch);
  ad_id : forall x, c_id (cardOf props x r') = Some id;
  ad_baseline : r' !! named props "sync-baseline" = Some (OStr (json_text remote));
  ad_etag : r' !! named props "google-etag" = Some (OStr (default [] (ch_etag ch)));
  ad_parent : r' !! PARENT = Some (OStr (table where_));
}.

Lemma book_nodup : NoDup (book_keys props).
Proof using Hsep. assert (H := Hsep). apply NoDup_app in H as (_ & _ & H). by apply NoDup_app in H as (H & _ & _). Qed.

Lemma row_updates_imported ch remote r dm upd book : ch_desired ch = OObj dm -> textual dm ->
  row_updates props r ch (json_text remote) = Ok (upd, book) -> imported ch remote r (assign (upd ++ book) r).
Proof using Hsep.
  intros Hd Hdm. unfold row_updates. rewrite Hd. destruct (writeRow props r (OObj dm)) as [upd1|] eqn:Ew; [|done]. cbn [mbind res_bind].
  set (etag := OStr (default [] (ch_etag ch))). set (link := OStr (default [] (ch_link ch))). set (r1 := assign upd1 r).
  set (extra := [(named props "google-etag", Some etag); (named props "sync-baseline", Some (OStr (json_text remote))); (named props "google-link", Some link)]).
  assert (Hx : jkeys extra = book_keys props) by done. assert (Hn : NoDup (jkeys extra)) by (rewrite Hx; apply book_nodup).
  destruct (negb (strict_eq (r1 !! named props "google-etag") _) || _ || _) eqn:Eb; intros [= <- <-].
  - assert (W : written props dm extra r (assign (upd1 ++ extra) r)) by (apply row_written; [done..|]; intros k; by rewrite Hx).
    destruct W as [W1 W2 W3 W4]. split; [by intros x; rewrite Hd|done|apply W3; right; by left|apply W3; by left|].
    intros k Hk. apply W4. by rewrite Hx.
  - rewrite app_nil_r. assert (W : written props dm [] r (assign (upd1 ++ []) r)) by (apply row_written; [done..|constructor|by intros k ?%elem_of_nil]).
    rewrite app_nil_r in W. fold r1 in W |- *. destruct W as [W1 W2 _ W4]. apply orb_false_iff in Eb as [Eb _]. apply orb_false_iff in Eb as [E1 E2].
    apply negb_false_iff, strict_eq_spec in E1. apply negb_false_iff, strict_eq_spec in E2. split; [by intros x; rewrite Hd|done|done|done|].
    intros k [Hk1 Hk2]%not_elem_of_app. apply W4. rewrite app_nil_r. done.
Qed.

Lemma added_row ch id remote dm vs : ch_desired ch = OObj dm -> textual dm -> id <> [] -> valuesOf props (ch_desired ch) = Ok vs ->
  added ch id remote (new_resource (table where_) [rowClass where_]
    (jmap_of (vs ++ [(named props "google-event-id", Some (OStr id)); (named props "google-etag", Some (OStr (default [] (ch_etag ch))));
               (named props "sync-baseline", Some (OStr (json_text remote)))]
            ++ match ch_link ch with Some ((_ :: _) as l) => [(named props "google-link", Some (OStr l))] | _ => [] end))).
Proof using Hsep.
  intros Hd Hdm Hid Hvs. rewrite Hd in Hvs. apply (valuesOf_fields props Hsep) in Hvs as [day ->].
  set (extra := [(named props "google-event-id", Some (OStr id)); _; _] ++ _).
  assert (Hs := Hsep). apply NoDup_app in Hs as (Hf & Hdis & Hrest). apply NoDup_app in Hrest as (Hb & Hdis2 & Hlast).
  assert (Hid_book : named props "google-event-id" ∉ book_keys props) by (intros Hin; apply (Hdis2 _ Hin); by left).
  assert (Hpar_book : PARENT ∉ book_keys props) by (intros Hin; apply (Hdis2 _ Hin); right; by left).
  assert (Hpar_id : PARENT <> named props "google-event-id").
  { intros E. apply NoDup_cons in Hlast as [Hn _]. apply Hn. rewrite <-E. by left. }
  assert (Hextra : forall k, k ∈ jkeys extra -> k = named props "google-event-id" \/ k ∈ book_keys props).
  { intros k. subst extra. unfold jkeys. rewrite map_app, elem_of_app. cbn [map fst]. intros [Hk|Hk].
    - apply elem_of_cons in Hk as [->|Hk]; [by left|]. right. unfold book_keys. apply elem_of_cons in Hk as [->|Hk]; [by left|].
      apply list_elem_of_singleton in Hk as ->. right. by left.
    - right. destruct (ch_link ch) as [[|c l]|]; cbn in Hk; try by apply elem_of_nil in Hk. apply list_elem_of_singleton in Hk as ->. right. right. by left. }
  assert (Hne : NoDup (jkeys extra)).
  { subst extra. unfold jkeys. rewrite map_app. unfold book_keys in *. apply NoDup_cons in Hb as [Hb1 Hb]. apply NoDup_cons in Hb as [Hb2 _].
    cbn [map fst app]. destruct (ch_link ch) as [[|c l]|]; cbn [map fst]; repeat (apply NoDup_cons; split); try apply NoDup_nil_2; set_solver. }
  assert (Hnd : NoDup (jkeys (field_values props dm day ++ extra))).
  { unfold jkeys. rewrite map_app. apply NoDup_app. split; [exact Hf|]. split; [|exact Hne]. intros k Hk Hke%Hextra.
    apply (Hdis k Hk). destruct Hke as [->|Hke]; apply elem_of_app; [right; by left|by left]. }
  rewrite jmap_of_nodup by exact Hnd. unfold new_resource. set (base := <[PARENT := _]> _).
  assert (Hget : forall k v, (k, Some v) ∈ field_values props dm day ++ extra -> assign (field_values props dm day ++ extra) base !! k = Some v)
    by (intros; by apply assign_elem).
  split.
  - intros x. rewrite Hd. assert (Ht := Hdm). destruct Ht as (T1 & T2 & T3 & T4 & T5 & allDay & T6).
    assert (Hset : forall k f, (k, jget (js f) dm) ∈ field_values props dm day -> is_some (jget (js f) dm) = true ->
        assign (field_values props dm day ++ extra) base !! k = jget (js f) dm).
    { intros k f Hin Hsome. destruct (jget (js f) dm) as [v|] eqn:Ev; [|done]. apply Hget. apply elem_of_app. by left. }
    assert (Hsome : forall v, is_text v = true -> is_some v = true) by (by intros [|]).
    apply card_fields; [done| | | | | |]; apply Hset; try (by apply Hsome); try (by rewrite T6); repeat first [by left|right].
  - intros x. unfold cardOf. cbn [c_id]. rewrite (Hget (named props "google-event-id") (OStr id)); [by destruct id|].
    apply elem_of_app. right. subst extra. apply elem_of_app. left. by left.
  - apply Hget. apply elem_of_app. right. subst extra. apply elem_of_app. left. right. right. by left.
  - apply Hget. apply elem_of_app. right. subst extra. apply elem_of_app. left. right. by left.
  - rewrite assign_other; [subst base; by rewrite lookup_insert_eq|exact Hnd|]. unfold jkeys. rewrite map_app, not_elem_of_app. split.
    + intros Hin. apply (Hdis PARENT); [exact Hin|]. apply elem_of_app. right. right. by left.
    + intros [?|?]%Hextra; done.
Qed.

(** The row a change is for, unless it is held back; and the id it is of. *)
Definition change_of ch : option (jstr * Json) :=
  match ch_id ch, ch_remote ch with Some ((_ :: _) as id), Some remote => Some (id, remote) | _, _ => None end.

Definition target ch : option jstr :=
  match change_of ch, ch_subject ch with
  | Some _, Some ((_ :: _) as x) => if has_key x held then None else Some x
  | _, _ => None
  end.

Definition adds ch : bool := match change_of ch, ch_subject ch with Some _, (None | Some []) => true | _, _ => false end.

End ImportedRows.

Section Importing.
Context {S : Type} (host : HostStore S) (content : S -> gmap (list Z) Props) `{!Drive host content}.
Context (where_ : Layout) (props : Names) (rows : Rows) (held : Held).
Implicit Types (s : S) (x y id : jstr) (r : Props) (ch : Change) (chs : list Change) (remote : Json).

#[local] Abbreviation target := (target held).

Lemma apply_change_step sum sum' ch s s' : apply_change host where_ props rows held sum ch s = (s', Ok sum') ->
  (change_of ch = None \/ target ch = None /\ adds ch = false) /\ s' = s \/
  (exists x r id remote upd book, target ch = Some x /\ change_of ch = Some (id, remote) /\ jget x (rw_bound rows) = Some r /\
     row_updates props r ch (json_text remote) = Ok (upd, book) /\
     (content s !! x = Some r -> content s' = <[x := assign (upd ++ book) r]> (content s))) \/
  (exists y id remote vs, adds ch = true /\ change_of ch = Some (id, remote) /\ id <> [] /\ valuesOf props (ch_desired ch) = Ok vs /\
     content s !! y = None /\ content s' = <[y := new_resource (table where_) [rowClass where_]
    (jmap_of (vs ++ [(named props "google-event-id", Some (OStr id)); (named props "google-etag", Some (OStr (default [] (ch_etag ch))));
               (named props "sync-baseline", Some (OStr (json_text remote)))]
            ++ match ch_link ch with Some ((_ :: _) as l) => [(named props "google-link", Some (OStr l))] | _ => [] end))]> (content s)).
Proof using Drive0.
  unfold apply_change, target, adds, change_of. destruct (ch_id ch) as [[|c id]|]; [intros [-> _]%mret_ok; left; split; [by left|done]| |intros [-> _]%mret_ok; left; split; [by left|done]].
  destruct (ch_remote ch) as [remote|]; [|intros [-> _]%mret_ok; left; split; [by left|done]].
  assert (Hadd : (_ ← add_row host where_ props ch (c :: id) (json_text remote);
      mret (mkSummary (is_calendarId sum) (is_total sum) (is_added sum + 1) (is_updated sum) (is_unchanged sum)
                  (is_skipped sum) (is_conflicts sum) (is_localOnly sum) (is_invalid sum) (is_review sum))) s = (s', Ok sum') ->
      exists y vs, valuesOf props (ch_desired ch) = Ok vs /\
     content s !! y = None /\ content s' = <[y := new_resource (table where_) [rowClass where_]
    (jmap_of (vs ++ [(named props "google-event-id", Some (OStr (c :: id))); (named props "google-etag", Some (OStr (default [] (ch_etag ch))));
               (named props "sync-baseline", Some (OStr (json_text remote)))]
            ++ match ch_link ch with Some ((_ :: _) as l) => [(named props "google-link", Some (OStr l))] | _ => [] end))]> (content s)).
  { intros (s1 & u & H1 & [-> _]%mret_ok)%act_bind_inv. unfold add_row in H1. apply act_bind_inv in H1 as (s2 & vs & H1 & H2).
    unfold lift in H1. injection H1 as <- Hvs. apply act_bind_inv in H2 as (s3 & y & H2 & [-> _]%mret_ok). apply calling_ok in H2.
    apply drive_new in H2 as [Hn Hc]. by exists y, vs. }
  destruct (ch_subject ch) as [[|d x]|].
  - intros H. right. right. destruct (Hadd H) as (y & vs & ? & ? & ?). by exists y, (c :: id), remote, vs.
  - destruct (has_key (d :: x) held) eqn:Eh; [intros [-> _]%mret_ok; left; split; [by right|done]|].
    destruct (jget (d :: x) (rw_bound rows)) as [r|] eqn:Er; [|done]. intros (s1 & [upd book] & H1 & H2)%act_bind_inv. unfold lift in H1. injection H1 as <- Hu.
    apply act_bind_inv in H2 as (s2 & u & H2 & [-> _]%mret_ok). right. left. exists (d :: x), r, (c :: id), remote, upd, book. split_and!; try done.
    intros Hr. destruct upd as [|p upd], book as [|q book]; cbn [is_empty andb] in H2.
    + apply mret_ok in H2 as [-> _]. cbn [app assign fold_left]. symmetry. by apply insert_id.
    + destruct u. by eapply (save_values_content host content).
    + destruct u. by eapply (save_values_content host content).
    + destruct u. by eapply (save_values_content host content).
  - intros H. right. right. destruct (Hadd H) as (y & vs & ? & ? & ?). by exists y, (c :: id), remote, vs.
Qed.

(** The changes that are applied want texts and a flag. *)
Definition applicable chs : Prop := forall ch, ch ∈ chs -> is_some (target ch) = true \/ adds ch = true -> exists dm, ch_desired ch = OObj dm /\ textual dm.

Lemma apply_changes chs sum sum' s s' : separate props ->
  loop (apply_change host where_ props rows held) sum chs s = (s', Ok sum') ->
  applicable chs -> NoDup (omap target chs) ->
  (forall ch x r, ch ∈ chs -> target ch = Some x -> jget x (rw_bound rows) = Some r -> content s !! x = Some r) ->
  (forall ch x, ch ∈ chs -> target ch = Some x -> is_some (jget x (rw_bound rows)) = true) ->
  (forall x r, content s !! x = Some r -> x ∉ omap target chs -> content s' !! x = Some r) /\
  (forall ch x r id remote, ch ∈ chs -> target ch = Some x -> change_of ch = Some (id, remote) -> jget x (rw_bound rows) = Some r ->
     exists r', content s' !! x = Some r' /\ imported props ch remote r r') /\
  (forall ch id remote, ch ∈ chs -> adds ch = true -> change_of ch = Some (id, remote) ->
     exists y r', content s !! y = None /\ content s' !! y = Some r' /\ added where_ props ch id remote r').
Proof using Drive0.
  intros Hsep. revert sum s. induction chs as [|ch chs IH]; intros sum s H Happ Hnd Hbound Hknown.
  - apply mret_ok in H as [-> _]. split_and!; [done|by intros ? ? ? ? ? ?%elem_of_nil|by intros ? ? ? ?%elem_of_nil].
  - cbn [loop] in H. apply act_bind_inv in H as (s1 & sum1 & H1 & H2).
    assert (Hnd' : NoDup (omap target chs) /\ forall x, target ch = Some x -> x ∉ omap target chs).
    { cbn in Hnd. destruct (target ch) as [x|]; [|done]. apply NoDup_cons in Hnd as [Hx Hnd]. split; [done|]. by intros x' [= <-]. }
    destruct Hnd' as [Hnd' Hhead].
    assert (Happ' : applicable chs) by (intros c Hc; apply Happ; by right).
    assert (Hknown' : forall c x, c ∈ chs -> target c = Some x -> is_some (jget x (rw_bound rows)) = true) by (intros c x Hc; apply Hknown; by right).
    assert (Hin_omap : forall c x, c ∈ chs -> target c = Some x -> x ∈ omap target chs) by (intros c x Hc Hx; apply list_elem_of_omap; by exists c).
    assert (Hsub : forall x, x ∉ omap target (ch :: chs) -> (x ∉ omap target chs) /\ target ch <> Some x).
    { intros x Hx. split; [intros Hin; apply Hx|intros E; apply Hx]; apply list_elem_of_omap.
      - apply list_elem_of_omap in Hin as (c & Hc & E). exists c. split; [by right|done].
      - exists ch. split; [by left|done]. }
    assert (Hdm : is_some (target ch) = true \/ adds ch = true -> exists dm, ch_desired ch = OObj dm /\ textual dm) by (apply Happ; by left).
    destruct (apply_change_step _ _ _ _ _ H1) as [[Hskip ->]|[(x & r & id & remote & upd & book & Ht & Hc & Hr & Hu & Hcont)|(y & id & remote & vs & Ha & Hc & Hid & Hvs & Hy & Hcont)]].
    + destruct (IH sum1 s H2 Happ' Hnd') as (I1 & I2 & I3); [intros c x r Hcin; apply Hbound; by right|done|]. split_and!.
      * intros x r Hr Hx. apply I1; [done|]. by apply Hsub.
      * intros c x r id remote [->|Hcin]%elem_of_cons Hx Hch Hr; [|by eapply I2]. exfalso. destruct Hskip as [E|[E _]]; congruence.
      * intros c id remote [->|Hcin]%elem_of_cons Hx Hch; [|by apply I3]. exfalso. destruct Hskip as [E|[_ E]]; congruence.
    + assert (Hx : content s !! x = Some r) by (by apply (Hbound ch); [left| |]). specialize (Hcont Hx).
      destruct (IH sum1 s1 H2 Happ' Hnd') as (I1 & I2 & I3); [|done|].
      { intros c z rz Hcin Hz Hrz. rewrite Hcont, lookup_insert_ne; [by apply (Hbound c); [right| |]|]. intros <-. apply (Hhead x Ht). by eapply Hin_omap. }
      split_and!.
      * intros z rz Hz Hzo. apply Hsub in Hzo as [Hzo Hne]. apply I1; [|done]. rewrite Hcont, lookup_insert_ne; [done|congruence].
      * intros c z rz id' remote' [->|Hcin]%elem_of_cons Hz Hch Hrz; [|by eapply I2]. rewrite Ht in Hz. injection Hz as <-. rewrite Hc in Hch. injection Hch as <- <-.
        rewrite Hr in Hrz. injection Hrz as <-. destruct Hdm as (dm & Hd & Hdm); [left; by rewrite Ht|].
        exists (assign (upd ++ book) r). split; [|by eapply row_updates_imported]. apply I1; [by rewrite Hcont, lookup_insert_eq|by apply Hhead].
      * intros c id' remote' [->|Hcin]%elem_of_cons Hadd Hch.
        { exfalso. revert Ht Hadd. unfold CalendarSync.target, adds. rewrite Hc. by destruct (ch_subject ch) as [[|]|]. }
        destruct (I3 c id' remote' Hcin Hadd Hch) as (y & r' & Hy & Hy' & Hadded). exists y, r'. split; [|done].
        rewrite Hcont, lookup_insert_None in Hy. tauto.
    + set (r0 := new_resource _ _ _) in Hcont.
      destruct (IH sum1 s1 H2 Happ' Hnd') as (I1 & I2 & I3); [|done|].
      { intros c z rz Hcin Hz Hrz. assert (content s !! z = Some rz) as Hzs by (by apply (Hbound c); [right| |]).
        rewrite Hcont, lookup_insert_ne; [done|congruence]. }
      assert (Hno : target ch = None) by (revert Ha; unfold CalendarSync.target, adds; rewrite Hc; by destruct (ch_subject ch) as [[|]|]).
      split_and!.
      * intros z rz Hz Hzo. apply Hsub in Hzo as [Hzo _]. apply I1; [|done]. rewrite Hcont, lookup_insert_ne; [done|congruence].
      * intros c z rz id' remote' [->|Hcin]%elem_of_cons Hz Hch Hrz; [congruence|by eapply I2].
      * intros c id' remote' [->|Hcin]%elem_of_cons Hadd Hch.
        { rewrite Hc in Hch. injection Hch as <- <-. exists y, r0. split; [done|]. destruct Hdm as (dm & Hd & Hdm); [by right|].
          split; [|by eapply added_row]. apply I1; [by rewrite Hcont, lookup_insert_eq|]. intros (c & Hcin & Hcx)%list_elem_of_omap.
          specialize (Hknown' c y Hcin Hcx). destruct (jget y (rw_bound rows)) as [ry|] eqn:Ey; [|done].
          assert (content s !! y = Some ry) by (by apply (Hbound c); [right| |]). congruence. }
        destruct (I3 c id' remote' Hcin Hadd Hch) as (z & r' & Hz & Hz' & Hadded). exists z, r'. split; [|done].
        rewrite Hcont, lookup_insert_None in Hz. tauto.
Qed.
End Importing.

(** ** Refreshing *)

Section Refreshing.
Context {S : Type} (host : HostStore S) (proxy : HostProxy S) (new_URL : jstr -> option Url) (other : jstr -> option Z).
Context (reconcileRecord : Side -> Side -> Side -> SyncDecision (V := Json)) `{!ThreeWay reconcileRecord}.
Context (content : S -> gmap (list Z) Props) `{!Drive host content} `{!Beside host proxy content}.
Context (where_ : Layout) (props : Names) (Hsep : separate props).
Implicit Types (s : S) (x y id : jstr) (r : Props) (ch : Change) (remote : Json).

#[local] Abbreviation bound_row := (bound_row content where_ props).

Lemma JSON_parse_keyed t v : JSON_parse t = Some v -> keyed v.
Proof.
  unfold JSON_parse. destruct (parse_value _ t) as [[w r]|] eqn:E; [|done]. cbn [mbind option_bind fst snd]. destruct (skip r); [|done]. intros [= <-].
  destruct w as [| | | | |m]; try done. cbn [parse_value] in E. destruct (skip t) as [|c u]; [done|].
  destruct (c =? 34); [by destruct (parse_units u)|]. destruct (c =? 91); [by destruct (parse_group _ 93 _ u)|].
  destruct (c =? 123).
  - destruct (parse_group _ 125 _ u) as [[l r']|]; [|done]. injection E as <- _. cbn [keyed fst]. unfold jmap_of.
    assert (forall m0 : fields_map, NoDup (jkeys m0) -> NoDup (jkeys (fold_left (fun m p => jset p.1 p.2 m) l m0))) as H; [|apply H; constructor].
    induction l as [|p l IH]; intros m0 Hm0; [done|]. cbn [fold_left]. by apply IH, jset_nodup.
  - destruct (starts_with (js "null") (c :: u)); [done|]. destruct (starts_with (js "true") (c :: u)); [done|].
    destruct (starts_with (js "false") (c :: u)); [done|]. by destruct (parse_number (c :: u)).
Qed.

Lemma baseline_keyed r : keyed (baselineOf props r).
Proof.
  unfold baselineOf. destruct (r !! _) as [[| | |[|c t]| |]|]; try done. destruct (JSON_parse (c :: t)) as [v|] eqn:E; [|done]. by eapply JSON_parse_keyed.
Qed.

Lemma nodup_by {A} (f g : A -> option jstr) (h : jstr -> jstr) (l : list A) : NoDup (omap f l) ->
  (forall a y, a ∈ l -> g a = Some y -> f a = Some (h y)) -> NoDup (omap g l).
Proof.
  induction l as [|a l IH]; [constructor|]. intros Hnd Hg. cbn in Hnd |- *.
  assert (Hrest : NoDup (omap g l)).
  { apply IH; [destruct (f a); [by apply NoDup_cons in Hnd as [_ ?]|done]|]. intros b y Hb. apply Hg. by right. }
  destruct (g a) as [y|] eqn:Ey; [|done]. pose proof (Hg a y ltac:(by left) Ey) as Hf. rewrite Hf in Hnd. apply NoDup_cons in Hnd as [Hno _].
  apply NoDup_cons. split; [|done]. intros (b & Hb & Eb)%list_elem_of_omap. apply Hno. apply list_elem_of_omap. exists b. split; [done|]. apply Hg; [by right|done].
Qed.

(** The rows of a drive where each event has one row. *)
Definition one_row_each s : Prop := forall x r y r', bound_row s x r -> bound_row s y r' ->
  c_id (cardOf props x r) = c_id (cardOf props y r') -> x = y.

(** Values that compare as JavaScript compares them. *)
Definition scalar_sides s found : Prop :=
  (forall x r p, bound_row s x r -> HostStore.is_scalar (member p (baselineOf props r)) = true) /\
  (forall id v p, (id, v) ∈ events found -> HostStore.is_scalar (member p v) = true).

Section Run.
Context (connectionId calendarId : jstr) (rows : Rows) (s s1 : S) (pv : Preview) (held : Held) (found : Scan) (cs : list Card).
Context (Hnd : NoDup (jkeys (rw_bound rows))) (Hrows : forall x r, (x, r) ∈ rw_bound rows <-> bound_row s x r).
Context (Hpw : previewed other reconcileRecord content connectionId props rows calendarId s pv held s1 found cs).
Context (Hone : one_row_each s) (Hsc : scalar_sides s found) (Hnamed : forall x r, bound_row s x r -> x <> []).

Lemma rows_get x r : jget x (rw_bound rows) = Some r <-> bound_row s x r.
Proof using Hnd Hrows. by rewrite jget_elem. Qed.

Lemma rows_one : one_row props (rw_bound rows).
Proof using Hrows Hone.
  intros x r y r' Hx Hy Hid. apply Hrows in Hx, Hy. assert (x = y) as -> by by eapply Hone. split; [done|].
  destruct Hx as [Hx _], Hy as [Hy _]. congruence.
Qed.

Lemma row_binding x r id : bound_row s x r -> c_id (cardOf props x r) = Some id ->
  jget id (records_of props (rw_bound rows)) = Some (mkBinding x (baselineOf props r)).
Proof using Hrows Hone.
  intros Hr Hid. eapply records_of_get; [apply rows_one| |by apply Hrows|done]. intros y r' Hy. apply Hrows in Hy. by destruct Hy as (_ & _ & ?).
Qed.

Lemma row_baseline x r id : bound_row s x r -> c_id (cardOf props x r) = Some id ->
  baseline (mkState 0 (records_of props (rw_bound rows)) None) id = as_record (baselineOf props r).
Proof using Hrows Hone. intros Hr Hid. unfold baseline. cbn [s_records]. by rewrite (row_binding x r id). Qed.

(** What the cards are, row by row. *)
Lemma card_row card : card ∈ cs -> exists x r, bound_row s x r /\ c_subject card = x /\ c_id card = c_id (cardOf props x r) /\
  (fit other props x r /\ card = cardOf props x r \/ x ∈ jkeys held /\ c_value card = baselineOf props r).
Proof using Hnd Hrows Hpw.
  intros Hc. destruct Hpw as [_ Hcs _ _]. apply cards_of_rows_spec in Hcs as (_ & _ & _ & _ & _ & H); [|done|by intros x _ ?%elem_of_nil].
  destruct (H card Hc) as [?%elem_of_nil|(x & r & Hin & ? & ? & ?)]; [done|]. exists x, r. split; [by apply Hrows|done].
Qed.

Lemma fit_card x r : bound_row s x r -> fit other props x r -> cardOf props x r ∈ cs /\ x ∉ jkeys held.
Proof using Hnd Hrows Hpw.
  intros Hr Hf. destruct Hpw as [_ Hcs _ _]. apply cards_of_rows_spec in Hcs as (H & _); [|done|by intros ? _ ?%elem_of_nil]. apply H; [by apply Hrows|done].
Qed.

Lemma held_row x r : bound_row s x r -> x ∈ jkeys held <-> ~ fit other props x r.
Proof using Hnd Hrows Hpw.
  intros Hr. destruct Hpw as [_ Hcs _ _]. apply cards_of_rows_spec in Hcs as (H1 & H2 & H3 & _); [|done|by intros ? _ ?%elem_of_nil]. split.
  - intros [?%elem_of_nil|(r' & Hin & Hf)]%H3; [done|]. apply Hrows in Hin. destruct Hr as [Hx _], Hin as [Hx' _]. rewrite Hx in Hx'. by injection Hx' as <-.
  - intros Hf. eapply H2; [by apply Hrows|done].
Qed.

Lemma has_key_held x : has_key x held = true <-> x ∈ jkeys held.
Proof.
  unfold has_key. destruct (jget x held) eqn:E; split; try done.
  - intros _. destruct (decide (x ∈ jkeys held)) as [|Hn]; [done|]. apply jget_None in Hn. congruence.
  - apply jget_None in E. done.
Qed.

(** The changes of the preview, by row. *)
Lemma change_row ch id x : ch ∈ p_changes pv -> ch_id ch = Some id -> ch_subject ch = Some x ->
  exists r remote, bound_row s x r /\ c_id (cardOf props x r) = Some id /\ jget id (events found) = Some remote /\
    ch_remote ch = Some remote /\ (x ∉ jkeys held -> fit other props x r /\ decided other found id remote (as_record (baselineOf props r)) (cardOf props x r) (inl ch)).
Proof using Hnd Hrows Hpw Hone ThreeWay0.
  intros Hin Hid Hx. assert (Hp := Hpw). destruct Hp as [_ _ [Hev Hok] Hcmp].
  assert (Hobj : forall id v, (id, v) ∈ events found -> exists m, v = OObj m /\ NoDup (jkeys m)).
  { intros i v Hi. destruct (Hok i v Hi) as (_ & t & d & l & a & b & al & -> & _). eexists. split; [done|]. cbn. by_decide. }
  assert (Hkeyed : forall card, card ∈ cs -> keyed (c_value card)).
  { intros card Hc. destruct (card_row card Hc) as (y & r & _ & _ & _ & [[_ ->]|[_ ->]]); [cbn; by_decide|apply baseline_keyed]. }
  destruct (compare_merges other reconcileRecord calendarId _ found cs pv Hcmp Hev Hobj Hkeyed) as (_ & Hch & _ & _).
  destruct (Hch ch id Hin Hid) as (remote & Hrem & Hres). inversion Hres as [ch' _ _ _ Hn|b|card o Hc Hcid _ Hdec]; subst; [congruence|].
  destruct (card_row card Hc) as (y & r & Hr & Hy & Hyid & Hkind). assert (Hd := Hdec). destruct Hd as (Hs & _ & Hrm & _).
  assert (y = x) as -> by congruence. exists r, remote. split; [done|]. split; [congruence|]. split; [done|]. split; [done|]. intros Hnh.
  destruct Hkind as [[Hf ->]|[Hh _]]; [|done]. split; [done|]. rewrite <-(row_baseline x r id); [done|done|congruence].
Qed.

Lemma target_row ch x : ch ∈ p_changes pv -> target held ch = Some x ->
  exists r id remote, bound_row s x r /\ c_id (cardOf props x r) = Some id /\ ch_id ch = Some id /\ change_of ch = Some (id, remote) /\
    jget id (events found) = Some remote /\ fit other props x r /\
    decided other found id remote (as_record (baselineOf props r)) (cardOf props x r) (inl ch).
Proof using Hnd Hrows Hpw Hone ThreeWay0.
  intros Hin Ht. unfold target in Ht. destruct (change_of ch) as [[id remote]|] eqn:Ec; [|done].
  destruct (ch_subject ch) as [[|c y]|] eqn:Es; try done. destruct (has_key (c :: y) held) eqn:Eh; [done|]. injection Ht as <-.
  assert (Hid : ch_id ch = Some id /\ ch_remote ch = Some remote).
  { revert Ec. unfold change_of. destruct (ch_id ch) as [[|a b]|]; try done. destruct (ch_remote ch); [|done]. by intros [= <- <-]. }
  destruct Hid as [Hid Hrem]. destruct (change_row ch id (c :: y) Hin Hid Es) as (r & remote' & Hr & Hcid & Hg & Hrem' & Hrest).
  rewrite Hrem in Hrem'. injection Hrem' as <-. destruct Hrest as [Hf Hd]; [by intros Hh%has_key_held; congruence|].
  exists r, id, remote. by split_and!.
Qed.

(** The three sides of a field of a row. *)
Definition sides (r : Props) x remote (k : jstr) (P : option Json -> option Json -> option Json -> Prop) : Prop :=
  P (member k (baselineOf props r)) (member k (c_value (cardOf props x r))) (member k remote).

Lemma sides_scalar r x id remote k : bound_row s x r -> jget id (events found) = Some remote -> sides r x remote k scalars.
Proof using Hpw Hsc.
  intros Hr Hg. destruct Hsc as [H1 H2]. unfold sides, scalars. split; [by eapply H1|]. split.
  - destruct (card_projection props x r) as (t & d & l & a & b & al & ->). apply projection_scalar.
  - eapply H2. apply jget_elem; [|exact Hg]. destruct Hpw as [_ _ [Hev _] _]. exact Hev.
Qed.

Lemma decided_sides id remote r x ch k : bound_row s x r -> jget id (events found) = Some remote ->
  decided other found id remote (as_record (baselineOf props r)) (cardOf props x r) (inl ch) ->
  ~ sides r x remote k both_changed /\ sides r x remote k (fun b l m => member k (ch_desired ch) = merge b l m).
Proof using Hpw Hsc.
  intros Hr Hg (_ & _ & _ & _ & _ & Hp). pose proof (sides_scalar r x id remote k Hr Hg) as Hs. unfold sides in *.
  specialize (Hp k). rewrite prop_as_record in Hp. by apply Hp.
Qed.

(** A change that is applied wants texts and a flag. *)
Lemma found_texts id remote : jget id (events found) = Some remote -> exists t d l a b allDay, remote = projection t d l (OStr a) (OStr b) allDay.
Proof using Hpw.
  intros Hg. destruct Hpw as [_ _ [Hev Hok] _]. destruct (Hok id remote) as (_ & t & d & l & a & b & al & -> & _); [by apply jget_elem|]. by exists t, d, l, a, b, al.
Qed.

Lemma valid_texts v : validate other v = Ok tt -> is_text (member (js "start") v) = true -> is_text (member (js "end") v) = true ->
  exists dm, v = OObj dm /\ textual dm.
Proof.
  intros Hv Ha Hb. destruct (validate_object other v Hv) as [m ->]. exists m. split; [done|]. eapply valid_textual. by apply validate_accepts.
Qed.

Lemma merge_text b l m : is_text l = true -> is_text m = true -> is_text (merge b l m) = true.
Proof. intros ? ?. unfold merge. by destruct (decide (l = b)). Qed.

Lemma changes_applicable : applicable held (p_changes pv).
Proof using Hnd Hrows Hpw Hone Hsc Hnamed ThreeWay0.
  intros ch Hin [Ht|Ha].
  - destruct (target held ch) as [x|] eqn:Et; [|done]. destruct (target_row ch x Hin Et) as (r & id & remote & Hr & Hcid & _ & _ & Hg & Hf & Hd).
    destruct (decided_sides id remote r x ch (js "start") Hr Hg Hd) as [_ Ea]. destruct (decided_sides id remote r x ch (js "end") Hr Hg Hd) as [_ Eb].
    unfold sides in Ea, Eb. destruct Hd as (_ & _ & _ & _ & Hv & _). destruct (found_texts id remote Hg) as (t & d & l & a & b & al & ->).
    destruct (card_projection props x r) as (t' & d' & l' & a' & b' & al' & Ecard). rewrite Ecard in Ea, Eb.
    apply valid_texts; [done|rewrite Ea|rewrite Eb]; by apply merge_text.
  - unfold adds in Ha. destruct (change_of ch) as [[id remote]|] eqn:Ec; [|done].
    assert (Hid : ch_id ch = Some id /\ ch_remote ch = Some remote).
    { revert Ec. unfold change_of. destruct (ch_id ch) as [[|a b]|]; try done. destruct (ch_remote ch); [|done]. by intros [= <- <-]. }
    destruct Hid as [Hid Hrem]. assert (Hp := Hpw). destruct Hp as [_ _ [Hev Hok] Hcmp].
    assert (Hobj : forall id v, (id, v) ∈ events found -> exists m, v = OObj m /\ NoDup (jkeys m)).
    { intros i v Hi. destruct (Hok i v Hi) as (_ & t & d & l & a & b & al & -> & _). eexists. split; [done|]. cbn. by_decide. }
    assert (Hkeyed : forall card, card ∈ cs -> keyed (c_value card)).
    { intros card Hc. destruct (card_row card Hc) as (y & r & _ & _ & _ & [[_ ->]|[_ ->]]); [cbn; by_decide|apply baseline_keyed]. }
    destruct (compare_merges other reconcileRecord calendarId _ found cs pv Hcmp Hev Hobj Hkeyed) as (_ & Hch & _ & _).
    destruct (Hch ch id Hin Hid) as (remote' & Hg & Hres). inversion Hres as [ch' _ _ _ _ _ Hv' Hv|b|card o Hc Hcid _ Hdec]; subst.
    + destruct (found_texts id _ Hg) as (t & d & l & a & b & al & E). rewrite E in Hv |- *. by apply valid_texts.
    + destruct (card_row card Hc) as (y & r & Hr & Hy & _). destruct Hdec as (Hs & _). rewrite Hs, Hy in Ha. apply Hnamed in Hr. by destruct y.
Qed.

Lemma targets_nodup : NoDup (omap (target held) (p_changes pv)).
Proof using Hnd Hrows Hpw Hone ThreeWay0.
  apply (nodup_by ch_id (target held) (fun x => default [] (r ← jget x (rw_bound rows); c_id (cardOf props x r)))).
  - assert (Hp := Hpw). destruct Hp as [_ _ [Hev _] Hcmp]. by apply (compare_nodup _ _ _ _ _ _ _ Hcmp).
  - intros ch x Hin Ht. destruct (target_row ch x Hin Ht) as (r & id & remote & Hr & Hcid & Hid & _).
    apply rows_get in Hr. rewrite Hr. cbn [mbind option_bind]. by rewrite Hcid.
Qed.

(** An event whose row is fit, and no field of which was changed on both sides,
    is a change of that row. *)
Lemma event_change x r id remote : bound_row s x r -> c_id (cardOf props x r) = Some id -> jget id (events found) = Some remote ->
  fit other props x r -> (forall k, ~ sides r x remote k both_changed) ->
  exists ch, ch ∈ p_changes pv /\ target held ch = Some x /\ change_of ch = Some (id, remote) /\ ch_etag ch = jget id (etags found).
Proof using Hnd Hrows Hpw Hone Hsc Hnamed ThreeWay0.
  intros Hr Hcid Hg Hf Hno. assert (Hp := Hpw). destruct Hp as [_ _ [Hev Hok] Hcmp].
  destruct (fit_card x r Hr Hf) as [Hcs Hnh]. destruct (found_texts id remote Hg) as (t & d & l & a & b & al & Erem).
  destruct (card_projection props x r) as (t' & d' & l' & a' & b' & al' & Ecard).
  assert (Hin : (id, remote) ∈ events found) by (by apply jget_elem).
  assert (Hidne : id <> []) by (by destruct (Hok id remote Hin)).
  destruct (event_outcome other reconcileRecord calendarId _ found cs pv id remote (cardOf props x r) (mkBinding x (baselineOf props r)) _ _ Hcmp Hin Hcs Hcid
    (row_binding x r id Hr Hcid) eq_refl Erem ltac:(by_decide) Ecard ltac:(by_decide)) as (o & Hdec & Hoid & Ho).
  rewrite (row_baseline x r id Hr Hcid) in Hdec. destruct o as [ch|k].
  - exists ch. split; [done|]. assert (Hd := Hdec). destruct Hd as (Hs & _ & Hrem & He & _).
    cbn [outcome_id] in Hoid. unfold target. assert (change_of ch = Some (id, remote)) as Hch by (unfold change_of; rewrite Hoid, Hrem; by destruct id).
    rewrite Hch, Hs. cbn [c_subject cardOf]. pose proof (Hnamed x r Hr) as Hxne. destruct x as [|c x]; [done|].
    assert (has_key (c :: x) held = false) as -> by (apply not_true_is_false; by rewrite has_key_held). by split_and!.
  - exfalso. destruct Hdec as (_ & _ & _ & _ & Hne & Hp). destruct (k_fields k) as [|f fs] eqn:Ek; [done|].
    apply (Hno f). pose proof (sides_scalar r x id remote f Hr Hg) as Hsf. unfold sides in *. specialize (Hp f). rewrite prop_as_record in Hp.
    apply Hp; [done|by left].
Qed.
End Run.
End Refreshing.

Section Refresh.
Context {S : Type} (host : HostStore S) (proxy : HostProxy S) (new_URL : jstr -> option Url) (other : jstr -> option Z).
Context (reconcileRecord : Side -> Side -> Side -> SyncDecision (V := Json)) `{!ThreeWay reconcileRecord}.
Context (content : S -> gmap (list Z) Props) `{!Drive host content} `{!Beside host proxy content}.
Implicit Types (s : S) (x y id : jstr) (r : Props).

(** What a refresh makes of a row that is bound to an event. *)
Definition refreshed (props : Names) (found : Scan) x r r' : Prop :=
  match id ← c_id (cardOf props x r); remote ← jget id (events found); Some (id, remote) with
  | None => r' = r
  | Some (id, remote) =>
      (~ fit other props x r -> r' = r) /\
      ((exists k, sides props r x remote k both_changed) -> r' = r) /\
      (fit other props x r -> (forall k, ~ sides props r x remote k both_changed) ->
         (forall k, k ∈ FIELDS -> sides props r x remote k (fun base mine google => member k (c_value (cardOf props x r')) = merge base mine google)) /\
         c_id (cardOf props x r') = Some id /\ r' !! named props "sync-baseline" = Some (OStr (json_text remote)) /\
         r' !! named props "google-etag" = Some (OStr (default [] (jget id (etags found)))) /\
         forall k, k ∉ field_keys props ++ book_keys props -> r' !! k = r !! k)
  end.

Lemma import_rows_refreshed connectionId where_ props calendarId maxPages s s' sum : separate props ->
  import_rows host proxy new_URL other reconcileRecord connectionId where_ props calendarId maxPages s = (s', Ok sum) ->
  exists rows found, scanned proxy new_URL other connectionId props rows calendarId maxPages s found /\
    (one_row_each content where_ props s -> scalar_sides content where_ props s found -> (forall x r, bound_row content where_ props s x r -> x <> []) ->
     (forall x r, content s !! x = Some r -> ~ bound_row content where_ props s x r -> content s' !! x = Some r) /\
     (forall x r, bound_row content where_ props s x r -> exists r', content s' !! x = Some r' /\ refreshed props found x r r') /\
     (forall id remote, jget id (events found) = Some remote -> (forall x r, bound_row content where_ props s x r -> c_id (cardOf props x r) <> Some id) ->
        exists y r', content s !! y = None /\ content s' !! y = Some r' /\ same_fields (c_value (cardOf props y r')) remote /\
          c_id (cardOf props y r') = Some id /\ r' !! named props "sync-baseline" = Some (OStr (json_text remote)) /\ r' !! PARENT = Some (OStr (table where_)))).
Proof using ThreeWay0 Drive0 Beside0.
  intros Hsep (s1 & rows & H1 & (s2 & [pv held] & H2 & H3)%act_bind_inv)%act_bind_inv.
  apply (readRows_spec host content) in H1 as (-> & Hnd & Hrows).
  apply (preview_rows_spec host proxy new_URL other reconcileRecord content) in H2 as (found & cs & Hpw & Hscan).
  exists rows, found. split; [exact Hscan|]. intros Hone Hsc Hnamed. assert (Hp := Hpw). destruct Hp as [Hcont _ [Hev Hok] Hcmp].
  set (Htr := target_row other reconcileRecord content where_ props connectionId calendarId rows s s2 pv held found cs Hnd Hrows Hpw Hone).
  destruct (apply_changes host content where_ props rows held (p_changes pv) _ sum s2 s' Hsep H3) as (A1 & A2 & A3).
  { eapply changes_applicable; eauto. }
  { eapply targets_nodup; eauto. }
  { intros ch x r Hin Ht Hx. rewrite Hcont. eapply (rows_get content where_ props rows s Hnd Hrows) in Hx. by destruct Hx. }
  { intros ch x Hin Ht. destruct (Htr ch x Hin Ht) as (r & id & remote & Hr & _). eapply (rows_get content where_ props rows s Hnd Hrows) in Hr. by rewrite Hr. }
  rewrite Hcont in A1, A3. split_and!.
  - intros x r Hx Hnb. apply A1; [done|]. intros (ch & Hin & Ht)%list_elem_of_omap. destruct (Htr ch x Hin Ht) as (r' & id & remote & Hr & _).
    apply Hnb. assert (r' = r) as -> by (destruct Hr as [Hr _]; congruence). done.
  - intros x r Hr. assert (Hx : content s !! x = Some r) by by destruct Hr. unfold refreshed.
    destruct (decide (x ∈ omap (target held) (p_changes pv))) as [Hin|Hout].
    + apply list_elem_of_omap in Hin as (ch & Hin & Ht). destruct (Htr ch x Hin Ht) as (r0 & id & remote & Hr0 & Hcid & _ & Hch & Hg & Hf & Hd).
      assert (r0 = r) as -> by (destruct Hr0 as [Hr0 _]; congruence).
      assert (Hget : jget x (rw_bound rows) = Some r) by (by eapply (rows_get content where_ props rows s Hnd Hrows)).
      destruct (A2 ch x r id remote Hin Ht Hch Hget) as (r' & Hr' & [I1 I2 I3 I4 I5]). exists r'. split; [done|].
      rewrite Hcid. cbn [mbind option_bind]. rewrite Hg. cbn [mbind option_bind].
      assert (Hside : forall k, ~ sides props r x remote k both_changed /\ sides props r x remote k (fun b l m => member k (ch_desired ch) = merge b l m)).
      { intros k. by apply (decided_sides other reconcileRecord content where_ props connectionId calendarId rows s s2 pv held found cs Hpw Hsc id remote r x ch k Hr Hg Hd). }
      split; [done|]. split; [intros [k Hk]; by destruct (Hside k)|]. intros _ _. split; [|split; [by rewrite I2|split; [done|split; [|done]]]].
      * intros k Hk. destruct (Hside k) as [_ Hm]. unfold sides in *. by rewrite (I1 x k Hk).
      * rewrite I4. by destruct Hd as (_ & _ & _ & -> & _).
    + exists r. split; [by apply A1|]. destruct (c_id (cardOf props x r)) as [id|] eqn:Ecid; cbn [mbind option_bind]; [|done].
      destruct (jget id (events found)) as [remote|] eqn:Eg; cbn [mbind option_bind]; [|done]. split; [done|]. split; [done|]. intros Hf Hno. exfalso.
      destruct (event_change other reconcileRecord content where_ props connectionId calendarId rows s s2 pv held found cs Hnd Hrows Hpw Hone Hsc Hnamed x r id remote Hr Ecid Eg Hf Hno)
        as (ch & Hin & Ht & _). apply Hout. apply list_elem_of_omap. by exists ch.
  - intros id remote Hg Hno. destruct (found_texts other reconcileRecord content props connectionId calendarId rows s s2 pv held found cs Hpw id remote Hg)
      as (t & d & l & a & b & al & Erem).
    assert (Hcards : forall card, card ∈ cs -> c_id card <> Some id).
    { intros card Hc Hid. destruct (card_row other reconcileRecord content where_ props connectionId calendarId rows s s2 pv held found cs Hnd Hrows Hpw card Hc)
        as (x & r & Hr & _ & Hcid & _). apply (Hno x r Hr). congruence. }
    assert (Hrec : jget id (records_of props (rw_bound rows)) = None).
    { apply jget_None. intros Hin. apply records_keys in Hin as (x & r & Hin & Ht). apply Hrows in Hin. apply (Hno x r Hin).
      destruct Hin as (_ & _ & Hs). destruct (c_id (cardOf props x r)) as [i|] eqn:Ei; [|done]. destruct (c_id_text props x r i Ei) as [<- _]. by rewrite Ht. }
    assert (Hin : (id, remote) ∈ events found) by by apply jget_elem. assert (Hidne : id <> []) by by destruct (Hok id remote Hin).
    destruct (event_new other reconcileRecord calendarId (mkState 0 (records_of props (rw_bound rows)) None) found cs pv id
      [(js "title", t); (js "description", d); (js "location", l); (js "start", OStr a); (js "end", OStr b); (js "allDay", OBool al)] Hcmp) as (ch & Hch & Hid & Hs & Hrem & Hd);
      [by rewrite Erem in Hin|done|done|].
    change (OObj [(js "title", t); (js "description", d); (js "location", l); (js "start", OStr a); (js "end", OStr b); (js "allDay", OBool al)])
      with (projection t d l (OStr a) (OStr b) al) in Hrem, Hd. rewrite <-Erem in Hrem, Hd.
    assert (Hco : change_of ch = Some (id, remote)) by (unfold change_of; rewrite Hid, Hrem; by destruct id).
    destruct (A3 ch id remote Hch) as (y & r' & Hy & Hy' & [I1 I2 I3 I4 I5]); [unfold adds; by rewrite Hco, Hs|done|].
    exists y, r'. split_and!; try done. intros k Hk. rewrite (I1 y k Hk). by rewrite Hd.
Qed.

(** C22 (safety). A refresh loses nothing on either side.  What is not a row
    bound to an event is left as it is, and so is a row whose value could not be
    sent, whose event Google did not list, or a field of which was changed both
    here and in Google.  In every other row each field becomes the value of the
    side that changed it since they last agreed, so an edit made here stays and
    an edit of Google's comes in; the row keeps its event, its baseline becomes
    what Google has and its ETag the one read.  An event without a row gets one,
    a new resource with what Google has.  [found] is a whole scan of the chosen
    calendar. *)
Theorem refresh_rows connectionId maxPages s s' sum :
  refresh host proxy new_URL other reconcileRecord connectionId maxPages s = (s', Ok sum) ->
  exists where_ props s0 calendarId t, layout host s = (s, Ok where_) /\ all_properties host where_ s = (s0, Ok props) /\
    content s0 !! table where_ = Some t /\ t !! named props "google-calendar-id" = Some (OStr calendarId) /\
    (separate props -> exists rows found, scanned proxy new_URL other connectionId props rows calendarId maxPages s0 found /\
      (one_row_each content where_ props s0 -> scalar_sides content where_ props s0 found -> (forall x r, bound_row content where_ props s0 x r -> x <> []) ->
       (forall x r, content s0 !! x = Some r -> ~ bound_row content where_ props s0 x r -> content s' !! x = Some r) /\
       (forall x r, bound_row content where_ props s0 x r -> exists r', content s' !! x = Some r' /\ refreshed props found x r r') /\
       (forall id remote, jget id (events found) = Some remote -> (forall x r, bound_row content where_ props s0 x r -> c_id (cardOf props x r) <> Some id) ->
          exists y r', content s0 !! y = None /\ content s' !! y = Some r' /\ same_fields (c_value (cardOf props y r')) remote /\
            c_id (cardOf props y r') = Some id /\ r' !! named props "sync-baseline" = Some (OStr (json_text remote)) /\ r' !! PARENT = Some (OStr (table where_))))).
Proof using ThreeWay0 Drive0 Beside0.
  intros (s1 & where_ & H1 & (s0 & props & H2 & (s2 & t & H3 & H4)%act_bind_inv)%act_bind_inv)%act_bind_inv.
  assert (H0 := H1). apply layout_state in H1 as ->. apply (get_resource_inv host content) in H3 as [-> Ht].
  destruct (t !! named props "google-calendar-id") as [[| | |[|c cal]| |]|] eqn:Ec; try done.
  exists where_, props, s0, (c :: cal), t. split_and!; [done|done|done|done|]. intros Hsep. by eapply import_rows_refreshed.
Qed.
End Refresh.

(** ** A drive with one meeting *)

Module Demo.
#[local] Abbreviation new_URL := CalendarRelay.Demo.new_URL.
#[local] Abbreviation reconcile := CalendarAdapter.Demo.reconcile.
#[local] Abbreviation other := CalendarAdapter.Demo.other.
#[local] Existing Instances CalendarRelay.Demo.url_class CalendarAdapter.Demo.reconcile_three_way.

Lemma ok_inj {E B} (a b : B) : Ok (E := E) a = Ok b -> a = b.
Proof. by intros [= ->]. Qed.

(** A drive, and the answers that the proxy has yet to give. *)
Abbreviation L := (list (res string HostProxyResponse)).
Abbreviation State := (L * gmap (list Z) Props)%type.
Definition host : HostStore State := HostStore.Demo.host L.
Definition content : State -> gmap (list Z) Props := HostStore.Demo.content.
Definition proxy : HostProxy State := fun s _ =>
  match s.1 with a :: l => ((l, s.2), a) | [] => (s, Err "offline"%string) end.

#[export] Instance demo_drive : Drive host content.
Proof. apply HostStore.Demo.host_drive. Qed.

#[export] Instance demo_beside : Beside host proxy content.
Proof.
  split.
  - intros [[|a l] m] q s' r; by intros [= <- <-].
  - intros s x vals s' e. cbn. destruct (_ ≫= _) as [[k r]|]; by intros [= <- <-].
Qed.

Definition drive : gmap (list Z) Props :=
  <[js "table" := ∅]> (<[js "onto" := ∅]> {[js "row" := {[PARENT := OStr (js "xonto")]}]}).

(** The Calendar [c1] is chosen. *)
Definition chosen : State := (chooseCalendar host (js "c1") (js "Work") None None None ([], drive)).1.

(** A page of Google's events: the meeting with this title and ETag. *)
Definition page (title etag : string) : res string HostProxyResponse :=
  Ok (mkResponse 200 [] (Some (OObj [(js "items", OArr [OObj
    [(js "id", OStr (js "e1")); (js "status", OStr (js "confirmed")); (js "summary", OStr (js title));
     (js "start", CalendarAdapter.Demo.time_of "2026-03-02T09:00:00+01:00"); (js "end", CalendarAdapter.Demo.time_of "2026-03-02T10:00:00+01:00"); (js "etag", OStr (js etag))]]);
     (js "nextSyncToken", OStr (js "t"))]))).

Definition where_ : Layout := mkLayout (js "xtable") (js "xrow") (js "xonto").
Definition props : Names := match all_properties host where_ chosen with (_, Ok p) => p | _ => [] end.
Definition answered (a : L) (s : State) : State := (a, s.2).

(** Its row, after a first refresh, and with a place that was put in here. *)
Definition imported_once : State := (refresh host proxy new_URL other reconcile (js "k1") 5 (answered [page "Planning" "7"] chosen)).1.
Definition row_ : jstr := match query host imported_once PARENT (js "xtable") with Ok [x] => x | _ => [] end.
Definition edited : State := (saveLocal host row_ (projection (OStr (js "Planning")) (OStr []) (OStr (js "Utrecht"))
  (OStr (js "2026-03-02T09:00:00+01:00")) (OStr (js "2026-03-02T10:00:00+01:00")) false) imported_once).1.


(** A second refresh: Google has a new title, and the place is still to be sent. *)
Definition before_ : State := answered [page "Plans" "8"] edited.
Definition again : State * res Failure ImportSummary := refresh host proxy new_URL other reconcile (js "k1") 5 before_.
Definition review : list PendingEdit := match again.2 with Ok sum => is_review sum | Err _ => [] end.

(** Google takes the first edit, and the answer to the second is lost. *)
Definition event_8 : Json := match page "Plans" "9" with Ok p => match omember (js "items") (h_body p) with Some (OArr [e]) => e | _ => ONull end | _ => ONull end.
Definition to_send : State := answered [Ok (mkResponse 200 [] (Some event_8)); Err "timeout"%string] again.1.

Definition tag (o : Outcome) : Z := match o with sent _ => 0 | stale _ => 1 | uncertain _ _ => 2 | failed _ _ => 3 | not_sent _ => 4 end.

Lemma send_batch_witness : let '(s', out) := send host proxy new_URL other (js "k1") (js "c1") (review ++ review ++ review) to_send in
  exists outcomes, out = Ok outcomes /\ map tag outcomes = [0; 2; 4] /\
    exists root names s0, batch host proxy new_URL other content (js "k1") root names false s0 (review ++ review ++ review) outcomes s' /\
      forall x r, content s0 !! x = Some r -> exists r', content s' !! x = Some r' /\ forall k, ~ bookkeeping_of names k -> r' !! k = r !! k.
Proof.
  assert (C : match send host proxy new_URL other (js "k1") (js "c1") (review ++ review ++ review) to_send with
              | (_, Ok outcomes) => map tag outcomes = [0; 2; 4] | _ => False end) by (vm_compute; reflexivity).
  pose proof (send_batch host proxy new_URL other content (js "k1") (js "c1") (review ++ review ++ review) to_send) as H.
  destruct (send host proxy new_URL other (js "k1") (js "c1") (review ++ review ++ review) to_send) as [s' [outcomes|e]]; [|destruct C].
  destruct (H s' outcomes eq_refl) as (root & names & s0 & w & _ & _ & _ & Hb & _ & _ & Hrows). exists outcomes. split; [reflexivity|]. split; [exact C|].
  exists root, names, s0. split; [exact Hb|]. intros x. apply (Hrows x).
Defined.

Definition whole : fields_map :=
  [(js "title", OStr (js "Planning")); (js "description", OStr []); (js "location", OStr (js "Utrecht"));
   (js "start", OStr (js "2026-03-02")); (js "end", OStr (js "2026-03-03")); (js "allDay", OBool true)].

Lemma whole_textual : textual whole.
Proof. unfold textual. split_and!; try reflexivity. by exists true. Qed.

(** A day that the month does not have, where [Date.parse] goes on into the
    next, as V8's does: the app's check finds nothing wrong with the row, and
    the check before sending refuses it. *)
Definition rolls_over (s : jstr) : option Z :=
  if jeqb s (js "2026-02-30T00:00:00Z") then Date_parse (fun _ => None) (js "2026-03-02T00:00:00Z") else None.
Definition thirtieth : fields_map :=
  [(js "title", OStr (js "Planning")); (js "description", OStr []); (js "location", OStr []);
   (js "start", OStr (js "2026-02-27")); (js "end", OStr (js "2026-02-30")); (js "allDay", OBool true)].
Example invalid_unseen : invalid rolls_over (OObj thirtieth) = Ok None /\ validate rolls_over (OObj thirtieth) <> Ok tt.
Proof. split; vm_compute; [reflexivity|discriminate]. Qed.

(** Another time for the meeting, on both sides. *)
Definition google_value : Json :=
  projection (OStr (js "Planning")) (OStr []) (OStr []) (OStr (js "2026-03-02")) (OStr (js "2026-03-04")) true.
Definition clash : CalConflict :=
  mkCalConflict (Some row_) (Some (js "e1")) (OStr (js "Planning")) [js "end"] both (Some (OObj whole)) (Some google_value) None (Some (js "8")).

Lemma resolve_keeps_choice_witness : separate props /\ exists s' row',
  resolveConflict host other clash [(js "end", mine)] edited = (s', Ok tt) /\ content s' !! row_ = Some row' /\
  member (js "end") (c_value (cardOf props row_ row')) = Some (OStr (js "2026-03-03")) /\ baselineOf props row' = google_value.
Proof.
  assert (Hsep : separate props) by (unfold separate; by_decide). split; [exact Hsep|].
  assert (C : match resolveConflict host other clash [(js "end", mine)] edited with (_, Ok tt) => True | _ => False end) by (vm_compute; exact I).
  pose proof (resolve_keeps_choice host other content clash [(js "end", mine)] whole (js "Planning") [] [] (js "2026-03-02") (js "2026-03-04") true edited) as H.
  destruct (resolveConflict host other clash [(js "end", mine)] edited) as [s' [[]|e]]; [|destruct C].
  assert (Hok : Json_ok google_value) by (repeat (split; [split; by_decide || exact I|]); exact I).
  destruct (H s' eq_refl whole_textual eq_refl Hok eq_refl) as (x & w & names & s0 & Hx & Hw & Hn & Hrest).
  apply (f_equal (default [])) in Hx. change (row_ = x) in Hx. rewrite <-Hx in Hrest. clear x Hx.
  assert ((layout host edited).2 = Ok where_) as E by (vm_compute; reflexivity). rewrite Hw in E. apply ok_inj in E as ->.
  assert ((all_properties host where_ edited).2 = Ok props) as E by (vm_compute; reflexivity). rewrite Hn in E. apply ok_inj in E as ->.
  destruct (Hrest Hsep) as (row & row' & _ & Hc & Hf & _ & _ & Hb & _). exists s', row'. split; [reflexivity|]. split; [|split; [|exact Hb]].
  - rewrite Hc. apply lookup_insert_eq.
  - rewrite Hf by by_decide. reflexivity.
Defined.

(** What the second refresh starts from. *)
Definition start : State := (all_properties host where_ before_).1.
Definition plans : Json :=
  projection (OStr (js "Plans")) (OStr []) (OStr []) (OStr (js "2026-03-02T09:00:00+01:00")) (OStr (js "2026-03-02T10:00:00+01:00")) false.
Definition found_ : Scan := mkScan [(js "e1", plans)] [(js "e1", js "8")] [] 0 0.

Lemma one_bound : forall x r, bound_row content where_ props start x r -> x = row_ /\ start.2 !! tail row_ = Some r.
Proof.
  assert (map_Forall (fun (k : list Z) (r : Props) => answers (r !! PARENT) (table where_) = true -> k = tail row_) start.2) as H by by_decide.
  intros x r (Hx & Ha & _). apply lookup_kmap_Some in Hx as (k & -> & Hk); [|apply _]. specialize (H k r Hk Ha). subst k. split; [|done]. vm_compute. reflexivity.
Qed.

Definition root_ : jstr := js "https://www.googleapis.com/calendar/v3/calendars/c1/events".
Definition row_before : Props := default ∅ (start.2 !! tail row_).

Lemma row_is_bound : bound_row content where_ props start row_ row_before.
Proof.
  assert (E : content start !! row_ = start.2 !! tail row_) by apply (HostStore.Demo.content_subject start (tail row_)).
  assert (E' : is_some (start.2 !! tail row_) = true) by (vm_compute; reflexivity).
  split; [|split; vm_compute; reflexivity]. rewrite E. unfold row_before. by destruct (start.2 !! tail row_).
Qed.

Lemma demo_scan rows st : forall found,
  scan_pages other (calendar_host proxy new_URL other (js "k1") props rows) root_ 5 5 no_scan None ((start, None), []) = (st, Ok found) ->
  found = found_.
Proof.
  intros found H. apply (f_equal snd) in H. vm_compute in H. apply ok_inj in H. rewrite <-H. vm_compute. reflexivity.
Qed.

Lemma demo_one_row : one_row_each content where_ props start.
Proof. intros x r y r' [-> _]%one_bound [-> _]%one_bound _. reflexivity. Qed.

Lemma scalar_fields (v : Json) : match v with OObj m => forallb (fun p => is_scalar (Some p.2)) m | _ => true end = true ->
  forall p, is_scalar (member p v) = true.
Proof.
  destruct v as [| | | | |m]; try done. intros H p. cbn [member]. induction m as [|[q w] m IH]; [done|]. cbn in H |- *. apply andb_prop in H as [Hw H].
  destruct (decide (p = q)); [exact Hw|by apply IH].
Qed.

Lemma demo_scalar : scalar_sides content where_ props start found_.
Proof.
  split.
  - intros x r p [_ Hr]%one_bound. assert (row_before = r) as <- by (unfold row_before; by rewrite Hr). apply scalar_fields. vm_compute. reflexivity.
  - intros id v p H. apply scalar_fields. apply list_elem_of_singleton in H. assert (v = plans) as -> by congruence. vm_compute. reflexivity.
Qed.

(** Values that differ in one field. *)
Lemma member_but k0 k (v w : Json) : keyed v -> keyed w ->
  match v, w with OObj m, OObj m' => jdelete k0 m = jdelete k0 m' | _, _ => False end -> k <> k0 -> member k v = member k w.
Proof.
  destruct v as [| | | | |m], w as [| | | | |m']; try done. cbn [keyed]. intros Hv Hw H Hk. cbn [member]. apply (f_equal (jget k)) in H.
  rewrite !jget_jdelete in H by done. by destruct (decide (k = k0)).
Qed.

Lemma demo_agrees k : ~ sides props row_before row_ plans k both_changed.
Proof.
  unfold sides, both_changed. intros (_ & Hl & Hr). destruct (decide (k = js "title")) as [->|Hk].
  - apply Hl. vm_compute. reflexivity.
  - apply Hr. apply (member_but (js "title")); [by_decide|apply baseline_keyed|vm_compute; reflexivity|exact Hk].
Qed.

Lemma refresh_rows_witness : let '(s', out) := again in
  exists sum r', out = Ok sum /\ content s' !! row_ = Some r' /\
    member (js "title") (c_value (cardOf props row_ r')) = Some (OStr (js "Plans")) /\
    member (js "location") (c_value (cardOf props row_ r')) = Some (OStr (js "Utrecht")).
Proof.
  assert (C : match again with (_, Ok _) => True | _ => False end) by (vm_compute; exact I).
  pose proof (refresh_rows host proxy new_URL other reconcile content (js "k1") 5 before_) as H. fold again in H.
  destruct again as [s' [sum|e]]; [|destruct C].
  destruct (H s' sum eq_refl) as (w & names & s0 & cal & t & Hw & Hn & Ht & Hcal & Hrest). clear H.
  assert (Hsep : separate props) by (unfold separate; by_decide).
  assert (E : (layout host before_).2 = Ok where_) by (vm_compute; reflexivity). rewrite Hw in E. apply ok_inj in E as ->.
  assert (E : (all_properties host where_ before_).2 = Ok props) by (vm_compute; reflexivity). rewrite Hn in E. apply ok_inj in E as ->.
  assert (E : start = s0) by (unfold start; rewrite Hn; reflexivity). rewrite <-E in Hrest, Ht. clear E Hn Hw.
  assert (E : endpoint cal = Ok root_).
  { assert (E : (t ← content start !! table where_; t !! named props "google-calendar-id") = Some (OStr (js "c1"))) by (vm_compute; reflexivity).
    rewrite Ht in E. cbn [mbind option_bind] in E. rewrite Hcal in E. assert (cal = js "c1") as -> by congruence. vm_compute. reflexivity. }
  destruct (Hrest Hsep) as (rows & found & (root & st & Hroot & Hscan) & Hrows). rewrite E in Hroot. apply ok_inj in Hroot as <-. apply demo_scan in Hscan as ->.
  destruct Hrows as (_ & Hrows & _); [exact demo_one_row|exact demo_scalar|intros x r [-> _]%one_bound; vm_compute; discriminate|].
  destruct (Hrows _ _ row_is_bound) as (r' & Hr' & Href). exists sum, r'. split; [reflexivity|]. split; [exact Hr'|]. unfold refreshed in Href.
  assert (E1 : c_id (cardOf props row_ row_before) = Some (js "e1")) by (vm_compute; reflexivity). rewrite E1 in Href. cbn [mbind option_bind] in Href.
  assert (E2 : jget (js "e1") (CalendarAdapter.events found_) = Some plans) by (vm_compute; reflexivity). rewrite E2 in Href. cbn [mbind option_bind] in Href.
  destruct Href as (_ & _ & Href). destruct Href as (Hm & _); [unfold fit; vm_compute; reflexivity|exact demo_agrees|].
  assert (Ht' := Hm (js "title") ltac:(by_decide)). assert (Hl := Hm (js "location") ltac:(by_decide)). unfold sides in Ht', Hl. split.
  - rewrite Ht'. vm_compute. reflexivity.
  - rewrite Hl. vm_compute. reflexivity.
Defined.
End Demo.
