(* ===== verification/CalendarTime.v ===== *)
(** * Civil dates and wall-clock times of the Calendar app

    Models [src/integrations/calendar/app/time.ts]: the wall clock of a zone,
    the instant a wall-clock time names, the text an edit stores, and the titles
    the views show.

    [Intl.DateTimeFormat] is the parameter [Intl] of [Zones], as the numbers of
    its parts: the year is written without padding, the others with two digits.
    [Number] of a text is the parameter [Number].  A function that can throw
    returns an [option], and a number that can be [NaN] is an [option] itself. *)
From S2P Require Import Prelude Text Collections JsDate Civil Json Zones CalendarAdapter.
Local Open Scope Z_scope.

(* src: integrations/calendar/app/time.ts 43-48 Wall *)
Record Wall := mkWall { w_date : jstr; w_minutes : Z }.

(* src: integrations/calendar/app/time.ts 80-85 formatOffset *)
Definition formatOffset (minutes : Z) : jstr :=
  let abs := Z.abs minutes in
  (if minutes <? 0 then 45 else 43) :: Zones.pad (abs / 60) ++ 58 :: Zones.pad (abs mod 60).

(* src: integrations/calendar/app/time.ts 89-92 hhmm *)
Definition hhmm (minutes : Z) : jstr := Zones.pad (minutes / 60) ++ 58 :: Zones.pad (minutes mod 60).

(** [/^(\d{1,2}):(\d{2})$/] and its groups. *)
Definition clock_groups (s : jstr) : option (Z * Z) :=
  let '(h, r) := span is_digit s in
  if (Nat.eqb (length h) 1) || (Nat.eqb (length h) 2) then
    r ← lit 58 r; '(m, r) ← digits 2 r;
    match r with [] => Some (parse_dec h, m) | _ => None end
  else None.

(* src: integrations/calendar/app/time.ts 94-103 parseHhmm *)
Definition parseHhmm (text : jstr) : option Z :=
  '(h, min) ← clock_groups (trim text);
  if (23 <? h) || (59 <? min) then None else Some (h * 60 + min).

Section Time.
Context (other : jstr -> option Z) (Number : jstr -> option Z) (Intl : jstr -> option (Z -> option Parts)).

(* src: integrations/calendar/app/time.ts 50-60 wall *)
Definition wall (ms : option Z) (zone : jstr) : option Wall :=
  formatToParts ← Intl zone;
  ms ← ms;
  '(year, month, day, hour, minute, _) ← formatToParts ms;
  Some (mkWall (dec_signed year ++ js "-" ++ Zones.pad month ++ js "-" ++ Zones.pad day) (hour * 60 + minute)).

(** [Math.round(x / y)] *)
Definition round_div (x y : Z) : Z := (x + y / 2) / y.

(* src: integrations/calendar/app/time.ts 62-68 offsetAt *)
Definition offsetAt (ms : option Z) (zone : jstr) : option (option Z) :=
  w ← wall ms zone;
  let asUtc := num_op Z.add (midnight other (w_date w)) (Some (w_minutes w * 60000)) in
  Some ((fun d => round_div d 60000) <$> num_sub asUtc ((fun ms => ms / 60000 * 60000) <$> ms)).

(* src: integrations/calendar/app/time.ts 70-78 instant *)
Definition instant (date : jstr) (minutes : Z) (zone : jstr) : option (option Z) :=
  let guess := num_op Z.add (midnight other date) (Some (minutes * 60000)) in
  let less o := num_sub guess ((fun o => o * 60000) <$> o) in
  o ← offsetAt guess zone;
  o ← offsetAt (less o) zone;
  Some (less o).

(* src: integrations/calendar/app/time.ts 105-119 toDateTime *)
Definition toDateTime (date : jstr) (minutes : Z) (zone : jstr) : option jstr :=
  at_ ← instant date minutes zone;
  w ← wall at_ zone;
  o ← offsetAt at_ zone;
  Some (w_date w ++ js "T" ++ hhmm (w_minutes w) ++ js ":00" ++
        match o with Some o => formatOffset o | None => js "+NaN:NaN" end).

(* src: integrations/calendar/app/time.ts 121-125 addDays *)
Definition addDays (date : jstr) (days : Z) : option jstr :=
  t ← midnight other date; take 10 <$> toISOString (t + days * DAY).

(* src: integrations/calendar/app/time.ts 127-131 daysBetween *)
Definition daysBetween (from to : jstr) : option Z :=
  (fun d => round_div d DAY) <$> num_sub (midnight other to) (midnight other from).

(* src: integrations/calendar/app/time.ts 133-136 weekday *)
Definition weekday (date : jstr) : option Z := t ← midnight other date; Some (((t / DAY + 4) mod 7 + 6) mod 7).

(* src: integrations/calendar/app/time.ts 138-141 mondayOf *)
Definition mondayOf (date : jstr) : option jstr := w ← weekday date; addDays date (- w).

(* src: integrations/calendar/app/time.ts 143-149 isDate *)
Definition isDate (value : jstr) : bool :=
  civil_shape value &&
  match midnight other value with
  | Some t => match toISOString t with Some iso => jeqb (take 10 iso) value | None => false end
  | None => false
  end.

(** ** Titles *)

(* src: integrations/calendar/app/time.ts 151-161 WEEKDAYS *)
Definition WEEKDAYS : list jstr :=
  map js ["Monday"; "Tuesday"; "Wednesday"; "Thursday"; "Friday"; "Saturday"; "Sunday"]%string.

(* src: integrations/calendar/app/time.ts 162-175 MONTHS *)
Definition MONTHS : list jstr :=
  map js ["January"; "February"; "March"; "April"; "May"; "June"; "July"; "August"; "September"; "October"; "November"; "December"]%string.

(** [l[i]] *)
Definition at_index {A} (l : list A) (i : option Z) : option A := i ← i; if i <? 0 then None else l !! Z.to_nat i.

(** [`${x}`] *)
Definition shown (x : option jstr) : jstr := default (js "undefined") x.
Definition shown_num (x : option Z) : jstr := match x with Some n => dec_signed n | None => js "NaN" end.

(** [s.slice(a, b)] *)
Definition slice (a b : nat) (s : jstr) : jstr := take (b - a) (drop a s).

(* src: integrations/calendar/app/time.ts 176-176 dayNum *)
Definition dayNum (date : jstr) : option Z := Number (slice 8 10 date).

(** [None] is [undefined]. *)
(* src: integrations/calendar/app/time.ts 177-177 monthName *)
Definition monthName (date : jstr) : option jstr := at_index MONTHS (num_sub (Number (slice 5 7 date)) (Some 1)).

(* src: integrations/calendar/app/time.ts 179-181 weekdayLong *)
Definition weekdayLong (date : jstr) : option jstr := at_index WEEKDAYS (weekday date).

(* src: integrations/calendar/app/time.ts 183-185 weekdayShort *)
Definition weekdayShort (date : jstr) : option jstr := take 3 <$> weekdayLong date.

(* src: integrations/calendar/app/time.ts 187-190 shortDay *)
Definition shortDay (date : jstr) : option jstr :=
  w ← weekdayShort date; m ← monthName date;
  Some (w ++ js " " ++ shown_num (dayNum date) ++ js " " ++ take 3 m).

(* src: integrations/calendar/app/time.ts 192-195 longDay *)
Definition longDay (date : jstr) : jstr :=
  shown (weekdayLong date) ++ js " " ++ shown_num (dayNum date) ++ js " " ++ shown (monthName date).

(* src: integrations/calendar/app/time.ts 197-200 monthTitle *)
Definition monthTitle (date : jstr) : jstr := shown (monthName date) ++ js " " ++ take 4 date.

Definition dash : jstr := [32; 8211; 32].

(* src: integrations/calendar/app/time.ts 202-213 rangeTitle *)
Definition rangeTitle (from to : jstr) : jstr :=
  if jeqb from to then longDay from ++ js " " ++ take 4 from
  else
    let fy := take 4 from in let ty := take 4 to in
    let f := shown_num (dayNum from) in let t := shown_num (dayNum to) in
    if negb (jeqb fy ty) then
      f ++ js " " ++ shown (monthName from) ++ js " " ++ fy ++ dash ++ t ++ js " " ++ shown (monthName to) ++ js " " ++ ty
    else if negb (jeqb (slice 5 7 from) (slice 5 7 to)) then
      f ++ js " " ++ shown (monthName from) ++ dash ++ t ++ js " " ++ shown (monthName to) ++ js " " ++ ty
    else f ++ dash ++ t ++ js " " ++ shown (monthName to) ++ js " " ++ ty.

(* src: integrations/calendar/app/time.ts 215-222 shortRange *)
Definition shortRange (from to : jstr) : option jstr :=
  tm ← monthName to;
  if jeqb (take 7 from) (take 7 to) then
    Some (shown_num (dayNum from) ++ dash ++ shown_num (dayNum to) ++ js " " ++ take 3 tm)
  else
    fm ← monthName from;
    Some (shown_num (dayNum from) ++ js " " ++ take 3 fm ++ dash ++ shown_num (dayNum to) ++ js " " ++ take 3 tm).

(* src: integrations/calendar/app/time.ts 224-232 offsetLabel *)
Definition offsetLabel (ms : option Z) (zone : jstr) : option jstr :=
  off ← offsetAt ms zone;
  Some (match off with
        | None => js "GMT+NaN"
        | Some off =>
            if off =? 0 then js "GMT"
            else
              let h := Z.abs off / 60 in
              let m := Z.abs off mod 60 in
              js "GMT" ++ (if off <? 0 then [8722] else js "+") ++ dec_signed h ++ (if m =? 0 then [] else 58 :: Zones.pad m)
        end).
End Time.

(** ** Dates *)

Section Dates.
Context (other : jstr -> option Z).

Lemma midnight_day n : day_ok n -> midnight other (day_key n) = Some (n * DAY).
Proof. apply utcOfKey_day. Qed.

Lemma iso_day n : day_ok n -> take 10 <$> toISOString (n * DAY) = Some (day_key n).
Proof.
  intros Hn. destruct (civil_from_days n) as [[y m] d] eqn:E. destruct (day_key_iso n y m d Hn E) as (Hy & Hv & ->).
  unfold toISOString. rewrite (proj2 (Z.ltb_ge MAX_TIME _)) by (by apply day_range).
  change DAY_MS with DAY. rewrite Z.div_mul, E by done. cbn [fmap option_fmap option_map]. f_equal.
  apply iso_date_take; [lia|done].
Qed.

Lemma addDays_shift n k : day_ok n -> day_ok (n + k) -> addDays other (day_key n) k = Some (day_key (n + k)).
Proof.
  intros Hn Hk. unfold addDays. rewrite midnight_day by done. cbn [mbind option_bind].
  replace (n * DAY + k * DAY) with ((n + k) * DAY) by lia. by apply iso_day.
Qed.

Lemma daysBetween_day n k : day_ok n -> day_ok k -> daysBetween other (day_key n) (day_key k) = Some (k - n).
Proof.
  intros Hn Hk. unfold daysBetween. rewrite !midnight_day by done. cbn. f_equal. unfold round_div.
  replace (k * DAY - n * DAY) with ((k - n) * DAY) by lia. unfold DAY. dlia.
Qed.

(** Texts of days are ordered as the days are. *)
Lemma day_key_order n k : day_ok n -> day_ok k -> jltb (day_key n) (day_key k) = (n <? k).
Proof.
  intros Hn Hk. destruct (civil_from_days n) as [[y m] d] eqn:E, (civil_from_days k) as [[y' m'] d'] eqn:E'.
  destruct (day_key_iso n y m d Hn E) as (Hy & Hv & ->), (day_key_iso k y' m' d' Hk E') as (Hy' & Hv' & ->).
  pose proof (days_from_civil_from_days n) as H. rewrite E in H. destruct H as [_ <-].
  pose proof (days_from_civil_from_days k) as H. rewrite E' in H. destruct H as [_ <-].
  apply iso_date_order; done || lia.
Qed.

Lemma civil_prefix_day n r : day_ok n -> civil_prefix (day_key n ++ r) = Some r.
Proof.
  intros Hn. destruct (civil_from_days n) as [[y m] d] eqn:E. destruct (day_key_iso n y m d Hn E) as (Hy & Hv & ->).
  unfold valid_civil in Hv. breflect. pose proof (days_in_month_range y m). rewrite iso_date_units by lia.
  repeat (rewrite <-!app_assoc; cbn [app]). unfold civil_prefix. rewrite digits_pad by (cbn; lia). cbn [mbind option_bind lit Z.eqb Pos.eqb].
  rewrite digits_pad by (cbn; lia). cbn [mbind option_bind lit Z.eqb Pos.eqb]. by rewrite digits_pad by (cbn; lia).
Qed.

Lemma isDate_day n : day_ok n -> isDate other (day_key n) = true.
Proof.
  intros Hn. unfold isDate, civil_shape. rewrite <-(app_nil_r (day_key n)) at 1. rewrite civil_prefix_day, midnight_day by done.
  pose proof (iso_day n Hn) as Hi. destruct (toISOString (n * DAY)) as [iso|]; [|done]. cbn in Hi.
  assert (take 10 iso = day_key n) as -> by congruence. by apply bool_decide_eq_true.
Qed.
End Dates.

(** ** The wall clock *)

Section Clock.
Context (Intl : jstr -> option (Z -> option Parts)) (tz : jstr) (off : Z -> Z) (Hlaw : zone_law Intl tz off).

Abbreviation clock := (Zones.wall off).

(** An instant whose day there has a text. *)
Definition shows (t : Z) : Prop := FIRST <= t < LAST /\ day_ok (clock t / DAY).

Lemma wall_law t : shows t -> wall Intl (Some t) tz = Some (mkWall (day_key (clock t / DAY)) (clock t mod DAY / MINUTE)).
Proof using Hlaw.
  intros [Ht Hd]. destruct (law_parts _ _ _ Hlaw) as (f & Ef & Hf). unfold wall. rewrite Ef. cbn [mbind option_bind].
  rewrite Hf by done. fold (clock t). unfold parts_of, day_key, keyOfUtc, time_clip. cbn [mbind option_bind].
  rewrite (proj2 (Z.ltb_ge MAX_TIME _)) by (by apply day_range). rewrite Z.div_mul by done.
  destruct (civil_from_days (clock t / DAY)) as [[y m] d]. cbn [mbind option_bind]. do 2 f_equal. unfold HOUR, MINUTE, DAY. dlia.
Qed.

(** A wall-clock time that some instant shows is one that the instant found
    shows, where the clock changes seldom. *)
Lemma two_passes w : seldom_changes off -> w mod 1000 = 0 -> (exists t, reads off w t) -> off (w - off (w - off w)) = off (w - off w).
Proof using Hlaw.
  intros Hs Hw [t Ht]. pose proof (reads_offset off w t Ht) as Et.
  pose proof (off_range Intl tz off Hlaw) as Ho. set (a := w - off w). destruct (Z.eq_dec (off a) (off w)) as [E|Hne]; [rewrite E; exact E|].
  assert (Ea : a = w - off w) by reflexivity. clearbody a. pose proof (Ho w). pose proof (Ho t). pose proof (Ho a). unfold MAX_ZONE_OFFSET_MS, HOUR in *.
  assert (off t = off a \/ off t = off w) as [E|E].
  { assert (Hs' : forall x y z, x <= y <= z -> z <= x + 187200000 -> off y = off x \/ off y = off z) by exact Hs.
    pose proof (Hs' t a w). pose proof (Hs' a t w). pose proof (Hs' a w t). pose proof (Hs' t w a). pose proof (Hs' w t a).
    pose proof (Hs' w a t). lia. }
  - replace (w - off a) with t by lia. exact E.
  - exfalso. apply Hne. replace a with t by lia. exact E.
Qed.
(** The wall-clock time of a day, as if in UTC, and the instant found for it. *)
Definition wall_time (n m : Z) : Z := n * DAY + m * MINUTE.
Definition found_instant (n m : Z) : Z := let w := wall_time n m in w - off (w - off w).

Lemma shows_near n m x : day_inside n -> 0 <= m <= 1440 -> Z.abs (x - wall_time n m) <= MAX_ZONE_OFFSET_MS -> shows x.
Proof using Hlaw.
  unfold day_inside, shows, day_ok, wall_time. pose proof (wall_near Intl tz off Hlaw x) as Hw.
  destruct day_bounds as [-> ->], first_last as [-> ->]. unfold MAX_ZONE_OFFSET_MS, HOUR, DAY, MINUTE in *. intros. split; dlia.
Qed.

Lemma off_near t : Z.abs (off t) <= MAX_ZONE_OFFSET_MS.
Proof using Hlaw. apply (law_bound _ _ _ Hlaw). Qed.

End Clock.

Section Instants.
Context (other : jstr -> option Z) (Intl : jstr -> option (Z -> option Parts)) (tz : jstr) (off : Z -> Z) (Hlaw : zone_law Intl tz off).
Context (Hmin : forall t, off t mod MINUTE = 0).

Abbreviation clock := (Zones.wall off).
Abbreviation shows := (shows off).
Abbreviation found_instant := (found_instant off).
Abbreviation off_near := (off_near Intl tz off Hlaw).

Lemma offsetAt_law t : shows t -> offsetAt other Intl (Some t) tz = Some (Some (off t / MINUTE)).
Proof using Hlaw Hmin.
  intros Ht. unfold offsetAt. rewrite (wall_law Intl tz off Hlaw) by done. cbn [mbind option_bind w_date w_minutes]. destruct Ht as [_ Hd].
  rewrite midnight_day by done. cbn [num_op num_sub fmap option_fmap option_map]. do 2 f_equal.
  pose proof (Hmin t). unfold round_div, Zones.wall, MINUTE, DAY in *. dlia.
Qed.

Lemma instant_law n m : day_inside n -> 0 <= m <= 1440 -> instant other Intl (day_key n) m tz = Some (Some (found_instant n m)).
Proof using Hlaw Hmin.
  intros Hn Hm. assert (Hd : day_ok n) by (unfold day_inside, day_ok in *; lia). unfold instant. rewrite midnight_day by done.
  cbn [num_op]. change (n * DAY + m * 60000) with (wall_time n m). pose proof (off_near (wall_time n m)). pose proof (off_near (wall_time n m - off (wall_time n m))).
  rewrite offsetAt_law by (apply (shows_near Intl tz off Hlaw n m); [done|done|]; unfold MAX_ZONE_OFFSET_MS, HOUR in *; lia). cbn [mbind option_bind fmap option_fmap option_map num_sub].
  assert (forall t, off t / MINUTE * 60000 = off t) as Ho by (intros t; pose proof (Hmin t); unfold MINUTE in *; dlia).
  rewrite Ho, offsetAt_law by (apply (shows_near Intl tz off Hlaw n m); [done|done|]; unfold MAX_ZONE_OFFSET_MS, HOUR in *; lia).
  cbn [mbind option_bind fmap option_fmap option_map num_sub]. by rewrite Ho.
Qed.
Lemma zone_formatOffset o : Z.abs o <= 840 -> JsDate.zone (formatOffset o) = Some (o, []).
Proof.
  intros Ho. unfold formatOffset. rewrite !pad_pad_dec by dlia. destruct (Z.ltb_spec o 0); cbn [JsDate.zone Z.eqb Pos.eqb orb].
  all: rewrite digits_pad by (cbn; dlia); cbn [mbind option_bind lit Z.eqb Pos.eqb].
  all: rewrite <-(app_nil_r (pad_dec 2 (Z.abs o mod 60))), digits_pad by (cbn; dlia); cbn [mbind option_bind]; do 2 f_equal; dlia.
Qed.

Lemma formatOffset_head o : exists c t, formatOffset o = c :: t /\ (c = 43 \/ c = 45).
Proof. unfold formatOffset. eexists _, _. split; [done|]. destruct (o <? 0); tauto. Qed.

(** The text of a minute of a day with an offset, and its instant. *)
Definition stamp (n m o : Z) : jstr := day_key n ++ js "T" ++ hhmm m ++ js ":00" ++ formatOffset o.

Lemma stamp_parse n m o : day_ok n -> 0 <= m < 1440 -> Z.abs o <= 840 ->
  Date_parse other (stamp n m o) = Some (n * DAY + m * MINUTE - o * MINUTE).
Proof.
  intros Hn Hm Ho. destruct (civil_from_days n) as [[y mo] d] eqn:E. unfold stamp. destruct (day_key_iso n y mo d Hn E) as (Hy & Hv & ->).
  pose proof (days_from_civil_from_days n) as H. rewrite E in H. destruct H as [_ <-].
  unfold Date_parse. rewrite parse_iso_date by (done || lia). change (js "T") with [84]. cbn [app]. unfold hhmm. rewrite !pad_pad_dec by dlia.
  rewrite <-app_assoc, digits_pad by (cbn; dlia). cbn [mbind option_bind lit app Z.eqb Pos.eqb].
  rewrite digits_pad by (cbn; dlia). cbn [mbind option_bind].
  pose proof (zone_formatOffset o Ho) as Hz. destruct (formatOffset_head o) as (c & t & Ef & Hc). rewrite Ef in Hz |- *.
  assert (seconds (js ":00" ++ c :: t) = Some (0, 0, c :: t)) as Hs by (cbn; by destruct Hc as [->| ->]).
  rewrite Hs. cbn [mbind option_bind]. rewrite Hz. cbn [mbind option_bind].
  unfold fields_value. rewrite Hv. rewrite (proj2 (Z.ltb_lt (m mod 60) 60)), (proj2 (Z.ltb_lt (m / 60) 24)) by dlia. cbn [andb orb Z.ltb Z.compare].
  unfold time_value, DAY_MS, DAY, MINUTE. f_equal. dlia.
Qed.
Lemma pad_digits x : 0 <= x < 100 -> exists a b, Zones.pad x = [a; b] /\ is_digit a = true /\ is_digit b = true.
Proof.
  intros Hx. rewrite pad_pad_dec by lia. pose proof (pad_dec_length 2 x ltac:(cbn; lia) ltac:(lia)) as Hl.
  destruct (pad_dec_spec 2 x) as [_ Hd]; [lia|]. destruct (pad_dec 2 x) as [|a [|b [|]]]; try done. forall_split. by exists a, b.
Qed.

Lemma stamp_shape n m o : day_ok n -> 0 <= m < 1440 -> Z.abs o <= 840 -> offset_shape (stamp n m o) = true.
Proof.
  intros Hn Hm Ho. unfold offset_shape, stamp. rewrite civil_prefix_day by done. change (js "T") with [84]. cbn [app].
  pose proof (zone_formatOffset o Ho) as Hz. unfold hhmm.
  destruct (pad_digits (m / 60)) as (a & b & -> & Ha & Hb); [dlia|]. destruct (pad_digits (m mod 60)) as (c & d & -> & Hc & Hd); [dlia|].
  cbn [app]. change (js ":00") with [58; 48; 48]. cbn [app].
  unfold formatOffset in *. destruct (pad_digits (Z.abs o / 60)) as (e & f & Ee & He & Hf); [dlia|]. destruct (pad_digits (Z.abs o mod 60)) as (g & h & Eg & Hg & Hh); [dlia|].
  rewrite Ee, Eg in Hz |- *. cbn [app length Nat.sub drop] in *. rewrite Hz, orb_true_r, andb_true_r.
  assert (forall x, is_digit x = true -> is_line_terminator x = false) as Hl by (intros x Hx; unfold is_digit, is_line_terminator in *; lia).
  unfold all_dots. cbn [forallb]. rewrite (Hl a), (Hl b), (Hl c), (Hl d), (Hl e), (Hl f), (Hl g), (Hl h) by done. destruct (o <? 0); reflexivity.
Qed.

(** Times of whole minutes. *)
Lemma wall_time_whole n m : wall_time n m mod MINUTE = 0 /\ wall_time n m mod 1000 = 0.
Proof. unfold wall_time, DAY, MINUTE. split; dlia. Qed.

Lemma wall_time_split n m : 0 <= m < 1440 -> wall_time n m / DAY = n /\ wall_time n m mod DAY / MINUTE = m.
Proof. unfold wall_time, DAY, MINUTE. split; dlia. Qed.

Lemma minutes_sub a b : a mod MINUTE = 0 -> b mod MINUTE = 0 -> (a - b) mod MINUTE = 0.
Proof. unfold MINUTE. dlia. Qed.

Lemma clock_split t : t mod MINUTE = 0 ->
  clock t = t + off t /\ clock t / DAY * DAY + clock t mod DAY / MINUTE * MINUTE - off t / MINUTE * MINUTE = t.
Proof using Hmin. intros Ht. pose proof (Hmin t) as H. clear -Ht H. unfold Zones.wall, DAY, MINUTE in *. split; dlia. Qed.

Lemma day_minutes c : 0 <= c mod DAY / MINUTE < 1440.
Proof. unfold DAY, MINUTE. dlia. Qed.

Lemma off_minutes t : Z.abs (off t / MINUTE) <= 840.
Proof using Hlaw. pose proof (off_near t) as H. clear -H. unfold MAX_ZONE_OFFSET_MS, HOUR, MINUTE in *. dlia. Qed.

(** C31 (roundtrip). The text that an edit stores for a day and a time of day is
    a date-time with an offset, as the adapter requires, and it names the
    instant that was found for them, so nothing of a choice is lost on its way to
    Google.  If some instant shows that time of day in the viewer's zone, the one
    found does, and its wall clock reads the day and the time that were chosen;
    else (a skipped time) it is that time by an offset the zone has within
    fourteen hours of it. *)
Theorem toDateTime_names n m : day_inside n -> 0 <= m < 1440 -> seldom_changes off ->
  exists s t, toDateTime other Intl (day_key n) m tz = Some s /\ instant other Intl (day_key n) m tz = Some (Some t) /\
    Date_parse other s = Some t /\ offset_shape s = true /\
    ((exists t', reads off (wall_time n m) t') -> reads off (wall_time n m) t /\ wall Intl (Some t) tz = Some (mkWall (day_key n) m)) /\
    exists t', Z.abs (t' - wall_time n m) <= MAX_ZONE_OFFSET_MS /\ t = wall_time n m - off t'.
Proof using Hlaw Hmin.
  intros Hn Hm Hs. assert (Hd : day_ok n) by (unfold day_inside, day_ok in *; lia). set (t := found_instant n m).
  pose proof (off_near (wall_time n m)) as Ho1. pose proof (off_near (wall_time n m - off (wall_time n m))) as Ho2.
  assert (Ht : shows t) by (apply (shows_near Intl tz off Hlaw n m); [done|lia|]; unfold t, CalendarTime.found_instant; lia).
  assert (Hi : instant other Intl (day_key n) m tz = Some (Some t)) by (apply instant_law; [done|lia]).
  destruct (wall_time_whole n m) as [Hw1 Hw2].
  assert (Ht0 : t mod MINUTE = 0) by (apply minutes_sub; [done|apply Hmin]). destruct (clock_split t Ht0) as [Hc Hv].
  exists (stamp (clock t / DAY) (clock t mod DAY / MINUTE) (off t / MINUTE)), t. split_and!.
  - unfold toDateTime. rewrite Hi. cbn [mbind option_bind]. by rewrite (wall_law Intl tz off Hlaw), offsetAt_law by done.
  - exact Hi.
  - rewrite stamp_parse; [by rewrite Hv|apply Ht|apply day_minutes|apply off_minutes].
  - apply stamp_shape; [apply Ht|apply day_minutes|apply off_minutes].
  - intros Hex. pose proof (two_passes Intl tz off Hlaw (wall_time n m) Hs Hw2 Hex) as H2.
    change (off t = off (wall_time n m - off (wall_time n m))) in H2. assert (Hr : clock t = wall_time n m).
    { rewrite Hc, H2. unfold t, CalendarTime.found_instant. lia. }
    split; [split; [clear -Ht0; unfold MINUTE in *; dlia|done]|]. rewrite (wall_law Intl tz off Hlaw) by done. rewrite Hr.
    by destruct (wall_time_split n m Hm) as [-> ->].
  - exists (wall_time n m - off (wall_time n m)). split; [lia|done].
Qed.
End Instants.

Module Demo.
Definition none (s : jstr) : option Z := None.

Lemma amsterdam_minutes t : Zones.Demo.amsterdam t mod MINUTE = 0.
Proof. unfold Zones.Demo.amsterdam. by destruct (_ && _). Qed.

Definition day (s : string) : Z := default 0 (midnight none (js s)) / DAY.

Lemma toDateTime_names_witness : exists s, toDateTime none Zones.Demo.Intl (day_key (day "2026-07-01")) 570 Zones.Demo.TZ = Some s /\
  s = js "2026-07-01T09:30:00+02:00" /\ Date_parse none s = Some (Zones.Demo.ms "2026-07-01T07:30:00Z").
Proof.
  destruct (toDateTime_names none Zones.Demo.Intl Zones.Demo.TZ Zones.Demo.amsterdam Zones.Demo.amsterdam_law amsterdam_minutes (day "2026-07-01") 570)
    as (s & t & Hs & Hi & Hp & _).
  - unfold day_inside. destruct day_bounds as [-> ->]. split; [by apply Z.leb_le; vm_compute|by apply Z.ltb_lt; vm_compute].
  - lia.
  - apply Zones.Demo.amsterdam_settled.
  - exists s. split; [exact Hs|]. assert (E : toDateTime none Zones.Demo.Intl (day_key (day "2026-07-01")) 570 Zones.Demo.TZ = Some (js "2026-07-01T09:30:00+02:00")) by (vm_compute; reflexivity).
    assert (s = js "2026-07-01T09:30:00+02:00") as -> by congruence. split; [reflexivity|]. vm_compute. reflexivity.
Defined.

(** 2:30 on the night the clock is put back in Amsterdam is the later of the two. *)
Lemma later_in_fold : instant none Zones.Demo.Intl (js "2026-10-25") 150 Zones.Demo.TZ = Some (Some (Zones.Demo.ms "2026-10-25T01:30:00Z")) /\
  wall Zones.Demo.Intl (Some (Zones.Demo.ms "2026-10-25T00:30:00Z")) Zones.Demo.TZ = Some (mkWall (js "2026-10-25") 150).
Proof. split; vm_compute; reflexivity. Qed.

Example titles : rangeTitle none (fun s => Some (parse_dec s)) (js "2026-09-28") (js "2026-10-04") = js "28 September" ++ dash ++ js "4 October 2026" /\
  shortDay none (fun s => Some (parse_dec s)) (js "2026-09-24") = Some (js "Thu 24 Sep") /\ parseHhmm (js " 9:05 ") = Some 545 /\ parseHhmm (js "24:00") = None.
Proof. split_and!; vm_compute; reflexivity. Qed.
End Demo.
