(* ===== verification/CalendarEvents.v ===== *)
(** * Laying out events

    Models [src/integrations/calendar/app/events.ts]: the pieces of an event per
    day in the viewer's zone, the agenda, and the week with its bars and the
    lanes of overlapping events.

    [localeCompare] is a parameter, a comparator.  Segments are values: an
    event's segments are not changed after they are made.  A function that can
    throw returns an [option]; [fuel] bounds the days an event is followed for. *)
From S2P Require Import Prelude Text Collections JsDate Civil Json Zones CalendarAdapter CalendarSync CalendarTime.
Local Open Scope Z_scope.

(** The display text of a field, and the flag. *)
Definition field (k : string) (value : Json) : jstr := string_of (member (js k) value).
Definition is_all_day (value : Json) : bool := truthy_json (member (js "allDay") value).
Definition title_of (event : CalEvent) : jstr := field "title" (ev_value event).

(* src: integrations/calendar/app/events.ts 33-36 bounds ! *)
Record Bounds := mkBounds { b_start : option Z; b_end : option Z }.

(* src: integrations/calendar/app/events.ts 56-67 Segment *)
Record Segment := mkSegment {
  sg_event : CalEvent; sg_date : jstr; sg_allDay : bool; sg_startMin : Z; sg_endMin : Z; sg_dayOf : option (Z * Z)
}.

(* src: integrations/calendar/app/events.ts 129-132 AgendaDay *)
Record AgendaDay := mkAgendaDay { ag_date : jstr; ag_items : list Segment }.

(* src: integrations/calendar/app/events.ts 158-166 Bar *)
Record Bar := mkBar { bar_event : CalEvent; bar_col : Z; bar_span : Z; bar_row : Z }.

(* src: integrations/calendar/app/events.ts 168-175 Block *)
Record Block := mkBlock { bk_segment : Segment; bk_lane : nat; bk_lanes : nat; bk_cluster : Z }.

(* src: integrations/calendar/app/events.ts 177-183 WeekLayout *)
Record WeekLayout := mkWeekLayout { wl_days : list jstr; wl_bars : list Bar; wl_rows : nat; wl_columns : list (list Block) }.

(** [findIndex(end => end <= start)]. *)
Fixpoint free_lane (start : Z) (ends : list Z) : option nat :=
  match ends with
  | [] => None
  | e :: ends => if e <=? start then Some 0%nat else Datatypes.S <$> free_lane start ends
  end.

(** The variables of [packColumn]. *)
(* src: integrations/calendar/app/events.ts 256-260 packColumn ! *)
Record Packing := mkPacking { pk_out : list Block; pk_cluster : list Block; pk_ends : list Z; pk_end : Z; pk_clusters : Z }.

(* src: integrations/calendar/app/events.ts 262-268 packColumn ! *)
Definition close (p : Packing) : Packing :=
  mkPacking (pk_out p ++ map (fun b => mkBlock (bk_segment b) (bk_lane b) (length (pk_ends p)) (bk_cluster b)) (pk_cluster p)) [] [] (pk_end p) (pk_clusters p + 1).

(** A cluster ends where a segment starts after all of it. *)
(* src: integrations/calendar/app/events.ts 271-274 packColumn ! *)
Definition settle (p : Packing) (segment : Segment) : Packing :=
  match pk_cluster p with
  | _ :: _ =>
      if pk_end p <=? sg_startMin segment
      then let c := close p in mkPacking (pk_out c) (pk_cluster c) (pk_ends c) (-1) (pk_clusters c)
      else p
  | [] => p
  end.

(** The lane a segment takes, and [laneEnds] after it. *)
(* src: integrations/calendar/app/events.ts 276-278 packColumn ! *)
Definition take_lane (segment : Segment) (laneEnds : list Z) : nat * list Z :=
  match free_lane (sg_startMin segment) laneEnds with
  | Some lane => (lane, <[lane := sg_endMin segment]> laneEnds)
  | None => (length laneEnds, laneEnds ++ [sg_endMin segment])
  end.

(* src: integrations/calendar/app/events.ts 270-281 packColumn ! *)
Definition pack (p : Packing) (segment : Segment) : Packing :=
  let p := settle p segment in
  let '(lane, ends) := take_lane segment (pk_ends p) in
  mkPacking (pk_out p) (pk_cluster p ++ [mkBlock segment lane 0 (pk_clusters p)]) ends (Z.max (pk_end p) (sg_endMin segment)) (pk_clusters p).

(* src: integrations/calendar/app/events.ts 254-286 packColumn *)
Definition packColumn (sorted : list Segment) : list Block :=
  let p := fold_left pack sorted (mkPacking [] [] [] (-1) 0) in
  match pk_cluster p with [] => pk_out p | _ => pk_out (close p) end.

(** The columns of a bar. *)
Definition cells (col span : Z) : list Z := map (fun i => col + Z.of_nat i) (seq 0 (Z.to_nat span)).

(** The first row whose cells are free, which takes them. *)
(* src: integrations/calendar/app/events.ts 233-244 packWeek ! *)
Fixpoint place (wanted : list Z) (occupied : list (list Z)) : list (list Z) * Z :=
  match occupied with
  | [] => ([wanted], 0)
  | row :: rest =>
      if existsb (fun c => bool_decide (c ∈ row)) wanted
      then let '(rest, r) := place wanted rest in (row :: rest, r + 1)
      else ((row ++ wanted) :: rest, 0)
  end.

(** A bar before it has a row: its event, first column and span. *)
Definition Pending : Type := CalEvent * Z * Z.

(* src: integrations/calendar/app/events.ts 231-247 packWeek ! *)
Definition place_bar (st : list (list Z) * list Bar) (bar : Pending) : list (list Z) * list Bar :=
  let '(event, col, span) := bar in
  let '(occupied, row) := place (cells col span) st.1 in
  (occupied, st.2 ++ [mkBar event col span row]).

(** Consecutive days of one event: each extends the last bar or starts one. *)
(* src: integrations/calendar/app/events.ts 211-223 packWeek ! *)
Definition extend_bar (bars : list Pending) (p : CalEvent * Z) : list Pending :=
  match last bars with
  | Some (event, col, span) => if col + span =? p.2 then removelast bars ++ [(event, col, span + 1)] else bars ++ [(p.1, p.2, 1)]
  | None => [(p.1, p.2, 1)]
  end.

(** [l.indexOf(x)] *)
Definition indexOf (l : list jstr) (x : jstr) : Z := match list_find (eq x) l with Some (i, _) => Z.of_nat i | None => -1 end.

Section Events.
Context (other : jstr -> option Z) (Intl : jstr -> option (Z -> option Parts)) (localeCompare : jstr -> jstr -> Z) (fuel : nat).

(** Start and end as instants; [Some None] is [undefined]. *)
(* src: integrations/calendar/app/events.ts 32-54 bounds *)
Definition bounds (event : Json) (zone : jstr) : option (option Bounds) :=
  if is_all_day event then
    let s := midnight other (field "start" event) in
    let e := midnight other (field "end" event) in
    if num_ltb s e then
      start ← instant other Intl (field "start" event) 0 zone;
      stop ← instant other Intl (field "end" event) 0 zone;
      Some (Some (mkBounds start stop))
    else Some None
  else
    let s := Date_parse other (field "start" event) in
    let e := Date_parse other (field "end" event) in
    if num_ltb s e then Some (Some (mkBounds s e)) else Some None.

(** The dates of [for (let d = …; go(d); d = addDays(d, 1))]. *)
Fixpoint dates (fuel : nat) (go : jstr -> bool) (d : jstr) : option (list jstr) :=
  match fuel with
  | O => None
  | Datatypes.S fuel =>
      if go d then next ← addDays other d 1; rest ← dates fuel go next; Some (d :: rest) else Some []
  end.

(** [...(total > 1 ? { dayOf: { n, total } } : {})] *)
Definition day_of_total (n : Z) (total : option Z) : option (Z * Z) := total ← total; if 1 <? total then Some (n, total) else None.

(* src: integrations/calendar/app/events.ts 69-120 segments *)
Definition segments (event : CalEvent) (from : jstr) (days : Z) (zone : jstr) : option (list Segment) :=
  let value := ev_value event in
  last ← addDays other from days;
  b ← bounds value zone;
  match b with
  | None => Some []
  | Some b =>
      if is_all_day value then
        let start := field "start" value in
        let stop := field "end" value in
        let total := daysBetween other start stop in
        ds ← dates fuel (fun d => jltb d stop) start;
        Some (omap (fun p => if negb (jltb p.2 from) && jltb p.2 last
                             then Some (mkSegment event p.2 true 0 1440 (day_of_total (p.1 + 1) total)) else None)
                   (imap (fun i d => (Z.of_nat i, d)) ds))
      else
        s ← wall Intl (b_start b) zone;
        e ← wall Intl (b_end b) zone;
        lastDay ← (if w_minutes e =? 0 then addDays other (w_date e) (-1) else Some (w_date e));
        let total := num_op Z.add (daysBetween other (w_date s) lastDay) (Some 1) in
        ds ← dates fuel (fun d => negb (jltb lastDay d)) (w_date s);
        Some (omap (fun p => if jltb p.2 from || negb (jltb p.2 last) then None
                             else
                               let startMin := if jeqb p.2 (w_date s) then w_minutes s else 0 in
                               let endMin := if jeqb p.2 (w_date e) then w_minutes e else 1440 in
                               Some (mkSegment event p.2 (num_ltb (Some 1) total && (startMin =? 0) && (endMin =? 1440)) startMin endMin
                                       (day_of_total (p.1 + 1) total)))
                   (imap (fun i d => (Z.of_nat i, d)) ds))
  end.

(* src: integrations/calendar/app/events.ts 122-127 order *)
Definition order : Segment -> Segment -> Z :=
  lex (fun a b => (if sg_allDay b then 1 else 0) - (if sg_allDay a then 1 else 0))
  (lex (fun a b => sg_startMin a - sg_startMin b)
  (lex (fun a b => sg_endMin a - sg_endMin b)
  (lex (fun a b => localeCompare (title_of (sg_event a)) (title_of (sg_event b)))
       (fun a b => localeCompare (ev_subject (sg_event a)) (ev_subject (sg_event b)))))).

(** The segments of every event, in order. *)
Definition all_segments (events : list CalEvent) (from : jstr) (days : Z) (zone : jstr) : option (list Segment) :=
  ss ← mapM (fun event => segments event from days zone) events; Some (concat ss).

(** [Array.from({ length: count }, (_, i) => addDays(from, i))] *)
Definition days_from (from : jstr) (count : nat) : option (list jstr) := mapM (fun i => addDays other from (Z.of_nat i)) (seq 0 count).

(** [byDay.get(date)!.push(segment)] *)
Definition push_day (m : list (jstr * list Segment)) (segment : Segment) : option (list (jstr * list Segment)) :=
  l ← jget (sg_date segment) m; Some (jset (sg_date segment) (l ++ [segment]) m).

Fixpoint push_days (m : list (jstr * list Segment)) (l : list Segment) : option (list (jstr * list Segment)) :=
  match l with [] => Some m | s :: l => m ← push_day m s; push_days m l end.

(* src: integrations/calendar/app/events.ts 134-156 agendaDays *)
Definition agendaDays (events : list CalEvent) (from : jstr) (days : nat) (zone : jstr) : option (list AgendaDay) :=
  keys ← days_from from days;
  ss ← all_segments events from (Z.of_nat days) zone;
  byDay ← push_days (jmap_of (map (fun d => (d, [])) keys)) ss;
  Some (map (fun p : jstr * list Segment => mkAgendaDay p.1 (sort_by order p.2)) byDay).

(** [perDay[i].push(segment)], which throws where there is no such day. *)
Definition push_column (columns : list (list Segment)) (i : Z) (segment : Segment) : option (list (list Segment)) :=
  if i <? 0 then None else l ← columns !! Z.to_nat i; Some (<[Z.to_nat i := l ++ [segment]]> columns).

(* src: integrations/calendar/app/events.ts 199-206 packWeek ! *)
Definition sort_segment (days : list jstr) (st : list (jstr * list Segment) * list (list Segment)) (segment : Segment)
    : option (list (jstr * list Segment) * list (list Segment)) :=
  if sg_allDay segment then
    let subject := ev_subject (sg_event segment) in
    Some (jset subject (default [] (jget subject st.1) ++ [segment]) st.1, st.2)
  else columns ← push_column st.2 (indexOf days (sg_date segment)) segment; Some (st.1, columns).

Fixpoint sort_segments (days : list jstr) (st : list (jstr * list Segment) * list (list Segment)) (l : list Segment)
    : option (list (jstr * list Segment) * list (list Segment)) :=
  match l with [] => Some st | s :: l => st ← sort_segment days st s; sort_segments days st l end.

(* src: integrations/calendar/app/events.ts 225-230 packWeek ! *)
Definition bar_order : Pending -> Pending -> Z :=
  lex (fun a b => a.1.2 - b.1.2) (lex (fun a b => b.2 - a.2) (fun a b => localeCompare (title_of a.1.1) (title_of b.1.1))).

(* src: integrations/calendar/app/events.ts 185-252 packWeek *)
Definition packWeek (events : list CalEvent) (from : jstr) (count : nat) (zone : jstr) : option WeekLayout :=
  days ← days_from from count;
  ss ← all_segments events from (Z.of_nat count) zone;
  '(barSegs, perDay) ← sort_segments days ([], replicate count []) ss;
  let pending := concat (map (fun p : jstr * list Segment => fold_left extend_bar (map (fun s => (sg_event s, indexOf days (sg_date s))) p.2) []) barSegs) in
  let '(occupied, bars) := fold_left place_bar (sort_by bar_order pending) ([], []) in
  Some (mkWeekLayout days bars (length occupied) (map (fun l => packColumn (sort_by order l)) perDay)).

(* src: integrations/calendar/app/events.ts 296-302 nextEvent ! *)
Definition next_step (after zone : jstr) (best : option (CalEvent * jstr * option Z)) (event : CalEvent) : option (option (CalEvent * jstr * option Z)) :=
  b ← bounds (ev_value event) zone;
  match b with
  | None => Some best
  | Some b =>
      date ← (if is_all_day (ev_value event) then Some (field "start" (ev_value event)) else w_date <$> wall Intl (b_start b) zone);
      if jltb date after then Some best
      else match best with
           | Some (_, _, at_) => if num_ltb (b_start b) at_ then Some (Some (event, date, b_start b)) else Some best
           | None => Some (Some (event, date, b_start b))
           end
  end.

Fixpoint next_steps (after zone : jstr) (best : option (CalEvent * jstr * option Z)) (l : list CalEvent) : option (option (CalEvent * jstr * option Z)) :=
  match l with [] => Some best | e :: l => best ← next_step after zone best e; next_steps after zone best l end.

(* src: integrations/calendar/app/events.ts 288-305 nextEvent *)
Definition nextEvent (events : list CalEvent) (after zone : jstr) : option (option (CalEvent * jstr)) :=
  match next_steps after zone None events with Some best => Some (fst <$> best) | None => None end.

(* src: integrations/calendar/app/events.ts 307-319 busyDays *)
Definition busyDays (events : list CalEvent) (from : jstr) (days : Z) (zone : jstr) : option (list jstr) :=
  ss ← all_segments events from days zone; Some (first_seen (map sg_date ss)).
End Events.

(** ** Lanes *)

Section Lanes.
Implicit Types (s : Segment) (b : Block) (l : list Block) (t : Z).

Abbreviation starts b := (sg_startMin (bk_segment b)).
Abbreviation ends b := (sg_endMin (bk_segment b)).

(** A block that runs at a minute of the day. *)
Definition running t b : Prop := starts b <= t < ends b.
#[global] Instance running_dec t b : Decision (running t b).
Proof. apply _. Defined.

(** An earlier and a later block of a column that may not overlap. *)
Definition apart b b' : Prop := bk_cluster b <> bk_cluster b' \/ bk_lane b = bk_lane b' -> ends b <= starts b'.

(** Every lane of a cluster is taken at one time. *)
Definition full (n : nat) l : Prop := exists t, forall k, (k < n)%nat -> exists b, b ∈ l /\ bk_lane b = k /\ running t b.

(** A block that is not the first of its cluster starts while another runs. *)
Definition linked l : Prop := forall pre b post, l = pre ++ b :: post ->
  (exists b', b' ∈ pre /\ bk_cluster b' = bk_cluster b) -> exists b', b' ∈ pre /\ bk_cluster b' = bk_cluster b /\ starts b < ends b'.

Definition nonempty s : Prop := sg_startMin s < sg_endMin s.

(** The open cluster [c] with [laneEnds], its last start and its end. *)
Record open_cluster (c : Z) l (laneEnds : list Z) (cur stop : Z) : Prop := {
  oc_id : forall b, b ∈ l -> bk_cluster b = c;
  oc_apart : StronglySorted apart l;
  oc_linked : linked l;
  oc_lane : forall b, b ∈ l -> (bk_lane b < length laneEnds)%nat;
  oc_last : forall k e, laneEnds !! k = Some e -> (exists b, b ∈ l /\ bk_lane b = k /\ ends b = e) /\
    forall b, b ∈ l -> bk_lane b = k -> ends b <= e \/ ends b <= cur;
  oc_start : forall b, b ∈ l -> starts b <= cur;
  oc_stop : (forall b, b ∈ l -> ends b <= stop) /\ (stop = -1 \/ exists b, b ∈ l /\ stop = ends b);
  oc_full : (forall b, b ∈ l -> nonempty (bk_segment b)) -> full (length laneEnds) l;
}.

Lemma free_lane_some start laneEnds k : free_lane start laneEnds = Some k -> exists e, laneEnds !! k = Some e /\ e <= start.
Proof.
  revert k. induction laneEnds as [|e l IH]; intros k; cbn [free_lane]; [done|]. destruct (Z.leb_spec e start).
  - intros [= <-]. by exists e.
  - destruct (free_lane start l) as [k'|]; [|done]. intros [= <-]. by apply IH.
Qed.

Lemma free_lane_none start laneEnds k e : free_lane start laneEnds = None -> laneEnds !! k = Some e -> start < e.
Proof.
  revert k. induction laneEnds as [|e' l IH]; intros k; cbn [free_lane]; [done|]. destruct (Z.leb_spec e' start); [done|].
  destruct (free_lane start l) as [k'|] eqn:E; [done|]. intros _. destruct k as [|k]; [by intros [= <-]|]. by apply IH.
Qed.

Lemma take_lane_ends s laneEnds lane new : take_lane s laneEnds = (lane, new) ->
  new !! lane = Some (sg_endMin s) /\ (forall k, k <> lane -> (k < length new)%nat -> new !! k = laneEnds !! k) /\ (lane < length new)%nat /\
  (length laneEnds <= length new)%nat /\
  ((exists e, laneEnds !! lane = Some e /\ e <= sg_startMin s /\ length new = length laneEnds) \/
   (laneEnds !! lane = None /\ length new = Datatypes.S (length laneEnds) /\ lane = length laneEnds /\ forall k e, laneEnds !! k = Some e -> sg_startMin s < e)).
Proof.
  unfold take_lane. destruct (free_lane (sg_startMin s) laneEnds) as [k|] eqn:E; intros [= <- <-].
  - apply free_lane_some in E as (e & He & Hle). pose proof (lookup_lt_Some _ _ _ He) as Hlt. rewrite length_insert.
    split_and!; [by apply list_lookup_insert_eq|intros k' Hk' _; by apply list_lookup_insert_ne|done|done|]. left. by exists e.
  - rewrite length_app. cbn [length]. split_and!; [by rewrite lookup_app_r, Nat.sub_diag by lia| |lia|lia|].
    + intros k Hk Hl. apply lookup_app_l. lia.
    + right. split_and!; [by apply lookup_ge_None|lia|done|]. intros k e He. by eapply free_lane_none.
Qed.

Lemma linked_snoc l b : linked l -> ((exists b', b' ∈ l /\ bk_cluster b' = bk_cluster b) -> exists b', b' ∈ l /\ bk_cluster b' = bk_cluster b /\ starts b < ends b') ->
  linked (l ++ [b]).
Proof.
  intros Hl Hb pre x post. destruct post as [|y post] using rev_ind.
  - intros [<- <-]%app_inj_tail. exact Hb.
  - rewrite app_comm_cons, app_assoc. intros [E _]%app_inj_tail. by eapply Hl.
Qed.

Lemma full_snoc_same n l b : full n l -> full n (l ++ [b]).
Proof. intros [t Ht]. exists t. intros k Hk. destruct (Ht k Hk) as (b' & ? & ? & ?). exists b'. split_and!; [|done|done]. apply elem_of_app. by left. Qed.

Lemma open_snoc c l laneEnds cur stop s lane new : open_cluster c l laneEnds cur stop -> cur <= sg_startMin s -> 0 <= sg_startMin s ->
  l = [] \/ sg_startMin s < stop -> take_lane s laneEnds = (lane, new) ->
  open_cluster c (l ++ [mkBlock s lane 0 c]) new (sg_startMin s) (Z.max stop (sg_endMin s)).
Proof.
  intros [Hid Hap Hlk Hlane Hlast Hstart [Hst1 Hst2] Hfull] Hcur Hpos Hgo Ht. apply take_lane_ends in Ht as (Hnew & Hother & Hlt & Hle & Hkind).
  assert (Hin : forall b, b ∈ l ++ [mkBlock s lane 0 c] <-> b ∈ l \/ b = mkBlock s lane 0 c) by (intros b; by rewrite elem_of_app, list_elem_of_singleton).
  split.
  - intros b [Hb| ->]%Hin; [by apply Hid|done].
  - apply sorted_app; [done|by repeat constructor|]. intros x y Hx ->%list_elem_of_singleton [Hc|Hc]; [by rewrite (Hid x Hx) in Hc|]. cbn [bk_lane bk_segment] in *.
    destruct Hkind as [(e & He & Hes & _)|(Hn & _ & -> & _)].
    + destruct (Hlast lane e He) as [_ H]. destruct (H x Hx Hc); lia.
    + specialize (Hlane x Hx). lia.
  - apply linked_snoc; [done|]. intros (b & Hb & _). cbn [bk_cluster bk_segment]. destruct Hgo as [->|Hgo]; [by apply elem_of_nil in Hb|].
    destruct Hst2 as [?|(b' & Hb' & E)]; [lia|]. exists b'. split_and!; [done|by apply Hid|lia].
  - intros b [Hb| ->]%Hin; [specialize (Hlane b Hb); lia|done].
  - intros k e Hk. destruct (decide (k = lane)) as [->|Hne].
    + rewrite Hnew in Hk. injection Hk as <-. split; [exists (mkBlock s lane 0 c); split_and!; [apply Hin; by right|done|done]|].
      intros b [Hb| ->]%Hin Hkb; [|left; cbn; lia]. right. destruct Hkind as [(e & He & Hes & _)|(Hn & _ & -> & _)].
      * destruct (Hlast lane e He) as [_ H]. destruct (H b Hb Hkb); lia.
      * specialize (Hlane b Hb). lia.
    + rewrite Hother in Hk; [|done|by eapply lookup_lt_Some]. destruct (Hlast k e Hk) as [(b & Hb & Hkb & Hbe) H]. split.
      * exists b. split_and!; [apply Hin; by left|done|done].
      * intros b' [Hb'| ->]%Hin Hkb'; [|by cbn in Hkb'; subst k]. destruct (H b' Hb' Hkb'); [by left|right; lia].
  - intros b [Hb| ->]%Hin; [specialize (Hstart b Hb); lia|cbn; lia].
  - split.
    + intros b [Hb| ->]%Hin; [specialize (Hst1 b Hb); lia|cbn; lia].
    + destruct (Z.max_spec stop (sg_endMin s)) as [[_ ->]|[_ ->]]; [right; exists (mkBlock s lane 0 c); split; [apply Hin; by right|done]|].
      destruct Hst2 as [?|(b & Hb & E)]; [by left|]. right. exists b. split; [apply Hin; by left|done].
  - intros Hne. assert (Hne' : forall b, b ∈ l -> nonempty (bk_segment b)) by (intros b Hb; apply Hne, Hin; by left).
    specialize (Hfull Hne'). destruct Hkind as [(e & _ & _ & ->)|(_ & El & -> & Hrun)]; [by apply full_snoc_same|].
    exists (sg_startMin s). intros k Hk. destruct (decide (k = length laneEnds)) as [->|Hkn].
    + eexists. split_and!; [apply Hin; by right|done|]. split; cbn; [lia|]. apply (Hne (mkBlock s (length laneEnds) 0 c)). apply Hin. by right.
    + destruct (lookup_lt_is_Some_2 laneEnds k) as [e He]; [lia|]. destruct (Hlast k e He) as [(b & Hb & Hkb & Hbe) _]. exists b.
      split_and!; [apply Hin; by left|done|]. split; [specialize (Hstart b Hb); lia|]. specialize (Hrun k e He). lia.
Qed.

(** Blocks of clusters that are closed. *)
Record closed_ok l : Prop := {
  cl_apart : StronglySorted apart l;
  cl_linked : linked l;
  cl_lane : forall b, b ∈ l -> (bk_lane b < bk_lanes b)%nat;
  cl_lanes : forall b b', b ∈ l -> b' ∈ l -> bk_cluster b = bk_cluster b' -> bk_lanes b = bk_lanes b';
  cl_full : (forall b, b ∈ l -> nonempty (bk_segment b)) -> forall b, b ∈ l ->
    exists t, forall k, (k < bk_lanes b)%nat -> exists b', b' ∈ l /\ bk_cluster b' = bk_cluster b /\ bk_lane b' = k /\ running t b';
}.

Record packed_to (p : Packing) (done : list Segment) (cur : Z) : Prop := {
  pt_done : map bk_segment (pk_out p ++ pk_cluster p) = done;
  pt_open : open_cluster (pk_clusters p) (pk_cluster p) (pk_ends p) cur (pk_end p);
  pt_out : closed_ok (pk_out p);
  pt_before : forall b, b ∈ pk_out p -> bk_cluster b < pk_clusters p /\ ends b <= cur /\ forall b', b' ∈ pk_cluster p -> ends b <= starts b';
}.

(** A block with the lanes of its cluster. *)
Definition with_lanes (n : nat) b : Block := mkBlock (bk_segment b) (bk_lane b) n (bk_cluster b).

Lemma elem_with_lanes n l b : b ∈ map (with_lanes n) l <-> exists b', b' ∈ l /\ b = with_lanes n b'.
Proof. rewrite list_elem_of_fmap. naive_solver. Qed.

Lemma apart_with_lanes n l : StronglySorted apart l -> StronglySorted apart (map (with_lanes n) l).
Proof.
  induction 1 as [|b l Hl IH Hb]; cbn [map]; constructor; [done|]. apply Forall_forall. intros x (y & Hy & ->)%elem_with_lanes.
  rewrite Forall_forall in Hb. exact (Hb y Hy).
Qed.

Lemma linked_with_lanes n l : linked l -> linked (map (with_lanes n) l).
Proof.
  intros Hl pre b post E (b' & Hb' & Hc). apply map_eq_app in E as (pre0 & l0 & -> & <- & E). apply map_eq_cons in E as (b0 & post0 & -> & <- & <-).
  apply elem_with_lanes in Hb' as (x & Hx & ->). destruct (Hl pre0 b0 post0 eq_refl) as (y & Hy & Hyc & Hyr); [by exists x|].
  exists (with_lanes n y). split; [|done]. apply elem_with_lanes. by exists y.
Qed.

Lemma linked_app l k : linked l -> linked k -> (forall b b', b ∈ l -> b' ∈ k -> bk_cluster b <> bk_cluster b') -> linked (l ++ k).
Proof.
  intros Hl Hk Hne pre b post E (b' & Hb' & Hc). apply app_eq_app in E as (m & [[-> E]|[-> E]]).
  - destruct m as [|x m]; cbn [app] in E.
    + rewrite app_nil_r in *. exfalso. apply (Hne b' b); [done|rewrite <-E; by left|done].
    + injection E as <- ->. apply (Hl pre b m eq_refl). by exists b'.
  - apply elem_of_app in Hb' as [Hb'|Hb'].
    + exfalso. apply (Hne b' b); [done|rewrite E; apply elem_of_app; right; by left|done].
    + destruct (Hk m b post E) as (y & Hy & ?); [by exists b'|]. exists y. split; [apply elem_of_app; by right|done].
Qed.

Lemma close_closed p done cur : packed_to p done cur -> closed_ok (pk_out (close p)) /\ map bk_segment (pk_out (close p)) = done /\
  (forall b, b ∈ pk_out (close p) -> bk_cluster b < pk_clusters p + 1 /\ (ends b <= cur \/ ends b <= pk_end p)).
Proof.
  intros [Hdone [Hid Hap Hlk Hlane Hlast Hstart [Hst1 _] Hfull] [O1 O2 O3 O4 O5] Hbef]. unfold close. cbn [pk_out]. fold (with_lanes (length (pk_ends p))).
  set (n := length (pk_ends p)) in *. change (map _ (pk_cluster p)) with (map (with_lanes n) (pk_cluster p)).
  assert (Hne : forall b b', b ∈ pk_out p -> b' ∈ map (with_lanes n) (pk_cluster p) -> bk_cluster b <> bk_cluster b').
  { intros b b' Hb (x & Hx & ->)%elem_with_lanes. cbn. rewrite (Hid x Hx). apply Hbef in Hb. lia. }
  split; [split|split].
  - apply sorted_app; [done|by apply apart_with_lanes|]. intros b b' Hb (x & Hx & ->)%elem_with_lanes _. cbn. by apply (Hbef b Hb).
  - apply linked_app; [done|by apply linked_with_lanes|done].
  - intros b [Hb|(x & Hx & ->)%elem_with_lanes]%elem_of_app; [by apply O3|]. cbn. by apply Hlane.
  - intros b b' [Hb|Hb]%elem_of_app [Hb'|Hb']%elem_of_app Hc; [by apply O4|exfalso; by apply (Hne b b')|exfalso; by apply (Hne b' b)|].
    apply elem_with_lanes in Hb as (x & _ & ->), Hb' as (y & _ & ->). done.
  - intros Hall b [Hb|Hb]%elem_of_app.
    + destruct (O5 (fun x Hx => Hall x (proj2 (elem_of_app _ _ _) (or_introl Hx))) b Hb) as [t Ht]. exists t. intros k Hk.
      destruct (Ht k Hk) as (y & Hy & ?). exists y. split; [apply elem_of_app; by left|done].
    + apply elem_with_lanes in Hb as (x & Hx & ->). destruct Hfull as [t Ht].
      { intros y Hy. apply (Hall (with_lanes n y)). apply elem_of_app. right. apply elem_with_lanes. by exists y. }
      exists t. intros k Hk. destruct (Ht k Hk) as (y & Hy & Hyk & Hr). exists (with_lanes n y). split.
      { apply elem_of_app. right. apply elem_with_lanes. by exists y. }
      split; [cbn; by rewrite (Hid y Hy), (Hid x Hx)|done].
  - rewrite <-Hdone, !map_app. f_equal. by rewrite map_map.
  - intros b [Hb|(x & Hx & ->)%elem_with_lanes]%elem_of_app.
    + apply Hbef in Hb as (? & ? & _). split; [lia|by left].
    + cbn. rewrite (Hid x Hx). split; [lia|right; by apply Hst1].
Qed.

Lemma open_empty c cur : open_cluster c [] [] cur (-1).
Proof.
  split; try (by intros b ?%elem_of_nil); try done.
  - constructor.
  - intros [|x pre] b post; done.
  - split; [by intros b ?%elem_of_nil|by left].
  - intros _. exists 0. intros k Hk. cbn in Hk. lia.
Qed.

Lemma open_later c l laneEnds cur cur' stop : open_cluster c l laneEnds cur stop -> cur <= cur' -> open_cluster c l laneEnds cur' stop.
Proof.
  intros [H1 H2 H3 H4 H5 H6 H7 H8] Hle. split; try done.
  - intros k e He. destruct (H5 k e He) as [Ha Hb]. split; [done|]. intros b Hin Hk. destruct (Hb b Hin Hk); [by left|right; lia].
  - intros b Hb. specialize (H6 b Hb). lia.
Qed.

Lemma settle_packed p done cur s : packed_to p done cur -> cur <= sg_startMin s ->
  packed_to (settle p s) done (sg_startMin s) /\ (pk_cluster (settle p s) = [] \/ sg_startMin s < pk_end (settle p s)).
Proof.
  intros Hp Hle. assert (Hkeep : packed_to p done (sg_startMin s)).
  { destruct Hp as [H1 H2 H3 H4]. split; [done|by eapply open_later|done|]. intros b Hb. destruct (H4 b Hb) as (? & ? & ?). split_and!; [done|lia|done]. }
  unfold settle. destruct (pk_cluster p) as [|x l] eqn:El; [split; [done|by left]|]. destruct (Z.leb_spec (pk_end p) (sg_startMin s)) as [Hstop|Hstop]; [|by split; [|right]].
  destruct (close_closed p done (sg_startMin s) Hkeep) as (Hc & Hd & Hb). split; [|by left]. split; cbn [pk_out pk_cluster pk_ends pk_end pk_clusters close] in *.
  - by rewrite app_nil_r.
  - apply open_empty.
  - done.
  - intros b Hin. destruct (Hb b Hin) as [? Hor]. split_and!; [done|lia|by intros b' ?%elem_of_nil].
Qed.

Lemma pack_packed p done cur s : packed_to p done cur -> cur <= sg_startMin s -> 0 <= sg_startMin s ->
  packed_to (pack p s) (done ++ [s]) (sg_startMin s).
Proof.
  intros Hp Hle Hpos. destruct (settle_packed p done cur s Hp Hle) as [[H1 H2 H3 H4] Hgo]. unfold pack.
  destruct (take_lane s (pk_ends (settle p s))) as [lane new] eqn:Et. split; cbn [pk_out pk_cluster pk_ends pk_end pk_clusters].
  - by rewrite app_assoc, map_app, H1.
  - apply open_snoc with (laneEnds := pk_ends (settle p s)) (cur := sg_startMin s); [done|lia|done|done|done].
  - done.
  - intros b Hb. destruct (H4 b Hb) as (? & ? & H). split_and!; [done|done|]. intros b' [Hb'| ->%list_elem_of_singleton]%elem_of_app; [by apply H|done].
Qed.

Lemma sorted_snoc_inv {A} (R : A -> A -> Prop) k x : StronglySorted R (k ++ [x]) -> StronglySorted R k /\ forall y, y ∈ k -> R y x.
Proof.
  induction k as [|z k IH]; cbn [app]; intros H; [split; [constructor|by intros y ?%elem_of_nil]|].
  inversion H as [|? ? H1 H2]; subst. destruct (IH H1) as [Hk Hx]. apply Forall_app in H2 as [H2 H3]. split; [by constructor|].
  intros y [->|Hy]%elem_of_cons; [by inversion H3|by apply Hx].
Qed.

Lemma closed_nil : closed_ok [].
Proof. split; [constructor|by intros [|]|by intros b ?%elem_of_nil|by intros b b' ?%elem_of_nil|by intros ? b ?%elem_of_nil]. Qed.

Lemma packColumn_closed (sorted : list Segment) : StronglySorted (fun s s' => sg_startMin s <= sg_startMin s') sorted ->
  Forall (fun s => 0 <= sg_startMin s) sorted -> map bk_segment (packColumn sorted) = sorted /\ closed_ok (packColumn sorted).
Proof.
  intros Hs Hpos. assert (H : exists cur, packed_to (fold_left pack sorted (mkPacking [] [] [] (-1) 0)) sorted cur /\ cur = from_option sg_startMin 0 (last sorted)).
  { induction sorted as [|s sorted IH] using rev_ind.
    - exists 0. split; [|done]. split; cbn; [done|apply open_empty| |by intros b ?%elem_of_nil].
      apply closed_nil.
    - apply Forall_app in Hpos as [Hpos1 Hpos2]. apply sorted_snoc_inv in Hs as [Hs Hcross].
      destruct (IH Hs Hpos1) as (cur & Hp & Ecur). exists (sg_startMin s). split; [|by rewrite last_snoc].
      rewrite fold_left_app. cbn [fold_left]. apply (pack_packed _ _ cur); [done| |by inversion Hpos2]. subst cur.
      destruct (last sorted) as [y|] eqn:El; cbn; [|by inversion Hpos2]. apply Hcross. by apply last_Some_elem_of. }
  destruct H as (cur & Hp & _). unfold packColumn. set (p := fold_left pack sorted _) in *.
  destruct (pk_cluster p) as [|x l] eqn:El.
  - destruct Hp as [H1 _ H3 _]. rewrite El, app_nil_r in H1. done.
  - by destruct (close_closed p sorted cur Hp) as (? & ? & _).
Qed.

(** The blocks of a cluster that run at a time. *)
Definition together (c t : Z) l : list Block := filter (fun b => bk_cluster b = c /\ running t b) l.

Lemma together_lanes c t l : StronglySorted apart l -> NoDup (map bk_lane (together c t l)).
Proof.
  induction 1 as [|b l Hl IH Hb]; [constructor|]. unfold together in *. rewrite filter_cons. destruct (decide _) as [[Hc Hr]|]; [|exact IH].
  cbn [map]. apply NoDup_cons. split; [|exact IH]. intros (b' & Hk & Hin)%list_elem_of_fmap. apply list_elem_of_filter in Hin as [[Hc' Hr'] Hin].
  rewrite Forall_forall in Hb. specialize (Hb b' Hin (or_intror Hk)). unfold running in *. lia.
Qed.

Lemma together_most l b : closed_ok l -> b ∈ l ->
  (forall t, (length (together (bk_cluster b) t l) <= bk_lanes b)%nat) /\
  ((forall b', b' ∈ l -> nonempty (bk_segment b')) -> exists t, length (together (bk_cluster b) t l) = bk_lanes b).
Proof.
  intros [H1 H2 H3 H4 H5] Hb. assert (Hle : forall t, (length (together (bk_cluster b) t l) <= bk_lanes b)%nat).
  { intros t. rewrite <-(length_map bk_lane), <-(length_seq (bk_lanes b) 0). apply NoDup_incl_length; [by apply NoDup_ListNoDup, together_lanes|].
    intros k Hk. apply in_map_iff in Hk as (b' & <- & Hin). apply list_elem_of_In, list_elem_of_filter in Hin as [[Hc _] Hin].
    apply in_seq. specialize (H3 b' Hin). rewrite (H4 b' b Hin Hb Hc) in H3. lia. }
  split; [done|]. intros Hne. destruct (H5 Hne b Hb) as [t Ht]. exists t. apply Nat.le_antisymm; [done|].
  rewrite <-(length_seq (bk_lanes b) 0) at 1. rewrite <-(length_map bk_lane (together _ _ _)). apply NoDup_incl_length; [apply seq_NoDup|].
  intros k Hk. apply in_seq in Hk. destruct (Ht k) as (b' & Hin & Hc & <- & Hr); [lia|]. apply in_map, list_elem_of_In, list_elem_of_filter. done.
Qed.
End Lanes.

(** ** Pieces of events *)

Section Dates.
Context (other : jstr -> option Z).

Lemma dates_days go n m fuel : day_ok n -> day_ok m -> (forall k, day_ok k -> n <= k -> go (day_key k) = (k <? m)) ->
  (Z.to_nat (m - n) < fuel)%nat -> dates other fuel go (day_key n) = Some (map day_key (seqZ n (m - n))).
Proof.
  revert n. induction fuel as [|fuel IH]; intros n Hn Hm Hgo Hf; [lia|]. cbn [dates]. rewrite Hgo by (done || lia).
  destruct (Z.ltb_spec n m) as [Hlt|Hge].
  - assert (Hn1 : day_ok (n + 1)) by (unfold day_ok in *; lia). rewrite addDays_shift by done. cbn [mbind option_bind].
    rewrite IH; [|done|done|intros k Hk Hle; apply Hgo; [done|lia]|lia]. cbn [mbind option_bind]. rewrite (seqZ_cons n) by lia. cbn [map].
    do 3 f_equal. f_equal; lia.
  - rewrite seqZ_nil by lia. done.
Qed.
End Dates.

(** Numbered elements of which some are kept. *)
Lemma omap_days {B} (g : jstr -> bool) (h : Z -> jstr -> B) n (len : nat) (j : Z) :
  omap (fun p : Z * jstr => if g p.2 then Some (h p.1 p.2) else None) (imap (fun i d => (j + Z.of_nat i, d)) (map day_key (seqZ n (Z.of_nat len)))) =
  map (fun k => h (k - n + j) (day_key k)) (filter (fun k => g (day_key k) = true) (seqZ n (Z.of_nat len))).
Proof.
  revert n j. induction len as [|len IH]; intros n j; [done|]. rewrite (seqZ_cons n) by lia. replace (Z.pred (Z.of_nat (Datatypes.S len))) with (Z.of_nat len) by lia.
  cbn [map imap omap list_omap fst snd]. rewrite filter_cons.
  assert (Himap : imap ((fun i d => (j + Z.of_nat i, d)) ∘ Datatypes.S) (map day_key (seqZ (Z.succ n) (Z.of_nat len))) =
    imap (fun i d => (j + 1 + Z.of_nat i, d)) (map day_key (seqZ (Z.succ n) (Z.of_nat len)))).
  { apply imap_ext. intros i d _. unfold compose. f_equal. lia. }
  rewrite Himap. destruct (g (day_key n)) eqn:Eg; [rewrite decide_True by done|rewrite decide_False by done].
  - cbn [map]. f_equal; [f_equal; lia|]. change (omap ?f ?l) with (list_omap _ _ f l) in IH. rewrite IH. apply map_ext. intros k. f_equal. lia.
  - rewrite IH. apply map_ext. intros k. f_equal. lia.
Qed.

Lemma omap_same {A B} (f g : A -> option B) (l : list A) : (forall x, x ∈ l -> f x = g x) -> omap f l = omap g l.
Proof.
  induction l as [|x l IH]; intros H; [done|]. cbn. rewrite (H x) by (by left). change (list_omap _ _ ?h ?k) with (omap h k).
  rewrite IH by (intros y Hy; apply H; by right). done.
Qed.

Lemma filter_same {A} (P Q : A -> Prop) `{!forall x, Decision (P x), !forall x, Decision (Q x)} (l : list A) :
  (forall x, x ∈ l -> P x <-> Q x) -> filter P l = filter Q l.
Proof.
  induction l as [|x l IH]; intros Hx; [done|]. rewrite !filter_cons, IH by (intros y Hy; apply Hx; by right).
  assert (P x <-> Q x) by (apply Hx; by left). by destruct (decide (P x)), (decide (Q x)); try tauto.
Qed.

Section Segments.
Context (other : jstr -> option Z) (Intl : jstr -> option (Z -> option Parts)) (tz : jstr) (off : Z -> Z) (Hlaw : zone_law Intl tz off).
Context (Hmin : forall t, off t mod MINUTE = 0).
Implicit Types (value : Json) (event : CalEvent).

Abbreviation clock := (Zones.wall off).

(** An instant whose day there, and those around it, have texts. *)
Definition near (t : Z) : Prop := FIRST <= t < LAST /\ day_inside (clock t / DAY).

(** The minutes of the wall clock that an event takes, counted from a fixed day:
    from [S] up to [E]. *)
Inductive spans value : Z -> Z -> Prop :=
| span_days a z : is_all_day value = true -> field "start" value = day_key a -> field "end" value = day_key z ->
    day_inside a -> day_inside z -> a < z -> spans value (a * 1440) (z * 1440)
| span_times s e : is_all_day value = false -> Date_parse other (field "start" value) = Some s -> Date_parse other (field "end" value) = Some e ->
    s < e -> near s -> near e -> spans value (clock s / MINUTE) (clock e / MINUTE).

(** The number of days that are touched, from the first. *)
Definition touched (S E : Z) : Z := (E - 1) / 1440 - S / 1440 + 1.

(** The piece of an event on a day. *)
Definition piece event (S E k : Z) : Segment :=
  let startMin := Z.max 0 (S - k * 1440) in
  let endMin := Z.min 1440 (E - k * 1440) in
  mkSegment event (day_key k) (is_all_day (ev_value event) || (1 <? touched S E) && (startMin =? 0) && (endMin =? 1440)) startMin endMin
    (if 1 <? touched S E then Some (k - S / 1440 + 1, touched S E) else None).

Lemma kept_days f c n len : day_ok f -> day_ok (f + c) -> (forall k, k ∈ seqZ n len -> day_ok k) ->
  filter (fun k => negb (jltb (day_key k) (day_key f)) && jltb (day_key k) (day_key (f + c)) = true) (seqZ n len) = filter (fun k => f <= k < f + c) (seqZ n len).
Proof.
  intros Hf Hc Hk. apply filter_same. intros k Hin. specialize (Hk k Hin). rewrite !day_key_order by done.
  destruct (Z.ltb_spec k f), (Z.ltb_spec k (f + c)); cbn; split; try done; lia.
Qed.

Lemma inside_ok n : day_inside n -> day_ok n /\ day_ok (n - 1) /\ day_ok (n + 1).
Proof. unfold day_inside, day_ok. lia. Qed.

Lemma days_between_ok n m k : day_inside n -> day_inside m -> k ∈ seqZ n (m - n) -> day_ok k.
Proof. unfold day_inside, day_ok. intros ? ? Hk%elem_of_seqZ. lia. Qed.

Lemma all_day_pieces event f c fuel a z : is_all_day (ev_value event) = true -> field "start" (ev_value event) = day_key a -> field "end" (ev_value event) = day_key z ->
  day_inside a -> day_inside z -> a < z -> day_ok f -> day_ok (f + c) -> (Z.to_nat (z - a) < fuel)%nat ->
  segments other Intl fuel event (day_key f) c tz = Some (map (piece event (a * 1440) (z * 1440)) (filter (fun k => f <= k < f + c) (seqZ a (z - a)))).
Proof using Hlaw Hmin.
  intros Had Hs He Ha Hz Haz Hf Hc Hfuel. destruct (inside_ok a Ha) as (Ha0 & _ & _), (inside_ok z Hz) as (Hz0 & _ & _).
  unfold segments, bounds. rewrite addDays_shift by done. cbn [mbind option_bind]. rewrite Had, Hs, He, !midnight_day by done. cbn [num_ltb].
  rewrite (proj2 (Z.ltb_lt _ _)) by (unfold DAY; lia). rewrite !(instant_law other Intl tz off Hlaw Hmin) by (done || lia). cbn [mbind option_bind].
  rewrite (dates_days other _ a z) by (done || intros k Hk _; by rewrite day_key_order). cbn [mbind option_bind]. f_equal.
  rewrite daysBetween_day by done. replace (z - a) with (Z.of_nat (Z.to_nat (z - a))) by lia.
  etransitivity; [|rewrite <-(kept_days f c a) by (done || (intros k Hk; replace (Z.of_nat (Z.to_nat (z - a))) with (z - a) in Hk by lia; by apply (days_between_ok a z))); reflexivity].
  etransitivity; [apply (omap_days (fun d => negb (jltb d (day_key f)) && jltb d (day_key (f + c)))
    (fun i d => mkSegment event d true 0 1440 (day_of_total (i + 1) (Some (Z.of_nat (Z.to_nat (z - a)))))) a (Z.to_nat (z - a)) 0)|].
  apply map_ext_in. intros k Hk. apply list_elem_of_In, list_elem_of_filter in Hk as [_ Hk%elem_of_seqZ]. unfold piece, touched. rewrite Had.
  assert (((z * 1440 - 1) / 1440 - a * 1440 / 1440 + 1 = z - a) /\ a * 1440 / 1440 = a) as [-> ->] by (split; dlia).
  rewrite Z2Nat.id by lia. rewrite Z.max_l, Z.min_l by lia. cbn [orb day_of_total mbind option_bind]. f_equal. destruct (1 <? z - a); [|done]. do 2 f_equal. lia.
Qed.

Lemma near_shows t : near t -> CalendarTime.shows off t.
Proof. intros [H1 H2]. split; [done|]. by apply inside_ok. Qed.

(** The day and the minute of a minute of the wall clock. *)
Lemma minute_split t : clock t / MINUTE / 1440 = clock t / DAY /\ clock t mod DAY / MINUTE = clock t / MINUTE - clock t / DAY * 1440.
Proof. unfold DAY, MINUTE. split; dlia. Qed.

Lemma last_day E : (E - 1) / 1440 = if E - E / 1440 * 1440 =? 0 then E / 1440 - 1 else E / 1440.
Proof. destruct (Z.eqb_spec (E - E / 1440 * 1440) 0); dlia. Qed.

Lemma seqZ_nat n len : seqZ n len = seqZ n (Z.of_nat (Z.to_nat len)).
Proof. unfold seqZ. by rewrite Nat2Z.id. Qed.

Lemma jeqb_day n k : day_ok n -> day_ok k -> jeqb (day_key n) (day_key k) = (n =? k).
Proof.
  intros Hn Hk. unfold jeqb. destruct (Z.eqb_spec n k) as [->|Hne]; [by apply bool_decide_eq_true|].
  apply bool_decide_eq_false. intros E. by apply (day_key_inj (fun _ => None)) in E.
Qed.

Lemma timed_pieces event f c fuel s e : is_all_day (ev_value event) = false -> Date_parse other (field "start" (ev_value event)) = Some s ->
  Date_parse other (field "end" (ev_value event)) = Some e -> s < e -> near s -> near e -> day_ok f -> day_ok (f + c) ->
  let S := clock s / MINUTE in let E := clock e / MINUTE in (Z.to_nat (touched S E) < fuel)%nat ->
  segments other Intl fuel event (day_key f) c tz = Some (map (piece event S E) (filter (fun k => f <= k < f + c) (seqZ (S / 1440) (touched S E)))).
Proof using Hlaw.
  intros Had Hs He Hse Hns Hne Hf Hc S E Hfuel. unfold segments, bounds. rewrite addDays_shift by done. cbn [mbind option_bind].
  rewrite Had, Hs, He. cbn [num_ltb]. rewrite (proj2 (Z.ltb_lt _ _)) by done. cbn [mbind option_bind b_start b_end].
  rewrite !(wall_law Intl tz off Hlaw) by (by apply near_shows). cbn [mbind option_bind w_date w_minutes].
  destruct (minute_split s) as [ES1 ES2], (minute_split e) as [EE1 EE2]. fold S in ES1, ES2. fold E in EE1, EE2. rewrite ES2, EE2, <-ES1, <-EE1.
  destruct (inside_ok (S / 1440)) as (H1 & _ & _); [rewrite ES1; apply Hns|]. destruct (inside_ok (E / 1440)) as (H2 & H3 & H4); [rewrite EE1; apply Hne|].
  clear ES1 ES2 EE1 EE2 Hns Hne Hse Hs He. clearbody S E.
  assert (Hlast : (if E - E / 1440 * 1440 =? 0 then addDays other (day_key (E / 1440)) (-1) else Some (day_key (E / 1440))) = Some (day_key ((E - 1) / 1440)) /\
    day_ok ((E - 1) / 1440) /\ day_ok ((E - 1) / 1440 + 1)).
  { rewrite last_day. destruct (E - E / 1440 * 1440 =? 0); [|done]. rewrite addDays_shift by done. split_and!; [done|done|]. by replace (E / 1440 - 1 + 1) with (E / 1440) by lia. }
  destruct Hlast as (Hlast & Hl1 & Hl2).
  lazymatch goal with |- context [if ?b then addDays ?o ?x ?m else ?y] =>
    replace (if b then addDays o x m else y) with (Some (day_key ((E - 1) / 1440))) by (symmetry; exact Hlast) end. cbn [mbind option_bind].
  rewrite (dates_days other _ (S / 1440) ((E - 1) / 1440 + 1)); [|done|done| |replace ((E - 1) / 1440 + 1 - S / 1440) with (touched S E) by (unfold touched; lia); done].
  2: { intros k Hk _. rewrite day_key_order by done. destruct (Z.ltb_spec ((E - 1) / 1440) k), (Z.ltb_spec k ((E - 1) / 1440 + 1)); cbn; lia. }
  cbn [mbind option_bind]. f_equal. rewrite daysBetween_day by done. cbn [num_op].
  replace ((E - 1) / 1440 + 1 - S / 1440) with (touched S E) by (unfold touched; lia).
  replace ((E - 1) / 1440 - S / 1440 + 1) with (touched S E) by (unfold touched; lia).
  pose (h := fun (i : Z) (d : jstr) =>
       let startMin := if jeqb d (day_key (S / 1440)) then S - S / 1440 * 1440 else 0 in
       let endMin := if jeqb d (day_key (E / 1440)) then E - E / 1440 * 1440 else 1440 in
       mkSegment event d (num_ltb (Some 1) (Some (touched S E)) && (startMin =? 0) && (endMin =? 1440)) startMin endMin
         (day_of_total (i + 1) (Some (touched S E)))).
  etransitivity; [apply (omap_same _ (fun p : Z * jstr => if negb (jltb p.2 (day_key f)) && jltb p.2 (day_key (f + c)) then Some (h p.1 p.2) else None))|].
  { intros [i d] _. cbn [fst snd]. by destruct (jltb d (day_key f)), (jltb d (day_key (f + c))). }
  assert (Hrange : forall k, k ∈ seqZ (S / 1440) (touched S E) -> day_ok k /\ S / 1440 <= k <= (E - 1) / 1440).
  { intros k Hk%elem_of_seqZ. unfold touched, day_ok in *. lia. }
  rewrite <-(kept_days f c) by (done || (intros k Hk; by apply Hrange)). rewrite seqZ_nat.
  etransitivity; [apply (omap_days (fun d => negb (jltb d (day_key f)) && jltb d (day_key (f + c))) h (S / 1440) (Z.to_nat (touched S E)) 0)|].
  apply map_ext_in. intros k Hk. apply list_elem_of_In, list_elem_of_filter in Hk as [_ Hk]. rewrite <-seqZ_nat in Hk. apply Hrange in Hk as [Hk Hr].
  unfold piece, h. rewrite Had. cbn [orb num_ltb day_of_total mbind option_bind]. rewrite !jeqb_day by done.
  assert ((if k =? S / 1440 then S - S / 1440 * 1440 else 0) = Z.max 0 (S - k * 1440)) as -> by (destruct (Z.eqb_spec k (S / 1440)); dlia).
  assert ((if k =? E / 1440 then E - E / 1440 * 1440 else 1440) = Z.min 1440 (E - k * 1440)) as -> by (destruct (Z.eqb_spec k (E / 1440)); dlia).
  f_equal. destruct (1 <? touched S E); [|done]. do 2 f_equal. lia.
Qed.

Lemma segments_pieces event f c fuel S E : spans (ev_value event) S E -> day_ok f -> day_ok (f + c) -> (Z.to_nat (touched S E) < fuel)%nat ->
  segments other Intl fuel event (day_key f) c tz = Some (map (piece event S E) (filter (fun k => f <= k < f + c) (seqZ (S / 1440) (touched S E)))).
Proof using Hlaw Hmin.
  intros [a z Had Hs He Ha Hz Haz|s e Had Hs He Hse Hns Hne] Hf Hc Hfuel; [|by apply timed_pieces].
  assert (touched (a * 1440) (z * 1440) = z - a /\ a * 1440 / 1440 = a) as [Et Ea] by (unfold touched; split; dlia).
  rewrite Et in Hfuel. rewrite Et, Ea. by apply all_day_pieces.
Qed.

(** What a piece of a day says. *)
Record piece_ok event f c S E (sg : Segment) : Prop := {
  pc_event : sg_event sg = event;
  pc_minutes : 0 <= sg_startMin sg /\ sg_endMin sg <= 1440;
  pc_day : exists k, f <= k < f + c /\ S / 1440 <= k <= (E - 1) / 1440 /\ sg_date sg = day_key k /\
    (sg_allDay sg = true <-> is_all_day (ev_value event) = true \/ 1 < touched S E /\ S <= k * 1440 /\ (k + 1) * 1440 <= E) /\
    sg_dayOf sg = if 1 <? touched S E then Some (k - S / 1440 + 1, touched S E) else None;
}.

Lemma piece_is_ok event f c S E k : f <= k < f + c -> S / 1440 <= k <= (E - 1) / 1440 -> piece_ok event f c S E (piece event S E k).
Proof.
  intros Hk Hr. split; [done|cbn; lia|]. exists k. split_and!; try done; try lia. unfold piece. cbn [sg_allDay].
  destruct (is_all_day (ev_value event)); [split; [by left|done]|]. cbn [orb]. rewrite !andb_true_iff, Z.ltb_lt, !Z.eqb_eq. split; [intros [[? ?] ?]; right; lia|].
  intros [?|?]; [done|lia].
Qed.

Lemma piece_elem event f c S E sg : sg ∈ map (piece event S E) (filter (fun k => f <= k < f + c) (seqZ (S / 1440) (touched S E))) <->
  exists k, f <= k < f + c /\ S / 1440 <= k <= (E - 1) / 1440 /\ sg = piece event S E k.
Proof.
  rewrite list_elem_of_fmap. setoid_rewrite list_elem_of_filter. setoid_rewrite elem_of_seqZ. unfold touched. split.
  - intros (k & -> & ? & ?). exists k. split_and!; try lia; done.
  - intros (k & ? & ? & ->). exists k. split_and!; try lia; done.
Qed.

(** C30 (functional). The pieces of an event say, for each day that is asked for,
    exactly which of its minutes the event takes on the viewer's wall clock: a
    minute of a day is in a piece of that day if and only if it is one from the
    event's start up to its end.  No day has two pieces, an end at midnight
    leaves no piece on the next day, and a piece is drawn as all-day exactly when
    the event is or takes that whole day and another.  [spans] gives the start
    and the end in minutes: an all-day event takes its days up to the last,
    which is excluded, in every zone. *)
Theorem segments_exact event f c fuel S E : spans (ev_value event) S E -> day_ok f -> day_ok (f + c) -> (Z.to_nat (touched S E) < fuel)%nat ->
  exists pieces, segments other Intl fuel event (day_key f) c tz = Some pieces /\ NoDup (map sg_date pieces) /\
    (forall k m, day_ok k -> 0 <= m < 1440 ->
       (exists sg, sg ∈ pieces /\ sg_date sg = day_key k /\ sg_startMin sg <= m < sg_endMin sg) <-> f <= k < f + c /\ S <= k * 1440 + m < E) /\
    forall sg, sg ∈ pieces -> piece_ok event f c S E sg.
Proof using Hlaw Hmin.
  intros Hsp Hf Hc Hfuel. eexists. split; [by apply segments_pieces|].
  assert (Hok : forall k, f <= k < f + c -> day_ok k) by (intros k Hk; unfold day_ok in *; lia). split_and!.
  - rewrite map_map. cbn [piece sg_date]. apply NoDup_fmap_2_strong; [|apply NoDup_filter, NoDup_seqZ].
    intros x y [Hx _]%list_elem_of_filter [Hy _]%list_elem_of_filter Exy. by eapply (day_key_inj other); [apply Hok..|].
  - intros k m Hk Hm. setoid_rewrite piece_elem. split.
    + intros (sg & (k' & Hk' & Hr & ->) & Ed & Hin). cbn [piece sg_date sg_startMin sg_endMin] in *.
      apply (day_key_inj other) in Ed; [|by apply Hok|done]. subst k'. lia.
    + intros [Hk' Hin]. exists (piece event S E k). cbn [piece sg_date sg_startMin sg_endMin]. split_and!; [|done|lia|lia].
      exists k. split_and!; [lia|lia|dlia|dlia|done].
  - intros sg (k & Hk & Hr & ->)%piece_elem. by apply piece_is_ok.
Qed.
End Segments.

(** ** Bars *)

Section Bars.
Implicit Types (event : CalEvent) (q : list (CalEvent * Z)).

Definition pending_cells (b : Pending) : list (CalEvent * Z) := map (fun c => (b.1.1, c)) (cells b.1.2 b.2).

Lemma cells_elem col span c : c ∈ cells col span <-> col <= c < col + span.
Proof.
  unfold cells. rewrite list_elem_of_fmap. setoid_rewrite elem_of_seq. split.
  - intros (i & -> & Hi). lia.
  - intros H. exists (Z.to_nat (c - col)). lia.
Qed.

Lemma cells_snoc col span : 0 <= span -> cells col (span + 1) = cells col span ++ [col + span].
Proof.
  intros H. unfold cells. replace (Z.to_nat (span + 1)) with (Datatypes.S (Z.to_nat span)) by lia. rewrite seq_S, map_app. cbn. do 2 f_equal. lia.
Qed.

Lemma cells_one col : cells col 1 = [col].
Proof. unfold cells. change (Z.to_nat 1) with 1%nat. cbn [seq map]. f_equal. lia. Qed.

(** The bars of one event cover its days, each once and in order. *)
Lemma extend_bars event q bars : Forall (fun p => p.1 = event) q -> Forall (fun b => b.1.1 = event /\ 0 < b.2) bars ->
  let out := fold_left extend_bar q bars in
  concat (map pending_cells out) = concat (map pending_cells bars) ++ q /\ Forall (fun b => b.1.1 = event /\ 0 < b.2) out.
Proof.
  revert bars. induction q as [|[e col] q IH]; intros bars Hq Hb; [by rewrite app_nil_r|]. apply Forall_cons in Hq as [He Hq]. cbn [fst] in He. subst e.
  cbn [fold_left]. enough (concat (map pending_cells (extend_bar bars (event, col))) = concat (map pending_cells bars) ++ [(event, col)] /\
    Forall (fun b => b.1.1 = event /\ 0 < b.2) (extend_bar bars (event, col))) as [E1 E2].
  { destruct (IH _ Hq E2) as [-> ?]. by rewrite E1, <-app_assoc. }
  assert (Hnew : forall bs, Forall (fun b => b.1.1 = event /\ 0 < b.2) bs -> concat (map pending_cells (bs ++ [(event, col, 1)])) = concat (map pending_cells bs) ++ [(event, col)] /\
    Forall (fun b : Pending => b.1.1 = event /\ 0 < b.2) (bs ++ [(event, col, 1)])).
  { intros bs Hbs. rewrite map_app, concat_app. unfold pending_cells at 2. cbn [map concat fst snd]. rewrite cells_one, app_nil_r. split; [done|]. apply Forall_app. split; [done|]. by repeat constructor. }
  unfold extend_bar. destruct bars as [|[[e c] n] bars _] using rev_ind; [by apply (Hnew [])|]. rewrite last_snoc. cbn [fst snd].
  destruct (Z.eqb_spec (c + n) col) as [<-|]; [|by apply Hnew]. rewrite removelast_last.
  apply Forall_app in Hb as [Hb1 Hb2]. apply Forall_cons in Hb2 as [[He Hn] _]. cbn in He, Hn. subst e.
  rewrite !map_app, !concat_app. cbn [map concat]. unfold pending_cells at 2 4. cbn [fst snd]. rewrite cells_snoc, map_app by lia. cbn [map].
  rewrite !app_nil_r, app_assoc. split; [done|]. apply Forall_app. split; [done|]. constructor; [cbn; split; [done|lia]|constructor].
Qed.

(** Two bars of one row do not share a column. *)
Definition beside (b b' : Bar) : Prop := bar_row b = bar_row b' -> forall c, ~ (bar_col b <= c < bar_col b + bar_span b /\ bar_col b' <= c < bar_col b' + bar_span b').

Lemma place_spec wanted occupied occupied' r : place wanted occupied = (occupied', r) ->
  0 <= r < Z.of_nat (length occupied') /\ (length occupied <= length occupied')%nat /\
  (forall i row, occupied !! i = Some row -> exists row', occupied' !! i = Some row' /\ forall c, c ∈ row -> c ∈ row') /\
  (forall row c, occupied !! Z.to_nat r = Some row -> c ∈ row -> c ∉ wanted) /\
  exists row, occupied' !! Z.to_nat r = Some row /\ forall c, c ∈ wanted -> c ∈ row.
Proof.
  revert occupied' r. induction occupied as [|row rest IH]; intros occupied' r; cbn [place].
  - intros [= <- <-]. split_and!; [done|cbn; lia|cbn; lia|done|done|]. by exists wanted.
  - destruct (existsb _ wanted) eqn:Ex.
    + destruct (place wanted rest) as [rest' r'] eqn:E. intros [= <- <-]. destruct (IH _ _ eq_refl) as (H1 & H2 & H3 & H4 & H5).
      replace (Z.to_nat (r' + 1)) with (Datatypes.S (Z.to_nat r')) by lia. split_and!; try (cbn [length]; lia); try done.
      intros [|i] row0; cbn; [intros [= <-]; by exists row|apply H3].
    + intros [= <- <-]. cbn [length]. split_and!; try lia.
      * intros [|i] row0; cbn; [intros [= <-]; eexists; split; [done|]; intros c Hc; apply elem_of_app; by left|by eexists].
      * intros row0 c [= <-] Hc Hw. assert (existsb (fun c => bool_decide (c ∈ row)) wanted = true); [|congruence].
        apply existsb_exists. exists c. split; [by apply list_elem_of_In|by apply bool_decide_eq_true].
      * eexists. split; [done|]. intros c Hc. apply elem_of_app. by right.
Qed.

(** The rows taken, and the bars that take them. *)
Record rows_ok (occupied : list (list Z)) (bars : list Bar) : Prop := {
  ro_beside : StronglySorted beside bars;
  ro_row : forall b, b ∈ bars -> 0 <= bar_row b < Z.of_nat (length occupied) /\
    exists row, occupied !! Z.to_nat (bar_row b) = Some row /\ forall c, bar_col b <= c < bar_col b + bar_span b -> c ∈ row;
}.

Definition of_bar (b : Bar) : Pending := (bar_event b, bar_col b, bar_span b).

Lemma place_bars todo occupied bars : rows_ok occupied bars -> exists occupied' new, fold_left place_bar todo (occupied, bars) = (occupied', bars ++ new) /\
  rows_ok occupied' (bars ++ new) /\ map of_bar new = todo.
Proof.
  revert occupied bars. induction todo as [|[[event col] span] todo IH]; intros occupied bars [H1 H2].
  - exists occupied, []. rewrite app_nil_r. done.
  - cbn [fold_left]. unfold place_bar at 2. cbn [fst snd]. destruct (place (cells col span) occupied) as [occ r] eqn:E.
    destruct (place_spec _ _ _ _ E) as (P1 & P2 & P3 & P4 & row & P5 & P6).
    assert (Hrow : forall b, b ∈ bars -> 0 <= bar_row b < Z.of_nat (length occ) /\
      exists row, occ !! Z.to_nat (bar_row b) = Some row /\ forall c, bar_col b <= c < bar_col b + bar_span b -> c ∈ row).
    { intros b Hb. destruct (H2 b Hb) as (Hr & row0 & Hrow0 & Hc). split; [lia|]. destruct (P3 _ _ Hrow0) as (row' & Hrow' & Hsub). exists row'. split; [done|].
      intros c Hin. by apply Hsub, Hc. }
    destruct (IH occ (bars ++ [mkBar event col span r])) as (occ' & new & -> & Hok & <-).
    + split.
      * apply sorted_app; [done|by repeat constructor|]. intros b b' Hb ->%list_elem_of_singleton Hrr c [Hc1 Hc2]. cbn in Hrr, Hc2.
        destruct (H2 b Hb) as (_ & row0 & Hrow0 & Hc). rewrite Hrr in Hrow0. apply (P4 row0 c Hrow0); [by apply Hc|]. by apply cells_elem.
      * intros b [Hb| ->%list_elem_of_singleton]%elem_of_app; [by apply Hrow|]. cbn. split; [done|]. exists row. split; [done|].
        intros c Hc. apply P6. by apply cells_elem.
    + exists occ', (mkBar event col span r :: new). rewrite <-app_assoc in *. done.
Qed.
End Bars.

(** ** The week *)

Section Week.
Context (other : jstr -> option Z) (Intl : jstr -> option (Z -> option Parts)) (localeCompare : jstr -> jstr -> Z) `{!Comparator localeCompare}.
Implicit Types (event : CalEvent) (sg : Segment) (ss : list Segment).

#[export] Instance flag_comparator : Comparator (fun a b : Segment => (if sg_allDay b then 1 else 0) - (if sg_allDay a then 1 else 0)).
Proof. split; intros; lia. Qed.

#[export] Instance order_comparator : Comparator (order localeCompare).
Proof using Comparator0.
  unfold order. repeat apply lex_comparator; apply _.
Qed.

Lemma sorted_weaken {A} (R R' : A -> A -> Prop) (l : list A) : StronglySorted R l -> (forall x y, x ∈ l -> y ∈ l -> R x y -> R' x y) -> StronglySorted R' l.
Proof.
  induction 1 as [|x l Hl IH Hx]; intros H; constructor.
  - apply IH. intros y z Hy Hz. apply H; by right.
  - rewrite Forall_forall in Hx |- *. intros y Hy. apply H; [by left|by right|by apply Hx].
Qed.

(** A column of timed segments, in the order it is packed in. *)
Lemma sorted_column ss : (forall sg, sg ∈ ss -> sg_allDay sg = false) -> StronglySorted (fun s s' => sg_startMin s <= sg_startMin s') (sort_by (order localeCompare) ss).
Proof using Comparator0.
  intros Hf. apply (sorted_weaken (le_by (order localeCompare))); [apply sort_by_comparator, _|].
  intros x y Hx Hy. assert (Hin : forall z, z ∈ sort_by (order localeCompare) ss -> sg_allDay z = false) by (intros z; rewrite (sort_by_perm (order localeCompare) ss); apply Hf).
  unfold le_by, order. set (rest := lex (fun a b => sg_endMin a - sg_endMin b) _). unfold lex. rewrite (Hin x Hx), (Hin y Hy).
  change (0 - 0 =? 0) with true. cbv iota. destruct (Z.eqb_spec (sg_startMin x - sg_startMin y) 0); lia.
Qed.

Definition week_days (f : Z) (count : nat) : list jstr := map day_key (seqZ f (Z.of_nat count)).

Lemma mapM_map {A B} (g : A -> option B) (h : A -> B) (l : list A) : (forall x, x ∈ l -> g x = Some (h x)) -> mapM g l = Some (map h l).
Proof.
  induction l as [|x l IH]; intros H; [done|]. cbn. rewrite (H x) by (by left). cbn [mbind option_bind]. by rewrite IH by (intros y Hy; apply H; by right).
Qed.

Lemma days_from_week f count : day_ok f -> day_ok (f + Z.of_nat count) -> days_from other (day_key f) count = Some (week_days f count).
Proof.
  intros Hf Hc. unfold days_from, week_days, seqZ. rewrite Nat2Z.id, map_map. rewrite (mapM_map _ (fun i => day_key (f + Z.of_nat i))).
  - f_equal. apply map_ext. intros i. f_equal. lia.
  - intros i Hi%elem_of_seq. apply addDays_shift; unfold day_ok in *; lia.
Qed.

Lemma indexOf_week f count i : day_ok f -> day_ok (f + Z.of_nat count) -> 0 <= i < Z.of_nat count -> indexOf (week_days f count) (day_key (f + i)) = i.
Proof.
  intros Hf Hc Hi. unfold indexOf.
  match goal with |- context [list_find ?P ?l] => replace (list_find P l) with (Some (Z.to_nat i, day_key (f + i))); [lia|symmetry] end.
  apply list_find_Some. unfold week_days. split_and!; [|done|].
  - rewrite list_lookup_fmap, lookup_seqZ_lt by lia. cbn. do 3 f_equal. lia.
  - intros j y Hy Hlt. rewrite list_lookup_fmap in Hy. destruct (seqZ f (Z.of_nat count) !! j) as [k|] eqn:Ek; [|done]. apply lookup_seqZ in Ek as [-> Hj].
    injection Hy as <-. intros E. apply (day_key_inj (fun _ => None)) in E; [lia|unfold day_ok in *; lia..].
Qed.

(** The segments of one subject's bars, and of one column. *)
Definition bar_of (x : jstr) sg : bool := sg_allDay sg && jeqb (ev_subject (sg_event sg)) x.
Definition on_column (days : list jstr) (i : nat) sg : bool := negb (sg_allDay sg) && (indexOf days (sg_date sg) =? Z.of_nat i).

Record sorted_into (days : list jstr) ss (st : list (jstr * list Segment) * list (list Segment)) (n : nat) : Prop := {
  si_keys : NoDup (jkeys st.1);
  si_bars : forall x, default [] (jget x st.1) = List.filter (bar_of x) ss;
  si_some : forall x l, jget x st.1 = Some l -> l <> [];
  si_length : length st.2 = n;
  si_columns : forall i, (i < n)%nat -> st.2 !! i = Some (List.filter (on_column days i) ss);
}.

Lemma sort_segments_into days n ss todo st : sorted_into days ss st n ->
  (forall sg, sg ∈ todo -> 0 <= indexOf days (sg_date sg) < Z.of_nat n) ->
  exists st', sort_segments days st todo = Some st' /\ sorted_into days (ss ++ todo) st' n.
Proof.
  revert ss st. induction todo as [|sg todo IH]; intros ss st Hst Hin; [exists st; by rewrite app_nil_r|]. cbn [sort_segments].
  enough (exists st1, sort_segment days st sg = Some st1 /\ sorted_into days (ss ++ [sg]) st1 n) as (st1 & -> & H1).
  { cbn [mbind option_bind]. destruct (IH _ _ H1) as (st' & E & H'); [intros y Hy; apply Hin; by right|]. exists st'. by rewrite <-app_assoc in H'. }
  destruct Hst as [K1 K2 K3 K4 K5]. unfold sort_segment. assert (Hi := Hin sg ltac:(by left)). destruct (sg_allDay sg) eqn:Ead.
  - eexists. split; [done|]. split; cbn [fst snd]; [by apply jset_nodup| | |done|].
    + intros x. rewrite jget_jset, List.filter_app. cbn [List.filter]. assert (bar_of x sg = sg_allDay sg && jeqb (ev_subject (sg_event sg)) x) as -> by done. rewrite Ead. cbn [andb]. unfold jeqb.
      destruct (decide (x = ev_subject (sg_event sg))) as [->|Hne].
      * rewrite bool_decide_true by done. cbn [default]. by rewrite K2.
      * rewrite bool_decide_false by congruence. by rewrite app_nil_r, K2.
    + intros x l. rewrite jget_jset. destruct (decide _); [intros [= <-]; by destruct (default [] _)|apply K3].
    + intros i Hlt. rewrite List.filter_app. cbn [List.filter]. assert (on_column days i sg = negb (sg_allDay sg) && (indexOf days (sg_date sg) =? Z.of_nat i)) as -> by done. rewrite Ead. cbn [negb andb]. rewrite app_nil_r. by apply K5.
  - unfold push_column. rewrite (proj2 (Z.ltb_ge _ _)) by lia. rewrite K5 by lia. cbn [mbind option_bind]. eexists. split; [done|].
    split; cbn [fst snd]; [done| |done|by rewrite length_insert|].
    + intros x. rewrite List.filter_app. cbn [List.filter]. assert (bar_of x sg = sg_allDay sg && jeqb (ev_subject (sg_event sg)) x) as -> by done. rewrite Ead. cbn [andb]. by rewrite app_nil_r.
    + intros i Hlt. rewrite List.filter_app. cbn [List.filter]. assert (on_column days i sg = negb (sg_allDay sg) && (indexOf days (sg_date sg) =? Z.of_nat i)) as -> by done. rewrite Ead. cbn [negb andb].
      destruct (Z.eqb_spec (indexOf days (sg_date sg)) (Z.of_nat i)) as [E|Hne].
      * rewrite E, Nat2Z.id. apply list_lookup_insert_eq. lia.
      * rewrite app_nil_r, list_lookup_insert_ne by lia. by apply K5.
Qed.

Lemma elem_of_bar x sg ss : sg ∈ List.filter (bar_of x) ss <-> sg ∈ ss /\ sg_allDay sg = true /\ ev_subject (sg_event sg) = x.
Proof. rewrite !list_elem_of_In, filter_In. unfold bar_of, jeqb. by rewrite andb_true_iff, bool_decide_eq_true. Qed.

Definition day_cell (days : list jstr) sg : CalEvent * Z := (sg_event sg, indexOf days (sg_date sg)).
Definition bars_of (days : list jstr) (l : list Segment) : list Pending := fold_left extend_bar (map (day_cell days) l) [].

Lemma bars_cells days (l : list Segment) : (forall s s', s ∈ l -> s' ∈ l -> sg_event s = sg_event s') ->
  concat (map pending_cells (bars_of days l)) = map (day_cell days) l.
Proof.
  intros H. destruct l as [|s0 l0] eqn:El; [done|]. rewrite <-El in *. destruct (extend_bars (sg_event s0) (map (day_cell days) l) []) as [E _]; [|constructor|exact E].
  apply Forall_map, Forall_forall. intros s Hs. cbn. apply H; [done|]. rewrite El. by left.
Qed.

(** The pending bars cover the all-day pieces. *)
Lemma pending_cover days ss (barSegs : list (jstr * list Segment)) : NoDup (jkeys barSegs) -> (forall x, default [] (jget x barSegs) = List.filter (bar_of x) ss) ->
  (forall sg sg', sg ∈ ss -> sg' ∈ ss -> ev_subject (sg_event sg) = ev_subject (sg_event sg') -> sg_event sg = sg_event sg') ->
  let pending := concat (map (fun p : jstr * list Segment => bars_of days p.2) barSegs) in
  forall event c, (exists b, b ∈ pending /\ b.1.1 = event /\ b.1.2 <= c < b.1.2 + b.2) <->
    exists sg, sg ∈ ss /\ sg_allDay sg = true /\ sg_event sg = event /\ indexOf days (sg_date sg) = c.
Proof.
  intros Hnd Hget Hsub pending event c.
  assert (Hbars : forall x l, (x, l) ∈ barSegs -> l = List.filter (bar_of x) ss) by (intros x l H; apply jget_elem in H; [|done]; specialize (Hget x); by rewrite H in Hget).
  assert (Hcover : forall x l, (x, l) ∈ barSegs -> concat (map pending_cells (bars_of days l)) = map (day_cell days) l).
  { intros x l Hin. apply bars_cells. intros y z Hy Hz. rewrite (Hbars x l Hin) in Hy, Hz. apply elem_of_bar in Hy as (? & _ & Ey), Hz as (? & _ & Ez).
    apply Hsub; congruence. }
  assert (Hcell : forall b, (event, c) ∈ pending_cells b <-> b.1.1 = event /\ b.1.2 <= c < b.1.2 + b.2).
  { intros b. unfold pending_cells. rewrite list_elem_of_fmap. setoid_rewrite cells_elem. naive_solver. }
  split.
  - intros (b & Hb & He & Hc). unfold pending in Hb. apply list_elem_of_In, in_concat in Hb as (bars & Hbars' & Hb). apply in_map_iff in Hbars' as ([x l] & <- & Hin).
    apply list_elem_of_In in Hin. assert (Hin2 : (event, c) ∈ concat (map pending_cells (bars_of days l))).
    { apply list_elem_of_In, in_concat. exists (pending_cells b). split; [by apply in_map|]. by apply list_elem_of_In, Hcell. }
    rewrite (Hcover x l Hin) in Hin2. apply list_elem_of_fmap in Hin2 as (sg & [= -> ->] & Hsg). rewrite (Hbars x l Hin) in Hsg.
    apply elem_of_bar in Hsg as (Hsg & Had & _). by exists sg.
  - intros (sg & Hsg & Had & He & Hc). set (x := ev_subject (sg_event sg)).
    assert (Hf : sg ∈ List.filter (bar_of x) ss).
    { by apply elem_of_bar. }
    rewrite <-(Hget x) in Hf. destruct (jget x barSegs) as [l|] eqn:El; [|by apply elem_of_nil in Hf]. cbn in Hf. apply jget_elem in El; [|done].
    assert (Hin2 : (event, c) ∈ map (day_cell days) l) by (apply list_elem_of_fmap; exists sg; unfold day_cell; by rewrite He, Hc).
    rewrite <-(Hcover x l El) in Hin2. apply list_elem_of_In, in_concat in Hin2 as (cs & Hcs & Hin2). apply in_map_iff in Hcs as (b & <- & Hb).
    exists b. split; [|by apply Hcell, list_elem_of_In]. unfold pending. apply list_elem_of_In, in_concat. eexists. split; [|exact Hb]. apply in_map_iff.
    exists (x, l). split; [done|]. by apply list_elem_of_In.
Qed.
End Week.

Section Shapes.
Context (localeCompare : jstr -> jstr -> Z) `{!Comparator localeCompare}.

(** A column of the week: the timed segments of its day, side by side. *)
Record column_ok (ss : list Segment) (day : jstr) (column : list Block) : Prop := {
  co_all : map bk_segment column ≡ₚ filter (fun sg => sg_allDay sg = false /\ sg_date sg = day) ss;
  co_apart : StronglySorted apart column;
  co_linked : linked column;
  co_lane : forall b, b ∈ column -> (bk_lane b < bk_lanes b)%nat;
  co_most : forall b, b ∈ column -> forall t, (length (together (bk_cluster b) t column) <= bk_lanes b)%nat;
  co_taken : (forall b, b ∈ column -> nonempty (bk_segment b)) -> forall b, b ∈ column -> exists t, length (together (bk_cluster b) t column) = bk_lanes b;
}.

(** The bars of the week: the all-day segments, above each other. *)
Record bars_ok (ss : list Segment) (f : Z) (w : WeekLayout) : Prop := {
  bo_beside : StronglySorted beside (wl_bars w);
  bo_rows : forall b, b ∈ wl_bars w -> 0 <= bar_row b < Z.of_nat (wl_rows w);
  bo_cover : forall event c, (exists b, b ∈ wl_bars w /\ bar_event b = event /\ bar_col b <= c < bar_col b + bar_span b) <->
    0 <= c < Z.of_nat (length (wl_days w)) /\ exists sg, sg ∈ ss /\ sg_allDay sg = true /\ sg_event sg = event /\ sg_date sg = day_key (f + c);
}.

Lemma column_packed ss day : (forall sg, sg ∈ ss -> 0 <= sg_startMin sg) -> forall l, l ≡ₚ filter (fun sg => sg_allDay sg = false /\ sg_date sg = day) ss ->
  column_ok ss day (packColumn (sort_by (order localeCompare) l)).
Proof using Comparator0.
  intros Hpos l Hl. assert (Hin : forall sg, sg ∈ l -> sg_allDay sg = false /\ sg ∈ ss) by (intros sg; rewrite Hl, list_elem_of_filter; tauto).
  destruct (packColumn_closed (sort_by (order localeCompare) l)) as [E Hc].
  - apply sorted_column; [done|]. intros sg Hsg. by apply Hin.
  - apply Forall_forall. intros sg. rewrite (sort_by_perm (order localeCompare) l). intros Hsg. by apply Hpos, Hin.
  - split; try apply Hc.
    + by rewrite E, (sort_by_perm (order localeCompare) l).
    + intros b Hb. by apply together_most.
    + intros Hne b Hb. by apply together_most.
Qed.

Lemma index_day f count i j : day_ok f -> day_ok (f + Z.of_nat count) -> 0 <= i < Z.of_nat count -> 0 <= j < Z.of_nat count ->
  indexOf (week_days f count) (day_key (f + i)) = j <-> day_key (f + i) = day_key (f + j).
Proof.
  intros Hf Hc Hi Hj. rewrite indexOf_week by done. split; [by intros ->|]. intros E. apply (day_key_inj (fun _ => None)) in E; [lia|unfold day_ok in *; lia..].
Qed.

Lemma on_column_day f count i ss : day_ok f -> day_ok (f + Z.of_nat count) -> (i < count)%nat ->
  (forall sg, sg ∈ ss -> exists j, 0 <= j < Z.of_nat count /\ sg_date sg = day_key (f + j)) ->
  List.filter (on_column (week_days f count) i) ss = filter (fun sg => sg_allDay sg = false /\ sg_date sg = day_key (f + Z.of_nat i)) ss.
Proof.
  intros Hf Hc Hi. induction ss as [|sg ss IH]; intros H; [done|]. cbn [List.filter]. rewrite filter_cons, IH by (intros x Hx; apply H; by right).
  destruct (H sg ltac:(by left)) as (j & Hj & Ed).
  assert (on_column (week_days f count) i sg = true <-> sg_allDay sg = false /\ sg_date sg = day_key (f + Z.of_nat i)) as Hiff.
  { unfold on_column. rewrite andb_true_iff, negb_true_iff, Z.eqb_eq, Ed. rewrite index_day by (done || lia). done. }
  destruct (on_column _ i sg); [rewrite decide_True by (by apply Hiff); done|]. rewrite decide_False; [done|]. intros Hn. by apply Hiff in Hn.
Qed.

Lemma of_bar_elem (bars : list Bar) event c : (exists b, b ∈ bars /\ bar_event b = event /\ bar_col b <= c < bar_col b + bar_span b) <->
  exists p, p ∈ map of_bar bars /\ p.1.1 = event /\ p.1.2 <= c < p.1.2 + p.2.
Proof. setoid_rewrite list_elem_of_fmap. split; [intros (b & ? & ? & ?); exists (of_bar b); naive_solver|intros (p & (b & -> & ?) & ? & ?); by exists b]. Qed.
End Shapes.

Section Layout.
Context (other : jstr -> option Z) (Intl : jstr -> option (Z -> option Parts)) (localeCompare : jstr -> jstr -> Z) `{!Comparator localeCompare}.
Context (tz : jstr) (off : Z -> Z) (Hlaw : zone_law Intl tz off) (Hmin : forall t, off t mod MINUTE = 0) (fuel : nat).

(** An event that can be laid out: it has a start before its end, which are
    near enough, or it is not shown. *)
Definition layable (event : CalEvent) : Prop :=
  (exists S E, spans other off (ev_value event) S E /\ (Z.to_nat (touched S E) < fuel)%nat) \/ bounds other Intl (ev_value event) tz = Some None.

Lemma segments_layable event f c : layable event -> day_ok f -> day_ok (f + c) -> exists l, segments other Intl fuel event (day_key f) c tz = Some l /\
  forall sg, sg ∈ l -> sg_event sg = event /\ 0 <= sg_startMin sg /\ exists i, 0 <= i < c /\ sg_date sg = day_key (f + i).
Proof using Hlaw Hmin.
  intros [(S & E & Hsp & Hfuel)|Hb] Hf Hc.
  - eexists. split; [by eapply segments_pieces|]. intros sg (k & Hk & _ & ->)%piece_elem. cbn. split_and!; [done|lia|]. exists (k - f). split; [lia|]. f_equal. lia.
  - exists []. unfold segments. rewrite addDays_shift by done. cbn [mbind option_bind]. rewrite Hb. split; [done|]. by intros sg ?%elem_of_nil.
Qed.

Lemma all_segments_layable events f c : (forall e, e ∈ events -> layable e) -> day_ok f -> day_ok (f + c) ->
  exists ss, all_segments other Intl fuel events (day_key f) c tz = Some ss /\
  forall sg, sg ∈ ss -> sg_event sg ∈ events /\ 0 <= sg_startMin sg /\ exists i, 0 <= i < c /\ sg_date sg = day_key (f + i).
Proof using Hlaw Hmin.
  intros He Hf Hc. unfold all_segments. induction events as [|e events IH]; [exists []; split; [done|by intros sg ?%elem_of_nil]|].
  destruct IH as (ss & E & H); [intros e' He'; apply He; by right|]. destruct (segments_layable e f c) as (l & El & Hl); [apply He; by left|done|done|].
  cbn [mapM]. rewrite El. cbn [mbind option_bind]. destruct (mapM _ events) as [sss|]; [|done]. cbn in *. injection E as <-.
  eexists. split; [done|]. cbn [concat]. intros sg [Hsg|Hsg]%elem_of_app.
  - destruct (Hl sg Hsg) as (-> & ? & ?). split_and!; [by left|done|done].
  - destruct (H sg Hsg) as (? & ? & ?). split_and!; [by right|done|done].
Qed.

(** C29 (safety). The week shows every piece of every event, and none over another.
    For events with distinct subjects that can be laid out ([layable]: hidden,
    or with a start before its end), [packWeek] ends with a layout.  Column [i]
    holds exactly the timed pieces of day [from + i]: two blocks in one lane of a
    cluster do not overlap, nor do blocks of different clusters; every block but
    the first of a cluster starts while another of it runs; a cluster has at
    least as many lanes as blocks run at one time, and, in a column all of whose
    blocks end after they start, no more than run at some time.  That last
    condition can fail: a piece over the hour that the clock repeats may end
    before it starts ([Demo.ends_before_start]).  An event has a bar over a
    column exactly when it has an all-day piece on that day; no two bars share
    a row and a column, and every row is below [rows]. *)
Theorem packWeek_layout events f count : (forall e, e ∈ events -> layable e) ->
  (forall e e', e ∈ events -> e' ∈ events -> ev_subject e = ev_subject e' -> e = e') -> day_ok f -> day_ok (f + Z.of_nat count) ->
  exists ss w, all_segments other Intl fuel events (day_key f) (Z.of_nat count) tz = Some ss /\
    packWeek other Intl localeCompare fuel events (day_key f) count tz = Some w /\
    wl_days w = week_days f count /\ length (wl_columns w) = count /\
    (forall i column, wl_columns w !! i = Some column -> column_ok ss (day_key (f + Z.of_nat i)) column) /\ bars_ok ss f w.
Proof using Hlaw Hmin Comparator0.
  intros He Hsub Hf Hc. destruct (all_segments_layable events f (Z.of_nat count) He Hf Hc) as (ss & Ess & Hss).
  set (days := week_days f count).
  destruct (sort_segments_into days count [] ss ([], replicate count [])) as ([barSegs perDay] & Es & [K1 K2 _ K4 K5]).
  { split; cbn; [constructor|done|done|by rewrite length_replicate|]. intros i Hi. by apply lookup_replicate. }
  { intros sg Hsg. destruct (Hss sg Hsg) as (_ & _ & i & Hi & ->). unfold days. by rewrite indexOf_week. }
  cbn [fst snd app] in *.
  exists ss. unfold packWeek. rewrite days_from_week by done. cbn [mbind option_bind]. rewrite Ess. cbn [mbind option_bind]. fold days. rewrite Es. cbn [mbind option_bind].
  match goal with |- context [sort_by (bar_order localeCompare) ?p] => set (pending := p) end.
  destruct (place_bars (sort_by (bar_order localeCompare) pending) [] []) as (occupied & bars & -> & [B1 B2] & Eb).
  { split; [constructor|by intros b ?%elem_of_nil]. }
  eexists. split_and!; [done|done|done|cbn; by rewrite length_map|..]; cbn [wl_columns].
  - intros i column Hi. rewrite list_lookup_fmap in Hi. assert (Hlt : (i < count)%nat).
    { rewrite <-K4. destruct (perDay !! i) eqn:Ei; [by eapply lookup_lt_Some|done]. }
    rewrite K5 in Hi by done. injection Hi as <-. apply (column_packed localeCompare); [intros sg Hsg; apply (Hss sg Hsg)|].
    unfold days. rewrite on_column_day; [done|done|done|lia|]. intros sg Hsg. apply (Hss sg Hsg).
  - split; cbn [wl_bars wl_rows wl_days].
    + done.
    + intros b Hb. apply (B2 b Hb).
    + intros event c. cbn [app]. rewrite of_bar_elem, Eb. setoid_rewrite (sort_by_perm (bar_order localeCompare) pending).
      etransitivity; [apply (pending_cover days ss barSegs K1 K2)|].
      { intros sg sg' Hsg Hsg' E. apply Hsub; [apply (Hss sg Hsg)|apply (Hss sg' Hsg')|done]. }
      assert (length days = count) as -> by (unfold days, week_days; by rewrite length_map, length_seqZ, Nat2Z.id).
      split.
      * intros (sg & Hsg & Had & Hev & Hix). destruct (Hss sg Hsg) as (_ & _ & i & Hi & Ed). rewrite Ed in Hix. unfold days in Hix. rewrite indexOf_week in Hix by done. subst c.
        split; [done|]. exists sg. done.
      * intros (Hi & sg & Hsg & Had & Hev & Ed). exists sg. split_and!; [done..|]. rewrite Ed. by apply indexOf_week.
Qed.
End Layout.

Module Demo.
Abbreviation ms := Zones.Demo.ms.
Abbreviation Intl := Zones.Demo.Intl.
Abbreviation TZ := Zones.Demo.TZ.
Abbreviation amsterdam := Zones.Demo.amsterdam.
Definition none (s : jstr) : option Z := None.

Definition event (name : string) (allDay : bool) (from to : string) : CalEvent :=
  mkCalEvent (OObj [(js "title", OStr (js name)); (js "allDay", OBool allDay); (js "start", OStr (js from)); (js "end", OStr (js to))])
    (js name) None None None false false false ([], []).

Definition standup := event "standup" false "2026-07-01T09:00:00+02:00" "2026-07-01T10:00:00+02:00".
Definition review := event "review" false "2026-07-01T07:30:00Z" "2026-07-01T09:00:00Z".
Definition call := event "call" false "2026-07-01T10:00:00+02:00" "2026-07-01T10:30:00+02:00".
Definition trip := event "trip" false "2026-06-30T22:00:00+02:00" "2026-07-03T00:00:00+02:00".
Definition leave := event "leave" true "2026-07-02" "2026-07-04".
Definition broken := event "broken" false "2026-07-02T10:00:00Z" "2026-07-02T09:00:00Z".
Definition events : list CalEvent := [standup; review; call; trip; leave; broken].

Definition tuesday : Z := ms "2026-06-30" / DAY.
Lemma tuesday_key : day_key tuesday = js "2026-06-30".
Proof. by vm_compute. Qed.
Lemma tuesday_ok : day_ok tuesday /\ day_ok (tuesday + 4).
Proof. unfold day_ok. destruct day_bounds as [-> ->]. assert (tuesday = 20634) as -> by (by vm_compute). lia. Qed.

Lemma near_2026 t : ms "2026-01-01" <= t <= ms "2027-01-01" -> near amsterdam t.
Proof.
  assert (ms "2026-01-01" = 1767225600000) as -> by (by vm_compute). assert (ms "2027-01-01" = 1798761600000) as -> by (by vm_compute).
  intros Ht. assert (H : HOUR <= amsterdam t <= 2 * HOUR) by (unfold amsterdam, Zones.Demo.amsterdam, HOUR; case_match; lia).
  unfold near, Zones.wall, day_inside. destruct first_last as [-> ->], day_bounds as [-> ->]. unfold HOUR, DAY in *. split; [lia|]. split; dlia.
Qed.

Lemma timed_layable e s t : is_all_day (ev_value e) = false -> Date_parse none (field "start" (ev_value e)) = Some s -> Date_parse none (field "end" (ev_value e)) = Some t ->
  (s <? t) && (ms "2026-01-01" <=? s) && (t <=? ms "2027-01-01") && (Z.to_nat (touched (Zones.wall amsterdam s / MINUTE) (Zones.wall amsterdam t / MINUTE)) <? 10)%nat = true ->
  layable none Intl TZ amsterdam 10 e.
Proof.
  intros Ha Hs Ht ([[H1 H2]%andb_true_iff H3]%andb_true_iff & H4)%andb_true_iff. apply Z.ltb_lt in H1. apply Z.leb_le in H2, H3. apply Nat.ltb_lt in H4.
  left. do 2 eexists. split; [|exact H4]. apply (span_times _ _ _ s t); [done|done|done|done|apply near_2026; lia..].
Qed.

Lemma all_layable e : e ∈ events -> layable none Intl TZ amsterdam 10 e.
Proof.
  intros He. repeat (apply elem_of_cons in He as [->|He]); [| | | | | |by apply elem_of_nil in He].
  - apply (timed_layable _ (ms "2026-07-01T07:00:00Z") (ms "2026-07-01T08:00:00Z")); vm_compute; reflexivity.
  - apply (timed_layable _ (ms "2026-07-01T07:30:00Z") (ms "2026-07-01T09:00:00Z")); vm_compute; reflexivity.
  - apply (timed_layable _ (ms "2026-07-01T08:00:00Z") (ms "2026-07-01T08:30:00Z")); vm_compute; reflexivity.
  - apply (timed_layable _ (ms "2026-06-30T20:00:00Z") (ms "2026-07-02T22:00:00Z")); vm_compute; reflexivity.
  - left. exists (20636 * 1440), (20638 * 1440). split; [|apply Nat.ltb_lt; by vm_compute].
    apply (span_days _ _ _ 20636 20638); [by vm_compute|by vm_compute|by vm_compute| | |done]; unfold day_inside; destruct day_bounds as [-> ->]; lia.
  - right. by vm_compute.
Qed.

Lemma segments_exact_witness : exists pieces, segments none Intl 10 trip (js "2026-06-30") 4 TZ = Some pieces /\
  map (fun sg => (sg_date sg, sg_allDay sg, sg_startMin sg, sg_endMin sg, sg_dayOf sg)) pieces =
    [(js "2026-06-30", false, 1320, 1440, Some (1, 3)); (js "2026-07-01", true, 0, 1440, Some (2, 3)); (js "2026-07-02", true, 0, 1440, Some (3, 3))] /\
  exists sg, sg ∈ pieces /\ sg_date sg = day_key (tuesday + 2) /\ sg_startMin sg <= 1439 < sg_endMin sg.
Proof.
  destruct (segments_exact none Intl TZ amsterdam Zones.Demo.amsterdam_law CalendarTime.Demo.amsterdam_minutes trip tuesday 4 10
    (Zones.wall amsterdam (ms "2026-06-30T20:00:00Z") / MINUTE) (Zones.wall amsterdam (ms "2026-07-02T22:00:00Z") / MINUTE)) as (pieces & E & _ & H & _).
  - apply span_times; [by vm_compute|by vm_compute|by vm_compute|by apply Z.ltb_lt; vm_compute|apply near_2026; split; by apply Z.leb_le; vm_compute..].
  - apply tuesday_ok.
  - apply tuesday_ok.
  - apply Nat.ltb_lt. by vm_compute.
  - exists pieces. rewrite tuesday_key in E. split; [exact E|]. split.
    + assert (Hs : segments none Intl 10 trip (js "2026-06-30") 4 TZ ≫= (fun l => Some (map (fun sg => (sg_date sg, sg_allDay sg, sg_startMin sg, sg_endMin sg, sg_dayOf sg)) l)) =
        Some [(js "2026-06-30", false, 1320, 1440, Some (1, 3)); (js "2026-07-01", true, 0, 1440, Some (2, 3)); (js "2026-07-02", true, 0, 1440, Some (3, 3))]) by (vm_compute; reflexivity).
      rewrite E in Hs. cbn [mbind option_bind] in Hs. congruence.
    + apply (H (tuesday + 2) 1439).
      * unfold day_ok. destruct day_bounds as [-> ->]. assert (tuesday = 20634) as -> by (by vm_compute). lia.
      * lia.
      * split; [lia|]. split; [by apply Z.leb_le; vm_compute|by apply Z.ltb_lt; vm_compute].
Defined.

(** Tuesday to Friday: two bars in two rows, and on Wednesday three blocks of a
    cluster with two lanes. *)
Lemma packWeek_layout_witness : exists w, packWeek none Intl jcmp 10 events (js "2026-06-30") 4 TZ = Some w /\
  map (fun b => (ev_subject (bar_event b), bar_col b, bar_span b, bar_row b)) (wl_bars w) = [(js "trip", 1, 2, 0); (js "leave", 2, 2, 1)] /\ wl_rows w = 2%nat /\
  map (map (fun b => (ev_subject (sg_event (bk_segment b)), bk_lane b, bk_lanes b))) (wl_columns w) =
    [[(js "trip", 0%nat, 1%nat)]; [(js "standup", 0%nat, 2%nat); (js "review", 1%nat, 2%nat); (js "call", 0%nat, 2%nat)]; []; []] /\
  StronglySorted beside (wl_bars w).
Proof.
  destruct (packWeek_layout none Intl jcmp TZ amsterdam Zones.Demo.amsterdam_law CalendarTime.Demo.amsterdam_minutes 10 events tuesday 4) as (ss & w & _ & E & _ & _ & _ & [H _ _]).
  - exact all_layable.
  - intros e e' He He'. repeat (apply elem_of_cons in He as [->|He]); [..|by apply elem_of_nil in He];
      (repeat (apply elem_of_cons in He' as [->|He']); [..|by apply elem_of_nil in He']); first [done|by intros [=]|by vm_compute].
  - apply tuesday_ok.
  - apply tuesday_ok.
  - exists w. rewrite tuesday_key in E.
    pose (shown := fun w => (map (fun b => (ev_subject (bar_event b), bar_col b, bar_span b, bar_row b)) (wl_bars w), wl_rows w,
      map (map (fun b => (ev_subject (sg_event (bk_segment b)), bk_lane b, bk_lanes b))) (wl_columns w))).
    assert (Hs : shown <$> packWeek none Intl jcmp 10 events (js "2026-06-30") 4 TZ = Some ([(js "trip", 1, 2, 0); (js "leave", 2, 2, 1)], 2%nat,
      [[(js "trip", 0%nat, 1%nat)]; [(js "standup", 0%nat, 2%nat); (js "review", 1%nat, 2%nat); (js "call", 0%nat, 2%nat)]; []; []])) by (vm_compute; reflexivity).
    rewrite E in Hs. cbn [fmap option_fmap option_map] in Hs. unfold shown in Hs.
    split_and!; [exact E|congruence|congruence|congruence|exact H].
Defined.

(** A meeting over the hour that the clock repeats: its block ends before it starts. *)
Definition night := event "night" false "2026-10-25T00:45:00Z" "2026-10-25T01:15:00Z".
Lemma ends_before_start : segments none Intl 10 night (js "2026-10-25") 1 TZ = Some [mkSegment night (js "2026-10-25") false 165 135 None].
Proof. by vm_compute. Qed.

Example agenda : (fun l => map (fun d => (ag_date d, map (fun s => ev_subject (sg_event s)) (ag_items d))) l) <$>
    agendaDays none Intl jcmp 10 events (js "2026-07-01") 2 TZ =
  Some [(js "2026-07-01", map js ["trip"; "standup"; "review"; "call"]%string); (js "2026-07-02", map js ["leave"; "trip"]%string)] /\
  busyDays none Intl 10 events (js "2026-07-01") 4 TZ = Some (map js ["2026-07-01"; "2026-07-02"; "2026-07-03"]%string) /\
  nextEvent none Intl events (js "2026-07-01") TZ = Some (Some (standup, js "2026-07-01")).
Proof. split_and!; by vm_compute. Qed.
End Demo.
