(* ===== verification/Atomic.v ===== *)
(** * Native Atomic Data: resources and their store

    Models [src/devonian/src/atomic/Resource.ts] and
    [src/devonian/src/atomic/Store.ts]: identifiers, the catalog of properties
    with the validation of a resource, and the store with its patches,
    transactions and snapshots.

    A resource is the list of its properties.  The store clones what it is given
    and what it gives, so a resource is a value.  The [URL] class and
    [@tomic/lib] (its datatypes and [validateDatatype]) are parameters. *)
From S2P Require Import Prelude Text Collections Json JsonParse.
Local Open Scope Z_scope.

(** What is read of [new URL(s)]. *)
Record Address := mkAddress { protocol : jstr; a_search : jstr; a_hash : jstr }.

(** [Datatype] and [validateDatatype] of [@tomic/lib]; the latter throws. *)
Record Lib := mkLib {
  datatypes : list jstr;
  ATOMIC_URL : jstr; RESOURCEARRAY : jstr; FLOAT : jstr; INTEGER : jstr; TIMESTAMP : jstr; BOOLEAN : jstr; STRING : jstr; UNKNOWN : jstr;
  validateDatatype : Json -> jstr -> res string unit
}.

(** Resource.ts 10-13. *)
Abbreviation AtomicResource := fields_map.

(* src: devonian/src/atomic/Resource.ts 14-17 AtomicPatch *)
Record AtomicPatch := mkPatch { set_ : option fields_map; unset : option (list jstr) }.

(* src: devonian/src/atomic/Resource.ts 18-18 IS_A ! *)
Definition IS_A : jstr := js "https://atomicdata.dev/properties/isA".
Definition ID : jstr := js "@id".
#[global] Arguments IS_A : simpl never.
#[global] Arguments ID : simpl never.

(** A loop whose body may throw. *)
Fixpoint each {E A} (f : A -> res E unit) (l : list A) : res E unit :=
  match l with [] => Ok tt | x :: l => _ ← f x; each f l end.

Definition is_http (p : jstr) : bool := jeqb p (js "http:") || jeqb p (js "https:").

(** ** Identifiers *)

Definition is_lower (c : Z) : bool := (97 <=? c) && (c <=? 122).
Definition is_alnum (c : Z) : bool := is_digit c || is_lower c || ((65 <=? c) && (c <=? 90)).
Definition is_hex_digit (c : Z) : bool := is_digit c || ((97 <=? c) && (c <=? 102)) || ((65 <=? c) && (c <=? 70)).

(** The characters of the body of a DID, and of what follows it. *)
Definition did_char (c : Z) : bool := is_alnum c || bool_decide (c ∈ js "._:%+/=-").
Definition did_rest (c : Z) : bool := is_alnum c || bool_decide (c ∈ js "._~:/?#[]@!$&'()*+,;=%-").

(** The regular expression of a DID: each class of characters ends where the
    next one starts, so it matches in one way. *)
(* src: devonian/src/atomic/Resource.ts 36-38 assertSubject ! *)
Definition is_did (s : jstr) : bool :=
  if starts_with (js "did:") s then
      let '(method, s) := span (fun c => is_digit c || is_lower c) (drop 4 s) in
      match method, s with
      | _ :: _, 58 :: s =>
          let '(body, s) := span did_char s in
          match body, s with
          | [], _ => false
          | _, [] => true
          | _, c :: s => ((c =? 63) || (c =? 35)) && forallb did_rest s
          end
      | _, _ => false
      end
  else false.

(** [!/%(?![0-9a-fA-F]{2})/.test(s)] *)
(* src: devonian/src/atomic/Resource.ts 39-39 assertSubject ! *)
Fixpoint percents_ok (s : jstr) : bool :=
  match s with
  | [] => true
  | c :: s' =>
      (negb (c =? 37) || match s' with a :: b :: _ => is_hex_digit a && is_hex_digit b | _ => false end) && percents_ok s'
  end.

Section Resource.
Context (new_URL : jstr -> option Address) (lib : Lib).

(* src: devonian/src/atomic/Resource.ts 20-43 assertSubject *)
Definition assertSubject (value : jstr) : res string unit :=
  if existsb is_ws value || existsb (fun c => (c <? 32) || (c =? 127)) value
  then Err "Expected an absolute identifier without whitespace or controls"%string
  else match new_URL value with
       | None => Err "Invalid URL"%string
       | Some url =>
           if is_http (protocol url) then Ok tt
           else if is_did value && percents_ok value then Ok tt
           else Err "Expected an HTTP(S) URL or DID"%string
       end.

(** ** The catalog of properties *)

(* src: devonian/src/atomic/Resource.ts 46-49 AtomicSchema ! *)
Definition AtomicSchema : Type := list (jstr * jstr).
Definition new_AtomicSchema : AtomicSchema := [(IS_A, RESOURCEARRAY lib)].

(** [existing && existing !== datatype] *)
Definition conflicts (existing : option jstr) (datatype : jstr) : bool :=
  match existing with Some ((_ :: _) as e) => negb (jeqb e datatype) | _ => false end.

(* src: devonian/src/atomic/Resource.ts 51-64 property *)
Definition property (schema : AtomicSchema) (subject datatype : jstr) : res string AtomicSchema :=
  _ ← assertSubject subject;
  if negb (bool_decide (datatype ∈ datatypes lib)) || jeqb datatype (UNKNOWN lib) then Err "Unsupported datatype"%string
  else if conflicts (jget subject schema) datatype then Err "Conflicting property"%string
  else Ok (jset subject datatype schema).

Definition is_null (v : Json) : bool := match v with ONull => true | _ => false end.
Definition is_number (v : Json) : bool := match v with ONum _ => true | _ => false end.
Definition is_boolean (v : Json) : bool := match v with OBool _ => true | _ => false end.

Section Schema.
Context (schema : AtomicSchema).

(** The loop's body; [link] is [validateLink]. *)
(* src: devonian/src/atomic/Resource.ts 77-104 validateProperties ! *)
Definition validateProperty (link : Json -> res string unit) (named : bool) (p : jstr * Json) : res string unit :=
  if jeqb p.1 ID && named then Ok tt
  else
    _ ← assertSubject p.1;
    match jget p.1 schema with
    | None | Some [] => Err "Unknown property"%string
    | Some datatype =>
        if is_null p.2 then Err "Missing value"%string
        else if jeqb datatype (ATOMIC_URL lib) then link p.2
        else if jeqb datatype (RESOURCEARRAY lib) then
          match p.2 with OArr l => each link l | _ => Err "Expected a resource array"%string end
        else if bool_decide (datatype ∈ [FLOAT lib; INTEGER lib; TIMESTAMP lib]) && negb (is_number p.2) then Err "Expected a number"%string
        else if jeqb datatype (BOOLEAN lib) && negb (is_boolean p.2) then Err "Expected a boolean"%string
        else validateDatatype lib p.2 datatype
    end.

(* src: devonian/src/atomic/Resource.ts 107-112 validateLink *)
Fixpoint validateLink (value : Json) : res string unit :=
  match value with
  | OStr s => assertSubject s
  | OObj m => each (validateProperty validateLink false) m
  | _ => Err "Expected a resource URL or nested resource"%string
  end.

(* src: devonian/src/atomic/Resource.ts 71-105 validateProperties *)
Definition validateProperties (resource : fields_map) (named : bool) : res string unit := each (validateProperty validateLink named) resource.

(* src: devonian/src/atomic/Resource.ts 66-69 validate *)
Definition validate (resource : AtomicResource) : res string unit :=
  match jget ID resource with
  | Some (OStr id) => _ ← assertSubject id; validateProperties resource true
  | _ => Err "Expected an absolute identifier without whitespace or controls"%string
  end.

(** ** The store *)

(* src: devonian/src/atomic/Store.ts 10-10 AtomicStore ! *)
Definition AtomicStore : Type := list (jstr * AtomicResource).
Implicit Types (store : AtomicStore).

(* src: devonian/src/atomic/Store.ts 13-16 get *)
Definition get store (subject : jstr) : option AtomicResource := jget subject store.

Definition id_of (resource : AtomicResource) : jstr := text_of (jget ID resource).

(* src: devonian/src/atomic/Store.ts 18-21 put *)
Definition put store (resource : AtomicResource) : res string AtomicStore :=
  _ ← validate resource; Ok (jset (id_of resource) resource store).

(** The resource with the patch's values and without what it removes. *)
(* src: devonian/src/atomic/Store.ts 29-36 patch ! *)
Definition patched store (subject : jstr) (patch : AtomicPatch) : res string AtomicResource :=
  let resource := spread (default [(ID, OStr subject)] (get store subject)) (default [] (set_ patch)) in
  foldM (fun resource property => _ ← assertSubject property; Ok (jdelete property resource)) resource (default [] (unset patch)).

(* src: devonian/src/atomic/Store.ts 23-39 patch *)
Definition patch_ store (subject : jstr) (patch : AtomicPatch) : res string (AtomicStore * AtomicResource) :=
  _ ← assertSubject subject;
  if has_key ID (default [] (set_ patch)) || bool_decide (ID ∈ default [] (unset patch)) then Err "A patch cannot change resource identity"%string
  else
    resource ← patched store subject patch;
    store' ← put store resource;
    Ok (store', resource).

(** A synchronous operation on the store, which may throw half way. *)
(* src: devonian/src/atomic/Store.ts 41-51 transaction *)
Definition transaction (operation : AtomicStore -> AtomicStore * res string unit) store : AtomicStore * res string unit :=
  match operation store with
  | (store', Ok tt) => (store', Ok tt)
  | (_, Err error) => (store, Err error)
  end.

(* src: devonian/src/atomic/Store.ts 53-59 apply *)
Definition apply_ store (changes : list (jstr * AtomicPatch)) : res string AtomicStore :=
  foldM (fun staged change => p ← patch_ staged change.1 change.2; Ok p.1) store changes.

(* src: devonian/src/atomic/Store.ts 61-63 delete *)
Definition delete store (subject : jstr) : AtomicStore := jdelete subject store.

(* src: devonian/src/atomic/Store.ts 68-74 all ! *)
Definition has_class (classSubject : option jstr) (resource : AtomicResource) : bool :=
  match classSubject with
  | None | Some [] => true
  | Some c => match jget IS_A resource with Some (OArr l) => bool_decide (OStr c ∈ l) | _ => false end
  end.

(* src: devonian/src/atomic/Store.ts 65-76 all *)
Definition all store (classSubject : option jstr) : list AtomicResource := List.filter (has_class classSubject) (jvalues store).

(* src: devonian/src/atomic/Store.ts 78-80 toJSONAD *)
Definition toJSONAD store : jstr := json_text (OArr (map OObj (all store None))).

(* src: devonian/src/atomic/Store.ts 87-101 loadJSONAD ! *)
Definition load_item (next : AtomicStore) (item : Json) : res string AtomicStore :=
  match item with
  | OObj resource =>
      if is_text (jget ID resource) then
        _ ← validate resource;
        if has_key (id_of resource) next then Err "Duplicate subject"%string else Ok (jset (id_of resource) resource next)
      else Err "Expected a named JSON-AD resource"%string
  | _ => Err "Expected a named JSON-AD resource"%string
  end.

(** The store after it, or the store as it was. *)
(* src: devonian/src/atomic/Store.ts 82-103 loadJSONAD *)
Definition loadJSONAD store (json : jstr) : AtomicStore * res string unit :=
  match JSON_parse json with
  | None => (store, Err "SyntaxError"%string)
  | Some parsed =>
      match foldM load_item [] (match parsed with OArr l => l | v => [v] end) with
      | Ok next => (next, Ok tt)
      | Err e => (store, Err e)
      end
  end.
End Schema.
End Resource.

(** ** What the operations keep *)

Lemma each_ok {E A} (f : A -> res E unit) l : each f l = Ok tt <-> Forall (fun x => f x = Ok tt) l.
Proof.
  induction l as [|x l IH]; cbn; [split; [constructor|done]|]. rewrite Forall_cons, <-IH. destruct (f x) as [[]|e]; cbn; [tauto|]. split; [done|by intros [? _]].
Qed.

Lemma get_spread (a b : fields_map) k : NoDup (jkeys b) -> jget k (spread a b) = match jget k b with Some v => Some v | None => jget k a end.
Proof.
  unfold spread. revert a. induction b as [|[x w] b IH]; intros a Hnd; [done|]. cbn [jkeys map fst] in Hnd. apply NoDup_cons in Hnd as [Hx Hnd].
  cbn [fold_left fst snd]. rewrite IH by done. cbn [jget]. rewrite jget_jset. destruct (decide (k = x)) as [->|]; [|done].
  apply jget_None in Hx. by rewrite Hx.
Qed.

(** JSON values: objects have each key once, texts are code units. *)
Definition json_value (v : Json) : Prop := Json_ok v /\ Json_keyed v.
Definition entry_value (p : jstr * Json) : Prop := Forall (fun c => 0 <= c) p.1 /\ json_value p.2.

Lemma object_value m : json_value (OObj m) <-> NoDup (jkeys m) /\ Forall entry_value m.
Proof.
  unfold json_value, entry_value, json_value. cbn [Json_ok Json_keyed]. rewrite (fold_right_Forall entry_ok), (fold_right_Forall (fun p => Json_keyed p.2)). unfold entry_ok.
  rewrite !Forall_forall. naive_solver.
Qed.

Lemma array_value l : json_value (OArr l) <-> Forall json_value l.
Proof. unfold json_value. cbn [Json_ok Json_keyed]. rewrite !fold_right_Forall, !Forall_forall. naive_solver. Qed.

Lemma set_value k v m : json_value (OObj m) -> entry_value (k, v) -> json_value (OObj (jset k v m)).
Proof.
  rewrite !object_value. intros [Hnd Hm] Hv. split; [by apply jset_nodup|]. clear Hnd. induction m as [|[x w] m IH]; cbn [jset]; [by constructor|].
  apply Forall_cons in Hm as [Hw Hm]. destruct (decide (k = x)); constructor; auto.
Qed.

Lemma delete_value k m : json_value (OObj m) -> json_value (OObj (jdelete k m)).
Proof.
  rewrite !object_value. intros [Hnd Hm]. split; [by apply jdelete_nodup|]. clear Hnd. induction m as [|[x w] m IH]; cbn [jdelete]; [done|].
  apply Forall_cons in Hm as [Hw Hm]. destruct (decide (k = x)); [done|]. constructor; auto.
Qed.

Lemma spread_value a b : json_value (OObj a) -> Forall entry_value b -> json_value (OObj (spread a b)).
Proof. unfold spread. intros Ha Hb. revert a Ha. induction Hb as [|[k v] b Hv Hb IH]; intros a Ha; [done|]. cbn [fold_left fst snd]. by apply IH, set_value. Qed.

Lemma in_jset {V} (k : jstr) (v : V) m p : p ∈ jset k v m -> p = (k, v) \/ p ∈ m /\ (NoDup (jkeys m) -> p.1 <> k).
Proof.
  induction m as [|[x w] m IH]; cbn [jset]; [intros ->%list_elem_of_singleton; by left|]. destruct (decide (k = x)) as [->|Hne]; intros [->|Hp]%elem_of_cons.
  - by left.
  - right. split; [by right|]. cbn. intros [Hx _]%NoDup_cons <-. apply Hx. by apply list_elem_of_fmap_2.
  - right. split; [by left|]. intros _ E. by apply Hne.
  - destruct (IH Hp) as [?|[H1 H2]]; [by left|right]. split; [by right|]. cbn. intros [_ Hm]%NoDup_cons. by apply H2.
Qed.

Lemma in_jdelete {V} (k : jstr) (m : list (jstr * V)) p : NoDup (jkeys m) -> p ∈ jdelete k m <-> p ∈ m /\ p.1 <> k.
Proof.
  intros Hnd. destruct p as [x v]. cbn [fst]. rewrite <-!jget_elem by (done || by apply jdelete_nodup). rewrite jget_jdelete by done.
  destruct (decide (x = k)); naive_solver.
Qed.

Section Kept.
Context (new_URL : jstr -> option Address) (lib : Lib) (schema : AtomicSchema).
Implicit Types (store : AtomicStore) (r : AtomicResource).

Abbreviation valid := (validate new_URL lib schema).
Abbreviation puts := (put new_URL lib schema).
Abbreviation applies := (apply_ new_URL lib schema).

(** A resource in the store, under its subject. *)
Definition held (p : jstr * AtomicResource) : Prop := jget ID p.2 = Some (OStr p.1) /\ valid p.2 = Ok tt /\ json_value (OObj p.2).

Record store_ok store : Prop := { so_keys : NoDup (jkeys store); so_held : forall p, p ∈ store -> held p }.

Lemma store_ok_nil : store_ok [].
Proof. split; [constructor|by intros p ?%elem_of_nil]. Qed.

Lemma store_ok_get store subject r : store_ok store -> jget subject store = Some r -> held (subject, r).
Proof. intros [H1 H2] Hg. apply H2. by apply jget_elem. Qed.

Lemma put_spec store r store' : puts store r = Ok store' -> exists id, jget ID r = Some (OStr id) /\ valid r = Ok tt /\ store' = jset id r store.
Proof.
  unfold put. destruct (valid r) as [[]|] eqn:Ev; cbn; [|done]. intros [= <-]. unfold validate in Ev. destruct (jget ID r) as [[| | |id| |]|] eqn:Ei; try done.
  exists id. unfold id_of. by rewrite Ei.
Qed.

Lemma put_ok store r store' : store_ok store -> json_value (OObj r) -> puts store r = Ok store' -> store_ok store'.
Proof.
  intros [H1 H2] Hr (id & Hi & Hv & ->)%put_spec. split; [by apply jset_nodup|]. intros p [->|[Hp _]]%in_jset; [done|by apply H2].
Qed.

(** A patch whose values are JSON values. *)
Definition patch_value (patch : AtomicPatch) : Prop := NoDup (jkeys (default [] (set_ patch))) /\ Forall entry_value (default [] (set_ patch)).

Lemma deletes_spec l r r' : foldM (fun r property => _ ← assertSubject new_URL property; Ok (jdelete property r)) r l = Ok r' -> r' = fold_left (fun r x => jdelete x r) l r.
Proof. revert r. induction l as [|x l IH]; intros r; cbn; [by intros [= ->]|]. destruct (assertSubject _ x) as [[]|]; cbn; [apply IH|done]. Qed.

Lemma deletes_get l r k : NoDup (jkeys r) -> jget k (fold_left (fun r x => jdelete x r) l r) = if decide (k ∈ l) then None else jget k r.
Proof.
  revert r. induction l as [|x l IH]; intros r Hnd; [by rewrite decide_False by apply not_elem_of_nil|]. cbn [fold_left].
  rewrite IH by (by apply jdelete_nodup). rewrite jget_jdelete by done. destruct (decide (k ∈ l)); [by rewrite decide_True by (by right)|].
  destruct (decide (k = x)) as [->|]; [by rewrite decide_True by (by left)|]. rewrite decide_False; [done|]. by rewrite elem_of_cons; intros [?|?].
Qed.

Lemma deletes_value l r : json_value (OObj r) -> json_value (OObj (fold_left (fun r x => jdelete x r) l r)).
Proof. revert r. induction l as [|x l IH]; intros r Hr; [done|]. by apply IH, delete_value. Qed.

(** A patch sets, removes and keeps. *)
Lemma patch_spec store subject patch store' r : store_ok store -> Forall (fun c => 0 <= c) subject -> patch_value patch -> patch_ new_URL lib schema store subject patch = Ok (store', r) ->
  store' = jset subject r store /\ held (subject, r) /\
  forall k, k <> ID -> jget k r = if decide (k ∈ default [] (unset patch)) then None
                                   else match jget k (default [] (set_ patch)) with Some v => Some v | None => get store subject ≫= jget k end.
Proof.
  intros Hs Hsub [Hnd Hset] H. unfold patch_ in H. destruct (assertSubject new_URL subject) as [[]|]; cbn in H; [|done].
  destruct (has_key ID (default [] (set_ patch))) eqn:Ek; [done|]. destruct (bool_decide (ID ∈ default [] (unset patch))) eqn:Eu; [done|]. cbn [orb] in H. breflect.
  unfold patched in H. destruct (foldM _ _ _) as [r'|] eqn:Er; cbn in H; [|done]. apply deletes_spec in Er.
  destruct (puts store r') as [s1|] eqn:Ep; cbn in H; [|done]. injection H as <- <-. apply put_spec in Ep as (id & Hi & Hv & ->).
  set (old := default [(ID, OStr subject)] (get store subject)) in *.
  assert (json_value (OObj old) /\ jget ID old = Some (OStr subject)) as [Hold Hoid].
  { unfold old, get. destruct (jget subject store) as [r0|] eqn:E0; cbn.
    - apply (store_ok_get _ _ _ Hs) in E0 as (? & _ & ?). done.
    - split; [|done]. apply object_value. split; [apply NoDup_singleton|]. constructor; [|constructor]. split; [cbn [fst]; by_decide|]. split; [exact Hsub|done]. }
  assert (Hval : json_value (OObj (spread old (default [] (set_ patch))))) by (by apply spread_value).
  assert (Hget : forall k, jget k r' = if decide (k ∈ default [] (unset patch)) then None else match jget k (default [] (set_ patch)) with Some v => Some v | None => jget k old end).
  { intros k. rewrite Er, deletes_get by (by apply object_value in Hval as [? _]). by rewrite get_spread by done. }
  assert (Hrid : jget ID r' = Some (OStr subject)).
  { rewrite Hget. rewrite decide_False by done. unfold has_key in Ek. destruct (jget ID (default [] (set_ patch))); [done|exact Hoid]. }
  rewrite Hrid in Hi. injection Hi as <-. split; [done|]. split.
  - split; [done|]. split; [done|]. cbn [snd]. rewrite Er. by apply deletes_value.
  - intros k Hk. rewrite Hget. unfold old, get. destruct (jget subject store) as [r0|]; [done|]. cbn. destruct (decide (k = ID)); [done|]. done.
Qed.

Definition change_value (change : jstr * AtomicPatch) : Prop := Forall (fun c => 0 <= c) change.1 /\ patch_value change.2.

Lemma patch_ok store subject patch store' r : store_ok store -> change_value (subject, patch) -> patch_ new_URL lib schema store subject patch = Ok (store', r) -> store_ok store'.
Proof.
  intros Hs [H1 H2] H. apply patch_spec in H as (-> & Hr & _); [|done..]. destruct Hs as [Hk Hh]. split; [by apply jset_nodup|]. intros p [->|[Hp _]]%in_jset; [done|by apply Hh].
Qed.

Lemma apply_ok changes store store' : store_ok store -> Forall change_value changes -> applies store changes = Ok store' -> store_ok store'.
Proof.
  intros Hs Hc. unfold apply_. apply foldM_inv; [done|]. intros s [subject patch] s' Hs1 Hin H. cbn [fst snd] in H.
  destruct (patch_ new_URL lib schema s subject patch) as [[s1 r]|] eqn:E; cbn in H; [|done]. injection H as <-.
  rewrite Forall_forall in Hc. by apply (patch_ok s subject patch s1 r); [|apply Hc|].
Qed.

Lemma delete_ok store subject : store_ok store -> store_ok (delete store subject).
Proof. intros [H1 H2]. split; [by apply jdelete_nodup|]. intros p [Hp _]%in_jdelete; [|done]. by apply H2. Qed.

(** What an application does with the store. *)
Inductive change store : AtomicStore -> Prop :=
| by_put r store' : json_value (OObj r) -> puts store r = Ok store' -> change store store'
| by_apply changes store' : Forall change_value changes -> applies store changes = Ok store' -> change store store'
| by_delete subject : change store (delete store subject).

Lemma changes_ok store store' : store_ok store -> rtc change store store' -> store_ok store'.
Proof. intros Hs H. induction H as [|s1 s2 s3 H12 _ IH]; [done|]. apply IH. destruct H12; [by eapply put_ok|by eapply apply_ok|by apply delete_ok]. Qed.

Lemma load_items l store : NoDup (jkeys (store ++ l)) -> (forall p, p ∈ l -> held p) ->
  foldM (load_item new_URL lib schema) store (map OObj (jvalues l)) = Ok (store ++ l).
Proof.
  revert store. induction l as [|[k r] l IH]; intros store Hnd Hl; [by rewrite app_nil_r|]. cbn [jvalues map snd foldM].
  destruct (Hl (k, r) ltac:(by left)) as (Hid & Hv & _). cbn [fst snd] in Hid, Hv.
  assert (Hk : k ∉ jkeys store).
  { unfold jkeys in *. rewrite map_app in Hnd. apply NoDup_app in Hnd as (_ & Hn & _). intros Hin. apply (Hn k Hin). by left. }
  assert (load_item new_URL lib schema store (OObj r) = Ok (store ++ [(k, r)])) as ->.
  { unfold load_item, id_of. rewrite Hid. cbn [is_text text_of]. rewrite Hv. cbn [mbind res_bind].
    unfold has_key. rewrite (proj2 (jget_None _ _) Hk). by rewrite jset_fresh. }
  cbn [mbind res_bind]. specialize (IH (store ++ [(k, r)])). rewrite <-app_assoc in IH. apply IH; [done|]. intros p Hp. apply Hl. by right.
Qed.

(** A snapshot restores the store it was taken of.  Whatever was
    put, patched, applied and deleted, the store that reads the JSON-AD text of
    another holds the same resources in the same order, and nothing is refused:
    each resource is valid, is filed under its own subject, and only once. *)
Theorem snapshot_restores store other : rtc change [] store -> loadJSONAD new_URL lib schema other (toJSONAD store) = (store, Ok tt).
Proof.
  intros H. apply (changes_ok _ _ store_ok_nil) in H as [Hk Hh]. unfold loadJSONAD, toJSONAD, all.
  rewrite filter_true by done. change (map OObj (jvalues store)) with (map OObj (map snd store)).
  assert (Hv : json_value (OArr (map OObj (map snd store)))).
  { apply array_value, Forall_map, Forall_map, Forall_forall. intros p Hp. by apply Hh. }
  rewrite JSON_parse_text by apply Hv. pose proof (load_items store [] Hk Hh) as E. unfold jvalues in E. by rewrite E.
Qed.
End Kept.

Module Demo.
(** Addresses that start with [https:] or [did:], and datatypes by their URLs. *)
Definition new_URL (s : jstr) : option Address :=
  if starts_with (js "https:") s then Some (mkAddress (js "https:") [] [])
  else if starts_with (js "did:") s then Some (mkAddress (js "did:") [] []) else None.

Definition datatype (name : string) : jstr := js "https://atomicdata.dev/datatypes/" ++ js name.

Definition lib : Lib := mkLib
  (map datatype ["atomicURL"; "resourceArray"; "float"; "integer"; "timestamp"; "boolean"; "string"]%string)
  (datatype "atomicURL") (datatype "resourceArray") (datatype "float") (datatype "integer") (datatype "timestamp") (datatype "boolean") (datatype "string") (js "unknown-datatype")
  (fun v d => if jeqb d (datatype "string") && negb (is_text (Some v)) then Err "not a string"%string else Ok tt).

Definition name : jstr := js "https://example.com/name".
Definition link : jstr := js "https://example.com/link".
Definition count : jstr := js "https://example.com/count".
Definition a : jstr := js "https://example.com/a".
Definition b : jstr := js "https://example.com/b".

Definition setup : res string AtomicSchema :=
  s ← property new_URL lib (new_AtomicSchema lib) name (STRING lib);
  s ← property new_URL lib s link (ATOMIC_URL lib);
  property new_URL lib s count (INTEGER lib).
Definition schema : AtomicSchema := match setup with Ok s => s | Err _ => [] end.

Definition first : AtomicResource := [(ID, OStr a); (name, OStr (js "same")); (link, OObj [(name, OStr (js "nested"))]); (IS_A, OArr [OStr b])].
Definition change_a : list (jstr * AtomicPatch) :=
  [(a, mkPatch (Some [(count, ONum 1)]) (Some [link])); (b, mkPatch (Some [(link, OStr (js "did:ad:x+y/="))]) None)].

Lemma snapshot_restores_witness : exists store, apply_ new_URL lib schema [(a, first)] change_a = Ok store /\ store <> [] /\
  loadJSONAD new_URL lib schema [] (toJSONAD store) = (store, Ok tt).
Proof.
  destruct (apply_ new_URL lib schema [(a, first)] change_a) as [store|e] eqn:E; [|by vm_compute in E]. exists store. split; [done|].
  split; [by intros ->; vm_compute in E|]. apply (snapshot_restores new_URL lib schema store []).
  eapply rtc_l; [apply (by_put new_URL lib schema [] first [(a, first)]); [apply object_value; split; [by_decide|repeat (apply Forall_cons; split); [..|constructor]; (split; [by_decide|split; cbn; repeat split; by_decide])]|by vm_compute]|].
  apply rtc_once. apply (by_apply new_URL lib schema _ change_a); [|exact E].
  repeat (apply Forall_cons; split); [..|constructor]; (split; [by_decide|split; [by_decide|]]); (apply Forall_cons; split; [|constructor]); (split; [by_decide|split; cbn; done || by_decide]).
Defined.

(** Resources that are refused, of the repository's tests. *)
Example refused : forallb (fun r => match put new_URL lib schema [] r with Ok _ => false | Err _ => true end)
  [[(ID, OStr (js "https://example.com/has space")); (name, OStr (js "x"))]; [(ID, OStr (js "relative")); (name, OStr (js "x"))];
   [(ID, OStr a); (js "name", OStr (js "x"))]; [(ID, OStr a); (name, ONum 12)]; [(ID, OStr a); (link, OStr (js "relative"))];
   [(ID, OStr a); (link, OObj [(ID, OStr b)])]; [(ID, OStr a); (IS_A, OArr [ONum 12])]; [(ID, OStr a); (name, ONull)]] = true.
Proof. by vm_compute. Qed.

Example snapshots : forallb (fun json => match loadJSONAD new_URL lib schema [(a, first)] (js json) with (s, Err _) => bool_decide (s = [(a, first)]) | _ => false end)
  ["null"; "{}"; "[1]"; "nonsense"]%string = true.
Proof. by vm_compute. Qed.
End Demo.
