(* ===== verification/AtomicIdentity.v ===== *)
(** * Which external record a resource stands for

    Models [src/devonian/src/atomic/IdentityMap.ts].  A mapping is a resource of
    the store like any other; the map reads all of them at each call and keeps no
    state but its base.  An external id that is a number is an integer: every
    other number is refused as one that is not safe.  [get], [put] and the other
    operations of the store are those of [Atomic]. *)
From S2P Require Import Prelude Text Collections Upload Uri Json JsonParse Atomic.
Local Open Scope Z_scope.

Definition VOCAB : jstr := js "https://raw.githubusercontent.com/localthought/devonian/main/vocab/".

(* src: devonian/src/atomic/IdentityMap.ts 6-13 identity *)
Definition identity_class : jstr := VOCAB ++ js "Identity.json".
Definition identity_scope : jstr := VOCAB ++ js "scope.json".
Definition identity_entity : jstr := VOCAB ++ js "entity.json".
Definition identity_localId : jstr := VOCAB ++ js "localId.json".
Definition identity_idType : jstr := VOCAB ++ js "idType.json".
Definition identity_resource : jstr := VOCAB ++ js "resource.json".

(* src: devonian/src/atomic/IdentityMap.ts 14-14 ExternalId *)
Inductive ExternalId := IdText (s : jstr) | IdNumber (n : Z).
#[global] Instance ExternalId_eq_dec : EqDecision ExternalId.
Proof. solve_decision. Defined.

(* src: devonian/src/atomic/IdentityMap.ts 15-19 IdentityScope *)
Record IdentityScope := mkScope { scope : jstr; entity : jstr }.

(** [typeof id], [String(id)], and the id as JSON. *)
Definition typeof (id : ExternalId) : jstr := match id with IdText _ => js "string" | IdNumber _ => js "number" end.
Definition String_id (id : ExternalId) : jstr := match id with IdText s => s | IdNumber n => dec_signed n end.
Definition json_of (id : ExternalId) : Json := match id with IdText s => OStr s | IdNumber n => ONum n end.

Definition isSafeInteger (n : Z) : bool := Z.abs n <=? 2 ^ 53 - 1.

(** The integer that a text writes, when it is safe and written that way:
    [Number.isSafeInteger(Number(s)) && String(Number(s)) === s]. *)
Definition safe_integer (s : jstr) : option Z :=
  let n := match s with 45 :: t => - parse_dec t | _ => parse_dec s end in
  if isSafeInteger n && jeqb (dec_signed n) s then Some n else None.

(** [base.replace(/\/$/, '')] *)
Definition strip_slash (s : jstr) : jstr := match last s with Some 47 => removelast s | _ => s end.

Section IdentityMap.
Context (new_URL : jstr -> option Address) (lib : Lib).

(** The map's base, and the schema with the properties of a mapping. *)
(* src: devonian/src/atomic/IdentityMap.ts 22-41 AtomicIdentityMap ! *)
Definition new_AtomicIdentityMap (schema : AtomicSchema) (baseURL : jstr) : res string (jstr * AtomicSchema) :=
  _ ← assertSubject new_URL baseURL;
  match new_URL baseURL with
  | None => Err "Invalid URL"%string
  | Some url =>
      if negb (is_http (protocol url)) then Err "Identity base must be an HTTP(S) URL"%string
      else if negb (jeqb (a_search url) []) || negb (jeqb (a_hash url) []) then Err "Identity base URL cannot contain a query or fragment"%string
      else
        schema ← foldM (fun schema (p : jstr * jstr) => property new_URL lib schema p.1 p.2) schema
          [(identity_scope, ATOMIC_URL lib); (identity_entity, STRING lib); (identity_localId, STRING lib);
           (identity_idType, STRING lib); (identity_resource, ATOMIC_URL lib)];
        Ok (strip_slash baseURL, schema)
  end.

Context (schema : AtomicSchema) (base : jstr).
Implicit Types (store : AtomicStore) (sc : IdentityScope) (id : ExternalId) (subject : jstr) (r : AtomicResource).

(* src: devonian/src/atomic/IdentityMap.ts 43-58 key *)
Definition key sc id : res string jstr :=
  _ ← assertSubject new_URL (scope sc);
  if jeqb (entity sc) [] || match id with IdNumber n => negb (isSafeInteger n) | IdText s => jeqb s [] end
  then Err "Expected an entity and a nonempty string or safe integer external ID"%string
  else match encodeURIComponent (json_text (OArr [OStr (scope sc); OStr (entity sc); OStr (typeof id); json_of id])) with
       | Some k => Ok k
       | None => Err "URIError"%string
       end.

(** [resource[property] === text] *)
Definition says r (property text : jstr) : bool := bool_decide (jget property r = Some (OStr text)).

Definition in_scope sc r : bool := says r identity_scope (scope sc) && says r identity_entity (entity sc).

(** A mapping that can be read: its local id, its type and its subject. *)
(* src: devonian/src/atomic/IdentityMap.ts 147-160 find ! *)
Definition read_mapping r : option (jstr * Json * jstr) :=
  match jget identity_localId r, jget identity_idType r, jget identity_resource r with
  | Some (OStr ((_ :: _) as id)), Some type, Some (OStr subject) =>
      if bool_decide (String_of type ∈ [js "string"; js "number"])
         && negb (bool_decide (type = OStr (js "number")) && match safe_integer id with Some _ => false | None => true end)
      then Some (id, type, subject) else None
  | _, _, _ => None
  end.

(* src: devonian/src/atomic/IdentityMap.ts 147-166 find ! *)
Definition check_mapping (seen : list jstr * list jstr) r : res string (list jstr * list jstr) :=
  match read_mapping r with
  | None => Err "Invalid identity mapping"%string
  | Some (id, type, subject) =>
      let key := json_text (OArr [type; OStr id]) in
      if bool_decide (key ∈ seen.1) || bool_decide (subject ∈ seen.2) then Err "Conflicting identity mappings in snapshot"%string
      else Ok (seen.1 ++ [key], seen.2 ++ [subject])
  end.

(* src: devonian/src/atomic/IdentityMap.ts 137-168 find *)
Definition find store sc : res string (list AtomicResource) :=
  let resources := List.filter (in_scope sc) (all store (Some identity_class)) in
  _ ← foldM check_mapping ([], []) resources; Ok resources.

(* src: devonian/src/atomic/IdentityMap.ts 66-73 lookup *)
Definition lookup store sc id : res string (option jstr) :=
  _ ← key sc id;
  resources ← find store sc;
  Ok (match List.find (fun r => says r identity_localId (String_id id) && says r identity_idType (typeof id)) resources with
      | Some r => match jget identity_resource r with Some (OStr s) => Some s | _ => None end
      | None => None
      end).

(** The external id of a mapping that [find] gave. *)
(* src: devonian/src/atomic/IdentityMap.ts 79-82 externalId ! *)
Definition mapping_id r : ExternalId :=
  if says r identity_idType (js "number") then IdNumber (default 0 (safe_integer (text_of (jget identity_localId r))))
  else IdText (text_of (jget identity_localId r)).

(* src: devonian/src/atomic/IdentityMap.ts 75-83 externalId *)
Definition externalId store sc subject : res string (option ExternalId) :=
  resources ← find store sc;
  Ok (mapping_id <$> List.find (fun r => says r identity_resource subject) resources).

(* src: devonian/src/atomic/IdentityMap.ts 60-64 subjectFor *)
Definition subjectFor store sc id : res string jstr :=
  found ← lookup store sc id;
  match found with
  | Some subject => Ok subject
  | None => k ← key sc id; Ok (base ++ js "/resources/" ++ k)
  end.

(** The address of a mapping, and the mapping. *)
Definition home (k : jstr) : jstr := base ++ js "/identities/" ++ k.
(* src: devonian/src/atomic/IdentityMap.ts 97-105 bind ! *)
Definition mapping (k : jstr) sc id subject : AtomicResource :=
  [(ID, OStr (home k)); (IS_A, OArr [OStr identity_class]); (identity_scope, OStr (scope sc)); (identity_entity, OStr (entity sc));
   (identity_localId, OStr (String_id id)); (identity_idType, OStr (typeof id)); (identity_resource, OStr subject)].

(* src: devonian/src/atomic/IdentityMap.ts 85-106 bind *)
Definition bind store sc id subject : res string AtomicStore :=
  k ← key sc id;
  _ ← assertSubject new_URL subject;
  existing ← lookup store sc id;
  reverse ← externalId store sc subject;
  if negb (bool_decide (existing = None)) && negb (bool_decide (existing = Some subject))
     || negb (bool_decide (reverse = None)) && negb (bool_decide (reverse = Some id))
  then Err "Conflicting identity mapping"%string
  else if bool_decide (existing = Some subject) && bool_decide (reverse = Some id) then Ok store
  else put new_URL lib schema store (mapping k sc id subject).

(* src: devonian/src/atomic/IdentityMap.ts 108-135 unbind *)
Definition unbind store sc subject : res string (AtomicStore * option ExternalId) :=
  _ ← assertSubject new_URL (scope sc);
  _ ← assertSubject new_URL subject;
  if jeqb (entity sc) [] then Err "Expected an entity"%string
  else
    resources ← find store sc;
    match List.find (fun r => says r identity_resource subject) resources with
    | None => Ok (store, None)
    | Some r => id ← externalId store sc subject; Ok (delete store (id_of r), id)
    end.
End IdentityMap.

(** ** What a mapping tells *)

Lemma safe_integer_dec n : isSafeInteger n = true -> safe_integer (dec_signed n) = Some n.
Proof.
  intros Hn. unfold safe_integer. enough (match dec_signed n with 45 :: t => - parse_dec t | _ => parse_dec (dec_signed n) end = n) as ->.
  { rewrite Hn. unfold jeqb. by rewrite bool_decide_true. }
  unfold dec_signed. destruct (Z.ltb_spec n 0) as [Hlt|Hge].
  - destruct (dec_spec (- n)) as (H & _ & _); [lia|]. rewrite H. lia.
  - destruct (dec_spec n Hge) as (H & Hd & Hne). destruct (dec n) as [|c t]; [done|]. forall_split. rewrite <-H.
    assert (c <> 45) by (intros ->; done). by repeat case_match.
Qed.

Lemma safe_integer_text s n : safe_integer s = Some n -> s = dec_signed n /\ isSafeInteger n = true.
Proof.
  unfold safe_integer. intros H. set (m := match s with 45 :: t => _ | _ => _ end) in H. destruct (isSafeInteger m) eqn:Es; [|done]. cbn [andb] in H.
  unfold jeqb in H. destruct (bool_decide (dec_signed m = s)) eqn:Ed; [|done]. breflect. injection H as <-. done.
Qed.

Definition id_ok (id : ExternalId) : Prop := match id with IdText s => s <> [] | IdNumber n => isSafeInteger n = true end.

(** A mapping resource between an external id and a subject. *)
Definition tells (r : AtomicResource) (id : ExternalId) (subject : jstr) : Prop :=
  id_ok id /\ jget identity_localId r = Some (OStr (String_id id)) /\ jget identity_idType r = Some (OStr (typeof id)) /\
  jget identity_resource r = Some (OStr subject).

Lemma id_inj id id' : String_id id = String_id id' -> typeof id = typeof id' -> id = id'.
Proof.
  destruct id as [s|n], id' as [s'|n']; cbn; intros H1 H2; [by subst|by vm_compute in H2|by vm_compute in H2|].
  assert (no_digit []) by done. destruct (dec_signed_prefix n n' [] [] I I) as [-> _]; [by rewrite !app_nil_r|done].
Qed.

Lemma tells_fun r id subject id' subject' : tells r id subject -> tells r id' subject' -> id = id' /\ subject = subject'.
Proof. intros (_ & H1 & H2 & H3) (_ & H1' & H2' & H3'). rewrite H1 in H1'. rewrite H2 in H2'. rewrite H3 in H3'. split; [|congruence]. apply id_inj; congruence. Qed.

Definition typed (r : AtomicResource) : Prop := forall v, jget identity_idType r = Some v -> is_text (Some v) = true.

(** The key that [find] compares. *)
Definition code (id : ExternalId) : jstr := json_text (OArr [OStr (typeof id); OStr (String_id id)]).

Lemma read_tells r id type subject : typed r -> read_mapping r = Some (id, type, subject) ->
  tells r (mapping_id r) subject /\ json_text (OArr [type; OStr id]) = code (mapping_id r).
Proof.
  intros Ht. unfold read_mapping, mapping_id, says, tells. destruct (jget identity_localId r) as [[| | |[|c l]| |]|]; try done.
  destruct (jget identity_idType r) as [ty|] eqn:Ety; [|done]. destruct (jget identity_resource r) as [[| | |s| |]|]; try done.
  apply Ht in Ety as Htext. destruct ty as [| | |t| |]; try done. clear Ht. cbn [String_of]. destruct (bool_decide (t ∈ _)) eqn:Ein; [|done]. breflect.
  cbn [andb]. destruct (decide (t = js "number")) as [->|Hne].
  - rewrite !(bool_decide_true (_ = _)) by done. cbn [andb text_of]. destruct (safe_integer (c :: l)) as [n|] eqn:En; [|done]. intros [= <- <- <-].
    apply safe_integer_text in En as [E Hs]. rewrite E. change (default 0 (Some n)) with n. cbn [id_ok String_id typeof]. done.
  - rewrite !(bool_decide_false (_ = _)) by congruence. cbn [andb negb text_of]. intros [= <- <- <-]. cbn [id_ok String_id typeof].
    assert (t = js "string") as ->; [|done]. apply elem_of_cons in Ein as [->|Ein%list_elem_of_singleton]; [done|by subst].
Qed.

Lemma tells_read r id subject : tells r id subject -> is_Some (read_mapping r) /\ mapping_id r = id.
Proof.
  intros (Hok & H1 & H2 & H3). unfold read_mapping, mapping_id, says. rewrite H1, H2, H3. destruct id as [s|n]; cbn [String_id typeof id_ok String_of text_of] in *.
  - destruct s as [|c l]; [done|]. split; [|by rewrite bool_decide_false by done]. rewrite (bool_decide_true (_ ∈ _)) by (by left). rewrite bool_decide_false by done. by eexists.
  - rewrite safe_integer_dec by done. rewrite !(bool_decide_true (_ = _)) by done. split; [|done]. rewrite bool_decide_true by (right; by left).
    destruct (dec_signed n) as [|c l] eqn:E; [|by eexists]. exfalso. unfold dec_signed in E. destruct (Z.ltb_spec n 0); [done|]. by apply (dec_spec n).
Qed.

(** ** What [find] checks *)

Definition code_of (r : AtomicResource) : jstr := match read_mapping r with Some (id, type, _) => json_text (OArr [type; OStr id]) | None => [] end.
Definition subject_of (r : AtomicResource) : jstr := match read_mapping r with Some (_, _, s) => s | None => [] end.

Record well (l : list AtomicResource) : Prop := {
  we_read : forall r, r ∈ l -> is_Some (read_mapping r);
  we_codes : NoDup (map code_of l);
  we_subjects : NoDup (map subject_of l);
}.

Lemma check_step seen r : check_mapping seen r = match read_mapping r with
  | None => Err "Invalid identity mapping"%string
  | Some (id, type, subject) =>
      if bool_decide (json_text (OArr [type; OStr id]) ∈ seen.1) || bool_decide (subject ∈ seen.2) then Err "Conflicting identity mappings in snapshot"%string
      else Ok (seen.1 ++ [json_text (OArr [type; OStr id])], seen.2 ++ [subject])
  end.
Proof. done. Qed.

Lemma check_all l : forall ids subjects, (exists seen, foldM check_mapping (ids, subjects) l = Ok seen) <->
  (forall r, r ∈ l -> is_Some (read_mapping r)) /\ NoDup (map code_of l) /\ NoDup (map subject_of l) /\
  (forall r, r ∈ l -> code_of r ∉ ids) /\ (forall r, r ∈ l -> subject_of r ∉ subjects).
Proof.
  induction l as [|r l IH]; intros ids subjects.
  - split; [|intros _; by eexists]. intros _. split_and!; try (by constructor); by intros r ?%elem_of_nil.
  - cbn [foldM map]. rewrite check_step. destruct (read_mapping r) as [[[id type] subject]|] eqn:Er.
    2: { cbn [mbind res_bind]. split; [by intros [? ?]|]. intros (H & _). destruct (H r ltac:(by left)) as [? E]. congruence. }
    cbn [fst snd]. assert (Hc : code_of r = json_text (OArr [type; OStr id])) by (unfold code_of; by rewrite Er).
    assert (Hs : subject_of r = subject) by (unfold subject_of; by rewrite Er). rewrite <-Hc. rewrite <-Hs.
    destruct (bool_decide (code_of r ∈ ids)) eqn:E1; cbn [orb]; breflect.
    { cbn [mbind res_bind]. split; [by intros [? ?]|]. intros (_ & _ & _ & H & _). by destruct (H r ltac:(by left)). }
    destruct (bool_decide (subject_of r ∈ subjects)) eqn:E2; breflect.
    { cbn [mbind res_bind]. split; [by intros [? ?]|]. intros (_ & _ & _ & _ & H). by destruct (H r ltac:(by left)). }
    cbn [mbind res_bind]. rewrite IH. rewrite !NoDup_cons, !list_elem_of_fmap. split.
    + intros (H1 & H2 & H3 & H4 & H5). split_and!; try done.
      * intros x [->|Hx]%elem_of_cons; [by eexists|by apply H1].
      * intros (x & Ex & Hx). apply (H4 x Hx). rewrite <-Ex. apply elem_of_app. right. by left.
      * intros (x & Ex & Hx). apply (H5 x Hx). rewrite <-Ex. apply elem_of_app. right. by left.
      * intros x [->|Hx]%elem_of_cons; [done|]. intros Hin. apply (H4 x Hx). apply elem_of_app. by left.
      * intros x [->|Hx]%elem_of_cons; [done|]. intros Hin. apply (H5 x Hx). apply elem_of_app. by left.
    + intros (H1 & [H2 H2'] & [H3 H3'] & H4 & H5). split_and!; try done.
      * intros x Hx. apply H1. by right.
      * intros x Hx [Hin| E%list_elem_of_singleton]%elem_of_app; [by apply (H4 x (list_elem_of_further _ _ _ Hx))|]. apply H2. by exists x.
      * intros x Hx [Hin| E%list_elem_of_singleton]%elem_of_app; [by apply (H5 x (list_elem_of_further _ _ _ Hx))|]. apply H3. by exists x.
Qed.

(** The mappings of a scope. *)
Definition mappings (store : AtomicStore) (sc : IdentityScope) : list AtomicResource := List.filter (in_scope sc) (all store (Some identity_class)).

Lemma find_well store sc rs : find store sc = Ok rs <-> rs = mappings store sc /\ well (mappings store sc).
Proof.
  unfold find. fold (mappings store sc). pose proof (check_all (mappings store sc) [] []) as H. destruct (foldM _ _ _) as [seen|e] eqn:E; cbn [mbind res_bind].
  - assert (Hw : well (mappings store sc)) by (destruct H as [H _]; destruct H as (? & ? & ? & _); [by eexists|by split]). split; [by intros [= <-]|by intros [-> _]].
  - split; [done|]. intros [_ [H1 H2 H3]]. destruct H as [_ H]. destruct H as [seen Es]; [|done].
    split_and!; try done; intros r Hr; apply not_elem_of_nil.
Qed.

Lemma well_perm l k : l ≡ₚ k -> well l -> well k.
Proof.
  intros Hp [H1 H2 H3]. split.
  - intros r. rewrite <-Hp. apply H1.
  - by rewrite <-Hp.
  - by rewrite <-Hp.
Qed.

(** ** Addresses of mappings *)

Definition path_char (c : Z) : bool := uri_char c || (c =? 47).

(** What the map relies on of [URL]: the addresses of the vocabularies are
    addresses, and so is a path below an address without a query or a fragment. *)
Class Urls (new_URL : jstr -> option Address) : Prop := {
  url_known : forall b, b ∈ [js "https://atomicdata.dev/"; js "https://raw.githubusercontent.com/"] ->
    exists u, new_URL b = Some u /\ is_http (protocol u) = true /\ a_search u = [] /\ a_hash u = [];
  url_child : forall b u path, new_URL b = Some u -> is_http (protocol u) = true -> a_search u = [] -> a_hash u = [] ->
    Forall (fun c => path_char c = true) path ->
    exists u', new_URL (strip_slash b ++ [47] ++ path) = Some u' /\ is_http (protocol u') = true;
}.

(** What it relies on of [@tomic/lib]: its datatypes differ, and a value of the
    datatype [STRING] is a text. *)
Class Tomic (lib : Lib) : Prop := {
  tomic_distinct : NoDup [ATOMIC_URL lib; RESOURCEARRAY lib; FLOAT lib; INTEGER lib; TIMESTAMP lib; BOOLEAN lib; STRING lib; UNKNOWN lib];
  tomic_named : forall d, d ∈ [ATOMIC_URL lib; RESOURCEARRAY lib; STRING lib] -> d <> [] /\ d ∈ datatypes lib;
  tomic_string : forall v, validateDatatype lib v (STRING lib) = Ok tt <-> is_text (Some v) = true;
}.

Lemma units_of (s : jstr) : forallb (fun c => (0 <=? c) && (c <? 0x10000)) s = true -> Forall code_unit s.
Proof. intros H. apply Forall_forall. intros c Hc. rewrite forallb_forall in H. apply list_elem_of_In, H in Hc. unfold code_unit. lia. Qed.

Lemma quote_unit_code lone c : code_unit c -> Forall code_unit (quote_unit lone c).
Proof.
  intros Hc. unfold quote_unit. assert (Hhex : forall n, 0 <= n < 16 -> code_unit (hex_digit n)) by (intros n Hn; unfold hex_digit, code_unit; destruct (Z.ltb_spec n 10); lia).
  do 7 (destruct (c =? _); [by apply units_of|]). destruct ((c <? 32) || lone); [|by repeat constructor; apply Hc].
  apply Forall_app. split; [by apply units_of|]. repeat constructor; apply Hhex; dlia.
Qed.

Lemma quote_units_code s : Forall code_unit s -> Forall code_unit (quote_units s).
Proof.
  remember (length s) as n eqn:En. revert s En. induction (lt_wf n) as [n _ IH]. intros [|c [|d s]] En Hs; [constructor|by apply quote_unit_code; inversion Hs|].
  apply Forall_cons in Hs as [Hc Hs]. cbn [quote_units]. destruct (_ && _ && _ && _).
  - apply Forall_cons in Hs as [Hd Hs]. rewrite !Forall_app. split_and!; [by apply quote_unit_code..|]. by apply (IH (length s)); [subst n; cbn; lia|..].
  - apply Forall_app. split; [by apply quote_unit_code|]. change (Forall code_unit (quote_units (d :: s))). apply (IH (length (d :: s))); [subst n; cbn; lia|done|done].
Qed.

Lemma quote_code s : Forall code_unit s -> Forall code_unit (quote s).
Proof. intros H. unfold quote. constructor; [unfold code_unit; lia|]. apply Forall_app. split; [by apply quote_units_code|by apply units_of]. Qed.

Lemma dec_signed_code n : Forall code_unit (dec_signed n).
Proof.
  assert (H : forall m, 0 <= m -> Forall code_unit (dec m)).
  { intros m Hm. destruct (dec_spec m Hm) as (_ & Hd & _). eapply Forall_impl; [exact Hd|]. intros c Hc. unfold is_digit in Hc. unfold code_unit. lia. }
  unfold dec_signed. destruct (Z.ltb_spec n 0); [|by apply H]. constructor; [unfold code_unit; lia|]. apply H. lia.
Qed.

(** A scope and an id whose texts are texts. *)
Definition scoped (sc : IdentityScope) (id : ExternalId) : Prop := Forall code_unit (scope sc) /\ Forall code_unit (entity sc) /\ Forall code_unit (String_id id).

Definition key_json (sc : IdentityScope) (id : ExternalId) : Json := OArr [OStr (scope sc); OStr (entity sc); OStr (typeof id); json_of id].

Lemma key_json_code sc id : scoped sc id -> Forall code_unit (json_text (key_json sc id)).
Proof.
  intros (H1 & H2 & H3). unfold key_json. cbn [json_text map join_str]. change (js "[") with [91]. change (js "]") with [93]. change (js ",") with [44].
  assert (Hid : Forall code_unit (json_text (json_of id))) by (destruct id; cbn [json_of json_text]; [by apply quote_code|apply dec_signed_code]).
  assert (Ht : Forall code_unit (quote (typeof id))) by (apply quote_code; destruct id; by apply units_of).
  assert (Hc : forall c, 0 <= c < 256 -> Forall code_unit [c]) by (intros c Hc; repeat constructor; unfold code_unit; lia).
  rewrite !Forall_app. split_and!; try (by apply Hc); try (by apply quote_code); done.
Qed.

Lemma units_ok s : Forall code_unit s -> Forall (fun c => 0 <= c) s.
Proof. intros H. eapply Forall_impl; [exact H|]. unfold code_unit. lia. Qed.

Lemma key_json_inj sc id sc' id' : scoped sc id -> scoped sc' id' -> json_text (key_json sc id) = json_text (key_json sc' id') -> sc = sc' /\ id = id'.
Proof.
  assert (Hok : forall sc id, scoped sc id -> Json_ok (key_json sc id)).
  { intros s i (H1 & H2 & H3). cbn. split_and!; try (by apply units_ok); [destruct i; cbn; by_decide|destruct i; cbn; [by apply units_ok|done]|done]. }
  intros H1 H2 E. apply json_text_inj in E; [|by apply Hok..]. destruct sc as [s e], sc' as [s' e']. unfold key_json in E. cbn [scope entity] in E.
  injection E as -> -> _ Ei. split; [done|]. destruct id, id'; cbn in Ei; congruence.
Qed.

(** ** Finding mappings *)

(** A mapping of the scope between the id and the subject. *)
Definition binds (store : AtomicStore) (sc : IdentityScope) (id : ExternalId) (subject : jstr) : Prop := exists r, r ∈ mappings store sc /\ tells r id subject.

Record readable (store : AtomicStore) : Prop := {
  rd_well : forall sc, well (mappings store sc);
  rd_typed : forall sc r, r ∈ mappings store sc -> typed r;
}.

Lemma tells_code r id subject : tells r id subject -> code_of r = code id /\ subject_of r = subject.
Proof.
  intros (Hok & H1 & H2 & H3). destruct (tells_read r id subject) as [[[[i t] s] E] _]; [done|]. unfold code_of, subject_of. rewrite E.
  unfold read_mapping in E. rewrite H1, H2, H3 in E. destruct (String_id id) as [|c l] eqn:Es; [done|]. destruct (_ && _); [|done]. injection E as <- <- <-.
  unfold code. by rewrite Es.
Qed.

(** Within a scope an id has one subject, and a subject one id. *)
Lemma binds_one_subject store sc id s s' : readable store -> binds store sc id s -> binds store sc id s' -> s = s'.
Proof.
  intros [Hw _] (r & Hr & Ht) (r' & Hr' & Ht'). destruct (Hw sc) as [_ Hc _]. destruct (tells_code _ _ _ Ht) as [E <-], (tells_code _ _ _ Ht') as [E' <-].
  f_equal. apply (nodup_map_inj code_of (mappings store sc)); congruence.
Qed.

Lemma binds_one_id store sc id id' s : readable store -> binds store sc id s -> binds store sc id' s -> id = id'.
Proof.
  intros [Hw _] (r & Hr & Ht) (r' & Hr' & Ht'). destruct (Hw sc) as [_ _ Hs]. destruct (tells_code _ _ _ Ht) as [_ E], (tells_code _ _ _ Ht') as [_ E'].
  assert (r = r') as <- by (apply (nodup_map_inj subject_of (mappings store sc)); congruence). by destruct (tells_fun _ _ _ _ _ Ht Ht').
Qed.

Lemma find_readable store sc : readable store -> find store sc = Ok (mappings store sc).
Proof. intros [Hw _]. by apply find_well. Qed.

(** The subject of a mapping of a readable store. *)
Lemma mapping_told store sc r : readable store -> r ∈ mappings store sc -> exists subject, tells r (mapping_id r) subject.
Proof.
  intros [Hw Ht] Hr. destruct (we_read _ (Hw sc) r Hr) as [[[id type] subject] E]. exists subject. eapply read_tells; [by eapply Ht|done].
Qed.

Lemma find_some {A} (P : A -> bool) (l : list A) x : List.find P l = Some x -> x ∈ l /\ P x = true.
Proof. intros H. apply List.find_some in H as [H1 H2]. split; [by apply list_elem_of_In|done]. Qed.

Lemma find_none {A} (P : A -> bool) (l : list A) x : List.find P l = None -> x ∈ l -> P x = false.
Proof. intros H Hx. eapply List.find_none; [exact H|by apply list_elem_of_In]. Qed.

Lemma says_iff r k t : says r k t = true <-> jget k r = Some (OStr t).
Proof. apply bool_decide_eq_true. Qed.

Section Map.
Context (new_URL : jstr -> option Address) (lib : Lib) (schema : AtomicSchema) (base : jstr).
Implicit Types (store : AtomicStore) (sc : IdentityScope) (id : ExternalId) (subject : jstr) (r : AtomicResource).

Lemma key_id sc id k : key new_URL sc id = Ok k -> id_ok id /\ assertSubject new_URL (scope sc) = Ok tt /\ entity sc <> [].
Proof.
  unfold key. destruct (assertSubject new_URL (scope sc)) as [[]|]; cbn [mbind res_bind]; [|done].
  destruct (jeqb (entity sc) []) eqn:Ee; [done|]. cbn [orb]. destruct (match id with IdText s => _ | IdNumber n => _ end) eqn:Ei; [done|]. intros _.
  split_and!; [|done|by intros E; rewrite E in Ee]. destruct id as [s|n]; cbn [id_ok]; [by intros ->|by apply negb_false_iff].
Qed.

Lemma key_encodes sc id k : key new_URL sc id = Ok k -> encodeURIComponent (json_text (key_json sc id)) = Some k.
Proof.
  unfold key. fold (key_json sc id). destruct (assertSubject new_URL (scope sc)) as [[]|]; cbn [mbind res_bind]; [|done]. destruct (_ || _); [done|].
  destruct (encodeURIComponent _) as [k'|]; [by intros [= ->]|done].
Qed.

Lemma identity_key_inj sc id sc' id' k : scoped sc id -> scoped sc' id' -> key new_URL sc id = Ok k -> key new_URL sc' id' = Ok k -> sc = sc' /\ id = id'.
Proof.
  intros H1 H2 Hk Hk'. apply key_encodes, decode_encode in Hk; [|by apply key_json_code]. apply key_encodes, decode_encode in Hk'; [|by apply key_json_code].
  apply key_json_inj; congruence.
Qed.

Lemma lookup_spec store sc id k : readable store -> key new_URL sc id = Ok k ->
  exists found, lookup new_URL store sc id = Ok found /\ forall subject, found = Some subject <-> binds store sc id subject.
Proof.
  intros Hrd Hk. destruct (key_id _ _ _ Hk) as (Hid & _ & _). unfold lookup. rewrite Hk. cbn [mbind res_bind]. rewrite find_readable by done. cbn [mbind res_bind].
  eexists. split; [done|]. intros subject. destruct (List.find _ _) as [r|] eqn:Ef.
  - apply find_some in Ef as [Hr [H1 H2]%andb_true_iff]. apply says_iff in H1, H2. destruct (mapping_told _ _ _ Hrd Hr) as [s Hs].
    destruct Hs as (Hok & H1' & H2' & H3). rewrite H3. assert (mapping_id r = id) as E by (apply id_inj; congruence).
    split; [intros [= ->]; exists r; split; [done|by rewrite <-E]|]. intros Hb. f_equal. apply (binds_one_subject store sc id); [done| |done].
    exists r. split; [done|by rewrite <-E].
  - split; [done|]. intros (r & Hr & _ & H1 & H2 & _). apply (find_none _ _ r) in Ef; [|done]. apply andb_false_iff in Ef as [Ef|Ef]; apply not_true_iff_false in Ef; by rewrite says_iff in Ef.
Qed.

Lemma externalId_spec store sc subject : readable store ->
  exists found, externalId store sc subject = Ok found /\ forall id, found = Some id <-> binds store sc id subject.
Proof.
  intros Hrd. unfold externalId. rewrite find_readable by done. cbn [mbind res_bind]. eexists. split; [done|]. intros id. destruct (List.find _ _) as [r|] eqn:Ef; cbn [fmap option_fmap option_map].
  - apply find_some in Ef as [Hr H]. apply says_iff in H. destruct (mapping_told _ _ _ Hrd Hr) as [s Hs].
    assert (s = subject) as -> by (destruct Hs as (_ & _ & _ & E); congruence).
    split; [intros [= <-]; by exists r|]. intros Hb. f_equal. apply (binds_one_id store sc _ _ subject); [done|by exists r|done].
  - split; [done|]. intros (r & Hr & _ & _ & _ & H). apply (find_none _ _ r) in Ef; [|done]. apply not_true_iff_false in Ef. by rewrite says_iff in Ef.
Qed.
End Map.

(** ** Writing mappings *)

Definition is_mapping : AtomicResource -> bool := has_class (Some identity_class).

Lemma put_filter (P : AtomicResource -> bool) h r (store : AtomicStore) : (forall old, jget h store = Some old -> P old = false) ->
  List.filter P (jvalues (jset h r store)) ≡ₚ List.filter P (r :: jvalues store).
Proof.
  induction store as [|[x w] store IH]; intros Hold; [done|]. cbn [jget] in Hold. cbn [jset]. destruct (decide (h = x)) as [->|Hne].
  - cbn [jvalues map snd List.filter]. by rewrite (Hold w eq_refl).
  - cbn [jvalues map snd List.filter] in *. destruct (P w); [|by apply IH]. etransitivity; [apply perm_skip, IH, Hold|]. cbn [List.filter]. destruct (P r); [constructor|done].
Qed.

Lemma delete_values h r (store : AtomicStore) : jget h store = Some r -> jvalues store ≡ₚ r :: jvalues (jdelete h store).
Proof.
  induction store as [|[x w] store IH]; [done|]. cbn [jget jdelete]. destruct (decide (h = x)) as [->|Hne]; [by intros [= ->]|].
  intros H. cbn [jvalues map snd] in *. etransitivity; [apply perm_skip, IH, H|constructor].
Qed.

Lemma delete_none h (store : AtomicStore) : jget h store = None -> jdelete h store = store.
Proof. induction store as [|[x w] store IH]; [done|]. cbn [jget jdelete]. destruct (decide (h = x)); [done|]. intros H. by rewrite IH. Qed.

Lemma mappings_filter store sc : mappings store sc = List.filter (fun r => is_mapping r && in_scope sc r) (jvalues store).
Proof.
  unfold mappings, all. fold is_mapping. induction (jvalues store) as [|r l IH]; [done|]. cbn [List.filter]. destruct (is_mapping r); cbn [andb List.filter]; by rewrite IH.
Qed.

Lemma path_char_range c : path_char c = true -> 33 <= c <= 126 /\ is_ws c = false.
Proof.
  unfold path_char. intros H. apply orb_true_iff in H as [H|H]; [|apply Z.eqb_eq in H as ->; by vm_compute].
  destruct (uri_char_plain c H) as [Hw _]. split; [|done]. unfold uri_char, unreserved, is_digit, is_upper in H.
  destruct (decide (c ∈ js "-_.!~*'()")) as [Hin|Hout].
  - vm_compute in Hin. repeat (apply elem_of_cons in Hin as [->|Hin]; [lia|]). by apply elem_of_nil in Hin.
  - rewrite (bool_decide_false _ Hout) in H. lia.
Qed.

Section Write.
Context (new_URL : jstr -> option Address) (lib : Lib) `{!Urls new_URL, !Tomic lib}.

Definition clean (s : jstr) : Prop := Forall (fun c => is_ws c = false /\ 32 <= c /\ c <> 127) s.

Lemma clean_spec s : clean s <-> existsb is_ws s || existsb (fun c => (c <? 32) || (c =? 127)) s = false.
Proof.
  induction s as [|c s IH]; cbn [existsb]; [split; [done|constructor]|]. unfold clean in *. rewrite Forall_cons, IH.
  destruct (is_ws c), (existsb is_ws s), (Z.ltb_spec c 32), (Z.eqb_spec c 127), (existsb _ s); cbn; split; intros; destruct_and?; try done; try lia; split_and?; try done; lia.
Qed.

Lemma assert_http s u : clean s -> new_URL s = Some u -> is_http (protocol u) = true -> assertSubject new_URL s = Ok tt.
Proof. intros H Hu Hh. unfold assertSubject. apply clean_spec in H. by rewrite H, Hu, Hh. Qed.

Lemma assert_clean s : assertSubject new_URL s = Ok tt -> clean s.
Proof. intros H. apply clean_spec. unfold assertSubject in H. by destruct (_ || _). Qed.

Lemma clean_path path : Forall (fun c => path_char c = true) path -> clean path.
Proof. intros H. eapply Forall_impl; [exact H|]. intros c [? ?]%path_char_range. split_and!; [done|lia|lia]. Qed.

Lemma strip_snoc s d : strip_slash (s ++ [d]) = if d =? 47 then s else s ++ [d].
Proof. unfold strip_slash. rewrite last_snoc, removelast_last. destruct (Z.eqb_spec d 47) as [->|]; [done|]. by repeat case_match. Qed.

Lemma clean_strip s : clean s -> clean (strip_slash s).
Proof.
  destruct s as [|d s _] using rev_ind; [done|]. rewrite strip_snoc. intros H. destruct (d =? 47); [|done]. by apply Forall_app in H as [? _].
Qed.

Lemma assert_below b u path : clean b -> new_URL b = Some u -> is_http (protocol u) = true -> a_search u = [] -> a_hash u = [] ->
  Forall (fun c => path_char c = true) path -> assertSubject new_URL (strip_slash b ++ [47] ++ path) = Ok tt.
Proof using Urls0.
  intros Hb Hu Hh Hs Hf Hp. destruct (url_child b u path Hu Hh Hs Hf Hp) as (u' & Hu' & Hh'). eapply assert_http; [|exact Hu'|exact Hh'].
  apply Forall_app. split; [by apply clean_strip|]. apply Forall_app. split; [|by apply clean_path]. repeat constructor; done.
Qed.

Lemma known_ok s : s ∈ [IS_A; identity_class; identity_scope; identity_entity; identity_localId; identity_idType; identity_resource] -> assertSubject new_URL s = Ok tt.
Proof using Urls0.
  assert (H : forall b path, b ∈ [js "https://atomicdata.dev/"; js "https://raw.githubusercontent.com/"] ->
    forallb path_char path = true -> assertSubject new_URL (strip_slash b ++ [47] ++ path) = Ok tt).
  { intros b path Hb Hp. destruct (url_known b Hb) as (u & Hu & Hh & Hs & Hf). apply (assert_below b u); try done.
    - apply clean_spec. repeat (apply elem_of_cons in Hb as [->|Hb]; [by vm_compute|]). by apply elem_of_nil in Hb.
    - apply Forall_forall. intros c Hc. rewrite forallb_forall in Hp. by apply Hp, list_elem_of_In. }
  assert (Hv : forall path, forallb path_char path = true -> assertSubject new_URL (VOCAB ++ path) = Ok tt).
  { intros path Hp. assert (VOCAB ++ path = strip_slash (js "https://raw.githubusercontent.com/") ++ [47] ++ (js "localthought/devonian/main/vocab/" ++ path)) as ->.
    { rewrite !app_assoc. f_equal. }
    apply H; [right; by left|]. rewrite forallb_app, Hp. by vm_compute. }
  intros Hs. apply elem_of_cons in Hs as [->|Hs]; [by apply (H (js "https://atomicdata.dev/") (js "properties/isA")); [left|vm_compute]|].
  repeat (apply elem_of_cons in Hs as [->|Hs]; [by apply Hv; vm_compute|]). by apply elem_of_nil in Hs.
Qed.

(** The schema knows the properties of a mapping. *)
Record knows (schema : AtomicSchema) : Prop := {
  kn_isA : jget IS_A schema = Some (RESOURCEARRAY lib);
  kn_links : forall p, p ∈ [identity_scope; identity_resource] -> jget p schema = Some (ATOMIC_URL lib);
  kn_texts : forall p, p ∈ [identity_entity; identity_localId; identity_idType] -> jget p schema = Some (STRING lib);
}.

Lemma property_set schema subject datatype schema' : property new_URL lib schema subject datatype = Ok schema' -> schema' = jset subject datatype schema.
Proof. unfold property. destruct (assertSubject _ _) as [[]|]; cbn [mbind res_bind]; [|done]. destruct (_ || _); [done|]. destruct (conflicts _ _); [done|]. by intros [= <-]. Qed.

Lemma map_made schema0 baseURL base schema : jget IS_A schema0 = Some (RESOURCEARRAY lib) ->
  new_AtomicIdentityMap new_URL lib schema0 baseURL = Ok (base, schema) ->
  knows schema /\ forall path, Forall (fun c => path_char c = true) path -> assertSubject new_URL (base ++ [47] ++ path) = Ok tt.
Proof using Urls0.
  intros H0 H. unfold new_AtomicIdentityMap in H. destruct (assertSubject new_URL baseURL) as [[]|] eqn:Ea; cbn [mbind res_bind] in H; [|done].
  destruct (new_URL baseURL) as [url|] eqn:Eu; [|done]. destruct (is_http (protocol url)) eqn:Eh; [|done]. cbn [negb] in H.
  destruct (jeqb (a_search url) []) eqn:E1; [|done]. destruct (jeqb (a_hash url) []) eqn:E2; [|done]. cbn [negb orb] in H. unfold jeqb in E1, E2. breflect.
  apply bind_Ok in H as (schema' & Ef & H). injection H as <- <-. split.
  - cbn [foldM fst snd] in Ef. repeat (apply bind_Ok in Ef as (? & ->%property_set & Ef)). injection Ef as <-.
    split; intros; rewrite ?jget_jset.
    + repeat (rewrite decide_False by done). done.
    + repeat (apply elem_of_cons in H as [->|H]); [..|by apply elem_of_nil in H]; repeat (first [rewrite decide_True by done|rewrite decide_False by done]); done.
    + repeat (apply elem_of_cons in H as [->|H]); [..|by apply elem_of_nil in H]; repeat (first [rewrite decide_True by done|rewrite decide_False by done]); done.
  - intros path Hp. apply (assert_below baseURL url); try done. by apply assert_clean.
Qed.
End Write.

(** ** The invariant of the map *)

Lemma lib_facts (lib : Lib) `{!Tomic lib} : STRING lib <> [] /\ ATOMIC_URL lib <> [] /\ RESOURCEARRAY lib <> [] /\
  jeqb (STRING lib) (ATOMIC_URL lib) = false /\ jeqb (STRING lib) (RESOURCEARRAY lib) = false /\ jeqb (STRING lib) (BOOLEAN lib) = false /\
  jeqb (RESOURCEARRAY lib) (ATOMIC_URL lib) = false /\ bool_decide (STRING lib ∈ [FLOAT lib; INTEGER lib; TIMESTAMP lib]) = false.
Proof.
  assert (Hn : forall d, d ∈ [ATOMIC_URL lib; RESOURCEARRAY lib; STRING lib] -> d <> []) by (intros d Hd; by apply tomic_named).
  pose proof (tomic_distinct (lib := lib)) as Hd. rewrite !NoDup_cons in Hd. unfold jeqb. rewrite !bool_decide_eq_false.
  destruct_and!. split_and!; try (apply Hn; set_solver); set_solver.
Qed.

Section Refines.
Context (new_URL : jstr -> option Address) (lib : Lib) `{!Urls new_URL, !Tomic lib}.
Context (schema0 : AtomicSchema) (baseURL base : jstr) (schema : AtomicSchema).
Context (H0 : jget IS_A schema0 = Some (RESOURCEARRAY lib)) (Hmap : new_AtomicIdentityMap new_URL lib schema0 baseURL = Ok (base, schema)).
Implicit Types (store : AtomicStore) (sc : IdentityScope) (id : ExternalId) (subject : jstr) (r : AtomicResource).

Abbreviation key := (key new_URL).
Abbreviation home := (home base).

Lemma text_property named p v : p ∈ [identity_entity; identity_localId; identity_idType] ->
  validateProperty new_URL lib schema (validateLink new_URL lib schema) named (p, v) = Ok tt <-> is_text (Some v) = true.
Proof using Urls0 Tomic0 Hmap H0.
  intros Hp. destruct (map_made new_URL lib schema0 baseURL base schema H0 Hmap) as [[_ _ Hk] _]. destruct (lib_facts lib) as (Hne & _ & _ & E1 & E2 & E3 & _ & E4).
  unfold validateProperty. cbn [fst snd]. assert (jeqb p ID = false) as ->.
  { apply bool_decide_eq_false. intros ->. repeat (apply elem_of_cons in Hp as [E|Hp]; [by vm_compute in E|]). by apply elem_of_nil in Hp. }
  cbn [andb]. rewrite known_ok by set_solver. cbn [mbind res_bind]. rewrite (Hk p Hp). destruct (STRING lib) as [|c d] eqn:Es; [done|]. rewrite E1, E2, E3, E4. cbn [andb].
  rewrite <-Es. destruct v; cbn [is_null]; try apply tomic_string. done.
Qed.

Lemma link_property named p s : p ∈ [identity_scope; identity_resource] -> assertSubject new_URL s = Ok tt ->
  validateProperty new_URL lib schema (validateLink new_URL lib schema) named (p, OStr s) = Ok tt.
Proof using Urls0 Tomic0 Hmap H0.
  intros Hp Hs. destruct (map_made new_URL lib schema0 baseURL base schema H0 Hmap) as [[_ Hk _] _]. destruct (lib_facts lib) as (_ & Hne & _).
  unfold validateProperty. cbn [fst snd]. assert (jeqb p ID = false) as ->.
  { apply bool_decide_eq_false. intros ->. repeat (apply elem_of_cons in Hp as [E|Hp]; [by vm_compute in E|]). by apply elem_of_nil in Hp. }
  cbn [andb]. rewrite known_ok by set_solver. cbn [mbind res_bind]. rewrite (Hk p Hp). destruct (ATOMIC_URL lib) as [|c d] eqn:Es; [done|]. cbn [is_null].
  unfold jeqb. rewrite bool_decide_true by done. cbn [validateLink]. done.
Qed.

Lemma class_property : validateProperty new_URL lib schema (validateLink new_URL lib schema) true (IS_A, OArr [OStr identity_class]) = Ok tt.
Proof using Urls0 Tomic0 Hmap H0.
  destruct (map_made new_URL lib schema0 baseURL base schema H0 Hmap) as [[Hk _ _] _]. destruct (lib_facts lib) as (_ & _ & Hne & _ & _ & _ & E & _).
  unfold validateProperty. cbn [fst snd]. assert (jeqb IS_A ID = false) as -> by (by vm_compute). cbn [andb]. rewrite known_ok by set_solver. cbn [mbind res_bind]. rewrite Hk.
  destruct (RESOURCEARRAY lib) as [|c d] eqn:Er; [done|]. cbn [is_null]. rewrite E. unfold jeqb. rewrite bool_decide_true by done. cbn [each validateLink].
  rewrite known_ok by set_solver. done.
Qed.

Record kept store : Prop := {
  kp_ok : store_ok new_URL lib schema store;
  kp_well : forall sc, well (mappings store sc);
  kp_home : forall sc id k r, scoped sc id -> key sc id = Ok k -> jget (home k) store = Some r -> is_mapping r = true ->
    in_scope sc r = true /\ exists subject, tells r id subject;
}.

Lemma mapping_stored store sc r : r ∈ mappings store sc -> exists k, (k, r) ∈ store.
Proof. rewrite mappings_filter. intros [_ Hr]%list_elem_of_In%filter_In%and_comm. apply in_map_iff in Hr as ([k r'] & <- & H). exists k. by apply list_elem_of_In. Qed.

Lemma kept_readable store : kept store -> readable store.
Proof using Urls0 Tomic0 Hmap H0.
  intros [[_ Hh] Hw _]. split; [done|]. intros sc r Hr v Hv. apply mapping_stored in Hr as [k Hr]. destruct (Hh _ Hr) as (Hid & Hval & Hjson). cbn [fst snd] in *.
  unfold validate in Hval. rewrite Hid in Hval. apply bind_Ok in Hval as (_ & _ & Hval). unfold validateProperties in Hval. rewrite each_ok, Forall_forall in Hval.
  apply (text_property true identity_idType); [right; right; by left|]. apply Hval. apply jget_elem; [|done]. by apply object_value in Hjson as [? _].
Qed.

Lemma kept_empty : kept [].
Proof. split; [apply store_ok_nil| |done]. intros sc. split; [by intros r ?%elem_of_nil|constructor|constructor]. Qed.

Lemma key_path sc id k : scoped sc id -> key sc id = Ok k -> Forall (fun c => path_char c = true) k.
Proof.
  intros Hs Hk. apply key_encodes in Hk. apply encode_chars in Hk; [|by apply key_json_code]. eapply Forall_impl; [exact Hk|]. intros c Hc. unfold path_char. by rewrite Hc.
Qed.

Lemma home_ok sc id k : scoped sc id -> key sc id = Ok k -> assertSubject new_URL (home k) = Ok tt.
Proof using Urls0 Hmap H0.
  intros Hs Hk. destruct (map_made new_URL lib schema0 baseURL base schema H0 Hmap) as [_ Hb]. apply (Hb (js "identities/" ++ k)).
  apply Forall_app. split; [|by eapply key_path]. apply Forall_forall. intros c Hc. vm_compute in Hc. repeat (apply elem_of_cons in Hc as [->|Hc]; [by vm_compute|]). by apply elem_of_nil in Hc.
Qed.

Lemma mapping_valid sc id k subject : scoped sc id -> key sc id = Ok k -> assertSubject new_URL subject = Ok tt ->
  validate new_URL lib schema (mapping base k sc id subject) = Ok tt.
Proof using Urls0 Tomic0 Hmap H0.
  intros Hs Hk Hsub. destruct (key_id _ _ _ _ Hk) as (_ & Hscope & _). unfold validate. assert (jget ID (mapping base k sc id subject) = Some (OStr (home k))) as -> by done.
  rewrite (home_ok sc id k) by done. cbn [mbind res_bind]. unfold validateProperties. apply each_ok. unfold mapping. repeat (apply Forall_cons; split).
  - unfold validateProperty, jeqb. cbn [fst]. by rewrite bool_decide_true.
  - apply class_property.
  - by apply link_property; [left|].
  - by apply text_property; [left|].
  - by apply text_property; [right; left|].
  - by apply text_property; [right; right; left|].
  - by apply link_property; [right; left|].
  - constructor.
Qed.

Lemma mapping_tells sc id k subject : id_ok id -> tells (mapping base k sc id subject) id subject.
Proof. intros Hid. split; [done|]. split_and!; unfold mapping; cbn [jget]; repeat (first [rewrite decide_True by done|rewrite decide_False by done]); done. Qed.

Lemma mapping_scope sc id k subject sc' : in_scope sc' (mapping base k sc id subject) = true <-> sc' = sc.
Proof.
  unfold in_scope. rewrite andb_true_iff, !says_iff. unfold mapping. cbn [jget]. repeat (first [rewrite decide_True by done|rewrite decide_False by done]).
  destruct sc, sc'; cbn. split; [intros [[= ->] [= ->]]; done|by intros [= -> ->]].
Qed.

Lemma mapping_is k sc id subject : is_mapping (mapping base k sc id subject) = true.
Proof. unfold is_mapping, has_class, mapping. cbn [jget]. repeat (first [rewrite decide_True by done|rewrite decide_False by done]). apply bool_decide_eq_true. by left. Qed.

Lemma in_scope_fun sc sc' r : in_scope sc r = true -> in_scope sc' r = true -> sc = sc'.
Proof.
  unfold in_scope. rewrite !andb_true_iff, !says_iff. destruct sc, sc'. cbn. intros [H1 H2] [H3 H4]. rewrite H1 in H3. rewrite H2 in H4. congruence.
Qed.

Lemma mappings_in store sc r : r ∈ mappings store sc <-> r ∈ jvalues store /\ is_mapping r = true /\ in_scope sc r = true.
Proof. rewrite mappings_filter, list_elem_of_In, filter_In, andb_true_iff, <-list_elem_of_In. tauto. Qed.

Lemma told_text store sc r id subject : kept store -> r ∈ mappings store sc -> tells r id subject -> Forall (fun c => 0 <= c) (String_id id).
Proof.
  intros [[_ Hh] _ _] Hr (_ & Hl & _). apply mapping_stored in Hr as [k Hr]. destruct (Hh _ Hr) as (_ & _ & Hj). cbn [snd] in Hj. apply object_value in Hj as [Hnd Hj].
  apply jget_elem in Hl; [|done]. rewrite Forall_forall in Hj. by apply Hj in Hl as (_ & ? & _).
Qed.

Lemma bound_text store sc id subject : kept store -> binds store sc id subject -> Forall (fun c => 0 <= c) subject.
Proof.
  intros [[_ Hh] _ _] (r & Hr & _ & _ & _ & Hl). apply mapping_stored in Hr as [k Hr]. destruct (Hh _ Hr) as (_ & _ & Hj). cbn [snd] in Hj. apply object_value in Hj as [Hnd Hj].
  apply jget_elem in Hl; [|done]. rewrite Forall_forall in Hj. by apply Hj in Hl as (_ & ? & _).
Qed.

Lemma code_inj id id' : Forall (fun c => 0 <= c) (String_id id) -> Forall (fun c => 0 <= c) (String_id id') -> code id = code id' -> id = id'.
Proof.
  assert (Hok : forall i, Forall (fun c => 0 <= c) (String_id i) -> Json_ok (OArr [OStr (typeof i); OStr (String_id i)])) by (intros [s|n] H; cbn; split_and!; done || by_decide).
  intros H1 H2 E. apply json_text_inj in E; [|by apply Hok..]. injection E as Et Es. by apply id_inj.
Qed.

Lemma clean_text s : clean s -> Forall (fun c => 0 <= c) s.
Proof. intros H. eapply Forall_impl; [exact H|]. intros c (_ & ? & _). lia. Qed.

Lemma mapping_value sc id k subject : scoped sc id -> key sc id = Ok k -> assertSubject new_URL subject = Ok tt -> json_value (OObj (mapping base k sc id subject)).
Proof using Urls0 Hmap H0.
  intros Hs Hk Hsub. assert (Hhome := home_ok sc id k Hs Hk). apply assert_clean, clean_text in Hhome, Hsub. destruct Hs as (S1 & S2 & S3).
  apply object_value. split; [by_decide|]. unfold mapping, entry_value, json_value. repeat (apply Forall_cons; split); cbn [fst snd Json_ok Json_keyed fold_right]; [..|constructor];
    (split; [by_decide|]); split_and?; try done; try (by apply units_ok); [by_decide|destruct id; by_decide].
Qed.

Lemma mapping_put store sc id k subject : kept store -> scoped sc id -> key sc id = Ok k -> assertSubject new_URL subject = Ok tt ->
  (forall s, ~ binds store sc id s) -> (forall i, ~ binds store sc i subject) ->
  exists store', put new_URL lib schema store (mapping base k sc id subject) = Ok store' /\ kept store' /\
    forall sc' i s, binds store' sc' i s <-> binds store sc' i s \/ (sc' = sc /\ i = id /\ s = subject).
Proof using Urls0 Tomic0 Hmap H0.
  intros Hkept Hs Hk Hsub Hfree1 Hfree2. destruct (key_id _ _ _ _ Hk) as (Hid & _ & _). set (new := mapping base k sc id subject).
  assert (Hput : put new_URL lib schema store new = Ok (jset (home k) new store)) by (unfold put, new; by rewrite (mapping_valid sc id k subject)).
  assert (Hold : forall old, jget (home k) store = Some old -> is_mapping old = false).
  { intros old Ho. apply not_true_iff_false. intros Hm. destruct (kp_home _ Hkept sc id k old Hs Hk Ho Hm) as [Hsc [s Ht]]. apply (Hfree1 s). exists old. split; [|done].
    apply mappings_in. split; [|done]. apply jget_elem in Ho; [|apply Hkept]. change old with (home k, old).2. by apply list_elem_of_fmap_2. }
  assert (Hmaps : forall sc', mappings (jset (home k) new store) sc' ≡ₚ if in_scope sc' new then new :: mappings store sc' else mappings store sc').
  { intros sc'. rewrite !mappings_filter, put_filter by (intros old Ho; by rewrite (Hold old Ho)). cbn [List.filter]. by rewrite (mapping_is k sc id subject : is_mapping new = true). }
  assert (Hbinds : forall sc' i s, binds (jset (home k) new store) sc' i s <-> binds store sc' i s \/ (sc' = sc /\ i = id /\ s = subject)).
  { intros sc' i s. unfold binds. setoid_rewrite (Hmaps sc'). pose proof (mapping_scope sc id k subject sc') as Hsc. fold new in Hsc. destruct (in_scope sc' new).
    - destruct Hsc as [Hsc _]. rewrite (Hsc eq_refl). setoid_rewrite elem_of_cons. split.
      + intros (r & [->|Hr] & Ht); [right|left; by exists r]. split; [done|]. by apply (tells_fun new); [|apply mapping_tells].
      + intros [(r & Hr & Ht)|(_ & -> & ->)]; [exists r; tauto|]. exists new. split; [by left|by apply mapping_tells].
    - split; [by left|]. intros [?|(-> & _)]; [done|]. destruct Hsc as [_ Hsc]. by specialize (Hsc eq_refl). }
  eexists. split; [exact Hput|]. split; [|exact Hbinds]. split.
  - eapply put_ok; [apply Hkept|by eapply mapping_value|exact Hput].
  - intros sc'. apply (well_perm _ _ (symmetry (Hmaps sc'))). pose proof (mapping_scope sc id k subject sc') as Hsc. fold new in Hsc. destruct (in_scope sc' new); [|apply Hkept].
    destruct Hsc as [Hsc _]. rewrite (Hsc eq_refl). destruct (kp_well _ Hkept sc) as [W1 W2 W3]. destruct (tells_code new id subject) as [Ec Es]; [by apply mapping_tells|].
    assert (Hin : forall r, r ∈ mappings store sc -> code_of r <> code_of new /\ subject_of r <> subject_of new).
    { intros r Hr. destruct (mapping_told _ _ _ (kept_readable _ Hkept) Hr) as [s Ht]. destruct (tells_code _ _ _ Ht) as [Ec' Es']. rewrite Ec, Es, Ec', Es'. split.
      - intros E. apply code_inj in E; [|by apply (told_text store sc r (mapping_id r) s)|apply units_ok, Hs]. apply (Hfree1 s). exists r. by rewrite <-E.
      - intros ->. apply (Hfree2 (mapping_id r)). by exists r. }
    split; cbn [map].
    + intros r [->|Hr]%elem_of_cons; [|by apply W1]. exact (proj1 (tells_read new id subject (mapping_tells sc id k subject Hid))).
    + apply NoDup_cons. split; [|done]. intros (r & E & Hr)%list_elem_of_fmap. destruct (Hin r Hr). congruence.
    + apply NoDup_cons. split; [|done]. intros (r & E & Hr)%list_elem_of_fmap. destruct (Hin r Hr). congruence.
  - intros sc' id' k' r Hs' Hk' Hr Hm. rewrite jget_jset in Hr. destruct (decide (home k' = home k)) as [E|]; [|by apply (kp_home _ Hkept sc' id' k' r)].
    injection Hr as <-. unfold AtomicIdentity.home in E. apply app_inv_head, app_inv_head in E as ->. destruct (identity_key_inj _ _ _ _ _ _ Hs' Hs Hk' Hk) as [-> ->].
    split; [by apply mapping_scope|]. exists subject. by apply mapping_tells.
Qed.

Lemma mapping_delete store sc r subject id : kept store -> r ∈ mappings store sc -> tells r id subject ->
  kept (delete store (id_of r)) /\ forall sc' i s, binds (delete store (id_of r)) sc' i s <-> binds store sc' i s /\ ~ (sc' = sc /\ s = subject).
Proof using Urls0 Tomic0 Hmap H0.
  intros Hkept Hr Ht. destruct (mapping_stored _ _ _ Hr) as [k Hk]. destruct Hkept as [[Hnd Hh] Hw Hhome]. destruct (Hh _ Hk) as (Hid & _ & _). cbn [fst snd] in Hid.
  assert (id_of r = k) as -> by (unfold id_of; by rewrite Hid). apply jget_elem in Hk; [|done]. unfold delete.
  assert (Hmaps : forall sc', mappings store sc' ≡ₚ if in_scope sc' r then r :: mappings (jdelete k store) sc' else mappings (jdelete k store) sc').
  { intros sc'. rewrite !mappings_filter, (filter_perm _ _ _ (delete_values _ _ _ Hk)). cbn [List.filter]. apply mappings_in in Hr as (_ & -> & _). done. }
  assert (Hsc : in_scope sc r = true) by (by apply mappings_in in Hr as (_ & _ & ?)).
  assert (Hsub : forall sc' x, x ∈ mappings (jdelete k store) sc' -> x ∈ mappings store sc').
  { intros sc' x Hx. rewrite Hmaps. destruct (in_scope sc' r); [by right|done]. }
  assert (Hnot : r ∉ mappings (jdelete k store) sc).
  { destruct (Hw sc) as [_ Hc _]. assert (Hc' := Hc). rewrite Hmaps, Hsc in Hc'. cbn [map] in Hc'. apply NoDup_cons in Hc' as [Hc' _]. intros Hin. apply Hc'. by apply list_elem_of_fmap_2. }
  split; [split|].
  - split; [by apply jdelete_nodup|]. intros p Hp. apply in_jdelete in Hp as [Hp _]; [|done]. by apply Hh.
  - intros sc'. destruct (Hw sc') as [W1 W2 W3]. rewrite Hmaps in W2, W3. split; [intros x Hx; by apply W1, Hsub|destruct (in_scope sc' r); [|done]; by apply NoDup_cons in W2 as [_ ?]|destruct (in_scope sc' r); [|done]; by apply NoDup_cons in W3 as [_ ?]].
  - intros sc' i k' x Hs' Hk' Hx. rewrite jget_jdelete in Hx by done. destruct (decide _); [done|]. by apply (Hhome sc' i k' x).
  - intros sc' i s. split.
    + intros (x & Hx & Htx). split; [exists x; by split; [apply Hsub|]|]. intros [-> ->]. destruct (Hw sc) as [_ _ W3].
      assert (x = r) as ->; [|done]. apply (nodup_map_inj subject_of (mappings store sc)); [done|by apply Hsub|done|].
      destruct (tells_code _ _ _ Ht) as [_ ->]. by destruct (tells_code _ _ _ Htx) as [_ ->].
    + intros [(x & Hx & Htx) Hne]. exists x. split; [|done]. rewrite Hmaps in Hx. destruct (in_scope sc' r) eqn:E; [|done]. apply elem_of_cons in Hx as [->|Hx]; [|done].
      exfalso. apply Hne. split; [by eapply in_scope_fun|]. by destruct (tells_fun _ _ _ _ _ Ht Htx).
Qed.

(** What a binding is and may become. *)
Definition bound_too store store' sc id subject : Prop :=
  forall sc' i s, binds store' sc' i s <-> binds store sc' i s \/ (sc' = sc /\ i = id /\ s = subject).

Lemma bind_spec store sc id k subject : kept store -> scoped sc id -> key sc id = Ok k -> assertSubject new_URL subject = Ok tt ->
  match bind new_URL lib schema base store sc id subject with
  | Ok store' => kept store' /\ bound_too store store' sc id subject
  | Err e => e = "Conflicting identity mapping"%string /\ ((exists s, binds store sc id s /\ s <> subject) \/ exists i, binds store sc i subject /\ i <> id)
  end.
Proof using Urls0 Tomic0 Hmap H0.
  intros Hkept Hs Hk Hsub. pose proof (kept_readable _ Hkept) as Hrd. unfold bind. rewrite Hk, Hsub. cbn [mbind res_bind].
  destruct (lookup_spec new_URL store sc id k Hrd Hk) as (found & -> & Hf). destruct (externalId_spec store sc subject Hrd) as (reverse & -> & Hr). cbn [mbind res_bind].
  destruct found as [s|].
  - pose proof (proj1 (Hf s) eq_refl) as Hb. rewrite (bool_decide_false (Some s = None)) by done. cbn [negb andb]. destruct (decide (s = subject)) as [->|Hne].
    + assert (reverse = Some id) as -> by (by apply Hr). rewrite !(bool_decide_true (Some _ = Some _)) by done. rewrite (bool_decide_false (Some id = None)) by done. cbn.
      split; [done|]. intros sc' i s. split; [by left|]. by intros [?|(-> & -> & ->)].
    + rewrite (bool_decide_false (Some s = Some subject)) by congruence. cbn [negb orb]. split; [done|]. left. by exists s.
  - rewrite (bool_decide_true (None = None)) by done. cbn [negb andb orb]. destruct reverse as [i|].
    + pose proof (proj1 (Hr i) eq_refl) as Hb. assert (i <> id) as Hne by (intros ->; apply Hf in Hb; done).
      rewrite (bool_decide_false (Some i = None)), (bool_decide_false (Some i = Some id)) by congruence. cbn [negb andb]. split; [done|]. right. by exists i.
    + rewrite (bool_decide_true (None = None)) by done. cbn [negb andb]. rewrite (bool_decide_false (None = Some subject)) by done. cbn [andb].
      destruct (mapping_put store sc id k subject) as (store' & -> & Hk' & Hb); try done.
      * intros s Hb. by apply Hf in Hb.
      * intros i Hb. by apply Hr in Hb.
Qed.

Lemma unbind_spec store sc subject : kept store -> assertSubject new_URL (scope sc) = Ok tt -> assertSubject new_URL subject = Ok tt -> entity sc <> [] ->
  exists store' found, unbind new_URL store sc subject = Ok (store', found) /\ kept store' /\ (forall i, found = Some i <-> binds store sc i subject) /\
    forall sc' i s, binds store' sc' i s <-> binds store sc' i s /\ ~ (sc' = sc /\ s = subject).
Proof using Urls0 Tomic0 Hmap H0.
  intros Hkept Hsc Hsub He. pose proof (kept_readable _ Hkept) as Hrd. destruct (externalId_spec store sc subject Hrd) as (found & Hx & Hf).
  unfold unbind. rewrite Hsc, Hsub. cbn [mbind res_bind]. unfold jeqb at 1. rewrite bool_decide_false by done. rewrite Hx, find_readable by done. cbn [mbind res_bind].
  unfold externalId in Hx. rewrite find_readable in Hx by done. cbn [mbind res_bind] in Hx. injection Hx as <-.
  destruct (List.find _ _) as [r|] eqn:Ef; cbn [fmap option_fmap option_map] in *.
  - pose proof (proj1 (Hf _) eq_refl) as Hb. apply find_some in Ef as [Hr Hs]. apply says_iff in Hs.
    destruct (mapping_told _ _ _ Hrd Hr) as [s Ht]. assert (s = subject) as -> by (destruct Ht as (_ & _ & _ & E); congruence).
    destruct (mapping_delete store sc r subject (mapping_id r)) as [Hk' Hb']; [done..|]. do 2 eexists. split; [done|]. done.
  - do 2 eexists. split; [done|]. split; [done|]. split; [done|]. intros sc' i s. split; [|by intros [? _]]. intros Hb. split; [done|].
    intros [-> ->]. by apply Hf in Hb.
Qed.

(** C8 (refinement). The identity map is a relation between external ids and
    subjects that is one to one in each scope, whatever other resources the store
    has.  [lookup] and [externalId] read it in its two directions.  [bind] adds
    the pair and nothing else, or, exactly when the id or the subject is bound
    otherwise in the scope, refuses.  [unbind] removes the pair of the subject,
    says which it was, and leaves every other scope as it is.  All of them keep
    the mappings readable. *)
Theorem identity_map_relation store sc id k subject : kept store -> scoped sc id -> key sc id = Ok k -> assertSubject new_URL subject = Ok tt ->
  (exists found, lookup new_URL store sc id = Ok found /\ forall s, found = Some s <-> binds store sc id s) /\
  (exists found, externalId store sc subject = Ok found /\ forall i, found = Some i <-> binds store sc i subject) /\
  (forall s s', binds store sc id s -> binds store sc id s' -> s = s') /\ (forall i i', binds store sc i subject -> binds store sc i' subject -> i = i') /\
  match bind new_URL lib schema base store sc id subject with
  | Ok store' => kept store' /\ (forall sc' i s, binds store' sc' i s <-> binds store sc' i s \/ (sc' = sc /\ i = id /\ s = subject))
  | Err e => e = "Conflicting identity mapping"%string /\ ((exists s, binds store sc id s /\ s <> subject) \/ exists i, binds store sc i subject /\ i <> id)
  end /\
  exists store' found, unbind new_URL store sc subject = Ok (store', found) /\ kept store' /\ (forall i, found = Some i <-> binds store sc i subject) /\
    forall sc' i s, binds store' sc' i s <-> binds store sc' i s /\ ~ (sc' = sc /\ s = subject).
Proof using Urls0 Tomic0 Hmap H0.
  intros Hkept Hs Hk Hsub. pose proof (kept_readable _ Hkept) as Hrd. destruct (key_id _ _ _ _ Hk) as (_ & Hsc & He). split_and!.
  - by eapply lookup_spec.
  - by apply externalId_spec.
  - intros s s'. by apply binds_one_subject.
  - intros i i'. by apply binds_one_id.
  - by eapply bind_spec.
  - by apply unbind_spec.
Qed.

(** Where a resource is made for an id. *)
Lemma subjectFor_spec store sc id k : kept store -> scoped sc id -> key sc id = Ok k ->
  exists subject, subjectFor new_URL base store sc id = Ok subject /\ (binds store sc id subject \/ (forall s, ~ binds store sc id s) /\ subject = base ++ js "/resources/" ++ k /\ assertSubject new_URL subject = Ok tt).
Proof using Urls0 Tomic0 Hmap H0.
  intros Hkept Hs Hk. destruct (lookup_spec new_URL store sc id k (kept_readable _ Hkept) Hk) as (found & E & Hf). unfold subjectFor. rewrite E. cbn [mbind res_bind].
  destruct found as [s|]; [exists s; split; [done|left; by apply Hf]|]. rewrite Hk. cbn [mbind res_bind]. eexists. split; [done|]. right. split_and!; [intros s Hb; by apply Hf in Hb|done|].
  destruct (map_made new_URL lib schema0 baseURL base schema H0 Hmap) as [_ Hb]. apply (Hb (js "resources/" ++ k)).
  apply Forall_app. split; [|by eapply key_path]. apply Forall_forall. intros c Hc. vm_compute in Hc. repeat (apply elem_of_cons in Hc as [->|Hc]; [by vm_compute|]). by apply elem_of_nil in Hc.
Qed.
End Refines.

Module Demo.
Abbreviation new_URL := Atomic.Demo.new_URL.
Abbreviation lib := Atomic.Demo.lib.
Abbreviation a := Atomic.Demo.a.
Abbreviation b := Atomic.Demo.b.

Lemma starts_prefix p t : starts_with p (p ++ t) = true.
Proof. induction p as [|c p IH]; [done|]. cbn. by rewrite Z.eqb_refl, IH. Qed.

Lemma prefixed p s : starts_with p s = true -> exists t, s = p ++ t.
Proof.
  revert s. induction p as [|c p IH]; intros s; cbn; [by exists s|]. destruct s as [|d s]; [done|]. intros [H1 H2]%andb_true_iff. apply Z.eqb_eq in H1 as ->.
  destruct (IH s H2) as [t ->]. by exists t.
Qed.

#[export] Instance urls : Urls new_URL.
Proof.
  split.
  - intros s Hs. repeat (apply elem_of_cons in Hs as [->|Hs]; [by eexists|]). by apply elem_of_nil in Hs.
  - intros s u path Hu Hh _ _ _. unfold Atomic.Demo.new_URL in *. destruct (starts_with (js "https:") s) eqn:E.
    + apply prefixed in E as [t ->]. assert (exists t', strip_slash (js "https:" ++ t) = js "https:" ++ t') as [t' ->].
      { destruct t as [|d t _] using rev_ind; [by exists []|]. rewrite app_assoc, strip_snoc. destruct (d =? 47); [by exists t|]. exists (t ++ [d]). by rewrite app_assoc. }
      rewrite <-app_assoc, starts_prefix. by eexists.
    + destruct (starts_with (js "did:") s); [|done]. injection Hu as <-. by vm_compute in Hh.
Qed.

#[export] Instance tomic : Tomic lib.
Proof.
  split.
  - by_decide.
  - intros d Hd. repeat (apply elem_of_cons in Hd as [->|Hd]; [split; [done|by_decide]|]). by apply elem_of_nil in Hd.
  - intros v. unfold Atomic.Demo.lib. cbn [validateDatatype STRING]. unfold jeqb. rewrite bool_decide_true by done. cbn [andb]. by destruct (is_text (Some v)).
Qed.

Definition made : res string (jstr * AtomicSchema) := new_AtomicIdentityMap new_URL lib Atomic.Demo.schema (js "https://example.com/bridge/").
Definition base : jstr := match made with Ok (b, _) => b | Err _ => [] end.
Definition schema : AtomicSchema := match made with Ok (_, s) => s | Err _ => [] end.

Lemma is_made : made = Ok (base, schema) /\ jget IS_A Atomic.Demo.schema = Some (RESOURCEARRAY lib).
Proof. split; by vm_compute. Qed.

Definition issues : IdentityScope := mkScope (js "https://example.com/repo1") (js "issue").
Definition comments : IdentityScope := mkScope (js "https://example.com/repo1") (js "comment").

(** The repository's tests: one number in two scopes, and as a text. *)
Definition bindings : list (IdentityScope * ExternalId * jstr) := [(issues, IdNumber 15, a); (comments, IdNumber 15, b); (issues, IdText (js "15"), b)].
Definition store : AtomicStore := match foldM (fun s (m : IdentityScope * ExternalId * jstr) => bind new_URL lib schema base s m.1.1 m.1.2 m.2) [] bindings with Ok s => s | Err _ => [] end.

Example scoped_ids : lookup new_URL store issues (IdNumber 15) = Ok (Some a) /\ lookup new_URL store issues (IdText (js "15")) = Ok (Some b) /\
  lookup new_URL store comments (IdNumber 15) = Ok (Some b) /\ externalId store issues b = Ok (Some (IdText (js "15"))) /\
  bind new_URL lib schema base store issues (IdNumber 2) a = Err "Conflicting identity mapping"%string /\
  key new_URL issues (IdNumber (2 ^ 53)) = Err "Expected an entity and a nonempty string or safe integer external ID"%string /\
  subjectFor new_URL base store issues (IdNumber 16) = Ok (js "https://example.com/bridge/resources/%5B%22https%3A%2F%2Fexample.com%2Frepo1%22%2C%22issue%22%2C%22number%22%2C16%5D").
Proof. split_and!; by vm_compute. Qed.

Lemma identity_map_relation_witness : exists store', bind new_URL lib schema base [] issues (IdNumber 15) a = Ok store' /\
  (forall sc' i s, binds store' sc' i s <-> binds [] sc' i s \/ (sc' = issues /\ i = IdNumber 15 /\ s = a)) /\
  exists found, unbind new_URL [] issues a = Ok ([], found) /\ forall i, found = Some i <-> binds [] issues i a.
Proof.
  destruct is_made as [Hmade Hisa]. destruct (key new_URL issues (IdNumber 15)) as [k|e] eqn:Ek; [|by vm_compute in Ek].
  destruct (identity_map_relation new_URL lib Atomic.Demo.schema (js "https://example.com/bridge/") base schema Hisa Hmade [] issues (IdNumber 15) k a) as (_ & _ & _ & _ & H & H').
  - apply kept_empty.
  - split; [|split]; by_decide.
  - exact Ek.
  - by vm_compute.
  - destruct (bind new_URL lib schema base [] issues (IdNumber 15) a) as [store'|e] eqn:E; [|by vm_compute in E]. exists store'. split; [done|]. split; [apply H|].
    destruct H' as (s' & found & Eu & _ & Hf & _). exists found. split; [|exact Hf]. assert (E' : unbind new_URL [] issues a = Ok ([], None)) by (vm_compute; reflexivity). congruence.
Defined.
End Demo.
