(* ===== verification/AtomicLens.v ===== *)
(** * Lenses between resources and a platform

    Models [src/devonian/src/atomic/Lens.ts].  A lens reads and writes the store
    of [Atomic] and calls a connector, a parameter over a state [X] of the
    platform; it knows what stands for what from the map of [AtomicIdentity].
    Its operations wait for each other, so a lens in use is the list of its
    operations, each run when the one before it has settled. *)
From S2P Require Import Prelude Text Collections Upload Uri Json Atomic AtomicIdentity HostStore.
Local Open Scope Z_scope.

(** Platform I/O. *)
(* src: devonian/src/atomic/Lens.ts 5-14 AtomicConnector *)
Record AtomicConnector (X External : Type) := mkConnector {
  c_id : External -> ExternalId;
  c_get : ExternalId -> act X string External;
  c_create : External -> jstr -> act X string External;
  c_update : ExternalId -> External -> act X string unit;
  c_delete : ExternalId -> act X string unit;
}.
Arguments mkConnector {X External} _ _ _ _ _.
Arguments c_id {X External} _ _.
Arguments c_get {X External} _ _ _.
Arguments c_create {X External} _ _ _ _.
Arguments c_update {X External} _ _ _ _.
Arguments c_delete {X External} _ _ _.

(* src: devonian/src/atomic/Lens.ts 15-18 AtomicProjection *)
Record AtomicProjection := mkProjection {
  pr_patch : AtomicPatch;
  related : option (list (jstr * AtomicPatch));
  identities : option (list (IdentityScope * ExternalId * jstr));
}.

(** What a lens is asked to do, and what it answers. *)
Inductive Op (External : Type) := Ingest (record : External) | Publish (subject : jstr) | IngestDelete (id : ExternalId) | Delete (subject : jstr).
Arguments Ingest {External} _.
Arguments Publish {External} _.
Arguments IngestDelete {External} _.
Arguments Delete {External} _.

Inductive Answer := Subject (subject : jstr) | External_id (id : ExternalId) | Done.

Section Lens.
Context {X External : Type} (new_URL : jstr -> option Address) (lib : Lib) (schema : AtomicSchema) (base : jstr).
Context (connector : AtomicConnector X External) (sc : IdentityScope).
Context (read : External -> jstr -> res string AtomicProjection) (write : AtomicResource -> option External -> res string External).

(** The map of the lens is one of its store: there is one store. *)
(* src: devonian/src/atomic/Lens.ts 38-44 AtomicLens ! *)
Definition new_AtomicLens : res string unit :=
  _ ← assertSubject new_URL (scope sc); throw_if (jeqb (entity sc) []) "A lens requires an entity type"%string.

(** The store, and the platform. *)
Definition State : Type := AtomicStore * X.

Definition changes_of (p : AtomicProjection) (subject : jstr) : list (jstr * AtomicPatch) := default [] (related p) ++ [(subject, pr_patch p)].

(** The callback of the transaction; what it did before it threw is undone. *)
(* src: devonian/src/atomic/Lens.ts 53-58 ingest ! *)
Definition ingest_local (p : AtomicProjection) (id : ExternalId) (subject : jstr) (s : AtomicStore) : AtomicStore * res string unit :=
  match (s1 ← apply_ new_URL lib schema s (changes_of p subject);
         s2 ← foldM (fun s (m : IdentityScope * ExternalId * jstr) => bind new_URL lib schema base s m.1.1 m.1.2 m.2) s1 (default [] (identities p));
         bind new_URL lib schema base s2 sc id subject) with
  | Ok s' => (s', Ok tt)
  | Err e => (s, Err e)
  end.

(* src: devonian/src/atomic/Lens.ts 46-61 ingest *)
Definition ingest (record : External) : act State string jstr := fun st =>
  let id := c_id connector record in
  match (subject ← subjectFor new_URL base st.1 sc id; patch ← read record subject; Ok (subject, patch)) with
  | Err e => (st, Err e)
  | Ok (subject, patch) =>
      match transaction (ingest_local patch id subject) st.1 with
      | (s, Ok _) => ((s, st.2), Ok subject)
      | (s, Err e) => ((s, st.2), Err e)
      end
  end.

(** A call of the connector, which leaves the store alone. *)
Definition calls {A} (m : act X string A) : act State string A := fun st => let '(x, r) := m st.2 in ((st.1, x), r).

Definition binding (id : ExternalId) (subject : jstr) : act State string unit := fun st =>
  match bind new_URL lib schema base st.1 sc id subject with
  | Ok s => ((s, st.2), Ok tt)
  | Err e => (st, Err e)
  end.

(* src: devonian/src/atomic/Lens.ts 75-79 publish ! *)
Definition idempotencyKey (subject : jstr) : jstr := json_text (OArr [OStr (scope sc); OStr (entity sc); OStr subject]).

(* src: devonian/src/atomic/Lens.ts 63-88 publish *)
Definition publish (subject : jstr) : act State string ExternalId :=
  resource ← reads (fun st : State => match get st.1 subject with Some r => Ok r | None => Err "Unknown resource"%string end);
  id ← reads (fun st : State => externalId st.1 sc subject);
  match id with
  | Some id =>
      previous ← calls (c_get connector id);
      record ← lift (write resource (Some previous));
      _ ← calls (c_update connector id record);
      mret id
  | None =>
      record ← lift (write resource None);
      created ← calls (c_create connector record (idempotencyKey subject));
      _ ← binding (c_id connector created) subject;
      mret (c_id connector created)
  end.

Definition deleting (subject : jstr) : act State string unit := fun st => ((delete st.1 subject, st.2), Ok tt).

(* src: devonian/src/atomic/Lens.ts 90-96 ingestDelete *)
Definition ingestDelete (id : ExternalId) : act State string unit :=
  subject ← reads (fun st : State => lookup new_URL st.1 sc id);
  match subject with
  | Some ((_ :: _) as subject) => deleting subject
  | _ => mret tt
  end.

(* src: devonian/src/atomic/Lens.ts 98-106 delete *)
Definition delete_ (subject : jstr) : act State string unit :=
  id ← reads (fun st : State => externalId st.1 sc subject);
  _ ← match id with Some id => calls (c_delete connector id) | None => mret tt end;
  deleting subject.

Definition operate (op : Op External) : act State string Answer :=
  match op with
  | Ingest record => subject ← ingest record; mret (Subject subject)
  | Publish subject => id ← publish subject; mret (External_id id)
  | IngestDelete id => _ ← ingestDelete id; mret Done
  | Delete subject => _ ← delete_ subject; mret Done
  end.

(** Each operation starts when the one before it settled, whether it failed. *)
(* src: devonian/src/atomic/Lens.ts 108-112 enqueue *)
Fixpoint enqueue (ops : list (Op External)) (st : State) : State * list (Op External * res string Answer) :=
  match ops with
  | [] => (st, [])
  | op :: ops => let '(st, r) := operate op st in let '(st, answers) := enqueue ops st in (st, (op, r) :: answers)
  end.
End Lens.

(** ** What a lens keeps *)

Section Safe.
Context {X External : Type} (new_URL : jstr -> option Address) (lib : Lib) `{!Urls new_URL, !Tomic lib}.
Context (schema0 : AtomicSchema) (baseURL base : jstr) (schema : AtomicSchema).
Context (H0 : jget IS_A schema0 = Some (RESOURCEARRAY lib)) (Hmap : new_AtomicIdentityMap new_URL lib schema0 baseURL = Ok (base, schema)).
Implicit Types (s : AtomicStore) (id : ExternalId) (subject : jstr) (r : AtomicResource).

Abbreviation kept := (kept new_URL lib base schema).

(** The addresses that are set aside for mappings. *)
Definition reserved subject : Prop := starts_with (base ++ js "/identities/") subject = true.

Lemma starts_app p q t : starts_with (p ++ q) (p ++ t) = starts_with q t.
Proof. induction p as [|c p IH]; [done|]. cbn. by rewrite Z.eqb_refl. Qed.

Lemma home_reserved k : reserved (home base k).
Proof. unfold reserved, home. rewrite starts_app. by vm_compute. Qed.

Lemma resource_unreserved k : ~ reserved (base ++ js "/resources/" ++ k).
Proof. unfold reserved. rewrite starts_app. by vm_compute. Qed.

Record lens_kept s : Prop := {
  lk_kept : kept s;
  lk_homes : forall k r, jget k s = Some r -> is_mapping r = true -> reserved k;
  lk_free : forall sc id subject, binds s sc id subject -> ~ reserved subject;
}.

Lemma lens_kept_empty : lens_kept [].
Proof. split; [apply kept_empty|done|]. intros sc id subject (r & Hr & _). by apply mappings_in in Hr as (Hr & _); apply elem_of_nil in Hr. Qed.

Definition grows s s' : Prop := forall sc id subject, binds s sc id subject -> binds s' sc id subject.

Lemma grows_trans s1 s2 s3 : grows s1 s2 -> grows s2 s3 -> grows s1 s3.
Proof. intros H1 H2 sc id subject Hb. by apply H2, H1. Qed.

(** The same mappings. *)
Definition same s s' : Prop := forall sc, mappings s' sc ≡ₚ mappings s sc.

Lemma same_binds s s' sc id subject : same s s' -> binds s' sc id subject <-> binds s sc id subject.
Proof. intros H. unfold binds. by setoid_rewrite (H sc). Qed.

Lemma same_kept s s' : lens_kept s -> same s s' -> store_ok new_URL lib schema s' ->
  (forall k r, jget k s' = Some r -> is_mapping r = true -> jget k s = Some r) -> lens_kept s'.
Proof.
  intros [[Hok Hw Hh] Hres Hfree] Hsame Hok' Hm. split; [split|..].
  - done.
  - intros sc. apply (well_perm _ _ (symmetry (Hsame sc))), Hw.
  - intros sc id k r Hs Hk Hr Hi. by apply (Hh sc id k r Hs Hk); [apply Hm|].
  - intros k r Hr Hi. apply (Hres k r); [by apply Hm|done].
  - intros sc id subject Hb. eapply Hfree. exact (proj1 (same_binds s s' sc id subject Hsame) Hb).
Qed.

Lemma quiet_put s subject r : lens_kept s -> ~ reserved subject -> is_mapping r = false -> store_ok new_URL lib schema (jset subject r s) ->
  lens_kept (jset subject r s) /\ same s (jset subject r s).
Proof.
  intros Hk Hres Hr Hok. assert (Hsame : same s (jset subject r s)).
  { intros sc. rewrite !mappings_filter, put_filter; [cbn [List.filter]; by rewrite Hr|]. intros old Ho. destruct (is_mapping old) eqn:E; [|done]. by destruct Hres; eapply lk_homes. }
  split; [|done]. eapply same_kept; [done..|]. intros k r' Hg Hi. rewrite jget_jset in Hg. destruct (decide (k = subject)); [|done]. congruence.
Qed.

Lemma quiet_delete s subject : lens_kept s -> ~ reserved subject -> lens_kept (delete s subject) /\ same s (delete s subject).
Proof.
  intros Hk Hres. assert (Hsame : same s (delete s subject)).
  { intros sc. rewrite !mappings_filter. unfold delete. destruct (jget subject s) as [old|] eqn:Eo; [|by rewrite delete_none].
    rewrite (filter_perm _ _ _ (delete_values _ _ _ Eo)). cbn [List.filter]. destruct (is_mapping old) eqn:E; [|done]. by destruct Hres; eapply lk_homes. }
  split; [|done]. eapply same_kept; [done|done|apply delete_ok, Hk|]. intros k r Hg _. unfold delete in Hg.
  rewrite jget_jdelete in Hg by apply Hk. by destruct (decide _).
Qed.

(** A patch that makes no mapping. *)
Definition plain_patch (patch : AtomicPatch) : Prop := patch_value patch /\
  forall l, jget IS_A (default [] (set_ patch)) = Some (OArr l) -> OStr identity_class ∉ l.
Definition plain (change : jstr * AtomicPatch) : Prop := Forall (fun c => 0 <= c) change.1 /\ ~ reserved change.1 /\ plain_patch change.2.

Lemma is_mapping_get r : is_mapping r = true <-> exists l, jget IS_A r = Some (OArr l) /\ OStr identity_class ∈ l.
Proof.
  unfold is_mapping, has_class. change (match identity_class with [] => true | _ => _ end) with (match jget IS_A r with Some (OArr l) => bool_decide (OStr identity_class ∈ l) | _ => false end).
  destruct (jget IS_A r) as [[| | | |l|]|]; try (split; [done|by intros (? & ? & _)]). rewrite bool_decide_eq_true. split; [by eexists|]. by intros (? & [= ->] & ?).
Qed.

Lemma patch_quiet s subject patch s' r : lens_kept s -> plain (subject, patch) -> patch_ new_URL lib schema s subject patch = Ok (s', r) -> lens_kept s' /\ same s s'.
Proof.
  intros Hk (Hc & Hres & Hv & Hclass) H. cbn [fst snd] in *. assert (Hok := patch_ok _ _ _ _ _ _ _ _ (kp_ok _ _ _ _ _ (lk_kept _ Hk)) (conj Hc Hv : change_value (subject, patch)) H).
  apply patch_spec in H as (-> & _ & Hget); [|apply Hk|done|done]. apply quiet_put; [done|done| |done]. apply not_true_iff_false. intros (l & Hl & Hin)%is_mapping_get.
  rewrite Hget in Hl by done. destruct (decide _); [done|]. destruct (jget IS_A (default [] (set_ patch))) as [v|] eqn:Ev.
  - injection Hl as ->. by apply (Hclass l).
  - destruct (get s subject) as [old|] eqn:Eo; [|done]. cbn [mbind option_bind] in Hl. apply Hres. eapply (lk_homes _ Hk subject old); [done|]. apply is_mapping_get. by eexists.
Qed.

Lemma apply_quiet changes s s' : lens_kept s -> Forall plain changes -> apply_ new_URL lib schema s changes = Ok s' -> lens_kept s' /\ grows s s'.
Proof.
  intros Hk Hc. unfold apply_. apply (foldM_inv (fun s1 => lens_kept s1 /\ grows s s1)); [by split; [|intros sc id x]|]. intros s1 [subject patch] s2 [Hk1 Hg1] Hin H. cbn [fst snd] in H.
  destruct (patch_ new_URL lib schema s1 subject patch) as [[s3 r]|] eqn:E; cbn in H; [|done]. injection H as <-. rewrite Forall_forall in Hc.
  destruct (patch_quiet s1 subject patch s3 r Hk1 (Hc _ Hin) E) as [Hk3 Hs3]. split; [done|]. intros sc id x Hb. apply (proj2 (same_binds s1 s3 sc id x Hs3)). by apply Hg1.
Qed.

Lemma bind_kept s sc id subject s' : lens_kept s -> scoped sc id -> ~ reserved subject -> bind new_URL lib schema base s sc id subject = Ok s' ->
  lens_kept s' /\ grows s s' /\ binds s' sc id subject.
Proof using Urls0 Tomic0 Hmap H0.
  intros Hk Hs Hres H. assert (exists k, key new_URL sc id = Ok k) as [k Ek] by (unfold bind in H; destruct (key new_URL sc id) as [k|]; [by eexists|done]).
  assert (Ha : assertSubject new_URL subject = Ok tt) by (unfold bind in H; rewrite Ek in H; cbn [mbind res_bind] in H; by destruct (assertSubject new_URL subject) as [[]|]).
  pose proof (bind_spec new_URL lib schema0 baseURL base schema H0 Hmap s sc id k subject (lk_kept _ Hk) Hs Ek Ha) as Hb. rewrite H in Hb. destruct Hb as [Hk' Hb].
  split; [|split; [intros sc' i x Hx; apply Hb; by left|apply Hb; by right]]. split; [done| |].
  - intros k' r Hr Hi. destruct (decide (s' = s)) as [->|Hne]; [by eapply (lk_homes _ Hk)|].
    assert (s' = jset (home base k) (mapping base k sc id subject) s) as ->.
    { unfold bind in H. rewrite Ek, Ha in H. cbn [mbind res_bind] in H. destruct (lookup new_URL s sc id); cbn [mbind res_bind] in H; [|done].
      destruct (externalId s sc subject); cbn [mbind res_bind] in H; [|done]. destruct (_ || _); [done|]. destruct (_ && _); [by injection H as <-|].
      by apply put_spec in H as (i & [= <-] & _ & ->). }
    rewrite jget_jset in Hr. destruct (decide (k' = home base k)) as [->|]; [apply home_reserved|by eapply (lk_homes _ Hk)].
  - intros sc' i x [Hx|(_ & _ & ->)]%Hb; [by eapply (lk_free _ Hk)|done].
Qed.

(** ** The operations of a lens *)

Context (connector : AtomicConnector X External) (sc : IdentityScope).
Context (read : External -> jstr -> res string AtomicProjection) (write : AtomicResource -> option External -> res string External).

Abbreviation ingests := (ingest new_URL lib schema base connector sc read).
Abbreviation publishes := (publish new_URL lib schema base connector sc write).
Abbreviation operates := (operate new_URL lib schema base connector sc read write).

(** What a lens is made of: ids that are texts or numbers, and projections that
    make no mapping and bind no mapping's address. *)
Class Projects : Prop := {
  pj_ids : forall record, scoped sc (c_id connector record);
  pj_changes : forall record subject p, read record subject = Ok p -> Forall plain (default [] (related p)) /\ plain_patch (pr_patch p);
  pj_identities : forall record subject p, read record subject = Ok p ->
    Forall (fun m : IdentityScope * ExternalId * jstr => scoped m.1.1 m.1.2 /\ ~ reserved m.2) (default [] (identities p));
}.

(** The operations do not name a mapping as a resource of their own. *)
Definition op_ok (op : Op External) : Prop :=
  match op with Publish subject | Delete subject => ~ reserved subject | IngestDelete id => scoped sc id | Ingest _ => True end.

(** What an answer means for the store after it. *)
Definition answered s' (op : Op External) (answer : Answer) : Prop :=
  match op, answer with
  | Ingest record, Subject subject => binds s' sc (c_id connector record) subject
  | Publish subject, External_id id => binds s' sc id subject
  | IngestDelete _, Done | Delete _, Done => True
  | _, _ => False
  end.

Definition step_ok s (op : Op External) (answer : Answer) (st : State (X := X)) : Prop := lens_kept st.1 /\ grows s st.1 /\ answered st.1 op answer.

Lemma calls_same {A} (m : act X string A) s : triple (fun st => st.1 = s) (calls m) (fun _ st => st.1 = s) (fun _ st => st.1 = s).
Proof. intros [s0 x] <-. unfold calls. by destruct (m _) as [x' [a|e]]. Qed.

Lemma lift_same {A} (r : res string A) s : triple (fun st : State (X := X) => st.1 = s) (lift r) (fun _ st => st.1 = s) (fun _ st => st.1 = s).
Proof. intros st <-. by destruct r. Qed.

Lemma subjectFor_unreserved s record subject : Projects -> lens_kept s -> subjectFor new_URL base s sc (c_id connector record) = Ok subject ->
  ~ reserved subject /\ Forall (fun c => 0 <= c) subject.
Proof using Urls0 Tomic0 Hmap H0.
  intros Hp Hk H. assert (exists k, key new_URL sc (c_id connector record) = Ok k) as [k Ek].
  { unfold subjectFor, lookup in H. destruct (key new_URL sc (c_id connector record)) as [k|]; [by eexists|done]. }
  destruct (subjectFor_spec new_URL lib schema0 baseURL base schema H0 Hmap s sc _ k (lk_kept _ Hk) (pj_ids record) Ek) as (subject' & E & Hor).
  rewrite H in E. injection E as <-. destruct Hor as [Hb|(_ & -> & Ha)].
  - split; [by eapply (lk_free _ Hk)|by eapply bound_text; [apply Hk|]].
  - split; [apply resource_unreserved|]. by apply assert_clean, clean_text in Ha.
Qed.

Lemma identities_kept s l s' : lens_kept s -> Forall (fun m : IdentityScope * ExternalId * jstr => scoped m.1.1 m.1.2 /\ ~ reserved m.2) l ->
  foldM (fun s (m : IdentityScope * ExternalId * jstr) => bind new_URL lib schema base s m.1.1 m.1.2 m.2) s l = Ok s' -> lens_kept s' /\ grows s s'.
Proof using Urls0 Tomic0 Hmap H0.
  intros Hk Hl. apply (foldM_inv (fun s1 => lens_kept s1 /\ grows s s1)); [by split; [|intros ? ? ?]|]. intros s1 [[sc' id] subject] s2 (Hk1 & Hg1) Hin H.
  rewrite Forall_forall in Hl. destruct (Hl _ Hin) as [Hs Hres]. cbn [fst snd] in *. destruct (bind_kept s1 sc' id subject s2 Hk1 Hs Hres H) as (Hk2 & Hg2 & _).
  split; [done|by eapply grows_trans].
Qed.

Lemma ingest_ok s record : Projects -> lens_kept s ->
  triple (fun st => st.1 = s) (ingests record) (fun subject st => step_ok s (Ingest record) (Subject subject) st) (fun _ st => st.1 = s).
Proof using Urls0 Tomic0 Hmap H0.
  intros Hp Hk [s0 x] E. cbn [fst] in E. subst s0. unfold ingest. cbn [fst snd].
  destruct (subjectFor _ _ s sc _) as [subject|e] eqn:Es; cbn [mbind res_bind]; [|done]. destruct (read record subject) as [p|e] eqn:Er; cbn [mbind res_bind]; [|done].
  destruct (subjectFor_unreserved s record subject Hp Hk Es) as [Hres Htext]. unfold transaction, ingest_local.
  match goal with |- context [match ?m with Ok s' => (s', Ok tt) | Err e => _ end] => destruct m as [s'|e] eqn:E end; [|done].
  apply bind_Ok in E as (s1 & E1 & E). apply bind_Ok in E as (s2 & E2 & E3). destruct (pj_changes record subject p Er) as [Hrel Hpatch].
  assert (Hch : Forall plain (changes_of p subject)) by (unfold changes_of; apply Forall_app; split; [done|]; apply Forall_cons; split; [done|constructor]).
  destruct (apply_quiet _ _ _ Hk Hch E1) as [Hk1 Hg1]. destruct (identities_kept _ _ _ Hk1 (pj_identities record subject p Er) E2) as [Hk2 Hg2].
  destruct (bind_kept _ _ _ _ _ Hk2 (pj_ids record) Hres E3) as (Hk3 & Hg3 & Hb). split; [done|]. split; [|done]. cbn [fst]. by eapply grows_trans, grows_trans.
Qed.

Lemma grows_refl s : grows s s.
Proof. by intros sc' id subject. Qed.

Lemma publish_ok s subject : Projects -> lens_kept s -> ~ reserved subject ->
  triple (fun st => st.1 = s) (publishes subject) (fun id st => step_ok s (Publish subject) (External_id id) st) (fun _ st => st.1 = s).
Proof using Urls0 Tomic0 Hmap H0.
  intros Hp Hk Hres. pose proof (kept_readable new_URL lib schema0 baseURL base schema H0 Hmap s (lk_kept _ Hk)) as Hrd.
  destruct (externalId_spec s sc subject Hrd) as (found & Ef & Hf). unfold publish.
  eapply (triple_bind _ _ _ (fun _ st => st.1 = s)). { apply triple_reads. intros st E. by destruct (get st.1 subject). }
  intros resource. eapply (triple_bind _ _ _ (fun (i : option ExternalId) (st : State (X := X)) => i = found /\ st.1 = s)). { apply triple_reads. intros st E. by rewrite E, Ef. }
  intros i. apply triple_pure. intros ->. destruct found as [id|].
  - eapply triple_bind; [apply calls_same|]. intros previous. eapply triple_bind; [apply lift_same|]. intros record. eapply triple_bind; [apply calls_same|]. intros u.
    apply triple_ret. intros st E. unfold step_ok. rewrite E. split; [done|]. split; [apply grows_refl|by apply Hf].
  - eapply triple_bind; [apply lift_same|]. intros record. eapply triple_bind; [apply calls_same|]. intros created.
    eapply (triple_bind _ _ _ (fun _ st => step_ok s (Publish subject) (External_id (c_id connector created)) st)); [|intros _; by apply triple_ret].
    intros [s0 x] E. cbn [fst] in E. subst s0. unfold binding. cbn [fst snd]. destruct (bind _ _ _ _ s sc _ subject) as [s'|e] eqn:Eb; [|done].
    destruct (bind_kept _ _ _ _ _ Hk (pj_ids created) Hres Eb) as (? & ? & ?). done.
Qed.

Lemma deleting_ok s op subject : lens_kept s -> ~ reserved subject -> answered s op Done -> (forall s' , answered s' op Done) ->
  triple (fun st => st.1 = s) (deleting subject) (fun _ st => step_ok s op Done st) (fun _ (st : State (X := X)) => st.1 = s).
Proof.
  intros Hk Hres _ Ha [s0 x] E. cbn [fst] in E. subst s0. destruct (quiet_delete s subject Hk Hres) as [Hk' Hs]. unfold deleting. cbn [fst snd].
  split; [done|]. split; [|apply Ha]. intros sc' id y Hb. exact (proj2 (same_binds s _ sc' id y Hs) Hb).
Qed.

Lemma operate_ok s op : Projects -> lens_kept s -> op_ok op -> triple (fun st => st.1 = s) (operates op) (step_ok s op) (fun _ st => st.1 = s).
Proof using Urls0 Tomic0 Hmap H0.
  intros Hp Hk Hop. pose proof (kept_readable new_URL lib schema0 baseURL base schema H0 Hmap s (lk_kept _ Hk)) as Hrd. destruct op as [record|subject|id|subject]; cbn [operate].
  - eapply triple_bind; [by apply ingest_ok|]. intros subject. by apply triple_ret.
  - eapply triple_bind; [by apply publish_ok|]. intros id. by apply triple_ret.
  - unfold ingestDelete. apply (triple_bind _ _ _ (fun _ st => step_ok s (IngestDelete id) Done st)); [|intros _; by apply triple_ret].
    eapply (triple_bind _ _ _ (fun (found : option jstr) (st : State (X := X)) => (forall subject, found = Some subject -> binds s sc id subject) /\ st.1 = s)).
    + apply triple_reads. intros st ->. destruct (lookup new_URL s sc id) as [found|e] eqn:El; [|done]. split; [|done].
      assert (exists k, key new_URL sc id = Ok k) as [k Ek] by (unfold lookup in El; destruct (key new_URL sc id) as [k|]; [by eexists|done]).
      destruct (lookup_spec new_URL s sc id k Hrd Ek) as (found' & E & Hf). rewrite El in E. injection E as <-. intros subject Hs. by apply Hf.
    + intros found. apply triple_pure. intros Hf. assert (Hnone : triple (fun st : State (X := X) => st.1 = s) (mret tt) (fun _ st => step_ok s (IngestDelete id) Done st) (fun (_ : string) st => st.1 = s)).
      { apply triple_ret. intros st E. unfold step_ok. rewrite E. split; [done|]. by split; [apply grows_refl|]. }
      destruct found as [[|c l]|]; [done| |done]. apply deleting_ok; [done| |done|done]. eapply (lk_free _ Hk). by apply Hf.
  - apply (triple_bind _ _ _ (fun _ st => step_ok s (Delete subject) Done st)); [|intros _; by apply triple_ret]. unfold delete_.
    destruct (externalId_spec s sc subject Hrd) as (found & Ef & _). eapply (triple_bind _ _ _ (fun (i : option ExternalId) (st : State (X := X)) => st.1 = s)); [apply triple_reads; intros st E; by rewrite E, Ef|].
    intros i. eapply (triple_bind _ _ _ (fun _ st => st.1 = s)); [destruct i as [i|]; [apply calls_same|by apply triple_ret]|]. intros _. by apply deleting_ok.
Qed.

Lemma answered_grows s s' op answer : grows s s' -> answered s op answer -> answered s' op answer.
Proof. intros Hg. destruct op, answer; cbn; try done; apply Hg. Qed.

Abbreviation run := (enqueue new_URL lib schema base connector sc read write).

Lemma run_kept ops s x st answers : Projects -> lens_kept s -> Forall op_ok ops -> run ops (s, x) = (st, answers) ->
  lens_kept st.1 /\ grows s st.1 /\ forall op a, (op, Ok a) ∈ answers -> answered st.1 op a.
Proof using Urls0 Tomic0 Hmap H0.
  intros Hp. revert s x st answers. induction ops as [|op ops IH]; intros s x st answers Hk Hops E.
  { injection E as <- <-. split; [done|]. split; [apply grows_refl|]. by intros op a ?%elem_of_nil. }
  apply Forall_cons in Hops as [Hop Hops]. cbn [enqueue] in E. pose proof (operate_ok s op Hp Hk Hop (s, x) eq_refl) as H.
  destruct (operates op (s, x)) as [[s1 x1] r]. destruct (run ops (s1, x1)) as [st2 l] eqn:E2. injection E as <- <-.
  assert (lens_kept s1 /\ grows s s1 /\ forall a, r = Ok a -> answered s1 op a) as (Hk1 & Hg1 & Ha1).
  { destruct r as [a|e]; cbn [fst] in H; [destruct H as (? & ? & ?); split_and!; [done|done|by intros a' [= <-]]|subst s1; split_and!; [done|apply grows_refl|done]]. }
  destruct (IH s1 x1 st2 l Hk1 Hops E2) as (Hk2 & Hg2 & Ha2). split; [done|]. split; [by eapply grows_trans|].
  intros op' a [E|Hin]%elem_of_cons; [|by apply Ha2]. injection E as -> E. eapply answered_grows; [done|]. by apply Ha1.
Qed.

(** The connector with another way to create. *)
Definition with_create (create : External -> jstr -> act X string External) : AtomicConnector X External :=
  mkConnector (c_id connector) (c_get connector) create (c_update connector) (c_delete connector).

Lemma bound_publish subject id s x create : lens_kept s -> binds s sc id subject ->
  publish new_URL lib schema base (with_create create) sc write subject (s, x) = publishes subject (s, x).
Proof using Urls0 Tomic0 Hmap H0.
  intros Hk Hb. pose proof (kept_readable new_URL lib schema0 baseURL base schema H0 Hmap s (lk_kept _ Hk)) as Hrd.
  destruct (externalId_spec s sc subject Hrd) as (found & Ef & Hf). apply Hf in Hb. subst found. unfold publish, reads, mbind, act_bind. cbn [fst snd].
  destruct (get s subject); [|done]. by rewrite Ef.
Qed.

(** C7 (safety). A lens does not duplicate and does not echo.  In any run of its
    operations, failures included, what an ingested record was answered with and
    what a published resource was answered with agree: two answers are about the
    same external id exactly when they are about the same subject, so a record
    that was published comes back as the resource it was made of, and a record
    that was ingested is published to itself.  A resource that stands for a record
    is never created again, an ingestion does not touch the platform, and an
    operation that fails leaves the store as it was. *)
Theorem lens_one_to_one ops s x st answers : Projects -> lens_kept s -> Forall op_ok ops -> run ops (s, x) = (st, answers) ->
  (forall record subject subject' id, (Ingest record, Ok (Subject subject)) ∈ answers -> (Publish subject', Ok (External_id id)) ∈ answers ->
     c_id connector record = id <-> subject = subject') /\
  (forall record record' subject subject', (Ingest record, Ok (Subject subject)) ∈ answers -> (Ingest record', Ok (Subject subject')) ∈ answers ->
     c_id connector record = c_id connector record' <-> subject = subject') /\
  (forall subject subject' id id', (Publish subject, Ok (External_id id)) ∈ answers -> (Publish subject', Ok (External_id id')) ∈ answers ->
     id = id' <-> subject = subject') /\
  (forall create id subject, binds st.1 sc id subject -> publish new_URL lib schema base (with_create create) sc write subject st = publishes subject st) /\
  (forall record, (ingests record st).1.2 = st.2) /\
  (forall op, op_ok op -> match operates op st with (st', Err _) => st'.1 = st.1 | _ => True end) /\
  lens_kept st.1.
Proof using Urls0 Tomic0 Hmap H0.
  intros Hp Hk Hops E. destruct (run_kept ops s x st answers Hp Hk Hops E) as (Hk' & _ & Ha).
  pose proof (kept_readable new_URL lib schema0 baseURL base schema H0 Hmap _ (lk_kept _ Hk')) as Hrd.
  assert (Hone : forall i i' y y', binds st.1 sc i y -> binds st.1 sc i' y' -> i = i' <-> y = y').
  { intros i i' y y' H1 H2. split; intros ->; [by eapply binds_one_subject|by eapply binds_one_id]. }
  split_and!.
  - intros record subject subject' id H1%Ha H2%Ha. by apply Hone.
  - intros record record' subject subject' H1%Ha H2%Ha. by apply Hone.
  - intros subject subject' id id' H1%Ha H2%Ha. by apply Hone.
  - intros create id subject Hb. destruct st as [s' x']. by eapply bound_publish.
  - intros record. unfold ingest. destruct (_ ≫= _) as [[subject p]|e]; [|done]. by destruct (transaction _ _) as [s' [u|e]].
  - intros op Hop. pose proof (operate_ok st.1 op Hp Hk' Hop st eq_refl) as H. by destruct (operates op st) as [st' [a|e]].
  - done.
Qed.
End Safe.

Module Demo.
#[local] Existing Instances AtomicIdentity.Demo.urls AtomicIdentity.Demo.tomic.
Abbreviation new_URL := Atomic.Demo.new_URL.
Abbreviation lib := Atomic.Demo.lib.
Abbreviation schema := AtomicIdentity.Demo.schema.
Abbreviation base := AtomicIdentity.Demo.base.
Abbreviation issues := AtomicIdentity.Demo.issues.
Abbreviation count := Atomic.Demo.count.

(** A platform: records with a number and a count, of which the next number is
    the number of records and a hundred. *)
Abbreviation Platform := (list (Z * Z)).
Definition connector : AtomicConnector Platform (Z * Z) := mkConnector
  (fun r => IdNumber r.1)
  (fun id x => (x, match List.find (fun r => bool_decide (IdNumber r.1 = id)) x with Some r => Ok r | None => Err "missing"%string end))
  (fun r _ x => let created := (100 + len x, r.2) in (x ++ [created], Ok created))
  (fun id r x => (map (fun o => if bool_decide (IdNumber o.1 = id) then (o.1, r.2) else o) x, Ok tt))
  (fun id x => (List.filter (fun r => negb (bool_decide (IdNumber r.1 = id))) x, Ok tt)).

Definition read (record : Z * Z) (subject : jstr) : res string AtomicProjection := Ok (mkProjection (mkPatch (Some [(count, ONum record.2)]) None) None None).
Definition write (resource : AtomicResource) (previous : option (Z * Z)) : res string (Z * Z) :=
  match jget count resource with Some (ONum n) => Ok (default 0 (fst <$> previous), n) | _ => Err "no count"%string end.

Definition projects : Projects base connector issues read.
Proof.
  split.
  - intros record. split; [by_decide|]. split; [by_decide|]. apply dec_signed_code.
  - intros record subject p [= <-]. split; [constructor|]. split; [|intros l Hl; by vm_compute in Hl]. split; [by_decide|].
    apply Forall_cons. split; [|constructor]. split; [by_decide|by split].
  - intros record subject p [= <-]. constructor.
Qed.

Definition own : jstr := js "https://example.com/new".
Definition new : AtomicResource := [(ID, OStr own); (count, ONum 7)].
Definition store : AtomicStore := [(own, new)].

Lemma store_kept : lens_kept new_URL lib base schema store.
Proof.
  apply (quiet_put new_URL lib base schema [] own new).
  - apply lens_kept_empty.
  - by vm_compute.
  - by vm_compute.
  - apply (put_ok new_URL lib schema [] new); [apply store_ok_nil| |by vm_compute]. apply object_value. split; [by_decide|].
    repeat (apply Forall_cons; split); [..|constructor]; (split; [by_decide|split; cbn; done || by_decide]).
Qed.

(** A record comes in, the new resource goes out, and its record comes back with
    another count; a resource that is not there fails. *)
Definition ops : list (Op (Z * Z)) := [Ingest (37, 1); Publish own; Publish (js "https://example.com/none"); Ingest (100, 8); Publish own].
Lemma ops_ok : Forall (op_ok base issues) ops.
Proof. repeat (apply Forall_cons; split); [exact I|by vm_compute|by vm_compute|exact I|by vm_compute|constructor]. Qed.

Definition run := enqueue new_URL lib schema base connector issues read write ops (store, []).

Example answers : map (fun p => match p.2 with Ok (External_id i) => Some i | _ => None end) run.2 = [None; Some (IdNumber 100); None; None; Some (IdNumber 100)] /\
  run.1.2 = [(100, 8)] /\ len (all run.1.1 None) = 4.
Proof. split_and!; by vm_compute. Qed.

Lemma lens_one_to_one_witness : (Ingest (100, 8), Ok (Subject own)) ∈ run.2 /\
  (forall subject, (Ingest (100, 8), Ok (Subject subject)) ∈ run.2 -> subject = own) /\ lens_kept new_URL lib base schema run.1.1.
Proof.
  assert (H1 : run.2 !! 3%nat = Some (Ingest (100, 8), Ok (Subject own))) by (vm_compute; reflexivity).
  assert (H2 : run.2 !! 1%nat = Some (Publish own, Ok (External_id (IdNumber 100)))) by (vm_compute; reflexivity).
  apply list_elem_of_lookup_2 in H1, H2. destruct AtomicIdentity.Demo.is_made as [Hmade Hisa]. destruct run as [st answers] eqn:E. cbn [fst snd] in *.
  destruct (lens_one_to_one new_URL lib Atomic.Demo.schema (js "https://example.com/bridge/") base schema Hisa Hmade connector issues read write ops store [] st answers)
    as (H & _ & _ & _ & _ & _ & Hk).
  - exact projects.
  - exact store_kept.
  - exact ops_ok.
  - exact E.
  - split; [exact H1|]. split; [|exact Hk]. intros subject Hin. by apply (H (100, 8) subject own (IdNumber 100)).
Defined.
End Demo.
